(* ===== verification/_CoqProject ===== *)
-Q . S2P
Prelude.v
PetGraph.v
AcyclicDigraphMap.v
TaskNetwork.v
Math.v
Proto.v
EventProcessor.v
TaskManager.v
Cache.v
Traits.v
SqlString.v
SqlText.v
Database.v
Executor.v
ModelTable.v
Wire.v
Messages.v
Aggregator.v
Achievement.v
Leaderboards.v
Matching.v
Subscriptions.v
SubscriptionKinds.v
World.v
Controllers.v
Erc.v
ErcProcessors.v
WorldProcessors.v
StoreTransaction.v
Fetcher.v
Storage.v
StorageWrites.v
Query.v
Rows.v
Reads.v
Composite.v
EntityReads.v
EntityValues.v
AchievementReads.v
Messaging.v
TypedData.v
Grpc.v
Client.v
Http.v
Mcp.v
StaticFiles.v
Proxy.v
GraphqlQuery.v
GraphqlTypes.v
GraphqlTokens.v
GraphqlSchema.v
GraphqlObjects.v
GraphqlUpdates.v
Engine.v
Registry.v
