(* ===== verification/Prelude.v ===== *)
(** * Torii: a verification development

    Torii indexes a Dojo world on Starknet: it fetches the events of a set of
    contracts from a node, decodes them, and keeps a SQLite database of entities,
    event messages, tokens, balances, transactions and contracts, from which its
    servers answer. This library models the indexer from the fetcher to the
    database, and the way of updates and messages to the clients, and proves what
    makes them correct.

    ** The parts of the program and where they are modelled

    A batch goes through the program as follows.

    - The fetcher ([crates/indexer/fetcher]) asks the node for the events of every
      contract after its cursor, in ranges of blocks and pages, with the block
      being built: [Fetcher.v]. The node is the class [Node].
    - The engine ([crates/indexer/engine]) gives each event to the processor of its
      name, sorts the events into tasks, runs them, applies the balance
      differences, moves the cursors and commits; on an error it rolls back and
      retries the same batch: [Engine.v], with the loop as the step relation
      [Engine.turn].
    - Tasks ([crates/processors/src/task_manager.rs]) run on a network of tasks
      ([crates/task-network]) over an acyclic graph ([crates/adigraphmap]):
      [TaskManager.v], [TaskNetwork.v] (the interleavings of the handlers as the
      step relation [Tn.pstep]), [AcyclicDigraphMap.v], and [PetGraph.v] for the
      laws of the graph library, with an implementation of them.
    - Processors ([crates/processors/src/processors]) are records of methods
      ([EventProcessor.v]) acting on a [World]: the storage, the caches and the
      requests made to the outside ([World.v]). Those of tokens are in
      [ErcProcessors.v], with the metadata they fetch in [Erc.v]; those of the
      world, of models and of controllers in [WorldProcessors.v]; that of
      transactions in [StoreTransaction.v]. [Registry.v] is the registry that
      puts them together, with the theorems on the whole indexer.
    - Caches ([crates/cache]) of models, token registrations, balance differences
      and contract classes: [Cache.v]; signed 256-bit integers ([crates/math]):
      [Math.v]; the types of [crates/proto] they exchange: [Proto.v].
    - The storage ([crates/storage], [crates/sqlite/sqlite/src/storage.rs]) turns
      calls into messages to the executor: [Storage.v] for the operations of the
      engine, [StorageWrites.v] for those of the processors, [ModelTable.v] for the
      tables of models ([crates/sqlite/sqlite/src/lib.rs]), [SqlString.v] for
      identifiers as text.
    - Its reads ([storage.rs], [query.rs], [cursor.rs], [model.rs] and the rows of
      [crates/sqlite/types]) build statements for what a client asks and decode pages
      of rows: [Query.v] for the builder, pages and cursors, [Rows.v] for rows,
      [Reads.v] for the reads one by one, [Composite.v] for the clauses of a query of
      entities as a condition, [EntityReads.v] for the queries of entities and their
      values, [EntityValues.v] for the theorems that connect them to what is written,
      [AchievementReads.v] for achievements, players and the search; [SqlText.v] reads
      the text of a condition as SQLite does.
    - The executor ([crates/sqlite/sqlite/src/executor]) runs the messages in one
      transaction and publishes updates when it commits: [Executor.v], over the
      tables of [Database.v], with the traits of tokens in [Traits.v]; the leaderboards
      it keeps are in [Aggregator.v], the achievements of players in [Achievement.v],
      and [Leaderboards.v] gives both to the executor.
    - Controllers are copied from an API in the background ([crates/controllers]):
      [Controllers.v].
    - The updates the executor publishes go through the broker ([crates/broker]) to the
      subscribers of the gRPC server ([crates/grpc/server/src/subscriptions]):
      [Subscriptions.v] for the broker, the managers of subscribers and their services,
      [SubscriptionKinds.v] for the eleven kinds, [Matching.v] for the clauses that
      select entities. Queries and results are protobuf messages ([crates/proto]):
      [Wire.v] for values, types and entities, [Messages.v] for everything else.
    - A client may write an entity with a signed message instead of a transaction
      ([crates/messaging]): [Messaging.v] for the parsing of a message into the schema of
      its model, the checks of its timestamp and signature and the write. The typed data
      clients build and sign ([crates/typed-data]) is in [TypedData.v].
    - The gRPC server ([crates/grpc/server/src/lib.rs]) answers requests from the storage,
      the managers of subscribers and the messaging service: [Grpc.v]. Its clients
      ([crates/grpc/client], [crates/client]) are in [Client.v], on top of the handlers,
      so that its theorems go from the call of a client to the storage and back.
    - The HTTP server ([crates/server]) is a proxy in front of the GraphQL and gRPC
      servers, with handlers of its own: [Http.v] for raw SQL and the reindexing of
      metadata, [Mcp.v] for the model context protocol ([crates/mcp]), [StaticFiles.v]
      for the images and metadata of tokens, [Proxy.v] for the choice of the handler.
    - The GraphQL server ([crates/graphql]) answers from the tables: [GraphqlQuery.v] for
      arguments, filters, cursors and pages, [GraphqlTypes.v] for the types and values of
      models and for where arguments, [GraphqlTokens.v] for tokens, balances and transfers,
      [GraphqlSchema.v] for the schema, [GraphqlObjects.v] for what the fields of objects
      answer, [GraphqlUpdates.v] for the subscriptions and the mutation.

    ** How code is modelled

    Fallible code returns an [outcome]: a value, an error, or a panic. Code that
    changes state is in the monad [st], which returns the state on every outcome,
    since a method that fails keeps the changes made before. Machine integers are
    in [Z] with their wrap-around or overflow written out. Hash maps are [gmap]s;
    where the order of iteration can be observed it is the one of [HashOrder], an
    arbitrary order. [DashMap], [IndexMap] and [LinkedHashMap] are classes with the
    laws of these libraries and a list or [gmap] implementation.

    Code outside the repository is a class of functions: the node ([Node]), HTTP
    and IPFS ([MetadataEnv]), the decoders of Cairo values ([CairoSerde],
    [DojoSchema], [CallSerde]), hashing ([Hasher]), SQLite running the text of a
    statement ([ExecutorEnv] for writes, [Pool] for reads). What a theorem needs of them is a named hypothesis,
    and its witness has an instance for which it holds.

    Components meet in classes: the engine is proved against [IndexerStorage] with
    the laws [IndexerStorageSpec], which [Storage.v] proves of the executor, and the
    processors against [ProcessorStorage] with [ProcessorStorageSpec], which
    [StorageWrites.v] proves. [keeps R m] says that [m] moves the state along [R]
    only, whatever its outcome; the tactic [keeps_solve] proves it along the
    structure of the code.

    ** What the theorems show

    - Batches: only whole batches are ever committed
      ([Registry.indexer_commits_whole_batches]), a failed one is retried from the
      committed state ([Engine.failed_batch_retried]), and sorting, dispatch and
      tasks lose and reorder nothing ([Engine.sorted_events],
      [Registry.event_dispatched], [Tm.batch_task_events],
      [Tm.latest_compression_sound]).
    - Fetching: a range holds exactly the new events, successive ranges each event
      once ([Fetcher.fetch_range_exact], [Fetcher.fetch_exactly_once]), and the
      block being built agrees with the block it becomes.
    - Tasks: a handler runs after those it depends on and every interleaving ends
      ([Tn.process_tasks_safe], [Tm.dependencies_respected],
      [Tn.process_tasks_terminates], [Adm.topo_sort_by_level_correct]).
    - Tokens: transfers give the exact balances, through the cache and the
      executor ([Cache.balance_diffs_exact], [Ex.apply_balance_diff_exact],
      [ErcProc.transfer_batch_accounted]), in the old layouts as in the new ones
      ([ErcProc.legacy_layouts_equivalent]).
    - Storage: messages stay in the transaction and publications wait for the
      commit ([Ex.transaction_step], [Ex.confirmed_publications]), the columns
      written exist ([ModelTable.written_columns_exist]) and statements are bound
      ([Writes.messages_bound]).
    - Reads: following the cursors of a read gives every row once, in order
      ([Query.forward_pages_exact]), as long as it is ordered by one field
      ([Query.cursor_binds_iff]); statements are bound and their conditions are those
      asked for ([Reads.reads_bound], [Reads.reads_conjoined], [Composite.composite_exact]);
      what was written is read back, from a table or from a page
      ([Rows.stored_rows_read_back], [EntityValues.stored_model_read_back],
      [EntityValues.page_reads_model]).
    - Leaderboards: aggregated values and the progress of players on achievements
      are those of abstract counters ([Agg.aggregation_exact],
      [Ach.achievements_exact], [Leaderboards.achievement_message]).
    - Subscriptions: a subscriber gets exactly the updates it wants, once and in order,
      until it hangs up or falls behind ([Manager.subscription_exact]), from updates
      none of which is lost on the way ([Service.service_lossless]); which updates it
      wants ([Kinds.entity_wants_exact]), and that a query for stored entities asks
      for the same keys ([Matching.stored_keys_equivalent]).
    - Messages: what is sent is read back ([entity_roundtrip], [Msg.queries_roundtrip],
      [Msg.results_roundtrip]).
    - Signed messages: an entity is written exactly when the account that owns it signed
      the message ([Messaging.message_authorized]), with increasing timestamps
      ([Messaging.timestamps_increase]) and values of the schema
      ([Messaging.parsed_message_typed]). The typed data of a model holds it
      ([TypedData.model_reads_back]), and the hash of a type is of exactly the types it
      refers to ([TypedData.dependencies_exact]); what hashes leave out
      ([TypedData.later_fields_unhashed], [TypedData.field_of_another_type]).
    - Clients: every read of a client is the read of the storage
      ([Client.client_reads_storage]), what it subscribes to arrives at the manager of
      the subscriptions ([Client.subscriptions_arrive]), and which of the messages it
      publishes are written and relayed ([Client.published_messages]); a search returns
      the best matches of every kind of entity ([AchReads.search_exact]).
    - HTTP: static files stay in their directory and images are fetched once
      ([Static.static_writes_contained], [Static.image_fetched_once]), requests of the
      model context protocol are answered in order ([Mcp.posts_answered]), and what a
      request to reindex a token commits ([Proxy.reindex_commits]).
    - GraphQL: the pages of a connection show every row once ([Gql.connection_pages_exact]),
      conditions on models ask for what they name ([GqlTypes.where_filter_exact]), models
      are read from their own columns ([GqlTypes.model_reads_own_columns]), a token is the
      same everywhere ([GqlTokens.token_nodes_agree]), the schema has every type it refers
      to ([Schema.schema_complete]), every field of a model has an answer
      ([Objects.model_fields_answer]), subscribers to events are sent those they asked for
      ([Updates.event_emitted_exact]) and a message is written as gRPC writes it
      ([Updates.graphql_publishes_as_grpc]); and what does not work, such as the cursors of
      balances ([GqlTokens.balance_cursors_refused]), the calls of some transactions
      ([Objects.calls_not_found]) and the subscription of event messages
      ([Updates.event_messages_never_sent]).
    - Errors: what stops the indexer ([Registry.malformed_event_panics],
      [Ex.executor_lost_after_failure], [Erc.token_metadata_failures]) or a server
      ([Msg.query_panics_iff], [Kinds.fixed_array_ends_service]), and what they survive.

    ** Fuel and bounds

    The loops of the source that are not structural have fuel: [level_loop] the
    number of nodes, shown to be enough by [topo_sort_by_level_correct]; the pages
    of a fetch, [fuel] being the number of turns, with the theorems stating how
    many are enough; retries, whose number is a constant of the code; the calls from
    outside, the length of the calldata ([outside_loop_cap]); a range of tokens, its
    size ([token_range_exact]); draining a stream, the length of its queue
    ([poll_all_spec]); the chunks of a list, its length; the types a type refers to, one
    more than the number of types ([dependencies_exact]).

    ** What is not modelled

    The playground of GraphQL; the peer-to-peer relay; the set-up of the transports of gRPC,
    GraphQL and HTTP (TLS, the loop that accepts connections); the command line and the runner,
    which configure and start the parts; migrations, which are SQL text; the generated
    code of [crates/proto], whose messages are the records of its [.proto] files. Time,
    metrics and logs are left out. Tasks spawned by a processor run one
    after the other, in any order, and those it leaves in the background run before
    the next step. *)

From stdpp Require Export base gmap list strings sorting fin_maps.
From Stdlib Require Export ZArith Lia.

Declare Scope torii_scope.
Delimit Scope torii_scope with torii.

(** ** Outcomes of fallible code

    [Ok] and [Err] are the two constructors of Rust's [Result]; [Panic] is a
    call of [panic!], a failed [unwrap]/[expect], or an index out of range. *)
Inductive outcome (E A : Type) : Type :=
| Ok (a : A)
| Err (e : E)
| Panic.
Arguments Ok {E A} a.
Arguments Err {E A} e.
Arguments Panic {E A}.

#[global] Instance outcome_eq_dec {E A} `{EqDecision E, EqDecision A} :
  EqDecision (outcome E A).
Proof. solve_decision. Defined.

Definition is_ok {E A} (o : outcome E A) : bool :=
  match o with Ok _ => true | _ => false end.

Definition is_panic {E A} (o : outcome E A) : bool :=
  match o with Panic => true | _ => false end.

Definition outcome_bind {E A B} (m : outcome E A) (k : A → outcome E B) : outcome E B :=
  match m with Ok a => k a | Err e => Err e | Panic => Panic end.

(** [r.map_err(f)] *)
Definition map_err {E E' A} (f : E → E') (m : outcome E A) : outcome E' A :=
  match m with Ok a => Ok a | Err e => Err (f e) | Panic => Panic end.

(** [o.unwrap()], [o.expect(..)] *)
Definition unwrap {E A} (o : option A) : outcome E A :=
  match o with Some a => Ok a | None => Panic end.

(** [o.ok_or(e)] *)
Definition ok_or {E A} (e : E) (o : option A) : outcome E A :=
  match o with Some a => Ok a | None => Err e end.

(** ** State passing with errors

    A method taking [&mut self] and returning a [Result] keeps the mutations
    made before the point where it returned an error, so the state comes back
    on every outcome. *)
Definition st (S E A : Type) : Type := S → outcome E A * S.

Definition st_ret {S E A} (a : A) : st S E A := λ s, (Ok a, s).
Definition st_bind {S E A B} (m : st S E A) (k : A → st S E B) : st S E B :=
  λ s, match m s with
       | (Ok a, s') => k a s'
       | (Err e, s') => (Err e, s')
       | (Panic, s') => (Panic, s')
       end.
Definition st_get {S E} : st S E S := λ s, (Ok s, s).
Definition st_modify {S E} (f : S → S) : st S E unit := λ s, (Ok tt, f s).
Definition st_lift {S E A} (o : outcome E A) : st S E A := λ s, (o, s).
Definition st_throw {S E A} (e : E) : st S E A := λ s, (Err e, s).
Definition st_map_err {S E E' A} (f : E → E') (m : st S E A) : st S E' A :=
  λ s, (map_err f (m s).1, (m s).2).

Notation "'let!' x ':=' c 'in' k" := (st_bind c (λ x, k))
  (at level 10, x pattern, c at level 100, k at level 200) : torii_scope.
Notation "c ';;;' k" := (st_bind c (λ _, k))
  (at level 199, k at level 200, right associativity) : torii_scope.
Notation "'let?' x ':=' c 'in' k" := (outcome_bind c (λ x, k))
  (at level 10, x pattern, c at level 100, k at level 200) : torii_scope.

(** Running a component's operation on a field of a larger state. *)
Definition st_zoom {S T E A} (get : T → S) (set : S → T → T) (m : st S E A) : st T E A :=
  λ t, let '(o, s') := m (get t) in (o, set s' t).

(** [for x in l { f(x)?; }] *)
Fixpoint for_each {S E A} (f : A → st S E unit) (l : list A) : st S E unit :=
  match l with
  | [] => st_ret tt
  | x :: l => st_bind (f x) (λ _, for_each f l)
  end.

(** The same loop over a pure accumulator. *)
Fixpoint fold_outcome {E A B} (f : B → A → outcome E B) (l : list A) (b : B) : outcome E B :=
  match l with
  | [] => Ok b
  | x :: l => outcome_bind (f b x) (fold_outcome f l)
  end.

(** ** Unspecified iteration order

    [HashMap] and [HashSet] iterate in an order that is not specified. A
    definition whose Rust counterpart iterates over one takes that order as a
    parameter; the class says all that the language promises of it. *)
Class HashOrder : Type := {
  hm_iter {K V} `{Countable K} : gmap K V → list (K * V);
  hm_iter_perm {K V} `{Countable K} (m : gmap K V) : hm_iter m ≡ₚ map_to_list m;
  hs_iter {K} `{Countable K} : gset K → list K;
  hs_iter_perm {K} `{Countable K} (s : gset K) : hs_iter s ≡ₚ elements s
}.

(** The order of [map_to_list] is one such order; it runs the witnesses. *)
Definition canonical_order : HashOrder :=
  {| hm_iter _ _ _ _ m := map_to_list m; hm_iter_perm _ _ _ _ m := reflexivity _;
     hs_iter _ _ _ s := elements s; hs_iter_perm _ _ _ s := reflexivity _ |}.

Section hash_order.
Context {HO : HashOrder} {K V : Type} `{Countable K}.
Implicit Types m : gmap K V.

Definition hm_keys m : list K := (hm_iter m).*1.
Definition hm_values m : list V := (hm_iter m).*2.

Lemma elem_of_hm_iter m k v : (k, v) ∈ hm_iter m ↔ m !! k = Some v.
Proof. rewrite hm_iter_perm. apply elem_of_map_to_list. Qed.

Lemma NoDup_hm_keys m : NoDup (hm_keys m).
Proof. unfold hm_keys. rewrite hm_iter_perm. apply NoDup_fst_map_to_list. Qed.

Lemma elem_of_hm_keys m k : k ∈ hm_keys m ↔ is_Some (m !! k).
Proof.
  unfold hm_keys. rewrite list_elem_of_fmap. split.
  - intros ([k' v] & -> & Hin). apply elem_of_hm_iter in Hin. by exists v.
  - intros [v Hv]. exists (k, v). by rewrite elem_of_hm_iter.
Qed.

Lemma elem_of_hs_iter (s : gset K) k : k ∈ hs_iter s ↔ k ∈ s.
Proof. rewrite hs_iter_perm. apply elem_of_elements. Qed.

Lemma NoDup_hs_iter (s : gset K) : NoDup (hs_iter s).
Proof. rewrite hs_iter_perm. apply NoDup_elements. Qed.
End hash_order.

(** ** Machine integers *)
Definition u64_max : Z := 2 ^ 64 - 1.
Definition u64_wrap (z : Z) : Z := z mod 2 ^ 64.
(** [a + b] on [u64] in a release build *)
Definition u64_add (a b : Z) : Z := u64_wrap (a + b).
Definition u64_sub (a b : Z) : Z := u64_wrap (a - b).
(** [a.saturating_add(b)] on [u64] *)
Definition u64_saturating_add (a b : Z) : Z := Z.min (a + b) u64_max.

Lemma u64_add_small a b : (0 ≤ a)%Z → (0 ≤ b)%Z → (a + b ≤ u64_max)%Z → u64_add a b = (a + b)%Z.
Proof. unfold u64_add, u64_wrap, u64_max. intros. apply Z.mod_small. lia. Qed.

Lemma u64_sub_small a b : (0 ≤ b ≤ a)%Z → (a ≤ u64_max)%Z → u64_sub a b = (a - b)%Z.
Proof. unfold u64_sub, u64_wrap, u64_max. intros. apply Z.mod_small. lia. Qed.

(** ** Automation *)
Create HintDb torii.

(** Inverts equations between outcomes and pairs, and splits the [match]es of
    the goal on outcomes. *)
Ltac simp_outcome :=
  repeat first
    [ progress simplify_eq/=
    | match goal with
      | H : outcome_bind ?m _ = Ok _ |- _ => destruct m eqn:?; simpl in H; try discriminate H
      | H : unwrap ?o = Ok _ |- _ => destruct o eqn:?; simpl in H; try discriminate H
      | H : ok_or _ ?o = Ok _ |- _ => destruct o eqn:?; simpl in H; try discriminate H
      end ].

(** ** Shared list lemmas *)
Section lists.
Context {A : Type}.
Implicit Types l : list A.

(** Elements after the first one satisfying [P], that one included. *)
Fixpoint drop_until (p : A → bool) l : list A :=
  match l with
  | [] => []
  | x :: l' => if p x then l else drop_until p l'
  end.

Lemma filter_ext_in (P Q : A → Prop) `{!∀ x, Decision (P x), !∀ x, Decision (Q x)} l :
  (∀ x, x ∈ l → P x ↔ Q x) → filter P l = filter Q l.
Proof.
  induction l as [|x l IH]; intros Hiff; [done|]. rewrite !filter_cons.
  rewrite IH by (intros y Hy; apply Hiff; by right).
  assert (P x ↔ Q x) by (apply Hiff; left). repeat case_decide; naive_solver.
Qed.

Lemma filter_sublist (P : A → Prop) `{!∀ x, Decision (P x)} l : sublist (filter P l) l.
Proof. induction l; [done|]. rewrite filter_cons. by case_decide; constructor. Qed.

Lemma for_each_app {S E} (f : A → st S E unit) l1 l2 s :
  for_each f (l1 ++ l2) s = st_bind (for_each f l1) (λ _, for_each f l2) s.
Proof.
  revert s. induction l1 as [|x l1 IH]; intros s; [done|].
  simpl. unfold st_bind at 1 2 3. destruct (f x s) as [[] s']; [|done..]. apply IH.
Qed.

(** A loop whose body keeps [P] keeps [P], whatever its outcome. *)
Lemma for_each_inv {S E} (P : S → Prop) (f : A → st S E unit) l s :
  (∀ x s, x ∈ l → P s → P (f x s).2) → P s → P (for_each f l s).2.
Proof.
  revert s. induction l as [|x l IH]; intros s Hf Hs; [done|].
  simpl. unfold st_bind. specialize (Hf x s) as Hx.
  destruct (f x s) as [[] s'] eqn:Hfx; simpl in *; try (apply Hx; [left|done]).
  apply IH; [|apply Hx; [left|done]]. intros y t Hy. apply Hf. by right.
Qed.

Lemma for_each_Ok_cons {S E} (f : A → st S E unit) x l (s s'' : S) :
  for_each f (x :: l) s = (Ok tt, s'') ↔
  ∃ s', f x s = (Ok tt, s') ∧ for_each f l s' = (Ok tt, s'').
Proof.
  simpl. unfold st_bind. destruct (f x s) as [[[]| |] s']; naive_solver.
Qed.
End lists.

(** ** Effects of stateful code *)

(** [l.map(f)] with an early return, results in order *)
Fixpoint st_mapM {S E A B} (f : A → st S E B) (l : list A) : st S E (list B) :=
  match l with
  | [] => st_ret []
  | x :: l => st_bind (f x) (λ y, st_bind (st_mapM f l) (λ ys, st_ret (y :: ys)))
  end.

(** Running code only moves the state along [R], whatever its outcome. *)
Definition keeps {S E A} (R : relation S) (m : st S E A) : Prop := ∀ s, R s (m s).2.

Section keeps.
Context {S E : Type} (R : relation S) `{!PreOrder R}.

Lemma keeps_ret {A} (a : A) : keeps R (st_ret (E := E) a).
Proof. intros s. reflexivity. Qed.
Lemma keeps_lift {A} (o : outcome E A) : keeps R (st_lift o).
Proof. intros s. reflexivity. Qed.
Lemma keeps_throw {A} (e : E) : keeps R (st_throw (A := A) e).
Proof. intros s. reflexivity. Qed.
Lemma keeps_get : keeps R (st_get (E := E)).
Proof. intros s. reflexivity. Qed.
Lemma keeps_bind {A B} (m : st S E A) (k : A → st S E B) :
  keeps R m → (∀ a, keeps R (k a)) → keeps R (st_bind m k).
Proof.
  intros Hm Hk s. unfold st_bind. specialize (Hm s). destruct (m s) as [[a|e|] s'] eqn:Hs; simpl in *;
    [|done..]. etrans; [done|]. apply Hk.
Qed.
Lemma keeps_for_each {A} (f : A → st S E unit) l : (∀ x, keeps R (f x)) → keeps R (for_each f l).
Proof. intros Hf. induction l; simpl; [apply keeps_ret|]. by apply keeps_bind. Qed.
Lemma keeps_for_each_in {A} (f : A → st S E unit) l :
  (∀ x, x ∈ l → keeps R (f x)) → keeps R (for_each f l).
Proof.
  induction l as [|x l IH]; intros Hf; [apply keeps_ret|]. simpl. apply keeps_bind; [apply Hf; left|].
  intros _. apply IH. intros y Hy. apply Hf. by right.
Qed.
Lemma keeps_mapM {A B} (f : A → st S E B) l : (∀ x, keeps R (f x)) → keeps R (st_mapM f l).
Proof.
  intros Hf. induction l; simpl; [apply keeps_ret|].
  apply keeps_bind; [done|]. intros y. apply keeps_bind; [done|]. intros ys. apply keeps_ret.
Qed.
Lemma keeps_map_err {E' A} (g : E → E') (m : st S E A) : keeps R m → keeps R (st_map_err g m).
Proof. intros Hm s. apply Hm. Qed.
End keeps.

(** Splits a [keeps] goal along the structure of the code. *)
Ltac keeps_step :=
  first
    [ apply keeps_ret; exact _ | apply keeps_lift; exact _ | apply keeps_throw; exact _
    | apply keeps_get; exact _
    | apply keeps_bind; [exact _| |intros ?]
    | apply keeps_for_each; [exact _|intros ?]
    | apply keeps_mapM; [exact _|intros ?]
    | match goal with |- keeps _ (match ?x with _ => _ end) => destruct x end ].
Ltac keeps_solve := repeat first [ solve [auto with torii] | keeps_step ].

Lemma st_bind_Ok {S E A B} (m : st S E A) (k : A → st S E B) s b s'' :
  st_bind m k s = (Ok b, s'') ↔ ∃ a s', m s = (Ok a, s') ∧ k a s' = (Ok b, s'').
Proof. unfold st_bind. destruct (m s) as [[] s']; naive_solver. Qed.

(** ** Code that returns *)
Definition gives {S E A} (m : st S E A) (s : S) (Q : A → S → Prop) : Prop :=
  ∃ r s', m s = (Ok r, s') ∧ Q r s'.

Section gives.
Context {S E : Type}.

Lemma gives_ret {A} (a : A) s (Q : A → S → Prop) : Q a s → gives (E := E) (st_ret a) s Q.
Proof. intros HQ. by exists a, s. Qed.
Lemma gives_lift {A} (a : A) s (Q : A → S → Prop) : Q a s → gives (E := E) (st_lift (Ok a)) s Q.
Proof. intros HQ. by exists a, s. Qed.
Lemma gives_get s (Q : S → S → Prop) : Q s s → gives (E := E) st_get s Q.
Proof. intros HQ. by exists s, s. Qed.
Lemma gives_bind {A B} (m : st S E A) (k : A → st S E B) s Q :
  gives m s (λ a s', gives (k a) s' Q) → gives (st_bind m k) s Q.
Proof. intros (a & s' & Hm & r & s'' & Hk & HQ). exists r, s''. split; [|done]. unfold st_bind. by rewrite Hm. Qed.
Lemma gives_assoc {A B C} (m : st S E A) (k : A → st S E B) (h : B → st S E C) s Q :
  gives (st_bind (st_bind m k) h) s Q → gives (st_bind m (λ a, st_bind (k a) h)) s Q.
Proof. unfold gives, st_bind. by destruct (m s) as [[] s']. Qed.
Lemma gives_mono {A} (m : st S E A) s (P Q : A → S → Prop) :
  gives m s P → (∀ a s', P a s' → Q a s') → gives m s Q.
Proof. intros (a & s' & Hm & HP) HPQ. exists a, s'. auto. Qed.
Lemma gives_mapM {A B} (f : A → st S E B) (g : A → B → Prop) (I : S → Prop) l s :
  (∀ a s, I s → a ∈ l → gives (f a) s (λ b s', g a b ∧ I s')) → I s →
  gives (st_mapM f l) s (λ bs s', Forall2 g l bs ∧ I s').
Proof.
  revert s. induction l as [|a l IH]; intros s Hf HI; simpl.
  { apply gives_ret. by split. }
  apply gives_bind. eapply gives_mono; [apply Hf; [done|left]|]. intros b s1 [Hb HI1].
  apply gives_bind. eapply gives_mono; [apply IH; [|done]|].
  { intros ????. apply Hf; [done|by right]. }
  intros bs s2 [Hbs HI2]. apply gives_ret. split; [by constructor|done].
Qed.
End gives.

Lemma outcome_of {A B : Type} (p : A * B) a : p.1 = a → p = (a, p.2).
Proof. by destruct p; intros [= ->]. Qed.

(** ** Filters *)
Lemma filter_all {A} (P : A → Prop) `{!∀ x, Decision (P x)} l : Forall P l → filter P l = l.
Proof. induction 1 as [|x l Hx Hl IH]; [done|]. by rewrite filter_cons_True, IH. Qed.
Lemma filter_none {A} (P : A → Prop) `{!∀ x, Decision (P x)} l : Forall (λ x, ¬ P x) l → filter P l = [].
Proof. induction 1 as [|x l Hx Hl IH]; [done|]. by rewrite filter_cons_False, IH. Qed.

(** ** Strings *)
Lemma string_app_assoc (a b c : string) : a +:+ b +:+ c = (a +:+ b) +:+ c.
Proof. induction a as [|x a IH]; [done|]. change (String x (a +:+ b +:+ c) = String x ((a +:+ b) +:+ c)). by f_equal. Qed.
