(* ===== verification/PetGraph.v ===== *)
(** * The directed graph of petgraph

    [crates/adigraphmap] builds on [petgraph::graph::DiGraph], which is not
    part of the repository. The operations it calls are the fields of
    [DiGraphOps]; [DiGraphSpec] states what petgraph documents of them.
    Everything proved of the task scheduler is proved against this interface.
    [ListGraph] is a model of it, so the laws are consistent, and it is what
    the witnesses run on. *)

From S2P Require Import Prelude.

(** ** Operations *)
Class DiGraphOps (V : Type) : Type := {
  digraph : Type;
  dg_new : digraph;
  dg_add_node : V → digraph → nat * digraph;
  dg_add_edge : nat → nat → digraph → digraph;
  (** [graph[idx]] *)
  dg_weight : digraph → nat → option V;
  (** [graph[idx] = v] through [&mut graph[idx]] *)
  dg_set_weight : nat → V → digraph → digraph;
  dg_node_indices : digraph → list nat;
  dg_node_count : digraph → nat;
  (** [graph.neighbors_directed(n, Outgoing)] and [Incoming] *)
  dg_outgoing : digraph → nat → list nat;
  dg_incoming : digraph → nat → list nat;
  dg_has_path_connecting : digraph → nat → nat → bool;
  (** [petgraph::algo::toposort]; [None] stands for [Err(Cycle)] *)
  dg_toposort : digraph → option (list nat);
  (** the edge list, parallel edges included; not called by the code, it is
      what the laws of the other operations speak of *)
  dg_edges : digraph → list (nat * nat)
}.
Arguments digraph V {_}.

Section graph_notions.
Context {V : Type} `{!DiGraphOps V}.
Implicit Types g : digraph V.

Definition dg_edge g (a b : nat) : Prop := (a, b) ∈ dg_edges g.
(** A path of zero or more edges. *)
Definition dg_path g : nat → nat → Prop := rtc (dg_edge g).
Definition dg_acyclic g : Prop := ∀ a b, dg_edge g a b → ¬ dg_path g b a.

(** [a] occurs before [b] in [l]. *)
Definition before (l : list nat) (a b : nat) : Prop :=
  ∃ i j, l !! i = Some a ∧ l !! j = Some b ∧ i < j.
End graph_notions.

(** ** Laws *)
Class DiGraphSpec (V : Type) `{!DiGraphOps V} : Prop := {
  dg_new_nodes : dg_node_indices dg_new = [];
  dg_new_edges : dg_edges dg_new = [];
  (** indices are compact: node number [n] is the [n]-th added *)
  dg_nodes_compact g : dg_node_indices g = seq 0 (dg_node_count g);
  dg_edges_valid g a b :
    (a, b) ∈ dg_edges g → a ∈ dg_node_indices g ∧ b ∈ dg_node_indices g;
  dg_weight_is_Some g n : is_Some (dg_weight g n) ↔ n ∈ dg_node_indices g;
  dg_add_node_index v g : (dg_add_node v g).1 = dg_node_count g;
  dg_add_node_count v g : dg_node_count (dg_add_node v g).2 = S (dg_node_count g);
  dg_add_node_edges v g : dg_edges (dg_add_node v g).2 = dg_edges g;
  dg_add_node_weight v g n :
    dg_weight (dg_add_node v g).2 n =
      if decide (n = dg_node_count g) then Some v else dg_weight g n;
  dg_add_edge_count a b g : dg_node_count (dg_add_edge a b g) = dg_node_count g;
  dg_add_edge_weight a b g n : dg_weight (dg_add_edge a b g) n = dg_weight g n;
  dg_add_edge_edges a b g :
    a ∈ dg_node_indices g → b ∈ dg_node_indices g →
    dg_edges (dg_add_edge a b g) ≡ₚ (a, b) :: dg_edges g;
  dg_set_weight_count n v g : dg_node_count (dg_set_weight n v g) = dg_node_count g;
  dg_set_weight_edges n v g : dg_edges (dg_set_weight n v g) = dg_edges g;
  dg_set_weight_weight n v g m :
    n ∈ dg_node_indices g →
    dg_weight (dg_set_weight n v g) m = if decide (m = n) then Some v else dg_weight g m;
  dg_outgoing_edges g n :
    dg_outgoing g n ≡ₚ (filter (λ e, e.1 = n) (dg_edges g)).*2;
  dg_incoming_edges g n :
    dg_incoming g n ≡ₚ (filter (λ e, e.2 = n) (dg_edges g)).*1;
  dg_has_path_spec g a b :
    a ∈ dg_node_indices g → b ∈ dg_node_indices g →
    dg_has_path_connecting g a b = true ↔ dg_path g a b;
  dg_toposort_sound g l :
    dg_toposort g = Some l →
    l ≡ₚ dg_node_indices g ∧ ∀ a b, dg_edge g a b → before l a b;
  dg_toposort_complete g : dg_acyclic g → is_Some (dg_toposort g)
}.

(** ** Ancestors

    In an acyclic graph the number of ancestors strictly increases along an
    edge. This gives a source in every non-empty set of nodes, and a
    topological order by sorting. *)
Section ancestors.
Context {V : Type} `{!DiGraphOps V, !DiGraphSpec V}.
Implicit Types g : digraph V.

Definition ancestors g (n : nat) : list nat :=
  filter (λ a, dg_has_path_connecting g a n = true) (dg_node_indices g).

Lemma dg_path_valid g a b : dg_path g a b → b ∈ dg_node_indices g → a ∈ dg_node_indices g.
Proof. destruct 1 as [|a c b Hac]; [done|]. by apply dg_edges_valid in Hac as []. Qed.

Lemma elem_of_ancestors g a n :
  n ∈ dg_node_indices g → a ∈ ancestors g n ↔ dg_path g a n.
Proof.
  intros Hn. unfold ancestors. rewrite list_elem_of_filter. split.
  - intros [Hp Ha]. by apply dg_has_path_spec in Hp.
  - intros Hp. assert (a ∈ dg_node_indices g) by eauto using dg_path_valid.
    by rewrite dg_has_path_spec.
Qed.

Lemma ancestors_edge_lt g a b :
  dg_acyclic g → dg_edge g a b → length (ancestors g a) < length (ancestors g b).
Proof.
  intros Hac Hab. destruct (dg_edges_valid _ _ _ Hab) as [Ha Hb].
  assert (NoDup (dg_node_indices g)) as Hnd.
  { rewrite dg_nodes_compact. apply NoDup_seq. }
  assert (b :: ancestors g a ⊆+ ancestors g b) as Hsub.
  { apply NoDup_submseteq.
    - constructor; [|by apply NoDup_filter].
      rewrite elem_of_ancestors by done. by apply Hac.
    - intros x [->|Hx]%elem_of_cons; rewrite elem_of_ancestors by done; [apply rtc_refl|].
      rewrite elem_of_ancestors in Hx by done. eapply rtc_r; eauto. }
  apply submseteq_length in Hsub. simpl in Hsub. lia.
Qed.

(** A non-empty list of nodes has one without a predecessor in the list. *)
Lemma acyclic_source g (l : list nat) :
  dg_acyclic g → l ≠ [] → ∃ n, n ∈ l ∧ ∀ m, m ∈ l → ¬ dg_edge g m n.
Proof.
  intros Hac Hl.
  assert (∃ n, n ∈ l ∧ ∀ m, m ∈ l → length (ancestors g n) ≤ length (ancestors g m))
    as (n & Hn & Hmin).
  { clear Hac. induction l as [|x l IH]; [done|]. destruct l as [|y l].
    - exists x. split; [left|]. intros m ->%list_elem_of_singleton. lia.
    - destruct IH as (n & Hn & Hmin); [done|].
      destruct (decide (length (ancestors g x) ≤ length (ancestors g n))).
      + exists x. split; [left|]. intros m [->|Hm]%elem_of_cons; [lia|].
        specialize (Hmin m Hm). lia.
      + exists n. split; [by right|]. intros m [->|Hm]%elem_of_cons; [lia|auto]. }
  exists n. split; [done|]. intros m Hm Hmn.
  apply ancestors_edge_lt in Hmn; [|done]. specialize (Hmin m Hm). lia.
Qed.
End ancestors.

(** ** A list-based instance *)
Module ListGraph.
Section list_graph.
Context {V : Type}.

Record t := mk { weights : list V; arcs : list (nat * nat) }.

(** Nodes reachable from [s] in at most [n] steps. *)
Definition succs (es : list (nat * nat)) (s : list nat) : list nat :=
  (filter (λ e, e.1 ∈ s) es).*2.
Fixpoint reach (es : list (nat * nat)) (n : nat) (s : list nat) : list nat :=
  match n with
  | O => s
  | S n => reach es n (remove_dups (s ++ succs es s))
  end.

Definition valid_arcs (n : nat) (es : list (nat * nat)) : list (nat * nat) :=
  filter (λ e, e.1 < n ∧ e.2 < n) es.

Definition edges (g : t) : list (nat * nat) := valid_arcs (length (weights g)) (arcs g).

Definition has_path (g : t) (a b : nat) : bool :=
  bool_decide (b ∈ reach (edges g) (length (weights g)) [a]).

Definition anc (g : t) (n : nat) : nat :=
  length (filter (λ a, has_path g a n = true) (seq 0 (length (weights g)))).

Definition anc_le (g : t) (a b : nat) : Prop := anc g a ≤ anc g b.
#[global] Instance anc_le_dec g : RelDecision (anc_le g).
Proof. unfold anc_le. intros a b. apply _. Defined.

Definition cyclic (g : t) : bool :=
  existsb (λ e : nat * nat, has_path g e.2 e.1) (edges g).

Definition toposort (g : t) : option (list nat) :=
  if cyclic g then None
  else Some (merge_sort (anc_le g) (seq 0 (length (weights g)))).

#[global] Instance ops : DiGraphOps V := {|
  digraph := t;
  dg_new := mk [] [];
  dg_add_node v g := (length (weights g), mk (weights g ++ [v]) (edges g));
  dg_add_edge a b g := mk (weights g) ((a, b) :: arcs g);
  dg_weight g n := weights g !! n;
  dg_set_weight n v g := mk (<[n := v]> (weights g)) (arcs g);
  dg_node_indices g := seq 0 (length (weights g));
  dg_node_count g := length (weights g);
  dg_outgoing g n := (filter (λ e, e.1 = n) (edges g)).*2;
  dg_incoming g n := (filter (λ e, e.2 = n) (edges g)).*1;
  dg_has_path_connecting := has_path;
  dg_toposort := toposort;
  dg_edges := edges
|}.

(** *** Reachability by iteration *)
Definition closed (es : list (nat * nat)) (s : list nat) : Prop :=
  ∀ a b, a ∈ s → (a, b) ∈ es → b ∈ s.

Lemma elem_of_succs es s b : b ∈ succs es s ↔ ∃ a, a ∈ s ∧ (a, b) ∈ es.
Proof.
  unfold succs. rewrite list_elem_of_fmap. split.
  - intros ([a b'] & -> & [Ha He]%list_elem_of_filter). by exists a.
  - intros (a & Ha & He). exists (a, b). by rewrite list_elem_of_filter.
Qed.

Lemma reach_incl es n s : s ⊆ reach es n s.
Proof.
  revert s. induction n as [|n IH]; intros s x Hx; [done|]. simpl. apply IH.
  rewrite elem_of_remove_dups, elem_of_app. by left.
Qed.

Lemma reach_sound es n s b : b ∈ reach es n s → ∃ a, a ∈ s ∧ rtc (λ x y, (x, y) ∈ es) a b.
Proof.
  revert s. induction n as [|n IH]; intros s Hb; simpl in Hb; [by eauto using rtc_refl|].
  destruct (IH _ Hb) as (a & Ha & Hab).
  rewrite elem_of_remove_dups, elem_of_app, elem_of_succs in Ha.
  destruct Ha as [Ha|(c & Hc & Hca)]; [eauto|]. exists c. split; [done|]. by eapply rtc_l.
Qed.

Lemma reach_closed es (nodes : list nat) n s :
  (∀ a b, (a, b) ∈ es → b ∈ nodes) → NoDup s → s ⊆ nodes →
  length nodes < n + length s → closed es (reach es n s).
Proof.
  intros Hes. revert s. induction n as [|n IH]; intros s Hnd Hsub Hlen; simpl.
  - apply NoDup_submseteq, submseteq_length in Hsub; [|done]. lia.
  - set (s' := remove_dups (s ++ succs es s)).
    assert (s' ⊆ nodes) as Hsub'.
    { intros x. unfold s'. rewrite elem_of_remove_dups, elem_of_app, elem_of_succs.
      intros [?|(a & ? & ?)]; eauto. }
    assert (NoDup s') by apply NoDup_remove_dups.
    destruct (decide (s' ⊆ s)) as [Hc|Hc].
    + assert (closed es s) as Hcl.
      { intros a b Ha Hab. apply Hc. unfold s'.
        rewrite elem_of_remove_dups, elem_of_app, elem_of_succs. eauto. }
      assert (∀ k l, (∀ x, x ∈ l ↔ x ∈ s) → ∀ x, x ∈ reach es k l ↔ x ∈ s) as Hstab.
      { induction k as [|k IHk]; intros l Hl x; simpl; [apply Hl|]. apply IHk.
        intros y. rewrite elem_of_remove_dups, elem_of_app, elem_of_succs, Hl.
        split; [|by left]. intros [?|(a & Ha & Hab)]; [done|].
        rewrite Hl in Ha. by eapply Hcl. }
      intros a b. assert (∀ x, x ∈ s' ↔ x ∈ s) as Hs'.
      { intros x. split; [apply Hc|]. intros. unfold s'.
        rewrite elem_of_remove_dups, elem_of_app. by left. }
      rewrite !(Hstab n s' Hs'). apply Hcl.
    + apply IH; [done..|]. assert (length s < length s'); [|lia].
      destruct (decide (length s < length s')) as [|Hge]; [done|].
      exfalso. apply Hc. assert (s ⊆+ s') as Hss.
      { apply NoDup_submseteq; [done|]. intros x Hx. unfold s'.
        rewrite elem_of_remove_dups, elem_of_app. by left. }
      assert (s ≡ₚ s') as ->; [|done].
      apply submseteq_length_Permutation; [done|lia].
Qed.

Lemma has_path_spec g a b :
  a < length (weights g) →
  has_path g a b = true ↔ rtc (λ x y, (x, y) ∈ edges g) a b.
Proof.
  intros Ha. unfold has_path. rewrite bool_decide_eq_true. split.
  - intros (x & ->%list_elem_of_singleton & H)%reach_sound. done.
  - set (n := length (weights g)) in *.
    assert (closed (edges g) (reach (edges g) n [a])) as Hcl.
    { apply (reach_closed _ (seq 0 n)); simpl.
      - intros x y [[_ ?] _]%list_elem_of_filter. apply elem_of_seq. simpl in *. lia.
      - apply NoDup_singleton.
      - intros x ->%list_elem_of_singleton. apply elem_of_seq. lia.
      - rewrite length_seq. lia. }
    intros Hp. assert (a ∈ reach (edges g) n [a]) as Hin by (apply reach_incl; left).
    revert Hcl Hin. generalize (reach (edges g) n [a]). intros r Hcl Hin.
    clear Ha. induction Hp as [|x y z Hxy _ IH]; [done|]. eauto.
Qed.

(** *** Topological order by number of ancestors *)
Lemma edges_valid g a b :
  (a, b) ∈ edges g → a ∈ seq 0 (length (weights g)) ∧ b ∈ seq 0 (length (weights g)).
Proof. intros [[??] _]%list_elem_of_filter. rewrite !elem_of_seq. simpl in *. lia. Qed.

Lemma edges_incl_arcs n es a b : (a, b) ∈ valid_arcs n es → (a, b) ∈ es.
Proof. by intros [_ ?]%list_elem_of_filter. Qed.

Lemma cyclic_false g :
  cyclic g = false ↔ ∀ a b, (a, b) ∈ edges g → ¬ rtc (λ x y, (x, y) ∈ edges g) b a.
Proof.
  unfold cyclic. rewrite <- not_true_iff_false, existsb_exists. split.
  - intros Hn a b Hab Hp. apply Hn. exists (a, b). split; [by apply list_elem_of_In|].
    apply edges_valid in Hab as [_ ?%elem_of_seq]. apply has_path_spec; simpl; [lia|done].
  - intros Hac ([a b] & Hab%list_elem_of_In & Hp). apply (Hac a b Hab).
    apply edges_valid in Hab as [_ ?%elem_of_seq]. apply has_path_spec; simpl in *; [lia|done].
Qed.

Lemma filter_sublist_lt (P Q : nat → bool) (l : list nat) (x : nat) :
  (∀ y, P y = true → Q y = true) → x ∈ l → P x = false → Q x = true →
  length (filter (λ y, P y = true) l) < length (filter (λ y, Q y = true) l).
Proof.
  intros Himp Hx HP HQ.
  assert (∀ k, length (filter (λ y, P y = true) k) ≤ length (filter (λ y, Q y = true) k)) as Hle.
  { induction k as [|y k IH]; [done|]. rewrite !filter_cons.
    repeat case_decide; simpl; try lia. naive_solver. }
  induction l as [|y l IH]; [by apply not_elem_of_nil in Hx|].
  rewrite !filter_cons. specialize (Hle l).
  apply elem_of_cons in Hx as [->|Hx]; repeat case_decide; simpl; try lia; try congruence.
  all: try (specialize (IH Hx); lia). naive_solver.
Qed.

Lemma anc_edge_lt g a b : cyclic g = false → (a, b) ∈ edges g → anc g a < anc g b.
Proof.
  intros Hac Hab. destruct (edges_valid _ _ _ Hab) as [Ha%elem_of_seq Hb].
  apply (filter_sublist_lt _ _ _ b); [|done|..].
  - intros y Hy. destruct (decide (y < length (weights g))).
    + rewrite has_path_spec in * by done. by eapply rtc_r.
    + unfold has_path in *. apply bool_decide_eq_true in Hy.
      apply reach_sound in Hy as (z & ->%list_elem_of_singleton & Hp).
      destruct Hp as [|z c d Hzc]; [lia|]. apply edges_valid in Hzc as [?%elem_of_seq _]. lia.
  - apply not_true_iff_false. rewrite elem_of_seq in Hb. rewrite has_path_spec by lia.
    rewrite cyclic_false in Hac. eauto.
  - rewrite elem_of_seq in Hb. apply has_path_spec; [lia|]. apply rtc_refl.
Qed.

#[global] Instance anc_le_trans g : Transitive (anc_le g).
Proof. unfold anc_le. intros a b c. lia. Qed.
#[global] Instance anc_le_total g : Total (anc_le g).
Proof. unfold anc_le. intros a b. lia. Qed.

Lemma toposort_sound g l :
  toposort g = Some l →
  l ≡ₚ seq 0 (length (weights g)) ∧ ∀ a b, (a, b) ∈ edges g → before l a b.
Proof.
  unfold toposort. destruct (cyclic g) eqn:Hc; [done|]. intros [= <-].
  set (ns := seq 0 _). pose proof (merge_sort_Permutation (anc_le g) ns) as Hperm.
  split; [done|]. intros a b Hab.
  pose proof (anc_edge_lt _ _ _ Hc Hab) as Hlt.
  destruct (edges_valid _ _ _ Hab) as [Ha Hb].
  fold ns in Ha, Hb. rewrite <- Hperm in Ha, Hb.
  apply list_elem_of_lookup in Ha as [i Hi]. apply list_elem_of_lookup in Hb as [j Hj].
  exists i, j. split_and!; [done..|].
  destruct (decide (i < j)) as [|Hge]; [done|]. exfalso.
  pose proof (StronglySorted_merge_sort (anc_le g) ns) as Hs.
  assert (anc_le g b a) as Hle; [|unfold anc_le in Hle; lia].
  destruct (decide (i = j)) as [->|]; [by simplify_eq; lia|].
  assert (∀ (k : list nat) (p q x y : nat), StronglySorted (anc_le g) k → k !! p = Some x →
    k !! q = Some y → p < q → anc_le g x y) as Hss.
  { clear. induction k as [|z k IH]; intros p q x y Hs Hp Hq Hpq; [done|].
    inversion_clear Hs as [|?? Hk Hall]. destruct p as [|p], q as [|q]; simplify_eq/=; try lia.
    - rewrite Forall_forall in Hall. apply Hall, list_elem_of_lookup. eauto.
    - eapply (IH p q); eauto. lia. }
  eapply (Hss _ j i); eauto. lia.
Qed.

#[global] Instance spec : DiGraphSpec V.
Proof.
  constructor; simpl; intros.
  - done.
  - done.
  - done.
  - by apply edges_valid.
  - rewrite lookup_lt_is_Some, elem_of_seq. lia.
  - done.
  - rewrite length_app. simpl. lia.
  - unfold edges, valid_arcs. simpl. rewrite length_app, list_filter_filter. simpl.
    apply list_filter_iff. intros []. simpl. lia.
  - case_decide as Hn; [subst; by rewrite lookup_app_r, Nat.sub_diag by lia|].
    destruct (decide (n < length (weights g))); [by rewrite lookup_app_l|].
    rewrite !lookup_ge_None_2; [done|lia|]. rewrite length_app. simpl. lia.
  - done.
  - done.
  - unfold edges, valid_arcs. simpl. rewrite !elem_of_seq in *.
    rewrite filter_cons_True; [done|]. simpl. lia.
  - by rewrite length_insert.
  - unfold edges. simpl. by rewrite length_insert.
  - rewrite elem_of_seq in *. rewrite list_lookup_insert. repeat case_decide; naive_solver lia.
  - done.
  - done.
  - rewrite elem_of_seq in *. apply has_path_spec. lia.
  - by apply toposort_sound.
  - assert (cyclic g = false) as Hc by by apply cyclic_false. unfold toposort. rewrite Hc. eauto.
Qed.
End list_graph.
End ListGraph.
