(* ===== verification/AcyclicDigraphMap.v ===== *)
(** * The keyed acyclic graph ([crates/adigraphmap/src/lib.rs])

    A map from keys to the nodes of a directed graph, in which an edge
    [from -> to] says that [from] is processed before [to]. The methods of the
    Rust type are definitions on its two fields; [topo_sort_by_level] is
    translated loop by loop, its [while] on fuel, with [Panic] where the code
    calls [unwrap] on a missing counter or decrements a zero one.

    [wf] is the type's invariant: keys and nodes correspond one to one and the
    graph has no cycle. Every operation keeps it; under it
    [topo_sort_by_level] returns every entry exactly once, each strictly after
    all the entries it depends on, within [len] iterations. *)

From S2P Require Import Prelude PetGraph.
Local Open Scope torii_scope.

Module Adm.

Inductive AcyclicDigraphMapError (K : Type) : Type :=
| NodeNotFound (key : K)
| CycleDetected
| DuplicateKey (key : K).
Arguments NodeNotFound {K} key.
Arguments CycleDetected {K}.
Arguments DuplicateKey {K} key.

Record AcyclicDigraphMap (K V : Type) `{Countable K, !DiGraphOps V} : Type := mkADM {
  graph : digraph V;
  node_indices : gmap K nat
}.
Arguments mkADM {K V _ _ _} graph node_indices.
Arguments graph {K V _ _ _} a.
Arguments node_indices {K V _ _ _} a.

(** ** Operations *)
Section operations.
Context {K V : Type} `{Countable K} `{!DiGraphOps V} {HO : HashOrder}.
#[local] Abbreviation adm := (AcyclicDigraphMap K V).
#[local] Abbreviation error := (AcyclicDigraphMapError K).
Implicit Types a : adm.

Definition new : adm := mkADM dg_new ∅.

Definition contains_key (key : K) a : bool := bool_decide (is_Some (node_indices a !! key)).

Definition is_empty a : bool := Nat.eqb (dg_node_count (graph a)) 0.
Definition len a : nat := dg_node_count (graph a).
Definition clear a : adm := mkADM dg_new ∅.

Definition add_node (key : K) (value : V) : st adm error nat := λ a,
  if contains_key key a then (Err (DuplicateKey key), a)
  else
    let '(node_idx, g) := dg_add_node value (graph a) in
    (Ok node_idx, mkADM g (<[key := node_idx]> (node_indices a))).

Definition get_node_index (key : K) : st adm error nat := λ a,
  (ok_or (NodeNotFound key) (node_indices a !! key), a).

Definition would_create_cycle a (from to : nat) : bool :=
  dg_has_path_connecting (graph a) to from.

Definition add_dependency (from to : K) : st adm error unit :=
  let! from_idx := get_node_index from in
  let! to_idx := get_node_index to in
  λ a,
    if would_create_cycle a from_idx to_idx then (Err CycleDetected, a)
    else (Ok tt, mkADM (dg_add_edge from_idx to_idx (graph a)) (node_indices a)).

Definition add_node_with_dependencies (key : K) (value : V) (dependencies : list K)
  : st adm error nat :=
  let! node_idx := add_node key value in
  for_each (λ dependency, add_dependency dependency key) dependencies ;;;
  st_ret node_idx.

Definition get (key : K) a : option V :=
  idx ← node_indices a !! key; dg_weight (graph a) idx.

(** [if let Some(v) = self.get_mut(key) { *v = f(v) }]; [None] when the key
    is absent. *)
Definition get_mut (key : K) (f : V → V) a : option adm :=
  idx ← node_indices a !! key;
  v ← dg_weight (graph a) idx;
  Some (mkADM (dg_set_weight idx (f v) (graph a)) (node_indices a)).

(** [self.node_indices.iter().find(|&(_, &v)| v == idx).map(|(k, _)| k)] *)
Definition key_of (m : gmap K nat) (idx : nat) : option K :=
  fst <$> find (λ kv : K * nat, Nat.eqb kv.2 idx) (hm_iter m).

Definition topo_sort a : outcome error (list (K * V)) :=
  let? indices := unwrap (dg_toposort (graph a)) in
  fold_outcome (λ result idx,
    let? node_value := unwrap (dg_weight (graph a) idx) in
    match key_of (node_indices a) idx with
    | Some key => Ok (result ++ [(key, node_value)])
    | None => Ok result
    end) indices [].

(** *** The level sort *)

(** Incoming edge counts of all nodes. *)
Definition incoming_counts (g : digraph V) : gmap nat nat :=
  foldl (λ m node, <[node := length (dg_incoming g node)]> m) ∅ (dg_node_indices g).

(** [for neighbor in neighbors { count -= 1; if count == 0 { push } }] *)
Fixpoint relax (neighbors : list nat) (counts : gmap nat nat) (next : list nat)
  : outcome error (gmap nat nat * list nat) :=
  match neighbors with
  | [] => Ok (counts, next)
  | neighbor :: neighbors =>
      let? count := unwrap (counts !! neighbor) in
      match count with
      | O => Panic
      | S count =>
          relax neighbors (<[neighbor := count]> counts)
            (if Nat.eqb count 0 then next ++ [neighbor] else next)
      end
  end.

Record level_state : Type := mkLevel {
  remaining_nodes : gset nat;
  incoming_edges : gmap nat nat;
  next_level_nodes : list nat;
  level_nodes : list (K * V)
}.

(** The body of [for node in current_level_nodes]. *)
Definition visit_node a (s : level_state) (node : nat) : outcome error level_state :=
  if decide (node ∈ remaining_nodes s) then
    let? pushed :=
      match key_of (node_indices a) node with
      | Some key =>
          let? value := unwrap (dg_weight (graph a) node) in
          Ok (level_nodes s ++ [(key, value)])
      | None => Ok (level_nodes s)
      end in
    let? (counts, next) :=
      relax (dg_outgoing (graph a) node) (incoming_edges s) (next_level_nodes s) in
    Ok (mkLevel (remaining_nodes s ∖ {[node]}) counts next pushed)
  else Ok s.

(** The [while] loop; [None] when the fuel runs out. *)
Fixpoint level_loop (fuel : nat) a (levels : list (list (K * V)))
    (remaining : gset nat) (counts : gmap nat nat) (current : list nat)
  : option (outcome error (list (list (K * V)))) :=
  match current with
  | [] => Some (Ok levels)
  | _ :: _ =>
      match fuel with
      | O => None
      | S fuel =>
          match fold_outcome (visit_node a) current (mkLevel remaining counts [] []) with
          | Ok s =>
              level_loop fuel a
                (match level_nodes s with [] => levels | _ :: _ => levels ++ [level_nodes s] end)
                (remaining_nodes s) (incoming_edges s) (next_level_nodes s)
          | Err e => Some (Err e)
          | Panic => Some Panic
          end
      end
  end.

Definition roots (counts : gmap nat nat) : list nat :=
  (filter (λ nc : nat * nat, nc.2 = 0) (hm_iter counts)).*1.

Definition topo_sort_by_level a : option (outcome error (list (list (K * V)))) :=
  let counts := incoming_counts (graph a) in
  level_loop (len a) a [] (list_to_set (hm_values (node_indices a))) counts (roots counts).
End operations.

(** ** The invariant *)
Section invariant.
Context {K V : Type} `{Countable K} `{!DiGraphOps V} {HO : HashOrder}.
#[local] Abbreviation adm := (AcyclicDigraphMap K V).
Implicit Types a : adm.

Record wf a : Prop := {
  wf_inj k1 k2 i : node_indices a !! k1 = Some i → node_indices a !! k2 = Some i → k1 = k2;
  wf_nodes i : i ∈ dg_node_indices (graph a) ↔ ∃ k, node_indices a !! k = Some i;
  wf_acyclic : dg_acyclic (graph a)
}.

(** [from] must be processed before [to]. *)
Definition depends a (from to : K) : Prop :=
  ∃ i j, node_indices a !! from = Some i ∧ node_indices a !! to = Some j ∧
         dg_edge (graph a) i j.

Lemma contains_key_true key a : contains_key key a = true ↔ is_Some (node_indices a !! key).
Proof. unfold contains_key. apply bool_decide_eq_true. Qed.

Lemma contains_key_false key a : contains_key key a = false ↔ node_indices a !! key = None.
Proof. unfold contains_key. rewrite bool_decide_eq_false, eq_None_not_Some. done. Qed.
End invariant.

Section preservation.
Context {K V : Type} `{Countable K} `{!DiGraphOps V, !DiGraphSpec V} {HO : HashOrder}.
#[local] Abbreviation adm := (AcyclicDigraphMap K V).
Implicit Types (a : adm) (k : K) (v : V).

Lemma new_wf : wf (new : adm).
Proof.
  split; simpl.
  - intros k1 k2 i. by rewrite lookup_empty.
  - intros i. rewrite dg_new_nodes. split; [by intros ?%not_elem_of_nil|].
    intros [k Hk]. by rewrite lookup_empty in Hk.
  - intros x y Hxy. unfold dg_edge in Hxy. rewrite dg_new_edges in Hxy.
    by apply not_elem_of_nil in Hxy.
Qed.

Lemma dg_path_ext (g1 g2 : digraph V) x y :
  (∀ p q, dg_edge g1 p q → dg_edge g2 p q) → dg_path g1 x y → dg_path g2 x y.
Proof. intros He. induction 1; [apply rtc_refl|eapply rtc_l; eauto]. Qed.

Lemma dg_acyclic_ext (g1 g2 : digraph V) :
  (∀ p q, dg_edge g1 p q ↔ dg_edge g2 p q) → dg_acyclic g1 → dg_acyclic g2.
Proof.
  intros He Hac x y Hxy Hp. apply (Hac x y); [by apply He|].
  eapply dg_path_ext, Hp. naive_solver.
Qed.

(** A path through a graph with one more edge either avoids that edge or
    goes through it. *)
Lemma dg_path_add_edge (g : digraph V) f t x y :
  f ∈ dg_node_indices g → t ∈ dg_node_indices g →
  dg_path (dg_add_edge f t g) x y →
  dg_path g x y ∨ (dg_path g x f ∧ dg_path g t y).
Proof.
  intros Hf Ht. induction 1 as [x|x z y Hxz _ IH]; [left; apply rtc_refl|].
  unfold dg_edge in Hxz. rewrite (dg_add_edge_edges _ _ _ Hf Ht), elem_of_cons in Hxz.
  destruct Hxz as [ [= -> ->]|Hxz].
  - right. split; [apply rtc_refl|]. destruct IH as [?|[_ ?]]; done.
  - destruct IH as [?|[??]]; [left|right; split]; try done; by eapply rtc_l.
Qed.

Lemma add_edge_acyclic (g : digraph V) f t :
  f ∈ dg_node_indices g → t ∈ dg_node_indices g → dg_acyclic g →
  dg_has_path_connecting g t f = false → dg_acyclic (dg_add_edge f t g).
Proof.
  intros Hf Ht Hac Hno.
  assert (¬ dg_path g t f) as Hnp by (rewrite <- dg_has_path_spec, Hno by done; done).
  intros x y Hxy Hp. apply dg_path_add_edge in Hp; [|done..].
  unfold dg_edge in Hxy. rewrite (dg_add_edge_edges _ _ _ Hf Ht), elem_of_cons in Hxy.
  destruct Hxy as [ [= -> ->]|Hxy]; [naive_solver|].
  destruct Hp as [Hp|[Hyf Htx]]; [by eapply Hac|].
  apply Hnp. etrans; [exact Htx|]. by eapply rtc_l.
Qed.

Lemma dg_node_indices_eq (g1 g2 : digraph V) :
  dg_node_count g1 = dg_node_count g2 → dg_node_indices g1 = dg_node_indices g2.
Proof. intros Hc. by rewrite !dg_nodes_compact, Hc. Qed.

Lemma add_node_spec k v a :
  add_node k v a =
    (if contains_key k a then (Err (DuplicateKey k), a)
     else (Ok (len a), mkADM (dg_add_node v (graph a)).2 (<[k := len a]> (node_indices a)))).
Proof.
  unfold add_node, len. rewrite <- (dg_add_node_index v (graph a)).
  by destruct (dg_add_node v (graph a)).
Qed.

Lemma add_node_wf k v a : wf a → wf (add_node k v a).2.
Proof.
  intros Hwf. rewrite add_node_spec. destruct (contains_key k a) eqn:Hk; [done|].
  apply contains_key_false in Hk. unfold len.
  assert (∀ k', node_indices a !! k' ≠ Some (dg_node_count (graph a))) as Hfresh.
  { intros k' Hk'. assert (dg_node_count (graph a) ∈ dg_node_indices (graph a)) as Hin
      by (apply (wf_nodes _ Hwf); eauto).
    rewrite dg_nodes_compact, elem_of_seq in Hin. lia. }
  split; simpl.
  - intros k1 k2 i. rewrite !lookup_insert. repeat case_decide; simplify_eq; try naive_solver.
    apply (wf_inj _ Hwf).
  - intros i. rewrite dg_nodes_compact, dg_add_node_count, seq_S, elem_of_app,
      <- dg_nodes_compact, list_elem_of_singleton, (wf_nodes _ Hwf). simpl. split.
    + intros [[k' Hk']| ->]; [exists k'|exists k]; rewrite lookup_insert; case_decide; naive_solver.
    + intros [k' Hk']. rewrite lookup_insert in Hk'. case_decide; naive_solver.
  - eapply dg_acyclic_ext, (wf_acyclic _ Hwf). intros p q. unfold dg_edge.
    by rewrite dg_add_node_edges.
Qed.

(** The result of [add_dependency], branch by branch. *)
Lemma add_dependency_spec f t a :
  add_dependency f t a =
    match node_indices a !! f with
    | None => (Err (NodeNotFound f), a)
    | Some i =>
        match node_indices a !! t with
        | None => (Err (NodeNotFound t), a)
        | Some j =>
            if dg_has_path_connecting (graph a) j i then (Err CycleDetected, a)
            else (Ok tt, mkADM (dg_add_edge i j (graph a)) (node_indices a))
        end
    end.
Proof.
  unfold add_dependency, get_node_index, would_create_cycle, st_bind, ok_or.
  destruct (node_indices a !! f), (node_indices a !! t); done.
Qed.

Lemma wf_node_valid a k i : wf a → node_indices a !! k = Some i → i ∈ dg_node_indices (graph a).
Proof. intros Hwf Hk. apply (wf_nodes _ Hwf). eauto. Qed.

Lemma add_dependency_wf f t a : wf a → wf (add_dependency f t a).2.
Proof.
  intros Hwf. rewrite add_dependency_spec.
  destruct (node_indices a !! f) as [i|] eqn:Hi; [|done].
  destruct (node_indices a !! t) as [j|] eqn:Hj; [|done].
  destruct (dg_has_path_connecting _ _ _) eqn:Hp; [done|].
  split; simpl.
  - apply (wf_inj _ Hwf).
  - intros x. rewrite <- (wf_nodes _ Hwf).
    by rewrite (dg_node_indices_eq _ (graph a)) by apply dg_add_edge_count.
  - apply add_edge_acyclic; eauto using wf_node_valid, wf_acyclic.
Qed.

Lemma add_node_with_dependencies_wf k v deps a :
  wf a → wf (add_node_with_dependencies k v deps a).2.
Proof.
  intros Hwf. unfold add_node_with_dependencies, st_bind.
  pose proof (add_node_wf k v a Hwf) as Hn. destruct (add_node k v a) as [[] a1]; [|done..].
  pose proof (for_each_inv wf (λ d, add_dependency d k) deps a1) as Hf.
  destruct (for_each _ _ _) as [[] a2]; simpl in *; auto using add_dependency_wf.
Qed.

Lemma get_mut_spec k f a a' :
  wf a → get_mut k f a = Some a' →
  node_indices a' = node_indices a ∧ dg_edges (graph a') = dg_edges (graph a) ∧
  len a' = len a ∧ ∀ k', get k' a' = if decide (k' = k) then f <$> get k a else get k' a.
Proof.
  intros Hwf. unfold get_mut, get, len. intros Hg.
  destruct (node_indices a !! k) as [i|] eqn:Hi; [|done]. simpl in *.
  destruct (dg_weight (graph a) i) as [v|] eqn:Hv; [|done]. simpl in *. simplify_eq/=.
  split_and!; [done|apply dg_set_weight_edges|apply dg_set_weight_count|].
  intros k'. case_decide as Hk; subst.
  - rewrite Hi. simpl. rewrite dg_set_weight_weight by eauto using wf_node_valid.
    by rewrite decide_True.
  - destruct (node_indices a !! k') as [j|] eqn:Hj; [|done]. simpl.
    rewrite dg_set_weight_weight by eauto using wf_node_valid.
    case_decide; [|done]. subst. exfalso. eauto using wf_inj.
Qed.

Lemma get_mut_wf k f a a' : wf a → get_mut k f a = Some a' → wf a'.
Proof.
  intros Hwf Hg. destruct (get_mut_spec _ _ _ _ Hwf Hg) as (Hni & He & Hl & _). split.
  - rewrite Hni. apply (wf_inj _ Hwf).
  - rewrite Hni, (dg_node_indices_eq _ (graph a)) by done. apply (wf_nodes _ Hwf).
  - eapply dg_acyclic_ext, (wf_acyclic _ Hwf). intros p q. unfold dg_edge. by rewrite He.
Qed.

Lemma get_is_Some k a : wf a → is_Some (get k a) ↔ is_Some (node_indices a !! k).
Proof.
  intros Hwf. unfold get. destruct (node_indices a !! k) as [i|] eqn:Hi; simpl; [|naive_solver].
  rewrite dg_weight_is_Some. split; [by eexists|]. intros _. eauto using wf_node_valid.
Qed.

Lemma get_add_node k v a k' :
  wf a → contains_key k a = false →
  get k' (add_node k v a).2 = if decide (k' = k) then Some v else get k' a.
Proof.
  intros Hwf Hk. rewrite add_node_spec, Hk. unfold get, len. simpl.
  rewrite lookup_insert. case_decide; subst.
  - rewrite decide_True by done. simpl. rewrite dg_add_node_weight. by rewrite decide_True.
  - rewrite decide_False by done. destruct (node_indices a !! k') as [j|] eqn:Hj; [|done]. simpl.
    rewrite dg_add_node_weight, decide_False; [done|].
    apply wf_node_valid in Hj; [|done]. rewrite dg_nodes_compact, elem_of_seq in Hj. lia.
Qed.

Lemma get_add_dependency f t a k : get k (add_dependency f t a).2 = get k a.
Proof.
  rewrite add_dependency_spec.
  repeat (case_match; simpl; try done). unfold get. simpl.
  destruct (node_indices a !! k); [|done]. simpl. apply dg_add_edge_weight.
Qed.

(** A dependency is recorded exactly when the call succeeds. *)
Lemma depends_add_dependency f t a x y :
  wf a → depends (add_dependency f t a).2 x y ↔
  depends a x y ∨ (x = f ∧ y = t ∧ (add_dependency f t a).1 = Ok tt).
Proof.
  intros Hwf. rewrite add_dependency_spec.
  destruct (node_indices a !! f) as [i|] eqn:Hi; [|naive_solver].
  destruct (node_indices a !! t) as [j|] eqn:Hj; [|naive_solver].
  destruct (dg_has_path_connecting _ _ _) eqn:Hp; [naive_solver|]. simpl.
  unfold depends, dg_edge. simpl.
  setoid_rewrite dg_add_edge_edges; [|by eauto using wf_node_valid..].
  setoid_rewrite elem_of_cons. split.
  - intros (i' & j' & Hi' & Hj' & [ [= -> ->]|He]); [right|left; eauto].
    eauto using wf_inj.
  - intros [(i' & j' & ? & ? & ?)|(-> & -> & _)]; eauto 10.
Qed.

Lemma depends_add_node k v a x y :
  wf a → depends (add_node k v a).2 x y ↔ depends a x y.
Proof.
  intros Hwf. rewrite add_node_spec. destruct (contains_key k a) eqn:Hk; [done|].
  apply contains_key_false in Hk. unfold depends, dg_edge, len. simpl.
  setoid_rewrite dg_add_node_edges. split.
  - intros (i & j & Hi & Hj & He). destruct (dg_edges_valid _ _ _ He) as [Hvi Hvj].
    rewrite dg_nodes_compact, elem_of_seq in Hvi, Hvj.
    rewrite lookup_insert in Hi, Hj. repeat case_decide; simplify_eq; try lia. eauto 10.
  - intros (i & j & Hi & Hj & He). exists i, j.
    rewrite !lookup_insert. repeat case_decide; naive_solver.
Qed.
End preservation.

(** ** Correctness of the level sort *)
Section level_sort.
Context {K V : Type} `{Countable K} `{!DiGraphOps V, !DiGraphSpec V} {HO : HashOrder}.
#[local] Abbreviation adm := (AcyclicDigraphMap K V).
Implicit Types (a : adm) (g : digraph V) (R : gset nat) (c : gmap nat nat).

(** Edges into [y] from nodes still in [R], parallel edges counted. *)
Definition indegree g R (y : nat) : nat :=
  length (filter (λ e, e.1 ∈ R ∧ e.2 = y) (dg_edges g)).

Definition occurrences (y : nat) (l : list nat) : nat := length (filter (λ z, z = y) l).

Lemma occurrences_cons y z l :
  occurrences y (z :: l) = (if decide (z = y) then 1 else 0) + occurrences y l.
Proof. unfold occurrences. rewrite filter_cons. by case_decide. Qed.

Lemma occurrences_pos y l : y ∈ l ↔ 0 < occurrences y l.
Proof.
  induction l as [|z l IH]; [split; [by intros ?%not_elem_of_nil|inversion 1]|].
  rewrite occurrences_cons, elem_of_cons, IH. case_decide; naive_solver lia.
Qed.

Lemma occurrences_perm y l1 l2 : l1 ≡ₚ l2 → occurrences y l1 = occurrences y l2.
Proof. intros Hp. unfold occurrences. by rewrite Hp. Qed.

(** [relax] lowers the count of each node by its number of occurrences and
    queues the nodes that reach zero, each once. *)
Lemma relax_spec (l : list nat) c (next : list nat) (f : nat → nat) (nodes : list nat) :
  l ⊆ nodes →
  (∀ y, y ∈ nodes → c !! y = Some (f y + occurrences y l)) →
  ∃ c' queued, relax (K := K) l c next = Ok (c', next ++ queued) ∧
    (∀ y, y ∈ nodes → c' !! y = Some (f y)) ∧
    NoDup queued ∧ (∀ y, y ∈ queued ↔ y ∈ l ∧ f y = 0).
Proof.
  revert c next. induction l as [|z l IH]; intros c next Hsub Hc; simpl.
  - exists c, []. rewrite app_nil_r. split_and!; [done| |constructor|].
    + intros y Hy. rewrite Hc by done. f_equal. unfold occurrences. simpl. lia.
    + intros y. split; [by intros ?%not_elem_of_nil|by intros [?%not_elem_of_nil _]].
  - assert (z ∈ nodes) as Hz by (apply Hsub; left).
    rewrite (Hc z Hz), occurrences_cons, decide_True by done. simpl.
    rewrite Nat.add_succ_r. simpl.
    set (n := f z + occurrences z l).
    destruct (IH (<[z := n]> c) (if Nat.eqb n 0 then next ++ [z] else next))
      as (c' & queued & Hr & Hc' & Hnd & Hq).
    { intros y Hy. apply Hsub. by right. }
    { intros y Hy. rewrite lookup_insert. case_decide; [by subst|].
      rewrite Hc by done. rewrite occurrences_cons. by rewrite decide_False by done. }
    destruct (Nat.eqb_spec n 0) as [Hn|Hn].
    + assert (z ∉ l) by (rewrite occurrences_pos; unfold n in Hn; lia).
      exists c', (z :: queued). rewrite Hr. split_and!; [by rewrite <- app_assoc|done| |].
      * constructor; [|done]. rewrite Hq. naive_solver.
      * intros y. rewrite !elem_of_cons, Hq. unfold n in Hn. naive_solver lia.
    + exists c', queued. split_and!; [done..|]. intros y. rewrite Hq, elem_of_cons.
      split; [naive_solver|]. intros [[->|?] ?]; [|naive_solver].
      split; [|done]. rewrite occurrences_pos. unfold n in Hn. lia.
Qed.

Lemma indegree_remove g R x y :
  x ∈ R → indegree g R y = indegree g (R ∖ {[x]}) y + occurrences y (dg_outgoing g x).
Proof.
  intros Hx. rewrite (occurrences_perm _ _ _ (dg_outgoing_edges g x)).
  unfold indegree, occurrences. induction (dg_edges g) as [|[p q] es IH]; [done|].
  rewrite !filter_cons. csimpl.
  repeat case_decide; csimpl; rewrite ?filter_cons; csimpl; repeat case_decide; csimpl;
    first [lia | exfalso; set_solver].
Qed.

Lemma indegree_pos g R x y : x ∈ R → dg_edge g x y → 0 < indegree g R y.
Proof.
  intros Hx He. unfold indegree.
  destruct (filter _ _) as [|e es] eqn:Hf; simpl; [|lia].
  exfalso. eapply not_elem_of_nil. rewrite <- Hf, list_elem_of_filter. by split; [|apply He].
Qed.

Lemma indegree_zero g R y : (∀ x, x ∈ R → ¬ dg_edge g x y) → indegree g R y = 0.
Proof.
  intros Hno. unfold indegree. destruct (filter _ _) as [|[p q] es] eqn:Hf; [done|].
  assert ((p, q) ∈ filter (λ e, e.1 ∈ R ∧ e.2 = y) (dg_edges g)) as Hin by (rewrite Hf; left).
  apply list_elem_of_filter in Hin as [[Hp Hq] Hin]. simpl in *. subst. by destruct (Hno p).
Qed.

(** The state of the level sort when [s] is what is left of the current level
    and [next] what has been queued of the next one: the two together are the
    nodes left whose predecessors have all been emitted. *)
Record level_inv g R c (s next : list nat) : Prop := {
  li_nodes y : y ∈ R → y ∈ dg_node_indices g;
  li_counts y : y ∈ dg_node_indices g → c !! y = Some (indegree g R y);
  li_closed y : y ∈ dg_node_indices g → y ∉ R → indegree g R y = 0;
  li_nodup : NoDup (s ++ next);
  li_ready y : y ∈ s ++ next ↔ y ∈ R ∧ indegree g R y = 0
}.

(** The pair that the code emits for a node. *)
Definition entry_of a (node : nat) (kv : K * V) : Prop :=
  node_indices a !! kv.1 = Some node ∧ dg_weight (graph a) node = Some kv.2.

Lemma key_of_spec a k node :
  wf a → node_indices a !! k = Some node → key_of (node_indices a) node = Some k.
Proof.
  intros Hwf Hk. unfold key_of.
  destruct (find _ _) as [[k' i]|] eqn:Hf; simpl.
  - apply find_some in Hf as [Hin%list_elem_of_In Hi%Nat.eqb_eq]. simpl in *. subst.
    rewrite elem_of_hm_iter in Hin. f_equal. eauto using wf_inj.
  - exfalso. assert ((k, node) ∈ hm_iter (node_indices a)) as Hin by by rewrite elem_of_hm_iter.
    apply list_elem_of_In, (find_none _ _ Hf) in Hin as Hn. simpl in Hn.
    rewrite Nat.eqb_refl in Hn. done.
Qed.

Lemma visit_node_spec a R c x s next out :
  wf a → level_inv (graph a) R c (x :: s) next →
  ∃ c' next' kv,
    visit_node a (mkLevel R c next out) x =
      Ok (mkLevel (R ∖ {[x]}) c' next' (out ++ [kv])) ∧
    entry_of a x kv ∧ level_inv (graph a) (R ∖ {[x]}) c' s next'.
Proof.
  intros Hwf Hinv. set (g := graph a) in *.
  destruct (proj1 (li_ready _ _ _ _ _ Hinv x)) as [Hx Hx0]; [left|].
  assert (x ∈ dg_node_indices g) as Hxn by eauto using li_nodes.
  destruct (proj1 (wf_nodes _ Hwf x) Hxn) as [k Hk].
  destruct (proj2 (dg_weight_is_Some g x) Hxn) as [v Hv].
  destruct (relax_spec (dg_outgoing g x) c next (indegree g (R ∖ {[x]})) (dg_node_indices g))
    as (c' & queued & Hr & Hc' & Hndq & Hq).
  { intros y. rewrite dg_outgoing_edges, list_elem_of_fmap.
    intros ([p q] & -> & [? He]%list_elem_of_filter). by apply dg_edges_valid in He as []. }
  { intros y Hy. rewrite (li_counts _ _ _ _ _ Hinv y Hy). by rewrite (indegree_remove g R x y). }
  assert (∀ y, y ∈ dg_outgoing g x ↔ dg_edge g x y) as Hout.
  { intros y. rewrite dg_outgoing_edges, list_elem_of_fmap. split.
    - by intros ([p q] & -> & [Hp He]%list_elem_of_filter); simpl in *; subst.
    - intros He. exists (x, y). by rewrite list_elem_of_filter. }
  exists c', (next ++ queued), (k, v). split_and!.
  - unfold visit_node. simpl. rewrite decide_True by done.
    rewrite (key_of_spec a k x Hwf Hk). fold g. rewrite Hv. simpl. by rewrite Hr.
  - done.
  - pose proof (li_nodup _ _ _ _ _ Hinv) as Hnd. simpl in Hnd. apply NoDup_cons in Hnd as [Hnx Hnd].
    split.
    + intros y [Hy _]%elem_of_difference. by eapply li_nodes.
    + done.
    + intros y Hy Hny. rewrite not_elem_of_difference, elem_of_singleton in Hny.
      destruct (decide (y ∈ R)) as [HyR|HyR].
      * destruct Hny as [?| ->]; [done|]. pose proof (indegree_remove g R x x Hx). lia.
      * pose proof (li_closed _ _ _ _ _ Hinv y Hy HyR). pose proof (indegree_remove g R x y Hx). lia.
    + rewrite app_assoc. apply NoDup_app. split_and!; [done| |done].
      intros y Hy Hyq%Hq. destruct Hyq as [Hyo _].
      assert (y ∈ R ∧ indegree g R y = 0) as [_ Hy0]
        by (apply (li_ready _ _ _ _ _ Hinv); simpl; by right).
      apply Hout, (indegree_pos g R) in Hyo; [lia|done].
    + intros y. rewrite app_assoc, elem_of_app, Hq, Hout, elem_of_difference, elem_of_singleton.
      pose proof (indegree_remove g R x y Hx) as Hrem.
      pose proof (occurrences_pos y (dg_outgoing g x)) as Hocc. rewrite Hout in Hocc.
      pose proof (li_ready _ _ _ _ _ Hinv y) as Hrd. simpl in Hrd. rewrite elem_of_cons in Hrd.
      split.
      * intros [Hy|[He H0]].
        -- assert (y ≠ x) by (intros ->; done). destruct (proj1 Hrd (or_intror Hy)).
           split; [done|lia].
        -- split; [|done]. assert (y ≠ x) as Hne.
           { intros ->. eapply (wf_acyclic _ Hwf x x); [done|apply rtc_refl]. }
           assert (y ∈ dg_node_indices g) as Hyn by by apply dg_edges_valid in He as [].
           destruct (decide (y ∈ R)); [done|].
           pose proof (li_closed _ _ _ _ _ Hinv y Hyn n).
           pose proof (indegree_pos g R x y Hx He). lia.
      * intros [[Hy Hne] H0]. destruct (decide (indegree g R y = 0)) as [Hz|Hz].
        -- left. by destruct (proj2 Hrd (conj Hy Hz)).
        -- right. split; [|done]. apply Hocc. lia.
Qed.

Lemma visit_level_spec a R c s next out :
  wf a → level_inv (graph a) R c s next →
  ∃ c' next' kvs,
    fold_outcome (visit_node a) s (mkLevel R c next out) =
      Ok (mkLevel (R ∖ list_to_set s) c' next' (out ++ kvs)) ∧
    Forall2 (entry_of a) s kvs ∧ level_inv (graph a) (R ∖ list_to_set s) c' [] next'.
Proof.
  intros Hwf. revert R c next out. induction s as [|x s IH]; intros R c next out Hinv; simpl.
  - exists c, next, []. rewrite app_nil_r, difference_empty_L. done.
  - destruct (visit_node_spec a R c x s next out Hwf Hinv) as (c1 & next1 & kv & -> & Hkv & Hinv1).
    simpl. destruct (IH _ _ _ (out ++ [kv]) Hinv1) as (c' & next' & kvs & -> & Hkvs & Hinv').
    replace (R ∖ ({[x]} ∪ list_to_set s)) with (R ∖ {[x]} ∖ list_to_set s) by set_solver.
    exists c', next', (kv :: kvs). split_and!; [by rewrite <- app_assoc|by constructor|done].
Qed.

(** The levels emitted so far, as nodes. *)
Record emitted a R (ids : list (list nat)) (levels : list (list (K * V))) : Prop := {
  em_entries : Forall2 (Forall2 (entry_of a)) ids levels;
  em_nodup : NoDup (concat ids);
  em_nodes y : y ∈ concat ids ↔ y ∈ dg_node_indices (graph a) ∧ y ∉ R;
  em_nonempty : Forall (λ l, l ≠ []) levels;
  em_order j l x y :
    ids !! j = Some l → y ∈ l → dg_edge (graph a) x y →
    ∃ i l', i < j ∧ ids !! i = Some l' ∧ x ∈ l'
}.

Lemma elem_of_concat (ids : list (list nat)) x :
  x ∈ concat ids ↔ ∃ i l, ids !! i = Some l ∧ x ∈ l.
Proof.
  rewrite list_elem_of_In, in_concat. setoid_rewrite <- list_elem_of_In. split.
  - intros (l & Hl & Hx). apply list_elem_of_lookup in Hl as [i Hi]. eauto.
  - intros (i & l & Hi & Hx). exists l. split; [|done]. apply list_elem_of_lookup. eauto.
Qed.

Lemma emitted_snoc a R c s ids levels kvs :
  wf a → level_inv (graph a) R c s [] → s ≠ [] → emitted a R ids levels →
  Forall2 (entry_of a) s kvs →
  emitted a (R ∖ list_to_set s) (ids ++ [s]) (levels ++ [kvs]).
Proof.
  intros Hwf Hinv Hs Hem Hkvs.
  pose proof (li_ready _ _ _ _ _ Hinv) as Hrd. setoid_rewrite app_nil_r in Hrd.
  pose proof (li_nodup _ _ _ _ _ Hinv) as Hnd. rewrite app_nil_r in Hnd.
  split.
  - apply Forall2_app; [apply Hem|]. by constructor.
  - rewrite concat_app. simpl. rewrite app_nil_r. apply NoDup_app. split_and!; [apply Hem| |done].
    intros y [_ Hy]%(em_nodes _ _ _ _ Hem) [? _]%Hrd. done.
  - intros y. rewrite concat_app. simpl. rewrite app_nil_r, elem_of_app, (em_nodes _ _ _ _ Hem).
    rewrite elem_of_difference, elem_of_list_to_set.
    pose proof (li_nodes _ _ _ _ _ Hinv y). specialize (Hrd y).
    destruct (decide (y ∈ s)); naive_solver.
  - apply Forall_app. split; [apply Hem|]. constructor; [|done].
    intros ->. inversion Hkvs. by subst.
  - intros j l x y Hj Hy He. apply lookup_app_Some in Hj as [Hj|[Hlen Hj]].
    + destruct (em_order _ _ _ _ Hem j l x y Hj Hy He) as (i & l' & ? & Hi & ?).
      exists i, l'. split_and!; [done| |done]. rewrite lookup_app_l; [done|].
      by apply lookup_lt_Some in Hi.
    + apply list_lookup_singleton_Some in Hj as [Hj <-].
      destruct (proj1 (Hrd y) Hy) as [HyR Hy0].
      assert (x ∉ R) as HxR by (intros Hx; apply (indegree_pos _ R) in He; [lia|done]).
      assert (x ∈ concat ids) as Hx.
      { apply (em_nodes _ _ _ _ Hem). split; [|done]. by apply dg_edges_valid in He as []. }
      apply elem_of_concat in Hx as (i & l' & Hi & Hx).
      pose proof (lookup_lt_Some _ _ _ Hi). exists i, l'. split_and!; [lia| |done].
      by rewrite lookup_app_l.
Qed.

(** When no node is ready, none is left: a non-empty set of nodes of an
    acyclic graph has a source. *)
Lemma level_inv_done a R c : wf a → level_inv (graph a) R c [] [] → R = ∅.
Proof.
  intros Hwf Hinv. destruct (decide (elements R = [])) as [He|He].
  { by apply leibniz_equiv, elements_empty_iff. }
  exfalso. destruct (acyclic_source (graph a) (elements R) (wf_acyclic _ Hwf) He) as (n & Hn & Hs).
  setoid_rewrite elem_of_elements in Hs. rewrite elem_of_elements in Hn.
  apply (not_elem_of_nil n), (li_ready _ _ _ _ _ Hinv). split; [done|]. by apply indegree_zero.
Qed.

Lemma level_inv_next g R c next : level_inv g R c [] next → level_inv g R c next [].
Proof. intros []. split; rewrite ?app_nil_r; done. Qed.

Lemma level_loop_spec a fuel ids levels R c s :
  wf a → level_inv (graph a) R c s [] → emitted a R ids levels → size R ≤ fuel →
  ∃ ids' levels', level_loop fuel a levels R c s = Some (Ok levels') ∧ emitted a ∅ ids' levels'.
Proof.
  intros Hwf. revert ids levels R c s.
  induction fuel as [|fuel IH]; intros ids levels R c s Hinv Hem Hsz.
  all: destruct s as [|x s];
    [rewrite (level_inv_done a R c Hwf Hinv) in *; by exists ids, levels|].
  all: destruct (proj1 (li_ready _ _ _ _ _ Hinv x)) as [Hx _]; [left|].
  - assert (R = ∅) as -> by (apply leibniz_equiv, size_empty_iff; lia). set_solver.
  - cbn [level_loop].
    destruct (visit_level_spec a R c (x :: s) [] [] Hwf Hinv) as (c' & next & kvs & -> & Hkvs & Hinv').
    simpl. destruct kvs as [|kv kvs]; [by inversion Hkvs|].
    apply (IH (ids ++ [x :: s])); [by apply level_inv_next|by apply (emitted_snoc a R c (x :: s))|].
    assert (size (R ∖ list_to_set (x :: s)) < size R); [|simpl in *; lia].
    apply subset_size. clear -Hx. set_solver.
Qed.

Lemma incoming_counts_lookup g y :
  incoming_counts g !! y =
    if decide (y ∈ dg_node_indices g) then Some (length (dg_incoming g y)) else None.
Proof.
  unfold incoming_counts. generalize (dg_node_indices g). intros l.
  assert (∀ m : gmap nat nat,
    foldl (λ m node, <[node := length (dg_incoming g node)]> m) m l !! y =
    if decide (y ∈ l) then Some (length (dg_incoming g y)) else m !! y) as Hgen; [|apply Hgen].
  induction l as [|x l IH]; intros m; simpl; [done|]. rewrite IH, lookup_insert.
  destruct (decide (y ∈ l)), (decide (y ∈ x :: l)) as [Hin|Hin], (decide (x = y)); subst;
    rewrite elem_of_cons in Hin; naive_solver.
Qed.

Lemma length_incoming g y :
  length (dg_incoming g y) = indegree g (list_to_set (dg_node_indices g)) y.
Proof.
  rewrite dg_incoming_edges, length_fmap. unfold indegree. f_equal.
  apply filter_ext_in. intros [p q] He. simpl. apply dg_edges_valid in He as [? _].
  rewrite elem_of_list_to_set. naive_solver.
Qed.

Lemma level_inv_init a :
  wf a →
  level_inv (graph a) (list_to_set (hm_values (node_indices a)))
    (incoming_counts (graph a)) (roots (incoming_counts (graph a))) [].
Proof.
  intros Hwf. set (g := graph a).
  assert (∀ y, y ∈ (list_to_set (hm_values (node_indices a)) : gset nat) ↔ y ∈ dg_node_indices g) as HR.
  { intros y. unfold g. rewrite elem_of_list_to_set, (wf_nodes _ Hwf). unfold hm_values.
    rewrite list_elem_of_fmap. split.
    - intros ([k i] & -> & Hk%elem_of_hm_iter). by exists k.
    - intros [k Hk]. exists (k, y). by rewrite elem_of_hm_iter. }
  assert (list_to_set (hm_values (node_indices a)) = (list_to_set (dg_node_indices g) : gset nat)) as HRe.
  { apply set_eq. intros y. by rewrite HR, elem_of_list_to_set. }
  assert (∀ y, y ∈ dg_node_indices g → incoming_counts g !! y =
    Some (indegree g (list_to_set (hm_values (node_indices a))) y)) as Hc.
  { intros y Hy. by rewrite incoming_counts_lookup, decide_True, length_incoming, HRe. }
  split; rewrite ?app_nil_r.
  - intros y. apply HR.
  - done.
  - intros y Hy Hny. by rewrite HR in Hny.
  - unfold roots. eapply sublist_NoDup; [apply (NoDup_hm_keys (incoming_counts g))|].
    unfold hm_keys. apply fmap_sublist, filter_sublist.
  - intros y. unfold roots. rewrite list_elem_of_fmap, HR. split.
    + intros ([y' n] & -> & [H0 Hin%elem_of_hm_iter]%list_elem_of_filter). simpl in *.
      assert (y' ∈ dg_node_indices g) as Hy.
      { rewrite incoming_counts_lookup in Hin. by case_decide. }
      rewrite (Hc _ Hy) in Hin. naive_solver.
    + intros [Hy H0]. exists (y, 0). rewrite list_elem_of_filter, elem_of_hm_iter, (Hc y Hy).
      by rewrite H0.
Qed.

Lemma topo_sort_by_level_emitted a :
  wf a → ∃ ids levels, topo_sort_by_level a = Some (Ok levels) ∧ emitted a ∅ ids levels.
Proof.
  intros Hwf. unfold topo_sort_by_level.
  pose proof (level_inv_init a Hwf) as Hinv.
  apply (level_loop_spec _ _ []); [done..| |].
  - split; simpl; try done; [constructor|..].
    + intros y. split; [by intros ?%not_elem_of_nil|]. intros [Hy Hny].
      destruct (proj1 (wf_nodes _ Hwf y) Hy) as [k Hk]. exfalso. apply Hny.
      rewrite elem_of_list_to_set. unfold hm_values. rewrite list_elem_of_fmap.
      exists (k, y). by rewrite elem_of_hm_iter.
  - etrans; [apply subseteq_size|].
    + intros y Hy. by apply (li_nodes _ _ _ _ _ Hinv), (elem_of_list_to_set (C := gset nat)) in Hy.
    + rewrite size_list_to_set; rewrite dg_nodes_compact; [by rewrite length_seq|apply NoDup_seq].
Qed.
End level_sort.

(** ** What the level sort promises its callers *)
Section level_order.
Context {K V : Type} `{Countable K} `{!DiGraphOps V, !DiGraphSpec V} {HO : HashOrder}.
#[local] Abbreviation adm := (AcyclicDigraphMap K V).
Implicit Types a : adm.

Definition key_at (levels : list (list (K * V))) (i : nat) (k : K) : Prop :=
  ∃ l, levels !! i = Some l ∧ k ∈ l.*1.

(** [levels] schedules the entries of [a]. *)
Record level_order a (levels : list (list (K * V))) : Prop := {
  lo_nodup : NoDup (concat levels).*1;
  lo_entries k v : (k, v) ∈ concat levels ↔ get k a = Some v;
  lo_nonempty : Forall (λ l, l ≠ []) levels;
  lo_sorted i j f t :
    key_at levels i f → key_at levels j t → depends a f t → i < j
}.

Lemma elem_of_concat_levels (levels : list (list (K * V))) kv :
  kv ∈ concat levels ↔ ∃ i l, levels !! i = Some l ∧ kv ∈ l.
Proof.
  rewrite list_elem_of_In, in_concat. setoid_rewrite <- list_elem_of_In. split.
  - intros (l & Hl & Hx). apply list_elem_of_lookup in Hl as [i Hi]. eauto.
  - intros (i & l & Hi & Hx). exists l. split; [|done]. apply list_elem_of_lookup. eauto.
Qed.

Lemma entries_concat a ids (levels : list (list (K * V))) :
  Forall2 (Forall2 (entry_of a)) ids levels → Forall2 (entry_of a) (concat ids) (concat levels).
Proof. induction 1; simpl; [constructor|by apply Forall2_app]. Qed.

Lemma entry_of_unique a i j kv : entry_of a i kv → entry_of a j kv → i = j.
Proof. intros [Hi _] [Hj _]. naive_solver. Qed.

Lemma NoDup_entries a (ids : list nat) (kvs : list (K * V)) :
  Forall2 (entry_of a) ids kvs → NoDup ids → NoDup kvs.*1.
Proof.
  induction 1 as [|i kv ids kvs Hi Hall IH]; intros Hnd; simpl; [constructor|].
  inversion_clear Hnd as [|?? Hni Hnd']. constructor; [|auto].
  rewrite list_elem_of_fmap. intros (kv' & Hk & Hin). apply Hni.
  apply list_elem_of_lookup in Hin as [j Hj].
  destruct (Forall2_lookup_r _ _ _ _ _ Hall Hj) as (i' & Hi' & [Hi'' _]).
  destruct Hi as [Hi _]. rewrite Hk in Hi. simplify_eq. apply list_elem_of_lookup. eauto.
Qed.

Lemma key_at_emitted a ids (levels : list (list (K * V))) i k :
  Forall2 (Forall2 (entry_of a)) ids levels → key_at levels i k →
  ∃ l n, ids !! i = Some l ∧ n ∈ l ∧ node_indices a !! k = Some n.
Proof.
  intros Hall (l & Hl & Hk). destruct (Forall2_lookup_r _ _ _ _ _ Hall Hl) as (l' & Hl' & Hent).
  apply list_elem_of_fmap in Hk as ([k' v] & -> & Hin).
  apply list_elem_of_lookup in Hin as [p Hp].
  destruct (Forall2_lookup_r _ _ _ _ _ Hent Hp) as (n & Hn & [Hnk _]).
  exists l', n. split_and!; [done| |done]. apply list_elem_of_lookup. eauto.
Qed.

Lemma concat_lookup_unique (ids : list (list nat)) i j li lj x :
  NoDup (concat ids) → ids !! i = Some li → ids !! j = Some lj → x ∈ li → x ∈ lj → i = j.
Proof.
  revert i j. induction ids as [|l ids IH]; intros i j Hnd Hi Hj Hx Hy; [done|].
  simpl in Hnd. apply NoDup_app in Hnd as (Hl & Hdisj & Hnd).
  destruct i as [|i], j as [|j]; simplify_eq/=; [done|..].
  - exfalso. apply (Hdisj x Hx), elem_of_concat. eauto.
  - exfalso. apply (Hdisj x Hy), elem_of_concat. eauto.
  - f_equal. eauto.
Qed.

Lemma emitted_level_order a ids levels : wf a → emitted a ∅ ids levels → level_order a levels.
Proof.
  intros Hwf Hem. pose proof (em_entries _ _ _ _ Hem) as Hent.
  pose proof (entries_concat _ _ _ Hent) as Hcat. split.
  - by eapply NoDup_entries, Hem.
  - intros k v. split.
    + intros Hin. apply list_elem_of_lookup in Hin as [p Hp].
      destruct (Forall2_lookup_r _ _ _ _ _ Hcat Hp) as (n & Hn & [Hnk Hnv]). simpl in *.
      unfold get. by rewrite Hnk.
    + unfold get. intros Hget. destruct (node_indices a !! k) as [n|] eqn:Hn; [|done]. simpl in Hget.
      assert (n ∈ concat ids) as Hin.
      { apply (em_nodes _ _ _ _ Hem). split; [eauto using wf_node_valid|set_solver]. }
      apply list_elem_of_lookup in Hin as [p Hp].
      destruct (Forall2_lookup_l _ _ _ _ _ Hcat Hp) as ([k' v'] & Hkv & [Hk' Hv']). simpl in *.
      assert (k' = k) as -> by eauto using wf_inj. simplify_eq. apply list_elem_of_lookup. eauto.
  - apply Hem.
  - intros i j f t Hf Ht (nf & nt & Hnf & Hnt & He).
    destruct (key_at_emitted _ _ _ _ _ Hent Hf) as (li & x & Hli & Hx & Hfx).
    destruct (key_at_emitted _ _ _ _ _ Hent Ht) as (lj & y & Hlj & Hy & Hty). simplify_eq.
    destruct (em_order _ _ _ _ Hem j lj nf nt Hlj Hy He) as (i' & l' & Hlt & Hl' & Hx').
    by assert (i = i') as -> by eauto using concat_lookup_unique, em_nodup.
Qed.

Lemma topo_sort_by_level_order a :
  wf a → ∃ levels, topo_sort_by_level a = Some (Ok levels) ∧ level_order a levels.
Proof.
  intros Hwf. destruct (topo_sort_by_level_emitted a Hwf) as (ids & levels & Ht & Hem).
  eauto using emitted_level_order.
Qed.
(** The collecting loop of [topo_sort]. *)
Lemma topo_sort_fold a (ns : list nat) (acc : list (K * V)) :
  wf a → ns ⊆ dg_node_indices (graph a) →
  ∃ kvs, fold_outcome (λ result idx,
      outcome_bind (unwrap (E := AcyclicDigraphMapError K) (dg_weight (graph a) idx)) (λ node_value,
      match key_of (node_indices a) idx with
      | Some key => Ok (result ++ [(key, node_value)])
      | None => Ok result
      end)) ns acc = Ok (acc ++ kvs) ∧ Forall2 (entry_of a) ns kvs.
Proof.
  intros Hwf. revert acc. induction ns as [|n ns IH]; intros acc Hsub.
  { exists []. by rewrite app_nil_r. }
  assert (n ∈ dg_node_indices (graph a)) as Hn by (apply Hsub; left).
  destruct (proj2 (dg_weight_is_Some (graph a) n) Hn) as [v Hv].
  destruct (proj1 (wf_nodes _ Hwf n) Hn) as [k Hk].
  destruct (IH (acc ++ [(k, v)])) as (kvs & Hf & Hall); [intros x Hx; apply Hsub; by right|].
  exists ((k, v) :: kvs). simpl. rewrite Hv. simpl. rewrite (key_of_spec a k n Hwf Hk). simpl.
  rewrite Hf, <- app_assoc. split; [done|]. constructor; [by split|done].
Qed.

(** Paths of the graph are chains of dependencies between keys. *)
Lemma path_depends a x y i j :
  wf a → node_indices a !! x = Some i → node_indices a !! y = Some j →
  dg_path (graph a) i j ↔ rtc (depends a) x y.
Proof.
  intros Hwf Hi Hj. split.
  - intros Hp. revert x Hi. induction Hp as [i|i m j Him Hmj IH]; intros x Hi.
    + assert (x = y) as -> by eauto using wf_inj. apply rtc_refl.
    + destruct (dg_edges_valid _ _ _ Him) as [_ Hm].
      destruct (proj1 (wf_nodes _ Hwf m) Hm) as [z Hz].
      eapply rtc_l; [|by apply IH]. exists i, m. eauto.
  - intros Hr. revert i Hi. induction Hr as [x|x z y Hxz Hzy IH]; intros i Hi.
    + simplify_eq. apply rtc_refl.
    + destruct Hxz as (i' & m & Hi' & Hm & He). simplify_eq.
      eapply rtc_l; [done|]. by apply IH.
Qed.
End level_order.

(** ** Properties *)
Section properties.
Context {K V : Type} `{Countable K} `{!DiGraphOps V, !DiGraphSpec V} {HO : HashOrder}.
#[local] Abbreviation adm := (AcyclicDigraphMap K V).
Implicit Types a : adm.

(** C24: on a well-formed map [topo_sort_by_level] terminates within [len]
    iterations without panicking; its levels are non-empty, hold every entry
    exactly once, and put every entry in a strictly later level than each
    entry it depends on. *)
Theorem topo_sort_by_level_correct a :
  wf a →
  ∃ levels, topo_sort_by_level a = Some (Ok levels) ∧
    NoDup (concat levels).*1 ∧
    (∀ k v, (k, v) ∈ concat levels ↔ get k a = Some v) ∧
    Forall (λ l, l ≠ []) levels ∧
    (∀ i j f t, key_at levels i f → key_at levels j t → depends a f t → i < j).
Proof.
  intros Hwf. destruct (topo_sort_by_level_order a Hwf) as (levels & Ht & [???]). eauto 10.
Qed.

(** One call of a mutating method. *)
Inductive op : Type :=
| OpAddNode (key : K) (value : V)
| OpAddDependency (from to : K)
| OpAddNodeWithDependencies (key : K) (value : V) (dependencies : list K)
| OpGetMut (key : K) (f : V → V)
| OpClear.

Definition run_op (o : op) a : adm :=
  match o with
  | OpAddNode k v => (add_node k v a).2
  | OpAddDependency f t => (add_dependency f t a).2
  | OpAddNodeWithDependencies k v deps => (add_node_with_dependencies k v deps a).2
  | OpGetMut k f => default a (get_mut k f a)
  | OpClear => clear a
  end.

Lemma run_op_wf o a : wf a → wf (run_op o a).
Proof.
  intros Ha.
  destruct o; simpl; auto using add_node_wf, add_dependency_wf, add_node_with_dependencies_wf.
  - destruct (get_mut key f a) eqn:Hg; simpl; eauto using get_mut_wf.
  - apply new_wf.
Qed.

(** Whatever methods are called, whether they succeed or fail, the keys of
    the map stay in bijection with the nodes of the graph, and the graph stays
    acyclic. *)
Theorem adm_invariant (ops : list op) : wf (foldl (λ a o, run_op o a) new ops).
Proof.
  generalize (new_wf (K := K) (V := V)). generalize (new : adm).
  induction ops as [|o ops IH]; intros a Ha; [done|]. simpl.
  by apply IH, run_op_wf.
Qed.

(** C3: [add_dependency] refuses an edge with [CycleDetected] exactly when both
    keys exist and the dependent already precedes the prerequisite (directly,
    transitively, or by being the same key), and then leaves the map as it
    was. *)
Theorem add_dependency_cycle f t a :
  wf a →
  (add_dependency f t a).1 = Err CycleDetected ↔
  is_Some (node_indices a !! f) ∧ is_Some (node_indices a !! t) ∧ rtc (depends a) t f.
Proof.
  intros Hwf. rewrite add_dependency_spec.
  destruct (node_indices a !! f) as [i|] eqn:Hi; [|naive_solver].
  destruct (node_indices a !! t) as [j|] eqn:Hj; [|naive_solver].
  rewrite <- (path_depends a t f j i) by done.
  rewrite <- dg_has_path_spec by eauto using wf_node_valid.
  destruct (dg_has_path_connecting _ _ _); naive_solver.
Qed.

(** C4: [topo_sort] never hits its [expect], and lists every entry once, each
    after the entries it depends on. *)
Theorem topo_sort_correct a :
  wf a →
  ∃ l, topo_sort a = Ok l ∧ NoDup l.*1 ∧
    (∀ k v, (k, v) ∈ l ↔ get k a = Some v) ∧
    (∀ i j f t, l.*1 !! i = Some f → l.*1 !! j = Some t → depends a f t → i < j).
Proof.
  intros Hwf. destruct (dg_toposort_complete _ (wf_acyclic _ Hwf)) as [ns Hns].
  destruct (dg_toposort_sound _ _ Hns) as [Hperm Hbef].
  destruct (topo_sort_fold a ns [] Hwf) as (l & Hl & Hall); [by rewrite Hperm|].
  exists l. unfold topo_sort. rewrite Hns. split; [exact Hl|].
  assert (NoDup ns) as Hnd by (rewrite Hperm, dg_nodes_compact; apply NoDup_seq).
  assert (∀ i k, l.*1 !! i = Some k → ∃ n, ns !! i = Some n ∧ node_indices a !! k = Some n) as Hkey.
  { intros i k Hk. apply list_lookup_fmap_Some in Hk as ([k' v] & -> & Hi).
    destruct (Forall2_lookup_r _ _ _ _ _ Hall Hi) as (n & Hn & [Hk' _]). eauto. }
  split_and!; [by eapply NoDup_entries| |].
  - intros k v. split.
    + intros [p Hp]%list_elem_of_lookup.
      destruct (Forall2_lookup_r _ _ _ _ _ Hall Hp) as (n & _ & [Hk Hv]).
      simpl in *. unfold get. by rewrite Hk.
    + unfold get. intros Hg. destruct (node_indices a !! k) as [n|] eqn:Hn; [|done].
      assert (n ∈ ns) as [p Hp]%list_elem_of_lookup by (rewrite Hperm; eauto using wf_node_valid).
      destruct (Forall2_lookup_l _ _ _ _ _ Hall Hp) as ([k' v'] & Hkv & [Hk' Hv']). simpl in *.
      assert (k' = k) as -> by eauto using wf_inj. simplify_eq. apply list_elem_of_lookup. eauto.
  - intros i j f t Hi Hj (nf & nt & Hf & Ht & He).
    destruct (Hkey i f Hi) as (x & Hx & Hfx), (Hkey j t Hj) as (y & Hy & Hty). simplify_eq.
    destruct (Hbef _ _ He) as (i' & j' & Hi' & Hj' & Hlt).
    pose proof (NoDup_lookup _ _ _ _ Hnd Hx Hi'). pose proof (NoDup_lookup _ _ _ _ Hnd Hy Hj'). lia.
Qed.
End properties.

(** ** Witnesses *)
Section witnesses.
#[local] Existing Instance canonical_order.

(** 1 and 2 before 3, 2 before 4, 3 and 4 before 5. *)
Definition diamond : AcyclicDigraphMap nat nat :=
  foldl (λ a o, run_op o a) new
    [OpAddNode 1 10; OpAddNode 2 20; OpAddNode 3 30; OpAddNode 4 40; OpAddNode 5 50;
     OpAddDependency 1 3; OpAddDependency 2 3; OpAddDependency 2 4;
     OpAddDependency 3 5; OpAddDependency 4 5].

Lemma diamond_wf : wf diamond.
Proof. unfold diamond. cbn [foldl]. repeat apply run_op_wf. apply new_wf. Qed.

Lemma adm_invariant_witness : wf diamond.
Proof. apply adm_invariant. Defined.

Lemma topo_sort_by_level_correct_witness :
  ∃ levels, topo_sort_by_level diamond = Some (Ok levels) ∧
    (λ l, l.*1) <$> levels = [[2; 1]; [4; 3]; [5]] ∧
    ∀ i j f t, key_at levels i f → key_at levels j t → depends diamond f t → i < j.
Proof.
  destruct (topo_sort_by_level_correct diamond diamond_wf) as (levels & Ht & _ & _ & _ & Hs).
  exists levels. split; [exact Ht|]. split; [|exact Hs].
  assert (topo_sort_by_level diamond = Some (Ok [[(2, 20); (1, 10)]; [(4, 40); (3, 30)]; [(5, 50)]])) as Hc
    by (vm_compute; reflexivity).
  rewrite Hc in Ht. injection Ht as <-. reflexivity.
Defined.

Lemma add_dependency_cycle_witness :
  (add_dependency 5 1 diamond).1 = Err CycleDetected ∧ rtc (depends diamond) 1 5.
Proof.
  assert ((add_dependency 5 1 diamond).1 = Err CycleDetected) as He by (vm_compute; reflexivity).
  split; [exact He|]. by apply (add_dependency_cycle 5 1 diamond diamond_wf) in He as (_ & _ & ?).
Defined.

Lemma topo_sort_correct_witness :
  ∃ l, topo_sort diamond = Ok l ∧ ∀ k v, (k, v) ∈ l ↔ get k diamond = Some v.
Proof.
  destruct (topo_sort_correct diamond diamond_wf) as (l & Hl & _ & He & _). exists l. split; [exact Hl|exact He].
Defined.
End witnesses.

End Adm.
