(* ===== verification/TaskNetwork.v ===== *)
(** * The task network ([crates/task-network/src/lib.rs])

    Tasks with dependencies, run level by level on a bounded number of worker
    permits. The synchronous methods are functions on the state; a dependency
    on a task that is not in the network yet is parked in
    [pending_dependents] and turned into an edge when that task arrives.

    [process_tasks] is concurrent: every task of a level is spawned, takes a
    permit of the semaphore, calls the handler and drops the permit; the level
    is joined before the next one starts. It is modelled as a step relation
    [pstep] whose runs are all the interleavings, with the handler's results
    left open. *)

From S2P Require Import Prelude PetGraph AcyclicDigraphMap.
Local Open Scope torii_scope.

Module Tn.
Import Adm.

Inductive TaskNetworkError (K E : Type) : Type :=
| GraphError (e : AcyclicDigraphMapError K)
| SemaphoreError
| JoinError
| TaskError (e : E).
Arguments GraphError {K E} e.
Arguments SemaphoreError {K E}.
Arguments JoinError {K E}.
Arguments TaskError {K E} e.

Record TaskNetwork (K T : Type) `{Countable K, !DiGraphOps T} : Type := mkTN {
  tasks : AcyclicDigraphMap K T;
  pending_dependents : gmap K (gset K);
  (** permits of the semaphore *)
  semaphore : nat
}.
Arguments mkTN {K T _ _ _} tasks pending_dependents semaphore.
Arguments tasks {K T _ _ _} t.
Arguments pending_dependents {K T _ _ _} t.
Arguments semaphore {K T _ _ _} t.

(** ** The synchronous methods *)
Section operations.
Context {K T E : Type} `{Countable K} `{!DiGraphOps T} {HO : HashOrder}.
#[local] Abbreviation tn := (TaskNetwork K T).
#[local] Abbreviation error := (TaskNetworkError K E).
Implicit Types n : tn.

Definition set_tasks (a : AcyclicDigraphMap K T) n : tn :=
  mkTN a (pending_dependents n) (semaphore n).
Definition set_pending (p : gmap K (gset K)) n : tn := mkTN (tasks n) p (semaphore n).

Definition new (max_concurrent_tasks : nat) : tn := mkTN Adm.new ∅ max_concurrent_tasks.

(** [self.tasks.f(..).map_err(TaskNetworkError::GraphError)] *)
Definition on_graph {A} (m : st (AcyclicDigraphMap K T) (AcyclicDigraphMapError K) A)
  : st tn error A := st_map_err GraphError (st_zoom tasks set_tasks m).

Definition add_dependency (from to : K) : st tn error unit :=
  on_graph (Adm.add_dependency from to).

Definition add_dependency_or_defer (from to : K) : st tn error unit := λ n,
  if contains_key from (tasks n) then add_dependency from to n
  else
    (Ok tt, set_pending
      (<[from := {[to]} ∪ default ∅ (pending_dependents n !! from)]> (pending_dependents n)) n).

Definition add_dependencies (task_id : K) (dependencies : list K) : st tn error unit :=
  for_each (λ dep, add_dependency_or_defer dep task_id) dependencies.

Definition resolve_pending_dependents (task_id : K) : st tn error unit := λ n,
  match pending_dependents n !! task_id with
  | None => (Ok tt, n)
  | Some dependents =>
      for_each (λ dependent n,
          if contains_key dependent (tasks n) then add_dependency task_id dependent n
          else (Ok tt, n))
        (hs_iter dependents)
        (set_pending (delete task_id (pending_dependents n)) n)
  end.

Definition add_task_with_dependencies (task_id : K) (task : T) (dependencies : list K)
  : st tn error unit :=
  on_graph (add_node task_id task) ;;;
  resolve_pending_dependents task_id ;;;
  add_dependencies task_id dependencies.

Definition add_task (task_id : K) (task : T) : st tn error unit :=
  add_task_with_dependencies task_id task [].

Definition is_empty n : bool := Adm.is_empty (tasks n).
Definition len n : nat := Adm.len (tasks n).

(** [if let Some(t) = self.get_mut(id) { *t = f(t) }] *)
Definition get_mut (task_id : K) (f : T → T) n : option tn :=
  (λ a, set_tasks a n) <$> Adm.get_mut task_id f (tasks n).

Definition clear n : tn := mkTN (Adm.clear (tasks n)) ∅ (semaphore n).
End operations.

(** ** Processing: all interleavings *)
Section processing.
Context {K T E : Type} `{Countable K} `{!DiGraphOps T} {HO : HashOrder}.
#[local] Abbreviation tn := (TaskNetwork K T).
#[local] Abbreviation error := (TaskNetworkError K E).

(** What a handler did: [Ok(_)], [Err(e)], or a panic. *)
Definition task_result : Type := outcome E unit.

Inductive event : Type :=
| Started (task_id : K)
| Finished (task_id : K) (r : task_result).

(** A level being processed: the tasks spawned without a permit yet, those
    holding one, and the results of those that returned. *)
Record level_conf : Type := mkConf {
  todo : list (list (K * T));
  current : list (K * T);
  waiting : list (K * T);
  running : list (K * T);
  returned : list (K * task_result);
  log : list event
}.

Inductive pconf : Type :=
| PLevel (c : level_conf)
| PDone (r : outcome error unit) (l : list event).

Definition results_of (current : list (K * T)) (returned : list (K * task_result))
  : list (option task_result) :=
  (λ kt : K * T, snd <$> find (λ kr : K * task_result, bool_decide (kr.1 = kt.1)) returned)
    <$> current.

(** [for result in results { result?; }]: the first error in spawn order. *)
Fixpoint first_error (rs : list (option task_result)) : option E :=
  match rs with
  | [] => None
  | Some (Err e) :: _ => Some e
  | _ :: rs => first_error rs
  end.

Definition panicked (returned : list (K * task_result)) : Prop :=
  ∃ k, (k, Panic) ∈ returned.

Inductive pstep (permits : nat) : pconf → pconf → Prop :=
| step_start todo current w1 w2 running returned log k t :
    length running < permits →
    pstep permits
      (PLevel (mkConf todo current (w1 ++ (k, t) :: w2) running returned log))
      (PLevel (mkConf todo current (w1 ++ w2) (running ++ [(k, t)]) returned (log ++ [Started k])))
| step_finish todo current waiting r1 r2 returned log k t r :
    pstep permits
      (PLevel (mkConf todo current waiting (r1 ++ (k, t) :: r2) returned log))
      (PLevel (mkConf todo current waiting (r1 ++ r2) (returned ++ [(k, r)]) (log ++ [Finished k r])))
| step_join_error c :
    panicked (returned c) →
    pstep permits (PLevel c) (PDone (Err JoinError) (log c))
| step_task_error todo current returned log e :
    ¬ panicked returned →
    first_error (results_of current returned) = Some e →
    pstep permits
      (PLevel (mkConf todo current [] [] returned log)) (PDone (Err (TaskError e)) log)
| step_next_level next todo current returned log :
    ¬ panicked returned →
    first_error (results_of current returned) = None →
    pstep permits
      (PLevel (mkConf (next :: todo) current [] [] returned log))
      (PLevel (mkConf todo next next [] [] log))
| step_done current returned log :
    ¬ panicked returned →
    first_error (results_of current returned) = None →
    pstep permits (PLevel (mkConf [] current [] [] returned log)) (PDone (Ok tt) log).

Definition initial (levels : list (list (K * T))) : pconf :=
  PLevel (mkConf levels [] [] [] [] []).

(** [process_tasks] on [n] can return [r] after the handler calls [l],
    leaving the network [n']. *)
Inductive process_tasks (n : tn) : outcome error unit → list event → tn → Prop :=
| process_empty : is_empty n = true → process_tasks n (Ok tt) [] n
| process_ok levels l :
    is_empty n = false →
    topo_sort_by_level (tasks n) = Some (Ok levels) →
    rtc (pstep (semaphore n)) (initial levels) (PDone (Ok tt) l) →
    process_tasks n (Ok tt) l (clear n)
| process_err levels e l :
    is_empty n = false →
    topo_sort_by_level (tasks n) = Some (Ok levels) →
    rtc (pstep (semaphore n)) (initial levels) (PDone (Err e) l) →
    process_tasks n (Err e) l n.
End processing.

(** ** A handler that runs the tasks one after the other

    One of the schedules of [process_tasks], executable: it is what a witness
    evaluates. *)
Section sequential.
Context {K T E : Type} `{Countable K} `{!DiGraphOps T}.

Definition run_task (handler : K → T → outcome E unit) (l : list (event (K := K) (E := E))) (kt : K * T)
  : list event := l ++ [Started kt.1; Finished kt.1 (handler kt.1 kt.2)].

Fixpoint run_levels (handler : K → T → outcome E unit) (levels : list (list (K * T)))
    (l : list (event (K := K) (E := E))) : outcome (TaskNetworkError K E) unit * list event :=
  match levels with
  | [] => (Ok tt, l)
  | level :: levels =>
      let l' := foldl (run_task handler) l level in
      let rs := (λ kt : K * T, (kt.1, handler kt.1 kt.2)) <$> level in
      if existsb (λ kr, is_panic kr.2) rs
      then (Err JoinError, l')
      else match first_error ((λ kr, Some kr.2) <$> rs) with
           | Some e => (Err (TaskError e), l')
           | None => run_levels handler levels l'
           end
  end.
End sequential.

(** ** Safety of processing *)
Section process_invariant.
Context {K T E : Type} `{Countable K} `{!DiGraphOps T, !DiGraphSpec T} {HO : HashOrder}.
Implicit Types (a : AcyclicDigraphMap K T) (l : list (event (K := K) (E := E))).
#[local] Abbreviation conf := (level_conf (K := K) (T := T) (E := E)).

Definition started l : list K := omap (λ ev, match ev with Started k => Some k | _ => None end) l.

Definition log_of (c : pconf (K := K) (T := T) (E := E)) : list event :=
  match c with PLevel c => log c | PDone _ l => l end.

(** Every task started after all its dependencies succeeded. *)
Definition log_safe a l : Prop :=
  ∀ l1 t l2 f, l = l1 ++ Started t :: l2 → depends a f t → Finished f (Ok tt) ∈ l1.

Lemma log_safe_nil a : log_safe a [].
Proof. intros l1 t l2 f Hl. by destruct l1. Qed.

Lemma log_safe_snoc a l ev :
  log_safe a l →
  (∀ t f, ev = Started t → depends a f t → Finished f (Ok tt) ∈ l) →
  log_safe a (l ++ [ev]).
Proof.
  intros Hl Hev l1 t l2 f Heq Hd. destruct l2 as [|ev' l2' _] using rev_ind.
  - apply app_inj_tail in Heq as [-> ->]. eauto.
  - rewrite app_comm_cons, app_assoc in Heq. apply app_inj_tail in Heq as [-> _]. eauto.
Qed.

Record level_inv a (levels : list (list (K * T))) (i : nat) (c : conf) : Prop := {
  pi_todo : todo c = drop i levels;
  pi_current : (i = 0 ∧ current c = []) ∨ ∃ j, i = S j ∧ levels !! j = Some (current c);
  pi_perm : (waiting c).*1 ++ (running c).*1 ++ (returned c).*1 ≡ₚ (current c).*1;
  pi_prev j lv k : S j < i → levels !! j = Some lv → k ∈ lv.*1 → Finished k (Ok tt) ∈ log c;
  pi_returned k r : (k, r) ∈ returned c → Finished k r ∈ log c;
  pi_started :
    started (log c) ≡ₚ (concat (take (pred i) levels)).*1 ++ (running c).*1 ++ (returned c).*1;
  pi_safe : log_safe a (log c)
}.

Lemma first_error_notin (rs : list (option (task_result (E := E)))) :
  first_error rs = None → ∀ e, Some (Err e) ∉ rs.
Proof.
  induction rs as [|o rs IH]; intros Hf e; [by apply not_elem_of_nil|].
  destruct o as [[u|e'|]|]; simpl in Hf; try discriminate Hf;
    rewrite not_elem_of_cons; split; try done; by apply IH.
Qed.

Lemma first_error_None (current : list (K * T)) (returned : list (K * task_result (E := E))) k r :
  first_error (results_of current returned) = None → ¬ panicked returned →
  k ∈ current.*1 → (k, r) ∈ returned → NoDup returned.*1 → r = Ok tt.
Proof.
  intros Hf Hp Hk Hr Hnd.
  destruct r as [[]|e|]; [done| |by destruct Hp; exists k].
  exfalso. apply (first_error_notin _ Hf e). unfold results_of.
  apply list_elem_of_fmap in Hk as ([k' t] & -> & Hk). apply list_elem_of_fmap.
  exists (k', t). split; [|done]. simpl in *.
  assert (find (λ kr : K * task_result (E := E), bool_decide (kr.1 = k')) returned =
    Some (k', Err e)) as ->; [|done].
  clear -Hr Hnd. induction returned as [|[k r] rs IH]; [by apply not_elem_of_nil in Hr|].
  simpl in *. apply NoDup_cons in Hnd as [Hni Hnd].
  apply elem_of_cons in Hr as [ [= <- <-]|Hr]; [by rewrite bool_decide_eq_true_2|].
  rewrite bool_decide_eq_false_2; [by apply IH|]. intros ->. apply Hni, list_elem_of_fmap.
  by exists (k', Err e).
Qed.

Lemma started_app l1 l2 : started (l1 ++ l2) = started l1 ++ started l2.
Proof. apply omap_app. Qed.

Lemma keys_level_nodup (levels : list (list (K * T))) j lv :
  NoDup (concat levels).*1 → levels !! j = Some lv → NoDup lv.*1.
Proof.
  revert j. induction levels as [|l0 levels IH]; intros j Hnd Hj; [done|].
  simpl in Hnd. rewrite fmap_app in Hnd. apply NoDup_app in Hnd as (H1 & _ & H2).
  destruct j; simplify_eq/=; [done|]. eauto.
Qed.

(** A dependency of a task of level [j] sits in an earlier level. *)
Lemma dependency_earlier a levels j lv f t :
  wf a → level_order a levels → levels !! j = Some lv → t ∈ lv.*1 → depends a f t →
  ∃ i lv', i < j ∧ levels !! i = Some lv' ∧ f ∈ lv'.*1.
Proof.
  intros Hwf Hlo Hj Ht Hd.
  assert (is_Some (Adm.get f a)) as [v Hv].
  { apply get_is_Some; [done|]. destruct Hd as (x & _ & Hx & _). eauto. }
  apply (lo_entries _ _ Hlo), elem_of_concat_levels in Hv as (i & lv' & Hi & Hin).
  assert (f ∈ lv'.*1) as Hf by (apply list_elem_of_fmap; by exists (f, v)).
  exists i, lv'. split_and!; [|done..]. eapply (lo_sorted _ _ Hlo); [..|done]; by eexists.
Qed.

(** Once a level has been joined without an error, all its tasks succeeded. *)
Lemma level_finished a levels i c :
  level_order a levels → level_inv a levels i c → waiting c = [] → running c = [] →
  ¬ panicked (returned c) → first_error (results_of (current c) (returned c)) = None →
  ∀ j lv k, j < i → levels !! j = Some lv → k ∈ lv.*1 → Finished k (Ok tt) ∈ log c.
Proof.
  intros Hlo [Htodo Hcur Hperm Hprev Hret Hst Hsafe] Hw Hr Hp Hf j lv k Hj Hlv Hk.
  destruct (decide (S j < i)) as [|Hge]; [eauto|].
  destruct Hcur as [[-> _]|(j' & -> & Hj')]; [lia|].
  assert (j = j') as -> by lia. simplify_eq. rewrite Hw, Hr in Hperm. simpl in Hperm.
  pose proof Hk as Hk'. rewrite <- Hperm in Hk'.
  apply list_elem_of_fmap in Hk' as ([k' r] & -> & Hin). simpl in *.
  assert (r = Ok tt) as ->; [|by apply Hret].
  eapply first_error_None; eauto. rewrite Hperm. eauto using keys_level_nodup, lo_nodup.
Qed.

Lemma pstep_inv a levels p i c c' :
  wf a → level_order a levels → level_inv a levels i c → pstep p (PLevel c) (PLevel c') →
  ∃ i', level_inv a levels i' c'.
Proof.
  intros Hwf Hlo Hinv Hstep. pose proof (lo_nodup _ _ Hlo) as Hnd.
  inversion Hstep; subst; pose proof Hinv as Hinv0;
    destruct Hinv as [Htodo Hcur Hperm Hprev Hret Hst Hsafe]; simpl in *.
  - exists i. split; simpl; try done.
    + rewrite <- Hperm, !fmap_app. simpl. solve_Permutation.
    + intros j lv k' ???. apply elem_of_app. left. eauto.
    + intros k' r ?. apply elem_of_app. left. eauto.
    + rewrite started_app, Hst, fmap_app. simpl. solve_Permutation.
    + apply log_safe_snoc; [done|]. intros t' f [= <-] Hd.
      assert (k ∈ current0.*1) as Hk.
      { rewrite <- Hperm, !fmap_app. simpl. set_solver. }
      destruct Hcur as [[_ ->]|(j & -> & Hj)]; [by apply not_elem_of_nil in Hk|].
      destruct (dependency_earlier a levels j current0 f k) as (i' & lv' & Hlt & Hi' & Hf); [done..|].
      eapply Hprev; eauto. lia.
  - exists i. split; simpl; try done.
    + rewrite <- Hperm, !fmap_app. simpl. solve_Permutation.
    + intros j lv k' ???. apply elem_of_app. left. eauto.
    + intros k' r' [Hin|[= <- <-]%list_elem_of_singleton]%elem_of_app; apply elem_of_app;
        [left; eauto|right; left].
    + rewrite started_app, Hst, !fmap_app. simpl. rewrite app_nil_r. solve_Permutation.
    + by apply log_safe_snoc.
  - exists (S i).
    assert (levels !! i = Some next) as Hi by (rewrite <- (Nat.add_0_r i), <- lookup_drop, <- Htodo; done).
    split; simpl; try done.
    + by rewrite <- Nat.add_1_r, <- drop_drop, <- Htodo.
    + right. eauto.
    + by rewrite app_nil_r.
    + intros j lv k Hj Hlv Hk. 
      apply (level_finished a levels i _ Hlo Hinv0) with j lv; simpl; try done. lia.
    + intros k r Hin. by apply not_elem_of_nil in Hin.
    + rewrite app_nil_r, Hst.
      destruct Hcur as [[-> ->]|(j' & -> & Hj')].
      * apply Permutation_sym, Permutation_nil in Hperm. simpl in Hperm. by rewrite Hperm.
      * rewrite Hperm. simpl. rewrite (take_S_r _ _ _ Hj'), concat_app, fmap_app. simpl.
        by rewrite app_nil_r.
Qed.

Lemma level_inv_nodup a levels i c :
  level_order a levels → level_inv a levels i c → NoDup (started (log c)).
Proof.
  intros Hlo [Htodo Hcur Hperm _ _ Hst _]. pose proof (lo_nodup _ _ Hlo) as Hnd.
  assert (NoDup ((concat (take (pred i) levels)).*1 ++ (current c).*1)) as Hnd'.
  { destruct Hcur as [[-> ->]|(j & -> & Hj)]; simpl; [constructor|].
    rewrite <- (take_drop (S j) levels), concat_app, fmap_app in Hnd.
    apply NoDup_app in Hnd as (Hnd & _ & _).
    rewrite (take_S_r _ _ _ Hj), concat_app, fmap_app in Hnd. simpl in Hnd.
    by rewrite app_nil_r in Hnd. }
  rewrite Hst. rewrite <- Hperm in Hnd'. eapply sublist_NoDup; [exact Hnd'|].
  apply sublist_app; [done|]. by apply sublist_inserts_l.
Qed.

Lemma level_inv_last a levels i c :
  level_order a levels → level_inv a levels i c → todo c = [] → waiting c = [] → running c = [] →
  ¬ panicked (returned c) → first_error (results_of (current c) (returned c)) = None →
  ∀ k, k ∈ (concat levels).*1 → Finished k (Ok tt) ∈ log c.
Proof.
  intros Hlo Hinv Ht Hw Hr Hp Hf k Hk.
  apply list_elem_of_fmap in Hk as (kv & -> & Hkv).
  apply elem_of_concat_levels in Hkv as (j & lv & Hj & Hkv).
  eapply level_finished; eauto; [|apply list_elem_of_fmap; eauto].
  apply lookup_lt_Some in Hj. rewrite (pi_todo _ _ _ _ Hinv) in Ht.
  apply (f_equal length) in Ht. rewrite length_drop in Ht. simpl in Ht. lia.
Qed.

(** [P] holds of every configuration reachable from the start. *)
Lemma reachable_ind (P : pconf (K := K) (T := T) (E := E) → Prop) levels p c :
  P (initial levels) →
  (∀ c1 c2, rtc (pstep p) (initial levels) c1 → P c1 → pstep p c1 c2 → P c2) →
  rtc (pstep p) (initial levels) c → P c.
Proof. intros H0 Hs Hr. revert c Hr. apply rtc_ind_r; eauto. Qed.

Definition pconf_inv a levels (pc : pconf (K := K) (T := T) (E := E)) : Prop :=
  match pc with
  | PLevel c => ∃ i, level_inv a levels i c
  | PDone r l => log_safe a l ∧ NoDup (started l) ∧
      (r = Ok tt → ∀ k, k ∈ (concat levels).*1 → Finished k (Ok tt) ∈ l)
  end.

Lemma reachable_inv a levels p pc :
  wf a → level_order a levels → rtc (pstep p) (initial levels) pc → pconf_inv a levels pc.
Proof.
  intros Hwf Hlo. apply (reachable_ind (pconf_inv a levels)).
  - exists 0. split; simpl; try done; [by left|lia|..|apply log_safe_nil].
    intros k r Hin. by apply not_elem_of_nil in Hin.
  - intros [c|] c2 _ Hinv Hstep; [|inversion Hstep]. destruct Hinv as [i Hi]. simpl.
    destruct c2 as [c2|r l]; simpl; [by eapply pstep_inv|].
    assert (l = log c) as -> by (inversion Hstep; by subst).
    split_and!; [apply Hi|by eapply level_inv_nodup|].
    intros ->. inversion Hstep; subst. by eapply level_inv_last.
Qed.
End process_invariant.

(** ** Termination and progress of processing *)
Section process_liveness.
Context {K T E : Type} `{Countable K} `{!DiGraphOps T}.
#[local] Abbreviation pconf := (pconf (K := K) (T := T) (E := E)).

Definition todo_size (todo : list (list (K * T))) : nat :=
  foldr (λ l n, 1 + 2 * length l + n) 0 todo.

(** Steps left at most. *)
Definition measure (c : pconf) : nat :=
  match c with
  | PLevel c => 1 + 2 * length (waiting c) + length (running c) + todo_size (todo c)
  | PDone _ _ => 0
  end.

Lemma pstep_measure p (c c' : pconf) : pstep p c c' → measure c' < measure c.
Proof. destruct 1; simpl; rewrite ?length_app; simpl; rewrite ?length_app; simpl; lia. Qed.

Lemma panicked_existsb (rs : list (K * task_result (E := E))) :
  panicked rs ↔ existsb (λ kr, is_panic kr.2) rs = true.
Proof.
  rewrite existsb_exists. unfold panicked. setoid_rewrite list_elem_of_In. split.
  - intros [k Hk]. by exists (k, Panic).
  - intros ([k []] & Hin & Hp); try done. by exists k.
Qed.

Lemma pstep_progress p (c : level_conf (K := K) (T := T) (E := E)) :
  0 < p → ∃ c', pstep p (PLevel c) c'.
Proof.
  intros Hp. destruct c as [todo current waiting running returned log].
  destruct running as [|[k t] running].
  - destruct waiting as [|[k t] waiting].
    + destruct (existsb (λ kr, is_panic kr.2) returned) eqn:Hex.
      { eexists. apply step_join_error. by apply panicked_existsb. }
      assert (¬ panicked returned) as Hnp by by rewrite panicked_existsb, Hex.
      destruct (first_error (results_of current returned)) as [e|] eqn:He.
      * eexists. by apply step_task_error.
      * destruct todo as [|next todo]; eexists; [by apply step_done|by apply step_next_level].
    + eexists. by apply (step_start _ _ _ [] waiting [] _ _ k t).
  - eexists. by apply (step_finish _ _ _ _ [] running _ _ k t (Ok tt)).
Qed.

Lemma nsteps_measure p n (c c' : pconf) : nsteps (pstep p) n c c' → n + measure c' ≤ measure c.
Proof. induction 1 as [|n x y z Hxy _ IH]; [lia|]. apply pstep_measure in Hxy. lia. Qed.

Lemma run_to_done p (c : pconf) : 0 < p → ∃ r l, rtc (pstep p) c (PDone r l).
Proof.
  intros Hp. induction c as [c IH] using (well_founded_induction
    (Wf_nat.well_founded_ltof _ measure)).
  destruct c as [c|r l]; [|by exists r, l; apply rtc_refl].
  destruct (pstep_progress p c Hp) as [c' Hc']. destruct (IH c') as (r & l & Hr).
  - by apply pstep_measure in Hc'.
  - exists r, l. by eapply rtc_l.
Qed.

Lemma running_bounded p (c : pconf) levels :
  rtc (pstep p) (initial levels) c →
  match c with PLevel c => length (running c) ≤ p | PDone _ _ => True end.
Proof.
  apply (reachable_ind (λ c : pconf, match c with PLevel c => length (running c) ≤ p | _ => True end)).
  - simpl. lia.
  - intros c1 c2 _ H1 Hs. destruct Hs; simpl in *; rewrite ?length_app in *; simpl in *; lia || done.
Qed.
End process_liveness.

(** ** The sequential schedule is one of them *)
Section sequential_schedule.
Context {K T E : Type} `{Countable K} `{!DiGraphOps T} (handler : K → T → outcome E unit).
#[local] Abbreviation result_of := (λ kt : K * T, (kt.1, handler kt.1 kt.2)).

Lemma run_level_steps p todo (current waiting : list (K * T)) returned (l : list event) :
  0 < p →
  rtc (pstep p) (PLevel (mkConf todo current waiting [] returned l))
    (PLevel (mkConf todo current [] [] (returned ++ (result_of <$> waiting))
      (foldl (run_task handler) l waiting))).
Proof.
  intros Hp. revert returned l. induction waiting as [|[k t] w IH]; intros returned l; simpl.
  { rewrite app_nil_r. apply rtc_refl. }
  eapply rtc_l; [by apply (step_start _ _ _ [] w [])|]. simpl.
  eapply rtc_l; [by apply (step_finish _ _ _ _ [] [] _ _ k t (handler k t))|]. simpl.
  specialize (IH (returned ++ [(k, handler k t)]) (run_task handler l (k, t))).
  unfold run_task at 1 in IH. simpl in IH. rewrite <- !app_assoc in *. simpl in *. exact IH.
Qed.

Lemma results_of_self (level : list (K * T)) :
  NoDup level.*1 →
  results_of level (result_of <$> level) = (λ kt, Some (handler kt.1 kt.2)) <$> level.
Proof.
  intros Hnd. unfold results_of. apply list_fmap_ext. intros j [k t] Hj. simpl.
  assert (find (λ kr : K * task_result (E := E), bool_decide (kr.1 = k)) (result_of <$> level) =
    Some (k, handler k t)) as ->; [|done].
  revert j Hj. induction level as [|[k' t'] level IH]; intros j Hj; [done|].
  simpl in Hnd. apply NoDup_cons in Hnd as [Hni Hnd]. destruct j as [|j]; simplify_eq/=.
  - by rewrite bool_decide_eq_true_2.
  - rewrite bool_decide_eq_false_2; [by eapply IH|]. intros ->. apply Hni, list_elem_of_fmap.
    exists (k, t). split; [done|]. apply list_elem_of_lookup. eauto.
Qed.

Lemma run_levels_steps p levels (current : list (K * T)) returned l r l' :
  0 < p → (∀ j lv, levels !! j = Some lv → NoDup lv.*1) →
  ¬ panicked returned → first_error (results_of current returned) = None →
  run_levels handler levels l = (r, l') →
  rtc (pstep p) (PLevel (mkConf levels current [] [] returned l)) (PDone r l').
Proof.
  intros Hp. revert current returned l.
  induction levels as [|lv levels IH]; intros current returned l Hnd Hnp Hf Hrun; simpl in Hrun.
  { simplify_eq. eapply rtc_l; [by apply step_done|apply rtc_refl]. }
  eapply rtc_l; [by apply step_next_level|].
  etrans; [by apply run_level_steps|]. simpl.
  pose proof (results_of_self lv (Hnd 0 lv eq_refl)) as Hres.
  destruct (existsb _ _) eqn:Hex.
  - simplify_eq. eapply rtc_l; [|apply rtc_refl]. apply step_join_error. simpl.
    by apply panicked_existsb.
  - assert (¬ panicked (result_of <$> lv)) as Hnp' by by rewrite panicked_existsb, Hex.
    rewrite <- list_fmap_compose in Hrun. unfold compose in Hrun. simpl in Hrun.
    rewrite <- Hres in Hrun.
    destruct (first_error (results_of lv _)) as [e|] eqn:He.
    + simplify_eq. eapply rtc_l; [|apply rtc_refl]. by apply step_task_error.
    + apply IH; try done. intros j lv'. apply (Hnd (S j)).
Qed.
End sequential_schedule.

(** ** Declared dependencies

    The abstract state of a network is the set of its tasks and the set [D] of
    the dependencies its clients declared. [represents] relates it to the
    concrete state: a declared dependency on a present task is an edge, one on
    an absent task is pending. *)
Section refinement.
Context {K T E : Type} `{Countable K} `{!DiGraphOps T, !DiGraphSpec T} {HO : HashOrder}.
#[local] Abbreviation tn := (TaskNetwork K T).
Implicit Types (n : tn) (D : gset (K * K)).

Definition present n (k : K) : Prop := is_Some (node_indices (tasks n) !! k).
Definition pending n (from to : K) : Prop :=
  to ∈ default ∅ (pending_dependents n !! from).

Record represents n D : Prop := {
  rep_wf : wf (tasks n);
  rep_edges f t : depends (tasks n) f t ↔ (f, t) ∈ D ∧ present n f;
  rep_pending f t : pending n f t ↔ (f, t) ∈ D ∧ ¬ present n f;
  rep_targets f t : (f, t) ∈ D → present n t
}.

Lemma on_graph_spec {A} (m : st (AcyclicDigraphMap K T) (AcyclicDigraphMapError K) A) n :
  on_graph (E := E) m n = (map_err GraphError (m (tasks n)).1, set_tasks (m (tasks n)).2 n).
Proof. unfold on_graph, st_map_err, st_zoom. by destruct (m (tasks n)). Qed.

Lemma add_dependency_Ok f t n n' :
  add_dependency (E := E) f t n = (Ok tt, n') →
  n' = set_tasks (Adm.add_dependency f t (tasks n)).2 n ∧
  (Adm.add_dependency f t (tasks n)).1 = Ok tt.
Proof.
  unfold add_dependency. rewrite on_graph_spec.
  destruct (Adm.add_dependency f t (tasks n)) as [[[]| |] a]; naive_solver.
Qed.

Lemma node_indices_add_dependency f t (a : AcyclicDigraphMap K T) :
  node_indices (Adm.add_dependency f t a).2 = node_indices a.
Proof. rewrite add_dependency_spec. by repeat case_match. Qed.

Lemma add_dependency_or_defer_represents f t n n' D :
  represents n D → present n t →
  add_dependency_or_defer (E := E) f t n = (Ok tt, n') →
  represents n' ({[(f, t)]} ∪ D) ∧ (∀ k, present n' k ↔ present n k).
Proof.
  intros [Hwf He Hp Ht] Hpt. unfold add_dependency_or_defer.
  destruct (contains_key f (tasks n)) eqn:Hf.
  - apply contains_key_true in Hf. intros [-> Hok]%add_dependency_Ok.
    assert (∀ k, present (set_tasks (Adm.add_dependency f t (tasks n)).2 n) k ↔ present n k) as Hpres.
    { intros k. unfold present. simpl. by rewrite node_indices_add_dependency. }
    split; [|done]. split; simpl.
    + by apply add_dependency_wf.
    + intros x y. rewrite Hpres, depends_add_dependency, He by done. fold (present n f) in Hf.
      set_solver.
    + intros x y. rewrite Hpres. unfold pending. simpl. rewrite (Hp x y).
      fold (present n f) in Hf. set_solver.
    + intros x y Hin. rewrite Hpres. set_solver.
  - apply contains_key_false in Hf. intros [= <-]. split; [|done].
    assert (¬ present n f) as Hnf by (unfold present; rewrite Hf; by apply is_Some_None).
    split; simpl; [done|..].
    + intros x y. unfold present in *. simpl. rewrite He. unfold present. set_solver.
    + intros x y. unfold pending, present in *. simpl. rewrite lookup_insert.
      specialize (Hp x y). unfold pending, present in Hp.
      case_decide; subst; simpl; [|set_solver]. rewrite elem_of_union, Hp. set_solver.
    + intros x y Hin. unfold present in *. simpl. set_solver.
Qed.

Lemma add_dependencies_represents t deps n n' D :
  represents n D → present n t →
  add_dependencies (E := E) t deps n = (Ok tt, n') →
  represents n' (list_to_set ((λ f, (f, t)) <$> deps) ∪ D) ∧ (∀ k, present n' k ↔ present n k).
Proof.
  unfold add_dependencies. revert n D. induction deps as [|f deps IH]; intros n D Hrep Hpt Hrun.
  - simpl in *. injection Hrun as <-. by rewrite union_empty_l_L.
  - apply for_each_Ok_cons in Hrun as (n1 & H1 & H2).
    destruct (add_dependency_or_defer_represents f t n n1 D) as [Hrep1 Hp1]; [done..|].
    destruct (IH n1 _ Hrep1) as [Hrep2 Hp2]; [by apply Hp1|done|]. split.
    + replace (list_to_set ((λ f, (f, t)) <$> f :: deps) ∪ D)
        with (list_to_set ((λ f, (f, t)) <$> deps) ∪ ({[(f, t)]} ∪ D)); [done|].
      simpl. clear. set_solver.
    + intros k. by rewrite Hp2.
Qed.

(** Activating the dependents of a task that has just been inserted: no path
    leads to it yet, so no edge out of it can close a cycle. *)
Definition resolve_one (task_id : K) (dependent : K) : st tn (TaskNetworkError K E) unit := λ n,
  if contains_key dependent (tasks n) then add_dependency task_id dependent n else (Ok tt, n).

Lemma resolve_loop task_id (l : list K) n :
  wf (tasks n) → present n task_id → (∀ d, d ∈ l → present n d ∧ d ≠ task_id) →
  (∀ x, ¬ depends (tasks n) x task_id) →
  ∃ n', for_each (resolve_one task_id) l n = (Ok tt, n') ∧
    wf (tasks n') ∧ pending_dependents n' = pending_dependents n ∧
    node_indices (tasks n') = node_indices (tasks n) ∧
    ∀ x y, depends (tasks n') x y ↔ depends (tasks n) x y ∨ (x = task_id ∧ y ∈ l).
Proof.
  revert n. induction l as [|d l IH]; intros n Hwf Hid Hl Hno.
  { exists n. split_and!; try done. intros x y. rewrite elem_of_nil. naive_solver. }
  destruct (Hl d) as [Hd Hne]; [left|].
  assert ((Adm.add_dependency task_id d (tasks n)).1 = Ok tt) as Hok.
  { rewrite add_dependency_spec. destruct Hid as [i Hi], Hd as [j Hj]. rewrite Hi, Hj.
    destruct (dg_has_path_connecting _ _ _) eqn:Hpath; [|done]. exfalso.
    apply dg_has_path_spec in Hpath; [|by eauto using wf_node_valid..].
    apply (path_depends _ d task_id) in Hpath; [|done..].
    apply rtc_inv_r in Hpath as [->|(z & _ & Hz)]; [done|]. by eapply Hno. }
  set (n1 := set_tasks (Adm.add_dependency task_id d (tasks n)).2 n).
  assert (resolve_one task_id d n = (Ok tt, n1)) as Hone.
  { unfold resolve_one, add_dependency. rewrite (proj2 (contains_key_true d (tasks n)) Hd).
    by rewrite on_graph_spec, Hok. }
  assert (node_indices (tasks n1) = node_indices (tasks n)) as Hni
    by apply node_indices_add_dependency.
  assert (∀ x y, depends (tasks n1) x y ↔ depends (tasks n) x y ∨ (x = task_id ∧ y = d)) as Hdep.
  { intros x y. simpl. rewrite depends_add_dependency, Hok by done. naive_solver. }
  destruct (IH n1) as (n' & Hrun & Hwf' & Hp' & Hni' & Hdep').
  - by apply add_dependency_wf.
  - unfold present. by rewrite Hni.
  - intros d' Hd'. unfold present. rewrite Hni. apply Hl. by right.
  - intros x. rewrite Hdep. intros [Hx|[_ ->]]; [by eapply Hno|done].
  - exists n'. split_and!; [|done|done|congruence|].
    + apply for_each_Ok_cons. eauto.
    + intros x y. rewrite Hdep', Hdep, elem_of_cons. naive_solver.
Qed.

Lemma resolve_pending_dependents_spec task_id n :
  resolve_pending_dependents (E := E) task_id n =
    for_each (resolve_one task_id)
      (hs_iter (default ∅ (pending_dependents n !! task_id)))
      (set_pending (delete task_id (pending_dependents n)) n).
Proof.
  unfold resolve_pending_dependents.
  destruct (pending_dependents n !! task_id) as [ds|] eqn:Hd; [done|]. simpl.
  assert (hs_iter (∅ : gset K) = []) as ->.
  { apply Permutation_nil. symmetry. by rewrite hs_iter_perm, elements_empty. }
  rewrite delete_id by done. by destruct n.
Qed.

(** What follows the insertion of a new node. *)
Lemma add_node_resolve task_id task n D :
  represents n D → ¬ present n task_id →
  ∃ n', st_bind (on_graph (E := E) (add_node task_id task))
          (λ _, resolve_pending_dependents task_id) n = (Ok tt, n') ∧
    represents n' D ∧ (∀ k, present n' k ↔ k = task_id ∨ present n k).
Proof.
  intros [Hwf He Hp Ht] Hnp.
  assert (contains_key task_id (tasks n) = false) as Hck.
  { apply contains_key_false. by apply eq_None_not_Some. }
  set (n1 := set_tasks (add_node task_id task (tasks n)).2 n).
  assert (∀ k, present n1 k ↔ k = task_id ∨ present n k) as Hpres.
  { intros k. unfold present. simpl. rewrite add_node_spec, Hck. simpl. rewrite lookup_insert.
    case_decide; naive_solver. }
  set (n2 := set_pending (delete task_id (pending_dependents n1)) n1).
  assert (∀ x y, depends (tasks n2) x y ↔ depends (tasks n) x y) as Hdep.
  { intros x y. simpl. by rewrite depends_add_node. }
  destruct (resolve_loop task_id (hs_iter (default ∅ (pending_dependents n !! task_id))) n2)
    as (n' & Hrun & Hwf' & Hp' & Hni' & Hdep').
  - simpl. by apply add_node_wf.
  - apply (Hpres task_id). by left.
  - intros d. rewrite elem_of_hs_iter. intros Hd. apply Hp in Hd as [Hd _].
    apply Ht in Hd. split; [apply (Hpres d); by right|]. by intros ->.
  - intros x. rewrite Hdep, He. intros [Hx _]. apply Ht in Hx. done.
  - exists n'. unfold st_bind. rewrite on_graph_spec. rewrite add_node_spec, Hck. simpl.
    rewrite resolve_pending_dependents_spec. simpl.
    assert (∀ k, present n' k ↔ k = task_id ∨ present n k) as Hpres'.
    { intros k. rewrite <- Hpres. unfold present. by rewrite Hni'. }
    split_and!; [|split|done].
    + rewrite <- Hrun. unfold n2, n1. simpl. by rewrite add_node_spec, Hck.
    + done.
    + intros x y. rewrite Hdep', Hdep, He, Hpres', elem_of_hs_iter.
      specialize (Hp task_id y). unfold pending in Hp. rewrite Hp. naive_solver.
    + intros x y. rewrite Hpres'. unfold pending. rewrite Hp'. simpl.
      rewrite lookup_delete. case_decide; subst; simpl; [set_solver|].
      specialize (Hp x y). unfold pending in Hp. rewrite Hp. naive_solver.
    + intros x y Hxy. apply Hpres'. right. by apply Ht in Hxy.
Qed.
End refinement.

(** ** Well-formedness on every path, and what a failing call leaves *)
Section robustness.
Context {K T E : Type} `{Countable K} `{!DiGraphOps T, !DiGraphSpec T} {HO : HashOrder}.
#[local] Abbreviation tn := (TaskNetwork K T).
Implicit Types n : tn.

(** The tasks and their data are those of [n], in a well-formed graph. *)
Definition same_tasks n n' : Prop :=
  wf (tasks n') ∧ ∀ k, Adm.get k (tasks n') = Adm.get k (tasks n).

Lemma add_dependency_same f t n n0 :
  same_tasks n0 n → same_tasks n0 (add_dependency (E := E) f t n).2.
Proof.
  intros [Hwf Hg]. unfold add_dependency. rewrite on_graph_spec. split; simpl.
  - by apply add_dependency_wf.
  - intros k. by rewrite get_add_dependency.
Qed.

Lemma add_dependencies_same t deps n n0 :
  same_tasks n0 n → same_tasks n0 (add_dependencies (E := E) t deps n).2.
Proof.
  intros Hn. unfold add_dependencies. apply (for_each_inv (same_tasks n0)); [|done]. intros f n1 _ H1. unfold add_dependency_or_defer.
  destruct (contains_key f (tasks n1)); [by apply add_dependency_same|done].
Qed.

Lemma resolve_same t n n0 :
  same_tasks n0 n → same_tasks n0 (resolve_pending_dependents (E := E) t n).2.
Proof.
  intros Hn. rewrite resolve_pending_dependents_spec. apply (for_each_inv (same_tasks n0)); [|done].
  intros d n1 _ H1. unfold resolve_one.
  destruct (contains_key d (tasks n1)); [by apply add_dependency_same|done].
Qed.

Lemma add_task_get task_id task deps n k :
  wf (tasks n) → contains_key task_id (tasks n) = false →
  wf (tasks (add_task_with_dependencies (E := E) task_id task deps n).2) ∧
  Adm.get k (tasks (add_task_with_dependencies (E := E) task_id task deps n).2) =
    if decide (k = task_id) then Some task else Adm.get k (tasks n).
Proof.
  intros Hwf Hck. set (n1 := set_tasks (add_node task_id task (tasks n)).2 n).
  assert (same_tasks n1 (add_task_with_dependencies (E := E) task_id task deps n).2) as [H1 H2].
  { assert (same_tasks n1 n1) as H1 by by split; [apply add_node_wf|].
    unfold add_task_with_dependencies, st_bind. rewrite on_graph_spec. fold n1.
    rewrite add_node_spec, Hck. simpl.
    apply (resolve_same task_id) in H1.
    destruct (resolve_pending_dependents task_id n1) as [[] n2]; simpl in *; [|done..].
    by apply (add_dependencies_same task_id deps) in H1. }
  split; [done|]. rewrite H2. simpl. by apply get_add_node.
Qed.

Lemma get_mut_get task_id f n n' k :
  wf (tasks n) → get_mut task_id f n = Some n' →
  wf (tasks n') ∧
  Adm.get k (tasks n') =
    if decide (k = task_id) then f <$> Adm.get task_id (tasks n) else Adm.get k (tasks n).
Proof.
  intros Hwf Hg. unfold get_mut in Hg. apply fmap_Some in Hg as (a & Ha & ->). simpl.
  split; [by eapply get_mut_wf|]. by apply (get_mut_spec _ _ _ _ Hwf Ha).
Qed.

Lemma get_mut_None task_id f n :
  wf (tasks n) → get_mut task_id f n = None ↔ contains_key task_id (tasks n) = false.
Proof.
  intros Hwf. rewrite contains_key_false. unfold get_mut, Adm.get_mut.
  destruct (node_indices (tasks n) !! task_id) as [i|] eqn:Hi; simpl; [|naive_solver].
  apply (wf_node_valid _ _ _ Hwf), dg_weight_is_Some in Hi as [v ->]. naive_solver.
Qed.
End robustness.

(** ** Properties *)
Section properties.
Context {K T E : Type} `{Countable K} `{!DiGraphOps T, !DiGraphSpec T} {HO : HashOrder}.
#[local] Abbreviation tn := (TaskNetwork K T).
Implicit Types n : tn.

(** C4: in every interleaving of [process_tasks], and at every moment of it, a
    task's handler has been called only after the handler of each task it
    depends on returned [Ok]; no handler is called twice; and no more handlers
    run at once than the semaphore has permits. *)
Theorem process_tasks_safe n levels (c : pconf (K := K) (T := T) (E := E)) :
  wf (tasks n) →
  topo_sort_by_level (tasks n) = Some (Ok levels) →
  rtc (pstep (semaphore n)) (initial levels) c →
  log_safe (tasks n) (log_of c) ∧ NoDup (started (log_of c)) ∧
  match c with PLevel lc => length (running lc) ≤ semaphore n | PDone _ _ => True end.
Proof.
  intros Hwf Ht Hr. pose proof (running_bounded _ _ _ Hr).
  destruct (topo_sort_by_level_order _ Hwf) as (levels' & Ht' & Hlo). simplify_eq.
  pose proof (reachable_inv _ _ _ _ Hwf Hlo Hr) as Hinv.
  destruct c as [c|r l]; simpl in *; [|naive_solver].
  destruct Hinv as [i Hi]. split_and!; [apply Hi|by eapply level_inv_nodup|done].
Qed.

(** When [process_tasks] returns [Ok] every task's handler was called and
    returned [Ok], and the network is empty afterwards; when it returns an
    error the network still holds its tasks and pending dependencies. *)
Theorem process_tasks_result n r l n' :
  wf (tasks n) → process_tasks (E := E) n r l n' →
  match r with
  | Ok _ => (∀ k, is_Some (Adm.get k (tasks n)) → Finished k (Ok tt) ∈ l) ∧ is_empty n' = true
  | _ => n' = n
  end.
Proof.
  intros Hwf Hp.
  destruct Hp as [Hem|levels l Hem Ht Hr|levels e l Hem Ht Hr]; [|..|done].
  - split; [|done]. intros k [v Hv]%(get_is_Some _ _ Hwf). exfalso.
    apply (wf_node_valid _ _ _ Hwf) in Hv. unfold is_empty, Adm.is_empty in Hem.
    apply Nat.eqb_eq in Hem. rewrite dg_nodes_compact, Hem in Hv. by apply not_elem_of_nil in Hv.
  - destruct (topo_sort_by_level_order _ Hwf) as (levels' & Ht' & Hlo). simplify_eq.
    destruct (reachable_inv _ _ _ _ Hwf Hlo Hr) as (_ & _ & Hall). split.
    + intros k [v Hv]. apply Hall; [done|]. apply list_elem_of_fmap. exists (k, v).
      split; [done|]. by apply (lo_entries _ _ Hlo).
    + unfold is_empty, Adm.is_empty, Adm.clear. simpl. apply Nat.eqb_eq.
      pose proof (dg_nodes_compact dg_new) as Hc. rewrite dg_new_nodes in Hc.
      by destruct (dg_node_count dg_new).
Qed.

(** Processing terminates in every interleaving, after a number of steps
    bounded by the size of the levels, and with at least one permit no
    configuration is stuck: it can always be run to a result. *)
Theorem process_tasks_terminates n levels (c : pconf (K := K) (T := T) (E := E)) steps :
  0 < semaphore n →
  nsteps (pstep (semaphore n)) steps (initial levels) c →
  steps ≤ 1 + todo_size levels ∧ ∃ r l, rtc (pstep (semaphore n)) c (PDone r l).
Proof.
  intros Hp Hs. split; [|by apply run_to_done]. apply nsteps_measure in Hs.
  change (measure (initial (E := E) levels)) with (S (0 + 0 + todo_size levels)) in Hs. lia.
Qed.

(** Calling the handlers one by one, level by level, is one of the
    interleavings of [process_tasks], with the same result and the same calls. *)
Theorem sequential_schedule n (handler : K → T → outcome E unit) :
  wf (tasks n) → 0 < semaphore n → is_empty n = false →
  ∃ levels, topo_sort_by_level (tasks n) = Some (Ok levels) ∧
    rtc (pstep (semaphore n)) (initial levels)
      (PDone (run_levels handler levels []).1 (run_levels handler levels []).2).
Proof.
  intros Hwf Hp _. destruct (topo_sort_by_level_order _ Hwf) as (levels & Ht & Hlo).
  exists levels. split; [done|]. destruct (run_levels handler levels []) as [r l] eqn:Hrun.
  apply (run_levels_steps handler); try done.
  - intros j lv. apply keys_level_nodup, Hlo.
  - by intros [k ?%not_elem_of_nil].
Qed.

(** A call of a method that declares dependencies. *)
Inductive op : Type :=
| OpAddTask (task_id : K) (task : T) (dependencies : list K)
| OpAddDependencies (task_id : K) (dependencies : list K).

Definition op_target (o : op) : K := match o with OpAddTask k _ _ | OpAddDependencies k _ => k end.
Definition op_deps (o : op) : list K := match o with OpAddTask _ _ ds | OpAddDependencies _ ds => ds end.

(** Calls that all returned [Ok]; dependencies are only added to tasks that
    exist, as the task manager does. *)
Inductive runs_ok : tn → list op → tn → Prop :=
| runs_nil n : runs_ok n [] n
| runs_add_task n k t ds n1 ops n2 :
    add_task_with_dependencies (E := E) k t ds n = (Ok tt, n1) → runs_ok n1 ops n2 →
    runs_ok n (OpAddTask k t ds :: ops) n2
| runs_add_dependencies n k ds n1 ops n2 :
    contains_key k (tasks n) = true →
    add_dependencies (E := E) k ds n = (Ok tt, n1) → runs_ok n1 ops n2 →
    runs_ok n (OpAddDependencies k ds :: ops) n2.

Definition declared (ops : list op) (f t : K) : Prop :=
  ∃ o, o ∈ ops ∧ op_target o = t ∧ f ∈ op_deps o.

Lemma runs_represents n ops n' D :
  represents n D → runs_ok n ops n' →
  ∃ D', represents n' D' ∧ ∀ f t, (f, t) ∈ D' ↔ (f, t) ∈ D ∨ declared ops f t.
Proof.
  intros Hrep Hrun. revert D Hrep. unfold declared.
  induction Hrun as [n|n k t ds n1 ops n2 H1 _ IH|n k ds n1 ops n2 Hk H1 _ IH]; intros D Hrep.
  - exists D. split; [done|]. intros f t. split; [by left|].
    by intros [?|(o & Ho%not_elem_of_nil & _)].
  - assert (∃ m, st_bind (on_graph (E := E) (add_node k t))
      (λ _, resolve_pending_dependents k) n = (Ok tt, m) ∧ add_dependencies (E := E) k ds m = (Ok tt, n1))
      as (m & Hm & Hds).
    { unfold add_task_with_dependencies, st_bind in *. rewrite on_graph_spec in *.
      destruct (add_node k t (tasks n)) as [[x| |] a]; simpl in *; try done.
      destruct (resolve_pending_dependents k _) as [[[]| |] m]; try done. eauto. }
    assert (¬ present n k) as Hnp.
    { intros Hpk. unfold st_bind in Hm. rewrite on_graph_spec, add_node_spec in Hm.
      by rewrite (proj2 (contains_key_true k (tasks n)) Hpk) in Hm. }
    destruct (add_node_resolve (E := E) k t n D Hrep Hnp) as (m' & Hm' & Hrepm & Hpm).
    rewrite Hm in Hm'. injection Hm' as <-.
    destruct (add_dependencies_represents (E := E) k ds m n1 D Hrepm) as [Hrep1 _];
      [apply Hpm; by left|done|].
    destruct (IH _ Hrep1) as (D' & HD' & Hin). exists D'. split; [done|].
    intros f t'. rewrite Hin. setoid_rewrite elem_of_cons. set_unfold. naive_solver.
  - apply contains_key_true in Hk.
    destruct (add_dependencies_represents (E := E) k ds n n1 D Hrep) as [Hrep1 _]; [done..|].
    destruct (IH _ Hrep1) as (D' & HD' & Hin). exists D'. split; [done|].
    intros f t'. rewrite Hin. setoid_rewrite elem_of_cons. set_unfold. naive_solver.
Qed.

Lemma new_represents m : represents (new m : tn) ∅.
Proof.
  assert (∀ k, ¬ present (new m : tn) k) as Hnp.
  { intros k. unfold present. simpl. rewrite lookup_empty. apply is_Some_None. }
  split; simpl.
  - apply new_wf.
  - intros f t. split; [|set_solver]. intros (i & j & Hi & _). simpl in Hi.
    by rewrite lookup_empty in Hi.
  - intros f t. unfold pending. simpl. rewrite lookup_empty. set_solver.
  - set_solver.
Qed.

(** No declared dependency is lost and none is invented. After any sequence
    of successful calls, whatever the order in which tasks and dependencies
    arrived, the graph has an edge exactly for each declared dependency whose
    prerequisite is present, and [pending_dependents] holds exactly the
    declared dependencies whose prerequisite is absent. *)
Theorem deferred_dependencies m ops n :
  runs_ok (new m) ops n →
  ∀ f t, (depends (tasks n) f t ↔ declared ops f t ∧ present n f) ∧
         (pending n f t ↔ declared ops f t ∧ ¬ present n f).
Proof.
  intros Hrun. destruct (runs_represents _ _ _ _ (new_represents m) Hrun) as (D & [Hwf He Hp _] & HD).
  intros f t. rewrite He, Hp, HD. set_solver.
Qed.

Lemma add_dependencies_outcome task_id deps n D :
  represents n D → present n task_id →
  (add_dependencies (E := E) task_id deps n).1 = Ok tt ∨
  (add_dependencies (E := E) task_id deps n).1 = Err (GraphError CycleDetected).
Proof.
  unfold add_dependencies. revert D n. induction deps as [|f deps IH]; intros D n Hrep Hid; [by left|].
  simpl. unfold st_bind. destruct (add_dependency_or_defer f task_id n) as [o n2] eqn:Ho.
  assert (o = Ok tt ∨ o = Err (GraphError CycleDetected)) as [->| ->]; [| |by right].
  { unfold add_dependency_or_defer, add_dependency in Ho. destruct (contains_key f _) eqn:Hf.
    - rewrite on_graph_spec, add_dependency_spec in Ho. apply contains_key_true in Hf as [i Hi].
      pose proof Hid as [j Hj]. rewrite Hi, Hj in Ho.
      destruct (dg_has_path_connecting _ _ _); naive_solver.
    - naive_solver. }
  destruct (add_dependency_or_defer_represents (E := E) f task_id n n2 D) as [Hrep2 Hp2]; [done..|].
  eapply IH; [done|]. by apply Hp2.
Qed.

(** Adding a task that is not in the network always puts it there, even
    when the call fails, and the call can only fail because one of its own
    dependencies closes a cycle: activating the dependents that were waiting
    for it never does. *)
Theorem add_task_outcome task_id task deps n D :
  represents n D → ¬ present n task_id →
  Adm.get task_id (tasks (add_task_with_dependencies (E := E) task_id task deps n).2) = Some task ∧
  ((add_task_with_dependencies (E := E) task_id task deps n).1 = Ok tt ∨
   (add_task_with_dependencies (E := E) task_id task deps n).1 = Err (GraphError CycleDetected)).
Proof.
  intros Hrep Hnp.
  assert (contains_key task_id (tasks n) = false) as Hck by by apply contains_key_false, eq_None_not_Some.
  split.
  { destruct (add_task_get (E := E) task_id task deps n task_id (rep_wf _ _ Hrep) Hck) as [_ ->].
    by rewrite decide_True. }
  destruct (add_node_resolve (E := E) task_id task n D Hrep Hnp) as (n1 & H1 & Hrep1 & Hpres).
  assert (add_task_with_dependencies (E := E) task_id task deps n =
    add_dependencies task_id deps n1) as ->.
  { unfold add_task_with_dependencies, st_bind in *. rewrite on_graph_spec in *.
    destruct (add_node task_id task (tasks n)) as [[x| |] a]; simpl in *; try done.
    by destruct (resolve_pending_dependents task_id _) as [[[]| |] m]; simplify_eq. }
  apply (add_dependencies_outcome _ _ _ D); [done|]. apply Hpres. by left.
Qed.
End properties.

(** ** Witnesses *)
Section witnesses.
#[local] Existing Instance canonical_order.

(** Task 1 is added first and waits for 99, which arrives later. *)
Definition late_ops : list (op (K := nat) (T := nat)) :=
  [OpAddTask 1 10 [99]; OpAddTask 99 990 []; OpAddDependencies 1 [99]].

Definition late : TaskNetwork nat nat :=
  (add_dependencies (E := unit) 1 [99]
    (add_task_with_dependencies (E := unit) 99 990 []
      (add_task_with_dependencies (E := unit) 1 10 [99] (new 2)).2).2).2.

Lemma late_wf : wf (tasks late).
Proof.
  assert (wf (tasks (new 2 : TaskNetwork nat nat))) as H0 by apply new_wf.
  set (n1 := (add_task_with_dependencies (E := unit) 1 10 [99] (new 2)).2 : TaskNetwork nat nat).
  assert (wf (tasks n1)) as H1 by (apply (add_task_get (E := unit) 1 10 [99] _ 1 H0); vm_compute; reflexivity).
  set (n2 := (add_task_with_dependencies (E := unit) 99 990 [] n1).2).
  assert (wf (tasks n2)) as H2 by (apply (add_task_get (E := unit) 99 990 [] _ 1 H1); vm_compute; reflexivity).
  assert (same_tasks n2 n2) as Hs by done.
  apply (add_dependencies_same (E := unit) 1 [99]) in Hs. apply Hs.
Qed.

Lemma late_levels : topo_sort_by_level (tasks late) = Some (Ok [[(99, 990)]; [(1, 10)]]).
Proof. vm_compute. reflexivity. Qed.

Definition all_ok (k t : nat) : outcome unit unit := Ok tt.

Lemma late_run :
  rtc (pstep (semaphore late)) (initial [[(99, 990)]; [(1, 10)]])
    (PDone (E := unit) (Ok tt)
      [Started 99; Finished 99 (Ok tt); Started 1; Finished 1 (Ok tt)]).
Proof.
  apply (run_levels_steps all_ok); [vm_compute; lia| |by intros [k ?%not_elem_of_nil]|done|reflexivity].
  intros j lv Hj. destruct j as [|[|j]]; simplify_eq/=; apply NoDup_singleton.
Qed.

Lemma process_tasks_safe_witness :
  log_safe (tasks late)
    [Started 99; Finished 99 (Ok (E := unit) tt); Started 1; Finished 1 (Ok tt)].
Proof. apply (process_tasks_safe late _ _ late_wf late_levels late_run). Defined.

Lemma process_tasks_result_witness :
  let log := [Started 99; Finished 99 (Ok (E := unit) tt); Started 1; Finished 1 (Ok tt)] in
  process_tasks (E := unit) late (Ok tt) log (clear late) ∧ Finished 1 (Ok tt) ∈ log.
Proof.
  intros log.
  assert (process_tasks (E := unit) late (Ok tt) log (clear late)) as Hp.
  { eapply process_ok; [vm_compute; reflexivity|exact late_levels|exact late_run]. }
  split; [exact Hp|]. apply (proj1 (process_tasks_result late _ _ _ late_wf Hp)). vm_compute. by eexists.
Defined.

Lemma process_tasks_terminates_witness :
  0 ≤ 1 + todo_size [[(99, 990)]; [(1, 10)]] ∧
  ∃ r l, rtc (pstep (semaphore late)) (initial [[(99, 990)]; [(1, 10)]]) (PDone (E := unit) r l).
Proof.
  apply (process_tasks_terminates late [[(99, 990)]; [(1, 10)]] (initial [[(99, 990)]; [(1, 10)]]) 0);
    [vm_compute; lia|constructor].
Defined.

Lemma sequential_schedule_witness :
  ∃ levels, topo_sort_by_level (tasks late) = Some (Ok levels) ∧
    rtc (pstep (semaphore late)) (initial levels)
      (PDone (run_levels all_ok levels []).1 (run_levels all_ok levels []).2).
Proof. apply (sequential_schedule late all_ok late_wf); [vm_compute; lia|vm_compute; reflexivity]. Defined.

Lemma late_runs : runs_ok (E := unit) (new 2) late_ops late.
Proof.
  eapply runs_add_task; [apply outcome_of; vm_compute; reflexivity|].
  eapply runs_add_task; [apply outcome_of; vm_compute; reflexivity|].
  eapply runs_add_dependencies; [vm_compute; reflexivity|apply outcome_of; vm_compute; reflexivity|].
  apply runs_nil.
Qed.

Lemma deferred_dependencies_witness :
  runs_ok (E := unit) (new 2) late_ops late ∧ depends (tasks late) 99 1 ∧ ¬ pending late 99 1.
Proof.
  pose proof late_runs as Hrun.
  destruct (deferred_dependencies 2 late_ops late Hrun 99 1) as [Hd Hp].
  assert (declared late_ops 99 1) as Hdecl.
  { eexists. split; [left|]. split; [reflexivity|left]. }
  assert (present late 99) as Hpr by (vm_compute; eexists; reflexivity).
  split; [exact Hrun|]. split; [by apply Hd|]. rewrite Hp. by intros [_ ?].
Defined.

Lemma add_task_outcome_witness :
  Adm.get 1 (tasks (add_task_with_dependencies (E := unit) 1 10 [1] (new 2 : TaskNetwork nat nat)).2) = Some 10.
Proof.
  apply (add_task_outcome (E := unit) 1 10 [1] (new 2) ∅ (new_represents 2)).
  vm_compute. by intros [? ?].
Defined.
End witnesses.

End Tn.
