(* ===== verification/Math.v ===== *)
(** * Signed 256-bit arithmetic ([crates/math/src/lib.rs])

    [I256] is a sign and a 256-bit magnitude; the ERC balance and supply
    differences are kept in it. The magnitude is [starknet::core::types::U256],
    which the repository does not define: [U256Ops] has its two arithmetic
    operators, specified only where the exact result fits in 256 bits. [None]
    is a panic, so an implementation that checks for overflow and one that
    wraps around are both instances. *)

From S2P Require Import Prelude.
Local Open Scope Z_scope.

Definition U256_MAX : Z := 2 ^ 256 - 1.
Definition u256_ok (v : Z) : Prop := 0 ≤ v ≤ U256_MAX.

Class U256Ops : Type := {
  u256_add : Z → Z → option Z;
  u256_sub : Z → Z → option Z;
  u256_add_exact a b : u256_ok a → u256_ok b → a + b ≤ U256_MAX → u256_add a b = Some (a + b);
  u256_sub_exact a b : u256_ok a → u256_ok b → b ≤ a → u256_sub a b = Some (a - b)
}.

(** The two usual implementations. *)
Definition u256_checked : U256Ops.
Proof.
  refine {| u256_add a b := if decide (a + b ≤ U256_MAX) then Some (a + b) else None;
            u256_sub a b := if decide (b ≤ a) then Some (a - b) else None |};
    intros; by rewrite decide_True.
Defined.

Definition u256_wrapping : U256Ops.
Proof.
  refine {| u256_add a b := Some ((a + b) mod 2 ^ 256); u256_sub a b := Some ((a - b) mod 2 ^ 256) |};
    unfold u256_ok, U256_MAX; intros; f_equal; apply Z.mod_small; lia.
Defined.

Module Math.

Record I256 : Type := mkI256 { value : Z; is_negative : bool }.

#[global] Instance I256_eq_dec : EqDecision I256.
Proof. solve_decision. Defined.

Section operations.
Context {U : U256Ops}.

Definition I256_default : I256 := mkI256 0 false.

(** [impl From<U256> for I256] and [From<u8>] *)
Definition from_u256 (v : Z) : I256 := mkI256 v false.
Definition from_u8 (v : Z) : I256 := mkI256 v false.

Definition add (self other : I256) : option I256 :=
  if (value self =? 0) && (value other =? 0) && is_negative self && is_negative other
  then Some (mkI256 0 false)
  else if Bool.eqb (is_negative self) (is_negative other) then
    v ← u256_add (value self) (value other); Some (mkI256 v (is_negative self))
  else
    match value self ?= value other with
    | Gt => v ← u256_sub (value self) (value other); Some (mkI256 v (is_negative self))
    | Lt => v ← u256_sub (value other) (value self); Some (mkI256 v (is_negative other))
    | Eq => Some (mkI256 0 false)
    end.

Definition sub (self other : I256) : option I256 :=
  let new_sign := if value other =? 0 then false else negb (is_negative other) in
  add self (mkI256 (value other) new_sign).

(** [*self = *self + other], [*self = *self - other] *)
Definition add_assign (self other : I256) : option I256 := add self other.
Definition sub_assign (self other : I256) : option I256 := sub self other.
End operations.

(** The integer a value stands for, and the values the code should produce. *)
Definition to_Z (x : I256) : Z := if is_negative x then - value x else value x.
Definition in_range (x : I256) : Prop := u256_ok (value x).
Definition canonical (x : I256) : Prop := is_negative x = true → value x ≠ 0.
(** The integers an [I256] can hold. *)
Definition fits (z : Z) : Prop := - U256_MAX ≤ z ≤ U256_MAX.

Section lemmas.
Context {U : U256Ops}.

Lemma add_spec (a b : I256) :
  in_range a → in_range b → fits (to_Z a + to_Z b) →
  ∃ r, add a b = Some r ∧ to_Z r = to_Z a + to_Z b ∧ in_range r ∧ canonical r.
Proof.
  destruct a as [va sa], b as [vb sb]. unfold add, to_Z, in_range, canonical, fits. simpl.
  intros Ha Hb Hfit. unfold u256_ok in *.
  destruct sa, sb; simpl in *; rewrite ?andb_false_r, ?andb_true_r; simpl.
  - destruct (Z.eqb_spec va 0), (Z.eqb_spec vb 0); simpl;
      [eexists; split; [done|]; simpl; unfold U256_MAX; repeat split; lia|..];
      rewrite u256_add_exact by (unfold u256_ok; lia); simpl;
      eexists; (split; [done|]); simpl; repeat split; lia.
  - destruct (Z.compare_spec va vb);
      rewrite ?u256_sub_exact by (unfold u256_ok; lia); simpl;
      eexists; (split; [done|]); simpl; repeat split; lia || done.
  - destruct (Z.compare_spec va vb);
      rewrite ?u256_sub_exact by (unfold u256_ok; lia); simpl;
      eexists; (split; [done|]); simpl; repeat split; lia || done.
  - rewrite u256_add_exact by (unfold u256_ok; lia). simpl.
    eexists; (split; [done|]); simpl; repeat split; lia || done.
Qed.

Lemma sub_spec (a b : I256) :
  in_range a → in_range b → fits (to_Z a - to_Z b) →
  ∃ r, sub a b = Some r ∧ to_Z r = to_Z a - to_Z b ∧ in_range r ∧ canonical r.
Proof.
  intros Ha Hb Hfit. unfold sub. set (nb := mkI256 _ _).
  assert (to_Z nb = - to_Z b) as Hnb.
  { unfold nb, to_Z. destruct b as [vb sb]. simpl. destruct (Z.eqb_spec vb 0), sb; simpl; lia. }
  destruct (add_spec a nb) as (r & Hr & Hz & Hrest); [done..| |].
  - rewrite Hnb. by rewrite Z.add_opp_r.
  - exists r. rewrite Hz, Hnb. split_and!; [done|lia|apply Hrest..].
Qed.
End lemmas.

(** ** Properties *)
Section properties.
Context {U : U256Ops}.

(** C35: [+] and [-] on [I256] are exact integer addition and subtraction
    whenever the result's magnitude fits in 256 bits, negative zero among the
    operands included; they do not panic then, and the result is never a
    negative zero. *)
Theorem I256_arith_exact (a b : I256) :
  in_range a → in_range b →
  (fits (to_Z a + to_Z b) →
    ∃ r, add a b = Some r ∧ to_Z r = to_Z a + to_Z b ∧ in_range r ∧ canonical r) ∧
  (fits (to_Z a - to_Z b) →
    ∃ r, sub a b = Some r ∧ to_Z r = to_Z a - to_Z b ∧ in_range r ∧ canonical r).
Proof. intros Ha Hb. split; [by apply add_spec|by apply sub_spec]. Qed.
End properties.

Lemma I256_arith_exact_witness :
  (∃ r, add (U := u256_checked) (mkI256 0 true) (mkI256 15 true) = Some r ∧ to_Z r = -15) ∧
  (∃ r, sub (U := u256_checked) (mkI256 0 true) (mkI256 15 true) = Some r ∧ to_Z r = 15).
Proof.
  destruct (I256_arith_exact (U := u256_checked) (mkI256 0 true) (mkI256 15 true)) as [Ha Hs];
    [unfold in_range, u256_ok, U256_MAX; simpl; lia..|].
  split.
  - destruct Ha as (r & Hr & Hz & _); [unfold fits, U256_MAX, to_Z; simpl; lia|].
    exists r. split; [exact Hr|]. rewrite Hz. reflexivity.
  - destruct Hs as (r & Hr & Hz & _); [unfold fits, U256_MAX, to_Z; simpl; lia|].
    exists r. split; [exact Hr|]. rewrite Hz. reflexivity.
Defined.

End Math.
