(* ===== verification/Proto.v ===== *)
(** * The shared data types ([crates/proto/src/lib.rs])

    The records and enums of the protocol crate that the indexer, the caches
    and the storage exchange, with their decidable equality and the countability
    the maps keyed by them need. A [Felt] is an integer below the Stark prime, a
    [U256] an integer below [2^256]; both are kept as [Z]. The types [Ty] and
    [Layout] of the dojo crates stay abstract. *)

From S2P Require Import Prelude.
Local Open Scope Z_scope.

#[global] Abbreviation Felt := Z.
#[global] Abbreviation U256 := Z.

(** [Felt::ZERO] *)
Definition FELT_ZERO : Felt := 0.

Inductive TokenId : Type :=
| TokenContract (addr : Felt)
| Nft (addr : Felt) (token_id : U256).

#[global] Instance TokenId_eq_dec : EqDecision TokenId.
Proof. solve_decision. Defined.
#[global] Instance TokenId_countable : Countable TokenId.
Proof.
  refine (inj_countable'
    (λ t, match t with TokenContract a => (a, None) | Nft a i => (a, Some i) end)
    (λ p, match p with (a, None) => TokenContract a | (a, Some i) => Nft a i end) _).
  by intros [].
Defined.

Definition is_nft (t : TokenId) : bool := match t with Nft _ _ => true | _ => false end.
Definition token_contract_address (t : TokenId) : Felt :=
  match t with TokenContract addr => addr | Nft addr _ => addr end.
Definition token_token_id (t : TokenId) : option U256 :=
  match t with TokenContract _ => None | Nft _ i => Some i end.

Record BalanceId : Type := mkBalanceId { account_address : Felt; balance_token_id : TokenId }.

#[global] Instance BalanceId_eq_dec : EqDecision BalanceId.
Proof. solve_decision. Defined.
#[global] Instance BalanceId_countable : Countable BalanceId.
Proof.
  refine (inj_countable' (λ b, (account_address b, balance_token_id b))
    (λ p, mkBalanceId p.1 p.2) _). by intros [].
Defined.

Record ContractCursor : Type := mkCursor {
  cursor_contract_address : Felt;
  head : option Z;
  last_block_timestamp : option Z;
  last_pending_block_tx : option Felt
}.

#[global] Instance ContractCursor_eq_dec : EqDecision ContractCursor.
Proof. solve_decision. Defined.

Inductive ContractType : Type := WORLD | ERC20 | ERC721 | ERC1155 | UDC | OTHER.

#[global] Instance ContractType_eq_dec : EqDecision ContractType.
Proof. solve_decision. Defined.

(** [impl TryFrom<i32> for ContractType] *)
Definition contract_type_of_i32 (value : Z) : option ContractType :=
  match value with
  | 0 => Some WORLD | 1 => Some ERC20 | 2 => Some ERC721
  | 3 => Some ERC1155 | 4 => Some UDC | 5 => Some OTHER
  | _ => None
  end.

(** The position of the variant, the cast [contract_type as i32]. *)
Definition contract_type_to_i32 (t : ContractType) : Z :=
  match t with WORLD => 0 | ERC20 => 1 | ERC721 => 2 | ERC1155 => 3 | UDC => 4 | OTHER => 5 end.

Definition lower_char (c : Ascii.ascii) : Ascii.ascii :=
  let n := Ascii.nat_of_ascii c in
  if ((65 <=? n) && (n <=? 90))%nat then Ascii.ascii_of_nat (n + 32) else c.
(** [input.to_lowercase()], for text compared with ASCII text only: the Kelvin
    sign is the one other character whose lower case is an ASCII letter. *)
Fixpoint to_lowercase (s : string) : string :=
  match s with
  | EmptyString => EmptyString
  | String c s' =>
      match s' with
      | String c2 (String c3 s3) =>
          if (Ascii.nat_of_ascii c =? 226)%nat && (Ascii.nat_of_ascii c2 =? 132)%nat
             && (Ascii.nat_of_ascii c3 =? 170)%nat
          then String (Ascii.ascii_of_nat 107) (to_lowercase s3) else String (lower_char c) (to_lowercase s')
      | _ => String (lower_char c) (to_lowercase s')
      end
  end.
(** [s.trim_end_matches("token")], with fuel for the length of [s] *)
Fixpoint trim_end_token (fuel : nat) (s : string) : string :=
  match fuel with
  | O => s
  | S fuel =>
      let n := String.length s in
      if String.eqb (String.substring (n - 5) 5 s) "token" then trim_end_token fuel (String.substring 0 (n - 5) s)
      else s
  end.

(** [impl FromStr for ContractType] *)
Definition contract_type_from_str (input : string) : option ContractType :=
  let s := to_lowercase input in
  let s := trim_end_token (String.length s) s in
  if String.eqb s "world" then Some WORLD
  else if String.eqb s "erc20" then Some ERC20
  else if String.eqb s "erc721" then Some ERC721
  else if String.eqb s "erc1155" then Some ERC1155
  else if String.eqb s "udc" then Some UDC
  else if String.eqb s "other" then Some OTHER
  else None.

#[global] Instance ContractType_countable : Countable ContractType.
Proof.
  refine (inj_countable contract_type_to_i32 contract_type_of_i32 _). by intros [].
Defined.

(** [starknet::core::types::Event] *)
Record Event : Type := mkEvent { from_address : Felt; keys : list Felt; data : list Felt }.

#[global] Instance Event_eq_dec : EqDecision Event.
Proof. solve_decision. Defined.

(** The carriers of the dojo crates. *)
Class DojoTypes : Type := { Ty : Type; Layout : Type; WorldMetadata : Type }.

Record Model `{DojoTypes} : Type := mkModel {
  model_world_address : Felt;
  namespace : string;
  model_name : string;
  selector : Felt;
  class_hash : Felt;
  model_contract_address : Felt;
  packed_size : Z;
  unpacked_size : Z;
  layout : Layout;
  schema : Ty;
  use_legacy_store : bool
}.
