(* ===== verification/EventProcessor.v ===== *)
(** * The event processor trait and its configuration ([crates/processors/src/lib.rs])

    [EventProcessor] is the trait the indexer dispatches events through, kept as
    a record of its methods. A method that can panic (most of them index the
    keys of the event) returns an [option], [None] being the panic. [process]
    acts on a store [W], which holds what the processors share: the storage, the
    cache and the provider. *)

From S2P Require Import Prelude Proto.

Record EventProcessorConfig : Type := mkConfig {
  namespaces : gset string;
  strict_model_reader : bool;
  historical_models : gset Felt;
  max_metadata_tasks : nat;
  models : gset string;
  external_contracts : bool;
  external_contract_whitelist : gset string;
  metadata_updates : bool;
  metadata_update_whitelist : gset Felt;
  metadata_update_blacklist : gset Felt;
  metadata_updates_only_at_head : bool;
  async_metadata_updates : bool
}.

Definition default_config : EventProcessorConfig :=
  mkConfig ∅ false ∅ 10 ∅ true ∅ true ∅ ∅ false false.

(** [set.is_empty()] *)
Definition set_is_empty {A} `{Countable A} (s : gset A) : bool := bool_decide (s = ∅).
(** [set.contains(x)] *)
Definition set_contains {A} `{Countable A} (x : A) (s : gset A) : bool := bool_decide (x ∈ s).

Section config.
Context (self : EventProcessorConfig).

Definition should_index (namespace name : string) : bool :=
  (set_is_empty (namespaces self) || set_contains namespace (namespaces self))
  && (set_is_empty (models self)
      || set_contains name (models self)
      || set_contains (namespace +:+ "-" +:+ name) (models self)).

Definition is_historical (selector : Felt) : bool := set_contains selector (historical_models self).

Definition should_index_external_contract (namespace instance_name : string) : bool :=
  (set_is_empty (namespaces self) || set_contains namespace (namespaces self))
  && (external_contracts self
      && (set_is_empty (external_contract_whitelist self)
          || set_contains instance_name (external_contract_whitelist self))).

Definition should_process_metadata_updates (contract_address : Felt) : bool :=
  if negb (metadata_updates self) then false
  else if set_contains contract_address (metadata_update_blacklist self) then false
  else if set_is_empty (metadata_update_whitelist self) then true
  else set_contains contract_address (metadata_update_whitelist self).
End config.

(** [EventKey] and [TaskId] are both [u64]. *)
#[global] Abbreviation EventKey := Z.
#[global] Abbreviation TaskId := Z.

Inductive IndexingMode : Type :=
| Historical
| Latest (key : EventKey).

#[global] Instance IndexingMode_eq_dec : EqDecision IndexingMode.
Proof. solve_decision. Defined.

(** The fields of the context that are not handles on shared state. *)
Record EventProcessorContext : Type := mkCtx {
  ctx_contract_address : Felt;
  ctx_block_number : Z;
  ctx_block_timestamp : Z;
  ctx_event_id : string;
  ctx_event : Event;
  ctx_config : EventProcessorConfig;
  ctx_is_at_head : bool
}.

Record EventProcessor (W E : Type) : Type := mkProcessor {
  event_key : string;
  validate : Event → bool;
  should_process : Event → EventProcessorConfig → bool;
  task_identifier : Event → option TaskId;
  task_dependencies : Event → option (list TaskId);
  indexing_mode : Event → EventProcessorConfig → option IndexingMode;
  process : EventProcessorContext → st W E unit
}.
Arguments mkProcessor {W E}.
Arguments event_key {W E}.
Arguments validate {W E}.
Arguments should_process {W E}.
Arguments task_identifier {W E}.
Arguments task_dependencies {W E}.
Arguments indexing_mode {W E}.
Arguments process {W E}.

(** The default methods of the trait. *)
Definition default_should_process (_ : Event) (_ : EventProcessorConfig) : bool := true.
Definition default_task_dependencies (_ : Event) : option (list TaskId) := Some [].
Definition default_indexing_mode (_ : Event) (_ : EventProcessorConfig) : option IndexingMode :=
  Some Historical.

(** ** Block and transaction processors, and the registry *)
Record BlockProcessor (W E : Type) : Type := mkBlockProcessor {
  get_block_number : string;
  block_process : Z → Z → st W E unit  (** block number, block timestamp *)
}.
Arguments mkBlockProcessor {W E}.
Arguments block_process {W E}.

Record TransactionProcessorContext (Tx : Type) : Type := mkTxCtx {
  tx_block_number : Z;
  tx_block_timestamp : Z;
  tx_hash : Felt;
  tx_content : Tx;
  tx_contract_addresses : gset Felt;
  tx_unique_models : gset Felt
}.
Arguments mkTxCtx {Tx}.
Arguments tx_block_number {Tx}.
Arguments tx_block_timestamp {Tx}.
Arguments tx_hash {Tx}.
Arguments tx_content {Tx}.
Arguments tx_contract_addresses {Tx}.
Arguments tx_unique_models {Tx}.

Definition EventProcessorMap (W E : Type) : Type := gmap Felt (list (EventProcessor W E)).

Record Processors (W E Tx : Type) : Type := mkProcessors {
  proc_block : list (BlockProcessor W E);
  proc_transaction : list (TransactionProcessorContext Tx → st W E unit);
  catch_all_event : EventProcessor W E;
  event_processors : gmap ContractType (EventProcessorMap W E)
}.
Arguments mkProcessors {W E Tx}.
Arguments proc_block {W E Tx}.
Arguments proc_transaction {W E Tx}.
Arguments catch_all_event {W E Tx}.
Arguments event_processors {W E Tx}.

(** [self.event_processors.get(&contract_type).unwrap()] *)
Definition get_event_processors {W E Tx} (self : Processors W E Tx) (contract_type : ContractType)
  : option (EventProcessorMap W E) := event_processors self !! contract_type.
