(* ===== verification/TaskManager.v ===== *)
(** * The task manager ([crates/processors/src/task_manager.rs])

    The engine sorts the events of a batch into tasks; [process_tasks] then runs
    the tasks through the task network. A task keeps its historical events in
    order, and of the others only the last one per event key, in
    [latest_only_events], a [hashlink::LinkedHashMap]: inserting a key that is
    present replaces its value and moves it to the back. That map is not part of
    the repository: [LinkedHashMap] states what its documentation says. *)

From S2P Require Import Prelude PetGraph AcyclicDigraphMap TaskNetwork Proto EventProcessor.
Import Adm Tn.
Local Open Scope torii_scope.

Class LinkedHashMap (K : Type) `{EqDecision K} : Type := {
  lhm : Type → Type;
  lhm_new {V} : lhm V;
  lhm_insert {V} : K → V → lhm V → lhm V;
  lhm_iter {V} : lhm V → list (K * V);
  lhm_iter_new {V} : lhm_iter (V := V) lhm_new = [];
  lhm_iter_insert {V} k (v : V) m :
    lhm_iter (lhm_insert k v m) = filter (λ p, p.1 ≠ k) (lhm_iter m) ++ [(k, v)]
}.
Arguments lhm K {_ _} V.

(** A list of entries is one. *)
Definition list_lhm (K : Type) `{EqDecision K} : LinkedHashMap K.
Proof.
  by refine {| lhm V := list (K * V); lhm_new V := []; lhm_iter V m := m;
    lhm_insert V k v m := filter (λ p, p.1 ≠ k) m ++ [(k, v)] |}.
Defined.

(** What the code feeds to a [DefaultHasher]; its value depends only on that. *)
Inductive hash_item : Type := HFelt (f : Felt) | HU256 (v : U256).
Class Hasher : Type := { hasher_finish : list hash_item → Z }.

Module Tm.

Definition task_id_from_address_and_keys `{Hasher} (from_address : Felt) (keys : list Felt) : TaskId :=
  hasher_finish (HFelt <$> from_address :: keys).
Definition task_id_from_address_and_key `{Hasher} (from_address key : Felt) : TaskId :=
  task_id_from_address_and_keys from_address [key].

Record ParallelizedEvent : Type := mkPE {
  pe_indexing_mode : IndexingMode;
  pe_contract_type : ContractType;
  pe_contract_address : Felt;
  pe_block_number : Z;
  pe_block_timestamp : Z;
  pe_event_id : string;
  pe_event : Event;
  pe_is_at_head : bool
}.

#[global] Instance ParallelizedEvent_eq_dec : EqDecision ParallelizedEvent.
Proof. solve_decision. Defined.

Record TaskData `{!LinkedHashMap EventKey} : Type := mkTD {
  events : list ParallelizedEvent;
  latest_only_events : lhm EventKey ParallelizedEvent
}.
Arguments mkTD {_}.
Arguments events {_}.
Arguments latest_only_events {_}.

Record TaskManager (W E Tx : Type) `{!LinkedHashMap EventKey, !DiGraphOps TaskData} : Type := mkTM {
  task_network : TaskNetwork TaskId TaskData;
  processors : Processors W E Tx;
  event_processor_config : EventProcessorConfig;
  nft_metadata_semaphore : nat
}.
Arguments mkTM {W E Tx _ _}.
Arguments task_network {W E Tx _ _}.
Arguments processors {W E Tx _ _}.
Arguments event_processor_config {W E Tx _ _}.
Arguments nft_metadata_semaphore {W E Tx _ _}.

(** [Error::TaskNetworkError], the only variant the manager itself produces *)
Inductive tm_error (E : Type) : Type :=
| TaskNetworkError' (e : TaskNetworkError TaskId E).
Arguments TaskNetworkError' {E} e.

Section operations.
Context {W E Tx : Type} `{!LinkedHashMap EventKey} `{!DiGraphOps TaskData} {HO : HashOrder}.
#[local] Abbreviation tm := (TaskManager W E Tx).

Definition set_network (n : TaskNetwork TaskId TaskData) (m : tm) : tm :=
  mkTM n (processors m) (event_processor_config m) (nft_metadata_semaphore m).

Definition new (procs : Processors W E Tx) (max_concurrent_tasks : nat)
    (config : EventProcessorConfig) : tm :=
  mkTM (Tn.new max_concurrent_tasks) procs config (max_metadata_tasks config).

Definition pending_tasks_count (m : tm) : nat := Tn.len (task_network m).

(** [TaskData::default()] *)
Definition default_task_data : TaskData := mkTD [] lhm_new.

(** The event joins the data of a task. *)
Definition push_event (pe : ParallelizedEvent) (d : TaskData) : TaskData :=
  match pe_indexing_mode pe with
  | Latest event_key => mkTD (events d) (lhm_insert event_key pe (latest_only_events d))
  | Historical => mkTD (events d ++ [pe]) (latest_only_events d)
  end.

(** The data of a task created for the event. *)
Definition initial_task_data (pe : ParallelizedEvent) : TaskData :=
  match pe_indexing_mode pe with
  | Latest event_key => mkTD [] (lhm_insert event_key pe lhm_new)
  | Historical => mkTD [pe] lhm_new
  end.

(** The errors of the network are logged and dropped. *)
Definition add_parallelized_event_with_dependencies (task_identifier : TaskId)
    (dependencies : list TaskId) (parallelized_event : ParallelizedEvent) (m : tm) : tm :=
  match get_mut task_identifier (push_event parallelized_event) (task_network m) with
  | Some n => set_network (add_dependencies (E := E) task_identifier dependencies n).2 m
  | None =>
      set_network
        (add_task_with_dependencies (E := E) task_identifier
           (initial_task_data parallelized_event) dependencies (task_network m)).2 m
  end.

Definition add_parallelized_event (task_identifier : TaskId)
    (parallelized_event : ParallelizedEvent) (m : tm) : tm :=
  add_parallelized_event_with_dependencies task_identifier [] parallelized_event m.

Definition event_context (config : EventProcessorConfig) (pe : ParallelizedEvent)
  : EventProcessorContext :=
  mkCtx (pe_contract_address pe) (pe_block_number pe) (pe_block_timestamp pe) (pe_event_id pe)
    (pe_event pe) config (pe_is_at_head pe).

(** The body of the loop over the events of a task. *)
Definition handle_event (procs : Processors W E Tx) (config : EventProcessorConfig)
    (pe : ParallelizedEvent) : st W E unit :=
  let! contract_processors := st_lift (unwrap (get_event_processors procs (pe_contract_type pe))) in
  let! key := st_lift (unwrap (keys (pe_event pe) !! 0)) in
  match contract_processors !! key with
  | None => st_ret tt
  | Some procs_for_key =>
      let! processor := st_lift (unwrap (find (λ p, validate p (pe_event pe)) procs_for_key)) in
      if negb (should_process processor (pe_event pe) config) then st_ret tt
      else process processor (event_context config pe)
  end.

(** The events of a task in the order in which its handler goes through them. *)
Definition task_events (d : TaskData) : list ParallelizedEvent :=
  events d ++ (lhm_iter (latest_only_events d)).*2.

(** The handler of a task. *)
Definition run_task (procs : Processors W E Tx) (config : EventProcessorConfig) (d : TaskData)
  : st W E unit := for_each (handle_event procs config) (task_events d).

(** [process_tasks] can return [r] after the handler calls [l]. *)
Definition process_tasks (m : tm) (r : outcome (tm_error E) unit)
    (l : list (Tn.event (K := TaskId) (E := E))) (m' : tm) : Prop :=
  if Tn.is_empty (task_network m) then r = Ok tt ∧ l = [] ∧ m' = m
  else ∃ r0 n', Tn.process_tasks (E := E) (task_network m) r0 l n' ∧
         r = map_err TaskNetworkError' r0 ∧ m' = set_network n' m.

Definition clear_tasks (m : tm) : tm := set_network (Tn.clear (task_network m)) m.
End operations.

(** ** What the tasks hold *)

(** The last entry of each key, in the order of those entries. *)
Fixpoint last_per_key {V} (l : list (EventKey * V)) : list (EventKey * V) :=
  match l with
  | [] => []
  | kv :: l => if decide (kv.1 ∈ l.*1) then last_per_key l else kv :: last_per_key l
  end.

Lemma last_per_key_keys {V} (l : list (EventKey * V)) k : k ∈ (last_per_key l).*1 ↔ k ∈ l.*1.
Proof.
  induction l as [|[k' v] l IH]; [done|]. simpl. case_decide as Hk; simpl.
  - rewrite IH, elem_of_cons. naive_solver.
  - rewrite !elem_of_cons, IH. done.
Qed.

(** Appending an entry drops the earlier one of the same key. *)
Lemma last_per_key_snoc {V} (l : list (EventKey * V)) k v :
  last_per_key (l ++ [(k, v)]) = filter (λ p, p.1 ≠ k) (last_per_key l) ++ [(k, v)].
Proof.
  induction l as [|[k' v'] l IH]; [done|]. simpl. rewrite fmap_app. simpl.
  destruct (decide (k' ∈ l.*1)) as [Hin|Hin].
  - by rewrite decide_True by (apply elem_of_app; by left).
  - destruct (decide (k' = k)) as [->|Hne].
    + rewrite decide_True by (apply elem_of_app; right; by left). rewrite IH, filter_cons. simpl.
      by rewrite decide_False by naive_solver.
    + rewrite decide_False.
      * rewrite filter_cons. simpl. rewrite decide_True by done. simpl. by rewrite IH.
      * rewrite elem_of_app, list_elem_of_singleton. naive_solver.
Qed.

Definition mode_key (pe : ParallelizedEvent) : option EventKey :=
  match pe_indexing_mode pe with Latest k => Some k | Historical => None end.

(** The entries the latest-only events of a list contribute. *)
Definition keyed (es : list ParallelizedEvent) : list (EventKey * ParallelizedEvent) :=
  omap (λ pe, (λ k, (k, pe)) <$> mode_key pe) es.

Lemma keyed_app es1 es2 : keyed (es1 ++ es2) = keyed es1 ++ keyed es2.
Proof. apply omap_app. Qed.

Section data.
Context {W E Tx : Type} `{!LinkedHashMap EventKey} `{!DiGraphOps TaskData, !DiGraphSpec TaskData}.
Context {HO : HashOrder}.
#[local] Abbreviation tm := (TaskManager W E Tx).
Implicit Types (m : tm) (d : TaskData).

(** [d] is what a task should hold after the events [es]. *)
Definition holds (es : list ParallelizedEvent) d : Prop :=
  events d = filter (λ pe, mode_key pe = None) es ∧
  lhm_iter (latest_only_events d) = last_per_key (keyed es).

Lemma push_event_holds pe es d : holds es d → holds (es ++ [pe]) (push_event pe d).
Proof.
  intros [He Hl]. unfold holds, push_event. rewrite keyed_app, filter_app, filter_cons.
  destruct (pe_indexing_mode pe) as [|k] eqn:Hm.
  - assert (mode_key pe = None) as Hk by (unfold mode_key; by rewrite Hm).
    rewrite decide_True by done. unfold keyed at 2. simpl. rewrite Hk, He, Hl. simpl.
    by rewrite app_nil_r.
  - assert (mode_key pe = Some k) as Hk by (unfold mode_key; by rewrite Hm).
    rewrite decide_False by (by rewrite Hk). unfold keyed at 2. simpl. rewrite Hk. simpl.
    by rewrite lhm_iter_insert, He, Hl, last_per_key_snoc, app_nil_r.
Qed.

Lemma initial_task_data_push pe : initial_task_data pe = push_event pe default_task_data.
Proof. unfold initial_task_data, push_event. by destruct (pe_indexing_mode pe). Qed.

Lemma default_holds : holds [] default_task_data.
Proof. split; [done|]. apply lhm_iter_new. Qed.

(** Whatever becomes of the dependencies, the event joins its task. *)
Lemma add_event_get id deps pe m k :
  wf (tasks (task_network m)) →
  wf (tasks (task_network (add_parallelized_event_with_dependencies id deps pe m))) ∧
  Adm.get k (tasks (task_network (add_parallelized_event_with_dependencies id deps pe m))) =
    if decide (k = id)
    then Some (push_event pe (default default_task_data (Adm.get id (tasks (task_network m)))))
    else Adm.get k (tasks (task_network m)).
Proof.
  intros Hwf. unfold add_parallelized_event_with_dependencies.
  destruct (get_mut id (push_event pe) (task_network m)) as [n|] eqn:Hg; simpl.
  - destruct (get_mut_get _ _ _ _ k Hwf Hg) as [Hwf' Hk].
    destruct (add_dependencies_same (E := E) id deps n n) as [Hwf'' Hs]; [done|].
    split; [done|]. rewrite Hs, Hk. case_decide; [|done].
    assert (is_Some (Adm.get id (tasks (task_network m)))) as [v ->]; [|done].
    apply get_is_Some; [done|]. apply contains_key_true. destruct (contains_key id _) eqn:Hc; [done|].
    apply (get_mut_None _ (push_event pe)) in Hc; [|done]. by rewrite Hc in Hg.
  - apply get_mut_None in Hg; [|done].
    destruct (add_task_get (E := E) id (initial_task_data pe) deps _ k Hwf Hg) as [Hwf' Hk].
    split; [done|]. rewrite Hk. case_decide; [|done]. subst. rewrite initial_task_data_push.
    assert (Adm.get id (tasks (task_network m)) = None) as ->; [|done].
    apply eq_None_not_Some. rewrite get_is_Some by done. apply eq_None_not_Some.
    by apply contains_key_false.
Qed.

(** A call of [add_parallelized_event_with_dependencies]. *)
Definition arrival : Type := TaskId * list TaskId * ParallelizedEvent.

Definition arrive m (a : arrival) : tm :=
  add_parallelized_event_with_dependencies a.1.1 a.1.2 a.2 m.

Definition events_for (id : TaskId) (l : list arrival) : list ParallelizedEvent :=
  (filter (λ a : arrival, a.1.1 = id) l).*2.

Lemma arrivals_hold procs mc cfg (l : list arrival) :
  let m := foldl arrive (new procs mc cfg) l in
  wf (tasks (task_network m)) ∧
  ∀ id, match Adm.get id (tasks (task_network m)) with
        | None => events_for id l = []
        | Some d => events_for id l ≠ [] ∧ holds (events_for id l) d
        end.
Proof.
  induction l as [|[[id deps] pe] l IH] using rev_ind.
  { simpl. split; [apply new_wf|]. intros id. unfold Adm.get. simpl. by rewrite lookup_empty. }
  cbv zeta in *. rewrite foldl_snoc. set (m := foldl arrive _ l) in *. destruct IH as [Hwf Hd].
  change (arrive m (id, deps, pe)) with (add_parallelized_event_with_dependencies id deps pe m).
  split; [by apply (add_event_get id deps pe m id)|].
  intros k. rewrite (proj2 (add_event_get id deps pe m k Hwf)). specialize (Hd k).
  unfold events_for in *. rewrite filter_app, fmap_app, filter_cons. simpl.
  destruct (decide (id = k)) as [->|Hne].
  - rewrite decide_True by done. simpl. split; [by destruct (filter _ l)|].
    destruct (Adm.get k _) as [d|]; simpl.
    + apply push_event_holds, Hd.
    + rewrite Hd. simpl. apply (push_event_holds pe []), default_holds.
  - rewrite decide_False by done. by rewrite app_nil_r.
Qed.
End data.
(** ** Dependencies: registrations come before records *)
Section dependencies.
Context {W E Tx : Type} `{!LinkedHashMap EventKey} `{!DiGraphOps TaskData, !DiGraphSpec TaskData}.
Context {HO : HashOrder}.
#[local] Abbreviation tm := (TaskManager W E Tx).
#[local] Abbreviation tn := (TaskNetwork TaskId TaskData).
Implicit Types (n : tn) (m : tm) (D : gset (TaskId * TaskId)).

Lemma add_task_bind id d deps n :
  add_task_with_dependencies (E := E) id d deps n =
    match st_bind (on_graph (E := E) (add_node id d)) (λ _, resolve_pending_dependents id) n with
    | (Ok _, n1) => add_dependencies id deps n1
    | (Err e, n1) => (Err e, n1)
    | (Panic, n1) => (Panic, n1)
    end.
Proof.
  unfold add_task_with_dependencies, st_bind. rewrite on_graph_spec.
  destruct (add_node id d (tasks n)) as [[x|e|] a]; simpl; [|done..].
  by destruct (resolve_pending_dependents id _) as [[] n1].
Qed.

(** An edge out of a task that depends on nothing cannot close a cycle. *)
Lemma add_dependency_or_defer_ok f t n D :
  represents n D → present n t → f ≠ t → (∀ x, (x, f) ∉ D) →
  ∃ n', add_dependency_or_defer (E := E) f t n = (Ok tt, n') ∧
    represents n' ({[(f, t)]} ∪ D) ∧ (∀ k, present n' k ↔ present n k).
Proof.
  intros Hrep Ht Hne Hf.
  assert (∃ n', add_dependency_or_defer (E := E) f t n = (Ok tt, n')) as [n' Hn'].
  { unfold add_dependency_or_defer, add_dependency. destruct (contains_key f (tasks n)) eqn:Hc; [|eauto].
    rewrite on_graph_spec, add_dependency_spec. apply contains_key_true in Hc as [i Hi].
    pose proof Ht as [j Hj]. rewrite Hi, Hj.
    destruct (dg_has_path_connecting _ _ _) eqn:Hpath; [exfalso|eauto].
    pose proof (rep_wf _ _ Hrep) as Hwf.
    apply dg_has_path_spec in Hpath; [|by eauto using wf_node_valid..].
    apply (path_depends _ t f) in Hpath; [|done..].
    apply rtc_inv_r in Hpath as [?|(z & _ & Hz)]; [done|].
    apply (rep_edges _ _ Hrep) in Hz as [Hz _]. by eapply Hf. }
  exists n'. split; [done|]. by eapply add_dependency_or_defer_represents.
Qed.

Lemma add_dependencies_ok t deps n D :
  represents n D → present n t → t ∉ deps → (∀ f x, f ∈ deps → (x, f) ∉ D) →
  ∃ n', add_dependencies (E := E) t deps n = (Ok tt, n') ∧
    represents n' (list_to_set ((λ f, (f, t)) <$> deps) ∪ D) ∧
    (∀ k, present n' k ↔ present n k).
Proof.
  intros Hrep Ht Hni Hf.
  assert (∃ n', add_dependencies (E := E) t deps n = (Ok tt, n')) as [n' Hn'].
  { unfold add_dependencies. revert n D Hrep Ht Hf.
    induction deps as [|f deps IH]; intros n D Hrep Ht Hf; [by exists n|].
    apply not_elem_of_cons in Hni as [Hne Hni].
    destruct (add_dependency_or_defer_ok f t n D) as (n1 & H1 & Hrep1 & Hp1);
      [done..|intros x; apply Hf; by left|].
    destruct (IH Hni n1 ({[(f, t)]} ∪ D)) as [n2 H2]; [done|by apply Hp1| |].
    { intros f' x Hf'. rewrite not_elem_of_union, not_elem_of_singleton. split; [|by apply Hf; right].
      intros [= _ ->]. done. }
    exists n2. apply for_each_Ok_cons. eauto. }
  exists n'. split; [done|]. by eapply add_dependencies_represents.
Qed.

Lemma get_mut_represents id g n n' D :
  represents n D → get_mut id g n = Some n' →
  represents n' D ∧ (∀ k, present n' k ↔ present n k) ∧ present n id.
Proof.
  intros [Hwf He Hp Ht] Hg. unfold get_mut in Hg. apply fmap_Some in Hg as (a & Ha & ->).
  destruct (get_mut_spec _ _ _ _ Hwf Ha) as (Hni & Hed & _).
  assert (∀ k, present (set_tasks a n) k ↔ present n k) as Hpres.
  { intros k. unfold present. simpl. by rewrite Hni. }
  split_and!; [|done|].
  - split; simpl.
    + by eapply get_mut_wf.
    + intros f t. rewrite Hpres, <- He. unfold depends, dg_edge. by rewrite Hni, Hed.
    + intros f t. rewrite Hpres, <- Hp. done.
    + intros f t Hin. apply Hpres. eauto.
  - unfold present. unfold Adm.get_mut in Ha. by destruct (node_indices (tasks n) !! id).
Qed.

(** A task some arrival depends on has no dependencies of its own. *)
Definition two_level (l : list arrival) : Prop :=
  ∀ a b, a ∈ l → b ∈ l → a.1.1 ∈ b.1.2 → a.1.2 = [].

Definition depends_on (l : list arrival) (f t : TaskId) : Prop :=
  ∃ a, a ∈ l ∧ a.1.1 = t ∧ f ∈ a.1.2.

Lemma two_level_cut l1 l2 : two_level (l1 ++ l2) → two_level l1.
Proof. intros Hl a b Ha Hb. apply Hl; apply elem_of_app; by left. Qed.

Lemma depends_on_snoc l id deps pe f t :
  depends_on (l ++ [(id, deps, pe)]) f t ↔ depends_on l f t ∨ (t = id ∧ f ∈ deps).
Proof.
  unfold depends_on. setoid_rewrite elem_of_app. setoid_rewrite list_elem_of_singleton. naive_solver.
Qed.

(** The network of a batch of two levels declares exactly the dependencies of
    the batch: no call fails. *)
Lemma arrivals_represent procs mc cfg (l : list arrival) :
  two_level l →
  let m := foldl arrive (new procs mc cfg : tm) l in
  ∃ D, represents (task_network m) D ∧ (∀ f t, (f, t) ∈ D ↔ depends_on l f t) ∧
    (∀ k, present (task_network m) k ↔ k ∈ (fst ∘ fst) <$> l).
Proof.
  induction l as [|[[id deps] pe] l IH] using rev_ind; intros Hl.
  { exists ∅. split_and!; [apply new_represents| |].
    - intros f t. split; [set_solver|]. by intros (a & Ha%not_elem_of_nil & _).
    - intros k. unfold present. simpl. rewrite lookup_empty, elem_of_nil.
      split; [by intros ?%is_Some_None|done]. }
  cbv zeta in *. rewrite foldl_snoc. set (m := foldl arrive _ l) in *.
  destruct (IH (two_level_cut _ _ Hl)) as (D & Hrep & HD & Hpres).
  change (arrive m (id, deps, pe)) with (add_parallelized_event_with_dependencies id deps pe m).
  assert (id ∉ deps) as Hself.
  { intros Hin. assert ((id, deps, pe) ∈ l ++ [(id, deps, pe)]) as Hme
      by (apply elem_of_app; right; by left).
    pose proof (Hl _ _ Hme Hme Hin) as Hd. simpl in Hd. subst. by apply not_elem_of_nil in Hin. }
  assert (∀ f x, f ∈ deps → (x, f) ∉ D) as Hfree.
  { intros f x Hf. rewrite HD. intros (a & Ha & <- & Hx).
    assert (a.1.2 = []) as Hnil.
    { apply (Hl a (id, deps, pe)); [apply elem_of_app; by left|apply elem_of_app; right; by left|done]. }
    rewrite Hnil in Hx. by apply not_elem_of_nil in Hx. }
  exists (list_to_set ((λ f, (f, id)) <$> deps) ∪ D).
  unfold add_parallelized_event_with_dependencies.
  destruct (get_mut id (push_event pe) (task_network m)) as [n1|] eqn:Hg.
  - destruct (get_mut_represents _ _ _ _ _ Hrep Hg) as (Hrep1 & Hp1 & Hid).
    destruct (add_dependencies_ok id deps n1 D) as (n2 & Hn2 & Hrep2 & Hp2); [done|by apply Hp1|done..|].
    rewrite Hn2. simpl. split_and!; [done| |].
    + intros f t. rewrite depends_on_snoc, <- HD, elem_of_union, elem_of_list_to_set, list_elem_of_fmap.
      naive_solver.
    + intros k. rewrite Hp2, Hp1, Hpres, fmap_app, elem_of_app. csimpl.
      rewrite list_elem_of_singleton. split; [by left|]. intros [?| ->]; [done|]. by apply Hpres.
  - apply get_mut_None in Hg; [|apply Hrep].
    assert (¬ present (task_network m) id) as Hnp.
    { unfold present. apply eq_None_not_Some. by apply contains_key_false. }
    destruct (add_node_resolve (E := E) id (initial_task_data pe) _ D Hrep Hnp)
      as (n1 & Hn1 & Hrep1 & Hp1).
    destruct (add_dependencies_ok id deps n1 D) as (n2 & Hn2 & Hrep2 & Hp2);
      [done|apply Hp1; by left|done..|].
    assert (add_task_with_dependencies (E := E) id (initial_task_data pe) deps (task_network m)
      = (Ok tt, n2)) as ->.
    { rewrite add_task_bind, Hn1. done. }
    simpl. split_and!; [done| |].
    + intros f t. rewrite depends_on_snoc, <- HD, elem_of_union, elem_of_list_to_set, list_elem_of_fmap.
      naive_solver.
    + intros k. rewrite Hp2, Hp1, Hpres, fmap_app, elem_of_app. csimpl.
      rewrite list_elem_of_singleton. naive_solver.
Qed.
End dependencies.

(** ** Properties *)
Section properties.
Context {W E Tx : Type} `{!LinkedHashMap EventKey} `{!DiGraphOps TaskData, !DiGraphSpec TaskData}.
Context {HO : HashOrder}.
#[local] Abbreviation tm := (TaskManager W E Tx).
Implicit Types m : tm.

(** C12: no event of a batch is lost or reordered within its task, whatever
    dependencies are declared and even when declaring them fails: the handler of
    a task goes through all its historical events in order of arrival, then
    through the last event of each latest-only key, in order of arrival; and
    there is a task for exactly the identifiers that received an event. *)
Theorem batch_task_events procs mc cfg (l : list arrival) (id : TaskId) :
  task_events <$> Adm.get id (tasks (task_network (foldl arrive (new procs mc cfg : tm) l))) =
    match events_for id l with
    | [] => None
    | es => Some (filter (λ pe, mode_key pe = None) es ++ (last_per_key (keyed es)).*2)
    end.
Proof.
  destruct (arrivals_hold procs mc cfg l) as [_ Hd]. specialize (Hd id).
  destruct (Adm.get id _) as [d|]; simpl; [|by rewrite Hd].
  destruct Hd as [Hne [He Hl]]. unfold task_events. rewrite He, Hl. by destruct (events_for id l).
Qed.

(** Within [l], an event makes every earlier one of the same key redundant. *)
Definition absorbs (f : ParallelizedEvent → st W E unit)
    (l : list (EventKey * ParallelizedEvent)) : Prop :=
  ∀ l1 k e mid e' l2 w, l = l1 ++ (k, e) :: mid ++ (k, e') :: l2 →
    for_each f (e :: mid.*2 ++ [e']) w = for_each f (mid.*2 ++ [e']) w.

Lemma for_each_app_cong (f : ParallelizedEvent → st W E unit) a b c w :
  for_each f a w = for_each f b w → for_each f (a ++ c) w = for_each f (b ++ c) w.
Proof. intros Hab. rewrite !for_each_app. unfold st_bind. by rewrite Hab. Qed.

Lemma for_each_last_per_key (f : ParallelizedEvent → st W E unit) l w :
  absorbs f l → for_each f (last_per_key l).*2 w = for_each f l.*2 w.
Proof.
  revert w. induction l as [|[k e] l IH]; intros w Habs; [done|].
  assert (absorbs f l) as Hl.
  { intros l1 k1 e1 mid e2 l2 w' ->. by apply (Habs ((k, e) :: l1) k1 e1 mid e2 l2). }
  simpl. destruct (decide (k ∈ l.*1)) as [Hin|_].
  - rewrite IH by done. apply list_elem_of_fmap in Hin as ([k' e'] & Hk & Hin).
    simpl in Hk. subst k'. apply list_elem_of_split in Hin as (mid & l2 & ->).
    change (for_each f (mid ++ (k, e') :: l2).*2 w = for_each f (e :: (mid ++ (k, e') :: l2).*2) w).
    rewrite fmap_app, fmap_cons. change ((k, e').2) with e'.
    assert (mid.*2 ++ e' :: l2.*2 = (mid.*2 ++ [e']) ++ l2.*2) as -> by by rewrite <- app_assoc.
    rewrite app_comm_cons.
    symmetry. apply for_each_app_cong, (Habs [] k e mid e' l2 w eq_refl).
  - simpl. unfold st_bind. destruct (f e w) as [[] w']; [|done..]. by apply IH.
Qed.

(** Keeping only the last event of each key changes nothing, for a task all
    of whose events are latest-only: if within the batch an event makes every
    earlier one of its key redundant (as a write that overwrites the same
    fields does), the handler of the task leaves the store, and returns, exactly
    what handling every event in order would. *)
Theorem latest_compression_sound procs mc cfg (l : list arrival) (id : TaskId) d w :
  Adm.get id (tasks (task_network (foldl arrive (new procs mc cfg : tm) l))) = Some d →
  Forall (λ pe, mode_key pe ≠ None) (events_for id l) →
  absorbs (handle_event procs cfg) (keyed (events_for id l)) →
  run_task procs cfg d w = for_each (handle_event procs cfg) (events_for id l) w.
Proof.
  intros Hg Hlatest Habs. destruct (arrivals_hold procs mc cfg l) as [_ Hd]. specialize (Hd id).
  rewrite Hg in Hd. destruct Hd as (_ & He & Hl). unfold run_task, task_events. rewrite He, Hl.
  set (es := events_for id l) in *. clearbody es.
  assert (filter (λ pe, mode_key pe = None) es = []) as ->.
  { clear -Hlatest. induction Hlatest; [done|]. by rewrite filter_cons, decide_False. }
  assert ((keyed es).*2 = es) as Hes.
  { clear -Hlatest. induction Hlatest as [|pe es Hpe _ IH]; [done|]. unfold keyed in *. csimpl.
    destruct (mode_key pe); [|done]. csimpl. by rewrite IH. }
  rewrite <- Hes at 2. by apply for_each_last_per_key.
Qed.

(** C3: in a batch where a task that others depend on has no dependencies
    itself (records depend on registrations, registrations on nothing), no
    handler starts before the handlers of the tasks its events depend on have
    succeeded, in any interleaving, whether those tasks arrived before or after
    it. *)
Theorem dependencies_respected procs mc cfg (l : list arrival) r log m' :
  two_level l →
  process_tasks (foldl arrive (new procs mc cfg : tm) l) r log m' →
  ∀ pre t post f, log = pre ++ Started t :: post →
    depends_on l f t → f ∈ (fst ∘ fst) <$> l → Finished f (Ok tt) ∈ pre.
Proof.
  intros Hl Hp. destruct (arrivals_represent procs mc cfg l Hl) as (D & Hrep & HD & Hpres).
  set (m := foldl arrive _ l) in *. unfold process_tasks in Hp.
  destruct (Tn.is_empty (task_network m)) eqn:Hem.
  { destruct Hp as (_ & -> & _). intros [] ???; discriminate. }
  destruct Hp as (r0 & n' & Hrun & _).
  assert (log_safe (tasks (task_network m)) log) as Hsafe.
  { destruct Hrun as [|levels l' _ Ht Hr|levels e l' _ Ht Hr]; [apply log_safe_nil|..];
      destruct (topo_sort_by_level_order _ (rep_wf _ _ Hrep)) as (levels' & Ht' & Hlo); simplify_eq;
      apply (reachable_inv _ _ _ _ (rep_wf _ _ Hrep) Hlo Hr). }
  intros pre t post f Hlog Hdep Hf. eapply Hsafe; [done|].
  apply (rep_edges _ _ Hrep). split; [by apply HD|by apply Hpres].
Qed.
End properties.

(** ** Witnesses *)
Section witnesses.
#[local] Existing Instance canonical_order.
#[local] Instance lhm_w : LinkedHashMap EventKey := list_lhm EventKey.

(** Two contracts' worth of a toy store: key [1] writes field [k] of the record
    with the value in the event's data. *)
Definition write_field (ctx : EventProcessorContext) : st (gmap Z Z) unit unit := λ w,
  match data (ctx_event ctx) with
  | [field; v] => (Ok tt, <[field := v]> w)
  | _ => (Panic, w)
  end.

Definition writer : EventProcessor (gmap Z Z) unit :=
  mkProcessor "Write" (λ _, true) default_should_process (λ e, Some (from_address e))
    default_task_dependencies (λ e _, Latest <$> data e !! 0) write_field.

Definition toy_processors : Processors (gmap Z Z) unit unit :=
  mkProcessors [] [] writer {[ WORLD := {[ 1%Z := [writer] ]} ]}.

Definition write_event (field v : Z) : ParallelizedEvent :=
  mkPE (Latest field) WORLD 7 0 0 "" (mkEvent 7 [1%Z] [field; v]) true.

(** Task 5 writes fields 1, 2, 1, and waits for task 9, which arrives last. *)
Definition toy_batch : list arrival :=
  [(5%Z, [9%Z], write_event 1 10); (5%Z, [9%Z], write_event 2 20);
   (5%Z, [], write_event 1 30); (9%Z, [], write_event 3 40)].

#[local] Abbreviation toy_tm :=
  (foldl arrive (new toy_processors 2 default_config : TaskManager (gmap Z Z) unit unit) toy_batch).

Definition toy_data : TaskData :=
  default default_task_data (Adm.get 5%Z (tasks (task_network toy_tm))).

Lemma toy_handle field v w :
  handle_event toy_processors default_config (write_event field v) w = (Ok tt, <[field := v]> w).
Proof. reflexivity. Qed.

Lemma toy_absorbs : absorbs (handle_event toy_processors default_config) (keyed (events_for 5 toy_batch)).
Proof.
  assert (keyed (events_for 5 toy_batch) =
    [(1%Z, write_event 1 10); (2%Z, write_event 2 20); (1%Z, write_event 1 30)]) as -> by reflexivity.
  intros l1 k e mid e' l2 w Heq.
  destruct l1 as [|? [|? [|? l1]]]; simplify_eq/=.
  - destruct mid as [|? [|? mid]]; simplify_eq/=; [|by destruct mid].
    unfold st_bind. repeat (rewrite toy_handle; cbv beta iota). rewrite (insert_insert_ne _ 2%Z 1%Z) by done.
    by rewrite insert_insert_eq.
  - destruct mid as [|? mid]; simplify_eq/=. by destruct mid.
  - by destruct mid.
  - by destruct l1.
Qed.

Lemma latest_compression_sound_witness :
  run_task toy_processors default_config toy_data ∅ = (Ok tt, <[1%Z := 30%Z]> {[2%Z := 20%Z]}).
Proof.
  rewrite (latest_compression_sound toy_processors 2 default_config toy_batch 5 toy_data).
  - vm_compute. reflexivity.
  - vm_compute. reflexivity.
  - repeat constructor; discriminate.
  - apply toy_absorbs.
Defined.

Lemma batch_task_events_witness :
  pe_event_id <$> task_events toy_data = [""; ""] ∧
  task_events <$> Adm.get 5%Z (tasks (task_network toy_tm)) =
    Some [write_event 2 20; write_event 1 30].
Proof.
  split; [vm_compute; reflexivity|].
  rewrite (batch_task_events toy_processors 2 default_config toy_batch 5). reflexivity.
Defined.

Lemma toy_two_level : two_level toy_batch.
Proof.
  intros a b Ha Hb Hin. apply list_elem_of_In in Ha, Hb, Hin. simpl in *.
  repeat match goal with H : _ ∨ _ |- _ => destruct H | H : False |- _ => destruct H end;
    subst; simpl in *; try done; naive_solver.
Qed.

Lemma dependencies_respected_witness :
  ∃ log, process_tasks toy_tm (Ok tt) log (clear_tasks toy_tm) ∧
    log = [Started 9; Finished 9 (Ok tt); Started 5; Finished 5 (Ok tt)]%Z ∧
    ∀ pre post, log = pre ++ Started 5%Z :: post → Finished 9%Z (Ok tt) ∈ pre.
Proof.
  exists [Started 9; Finished 9 (Ok tt); Started 5; Finished 5 (Ok tt)]%Z.
  assert (process_tasks toy_tm (Ok tt)
    [Started 9; Finished 9 (Ok tt); Started 5; Finished 5 (Ok tt)]%Z (clear_tasks toy_tm)) as Hrun.
  { unfold process_tasks. change (Tn.is_empty (task_network toy_tm)) with false. cbv iota.
    exists (Ok tt), (Tn.clear (task_network toy_tm)). split_and!; [|done..].
    set (d9 := default default_task_data (Adm.get 9%Z (tasks (task_network toy_tm)))).
    apply (process_ok _ [[(9%Z, d9)]; [(5%Z, toy_data)]]); [reflexivity|vm_compute; reflexivity|].
    change (semaphore (task_network toy_tm)) with 2. unfold initial.
    eapply rtc_l; [apply step_next_level; [by intros [? ?%not_elem_of_nil]|done]|].
    eapply rtc_l; [apply (step_start _ _ _ [] []); simpl; lia|].
    eapply rtc_l; [apply (step_finish _ _ _ _ [] []) with (r := Ok tt)|]. simpl.
    eapply rtc_l; [apply step_next_level; [|done];
      intros [? [=]%list_elem_of_singleton]|].
    eapply rtc_l; [apply (step_start _ _ _ [] []); simpl; lia|].
    eapply rtc_l; [apply (step_finish _ _ _ _ [] []) with (r := Ok tt)|]. simpl.
    eapply rtc_l; [apply step_done; [|done]; intros [? [=]%list_elem_of_singleton]|].
    apply rtc_refl. }
  split_and!; [exact Hrun|reflexivity|]. intros pre post Hlog.
  apply (dependencies_respected toy_processors 2 default_config toy_batch _ _ _ toy_two_level Hrun
    pre 5 post 9 Hlog).
  - exists (5%Z, [9%Z], write_event 1 10). split_and!; [left|reflexivity|left].
  - apply list_elem_of_In. simpl. tauto.
Defined.
End witnesses.

End Tm.
