(* ===== verification/Cache.v ===== *)
(** * The caches of the indexer ([crates/cache/src/lib.rs])

    [ModelCache] keeps the registered models, [ErcCache] the token registry and
    the balance and supply differences of the batch being processed,
    [InMemoryCache] both behind the [Cache] trait, [ContractClassCache] the ABIs
    of contracts. The handlers of a batch run concurrently and share the cache;
    what they share is a [DashMap], whose entry operations are atomic. It is not
    part of the repository: [DashMap] has the operations the code calls with the
    map laws. The storage behind a cache is an argument: what it answers. *)

From S2P Require Import Prelude Math Proto.
Import Math.
Local Open Scope torii_scope.

Class DashMap : Type := {
  dm (K : Type) `{Countable K} : Type → Type;
  dm_new {K} `{Countable K} {V} : dm K V;
  dm_get {K} `{Countable K} {V} : K → dm K V → option V;
  dm_insert {K} `{Countable K} {V} : K → V → dm K V → dm K V;
  dm_clear {K} `{Countable K} {V} : dm K V → dm K V;
  dm_iter {K} `{Countable K} {V} : dm K V → list (K * V);
  dm_get_new {K} `{Countable K} {V} (k : K) : dm_get k (dm_new : dm K V) = None;
  dm_get_insert {K} `{Countable K} {V} (k : K) (v : V) m (k' : K) :
    dm_get k' (dm_insert k v m) = if decide (k' = k) then Some v else dm_get k' m;
  dm_get_clear {K} `{Countable K} {V} (k : K) (m : dm K V) : dm_get k (dm_clear m) = None;
  dm_iter_nodup {K} `{Countable K} {V} (m : dm K V) : NoDup (dm_iter m).*1;
  dm_iter_get {K} `{Countable K} {V} (k : K) v (m : dm K V) : (k, v) ∈ dm_iter m ↔ dm_get k m = Some v
}.

Definition gmap_dashmap : DashMap.
Proof.
  unshelve refine {| dm K _ _ V := gmap K V; dm_new _ _ _ V := ∅; dm_get _ _ _ _ k m := m !! k;
            dm_insert _ _ _ _ k v m := <[k := v]> m; dm_clear _ _ _ _ _ := ∅;
            dm_iter _ _ _ _ m := map_to_list m |}; intros; simpl.
  - apply lookup_empty.
  - rewrite lookup_insert. case_decide; case_decide; congruence.
  - apply lookup_empty.
  - apply NoDup_fst_map_to_list.
  - apply elem_of_map_to_list.
Defined.

Inductive StorageError : Type :=
| StorageModelNotFound (world_address selector : Felt)
| Sql
| Internal.

Module Cache.

Inductive Error : Type :=
| Storage (e : StorageError)
| Parse
| Provider
| ModelNotFound (selector : Felt).

(** ** Models *)
Section model_cache.
Context `{DojoTypes} {HO : HashOrder}.

Record ModelCache : Type := mkModelCache { model_cache : gmap Felt (gmap Felt Model) }.

(** [cache.entry(world).or_default().insert(selector, model)] *)
Definition insert_model (world_address selector : Felt) (model : Model)
    (c : gmap Felt (gmap Felt Model)) : gmap Felt (gmap Felt Model) :=
  <[world_address := <[selector := model]> (default ∅ (c !! world_address))]> c.

(** [storage_models] is what [storage.models(&[], &[])] returned. *)
Definition new_model_cache (storage_models : outcome StorageError (list Model))
  : outcome Error ModelCache :=
  let? models := map_err Storage storage_models in
  Ok (mkModelCache
    (foldl (λ c m, insert_model (model_world_address m) (selector m) m c) ∅ models)).

(** The models of one world, all of them or those selected. *)
Definition world_models (selectors : list Felt) (w : gmap Felt Model) : list Model :=
  match selectors with
  | [] => hm_values w
  | _ => omap (λ s, w !! s) selectors
  end.

Definition models (world_addresses selectors : list Felt) (self : ModelCache) : list Model :=
  match world_addresses with
  | [] => hm_values (model_cache self) ≫= world_models selectors
  | _ => omap (λ world, model_cache self !! world) world_addresses ≫= world_models selectors
  end.

Definition model (world_address selector : Felt) (self : ModelCache) : outcome Error Model :=
  ok_or (ModelNotFound selector) (w ← model_cache self !! world_address; w !! selector).

Definition set (world_address selector : Felt) (m : Model) (self : ModelCache) : ModelCache :=
  mkModelCache (insert_model world_address selector m (model_cache self)).

Definition clear (_ : ModelCache) : ModelCache := mkModelCache ∅.
End model_cache.

(** ** Tokens and balances *)

(** An [Arc<Mutex<()>>] is the number of its allocation. *)
Inductive TokenState : Type :=
| Registered
| Registering (mutex : nat)
| NotRegistered.

Section erc_cache.
Context {DM : DashMap} {U : U256Ops} {HO : HashOrder}.

Record ErcCache : Type := mkErc {
  balances_diff : dm BalanceId I256;
  total_supply_diff : dm TokenId I256;
  token_id_registry : dm TokenId TokenState;
  next_mutex : nat
}.

Definition set_balances b (c : ErcCache) : ErcCache :=
  mkErc b (total_supply_diff c) (token_id_registry c) (next_mutex c).
Definition set_supply s (c : ErcCache) : ErcCache :=
  mkErc (balances_diff c) s (token_id_registry c) (next_mutex c).
Definition set_registry r (c : ErcCache) : ErcCache :=
  mkErc (balances_diff c) (total_supply_diff c) r (next_mutex c).

(** [storage_tokens] is what [storage.token_ids()] returned; collecting into a
    [DashMap] inserts the pairs one by one. *)
Definition load_token_registry (storage_tokens : outcome StorageError (gset TokenId))
  : outcome Error (dm TokenId TokenState) :=
  let? token_ids := map_err Storage storage_tokens in
  Ok (foldl (λ r t, dm_insert t Registered r) dm_new (hs_iter token_ids)).

Definition new_erc_cache (storage_tokens : outcome StorageError (gset TokenId))
  : outcome Error ErcCache :=
  let? r := load_token_registry storage_tokens in Ok (mkErc dm_new dm_new r 0).

Definition erc_reset_token_registry (storage_tokens : outcome StorageError (gset TokenId))
  : st ErcCache Error unit := λ self,
  match load_token_registry storage_tokens with
  | Ok rebuilt =>
      (Ok tt, set_registry
        (foldl (λ r kv, dm_insert kv.1 kv.2 r) (dm_clear (token_id_registry self)) (dm_iter rebuilt))
        self)
  | Err e => (Err e, self)
  | Panic => (Panic, self)
  end.

(** A new mutex, stored as the state of the token. *)
Definition start_registering (token_id : TokenId) (self : ErcCache) : option nat * ErcCache :=
  (Some (next_mutex self),
   mkErc (balances_diff self) (total_supply_diff self)
     (dm_insert token_id (Registering (next_mutex self)) (token_id_registry self))
     (S (next_mutex self))).

Definition erc_get_token_registration_lock (token_id : TokenId) (self : ErcCache)
  : option nat * ErcCache :=
  match dm_get token_id (token_id_registry self) with
  | Some (Registering mutex) => (Some mutex, self)
  | Some Registered => (None, self)
  | Some NotRegistered => start_registering token_id self
  | None => start_registering token_id self
  end.

Definition erc_mark_token_registered (token_id : TokenId) (self : ErcCache) : ErcCache :=
  set_registry (dm_insert token_id Registered (token_id_registry self)) self.

Definition erc_is_token_registered (token_id : TokenId) (self : ErcCache) : bool :=
  match dm_get token_id (token_id_registry self) with Some Registered => true | _ => false end.

(** [map.entry(k).and_modify(f).or_insert(v)], where [f] may panic *)
Definition entry_modify_or_insert {K} `{Countable K} (k : K) (f : I256 → option I256) (v : I256)
    (m : dm K I256) : option (dm K I256) :=
  match dm_get k m with
  | Some x => y ← f x; Some (dm_insert k y m)
  | None => Some (dm_insert k v m)
  end.

Definition on_balances (f : dm BalanceId I256 → option (dm BalanceId I256)) (c : ErcCache)
  : option ErcCache := b ← f (balances_diff c); Some (set_balances b c).
Definition on_supply (f : dm TokenId I256 → option (dm TokenId I256)) (c : ErcCache)
  : option ErcCache := s ← f (total_supply_diff c); Some (set_supply s c).

(** [None] is the panic of an overflow in [I256]. *)
Definition erc_update_balance_diff (token_id : TokenId) (from to : Felt) (value : U256)
    (self : ErcCache) : option ErcCache :=
  let value_i256 := from_u256 value in
  let negative_value_i256 := mkI256 value true in
  self ←
    (if decide (from ≠ FELT_ZERO) then
       on_balances (entry_modify_or_insert (mkBalanceId from token_id)
         (λ balance, sub_assign balance value_i256) negative_value_i256) self
     else Some self);
  self ←
    (if decide (to ≠ FELT_ZERO) then
       on_balances (entry_modify_or_insert (mkBalanceId to token_id)
         (λ balance, add_assign balance value_i256) value_i256) self
     else Some self);
  if is_nft token_id then
    if decide (from = FELT_ZERO ∧ to ≠ FELT_ZERO) then
      on_supply (entry_modify_or_insert token_id (λ s, add_assign s value_i256) value_i256) self
    else if decide (from ≠ FELT_ZERO ∧ to = FELT_ZERO) then
      on_supply (entry_modify_or_insert token_id (λ s, sub_assign s value_i256)
        negative_value_i256) self
    else Some self
  else
    if decide (from = FELT_ZERO ∧ to ≠ FELT_ZERO) then
      on_supply (entry_modify_or_insert token_id (λ s, add_assign s value_i256) value_i256) self
    else if decide (from ≠ FELT_ZERO ∧ to = FELT_ZERO) then
      on_supply (entry_modify_or_insert token_id (λ s, sub_assign s value_i256)
        negative_value_i256) self
    else Some self.
End erc_cache.

(** ** The cache behind the [Cache] trait *)
Section in_memory_cache.
Context `{DojoTypes} {DM : DashMap} {U : U256Ops} {HO : HashOrder}.

Record InMemoryCache : Type := mkCache { im_model_cache : ModelCache; im_erc_cache : ErcCache }.

(** The answers of the storage to [models(&[], &[])] and to [token_ids()]. *)
Definition new (storage_models : outcome StorageError (list Model))
    (storage_tokens : outcome StorageError (gset TokenId)) : outcome Error InMemoryCache :=
  let? m := new_model_cache storage_models in
  let? e := new_erc_cache storage_tokens in
  Ok (mkCache m e).

Definition on_erc (f : ErcCache → ErcCache) (self : InMemoryCache) : InMemoryCache :=
  mkCache (im_model_cache self) (f (im_erc_cache self)).

Definition register_model (world_address selector : Felt) (m : Model) (self : InMemoryCache)
  : InMemoryCache := mkCache (set world_address selector m (im_model_cache self)) (im_erc_cache self).
Definition clear_models (self : InMemoryCache) : InMemoryCache :=
  mkCache (clear (im_model_cache self)) (im_erc_cache self).
Definition mark_token_registered (token_id : TokenId) : InMemoryCache → InMemoryCache :=
  on_erc (erc_mark_token_registered token_id).
Definition is_token_registered (token_id : TokenId) (self : InMemoryCache) : bool :=
  erc_is_token_registered token_id (im_erc_cache self).
Definition get_token_registration_lock (token_id : TokenId) (self : InMemoryCache)
  : option nat * InMemoryCache :=
  let '(l, e) := erc_get_token_registration_lock token_id (im_erc_cache self) in
  (l, mkCache (im_model_cache self) e).

(** [iter().map(..).collect()] into a [HashMap] *)
Definition balances_diff_map (self : InMemoryCache) : gmap BalanceId I256 :=
  list_to_map (dm_iter (balances_diff (im_erc_cache self))).
Definition total_supply_diff_map (self : InMemoryCache) : gmap TokenId I256 :=
  list_to_map (dm_iter (total_supply_diff (im_erc_cache self))).

Definition clear_balances_diff : InMemoryCache → InMemoryCache :=
  on_erc (λ e, set_supply (dm_clear (total_supply_diff e)) (set_balances (dm_clear (balances_diff e)) e)).

Definition reset_token_registry (storage_tokens : outcome StorageError (gset TokenId))
  : st InMemoryCache Error unit :=
  st_zoom im_erc_cache (λ e self, mkCache (im_model_cache self) e)
    (erc_reset_token_registry storage_tokens).

Definition reset_to_committed_storage (storage_tokens : outcome StorageError (gset TokenId))
  : st InMemoryCache Error unit :=
  st_modify clear_balances_diff ;;;
  st_modify clear_models ;;;
  reset_token_registry storage_tokens.

Definition update_balance_diff (token_id : TokenId) (from to : Felt) (value : U256)
    (self : InMemoryCache) : option InMemoryCache :=
  e ← erc_update_balance_diff token_id from to value (im_erc_cache self);
  Some (mkCache (im_model_cache self) e).
End in_memory_cache.

(** ** Contract classes *)

(** The entries of an ABI: the variants the code tells apart; [AbiOther] is any
    of the others. *)
#[local] Set Warnings "-register-all".
Inductive AbiEntry : Type :=
| AbiFunction (name : string)
| AbiL1Handler (name : string)
| AbiConstructor (name : string)
| AbiInterface (items : list AbiEntry)
| AbiOther.

Record SierraEntryPoint : Type := mkEntryPoint { ep_selector : Felt; function_idx : nat }.
Record EntryPointsByType : Type := mkEntryPoints {
  external : list SierraEntryPoint;
  l1_handler : list SierraEntryPoint;
  constructor : list SierraEntryPoint
}.

(** A legacy entry is a function with a name, or something else. *)
Inductive LegacyContractAbiEntry : Type := LegacyFunction (name : string) | LegacyOther.

Inductive ClassAbi : Type :=
| Sierra (entry_points : EntryPointsByType) (abi : list AbiEntry)
| Legacy (abi : list LegacyContractAbiEntry).

(** What [get_class_at] returns, with the ABI still a string for Sierra. *)
Inductive ContractClass : Type :=
| SierraClass (entry_points_by_type : EntryPointsByType) (abi : string)
| LegacyClass (abi : option (list LegacyContractAbiEntry)).

Inductive BlockId : Type := BlockNumber (n : Z) | BlockHash (h : Felt) | BlockPreConfirmed | BlockLatest.

Inductive ProviderError : Type := BlockNotFound | OtherProviderError.

(** The closure of the [flat_map], which calls the function on the items of an
    interface. *)
Fixpoint flatten_entry (entry : AbiEntry) : list AbiEntry :=
  match entry with
  | AbiFunction _ | AbiL1Handler _ | AbiConstructor _ => [entry]
  | AbiInterface items => flat_map flatten_entry items
  | AbiOther => []
  end.

Definition flatten_abi_funcs_recursive (abi : list AbiEntry) : list AbiEntry :=
  flat_map flatten_entry abi.

Section class_cache.
(** The provider, the JSON parser and [get_selector_from_name]; [None] of the
    last two is an error, which the code unwraps. *)
Context (get_class_hash_at : BlockId → Felt → outcome ProviderError Felt).
Context (get_class_at : BlockId → Felt → outcome ProviderError ContractClass).
Context (parse_abi : string → option (list AbiEntry)).
Context (get_selector_from_name : string → option Felt).

Definition classes : Type := gmap Felt (Felt * ClassAbi).

Definition get (contract_address : Felt) (block_id : BlockId) : st classes Error ClassAbi := λ cs,
  match cs !! contract_address with
  | Some class => (Ok class.2, cs)
  | None =>
      let found :=
        let? (class_hash, block_id) :=
          match get_class_hash_at block_id contract_address with
          | Ok class_hash => Ok (class_hash, block_id)
          | Err BlockNotFound =>
              let? class_hash :=
                map_err (λ _, Provider) (get_class_hash_at BlockPreConfirmed contract_address) in
              Ok (class_hash, BlockPreConfirmed)
          | Err _ => Err Provider
          | Panic => Panic
          end in
        let? class := map_err (λ _, Provider) (get_class_at block_id contract_address) in
        let? class :=
          match class with
          | SierraClass eps abi =>
              let? abi := unwrap (parse_abi abi) in
              Ok (Sierra eps (flatten_abi_funcs_recursive abi))
          | LegacyClass abi => Ok (Legacy (default [] abi))
          end in
        Ok (class_hash, class) in
      match found with
      | Ok (class_hash, class) => (Ok class, <[contract_address := (class_hash, class)]> cs)
      | Err e => (Err e, cs)
      | Panic => (Panic, cs)
      end
  end.

Definition abi_entry_name (e : AbiEntry) : option string :=
  match e with
  | AbiFunction name | AbiL1Handler name | AbiConstructor name => Some name
  | _ => None
  end.

(** [abi.iter().find_map(..)] over a legacy ABI, stopping at the panic of an
    invalid name *)
Fixpoint find_legacy (selector : Felt) (abi : list LegacyContractAbiEntry)
  : outcome Error (option string) :=
  match abi with
  | [] => Ok None
  | LegacyFunction name :: abi =>
      let? s := unwrap (get_selector_from_name name) in
      if decide (s = selector) then Ok (Some name) else find_legacy selector abi
  | LegacyOther :: abi => find_legacy selector abi
  end.

Definition get_entrypoint_name_from_class (class : ClassAbi) (selector : Felt)
  : outcome Error (option string) :=
  match class with
  | Sierra entrypoints abi =>
      Ok (ep ← find (λ ep, bool_decide (ep_selector ep = selector))
                 (external entrypoints ++ l1_handler entrypoints ++ constructor entrypoints);
          entry ← abi !! function_idx ep;
          abi_entry_name entry)
  | Legacy abi => find_legacy selector abi
  end.
End class_cache.

(** ** Lemmas on the model cache *)
Section model_lemmas.
Context `{DojoTypes} {HO : HashOrder}.

Lemma insert_model_lookup w s m c w' s' :
  (x ← insert_model w s m c !! w'; x !! s') =
    if decide (w' = w ∧ s' = s) then Some m else x ← c !! w'; x !! s'.
Proof.
  unfold insert_model. rewrite lookup_insert. destruct (decide (w = w')) as [->|Hw]; simpl.
  - rewrite lookup_insert. destruct (decide (s = s')) as [->|Hs].
    + by rewrite decide_True.
    + rewrite decide_False by naive_solver. destruct (c !! w'); simpl; [done|by rewrite lookup_empty].
  - by rewrite decide_False by naive_solver.
Qed.

Lemma elem_of_hm_values {K V} `{Countable K} (m : gmap K V) v :
  v ∈ hm_values m ↔ ∃ k, m !! k = Some v.
Proof.
  unfold hm_values. rewrite list_elem_of_fmap. split.
  - intros ([k v'] & -> & Hin). exists k. by apply elem_of_hm_iter.
  - intros [k Hk]. exists (k, v). by rewrite elem_of_hm_iter.
Qed.

Lemma elem_of_world_models sels (w : gmap Felt Model) m :
  m ∈ world_models sels w ↔ ∃ s, w !! s = Some m ∧ (sels = [] ∨ s ∈ sels).
Proof.
  unfold world_models. destruct sels as [|s0 sels].
  - rewrite elem_of_hm_values. naive_solver.
  - rewrite list_elem_of_omap. naive_solver.
Qed.
End model_lemmas.

(** ** Lemmas on the registry and the differences *)
Section erc_lemmas.
Context {DM : DashMap} {U : U256Ops} {HO : HashOrder}.

Lemma dm_get_registered (l : list TokenId) (r : dm TokenId TokenState) t :
  dm_get t (foldl (λ r t, dm_insert t Registered r) r l) =
    if decide (t ∈ l) then Some Registered else dm_get t r.
Proof.
  revert r. induction l as [|x l IH]; intros r; [done|].
  cbn [foldl]. rewrite IH, dm_get_insert. destruct (decide (t ∈ l)) as [Hin|Hni].
  - by rewrite decide_True by by right.
  - destruct (decide (t = x)) as [->|Hne].
    + by rewrite decide_True by by left.
    + by rewrite decide_False by (rewrite elem_of_cons; naive_solver).
Qed.

Lemma dm_get_reinsert {K} `{Countable K} {V} (l : list (K * V)) (r : dm K V) k :
  NoDup l.*1 →
  dm_get k (foldl (λ r kv, dm_insert kv.1 kv.2 r) r l) =
    match (list_to_map l : gmap K V) !! k with Some v => Some v | None => dm_get k r end.
Proof.
  revert r. induction l as [|[k' v] l IH]; intros r Hnd; simpl.
  { by rewrite lookup_empty. }
  apply NoDup_cons in Hnd as [Hni Hnd]. rewrite IH by done. rewrite lookup_insert, dm_get_insert.
  destruct (decide (k' = k)) as [->|Hne].
  - rewrite (not_elem_of_list_to_map_1 l k) by done. by rewrite decide_True.
  - by rewrite (decide_False (P := k = k')) by congruence.
Qed.

Lemma dm_iter_map {K} `{Countable K} {V} (m : dm K V) k :
  (list_to_map (dm_iter m) : gmap K V) !! k = dm_get k m.
Proof.
  apply option_eq. intros v. rewrite <- dm_iter_get. split.
  - apply elem_of_list_to_map_2.
  - apply elem_of_list_to_map_1, dm_iter_nodup.
Qed.

Lemma load_token_registry_get (tokens : gset TokenId) r t :
  load_token_registry (Ok tokens) = Ok r →
  dm_get t r = if decide (t ∈ tokens) then Some Registered else None.
Proof.
  intros [= <-]. rewrite dm_get_registered, dm_get_new.
  repeat case_decide; rewrite elem_of_hs_iter in *; done.
Qed.
End erc_lemmas.

(** ** Balance differences as atomic updates

    A transfer makes up to three atomic updates of the shared maps; between
    them, updates of other transfers may happen. *)
Section diffs.
Context {DM : DashMap} {U : U256Ops} {HO : HashOrder}.
Local Open Scope Z_scope.
Implicit Types c : ErcCache.

Inductive diff_op : Type :=
| BalanceOp (b : BalanceId) (plus : bool) (v : U256)
| SupplyOp (t : TokenId) (plus : bool) (v : U256).

(** [entry(k).and_modify(|x| *x ±= v).or_insert(±v)] *)
Definition bump {K} `{Countable K} (k : K) (plus : bool) (v : U256) (m : dm K I256)
  : option (dm K I256) :=
  entry_modify_or_insert k
    (λ x, if plus then add_assign x (from_u256 v) else sub_assign x (from_u256 v))
    (mkI256 v (negb plus)) m.

Definition run_op (o : diff_op) c : option ErcCache :=
  match o with
  | BalanceOp b plus v => on_balances (bump b plus v) c
  | SupplyOp t plus v => on_supply (bump t plus v) c
  end.

Fixpoint run_ops (os : list diff_op) c : option ErcCache :=
  match os with [] => Some c | o :: os => c ← run_op o c; run_ops os c end.

Record transfer : Type := mkTransfer {
  tr_token : TokenId; tr_from : Felt; tr_to : Felt; tr_value : U256
}.

Definition transfer_ops (x : transfer) : list diff_op :=
  (if decide (tr_from x ≠ FELT_ZERO)
   then [BalanceOp (mkBalanceId (tr_from x) (tr_token x)) false (tr_value x)] else []) ++
  (if decide (tr_to x ≠ FELT_ZERO)
   then [BalanceOp (mkBalanceId (tr_to x) (tr_token x)) true (tr_value x)] else []) ++
  (if decide (tr_from x = FELT_ZERO ∧ tr_to x ≠ FELT_ZERO)
   then [SupplyOp (tr_token x) true (tr_value x)]
   else if decide (tr_from x ≠ FELT_ZERO ∧ tr_to x = FELT_ZERO)
   then [SupplyOp (tr_token x) false (tr_value x)] else []).

Lemma run_ops_app os1 os2 c : run_ops (os1 ++ os2) c = c ← run_ops os1 c; run_ops os2 c.
Proof. revert c. induction os1 as [|o os1 IH]; intros c; simpl; [done|]. destruct (run_op o c); simpl; [apply IH|done]. Qed.

Lemma update_balance_diff_ops t f to v c :
  erc_update_balance_diff t f to v c = run_ops (transfer_ops (mkTransfer t f to v)) c.
Proof.
  unfold transfer_ops. rewrite !run_ops_app. unfold erc_update_balance_diff. simpl.
  destruct (decide (f ≠ FELT_ZERO)), (decide (to ≠ FELT_ZERO)); simpl;
    try (destruct (on_balances _ c) as [c1|]; simpl; [|done]);
    try (destruct (on_balances _ c1) as [c2|]; simpl; [|done]);
    destruct (is_nft t); repeat case_decide; simpl; try done;
    by destruct (on_supply _ _).
Qed.

Definition zsum (l : list Z) : Z := foldr Z.add 0 l.

Lemma zsum_cons x l : zsum (x :: l) = x + zsum l.
Proof. done. Qed.

Lemma zsum_app l1 l2 : zsum (l1 ++ l2) = zsum l1 + zsum l2.
Proof. induction l1; simpl; [done|]. unfold zsum in *. simpl. lia. Qed.

Lemma zsum_snoc {A} (f : A → Z) l x : zsum (f <$> l ++ [x]) = zsum (f <$> l) + f x.
Proof. rewrite fmap_app, zsum_app. unfold zsum at 2. simpl. lia. Qed.

#[global] Instance zsum_perm : Proper ((≡ₚ) ==> (=)) zsum.
Proof. induction 1; unfold zsum in *; simpl; lia. Qed.

Definition signed (plus : bool) (v : Z) : Z := if plus then v else - v.

(** What an update adds to the difference of a balance, or of a supply. *)
Definition balance_delta (b : BalanceId) (o : diff_op) : Z :=
  match o with BalanceOp b' plus v => if decide (b' = b) then signed plus v else 0 | _ => 0 end.
Definition supply_delta (t : TokenId) (o : diff_op) : Z :=
  match o with SupplyOp t' plus v => if decide (t' = t) then signed plus v else 0 | _ => 0 end.

(** The integer a map holds for a key; an absent entry is no difference. *)
Definition diff_of {K} `{Countable K} (k : K) (m : dm K I256) : Z := from_option to_Z 0 (dm_get k m).

Definition ranged {K} `{Countable K} (m : dm K I256) : Prop :=
  ∀ k x, dm_get k m = Some x → in_range x.

Lemma bump_spec {K} `{Countable K} (k : K) plus v (m : dm K I256) :
  ranged m → 0 ≤ v → Z.abs (diff_of k m) + v ≤ U256_MAX →
  ∃ m', bump k plus v m = Some m' ∧ ranged m' ∧
    ∀ k', diff_of k' m' = diff_of k' m + if decide (k = k') then signed plus v else 0.
Proof.
  intros Hm Hv Hb. unfold bump, entry_modify_or_insert, diff_of in *.
  assert (∀ y, in_range y → ranged (dm_insert k y m)) as Hr.
  { intros y Hy k' x. rewrite dm_get_insert. case_decide; [by intros [= <-]|apply Hm]. }
  assert (∀ y, to_Z y = from_option to_Z 0 (dm_get k m) + signed plus v → ∀ k',
    from_option to_Z 0 (dm_get k' (dm_insert k y m)) =
    from_option to_Z 0 (dm_get k' m) + if decide (k = k') then signed plus v else 0) as Hd.
  { intros y Hy k'. rewrite dm_get_insert. destruct (decide (k' = k)) as [->|Hne].
    - by rewrite decide_True.
    - rewrite decide_False by done. lia. }
  assert (u256_ok v) as Hok by (unfold u256_ok; lia).
  destruct (dm_get k m) as [x|] eqn:Hg; simpl in *.
  - assert (∃ y, (if plus then add_assign x (from_u256 v) else sub_assign x (from_u256 v)) = Some y ∧
      to_Z y = to_Z x + signed plus v ∧ in_range y) as (y & -> & Hy & Hin).
    { assert (in_range (from_u256 v)) as Hiv by done.
      assert (to_Z (from_u256 v) = v) as Hzv by done.
      destruct plus; unfold add_assign, sub_assign, signed in *.
      - destruct (add_spec x (from_u256 v)) as (y & Hy & Hz & Hin & _);
          [by eapply Hm|done|rewrite Hzv; unfold fits; lia|]. exists y. rewrite Hz, Hzv. auto.
      - destruct (sub_spec x (from_u256 v)) as (y & Hy & Hz & Hin & _);
          [by eapply Hm|done|rewrite Hzv; unfold fits; lia|]. exists y. rewrite Hz, Hzv. auto. }
    exists (dm_insert k y m). auto.
  - eexists. split; [done|]. split; [by apply Hr|]. apply Hd.
    unfold signed, to_Z. destruct plus; simpl; lia.
Qed.

Record tracks (os : list diff_op) c : Prop := {
  tr_balances : ranged (balances_diff c);
  tr_supplies : ranged (total_supply_diff c);
  tr_balance b : diff_of b (balances_diff c) = zsum (balance_delta b <$> os);
  tr_supply t : diff_of t (total_supply_diff c) = zsum (supply_delta t <$> os)
}.

Definition op_value (o : diff_op) : Z := match o with BalanceOp _ _ v | SupplyOp _ _ v => v end.

(** The volume an account, or a supply, moves. *)
Definition volume_ok (os : list diff_op) : Prop :=
  Forall (λ o, 0 ≤ op_value o) os ∧
  (∀ b, zsum (Z.abs <$> (balance_delta b <$> os)) ≤ U256_MAX) ∧
  (∀ t, zsum (Z.abs <$> (supply_delta t <$> os)) ≤ U256_MAX).

Lemma zsum_abs_le l : Z.abs (zsum l) ≤ zsum (Z.abs <$> l).
Proof. induction l as [|x l IH]; [done|].
rewrite fmap_cons, !zsum_cons. lia. Qed.

Lemma zsum_abs_nonneg l : 0 ≤ zsum (Z.abs <$> l).
Proof. pose proof (zsum_abs_le l). lia. Qed.

Lemma run_op_tracks os o c :
  tracks os c → volume_ok (os ++ [o]) →
  ∃ c', run_op o c = Some c' ∧ tracks (os ++ [o]) c' ∧ token_id_registry c' = token_id_registry c.
Proof.
  intros [Hb Hs Hbz Hsz] (Hv & Hvb & Hvs). apply Forall_app in Hv as [_ Hv].
  rewrite Forall_singleton in Hv. destruct o as [b plus v|t plus v]; simpl in *.
  - destruct (bump_spec b plus v (balances_diff c)) as (m' & Hm & Hr & Hd); [done..| |].
    { specialize (Hvb b). rewrite !fmap_app, zsum_app in Hvb. unfold zsum in Hvb at 2. simpl in Hvb.
      rewrite decide_True in Hvb by done. rewrite Hbz.
      pose proof (zsum_abs_le (balance_delta b <$> os)). unfold signed in Hvb. destruct plus; lia. }
    exists (set_balances m' c). unfold on_balances. rewrite Hm. split_and!; [done| |done]. split; simpl.
    + done.
    + done.
    + intros b'. by rewrite Hd, Hbz, zsum_snoc.
    + intros t. rewrite Hsz, zsum_snoc. simpl. lia.
  - destruct (bump_spec t plus v (total_supply_diff c)) as (m' & Hm & Hr & Hd); [done..| |].
    { specialize (Hvs t). rewrite !fmap_app, zsum_app in Hvs. unfold zsum in Hvs at 2. simpl in Hvs.
      rewrite decide_True in Hvs by done. rewrite Hsz.
      pose proof (zsum_abs_le (supply_delta t <$> os)). unfold signed in Hvs. destruct plus; lia. }
    exists (set_supply m' c). unfold on_supply. rewrite Hm. split_and!; [done| |done]. split; simpl.
    + done.
    + done.
    + intros b. rewrite Hbz, zsum_snoc. simpl. lia.
    + intros t'. by rewrite Hd, Hsz, zsum_snoc.
Qed.

Lemma volume_ok_app os1 os2 : volume_ok (os1 ++ os2) → volume_ok os1.
Proof.
  intros (Hv & Hb & Hs). apply Forall_app in Hv as [Hv _]. split_and!; [done|..].
  - intros b. specialize (Hb b). rewrite !fmap_app, zsum_app in Hb.
    pose proof (zsum_abs_nonneg (balance_delta b <$> os2)). lia.
  - intros t. specialize (Hs t). rewrite !fmap_app, zsum_app in Hs.
    pose proof (zsum_abs_nonneg (supply_delta t <$> os2)). lia.
Qed.

Lemma run_ops_tracks done_ os c :
  tracks done_ c → volume_ok (done_ ++ os) →
  ∃ c', run_ops os c = Some c' ∧ tracks (done_ ++ os) c' ∧ token_id_registry c' = token_id_registry c.
Proof.
  revert done_ c. induction os as [|o os IH]; intros done_ c Ht Hv.
  { exists c. by rewrite app_nil_r. }
  rewrite (app_assoc done_ [o] os : done_ ++ o :: os = _) in Hv |- *.
  destruct (run_op_tracks done_ o c Ht) as (c1 & Hc1 & Ht1 & Hr1); [by apply volume_ok_app in Hv|].
  destruct (IH _ _ Ht1 Hv) as (c2 & Hc2 & Ht2 & Hr2).
  exists c2. simpl. rewrite Hc1. simpl. split_and!; [done..|congruence].
Qed.

#[global] Instance volume_ok_perm : Proper ((≡ₚ) ==> iff) volume_ok.
Proof.
  intros os1 os2 Hp. unfold volume_ok. rewrite Hp.
  split; intros (H1 & H2 & H3); (split_and!; [done|..]); intros x; specialize (H2 x) || specialize (H3 x).
  all: by rewrite Hp in * || by rewrite <- Hp in *.
Qed.
End diffs.

(** ** Registration locks *)
Section locks.
Context {DM : DashMap}.
Implicit Types c : ErcCache.

(** The mutexes of the registry were allocated, each for one token. *)
Record lock_wf c : Prop := {
  lock_allocated t m : dm_get t (token_id_registry c) = Some (Registering m) → m < next_mutex c;
  lock_inj t t' m : dm_get t (token_id_registry c) = Some (Registering m) →
    dm_get t' (token_id_registry c) = Some (Registering m) → t = t'
}.

(** The calls handlers make on the registry. *)
Inductive lock_call : Type := CallLock (t : TokenId) | CallMark (t : TokenId).

Definition run_call c (k : lock_call) : ErcCache :=
  match k with
  | CallLock t => (erc_get_token_registration_lock t c).2
  | CallMark t => erc_mark_token_registered t c
  end.

Lemma lock_cases t c :
  (∃ m, dm_get t (token_id_registry c) = Some (Registering m) ∧
     erc_get_token_registration_lock t c = (Some m, c)) ∨
  (dm_get t (token_id_registry c) = Some Registered ∧
     erc_get_token_registration_lock t c = (None, c)) ∨
  ((∀ s, dm_get t (token_id_registry c) = Some s → s = NotRegistered) ∧
     erc_get_token_registration_lock t c = start_registering t c).
Proof.
  unfold erc_get_token_registration_lock. destruct (dm_get t _) as [[]|] eqn:Ht; eauto 10.
  - right; right. split; [|done]. by intros ? [= <-].
  - right; right. split; [|done]. by intros ? [=].
Qed.

Lemma run_call_wf c k : lock_wf c → lock_wf (run_call c k).
Proof.
  intros [Ha Hi]. destruct k as [t|t]; simpl.
  - destruct (lock_cases t c) as [(m & _ & ->)|[[_ ->]|[_ ->]]]; simpl; [done..|]. split; simpl.
    + intros t' m. rewrite dm_get_insert. case_decide; [intros [= <-]; lia|].
      intros Hm. apply Ha in Hm. lia.
    + intros t1 t2 m. rewrite !dm_get_insert. repeat case_decide; subst; try done.
      * intros [= <-] Hm. apply Ha in Hm. lia.
      * intros Hm [= <-]. apply Ha in Hm. lia.
      * by apply Hi.
  - split; simpl.
    + intros t' m. rewrite dm_get_insert. case_decide; [done|]. apply Ha.
    + intros t1 t2 m. rewrite !dm_get_insert. repeat case_decide; try done. apply Hi.
Qed.

Lemma run_calls_keep calls c t m :
  lock_wf c → CallMark t ∉ calls → dm_get t (token_id_registry c) = Some (Registering m) →
  lock_wf (foldl run_call c calls) ∧
  dm_get t (token_id_registry (foldl run_call c calls)) = Some (Registering m).
Proof.
  revert c. induction calls as [|k calls IH]; intros c Hwf Hk Hm; [done|]. simpl.
  apply not_elem_of_cons in Hk as [Hk Hks]. apply IH; [by apply run_call_wf|done|].
  destruct k as [t'|t']; simpl.
  - destruct (lock_cases t' c) as [(m' & _ & ->)|[[_ ->]|[Hn ->]]]; simpl; [done..|].
    rewrite dm_get_insert. case_decide; [|done]. subst. by apply Hn in Hm.
  - rewrite dm_get_insert. rewrite decide_False by congruence. done.
Qed.
End locks.

(** ** Net effect of transfers *)
Section transfers.
Local Open Scope Z_scope.

Definition paid (b : BalanceId) (x : transfer) : Z :=
  if decide (b = mkBalanceId (tr_from x) (tr_token x)) then tr_value x else 0.
Definition received (b : BalanceId) (x : transfer) : Z :=
  if decide (b = mkBalanceId (tr_to x) (tr_token x)) then tr_value x else 0.
Definition minted (t : TokenId) (x : transfer) : Z :=
  if decide (tr_token x = t ∧ tr_from x = FELT_ZERO ∧ tr_to x ≠ FELT_ZERO) then tr_value x else 0.
Definition burned (t : TokenId) (x : transfer) : Z :=
  if decide (tr_token x = t ∧ tr_from x ≠ FELT_ZERO ∧ tr_to x = FELT_ZERO) then tr_value x else 0.

Definition zsum_over {A} (f : A → Z) (l : list A) : Z := zsum (f <$> l).

Lemma balance_delta_transfer b x :
  account_address b ≠ FELT_ZERO →
  zsum (balance_delta b <$> transfer_ops x) = received b x - paid b x.
Proof.
  intros Hb. destruct b as [a t], x as [t' f to v]. unfold transfer_ops, received, paid. simpl in *.
  repeat case_decide; simpl; repeat case_decide; unfold zsum; simpl; naive_solver lia.
Qed.

Lemma supply_delta_transfer t x :
  zsum (supply_delta t <$> transfer_ops x) = minted t x - burned t x.
Proof.
  destruct x as [t' f to v]. unfold transfer_ops, minted, burned. simpl in *.
  repeat case_decide; simpl; repeat case_decide; unfold zsum; simpl; naive_solver lia.
Qed.

Lemma zsum_bind {A} (g : diff_op → Z) (ops : A → list diff_op) (h : A → Z) l :
  (∀ x, zsum (g <$> ops x) = h x) → zsum (g <$> (l ≫= ops)) = zsum_over h l.
Proof.
  intros Hh. unfold zsum_over. induction l as [|x l IH]; [done|].
  rewrite bind_cons, fmap_app, zsum_app, fmap_cons, zsum_cons, Hh, IH. done.
Qed.

Lemma zsum_over_minus {A} (f g : A → Z) l :
  zsum_over (λ x, f x - g x) l = zsum_over f l - zsum_over g l.
Proof.
  unfold zsum_over. induction l as [|x l IH]; [done|]. rewrite !fmap_cons, !zsum_cons, IH. lia.
Qed.

Lemma zsum_over_swap {A B} (f : A → B → Z) la lb :
  zsum_over (λ a, zsum_over (f a) lb) la = zsum_over (λ b, zsum_over (λ a, f a b) la) lb.
Proof.
  unfold zsum_over. induction lb as [|b lb IH].
  - induction la as [|a la IH]; [done|]. rewrite fmap_cons, zsum_cons, IH. done.
  - rewrite fmap_cons, zsum_cons, <- IH. clear IH. induction la as [|a la IH]; [done|].
    rewrite !fmap_cons, !zsum_cons, IH. lia.
Qed.

Lemma zsum_over_ext {A} (f g : A → Z) l : (∀ x, x ∈ l → f x = g x) → zsum_over f l = zsum_over g l.
Proof.
  unfold zsum_over. induction l as [|x l IH]; intros Hfg; [done|].
  rewrite !fmap_cons, !zsum_cons, (Hfg x) by left. rewrite IH; [done|]. intros y Hy. apply Hfg. by right.
Qed.

(** Exactly one of the accounts is [a]. *)
Lemma zsum_over_single (a : Felt) v accounts :
  NoDup accounts → a ∈ accounts → zsum_over (λ x, if decide (x = a) then v else 0) accounts = v.
Proof.
  unfold zsum_over. induction 1 as [|x l Hni Hnd IH]; [by intros ?%not_elem_of_nil|].
  rewrite elem_of_cons, fmap_cons, zsum_cons. intros [->|Hin].
  - rewrite decide_True by done.
    assert (zsum ((λ x0, if decide (x0 = x) then v else 0) <$> l) = 0) as ->; [|lia].
    clear -Hni. induction l as [|y l IH]; [done|]. apply not_elem_of_cons in Hni as [Hne Hni].
    rewrite fmap_cons, zsum_cons, IH by done. by rewrite decide_False.
  - rewrite IH by done. by rewrite decide_False by (intros ->; done).
Qed.

Lemma zsum_over_absent (a : Felt) v accounts :
  a ∉ accounts → zsum_over (λ x, if decide (x = a) then v else 0) accounts = 0.
Proof.
  unfold zsum_over. induction accounts as [|y l IH]; [done|]. intros [Hne Hni]%not_elem_of_cons.
  rewrite fmap_cons, zsum_cons, IH by done. by rewrite decide_False.
Qed.

(** The accounts that hold a token across [ts] cover its transfers. *)
Definition covers (accounts : list Felt) (t : TokenId) (ts : list transfer) : Prop :=
  NoDup accounts ∧ (FELT_ZERO ∉ accounts) ∧
  ∀ x, x ∈ ts → tr_token x = t →
    (tr_from x ≠ FELT_ZERO → tr_from x ∈ accounts) ∧ (tr_to x ≠ FELT_ZERO → tr_to x ∈ accounts).

Lemma sum_over_accounts accounts t ts x :
  covers accounts t ts → x ∈ ts →
  zsum_over (λ a, received (mkBalanceId a t) x - paid (mkBalanceId a t) x) accounts =
    minted t x - burned t x.
Proof.
  intros (Hnd & Hz & Hc) Hx. specialize (Hc x Hx). destruct x as [t' f to v].
  unfold received, paid, minted, burned. simpl in *. rewrite zsum_over_minus.
  destruct (decide (t' = t)) as [->|Hne].
  - assert (∀ y, zsum_over (λ a, if decide (mkBalanceId a t = mkBalanceId y t) then v else 0) accounts
      = zsum_over (λ a, if decide (a = y) then v else 0) accounts) as Heq.
    { intros y. apply zsum_over_ext. intros a _. repeat case_decide; naive_solver. }
    rewrite !Heq. destruct Hc as [Hf Ht]; [done|].
    destruct (decide (f = FELT_ZERO)) as [->|Hf0], (decide (to = FELT_ZERO)) as [->|Ht0];
      repeat match goal with
      | |- context [zsum_over (λ x, if decide (x = FELT_ZERO) then _ else _) _] =>
          rewrite (zsum_over_absent FELT_ZERO) by done
      end;
      rewrite ?(zsum_over_single f) by auto; rewrite ?(zsum_over_single to) by auto;
      repeat case_decide; naive_solver lia.
  - assert (∀ y, zsum_over (λ a, if decide (mkBalanceId a t = mkBalanceId y t') then v else 0) accounts
      = zsum_over (λ a : Felt, 0) accounts) as Heq.
    { intros y. apply zsum_over_ext. intros a _. by rewrite decide_False by congruence. }
    rewrite !Heq. repeat case_decide; naive_solver lia.
Qed.
End transfers.

(** ** Properties *)
Section properties.
Context `{DojoTypes} {DM : DashMap} {U : U256Ops} {HO : HashOrder}.
Local Open Scope Z_scope.

(** C7: the concurrent transfers of a batch are accounted for exactly. Starting
    from cleared differences, in every interleaving of the atomic updates of any
    list of transfers (any order of the updates at all), the difference kept for
    an account is what it received minus what it paid, the difference kept for a
    token's supply is what was minted minus what was burned, and nothing
    panics, provided the volume each balance moves fits in 256 bits. *)
Theorem balance_diffs_exact (ts : list transfer) (ops : list diff_op) (c : ErcCache) :
  (∀ b, dm_get b (balances_diff c) = None) → (∀ t, dm_get t (total_supply_diff c) = None) →
  ops ≡ₚ (ts ≫= transfer_ops) → volume_ok (ts ≫= transfer_ops) →
  ∃ c', run_ops ops c = Some c' ∧
    (∀ b, account_address b ≠ FELT_ZERO →
       diff_of b (balances_diff c') = zsum_over (received b) ts - zsum_over (paid b) ts) ∧
    (∀ t, diff_of t (total_supply_diff c') = zsum_over (minted t) ts - zsum_over (burned t) ts).
Proof.
  intros Hb Ht Hp Hv. rewrite <- Hp in Hv.
  destruct (run_ops_tracks [] ops c) as (c' & Hc & [_ _ Hbz Hsz] & _); [|done|].
  { split; [intros b x; by rewrite Hb|intros t x; by rewrite Ht|..].
    - intros b. unfold diff_of. by rewrite Hb.
    - intros t. unfold diff_of. by rewrite Ht. }
  exists c'. simpl in *. split_and!; [done|..].
  - intros b Hne. rewrite Hbz, Hp, (zsum_bind _ _ (λ x, received b x - paid b x)).
    + apply zsum_over_minus.
    + intros x. by apply balance_delta_transfer.
  - intros t. rewrite Hsz, Hp, (zsum_bind _ _ (λ x, minted t x - burned t x)).
    + apply zsum_over_minus.
    + apply supply_delta_transfer.
Qed.

(** Tokens are conserved: summed over the accounts that took part, the
    balance differences of a token add up to the difference of its supply,
    whether the token is an ERC-20 contract or an NFT. *)
Theorem transfers_conserve (ts : list transfer) (c c' : ErcCache) (t : TokenId) accounts :
  (∀ b, dm_get b (balances_diff c) = None) → (∀ t, dm_get t (total_supply_diff c) = None) →
  volume_ok (ts ≫= transfer_ops) → covers accounts t ts →
  foldl (λ o x, c ← o;
    erc_update_balance_diff (tr_token x) (tr_from x) (tr_to x) (tr_value x) c) (Some c) ts = Some c' →
  zsum_over (λ a, diff_of (mkBalanceId a t) (balances_diff c')) accounts =
    diff_of t (total_supply_diff c').
Proof.
  intros Hb Ht Hv Hcov Hrun.
  assert (run_ops (ts ≫= transfer_ops) c = Some c') as Hops.
  { rewrite <- Hrun. clear. revert c. induction ts as [|[tk f to v] ts IH]; intros c; [done|].
    rewrite bind_cons, run_ops_app. simpl. rewrite update_balance_diff_ops.
    destruct (run_ops (transfer_ops _) c) as [c1|]; simpl; [apply IH|].
    clear. induction ts; done. }
  destruct (run_ops_tracks [] (ts ≫= transfer_ops) c) as (c'' & Hc & [_ _ Hbz Hsz] & _); [|done|].
  { split; [intros b x; by rewrite Hb|intros k x; by rewrite Ht|..].
    - intros b. unfold diff_of. by rewrite Hb.
    - intros k. unfold diff_of. by rewrite Ht. }
  simpl in *. simplify_eq. rewrite Hsz, (zsum_bind _ _ _ _ (supply_delta_transfer t)).
  destruct Hcov as (Hnd & Hz & Hc').
  rewrite (zsum_over_ext _
    (λ a, zsum_over (λ x, received (mkBalanceId a t) x - paid (mkBalanceId a t) x) ts)).
  - rewrite zsum_over_swap. apply zsum_over_ext. intros x Hx. by apply (sum_over_accounts _ _ ts).
  - intros a Ha. rewrite Hbz. apply zsum_bind. intros x. apply balance_delta_transfer. simpl.
    by intros ->.
Qed.

(** C17: [reset_to_committed_storage] leaves a cache that says exactly what the
    storage committed: a token is registered if and only if the storage has it,
    no balance or supply difference of the rolled-back batch remains, no model
    is cached. When the storage cannot be read the differences and the models
    are gone too and the registry is as it was. *)
Theorem reset_restores_committed (answer : outcome StorageError (gset TokenId)) (c : InMemoryCache) :
  let '(r, c') := reset_to_committed_storage answer c in
  balances_diff_map c' = ∅ ∧ total_supply_diff_map c' = ∅ ∧ model_cache (im_model_cache c') = ∅ ∧
  match answer with
  | Ok tokens => r = Ok tt ∧ ∀ t, is_token_registered t c' = true ↔ t ∈ tokens
  | Err e => r = Err (Storage e) ∧ ∀ t, is_token_registered t c' = is_token_registered t c
  | Panic => r = Panic ∧ ∀ t, is_token_registered t c' = is_token_registered t c
  end.
Proof.
  destruct c as [mc ec]. unfold reset_to_committed_storage, reset_token_registry, st_bind, st_zoom. simpl.
  assert (∀ (e : ErcCache), balances_diff e = dm_clear (balances_diff ec) →
    total_supply_diff e = dm_clear (total_supply_diff ec) → ∀ m,
    balances_diff_map (mkCache m e) = ∅ ∧ total_supply_diff_map (mkCache m e) = ∅) as Hclear.
  { intros e Hb Hs m. unfold balances_diff_map, total_supply_diff_map. simpl. rewrite Hb, Hs.
    split; apply map_eq; intros k; rewrite dm_iter_map, lookup_empty; apply dm_get_clear. }
  unfold erc_reset_token_registry. destruct answer as [tokens|e|]; simpl.
  - pose proof (load_token_registry_get tokens
      (foldl (λ r t, dm_insert t Registered r) dm_new (hs_iter tokens))) as Hl.
    split_and!; [by apply Hclear..|done|done|]. intros t. unfold is_token_registered, erc_is_token_registered.
    simpl. rewrite dm_get_reinsert by apply dm_iter_nodup. rewrite dm_iter_map, (Hl t eq_refl).
    case_decide; [done|]. rewrite dm_get_clear. done.
  - split_and!; [by apply Hclear..|done|done|done].
  - split_and!; [by apply Hclear..|done|done|done].
Qed.

(** C19: [models] returns exactly the cached models of the requested worlds with
    the requested selectors, an empty list of worlds or selectors standing for
    all of them; and [register_model] makes [model] answer with the model
    registered, leaving every other answer as it was. *)
Theorem model_cache_correct (c : ModelCache) :
  (∀ worlds selectors m, m ∈ models worlds selectors c ↔
     ∃ w s, (x ← model_cache c !! w; x !! s) = Some m ∧
       (worlds = [] ∨ w ∈ worlds) ∧ (selectors = [] ∨ s ∈ selectors)) ∧
  (∀ w s m w' s', model w' s' (set w s m c) =
     if decide (w' = w ∧ s' = s) then Ok m else model w' s' c).
Proof.
  split.
  - intros worlds selectors m. unfold models. destruct worlds as [|w0 worlds].
    + rewrite list_elem_of_bind. setoid_rewrite elem_of_world_models.
      setoid_rewrite elem_of_hm_values. setoid_rewrite bind_Some. naive_solver.
    + rewrite list_elem_of_bind. setoid_rewrite elem_of_world_models.
      setoid_rewrite list_elem_of_omap. setoid_rewrite bind_Some. naive_solver.
  - intros w s m w' s'. unfold model, set. simpl. rewrite insert_model_lookup. by case_decide.
Qed.

(** The registration lock of a token is one mutex for all its handlers: a
    call returns no lock exactly when the token is registered; otherwise every
    later call for the token returns the same mutex, whatever calls for any
    token come in between, until the token is marked as registered, and no call
    for another token returns that mutex. *)
Theorem registration_lock_unique (t : TokenId) (c : ErcCache) :
  lock_wf c →
  match erc_get_token_registration_lock t c with
  | (None, c') => erc_is_token_registered t c = true ∧ c' = c
  | (Some m, c') => erc_is_token_registered t c = false ∧
      ∀ calls, CallMark t ∉ calls →
        (erc_get_token_registration_lock t (foldl run_call c' calls)).1 = Some m ∧
        ∀ t', t' ≠ t → (erc_get_token_registration_lock t' (foldl run_call c' calls)).1 ≠ Some m
  end.
Proof.
  intros Hwf. unfold erc_is_token_registered.
  assert (∀ c' m, lock_wf c' → dm_get t (token_id_registry c') = Some (Registering m) →
    ∀ calls, CallMark t ∉ calls →
    (erc_get_token_registration_lock t (foldl run_call c' calls)).1 = Some m ∧
    ∀ t', t' ≠ t → (erc_get_token_registration_lock t' (foldl run_call c' calls)).1 ≠ Some m) as Hkeep.
  { intros c' m Hwf' Hm calls Hcalls.
    destruct (run_calls_keep calls c' t m Hwf' Hcalls Hm) as [Hw Hg].
    set (c'' := foldl run_call c' calls) in *. split.
    - unfold erc_get_token_registration_lock. by rewrite Hg.
    - intros t' Hne. destruct (lock_cases t' c'') as [(m' & Hm' & ->)|[[_ ->]|[_ ->]]]; simpl; [|done|].
      + intros [= ->]. by eapply Hne, lock_inj.
      + intros [= Heq]. apply (lock_allocated _ Hw) in Hg. lia. }
  destruct (lock_cases t c) as [(m & Hm & Hl)|[[Hm Hl]|[Hn Hl]]]; rewrite Hl.
  - rewrite Hm. split; [done|]. by apply Hkeep.
  - by rewrite Hm.
  - simpl. split.
    + destruct (dm_get t (token_id_registry c)) as [s|]; [|done]. by rewrite (Hn s eq_refl).
    + apply Hkeep.
      * replace (mkErc _ _ _ _) with (run_call c (CallLock t)) by (simpl; by rewrite Hl).
        by apply run_call_wf.
      * simpl. rewrite dm_get_insert. by rewrite decide_True.
Qed.
End properties.

(** ** Witnesses *)
Section witnesses.
#[local] Existing Instances gmap_dashmap u256_checked canonical_order.
Local Open Scope Z_scope.

Definition empty_erc : ErcCache := mkErc dm_new dm_new dm_new 0.

(** A mint to account 1, a transfer from 1 to 2, and a burn by 2. *)
Definition some_transfers : list transfer :=
  [mkTransfer (TokenContract 9) 0 1 100; mkTransfer (TokenContract 9) 1 2 30;
   mkTransfer (TokenContract 9) 2 0 10].

Definition accounts_of_transfers : list Felt := [1; 2].

Lemma volume_ok_bound (ops : list diff_op) :
  Forall (λ o, 0 ≤ op_value o) ops → zsum_over op_value ops ≤ U256_MAX → volume_ok ops.
Proof.
  intros Hv Hs. assert (∀ g : diff_op → Z, (∀ o, 0 ≤ op_value o → Z.abs (g o) ≤ op_value o) →
    zsum (Z.abs <$> (g <$> ops)) ≤ zsum_over op_value ops) as Hle.
  { intros g Hg. unfold zsum_over. clear Hs. induction Hv as [|o ops Ho _ IH]; [done|].
    rewrite !fmap_cons, !zsum_cons. specialize (Hg o Ho). lia. }
  split_and!; [done|..].
  - intros b. etrans; [apply Hle|done]. intros [b' p v|t p v] Ho; simpl in *; [|lia].
    case_decide; [|lia]. unfold signed. destruct p; lia.
  - intros t. etrans; [apply Hle|done]. intros [b' p v|t' p v] Ho; simpl in *; [lia|].
    case_decide; [|lia]. unfold signed. destruct p; lia.
Qed.

Lemma some_volume_ok : volume_ok (some_transfers ≫= transfer_ops).
Proof.
  apply volume_ok_bound.
  - vm_compute. repeat constructor; discriminate.
  - vm_compute. discriminate.
Qed.

Lemma balance_diffs_exact_witness :
  ∃ c', run_ops (reverse (some_transfers ≫= transfer_ops)) empty_erc = Some c' ∧
    diff_of (mkBalanceId 1 (TokenContract 9)) (balances_diff c') = 70 ∧
    diff_of (TokenContract 9) (total_supply_diff c') = 90.
Proof.
  destruct (balance_diffs_exact some_transfers (reverse (some_transfers ≫= transfer_ops)) empty_erc)
    as (c' & Hc & Hb & Hs).
  - intros b. reflexivity.
  - intros t. reflexivity.
  - apply reverse_Permutation.
  - apply some_volume_ok.
  - exists c'. split; [exact Hc|]. split.
    + rewrite Hb by discriminate. reflexivity.
    + rewrite Hs. reflexivity.
Defined.

Lemma some_covers : covers accounts_of_transfers (TokenContract 9) some_transfers.
Proof.
  split_and!; [by apply (bool_decide_unpack _)|by apply (bool_decide_unpack _)|].
  intros x Hx. apply list_elem_of_In in Hx. simpl in Hx. intros _.
  destruct Hx as [<-|[<-|[<-|[]]]]; simpl; (split; intros ?; [try done|try done]);
    apply list_elem_of_In; simpl; tauto.
Qed.

Lemma transfers_conserve_witness :
  ∃ c', foldl (λ o x, c ← o;
      erc_update_balance_diff (tr_token x) (tr_from x) (tr_to x) (tr_value x) c)
      (Some empty_erc) some_transfers = Some c' ∧
    zsum_over (λ a, diff_of (mkBalanceId a (TokenContract 9)) (balances_diff c'))
      accounts_of_transfers = diff_of (TokenContract 9) (total_supply_diff c').
Proof.
  eexists. split; [vm_compute; reflexivity|].
  apply (transfers_conserve some_transfers empty_erc _ (TokenContract 9) accounts_of_transfers).
  - intros b. reflexivity.
  - intros t. reflexivity.
  - apply some_volume_ok.
  - apply some_covers.
  - vm_compute. reflexivity.
Defined.

Lemma registration_lock_unique_witness :
  (erc_get_token_registration_lock (Nft 9 1) empty_erc).1 = Some 0%nat ∧
  (erc_get_token_registration_lock (Nft 9 2)
     (erc_get_token_registration_lock (Nft 9 1) empty_erc).2).1 ≠ Some 0%nat.
Proof.
  split; [reflexivity|].
  assert (lock_wf empty_erc) as Hwf.
  { split; intros t; intros; exfalso; match goal with H : dm_get t _ = _ |- _ =>
      unfold empty_erc in H; simpl in H; rewrite lookup_empty in H; discriminate H end. }
  pose proof (registration_lock_unique (Nft 9 1) empty_erc Hwf) as Hu.
  destruct Hu as [_ Hu]. apply (Hu [] (not_elem_of_nil _)). discriminate.
Defined.
End witnesses.

End Cache.
