(* ===== verification/Traits.v ===== *)
(** * Token traits ([crates/sqlite/sqlite/src/executor/erc.rs], the pure part)

    A token contract keeps, as a JSON object, how many of its tokens have each
    trait: trait type, then trait value, then count. The JSON values are those of
    [serde_json::Value]; its parser and printer are the class [SerdeJson]. *)

From S2P Require Import Prelude.
Local Open Scope Z_scope.
Local Open Scope torii_scope.

#[local] Set Warnings "-register-all".
(** A number is kept as what [as_u64] returns of it. *)
Inductive json : Type :=
| JNull
| JBool (b : bool)
| JNumber (n : option Z)
| JString (s : string)
| JArray (l : list json)
| JObject (m : gmap string json).

Definition json_get (key : string) (j : json) : option json :=
  match j with JObject m => m !! key | _ => None end.
Definition as_str (j : json) : option string := match j with JString s => Some s | _ => None end.
Definition as_u64 (j : json) : option Z := match j with JNumber n => n | _ => None end.

Class SerdeJson : Type := {
  json_from_str : string → option json;
  json_map_from_str : string → option (gmap string json);
  json_map_to_string : gmap string json → option string
}.

Module Traits.

Record TokenTrait : Type := mkTrait { trait_type : string; trait_value : string }.

#[global] Instance TokenTrait_eq_dec : EqDecision TokenTrait.
Proof. solve_decision. Defined.

Section operations.
Context `{SerdeJson}.

Definition extract_name_from_metadata (metadata : string) : option string :=
  if decide (metadata = "") then None
  else
    metadata_json ← json_from_str metadata;
    v ← json_get "name" metadata_json;
    s ← as_str v;
    if decide (s = "") then None else Some s.

(** One entry of the array of attributes. *)
Definition trait_of_attribute (attr : json) : option TokenTrait :=
  let trait_type :=
    match json_get "trait_type" attr with Some t => Some t | None => json_get "trait" attr end in
  match trait_type, json_get "value" attr with
  | Some trait_type, Some trait_value =>
      match as_str trait_type, as_str trait_value with
      | Some t, Some v => Some (mkTrait t v)
      | _, _ => None
      end
  | _, _ => None
  end.

Definition extract_traits_from_json (metadata : string) : option (list TokenTrait) :=
  metadata_json ← json_from_str metadata;
  Some match json_get "attributes" metadata_json with
       | Some (JArray attributes_array) => omap trait_of_attribute attributes_array
       | _ => []
       end.

(** The body of the loop that subtracts. *)
Definition subtract_trait (current_traits : gmap string json) (t : TokenTrait) : gmap string json :=
  match current_traits !! trait_type t with
  | Some (JObject trait_values_obj) =>
      let obj' :=
        match trait_values_obj !! trait_value t with
        | Some existing_count =>
            match as_u64 existing_count with
            | Some count_num =>
                if count_num >? 1
                then <[trait_value t := JNumber (Some (count_num - 1))]> trait_values_obj
                else delete (trait_value t) trait_values_obj
            | None => trait_values_obj
            end
        | None => trait_values_obj
        end in
      if decide (obj' = ∅) then delete (trait_type t) current_traits
      else <[trait_type t := JObject obj']> current_traits
  | _ => current_traits
  end.

(** The body of the loop that adds. *)
Definition add_trait (current_traits : gmap string json) (t : TokenTrait) : gmap string json :=
  let current_traits :=
    match current_traits !! trait_type t with
    | Some _ => current_traits
    | None => <[trait_type t := JObject ∅]> current_traits
    end in
  match current_traits !! trait_type t with
  | Some (JObject trait_values_obj) =>
      let obj' :=
        match trait_values_obj !! trait_value t with
        | Some existing_count =>
            match as_u64 existing_count with
            | Some count_num =>
                <[trait_value t := JNumber (Some (u64_add count_num 1))]> trait_values_obj
            | None => trait_values_obj
            end
        | None => <[trait_value t := JNumber (Some 1)]> trait_values_obj
        end in
      <[trait_type t := JObject obj']> current_traits
  | _ => current_traits
  end.

(** The two loops on the parsed object. *)
Definition apply_to_counts (current_traits : gmap string json)
    (add_traits subtract_traits : list TokenTrait) : gmap string json :=
  foldl add_trait (foldl subtract_trait current_traits subtract_traits) add_traits.

Definition apply_trait_operations (existing_traits : string)
    (add_traits subtract_traits : list TokenTrait) : option string :=
  json_map_to_string
    (apply_to_counts (default ∅ (json_map_from_str existing_traits)) add_traits subtract_traits).

Definition extract_traits_from_metadata (metadata existing_traits : string) : option string :=
  traits ← extract_traits_from_json metadata;
  apply_trait_operations existing_traits traits [].

Definition subtract_traits_from_metadata (metadata existing_traits : string) : option string :=
  traits ← extract_traits_from_json metadata;
  apply_trait_operations existing_traits [] traits.
End operations.

(** ** Counts *)

(** How many tokens have a trait, according to the object. *)
Definition trait_count (m : gmap string json) (t : TokenTrait) : Z :=
  match m !! trait_type t with
  | Some (JObject obj) => default 0 (j ← obj !! trait_value t; as_u64 j)
  | _ => 0
  end.

Definition occurrences (t : TokenTrait) (l : list TokenTrait) : Z :=
  Z.of_nat (length (filter (λ x, x = t) l)).

(** The objects the code produces: no empty trait type, every count positive. *)
Definition counts_wf (m : gmap string json) : Prop :=
  ∀ ty j, m !! ty = Some j → ∃ obj, j = JObject obj ∧ obj ≠ ∅ ∧
    ∀ v c, obj !! v = Some c → ∃ n, c = JNumber (Some n) ∧ 1 ≤ n ≤ u64_max.

(** The object kept for a trait type, and the count of a value in it. *)
Definition object_of (m : gmap string json) (ty : string) : gmap string json :=
  match m !! ty with Some (JObject obj) => obj | _ => ∅ end.
Definition count_in (obj : gmap string json) (v : string) : Z := default 0 (j ← obj !! v; as_u64 j).

Definition obj_wf (obj : gmap string json) : Prop :=
  ∀ v c, obj !! v = Some c → ∃ n, c = JNumber (Some n) ∧ 1 ≤ n ≤ u64_max.

Lemma trait_count_object m t : trait_count m t = count_in (object_of m (trait_type t)) (trait_value t).
Proof.
  unfold trait_count, object_of, count_in. destruct (m !! _) as [[]|]; try done; by rewrite lookup_empty.
Qed.

Lemma object_of_wf m ty : counts_wf m → obj_wf (object_of m ty).
Proof.
  intros Hm. unfold object_of. destruct (m !! ty) as [j|] eqn:Hj; [|by intros ??; rewrite lookup_empty].
  destruct (Hm ty j Hj) as (obj & -> & _ & Hobj). done.
Qed.

(** Storing an object for a trait type, an empty one by removing the type. *)
Definition store_object (ty : string) (obj : gmap string json) (m : gmap string json) : gmap string json :=
  if decide (obj = ∅) then delete ty m else <[ty := JObject obj]> m.

Lemma store_object_of ty obj m ty' :
  object_of (store_object ty obj m) ty' = if decide (ty' = ty) then obj else object_of m ty'.
Proof.
  unfold object_of, store_object. destruct (decide (obj = ∅)) as [->|Hne].
  - rewrite lookup_delete. repeat case_decide; congruence.
  - rewrite lookup_insert. repeat case_decide; congruence.
Qed.

Lemma store_object_wf ty obj m : counts_wf m → obj_wf obj → counts_wf (store_object ty obj m).
Proof.
  intros Hm Hobj ty' j. unfold store_object. case_decide as Hne.
  - rewrite lookup_delete. case_decide; [done|]. apply Hm.
  - rewrite lookup_insert. case_decide; [|apply Hm]. intros [= <-]. eauto.
Qed.

Definition sub_obj (v : string) (obj : gmap string json) : gmap string json :=
  match obj !! v with
  | Some c => match as_u64 c with
              | Some n => if n >? 1 then <[v := JNumber (Some (n - 1))]> obj else delete v obj
              | None => obj
              end
  | None => obj
  end.

Definition add_obj (v : string) (obj : gmap string json) : gmap string json :=
  match obj !! v with
  | Some c => match as_u64 c with
              | Some n => <[v := JNumber (Some (u64_add n 1))]> obj
              | None => obj
              end
  | None => <[v := JNumber (Some 1)]> obj
  end.

Lemma store_object_same ty m : counts_wf m → store_object ty (object_of m ty) m = m.
Proof.
  intros Hm. unfold store_object, object_of. destruct (m !! ty) as [j|] eqn:Hj.
  - destruct (Hm ty j Hj) as (obj & -> & Hne & _). rewrite decide_False by done. by apply insert_id.
  - rewrite decide_True by done. by apply delete_id.
Qed.

Lemma subtract_trait_store m t : counts_wf m →
  subtract_trait m t = store_object (trait_type t) (sub_obj (trait_value t) (object_of m (trait_type t))) m.
Proof.
  intros Hm. unfold subtract_trait. destruct (m !! trait_type t) as [j|] eqn:Hj.
  - destruct (Hm _ j Hj) as (obj & -> & _). unfold object_of. rewrite Hj. done.
  - unfold object_of. rewrite Hj. unfold sub_obj. rewrite lookup_empty. unfold store_object.
    rewrite decide_True by done. by rewrite delete_id.
Qed.

Lemma add_obj_ne v obj : add_obj v obj ≠ ∅ ∨ (∃ c, obj !! v = Some c).
Proof.
  unfold add_obj. destruct (obj !! v) as [c|]; [by right; eauto|]. left. apply insert_non_empty.
Qed.

Lemma add_trait_store m t : counts_wf m →
  add_trait m t = store_object (trait_type t) (add_obj (trait_value t) (object_of m (trait_type t))) m.
Proof.
  intros Hm. unfold add_trait. destruct (m !! trait_type t) as [j|] eqn:Hj.
  - rewrite Hj. destruct (Hm _ j Hj) as (obj & -> & Hne & Hobj). unfold object_of. rewrite Hj.
    unfold store_object. rewrite decide_False; [done|].
    unfold add_obj. destruct (obj !! trait_value t) as [c|] eqn:Hc; [|apply insert_non_empty].
    destruct (Hobj _ _ Hc) as (n & -> & _). simpl. apply insert_non_empty.
  - rewrite lookup_insert_eq. rewrite lookup_empty. unfold object_of. rewrite Hj.
    unfold store_object, add_obj. rewrite lookup_empty, decide_False by apply insert_non_empty.
    by rewrite insert_insert_eq.
Qed.

Lemma count_sub_obj v obj v' : obj_wf obj →
  count_in (sub_obj v obj) v' = if decide (v' = v) then Z.max 0 (count_in obj v - 1) else count_in obj v'.
Proof.
  intros Hobj. unfold count_in, sub_obj. destruct (obj !! v) as [c|] eqn:Hc; simpl.
  - destruct (Hobj v c Hc) as (n & -> & Hn). simpl. destruct (Z.gtb_spec n 1).
    + rewrite lookup_insert. repeat case_decide; subst; try congruence; simpl; lia.
    + rewrite lookup_delete. repeat case_decide; subst; try congruence; simpl; lia.
  - case_decide; [|done]. subst. rewrite Hc. simpl. lia.
Qed.

Lemma count_add_obj v obj v' : obj_wf obj → count_in obj v < u64_max →
  count_in (add_obj v obj) v' = if decide (v' = v) then count_in obj v + 1 else count_in obj v'.
Proof.
  intros Hobj Hb. unfold count_in, add_obj in *. destruct (obj !! v) as [c|] eqn:Hc; simpl in *.
  - destruct (Hobj v c Hc) as (n & -> & Hn). simpl in *. rewrite u64_add_small by lia.
    rewrite lookup_insert. repeat case_decide; subst; try congruence; done.
  - rewrite lookup_insert. repeat case_decide; subst; try congruence; done.
Qed.

Lemma sub_obj_wf v obj : obj_wf obj → obj_wf (sub_obj v obj).
Proof.
  intros Hobj v' c. unfold sub_obj. destruct (obj !! v) as [c0|] eqn:Hc; [|apply Hobj].
  destruct (Hobj v c0 Hc) as (n & -> & Hn). simpl. destruct (Z.gtb_spec n 1).
  - rewrite lookup_insert. case_decide; [intros [= <-]; eexists; split; [done|lia]|apply Hobj].
  - rewrite lookup_delete. case_decide; [done|apply Hobj].
Qed.

Lemma add_obj_wf v obj : obj_wf obj → count_in obj v < u64_max → obj_wf (add_obj v obj).
Proof.
  intros Hobj Hb v' c. unfold count_in, add_obj in *. destruct (obj !! v) as [c0|] eqn:Hc; simpl in *.
  - destruct (Hobj v c0 Hc) as (n & -> & Hn). simpl in *. rewrite u64_add_small by lia.
    rewrite lookup_insert. case_decide; [intros [= <-]; eexists; split; [done|lia]|apply Hobj].
  - rewrite lookup_insert. case_decide; [intros [= <-]; eexists; split; [done|unfold u64_max; lia]|].
    apply Hobj.
Qed.

Lemma subtract_trait_spec m t : counts_wf m →
  counts_wf (subtract_trait m t) ∧
  ∀ t', trait_count (subtract_trait m t) t' =
    if decide (t' = t) then Z.max 0 (trait_count m t - 1) else trait_count m t'.
Proof.
  intros Hm. rewrite subtract_trait_store by done. split.
  - by apply store_object_wf, sub_obj_wf, object_of_wf.
  - intros t'. rewrite !trait_count_object, store_object_of.
    destruct t as [ty v], t' as [ty' v']. simpl. destruct (decide (ty' = ty)) as [->|Hne].
    + rewrite count_sub_obj by by apply object_of_wf. repeat case_decide; congruence.
    + rewrite decide_False by congruence. done.
Qed.

Lemma add_trait_spec m t : counts_wf m → trait_count m t < u64_max →
  counts_wf (add_trait m t) ∧
  ∀ t', trait_count (add_trait m t) t' =
    if decide (t' = t) then trait_count m t + 1 else trait_count m t'.
Proof.
  intros Hm Hb. rewrite add_trait_store by done. rewrite trait_count_object in Hb. split.
  - apply store_object_wf; [done|]. by apply add_obj_wf; [apply object_of_wf|].
  - intros t'. rewrite !trait_count_object, store_object_of.
    destruct t as [ty v], t' as [ty' v']. simpl in *. destruct (decide (ty' = ty)) as [->|Hne].
    + rewrite count_add_obj by (by apply object_of_wf) || done. repeat case_decide; congruence.
    + rewrite decide_False by congruence. done.
Qed.

Lemma trait_occurrences_cons t x l :
  occurrences t (x :: l) = (if decide (x = t) then 1 else 0) + occurrences t l.
Proof. unfold occurrences. rewrite filter_cons. case_decide; simpl; lia. Qed.

Lemma trait_occurrences_nonneg t l : 0 ≤ occurrences t l.
Proof. unfold occurrences. lia. Qed.

Lemma trait_count_nonneg m t : counts_wf m → 0 ≤ trait_count m t.
Proof.
  intros Hm. rewrite trait_count_object. unfold count_in.
  destruct (object_of m (trait_type t) !! trait_value t) as [c|] eqn:Hc; simpl; [|lia].
  destruct (object_of_wf m (trait_type t) Hm _ _ Hc) as (n & -> & Hn). simpl. lia.
Qed.

Lemma foldl_subtract m l : counts_wf m →
  counts_wf (foldl subtract_trait m l) ∧
  ∀ t, trait_count (foldl subtract_trait m l) t = Z.max 0 (trait_count m t - occurrences t l).
Proof.
  revert m. induction l as [|x l IH]; intros m Hm.
  { split; [done|]. intros t. pose proof (trait_count_nonneg m t Hm). unfold occurrences. simpl. lia. }
  destruct (subtract_trait_spec m x Hm) as [Hwf Hc]. destruct (IH _ Hwf) as [Hwf' Hc']. split; [done|].
  intros t. simpl. rewrite Hc', Hc, trait_occurrences_cons. pose proof (trait_occurrences_nonneg t l).
  repeat case_decide; subst; try congruence; lia.
Qed.

Lemma foldl_add m l : counts_wf m → (∀ t, trait_count m t + occurrences t l ≤ u64_max) →
  counts_wf (foldl add_trait m l) ∧
  ∀ t, trait_count (foldl add_trait m l) t = trait_count m t + occurrences t l.
Proof.
  revert m. induction l as [|x l IH]; intros m Hm Hb.
  { split; [done|]. intros t. unfold occurrences. simpl. lia. }
  assert (trait_count m x < u64_max) as Hx.
  { specialize (Hb x). rewrite trait_occurrences_cons, decide_True in Hb by done.
    pose proof (trait_occurrences_nonneg x l). lia. }
  destruct (add_trait_spec m x Hm Hx) as [Hwf Hc].
  destruct (IH _ Hwf) as [Hwf' Hc'].
  { intros t. specialize (Hb t). rewrite trait_occurrences_cons in Hb. rewrite Hc.
    repeat case_decide; subst; try congruence; lia. }
  split; [done|]. intros t. simpl. rewrite Hc', Hc, trait_occurrences_cons.
  repeat case_decide; subst; try congruence; lia.
Qed.

(** Two objects with the same counts are equal. *)
Lemma counts_wf_ext m m' :
  counts_wf m → counts_wf m' → (∀ t, trait_count m t = trait_count m' t) → m = m'.
Proof.
  intros Hm Hm' Heq.
  assert (∀ ty, object_of m ty = object_of m' ty) as Hobj.
  { intros ty. apply map_eq. intros v. specialize (Heq (mkTrait ty v)).
    rewrite !trait_count_object in Heq. simpl in Heq. unfold count_in in Heq.
    destruct (object_of m ty !! v) as [c|] eqn:Hc, (object_of m' ty !! v) as [c'|] eqn:Hc'; [| | |done].
    - destruct (object_of_wf m ty Hm _ _ Hc) as (n & -> & ?), (object_of_wf m' ty Hm' _ _ Hc') as (n' & -> & ?).
      simpl in Heq. by subst.
    - destruct (object_of_wf m ty Hm _ _ Hc) as (n & -> & ?). simpl in Heq. lia.
    - destruct (object_of_wf m' ty Hm' _ _ Hc') as (n & -> & ?). simpl in Heq. lia. }
  apply map_eq. intros ty. specialize (Hobj ty). unfold object_of in Hobj.
  destruct (m !! ty) as [j|] eqn:Hj, (m' !! ty) as [j'|] eqn:Hj'; [| | |done].
  - destruct (Hm ty j Hj) as (o & -> & _), (Hm' ty j' Hj') as (o' & -> & _). by subst.
  - destruct (Hm ty j Hj) as (o & -> & ? & _). by subst.
  - destruct (Hm' ty j' Hj') as (o & -> & ? & _). by subst.
Qed.

(** ** Properties *)

(** The trait object counts tokens exactly: after subtracting the old traits
    and adding the new ones, the count of every trait is the old count, less its
    occurrences in the subtracted list (never below zero), plus its occurrences
    in the added list; the object still has no empty trait type and no
    non-positive count. *)
Theorem trait_counts_exact m add_traits subtract_traits :
  counts_wf m →
  (∀ t, trait_count m t + occurrences t add_traits ≤ u64_max) →
  counts_wf (apply_to_counts m add_traits subtract_traits) ∧
  ∀ t, trait_count (apply_to_counts m add_traits subtract_traits) t =
    Z.max 0 (trait_count m t - occurrences t subtract_traits) + occurrences t add_traits.
Proof.
  intros Hm Hb. destruct (foldl_subtract m subtract_traits Hm) as [Hwf Hc].
  destruct (foldl_add _ add_traits Hwf) as [Hwf' Hc'].
  { intros t. rewrite Hc. specialize (Hb t). pose proof (trait_occurrences_nonneg t subtract_traits).
    pose proof (trait_count_nonneg m t Hm). lia. }
  split; [done|]. intros t. unfold apply_to_counts. by rewrite Hc', Hc.
Qed.

(** Removing the traits of a token undoes adding them: the object is the same
    again, entry for entry. *)
Lemma trait_add_subtract m traits :
  counts_wf m → (∀ t, trait_count m t + occurrences t traits ≤ u64_max) →
  apply_to_counts (apply_to_counts m traits []) [] traits = m.
Proof.
  intros Hm Hb. unfold apply_to_counts. simpl.
  destruct (foldl_add m traits Hm Hb) as [Hwf Hc].
  destruct (foldl_subtract _ traits Hwf) as [Hwf' Hc'].
  apply counts_wf_ext; [done..|]. intros t. rewrite Hc', Hc.
  pose proof (trait_count_nonneg m t Hm). lia.
Qed.

(** ** Witnesses *)
Definition one_hat : gmap string json := {[ "hat" := JObject {[ "red" := JNumber (Some 1) ]} ]}.
Definition two_traits : list TokenTrait := [mkTrait "hat" "red"; mkTrait "eyes" "blue"].

Lemma one_hat_wf : counts_wf one_hat.
Proof.
  intros ty j. unfold one_hat. rewrite lookup_singleton_Some. intros [_ <-]. eexists. split; [done|].
  split; [apply insert_non_empty|]. intros v c. rewrite lookup_singleton_Some. intros [_ <-].
  exists 1. split; [done|]. unfold u64_max. lia.
Qed.

Lemma one_hat_bound t : trait_count one_hat t + occurrences t two_traits ≤ u64_max.
Proof.
  assert (trait_count one_hat t ≤ 1).
  { unfold trait_count, one_hat. destruct (_ !! trait_type t) as [j|] eqn:Hj; [|lia].
    apply lookup_singleton_Some in Hj as [_ <-].
    destruct (_ !! trait_value t) as [c|] eqn:Hc; simpl; [|lia].
    apply lookup_singleton_Some in Hc as [_ <-]. simpl. lia. }
  unfold two_traits. rewrite !trait_occurrences_cons. unfold occurrences. simpl.
  repeat case_decide; unfold u64_max; lia.
Qed.

Lemma trait_counts_exact_witness :
  trait_count (apply_to_counts one_hat two_traits [mkTrait "hat" "red"]) (mkTrait "hat" "red") = 1.
Proof.
  destruct (trait_counts_exact one_hat two_traits [mkTrait "hat" "red"]) as [_ Hc].
  - apply one_hat_wf.
  - apply one_hat_bound.
  - rewrite Hc. reflexivity.
Defined.

End Traits.
