(* ===== verification/SqlString.v ===== *)
(** * Identifiers as text ([crates/storage/src/utils.rs], [crates/sqlite/sqlite/src/utils.rs])

    Felts, event ids and world-scoped ids are stored as hexadecimal text and
    sorted as text. The formats are those of [core::fmt]: [{:#064x}] is [0x] and
    the lowercase digits, padded with zeros to 64 characters, the prefix
    included. [Felt::from_str] belongs to the starknet crate; [FeltFromStr] says
    that it reads back a prefixed hexadecimal number, leading zeros allowed. *)

From S2P Require Import Prelude Proto.
From Stdlib Require Import Ascii.
From Stdlib Require String.
Local Open Scope string_scope.
Local Open Scope Z_scope.

(** ** Hexadecimal digits *)
Definition hex_char (d : Z) : ascii :=
  Ascii.ascii_of_nat (Z.to_nat (if d <? 10 then 48 + d else 87 + d)).

Definition hex_val (c : ascii) : option Z :=
  let n := Z.of_nat (Ascii.nat_of_ascii c) in
  if (48 <=? n) && (n <=? 57) then Some (n - 48)
  else if (97 <=? n) && (n <=? 102) then Some (n - 87)
  else if (65 <=? n) && (n <=? 70) then Some (n - 55)
  else None.

(** The digits of [n], most significant first. *)
Fixpoint hex_digits (fuel : nat) (n : Z) : list Z :=
  match fuel with
  | O => []
  | S fuel => if n <? 16 then [n] else (hex_digits fuel (n / 16) ++ [n mod 16])%list
  end.

Definition digits_value (l : list Z) : Z := foldl (λ acc d, 16 * acc + d) 0 l.

Definition digits_string (l : list Z) : string :=
  foldr (λ d s, String (hex_char d) s) EmptyString l.

(** Digits of the numbers below [16 ^ 64]. *)
Definition digits_of (n : Z) : list Z := hex_digits 64 n.

Definition pad_digits (width : nat) (l : list Z) : list Z :=
  (replicate (width - length l) 0 ++ l)%list.

Module SqlString.

(** [format!("{:#0WIDTHx}", n)] *)
Definition format_hex (width : nat) (n : Z) : string :=
  "0x" +:+ digits_string (pad_digits (width - 2) (digits_of n)).

Definition felt_to_sql_string (felt : Felt) : string := format_hex 64 felt.

(** [{:#064x}] of a [U256] prints all of its 64 digits; [sql_string_to_u256] reads no
    other number of them. *)
Definition u256_to_sql_string (u : U256) : string := format_hex 66 u.

Definition felt_and_u256_to_sql_string (felt : Felt) (u : U256) : string :=
  felt_to_sql_string felt +:+ ":" +:+ u256_to_sql_string u.

(** [l.join(sep)] *)
Fixpoint join (sep : string) (l : list string) : string :=
  match l with
  | [] => ""
  | [s] => s
  | s :: l => s +:+ sep +:+ join sep l
  end.

Definition felts_to_sql_string (felts : list Felt) : string :=
  join "/" (felt_to_sql_string <$> felts) +:+ "/".

Definition format_event_id (block_number : Z) (transaction_hash contract_address : Felt)
    (event_idx : Z) : string :=
  format_hex 64 block_number +:+ ":" +:+ format_hex 64 transaction_hash +:+ ":" +:+
  format_hex 64 contract_address +:+ ":" +:+ format_hex 4 event_idx.

Definition format_world_scoped_id (world_address selector : Felt) : string :=
  format_hex 64 world_address +:+ ":" +:+ format_hex 64 selector.

(** [s.split(c)] *)
Fixpoint split_acc (c : ascii) (acc s : string) : list string :=
  match s with
  | EmptyString => [acc]
  | String c' s =>
      if decide (c' = c) then acc :: split_acc c "" s
      else split_acc c (acc +:+ String c' EmptyString) s
  end.
Definition split (c : ascii) (s : string) : list string := split_acc c "" s.

(** [s.trim_start_matches("0x")] *)
Fixpoint trim_0x (s : string) : string :=
  match s with
  | String c1 (String c2 s') => if decide (c1 = "0"%char ∧ c2 = "x"%char) then trim_0x s' else s
  | _ => s
  end.

Fixpoint digits_of_string (s : string) : option (list Z) :=
  match s with
  | EmptyString => Some []
  | String c s => d ← hex_val c; l ← digits_of_string s; Some (d :: l)
  end.

(** [u64::from_str_radix(s, 16)]: an optional sign [+], at least one digit *)
Definition u64_from_hex (s : string) : option Z :=
  let s := match s with String c s' => if decide (c = "+"%char) then s' else s | _ => s end in
  l ← digits_of_string s;
  if decide (l = [] ∨ digits_value l > u64_max) then None else Some (digits_value l).

(** The Stark prime. *)
Definition PRIME : Z := 2 ^ 251 + 17 * 2 ^ 192 + 1.
Definition felt_ok (f : Felt) : Prop := 0 ≤ f < PRIME.

Class FeltFromStr : Type := {
  felt_from_str : string → option Felt;
  felt_from_hex l : l ≠ [] → Forall (λ d, 0 ≤ d < 16) l → felt_ok (digits_value l) →
    felt_from_str ("0x" +:+ digits_string l) = Some (digits_value l)
}.

Section parsing.
Context `{FeltFromStr}.

(** [None] is a panic: an index out of range or a failed [unwrap]. *)
Definition parse_event_id (event_id : string) : option (Z * Felt * Felt * Z) :=
  let parts := split ":"%char event_id in
  p0 ← parts !! 0%nat; block_number ← u64_from_hex (trim_0x p0);
  p1 ← parts !! 1%nat; transaction_hash ← felt_from_str p1;
  p2 ← parts !! 2%nat; contract_address ← felt_from_str p2;
  p3 ← parts !! 3%nat; event_idx ← u64_from_hex (trim_0x p3);
  Some (block_number, transaction_hash, contract_address, event_idx).

(** [None] is the error. *)
Definition parse_world_scoped_id (scoped_id : string) : option (Felt * Felt) :=
  match split ":"%char scoped_id with
  | [w; s] => world_address ← felt_from_str w; selector ← felt_from_str s; Some (world_address, selector)
  | _ => None
  end.

(** [None] is a panic of the [unwrap]. *)
Definition sql_string_to_felts (sql_string : string) : option (list Felt) :=
  mapM felt_from_str (filter (λ s, s ≠ "") (split "/"%char sql_string)).
End parsing.

(** ** Digits *)
Definition is_digit (d : Z) : Prop := 0 ≤ d < 16.

Lemma digit_cases (P : Z → Prop) :
  (∀ n : nat, (n < 16)%nat → P (Z.of_nat n)) → ∀ d, is_digit d → P d.
Proof.
  intros HP d [H0 H1]. rewrite <- (Z2Nat.id d) by done. apply HP. lia.
Qed.

Lemma hex_val_char d : is_digit d → hex_val (hex_char d) = Some d.
Proof. revert d. apply digit_cases. intros n Hn. do 16 (destruct n as [|n]; [reflexivity|]). lia. Qed.

(** No digit is one of the separators, the [x] of the prefix or a sign. *)
Definition separator (c : ascii) : Prop := c = ":"%char ∨ c = "/"%char ∨ c = "x"%char ∨ c = "+"%char.

Lemma hex_char_separator d c : is_digit d → separator c → hex_char d ≠ c.
Proof.
  intros Hd Hc. revert d Hd. apply digit_cases. intros n Hn.
  do 16 (destruct n as [|n]; [by destruct Hc as [->|[->|[->| ->]]]|]). lia.
Qed.

Lemma hex_char_compare d d' : is_digit d → is_digit d' →
  Ascii.compare (hex_char d) (hex_char d') = (d ?= d').
Proof.
  intros Hd Hd'. revert d Hd. apply digit_cases. intros n Hn. revert d' Hd'. apply digit_cases.
  intros n' Hn'.
  do 16 (destruct n as [|n]; [do 16 (destruct n' as [|n']; [reflexivity|]); lia|]). lia.
Qed.

Lemma digits_value_app l1 l2 :
  digits_value (l1 ++ l2)%list = digits_value l1 * 16 ^ Z.of_nat (length l2) + digits_value l2.
Proof.
  unfold digits_value. rewrite foldl_app. generalize (foldl (λ acc d, 16 * acc + d) 0 l1).
  intros z. induction l2 as [|d l2 IH] using rev_ind; [simpl; lia|].
  rewrite !foldl_snoc, length_app, IH. simpl (length [d]).
  replace (Z.of_nat (length l2 + 1)) with (Z.succ (Z.of_nat (length l2))) by lia.
  rewrite Z.pow_succ_r by lia. lia.
Qed.

Lemma digits_value_bound l : Forall is_digit l → 0 ≤ digits_value l < 16 ^ Z.of_nat (length l).
Proof.
  induction l as [|d l IH] using rev_ind; [done|]. intros [Hl Hd]%Forall_app.
  rewrite Forall_singleton in Hd. rewrite digits_value_app, length_app. specialize (IH Hl).
  simpl (length [d]). unfold digits_value at 2 4. simpl (foldl _ _ [d]).
  replace (Z.of_nat (length l + 1)) with (Z.succ (Z.of_nat (length l))) by lia.
  rewrite Z.pow_succ_r by lia. unfold is_digit in Hd. simpl (16 ^ Z.of_nat 1). lia.
Qed.

Lemma hex_digits_spec fuel n : 0 ≤ n < 16 ^ Z.of_nat fuel → (0 < fuel)%nat →
  Forall is_digit (hex_digits fuel n) ∧ digits_value (hex_digits fuel n) = n ∧
  hex_digits fuel n ≠ [] ∧ (length (hex_digits fuel n) ≤ fuel)%nat.
Proof.
  revert n. induction fuel as [|fuel IH]; intros n Hn Hf; [lia|]. simpl.
  destruct (Z.ltb_spec n 16).
  - split_and!; [|unfold digits_value; simpl; lia|done|simpl; lia].
    apply Forall_singleton. unfold is_digit. lia.
  - rewrite Nat2Z.inj_succ, Z.pow_succ_r in Hn by lia.
    pose proof (Z.div_mod n 16 ltac:(lia)). pose proof (Z.mod_pos_bound n 16 ltac:(lia)).
    assert (0 < fuel)%nat by (destruct fuel; [simpl in Hn; lia|lia]).
    destruct (IH (n / 16)) as (Hd & Hv & _ & Hlen); [|done|].
    { split; [apply Z.div_pos; lia|]. apply Z.div_lt_upper_bound; lia. }
    split_and!.
    + apply Forall_app. split; [done|]. apply Forall_singleton. unfold is_digit. lia.
    + rewrite digits_value_app, Hv. unfold digits_value. simpl. lia.
    + by destruct (hex_digits fuel (n / 16)).
    + rewrite length_app. simpl. lia.
Qed.

Lemma digits_value_zeros k l : digits_value (replicate k 0 ++ l)%list = digits_value l.
Proof.
  rewrite digits_value_app. replace (digits_value (replicate k 0)) with 0; [lia|].
  induction k as [|k IH]; [done|]. unfold digits_value in *. simpl. done.
Qed.

(** What the width and the value fit. *)
Lemma pad_digits_spec width n : 0 ≤ n < 16 ^ 64 →
  Forall is_digit (pad_digits width (digits_of n)) ∧
  digits_value (pad_digits width (digits_of n)) = n ∧
  pad_digits width (digits_of n) ≠ [] ∧
  (n < 16 ^ Z.of_nat width → (0 < width)%nat → length (pad_digits width (digits_of n)) = width).
Proof.
  intros Hn. destruct (hex_digits_spec 64 n) as (Hd & Hv & Hne & Hl); [done|lia|].
  unfold pad_digits, digits_of. split_and!.
  - apply Forall_app. split; [|done]. apply Forall_replicate. unfold is_digit. lia.
  - by rewrite digits_value_zeros.
  - intros [_ ?]%app_eq_nil. done.
  - intros Hw H0. rewrite length_app, length_replicate.
    assert (length (hex_digits 64 n) ≤ width)%nat; [|lia].
    clear -Hn Hw H0. cut (∀ fuel m, 0 ≤ m < 16 ^ Z.of_nat width → (length (hex_digits fuel m) ≤ width)%nat);
      [intros Hc; apply Hc; lia|].
    clear -H0. intros fuel. revert width H0. induction fuel as [|fuel IH]; intros w Hw m Hm; simpl; [lia|].
    destruct (Z.ltb_spec m 16); [simpl; lia|]. rewrite length_app. simpl.
    destruct w as [|w]; [lia|]. rewrite Nat2Z.inj_succ, Z.pow_succ_r in Hm by lia.
    destruct w as [|w]; [simpl in Hm; lia|].
    enough (length (hex_digits fuel (m / 16)) ≤ S w)%nat by lia. apply IH; [lia|].
    split; [apply Z.div_pos; lia|]. apply Z.div_lt_upper_bound; lia.
Qed.

(** ** Strings of digits *)
Lemma digits_of_string_digits l : Forall is_digit l → digits_of_string (digits_string l) = Some l.
Proof.
  induction 1 as [|d l Hd _ IH]; [done|]. simpl. rewrite hex_val_char by done. simpl. by rewrite IH.
Qed.

Lemma digits_string_length l : String.length (digits_string l) = length l.
Proof. induction l; simpl; congruence. Qed.
Lemma append_cons c (s1 s2 : string) : String c s1 +:+ s2 = String c (s1 +:+ s2).
Proof. done. Qed.
Lemma append_nil_l (s : string) : "" +:+ s = s.
Proof. done. Qed.
Lemma append_nil_r (s : string) : s +:+ "" = s.
Proof. induction s as [|c s IH]; simpl; [done|].
rewrite ?append_cons. f_equal. exact IH. Qed.
Lemma append_assoc (s1 s2 s3 : string) : (s1 +:+ s2) +:+ s3 = s1 +:+ (s2 +:+ s3).
Proof. induction s1 as [|c s IH]; simpl; [done|].
rewrite ?append_cons. f_equal. exact IH. Qed.

Fixpoint free_of (c : ascii) (s : string) : Prop :=
  match s with EmptyString => True | String c' s => c' ≠ c ∧ free_of c s end.

Lemma free_of_app c s1 s2 : free_of c s1 → free_of c s2 → free_of c (s1 +:+ s2).
Proof. induction s1 as [|c' s1 IH]; [done|]. rewrite append_cons. intros [H1 H2] H3. split; [done|]. by apply IH. Qed.

Lemma digits_string_free c l : separator c → Forall is_digit l → free_of c (digits_string l).
Proof.
  intros Hc. induction 1 as [|d l Hd _ IH]; [done|]. split; [by apply hex_char_separator|done].
Qed.

Lemma split_acc_free c acc s : free_of c s → split_acc c acc s = [acc +:+ s].
Proof.
  revert acc. induction s as [|c' s IH]; intros acc Hs; simpl.
  - by rewrite append_nil_r.
  - destruct Hs as [Hne Hs]. rewrite decide_False by done. rewrite IH by done.
    by rewrite append_assoc.
Qed.

Lemma split_acc_cons c acc s1 s2 : free_of c s1 →
  split_acc c acc (s1 +:+ String c s2) = (acc +:+ s1) :: split_acc c "" s2.
Proof.
  revert acc. induction s1 as [|c' s1 IH]; intros acc Hs.
  - rewrite append_nil_l. simpl. rewrite decide_True by done. by rewrite append_nil_r.
  - destruct Hs as [Hne Hs]. rewrite append_cons. simpl. rewrite decide_False by done.
    rewrite IH by done. by rewrite append_assoc.
Qed.

Lemma split_cons c s1 s2 : free_of c s1 → split c (s1 +:+ String c s2) = s1 :: split c s2.
Proof. apply (split_acc_cons c ""). Qed.
Lemma split_sep c s1 s2 : free_of c s1 → split c (s1 +:+ String c "" +:+ s2) = s1 :: split c s2.
Proof. apply split_cons. Qed.
Lemma split_ne_nil c s : split c s ≠ [].
Proof.
  unfold split. generalize "". induction s as [|c' s IH]; intros acc; simpl; [done|].
  by case_decide.
Qed.

Lemma split_free c s : free_of c s → split c s = [s].
Proof. apply (split_acc_free c ""). Qed.

Lemma format_hex_free c w n : c = ":"%char ∨ c = "/"%char → 0 ≤ n < 16 ^ 64 → free_of c (format_hex w n).
Proof.
  intros Hc Hn. unfold format_hex. apply free_of_app.
  - destruct Hc as [->| ->]; simpl; done.
  - apply digits_string_free; [unfold separator; naive_solver|]. by apply pad_digits_spec.
Qed.

Lemma trim_0x_digits l : Forall is_digit l → trim_0x (digits_string l) = digits_string l.
Proof.
  intros Hl. destruct Hl as [|d l Hd Hl]; [done|]. simpl. destruct Hl as [|d' l Hd' Hl]; [done|]. simpl.
  rewrite decide_False; [done|]. intros [_ Hx]. by eapply hex_char_separator in Hx; [|done|right; right; left].
Qed.

Lemma trim_format_hex w n : 0 ≤ n < 16 ^ 64 →
  trim_0x (format_hex w n) = digits_string (pad_digits (w - 2) (digits_of n)).
Proof. intros Hn. unfold format_hex. simpl. by apply trim_0x_digits, pad_digits_spec. Qed.

Lemma u64_from_hex_format w n : 0 ≤ n ≤ u64_max → u64_from_hex (trim_0x (format_hex w n)) = Some n.
Proof.
  intros Hn. assert (0 ≤ n < 16 ^ 64) as Hn' by (unfold u64_max in Hn; lia).
  rewrite trim_format_hex by done. destruct (pad_digits_spec (w - 2) n Hn') as (Hd & Hv & Hne & _).
  unfold u64_from_hex. set (l := pad_digits (w - 2) (digits_of n)) in *.
  assert (match digits_string l with String c s' => if decide (c = "+"%char) then s' else digits_string l
    | EmptyString => digits_string l end = digits_string l) as Hsign.
  { destruct Hd as [|d l' Hd _]; [done|]. simpl. rewrite decide_False; [done|].
    apply hex_char_separator; [done|unfold separator; naive_solver]. }
  rewrite Hsign, digits_of_string_digits by done. simpl. rewrite Hv, decide_False; [done|].
  intros [?|?]; [done|lia].
Qed.

Lemma felt_ok_bound f : felt_ok f → 0 ≤ f < 16 ^ 64.
Proof. unfold felt_ok, PRIME. lia. Qed.

Section parse_lemmas.
Context `{FeltFromStr}.

Lemma felt_from_format w f : felt_ok f → felt_from_str (format_hex w f) = Some f.
Proof.
  intros Hf. destruct (pad_digits_spec (w - 2) f (felt_ok_bound f Hf)) as (Hd & Hv & Hne & _).
  unfold format_hex. rewrite felt_from_hex; [by rewrite Hv|done..|by rewrite Hv].
Qed.
End parse_lemmas.

(** ** Order *)
Lemma digits_compare l1 l2 s1 s2 :
  length l1 = length l2 → Forall is_digit l1 → Forall is_digit l2 →
  digits_value l1 < digits_value l2 →
  String.compare (digits_string l1 +:+ s1) (digits_string l2 +:+ s2) = Lt.
Proof.
  revert l2. induction l1 as [|d1 l1 IH]; intros [|d2 l2] Hlen H1 H2 Hlt; simplify_eq/=; [lia|].
  apply Forall_cons in H1 as [Hd1 H1], H2 as [Hd2 H2]. rewrite hex_char_compare by done.
  change (d1 :: l1) with ([d1] ++ l1)%list in Hlt. change (d2 :: l2) with ([d2] ++ l2)%list in Hlt.
  rewrite !digits_value_app in Hlt. unfold digits_value at 1 3 in Hlt. simpl (foldl _ _ [_]) in Hlt.
  pose proof (digits_value_bound l1 H1). pose proof (digits_value_bound l2 H2).
  rewrite <- Hlen in *. destruct (Z.compare_spec d1 d2) as [->|Hd|Hd]; [|done|].
  - apply IH; [done..|lia].
  - exfalso. assert ((d2 + 1) * 16 ^ Z.of_nat (length l1) ≤ d1 * 16 ^ Z.of_nat (length l1)) by nia. lia.
Qed.

Lemma format_hex_compare w n1 n2 s1 s2 :
  (2 < w)%nat → 0 ≤ n1 < n2 → n2 < 16 ^ Z.of_nat (w - 2) → n2 < 16 ^ 64 →
  String.compare (format_hex w n1 +:+ s1) (format_hex w n2 +:+ s2) = Lt.
Proof.
  intros Hw Hlt Hb H64.
  destruct (pad_digits_spec (w - 2) n1) as (Hd1 & Hv1 & _ & Hl1); [lia|].
  destruct (pad_digits_spec (w - 2) n2) as (Hd2 & Hv2 & _ & Hl2); [lia|].
  unfold format_hex. simpl. apply digits_compare; [|done..|lia].
  rewrite Hl1, Hl2; [done|lia..].
Qed.

(** ** Properties *)
Section properties.
Context `{FeltFromStr}.
#[local] Arguments trim_0x : simpl never.
#[local] Arguments u64_from_hex : simpl never.
#[local] Arguments format_hex : simpl never.

(** An event id is read back as it was written, whatever the block, hashes
    and index. *)
Theorem event_id_roundtrip block_number transaction_hash contract_address event_idx :
  0 ≤ block_number ≤ u64_max → felt_ok transaction_hash → felt_ok contract_address →
  0 ≤ event_idx ≤ u64_max →
  parse_event_id (format_event_id block_number transaction_hash contract_address event_idx) =
    Some (block_number, transaction_hash, contract_address, event_idx).
Proof.
  intros Hb Ht Hc He. unfold parse_event_id, format_event_id.
  assert (∀ n, 0 ≤ n ≤ u64_max → 0 ≤ n < 16 ^ 64) as Hu by (unfold u64_max; lia).
  rewrite !split_sep by (apply format_hex_free; [by left|auto using felt_ok_bound]).
  rewrite split_free by (apply format_hex_free; [by left|auto]).
  simpl. rewrite u64_from_hex_format by done. simpl. rewrite felt_from_format by done. simpl.
  rewrite felt_from_format by done. simpl. by rewrite u64_from_hex_format.
Qed.

(** Event ids sort by block: the id of an event of an earlier block compares
    below the id of an event of a later block as text, whatever the rest of the
    two ids. *)
Theorem event_id_sorted_by_block b1 b2 h1 h2 a1 a2 i1 i2 :
  0 ≤ b1 < b2 → b2 ≤ u64_max →
  String.compare (format_event_id b1 h1 a1 i1) (format_event_id b2 h2 a2 i2) = Lt.
Proof.
  intros Hlt Hb. unfold format_event_id. apply format_hex_compare; unfold u64_max in Hb; try lia.
  simpl. lia.
Qed.

(** The text forms of keys and scoped ids lose nothing: reading back the
    stored keys of an entity, or a world-scoped id, gives the felts that were
    written; in particular two different felts, or pairs, never share their
    text. *)
Theorem sql_felts_roundtrip (felts : list Felt) world selector :
  Forall felt_ok felts → felt_ok world → felt_ok selector →
  sql_string_to_felts (felts_to_sql_string felts) = Some felts ∧
  parse_world_scoped_id (format_world_scoped_id world selector) = Some (world, selector).
Proof.
  intros Hf Hw Hs. split.
  - unfold sql_string_to_felts, felts_to_sql_string.
    assert (filter (λ s, s ≠ "") (split "/"%char (join "/" (felt_to_sql_string <$> felts) +:+ "/")) =
      felt_to_sql_string <$> felts) as ->.
    { assert (∀ f, felt_ok f → free_of "/"%char (felt_to_sql_string f) ∧ felt_to_sql_string f ≠ "")
        as Hfree.
      { intros f Hok. split; [|done]. apply format_hex_free; [by right|by apply felt_ok_bound]. }
      induction Hf as [|f felts Hok Hf IH]; [done|]. destruct (Hfree f Hok) as [Hfr Hne].
      destruct felts as [|f' felts].
      - simpl. rewrite split_cons by done. rewrite filter_cons, decide_True by done. done.
      - change (join "/" (felt_to_sql_string <$> f :: f' :: felts)) with
          (felt_to_sql_string f +:+ String "/"%char (join "/" (felt_to_sql_string <$> f' :: felts))).
        rewrite append_assoc, append_cons.
        rewrite split_cons by done. rewrite filter_cons, decide_True by done.
        rewrite IH. done. }
    apply mapM_Some_2, Forall2_fmap_l, Forall_Forall2_diag. eapply Forall_impl; [done|].
    intros f Hok. by apply felt_from_format.
  - unfold parse_world_scoped_id, format_world_scoped_id.
    rewrite split_sep by (apply format_hex_free; [by left|by apply felt_ok_bound]).
    rewrite split_free by (apply format_hex_free; [by left|by apply felt_ok_bound]).
    rewrite !felt_from_format by done. done.
Qed.
End properties.

(** ** Witnesses *)

(** A parser of prefixed hexadecimal text. *)
Definition hex_parser : FeltFromStr.
Proof.
  refine {| felt_from_str s :=
    match s with
    | String c1 (String c2 s) =>
        if decide (c1 = "0"%char ∧ c2 = "x"%char) then
          l ← digits_of_string s;
          if decide (l ≠ [] ∧ digits_value l < PRIME) then Some (digits_value l) else None
        else None
    | _ => None
    end |}.
  intros l Hne Hd Hok. change (("0x" +:+ digits_string l)%string) with
    (String "0"%char (String "x"%char (digits_string l))).
  cbv beta iota. rewrite decide_True by done. rewrite digits_of_string_digits by done.
  simpl. rewrite decide_True; [done|]. split; [done|apply Hok].
Defined.

Lemma event_id_roundtrip_witness :
  parse_event_id (H := hex_parser) (format_event_id 1000 (2 ^ 250) 43981 300) =
    Some (1000, 2 ^ 250, 43981, 300).
Proof.
  apply event_id_roundtrip; unfold felt_ok, PRIME, u64_max; lia.
Defined.

Lemma event_id_sorted_by_block_witness :
  String.compare (format_event_id 15 (2 ^ 250) 7 3) (format_event_id 16 1 7 0) = Lt.
Proof. apply event_id_sorted_by_block; unfold u64_max; lia. Defined.

Lemma sql_felts_roundtrip_witness :
  sql_string_to_felts (H := hex_parser) (felts_to_sql_string [1; 2 ^ 250; 0]) =
    Some [1; 2 ^ 250; 0] ∧
  parse_world_scoped_id (H := hex_parser) (format_world_scoped_id 5 6) = Some (5, 6).
Proof.
  apply sql_felts_roundtrip; [|unfold felt_ok, PRIME; lia..].
  repeat constructor; unfold PRIME; lia.
Defined.

End SqlString.
