(* ===== verification/SqlText.v ===== *)
(** * The text of statements

    What the statements of the storage say as text: the placeholders that values are
    bound to, and the conditions of a [WHERE]. [AND] binds tighter than [OR], and
    neither is read within parentheses, a quoted string or a bracketed name, so that a
    condition is a disjunction of conjunctions of what lies between them
    ([reading]). *)

From S2P Require Import Prelude SqlString.
From stdpp Require Import pretty.
From Stdlib Require Import Ascii.
Local Open Scope torii_scope.

(** ** Placeholders *)

(** The number of [?] in a statement. *)
Fixpoint placeholders (s : string) : nat :=
  match s with
  | EmptyString => 0
  | String c s => (if (Ascii.nat_of_ascii c =? 63)%nat then 1 else 0) + placeholders s
  end.

Lemma placeholders_app a b : placeholders (a +:+ b) = (placeholders a + placeholders b)%nat.
Proof.
  induction a as [|c a IH]; [done|].
  change (placeholders (String c (a +:+ b)) = placeholders (String c a) + placeholders b)%nat.
  cbn [placeholders]. rewrite IH. lia.
Qed.

Lemma pretty_N_char_plain x : (Ascii.nat_of_ascii (pretty_N_char x) =? 63)%nat = false.
Proof. unfold pretty_N_char. by repeat case_match. Qed.
Lemma pretty_N_go_plain x s : placeholders (pretty_N_go x s) = placeholders s.
Proof.
  revert s. induction (N.lt_wf_0 x) as [x _ IH]; intros s. destruct (decide (x = 0)%N) as [->|Hx]; [done|].
  rewrite pretty_N_go_step by lia. rewrite IH by (apply N.div_lt; lia). cbn [placeholders].
  by rewrite pretty_N_char_plain.
Qed.
Lemma pretty_plain (n : nat) : placeholders (pretty n) = 0%nat.
Proof.
  unfold pretty, pretty_nat, pretty, pretty_N. case_decide; [done|]. apply pretty_N_go_plain.
Qed.

Lemma join_plain sep l : placeholders sep = 0%nat → Forall (λ s, placeholders s = 0%nat) l →
  placeholders (SqlString.join sep l) = 0%nat.
Proof.
  intros Hs Hl. induction Hl as [|a l Ha Hl IH]; [done|]. destruct l as [|b l]; [done|].
  change (SqlString.join sep (a :: b :: l)) with (a +:+ sep +:+ SqlString.join sep (b :: l)).
  by rewrite !placeholders_app, Ha, Hs, IH.
Qed.
Lemma join_marks sep n : placeholders sep = 0%nat → placeholders (SqlString.join sep (replicate n "?")) = n.
Proof.
  intros Hs. induction n as [|[|n] IH]; [done..|].
  change (SqlString.join sep (replicate (S (S n)) "?")) with ("?" +:+ sep +:+ SqlString.join sep (replicate (S n) "?")).
  by rewrite !placeholders_app, Hs, IH.
Qed.

Lemma pretty_plain_N (n : N) : placeholders (pretty n) = 0%nat.
Proof. unfold pretty, pretty_N. case_decide; [done|]. apply pretty_N_go_plain. Qed.
Lemma pretty_plain_Z (n : Z) : placeholders (pretty n) = 0%nat.
Proof.
  destruct n as [|p|p]; [done|exact (pretty_plain_N (Npos p))|].
  change (placeholders ("-" +:+ pretty (Npos p)) = 0%nat). by rewrite placeholders_app, pretty_plain_N.
Qed.

Lemma placeholders_join sep l : placeholders sep = 0%nat →
  placeholders (SqlString.join sep l) = list_sum (placeholders <$> l).
Proof.
  intros Hs. induction l as [|a [|b l] IH]; [done|simpl; lia|].
  change (SqlString.join sep (a :: b :: l)) with (a +:+ sep +:+ SqlString.join sep (b :: l)).
  rewrite !placeholders_app, Hs, IH. done.
Qed.

(** ** Words outside of brackets *)
Definition space : ascii := " "%char.
Definition quote : ascii := ascii_of_nat 39.
Definition opening (c : ascii) : option ascii :=
  if Ascii.eqb c "("%char then Some ")"%char
  else if Ascii.eqb c "["%char then Some "]"%char
  else if Ascii.eqb c quote then Some quote
  else None.

(** [stack] holds the characters that close what is open. Only a parenthesis has
    brackets within; one that closes nothing is an error. *)
Definition step (stack : list ascii) (c : ascii) : option (list ascii) :=
  match stack with
  | [] => if Ascii.eqb c ")"%char then None else Some match opening c with Some e => [e] | None => [] end
  | top :: rest =>
      if Ascii.eqb c top then Some rest
      else if Ascii.eqb top ")"%char then Some match opening c with Some e => e :: stack | None => stack end
      else Some stack
  end.
Fixpoint run (stack : list ascii) (s : string) : option (list ascii) :=
  match s with EmptyString => Some stack | String c s => stack' ← step stack c; run stack' s end.
(** All that is opened in [s] is closed in it, and nothing else. *)
Definition balanced (s : string) : bool := bool_decide (run [] s = Some []).

Fixpoint words_acc (stack : list ascii) (acc : string) (s : string) : list string :=
  match s with
  | EmptyString => [acc]
  | String c s =>
      if bool_decide (stack = []) && Ascii.eqb c space then acc :: words_acc [] EmptyString s
      else match step stack c with
           | Some stack => words_acc stack (acc +:+ String c EmptyString) s
           | None => [acc +:+ String c s]
           end
  end.
Definition top_words (s : string) : list string := words_acc [] EmptyString s.

(** [l] cut at the words [w] *)
Fixpoint cut (w : string) (l : list string) : list (list string) :=
  match l with
  | [] => [[]]
  | x :: l =>
      if String.eqb x w then [] :: cut w l
      else match cut w l with g :: gs => (x :: g) :: gs | [] => [[x]] end
  end.

(** The disjuncts of a condition, each the list of its conjuncts. *)
Definition reading (s : string) : list (list string) :=
  (λ disjunct, SqlString.join " " <$> cut "AND" disjunct) <$> cut "OR" (top_words s).

(** What a condition says, with the truth of what lies between [AND] and [OR]. *)
Definition says (holds : string → bool) (s : string) : bool :=
  existsb (forallb holds) (reading s).

(** A condition that is read as one conjunct. *)
Definition atomic (s : string) : bool :=
  balanced s && bool_decide ("AND" ∉ top_words s) && bool_decide ("OR" ∉ top_words s).

Lemma run_app stack a b : run stack (a +:+ b) = (stack' ← run stack a; run stack' b).
Proof.
  revert stack. induction a as [|c a IH]; intros stack; [done|].
  change (String c a +:+ b) with (String c (a +:+ b)). cbn [run]. destruct (step stack c) as [stack'|]; [|done]. apply IH.
Qed.

Lemma words_acc_app stack acc a b : run stack a = Some [] →
  words_acc stack acc (a +:+ String space b) = words_acc stack acc a ++ top_words b.
Proof.
  revert stack acc. induction a as [|c a IH]; intros stack acc Hrun.
  - by injection Hrun as ->.
  - change (String c a +:+ String space b) with (String c (a +:+ String space b)). cbn [words_acc run] in *.
    case (bool_decide (stack = []) && Ascii.eqb c space) eqn:Hsp.
    + apply andb_prop in Hsp as [->%bool_decide_eq_true ->%Ascii.eqb_eq]. rewrite IH; [done|]. exact Hrun.
    + destruct (step stack c) as [stack'|]; [|done]. by rewrite IH.
Qed.

(** ** Parentheses *)
Lemma step_within stack c stack' : step stack c = Some stack' → step (stack ++ [")"%char]) c = Some (stack' ++ [")"%char]).
Proof.
  destruct stack as [|top rest]; cbn [step app].
  - destruct (Ascii.eqb_spec c ")"%char) as [->|]; [done|]. intros [= <-]. by destruct (opening c).
  - destruct (Ascii.eqb c top); [by intros [= <-]|]. destruct (Ascii.eqb top ")"%char); intros [= <-]; [|done].
    by destruct (opening c).
Qed.

Lemma within stack acc a stack' b : run stack a = Some stack' →
  run (stack ++ [")"%char]) (a +:+ b) = run (stack' ++ [")"%char]) b ∧
  words_acc (stack ++ [")"%char]) acc (a +:+ b) = words_acc (stack' ++ [")"%char]) (acc +:+ a) b.
Proof.
  revert stack acc. induction a as [|c a IH]; intros stack acc Hrun.
  - injection Hrun as ->. by rewrite SqlString.append_nil_r.
  - change (String c a +:+ b) with (String c (a +:+ b)). cbn [run words_acc] in *.
    destruct (step stack c) as [stack1|] eqn:Hs; [|done]. rewrite (step_within _ _ _ Hs). cbn [mbind option_bind] in *.
    destruct (IH stack1 (acc +:+ String c EmptyString) Hrun) as [-> ->]. split; [done|].
    rewrite bool_decide_eq_false_2 by by destruct stack. cbn [andb]. by rewrite SqlString.append_assoc.
Qed.

Lemma balanced_run s : balanced s = true ↔ run [] s = Some [].
Proof. unfold balanced. by rewrite bool_decide_eq_true. Qed.

Definition parens (s : string) : string := "(" +:+ s +:+ ")".
Lemma parens_word s : balanced s = true → balanced (parens s) = true ∧ top_words (parens s) = [parens s].
Proof.
  intros Hs%balanced_run. destruct (within [] "(" s [] ")" Hs) as [Hrun Hwords]. split.
  - apply balanced_run. exact Hrun.
  - transitivity (words_acc [")"%char] "(" (s +:+ ")")); [done|]. etransitivity; [exact Hwords|]. simpl.
    by rewrite SqlString.append_cons.
Qed.

Lemma top_words_app a b : balanced a = true → top_words (a +:+ " " +:+ b) = top_words a ++ top_words b.
Proof. intros Ha%balanced_run. by apply words_acc_app. Qed.

Lemma balanced_app a b : balanced a = true → balanced b = true → balanced (a +:+ b) = true.
Proof. rewrite !balanced_run, run_app. by intros ->. Qed.

Lemma words_ne stack acc s : ∃ w ws, words_acc stack acc s = w :: ws.
Proof.
  revert stack acc. induction s as [|c s IH]; intros stack acc; [by eexists _, _|].
  cbn [words_acc]. destruct (_ && _); [by eexists _, _|]. destruct (step stack c); [apply IH|by eexists _, _].
Qed.
Lemma words_join stack acc s : SqlString.join " " (words_acc stack acc s) = acc +:+ s.
Proof.
  revert stack acc. induction s as [|c s IH]; intros stack acc; [simpl; by rewrite SqlString.append_nil_r|].
  cbn [words_acc]. case (bool_decide (stack = []) && Ascii.eqb c space) eqn:Hsp.
  - apply andb_prop in Hsp as [_ ->%Ascii.eqb_eq].
    transitivity (acc +:+ " " +:+ SqlString.join " " (words_acc [] EmptyString s)); [|by rewrite IH].
    by destruct (words_ne [] EmptyString s) as (w & ws & ->).
  - destruct (step stack c); [|done]. rewrite IH. by rewrite SqlString.append_assoc.
Qed.
Lemma top_words_join s : SqlString.join " " (top_words s) = s.
Proof. apply words_join. Qed.

(** ** Cutting *)
Lemma cut_ne w l : ∃ g gs, cut w l = g :: gs.
Proof. destruct l as [|x l]; simpl; [by eexists _, _|]. destruct (String.eqb x w); [by eexists _, _|]. destruct (cut w l); by eexists _, _. Qed.

Lemma cut_app w l1 l2 : cut w (l1 ++ w :: l2) = cut w l1 ++ cut w l2.
Proof.
  induction l1 as [|x l1 IH]; simpl; [by rewrite String.eqb_refl|].
  destruct (String.eqb x w); [by rewrite IH|]. rewrite IH. destruct (cut_ne w l1) as (g & gs & ->). done.
Qed.

Lemma cut_absent w l : w ∉ l → cut w l = [l].
Proof.
  induction l as [|x l IH]; [done|]. intros [Hx Hl]%not_elem_of_cons. simpl.
  destruct (String.eqb_spec x w); [congruence|]. by rewrite IH.
Qed.

(** ** Conditions put together *)
Definition keyword (w : string) : Prop := w = "AND" ∨ w = "OR".
Definition spaced (w : string) : string := " " +:+ w +:+ " ".

Lemma atomic_spec s : atomic s = true ↔ balanced s = true ∧ ("AND" ∉ top_words s) ∧ ("OR" ∉ top_words s).
Proof. unfold atomic. rewrite !andb_true_iff, !bool_decide_eq_true. tauto. Qed.

Lemma join_cons2 sep a b l : SqlString.join sep (a :: b :: l) = a +:+ sep +:+ SqlString.join sep (b :: l).
Proof. done. Qed.

Lemma top_words_keyword w a b : keyword w → balanced a = true →
  top_words (a +:+ spaced w +:+ b) = top_words a ++ (w :: top_words b).
Proof.
  intros Hw Ha. unfold spaced. rewrite !SqlString.append_assoc.
  rewrite top_words_app by done. f_equal. destruct Hw as [->| ->]; by rewrite (top_words_app _ b).
Qed.

Lemma balanced_join w cs : keyword w → Forall (λ c, balanced c = true) cs → balanced (SqlString.join (spaced w) cs) = true.
Proof.
  intros Hw Hcs. induction Hcs as [|c cs Hc Hcs IH]; [done|]. destruct cs as [|d cs]; [done|].
  rewrite join_cons2. apply balanced_app; [done|]. apply balanced_app; [|done]. by destruct Hw as [->| ->].
Qed.

(** A disjunction of texts is the disjunction of what they say. *)
Lemma reading_or cs : cs ≠ [] → Forall (λ c, balanced c = true) cs →
  reading (SqlString.join (spaced "OR") cs) = concat (reading <$> cs).
Proof.
  intros Hne Hcs. induction Hcs as [|c cs Hc Hcs IH]; [done|]. destruct cs as [|d cs]; [simpl; by rewrite app_nil_r|].
  rewrite join_cons2. cbn [fmap list_fmap concat]. fold (reading <$> (d :: cs)). cbn [concat].
  unfold reading at 1. rewrite top_words_keyword, cut_app, fmap_app by (done || by right). f_equal.
  by apply IH.
Qed.

(** A conjunction of conditions without [OR] is the conjunction of their conjuncts. *)
Lemma reading_and cs : cs ≠ [] → Forall (λ c, balanced c = true ∧ "OR" ∉ top_words c) cs →
  reading (SqlString.join (spaced "AND") cs) = [concat ((λ c, SqlString.join " " <$> cut "AND" (top_words c)) <$> cs)].
Proof.
  intros Hne Hcs.
  assert (Hno : ("OR" ∉ top_words (SqlString.join (spaced "AND") cs)) ∧
    cut "AND" (top_words (SqlString.join (spaced "AND") cs)) = concat ((λ c, cut "AND" (top_words c)) <$> cs)).
  { induction Hcs as [|c cs [Hb Hc] Hcs IH]; [done|]. destruct cs as [|d cs]; [simpl; by rewrite app_nil_r|].
    rewrite join_cons2, top_words_keyword by (done || by left). destruct IH as [IHn IHc]; [done|]. split.
    - rewrite not_elem_of_app, not_elem_of_cons. done.
    - by rewrite cut_app, IHc. }
  destruct Hno as [Hno Hcut]. unfold reading. rewrite cut_absent by done. cbn [fmap list_fmap]. f_equal.
  rewrite Hcut. clear. induction cs as [|c cs IH]; [done|]. cbn [fmap list_fmap concat]. by rewrite fmap_app, IH.
Qed.

Lemma atomic_cut c : atomic c = true → (SqlString.join " " <$> cut "AND" (top_words c)) = [c].
Proof. intros (_ & Ha & _)%atomic_spec. rewrite cut_absent by done. cbn [fmap list_fmap]. by rewrite top_words_join. Qed.

Lemma reading_conditions cs : cs ≠ [] → Forall (λ c, atomic c = true) cs →
  reading (SqlString.join (spaced "AND") cs) = [cs].
Proof.
  intros Hne Hcs. rewrite reading_and; [|done|].
  - f_equal. clear Hne. induction Hcs as [|c cs Hc Hcs IH]; [done|]. cbn [fmap list_fmap concat].
    by rewrite atomic_cut, IH.
  - eapply Forall_impl; [done|]. intros c (?&?&?)%atomic_spec. done.
Qed.

(** A text without [OR] between its brackets. *)
Definition no_or (s : string) : Prop := balanced s = true ∧ ("OR" ∉ top_words s).
#[export] Instance no_or_dec s : Decision (no_or s).
Proof. unfold no_or. apply _. Defined.

Lemma no_or_join cs : Forall no_or cs → no_or (SqlString.join (spaced "AND") cs).
Proof.
  intros Hcs. split; [apply balanced_join; [by left|]; eapply Forall_impl; [exact Hcs|by intros c []]|].
  induction Hcs as [|c cs [Hb Hc] Hcs IH]; [change (("OR" : string) ∉ [EmptyString]); by rewrite list_elem_of_singleton|].
  destruct cs as [|d cs]; [done|]. rewrite join_cons2, top_words_keyword by (done || by left).
  rewrite not_elem_of_app, not_elem_of_cons. done.
Qed.
Lemma no_or_reading cs : cs ≠ [] → Forall no_or cs → ∃ conjuncts,
  reading (SqlString.join (spaced "AND") cs) = [conjuncts] ∧ ∀ c, c ∈ cs → atomic c = true → c ∈ conjuncts.
Proof.
  intros Hne Hcs. eexists. split; [by apply reading_and|].
  intros c Hc Ha. apply list_elem_of_In, in_concat. exists [c]. split; [|by left].
  apply list_elem_of_In, list_elem_of_fmap. exists c. by rewrite atomic_cut.
Qed.

Lemma parens_atomic s : balanced s = true → atomic (parens s) = true.
Proof.
  intros Hs. destruct (parens_word s Hs) as [Hb Hw]. apply atomic_spec. rewrite Hw, !list_elem_of_singleton.
  split_and!; done.
Qed.

(** ** Words *)
Definition word_char (c : ascii) : bool :=
  negb (Ascii.eqb c space || Ascii.eqb c ")"%char || bool_decide (is_Some (opening c))).
Fixpoint wordy (s : string) : bool :=
  match s with EmptyString => true | String c s => word_char c && wordy s end.

Lemma wordy_app a b : wordy a = true → wordy b = true → wordy (a +:+ b) = true.
Proof.
  induction a as [|c a IH]; [done|]. change (String c a +:+ b) with (String c (a +:+ b)). cbn [wordy].
  intros [-> Ha]%andb_prop Hb. by apply IH.
Qed.

Lemma wordy_words acc s : wordy s = true → run [] s = Some [] ∧ words_acc [] acc s = [acc +:+ s].
Proof.
  revert acc. induction s as [|c s IH]; intros acc; [intros _; by rewrite SqlString.append_nil_r|].
  cbn [wordy]. intros [Hc Hs]%andb_prop. unfold word_char in Hc.
  apply negb_true_iff, orb_false_iff in Hc as [[Hsp Hcl]%orb_false_iff Hop%bool_decide_eq_false].
  cbn [run words_acc step]. rewrite Hsp, Hcl, andb_false_r.
  destruct (opening c) as [e|]; [by destruct Hop|]. cbn [mbind option_bind].
  destruct (IH (acc +:+ String c EmptyString) Hs) as [-> ->]. by rewrite SqlString.append_assoc.
Qed.
Lemma wordy_word s : wordy s = true → balanced s = true ∧ top_words s = [s].
Proof. intros Hs. destruct (wordy_words EmptyString s Hs) as [Hr Hw]. split; [by apply balanced_run|exact Hw]. Qed.

Lemma pretty_N_char_word x : word_char (pretty_N_char x) = true.
Proof. unfold pretty_N_char. by repeat case_match. Qed.
Lemma pretty_N_go_wordy x s : wordy s = true → wordy (pretty_N_go x s) = true.
Proof.
  revert s. induction (N.lt_wf_0 x) as [x _ IH]; intros s Hs. destruct (decide (x = 0)%N) as [->|Hx]; [done|].
  rewrite pretty_N_go_step by lia. apply IH; [apply N.div_lt; lia|]. cbn [wordy]. by rewrite pretty_N_char_word.
Qed.
Lemma pretty_wordy (n : nat) : wordy (pretty n) = true.
Proof. unfold pretty, pretty_nat, pretty, pretty_N. case_decide; [done|]. by apply pretty_N_go_wordy. Qed.

(** ** Pieces: texts without a space between their brackets *)
Definition piece (s : string) : Prop :=
  ∀ acc b, run [] (s +:+ b) = run [] b ∧ words_acc [] acc (s +:+ b) = words_acc [] (acc +:+ s) b.

Lemma piece_app a b : piece a → piece b → piece (a +:+ b).
Proof.
  intros Ha Hb acc t. rewrite SqlString.append_assoc. destruct (Ha acc (b +:+ t)) as [-> ->].
  destruct (Hb (acc +:+ a) t) as [-> ->]. by rewrite SqlString.append_assoc.
Qed.
Lemma piece_word s : piece s → balanced s = true ∧ top_words s = [s].
Proof.
  intros Hs. destruct (Hs EmptyString EmptyString) as [Hr Hw]. rewrite SqlString.append_nil_r in Hr, Hw.
  split; [by apply balanced_run|exact Hw].
Qed.
Lemma piece_balanced s : piece s → balanced s = true.
Proof. intros Hs. by apply piece_word. Qed.
Lemma wordy_piece s : wordy s = true → piece s.
Proof.
  induction s as [|c s IH]; intros Hs acc b; [by rewrite SqlString.append_nil_r|].
  cbn [wordy] in Hs. apply andb_prop in Hs as [Hc Hs]. unfold word_char in Hc.
  apply negb_true_iff, orb_false_iff in Hc as [[Hsp Hcl]%orb_false_iff Hop%bool_decide_eq_false].
  change (String c s +:+ b) with (String c (s +:+ b)). cbn [run words_acc step]. rewrite Hsp, Hcl, andb_false_r.
  destruct (opening c) as [e|]; [by destruct Hop|]. cbn [mbind option_bind].
  destruct (IH Hs (acc +:+ String c EmptyString) b) as [-> ->]. by rewrite SqlString.append_assoc.
Qed.
Lemma parens_piece s : balanced s = true → piece (parens s).
Proof.
  intros Hs%balanced_run acc b. destruct (within [] (acc +:+ "(") s [] (")" +:+ b) Hs) as [Hrun Hwords].
  unfold parens. rewrite !SqlString.append_assoc. split; [exact Hrun|].
  transitivity (words_acc [")"%char] (acc +:+ "(") (s +:+ ")" +:+ b)); [done|]. etransitivity; [exact Hwords|].
  change (words_acc [] (((acc +:+ "(") +:+ s) +:+ ")") b = words_acc [] (acc +:+ "(" +:+ s +:+ ")") b).
  by rewrite !SqlString.append_assoc.
Qed.

(** What is between quotes or square brackets does not matter, up to the character
    that closes it. *)
Definition enclosed (o c : ascii) (s : string) : string := String o EmptyString +:+ s +:+ String c EmptyString.
Lemma inert c s acc b : c ≠ ")"%char → SqlString.free_of c s →
  run [c] (s +:+ b) = run [c] b ∧ words_acc [c] acc (s +:+ b) = words_acc [c] (acc +:+ s) b.
Proof.
  intros Hc. revert acc. induction s as [|x s IH]; intros acc Hs; [by rewrite SqlString.append_nil_r|].
  destruct Hs as [Hx Hs]. change (String x s +:+ b) with (String x (s +:+ b)). cbn [run words_acc step].
  destruct (Ascii.eqb_spec x c); [done|]. destruct (Ascii.eqb_spec c ")"%char); [done|].
  rewrite bool_decide_eq_false_2 by done. cbn [andb mbind option_bind].
  destruct (IH (acc +:+ String x EmptyString) Hs) as [-> ->]. by rewrite SqlString.append_assoc.
Qed.
Lemma enclosed_piece o c s : opening o = Some c → c ≠ ")"%char → o ≠ space → o ≠ ")"%char → SqlString.free_of c s → piece (enclosed o c s).
Proof.
  intros Ho Hc Hsp Hcl Hs acc b. unfold enclosed. rewrite !SqlString.append_assoc.
  change (String o EmptyString +:+ s +:+ String c EmptyString +:+ b) with (String o (s +:+ String c b)).
  destruct (inert c s (acc +:+ String o EmptyString) (String c b) Hc Hs) as [Hrun Hwords].
  cbn [run words_acc step]. destruct (Ascii.eqb_spec o ")"%char); [done|]. destruct (Ascii.eqb_spec o space); [done|].
  rewrite Ho, andb_false_r. cbn [mbind option_bind]. rewrite Hrun, Hwords. cbn [run words_acc step].
  rewrite Ascii.eqb_refl. cbn [mbind option_bind]. rewrite bool_decide_eq_false_2 by done. cbn [andb].
  by rewrite !SqlString.append_assoc.
Qed.
Definition bracketed : string → string := enclosed "["%char "]"%char.
Definition quoted_text : string → string := enclosed quote quote.
Lemma bracketed_piece s : SqlString.free_of "]"%char s → piece (bracketed s).
Proof. intros Hs. apply enclosed_piece; (reflexivity || discriminate || exact Hs). Qed.
Lemma quoted_piece s : SqlString.free_of quote s → piece (quoted_text s).
Proof. intros Hs. apply enclosed_piece; (reflexivity || discriminate || exact Hs). Qed.

Lemma piece_atomic s : piece s → s ≠ "AND" → s ≠ "OR" → atomic s = true.
Proof. intros [Hb Hw]%piece_word Ha Ho. apply atomic_spec. by rewrite Hw, !list_elem_of_singleton. Qed.
Lemma atomic_app a b : atomic a = true → atomic b = true → atomic (a +:+ " " +:+ b) = true.
Proof.
  intros (Ha & Ha1 & Ha2)%atomic_spec (Hb & Hb1 & Hb2)%atomic_spec. apply atomic_spec.
  rewrite top_words_app, !not_elem_of_app by done. split; [|done]. apply balanced_app; [done|]. by apply balanced_app.
Qed.
