(* ===== verification/Database.v ===== *)
(** * The database the executor writes

    The tables named by the SQL of [crates/sqlite/sqlite/src/executor], as finite
    maps on their primary keys (lists where a table has none), and the effect of
    each of those statements. A text column that holds the printed form of a
    felt, a token id or a balance id keeps the value itself ([SqlString] has the
    printing); [models] is keyed by its text id. What the executor's own
    statements do not name is [rest]. *)

From S2P Require Import Prelude Proto SqlString Traits.
Import Traits.

(** [torii_sqlite_types::Contract], without its two timestamps *)
Record Contract : Type := mkContract {
  contract_address : Felt;
  contract_type : ContractType;
  contract_head : option Z;
  contract_tps : option Z;
  contract_last_block_timestamp : option Z;
  contract_last_pending_block_tx : option Felt
}.

Record TransactionCall : Type := mkCall {
  call_contract_address : Felt;
  entrypoint : string;
  calldata : list Felt;
  call_type : string;
  caller_address : Felt
}.

(** The stored columns of [torii_sqlite_types::Entity]. *)
Record EntityRow : Type := mkEntityRow {
  entity_row_id : string;
  entity_keys : string;
  entity_event_id : string;
  entity_executed_at : string
}.

(** A row of [entities_historical] or [event_messages_historical]. *)
Record HistoricalRow : Type := mkHistorical {
  hist_id : string;
  hist_keys : option string;
  hist_event_id : string;
  hist_data : string;
  hist_model_id : string;
  hist_executed_at : string;
  hist_world_address : string;
  hist_entity_id : string
}.

(** [torii_sqlite_types::Token] with the [traits] column *)
Record Token : Type := mkToken {
  token_name : string;
  token_symbol : string;
  token_decimals : Z;
  token_metadata : string;
  total_supply : option U256;
  token_traits : string
}.

(** [torii_sqlite_types::Activity]; [actions] is the decoded JSON object, in
    insertion order, times are in seconds. *)
Record Activity : Type := mkActivity {
  activity_id : string;
  activity_world_address : Felt;
  activity_namespace : string;
  activity_caller_address : Felt;
  session_start : Z;
  session_end : Z;
  action_count : Z;
  actions : list (string * Z)
}.

Record Database `{DojoTypes} (Rest : Type) : Type := mkDatabase {
  contracts : gmap Felt Contract;
  transaction_contract : gset (Felt * Felt);
  transaction_models : gset (Felt * Felt);
  transaction_calls : list (Felt * TransactionCall);
  models : gmap string (string * Ty);
  entities : gmap string EntityRow;
  entity_model : gmap (string * string) Z;
  entities_historical : list HistoricalRow;
  event_model : gmap (string * string) Z;
  event_messages_historical : list HistoricalRow;
  tokens : gmap TokenId Token;
  token_attributes : gmap string (TokenId * TokenTrait);
  token_balances : gmap BalanceId U256;
  activities : list Activity;
  rest : Rest
}.
Arguments mkDatabase {_ Rest}.
Arguments contracts {_ Rest}.
Arguments transaction_contract {_ Rest}.
Arguments transaction_models {_ Rest}.
Arguments transaction_calls {_ Rest}.
Arguments models {_ Rest}.
Arguments entities {_ Rest}.
Arguments entity_model {_ Rest}.
Arguments entities_historical {_ Rest}.
Arguments event_model {_ Rest}.
Arguments event_messages_historical {_ Rest}.
Arguments tokens {_ Rest}.
Arguments token_attributes {_ Rest}.
Arguments token_balances {_ Rest}.
Arguments activities {_ Rest}.
Arguments rest {_ Rest}.

Section updates.
Context `{DojoTypes} {Rest : Type}.
#[local] Abbreviation db := (Database Rest).
Implicit Types d : db.

Definition set_contracts x d : db :=
  mkDatabase x (transaction_contract d) (transaction_models d) (transaction_calls d) (models d)
    (entities d) (entity_model d) (entities_historical d) (event_model d)
    (event_messages_historical d) (tokens d) (token_attributes d) (token_balances d)
    (activities d) (rest d).
Definition set_transaction_contract x d : db :=
  mkDatabase (contracts d) x (transaction_models d) (transaction_calls d) (models d)
    (entities d) (entity_model d) (entities_historical d) (event_model d)
    (event_messages_historical d) (tokens d) (token_attributes d) (token_balances d)
    (activities d) (rest d).
Definition set_transaction_models x d : db :=
  mkDatabase (contracts d) (transaction_contract d) x (transaction_calls d) (models d)
    (entities d) (entity_model d) (entities_historical d) (event_model d)
    (event_messages_historical d) (tokens d) (token_attributes d) (token_balances d)
    (activities d) (rest d).
Definition set_transaction_calls x d : db :=
  mkDatabase (contracts d) (transaction_contract d) (transaction_models d) x (models d)
    (entities d) (entity_model d) (entities_historical d) (event_model d)
    (event_messages_historical d) (tokens d) (token_attributes d) (token_balances d)
    (activities d) (rest d).
Definition set_entities x d : db :=
  mkDatabase (contracts d) (transaction_contract d) (transaction_models d) (transaction_calls d)
    (models d) x (entity_model d) (entities_historical d) (event_model d)
    (event_messages_historical d) (tokens d) (token_attributes d) (token_balances d)
    (activities d) (rest d).
Definition set_entity_model x d : db :=
  mkDatabase (contracts d) (transaction_contract d) (transaction_models d) (transaction_calls d)
    (models d) (entities d) x (entities_historical d) (event_model d)
    (event_messages_historical d) (tokens d) (token_attributes d) (token_balances d)
    (activities d) (rest d).
Definition set_entities_historical x d : db :=
  mkDatabase (contracts d) (transaction_contract d) (transaction_models d) (transaction_calls d)
    (models d) (entities d) (entity_model d) x (event_model d)
    (event_messages_historical d) (tokens d) (token_attributes d) (token_balances d)
    (activities d) (rest d).
Definition set_event_model x d : db :=
  mkDatabase (contracts d) (transaction_contract d) (transaction_models d) (transaction_calls d)
    (models d) (entities d) (entity_model d) (entities_historical d) x
    (event_messages_historical d) (tokens d) (token_attributes d) (token_balances d)
    (activities d) (rest d).
Definition set_event_messages_historical x d : db :=
  mkDatabase (contracts d) (transaction_contract d) (transaction_models d) (transaction_calls d)
    (models d) (entities d) (entity_model d) (entities_historical d) (event_model d) x
    (tokens d) (token_attributes d) (token_balances d) (activities d) (rest d).
Definition set_tokens x d : db :=
  mkDatabase (contracts d) (transaction_contract d) (transaction_models d) (transaction_calls d)
    (models d) (entities d) (entity_model d) (entities_historical d) (event_model d)
    (event_messages_historical d) x (token_attributes d) (token_balances d) (activities d) (rest d).
Definition set_token_attributes x d : db :=
  mkDatabase (contracts d) (transaction_contract d) (transaction_models d) (transaction_calls d)
    (models d) (entities d) (entity_model d) (entities_historical d) (event_model d)
    (event_messages_historical d) (tokens d) x (token_balances d) (activities d) (rest d).
Definition set_token_balances x d : db :=
  mkDatabase (contracts d) (transaction_contract d) (transaction_models d) (transaction_calls d)
    (models d) (entities d) (entity_model d) (entities_historical d) (event_model d)
    (event_messages_historical d) (tokens d) (token_attributes d) x (activities d) (rest d).
Definition set_activities x d : db :=
  mkDatabase (contracts d) (transaction_contract d) (transaction_models d) (transaction_calls d)
    (models d) (entities d) (entity_model d) (entities_historical d) (event_model d)
    (event_messages_historical d) (tokens d) (token_attributes d) (token_balances d) x (rest d).
End updates.
