(* ===== verification/Executor.v ===== *)
(** * The executor ([crates/sqlite/sqlite/src/executor]: mod.rs, erc.rs, activity.rs)

    One task owns the database: it takes query messages from a channel, runs
    them in an open transaction, publishes optimistic updates as it goes and
    queues the same updates, which are published for good when the transaction
    commits and dropped when it is rolled back. [Executor] is that task's state;
    the pool is the committed database. [handle_query_message] is one definition
    per kind of message.

    Outside the repository, and parameters here ([ExecutorEnv]): SQLite running
    the statement of a message, the decoding of its rows, which statements fail
    (any may), the clock, the size of the write-ahead log, the provider and the
    parsers of its answers, and the operations of [Ty]. The updates of aggregations
    and achievements are actions on the database, which [Leaderboards.v] gives. *)

From S2P Require Import Prelude Math Proto SqlString Traits Database Cache.
From stdpp Require Import pretty.
From Stdlib Require Import Ascii.
Import Math SqlString Traits.
Local Open Scope Z_scope.
Local Open Scope torii_scope.

Inductive Argument : Type :=
| ArgNull
| ArgInt (i : Z)
| ArgBool (b : bool)
| ArgString (s : string)
| ArgFieldElement (f : Felt).

Inductive ExecutorError : Type := ExecutorProvider | ExecutorSqlx.

Inductive ExecutorQueryError : Type :=
| QSqlite
| QProvider
| QSqlx
| QParse
| QPrimitive
| QExecutor (e : ExecutorError)
| QModelNotFound (model_id : string)
| QModelMappingError (model_id : string).

(** A response of a batch request: the felts of a call, or something else. *)
Inductive ProviderResponseData : Type := CallResponse (felts : list Felt) | OtherResponse.

(** [torii_sqlite_types::Transaction]: the columns the executor reads; the
    others are the payload. *)
Record TransactionRow (TxData : Type) : Type := mkTransactionRow {
  transaction_hash : Felt;
  executed_at : Z;
  tx_data : TxData
}.
Arguments mkTransactionRow {TxData}.
Arguments transaction_hash {TxData}.
Arguments executed_at {TxData}.
Arguments tx_data {TxData}.

Class ExecutorEnv : Type := {
  env_dojo :: DojoTypes;
  env_json :: SerdeJson;
  Rest : Type;
  Row : Type;
  ModelRow : Type;
  EventRow : Type;
  TransferRow : Type;
  TxData : Type;
  AggregatorConfig : Type;
  AggregationEntry : Type;
  Progression : Type;
  (** the statement of a message: its rows and [rows_affected], or an error *)
  run_statement : string → list Argument → Database Rest → option (list Row * Z) * Database Rest;
  entity_of_row : Row → option EntityRow;
  contract_of_row : Row → option Contract;
  transaction_of_row : Row → option (TransactionRow TxData);
  model_of_row : Row → option ModelRow;
  event_of_row : Row → option EventRow;
  transfer_of_row : Row → option TransferRow;
  (** [SELECT * FROM [table] WHERE internal_id = ?] *)
  select_model_table : string → string → Database Rest → option Row;
  map_row_to_ty : Ty → Row → option Ty;
  ty_name : Ty → string;
  (** [serde_json::to_string(&ty.to_json_value()?)] *)
  ty_to_json : Ty → outcome ExecutorQueryError string;
  (** [Ty::Struct(Struct { name, children: vec![] })] *)
  ty_empty_struct : string → Ty;
  agg_model_tag : AggregatorConfig → string;
  update_aggregation : AggregatorConfig → Ty → string → Database Rest →
    outcome ExecutorQueryError (option AggregationEntry) * Database Rest;
  register_achievement : string → string → Ty → Database Rest →
    outcome ExecutorQueryError (option string) * Database Rest;
  update_achievement_progression : string → string → Ty → Database Rest →
    outcome ExecutorQueryError (option Progression) * Database Rest;
  (** [provider.call], by entry point name *)
  provider_call : Felt → string → list Felt → Cache.BlockId → option (list Felt);
  provider_batch_name_symbol : Felt → option (list ProviderResponseData);
  parse_cairo_short_string : Felt → option string;
  byte_array_to_string : list Felt → option string;
  cairo_u256_deserialize : list Felt → option U256;
  (** does the [n]-th statement of the run fail, what does the clock say then *)
  sql_fails : nat → bool;
  unix_now : nat → Z;
  wal_size : nat → option Z
}.

Module Ex.

Section data.
Context `{ExecutorEnv}.

Record EntityUpdateMessage : Type := mkEntityUpdate {
  eu_row : EntityRow;
  eu_updated_model : option Ty;
  eu_match_model : option Ty;
  eu_deleted : bool
}.

Inductive BrokerMessage : Type :=
| ContractUpdate (c : Contract)
| ModelRegistered (m : ModelRow)
| EntityUpdate (e : EntityUpdateMessage)
| EventMessageUpdate (e : EntityUpdateMessage)
| EventEmitted (e : EventRow)
| TokenRegistered (id : TokenId) (t : Token)
| TokenBalanceUpdated (id : BalanceId) (balance : U256)
| TokenTransfer (t : TransferRow)
| TransactionMessage (t : TransactionRow TxData) (contract_addresses : gset Felt)
    (calls : list TransactionCall) (unique_models : gset Felt)
| AggregationUpdated (e : AggregationEntry)
| ActivityUpdated (a : Activity).

Record DeleteEntityQuery : Type := mkDelete {
  del_entity_id : string; del_model_id : string; del_event_id : string;
  del_block_timestamp : string; del_ty : Ty
}.
Record ApplyBalanceDiffQuery : Type := mkApply {
  q_balances_diff : gmap BalanceId I256;
  q_total_supply_diff : gmap TokenId I256;
  q_cursors : gmap Felt ContractCursor
}.
Record EventMessageQuery : Type := mkEventMessage {
  em_world_address : string; em_entity_id : string; em_model_id : string; em_keys_str : string;
  em_event_id : string; em_block_timestamp : string; em_is_historical : bool; em_ty : Ty
}.
Record StoreTransactionQuery : Type := mkStoreTransaction {
  st_contract_addresses : gset Felt; st_calls : list TransactionCall; st_unique_models : gset Felt
}.
Record EntityQuery : Type := mkEntityQuery {
  eq_entity_id : string; eq_model_id : string; eq_keys_str : option string; eq_event_id : string;
  eq_block_timestamp : string; eq_is_historical : bool; eq_ty : Ty
}.
Record UpdateCursorsQuery : Type := mkUpdateCursors {
  uc_cursors : gmap Felt ContractCursor; uc_cursor_transactions : gmap Felt (gset Felt)
}.
Record RegisterNftTokenQuery : Type := mkRegisterNft {
  nft_contract_address : Felt; nft_token_id : U256; nft_metadata : string
}.
Record UpdateTokenMetadataQuery : Type := mkUpdateMetadata {
  um_token_id : TokenId; um_metadata : string
}.
Record RegisterTokenContractQuery : Type := mkRegisterContract {
  rc_contract_address : Felt; rc_name : string; rc_symbol : string; rc_decimals : Z;
  rc_metadata : option string
}.

Inductive QueryType : Type :=
| StoreTransaction (q : StoreTransactionQuery)
| UpdateCursors (q : UpdateCursorsQuery)
| SetEntity (q : EntityQuery)
| DeleteEntity (q : DeleteEntityQuery)
| EventMessage (q : EventMessageQuery)
| ApplyBalanceDiff (q : ApplyBalanceDiffQuery)
| RegisterNftToken (q : RegisterNftTokenQuery)
| RegisterTokenContract (q : RegisterTokenContractQuery)
| RegisterModel
| RegisterContract
| StoreEvent
| StoreTokenTransfer
| UpdateTokenMetadata (q : UpdateTokenMetadataQuery)
| Execute
| Rollback
| Other.

(** A message; whether its sender waits for the result does not matter here. *)
Record QueryMessage : Type := mkQuery {
  statement : string; arguments : list Argument; query_type : QueryType
}.

(** [QueryMessage::other], [execute], [rollback_recv] *)
Definition other_message (statement : string) (arguments : list Argument) : QueryMessage :=
  mkQuery statement arguments Other.
Definition execute_message : QueryMessage := mkQuery "" [] Execute.
Definition rollback_message : QueryMessage := mkQuery "" [] Rollback.

Record SqlConfig : Type := mkSqlConfig {
  aggregators : list AggregatorConfig;
  wal_truncate_size_threshold : Z;
  optimize_interval : Z;
  activity_enabled : bool;
  activity_session_timeout : Z;
  activity_excluded_entrypoints : gset string;
  cfg_token_attributes : bool;
  cfg_trait_counts : bool;
  achievement_registration_model_name : string;
  achievement_progression_model_name : string
}.

#[local] Abbreviation db := (Database Rest).

(** [published] is what the broker was given, with its [optimistic] flag;
    [progressions] what it was given without one; [clock] counts statements. *)
Record Executor : Type := mkExecutor {
  pool : db;
  transaction : option db;
  publish_queue : list BrokerMessage;
  config : SqlConfig;
  last_optimization : option Z;
  published : list (BrokerMessage * bool);
  progressions : list Progression;
  clock : nat
}.

Definition set_pool x s := mkExecutor x (transaction s) (publish_queue s) (config s)
  (last_optimization s) (published s) (progressions s) (clock s).
Definition set_transaction x s := mkExecutor (pool s) x (publish_queue s) (config s)
  (last_optimization s) (published s) (progressions s) (clock s).
Definition set_queue x s := mkExecutor (pool s) (transaction s) x (config s)
  (last_optimization s) (published s) (progressions s) (clock s).
Definition set_last_optimization x s := mkExecutor (pool s) (transaction s) (publish_queue s)
  (config s) x (published s) (progressions s) (clock s).
Definition set_published x s := mkExecutor (pool s) (transaction s) (publish_queue s) (config s)
  (last_optimization s) x (progressions s) (clock s).
Definition set_progressions x s := mkExecutor (pool s) (transaction s) (publish_queue s) (config s)
  (last_optimization s) (published s) x (clock s).
Definition tick s := mkExecutor (pool s) (transaction s) (publish_queue s) (config s)
  (last_optimization s) (published s) (progressions s) (S (clock s)).

(** [SqlConfig] *)
Definition get_aggregator_for_model (model_tag : string) (c : SqlConfig) : list AggregatorConfig :=
  filter (λ a, agg_model_tag a = model_tag) (aggregators c).
Definition is_achievement_registration_model_name (model_name : string) (c : SqlConfig) : bool :=
  bool_decide (achievement_registration_model_name c = model_name).
Definition is_achievement_progression_model_name (model_name : string) (c : SqlConfig) : bool :=
  bool_decide (achievement_progression_model_name c = model_name).

(** [Executor::new]: the pool opens a transaction. *)
Definition new (d : db) (c : SqlConfig) : Executor := mkExecutor d (Some d) [] c None [] [] 0.
End data.

Section operations.
Context `{ExecutorEnv} {U : U256Ops} {HO : HashOrder}.
#[local] Abbreviation db := (Database Rest).
#[local] Abbreviation exec A := (st Executor ExecutorQueryError A).

(** ** Statements *)

(** A statement in the open transaction: it may fail, and then changes nothing. *)
Definition sql_try {A} (f : db → option (A * db)) : exec A := λ s,
  match transaction s with
  | None => (Panic, s)
  | Some d =>
      if sql_fails (clock s) then (Err QSqlx, tick s)
      else match f d with
           | None => (Err QSqlx, tick s)
           | Some (a, d') => (Ok a, set_transaction (Some d') (tick s))
           end
  end.
Definition sql_exec (f : db → db) : exec unit := sql_try (λ d, Some (tt, f d)).
Definition sql_get {A} (f : db → A) : exec A := sql_try (λ d, Some (f d, d)).

(** A part of the executor that updates the database and whose error the caller
    logs and drops; a panic is one of the executor. *)
Definition sql_sub {A} (f : db → outcome ExecutorQueryError A * db) : exec (option A) := λ s,
  match transaction s with
  | None => (Panic, s)
  | Some d =>
      let '(r, d') := f d in
      (match r with Ok a => Ok (Some a) | Err _ => Ok None | Panic => Panic end,
       set_transaction (Some d') (tick s))
  end.

(** [query.execute(tx)], [query.fetch_one(tx)] on the message's own statement *)
Definition query_execute (m : QueryMessage) : exec (list Row * Z) :=
  sql_try (λ d, match run_statement (statement m) (arguments m) d with
                | (Some r, d') => Some (r, d')
                | (None, _) => None
                end).
Definition fetch_one (m : QueryMessage) : exec Row :=
  let! (rows, _) := query_execute m in
  st_lift (ok_or QSqlx (rows !! 0%nat)).

(** ** Publishing *)
Definition send_broker_message (message : BrokerMessage) (optimistic : bool) (s : Executor)
  : Executor := set_published (published s ++ [(message, optimistic)]) s.

Definition publish_optimistic_and_queue (message : BrokerMessage) : exec unit :=
  st_modify (λ s, let s := send_broker_message message true s in
                  set_queue (publish_queue s ++ [message]) s).

(** ** UpdateCursors *)
Definition i64_max : Z := 2 ^ 63 - 1.
(** [x as i64], [x as u64] *)
Definition as_i64 (x : Z) : Z := if x mod 2 ^ 64 <=? i64_max then x mod 2 ^ 64 else x mod 2 ^ 64 - 2 ^ 64.
Definition as_u64 (x : Z) : Z := x mod 2 ^ 64.

Definition new_tps (now num_transactions new_timestamp cursor_timestamp : Z) : Z :=
  let delta := u64_sub new_timestamp cursor_timestamp in
  if negb (delta =? 0) then num_transactions / delta
  else
    let diff := if cursor_timestamp <=? now then now - cursor_timestamp else 0 in
    if diff >? 0 then num_transactions / diff else num_transactions.

(** The new row of a contract that has a cursor; [None] is a panic. *)
Definition updated_contract (now num_transactions : Z) (new_cursor : ContractCursor)
    (cursor : Contract) : option Contract :=
  let new_head := default 0 (Proto.head new_cursor) in
  let new_timestamp := default 0 (last_block_timestamp new_cursor) in
  let cursor_timestamp := as_u64 (default 0 (contract_last_block_timestamp cursor)) in
  let tps := new_tps now num_transactions new_timestamp cursor_timestamp in
  if decide (tps ≤ i64_max ∧ new_timestamp ≤ i64_max) then
    Some (mkContract (contract_address cursor) (contract_type cursor) (Some (as_i64 new_head))
            (Some tps) (Some new_timestamp) (last_pending_block_tx new_cursor))
  else None.

(** [UPDATE contracts SET head, last_block_timestamp, last_pending_block_tx
    WHERE id = ?]; [tps] is not among the columns. *)
Definition update_contract_row (c : Contract) (d : db) : db :=
  set_contracts (alter (λ old, mkContract (contract_address old) (contract_type old)
    (contract_head c) (contract_tps old) (contract_last_block_timestamp c)
    (contract_last_pending_block_tx c)) (contract_address c) (contracts d)) d.

(** The body of the loop over the contracts. *)
Definition update_cursor (q : UpdateCursorsQuery) (cursor : Contract) : exec (option BrokerMessage) :=
  match uc_cursors q !! contract_address cursor with
  | None => st_ret None
  | Some new_cursor =>
      let num_transactions :=
        Z.of_nat (size (default ∅ (uc_cursor_transactions q !! contract_address cursor))) in
      let! s := st_get in
      let! cursor :=
        st_lift (unwrap (updated_contract (unix_now (clock s)) num_transactions new_cursor cursor)) in
      sql_exec (update_contract_row cursor) ;;;
      st_ret (Some (ContractUpdate cursor))
  end.

Definition handle_update_cursors (q : UpdateCursorsQuery) : exec unit :=
  let! contracts := sql_get (λ d, hm_values (contracts d)) in
  let! updates := st_mapM (update_cursor q) contracts in
  for_each publish_optimistic_and_queue (omap id updates).

(** ** Activities *)
Definition u32_incr (x : Z) : Z := (x + 1) mod 2 ^ 32.
Definition i32_incr (x : Z) : Z := if x =? 2 ^ 31 - 1 then - 2 ^ 31 else x + 1.

(** [*counts.entry(k).or_insert(0) += 1] *)
Fixpoint bump_action (k : string) (l : list (string * Z)) : list (string * Z) :=
  match l with
  | [] => [(k, 1)]
  | (k', n) :: l => if decide (k' = k) then (k', u32_incr n) :: l else (k', n) :: bump_action k l
  end.

Definition same_session (world namespace : _) (caller : Felt) (a : Activity) : bool :=
  bool_decide (activity_world_address a = world ∧ activity_namespace a = namespace ∧
               activity_caller_address a = caller).

(** [ORDER BY session_end DESC LIMIT 1] *)
Definition latest_session (l : list Activity) : option Activity :=
  foldr (λ a best, match best with
                   | Some b => if session_end a <? session_end b then Some b else Some a
                   | None => Some a
                   end) None l.

Definition session_id (world : Felt) (namespace : string) (caller : Felt) (executed_at : Z) : string :=
  felt_to_sql_string world +:+ ":" +:+ namespace +:+ ":" +:+ felt_to_sql_string caller +:+ ":" +:+
  pretty executed_at.

Definition create_new_session (world : Felt) (namespace : string) (caller : Felt)
    (entrypoint : string) (executed_at : Z) : exec Activity :=
  let a := mkActivity (session_id world namespace caller executed_at) world namespace caller
             executed_at executed_at 1 [(entrypoint, 1)] in
  sql_try (λ d, if existsb (λ b, bool_decide (activity_id b = activity_id a)) (activities d) then None
                else Some (tt, set_activities (activities d ++ [a]) d)) ;;;
  st_ret a.

Definition update_activity (world : Felt) (namespace : string) (caller : Felt) (entrypoint : string)
    (executed_at session_timeout : Z) (excluded_entrypoints : gset string) : exec (option Activity) :=
  if bool_decide (entrypoint ∈ excluded_entrypoints) then st_ret None
  else
    let! last_session :=
      sql_get (λ d, latest_session (List.filter (same_session world namespace caller) (activities d))) in
    let! activity :=
      match last_session with
      | Some a =>
          let time_diff := executed_at - session_end a in
          if time_diff <=? as_i64 session_timeout then
            let a' := mkActivity (activity_id a) world namespace caller (session_start a) executed_at
                        (i32_incr (action_count a)) (bump_action entrypoint (actions a)) in
            sql_exec (λ d, set_activities
              ((λ b, if decide (activity_id b = activity_id a)
                     then mkActivity (activity_id b) (activity_world_address b) (activity_namespace b)
                            (activity_caller_address b) (session_start b) executed_at
                            (action_count a') (actions a')
                     else b) <$> activities d) d) ;;;
            st_ret a'
          else create_new_session world namespace caller entrypoint executed_at
      | None => create_new_session world namespace caller entrypoint executed_at
      end in
    st_ret (Some activity).

(** [DELETE FROM activities WHERE session_end < ?], with [rows_affected] *)
Definition cleanup_old_activities (days_to_keep : Z) : exec nat :=
  let! s := st_get in
  let cutoff_date := unix_now (clock s) - days_to_keep * 86400 in
  sql_try (λ d, Some (length (List.filter (λ a, session_end a <? cutoff_date) (activities d)),
    set_activities (List.filter (λ a, negb (session_end a <? cutoff_date)) (activities d)) d)).

(** An [Err] is logged and dropped. *)
Definition log_error {A} (m : exec (option A)) : exec (option A) := λ s,
  match m s with
  | (Ok r, s') => (Ok r, s')
  | (Err _, s') => (Ok None, s')
  | (Panic, s') => (Panic, s')
  end.

(** ** StoreTransaction *)
(** [SELECT DISTINCT namespace FROM models WHERE id IN (..)] *)
Definition select_namespaces (model_ids : list string) (d : db) : list string :=
  remove_dups (omap (λ kv : string * (string * Ty),
    if bool_decide (kv.1 ∈ model_ids) then Some kv.2.1 else None) (hm_iter (models d))).

Definition select_world (hash : Felt) (d : db) : option Felt :=
  fst <$> find (λ kv : Felt * Contract,
    bool_decide ((hash, kv.1) ∈ transaction_contract d) && bool_decide (contract_type kv.2 = WORLD))
    (hm_iter (contracts d)).

Definition handle_store_transaction (m : QueryMessage) (q : StoreTransactionQuery) : exec unit :=
  let! row := fetch_one m in
  let! transaction := st_lift (ok_or QSqlx (transaction_of_row row)) in
  let hash := transaction_hash transaction in
  for_each (λ a, sql_exec (λ d, set_transaction_contract ({[(hash, a)]} ∪ transaction_contract d) d))
    (hs_iter (st_contract_addresses q)) ;;;
  for_each (λ u, sql_exec (λ d, set_transaction_models ({[(hash, u)]} ∪ transaction_models d) d))
    (hs_iter (st_unique_models q)) ;;;
  for_each (λ c, sql_exec (λ d, set_transaction_calls (transaction_calls d ++ [(hash, c)]) d))
    (st_calls q) ;;;
  let! world_address := sql_get (select_world hash) in
  let! s := st_get in
  match world_address with
  | Some world_addr =>
      if activity_enabled (config s) && negb (bool_decide (st_unique_models q = ∅)) then
        let! namespaces :=
          sql_get (select_namespaces (felt_to_sql_string <$> hs_iter (st_unique_models q))) in
        let! updates := st_mapM (λ namespace, st_mapM (λ call,
          log_error (update_activity world_addr namespace (caller_address call) (entrypoint call)
            (executed_at transaction) (activity_session_timeout (config s))
            (activity_excluded_entrypoints (config s)))) (st_calls q)) namespaces in
        for_each (λ a, publish_optimistic_and_queue (ActivityUpdated a)) (omap id (concat updates))
      else st_ret tt
  | None => st_ret tt
  end ;;;
  publish_optimistic_and_queue
    (TransactionMessage transaction (st_contract_addresses q) (st_calls q) (st_unique_models q)).

(** ** SetEntity, DeleteEntity, EventMessage *)
Definition entity_model_query (model_id entity_id : string) : exec (option Ty) :=
  let! model := sql_get (λ d, models d !! model_id) in
  let! (_, schema) := st_lift (ok_or QSqlx model) in
  let! row := sql_get (select_model_table (ty_name schema) entity_id) in
  match row with
  | Some row =>
      let! ty := st_lift (ok_or (QModelMappingError model_id) (map_row_to_ty schema row)) in
      st_ret (Some ty)
  | None => st_ret None
  end.

(** [s.split_once(c)] *)
Fixpoint split_once (c : ascii) (s : string) : option (string * string) :=
  match s with
  | EmptyString => None
  | String c' s =>
      if decide (c' = c) then Some (EmptyString, s)
      else '(a, b) ← split_once c s; Some (String c' a, b)
  end.

(** [.fetch_optional(tx).await.map_or(0, |c| c.unwrap_or(0))]: a failing read
    counts as no row. *)
Definition read_counter (f : db → option Z) : exec Z := λ s,
  match sql_get f s with
  | (Ok c, s') => (Ok (default 0 c), s')
  | (Err _, s') => (Ok 0, s')
  | (Panic, s') => (Panic, s')
  end.

(** Every aggregator of the model; failures are logged and dropped. *)
Definition update_aggregations (ty : Ty) (model_id : string) : exec (list AggregationEntry) :=
  let! s := st_get in
  let! updates := st_mapM (λ c, sql_sub (update_aggregation c ty model_id))
    (get_aggregator_for_model (ty_name ty) (config s)) in
  st_ret (omap (λ r, r ≫= id) updates).

Definition handle_set_entity (m : QueryMessage) (entity : EntityQuery) : exec unit :=
  let! row := fetch_one m in
  let! entity_updated := st_lift (ok_or QSqlx (entity_of_row row)) in
  let! full_model := entity_model_query (eq_model_id entity) (eq_entity_id entity) in
  let! entity_counter :=
    read_counter (λ d, entity_model d !! (eq_entity_id entity, eq_model_id entity)) in
  let! entity_counter :=
    (if eq_is_historical entity then
       let! (world_address, entity_id) := st_lift (unwrap (split_once ":"%char (eq_entity_id entity))) in
       let! data := st_lift (ty_to_json (eq_ty entity)) in
       sql_exec (λ d, set_entities_historical (entities_historical d ++
         [mkHistorical (eq_entity_id entity) (eq_keys_str entity) (eq_event_id entity) data
            (eq_model_id entity) (eq_block_timestamp entity) world_address entity_id]) d) ;;;
       st_ret (entity_counter + 1)
     else st_ret entity_counter) in
  sql_exec (λ d, set_entity_model
    (<[(eq_entity_id entity, eq_model_id entity) := entity_counter]> (entity_model d)) d) ;;;
  let! aggregation_updates := update_aggregations (eq_ty entity) (eq_model_id entity) in
  for_each (λ a, publish_optimistic_and_queue (AggregationUpdated a)) aggregation_updates ;;;
  publish_optimistic_and_queue
    (EntityUpdate (mkEntityUpdate entity_updated (Some (eq_ty entity)) full_model false)).

Definition handle_delete_entity (m : QueryMessage) (entity : DeleteEntityQuery) : exec unit :=
  let! model := entity_model_query (del_model_id entity) (del_entity_id entity) in
  let! model := st_lift (ok_or (QModelNotFound (del_model_id entity)) model) in
  let! (_, rows_affected) := query_execute m in
  if rows_affected =? 0 then st_ret tt
  else
    sql_exec (λ d, set_entity_model
      (delete (del_entity_id entity, del_model_id entity) (entity_model d)) d) ;;;
    let! row := sql_try (λ d,
      old ← entities d !! del_entity_id entity;
      let row := mkEntityRow (entity_row_id old) (entity_keys old) (del_event_id entity)
                   (del_block_timestamp entity) in
      Some (row, set_entities (<[del_entity_id entity := row]> (entities d)) d)) in
    let! count := sql_get (λ d,
      length (filter (λ k : string * string, k.1 = entity_row_id row) (map_to_list (entity_model d)).*1)) in
    (if bool_decide (count = 0%nat) then
       sql_exec (λ d, set_entities (delete (entity_row_id row) (entities d)) d)
     else st_ret tt) ;;;
    publish_optimistic_and_queue
      (EntityUpdate (mkEntityUpdate row (Some (ty_empty_struct (ty_name (del_ty entity))))
         (Some model) (bool_decide (count = 0%nat)))).

Definition handle_event_message (m : QueryMessage) (em : EventMessageQuery) : exec unit :=
  let! event_messages_row := fetch_one m in
  let! event_counter := read_counter (λ d, event_model d !! (em_entity_id em, em_model_id em)) in
  let! event_counter :=
    (if em_is_historical em then
       let! (world_address, entity_id) := st_lift (unwrap (split_once ":"%char (em_entity_id em))) in
       let! data := st_lift (ty_to_json (em_ty em)) in
       sql_exec (λ d, set_event_messages_historical (event_messages_historical d ++
         [mkHistorical (em_entity_id em) (Some (em_keys_str em)) (em_event_id em) data
            (em_model_id em) (em_block_timestamp em) world_address entity_id]) d) ;;;
       st_ret (event_counter + 1)
     else st_ret event_counter) in
  sql_exec (λ d, set_event_model
    (<[(em_entity_id em, em_model_id em) := event_counter]> (event_model d)) d) ;;;
  let! event_message := st_lift (ok_or QSqlx (entity_of_row event_messages_row)) in
  let! s := st_get in
  let! (namespace, name) := st_lift (unwrap (split_once "-"%char (ty_name (em_ty em)))) in
  let! aggregation_updates := update_aggregations (em_ty em) (em_model_id em) in
  (if is_achievement_registration_model_name name (config s) then
     let! _ := sql_sub (register_achievement (em_world_address em) namespace (em_ty em)) in st_ret tt
   else st_ret tt) ;;;
  (if is_achievement_progression_model_name name (config s) then
     let! r := sql_sub (update_achievement_progression (em_world_address em) namespace (em_ty em)) in
     match r with
     | Some (Some progression) => st_modify (λ s, set_progressions (progressions s ++ [progression]) s)
     | _ => st_ret tt
     end
   else st_ret tt) ;;;
  for_each (λ a, publish_optimistic_and_queue (AggregationUpdated a)) aggregation_updates ;;;
  publish_optimistic_and_queue
    (EventMessageUpdate (mkEntityUpdate event_message (Some (em_ty em)) None false)).

(** ** Plain statements that return a row to publish *)
Definition publish_row {A} (m : QueryMessage) (decode : Row → option A) (msg : A → BrokerMessage)
  : exec unit :=
  let! row := fetch_one m in
  let! a := st_lift (ok_or QSqlx (decode row)) in
  publish_optimistic_and_queue (msg a).

(** ** Token balances and supplies (erc.rs) *)

(** [impl Display for TokenId] *)
Definition token_id_to_string (t : TokenId) : string :=
  match t with
  | TokenContract addr => format_hex 64 addr
  | Nft addr token_id => format_hex 64 addr +:+ ":" +:+ u256_to_sql_string token_id
  end.

(** The body of the loop over the supplies. *)
Definition apply_supply_diff (token_id : TokenId) (supply_diff : I256) : exec unit :=
  let! row := sql_get (λ d, tokens d !! token_id) in
  let! token := st_lift (ok_or QSqlx row) in
  match total_supply token with
  | None => st_ret tt
  | Some supply =>
      let! supply :=
        (if is_negative supply_diff then
           if value supply_diff <=? supply then st_lift (unwrap (u256_sub supply (value supply_diff)))
           else st_ret 0
         else st_lift (unwrap (u256_add supply (value supply_diff)))) in
      sql_exec (λ d, set_tokens (alter (λ t, mkToken (token_name t) (token_symbol t)
        (token_decimals t) (token_metadata t) (Some supply) (token_traits t)) token_id (tokens d)) d)
  end.

Definition apply_balance_diff_helper (id : BalanceId) (balance_diff : I256) (block_id : Cache.BlockId)
  : exec unit :=
  let! row := sql_get (λ d, token_balances d !! id) in
  let balance := default 0 row in
  let! balance :=
    (if is_negative balance_diff then
       if balance <? value balance_diff then
         let contract := token_contract_address (balance_token_id id) in
         let! current_balance :=
           match provider_call contract "balance_of" [account_address id] block_id with
           | Some r => st_ret r
           | None =>
               st_lift (ok_or QProvider (provider_call contract "balanceOf" [account_address id] block_id))
           end in
         st_lift (unwrap (cairo_u256_deserialize current_balance))
       else st_lift (unwrap (u256_sub balance (value balance_diff)))
     else st_lift (unwrap (u256_add balance (value balance_diff)))) in
  sql_exec (λ d, set_token_balances (<[id := balance]> (token_balances d)) d) ;;;
  publish_optimistic_and_queue (TokenBalanceUpdated id balance).

Definition balance_block_id (cursors : gmap Felt ContractCursor) (id : BalanceId)
  : option Cache.BlockId :=
  cursor ← cursors !! token_contract_address (balance_token_id id);
  match last_pending_block_tx cursor with
  | Some _ => Some Cache.BlockPreConfirmed
  | None => Cache.BlockNumber <$> Proto.head cursor
  end.

Definition apply_balance_diff (q : ApplyBalanceDiffQuery) : exec unit :=
  for_each (λ '(token_id, supply_diff), apply_supply_diff token_id supply_diff)
    (hm_iter (q_total_supply_diff q)) ;;;
  for_each (λ '(balance_id, balance),
    let! block_id := st_lift (unwrap (balance_block_id (q_cursors q) balance_id)) in
    apply_balance_diff_helper balance_id balance block_id) (hm_iter (q_balances_diff q)).

(** ** Token attributes and traits (erc.rs) *)
Definition attribute_id (token_id : TokenId) (t : TokenTrait) : string :=
  token_id_to_string token_id +:+ ":" +:+ trait_type t +:+ ":" +:+ trait_value t.

Definition store_token_attributes (metadata : string) (token_id : TokenId) : exec unit :=
  if decide (metadata = "") then st_ret tt
  else match extract_traits_from_json metadata with
       | None => st_ret tt
       | Some traits =>
           sql_exec (λ d, set_token_attributes
             (filter (λ kv : string * (TokenId * TokenTrait), kv.2.1 ≠ token_id) (token_attributes d)) d) ;;;
           for_each (λ t, sql_try (λ d,
             match token_attributes d !! attribute_id token_id t with
             | Some _ => None
             | None => Some (tt, set_token_attributes
                 (<[attribute_id token_id t := (token_id, t)]> (token_attributes d)) d)
             end)) traits
       end.

(** [SELECT traits FROM tokens WHERE contract_address = ? AND no token_id];
    any error counts as absent *)
Definition read_contract_traits (contract_address : Felt) : exec (option string) := λ s,
  match sql_get (λ d, token_traits <$> tokens d !! TokenContract contract_address) s with
  | (Ok r, s') => (Ok r, s')
  | (Err _, s') => (Ok None, s')
  | (Panic, s') => (Panic, s')
  end.

Definition write_contract_traits (contract_address : Felt) (traits : string) : exec unit :=
  sql_exec (λ d, set_tokens (alter (λ t, mkToken (token_name t) (token_symbol t) (token_decimals t)
    (token_metadata t) (total_supply t) traits) (TokenContract contract_address) (tokens d)) d).

Definition update_contract_traits_from_metadata (metadata : string) (contract_address : Felt)
  : exec unit :=
  if decide (metadata = "") then st_ret tt
  else
    let! current := read_contract_traits contract_address in
    match current with
    | None => st_ret tt
    | Some current_traits_str =>
        match extract_traits_from_metadata metadata current_traits_str with
        | Some updated_traits => write_contract_traits contract_address updated_traits
        | None => st_ret tt
        end
    end.

Definition update_contract_traits_on_metadata_change (old_metadata new_metadata : string)
    (contract_address : Felt) : exec unit :=
  let! current := read_contract_traits contract_address in
  match current with
  | None => st_ret tt
  | Some current_traits_str =>
      let old_traits :=
        if decide (old_metadata = "") then [] else default [] (extract_traits_from_json old_metadata) in
      match (if decide (new_metadata = "") then Some [] else extract_traits_from_json new_metadata) with
      | None => st_ret tt
      | Some new_traits =>
          match apply_trait_operations current_traits_str new_traits old_traits with
          | Some updated_traits => write_contract_traits contract_address updated_traits
          | None => st_ret tt
          end
      end
  end.

(** ** RegisterNftToken, RegisterTokenContract, UpdateTokenMetadata *)
Definition parse_text_response (r : option ProviderResponseData) : outcome ExecutorQueryError string :=
  match r with
  | None => Panic
  | Some (CallResponse [felt]) => ok_or QParse (parse_cairo_short_string felt)
  | Some (CallResponse felts) => ok_or QParse (byte_array_to_string felts)
  | Some OtherResponse => Ok ""
  end.

(** The name and symbol of any token of the contract. *)
Definition select_name_symbol (contract_address : Felt) (d : db) : option (string * string) :=
  (λ kv : TokenId * Token, (token_name kv.2, token_symbol kv.2)) <$>
    find (λ kv : TokenId * Token, bool_decide (token_contract_address kv.1 = contract_address))
      (hm_iter (tokens d)).

Definition contract_name_symbol (contract_address : Felt) : exec (string * string) := λ s,
  match sql_try (λ d, r ← select_name_symbol contract_address d; Some (r, d)) s with
  | (Ok r, s') => (Ok r, s')
  | (Panic, s') => (Panic, s')
  | (Err _, s') =>
      (match provider_batch_name_symbol contract_address with
       | Some results =>
           let? name := parse_text_response (results !! 0%nat) in
           let? symbol := parse_text_response (results !! 1%nat) in
           Ok (name, symbol)
       | None => Ok ("", "")
       end, s')
  end.

(** [INSERT INTO tokens ..], refused when the id exists *)
Definition insert_token (id : TokenId) (t : Token) : exec unit :=
  sql_try (λ d, match tokens d !! id with
                | Some _ => None
                | None => Some (tt, set_tokens (<[id := t]> (tokens d)) d)
                end).

Definition handle_register_nft_token (q : RegisterNftTokenQuery) : exec unit :=
  let! (contract_name, symbol) := contract_name_symbol (nft_contract_address q) in
  let name := default contract_name (extract_name_from_metadata (nft_metadata q)) in
  let id := Nft (nft_contract_address q) (nft_token_id q) in
  let token := mkToken name symbol 0 (nft_metadata q) (Some 0) "{}" in
  insert_token id token ;;;
  let! s := st_get in
  (if cfg_token_attributes (config s) then store_token_attributes (nft_metadata q) id else st_ret tt) ;;;
  (if cfg_trait_counts (config s)
   then update_contract_traits_from_metadata (nft_metadata q) (nft_contract_address q)
   else st_ret tt) ;;;
  publish_optimistic_and_queue (TokenRegistered id token).

Definition handle_register_token_contract (q : RegisterTokenContractQuery) : exec unit :=
  let id := TokenContract (rc_contract_address q) in
  let token := mkToken (rc_name q) (rc_symbol q) (rc_decimals q) (default "" (rc_metadata q))
                 (Some 0) "{}" in
  insert_token id token ;;;
  publish_optimistic_and_queue (TokenRegistered id token).

Definition handle_update_token_metadata (q : UpdateTokenMetadataQuery) : exec unit :=
  let! token := sql_try (λ d,
    t ← tokens d !! um_token_id q;
    let t' := mkToken (token_name t) (token_symbol t) (token_decimals t) (um_metadata q)
                (total_supply t) (token_traits t) in
    Some (t', set_tokens (<[um_token_id q := t']> (tokens d)) d)) in
  (if is_nft (um_token_id q) then
     let! row := sql_get (λ d, token_metadata <$> tokens d !! um_token_id q) in
     let old_metadata := default "" row in
     let! s := st_get in
     (if cfg_token_attributes (config s) then store_token_attributes (um_metadata q) (um_token_id q)
      else st_ret tt) ;;;
     (if cfg_trait_counts (config s) then
        update_contract_traits_on_metadata_change old_metadata (um_metadata q)
          (token_contract_address (um_token_id q))
      else st_ret tt)
   else st_ret tt) ;;;
  publish_optimistic_and_queue (TokenRegistered (um_token_id q) token).

(** ** Execute and Rollback *)

(** A call on the pool, which may fail. *)
Definition pool_call (f : Executor → Executor) : st Executor ExecutorError unit := λ s,
  if sql_fails (clock s) then (Err ExecutorSqlx, tick s) else (Ok tt, f (tick s)).

Definition check_and_truncate_wal : st Executor ExecutorError unit :=
  let! s := st_get in
  match wal_size (clock s) with
  | Some size =>
      if size >? wal_truncate_size_threshold (config s) then pool_call id else st_ret tt
  | None => st_ret tt
  end.

(** [self.transaction.take()], then a call on what it held *)
Definition take_transaction (commit : bool) : st Executor ExecutorError unit := λ s,
  match transaction s with
  | None => (Ok tt, s)
  | Some d =>
      pool_call (if commit then set_pool d else id) (set_transaction None s)
  end.

Definition begin_transaction : st Executor ExecutorError unit :=
  pool_call (λ s, set_transaction (Some (pool s)) s).

Definition optimize : st Executor ExecutorError unit := λ s,
  if optimize_interval (config s) >? 0 then
    let now := unix_now (clock s) in
    let should_optimize :=
      match last_optimization s with
      | None => true
      | Some last => optimize_interval (config s) <=? now - last
      end in
    if should_optimize then
      if sql_fails (clock s) then (Ok tt, tick s) else (Ok tt, set_last_optimization (Some now) (tick s))
    else (Ok tt, s)
  else (Ok tt, s).

Definition execute : st Executor ExecutorError unit :=
  take_transaction true ;;;
  optimize ;;;
  let! s := st_get in
  (if wal_truncate_size_threshold (config s) >? 0 then check_and_truncate_wal else st_ret tt) ;;;
  begin_transaction ;;;
  st_modify (λ s, set_queue []
    (foldl (λ s message, send_broker_message message false s) s (publish_queue s))).

Definition rollback : st Executor ExecutorError unit :=
  take_transaction false ;;;
  begin_transaction ;;;
  st_modify (set_queue []).

(** ** Messages *)
Definition dispatch (m : QueryMessage) : exec unit :=
  match query_type m with
  | UpdateCursors q => handle_update_cursors q
  | StoreTransaction q => handle_store_transaction m q
  | SetEntity q => handle_set_entity m q
  | DeleteEntity q => handle_delete_entity m q
  | RegisterModel => publish_row m model_of_row ModelRegistered
  | RegisterContract => publish_row m contract_of_row ContractUpdate
  | EventMessage q => handle_event_message m q
  | StoreEvent => publish_row m event_of_row EventEmitted
  | StoreTokenTransfer => publish_row m transfer_of_row TokenTransfer
  | ApplyBalanceDiff q => st_map_err (λ _, QSqlite) (apply_balance_diff q)
  | RegisterNftToken q => handle_register_nft_token q
  | RegisterTokenContract q => handle_register_token_contract q
  | Execute => st_map_err QExecutor execute
  | Rollback => st_map_err QExecutor rollback
  | UpdateTokenMetadata q => handle_update_token_metadata q
  | Other => let! _ := query_execute m in st_ret tt
  end.

Definition handle_query_message (m : QueryMessage) : exec unit := λ s,
  match transaction s with
  | None => (Panic, s)
  | Some _ => dispatch m s
  end.

(** The loop of [run] on the messages received: errors are logged and reported
    to the sender, a panic ends the task. *)
Fixpoint run (ms : list QueryMessage) (s : Executor)
  : list (outcome ExecutorQueryError unit) * Executor :=
  match ms with
  | [] => ([], s)
  | m :: ms =>
      let '(r, s) := handle_query_message m s in
      match r with
      | Panic => ([Panic], s)
      | _ => let '(rs, s) := run ms s in (r :: rs, s)
      end
  end.
End operations.

(** ** What a message that does not end the transaction can do *)
Section framing.
Context `{ExecutorEnv} {U : U256Ops} {HO : HashOrder}.
#[local] Abbreviation db := (Database Rest).
#[local] Abbreviation exec A := (st Executor ExecutorQueryError A).

(** The pool and the configuration stay, the transaction stays open, and what is
    published is optimistic and queued. *)
Definition in_transaction (s s' : Executor) : Prop :=
  pool s' = pool s ∧ config s' = config s ∧ last_optimization s' = last_optimization s ∧
  (is_Some (transaction s) ↔ is_Some (transaction s')) ∧
  ∃ new, publish_queue s' = publish_queue s ++ new ∧
         published s' = published s ++ ((λ m, (m, true)) <$> new).

#[global] Instance in_transaction_preorder : PreOrder in_transaction.
Proof.
  split.
  - intros s. split_and!; [done..|]. exists []. by rewrite !app_nil_r.
  - intros s1 s2 s3 (? & ? & ? & ? & n1 & Hq1 & Hp1) (? & ? & ? & ? & n2 & Hq2 & Hp2).
    split_and!; [congruence..|naive_solver|]. exists (n1 ++ n2).
    by rewrite fmap_app, !app_assoc, Hq2, Hq1, Hp2, Hp1.
Qed.

Lemma in_transaction_simple s s' :
  pool s' = pool s → config s' = config s → last_optimization s' = last_optimization s →
  (is_Some (transaction s) ↔ is_Some (transaction s')) →
  publish_queue s' = publish_queue s → published s' = published s → in_transaction s s'.
Proof. intros ???? Hq Hp. split_and!; [done..|]. exists []. by rewrite Hq, Hp, !app_nil_r. Qed.

Lemma keeps_sql_try {A} (f : db → option (A * db)) : keeps in_transaction (sql_try f).
Proof.
  intros s. unfold sql_try. destruct (transaction s) as [d|] eqn:Ht; [|reflexivity].
  destruct (sql_fails _); [|destruct (f d) as [[a d']|]]; simpl;
    apply in_transaction_simple; simpl; try done; rewrite ?Ht; done.
Qed.
Lemma keeps_sql_exec f : keeps in_transaction (sql_exec f).
Proof. apply keeps_sql_try. Qed.
Lemma keeps_sql_get {A} (f : db → A) : keeps in_transaction (sql_get f).
Proof. apply keeps_sql_try. Qed.
Lemma keeps_sql_sub {A} (f : db → outcome ExecutorQueryError A * db) : keeps in_transaction (sql_sub f).
Proof.
  intros s. unfold sql_sub. destruct (transaction s) as [d|] eqn:Ht; [|reflexivity].
  destruct (f d) as [r d']. simpl. apply in_transaction_simple; simpl; try done.
Qed.
Lemma keeps_publish m : keeps in_transaction (publish_optimistic_and_queue m).
Proof. intros s. split_and!; [done..|]. by exists [m]. Qed.
Lemma keeps_progression p :
  keeps in_transaction (st_modify (E := ExecutorQueryError) (λ s, set_progressions (progressions s ++ [p]) s)).
Proof. intros s. apply in_transaction_simple; done. Qed.

(** Code that inspects the outcome of a part and goes on from its state. *)
Lemma keeps_catch {A B} (m : exec A) (k : outcome ExecutorQueryError A → outcome ExecutorQueryError B) :
  keeps in_transaction m → keeps in_transaction (λ s, (k (m s).1, (m s).2)).
Proof. intros Hm s. apply Hm. Qed.

Lemma keeps_log_error {A} (m : exec (option A)) :
  keeps in_transaction m → keeps in_transaction (log_error m).
Proof. intros Hm s. unfold log_error. specialize (Hm s). by destruct (m s) as [[] s']. Qed.
Lemma keeps_read_counter f : keeps in_transaction (read_counter f).
Proof.
  intros s. unfold read_counter. pose proof (keeps_sql_get f s) as Hk.
  by destruct (sql_get f s) as [[] s'].
Qed.
Lemma keeps_read_contract_traits a : keeps in_transaction (read_contract_traits a).
Proof.
  intros s. unfold read_contract_traits.
  pose proof (keeps_sql_get (λ d, token_traits <$> tokens d !! TokenContract a) s) as Hk.
  by destruct (sql_get _ s) as [[] s'].
Qed.
Lemma keeps_contract_name_symbol a : keeps in_transaction (contract_name_symbol a).
Proof.
  intros s. unfold contract_name_symbol.
  pose proof (keeps_sql_try (λ d, r ← select_name_symbol a d; Some (r, d)) s) as Hk.
  by destruct (sql_try _ s) as [[] s'].
Qed.

#[local] Hint Resolve keeps_sql_try keeps_sql_exec keeps_sql_get keeps_sql_sub keeps_publish
  keeps_progression keeps_log_error keeps_read_counter keeps_read_contract_traits
  keeps_contract_name_symbol : torii.

Lemma keeps_query_execute m : keeps in_transaction (query_execute m).
Proof. apply keeps_sql_try. Qed.
#[local] Hint Resolve keeps_query_execute : torii.

Lemma keeps_fetch_one m : keeps in_transaction (fetch_one m).
Proof. unfold fetch_one. keeps_solve. Qed.
#[local] Hint Resolve keeps_fetch_one : torii.

Lemma keeps_publish_row {A} m (decode : Row → option A) msg :
  keeps in_transaction (publish_row m decode msg).
Proof. unfold publish_row. keeps_solve. Qed.
Lemma keeps_update_cursors q : keeps in_transaction (handle_update_cursors q).
Proof. unfold handle_update_cursors, update_cursor. keeps_solve. Qed.
Lemma keeps_update_activity w n c e t o x : keeps in_transaction (update_activity w n c e t o x).
Proof. unfold update_activity, create_new_session. keeps_solve. Qed.
#[local] Hint Resolve keeps_publish_row keeps_update_cursors keeps_update_activity : torii.

Lemma keeps_store_transaction m q : keeps in_transaction (handle_store_transaction m q).
Proof. unfold handle_store_transaction. keeps_solve. Qed.

Lemma keeps_entity_model_query m e : keeps in_transaction (entity_model_query m e).
Proof. unfold entity_model_query. keeps_solve. Qed.
Lemma keeps_update_aggregations t m : keeps in_transaction (update_aggregations t m).
Proof. unfold update_aggregations. keeps_solve. Qed.
#[local] Hint Resolve keeps_entity_model_query keeps_update_aggregations : torii.

Lemma keeps_set_entity m q : keeps in_transaction (handle_set_entity m q).
Proof. unfold handle_set_entity. keeps_solve. Qed.
Lemma keeps_delete_entity m q : keeps in_transaction (handle_delete_entity m q).
Proof. unfold handle_delete_entity. keeps_solve. Qed.
Lemma keeps_event_message m q : keeps in_transaction (handle_event_message m q).
Proof. unfold handle_event_message. keeps_solve. Qed.
Lemma keeps_apply_balance_diff q : keeps in_transaction (apply_balance_diff q).
Proof. unfold apply_balance_diff, apply_supply_diff, apply_balance_diff_helper. keeps_solve. Qed.
Lemma keeps_store_token_attributes m t : keeps in_transaction (store_token_attributes m t).
Proof. unfold store_token_attributes. keeps_solve. Qed.
Lemma keeps_contract_traits m a : keeps in_transaction (update_contract_traits_from_metadata m a).
Proof. unfold update_contract_traits_from_metadata, write_contract_traits. keeps_solve. Qed.
Lemma keeps_contract_traits_change o n a :
  keeps in_transaction (update_contract_traits_on_metadata_change o n a).
Proof. unfold update_contract_traits_on_metadata_change, write_contract_traits. keeps_solve. Qed.
#[local] Hint Resolve keeps_store_token_attributes keeps_contract_traits
  keeps_contract_traits_change : torii.
Lemma keeps_register_nft_token q : keeps in_transaction (handle_register_nft_token q).
Proof. unfold handle_register_nft_token, insert_token. keeps_solve. Qed.
Lemma keeps_register_token_contract q : keeps in_transaction (handle_register_token_contract q).
Proof. unfold handle_register_token_contract, insert_token. keeps_solve. Qed.
Lemma keeps_update_token_metadata q : keeps in_transaction (handle_update_token_metadata q).
Proof. unfold handle_update_token_metadata. keeps_solve. Qed.

Lemma dispatch_in_transaction m :
  query_type m ≠ Execute → query_type m ≠ Rollback → keeps in_transaction (dispatch m).
Proof.
  intros He Hr. unfold dispatch.
  destruct (query_type m); try done;
    eauto using keeps_store_transaction, keeps_update_cursors, keeps_set_entity, keeps_delete_entity,
      keeps_event_message, keeps_map_err, keeps_apply_balance_diff, keeps_register_nft_token,
      keeps_register_token_contract, keeps_publish_row, keeps_update_token_metadata.
  keeps_solve.
Qed.
End framing.

(** ** Transactions and publications *)
Section transactions.
Context `{ExecutorEnv} {U : U256Ops} {HO : HashOrder}.
#[local] Abbreviation db := (Database Rest).

(** What was published for good, and what was published optimistically. *)
Definition confirmed (s : Executor) : list BrokerMessage :=
  omap (λ p : BrokerMessage * bool, if p.2 then None else Some p.1) (published s).
Definition optimistic (s : Executor) : list BrokerMessage :=
  omap (λ p : BrokerMessage * bool, if p.2 then Some p.1 else None) (published s).

Lemma omap_flag (l : list BrokerMessage) b :
  omap (λ p : BrokerMessage * bool, if p.2 then None else Some p.1) ((λ m, (m, b)) <$> l) =
    (if b then [] else l) ∧
  omap (λ p : BrokerMessage * bool, if p.2 then Some p.1 else None) ((λ m, (m, b)) <$> l) =
    (if b then l else []).
Proof. destruct b; induction l as [|m l [IH1 IH2]]; csimpl; rewrite ?IH1, ?IH2; done. Qed.

Lemma in_transaction_published s s' :
  in_transaction s s' → confirmed s' = confirmed s ∧
  ∃ new, publish_queue s' = publish_queue s ++ new ∧ optimistic s' = optimistic s ++ new.
Proof.
  intros (_ & _ & _ & _ & new & Hq & Hp). unfold confirmed, optimistic. rewrite Hp, !omap_app.
  destruct (omap_flag new true) as [-> ->]. rewrite app_nil_r. eauto.
Qed.

Lemma confirm_all (l : list BrokerMessage) s :
  let s' := foldl (λ s m, send_broker_message m false s) s l in
  confirmed s' = confirmed s ++ l ∧ optimistic s' = optimistic s ∧ pool s' = pool s ∧
  transaction s' = transaction s.
Proof.
  revert s. induction l as [|m l IH]; intros s; simpl; [by rewrite app_nil_r|].
  destruct (IH (send_broker_message m false s)) as (Hc & Ho & Hp & Ht).
  rewrite Hc, Ho, Hp, Ht. unfold confirmed, optimistic. simpl. rewrite !omap_app. simpl.
  by rewrite <- app_assoc, app_nil_r.
Qed.

(** The states [execute] passes through publish nothing before its last step. *)
Definition quiet (s s' : Executor) : Prop :=
  publish_queue s' = publish_queue s ∧ published s' = published s.

Lemma pool_call_cases f s :
  (∃ s', pool_call f s = (Err ExecutorSqlx, s') ∧ s' = tick s) ∨ pool_call f s = (Ok tt, f (tick s)).
Proof. unfold pool_call. destruct (sql_fails (clock s)); eauto. Qed.

Lemma optimize_spec s :
  ∃ s', optimize s = (Ok tt, s') ∧ quiet s s' ∧ pool s' = pool s ∧ transaction s' = transaction s.
Proof.
  unfold optimize. destruct (optimize_interval (config s) >? 0); [|by eexists].
  destruct (match last_optimization s with None => true | Some _ => _ end); [|by eexists].
  destruct (sql_fails (clock s)); by eexists.
Qed.

Lemma wal_spec s :
  ∃ o s', check_and_truncate_wal s = (o, s') ∧ o ≠ Panic ∧ quiet s s' ∧ pool s' = pool s ∧
    transaction s' = transaction s.
Proof.
  unfold check_and_truncate_wal, st_bind, st_get.
  destruct (wal_size (clock s)) as [n|]; [|by eexists _, _].
  destruct (n >? wal_truncate_size_threshold (config s)); [|by eexists _, _].
  destruct (pool_call_cases id s) as [(s' & -> & ->)| ->]; by eexists _, _.
Qed.

(** Between the commit and the new transaction. *)
Lemma after_commit_spec s :
  let m := (optimize ;;;
    let! s := st_get in
    (if wal_truncate_size_threshold (config s) >? 0 then check_and_truncate_wal else st_ret tt)) in
  ∃ o s', m s = (o, s') ∧ o ≠ Panic ∧ quiet s s' ∧ pool s' = pool s ∧ transaction s' = transaction s.
Proof.
  cbv zeta. destruct (optimize_spec s) as (s1 & Ho & [Hq1 Hp1] & Hpool1 & Ht1).
  unfold st_bind. rewrite Ho. simpl. destruct (wal_truncate_size_threshold (config s1) >? 0).
  - destruct (wal_spec s1) as (o & s2 & Hw & Hn & [Hq2 Hp2] & Hpool2 & Ht2).
    exists o, s2. unfold quiet. split_and!; try done; congruence.
  - exists (Ok tt), s1. by split_and!.
Qed.

Lemma execute_spec s d :
  transaction s = Some d →
  match execute s with
  | (Ok _, s') => pool s' = d ∧ transaction s' = Some d ∧ publish_queue s' = [] ∧
      confirmed s' = confirmed s ++ publish_queue s ∧ optimistic s' = optimistic s
  | (Err _, s') => transaction s' = None ∧ (pool s' = pool s ∨ pool s' = d) ∧
      publish_queue s' = publish_queue s ∧ published s' = published s
  | (Panic, _) => False
  end.
Proof.
  intros Ht. unfold execute, st_bind at 1, take_transaction. rewrite Ht.
  destruct (pool_call_cases (set_pool d) (set_transaction None s)) as [(s1 & -> & ->)| ->].
  { simpl. by split_and!; [|left|..]. }
  set (s1 := set_pool d (tick (set_transaction None s))).
  destruct (after_commit_spec s1) as (o & s2 & Hm & Hnp & [Hq Hp] & Hpool & Ht2). cbv zeta in Hm.
  unfold st_bind in Hm |- *.
  destruct (optimize s1) as [[?|?|] s1'] eqn:Hopt; simplify_eq; simpl in *;
    [|by split_and!; [|right|..]].
  destruct ((if wal_truncate_size_threshold (config s1') >? 0 then check_and_truncate_wal else st_ret ())
    s1') as [[?|?|] s2'] eqn:Hwal; simplify_eq; [|by split_and!; [|right|..]].
  unfold begin_transaction.
  destruct (pool_call_cases (λ s, set_transaction (Some (pool s)) s) s2) as [(s3 & -> & ->)| ->].
  { simpl. split_and!; [done|right|..]; done. }
  set (s3 := set_transaction (Some (pool (tick s2))) (tick s2)). unfold st_modify.
  cbv beta iota. pose proof (confirm_all (publish_queue s3) s3) as Hca. cbv zeta in Hca.
  set (s4 := foldl _ s3 (publish_queue s3)) in *. destruct Hca as (Hc & Ho & Hp3 & Ht3).
  assert (publish_queue s3 = publish_queue s ∧ published s3 = published s) as [Hq3 Hpub3]
    by (unfold s3; simpl; by rewrite Hq, Hp).
  split_and!; [exact Hp3|exact Ht3|done|..].
  - change (confirmed (set_queue [] s4)) with (confirmed s4). rewrite Hc, Hq3. unfold confirmed.
    by rewrite Hpub3.
  - change (optimistic (set_queue [] s4)) with (optimistic s4). rewrite Ho. unfold optimistic.
    by rewrite Hpub3.
Qed.

Lemma rollback_spec s d :
  transaction s = Some d →
  match rollback s with
  | (Ok _, s') => pool s' = pool s ∧ transaction s' = Some (pool s) ∧ publish_queue s' = [] ∧
      published s' = published s
  | (Err _, s') => transaction s' = None ∧ pool s' = pool s ∧ published s' = published s
  | (Panic, _) => False
  end.
Proof.
  intros Ht. unfold rollback, st_bind, take_transaction. rewrite Ht.
  destruct (pool_call_cases id (set_transaction None s)) as [(s1 & -> & ->)| ->]; [done|].
  unfold begin_transaction.
  destruct (pool_call_cases (λ s, set_transaction (Some (pool s)) s) (id (tick (set_transaction None s))))
    as [(s2 & -> & ->)| ->]; done.
Qed.

(** ** The abstract publisher

    What subscribers should see, given for each message handled whether it
    committed or rolled back and what it published optimistically: an open list
    of updates, which a commit confirms and a rollback forgets. *)
Inductive effect : Type := Queued (new : list BrokerMessage) | Committed | RolledBack.

Definition apply_effect (cur : list BrokerMessage * list BrokerMessage) (e : effect)
  : list BrokerMessage * list BrokerMessage :=
  match e with
  | Queued new => (cur.1, cur.2 ++ new)
  | Committed => (cur.1 ++ cur.2, [])
  | RolledBack => (cur.1, [])
  end.

Definition effect_of (s : Executor) (m : QueryMessage) : effect :=
  let '(r, s') := handle_query_message m s in
  match query_type m, r with
  | Execute, Ok _ => Committed
  | Rollback, Ok _ => RolledBack
  | _, _ => Queued (drop (length (optimistic s)) (optimistic s'))
  end.

(** The effects of the messages [run] handles, up to a panic. *)
Fixpoint effects (ms : list QueryMessage) (s : Executor) : list effect :=
  match ms with
  | [] => []
  | m :: ms =>
      let '(r, s') := handle_query_message m s in
      match r with
      | Panic => [effect_of s m]
      | _ => effect_of s m :: effects ms s'
      end
  end.

(** The executor agrees with the abstract publisher; once it has lost its
    transaction only the confirmed part counts. *)
Definition agrees (s : Executor) (cur : list BrokerMessage * list BrokerMessage) : Prop :=
  confirmed s = cur.1 ∧ (is_Some (transaction s) → publish_queue s = cur.2).

Lemma handle_agrees s m cur :
  agrees s cur → agrees (handle_query_message m s).2 (apply_effect cur (effect_of s m)).
Proof.
  intros [Hc Hq]. unfold effect_of, handle_query_message.
  destruct (transaction s) as [d|] eqn:Ht.
  2: { simpl. destruct (query_type m); simpl; rewrite drop_all, app_nil_r; (split; [done|]);
         rewrite Ht; by intros ?%is_Some_None. }
  specialize (Hq (ex_intro _ d eq_refl)).
  assert (query_type m = Execute ∨ query_type m = Rollback ∨
    (query_type m ≠ Execute ∧ query_type m ≠ Rollback)) as [Hm|[Hm|[Hm1 Hm2]]]
    by (destruct (query_type m); auto; right; right; split; discriminate).
  - unfold dispatch. rewrite Hm. unfold st_map_err. pose proof (execute_spec s d Ht) as He.
    destruct (execute s) as [[u|e|] s']; simpl in *; [| |done].
    + destruct He as (_ & _ & Hq' & Hc' & _). split; simpl; [congruence|done].
    + destruct He as (Hn & _ & _ & Hp). unfold agrees, optimistic, confirmed in *. rewrite Hp, drop_all. simpl.
      rewrite Hn. split; [done|]. by intros ?%is_Some_None.
  - unfold dispatch. rewrite Hm. unfold st_map_err. pose proof (rollback_spec s d Ht) as He.
    destruct (rollback s) as [[u|e|] s']; simpl in *; [| |done].
    + destruct He as (_ & _ & Hq' & Hp). split; simpl; [|done]. unfold confirmed in *. by rewrite Hp.
    + destruct He as (Hn & _ & Hp). unfold agrees, optimistic, confirmed in *. rewrite Hp, drop_all. simpl.
      rewrite Hn. split; [done|]. by intros ?%is_Some_None.
  - assert (in_transaction s (dispatch m s).2) as Hin
      by by apply dispatch_in_transaction.
    destruct (dispatch m s) as [r s'] eqn:Hd. simpl in *.
    apply in_transaction_published in Hin as (Hc' & new & Hq' & Ho).
    destruct (query_type m); try done; simpl; rewrite Ho, drop_app_length;
      (split; simpl; [congruence|]; intros _; by rewrite Hq', Hq).
Qed.

Lemma run_agrees ms s cur :
  agrees s cur → agrees (run ms s).2 (foldl apply_effect cur (effects ms s)).
Proof.
  revert s cur. induction ms as [|m ms IH]; intros s cur Ha; [done|]. simpl.
  pose proof (handle_agrees s m cur Ha) as Ha'.
  destruct (handle_query_message m s) as [[u|e|] s'] eqn:Hh; simpl in *; [| |done].
  - specialize (IH s' _ Ha'). by destruct (run ms s') as [rs s''].
  - specialize (IH s' _ Ha'). by destruct (run ms s') as [rs s''].
Qed.

(** Nothing commits but an [Execute]. *)
Lemma handle_pool s m :
  pool (handle_query_message m s).2 = pool s ∨
  (query_type m = Execute ∧ transaction s = Some (pool (handle_query_message m s).2)).
Proof.
  unfold handle_query_message. destruct (transaction s) as [d|] eqn:Ht; [|by left].
  assert (query_type m = Execute ∨ query_type m = Rollback ∨
    (query_type m ≠ Execute ∧ query_type m ≠ Rollback)) as [Hm|[Hm|[Hm1 Hm2]]]
    by (destruct (query_type m); auto; right; right; split; discriminate).
  - unfold dispatch. rewrite Hm. unfold st_map_err. pose proof (execute_spec s d Ht) as He.
    destruct (execute s) as [[u|e|] s']; simpl in *; [| |done].
    + right. destruct He as (-> & _). done.
    + destruct He as (_ & [->| ->] & _); [by left|by right].
  - unfold dispatch. rewrite Hm. unfold st_map_err. pose proof (rollback_spec s d Ht) as He.
    destruct (rollback s) as [[u|e|] s']; simpl in *; [| |done]; left; apply He.
  - left. by apply (dispatch_in_transaction m).
Qed.
End transactions.

(** ** Balances and supplies *)
Section balances.
Context `{ExecutorEnv} {U : U256Ops} {HO : HashOrder}.
#[local] Abbreviation db := (Database Rest).
#[local] Abbreviation exec A := (st Executor ExecutorQueryError A).
(** Nothing fails from here on. *)
Context (no_failure : ∀ n, sql_fails n = false).

Lemma sql_try_ok {A} (f : db → option (A * db)) s d a d' :
  transaction s = Some d → f d = Some (a, d') →
  sql_try f s = (Ok a, set_transaction (Some d') (tick s)).
Proof. intros Ht Hf. unfold sql_try. by rewrite Ht, no_failure, Hf. Qed.
Lemma sql_exec_ok f s d :
  transaction s = Some d → sql_exec f s = (Ok tt, set_transaction (Some (f d)) (tick s)).
Proof. intros Ht. by eapply sql_try_ok. Qed.
Lemma sql_get_ok {A} (f : db → A) s d :
  transaction s = Some d → sql_get f s = (Ok (f d), set_transaction (Some d) (tick s)).
Proof. intros Ht. by eapply sql_try_ok. Qed.

Definition with_supply (x : U256) (t : Token) : Token :=
  mkToken (token_name t) (token_symbol t) (token_decimals t) (token_metadata t) (Some x) (token_traits t).

(** A supply never goes below zero. *)
Definition new_supply (x : U256) (diff : I256) : U256 := Z.max 0 (x + to_Z diff).

Lemma apply_supply_diff_ok t diff s d tok x :
  transaction s = Some d → tokens d !! t = Some tok → total_supply tok = Some x →
  u256_ok x → in_range diff → x + to_Z diff ≤ U256_MAX →
  ∃ s', apply_supply_diff t diff s = (Ok tt, s') ∧
    transaction s' = Some (set_tokens (<[t := with_supply (new_supply x diff) tok]> (tokens d)) d) ∧
    publish_queue s' = publish_queue s.
Proof.
  intros Ht Htok Hx Hux Hr Hfit. unfold apply_supply_diff, st_bind.
  rewrite (sql_get_ok _ s d Ht), Htok. simpl. rewrite Hx.
  assert ((if is_negative diff then
      if value diff <=? x then st_lift (unwrap (u256_sub x (value diff))) else st_ret 0
      else st_lift (unwrap (u256_add x (value diff))) : exec Z) =
    st_ret (new_supply x diff)) as ->.
  { unfold new_supply, to_Z, in_range, u256_ok in *. destruct diff as [v neg]; simpl in *.
    destruct neg; [destruct (Z.leb_spec v x)|].
    - rewrite u256_sub_exact by (unfold u256_ok; lia). unfold st_lift, st_ret. simpl.
      by replace (Z.max 0 (x + - v)) with (x - v) by lia.
    - by replace (Z.max 0 (x + - v)) with 0 by lia.
    - rewrite u256_add_exact by (unfold u256_ok; lia). unfold st_lift, st_ret. simpl.
      by replace (Z.max 0 (x + v)) with (x + v) by lia. }
  simpl. erewrite sql_exec_ok by done. eexists. split; [done|]. simpl. split; [|done].
  do 2 f_equal. apply map_eq. intros k. rewrite lookup_insert. destruct (decide (t = k)) as [<-|Hne].
  - rewrite lookup_alter_eq, Htok. done.
  - by rewrite lookup_alter_ne.
Qed.

(** The supplies that tokens with a difference should have. *)
Definition supplies_ok (diffs : gmap TokenId I256) (m : gmap TokenId Token) : Prop :=
  ∀ t diff, diffs !! t = Some diff → ∃ tok x, m !! t = Some tok ∧ total_supply tok = Some x ∧
    u256_ok x ∧ in_range diff ∧ x + to_Z diff ≤ U256_MAX.

Definition supply_update (diff : I256) (tok : Token) : Token :=
  match total_supply tok with Some x => with_supply (new_supply x diff) tok | None => tok end.

Lemma apply_supplies_ok (l : list (TokenId * I256)) s d :
  transaction s = Some d → NoDup l.*1 → supplies_ok (list_to_map l) (tokens d) →
  ∃ s' m, for_each (λ '(t, diff), apply_supply_diff t diff) l s = (Ok tt, s') ∧
    transaction s' = Some (set_tokens m d) ∧ publish_queue s' = publish_queue s ∧
    ∀ t, m !! t = match (list_to_map l : gmap TokenId I256) !! t with
                  | Some diff => supply_update diff <$> tokens d !! t
                  | None => tokens d !! t
                  end.
Proof.
  revert s d. induction l as [|[t diff] l IH]; intros s d Ht Hnd Hok.
  { exists s, (tokens d). split_and!; try done. by destruct d. }
  apply NoDup_cons in Hnd as [Hni Hnd]. simpl in Hni.
  destruct (Hok t diff) as (tok & x & Htok & Hx & Hux & Hr & Hfit); [apply lookup_insert_eq|].
  destruct (apply_supply_diff_ok t diff s d tok x) as (s1 & Hs1 & Ht1 & Hq1); [done..|].
  destruct (IH s1 _ Ht1 Hnd) as (s2 & m & Hs2 & Ht2 & Hq2 & Hm).
  { intros t' diff' Ht'. assert (t' ≠ t) as Hne.
    { intros ->. apply elem_of_list_to_map_2 in Ht'. apply Hni, list_elem_of_fmap. by exists (t, diff'). }
    destruct (Hok t' diff') as (tok' & x' & Htok' & Hrest);
      [simpl; by rewrite lookup_insert_ne|]. exists tok', x'. simpl. by rewrite lookup_insert_ne. }
  exists s2, m. split_and!; [|done|congruence|].
  - simpl. unfold st_bind. by rewrite Hs1.
  - intros t'. rewrite Hm. simpl. rewrite !lookup_insert. destruct (decide (t = t')) as [<-|Hne].
    + rewrite (not_elem_of_list_to_map_1 l t) by done. rewrite Htok. simpl. unfold supply_update.
      by rewrite Hx.
    + done.
Qed.

(** The balance on chain, as the fallback reads it. *)
Definition onchain_balance (cursors : gmap Felt ContractCursor) (id : BalanceId) : option U256 :=
  block_id ← balance_block_id cursors id;
  let contract := token_contract_address (balance_token_id id) in
  r ← match provider_call contract "balance_of" [account_address id] block_id with
      | Some r => Some r
      | None => provider_call contract "balanceOf" [account_address id] block_id
      end;
  cairo_u256_deserialize r.

(** What a balance becomes: the sum, or the balance on chain where the recorded
    one cannot cover the difference. *)
Definition new_balance (cursors : gmap Felt ContractCursor) (id : BalanceId) (old : U256) (diff : I256)
  : option U256 :=
  if old + to_Z diff <? 0 then onchain_balance cursors id else Some (old + to_Z diff).

Definition balance_ok (cursors : gmap Felt ContractCursor) (id : BalanceId) (old : U256) (diff : I256)
  : Prop :=
  u256_ok old ∧ in_range diff ∧ old + to_Z diff ≤ U256_MAX ∧
  is_Some (balance_block_id cursors id) ∧ is_Some (new_balance cursors id old diff).

Definition apply_one_balance (q : ApplyBalanceDiffQuery) : BalanceId * I256 → exec unit :=
  λ '(balance_id, balance),
    let! block_id := st_lift (unwrap (balance_block_id (q_cursors q) balance_id)) in
    apply_balance_diff_helper balance_id balance block_id.

Lemma apply_one_balance_ok q id diff s d v :
  transaction s = Some d →
  balance_ok (q_cursors q) id (default 0 (token_balances d !! id)) diff →
  new_balance (q_cursors q) id (default 0 (token_balances d !! id)) diff = Some v →
  ∃ s', apply_one_balance q (id, diff) s = (Ok tt, s') ∧
    transaction s' = Some (set_token_balances (<[id := v]> (token_balances d)) d) ∧
    publish_queue s' = publish_queue s ++ [TokenBalanceUpdated id v].
Proof.
  intros Ht (Hu & Hr & Hfit & [b Hb] & _) Hv. unfold apply_one_balance, st_bind at 1, st_lift.
  rewrite Hb. simpl. unfold apply_balance_diff_helper, st_bind.
  rewrite (sql_get_ok _ s d Ht). cbv beta iota zeta. set (old := default 0 _) in *.
  set (s1 := set_transaction (Some d) (tick s)).
  assert ((if is_negative diff then if old <? value diff then _ else _ else _ : exec Z) s1 =
    (Ok v, s1)) as ->.
  { unfold new_balance, onchain_balance in Hv. rewrite Hb in Hv. simpl in Hv.
    unfold to_Z, in_range, u256_ok in *. destruct diff as [w neg]; simpl in *. destruct neg.
    - destruct (Z.ltb_spec old w); destruct (Z.ltb_spec (old + - w) 0); try lia.
      + destruct (provider_call _ "balance_of" _ _) as [r|]; simpl in *.
        * by rewrite Hv.
        * destruct (provider_call _ "balanceOf" _ _) as [r|]; [|done]. simpl in *. by rewrite Hv.
      + simplify_eq. by rewrite u256_sub_exact by (unfold u256_ok; lia).
    - destruct (Z.ltb_spec (old + w) 0); [lia|]. simplify_eq.
      by rewrite u256_add_exact by (unfold u256_ok; lia). }
  rewrite (sql_exec_ok _ s1 d) by done. eexists. split; [done|]. done.
Qed.

Lemma apply_balances_ok q (l : list (BalanceId * I256)) s d :
  transaction s = Some d → NoDup l.*1 →
  (∀ id diff, (id, diff) ∈ l → balance_ok (q_cursors q) id (default 0 (token_balances d !! id)) diff) →
  ∃ s' m, for_each (apply_one_balance q) l s = (Ok tt, s') ∧
    transaction s' = Some (set_token_balances m d) ∧
    publish_queue s' = publish_queue s ++
      ((λ x : BalanceId * I256, TokenBalanceUpdated x.1 (default 0 (m !! x.1))) <$> l) ∧
    ∀ id, m !! id = match (list_to_map l : gmap BalanceId I256) !! id with
                    | Some diff => new_balance (q_cursors q) id (default 0 (token_balances d !! id)) diff
                    | None => token_balances d !! id
                    end.
Proof.
  revert s d. induction l as [|[id diff] l IH]; intros s d Ht Hnd Hok.
  { exists s, (token_balances d). rewrite app_nil_r. split_and!; try done. by destruct d. }
  apply NoDup_cons in Hnd as [Hni Hnd]. simpl in Hni.
  pose proof (Hok id diff (list_elem_of_here _ _)) as Hok1. pose proof Hok1 as (_ & _ & _ & _ & [v Hv]).
  destruct (apply_one_balance_ok q id diff s d v) as (s1 & Hs1 & Ht1 & Hq1); [done..|].
  assert (∀ id' diff', (id', diff') ∈ l → id' ≠ id) as Hne.
  { intros id' diff' Hin ->. apply Hni, list_elem_of_fmap. by exists (id, diff'). }
  destruct (IH s1 _ Ht1 Hnd) as (s2 & m & Hs2 & Ht2 & Hq2 & Hm).
  { intros id' diff' Hin. simpl. rewrite lookup_insert_ne by (apply not_eq_sym; by eapply Hne).
    apply Hok. by right. }
  assert (m !! id = Some v) as Hmid.
  { rewrite Hm, (not_elem_of_list_to_map_1 l id) by done. apply lookup_insert_eq. }
  exists s2, m. split_and!; [|done|..].
  - cbn [for_each]. unfold st_bind at 1. by rewrite Hs1.
  - rewrite Hq2, Hq1, <- app_assoc. simpl. by rewrite Hmid.
  - intros id'. rewrite Hm. simpl. destruct (decide (id = id')) as [<-|Hd].
    + rewrite (not_elem_of_list_to_map_1 l id) by done. rewrite !lookup_insert_eq. done.
    + by rewrite !lookup_insert_ne by done.
Qed.
End balances.

(** ** Cursors *)
Section cursors.
Context `{ExecutorEnv} {U : U256Ops} {HO : HashOrder}.
#[local] Abbreviation db := (Database Rest).
Context (no_failure : ∀ n, sql_fails n = false).

(** The row of a contract after its cursor has been written; its [tps] column
    is not. *)
Definition cursor_row (nc : ContractCursor) (old : Contract) : Contract :=
  mkContract (contract_address old) (contract_type old) (Some (as_i64 (default 0 (Proto.head nc))))
    (contract_tps old) (Some (default 0 (last_block_timestamp nc))) (last_pending_block_tx nc).

Definition cursors_row (q : UpdateCursorsQuery) (a : Felt) (old : Contract) : Contract :=
  match uc_cursors q !! a with Some nc => cursor_row nc old | None => old end.

(** No timestamp or count overflows an [i64]. *)
Definition cursors_fit (q : UpdateCursorsQuery) : Prop :=
  (∀ a nc, uc_cursors q !! a = Some nc → 0 ≤ default 0 (last_block_timestamp nc) ≤ i64_max) ∧
  (∀ a txs, uc_cursor_transactions q !! a = Some txs → Z.of_nat (size txs) ≤ i64_max).

Lemma new_tps_bound now n t1 t2 : 0 ≤ n → new_tps now n t1 t2 ≤ n.
Proof.
  intros Hn. unfold new_tps. assert (∀ k, 0 < k → n / k ≤ n) as Hdiv.
  { intros k Hk. apply Z.div_le_upper_bound; [lia|]. nia. }
  destruct (Z.eqb_spec (u64_sub t1 t2) 0) as [|Hne]; simpl.
  - destruct (_ >? 0) eqn:Hd; [|lia]. apply Z.gtb_lt in Hd. by apply Hdiv.
  - apply Hdiv. unfold u64_sub, u64_wrap in *.
    pose proof (Z.mod_pos_bound (t1 - t2) (2 ^ 64) ltac:(lia)). lia.
Qed.

Lemma update_cursor_ok q c s d :
  cursors_fit q → transaction s = Some d → contracts d !! contract_address c = Some c →
  ∃ r s', update_cursor q c s = (Ok r, s') ∧
    transaction s' = Some (set_contracts
      (<[contract_address c := cursors_row q (contract_address c) c]> (contracts d)) d) ∧
    publish_queue s' = publish_queue s.
Proof.
  intros [Hts Hn] Ht Hc. unfold update_cursor, cursors_row.
  destruct (uc_cursors q !! contract_address c) as [nc|] eqn:Hnc.
  - unfold st_bind, st_get, st_lift, unwrap, updated_contract. specialize (Hts _ _ Hnc).
    set (n := Z.of_nat (size _)).
    assert (0 ≤ n ≤ i64_max) as Hn'.
    { unfold n. split; [lia|]. destruct (uc_cursor_transactions q !! _) as [txs|] eqn:Htx; simpl.
      - by apply (Hn _ _ Htx).
      - vm_compute. discriminate. }
    rewrite decide_True.
    + rewrite (sql_exec_ok no_failure _ s d) by done. eexists _, _. split; [done|]. simpl. split; [|done].
      unfold update_contract_row. simpl. do 2 f_equal. apply map_eq. intros k. rewrite lookup_insert.
      destruct (decide (contract_address c = k)) as [<-|Hne].
      * by rewrite lookup_alter_eq, Hc.
      * by rewrite lookup_alter_ne.
    + split; [|lia]. etrans; [apply new_tps_bound; lia|lia].
  - eexists _, _. split; [done|]. split; [|done]. rewrite Ht. f_equal. rewrite insert_id by done.
    by destruct d.
Qed.

Lemma update_cursors_loop q (l : list Contract) s d :
  cursors_fit q → transaction s = Some d → NoDup (contract_address <$> l) →
  (∀ c, c ∈ l → contracts d !! contract_address c = Some c) →
  ∃ rs s' m, st_mapM (update_cursor q) l s = (Ok rs, s') ∧
    transaction s' = Some (set_contracts m d) ∧ publish_queue s' = publish_queue s ∧
    ∀ a, m !! a = if decide (a ∈ contract_address <$> l) then cursors_row q a <$> contracts d !! a
                  else contracts d !! a.
Proof.
  intros Hfit. revert s d. induction l as [|c l IH]; intros s d Ht Hnd Hl.
  { exists [], s, (contracts d). split_and!; try done. by destruct d. }
  rewrite fmap_cons in Hnd. apply NoDup_cons in Hnd as [Hni Hnd].
  destruct (update_cursor_ok q c s d Hfit Ht (Hl c (list_elem_of_here _ _)))
    as (r & s1 & Hs1 & Ht1 & Hq1).
  destruct (IH s1 _ Ht1 Hnd) as (rs & s2 & m & Hs2 & Ht2 & Hq2 & Hm).
  { intros c' Hc'. simpl. rewrite lookup_insert_ne; [apply Hl; by right|].
    intros Heq. apply Hni, list_elem_of_fmap. by exists c'. }
  exists (r :: rs), s2, m. split_and!; [|done|congruence|].
  - cbn [st_mapM]. unfold st_bind. rewrite Hs1, Hs2. done.
  - intros a. rewrite Hm, fmap_cons. unfold set_contracts. cbn [contracts]. rewrite lookup_insert.
    destruct (decide (a ∈ contract_address <$> l)) as [Hin|Hin].
    + rewrite (decide_False (P := contract_address c = a)) by by intros <-.
      by rewrite decide_True by by right.
    + destruct (decide (contract_address c = a)) as [<-|Hne].
      * rewrite decide_True by left. by rewrite (Hl c (list_elem_of_here _ _)).
      * rewrite decide_False by (rewrite elem_of_cons; naive_solver). done.
Qed.

Lemma publish_all_ok l s :
  ∃ s', for_each publish_optimistic_and_queue l s = (Ok tt, s') ∧
    transaction s' = transaction s ∧ publish_queue s' = publish_queue s ++ l.
Proof.
  revert s. induction l as [|m l IH]; intros s; simpl; [exists s; by rewrite app_nil_r|].
  unfold st_bind. simpl. edestruct IH as (s' & Hs' & Ht & Hq). exists s'. split; [exact Hs'|].
  rewrite Ht, Hq. simpl. by rewrite <- app_assoc.
Qed.
End cursors.

(** ** Entities *)
Section entities.
Context `{ExecutorEnv} {U : U256Ops} {HO : HashOrder}.
#[local] Abbreviation db := (Database Rest).
#[local] Abbreviation exec A := (st Executor ExecutorQueryError A).
Context (no_failure : ∀ n, sql_fails n = false).

(** The database of the open transaction, the configuration and the queue, which
    is what the following statements are about. *)
Definition at_db (s : Executor) (d : db) (c : SqlConfig) (q : list BrokerMessage) : Prop :=
  transaction s = Some d ∧ config s = c ∧ publish_queue s = q.

Lemma at_sql_try {A} (f : db → option (A * db)) s d c q a s' :
  at_db s d c q → sql_try f s = (Ok a, s') → ∃ d', f d = Some (a, d') ∧ at_db s' d' c q.
Proof.
  intros (Ht & Hc & Hq) Hs. unfold sql_try in Hs. rewrite Ht, no_failure in Hs.
  destruct (f d) as [[a' d']|] eqn:Hf; simplify_eq. by exists d'.
Qed.
Lemma at_sql_exec f s d c q u s' : at_db s d c q → sql_exec f s = (Ok u, s') → at_db s' (f d) c q.
Proof. intros Ha Hs. by destruct (at_sql_try _ _ _ _ _ _ _ Ha Hs) as (d' & [= <- <-] & ?). Qed.
Lemma at_sql_get {A} (f : db → A) s d c q a s' : at_db s d c q → sql_get f s = (Ok a, s') → a = f d ∧ at_db s' d c q.
Proof. intros Ha Hs. by destruct (at_sql_try _ _ _ _ _ _ _ Ha Hs) as (d' & [= <- <-] & ?). Qed.
Lemma at_read_counter f s d c q n s' :
  at_db s d c q → read_counter f s = (Ok n, s') → n = default 0 (f d) ∧ at_db s' d c q.
Proof.
  intros Ha. unfold read_counter. destruct (sql_get f s) as [[x|e|] s1] eqn:Hs; [| |done].
  - intros [= <- <-]. by destruct (at_sql_get _ _ _ _ _ _ _ Ha Hs) as [-> ?].
  - exfalso. destruct Ha as (Ht & _). unfold sql_get, sql_try in Hs. by rewrite Ht, no_failure in Hs.
Qed.
Lemma at_lift {A} (o : outcome ExecutorQueryError A) s d c q a s' :
  at_db s d c q → st_lift o s = (Ok a, s') → o = Ok a ∧ at_db s' d c q.
Proof. intros Ha [= -> <-]. done. Qed.
Lemma at_publish m s d c q u s' :
  at_db s d c q → publish_optimistic_and_queue m s = (Ok u, s') → at_db s' d c (q ++ [m]).
Proof. by intros (Ht & Hc & <-) [= <- <-]. Qed.

Lemma at_query_execute m s d c q r s' :
  at_db s d c q → query_execute m s = (Ok r, s') →
  ∃ d', run_statement (statement m) (arguments m) d = (Some r, d') ∧ at_db s' d' c q.
Proof.
  intros Ha Hs. destruct (at_sql_try _ _ _ _ _ _ _ Ha Hs) as (d' & Hr & Ha').
  destruct (run_statement _ _ d) as [[r'|] d''] eqn:Hrun; simplify_eq. eauto.
Qed.
Lemma at_fetch_one m s d c q row s' :
  at_db s d c q → fetch_one m s = (Ok row, s') →
  ∃ rows n d', run_statement (statement m) (arguments m) d = (Some (rows, n), d') ∧
    rows !! 0%nat = Some row ∧ at_db s' d' c q.
Proof.
  intros Ha Hs. apply st_bind_Ok in Hs as ([rows n] & s1 & Hq & Hs).
  destruct (at_query_execute _ _ _ _ _ _ _ Ha Hq) as (d' & Hr & Ha1).
  destruct (at_lift _ _ _ _ _ _ _ Ha1 Hs) as [Hrow Ha2].
  exists rows, n, d'. destruct (rows !! 0%nat); simplify_eq/=. done.
Qed.
Lemma at_entity_model_query m e s d c q r s' :
  at_db s d c q → entity_model_query m e s = (Ok r, s') → at_db s' d c q.
Proof.
  intros Ha Hs. apply st_bind_Ok in Hs as (model & s1 & Hq & Hs).
  destruct (at_sql_get _ _ _ _ _ _ _ Ha Hq) as [_ Ha1].
  apply st_bind_Ok in Hs as ([ns schema] & s2 & Hl & Hs). destruct (at_lift _ _ _ _ _ _ _ Ha1 Hl) as [_ Ha2].
  apply st_bind_Ok in Hs as (row & s3 & Hg & Hs). destruct (at_sql_get _ _ _ _ _ _ _ Ha2 Hg) as [_ Ha3].
  destruct row as [row|]; [|by injection Hs as <- <-].
  apply st_bind_Ok in Hs as (ty & s4 & Hl4 & Hs). destruct (at_lift _ _ _ _ _ _ _ Ha3 Hl4) as [_ Ha4].
  by injection Hs as <- <-.
Qed.

(** A model no aggregator watches. *)
Lemma at_update_aggregations ty m s d c q r s' :
  at_db s d c q → get_aggregator_for_model (ty_name ty) c = [] →
  update_aggregations ty m s = (Ok r, s') → r = [] ∧ at_db s' d c q.
Proof.
  intros (Ht & Hc & Hq) Hagg. unfold update_aggregations, st_bind, st_get. rewrite Hc, Hagg. simpl.
  by intros [= <- <-].
Qed.

(** [SELECT count( * ) FROM entity_model WHERE entity_id = ?] is zero when there
    is no row. *)
Lemma count_models_zero (id : string) (em : gmap (string * string) Z) :
  length (filter (λ k : string * string, k.1 = id) (map_to_list em).*1) = 0%nat ↔
  ∀ mid, em !! (id, mid) = None.
Proof.
  rewrite length_zero_iff_nil. split.
  - intros Hnil mid. destruct (em !! (id, mid)) as [z|] eqn:Hz; [|done]. exfalso.
    assert ((id, mid) ∈ filter (λ k : string * string, k.1 = id) (map_to_list em).*1) as Hin.
    { apply list_elem_of_filter. split; [done|]. apply list_elem_of_fmap. exists ((id, mid), z).
      by rewrite elem_of_map_to_list. }
    rewrite Hnil in Hin. by apply elem_of_nil in Hin.
  - intros Hall. apply elem_of_nil_inv. intros [e mid] [He Hin]%list_elem_of_filter. simpl in He. subst e.
    apply list_elem_of_fmap in Hin as ([k z] & Hk & Hin). simpl in Hk. subst k.
    apply elem_of_map_to_list in Hin. by rewrite Hall in Hin.
Qed.

(** A loop of statements that all keep a relation on the database. *)
Lemma at_for_each {A} (R : relation db) `{!PreOrder R} (f : A → exec unit) l :
  ∀ s d c q s', at_db s d c q → for_each f l s = (Ok tt, s') →
  (∀ x s d c q s', at_db s d c q → f x s = (Ok tt, s') → ∃ d', at_db s' d' c q ∧ R d d') →
  ∃ d', at_db s' d' c q ∧ R d d'.
Proof.
  induction l as [|x l IH]; intros s d c q s' Ha Hs Hf.
  { injection Hs as <-. by exists d. }
  cbn [for_each] in Hs. apply st_bind_Ok in Hs as ([] & s1 & H1 & Hs).
  destruct (Hf _ _ _ _ _ _ Ha H1) as (d1 & Ha1 & HR1).
  destruct (IH _ _ _ _ _ Ha1 Hs Hf) as (d2 & Ha2 & HR2). exists d2. split; [done|]. by etrans.
Qed.

Definition same_tokens (d d' : db) : Prop := tokens d' = tokens d.
#[global] Instance same_tokens_preorder : PreOrder same_tokens.
Proof. split; unfold same_tokens; [by intros d|intros d1 d2 d3; congruence]. Qed.

Lemma at_store_token_attributes m t s d c q s' :
  at_db s d c q → store_token_attributes m t s = (Ok tt, s') →
  ∃ d', at_db s' d' c q ∧ same_tokens d d'.
Proof.
  intros Ha Hs. unfold store_token_attributes in Hs. case_decide; [injection Hs as <-; by exists d|].
  destruct (extract_traits_from_json m) as [traits|]; [|injection Hs as <-; by exists d].
  apply st_bind_Ok in Hs as ([] & s1 & H1 & Hs). apply (at_sql_exec _ _ _ _ _ _ _ Ha) in H1 as Ha1.
  destruct (at_for_each same_tokens _ _ _ _ _ _ _ Ha1 Hs) as (d2 & Ha2 & HR); [|by exists d2].
  intros x t1 d1 c1 q1 t2 Hb Ht. apply (at_sql_try _ _ _ _ _ _ _ Hb) in Ht as (d' & Hd' & Hb').
  exists d'. split; [done|]. by destruct (token_attributes d1 !! _); simplify_eq.
Qed.

Lemma at_read_contract_traits a s d c q r s' :
  at_db s d c q → read_contract_traits a s = (Ok r, s') →
  r = token_traits <$> tokens d !! TokenContract a ∧ at_db s' d c q.
Proof.
  intros Ha. unfold read_contract_traits. destruct (sql_get _ s) as [[x|e|] s1] eqn:Hs; [| |done].
  - intros [= <- <-]. by destruct (at_sql_get _ _ _ _ _ _ _ Ha Hs) as [-> ?].
  - exfalso. destruct Ha as (Ht & _). unfold sql_get, sql_try in Hs. by rewrite Ht, no_failure in Hs.
Qed.

(** Traits of one token replaced by the same traits. *)
Lemma replace_traits_by_same (cnt : gmap string json) l t :
  counts_wf cnt → (∀ t, trait_count cnt t + occurrences t l ≤ u64_max) →
  trait_count (apply_to_counts cnt l l) t = Z.max (trait_count cnt t) (occurrences t l).
Proof.
  intros Hm Hb. destruct (foldl_subtract cnt l Hm) as [Hwf Hc].
  destruct (foldl_add _ l Hwf) as [_ Hc'].
  { intros t'. rewrite Hc. specialize (Hb t'). pose proof (trait_occurrences_nonneg t' l).
    pose proof (trait_count_nonneg cnt t' Hm). lia. }
  unfold apply_to_counts. rewrite Hc', Hc. pose proof (trait_occurrences_nonneg t l). lia.
Qed.

Lemma contract_traits_same_metadata md a s d c q s' tc cnt l :
  at_db s d c q → tokens d !! TokenContract a = Some tc → json_map_from_str (token_traits tc) = Some cnt →
  extract_traits_from_json md = Some l → md ≠ "" →
  update_contract_traits_on_metadata_change md md a s = (Ok tt, s') →
  ∃ d' tc', at_db s' d' c q ∧ tokens d' !! TokenContract a = Some tc' ∧
    token_traits tc' = default (token_traits tc) (json_map_to_string (apply_to_counts cnt l l)).
Proof.
  intros Ha Htc Hcnt Hl Hmd Hs. unfold update_contract_traits_on_metadata_change in Hs.
  apply st_bind_Ok in Hs as (cur & s1 & Hr & Hs).
  destruct (at_read_contract_traits _ _ _ _ _ _ _ Ha Hr) as [-> Ha1].
  rewrite Htc in Hs. simpl in Hs. rewrite !(decide_False (P := md = "")), Hl in Hs by done. simpl in Hs.
  unfold apply_trait_operations in Hs. rewrite Hcnt in Hs. simpl in Hs.
  destruct (json_map_to_string _) as [str|]; simpl.
  - apply (at_sql_exec _ _ _ _ _ _ _ Ha1) in Hs as Ha2. eexists _, _. split; [exact Ha2|]. simpl.
    rewrite lookup_alter_eq, Htc. simpl. split; [done|]. done.
  - injection Hs as <-. exists d, tc. by split_and!.
Qed.

(** Statements that touch neither models nor activities. *)
Definition same_activities (d d' : db) : Prop := models d' = models d ∧ activities d' = activities d.
#[global] Instance same_activities_preorder : PreOrder same_activities.
Proof.
  split; unfold same_activities; [by intros d|]. intros d1 d2 d3 [??] [??]. split; congruence.
Qed.

Lemma at_for_each_exec {A} (R : relation db) `{!PreOrder R} (f : A → db → db) l s d c q s' :
  at_db s d c q → for_each (λ x, sql_exec (f x)) l s = (Ok tt, s') → (∀ x d, R d (f x d)) →
  ∃ d', at_db s' d' c q ∧ R d d'.
Proof.
  intros Hs Hl HR. apply (at_for_each _ _ _ _ _ _ _ _ Hs Hl). intros x t d0 c0 q0 t' Ha Ht.
  exists (f x d0). split; [|done]. exact (at_sql_exec _ _ _ _ _ _ _ Ha Ht).
Qed.

(** A world-scoped id is never the text of a felt. *)
Lemma scoped_id_not_felt w sel f :
  felt_ok w → felt_ok f → format_world_scoped_id w sel ≠ felt_to_sql_string f.
Proof.
  intros Hw Hf Heq. apply (f_equal (split ":"%char)) in Heq. unfold format_world_scoped_id in Heq.
  change ":" with (String ":" "") in Heq.
  rewrite split_sep in Heq by (apply format_hex_free; [by left|]; by apply felt_ok_bound).
  unfold felt_to_sql_string in Heq.
  rewrite (split_free ":"%char (format_hex 64 f)) in Heq
    by (apply format_hex_free; [by left|]; by apply felt_ok_bound).
  injection Heq as _ Hnil. by apply split_ne_nil in Hnil.
Qed.

Definition ids_scoped (d : db) : Prop :=
  ∀ id m, models d !! id = Some m → ∃ w sel, felt_ok w ∧ id = format_world_scoped_id w sel.

Lemma select_namespaces_scoped (l : list Felt) d :
  ids_scoped d → Forall felt_ok l → select_namespaces (felt_to_sql_string <$> l) d = [].
Proof.
  intros Hids Hl. unfold select_namespaces.
  match goal with |- remove_dups ?x = [] => enough (x = []) as -> by done end.
  apply elem_of_nil_inv. intros ns [[id m] [Hin Hns]]%list_elem_of_omap.
  apply elem_of_hm_iter in Hin. destruct (Hids _ _ Hin) as (w & sel & Hw & ->). simpl in Hns.
  case_bool_decide as Hel; [|done]. apply list_elem_of_fmap in Hel as (f & Heq & Hf).
  rewrite Forall_forall in Hl. by apply (scoped_id_not_felt w sel f) in Heq; [|done|apply Hl].
Qed.

Definition historical_row (q : EntityQuery) (data world ent : string) : HistoricalRow :=
  mkHistorical (eq_entity_id q) (eq_keys_str q) (eq_event_id q) data (eq_model_id q)
    (eq_block_timestamp q) world ent.
End entities.

(** ** Properties *)
Section properties.
Context `{ExecutorEnv} {U : U256Ops} {HO : HashOrder}.
#[local] Abbreviation db := (Database Rest).


(** A message has the effect on the transaction that its kind says. Anything
    but [Execute] and [Rollback], failing or not, leaves the committed database
    alone and the transaction open, and queues what it publishes. A successful
    [Execute] commits the transaction's database and opens a new transaction on
    it with an empty queue; a successful [Rollback] opens one on the committed
    database as it was. Neither panics. *)
Theorem transaction_step (s : Executor) (m : QueryMessage) (d : db) :
  transaction s = Some d →
  match query_type m, handle_query_message m s with
  | Execute, (Ok _, s') => pool s' = d ∧ transaction s' = Some d ∧ publish_queue s' = []
  | Rollback, (Ok _, s') => pool s' = pool s ∧ transaction s' = Some (pool s) ∧ publish_queue s' = []
  | (Execute | Rollback), (Err _, s') => transaction s' = None
  | (Execute | Rollback), (Panic, _) => False
  | _, (_, s') => pool s' = pool s ∧ is_Some (transaction s') ∧
      ∃ new, publish_queue s' = publish_queue s ++ new ∧ optimistic s' = optimistic s ++ new
  end.
Proof.
  intros Ht. unfold handle_query_message. rewrite Ht.
  assert (query_type m = Execute ∨ query_type m = Rollback ∨
    (query_type m ≠ Execute ∧ query_type m ≠ Rollback)) as [Hm|[Hm|[Hm1 Hm2]]]
    by (destruct (query_type m); auto; right; right; split; discriminate).
  - unfold dispatch. rewrite Hm. unfold st_map_err. pose proof (execute_spec s d Ht) as He.
    destruct (execute s) as [[u|e|] s']; simpl in *; naive_solver.
  - unfold dispatch. rewrite Hm. unfold st_map_err. pose proof (rollback_spec s d Ht) as He.
    destruct (rollback s) as [[u|e|] s']; simpl in *; naive_solver.
  - assert (in_transaction s (dispatch m s).2) as Hin by by apply dispatch_in_transaction.
    assert (is_Some (transaction (dispatch m s).2)) as Hs by (apply Hin; by rewrite Ht).
    pose proof (in_transaction_published _ _ Hin) as [_ Hnew]. destruct Hin as [Hp _].
    destruct (query_type m); try done; by destruct (dispatch m s) as [r s'].
Qed.

(** A failed commit, checkpoint or begin ends the executor. When [Execute] or
    [Rollback] returns an error the transaction is gone, and every further
    message panics without touching anything: updates still queued are never
    confirmed, although the database may have been committed. *)
Theorem executor_lost_after_failure (s s' : Executor) (m m' : QueryMessage) (e : ExecutorQueryError) :
  (query_type m = Execute ∨ query_type m = Rollback) →
  handle_query_message m s = (Err e, s') →
  confirmed s' = confirmed s ∧ handle_query_message m' s' = (Panic, s').
Proof.
  intros Hm Hh. unfold handle_query_message in *. destruct (transaction s) as [d|] eqn:Ht; [|done].
  unfold dispatch, st_map_err in Hh. destruct Hm as [Hm|Hm]; rewrite Hm in Hh.
  - pose proof (execute_spec s d Ht) as He. destruct (execute s) as [[u|e0|] s1]; simplify_eq/=.
    destruct He as (-> & _ & _ & Hp). split; [|done]. unfold confirmed. by rewrite Hp.
  - pose proof (rollback_spec s d Ht) as He. destruct (rollback s) as [[u|e0|] s1]; simplify_eq/=.
    destruct He as (-> & _ & Hp). split; [|done]. unfold confirmed. by rewrite Hp.
Qed.

(** C6: applying the differences of a batch writes the right numbers. When no
    statement fails, every token with a supply difference has that difference
    added to its supply (down to zero at most), every balance with a difference
    becomes the recorded balance plus the difference, or the balance on chain
    where the recorded one cannot cover it, everything else stays, and one
    update per changed balance is queued, carrying the balance written. The
    order in which the maps are iterated does not matter. *)
Theorem apply_balance_diff_exact (q : ApplyBalanceDiffQuery) (s : Executor) (d : db) :
  (∀ n, sql_fails n = false) → transaction s = Some d →
  supplies_ok (q_total_supply_diff q) (tokens d) →
  (∀ id diff, q_balances_diff q !! id = Some diff →
     balance_ok (q_cursors q) id (default 0 (token_balances d !! id)) diff) →
  ∃ s' tokens' balances', apply_balance_diff q s = (Ok tt, s') ∧
    transaction s' = Some (set_token_balances balances' (set_tokens tokens' d)) ∧
    (∀ t, tokens' !! t = match q_total_supply_diff q !! t with
                         | Some diff => supply_update diff <$> tokens d !! t
                         | None => tokens d !! t
                         end) ∧
    (∀ id, balances' !! id = match q_balances_diff q !! id with
                             | Some diff => new_balance (q_cursors q) id
                                              (default 0 (token_balances d !! id)) diff
                             | None => token_balances d !! id
                             end) ∧
    publish_queue s' = publish_queue s ++
      ((λ x : BalanceId * I256, TokenBalanceUpdated x.1 (default 0 (balances' !! x.1))) <$>
         hm_iter (q_balances_diff q)).
Proof.
  intros Hnf Ht Hs Hb.
  assert (∀ K V (EqDecision0 : EqDecision K) (Countable0 : Countable K) (m : gmap K V),
    list_to_map (hm_iter m) = m ∧ NoDup (hm_iter m).*1) as Hiter.
  { intros K V ?? m. split; [|apply NoDup_hm_keys].
    apply map_eq. intros k. apply option_eq. intros v.
    rewrite <- elem_of_list_to_map by apply NoDup_hm_keys. apply elem_of_hm_iter. }
  destruct (Hiter _ _ _ _ (q_total_supply_diff q)) as [Hl1 Hnd1].
  destruct (Hiter _ _ _ _ (q_balances_diff q)) as [Hl2 Hnd2].
  destruct (apply_supplies_ok Hnf (hm_iter (q_total_supply_diff q)) s d)
    as (s1 & ts & Hs1 & Ht1 & Hq1 & Hts); [done|done|by rewrite Hl1|].
  destruct (apply_balances_ok Hnf q (hm_iter (q_balances_diff q)) s1 _ Ht1 Hnd2)
    as (s2 & bs & Hs2 & Ht2 & Hq2 & Hbs).
  { intros id diff Hin. apply Hb. by apply elem_of_hm_iter. }
  exists s2, ts, bs. unfold apply_balance_diff, st_bind at 1. rewrite Hs1. rewrite Hl1 in Hts. rewrite Hl2 in Hbs.
  split_and!; [exact Hs2|done|done|done|congruence].
Qed.

(** Updating cursors writes exactly the cursors it is given: every known
    contract with a new cursor gets its head (0 when the cursor has none), block
    timestamp and last pending transaction, every other contract keeps its row,
    and the [tps] column of all of them stays, although a new value is
    computed and published. It does not panic while timestamps fit an [i64]. *)
Theorem update_cursors_exact (q : UpdateCursorsQuery) (s : Executor) (d : db) :
  (∀ n, sql_fails n = false) → transaction s = Some d → cursors_fit q →
  (∀ a c, contracts d !! a = Some c → contract_address c = a) →
  ∃ s' contracts', handle_update_cursors q s = (Ok tt, s') ∧
    transaction s' = Some (set_contracts contracts' d) ∧
    ∀ a, contracts' !! a = cursors_row q a <$> contracts d !! a.
Proof.
  intros Hnf Ht Hfit Hkey. unfold handle_update_cursors, st_bind.
  rewrite (sql_get_ok Hnf _ s d Ht).
  set (s1 := set_transaction (Some d) (tick s)).
  assert (∀ c, c ∈ hm_values (contracts d) ↔ ∃ a, contracts d !! a = Some c) as Hval.
  { intros c. unfold hm_values. rewrite list_elem_of_fmap. split.
    - intros ([a c'] & -> & Hin). exists a. by apply elem_of_hm_iter.
    - intros [a Ha]. exists (a, c). by rewrite elem_of_hm_iter. }
  assert (contract_address <$> hm_values (contracts d) = hm_keys (contracts d)) as Hkeys.
  { unfold hm_values, hm_keys. rewrite <- list_fmap_compose. apply list_fmap_ext.
    intros i [a c] Hi. simpl. apply Hkey. apply list_elem_of_lookup_2 in Hi. by apply elem_of_hm_iter. }
  destruct (update_cursors_loop Hnf q (hm_values (contracts d)) s1 d Hfit eq_refl)
    as (rs & s2 & m & Hs2 & Ht2 & _ & Hm).
  { rewrite Hkeys. apply NoDup_hm_keys. }
  { intros c [a Ha]%Hval. by rewrite (Hkey a c Ha). }
  rewrite Hs2. destruct (publish_all_ok (omap id rs) s2) as (s3 & Hs3 & Ht3 & _).
  exists s3, m. rewrite Ht3. split_and!; [done..|]. intros a. rewrite Hm, Hkeys.
  case_decide as Hin; [done|]. rewrite elem_of_hm_keys in Hin.
  apply eq_None_not_Some in Hin. by rewrite Hin.
Qed.

(** The history counter of an entity's model counts its history. When setting
    an entity succeeds (with no statement failing, for a model no aggregator
    watches), the counter is the one it had, plus one exactly when the model is
    historical, in which case exactly one row, holding this event and the new
    value, joins the history; no other counter and no other row changes. *)
Theorem set_entity_history (m : QueryMessage) (q : EntityQuery) (s s' : Executor) (d : db) rows n d1 :
  (∀ k, sql_fails k = false) → transaction s = Some d →
  run_statement (statement m) (arguments m) d = (Some (rows, n), d1) →
  get_aggregator_for_model (ty_name (eq_ty q)) (config s) = [] →
  handle_set_entity m q s = (Ok tt, s') →
  ∃ d', transaction s' = Some d' ∧
    entity_model d' =
      <[(eq_entity_id q, eq_model_id q) :=
          default 0 (entity_model d1 !! (eq_entity_id q, eq_model_id q)) +
          (if eq_is_historical q then 1 else 0)]> (entity_model d1) ∧
    if eq_is_historical q then
      ∃ data world ent, ty_to_json (eq_ty q) = Ok data ∧
        split_once ":"%char (eq_entity_id q) = Some (world, ent) ∧
        entities_historical d' = entities_historical d1 ++ [historical_row q data world ent]
    else entities_historical d' = entities_historical d1.
Proof.
  intros Hnf Ht Hrun Hagg Hs. assert (at_db s d (config s) (publish_queue s)) as Ha by done.
  unfold handle_set_entity in Hs.
  apply st_bind_Ok in Hs as (row & s1 & Hf & Hs).
  destruct (at_fetch_one Hnf _ _ _ _ _ _ _ Ha Hf) as (rows' & n' & d1' & Hrun' & _ & Ha1).
  rewrite Hrun in Hrun'. simplify_eq.
  apply st_bind_Ok in Hs as (eu & s2 & Hl & Hs). destruct (at_lift _ _ _ _ _ _ _ Ha1 Hl) as [_ Ha2].
  apply st_bind_Ok in Hs as (fm & s3 & Hem & Hs). pose proof (at_entity_model_query Hnf _ _ _ _ _ _ _ _ Ha2 Hem) as Ha3.
  apply st_bind_Ok in Hs as (cnt & s4 & Hcnt & Hs).
  destruct (at_read_counter Hnf _ _ _ _ _ _ _ Ha3 Hcnt) as [-> Ha4].
  apply st_bind_Ok in Hs as (cnt' & s5 & Hhist & Hs).
  apply st_bind_Ok in Hs as ([] & s6 & Hins & Hs).
  apply st_bind_Ok in Hs as (aggs & s7 & Haggs & Hs).
  apply st_bind_Ok in Hs as ([] & s8 & Hpubs & Hs).
  assert (∃ d2, at_db s5 d2 (config s) (publish_queue s) ∧ entity_model d2 = entity_model d1' ∧
    cnt' = default 0 (entity_model d1' !! (eq_entity_id q, eq_model_id q)) +
      (if eq_is_historical q then 1 else 0) ∧
    if eq_is_historical q then
      ∃ data world ent, ty_to_json (eq_ty q) = Ok data ∧
        split_once ":"%char (eq_entity_id q) = Some (world, ent) ∧
        entities_historical d2 = entities_historical d1' ++ [historical_row q data world ent]
    else entities_historical d2 = entities_historical d1') as (d2 & Ha5 & Hem2 & -> & Hh2).
  { destruct (eq_is_historical q).
    - apply st_bind_Ok in Hhist as ([world ent] & t1 & Hsp & Hhist).
      destruct (at_lift _ _ _ _ _ _ _ Ha4 Hsp) as [Hsplit Hb1].
      apply st_bind_Ok in Hhist as (data & t2 & Hj & Hhist).
      destruct (at_lift _ _ _ _ _ _ _ Hb1 Hj) as [Hjson Hb2].
      apply st_bind_Ok in Hhist as ([] & t3 & Hex & Hhist). injection Hhist as <- <-.
      pose proof (at_sql_exec Hnf _ _ _ _ _ _ _ Hb2 Hex) as Hb3.
      eexists. split; [exact Hb3|]. split_and!; [done|done|]. exists data, world, ent.
      split_and!; [done| |done]. by destruct (split_once _ _); simplify_eq/=.
    - injection Hhist as <- <-. exists d1'. split_and!; try done. lia. }
  pose proof (at_sql_exec Hnf _ _ _ _ _ _ _ Ha5 Hins) as Ha6.
  destruct (at_update_aggregations _ _ _ _ _ _ _ _ Ha6 Hagg Haggs) as [-> Ha7].
  injection Hpubs as <-. pose proof (at_publish _ _ _ _ _ _ _ Ha7 Hs) as (Ht8 & _).
  eexists. split; [exact Ht8|]. simpl. rewrite Hem2. split; [done|].
  destruct (eq_is_historical q); exact Hh2.
Qed.

(** Deleting a model of an entity deletes the entity with its last model.
    When the deletion succeeds (no statement failing) and removed a row, the
    entity's link to that model is gone, the entity's row is gone exactly when no
    other model of it remains, and the update that is queued says so. *)
Theorem delete_entity_last_model (m : QueryMessage) (q : DeleteEntityQuery) (s s' : Executor) (d d1 : db)
    rows n :
  (∀ k, sql_fails k = false) → transaction s = Some d →
  run_statement (statement m) (arguments m) d = (Some (rows, n), d1) → n ≠ 0 →
  (∀ row, entities d1 !! del_entity_id q = Some row → entity_row_id row = del_entity_id q) →
  handle_delete_entity m q s = (Ok tt, s') →
  ∃ d' row model last, transaction s' = Some d' ∧
    entity_model d' = delete (del_entity_id q, del_model_id q) (entity_model d1) ∧
    (last = true ↔ ∀ mid, entity_model d' !! (del_entity_id q, mid) = None) ∧
    entities d' !! del_entity_id q = (if last then None else Some row) ∧
    publish_queue s' = publish_queue s ++
      [EntityUpdate (mkEntityUpdate row (Some (ty_empty_struct (ty_name (del_ty q)))) (Some model) last)].
Proof.
  intros Hnf Ht Hrun Hn Hid Hs. assert (at_db s d (config s) (publish_queue s)) as Ha by done.
  unfold handle_delete_entity in Hs.
  apply st_bind_Ok in Hs as (om & s1 & Hem & Hs).
  pose proof (at_entity_model_query Hnf _ _ _ _ _ _ _ _ Ha Hem) as Ha1.
  apply st_bind_Ok in Hs as (model & s2 & Hl & Hs). destruct (at_lift _ _ _ _ _ _ _ Ha1 Hl) as [_ Ha2].
  apply st_bind_Ok in Hs as ([rows' n'] & s3 & Hq & Hs).
  destruct (at_query_execute Hnf _ _ _ _ _ _ _ Ha2 Hq) as (d1' & Hrun' & Ha3).
  rewrite Hrun in Hrun'. simplify_eq. rewrite (proj2 (Z.eqb_neq n' 0) Hn) in Hs.
  apply st_bind_Ok in Hs as ([] & s4 & Hex & Hs). pose proof (at_sql_exec Hnf _ _ _ _ _ _ _ Ha3 Hex) as Ha4.
  apply st_bind_Ok in Hs as (row & s5 & Htry & Hs).
  destruct (at_sql_try Hnf _ _ _ _ _ _ _ Ha4 Htry) as (d5 & Hf & Ha5).
  simpl in Hf. destruct (entities d1' !! del_entity_id q) as [old|] eqn:Hold; simplify_eq/=.
  apply st_bind_Ok in Hs as (cnt & s6 & Hcnt & Hs).
  destruct (at_sql_get Hnf _ _ _ _ _ _ _ Ha5 Hcnt) as [Hc Ha6].
  simpl in Hc. rewrite (Hid old eq_refl) in *.
  apply st_bind_Ok in Hs as ([] & s7 & Hdel & Hs).
  pose proof (count_models_zero (del_entity_id q)
    (delete (del_entity_id q, del_model_id q) (entity_model d1'))) as Hzero. rewrite <- Hc in Hzero.
  case_bool_decide as Hcase.
  - pose proof (at_sql_exec Hnf _ _ _ _ _ _ _ Ha6 Hdel) as Ha7.
    destruct (at_publish _ _ _ _ _ _ _ Ha7 Hs) as (Ht7 & _ & Hq7).
    eexists _, _, model, true. split_and!; [exact Ht7|done| |apply lookup_delete_eq|exact Hq7].
    simpl. split; [by intros _; apply Hzero|done].
  - injection Hdel as <-. destruct (at_publish _ _ _ _ _ _ _ Ha6 Hs) as (Ht7 & _ & Hq7).
    eexists _, _, model, false. split_and!; [exact Ht7|done| |apply lookup_insert_eq|exact Hq7].
    simpl. split; [done|]. intros Hall. by apply Hzero in Hall.
Qed.
(** A metadata update only ever raises trait counts. The metadata that is
    read as the old one is read after the update, so the traits taken away are
    the new ones: when the update of an NFT succeeds (no statement failing), the
    count of each trait becomes the greater of what it was and its number of
    occurrences in the new metadata, and the traits the token had before stay
    counted. *)
Theorem metadata_update_keeps_old_traits (q : UpdateTokenMetadataQuery) (s s' : Executor) (d : db)
    a i tc cnt l :
  (∀ k, sql_fails k = false) → transaction s = Some d → cfg_trait_counts (config s) = true →
  um_token_id q = Nft a i → um_metadata q ≠ "" → extract_traits_from_json (um_metadata q) = Some l →
  tokens d !! TokenContract a = Some tc → json_map_from_str (token_traits tc) = Some cnt →
  counts_wf cnt → (∀ t, trait_count cnt t + occurrences t l ≤ u64_max) →
  handle_update_token_metadata q s = (Ok tt, s') →
  ∃ d' tc' cnt', transaction s' = Some d' ∧ tokens d' !! TokenContract a = Some tc' ∧
    token_traits tc' = default (token_traits tc) (json_map_to_string cnt') ∧
    ∀ t, trait_count cnt' t = Z.max (trait_count cnt t) (occurrences t l).
Proof.
  intros Hnf Ht Htc Hid Hmd Hl Htok Hcnt Hwf Hb Hs.
  assert (at_db s d (config s) (publish_queue s)) as Ha by done. unfold handle_update_token_metadata in Hs.
  apply st_bind_Ok in Hs as (tok & s1 & H1 & Hs).
  destruct (at_sql_try Hnf _ _ _ _ _ _ _ Ha H1) as (d1 & Hd1 & Ha1). rewrite Hid in *. simpl in Hs.
  destruct (tokens d !! Nft a i) as [old|] eqn:Hold; simplify_eq/=.
  apply st_bind_Ok in Hs as ([] & s2 & H2 & Hs).
  apply st_bind_Ok in H2 as (row & s3 & Hrow & H2).
  destruct (at_sql_get Hnf _ _ _ _ _ _ _ Ha1 Hrow) as [Hold' Ha3]. simpl in Hold'.
  rewrite lookup_insert_eq in Hold'. subst row. simpl in H2.
  apply st_bind_Ok in H2 as (s4' & s4 & [= <- <-] & H2). destruct Ha3 as (Ht3 & Hc3 & Hq3).
  apply st_bind_Ok in H2 as ([] & s5 & H5 & H2). rewrite Hc3, Htc in *.
  assert (∃ d5, at_db s5 d5 (config s) (publish_queue s) ∧ tokens d5 !! TokenContract a = Some tc)
    as (d5 & Ha5 & Htok5).
  { destruct (cfg_token_attributes (config s)).
    - destruct (at_store_token_attributes Hnf _ _ _ _ _ _ _ (conj Ht3 (conj Hc3 Hq3)) H5)
        as (d5 & Ha5 & Hsame). exists d5. split; [done|]. rewrite Hsame. simpl. by rewrite lookup_insert_ne.
    - injection H5 as <-. eexists. split; [by split_and!|]. simpl. by rewrite lookup_insert_ne. }
  destruct (contract_traits_same_metadata Hnf _ _ _ _ _ _ _ _ _ _ Ha5 Htok5 Hcnt Hl Hmd H2)
    as (d6 & tc6 & Ha6 & Htok6 & Htr).
  destruct (at_publish _ _ _ _ _ _ _ Ha6 Hs) as (Ht7 & _).
  exists d6, tc6, (apply_to_counts cnt l l). split_and!; [done..|].
  intros t. by apply replace_traits_by_same.
Qed.

(** No activity is ever recorded. Model ids are world-scoped, and the
    namespaces of a transaction's models are looked up by the text of their
    selectors alone, so none is found: whatever transaction is stored (no
    statement failing), the activities stay as they were. *)
Theorem activities_never_recorded (m : QueryMessage) (q : StoreTransactionQuery) (s s' : Executor)
    (d d1 : db) rows n :
  (∀ k, sql_fails k = false) → transaction s = Some d →
  run_statement (statement m) (arguments m) d = (Some (rows, n), d1) →
  ids_scoped d1 → (∀ f, f ∈ st_unique_models q → felt_ok f) →
  handle_store_transaction m q s = (Ok tt, s') →
  ∃ d', transaction s' = Some d' ∧ activities d' = activities d1.
Proof.
  intros Hnf Ht Hrun Hids Hok Hs. assert (at_db s d (config s) (publish_queue s)) as Ha by done.
  unfold handle_store_transaction in Hs.
  apply st_bind_Ok in Hs as (row & s1 & H1 & Hs).
  destruct (at_fetch_one Hnf _ _ _ _ _ _ _ Ha H1) as (rows' & n' & d1' & Hrun' & _ & Ha1).
  rewrite Hrun in Hrun'. simplify_eq.
  apply st_bind_Ok in Hs as (tx & s2 & Hl & Hs). destruct (at_lift _ _ _ _ _ _ _ Ha1 Hl) as [_ Ha2].
  apply st_bind_Ok in Hs as ([] & s3 & H3 & Hs).
  destruct (at_for_each_exec Hnf same_activities _ _ _ _ _ _ _ Ha2 H3) as (d3 & Ha3 & HR3); [done|].
  apply st_bind_Ok in Hs as ([] & s4 & H4 & Hs).
  destruct (at_for_each_exec Hnf same_activities _ _ _ _ _ _ _ Ha3 H4) as (d4 & Ha4 & HR4); [done|].
  apply st_bind_Ok in Hs as ([] & s5 & H5 & Hs).
  destruct (at_for_each_exec Hnf same_activities _ _ _ _ _ _ _ Ha4 H5) as (d5 & Ha5 & HR5); [done|].
  assert (same_activities d1' d5) as [Hmod Hact] by (etrans; [exact HR3|]; by etrans).
  apply st_bind_Ok in Hs as (w & s6 & H6 & Hs). destruct (at_sql_get Hnf _ _ _ _ _ _ _ Ha5 H6) as [_ Ha6].
  apply st_bind_Ok in Hs as (s7 & s7' & [= <- <-] & Hs).
  apply st_bind_Ok in Hs as ([] & s8 & H8 & Hs).
  assert (at_db s8 d5 (config s) (publish_queue s)) as Ha8.
  { destruct w as [w|]; [|by injection H8 as <-].
    destruct (activity_enabled _ && _); [|by injection H8 as <-].
    apply st_bind_Ok in H8 as (ns & t1 & Hns & H8).
    destruct (at_sql_get Hnf _ _ _ _ _ _ _ Ha6 Hns) as [-> Hb1].
    rewrite select_namespaces_scoped in H8; [by injection H8 as <-| |].
    - intros id mo. rewrite Hmod. apply Hids.
    - apply Forall_forall. intros f Hf. apply Hok. rewrite hs_iter_perm in Hf. by apply elem_of_elements. }
  destruct (at_publish _ _ _ _ _ _ _ Ha8 Hs) as (Ht9 & _). by exists d5.
Qed.
End properties.

(** ** Witnesses

    A small environment: types are their names, the statement of a message
    returns one row and changes nothing, one metadata text has one trait. *)
Section witnesses.

Definition demo_json : SerdeJson :=
  {| json_from_str t := if decide (t = "red hat") then
       Some (JObject {[ "attributes" := JArray [JObject (<["trait_type" := JString "hat"]>
         {[ "value" := JString "red" ]})] ]}) else None;
     json_map_from_str t := if decide (t = "{}") then Some ∅ else None;
     json_map_to_string m := Some "counts" |}.

Definition demo_env (fails : nat → bool) : ExecutorEnv :=
  {| env_dojo := {| Ty := string; Layout := unit; WorldMetadata := unit |}; env_json := demo_json;
     Rest := unit; Row := unit; ModelRow := unit; EventRow := unit; TransferRow := unit;
     TxData := unit; AggregatorConfig := unit; AggregationEntry := unit; Progression := unit;
     run_statement _ _ d := (Some ([tt], 1), d);
     entity_of_row _ := Some (mkEntityRow "w:e" "k" "ev" "t");
     contract_of_row _ := None;
     transaction_of_row _ := Some (mkTransactionRow 7 100 tt);
     model_of_row _ := Some tt; event_of_row _ := Some tt; transfer_of_row _ := Some tt;
     select_model_table _ _ _ := Some tt;
     map_row_to_ty ty _ := Some ty;
     ty_name ty := ty; ty_to_json _ := Ok "json"; ty_empty_struct name := name;
     agg_model_tag _ := "";
     update_aggregation _ _ _ d := (Err QSqlx, d);
     register_achievement _ _ _ d := (Err QSqlx, d);
     update_achievement_progression _ _ _ d := (Err QSqlx, d);
     provider_call _ _ _ _ := Some [42]; provider_batch_name_symbol _ := None;
     parse_cairo_short_string _ := None; byte_array_to_string _ := None;
     cairo_u256_deserialize l := l !! 0%nat;
     sql_fails := fails; unix_now _ := 1000; wal_size _ := None |}.

Ltac only_entry H := cbn in H; apply lookup_singleton_Some in H as [<- <-].

#[local] Existing Instance canonical_order.
#[local] Existing Instance u256_checked.

Definition ok_env : ExecutorEnv := demo_env (λ _, false).
Definition bad_env : ExecutorEnv := demo_env (λ _, true).

Definition demo_config (E : ExecutorEnv) : @SqlConfig E :=
  mkSqlConfig [] 0 0 true 3600 ∅ true true "TrophyCreation" "TrophyProgression".

(** The world-scoped id of a model, and a database with one of everything. *)
Definition demo_scoped : string := format_world_scoped_id 1 5.

Definition demo_db : @Database (@env_dojo ok_env) unit :=
  mkDatabase {[ 9 := mkContract 9 ERC20 None None None None ]} ∅ ∅ []
    {[ demo_scoped := ("ns", "ns-M") ]}
    {[ "w:e" := mkEntityRow "w:e" "k" "ev" "t" ]} {[ ("w:e", demo_scoped) := 0 ]} [] ∅ []
    (<[TokenContract 9 := mkToken "T" "T" 18 "" (Some 10) "{}"]>
      {[ Nft 9 1 := mkToken "N" "N" 0 "" (Some 1) "{}" ]}) ∅
    {[ mkBalanceId 3 (TokenContract 9) := 4 ]} [] tt.

Definition demo_state : @Executor ok_env := new (H := ok_env) demo_db (demo_config ok_env).
Definition bad_state : @Executor bad_env := new (H := bad_env) demo_db (demo_config bad_env).

Lemma transaction_step_witness :
  let q := mkQuery (H := ok_env) "" [] Execute in
  pool (handle_query_message q demo_state).2 = demo_db.
Proof. exact (proj1 (transaction_step (H := ok_env) demo_state (mkQuery "" [] Execute) demo_db eq_refl)). Defined.

Lemma executor_lost_after_failure_witness :
  let q := mkQuery (H := bad_env) "" [] Execute in
  confirmed (handle_query_message q bad_state).2 = [].
Proof.
  exact (proj1 (executor_lost_after_failure (H := bad_env) bad_state _ (mkQuery "" [] Execute)
    (mkQuery "" [] Execute) _ (or_introl eq_refl) eq_refl)).
Defined.

Definition demo_balances : @ApplyBalanceDiffQuery :=
  mkApply {[ mkBalanceId 3 (TokenContract 9) := mkI256 9 true ]} {[ TokenContract 9 := mkI256 3 true ]}
    {[ 9 := mkCursor 9 (Some 1) None None ]}.

Lemma apply_balance_diff_exact_witness :
  ∃ s' tokens' balances', apply_balance_diff (H := ok_env) demo_balances demo_state = (Ok tt, s') ∧
    transaction s' = Some (set_token_balances balances' (set_tokens tokens' demo_db)) ∧
    total_supply <$> tokens' !! TokenContract 9 = Some (Some 7) ∧
    balances' !! mkBalanceId 3 (TokenContract 9) = Some 42.
Proof.
  destruct (apply_balance_diff_exact (H := ok_env) demo_balances demo_state demo_db)
    as (s' & ts & bs & Hs & Ht & Hts & Hbs & _).
  - done.
  - done.
  - intros t diff Hl; only_entry Hl. eexists _, _.
    do 2 (split; [vm_compute; reflexivity|]). vm_compute. by split_and!.
  - intros id diff Hl; only_entry Hl.
    vm_compute. split_and!; by try eexists.
  - exists s', ts, bs. split_and!; [done|done|rewrite Hts; reflexivity|rewrite Hbs; reflexivity].
Defined.

Definition demo_cursors : UpdateCursorsQuery :=
  mkUpdateCursors {[ 9 := mkCursor 9 (Some 12) (Some 500) (Some 77) ]} ∅.

Lemma update_cursors_exact_witness :
  ∃ s' contracts', handle_update_cursors (H := ok_env) demo_cursors demo_state = (Ok tt, s') ∧
    transaction s' = Some (set_contracts contracts' demo_db) ∧
    contract_head <$> contracts' !! 9 = Some (Some 12).
Proof.
  destruct (update_cursors_exact (H := ok_env) demo_cursors demo_state demo_db)
    as (s' & cs & Hs & Ht & Hcs).
  - done.
  - done.
  - split.
    + intros a nc Hl; only_entry Hl. vm_compute. split; discriminate.
    + intros a txs Htx. cbn in Htx. by apply lookup_empty_Some in Htx.
  - intros a c Hl; by only_entry Hl.
  - exists s', cs. split_and!; [done..|]. rewrite Hcs. reflexivity.
Defined.

Definition demo_entity : @EntityQuery ok_env :=
  mkEntityQuery (H := ok_env) "w:e" demo_scoped (Some "k") "ev" "t" true "ns-M".
Definition demo_message : @QueryMessage ok_env := mkQuery (H := ok_env) "" [] Other.

Lemma set_entity_history_witness :
  ∃ d', transaction (handle_set_entity (H := ok_env) demo_message demo_entity demo_state).2 = Some d' ∧
    entity_model d' !! ("w:e", demo_scoped) = Some 1 ∧ length (entities_historical d') = 1%nat.
Proof.
  destruct (set_entity_history (H := ok_env) demo_message demo_entity demo_state
    (handle_set_entity (H := ok_env) demo_message demo_entity demo_state).2 demo_db [tt] 1 demo_db)
    as (d' & Ht & Hm & data & w & e & _ & _ & Hh);
    [intros k; reflexivity|reflexivity..|apply outcome_of; vm_compute; reflexivity|].
  exists d'. split; [exact Ht|]. split; [rewrite Hm; apply lookup_insert_eq|rewrite Hh; reflexivity].
Defined.

Definition demo_delete : @DeleteEntityQuery ok_env :=
  mkDelete (H := ok_env) "w:e" demo_scoped "ev2" "t2" "ns-M".

Lemma delete_entity_last_model_witness :
  ∃ d', transaction (handle_delete_entity (H := ok_env) demo_message demo_delete demo_state).2 = Some d' ∧
    entity_model d' = delete ("w:e", demo_scoped) (entity_model demo_db).
Proof.
  destruct (delete_entity_last_model (H := ok_env) demo_message demo_delete demo_state
    (handle_delete_entity (H := ok_env) demo_message demo_delete demo_state).2 demo_db demo_db [tt] 1)
    as (d' & _ & _ & _ & Ht & Hm & _);
    [intros k; reflexivity|reflexivity..|discriminate| |apply outcome_of; vm_compute; reflexivity|].
  - intros row Hl. cbn in Hl. apply lookup_singleton_Some in Hl as [_ <-]. reflexivity.
  - exists d'. split; [exact Ht|exact Hm].
Defined.

Definition demo_metadata : UpdateTokenMetadataQuery := mkUpdateMetadata (Nft 9 1) "red hat".

Lemma metadata_update_keeps_old_traits_witness :
  ∃ d' cnt', transaction (handle_update_token_metadata (H := ok_env) demo_metadata demo_state).2 = Some d' ∧
    ∀ t, trait_count cnt' t = Z.max 0 (occurrences t [mkTrait "hat" "red"]).
Proof.
  destruct (metadata_update_keeps_old_traits (H := ok_env) demo_metadata demo_state
    (handle_update_token_metadata (H := ok_env) demo_metadata demo_state).2 demo_db 9 1
    (mkToken "T" "T" 18 "" (Some 10) "{}") ∅ [mkTrait "hat" "red"])
    as (d' & _ & cnt' & Ht & _ & _ & Hc);
    [intros k; reflexivity|reflexivity..|discriminate|reflexivity|reflexivity|reflexivity| | | |].
  - intros ty j Hl. by apply lookup_empty_Some in Hl.
  - intros t. rewrite trait_occurrences_cons. change (trait_count ∅ t) with 0. change (occurrences t []) with 0.
    case_decide; vm_compute; discriminate.
  - apply outcome_of; vm_compute; reflexivity.
  - exists d', cnt'. split; [exact Ht|exact Hc].
Defined.

Lemma activities_never_recorded_witness :
  let q := mkStoreTransaction {[ 9 ]} [mkCall 9 "move" [] "EXTERNAL" 3] {[ 5 ]} in
  ∃ d', transaction (handle_store_transaction (H := ok_env) demo_message q demo_state).2 = Some d' ∧
    activities d' = [].
Proof.
  intros q. apply (activities_never_recorded (H := ok_env) demo_message q demo_state
    (handle_store_transaction (H := ok_env) demo_message q demo_state).2 demo_db demo_db [tt] 1);
    [intros k; reflexivity|reflexivity..| | |apply outcome_of; vm_compute; reflexivity].
  - intros id m Hl; only_entry Hl. exists 1, 5. split; [|done]. vm_compute. split; [discriminate|done].
  - intros f Hf. cbn in Hf. apply elem_of_singleton in Hf as ->. vm_compute. split; [discriminate|done].
Defined.
End witnesses.

End Ex.
