(* ===== verification/ModelTable.v ===== *)
(** * The tables of models ([crates/sqlite/sqlite/src/lib.rs])

    A model has a table of its own: its columns are created from the schema of
    the model, altered when the model is upgraded, and written from the values of
    its records. [Ty] is the inductive the sources match on; the text of a
    primitive value, of an enum and of an array, and the SQL type of a primitive
    are operations of the dojo crates ([TyText]).

    Statements are built as data first, and as text from it. *)

From S2P Require Import Prelude Math Proto SqlString Database Cache Executor.
From stdpp Require Import pretty.
Local Open Scope Z_scope.
Local Open Scope torii_scope.
#[local] Set Warnings "-register-all".

Class Primitives : Type := { Primitive : Type; prim_eqb : Primitive → Primitive → bool }.

(** ** Schemas and values *)
Section ty.
Context `{Primitives}.

(** A member is its name, its type and whether it is a key; an option of an enum
    its name and type. *)
Inductive DTy : Type :=
| TyPrimitive (p : Primitive)
| TyStruct (name : string) (children : list (string * DTy * bool))
| TyEnum (name : string) (option : option nat) (options : list (string * DTy))
| TyTuple (tys : list DTy)
| TyArray (tys : list DTy)
| TyFixedSizeArray (tys : list DTy) (len : Z)
| TyByteArray (s : string).
End ty.

(** [dojo_types::primitive::SqlType] *)
Inductive SqlType : Type := SqlInteger | SqlText.
#[global] Instance SqlType_eq_dec : EqDecision SqlType.
Proof. solve_decision. Defined.

Class TyText `{Primitives} : Type := {
  prim_sql_type : Primitive → SqlType;
  prim_sql_value : Primitive → string;
  (** [Enum::to_sql_value] *)
  enum_sql_value : string → option nat → list (string * DTy) → string;
  (** [v.to_json_value()] for each, then [serde_json::to_string] *)
  values_json : list DTy → ExecutorQueryError + string
}.

Module ModelTable.

Section operations.
Context `{Primitives} {TT : TyText}.
#[local] Abbreviation Ty := DTy.

(** [sql_type.as_ref()] *)
Definition sql_type_ref (t : SqlType) : string := match t with SqlInteger => "INTEGER" | SqlText => "TEXT" end.

Definition as_struct (t : Ty) : option (list (string * Ty * bool)) :=
  match t with TyStruct _ ms => Some ms | _ => None end.
Definition as_tuple (t : Ty) : option (list Ty) := match t with TyTuple ts => Some ts | _ => None end.
Definition as_enum (t : Ty) : option (list (string * Ty)) := match t with TyEnum _ _ os => Some os | _ => None end.
Definition as_primitive (t : Ty) : option Primitive := match t with TyPrimitive p => Some p | _ => None end.

(** [==] on types *)
Fixpoint ty_eqb (a b : Ty) {struct a} : bool :=
  match a, b with
  | TyPrimitive p, TyPrimitive q => prim_eqb p q
  | TyStruct n ms, TyStruct n' ms' =>
      String.eqb n n' &&
      (fix go ms ms' {struct ms} := match ms, ms' with
       | [], [] => true
       | (x, t, k) :: ms, (x', t', k') :: ms' => String.eqb x x' && ty_eqb t t' && Bool.eqb k k' && go ms ms'
       | _, _ => false
       end) ms ms'
  | TyEnum n o os, TyEnum n' o' os' =>
      String.eqb n n' && bool_decide (o = o') &&
      (fix go os os' {struct os} := match os, os' with
       | [], [] => true
       | (x, t) :: os, (x', t') :: os' => String.eqb x x' && ty_eqb t t' && go os os'
       | _, _ => false
       end) os os'
  | TyTuple ts, TyTuple ts' | TyArray ts, TyArray ts' =>
      (fix go ts ts' {struct ts} := match ts, ts' with
       | [], [] => true
       | t :: ts, t' :: ts' => ty_eqb t t' && go ts ts'
       | _, _ => false
       end) ts ts'
  | TyFixedSizeArray ts n, TyFixedSizeArray ts' n' =>
      (n =? n') &&
      (fix go ts ts' {struct ts} := match ts, ts' with
       | [], [] => true
       | t :: ts, t' :: ts' => ty_eqb t t' && go ts ts'
       | _, _ => false
       end) ts ts'
  | TyByteArray s, TyByteArray s' => String.eqb s s'
  | _, _ => false
  end.

(** ** Writing a value *)
Definition double_quote : string := String (Ascii.ascii_of_nat 34) EmptyString.
Definition quoted (c : string) : string := double_quote +:+ c +:+ double_quote.
Definition child_column (prefix name : string) : string :=
  if decide (prefix = EmptyString) then name else prefix +:+ "." +:+ name.
Definition is_empty_tuple (t : Ty) : bool := match t with TyTuple [] => true | _ => false end.

(** The columns and the values pushed for them, in order. *)
Fixpoint collect_members (prefix : string) (ty : Ty) {struct ty}
  : outcome ExecutorQueryError (list (string * Argument)) :=
  match ty with
  | TyStruct _ children =>
      (fix go ms := match ms with
       | [] => Ok []
       | (name, t, _) :: ms =>
           let? a := collect_members (child_column prefix name) t in
           let? b := go ms in Ok (a ++ b)
       end) children
  | TyEnum name option options =>
      let col := (quoted prefix, ArgString (enum_sql_value name option options)) in
      match option with
      | None => Ok [col]
      | Some option_idx =>
          (fix go i os {struct os} := match os with
           | [] => Panic
           | (name, t) :: os =>
               match i with
               | O =>
                   if is_empty_tuple t then Ok [col]
                   else let? a := collect_members (prefix +:+ "." +:+ name) t in Ok (col :: a)
               | Datatypes.S i => go i os
               end
           end) option_idx options
      end
  | TyTuple ts =>
      (fix go idx ts {struct ts} := match ts with
       | [] => Ok []
       | t :: ts =>
           let? a := collect_members (child_column prefix (pretty (idx : nat))) t in
           let? b := go (Datatypes.S idx) ts in Ok (a ++ b)
       end) 0%nat ts
  | TyArray ts | TyFixedSizeArray ts _ =>
      match values_json ts with inl e => Err e | inr json => Ok [(quoted prefix, ArgString json)] end
  | TyPrimitive p => Ok [(quoted prefix, ArgString (prim_sql_value p))]
  | TyByteArray b => Ok [(quoted prefix, ArgString b)]
  end.

(** [set_entity_model]; [now] is the clock as text *)
Definition starts_with_event (entity_id : string) : bool := String.prefix "event:" entity_id.
(** [entity_id.trim_start_matches("event:")] *)
Fixpoint trim_event (fuel : nat) (s : string) : string :=
  match fuel with
  | O => s
  | Datatypes.S fuel =>
      if String.prefix "event:" s then trim_event fuel (String.substring 6 (String.length s - 6) s) else s
  end.

Definition entity_model_columns (entity_id event_id executed_at now : string) (entity : Ty)
  : outcome ExecutorQueryError (list (string * Argument)) :=
  let? members := collect_members EmptyString entity in
  Ok ([("internal_id", ArgString entity_id); ("internal_event_id", ArgString event_id);
       ("internal_executed_at", ArgString executed_at); ("internal_updated_at", ArgString now);
       (if starts_with_event entity_id then "internal_event_message_id" else "internal_entity_id",
        ArgString (trim_event (String.length entity_id) entity_id))] ++ members).

Definition insert_statement (model_name : string) (columns : list string) (n_arguments : nat) : string :=
  "INSERT INTO [" +:+ model_name +:+ "] (" +:+ SqlString.join "," columns +:+ ") VALUES (" +:+
  SqlString.join "," (replicate n_arguments "?") +:+ ") ON CONFLICT(internal_id) DO UPDATE SET " +:+
  SqlString.join ", " ((λ col, col +:+ "=excluded." +:+ col) <$> drop 1 columns).

Definition set_entity_model (model_name event_id entity_id executed_at now : string) (entity : Ty)
  : outcome ExecutorQueryError (string * list Argument) :=
  let? cols := entity_model_columns entity_id event_id executed_at now entity in
  Ok (insert_statement model_name cols.*1 (length cols.*2), cols.*2).

(** ** Creating and altering a table *)
Record ModelIndices : Type := mkModelIndices { mi_model_tag : string; mi_fields : list string }.
Context (all_model_indices : bool) (model_indices : list ModelIndices).

Inductive alteration : Type :=
| AddColumn (name sql_type : string)
| ModifyColumn (name sql_type sql_value : string).

(** What one call of [add_columns_recursive] pushes. *)
Record changes : Type := mkChanges {
  ch_columns : list (string * string);
  ch_alters : list alteration;
  ch_indices : list string
}.
Definition no_changes : changes := mkChanges [] [] [].
Definition ch_app (a b : changes) : changes :=
  mkChanges (ch_columns a ++ ch_columns b) (ch_alters a ++ ch_alters b) (ch_indices a ++ ch_indices b).

Definition add_index (table_id : string) (is_key : bool) (name : string) : list string :=
  let m := find (λ m, String.eqb (mi_model_tag m) table_id) model_indices in
  if match m with
     | Some m => bool_decide (name ∈ mi_fields m)
     | None => all_model_indices || is_key
     end
  then [name] else [].
Definition add_column (table_id : string) (is_key : bool) (name sql_type : string) : changes :=
  mkChanges [(name, sql_type)] [] (add_index table_id is_key name).
Definition alter_column (table_id : string) (is_key : bool) (name sql_type : string) : changes :=
  mkChanges [] [AddColumn name sql_type] (add_index table_id is_key name).
Definition modify_column (name sql_type sql_value : string) : changes :=
  mkChanges [] [ModifyColumn name sql_type sql_value] [].

(** [column_prefix], or a name when it is empty *)
Definition column_name (path : list string) (otherwise : string) : string :=
  let p := SqlString.join "." (drop 1 path) in if decide (p = EmptyString) then otherwise else p.

(** A column of text: arrays and byte arrays. *)
Definition text_column (path : list string) (table_id : string) (schema_diff upgrade_diff : option Ty)
    (is_key : bool) : changes :=
  let name := column_name path "value" in
  match upgrade_diff, schema_diff with
  | Some _, _ => modify_column name "TEXT" ("[" +:+ name +:+ "]")
  | None, Some _ => alter_column table_id is_key name "TEXT"
  | None, None => add_column table_id is_key name "TEXT"
  end.

Definition primitive_column (p : Primitive) (path : list string) (table_id : string)
    (schema_diff upgrade_diff : option Ty) (is_key : bool) : changes :=
  let name := column_name path "value" in
  let sql_type := sql_type_ref (prim_sql_type p) in
  match upgrade_diff, schema_diff with
  | Some d, _ =>
      match as_primitive d with
      | Some old =>
          modify_column name sql_type
            (if bool_decide (prim_sql_type old = SqlInteger) && bool_decide (prim_sql_type p = SqlText)
             then "'0x' || printf('%064x', [" +:+ name +:+ "])" else "[" +:+ name +:+ "]")
      | None => no_changes
      end
  | None, Some _ => alter_column table_id is_key name sql_type
  | None, None => add_column table_id is_key name sql_type
  end.

Definition enum_column (ty : Ty) (options : list string) (path : list string) (table_id : string)
    (schema_diff upgrade_diff : option Ty) (is_key : bool) : changes :=
  let name := column_name path "option" in
  let sql_type := "TEXT CONSTRAINT [" +:+ name +:+ "_check] CHECK([" +:+ name +:+ "] IN (" +:+
    SqlString.join ", " ((λ o, "'" +:+ o +:+ "'") <$> options) +:+ "))" in
  let changed := match schema_diff with Some d => negb (ty_eqb d ty) | None => false end in
  match upgrade_diff ≫= as_enum, schema_diff ≫= as_enum with
  | Some _, _ => modify_column name sql_type ("[" +:+ name +:+ "]")
  | None, Some _ =>
      if changed then modify_column name sql_type ("[" +:+ name +:+ "]")
      else alter_column table_id is_key name sql_type
  | None, None =>
      if changed then modify_column name sql_type ("[" +:+ name +:+ "]")
      else add_column table_id is_key name sql_type
  end.

(** [diff.children.iter().find(|m| m.name == name).map(|m| &m.ty)] *)
Definition member_diff (name : string) (d : option Ty) : option Ty :=
  ms ← d ≫= as_struct; m ← find (λ m, String.eqb m.1.1 name) ms; Some m.1.2.
Definition variant_diff (name : string) (d : option Ty) : option Ty :=
  os ← d ≫= as_enum; o ← find (λ o, String.eqb o.1 name) os; Some o.2.
Definition tuple_diff (idx : nat) (d : option Ty) : option Ty := ts ← d ≫= as_tuple; ts !! idx.

Fixpoint add_columns_recursive (path : list string) (ty : Ty) (table_id : string)
    (schema_diff upgrade_diff : option Ty) (is_key : bool) {struct ty} : changes :=
  match ty with
  | TyStruct _ children =>
      (fix go ms := match ms with
       | [] => no_changes
       | (name, t, key) :: ms =>
           ch_app (add_columns_recursive (path ++ [name]) t table_id (member_diff name schema_diff)
                     (member_diff name upgrade_diff) key) (go ms)
       end) children
  | TyTuple ts =>
      (fix go idx ts {struct ts} := match ts with
       | [] => no_changes
       | t :: ts =>
           ch_app (add_columns_recursive (path ++ [pretty (idx : nat)]) t table_id (tuple_diff idx schema_diff)
                     (tuple_diff idx upgrade_diff) is_key) (go (Datatypes.S idx) ts)
       end) 0%nat ts
  | TyArray _ | TyFixedSizeArray _ _ | TyByteArray _ => text_column path table_id schema_diff upgrade_diff is_key
  | TyPrimitive p => primitive_column p path table_id schema_diff upgrade_diff is_key
  | TyEnum _ _ options =>
      ch_app (enum_column ty options.*1 path table_id schema_diff upgrade_diff is_key)
        ((fix go os := match os with
          | [] => no_changes
          | (name, t) :: os =>
              ch_app
                (if is_empty_tuple t then no_changes
                 else add_columns_recursive (path ++ [name]) t table_id (variant_diff name schema_diff)
                        (variant_diff name upgrade_diff) is_key)
                (go os)
          end) options)
  end.

Definition render_alteration (table_id : string) (a : alteration) : list string :=
  match a with
  | AddColumn name sql_type => ["ALTER TABLE [" +:+ table_id +:+ "] ADD COLUMN [" +:+ name +:+ "] " +:+ sql_type]
  | ModifyColumn name sql_type sql_value =>
      ["CREATE TEMPORARY TABLE [tmp_values_" +:+ name +:+ "] AS SELECT internal_id, [" +:+ name +:+ "] FROM [" +:+
         table_id +:+ "]";
       "DROP INDEX IF EXISTS [idx_" +:+ table_id +:+ "_" +:+ name +:+ "]";
       "ALTER TABLE [" +:+ table_id +:+ "] DROP COLUMN [" +:+ name +:+ "]";
       "ALTER TABLE [" +:+ table_id +:+ "] ADD COLUMN [" +:+ name +:+ "] " +:+ sql_type;
       "UPDATE [" +:+ table_id +:+ "] SET [" +:+ name +:+ "] = (SELECT " +:+ sql_value +:+ " FROM [tmp_values_" +:+
         name +:+ "] WHERE [tmp_values_" +:+ name +:+ "].internal_id = [" +:+ table_id +:+ "].internal_id)";
       "DROP TABLE [tmp_values_" +:+ name +:+ "]";
       "CREATE INDEX IF NOT EXISTS [idx_" +:+ table_id +:+ "_" +:+ name +:+ "] ON [" +:+ table_id +:+ "] ([" +:+
         name +:+ "]);"]
  end.
Definition render_index (table_id name : string) : string :=
  "CREATE INDEX IF NOT EXISTS [idx_" +:+ table_id +:+ "_" +:+ name +:+ "] ON [" +:+ table_id +:+ "] ([" +:+ name +:+ "]);".
Definition render_columns (columns : list (string * string)) : string :=
  foldr (λ c s, "[" +:+ c.1 +:+ "] " +:+ c.2 +:+ ", " +:+ s) EmptyString columns.

Definition create_table_query (table_id : string) (columns : list (string * string)) : string :=
  "CREATE TABLE IF NOT EXISTS [" +:+ table_id +:+
  "] (internal_id TEXT NOT NULL PRIMARY KEY, internal_event_id TEXT NOT NULL, internal_entity_id TEXT, internal_event_message_id TEXT, "
  +:+ render_columns columns +:+
  "internal_executed_at DATETIME NOT NULL, internal_created_at DATETIME NOT NULL DEFAULT CURRENT_TIMESTAMP, internal_updated_at DATETIME NOT NULL DEFAULT CURRENT_TIMESTAMP, FOREIGN KEY (internal_entity_id) REFERENCES entities(id), FOREIGN KEY (internal_event_message_id) REFERENCES event_messages(id));".

(** The statements sent, in order. *)
Definition build_model_query (table_id : string) (model : Ty) (schema_diff upgrade_diff : option Ty) : list string :=
  let ch := add_columns_recursive [table_id] model table_id schema_diff upgrade_diff false in
  (match upgrade_diff, schema_diff with
   | None, None => [create_table_query table_id (ch_columns ch)]
   | _, _ => ch_alters ch ≫= render_alteration table_id
   end) ++
  (render_index table_id <$> ["internal_entity_id"; "internal_event_message_id"] ++ ch_indices ch).
End operations.


(** ** Lemmas *)
Section lemmas.
Context `{Primitives} {TT : TyText}.
#[local] Abbreviation Ty := DTy.

(** Induction that goes through the lists of components. *)
Lemma DTy_ind' (P : Ty → Prop) :
  (∀ p, P (TyPrimitive p)) → (∀ n ms, Forall (λ m, P m.1.2) ms → P (TyStruct n ms)) →
  (∀ n o os, Forall (λ o, P o.2) os → P (TyEnum n o os)) → (∀ ts, Forall P ts → P (TyTuple ts)) →
  (∀ ts, Forall P ts → P (TyArray ts)) → (∀ ts n, Forall P ts → P (TyFixedSizeArray ts n)) →
  (∀ s, P (TyByteArray s)) → ∀ t, P t.
Proof.
  intros Hp Hs He Ht Ha Hf Hb. fix IH 1. intros [p|n ms|n o os|ts|ts|ts l|s]; [apply Hp| | | | | |apply Hb].
  - apply Hs. induction ms as [|[[x t] k] ms IHms]; constructor; [apply IH|exact IHms].
  - apply He. induction os as [|[x t] os IHos]; constructor; [apply IH|exact IHos].
  - apply Ht. induction ts as [|t ts IHts]; constructor; [apply IH|exact IHts].
  - apply Ha. induction ts as [|t ts IHts]; constructor; [apply IH|exact IHts].
  - apply Hf. induction ts as [|t ts IHts]; constructor; [apply IH|exact IHts].
Qed.

(** [v] is a value of the schema [s]; a structure may have only some of the
    members of the schema, in any order, as the value of a partial update. *)
Fixpoint fits (s v : Ty) {struct v} : Prop :=
  match v, s with
  | TyPrimitive _, TyPrimitive _ | TyByteArray _, TyByteArray _ => True
  | TyArray _, TyArray _ | TyFixedSizeArray _ _, TyFixedSizeArray _ _ => True
  | TyStruct _ vs, TyStruct _ ms =>
      (fix go vs := match vs with
       | [] => True
       | (n, v, _) :: vs => (∃ t k, (n, t, k) ∈ ms ∧ fits t v) ∧ go vs
       end) vs
  | TyTuple vs, TyTuple ts =>
      (fix go vs ts {struct vs} := match vs, ts with
       | [], _ => True
       | v :: vs, t :: ts => fits t v ∧ go vs ts
       | _, _ => False
       end) vs ts
  | TyEnum _ o vs, TyEnum _ _ os =>
      match o with None => True | Some i => (i < length vs)%nat end ∧
      (fix go vs os {struct vs} := match vs, os with
       | [], [] => True
       | (n, v) :: vs, (n', t) :: os => n = n' ∧ fits t v ∧ go vs os
       | _, _ => False
       end) vs os
  | _, _ => False
  end.

Context (all_model_indices : bool) (model_indices : list ModelIndices).
(** The names of the columns of a table created for a schema. *)
Definition created (path : list string) (table_id : string) (key : bool) (s : Ty) : list string :=
  (ch_columns (add_columns_recursive all_model_indices model_indices path s table_id None None key)).*1.

Lemma member_diff_None n : member_diff n None = None.
Proof. done. Qed.
Lemma variant_diff_None n : variant_diff n None = None.
Proof. done. Qed.
Lemma tuple_diff_None i : tuple_diff i None = None.
Proof. done. Qed.

Lemma created_struct path tbl key n ms c :
  c ∈ created path tbl key (TyStruct n ms) ↔ ∃ x t k, (x, t, k) ∈ ms ∧ c ∈ created (path ++ [x]) tbl k t.
Proof.
  unfold created. simpl. induction ms as [|[[x t] k] ms IH]; simpl; [set_solver|].
  rewrite fmap_app, elem_of_app, IH. setoid_rewrite elem_of_cons. naive_solver.
Qed.
Lemma created_tuple path tbl key ts c :
  c ∈ created path tbl key (TyTuple ts) ↔
    ∃ i t, ts !! i = Some t ∧ c ∈ created (path ++ [pretty i]) tbl key t.
Proof.
  unfold created. simpl.
  enough (∀ j, c ∈ (ch_columns ((fix go idx ts {struct ts} := match ts with
       | [] => no_changes
       | t :: ts => ch_app (add_columns_recursive all_model_indices model_indices (path ++ [pretty (idx : nat)]) t tbl
                     (tuple_diff idx None) (tuple_diff idx None) key) (go (Datatypes.S idx) ts)
       end) j ts)).*1 ↔ ∃ i t, ts !! i = Some t ∧
    c ∈ (ch_columns (add_columns_recursive all_model_indices model_indices (path ++ [pretty (j + i)%nat]) t tbl None None key)).*1)
    as Hj by apply (Hj 0%nat).
  induction ts as [|t ts IH]; intros j; simpl; [set_solver|].
  rewrite fmap_app, elem_of_app, IH. split.
  - intros [Hc|(i & t' & Hi & Hc)]; [exists 0%nat, t; by rewrite Nat.add_0_r|].
    exists (Datatypes.S i), t'. by rewrite Nat.add_succ_r.
  - intros ([|i] & t' & Hi & Hc); simpl in Hi.
    + left. injection Hi as <-. by rewrite Nat.add_0_r in Hc.
    + right. exists i, t'. by rewrite Nat.add_succ_r in Hc.
Qed.
Lemma created_enum path tbl key n o os c :
  c ∈ created path tbl key (TyEnum n o os) ↔
    c = column_name path "option" ∨
    ∃ x t, (x, t) ∈ os ∧ is_empty_tuple t = false ∧ c ∈ created (path ++ [x]) tbl key t.
Proof.
  unfold created. simpl. rewrite elem_of_cons. apply or_iff_compat_l.
  induction os as [|[x t] os IH].
  { split; [intros Hin|intros (x & t & Hin & _)]; by apply elem_of_nil in Hin. }
  cbn [ch_columns ch_app]. rewrite fmap_app, elem_of_app, IH. setoid_rewrite elem_of_cons.
  rewrite variant_diff_None. split.
  - intros [Hin|(x' & t' & Hin & He & Hc)]; [|exists x', t'; auto].
    destruct (is_empty_tuple t) eqn:Ht; [by apply elem_of_nil in Hin|]. exists x, t. auto.
  - intros (x' & t' & [[= -> ->]|Hin] & He & Hc); [left; by rewrite He|right; eauto].
Qed.

Lemma join_snoc sep p x : p ≠ [] → SqlString.join sep (p ++ [x]) = SqlString.join sep p +:+ sep +:+ x.
Proof.
  induction p as [|a p IH]; [done|]. intros _. destruct p as [|b p]; [done|].
  change (SqlString.join sep ((a :: b :: p) ++ [x])) with (a +:+ sep +:+ SqlString.join sep ((b :: p) ++ [x])).
  rewrite IH by done. change (SqlString.join sep (a :: b :: p)) with (a +:+ sep +:+ SqlString.join sep (b :: p)).
  by rewrite <- !string_app_assoc.
Qed.

(** The columns written for a value are columns of the table, and the writing
    itself does not panic. *)
Definition covered (l : list (string * Argument)) (cols : list string) : Prop :=
  ∀ c, c ∈ l.*1 → ∃ n, c = quoted n ∧ n ∈ cols.

Lemma covered_app l1 l2 cols : covered l1 cols → covered l2 cols → covered (l1 ++ l2) cols.
Proof. intros H1 H2 c. rewrite fmap_app, elem_of_app. intros [?|?]; [by apply H1|by apply H2]. Qed.
Lemma covered_mono l cols cols' : (∀ c, c ∈ cols → c ∈ cols') → covered l cols → covered l cols'.
Proof. intros Hc Hl c Hin. destruct (Hl c Hin) as (n & -> & Hn). eauto. Qed.
Lemma covered_one c v cols : c ∈ cols → covered [(quoted c, v)] cols.
Proof. intros Hc x. cbn. rewrite list_elem_of_singleton. intros ->. eauto. Qed.

(** What is to be shown of one value: it can be written, and what is written is
    covered. *)
Definition written (r : outcome ExecutorQueryError (list (string * Argument))) (cols : list string) : Prop :=
  match r with Ok l => covered l cols | Err _ => True | Panic => False end.
Lemma written_app r1 r2 cols : written r1 cols → written r2 cols →
  written (let? a := r1 in let? b := r2 in Ok (a ++ b)) cols.
Proof. destruct r1 as [a|e|], r2 as [b|e'|]; simpl; try done. apply covered_app. Qed.
Lemma written_mono r cols cols' : (∀ c, c ∈ cols → c ∈ cols') → written r cols → written r cols'.
Proof. destruct r; [|done..]. apply covered_mono. Qed.

Lemma child_column_inner p x :
  p ≠ [] → SqlString.join "." p ≠ EmptyString →
  child_column (SqlString.join "." p) x = SqlString.join "." (p ++ [x]) ∧
  SqlString.join "." (p ++ [x]) ≠ EmptyString.
Proof.
  intros Hp Hne. unfold child_column. rewrite decide_False, join_snoc by done. split; [done|].
  by destruct (SqlString.join "." p).
Qed.
Lemma column_name_inner t p other :
  SqlString.join "." p ≠ EmptyString → column_name (t :: p) other = SqlString.join "." p.
Proof. intros Hne. unfold column_name. simpl. rewrite drop_0. by rewrite decide_False. Qed.

Lemma collect_covered v : ∀ s tbl key p,
  fits s v → p ≠ [] → SqlString.join "." p ≠ EmptyString →
  written (collect_members (SqlString.join "." p) v) (created (tbl :: p) tbl key s).
Proof.
  induction v as [q|n vs IH|n o vs IH|vs IH|vs _|vs l _|b] using DTy_ind'; intros s tbl key p Hf Hp Hne;
    destruct s as [q'|n' ms|n' o' os|ts|ts|ts l'|b']; try done; simpl in Hf.
  - apply covered_one. unfold created. cbn. rewrite column_name_inner by done. by left.
  - cbn [collect_members]. induction IH as [|[[x v] k] vs Hv _ IHvs]; [by intros c ?%elem_of_nil|].
    destruct Hf as [(t & k' & Hin & Ht) Hf]. apply written_app; [|by apply IHvs].
    destruct (child_column_inner p x Hp Hne) as [-> Hne']. simpl in Hv.
    eapply written_mono; [|apply (Hv t tbl k' (p ++ [x])); [done|by destruct p|done]].
    intros c Hc. apply created_struct. by exists x, t, k'.
  - destruct Hf as [Ho Hf]. cbn [collect_members].
    assert (covered [(quoted (SqlString.join "." p), ArgString (enum_sql_value n o vs))]
      (created (tbl :: p) tbl key (TyEnum n' o' os))) as Hcol.
    { apply covered_one, created_enum. left. by rewrite column_name_inner. }
    destruct o as [i|]; [|exact Hcol]. revert Hcol. generalize (enum_sql_value n (Some i) vs). intros val Hcol.
    revert i os Ho Hf Hcol. induction IH as [|[x v] vs Hv _ IHvs]; intros i os Ho Hf Hcol; [simpl in Ho; lia|].
    destruct os as [|[x' t] os]; [done|]. destruct Hf as (-> & Ht & Hf). destruct i as [|i].
    + destruct (is_empty_tuple v) eqn:Hev; [exact Hcol|]. simpl in Hv.
      rewrite <- join_snoc by done. destruct (child_column_inner p x' Hp Hne) as [_ Hne'].
      specialize (Hv t tbl key (p ++ [x']) Ht). destruct (collect_members _ v) as [a|e|];
        [|done|apply Hv; [by destruct p|done]].
      apply (covered_app [_] a); [exact Hcol|]. eapply covered_mono; [|apply Hv; [by destruct p|done]].
      intros c Hc. apply created_enum. right. exists x', t. split; [by left|]. split; [|done].
      by destruct t as [| | |[]| | |], v as [| | |[]| | |].
    + simpl in Ho. eapply written_mono; [|apply (IHvs i os); [lia|done|]].
      * intros c. rewrite !created_enum. setoid_rewrite elem_of_cons. naive_solver.
      * eapply covered_one, created_enum. left. by rewrite column_name_inner.
  - cbn [collect_members]. set (cols := created (tbl :: p) tbl key (TyTuple ts)).
    assert (∀ i t, ts !! i = Some t → ∀ c, c ∈ created (tbl :: p ++ [pretty (0 + i)%nat]) tbl key t → c ∈ cols)
      as Hcols by (intros i t Hi c Hc; apply created_tuple; eauto).
    revert Hcols. generalize 0%nat at 1 2. intros j. generalize cols. clear cols. intros cols Hcols.
    revert j ts Hf Hcols. induction IH as [|v vs Hv _ IHvs]; intros j ts Hf Hcols; [by intros c ?%elem_of_nil|].
    destruct ts as [|t ts]; [done|]. destruct Hf as [Ht Hf].
    destruct (child_column_inner p (pretty j) Hp Hne) as [-> Hne']. apply written_app.
    + eapply written_mono; [|apply (Hv t tbl key (p ++ [pretty j])); [done|by destruct p|done]].
      intros c Hc. apply (Hcols 0%nat t); [done|]. by rewrite Nat.add_0_r.
    + apply (IHvs (Datatypes.S j) ts); [done|]. intros i t' Hi c Hc. apply (Hcols (Datatypes.S i) t'); [done|].
      by rewrite Nat.add_succ_r.
  - unfold created. simpl. destruct (values_json vs); [done|]. apply covered_one. cbn.
    rewrite column_name_inner by done. by left.
  - unfold created. simpl. destruct (values_json vs); [done|]. apply covered_one. cbn.
    rewrite column_name_inner by done. by left.
  - apply covered_one. unfold created. cbn. rewrite column_name_inner by done. by left.
Qed.

(** *** Members added by an upgrade *)

(** No two members or options of one type share a name. *)
Fixpoint distinct_names (t : Ty) : Prop :=
  match t with
  | TyStruct _ ms =>
      NoDup (ms.*1.*1) ∧
      (fix go ms := match ms with [] => True | (_, t, _) :: ms => distinct_names t ∧ go ms end) ms
  | TyEnum _ _ os =>
      NoDup (os.*1) ∧ (fix go os := match os with [] => True | (_, t) :: os => distinct_names t ∧ go os end) os
  | TyTuple ts => (fix go ts := match ts with [] => True | t :: ts => distinct_names t ∧ go ts end) ts
  | _ => True
  end.

Lemma ty_eqb_refl t : (∀ p, prim_eqb p p = true) → ty_eqb t t = true.
Proof.
  intros Hp. induction t as [q|n ms IH|n o os IH|ts IH|ts IH|ts l IH|b] using DTy_ind'; simpl.
  - apply Hp.
  - rewrite String.eqb_refl. induction IH as [|[[x t] k] ms Ht _ IHms]; [done|]. simpl in *.
    by rewrite String.eqb_refl, Ht, Bool.eqb_reflx.
  - rewrite String.eqb_refl, bool_decide_true by done. induction IH as [|[x t] os Ht _ IHos]; [done|]. simpl in *.
    by rewrite String.eqb_refl, Ht.
  - induction IH as [|t ts Ht _ IHts]; [done|]. by rewrite Ht.
  - induction IH as [|t ts Ht _ IHts]; [done|]. by rewrite Ht.
  - rewrite Z.eqb_refl. induction IH as [|t ts Ht _ IHts]; [done|]. by rewrite Ht.
  - apply String.eqb_refl.
Qed.

Lemma find_named {A} (name : A → string) (l : list A) x :
  NoDup (name <$> l) → x ∈ l → find (λ y, String.eqb (name y) (name x)) l = Some x.
Proof.
  induction l as [|y l IH]; [by intros _ ?%elem_of_nil|]. rewrite fmap_cons. intros [Hy Hnd]%NoDup_cons.
  intros [->|Hx]%elem_of_cons; simpl; [by rewrite String.eqb_refl|].
  destruct (String.eqb_spec (name y) (name x)) as [Heq|]; [|by apply IH].
  exfalso. apply Hy. rewrite Heq. by apply list_elem_of_fmap_2.
Qed.
Lemma member_diff_self n ms x t k :
  NoDup (ms.*1.*1) → (x, t, k) ∈ ms → member_diff x (Some (TyStruct n ms)) = Some t.
Proof.
  intros Hnd Hin. unfold member_diff. cbn. rewrite <- list_fmap_compose in Hnd.
  pose proof (find_named (λ m : string * Ty * bool, m.1.1) ms (x, t, k) Hnd Hin) as Hf. cbn in Hf. by rewrite Hf.
Qed.
Lemma variant_diff_self n o os x t :
  NoDup (os.*1) → (x, t) ∈ os → variant_diff x (Some (TyEnum n o os)) = Some t.
Proof.
  intros Hnd Hin. unfold variant_diff. cbn.
  pose proof (find_named fst os (x, t) Hnd Hin) as Hf. cbn in Hf. by rewrite Hf.
Qed.

(** Creating a table alters nothing. *)
Lemma create_alters t : ∀ path tbl key,
  ch_alters (add_columns_recursive all_model_indices model_indices path t tbl None None key) = [].
Proof.
  induction t as [q|n ms IH|n o os IH|ts IH|ts _|ts l _|b] using DTy_ind'; intros path tbl key; try reflexivity;
    cbn [add_columns_recursive].
  - induction IH as [|[[x t] k] ms Ht _ IHms]; [done|]. cbn [ch_alters ch_app]. by rewrite IHms, app_nil_r, Ht.
  - cbn [ch_alters ch_app]. match goal with |- ?a ++ _ = _ => change a with (@nil alteration) end. cbn [app].
    induction IH as [|[x t] os Ht _ IHos]; [done|]. cbn [ch_alters ch_app]. rewrite IHos, app_nil_r.
    destruct (is_empty_tuple t); [done|]. apply Ht.
  - generalize 0%nat. induction IH as [|t ts Ht _ IHts]; intros j; [done|]. cbn [ch_alters ch_app].
    by rewrite IHts, app_nil_r, tuple_diff_None, Ht.
Qed.

(** What is created is added instead. *)
Definition added (c : changes) : changes :=
  mkChanges [] (uncurry AddColumn <$> ch_columns c) (ch_indices c).
Lemma added_app a b : added (ch_app a b) = ch_app (added a) (added b).
Proof. unfold added, ch_app. simpl. by rewrite fmap_app. Qed.

Context (Heqb : ∀ p : Primitive, prim_eqb p p = true).
#[local] Abbreviation add_columns := (add_columns_recursive all_model_indices model_indices).

Lemma add_columns_self t : ∀ path tbl key, distinct_names t →
  add_columns path t tbl (Some t) None key = added (add_columns path t tbl None None key).
Proof.
  induction t as [q|n ms IH|n o os IH|ts IH|ts _|ts l _|b] using DTy_ind'; intros path tbl key Hd; try reflexivity.
  - destruct Hd as [Hnd Hd]. cbn [add_columns_recursive].
    assert (∀ x t k, (x, t, k) ∈ ms → member_diff x (Some (TyStruct n ms)) = Some t) as Hm
      by (intros x t k; by apply member_diff_self).
    revert Hm. generalize (Some (TyStruct n ms)). intros d Hm. clear Hnd.
    induction IH as [|[[x t] k] ms Ht _ IHms]; [done|]. destruct Hd as [Hd1 Hd]. simpl in Ht.
    rewrite added_app, (Hm x t k) by left. cbn. rewrite Ht by done. f_equal. apply IHms; [done|].
    intros x' t' k' Hin. eapply Hm. by right.
  - destruct Hd as [Hnd Hd]. cbn [add_columns_recursive]. rewrite added_app. f_equal.
    { unfold enum_column. cbv beta iota zeta. by rewrite ty_eqb_refl. }
    assert (∀ x t, (x, t) ∈ os → variant_diff x (Some (TyEnum n o os)) = Some t) as Hm
      by (intros x t; by apply variant_diff_self).
    revert Hm. generalize (Some (TyEnum n o os)). intros d Hm. clear Hnd.
    induction IH as [|[x t] os Ht _ IHos]; [done|]. destruct Hd as [Hd1 Hd]. simpl in Ht.
    rewrite added_app, (Hm x t) by left. f_equal; [by destruct (is_empty_tuple t); [|rewrite Ht by done]|].
    apply IHos; [done|]. intros x' t' Hin. eapply Hm. by right.
  - cbn [add_columns_recursive].
    assert (∀ i t, ts !! i = Some t → tuple_diff (0 + i) (Some (TyTuple ts)) = Some t) as Hm by done.
    revert Hm. generalize (Some (TyTuple ts)). intros d. generalize 0%nat. intros j Hm. simpl in Hd. revert j Hm.
    induction IH as [|t ts Ht _ IHts]; intros j Hm; [done|]. destruct Hd as [Hd1 Hd].
    rewrite added_app. pose proof (Hm 0%nat t eq_refl) as H0'. rewrite Nat.add_0_r in H0'. rewrite H0', tuple_diff_None.
    rewrite Ht by done. f_equal. apply IHts; [done|]. intros i t' Hi. rewrite Nat.add_succ_comm. by apply Hm.
Qed.
End lemmas.

(** ** Properties *)
Section properties.
Context `{Primitives} {TT : TyText}.
Context (all_model_indices : bool) (model_indices : list ModelIndices).
#[local] Abbreviation created_ := (created all_model_indices model_indices).

(** The columns every table has. *)
Definition internal_columns : list string :=
  ["internal_id"; "internal_event_id"; "internal_entity_id"; "internal_event_message_id";
   "internal_executed_at"; "internal_created_at"; "internal_updated_at"].

(** C8: a record is written to columns its table has. Take the table created from
    the schema of a model, and any value of the schema, a partial one included
    (an update of the fields that are not keys, or of one member): writing it
    never panics, and, unless an array in it has no JSON form, every column of
    the statement is one of the columns every table has or a column created from
    the schema; as many values are bound as columns are named. *)
Theorem written_columns_exist (table : string) (n n' : string) (ms vs : list (string * DTy * bool))
    (model_name event_id entity_id executed_at now : string) :
  fits (TyStruct n ms) (TyStruct n' vs) → Forall (λ m, m.1.1 ≠ EmptyString) vs →
  match entity_model_columns entity_id event_id executed_at now (TyStruct n' vs) with
  | Ok cols =>
      (∀ c, c ∈ cols.*1 → c ∈ internal_columns ∨
         ∃ name, c = quoted name ∧ name ∈ created_ [table] table false (TyStruct n ms)) ∧
      set_entity_model model_name event_id entity_id executed_at now (TyStruct n' vs) =
        Ok (insert_statement model_name cols.*1 (length cols.*1), cols.*2) ∧
      length cols.*1 = length cols.*2
  | Err _ => True
  | Panic => False
  end.
Proof.
  intros Hf Hne. unfold set_entity_model, entity_model_columns.
  assert (written (collect_members EmptyString (TyStruct n' vs)) (created_ [table] table false (TyStruct n ms))) as Hw.
  { cbn [collect_members]. simpl in Hf. induction vs as [|[[x v] k] vs IH]; [by intros c ?%elem_of_nil|].
    apply Forall_cons in Hne as [Hx Hne]. simpl in Hx. destruct Hf as [(t & k' & Hin & Ht) Hf].
    apply written_app; [|by apply IH]. unfold child_column. rewrite decide_True by done.
    eapply written_mono; [|apply (collect_covered all_model_indices model_indices v t table k' [x]); [done|done|done]].
    intros c Hc. apply created_struct. by exists x, t, k'. }
  destruct (collect_members EmptyString (TyStruct n' vs)) as [l|e|]; cbn [outcome_bind]; [|done|done].
  split; [|split; [|by rewrite !length_fmap]].
  - intros c. rewrite fmap_app, elem_of_app. intros [Hc|Hc]; [left|right; by apply Hw].
    cbn in Hc. unfold internal_columns. destruct (starts_with_event entity_id); set_solver.
  - by rewrite !length_fmap.
Qed.

(** An upgrade that adds members gives the table the columns it then needs.
    When the new schema is the old one with members added, and the difference
    computed for it is those members, the statements sent add exactly the columns
    a new table would have for them, and alter no other: the columns of the
    table after the upgrade are those of a table created from the new schema. *)
Theorem upgrade_adds_columns (table n : string) (old new : list (string * DTy * bool)) :
  (∀ p : Primitive, prim_eqb p p = true) → distinct_names (TyStruct n (old ++ new)) →
  let ch := add_columns_recursive all_model_indices model_indices [table] (TyStruct n (old ++ new)) table
    (Some (TyStruct n new)) None false in
  ∃ cols, ch_alters ch = uncurry AddColumn <$> cols ∧
    created_ [table] table false (TyStruct n (old ++ new)) = created_ [table] table false (TyStruct n old) ++ cols.*1.
Proof.
  intros Heqb [Hnd Hd]. cbn zeta.
  assert (∀ x t k, (x, t, k) ∈ new → member_diff x (Some (TyStruct n new)) = Some t) as Hin.
  { intros x t k. apply member_diff_self. rewrite !fmap_app in Hnd. by apply NoDup_app in Hnd as (_ & _ & ?). }
  assert (∀ x t k, (x, t, k) ∈ old → member_diff x (Some (TyStruct n new)) = None) as Hout.
  { intros x t k Hx. unfold member_diff. cbn. destruct (find _ new) as [[[x' t'] k']|] eqn:Hfind; [|done].
    apply find_some in Hfind as [Hf Heq]. apply String.eqb_eq in Heq. cbn in Heq. subst x'.
    apply list_elem_of_In in Hf.
    rewrite !fmap_app in Hnd. apply NoDup_app in Hnd as (_ & Hdis & _). exfalso. apply (Hdis x).
    - apply (list_elem_of_fmap_2 fst _ (x, t)), (list_elem_of_fmap_2 fst _ (x, t, k)), Hx.
    - apply (list_elem_of_fmap_2 fst _ (x, t')), (list_elem_of_fmap_2 fst _ (x, t', k')), Hf. }
  revert Hin Hout. generalize (Some (TyStruct n new)). intros d Hin Hout. unfold created.
  exists (ch_columns (add_columns_recursive all_model_indices model_indices [table] (TyStruct n new) table None None false)).
  cbn [add_columns_recursive]. clear Hnd. induction old as [|[[x t] k] old IH].
  - split; [|done]. cbn [app] in *. simpl in Hd. induction new as [|[[x t] k] new IH]; [done|].
    destruct Hd as [Hd1 Hd]. cbn [ch_app ch_alters ch_columns]. rewrite fmap_app, (Hin x t k) by left.
    rewrite !member_diff_None, add_columns_self by done. cbn [added ch_alters]. f_equal.
    apply IH; [done|]. intros x' t' k' Hx. eapply Hin. by right.
  - destruct Hd as [Hd1 Hd]. destruct IH as [IHa IHc]; [done|intros x' t' k' Hx; eapply Hout; by right|].
    change (((x, t, k) :: old) ++ new) with ((x, t, k) :: (old ++ new)).
    cbn [ch_app ch_alters ch_columns]. rewrite (Hout x t k) by left. rewrite !member_diff_None. split.
    + by rewrite IHa, create_alters.
    + rewrite !fmap_app, IHc. by rewrite (assoc (++)).
Qed.
End properties.

(** ** Witnesses *)
Definition demo_prims : Primitives := {| Primitive := Z; prim_eqb := Z.eqb |}.
#[local] Existing Instance demo_prims.
Definition demo_text : TyText := {|
  prim_sql_type _ := SqlText;
  prim_sql_value (p : Primitive) := SqlString.format_hex 64 p;
  enum_sql_value _ _ _ := EmptyString;
  values_json _ := inr "[]"
|}.
#[local] Existing Instance demo_text.
Definition prim (z : Z) : DTy := TyPrimitive (z : @Primitive demo_prims).

(** A position of a player, and how it is facing. *)
Definition demo_old : list (string * DTy * bool) :=
  [("player", prim 0, true); ("pos", TyStruct "Vec" [("x", prim 0, false); ("y", prim 0, false)], false)].
Definition demo_new : list (string * DTy * bool) :=
  [("facing", TyEnum "Facing" None [("None", TyTuple []); ("At", prim 0)], false)].
Definition demo_value : list (string * DTy * bool) :=
  [("pos", TyStruct "Vec" [("y", prim 7, false)], false);
   ("facing", TyEnum "Facing" (Some 1%nat) [("None", TyTuple []); ("At", prim 9)], false)].

Lemma written_columns_exist_witness :
  ∃ cols, entity_model_columns "0x1:0x2" "e" "t" "now" (TyStruct "game-Position" demo_value) = Ok cols ∧
    drop 5 cols.*1 = quoted <$> ["pos.y"; "facing"; "facing.At"] ∧
    length cols.*1 = length cols.*2.
Proof.
  pose proof (written_columns_exist false [] "game-Position" "game-Position" "game-Position" (demo_old ++ demo_new)
    demo_value "game-Position" "e" "0x1:0x2" "t" "now") as Hw.
  eexists. split; [vm_compute; reflexivity|]. split; [vm_compute; reflexivity|].
  refine (proj2 (proj2 (Hw _ _))).
  - repeat split; try (vm_compute; lia).
    + eexists _, _. split; [apply list_elem_of_In; simpl; right; left; reflexivity|].
      repeat split. eexists _, _. split; [apply list_elem_of_In; simpl; right; left; reflexivity|]. exact I.
    + eexists _, _. split; [apply list_elem_of_In; simpl; right; right; left; reflexivity|]. repeat split.
      vm_compute. lia.
  - repeat constructor; discriminate.
Defined.

Lemma upgrade_adds_columns_witness :
  created false [] ["game-Position"] "game-Position" false (TyStruct "game-Position" (demo_old ++ demo_new)) =
    ["player"; "pos.x"; "pos.y"; "facing"; "facing.At"].
Proof.
  destruct (upgrade_adds_columns false [] "game-Position" "game-Position" demo_old demo_new) as (cols & Ha & Hc).
  - intros p. apply Z.eqb_refl.
  - repeat split; repeat constructor; set_solver.
  - rewrite Hc. assert (cols.*1 = ["facing"; "facing.At"]) as ->; [|vm_compute; reflexivity].
    destruct cols as [|[a b] [|[c d] [|]]]; vm_compute in Ha; try discriminate Ha. by injection Ha as <- <- <- <-.
Defined.

End ModelTable.
