(* ===== verification/Wire.v ===== *)
(** * Values on the wire ([crates/proto/src/schema.rs], [crates/proto/src/error.rs])

    The types of the program are sent as protobuf messages: a felt and a number of
    256 bits as big-endian bytes, a time as seconds, a type with its value as a
    tree. A message of the generated code is the record of its fields in
    [crates/proto/proto]; a field of another message that may be missing is an
    [option]. [into] functions are the [From] implementations, [try_from] functions
    the [TryFrom] ones: they fail with a [ProtoError], or panic.

    The times of [chrono] and their text are a parameter ([Chrono]). *)

From S2P Require Import Prelude Proto SqlString ModelTable.
From Stdlib Require Import Ascii.
Local Open Scope Z_scope.
Local Open Scope torii_scope.

Abbreviation Bytes := (list Z) (only parsing).

Inductive ProtoError : Type :=
| MissingExpectedData (what : string)
| UnsupportedType (what : string)
| InvalidByteLength (n expected : nat)
| ParseIntError
| FromSlice
| FromStr
| FromUtf8
| FromJson
| InvalidCallType (what : string)
| InvalidContractType (value : Z)
| ParseTimestamp (text : string).

(** [iter.map(f).collect::<Result<Vec<_>, _>>()] *)
Definition outcome_mapM {E A B} (f : A → outcome E B) : list A → outcome E (list B) :=
  fix go l :=
    match l with
    | [] => Ok []
    | x :: l => let? y := f x in let? ys := go l in Ok (y :: ys)
    end.
(** [o.map(f).transpose()] *)
Definition outcome_option {E A B} (f : A → outcome E B) (o : option A) : outcome E (option B) :=
  match o with Some a => let? b := f a in Ok (Some b) | None => Ok None end.

(** ** Bytes *)
Fixpoint le_bytes (k : nat) (v : Z) : Bytes :=
  match k with O => [] | S k => v mod 256 :: le_bytes k (v / 256) end.
Definition be_bytes (k : nat) (v : Z) : Bytes := reverse (le_bytes k v).
Definition be_value (l : Bytes) : Z := foldl (λ acc b, 256 * acc + b) 0 l.

(** [Felt::to_bytes_be], [Felt::from_bytes_be_slice], which takes any length and
    reduces by the prime *)
Definition felt_to_bytes (f : Felt) : Bytes := be_bytes 32 f.
Definition felt_from_bytes (b : Bytes) : Felt := be_value b mod SqlString.PRIME.

(** [U256::to_be_bytes], [U256::from_be_slice], which panics on another length *)
Definition u256_to_bytes (v : U256) : Bytes := be_bytes 32 v.
Definition u256_from_slice {E} (b : Bytes) : outcome E U256 :=
  if (length b =? 32)%nat then Ok (be_value b) else Panic.

(** [N::from_be_bytes(bytes.try_into()?)] *)
Definition from_be_array (k : nat) (b : Bytes) : outcome ProtoError Z :=
  if (length b =? k)%nat then Ok (be_value b) else Err FromSlice.

(** [x as uN], [x as iN] *)
Definition wrap_u (bits : Z) (x : Z) : Z := x mod 2 ^ bits.
Definition wrap_i (bits : Z) (x : Z) : Z := (x + 2 ^ (bits - 1)) mod 2 ^ bits - 2 ^ (bits - 1).

(** ** Times *)

(** A time is in nanoseconds. *)
Abbreviation DateTime := Z (only parsing).
Class Chrono : Type := {
  (** the seconds [DateTime::from_timestamp] accepts *)
  second_in_range : Z → bool;
  to_rfc3339 : DateTime → string;
  parse_from_rfc3339 : string → option DateTime
}.
Definition NANOS : Z := 10 ^ 9.
(** [t.timestamp() as u64], [DateTime::from_timestamp(s as i64, 0).unwrap()] *)
Definition time_to_u64 (t : DateTime) : Z := wrap_u 64 (t / NANOS).
Definition time_from_u64 `{Chrono} {E} (s : Z) : outcome E DateTime :=
  let s := wrap_i 64 s in if second_in_range s then Ok (s * NANOS) else Panic.

(** ** Text *)
Fixpoint string_bytes (s : string) : Bytes :=
  match s with EmptyString => [] | String c s => Z.of_nat (nat_of_ascii c) :: string_bytes s end.
Fixpoint bytes_string (b : Bytes) : string :=
  match b with [] => EmptyString | x :: b => String (ascii_of_nat (Z.to_nat x)) (bytes_string b) end.
Definition between (lo hi x : Z) : bool := (lo <=? x) && (x <=? hi).
Definition continuation (x : Z) : bool := between 128 191 x.
(** The white space of Unicode, by the bytes of its encoding. *)
Definition space1 (a : Z) : bool := between 9 13 a || (a =? 32).
Definition space2 (a b : Z) : bool := (a =? 194) && ((b =? 133) || (b =? 160)).
Definition space3 (a b c : Z) : bool :=
  (a =? 225) && (b =? 154) && (c =? 128) ||
  (a =? 226) && (b =? 128) && (between 128 138 c || (c =? 168) || (c =? 169) || (c =? 175)) ||
  (a =? 226) && (b =? 129) && (c =? 159) || (a =? 227) && (b =? 128) && (c =? 128).
Fixpoint drop_space (two : Z → Z → bool) (three : Z → Z → Z → bool) (l : Bytes) : Bytes :=
  match l with
  | [] => []
  | a :: l1 =>
      if space1 a then drop_space two three l1 else
      match l1 with
      | [] => l
      | b :: l2 =>
          if two a b then drop_space two three l2 else
          match l2 with
          | [] => l
          | c :: l3 => if three a b c then drop_space two three l3 else l
          end
      end
  end.
(** [str::trim] *)
Definition str_trim (s : string) : string :=
  let front := drop_space space2 space3 (string_bytes s) in
  bytes_string (reverse (drop_space (λ b a, space2 a b) (λ c b a, space3 a b c) (reverse front))).
(** The sequences of one to four bytes that encode a character. *)
Fixpoint valid_utf8 (l : Bytes) : bool :=
  match l with
  | [] => true
  | a :: l1 =>
      if between 0 127 a then valid_utf8 l1 else
      match l1 with
      | [] => false
      | b :: l2 =>
          if between 194 223 a then continuation b && valid_utf8 l2 else
          match l2 with
          | [] => false
          | c :: l3 =>
              if between 224 239 a then
                between (if a =? 224 then 160 else 128) (if a =? 237 then 159 else 191) b && continuation c
                && valid_utf8 l3
              else match l3 with
              | [] => false
              | d :: l4 =>
                  between 240 244 a && between (if a =? 240 then 144 else 128) (if a =? 244 then 143 else 191) b
                  && continuation c && continuation d && valid_utf8 l4
              end
          end
      end
  end.
(** [String::from_utf8] *)
Definition from_utf8 (b : Bytes) : outcome ProtoError string :=
  if valid_utf8 b then Ok (bytes_string b) else Err FromUtf8.

(** ** Primitives *)
Inductive Prim : Type :=
| PrimI8 (v : option Z) | PrimI16 (v : option Z) | PrimI32 (v : option Z) | PrimI64 (v : option Z)
| PrimI128 (v : option Z)
| PrimU8 (v : option Z) | PrimU16 (v : option Z) | PrimU32 (v : option Z) | PrimU64 (v : option Z)
| PrimU128 (v : option Z) | PrimU256 (v : option Z)
| PrimBool (v : option bool)
| PrimFelt252 (v : option Felt) | PrimClassHash (v : option Felt) | PrimContractAddress (v : option Felt)
| PrimEthAddress (v : option Felt).
#[global] Instance Prim_eq_dec : EqDecision Prim.
Proof. solve_decision. Defined.

(** [primitive::PrimitiveType] *)
Inductive PrimitiveType : Type :=
| PTypeI8 (v : Z) | PTypeI16 (v : Z) | PTypeI32 (v : Z) | PTypeI64 (v : Z) | PTypeI128 (v : Bytes)
| PTypeU8 (v : Z) | PTypeU16 (v : Z) | PTypeU32 (v : Z) | PTypeU64 (v : Z) | PTypeU128 (v : Bytes)
| PTypeU256 (v : Bytes)
| PTypeBool (v : bool)
| PTypeFelt252 (v : Bytes) | PTypeClassHash (v : Bytes) | PTypeContractAddress (v : Bytes)
| PTypeEthAddress (v : Bytes).

Definition primitive_into (p : Prim) : option PrimitiveType :=
  Some match p with
  | PrimBool v => PTypeBool (default false v)
  | PrimI8 v => PTypeI8 (default 0 v)
  | PrimI16 v => PTypeI16 (default 0 v)
  | PrimI32 v => PTypeI32 (default 0 v)
  | PrimI64 v => PTypeI64 (default 0 v)
  | PrimI128 v => PTypeI128 (be_bytes 16 (wrap_u 128 (default 0 v)))
  | PrimU8 v => PTypeU8 (default 0 v)
  | PrimU16 v => PTypeU16 (default 0 v)
  | PrimU32 v => PTypeU32 (default 0 v)
  | PrimU64 v => PTypeU64 (default 0 v)
  | PrimU128 v => PTypeU128 (be_bytes 16 (default 0 v))
  | PrimFelt252 v => PTypeFelt252 (felt_to_bytes (default 0 v))
  | PrimClassHash v => PTypeClassHash (felt_to_bytes (default 0 v))
  | PrimContractAddress v => PTypeContractAddress (felt_to_bytes (default 0 v))
  | PrimEthAddress v => PTypeEthAddress (felt_to_bytes (default 0 v))
  | PrimU256 v => PTypeU256 (u256_to_bytes (default 0 v))
  end.

Definition primitive_try_from (primitive : option PrimitiveType) : outcome ProtoError Prim :=
  let? value := ok_or (MissingExpectedData "primitive_type") primitive in
  match value with
  | PTypeBool b => Ok (PrimBool (Some b))
  | PTypeI8 int => Ok (PrimI8 (Some (wrap_i 8 int)))
  | PTypeI16 int => Ok (PrimI16 (Some (wrap_i 16 int)))
  | PTypeI32 int => Ok (PrimI32 (Some int))
  | PTypeI64 int => Ok (PrimI64 (Some int))
  | PTypeI128 bytes => let? v := from_be_array 16 bytes in Ok (PrimI128 (Some (wrap_i 128 v)))
  | PTypeU8 int => Ok (PrimU8 (Some (wrap_u 8 int)))
  | PTypeU16 int => Ok (PrimU16 (Some (wrap_u 16 int)))
  | PTypeU32 int => Ok (PrimU32 (Some int))
  | PTypeU64 int => Ok (PrimU64 (Some int))
  | PTypeU128 bytes => let? v := from_be_array 16 bytes in Ok (PrimU128 (Some v))
  | PTypeFelt252 felt => Ok (PrimFelt252 (Some (felt_from_bytes felt)))
  | PTypeClassHash felt => Ok (PrimClassHash (Some (felt_from_bytes felt)))
  | PTypeContractAddress felt => Ok (PrimContractAddress (Some (felt_from_bytes felt)))
  | PTypeEthAddress felt => Ok (PrimEthAddress (Some (felt_from_bytes felt)))
  | PTypeU256 bytes => let? v := from_be_array 32 bytes in Ok (PrimU256 (Some v))
  end.

(** ** Types *)
#[global] Instance wire_primitives : Primitives := {| Primitive := Prim; prim_eqb p q := bool_decide (p = q) |}.
Abbreviation Ty := DTy (only parsing).

(** [types.Ty], with [None] for a missing [ty_type]; the types of members and of
    options may be missing too. *)
#[local] Set Warnings "-register-all".
Inductive PTy : Type :=
| PTyMissing
| PTyPrimitive (p : option PrimitiveType)
| PTyEnum (name : string) (option : Z) (options : list (string * Datatypes.option PTy))
| PTyStruct (name : string) (children : list (string * Datatypes.option PTy * bool))
| PTyTuple (children : list PTy)
| PTyArray (children : list PTy)
| PTyBytearray (s : string)
| PTyFixedSizeArray (children : list PTy) (size : Z).

Definition member_into (f : Ty → outcome ProtoError PTy) (m : string * Ty * bool)
  : outcome ProtoError (string * option PTy * bool) :=
  let? t := f m.1.2 in Ok (m.1.1, Some t, m.2).
Definition enum_option_into (f : Ty → outcome ProtoError PTy) (o : string * Ty)
  : outcome ProtoError (string * option PTy) :=
  let? t := f o.2 in Ok (o.1, Some t).

(** [Ty::FixedSizeArray(_) => todo!()] *)
Fixpoint ty_into (ty : Ty) : outcome ProtoError PTy :=
  match ty with
  | TyPrimitive p => Ok (PTyPrimitive (primitive_into p))
  | TyEnum name option options =>
      let? options := outcome_mapM (enum_option_into ty_into) options in
      Ok (PTyEnum name (Z.of_nat (default 0%nat option)) options)
  | TyStruct name children =>
      let? children := outcome_mapM (member_into ty_into) children in Ok (PTyStruct name children)
  | TyTuple tuple => let? children := outcome_mapM ty_into tuple in Ok (PTyTuple children)
  | TyArray array => let? children := outcome_mapM ty_into array in Ok (PTyArray children)
  | TyByteArray s => Ok (PTyBytearray s)
  | TyFixedSizeArray _ _ => Panic
  end.

Definition member_try_from (f : PTy → outcome ProtoError Ty) (m : string * option PTy * bool)
  : outcome ProtoError (string * Ty * bool) :=
  match m.1.2 with
  | Some t => let? t := f t in Ok (m.1.1, t, m.2)
  | None => Err (MissingExpectedData "ty")
  end.
Definition enum_option_try_from (f : PTy → outcome ProtoError Ty) (o : string * option PTy)
  : outcome ProtoError (string * Ty) :=
  match o.2 with
  | Some t => let? t := f t in Ok (o.1, t)
  | None => Err (MissingExpectedData "ty")
  end.

Fixpoint ty_try_from (ty : PTy) : outcome ProtoError Ty :=
  match ty with
  | PTyMissing => Err (MissingExpectedData "ty_type")
  | PTyPrimitive p => let? p := primitive_try_from p in Ok (TyPrimitive (p : Primitive))
  | PTyStruct name children =>
      let? children := outcome_mapM (member_try_from ty_try_from) children in Ok (TyStruct name children)
  | PTyEnum name option options =>
      let? options := outcome_mapM (enum_option_try_from ty_try_from) options in
      Ok (TyEnum name (Some (Z.to_nat (wrap_u 8 option))) options)
  | PTyTuple children => let? ts := outcome_mapM ty_try_from children in Ok (TyTuple ts)
  | PTyFixedSizeArray children size => let? ts := outcome_mapM ty_try_from children in Ok (TyFixedSizeArray ts size)
  | PTyArray children => let? ts := outcome_mapM ty_try_from children in Ok (TyArray ts)
  | PTyBytearray s => Ok (TyByteArray s)
  end.

(** [impl From<Struct>], [impl TryFrom<proto::types::Struct>] *)
Abbreviation Struct := (string * list (string * Ty * bool))%type (only parsing).
Abbreviation PStruct := (string * list (string * option PTy * bool))%type (only parsing).
Definition struct_into (s : Struct) : outcome ProtoError PStruct :=
  let? children := outcome_mapM (member_into ty_into) s.2 in Ok (s.1, children).
Definition struct_try_from (s : PStruct) : outcome ProtoError Struct :=
  let? children := outcome_mapM (member_try_from ty_try_from) s.2 in Ok (s.1, children).

(** ** Entities *)
Record Entity : Type := mkEntity {
  entity_world_address : Felt; hashed_keys : Felt; entity_models : list Struct;
  entity_created_at : DateTime; entity_updated_at : DateTime; entity_executed_at : DateTime
}.
Record EntityWithMetadata : Type := mkEntityWithMetadata {
  ewm_entity : Entity; ewm_event_id : string; ewm_keys : list Felt; ewm_deleted : bool; ewm_match_model : option Ty
}.
Record PEntity : Type := mkPEntity {
  p_entity_hashed_keys : Bytes; p_entity_models : list PStruct; p_entity_created_at : Z;
  p_entity_updated_at : Z; p_entity_executed_at : Z; p_entity_world_address : Bytes
}.

Definition entity_into (e : Entity) : outcome ProtoError PEntity :=
  let? models := outcome_mapM struct_into (entity_models e) in
  Ok (mkPEntity (felt_to_bytes (hashed_keys e)) models (time_to_u64 (entity_created_at e))
        (time_to_u64 (entity_updated_at e)) (time_to_u64 (entity_executed_at e))
        (felt_to_bytes (entity_world_address e))).
Definition entity_try_from `{Chrono} (e : PEntity) : outcome ProtoError Entity :=
  let? models := outcome_mapM struct_try_from (p_entity_models e) in
  let? created_at := time_from_u64 (p_entity_created_at e) in
  let? updated_at := time_from_u64 (p_entity_updated_at e) in
  let? executed_at := time_from_u64 (p_entity_executed_at e) in
  Ok (mkEntity (felt_from_bytes (p_entity_world_address e)) (felt_from_bytes (p_entity_hashed_keys e)) models
        created_at updated_at executed_at).

(** ** What is sent comes back *)

(** [a] is sent and read back as [b]. *)
Definition carries {A P : Type} (into : A → outcome ProtoError P) (try_from : P → outcome ProtoError A) (a b : A) : Prop :=
  ∃ p, into a = Ok p ∧ try_from p = Ok b.

#[global] Arguments be_bytes : simpl never.
#[global] Arguments be_value : simpl never.
#[global] Arguments felt_to_bytes : simpl never.
#[global] Arguments felt_from_bytes : simpl never.
#[global] Arguments u256_to_bytes : simpl never.
#[global] Arguments u256_from_slice {E} : simpl never.
#[global] Arguments from_be_array : simpl never.
#[global] Arguments wrap_u : simpl never.
#[global] Arguments wrap_i : simpl never.
#[global] Arguments time_to_u64 : simpl never.
#[global] Arguments time_from_u64 {_ E} : simpl never.

(** A range or an equation of numbers that are given. *)
Ltac concrete := repeat split; vm_compute; first [reflexivity | discriminate].

Create HintDb wire discriminated.

Lemma carries_mapM {A P} (into : A → outcome ProtoError P) try_from (n : A → A) l :
  Forall (λ a, carries into try_from a (n a)) l → carries (outcome_mapM into) (outcome_mapM try_from) l (n <$> l).
Proof.
  induction 1 as [|a l (p & Hp & Ha) _ (ps & Hps & Hl)]; [by exists []|].
  exists (p :: ps). cbn. by rewrite Hp, Ha; cbn; rewrite Hps, Hl.
Qed.

Lemma mapM_pure {A P} (into : A → P) (l : list A) :
  outcome_mapM (λ a, Ok (E := ProtoError) (into a)) l = Ok (into <$> l).
Proof. induction l as [|a l IH]; [done|]. cbn. by rewrite IH. Qed.

(** The pure form, for a conversion that cannot fail on the way out. *)
Lemma mapM_round {A P} (into : A → P) (try_from : P → outcome ProtoError A) (l : list A) :
  Forall (λ a, try_from (into a) = Ok a) l → outcome_mapM try_from (into <$> l) = Ok l.
Proof. induction 1 as [|a l Ha _ IH]; [done|]. cbn. by rewrite Ha; cbn; rewrite IH. Qed.

Lemma option_round {A P} (into : A → P) (try_from : P → outcome ProtoError A) (o : option A) :
  (∀ a, o = Some a → try_from (into a) = Ok a) → outcome_option try_from (into <$> o) = Ok o.
Proof. destruct o as [a|]; [|done]. cbn. intros H. by rewrite (H a). Qed.

Lemma le_bytes_length k v : length (le_bytes k v) = k.
Proof. revert v. induction k as [|k IH]; intros v; cbn; auto. Qed.
Lemma be_bytes_length k v : length (be_bytes k v) = k.
Proof. unfold be_bytes. rewrite length_reverse. apply le_bytes_length. Qed.
Lemma be_value_snoc l b : be_value (l ++ [b]) = 256 * be_value l + b.
Proof. unfold be_value. by rewrite foldl_app. Qed.

Lemma be_bytes_value k v : be_value (be_bytes k v) = v mod 256 ^ Z.of_nat k.
Proof.
  unfold be_bytes. revert v. induction k as [|k IH]; intros v; [by rewrite Z.mod_1_r|].
  cbn [le_bytes]. rewrite reverse_cons, be_value_snoc, IH.
  rewrite Nat2Z.inj_succ, Z.pow_succ_r, Z.rem_mul_r by lia. lia.
Qed.
Lemma be_bytes_small k v : 0 ≤ v < 256 ^ Z.of_nat k → be_value (be_bytes k v) = v.
Proof. intros. by rewrite be_bytes_value, Z.mod_small. Qed.

Lemma felt_bytes f : SqlString.felt_ok f → felt_from_bytes (felt_to_bytes f) = f.
Proof.
  intros H. unfold felt_from_bytes, felt_to_bytes. rewrite be_bytes_small; [by apply Z.mod_small|].
  revert H. unfold SqlString.felt_ok, SqlString.PRIME. lia.
Qed.
Lemma felts_bytes l : Forall SqlString.felt_ok l → felt_from_bytes <$> (felt_to_bytes <$> l) = l.
Proof. induction 1 as [|f l Hf _ IH]; [done|]. by rewrite !fmap_cons, felt_bytes, IH. Qed.

Definition u256_ok (v : U256) : Prop := 0 ≤ v < 2 ^ 256.
Lemma u256_bytes {E} v : u256_ok v → u256_from_slice (E := E) (u256_to_bytes v) = Ok v.
Proof.
  intros H. unfold u256_from_slice, u256_to_bytes. by rewrite be_bytes_length, Nat.eqb_refl, be_bytes_small.
Qed.
Lemma array_bytes k v : 0 ≤ v < 256 ^ Z.of_nat k → from_be_array k (be_bytes k v) = Ok v.
Proof. intros H. unfold from_be_array. by rewrite be_bytes_length, Nat.eqb_refl, be_bytes_small. Qed.

Lemma wrap_u_small b x : 0 ≤ x < 2 ^ b → wrap_u b x = x.
Proof. apply Z.mod_small. Qed.
Lemma wrap_i_small b x : 0 < b → - 2 ^ (b - 1) ≤ x < 2 ^ (b - 1) → wrap_i b x = x.
Proof.
  intros Hb Hx. unfold wrap_i. replace (2 ^ b) with (2 * 2 ^ (b - 1)) by (rewrite <- Z.pow_succ_r by lia; f_equal; lia).
  rewrite Z.mod_small; lia.
Qed.
Lemma wrap_i_u b x : 0 < b → - 2 ^ (b - 1) ≤ x < 2 ^ (b - 1) → wrap_i b (wrap_u b x) = x.
Proof.
  intros Hb Hx. rewrite <- (wrap_i_small b x) at 2 by done. unfold wrap_i, wrap_u. f_equal.
  apply Zplus_mod_idemp_l.
Qed.

(** A time the wire carries: whole seconds, in the range of [chrono]. *)
Definition time_ok `{Chrono} (t : DateTime) : Prop :=
  t mod NANOS = 0 ∧ - 2 ^ 63 ≤ t / NANOS < 2 ^ 63 ∧ second_in_range (t / NANOS) = true.
Lemma time_round `{Chrono} {E} t : time_ok t → time_from_u64 (E := E) (time_to_u64 t) = Ok t.
Proof.
  intros (Hm & Hr & Hs). unfold time_from_u64, time_to_u64. rewrite wrap_i_u, Hs by lia. cbn. f_equal.
  pose proof (Z.div_mod t NANOS). unfold NANOS in *. lia.
Qed.
(** Any other time loses its fraction of a second. *)
Lemma time_truncated `{Chrono} {E} t :
  - 2 ^ 63 ≤ t / NANOS < 2 ^ 63 → second_in_range (t / NANOS) = true →
  time_from_u64 (E := E) (time_to_u64 t) = Ok (t / NANOS * NANOS).
Proof. intros Hr Hs. unfold time_from_u64, time_to_u64. by rewrite wrap_i_u, Hs by lia. Qed.

(** A Rust string is encoded in UTF-8. *)
Definition utf8_ok (s : string) : Prop := valid_utf8 (string_bytes s) = true.
Lemma string_bytes_string s : bytes_string (string_bytes s) = s.
Proof. induction s as [|c s IH]; [done|]. cbn. by rewrite Nat2Z.id, ascii_nat_embedding, IH. Qed.
Lemma utf8_round s : utf8_ok s → from_utf8 (string_bytes s) = Ok s.
Proof. intros H. unfold from_utf8. by rewrite H, string_bytes_string. Qed.
#[global] Arguments from_utf8 : simpl never.
#[global] Arguments string_bytes : simpl never.

(** ** Types *)

Definition signed_ok (b : Z) (v : option Z) : Prop := ∀ x, v = Some x → - 2 ^ (b - 1) ≤ x < 2 ^ (b - 1).
Definition unsigned_ok (b : Z) (v : option Z) : Prop := ∀ x, v = Some x → 0 ≤ x < 2 ^ b.
Definition prim_ok (p : Prim) : Prop :=
  match p with
  | PrimI8 v => signed_ok 8 v | PrimI16 v => signed_ok 16 v | PrimI32 v => signed_ok 32 v
  | PrimI64 v => signed_ok 64 v | PrimI128 v => signed_ok 128 v
  | PrimU8 v => unsigned_ok 8 v | PrimU16 v => unsigned_ok 16 v | PrimU32 v => unsigned_ok 32 v
  | PrimU64 v => unsigned_ok 64 v | PrimU128 v => unsigned_ok 128 v | PrimU256 v => unsigned_ok 256 v
  | PrimBool _ => True
  | PrimFelt252 v | PrimClassHash v | PrimContractAddress v | PrimEthAddress v => ∀ f, v = Some f → SqlString.felt_ok f
  end.

(** A missing value is read back as the default one. *)
Definition prim_filled (p : Prim) : Prim :=
  match p with
  | PrimI8 v => PrimI8 (Some (default 0 v)) | PrimI16 v => PrimI16 (Some (default 0 v))
  | PrimI32 v => PrimI32 (Some (default 0 v)) | PrimI64 v => PrimI64 (Some (default 0 v))
  | PrimI128 v => PrimI128 (Some (default 0 v))
  | PrimU8 v => PrimU8 (Some (default 0 v)) | PrimU16 v => PrimU16 (Some (default 0 v))
  | PrimU32 v => PrimU32 (Some (default 0 v)) | PrimU64 v => PrimU64 (Some (default 0 v))
  | PrimU128 v => PrimU128 (Some (default 0 v)) | PrimU256 v => PrimU256 (Some (default 0 v))
  | PrimBool v => PrimBool (Some (default false v))
  | PrimFelt252 v => PrimFelt252 (Some (default 0 v)) | PrimClassHash v => PrimClassHash (Some (default 0 v))
  | PrimContractAddress v => PrimContractAddress (Some (default 0 v))
  | PrimEthAddress v => PrimEthAddress (Some (default 0 v))
  end.

Lemma signed_default b v : 0 < b → signed_ok b v → - 2 ^ (b - 1) ≤ default 0 v < 2 ^ (b - 1).
Proof. intros Hb H. destruct v as [x|]; [by apply H|]. cbn. pose proof (Z.pow_pos_nonneg 2 (b - 1)). lia. Qed.
Lemma unsigned_default b v : 0 ≤ b → unsigned_ok b v → 0 ≤ default 0 v < 2 ^ b.
Proof. intros Hb H. destruct v as [x|]; [by apply H|]. cbn. pose proof (Z.pow_pos_nonneg 2 b). lia. Qed.
Lemma felt_default (v : option Felt) : (∀ f, v = Some f → SqlString.felt_ok f) → SqlString.felt_ok (default 0 v).
Proof. intros H. destruct v as [f|]; [by apply H|]. unfold SqlString.felt_ok, SqlString.PRIME; cbn; lia. Qed.
#[export] Hint Resolve signed_default unsigned_default felt_default : wire.

Lemma prim_round (p : Prim) : prim_ok p → primitive_try_from (primitive_into p) = Ok (prim_filled p).
Proof.
  unfold primitive_try_from, primitive_into; destruct p; cbn [prim_ok prim_filled ok_or outcome_bind]; intros H;
    rewrite ?felt_bytes, ?wrap_i_small, ?wrap_u_small by eauto with wire lia; try done.
  - rewrite array_bytes by (apply Z.mod_pos_bound; lia). cbn. do 3 f_equal. apply wrap_i_u; [lia|]. by apply (signed_default 128).
  - rewrite array_bytes by (apply (unsigned_default 128); [lia|done]). done.
  - unfold u256_to_bytes. rewrite array_bytes by (apply (unsigned_default 256); [lia|done]). done.
Qed.

(** The values of a type are in their ranges, and no array of a fixed size occurs. *)
Fixpoint ty_ok (t : Ty) : Prop :=
  match t with
  | TyPrimitive p => prim_ok p
  | TyStruct _ ms => Forall (λ P : Prop, P) ((λ m, ty_ok m.1.2) <$> ms)
  | TyEnum _ o os => (∀ i, o = Some i → (i < 256)%nat) ∧ Forall (λ P : Prop, P) ((λ o, ty_ok o.2) <$> os)
  | TyTuple ts | TyArray ts => Forall (λ P : Prop, P) (ty_ok <$> ts)
  | TyByteArray _ => True
  | TyFixedSizeArray _ _ => False
  end.
Fixpoint ty_filled (t : Ty) : Ty :=
  match t with
  | TyPrimitive p => TyPrimitive (prim_filled p : Primitive)
  | TyStruct n ms => TyStruct n ((λ m, (m.1.1, ty_filled m.1.2, m.2)) <$> ms)
  | TyEnum n o os => TyEnum n (Some (default 0%nat o)) ((λ o, (o.1, ty_filled o.2)) <$> os)
  | TyTuple ts => TyTuple (ty_filled <$> ts)
  | TyArray ts => TyArray (ty_filled <$> ts)
  | TyByteArray s => TyByteArray s
  | TyFixedSizeArray ts n => TyFixedSizeArray ts n
  end.

(** The children of a type, through the conversions of a member or an option. *)
Lemma carries_members (ms : list (string * Ty * bool)) :
  Forall (λ m, ty_ok m.1.2 → carries ty_into ty_try_from m.1.2 (ty_filled m.1.2)) ms →
  Forall (λ P : Prop, P) ((λ m : string * Ty * bool, ty_ok m.1.2) <$> ms) →
  carries (outcome_mapM (member_into ty_into)) (outcome_mapM (member_try_from ty_try_from)) ms
    ((λ m, (m.1.1, ty_filled m.1.2, m.2)) <$> ms).
Proof.
  rewrite Forall_fmap. intros H Hok. apply carries_mapM. eapply Forall_impl; [apply Forall_and; split; [exact H|exact Hok]|].
  intros [[n t] k] [Hc (p & Hp & Ht)%Hc]. cbn [fst snd] in *. exists (n, Some p, k).
  unfold member_into, member_try_from. cbn [fst snd]. by rewrite Hp, Ht.
Qed.
Lemma carries_options (os : list (string * Ty)) :
  Forall (λ o, ty_ok o.2 → carries ty_into ty_try_from o.2 (ty_filled o.2)) os →
  Forall (λ P : Prop, P) ((λ o : string * Ty, ty_ok o.2) <$> os) →
  carries (outcome_mapM (enum_option_into ty_into)) (outcome_mapM (enum_option_try_from ty_try_from)) os
    ((λ o, (o.1, ty_filled o.2)) <$> os).
Proof.
  rewrite Forall_fmap. intros H Hok. apply carries_mapM. eapply Forall_impl; [apply Forall_and; split; [exact H|exact Hok]|].
  intros [n t] [Hc (p & Hp & Ht)%Hc]. cbn [fst snd] in *. exists (n, Some p).
  unfold enum_option_into, enum_option_try_from. cbn [fst snd]. by rewrite Hp, Ht.
Qed.
Lemma carries_children (ts : list Ty) :
  Forall (λ t, ty_ok t → carries ty_into ty_try_from t (ty_filled t)) ts →
  Forall (λ P : Prop, P) (ty_ok <$> ts) →
  carries (outcome_mapM ty_into) (outcome_mapM ty_try_from) ts (ty_filled <$> ts).
Proof.
  rewrite Forall_fmap. intros H Hok. apply carries_mapM. eapply Forall_impl; [apply Forall_and; split; [exact H|exact Hok]|].
  naive_solver.
Qed.

Lemma ty_round (t : Ty) : ty_ok t → carries ty_into ty_try_from t (ty_filled t).
Proof.
  induction t as [q|n ms IH|n o os IH|ts IH|ts IH|ts l IH|b] using ModelTable.DTy_ind'; cbn [ty_ok ty_filled]; intros Hok.
  - exists (PTyPrimitive (primitive_into q)). split; [done|]. cbn [ty_try_from]. by rewrite prim_round.
  - destruct (carries_members ms IH Hok) as (ps & Hp & Ht). exists (PTyStruct n ps). cbn [ty_into ty_try_from].
    by rewrite Hp, Ht.
  - destruct Hok as [Ho Hok]. destruct (carries_options os IH Hok) as (ps & Hp & Ht).
    exists (PTyEnum n (Z.of_nat (default 0%nat o)) ps). cbn [ty_into ty_try_from]. rewrite Hp, Ht. cbn [outcome_bind].
    rewrite wrap_u_small, Nat2Z.id; [done|]. destruct o as [i|]; cbn; [specialize (Ho i eq_refl)|]; lia.
  - destruct (carries_children ts IH Hok) as (ps & Hp & Ht). exists (PTyTuple ps). cbn [ty_into ty_try_from].
    by rewrite Hp, Ht.
  - destruct (carries_children ts IH Hok) as (ps & Hp & Ht). exists (PTyArray ps). cbn [ty_into ty_try_from].
    by rewrite Hp, Ht.
  - done.
  - by exists (PTyBytearray b).
Qed.

(** An array of a fixed size, anywhere in a type. *)
Fixpoint has_fixed_array (t : Ty) : bool :=
  match t with
  | TyPrimitive _ | TyByteArray _ => false
  | TyStruct _ ms => existsb (λ m, has_fixed_array m.1.2) ms
  | TyEnum _ _ os => existsb (λ o, has_fixed_array o.2) os
  | TyTuple ts | TyArray ts => existsb has_fixed_array ts
  | TyFixedSizeArray _ _ => true
  end.

Definition panics_iff {A B} (f : A → outcome ProtoError B) (a : A) (bad : bool) : Prop :=
  if bad then f a = Panic else is_ok (f a) = true.
Lemma mapM_panics {A B} (f : A → outcome ProtoError B) (bad : A → bool) l :
  Forall (λ a, panics_iff f a (bad a)) l → panics_iff (outcome_mapM f) l (existsb bad l).
Proof.
  unfold panics_iff. induction 1 as [|a l Ha _ IH]; [done|]. cbn. destruct (bad a); cbn; [by rewrite Ha|].
  destruct (f a) as [b| |]; [|done..]. cbn. destruct (existsb bad l); [by rewrite IH|].
  by destruct (outcome_mapM f l).
Qed.
Lemma bind_panics {A B C} (f : A → outcome ProtoError B) (g : B → C) a bad :
  panics_iff f a bad → panics_iff (λ a, let? b := f a in Ok (g b)) a bad.
Proof. unfold panics_iff. destruct bad; [by intros ->|]. by destruct (f a). Qed.

Lemma ty_into_panics (t : Ty) : panics_iff ty_into t (has_fixed_array t).
Proof.
  induction t as [q|n ms IH|n o os IH|ts IH|ts IH|ts l IH|b] using ModelTable.DTy_ind'; [done| | | | |done|done].
  - apply (bind_panics (outcome_mapM (member_into ty_into)) (PTyStruct n) ms), mapM_panics.
    eapply Forall_impl; [exact IH|]. intros [[x t] k] H. by apply (bind_panics (λ m : string * Ty * bool, ty_into m.1.2) (λ t', (x, Some t', k)) (x, t, k)).
  - apply (bind_panics (outcome_mapM (enum_option_into ty_into)) (PTyEnum n (Z.of_nat (default 0%nat o))) os), mapM_panics.
    eapply Forall_impl; [exact IH|]. intros [x t] H. by apply (bind_panics (λ m : string * Ty, ty_into m.2) (λ t', (x, Some t')) (x, t)).
  - by apply (bind_panics (outcome_mapM ty_into) PTyTuple ts), mapM_panics.
  - by apply (bind_panics (outcome_mapM ty_into) PTyArray ts), mapM_panics.
Qed.

(** ** Entities *)
Definition struct_ok (s : Struct) : Prop := Forall (λ m : string * Ty * bool, ty_ok m.1.2) s.2.
Definition struct_filled (s : Struct) : Struct := (s.1, (λ m, (m.1.1, ty_filled m.1.2, m.2)) <$> s.2).
Lemma struct_round (s : Struct) : struct_ok s → carries struct_into struct_try_from s (struct_filled s).
Proof.
  intros Hok. destruct (carries_members s.2) as (ps & Hp & Ht).
  - apply Forall_forall. intros m _ Hm. by apply ty_round.
  - by apply Forall_fmap.
  - exists (s.1, ps). unfold struct_into, struct_try_from. by rewrite Hp; cbn; rewrite Ht.
Qed.

Definition entity_ok `{Chrono} (e : Entity) : Prop :=
  SqlString.felt_ok (entity_world_address e) ∧ SqlString.felt_ok (hashed_keys e) ∧ Forall struct_ok (entity_models e) ∧
  time_ok (entity_created_at e) ∧ time_ok (entity_updated_at e) ∧ time_ok (entity_executed_at e).
Definition entity_filled (e : Entity) : Entity :=
  mkEntity (entity_world_address e) (hashed_keys e) (struct_filled <$> entity_models e) (entity_created_at e)
    (entity_updated_at e) (entity_executed_at e).

Lemma entity_round `{Chrono} (e : Entity) :
  entity_ok e → carries entity_into entity_try_from e (entity_filled e).
Proof.
  intros (Hw & Hk & Hm & Hc & Hu & Hx).
  destruct (carries_mapM struct_into struct_try_from struct_filled (entity_models e)) as (ps & Hp & Ht).
  { eapply Forall_impl; [exact Hm|]. apply struct_round. }
  unfold carries, entity_into. rewrite Hp. eexists. split; [done|]. unfold entity_try_from. cbn.
  rewrite Ht. cbn. by rewrite !time_round, !felt_bytes.
Qed.


(** ** Examples *)

(** The years [chrono] accepts; the text of the epoch only. *)
Definition demo_chrono : Chrono := {|
  second_in_range s := (-8334601228800 <=? s) && (s <=? 8210266876799);
  to_rfc3339 t := if t =? 0 then "1970-01-01T00:00:00+00:00" else EmptyString;
  parse_from_rfc3339 s := if String.eqb s "1970-01-01T00:00:00+00:00" then Some 0 else None
|}.
Definition demo_entity : Entity :=
  mkEntity 7 99
    [("ns-Position", [("player", TyPrimitive (PrimContractAddress (Some 5) : Primitive), true);
                      ("at", TyStruct "Vec2" [("x", TyPrimitive (PrimI8 (Some (-3)) : Primitive), false);
                                              ("y", TyPrimitive (PrimU128 None : Primitive), false)], false);
                      ("dir", TyEnum "Dir" None [("Left", TyTuple []); ("Right", TyTuple [])], false)])]
    (1700000000 * NANOS) (1700000001 * NANOS) 0.

