(* ===== verification/Messages.v ===== *)
(** * The messages of the servers ([crates/proto/src/lib.rs])

    The queries of a client and the results it receives, as the types of the
    program and as protobuf messages, and the conversions between them. A message
    [PX] has the fields of [X] in [crates/proto/proto/types.proto]; [x_into] is
    [From<X> for proto::types::X], [x_try_from] and [x_from] the conversions back.
    The fields of a conversion back are computed in the order of the source, so
    that the first failure is the one returned.

    A [double] is the integer of its bits. The accessors of [prost] for a field of
    an enum give the first variant when the number on the wire names none. *)

From S2P Require Import Prelude Proto SqlString ModelTable Wire.
Local Open Scope Z_scope.
Local Open Scope torii_scope.

Module Msg.

Abbreviation F64 := Z (only parsing).

(** ** Enumerations *)

(** [ContractType::try_from(value)?] *)
Definition contract_type_try_from (value : Z) : outcome ProtoError ContractType :=
  match contract_type_of_i32 value with Some t => Ok t | None => Err (InvalidContractType value) end.
(** [value.contract_type().into()] *)
Definition contract_type_accessor (value : Z) : ContractType := default WORLD (contract_type_of_i32 value).

Inductive CallType : Type := Execute | ExecuteFromOutside.
#[global] Instance CallType_eq_dec : EqDecision CallType.
Proof. solve_decision. Defined.
Definition call_type_to_i32 (t : CallType) : Z := match t with Execute => 0 | ExecuteFromOutside => 1 end.
(** [value.call_type().into()] *)
Definition call_type_accessor (value : Z) : CallType := if value =? 1 then ExecuteFromOutside else Execute.
Definition call_type_to_string (t : CallType) : string :=
  match t with Execute => "EXECUTE" | ExecuteFromOutside => "EXECUTE_FROM_OUTSIDE" end.
Definition call_type_from_str (s : string) : outcome ProtoError CallType :=
  if String.eqb s "EXECUTE" then Ok Execute
  else if String.eqb s "EXECUTE_FROM_OUTSIDE" then Ok ExecuteFromOutside
  else Err (InvalidCallType s).

Inductive LogicalOperator : Type := And | Or.
Definition logical_to_i32 (o : LogicalOperator) : Z := match o with And => 0 | Or => 1 end.
Definition logical_accessor (value : Z) : LogicalOperator := if value =? 1 then Or else And.

Inductive ComparisonOperator : Type :=
| CEq | Neq | Gt | Gte | Lt | Lte | In | NotIn | Contains | ContainsAll | ContainsAny
| ArrayLengthEq | ArrayLengthGt | ArrayLengthLt.
#[global] Instance ComparisonOperator_eq_dec : EqDecision ComparisonOperator.
Proof. solve_decision. Defined.
Definition comparison_to_i32 (o : ComparisonOperator) : Z :=
  match o with
  | CEq => 0 | Neq => 1 | Gt => 2 | Gte => 3 | Lt => 4 | Lte => 5 | In => 6 | NotIn => 7 | Contains => 8
  | ContainsAll => 9 | ContainsAny => 10 | ArrayLengthEq => 11 | ArrayLengthGt => 12 | ArrayLengthLt => 13
  end.
Definition comparison_accessor (value : Z) : ComparisonOperator :=
  match value with
  | 1 => Neq | 2 => Gt | 3 => Gte | 4 => Lt | 5 => Lte | 6 => In | 7 => NotIn | 8 => Contains
  | 9 => ContainsAll | 10 => ContainsAny | 11 => ArrayLengthEq | 12 => ArrayLengthGt | 13 => ArrayLengthLt
  | _ => CEq
  end.
Definition comparison_to_string (o : ComparisonOperator) : string :=
  match o with
  | Gt => ">" | Gte => ">=" | Lt => "<" | Lte => "<=" | Neq => "!=" | CEq => "=" | In => "IN" | NotIn => "NOT IN"
  | Contains => "CONTAINS" | ContainsAll => "CONTAINS_ALL" | ContainsAny => "CONTAINS_ANY"
  | ArrayLengthEq => "ARRAY_LENGTH_EQ" | ArrayLengthGt => "ARRAY_LENGTH_GT" | ArrayLengthLt => "ARRAY_LENGTH_LT"
  end.

Inductive PatternMatching : Type := FixedLen | VariableLen.
#[global] Instance PatternMatching_eq_dec : EqDecision PatternMatching.
Proof. solve_decision. Defined.
Definition pattern_to_i32 (p : PatternMatching) : Z := match p with FixedLen => 0 | VariableLen => 1 end.
Definition pattern_accessor (value : Z) : PatternMatching := if value =? 1 then VariableLen else FixedLen.

(** ** Pagination *)
Inductive OrderDirection : Type := Asc | Desc.
Record OrderBy : Type := mkOrderBy { order_field : string; order_direction : OrderDirection }.
Record POrderBy : Type := mkPOrderBy { p_order_field : string; p_order_direction : Z }.
Definition order_by_into (o : OrderBy) : POrderBy :=
  mkPOrderBy (order_field o) (match order_direction o with Asc => 0 | Desc => 1 end).
(** [_ => unreachable!()] *)
Definition order_by_from {E} (o : POrderBy) : outcome E OrderBy :=
  match p_order_direction o with
  | 0 => Ok (mkOrderBy (p_order_field o) Asc)
  | 1 => Ok (mkOrderBy (p_order_field o) Desc)
  | _ => Panic
  end.

Inductive PaginationDirection : Type := Forward | Backward.
Record Pagination : Type := mkPagination {
  page_cursor : option string; page_limit : option Z; page_direction : PaginationDirection; page_order_by : list OrderBy
}.
Definition pagination_default : Pagination := mkPagination None None Forward [].
Record PPagination : Type := mkPPagination {
  p_page_cursor : string; p_page_limit : Z; p_page_direction : Z; p_page_order_by : list POrderBy
}.
Definition pagination_into (p : Pagination) : PPagination :=
  mkPPagination (default EmptyString (page_cursor p)) (default 0 (page_limit p))
    (match page_direction p with Forward => 0 | Backward => 1 end) (order_by_into <$> page_order_by p).
Definition pagination_from (value : PPagination) : outcome ProtoError Pagination :=
  let cursor := if String.eqb (p_page_cursor value) EmptyString then None else Some (p_page_cursor value) in
  let limit := if p_page_limit value =? 0 then None else Some (p_page_limit value) in
  let? direction := match p_page_direction value with 0 => Ok Forward | 1 => Ok Backward | _ => Panic end in
  let? order_by := outcome_mapM order_by_from (p_page_order_by value) in
  Ok (mkPagination cursor limit direction order_by).
(** [value.pagination.map(|p| p.into()).unwrap_or_default()] *)
Definition pagination_or_default (value : option PPagination) : outcome ProtoError Pagination :=
  match value with Some p => pagination_from p | None => Ok pagination_default end.
Definition pagination_required (value : option PPagination) : outcome ProtoError Pagination :=
  let? p := ok_or (MissingExpectedData "pagination") value in pagination_from p.

Record Page (A : Type) : Type := mkPage { page_items : list A; page_next_cursor : option string }.

(** ** Results *)

(** [DateTime::parse_from_rfc3339(&t).map_err(..)?.with_timezone(&Utc)] *)
Definition time_from_text `{Chrono} (t : string) : outcome ProtoError DateTime :=
  ok_or (ParseTimestamp t) (parse_from_rfc3339 t).

Inductive SqlValue : Type :=
| SqlText (text : string) | SqlInteger (int : Z) | SqlReal (real : F64) | SqlBlob (blob : Bytes) | SqlNull.
Inductive PSqlValueType : Type :=
| PSqlText (text : string) | PSqlInteger (int : Z) | PSqlReal (real : F64) | PSqlBlob (blob : Bytes) | PSqlNull (b : bool).
Definition sql_value_from (value : option PSqlValueType) : SqlValue :=
  match value with
  | Some (PSqlText text) => SqlText text
  | Some (PSqlInteger int) => SqlInteger int
  | Some (PSqlReal real) => SqlReal real
  | Some (PSqlBlob blob) => SqlBlob blob
  | Some (PSqlNull _) | None => SqlNull
  end.
Definition sql_value_into (value : SqlValue) : option PSqlValueType :=
  Some match value with
  | SqlText text => PSqlText text
  | SqlInteger int => PSqlInteger int
  | SqlReal real => PSqlReal real
  | SqlBlob blob => PSqlBlob blob
  | SqlNull => PSqlNull true
  end.
(** [SqlRow], a map from the names of the columns *)
Definition sql_row_from (fields : gmap string (option PSqlValueType)) : gmap string SqlValue := sql_value_from <$> fields.
Definition sql_row_into (fields : gmap string SqlValue) : gmap string (option PSqlValueType) := sql_value_into <$> fields.

(** [Contract] *)
Record Contract : Type := mkContract {
  contract_contract_address : Felt; contract_contract_type : ContractType; contract_head : option Z;
  contract_tps : option Z; contract_last_block_timestamp : option Z; contract_last_pending_block_tx : option Felt;
  contract_updated_at : DateTime; contract_created_at : DateTime
}.
Record PContract : Type := mkPContract {
  p_contract_contract_address : Bytes; p_contract_contract_type : Z; p_contract_head : option Z;
  p_contract_tps : option Z; p_contract_last_block_timestamp : option Z;
  p_contract_last_pending_block_tx : option Bytes; p_contract_updated_at : Z; p_contract_created_at : Z
}.
Definition contract_into (value : Contract) : PContract :=
  mkPContract (felt_to_bytes (contract_contract_address value))
  (contract_type_to_i32 (contract_contract_type value)) (contract_head value) (contract_tps value)
  (contract_last_block_timestamp value) (felt_to_bytes <$> (contract_last_pending_block_tx value))
  (time_to_u64 (contract_updated_at value)) (time_to_u64 (contract_created_at value)).
Definition contract_try_from `{Chrono} (value : PContract) : outcome ProtoError Contract :=
  let? contract_updated_at := time_from_u64 (p_contract_updated_at value) in
  let? contract_created_at := time_from_u64 (p_contract_created_at value) in
  Ok (mkContract (felt_from_bytes (p_contract_contract_address value))
    (contract_type_accessor (p_contract_contract_type value)) (p_contract_head value) (p_contract_tps value)
    (p_contract_last_block_timestamp value) (felt_from_bytes <$> (p_contract_last_pending_block_tx value))
    contract_updated_at contract_created_at).

(** [Controller] *)
Record Controller : Type := mkController {
  controller_address : Felt; controller_username : string; controller_deployed_at : DateTime
}.
Record PController : Type := mkPController {
  p_controller_address : Bytes; p_controller_username : string; p_controller_deployed_at_timestamp : Z
}.
Definition controller_into (value : Controller) : PController :=
  mkPController (felt_to_bytes (controller_address value)) (controller_username value)
  (time_to_u64 (controller_deployed_at value)).
Definition controller_try_from `{Chrono} (value : PController) : outcome ProtoError Controller :=
  let? controller_deployed_at := time_from_u64 (p_controller_deployed_at_timestamp value) in
  Ok (mkController (felt_from_bytes (p_controller_address value)) (p_controller_username value) controller_deployed_at).

(** [Token] *)
Record Token : Type := mkToken {
  token_token_id : option U256; token_contract_address : Felt; token_name : string; token_symbol : string;
  token_decimals : Z; token_metadata : string; token_total_supply : option U256
}.
Record PToken : Type := mkPToken {
  p_token_token_id : option Bytes; p_token_contract_address : Bytes; p_token_name : string; p_token_symbol : string;
  p_token_decimals : Z; p_token_metadata : Bytes; p_token_total_supply : option Bytes
}.
Definition token_into (value : Token) : PToken :=
  mkPToken (u256_to_bytes <$> (token_token_id value)) (felt_to_bytes (token_contract_address value))
  (token_name value) (token_symbol value) (token_decimals value) (string_bytes (token_metadata value))
  (u256_to_bytes <$> (token_total_supply value)).
Definition token_try_from (value : PToken) : outcome ProtoError Token :=
  let? token_token_id := outcome_option u256_from_slice (p_token_token_id value) in
  let? token_metadata := from_utf8 (p_token_metadata value) in
  let? token_total_supply := outcome_option u256_from_slice (p_token_total_supply value) in
  Ok (mkToken token_token_id (felt_from_bytes (p_token_contract_address value)) (p_token_name value)
    (p_token_symbol value) (wrap_u 8 (p_token_decimals value)) token_metadata token_total_supply).

(** [TokenContract] *)
Record TokenContract : Type := mkTokenContract {
  tcontract_contract_address : Felt; tcontract_type : ContractType; tcontract_name : string;
  tcontract_symbol : string; tcontract_decimals : Z; tcontract_metadata : string; tcontract_token_metadata : string;
  tcontract_total_supply : option U256; tcontract_traits : string
}.
Record PTokenContract : Type := mkPTokenContract {
  p_tcontract_contract_address : Bytes; p_tcontract_contract_type : Z; p_tcontract_name : string;
  p_tcontract_symbol : string; p_tcontract_decimals : Z; p_tcontract_metadata : Bytes;
  p_tcontract_total_supply : option Bytes; p_tcontract_traits : string; p_tcontract_token_metadata : Bytes
}.
Definition tcontract_into (value : TokenContract) : PTokenContract :=
  mkPTokenContract (felt_to_bytes (tcontract_contract_address value)) (contract_type_to_i32 (tcontract_type value))
  (tcontract_name value) (tcontract_symbol value) (tcontract_decimals value)
  (string_bytes (tcontract_metadata value)) (u256_to_bytes <$> (tcontract_total_supply value))
  (tcontract_traits value) (string_bytes (tcontract_token_metadata value)).
Definition tcontract_try_from (value : PTokenContract) : outcome ProtoError TokenContract :=
  let? tcontract_metadata := from_utf8 (p_tcontract_metadata value) in
  let? tcontract_total_supply := outcome_option u256_from_slice (p_tcontract_total_supply value) in
  let? tcontract_token_metadata := from_utf8 (p_tcontract_token_metadata value) in
  Ok (mkTokenContract (felt_from_bytes (p_tcontract_contract_address value))
    (contract_type_accessor (p_tcontract_contract_type value)) (p_tcontract_name value) (p_tcontract_symbol value)
    (wrap_u 8 (p_tcontract_decimals value)) tcontract_metadata tcontract_token_metadata tcontract_total_supply
    (p_tcontract_traits value)).

(** [TokenBalance] *)
Record TokenBalance : Type := mkTokenBalance {
  balance_balance : U256; balance_account_address : Felt; balance_contract_address : Felt;
  balance_token_id : option U256
}.
Record PTokenBalance : Type := mkPTokenBalance {
  p_balance_balance : Bytes; p_balance_account_address : Bytes; p_balance_contract_address : Bytes;
  p_balance_token_id : option Bytes
}.
Definition balance_into (value : TokenBalance) : PTokenBalance :=
  mkPTokenBalance (u256_to_bytes (balance_balance value)) (felt_to_bytes (balance_account_address value))
  (felt_to_bytes (balance_contract_address value)) (u256_to_bytes <$> (balance_token_id value)).
Definition balance_try_from (value : PTokenBalance) : outcome ProtoError TokenBalance :=
  let? balance_balance := u256_from_slice (p_balance_balance value) in
  let? balance_token_id := outcome_option u256_from_slice (p_balance_token_id value) in
  Ok (mkTokenBalance balance_balance (felt_from_bytes (p_balance_account_address value))
    (felt_from_bytes (p_balance_contract_address value)) balance_token_id).

(** [TokenTransfer] *)
Record TokenTransfer : Type := mkTokenTransfer {
  transfer_id : string; transfer_contract_address : Felt; transfer_from_address : Felt; transfer_to_address : Felt;
  transfer_amount : U256; transfer_token_id : option U256; transfer_executed_at : DateTime;
  transfer_event_id : option string
}.
Record PTokenTransfer : Type := mkPTokenTransfer {
  p_transfer_id : string; p_transfer_contract_address : Bytes; p_transfer_from_address : Bytes;
  p_transfer_to_address : Bytes; p_transfer_amount : Bytes; p_transfer_token_id : option Bytes;
  p_transfer_executed_at : Z; p_transfer_event_id : option string
}.
Definition transfer_into (value : TokenTransfer) : PTokenTransfer :=
  mkPTokenTransfer (transfer_id value) (felt_to_bytes (transfer_contract_address value))
  (felt_to_bytes (transfer_from_address value)) (felt_to_bytes (transfer_to_address value))
  (u256_to_bytes (transfer_amount value)) (u256_to_bytes <$> (transfer_token_id value))
  (time_to_u64 (transfer_executed_at value)) (transfer_event_id value).
Definition transfer_try_from `{Chrono} (value : PTokenTransfer) : outcome ProtoError TokenTransfer :=
  let? transfer_amount := u256_from_slice (p_transfer_amount value) in
  let? transfer_token_id := outcome_option u256_from_slice (p_transfer_token_id value) in
  let? transfer_executed_at := time_from_u64 (p_transfer_executed_at value) in
  Ok (mkTokenTransfer (p_transfer_id value) (felt_from_bytes (p_transfer_contract_address value))
    (felt_from_bytes (p_transfer_from_address value)) (felt_from_bytes (p_transfer_to_address value))
    transfer_amount transfer_token_id transfer_executed_at (p_transfer_event_id value)).

(** [AggregationEntry] *)
Record AggregationEntry : Type := mkAggregationEntry {
  aggregation_id : string; aggregation_aggregator_id : string; aggregation_entity_id : string;
  aggregation_value : U256; aggregation_display_value : string; aggregation_position : Z;
  aggregation_model_id : string; aggregation_created_at : DateTime; aggregation_updated_at : DateTime
}.
Record PAggregationEntry : Type := mkPAggregationEntry {
  p_aggregation_id : string; p_aggregation_aggregator_id : string; p_aggregation_entity_id : string;
  p_aggregation_value : Bytes; p_aggregation_display_value : string; p_aggregation_position : Z;
  p_aggregation_model_id : string; p_aggregation_created_at : string; p_aggregation_updated_at : string
}.
Definition aggregation_into `{Chrono} (value : AggregationEntry) : PAggregationEntry :=
  mkPAggregationEntry (aggregation_id value) (aggregation_aggregator_id value) (aggregation_entity_id value)
  (u256_to_bytes (aggregation_value value)) (aggregation_display_value value) (aggregation_position value)
  (aggregation_model_id value) (to_rfc3339 (aggregation_created_at value))
  (to_rfc3339 (aggregation_updated_at value)).
Definition aggregation_try_from `{Chrono} (value : PAggregationEntry) : outcome ProtoError AggregationEntry :=
  let? aggregation_value := u256_from_slice (p_aggregation_value value) in
  let? aggregation_created_at := time_from_text (p_aggregation_created_at value) in
  let? aggregation_updated_at := time_from_text (p_aggregation_updated_at value) in
  Ok (mkAggregationEntry (p_aggregation_id value) (p_aggregation_aggregator_id value) (p_aggregation_entity_id value)
    aggregation_value (p_aggregation_display_value value) (p_aggregation_position value)
    (p_aggregation_model_id value) aggregation_created_at aggregation_updated_at).

(** [Event] *)
Record Event : Type := mkEvent {
  event_keys : list Felt; event_data : list Felt; event_transaction_hash : Felt
}.
Record PEvent : Type := mkPEvent {
  p_event_keys : list Bytes; p_event_data : list Bytes; p_event_transaction_hash : Bytes
}.
Definition event_into (value : Event) : PEvent :=
  mkPEvent (felt_to_bytes <$> (event_keys value)) (felt_to_bytes <$> (event_data value))
  (felt_to_bytes (event_transaction_hash value)).
Definition event_from (value : PEvent) : Event :=
  mkEvent (felt_from_bytes <$> (p_event_keys value)) (felt_from_bytes <$> (p_event_data value))
  (felt_from_bytes (p_event_transaction_hash value)).

(** [TransactionCall] *)
Record TransactionCall : Type := mkTransactionCall {
  call_contract_address : Felt; call_entrypoint : string; call_calldata : list Felt; call_call_type : CallType;
  call_caller_address : Felt
}.
Record PTransactionCall : Type := mkPTransactionCall {
  p_call_contract_address : Bytes; p_call_entrypoint : string; p_call_calldata : list Bytes; p_call_call_type : Z;
  p_call_caller_address : Bytes
}.
Definition call_into (value : TransactionCall) : PTransactionCall :=
  mkPTransactionCall (felt_to_bytes (call_contract_address value)) (call_entrypoint value)
  (felt_to_bytes <$> (call_calldata value)) (call_type_to_i32 (call_call_type value))
  (felt_to_bytes (call_caller_address value)).
Definition call_try_from (value : PTransactionCall) : outcome ProtoError TransactionCall :=
  Ok (mkTransactionCall (felt_from_bytes (p_call_contract_address value)) (p_call_entrypoint value)
    (felt_from_bytes <$> (p_call_calldata value)) (call_type_accessor (p_call_call_type value))
    (felt_from_bytes (p_call_caller_address value))).

(** [Transaction] *)
Record Transaction : Type := mkTransaction {
  tx_transaction_hash : Felt; tx_sender_address : Felt; tx_calldata : list Felt; tx_max_fee : Felt;
  tx_signature : list Felt; tx_nonce : Felt; tx_block_number : Z; tx_transaction_type : string;
  tx_block_timestamp : DateTime; tx_calls : list TransactionCall; tx_unique_models : list Felt
}.
Record PTransaction : Type := mkPTransaction {
  p_tx_transaction_hash : Bytes; p_tx_sender_address : Bytes; p_tx_calldata : list Bytes; p_tx_max_fee : Bytes;
  p_tx_signature : list Bytes; p_tx_nonce : Bytes; p_tx_block_number : Z; p_tx_transaction_type : string;
  p_tx_block_timestamp : Z; p_tx_calls : list PTransactionCall; p_tx_unique_models : list Bytes
}.
Definition tx_into (value : Transaction) : PTransaction :=
  mkPTransaction (felt_to_bytes (tx_transaction_hash value)) (felt_to_bytes (tx_sender_address value))
  (felt_to_bytes <$> (tx_calldata value)) (felt_to_bytes (tx_max_fee value))
  (felt_to_bytes <$> (tx_signature value)) (felt_to_bytes (tx_nonce value)) (tx_block_number value)
  (tx_transaction_type value) (time_to_u64 (tx_block_timestamp value)) (call_into <$> (tx_calls value))
  (felt_to_bytes <$> (tx_unique_models value)).
Definition tx_try_from `{Chrono} (value : PTransaction) : outcome ProtoError Transaction :=
  let? tx_block_timestamp := time_from_u64 (p_tx_block_timestamp value) in
  let? tx_calls := outcome_mapM call_try_from (p_tx_calls value) in
  Ok (mkTransaction (felt_from_bytes (p_tx_transaction_hash value)) (felt_from_bytes (p_tx_sender_address value))
    (felt_from_bytes <$> (p_tx_calldata value)) (felt_from_bytes (p_tx_max_fee value))
    (felt_from_bytes <$> (p_tx_signature value)) (felt_from_bytes (p_tx_nonce value)) (p_tx_block_number value)
    (p_tx_transaction_type value) tx_block_timestamp tx_calls (felt_from_bytes <$> (p_tx_unique_models value))).

(** [Activity] *)
Record Activity : Type := mkActivity {
  activity_id : string; activity_world_address : Felt; activity_namespace : string; activity_caller_address : Felt;
  activity_session_start : DateTime; activity_session_end : DateTime; activity_action_count : Z;
  activity_actions : gmap string Z; activity_updated_at : DateTime
}.
Record PActivity : Type := mkPActivity {
  p_activity_id : string; p_activity_world_address : Bytes; p_activity_namespace : string;
  p_activity_caller_address : Bytes; p_activity_session_start : Z; p_activity_session_end : Z;
  p_activity_action_count : Z; p_activity_actions : gmap string Z; p_activity_updated_at : Z
}.
Definition activity_into (value : Activity) : PActivity :=
  mkPActivity (activity_id value) (felt_to_bytes (activity_world_address value)) (activity_namespace value)
  (felt_to_bytes (activity_caller_address value)) (time_to_u64 (activity_session_start value))
  (time_to_u64 (activity_session_end value)) (activity_action_count value) (activity_actions value)
  (time_to_u64 (activity_updated_at value)).
Definition activity_try_from `{Chrono} (value : PActivity) : outcome ProtoError Activity :=
  let? activity_session_start := time_from_u64 (p_activity_session_start value) in
  let? activity_session_end := time_from_u64 (p_activity_session_end value) in
  let? activity_updated_at := time_from_u64 (p_activity_updated_at value) in
  Ok (mkActivity (p_activity_id value) (felt_from_bytes (p_activity_world_address value)) (p_activity_namespace value)
    (felt_from_bytes (p_activity_caller_address value)) activity_session_start activity_session_end
    (p_activity_action_count value) (p_activity_actions value) activity_updated_at).

(** [AchievementTask] *)
Record AchievementTask : Type := mkAchievementTask {
  task_task_id : string; task_description : string; task_total : Z; task_total_completions : Z;
  task_completion_rate : F64; task_created_at : DateTime
}.
Record PAchievementTask : Type := mkPAchievementTask {
  p_task_task_id : string; p_task_description : string; p_task_total : Z; p_task_total_completions : Z;
  p_task_completion_rate : F64; p_task_created_at : Z
}.
Definition task_into (value : AchievementTask) : PAchievementTask :=
  mkPAchievementTask (task_task_id value) (task_description value) (task_total value) (task_total_completions value)
  (task_completion_rate value) (time_to_u64 (task_created_at value)).
Definition task_try_from `{Chrono} (value : PAchievementTask) : outcome ProtoError AchievementTask :=
  let? task_created_at := time_from_u64 (p_task_created_at value) in
  Ok (mkAchievementTask (p_task_task_id value) (p_task_description value) (p_task_total value)
    (p_task_total_completions value) (p_task_completion_rate value) task_created_at).

(** [Achievement] *)
Record Achievement : Type := mkAchievement {
  achievement_id : string; achievement_world_address : Felt; achievement_namespace : string;
  achievement_entity_id : string; achievement_hidden : bool; achievement_index : Z; achievement_points : Z;
  achievement_start : string; achievement_end : string; achievement_group : string; achievement_icon : string;
  achievement_title : string; achievement_description : string; achievement_tasks : list AchievementTask;
  achievement_data : option string; achievement_total_completions : Z; achievement_completion_rate : F64;
  achievement_created_at : DateTime; achievement_updated_at : DateTime
}.
Record PAchievement : Type := mkPAchievement {
  p_achievement_id : string; p_achievement_world_address : Bytes; p_achievement_namespace : string;
  p_achievement_entity_id : string; p_achievement_hidden : bool; p_achievement_index : Z; p_achievement_points : Z;
  p_achievement_start : string; p_achievement_end : string; p_achievement_group : string;
  p_achievement_icon : string; p_achievement_title : string; p_achievement_description : string;
  p_achievement_tasks : list PAchievementTask; p_achievement_data : option string;
  p_achievement_total_completions : Z; p_achievement_completion_rate : F64; p_achievement_created_at : Z;
  p_achievement_updated_at : Z
}.
Definition achievement_into (value : Achievement) : PAchievement :=
  mkPAchievement (achievement_id value) (felt_to_bytes (achievement_world_address value))
  (achievement_namespace value) (achievement_entity_id value) (achievement_hidden value) (achievement_index value)
  (achievement_points value) (achievement_start value) (achievement_end value) (achievement_group value)
  (achievement_icon value) (achievement_title value) (achievement_description value)
  (task_into <$> (achievement_tasks value)) (achievement_data value) (achievement_total_completions value)
  (achievement_completion_rate value) (time_to_u64 (achievement_created_at value))
  (time_to_u64 (achievement_updated_at value)).
Definition achievement_try_from `{Chrono} (value : PAchievement) : outcome ProtoError Achievement :=
  let? achievement_tasks := outcome_mapM task_try_from (p_achievement_tasks value) in
  let? achievement_created_at := time_from_u64 (p_achievement_created_at value) in
  let? achievement_updated_at := time_from_u64 (p_achievement_updated_at value) in
  Ok (mkAchievement (p_achievement_id value) (felt_from_bytes (p_achievement_world_address value))
    (p_achievement_namespace value) (p_achievement_entity_id value) (p_achievement_hidden value)
    (p_achievement_index value) (p_achievement_points value) (p_achievement_start value) (p_achievement_end value)
    (p_achievement_group value) (p_achievement_icon value) (p_achievement_title value)
    (p_achievement_description value) achievement_tasks (p_achievement_data value)
    (p_achievement_total_completions value) (p_achievement_completion_rate value) achievement_created_at
    achievement_updated_at).

(** [AchievementProgression] *)
Record AchievementProgression : Type := mkAchievementProgression {
  progression_id : string; progression_achievement_id : string; progression_task_id : string;
  progression_world_address : Felt; progression_namespace : string; progression_player_id : Felt;
  progression_count : Z; progression_completed : bool; progression_completed_at : option DateTime;
  progression_created_at : DateTime; progression_updated_at : DateTime
}.
Record PAchievementProgression : Type := mkPAchievementProgression {
  p_progression_id : string; p_progression_achievement_id : string; p_progression_task_id : string;
  p_progression_world_address : Bytes; p_progression_namespace : string; p_progression_player_id : Bytes;
  p_progression_count : Z; p_progression_completed : bool; p_progression_completed_at : option Z;
  p_progression_created_at : Z; p_progression_updated_at : Z
}.
Definition progression_into (value : AchievementProgression) : PAchievementProgression :=
  mkPAchievementProgression (progression_id value) (progression_achievement_id value) (progression_task_id value)
  (felt_to_bytes (progression_world_address value)) (progression_namespace value)
  (felt_to_bytes (progression_player_id value)) (progression_count value) (progression_completed value)
  (time_to_u64 <$> (progression_completed_at value)) (time_to_u64 (progression_created_at value))
  (time_to_u64 (progression_updated_at value)).
Definition progression_try_from `{Chrono} (value : PAchievementProgression) : outcome ProtoError AchievementProgression :=
  let? progression_completed_at := outcome_option time_from_u64 (p_progression_completed_at value) in
  let? progression_created_at := time_from_u64 (p_progression_created_at value) in
  let? progression_updated_at := time_from_u64 (p_progression_updated_at value) in
  Ok (mkAchievementProgression (p_progression_id value) (p_progression_achievement_id value)
    (p_progression_task_id value) (felt_from_bytes (p_progression_world_address value))
    (p_progression_namespace value) (felt_from_bytes (p_progression_player_id value)) (p_progression_count value)
    (p_progression_completed value) progression_completed_at progression_created_at progression_updated_at).

(** [PlayerAchievementStats] *)
Record PlayerAchievementStats : Type := mkPlayerAchievementStats {
  stats_total_points : Z; stats_completed_achievements : Z; stats_total_achievements : Z;
  stats_completion_percentage : F64; stats_last_achievement_at : option DateTime; stats_created_at : DateTime;
  stats_updated_at : DateTime
}.
Record PPlayerAchievementStats : Type := mkPPlayerAchievementStats {
  p_stats_total_points : Z; p_stats_completed_achievements : Z; p_stats_total_achievements : Z;
  p_stats_completion_percentage : F64; p_stats_last_achievement_at : option Z; p_stats_created_at : Z;
  p_stats_updated_at : Z
}.
Definition stats_into (value : PlayerAchievementStats) : PPlayerAchievementStats :=
  mkPPlayerAchievementStats (stats_total_points value) (stats_completed_achievements value)
  (stats_total_achievements value) (stats_completion_percentage value)
  (time_to_u64 <$> (stats_last_achievement_at value)) (time_to_u64 (stats_created_at value))
  (time_to_u64 (stats_updated_at value)).
Definition stats_try_from `{Chrono} (value : PPlayerAchievementStats) : outcome ProtoError PlayerAchievementStats :=
  let? stats_last_achievement_at := outcome_option time_from_u64 (p_stats_last_achievement_at value) in
  let? stats_created_at := time_from_u64 (p_stats_created_at value) in
  let? stats_updated_at := time_from_u64 (p_stats_updated_at value) in
  Ok (mkPlayerAchievementStats (p_stats_total_points value) (p_stats_completed_achievements value)
    (p_stats_total_achievements value) (p_stats_completion_percentage value) stats_last_achievement_at
    stats_created_at stats_updated_at).

(** [TaskProgress] *)
Record TaskProgress : Type := mkTaskProgress {
  progress_task_id : string; progress_count : Z; progress_completed : bool
}.
Record PTaskProgress : Type := mkPTaskProgress {
  p_progress_task_id : string; p_progress_count : Z; p_progress_completed : bool
}.
Definition progress_into (value : TaskProgress) : PTaskProgress :=
  mkPTaskProgress (progress_task_id value) (progress_count value) (progress_completed value).
Definition progress_from (value : PTaskProgress) : TaskProgress :=
  mkTaskProgress (p_progress_task_id value) (p_progress_count value) (p_progress_completed value).

(** [PlayerAchievementProgress] *)
Record PlayerAchievementProgress : Type := mkPlayerAchievementProgress {
  pap_achievement : Achievement; pap_task_progress : list TaskProgress; pap_completed : bool;
  pap_progress_percentage : F64
}.
Record PPlayerAchievementProgress : Type := mkPPlayerAchievementProgress {
  p_pap_achievement : option PAchievement; p_pap_task_progress : list PTaskProgress; p_pap_completed : bool;
  p_pap_progress_percentage : F64
}.
Definition pap_into (value : PlayerAchievementProgress) : PPlayerAchievementProgress :=
  mkPPlayerAchievementProgress (Some (achievement_into (pap_achievement value)))
  (progress_into <$> (pap_task_progress value)) (pap_completed value) (pap_progress_percentage value).
Definition pap_try_from `{Chrono} (value : PPlayerAchievementProgress) : outcome ProtoError PlayerAchievementProgress :=
  let? pap_achievement := (let? v := unwrap (p_pap_achievement value) in achievement_try_from v) in
  Ok (mkPlayerAchievementProgress pap_achievement (progress_from <$> (p_pap_task_progress value))
    (p_pap_completed value) (p_pap_progress_percentage value)).

(** [PlayerAchievementEntry] *)
Record PlayerAchievementEntry : Type := mkPlayerAchievementEntry {
  entry_player_address : Felt; entry_stats : PlayerAchievementStats;
  entry_achievements : list PlayerAchievementProgress
}.
Record PPlayerAchievementEntry : Type := mkPPlayerAchievementEntry {
  p_entry_player_address : Bytes; p_entry_stats : option PPlayerAchievementStats;
  p_entry_achievements : list PPlayerAchievementProgress
}.
Definition entry_into (value : PlayerAchievementEntry) : PPlayerAchievementEntry :=
  mkPPlayerAchievementEntry (felt_to_bytes (entry_player_address value)) (Some (stats_into (entry_stats value)))
  (pap_into <$> (entry_achievements value)).
Definition entry_try_from `{Chrono} (value : PPlayerAchievementEntry) : outcome ProtoError PlayerAchievementEntry :=
  let? entry_stats := (let? v := unwrap (p_entry_stats value) in stats_try_from v) in
  let? entry_achievements := outcome_mapM pap_try_from (p_entry_achievements value) in
  Ok (mkPlayerAchievementEntry (felt_from_bytes (p_entry_player_address value)) entry_stats entry_achievements).

(** [SearchMatch] *)
Record SearchMatch : Type := mkSearchMatch {
  match__id : string; match__fields : gmap string string; match__score : option F64
}.
Record PSearchMatch : Type := mkPSearchMatch {
  p_match__id : string; p_match__fields : gmap string string; p_match__score : option F64
}.
Definition match__into (value : SearchMatch) : PSearchMatch :=
  mkPSearchMatch (match__id value) (match__fields value) (match__score value).
Definition match__from (value : PSearchMatch) : SearchMatch :=
  mkSearchMatch (p_match__id value) (p_match__fields value) (p_match__score value).

(** [TableSearchResults] *)
Record TableSearchResults : Type := mkTableSearchResults {
  table_table : string; table_count : Z; table_matches : list SearchMatch
}.
Record PTableSearchResults : Type := mkPTableSearchResults {
  p_table_table : string; p_table_count : Z; p_table_matches : list PSearchMatch
}.
Definition table_into (value : TableSearchResults) : PTableSearchResults :=
  mkPTableSearchResults (table_table value) (table_count value) (match__into <$> (table_matches value)).
Definition table_from (value : PTableSearchResults) : TableSearchResults :=
  mkTableSearchResults (p_table_table value) (p_table_count value) (match__from <$> (p_table_matches value)).

(** [SearchResponse] *)
Record SearchResponse : Type := mkSearchResponse {
  response_total : Z; response_results : list TableSearchResults
}.
Record PSearchResponse : Type := mkPSearchResponse {
  p_response_total : Z; p_response_results : list PTableSearchResults
}.
Definition response_into (value : SearchResponse) : PSearchResponse :=
  mkPSearchResponse (response_total value) (table_into <$> (response_results value)).
Definition response_from (value : PSearchResponse) : SearchResponse :=
  mkSearchResponse (p_response_total value) (table_from <$> (p_response_results value)).

(** [EventWithMetadata] *)
Record EventWithMetadata : Type := mkEventWithMetadata {
  ewm_id : string; ewm_event : Event; ewm_created_at : DateTime; ewm_executed_at : DateTime
}.

(** [From<Contract> for ContractCursor], [From<Contract> for ContractDefinition] *)
Definition contract_cursor (c : Contract) : ContractCursor :=
  mkCursor (contract_contract_address c) (contract_head c) (contract_last_block_timestamp c)
    (contract_last_pending_block_tx c).
Record ContractDefinition : Type := mkContractDefinition {
  definition_address : Felt; definition_type : ContractType; definition_starting_block : option Z
}.
Definition contract_definition (c : Contract) : ContractDefinition :=
  mkContractDefinition (contract_contract_address c) (contract_contract_type c) (contract_head c).

(** ** Models and worlds *)

(** [serde_json] on the schema and the layout of a model *)
Class SerdeJson : Type := {
  Layout : Type;
  ty_to_vec : DTy → option Bytes;
  ty_from_slice : Bytes → option DTy;
  layout_to_vec : Layout → option Bytes;
  layout_from_slice : Bytes → option Layout
}.
Record Model `{SerdeJson} : Type := mkModel {
  model_world_address : Felt; model_namespace : string; model_name : string; model_selector : Felt;
  model_class_hash : Felt; model_contract_address : Felt; model_packed_size : Z; model_unpacked_size : Z;
  model_layout : Layout; model_schema : DTy; model_use_legacy_store : bool
}.
Record PModel : Type := mkPModel {
  p_model_selector : Bytes; p_model_namespace : string; p_model_name : string; p_model_packed_size : Z;
  p_model_unpacked_size : Z; p_model_class_hash : Bytes; p_model_layout : Bytes; p_model_schema : Bytes;
  p_model_contract_address : Bytes; p_model_use_legacy_store : bool; p_model_world_address : Bytes
}.
Definition model_try_from `{SerdeJson} (value : PModel) : outcome ProtoError Model :=
  let? schema := ok_or FromJson (ty_from_slice (p_model_schema value)) in
  let? layout := ok_or FromJson (layout_from_slice (p_model_layout value)) in
  Ok (mkModel _ (felt_from_bytes (p_model_world_address value)) (p_model_namespace value) (p_model_name value)
        (felt_from_bytes (p_model_selector value)) (felt_from_bytes (p_model_class_hash value))
        (felt_from_bytes (p_model_contract_address value)) (p_model_packed_size value) (p_model_unpacked_size value)
        layout schema (p_model_use_legacy_store value)).
Definition model_into `{SerdeJson} (value : Model) : outcome ProtoError PModel :=
  let? layout := unwrap (layout_to_vec (model_layout value)) in
  let? schema := unwrap (ty_to_vec (model_schema value)) in
  Ok (mkPModel (felt_to_bytes (model_selector value)) (model_namespace value) (model_name value)
        (model_packed_size value) (model_unpacked_size value) (felt_to_bytes (model_class_hash value)) layout schema
        (felt_to_bytes (model_contract_address value)) (model_use_legacy_store value)
        (felt_to_bytes (model_world_address value))).

Record World `{SerdeJson} : Type := mkWorld { world_world_address : Felt; world_models : gmap Felt Model }.
Record PWorld : Type := mkPWorld { p_world_address : string; p_world_models : list PModel }.
(** [collect::<Result<HashMap<_, Model>, _>>()]: a later model replaces an earlier one *)
Definition world_try_from `{SerdeJson, SqlString.FeltFromStr} (value : PWorld) : outcome ProtoError World :=
  let? models := outcome_mapM (λ component, let? m := model_try_from component in
                                 Ok (felt_from_bytes (p_model_selector component), m)) (p_world_models value) in
  let? world_address := ok_or FromStr (SqlString.felt_from_str (p_world_address value)) in
  Ok (mkWorld _ world_address (foldl (λ m '(k, v), <[k := v]> m) ∅ models)).

(** ** Clauses *)
Record KeysClause : Type := mkKeysClause {
  clause_keys : list (option Felt); clause_pattern_matching : PatternMatching; clause_models : list string
}.
Record PKeysClause : Type := mkPKeysClause {
  p_clause_keys : list Bytes; p_clause_pattern_matching : Z; p_clause_models : list string
}.
Definition key_into (k : option Felt) : Bytes := match k with Some k => felt_to_bytes k | None => [] end.
Definition key_from (k : Bytes) : option Felt := match k with [] => None | _ => Some (felt_from_bytes k) end.
Definition keys_clause_into (value : KeysClause) : PKeysClause :=
  mkPKeysClause (key_into <$> clause_keys value) (pattern_to_i32 (clause_pattern_matching value)) (clause_models value).
Definition keys_clause_from (value : PKeysClause) : KeysClause :=
  mkKeysClause (key_from <$> p_clause_keys value) (pattern_accessor (p_clause_pattern_matching value))
    (p_clause_models value).

#[local] Set Warnings "-register-all".
Inductive MemberValue : Type :=
| MemberPrimitive (p : Prim) | MemberString (s : string) | MemberList (l : list MemberValue).
(** [types.MemberValue], [PMemberMissing] without a [value_type] *)
Inductive PMemberValue : Type :=
| PMemberMissing | PMemberPrimitive (p : option PrimitiveType) | PMemberString (s : string)
| PMemberList (l : list PMemberValue).
Fixpoint member_value_into (value : MemberValue) : PMemberValue :=
  match value with
  | MemberPrimitive p => PMemberPrimitive (primitive_into p)
  | MemberString s => PMemberString s
  | MemberList l => PMemberList (member_value_into <$> l)
  end.
Fixpoint member_value_try_from (value : PMemberValue) : outcome ProtoError MemberValue :=
  match value with
  | PMemberMissing => Err (MissingExpectedData "value_type")
  | PMemberPrimitive p => let? p := primitive_try_from p in Ok (MemberPrimitive p)
  | PMemberString s => Ok (MemberString s)
  | PMemberList l => let? l := outcome_mapM member_value_try_from l in Ok (MemberList l)
  end.

Record MemberClause : Type := mkMemberClause {
  member_model : string; member_member : string; member_operator : ComparisonOperator; member_value : MemberValue
}.
Record PMemberClause : Type := mkPMemberClause {
  p_member_model : string; p_member_member : string; p_member_operator : Z; p_member_value : option PMemberValue
}.
Definition member_clause_into (value : MemberClause) : PMemberClause :=
  mkPMemberClause (member_model value) (member_member value) (comparison_to_i32 (member_operator value))
    (Some (member_value_into (member_value value))).
Definition member_clause_try_from (value : PMemberClause) : outcome ProtoError MemberClause :=
  let operator := comparison_accessor (p_member_operator value) in
  let? v := ok_or (MissingExpectedData "value") (p_member_value value) in
  let? v := member_value_try_from v in
  Ok (mkMemberClause (p_member_model value) (p_member_member value) operator v).

Inductive Clause : Type :=
| HashedKeys (hashed_keys : list Felt)
| Keys (clause : KeysClause)
| Member (clause : MemberClause)
| Composite (operator : LogicalOperator) (clauses : list Clause).
(** [types.Clause], [PClauseMissing] without a [clause_type] *)
Inductive PClause : Type :=
| PClauseMissing
| PHashedKeys (hashed_keys : list Bytes)
| PKeys (clause : PKeysClause)
| PMember (clause : PMemberClause)
| PComposite (operator : Z) (clauses : list PClause).
Fixpoint clause_into (value : Clause) : PClause :=
  match value with
  | HashedKeys hashed_keys => PHashedKeys (felt_to_bytes <$> hashed_keys)
  | Keys clause => PKeys (keys_clause_into clause)
  | Member clause => PMember (member_clause_into clause)
  | Composite operator clauses => PComposite (logical_to_i32 operator) (clause_into <$> clauses)
  end.
Fixpoint clause_try_from (value : PClause) : outcome ProtoError Clause :=
  match value with
  | PClauseMissing => Err (MissingExpectedData "clause_type")
  | PHashedKeys hashed_keys => Ok (HashedKeys (felt_from_bytes <$> hashed_keys))
  | PKeys clause => Ok (Keys (keys_clause_from clause))
  | PMember clause => let? clause := member_clause_try_from clause in Ok (Member clause)
  | PComposite operator clauses =>
      let? clauses := outcome_mapM clause_try_from clauses in Ok (Composite (logical_accessor operator) clauses)
  end.

(** ** Queries *)
Record Query : Type := mkQuery {
  query_clause : option Clause; query_pagination : Pagination; query_no_hashed_keys : bool; query_models : list string;
  query_historical : bool; query_world_addresses : list Felt
}.
Record PQuery : Type := mkPQuery {
  p_query_clause : option PClause; p_query_no_hashed_keys : bool; p_query_models : list string;
  p_query_pagination : option PPagination; p_query_historical : bool; p_query_world_addresses : list Bytes
}.
Definition query_try_from (value : PQuery) : outcome ProtoError Query :=
  let? clause := outcome_option clause_try_from (p_query_clause value) in
  let? pagination := pagination_or_default (p_query_pagination value) in
  Ok (mkQuery clause pagination (p_query_no_hashed_keys value) (p_query_models value) (p_query_historical value)
        (felt_from_bytes <$> p_query_world_addresses value)).
Definition query_into (value : Query) : PQuery :=
  mkPQuery (clause_into <$> query_clause value) (query_no_hashed_keys value) (query_models value)
    (Some (pagination_into (query_pagination value))) (query_historical value)
    (felt_to_bytes <$> query_world_addresses value).

(** [EventQuery]: [From] both ways *)
Record EventQuery : Type := mkEventQuery { event_query_keys : option KeysClause; event_query_pagination : Pagination }.
Record PEventQuery : Type := mkPEventQuery {
  p_event_query_keys : option PKeysClause; p_event_query_pagination : option PPagination
}.
Definition event_query_into (value : EventQuery) : PEventQuery :=
  mkPEventQuery (keys_clause_into <$> event_query_keys value) (Some (pagination_into (event_query_pagination value))).
Definition event_query_from (value : PEventQuery) : outcome ProtoError EventQuery :=
  let? pagination := pagination_or_default (p_event_query_pagination value) in
  Ok (mkEventQuery (keys_clause_from <$> p_event_query_keys value) pagination).

(** [TokenTransferQuery] *)
Record TokenTransferQuery : Type := mkTokenTransferQuery {
  transfer_query_account_addresses : list Felt; transfer_query_contract_addresses : list Felt;
  transfer_query_token_ids : list U256; transfer_query_pagination : Pagination
}.
Record PTokenTransferQuery : Type := mkPTokenTransferQuery {
  p_transfer_query_account_addresses : list Bytes; p_transfer_query_contract_addresses : list Bytes;
  p_transfer_query_token_ids : list Bytes; p_transfer_query_pagination : option PPagination
}.
Definition transfer_query_into (value : TokenTransferQuery) : PTokenTransferQuery :=
  mkPTokenTransferQuery (felt_to_bytes <$> (transfer_query_account_addresses value))
  (felt_to_bytes <$> (transfer_query_contract_addresses value)) (u256_to_bytes <$> (transfer_query_token_ids value))
  (Some (pagination_into (transfer_query_pagination value))).
Definition transfer_query_try_from (value : PTokenTransferQuery) : outcome ProtoError TokenTransferQuery :=
  let? transfer_query_token_ids := outcome_mapM u256_from_slice (p_transfer_query_token_ids value) in
  let? transfer_query_pagination := pagination_or_default (p_transfer_query_pagination value) in
  Ok (mkTokenTransferQuery (felt_from_bytes <$> (p_transfer_query_account_addresses value))
    (felt_from_bytes <$> (p_transfer_query_contract_addresses value)) transfer_query_token_ids
    transfer_query_pagination).

(** [ControllerQuery] *)
Record ControllerQuery : Type := mkControllerQuery {
  controller_query_contract_addresses : list Felt; controller_query_usernames : list string;
  controller_query_pagination : Pagination
}.
Record PControllerQuery : Type := mkPControllerQuery {
  p_controller_query_contract_addresses : list Bytes; p_controller_query_usernames : list string;
  p_controller_query_pagination : option PPagination
}.
Definition controller_query_into (value : ControllerQuery) : PControllerQuery :=
  mkPControllerQuery (felt_to_bytes <$> (controller_query_contract_addresses value))
  (controller_query_usernames value) (Some (pagination_into (controller_query_pagination value))).
Definition controller_query_try_from (value : PControllerQuery) : outcome ProtoError ControllerQuery :=
  let? controller_query_pagination := pagination_or_default (p_controller_query_pagination value) in
  Ok (mkControllerQuery (felt_from_bytes <$> (p_controller_query_contract_addresses value))
    (p_controller_query_usernames value) controller_query_pagination).

(** [TokenAttributeFilter] *)
Record TokenAttributeFilter : Type := mkTokenAttributeFilter {
  attribute_filter_trait_name : string; attribute_filter_trait_value : string
}.
Record PTokenAttributeFilter : Type := mkPTokenAttributeFilter {
  p_attribute_filter_trait_name : string; p_attribute_filter_trait_value : string
}.
Definition attribute_filter_into (value : TokenAttributeFilter) : PTokenAttributeFilter :=
  mkPTokenAttributeFilter (attribute_filter_trait_name value) (attribute_filter_trait_value value).
Definition attribute_filter_from (value : PTokenAttributeFilter) : TokenAttributeFilter :=
  mkTokenAttributeFilter (p_attribute_filter_trait_name value) (p_attribute_filter_trait_value value).

(** [TokenQuery] *)
Record TokenQuery : Type := mkTokenQuery {
  token_query_contract_addresses : list Felt; token_query_token_ids : list U256;
  token_query_attribute_filters : list TokenAttributeFilter; token_query_pagination : Pagination
}.
Record PTokenQuery : Type := mkPTokenQuery {
  p_token_query_contract_addresses : list Bytes; p_token_query_token_ids : list Bytes;
  p_token_query_attribute_filters : list PTokenAttributeFilter; p_token_query_pagination : option PPagination
}.
Definition token_query_into (value : TokenQuery) : PTokenQuery :=
  mkPTokenQuery (felt_to_bytes <$> (token_query_contract_addresses value))
  (u256_to_bytes <$> (token_query_token_ids value))
  (attribute_filter_into <$> (token_query_attribute_filters value))
  (Some (pagination_into (token_query_pagination value))).
Definition token_query_try_from (value : PTokenQuery) : outcome ProtoError TokenQuery :=
  let? token_query_token_ids := outcome_mapM u256_from_slice (p_token_query_token_ids value) in
  let? token_query_pagination := pagination_or_default (p_token_query_pagination value) in
  Ok (mkTokenQuery (felt_from_bytes <$> (p_token_query_contract_addresses value)) token_query_token_ids
    (attribute_filter_from <$> (p_token_query_attribute_filters value)) token_query_pagination).

(** [TokenBalanceQuery] *)
Record TokenBalanceQuery : Type := mkTokenBalanceQuery {
  balance_query_account_addresses : list Felt; balance_query_contract_addresses : list Felt;
  balance_query_token_ids : list U256; balance_query_pagination : Pagination
}.
Record PTokenBalanceQuery : Type := mkPTokenBalanceQuery {
  p_balance_query_account_addresses : list Bytes; p_balance_query_contract_addresses : list Bytes;
  p_balance_query_token_ids : list Bytes; p_balance_query_pagination : option PPagination
}.
Definition balance_query_into (value : TokenBalanceQuery) : PTokenBalanceQuery :=
  mkPTokenBalanceQuery (felt_to_bytes <$> (balance_query_account_addresses value))
  (felt_to_bytes <$> (balance_query_contract_addresses value)) (u256_to_bytes <$> (balance_query_token_ids value))
  (Some (pagination_into (balance_query_pagination value))).
Definition balance_query_try_from (value : PTokenBalanceQuery) : outcome ProtoError TokenBalanceQuery :=
  let? balance_query_token_ids := outcome_mapM u256_from_slice (p_balance_query_token_ids value) in
  let? balance_query_pagination := pagination_or_default (p_balance_query_pagination value) in
  Ok (mkTokenBalanceQuery (felt_from_bytes <$> (p_balance_query_account_addresses value))
    (felt_from_bytes <$> (p_balance_query_contract_addresses value)) balance_query_token_ids
    balance_query_pagination).

(** [TokenContractQuery] *)
Record TokenContractQuery : Type := mkTokenContractQuery {
  token_contract_query_contract_addresses : list Felt; token_contract_query_contract_types : list ContractType;
  token_contract_query_pagination : Pagination
}.
Record PTokenContractQuery : Type := mkPTokenContractQuery {
  p_token_contract_query_contract_addresses : list Bytes; p_token_contract_query_contract_types : list Z;
  p_token_contract_query_pagination : option PPagination
}.
Definition token_contract_query_into (value : TokenContractQuery) : PTokenContractQuery :=
  mkPTokenContractQuery (felt_to_bytes <$> (token_contract_query_contract_addresses value))
  (contract_type_to_i32 <$> (token_contract_query_contract_types value))
  (Some (pagination_into (token_contract_query_pagination value))).
Definition token_contract_query_try_from (value : PTokenContractQuery) : outcome ProtoError TokenContractQuery :=
  let? token_contract_query_contract_types := outcome_mapM contract_type_try_from (p_token_contract_query_contract_types value) in
  let? token_contract_query_pagination := pagination_or_default (p_token_contract_query_pagination value) in
  Ok (mkTokenContractQuery (felt_from_bytes <$> (p_token_contract_query_contract_addresses value))
    token_contract_query_contract_types token_contract_query_pagination).

(** [AggregationQuery] *)
Record AggregationQuery : Type := mkAggregationQuery {
  aggregation_query_aggregator_ids : list string; aggregation_query_entity_ids : list string;
  aggregation_query_pagination : Pagination
}.
Record PAggregationQuery : Type := mkPAggregationQuery {
  p_aggregation_query_aggregator_ids : list string; p_aggregation_query_entity_ids : list string;
  p_aggregation_query_pagination : option PPagination
}.
Definition aggregation_query_into (value : AggregationQuery) : PAggregationQuery :=
  mkPAggregationQuery (aggregation_query_aggregator_ids value) (aggregation_query_entity_ids value)
  (Some (pagination_into (aggregation_query_pagination value))).
Definition aggregation_query_try_from (value : PAggregationQuery) : outcome ProtoError AggregationQuery :=
  let? aggregation_query_pagination := pagination_or_default (p_aggregation_query_pagination value) in
  Ok (mkAggregationQuery (p_aggregation_query_aggregator_ids value) (p_aggregation_query_entity_ids value)
    aggregation_query_pagination).

(** [ContractQuery] *)
Record ContractQuery : Type := mkContractQuery {
  contract_query_contract_addresses : list Felt; contract_query_contract_types : list ContractType
}.
Record PContractQuery : Type := mkPContractQuery {
  p_contract_query_contract_addresses : list Bytes; p_contract_query_contract_types : list Z
}.
Definition contract_query_into (value : ContractQuery) : PContractQuery :=
  mkPContractQuery (felt_to_bytes <$> (contract_query_contract_addresses value))
  (contract_type_to_i32 <$> (contract_query_contract_types value)).
Definition contract_query_try_from (value : PContractQuery) : outcome ProtoError ContractQuery :=
  let? contract_query_contract_types := outcome_mapM contract_type_try_from (p_contract_query_contract_types value) in
  Ok (mkContractQuery (felt_from_bytes <$> (p_contract_query_contract_addresses value)) contract_query_contract_types).

(** [TransactionFilter] *)
Record TransactionFilter : Type := mkTransactionFilter {
  tx_filter_transaction_hashes : list Felt; tx_filter_caller_addresses : list Felt;
  tx_filter_contract_addresses : list Felt; tx_filter_entrypoints : list string;
  tx_filter_model_selectors : list Felt; tx_filter_from_block : option Z; tx_filter_to_block : option Z
}.
Record PTransactionFilter : Type := mkPTransactionFilter {
  p_tx_filter_transaction_hashes : list Bytes; p_tx_filter_caller_addresses : list Bytes;
  p_tx_filter_contract_addresses : list Bytes; p_tx_filter_entrypoints : list string;
  p_tx_filter_model_selectors : list Bytes; p_tx_filter_from_block : option Z; p_tx_filter_to_block : option Z
}.
Definition tx_filter_into (value : TransactionFilter) : PTransactionFilter :=
  mkPTransactionFilter (felt_to_bytes <$> (tx_filter_transaction_hashes value))
  (felt_to_bytes <$> (tx_filter_caller_addresses value)) (felt_to_bytes <$> (tx_filter_contract_addresses value))
  (tx_filter_entrypoints value) (felt_to_bytes <$> (tx_filter_model_selectors value)) (tx_filter_from_block value)
  (tx_filter_to_block value).
Definition tx_filter_try_from (value : PTransactionFilter) : outcome ProtoError TransactionFilter :=
  Ok (mkTransactionFilter (felt_from_bytes <$> (p_tx_filter_transaction_hashes value))
    (felt_from_bytes <$> (p_tx_filter_caller_addresses value))
    (felt_from_bytes <$> (p_tx_filter_contract_addresses value)) (p_tx_filter_entrypoints value)
    (felt_from_bytes <$> (p_tx_filter_model_selectors value)) (p_tx_filter_from_block value)
    (p_tx_filter_to_block value)).

(** [TransactionQuery] *)
Record TransactionQuery : Type := mkTransactionQuery {
  tx_query_filter : option TransactionFilter; tx_query_pagination : Pagination
}.
Record PTransactionQuery : Type := mkPTransactionQuery {
  p_tx_query_filter : option PTransactionFilter; p_tx_query_pagination : option PPagination
}.
Definition tx_query_into (value : TransactionQuery) : PTransactionQuery :=
  mkPTransactionQuery (tx_filter_into <$> (tx_query_filter value))
  (Some (pagination_into (tx_query_pagination value))).
Definition tx_query_try_from (value : PTransactionQuery) : outcome ProtoError TransactionQuery :=
  let? tx_query_filter := outcome_option tx_filter_try_from (p_tx_query_filter value) in
  let? tx_query_pagination := pagination_or_default (p_tx_query_pagination value) in
  Ok (mkTransactionQuery tx_query_filter tx_query_pagination).

(** [ActivityQuery] *)
Record ActivityQuery : Type := mkActivityQuery {
  activity_query_world_addresses : list Felt; activity_query_namespaces : list string;
  activity_query_caller_addresses : list Felt; activity_query_from_time : option DateTime;
  activity_query_to_time : option DateTime; activity_query_pagination : Pagination
}.
Record PActivityQuery : Type := mkPActivityQuery {
  p_activity_query_world_addresses : list Bytes; p_activity_query_namespaces : list string;
  p_activity_query_caller_addresses : list Bytes; p_activity_query_from_time : option Z;
  p_activity_query_to_time : option Z; p_activity_query_pagination : option PPagination
}.
Definition activity_query_into (value : ActivityQuery) : PActivityQuery :=
  mkPActivityQuery (felt_to_bytes <$> (activity_query_world_addresses value)) (activity_query_namespaces value)
  (felt_to_bytes <$> (activity_query_caller_addresses value)) (time_to_u64 <$> (activity_query_from_time value))
  (time_to_u64 <$> (activity_query_to_time value)) (Some (pagination_into (activity_query_pagination value))).
Definition activity_query_try_from `{Chrono} (value : PActivityQuery) : outcome ProtoError ActivityQuery :=
  let? activity_query_from_time := outcome_option time_from_u64 (p_activity_query_from_time value) in
  let? activity_query_to_time := outcome_option time_from_u64 (p_activity_query_to_time value) in
  let? activity_query_pagination := pagination_or_default (p_activity_query_pagination value) in
  Ok (mkActivityQuery (felt_from_bytes <$> (p_activity_query_world_addresses value))
    (p_activity_query_namespaces value) (felt_from_bytes <$> (p_activity_query_caller_addresses value))
    activity_query_from_time activity_query_to_time activity_query_pagination).

(** [AchievementQuery] *)
Record AchievementQuery : Type := mkAchievementQuery {
  achievement_query_world_addresses : list Felt; achievement_query_namespaces : list string;
  achievement_query_hidden : option bool; achievement_query_pagination : Pagination
}.
Record PAchievementQuery : Type := mkPAchievementQuery {
  p_achievement_query_world_addresses : list Bytes; p_achievement_query_namespaces : list string;
  p_achievement_query_hidden : option bool; p_achievement_query_pagination : option PPagination
}.
Definition achievement_query_into (value : AchievementQuery) : PAchievementQuery :=
  mkPAchievementQuery (felt_to_bytes <$> (achievement_query_world_addresses value))
  (achievement_query_namespaces value) (achievement_query_hidden value)
  (Some (pagination_into (achievement_query_pagination value))).
Definition achievement_query_try_from (value : PAchievementQuery) : outcome ProtoError AchievementQuery :=
  let? achievement_query_pagination := pagination_or_default (p_achievement_query_pagination value) in
  Ok (mkAchievementQuery (felt_from_bytes <$> (p_achievement_query_world_addresses value))
    (p_achievement_query_namespaces value) (p_achievement_query_hidden value) achievement_query_pagination).

(** [PlayerAchievementQuery] *)
Record PlayerAchievementQuery : Type := mkPlayerAchievementQuery {
  player_query_world_addresses : list Felt; player_query_namespaces : list string;
  player_query_player_addresses : list Felt; player_query_pagination : Pagination
}.
Record PPlayerAchievementQuery : Type := mkPPlayerAchievementQuery {
  p_player_query_world_addresses : list Bytes; p_player_query_namespaces : list string;
  p_player_query_player_addresses : list Bytes; p_player_query_pagination : option PPagination
}.
Definition player_query_into (value : PlayerAchievementQuery) : PPlayerAchievementQuery :=
  mkPPlayerAchievementQuery (felt_to_bytes <$> (player_query_world_addresses value)) (player_query_namespaces value)
  (felt_to_bytes <$> (player_query_player_addresses value)) (Some (pagination_into (player_query_pagination value))).
Definition player_query_try_from (value : PPlayerAchievementQuery) : outcome ProtoError PlayerAchievementQuery :=
  let? player_query_pagination := pagination_required (p_player_query_pagination value) in
  Ok (mkPlayerAchievementQuery (felt_from_bytes <$> (p_player_query_world_addresses value))
    (p_player_query_namespaces value) (felt_from_bytes <$> (p_player_query_player_addresses value))
    player_query_pagination).

(** [SearchQuery] *)
Record SearchQuery : Type := mkSearchQuery {
  search_query_query : string; search_query_limit : Z
}.
Record PSearchQuery : Type := mkPSearchQuery {
  p_search_query_query : string; p_search_query_limit : Z
}.
Definition search_query_into (value : SearchQuery) : PSearchQuery :=
  mkPSearchQuery (search_query_query value) (search_query_limit value).
Definition search_query_try_from (value : PSearchQuery) : outcome ProtoError SearchQuery :=
  Ok (mkSearchQuery (p_search_query_query value) (p_search_query_limit value)).

(** ** What is sent comes back *)

Definition opt_ok {A} (P : A → Prop) (o : option A) : Prop := ∀ a, o = Some a → P a.
Definition time_text_ok `{Chrono} (t : DateTime) : Prop := parse_from_rfc3339 (to_rfc3339 t) = Some t.

Lemma ofelt_bytes o : opt_ok SqlString.felt_ok o → felt_from_bytes <$> (felt_to_bytes <$> o) = o.
Proof. destruct o as [f|]; [|done]. intros H. cbn. by rewrite felt_bytes by by apply H. Qed.
Lemma contract_type_round t : contract_type_accessor (contract_type_to_i32 t) = t.
Proof. by destruct t. Qed.
Lemma contract_types_round l : outcome_mapM contract_type_try_from (contract_type_to_i32 <$> l) = Ok l.
Proof. apply mapM_round, Forall_true. by intros []. Qed.
Lemma call_type_round t : call_type_accessor (call_type_to_i32 t) = t.
Proof. by destruct t. Qed.
Lemma time_text_round `{Chrono} t : time_text_ok t → time_from_text (to_rfc3339 t) = Ok t.
Proof. unfold time_from_text. by intros ->. Qed.
Lemma list_round {A P} (into : A → P) (from : P → A) (ok : A → Prop) (l : list A) :
  (∀ a, ok a → from (into a) = a) → Forall ok l → from <$> (into <$> l) = l.
Proof. intros H. induction 1 as [|a l Ha _ IH]; [done|]. by rewrite !fmap_cons, H, IH. Qed.
Lemma list_round_all {A P} (into : A → P) (from : P → A) (l : list A) :
  (∀ a, from (into a) = a) → from <$> (into <$> l) = l.
Proof. intros H. apply (list_round into from (λ _, True)); [auto|by apply Forall_true]. Qed.

(** A cursor or a limit that the wire can tell from a missing one. *)
Definition pagination_ok (p : Pagination) : Prop := page_cursor p ≠ Some EmptyString ∧ page_limit p ≠ Some 0.
Lemma pagination_round p : pagination_ok p → pagination_from (pagination_into p) = Ok p.
Proof.
  destruct p as [c l d o]. unfold pagination_from, pagination_into, pagination_ok. cbn. intros [Hc Hl].
  rewrite (mapM_round order_by_into order_by_from) by (apply Forall_true; by intros [f []]). destruct d; cbn; do 2 f_equal.
  all: destruct c as [c|], l as [l|]; cbn; rewrite ?(proj2 (String.eqb_neq _ _)), ?(proj2 (Z.eqb_neq _ _)) by congruence;
    reflexivity.
Qed.
#[global] Arguments pagination_from : simpl never.
#[global] Arguments pagination_into : simpl never.
Lemma pagination_default_round p : pagination_ok p → pagination_or_default (Some (pagination_into p)) = Ok p.
Proof. apply pagination_round. Qed.
Lemma pagination_required_round p : pagination_ok p → pagination_required (Some (pagination_into p)) = Ok p.
Proof. apply pagination_round. Qed.
#[global] Arguments pagination_or_default : simpl never.
#[global] Arguments pagination_required : simpl never.

(** The message whose fields are each read back is read back. *)
Ltac wire_field :=
  first
    [ rewrite felt_bytes by assumption | rewrite felts_bytes by assumption | rewrite ofelt_bytes by assumption
    | rewrite u256_bytes by assumption | rewrite time_round by assumption | rewrite time_text_round by assumption
    | rewrite utf8_round by assumption | rewrite (wrap_u_small 8) by lia
    | rewrite (option_round u256_to_bytes u256_from_slice) by eauto using u256_bytes
    | rewrite (option_round time_to_u64 time_from_u64) by eauto using time_round
    | rewrite (mapM_round u256_to_bytes u256_from_slice) by (eapply Forall_impl; [eassumption|apply u256_bytes])
    | rewrite contract_type_round | rewrite contract_types_round | rewrite call_type_round
    | rewrite pagination_default_round by assumption | rewrite pagination_required_round by assumption
    | match goal with
      | |- context [outcome_mapM ?f (?g <$> ?l)] =>
          rewrite (mapM_round g f l) by (eapply Forall_impl; [eassumption|]; intros; eauto with wire)
      | |- context [outcome_option ?f (?g <$> ?l)] => rewrite (option_round g f l) by eauto with wire
      | |- context [?f <$> (?g <$> ?l)] =>
          first [ rewrite (list_round_all g f l) by eauto with wire
                | erewrite (list_round g f _ l) by first [eassumption | eauto with wire] ]
      | |- outcome_bind (?f (?g ?v)) _ = _ =>
          let H := fresh in assert (f (g v) = Ok v) as H by eauto with wire; rewrite H; clear H
      end
    | progress cbn [outcome_bind unwrap] ].
Ltac wire_round := cbn; intros; destruct_and?; repeat wire_field; reflexivity.

Definition contract_ok `{Chrono} (v : Contract) : Prop :=
  SqlString.felt_ok (contract_contract_address v) ∧ opt_ok SqlString.felt_ok (contract_last_pending_block_tx v) ∧
  time_ok (contract_updated_at v) ∧ time_ok (contract_created_at v).
Lemma contract_round `{Chrono} (v : Contract) : contract_ok v → contract_try_from (contract_into v) = Ok v.
Proof. destruct v. unfold contract_into, contract_try_from, contract_ok. wire_round. Qed.
#[export] Hint Resolve contract_round : wire.

Definition controller_ok `{Chrono} (v : Controller) : Prop :=
  SqlString.felt_ok (controller_address v) ∧ time_ok (controller_deployed_at v).
Lemma controller_round `{Chrono} (v : Controller) : controller_ok v → controller_try_from (controller_into v) = Ok v.
Proof. destruct v. unfold controller_into, controller_try_from, controller_ok. wire_round. Qed.
#[export] Hint Resolve controller_round : wire.

Definition token_ok (v : Token) : Prop :=
  opt_ok u256_ok (token_token_id v) ∧ SqlString.felt_ok (token_contract_address v) ∧ 0 ≤ (token_decimals v) < 256 ∧
  utf8_ok (token_metadata v) ∧ opt_ok u256_ok (token_total_supply v).
Lemma token_round (v : Token) : token_ok v → token_try_from (token_into v) = Ok v.
Proof. destruct v. unfold token_into, token_try_from, token_ok. wire_round. Qed.
#[export] Hint Resolve token_round : wire.

Definition tcontract_ok (v : TokenContract) : Prop :=
  SqlString.felt_ok (tcontract_contract_address v) ∧ 0 ≤ (tcontract_decimals v) < 256 ∧
  utf8_ok (tcontract_metadata v) ∧ utf8_ok (tcontract_token_metadata v) ∧ opt_ok u256_ok (tcontract_total_supply v).
Lemma tcontract_round (v : TokenContract) : tcontract_ok v → tcontract_try_from (tcontract_into v) = Ok v.
Proof. destruct v. unfold tcontract_into, tcontract_try_from, tcontract_ok. wire_round. Qed.
#[export] Hint Resolve tcontract_round : wire.

Definition balance_ok (v : TokenBalance) : Prop :=
  u256_ok (balance_balance v) ∧ SqlString.felt_ok (balance_account_address v) ∧
  SqlString.felt_ok (balance_contract_address v) ∧ opt_ok u256_ok (balance_token_id v).
Lemma balance_round (v : TokenBalance) : balance_ok v → balance_try_from (balance_into v) = Ok v.
Proof. destruct v. unfold balance_into, balance_try_from, balance_ok. wire_round. Qed.
#[export] Hint Resolve balance_round : wire.

Definition transfer_ok `{Chrono} (v : TokenTransfer) : Prop :=
  SqlString.felt_ok (transfer_contract_address v) ∧ SqlString.felt_ok (transfer_from_address v) ∧
  SqlString.felt_ok (transfer_to_address v) ∧ u256_ok (transfer_amount v) ∧ opt_ok u256_ok (transfer_token_id v) ∧
  time_ok (transfer_executed_at v).
Lemma transfer_round `{Chrono} (v : TokenTransfer) : transfer_ok v → transfer_try_from (transfer_into v) = Ok v.
Proof. destruct v. unfold transfer_into, transfer_try_from, transfer_ok. wire_round. Qed.
#[export] Hint Resolve transfer_round : wire.

Definition aggregation_ok `{Chrono} (v : AggregationEntry) : Prop :=
  u256_ok (aggregation_value v) ∧ time_text_ok (aggregation_created_at v) ∧ time_text_ok (aggregation_updated_at v).
Lemma aggregation_round `{Chrono} (v : AggregationEntry) : aggregation_ok v → aggregation_try_from (aggregation_into v) = Ok v.
Proof. destruct v. unfold aggregation_into, aggregation_try_from, aggregation_ok. wire_round. Qed.
#[export] Hint Resolve aggregation_round : wire.

Definition event_ok (v : Event) : Prop :=
  Forall SqlString.felt_ok (event_keys v) ∧ Forall SqlString.felt_ok (event_data v) ∧
  SqlString.felt_ok (event_transaction_hash v).
Lemma event_round (v : Event) : event_ok v → event_from (event_into v) = v.
Proof. destruct v. unfold event_into, event_from, event_ok. wire_round. Qed.
#[export] Hint Resolve event_round : wire.

Definition call_ok (v : TransactionCall) : Prop :=
  SqlString.felt_ok (call_contract_address v) ∧ Forall SqlString.felt_ok (call_calldata v) ∧
  SqlString.felt_ok (call_caller_address v).
Lemma call_round (v : TransactionCall) : call_ok v → call_try_from (call_into v) = Ok v.
Proof. destruct v. unfold call_into, call_try_from, call_ok. wire_round. Qed.
#[export] Hint Resolve call_round : wire.

Definition tx_ok `{Chrono} (v : Transaction) : Prop :=
  SqlString.felt_ok (tx_transaction_hash v) ∧ SqlString.felt_ok (tx_sender_address v) ∧
  Forall SqlString.felt_ok (tx_calldata v) ∧ SqlString.felt_ok (tx_max_fee v) ∧
  Forall SqlString.felt_ok (tx_signature v) ∧ SqlString.felt_ok (tx_nonce v) ∧ time_ok (tx_block_timestamp v) ∧
  Forall call_ok (tx_calls v) ∧ Forall SqlString.felt_ok (tx_unique_models v).
Lemma tx_round `{Chrono} (v : Transaction) : tx_ok v → tx_try_from (tx_into v) = Ok v.
Proof. destruct v. unfold tx_into, tx_try_from, tx_ok. wire_round. Qed.
#[export] Hint Resolve tx_round : wire.

Definition activity_ok `{Chrono} (v : Activity) : Prop :=
  SqlString.felt_ok (activity_world_address v) ∧ SqlString.felt_ok (activity_caller_address v) ∧
  time_ok (activity_session_start v) ∧ time_ok (activity_session_end v) ∧ time_ok (activity_updated_at v).
Lemma activity_round `{Chrono} (v : Activity) : activity_ok v → activity_try_from (activity_into v) = Ok v.
Proof. destruct v. unfold activity_into, activity_try_from, activity_ok. wire_round. Qed.
#[export] Hint Resolve activity_round : wire.

Definition task_ok `{Chrono} (v : AchievementTask) : Prop :=
  time_ok (task_created_at v).
Lemma task_round `{Chrono} (v : AchievementTask) : task_ok v → task_try_from (task_into v) = Ok v.
Proof. destruct v. unfold task_into, task_try_from, task_ok. wire_round. Qed.
#[export] Hint Resolve task_round : wire.

Definition achievement_ok `{Chrono} (v : Achievement) : Prop :=
  SqlString.felt_ok (achievement_world_address v) ∧ Forall task_ok (achievement_tasks v) ∧
  time_ok (achievement_created_at v) ∧ time_ok (achievement_updated_at v).
Lemma achievement_round `{Chrono} (v : Achievement) : achievement_ok v → achievement_try_from (achievement_into v) = Ok v.
Proof. destruct v. unfold achievement_into, achievement_try_from, achievement_ok. wire_round. Qed.
#[export] Hint Resolve achievement_round : wire.

Definition progression_ok `{Chrono} (v : AchievementProgression) : Prop :=
  SqlString.felt_ok (progression_world_address v) ∧ SqlString.felt_ok (progression_player_id v) ∧
  opt_ok time_ok (progression_completed_at v) ∧ time_ok (progression_created_at v) ∧
  time_ok (progression_updated_at v).
Lemma progression_round `{Chrono} (v : AchievementProgression) : progression_ok v → progression_try_from (progression_into v) = Ok v.
Proof. destruct v. unfold progression_into, progression_try_from, progression_ok. wire_round. Qed.
#[export] Hint Resolve progression_round : wire.

Definition stats_ok `{Chrono} (v : PlayerAchievementStats) : Prop :=
  opt_ok time_ok (stats_last_achievement_at v) ∧ time_ok (stats_created_at v) ∧ time_ok (stats_updated_at v).
Lemma stats_round `{Chrono} (v : PlayerAchievementStats) : stats_ok v → stats_try_from (stats_into v) = Ok v.
Proof. destruct v. unfold stats_into, stats_try_from, stats_ok. wire_round. Qed.
#[export] Hint Resolve stats_round : wire.

Lemma progress_round (v : TaskProgress) : progress_from (progress_into v) = v.
Proof. destruct v. unfold progress_into, progress_from. wire_round. Qed.
#[export] Hint Resolve progress_round : wire.

Definition pap_ok `{Chrono} (v : PlayerAchievementProgress) : Prop :=
  achievement_ok (pap_achievement v).
Lemma pap_round `{Chrono} (v : PlayerAchievementProgress) : pap_ok v → pap_try_from (pap_into v) = Ok v.
Proof. destruct v. unfold pap_into, pap_try_from, pap_ok. wire_round. Qed.
#[export] Hint Resolve pap_round : wire.

Definition entry_ok `{Chrono} (v : PlayerAchievementEntry) : Prop :=
  SqlString.felt_ok (entry_player_address v) ∧ stats_ok (entry_stats v) ∧ Forall pap_ok (entry_achievements v).
Lemma entry_round `{Chrono} (v : PlayerAchievementEntry) : entry_ok v → entry_try_from (entry_into v) = Ok v.
Proof. destruct v. unfold entry_into, entry_try_from, entry_ok. wire_round. Qed.
#[export] Hint Resolve entry_round : wire.

Lemma match__round (v : SearchMatch) : match__from (match__into v) = v.
Proof. destruct v. unfold match__into, match__from. wire_round. Qed.
#[export] Hint Resolve match__round : wire.

Lemma table_round (v : TableSearchResults) : table_from (table_into v) = v.
Proof. destruct v. unfold table_into, table_from. wire_round. Qed.
#[export] Hint Resolve table_round : wire.

Lemma response_round (v : SearchResponse) : response_from (response_into v) = v.
Proof. destruct v. unfold response_into, response_from. wire_round. Qed.
#[export] Hint Resolve response_round : wire.

Definition transfer_query_ok (v : TokenTransferQuery) : Prop :=
  Forall SqlString.felt_ok (transfer_query_account_addresses v) ∧
  Forall SqlString.felt_ok (transfer_query_contract_addresses v) ∧ Forall u256_ok (transfer_query_token_ids v) ∧
  pagination_ok (transfer_query_pagination v).
Lemma transfer_query_round (v : TokenTransferQuery) : transfer_query_ok v → transfer_query_try_from (transfer_query_into v) = Ok v.
Proof. destruct v. unfold transfer_query_into, transfer_query_try_from, transfer_query_ok. wire_round. Qed.
#[export] Hint Resolve transfer_query_round : wire.

Definition controller_query_ok (v : ControllerQuery) : Prop :=
  Forall SqlString.felt_ok (controller_query_contract_addresses v) ∧ pagination_ok (controller_query_pagination v).
Lemma controller_query_round (v : ControllerQuery) : controller_query_ok v → controller_query_try_from (controller_query_into v) = Ok v.
Proof. destruct v. unfold controller_query_into, controller_query_try_from, controller_query_ok. wire_round. Qed.
#[export] Hint Resolve controller_query_round : wire.

Lemma attribute_filter_round (v : TokenAttributeFilter) : attribute_filter_from (attribute_filter_into v) = v.
Proof. destruct v. unfold attribute_filter_into, attribute_filter_from. wire_round. Qed.
#[export] Hint Resolve attribute_filter_round : wire.

Definition token_query_ok (v : TokenQuery) : Prop :=
  Forall SqlString.felt_ok (token_query_contract_addresses v) ∧ Forall u256_ok (token_query_token_ids v) ∧
  pagination_ok (token_query_pagination v).
Lemma token_query_round (v : TokenQuery) : token_query_ok v → token_query_try_from (token_query_into v) = Ok v.
Proof. destruct v. unfold token_query_into, token_query_try_from, token_query_ok. wire_round. Qed.
#[export] Hint Resolve token_query_round : wire.

Definition balance_query_ok (v : TokenBalanceQuery) : Prop :=
  Forall SqlString.felt_ok (balance_query_account_addresses v) ∧
  Forall SqlString.felt_ok (balance_query_contract_addresses v) ∧ Forall u256_ok (balance_query_token_ids v) ∧
  pagination_ok (balance_query_pagination v).
Lemma balance_query_round (v : TokenBalanceQuery) : balance_query_ok v → balance_query_try_from (balance_query_into v) = Ok v.
Proof. destruct v. unfold balance_query_into, balance_query_try_from, balance_query_ok. wire_round. Qed.
#[export] Hint Resolve balance_query_round : wire.

Definition token_contract_query_ok (v : TokenContractQuery) : Prop :=
  Forall SqlString.felt_ok (token_contract_query_contract_addresses v) ∧
  pagination_ok (token_contract_query_pagination v).
Lemma token_contract_query_round (v : TokenContractQuery) : token_contract_query_ok v → token_contract_query_try_from (token_contract_query_into v) = Ok v.
Proof. destruct v. unfold token_contract_query_into, token_contract_query_try_from, token_contract_query_ok. wire_round. Qed.
#[export] Hint Resolve token_contract_query_round : wire.

Definition aggregation_query_ok (v : AggregationQuery) : Prop :=
  pagination_ok (aggregation_query_pagination v).
Lemma aggregation_query_round (v : AggregationQuery) : aggregation_query_ok v → aggregation_query_try_from (aggregation_query_into v) = Ok v.
Proof. destruct v. unfold aggregation_query_into, aggregation_query_try_from, aggregation_query_ok. wire_round. Qed.
#[export] Hint Resolve aggregation_query_round : wire.

Definition contract_query_ok (v : ContractQuery) : Prop :=
  Forall SqlString.felt_ok (contract_query_contract_addresses v).
Lemma contract_query_round (v : ContractQuery) : contract_query_ok v → contract_query_try_from (contract_query_into v) = Ok v.
Proof. destruct v. unfold contract_query_into, contract_query_try_from, contract_query_ok. wire_round. Qed.
#[export] Hint Resolve contract_query_round : wire.

Definition tx_filter_ok (v : TransactionFilter) : Prop :=
  Forall SqlString.felt_ok (tx_filter_transaction_hashes v) ∧
  Forall SqlString.felt_ok (tx_filter_caller_addresses v) ∧
  Forall SqlString.felt_ok (tx_filter_contract_addresses v) ∧ Forall SqlString.felt_ok (tx_filter_model_selectors v).
Lemma tx_filter_round (v : TransactionFilter) : tx_filter_ok v → tx_filter_try_from (tx_filter_into v) = Ok v.
Proof. destruct v. unfold tx_filter_into, tx_filter_try_from, tx_filter_ok. wire_round. Qed.
#[export] Hint Resolve tx_filter_round : wire.

Definition tx_query_ok (v : TransactionQuery) : Prop :=
  opt_ok tx_filter_ok (tx_query_filter v) ∧ pagination_ok (tx_query_pagination v).
Lemma tx_query_round (v : TransactionQuery) : tx_query_ok v → tx_query_try_from (tx_query_into v) = Ok v.
Proof. destruct v. unfold tx_query_into, tx_query_try_from, tx_query_ok. wire_round. Qed.
#[export] Hint Resolve tx_query_round : wire.

Definition activity_query_ok `{Chrono} (v : ActivityQuery) : Prop :=
  Forall SqlString.felt_ok (activity_query_world_addresses v) ∧
  Forall SqlString.felt_ok (activity_query_caller_addresses v) ∧ opt_ok time_ok (activity_query_from_time v) ∧
  opt_ok time_ok (activity_query_to_time v) ∧ pagination_ok (activity_query_pagination v).
Lemma activity_query_round `{Chrono} (v : ActivityQuery) : activity_query_ok v → activity_query_try_from (activity_query_into v) = Ok v.
Proof. destruct v. unfold activity_query_into, activity_query_try_from, activity_query_ok. wire_round. Qed.
#[export] Hint Resolve activity_query_round : wire.

Definition achievement_query_ok (v : AchievementQuery) : Prop :=
  Forall SqlString.felt_ok (achievement_query_world_addresses v) ∧ pagination_ok (achievement_query_pagination v).
Lemma achievement_query_round (v : AchievementQuery) : achievement_query_ok v → achievement_query_try_from (achievement_query_into v) = Ok v.
Proof. destruct v. unfold achievement_query_into, achievement_query_try_from, achievement_query_ok. wire_round. Qed.
#[export] Hint Resolve achievement_query_round : wire.

Definition player_query_ok (v : PlayerAchievementQuery) : Prop :=
  Forall SqlString.felt_ok (player_query_world_addresses v) ∧
  Forall SqlString.felt_ok (player_query_player_addresses v) ∧ pagination_ok (player_query_pagination v).
Lemma player_query_round (v : PlayerAchievementQuery) : player_query_ok v → player_query_try_from (player_query_into v) = Ok v.
Proof. destruct v. unfold player_query_into, player_query_try_from, player_query_ok. wire_round. Qed.
#[export] Hint Resolve player_query_round : wire.

Lemma search_query_round (v : SearchQuery) : search_query_try_from (search_query_into v) = Ok v.
Proof. destruct v. unfold search_query_into, search_query_try_from. wire_round. Qed.
#[export] Hint Resolve search_query_round : wire.

(** ** Clauses and queries *)
Lemma key_round k : opt_ok SqlString.felt_ok k → key_from (key_into k) = k.
Proof.
  destruct k as [f|]; [|done]. intros H. unfold key_from, key_into.
  destruct (felt_to_bytes f) eqn:Hb; [by pose proof (be_bytes_length 32 f); unfold felt_to_bytes in Hb; rewrite Hb in *|].
  by rewrite <- Hb, felt_bytes by by apply H.
Qed.
Definition keys_clause_ok (c : KeysClause) : Prop := Forall (opt_ok SqlString.felt_ok) (clause_keys c).
Lemma keys_clause_round c : keys_clause_ok c → keys_clause_from (keys_clause_into c) = c.
Proof.
  destruct c as [ks p ms]. unfold keys_clause_from, keys_clause_into, keys_clause_ok. cbn. intros H.
  rewrite (list_round key_into key_from (opt_ok SqlString.felt_ok)) by eauto using key_round. by destruct p.
Qed.

Lemma MemberValue_ind' (P : MemberValue → Prop) :
  (∀ p, P (MemberPrimitive p)) → (∀ s, P (MemberString s)) → (∀ l, Forall P l → P (MemberList l)) → ∀ v, P v.
Proof.
  intros Hp Hs Hl. fix IH 1. intros [p|s|l]; [apply Hp|apply Hs|]. apply Hl.
  induction l as [|v l IHl]; constructor; [apply IH|exact IHl].
Qed.
Lemma Clause_ind' (P : Clause → Prop) :
  (∀ l, P (HashedKeys l)) → (∀ c, P (Keys c)) → (∀ c, P (Member c)) → (∀ o l, Forall P l → P (Composite o l)) → ∀ c, P c.
Proof.
  intros Hh Hk Hm Hc. fix IH 1. intros [l|c|c|o l]; [apply Hh|apply Hk|apply Hm|]. apply Hc.
  induction l as [|v l IHl]; constructor; [apply IH|exact IHl].
Qed.
Lemma PMemberValue_ind' (P : PMemberValue → Prop) :
  P PMemberMissing → (∀ p, P (PMemberPrimitive p)) → (∀ s, P (PMemberString s)) →
  (∀ l, Forall P l → P (PMemberList l)) → ∀ v, P v.
Proof.
  intros H0 Hp Hs Hl. fix IH 1. intros [|p|s|l]; [apply H0|apply Hp|apply Hs|]. apply Hl.
  induction l as [|v l IHl]; constructor; [apply IH|exact IHl].
Qed.
Lemma PClause_ind' (P : PClause → Prop) :
  P PClauseMissing → (∀ l, P (PHashedKeys l)) → (∀ c, P (PKeys c)) → (∀ c, P (PMember c)) →
  (∀ o l, Forall P l → P (PComposite o l)) → ∀ c, P c.
Proof.
  intros H0 Hh Hk Hm Hc. fix IH 1. intros [|l|c|c|o l]; [apply H0|apply Hh|apply Hk|apply Hm|]. apply Hc.
  induction l as [|v l IHl]; constructor; [apply IH|exact IHl].
Qed.

(** The primitives of a clause have a value: the wire has none for a missing one. *)
Fixpoint member_value_ok (v : MemberValue) : Prop :=
  match v with
  | MemberPrimitive p => prim_ok p ∧ prim_filled p = p
  | MemberString _ => True
  | MemberList l => Forall (λ P : Prop, P) (member_value_ok <$> l)
  end.
Fixpoint clause_ok (c : Clause) : Prop :=
  match c with
  | HashedKeys l => Forall SqlString.felt_ok l
  | Keys c => keys_clause_ok c
  | Member c => member_value_ok (member_value c)
  | Composite _ l => Forall (λ P : Prop, P) (clause_ok <$> l)
  end.

Lemma children_round {A P} (into : A → P) (try_from : P → outcome ProtoError A) (ok : A → Prop) (l : list A) :
  Forall (λ a, ok a → try_from (into a) = Ok a) l → Forall (λ P : Prop, P) (ok <$> l) →
  outcome_mapM try_from (into <$> l) = Ok l.
Proof.
  rewrite Forall_fmap. intros H Hok. apply mapM_round.
  eapply Forall_impl; [apply Forall_and; split; [exact H|exact Hok]|]. naive_solver.
Qed.
Lemma member_value_round v : member_value_ok v → member_value_try_from (member_value_into v) = Ok v.
Proof.
  induction v as [p|s|l IH] using MemberValue_ind'; cbn [member_value_ok member_value_into member_value_try_from].
  - intros [Hp Hf]. by rewrite prim_round, Hf.
  - done.
  - intros Hl. by rewrite (children_round member_value_into member_value_try_from member_value_ok).
Qed.
Lemma member_clause_round c : member_value_ok (member_value c) → member_clause_try_from (member_clause_into c) = Ok c.
Proof.
  destruct c as [m n o v]. unfold member_clause_try_from, member_clause_into. cbn. intros H.
  rewrite member_value_round by done. by destruct o.
Qed.
Lemma clause_round c : clause_ok c → clause_try_from (clause_into c) = Ok c.
Proof.
  induction c as [l|c|c|o l IH] using Clause_ind'; cbn [clause_ok clause_into clause_try_from]; intros H.
  - by rewrite felts_bytes.
  - by rewrite keys_clause_round.
  - by rewrite member_clause_round.
  - rewrite (children_round clause_into clause_try_from clause_ok) by done. by destruct o.
Qed.

Definition query_ok (q : Query) : Prop :=
  opt_ok clause_ok (query_clause q) ∧ pagination_ok (query_pagination q) ∧
  Forall SqlString.felt_ok (query_world_addresses q).
Lemma query_round q : query_ok q → query_try_from (query_into q) = Ok q.
Proof.
  destruct q as [c p n m h w]. unfold query_try_from, query_into, query_ok. cbn. intros (Hc & Hp & Hw).
  rewrite (option_round clause_into clause_try_from) by eauto using clause_round.
  cbn [outcome_bind]. rewrite pagination_default_round by done. cbn. by rewrite felts_bytes.
Qed.
Definition event_query_ok (q : EventQuery) : Prop :=
  opt_ok keys_clause_ok (event_query_keys q) ∧ pagination_ok (event_query_pagination q).
Lemma event_query_round q : event_query_ok q → event_query_from (event_query_into q) = Ok q.
Proof.
  destruct q as [k p]. unfold event_query_from, event_query_into, event_query_ok. cbn. intros [Hk Hp].
  rewrite pagination_default_round by done. cbn. destruct k as [c|]; [|done]. cbn. by rewrite keys_clause_round by by apply Hk.
Qed.

#[export] Hint Resolve query_round event_query_round : wire.

(** ** Models *)
Section models.
Context `{SerdeJson}.
(** [serde_json::from_slice] reads what [serde_json::to_vec] wrote. *)
Hypothesis ty_json : ∀ t b, ty_to_vec t = Some b → ty_from_slice b = Some t.
Hypothesis layout_json : ∀ l b, layout_to_vec l = Some b → layout_from_slice b = Some l.

Definition model_ok (m : Model) : Prop :=
  SqlString.felt_ok (model_world_address m) ∧ SqlString.felt_ok (model_selector m) ∧
  SqlString.felt_ok (model_class_hash m) ∧ SqlString.felt_ok (model_contract_address m) ∧
  is_Some (ty_to_vec (model_schema m)) ∧ is_Some (layout_to_vec (model_layout m)).
Lemma model_round m : model_ok m → carries model_into model_try_from m m.
Proof.
  destruct m as [w ns n s c a ps us l t leg]. unfold carries, model_into, model_ok. cbn.
  intros (Hw & Hs & Hc & Ha & [tb Ht] & [lb Hl]). rewrite Hl, Ht. eexists. split; [done|].
  unfold model_try_from. cbn. rewrite (ty_json t tb), (layout_json l lb) by done. cbn. by rewrite !felt_bytes.
Qed.

(** The models of a world, by their selectors. *)
Lemma world_round `{!SqlString.FeltFromStr} (addr : string) (a : Felt) (ms : list Model) :
  SqlString.felt_from_str addr = Some a → Forall model_ok ms →
  ∃ ps, outcome_mapM model_into ms = Ok ps ∧
    world_try_from (mkPWorld addr ps) = Ok (mkWorld _ a (foldl (λ acc m, <[model_selector m := m]> acc) ∅ ms)).
Proof.
  intros Ha Hms. unfold world_try_from. cbn.
  enough (∃ ps, outcome_mapM model_into ms = Ok ps ∧
    outcome_mapM (λ c, let? m := model_try_from c in Ok (felt_from_bytes (p_model_selector c), m)) ps =
    Ok ((λ m, (model_selector m, m)) <$> ms)) as (ps & Hp & Ht).
  { exists ps. split; [done|]. rewrite Ht. cbn. rewrite Ha. cbn. do 2 f_equal. generalize (∅ : gmap Felt Model). clear.
    induction ms as [|m ms IH]; intros acc; cbn; [done|]. apply IH. }
  induction Hms as [|m ms Hm _ (ps & Hp & Ht)]; [by exists []|]. destruct (model_round m Hm) as (p & Hpm & Htm).
  exists (p :: ps). cbn. rewrite Hpm. cbn. rewrite Hp, Htm. cbn. rewrite Ht. cbn. split; [done|].
  do 3 f_equal. destruct Hm as (_ & Hs & _). revert Hpm. unfold model_into.
  destruct (layout_to_vec _); [|done]. destruct (ty_to_vec _); [|done]. intros [= <-]. cbn. by apply felt_bytes.
Qed.
End models.

(** ** Failures *)

(** A direction the enum does not have, in the message of a client. *)
Definition bad_direction (d : Z) : bool := negb ((d =? 0) || (d =? 1)).
Definition bad_pagination (p : PPagination) : bool :=
  bad_direction (p_page_direction p) || existsb (λ o, bad_direction (p_order_direction o)) (p_page_order_by p).
Lemma direction_panics {E A} (f g : A) d :
  match d with 0 => Ok f | 1 => Ok g | _ => Panic end = (if bad_direction d then Panic else Ok (E := E) (if d =? 0 then f else g)).
Proof. by destruct d as [|[]|]. Qed.
Lemma order_by_panics (o : POrderBy) : panics_iff order_by_from o (bad_direction (p_order_direction o)).
Proof. unfold panics_iff, order_by_from. rewrite direction_panics. by destruct (bad_direction _). Qed.
Lemma pagination_panics p : panics_iff pagination_from p (bad_pagination p).
Proof.
  unfold panics_iff, pagination_from, bad_pagination. rewrite direction_panics.
  destruct (bad_direction _); [done|]. cbn [outcome_bind orb].
  pose proof (mapM_panics order_by_from _ (p_page_order_by p) (Forall_true _ _ order_by_panics)) as H.
  unfold panics_iff in H. destruct (existsb _ _); [by rewrite H|]. by destruct (outcome_mapM _ _).
Qed.

Lemma mapM_no_panic {A B} (f : A → outcome ProtoError B) l : Forall (λ a, f a ≠ Panic) l → outcome_mapM f l ≠ Panic.
Proof.
  induction 1 as [|a l Ha _ IH]; [done|]. cbn. destruct (f a); [|done..]. cbn. by destruct (outcome_mapM f l).
Qed.
Lemma primitive_no_panic p : primitive_try_from p ≠ Panic.
Proof. destruct p as [[]|]; try done; cbn; unfold from_be_array; by case_match. Qed.
Lemma member_value_no_panic v : member_value_try_from v ≠ Panic.
Proof.
  induction v as [|p|s|l IH] using PMemberValue_ind'; [done| |done|]; cbn [member_value_try_from].
  - pose proof (primitive_no_panic p). by destruct (primitive_try_from p).
  - pose proof (mapM_no_panic _ _ IH). by destruct (outcome_mapM _ l).
Qed.
Lemma clause_no_panic c : clause_try_from c ≠ Panic.
Proof.
  induction c as [|l|c|c|o l IH] using PClause_ind'; [done|done|done| |]; cbn [clause_try_from].
  - unfold member_clause_try_from. destruct (p_member_value c) as [v|]; [|done]. cbn.
    pose proof (member_value_no_panic v). by destruct (member_value_try_from v).
  - pose proof (mapM_no_panic _ _ IH). by destruct (outcome_mapM _ l).
Qed.

(** ** Properties *)


(** Every result a server sends is read by the client as it was: contracts and
    controllers, tokens with their metadata and supply, balances and transfers,
    events, transactions with their calls, activities, leaderboards, achievements
    with the progress of a player, rows of SQL and the results of a search. *)
Theorem results_roundtrip `{Chrono} :
  (∀ row, sql_row_from (sql_row_into row) = row) ∧
  (∀ v, contract_ok v → contract_try_from (contract_into v) = Ok v) ∧
  (∀ v, controller_ok v → controller_try_from (controller_into v) = Ok v) ∧
  (∀ v, token_ok v → token_try_from (token_into v) = Ok v) ∧
  (∀ v, tcontract_ok v → tcontract_try_from (tcontract_into v) = Ok v) ∧
  (∀ v, balance_ok v → balance_try_from (balance_into v) = Ok v) ∧
  (∀ v, transfer_ok v → transfer_try_from (transfer_into v) = Ok v) ∧
  (∀ v, aggregation_ok v → aggregation_try_from (aggregation_into v) = Ok v) ∧
  (∀ v, event_ok v → event_from (event_into v) = v) ∧
  (∀ v, tx_ok v → tx_try_from (tx_into v) = Ok v) ∧
  (∀ v, activity_ok v → activity_try_from (activity_into v) = Ok v) ∧
  (∀ v, progression_ok v → progression_try_from (progression_into v) = Ok v) ∧
  (∀ v, entry_ok v → entry_try_from (entry_into v) = Ok v) ∧
  (∀ v, response_from (response_into v) = v) ∧
  (∀ v, achievement_ok v → achievement_try_from (achievement_into v) = Ok v).
Proof.
  split; [|repeat split; eauto with wire].
  intros row. unfold sql_row_from, sql_row_into. rewrite <- map_fmap_compose.
  rewrite <- (map_fmap_id row) at 2. apply map_fmap_ext. by intros k [].
Qed.

(** Reading a query of a client never panics on its clause, whatever the message
    holds: a missing part or a value of the wrong length is an error. The one
    panic is a direction, of the page or of an order, that is not in the enum. *)
Theorem query_panics_iff (q : PQuery) :
  query_try_from q = Panic ↔
  is_ok (outcome_option clause_try_from (p_query_clause q)) = true ∧
  ∃ p, p_query_pagination q = Some p ∧ bad_pagination p = true.
Proof.
  unfold query_try_from.
  assert (outcome_option clause_try_from (p_query_clause q) ≠ Panic) as Hc.
  { destruct (p_query_clause q) as [c|]; [|done]. cbn. pose proof (clause_no_panic c). by destruct (clause_try_from c). }
  destruct (outcome_option _ _) as [c|e|]; [|naive_solver..]. cbn [outcome_bind is_ok].
  destruct (p_query_pagination q) as [p|]; [|naive_solver]. unfold pagination_or_default.
  pose proof (pagination_panics p) as Hp. unfold panics_iff in Hp. destruct (bad_pagination p) eqn:Hb.
  - rewrite Hp. split; [|done]. eauto.
  - destruct (pagination_from p); [|done..]. split; [done|]. by intros (_ & ? & [= <-] & ?); congruence.
Qed.

(** ** Examples *)
Definition demo_query : Query :=
  mkQuery (Some (Composite Or [Keys (mkKeysClause [Some 5; None] VariableLen ["ns-Position"]);
                               Member (mkMemberClause "ns-Position" "at.x" Gte
                                         (MemberList [MemberPrimitive (PrimI8 (Some (-3))); MemberString "a"]))]))
    (mkPagination (Some "c") (Some 10) Backward [mkOrderBy "id" Desc]) false ["ns-Position"] true [7].
Definition demo_tx : Transaction :=
  mkTransaction 1 2 [3; 4] 0 [5] 6 100 "INVOKE" (1700000000 * NANOS)
    [mkTransactionCall 9 "move" [10] ExecuteFromOutside 2] [8].

Lemma results_roundtrip_witness :
  tx_ok (H := demo_chrono) demo_tx ∧ tx_try_from (H := demo_chrono) (tx_into demo_tx) = Ok demo_tx.
Proof.
  assert (tx_ok (H := demo_chrono) demo_tx) as Hok.
  { unfold tx_ok, demo_tx. cbn -[time_ok SqlString.felt_ok call_ok].
    split_and!; first [match goal with |- Forall _ _ => idtac end; repeat constructor; concrete | concrete]. }
  split; [exact Hok|]. apply (results_roundtrip (H := demo_chrono)). exact Hok.
Defined.
Lemma query_panics_iff_witness : query_try_from (mkPQuery None false [] (Some (mkPPagination "" 0 2 [])) false []) = Panic.
Proof. apply query_panics_iff. split; [reflexivity|]. eexists. split; reflexivity. Defined.
End Msg.
