(* ===== verification/Aggregator.v ===== *)
(** * Aggregations ([crates/sqlite/sqlite/src/executor/aggregator.rs])

    A leaderboard entry per group of a model's records, kept up to date as records
    are written: the number of writes, the latest, largest or smallest value of a
    field, their sum or average. An entry has two texts: [display_value], and
    [value], in hexadecimal with a fixed width, by which entries are ordered.

    The statements on the table are on a map from identifiers to rows; the query
    of number [n] fails when [query_fails n]. Integers are read as [core::num] reads them.
    [serde_json] reading the metadata of an average is a parameter. *)

From S2P Require Import Prelude Math Proto SqlString Database Cache Executor ModelTable.
From stdpp Require Import pretty.
From Stdlib Require Import Ascii.
Local Open Scope Z_scope.
Local Open Scope torii_scope.

(** ** Integers as text *)
Definition dec_val (c : ascii) : option Z :=
  let n := Z.of_nat (nat_of_ascii c) in if (48 <=? n) && (n <=? 57) then Some (n - 48) else None.

Fixpoint digits_from (radix : Z) (val : ascii → option Z) (acc : Z) (s : string) : option Z :=
  match s with
  | EmptyString => Some acc
  | String c s => d ← val c; digits_from radix val (radix * acc + d) s
  end.
(** At least one digit, and the value in range. *)
Definition number_from (radix : Z) (val : ascii → option Z) (lo hi : Z) (sign : Z) (s : string) : option Z :=
  match s with
  | EmptyString => None
  | _ => n ← digits_from radix val 0 s; if (lo <=? sign * n) && (sign * n <=? hi) then Some (sign * n) else None
  end.

Definition u128_max : Z := 2 ^ 128 - 1.
Definition i128_min : Z := - 2 ^ 127.
Definition i128_max : Z := 2 ^ 127 - 1.
Definition i64_min : Z := - 2 ^ 63.
Definition i64_max : Z := 2 ^ 63 - 1.

Definition plus_sign : ascii := ascii_of_nat 43.
Definition minus_sign : ascii := ascii_of_nat 45.
(** [from_str_radix] of an unsigned and of a signed type *)
Definition unsigned_from (radix : Z) (val : ascii → option Z) (hi : Z) (s : string) : option Z :=
  match s with
  | String c s' => if Ascii.eqb c plus_sign then number_from radix val 0 hi 1 s' else number_from radix val 0 hi 1 s
  | EmptyString => None
  end.
Definition signed_from (lo hi : Z) (s : string) : option Z :=
  match s with
  | String c s' =>
      if Ascii.eqb c plus_sign then number_from 10 dec_val lo hi 1 s'
      else if Ascii.eqb c minus_sign then number_from 10 dec_val lo hi (-1) s'
      else number_from 10 dec_val lo hi 1 s
  | EmptyString => None
  end.
Definition parse_u128 : string → option Z := unsigned_from 10 dec_val u128_max.
Definition parse_i128 : string → option Z := signed_from i128_min i128_max.
Definition parse_i64 : string → option Z := signed_from i64_min i64_max.
Definition u128_from_hex : string → option Z := unsigned_from 16 hex_val u128_max.

(** [s.strip_prefix("0x")] *)
Definition strip_0x (s : string) : option string :=
  match s with
  | String c (String c' s) =>
      if Ascii.eqb c (ascii_of_nat 48) && Ascii.eqb c' (ascii_of_nat 120) then Some s else None
  | _ => None
  end.

(** [format!("{:0>64}", s)] *)
Fixpoint zeros (n : nat) (s : string) : string :=
  match n with O => s | S n => String (ascii_of_nat 48) (zeros n s) end.
Definition pad_64 (s : string) : string := zeros (64 - String.length s) s.

(** [num as u128], [v as i128] *)
Definition as_u128 (n : Z) : Z := n mod 2 ^ 128.
Definition as_i128 (n : Z) : Z := if n <? 2 ^ 127 then n else n - 2 ^ 128.
Definition saturating_add (a b : Z) : Z := Z.max i128_min (Z.min i128_max (a + b)).

(** [U256::from_be_hex], which panics unless it is given 64 digits *)
Definition from_be_hex (s : string) : option U256 :=
  if (String.length s =? 64)%nat then digits_from 16 hex_val 0 s else None.

(** ** Data *)
Inductive Aggregation : Type :=
| AggCount | AggLatest (field : string) | AggMax (field : string) | AggMin (field : string)
| AggSum (field : string) | AggAvg (field : string).
Inductive SortOrder : Type := SortDesc | SortAsc.
Record AggregatorConfig : Type := mkAggregator {
  agg_id : string; agg_tag : string; agg_group_by : list string; agg_aggregation : Aggregation;
  agg_order : SortOrder
}.
Record AggregationRow : Type := mkAggRow {
  row_aggregator_id : string; row_entity_id : string; row_value : string; row_display_value : string;
  row_metadata : option string; row_model_id : string; row_created_at : Z; row_updated_at : Z
}.
Record AggregationEntry : Type := mkAggEntry {
  entry_id : string; entry_aggregator_id : string; entry_entity_id : string; entry_value : U256;
  entry_display_value : string; entry_model_id : string; entry_created_at : Z; entry_updated_at : Z;
  entry_position : Z
}.
Inductive AggregationError : Type := AggSqlx | LeaderboardFieldExtraction (field : string).

Record AggregationDb : Type := mkAggDb { aggregations : gmap string AggregationRow; queries_run : nat }.

Class AggregationEnv : Type := {
  query_fails : nat → bool;
  (** [CURRENT_TIMESTAMP] at a query *)
  query_time : nat → Z;
  (** [serde_json::from_str], then [["sum"].as_str()] and [["count"].as_i64()] *)
  parse_metadata : string → option (option string * option Z)
}.

Module Agg.

Section operations.
Context `{Primitives} {TT : TyText} {AE : AggregationEnv}.
#[local] Abbreviation agg A := (st AggregationDb AggregationError A).
#[local] Abbreviation Ty := DTy.

Definition query {A} (f : Z → gmap string AggregationRow → A * gmap string AggregationRow) : agg A := λ d,
  if query_fails (queries_run d) then (Err AggSqlx, mkAggDb (aggregations d) (S (queries_run d)))
  else let '(a, rows) := f (query_time (queries_run d)) (aggregations d) in (Ok a, mkAggDb rows (S (queries_run d))).
Definition select {A} (f : gmap string AggregationRow → A) : agg A := query (λ _ rows, (f rows, rows)).

(** ** Fields *)
Definition normalize_value_to_hex (value : string) : string :=
  match strip_0x value with
  | Some hex_str => "0x" +:+ pad_64 hex_str
  | None =>
      match parse_u128 value with
      | Some num => SqlString.format_hex 66 num
      | None =>
          match parse_i128 value with
          | Some num => SqlString.format_hex 66 (as_u128 (as_u128 num + 2 ^ 127))
          | None => "0x" +:+ pad_64 "0"
          end
      end
  end.
Definition raw_or_normalized (normalize : bool) (raw_value : string) : string :=
  if normalize then normalize_value_to_hex raw_value else raw_value.

Definition ty_to_sql_string (ty : Ty) (normalize : bool) : option string :=
  match ty with
  | TyPrimitive p => Some (raw_or_normalized normalize (prim_sql_value p))
  | TyEnum n o os => Some (raw_or_normalized normalize (enum_sql_value n o os))
  | TyByteArray b => Some b
  | _ => None
  end.

(** [parts] are those from the index on. *)
Fixpoint extract_field_value_recursive (ty : Ty) (parts : list string) (normalize : bool) : option string :=
  match parts with
  | [] => None
  | current_part :: rest =>
      match ty with
      | TyStruct _ children =>
          (fix go ms := match ms with
           | [] => None
           | (name, t, _) :: ms =>
               if String.eqb name current_part then
                 match rest with
                 | [] => ty_to_sql_string t normalize
                 | _ => extract_field_value_recursive t rest normalize
                 end
               else go ms
           end) children
      | TyPrimitive p => match rest with [] => Some (raw_or_normalized normalize (prim_sql_value p)) | _ => None end
      | TyEnum n o os => match rest with [] => Some (raw_or_normalized normalize (enum_sql_value n o os)) | _ => None end
      | TyByteArray b => match rest with [] => Some b | _ => None end
      | _ => None
      end
  end.
Definition extract_field_value (ty : Ty) (path : string) (normalize : bool) : option string :=
  extract_field_value_recursive ty (SqlString.split (ascii_of_nat 46) path) normalize.

(** [extract_field_value(..).ok_or_else(..)?] *)
Definition field (entity : Ty) (field_path : string) (normalize : bool) : agg string :=
  st_lift (ok_or (LeaderboardFieldExtraction field_path) (extract_field_value entity field_path normalize)).

(** ** Values *)
Definition calculate_latest_value (entity : Ty) (field_path : string) : agg (string * string) :=
  let! display_value := field entity field_path false in
  let! normalized_value := field entity field_path true in
  st_ret (normalized_value, display_value).

Definition i64_add (a b : Z) : Z := (a + b + 2 ^ 63) mod 2 ^ 64 - 2 ^ 63.
Definition calculate_count_value (id : string) : agg (string * string) :=
  let! existing_display := select (λ rows, row_display_value <$> rows !! id) in
  let new_count :=
    match existing_display with
    | Some value_str => i64_add (default 0 (parse_i64 value_str)) 1
    | None => 1
    end in
  let display_value := pretty new_count in
  st_ret (normalize_value_to_hex display_value, display_value).

(** The better of two values; [new_normalized > existing_norm] is [Gt]. *)
Definition calculate_best_value (better : comparison) (entity : Ty) (field_path id : string)
  : agg (string * string) :=
  let! new_display := field entity field_path false in
  let! new_normalized := st_lift (unwrap (extract_field_value entity field_path true)) in
  let! existing := select (λ rows, (λ r, (row_value r, row_display_value r)) <$> rows !! id) in
  st_ret (match existing with
          | Some (existing_norm, existing_disp) =>
              if bool_decide (String.compare new_normalized existing_norm = better)
              then (new_normalized, new_display) else (existing_norm, existing_disp)
          | None => (new_normalized, new_display)
          end).
Definition calculate_max_value := calculate_best_value Gt.
Definition calculate_min_value := calculate_best_value Lt.

Definition parse_display_to_i128 (display_str : string) : option Z :=
  match strip_0x display_str with
  | Some hex_str => as_i128 <$> u128_from_hex hex_str
  | None => parse_i128 display_str
  end.

Definition calculate_sum_value (entity : Ty) (field_path id : string) : agg (string * string) :=
  let! new_display := field entity field_path false in
  let! existing_display := select (λ rows, row_display_value <$> rows !! id) in
  let new_val := default 0 (parse_display_to_i128 new_display) in
  let sum_value :=
    match existing_display with
    | Some existing => saturating_add (default 0 (parse_display_to_i128 existing)) new_val
    | None => new_val
    end in
  let display_value := pretty sum_value in
  st_ret (normalize_value_to_hex display_value, display_value).

(** [{"sum":"..","count":..}] *)
Definition avg_metadata (sum count : Z) : string :=
  "{" +:+ ModelTable.quoted "sum" +:+ ":" +:+ ModelTable.quoted (pretty sum) +:+ "," +:+
  ModelTable.quoted "count" +:+ ":" +:+ pretty count +:+ "}".
Definition parsed_metadata (meta : string) : Z * Z :=
  match parse_metadata meta with
  | Some (sum_str, count) => (default 0 (parse_display_to_i128 (default "0" sum_str)), default 0 count)
  | None => (0, 0)
  end.

(** [fetch_optional] into an [Option<String>] gives [None] for no row; a row with
    a null column is an error of the query. *)
Definition calculate_avg_value (entity : Ty) (field_path id : string)
  : agg (string * string * option string) :=
  let! new_display := field entity field_path false in
  let! row := select (λ rows, rows !! id) in
  let! existing_metadata :=
    st_lift (match row with
             | None => Ok None
             | Some r => match row_metadata r with Some m => Ok (Some m) | None => Err AggSqlx end
             end) in
  let '(existing_sum, existing_count) :=
    match existing_metadata with Some meta => parsed_metadata meta | None => (0, 0) end in
  let new_val := default 0 (parse_display_to_i128 new_display) in
  let new_sum := saturating_add existing_sum new_val in
  let new_count := i64_add existing_count 1 in
  let avg_value := if new_count >? 0 then Z.quot new_sum new_count else 0 in
  let display_value := pretty avg_value in
  st_ret (normalize_value_to_hex display_value, display_value, Some (avg_metadata new_sum new_count)).

(** ** The entry *)

(** The window of [ROW_NUMBER] is over the rows the [WHERE] leaves, which is the
    one with the identifier. *)
Definition position_of (rows : gmap string AggregationRow) (id : string) : Z := 1.

Definition entry_of_row (id : string) (r : AggregationRow) (position : Z) : option AggregationEntry :=
  v ← from_be_hex (SqlString.trim_0x (row_value r));
  Some (mkAggEntry id (row_aggregator_id r) (row_entity_id r) v (row_display_value r) (row_model_id r)
    (row_created_at r) (row_updated_at r) position).

Definition upsert_row (id : string) (r : AggregationRow) (rows : gmap string AggregationRow)
  : gmap string AggregationRow :=
  match rows !! id with
  | Some old =>
      <[id := mkAggRow (row_aggregator_id old) (row_entity_id old) (row_value r) (row_display_value r)
         (row_metadata r) (row_model_id r) (row_created_at old) (row_updated_at r)]> rows
  | None => <[id := r]> rows
  end.

Definition upsert_aggregation_entry (id aggregator_id entity_id normalized_value display_value : string)
    (metadata : option string) (model_id : string) : agg AggregationEntry :=
  query (λ now rows, (tt, upsert_row id
    (mkAggRow aggregator_id entity_id normalized_value display_value metadata model_id now now) rows)) ;;;
  let! row := select (λ rows, (λ r, (r, position_of rows id)) <$> rows !! id) in
  let! (r, position) := st_lift (ok_or AggSqlx row) in
  st_lift (unwrap (entry_of_row id r position)).

Definition update_aggregation (config : AggregatorConfig) (entity : Ty) (model_id : string)
  : agg (option AggregationEntry) :=
  match mapM (λ path, extract_field_value entity path false) (agg_group_by config) with
  | None => st_ret None
  | Some entity_id_parts =>
      let entity_id := SqlString.join ":" entity_id_parts in
      let id := agg_id config +:+ ":" +:+ entity_id in
      let without_metadata m := let! (norm, disp) := m in st_ret (norm, disp, None) in
      let! (normalized_value, display_value, metadata) :=
        match agg_aggregation config with
        | AggLatest field_path => without_metadata (calculate_latest_value entity field_path)
        | AggCount => without_metadata (calculate_count_value id)
        | AggMax field_path => without_metadata (calculate_max_value entity field_path id)
        | AggMin field_path => without_metadata (calculate_min_value entity field_path id)
        | AggSum field_path => without_metadata (calculate_sum_value entity field_path id)
        | AggAvg field_path => calculate_avg_value entity field_path id
        end in
      let! entry := upsert_aggregation_entry id (agg_id config) entity_id normalized_value display_value
                      metadata model_id in
      st_ret (Some entry)
  end.
End operations.

(** ** Text of numbers *)
Fixpoint dec_only (s : string) : bool :=
  match s with
  | EmptyString => true
  | String c s => bool_decide (is_Some (dec_val c)) && dec_only s
  end.

Lemma dec_val_char (d : N) : (d < 10)%N → dec_val (pretty_N_char d) = Some (Z.of_N d).
Proof.
  intros Hd. assert (∃ k : nat, (k < 10)%nat ∧ d = N.of_nat k) as (k & Hk & ->).
  { exists (N.to_nat d). split; [lia|]. by rewrite N2Nat.id. }
  do 10 (destruct k as [|k]; [reflexivity|]). lia.
Qed.
Lemma pretty_go_digits x : ∀ s, digits_from 10 dec_val 0 (pretty_N_go x s) = digits_from 10 dec_val (Z.of_N x) s.
Proof.
  induction (N.lt_wf_0 x) as [x _ IH]. intros s. destruct (decide (x = 0)%N) as [->|Hx]; [done|].
  rewrite pretty_N_go_step by lia. rewrite IH by (apply N.div_lt; lia). cbn [digits_from].
  pose proof (N.mod_lt x 10 ltac:(lia)). rewrite dec_val_char by done. simpl. f_equal.
  rewrite (N.div_mod x 10) at 3 by lia. lia.
Qed.
Lemma pretty_go_dec_only x : ∀ s, dec_only s = true → dec_only (pretty_N_go x s) = true.
Proof.
  induction (N.lt_wf_0 x) as [x _ IH]. intros s Hs. destruct (decide (x = 0)%N) as [->|Hx]; [done|].
  rewrite pretty_N_go_step by lia. apply IH; [apply N.div_lt; lia|]. cbn [dec_only]. rewrite Hs.
  pose proof (N.mod_lt x 10 ltac:(lia)). rewrite dec_val_char by done. rewrite bool_decide_eq_true_2; [done|by eexists].
Qed.
Lemma pretty_N_digits (x : N) :
  dec_only (pretty x) = true ∧ digits_from 10 dec_val 0 (pretty x) = Some (Z.of_N x) ∧ pretty x ≠ EmptyString.
Proof.
  unfold pretty, pretty_N. case_decide as Hx; [by subst|].
  pose proof (pretty_go_digits x EmptyString) as Hd. split_and!; [by apply pretty_go_dec_only|by rewrite Hd|].
  intros He. rewrite He in Hd. simpl in Hd. injection Hd as Hd. lia.
Qed.
(** A number that is not negative, as text. *)
Lemma pretty_nonneg n : 0 ≤ n → pretty n = pretty (Z.to_N n).
Proof. intros Hn. by destruct n. Qed.

Lemma dec_head c s : dec_only (String c s) = true →
  Ascii.eqb c plus_sign = false ∧ Ascii.eqb c minus_sign = false.
Proof.
  cbn [dec_only]. intros [[d Hd]%bool_decide_eq_true _]%andb_prop.
  split; apply Ascii.eqb_neq; intros ->; discriminate Hd.
Qed.
Lemma strip_dec s : dec_only s = true → strip_0x s = None.
Proof.
  destruct s as [|c [|c' s]]; [done..|]. cbn [dec_only strip_0x].
  intros [_ [[d Hd]%bool_decide_eq_true _]%andb_prop]%andb_prop.
  destruct (Ascii.eqb_spec c' (ascii_of_nat 120)) as [->|]; [discriminate Hd|]. by rewrite andb_false_r.
Qed.

Lemma number_from_pretty lo hi n : 0 ≤ n → lo ≤ n ≤ hi → number_from 10 dec_val lo hi 1 (pretty n) = Some n.
Proof.
  intros Hn Hr. rewrite pretty_nonneg by done. destruct (pretty_N_digits (Z.to_N n)) as (_ & Hd & Hne).
  unfold number_from. destruct (pretty (Z.to_N n)) as [|c s]; [done|]. rewrite Hd. cbn [mbind option_bind].
  rewrite Z2N.id by done. by rewrite Z.mul_1_l, (proj2 (Z.leb_le _ _)), (proj2 (Z.leb_le _ _)) by lia.
Qed.
Lemma pretty_dec n : 0 ≤ n → dec_only (pretty n) = true ∧ pretty n ≠ EmptyString.
Proof. intros Hn. rewrite pretty_nonneg by done. by destruct (pretty_N_digits (Z.to_N n)) as (? & _ & ?). Qed.

Lemma parse_u128_pretty n : 0 ≤ n ≤ u128_max → parse_u128 (pretty n) = Some n.
Proof.
  intros Hn. destruct (pretty_dec n) as [Hd Hne]; [lia|]. unfold parse_u128, unsigned_from.
  pose proof (number_from_pretty 0 u128_max n ltac:(lia) Hn) as Hp.
  destruct (pretty n) as [|c s]; [done|]. by rewrite (proj1 (dec_head _ _ Hd)).
Qed.
Lemma signed_from_pretty lo hi n : lo ≤ 0 → lo ≤ n ≤ hi → signed_from lo hi (pretty n) = Some n.
Proof.
  intros Hlo Hn. destruct (Z.le_gt_cases 0 n) as [Hpos|Hneg].
  - destruct (pretty_dec n Hpos) as [Hd Hne]. pose proof (number_from_pretty lo hi n Hpos Hn) as Hp.
    unfold signed_from. destruct (pretty n) as [|c s]; [done|]. destruct (dec_head _ _ Hd) as [-> ->]. done.
  - destruct n as [|p|p]; [lia|lia|]. unfold signed_from, pretty, pretty_Z.
    destruct (pretty_N_digits (N.pos p)) as (_ & Hd & Hne). unfold pretty at 1, pretty_positive.
    change ("-" +:+ pretty (N.pos p)) with (String minus_sign (pretty (N.pos p))). cbv iota.
    change (Ascii.eqb minus_sign plus_sign) with false. change (Ascii.eqb minus_sign minus_sign) with true. cbv iota.
    unfold number_from. destruct (pretty (N.pos p)) as [|c s]; [done|]. rewrite Hd. cbn [mbind option_bind].
    change (Z.of_N (N.pos p)) with (Z.pos p). change (-1 * Z.pos p) with (Z.neg p).
    by rewrite (proj2 (Z.leb_le _ _)), (proj2 (Z.leb_le _ _)) by lia.
Qed.
Lemma strip_pretty (n : Z) : strip_0x (pretty n) = None.
Proof.
  destruct (Z.le_gt_cases 0 n) as [Hn|Hn]; [by apply strip_dec, pretty_dec|]. destruct n as [|p|p]; [lia|lia|].
  unfold pretty, pretty_Z. by destruct (pretty p).
Qed.
Lemma parse_display_pretty (n : Z) : i128_min ≤ n ≤ i128_max → parse_display_to_i128 (pretty n) = Some n.
Proof. intros Hn. unfold parse_display_to_i128. rewrite strip_pretty. by apply signed_from_pretty. Qed.
Lemma normalize_pretty (n : Z) : 0 ≤ n ≤ u128_max → normalize_value_to_hex (pretty n) = SqlString.format_hex 66 n.
Proof. intros Hn. unfold normalize_value_to_hex. by rewrite strip_pretty, parse_u128_pretty. Qed.

(** The order of the texts is that of the numbers. *)
Lemma format_compare a b : 0 ≤ a ≤ u128_max → 0 ≤ b ≤ u128_max →
  String.compare (SqlString.format_hex 66 a) (SqlString.format_hex 66 b) = (a ?= b).
Proof.
  intros Ha Hb. assert (∀ x y, 0 ≤ x < y → y ≤ u128_max →
    String.compare (SqlString.format_hex 66 x) (SqlString.format_hex 66 y) = Lt) as Hlt.
  { intros x y Hx Hy. rewrite <- (SqlString.append_nil_r (SqlString.format_hex 66 x)),
      <- (SqlString.append_nil_r (SqlString.format_hex 66 y)).
    unfold u128_max in Hy. apply SqlString.format_hex_compare; simpl; lia. }
  destruct (Z.compare_spec a b) as [->|Hab|Hab].
  - pose proof (String.compare_antisym (SqlString.format_hex 66 b) (SqlString.format_hex 66 b)) as Hr.
    by destruct (String.compare _ _).
  - apply Hlt; lia.
  - rewrite String.compare_antisym, Hlt by lia. done.
Qed.
(** Negative numbers break it: they come after the numbers from zero on that are
    further than [2 ^ 127] above them in the biased range. *)
Lemma negative_order (a b : Z) : i128_min ≤ a < 0 → 0 ≤ b < 2 ^ 127 + a →
  String.compare (normalize_value_to_hex (pretty a)) (normalize_value_to_hex (pretty b)) = Gt.
Proof.
  intros Ha Hb. assert (normalize_value_to_hex (pretty a) = SqlString.format_hex 66 (2 ^ 127 + a)) as ->.
  { unfold normalize_value_to_hex. rewrite strip_pretty. unfold parse_i128.
    rewrite signed_from_pretty by (unfold i128_min, i128_max in *; lia).
    assert (parse_u128 (pretty a) = None) as ->.
    { destruct a as [|p|p]; [lia|lia|]. unfold pretty, pretty_Z. unfold parse_u128, unsigned_from.
      change ("-" +:+ pretty p) with (String minus_sign (pretty p)). cbv iota.
      change (Ascii.eqb minus_sign plus_sign) with false. cbv iota. reflexivity. }
    f_equal. unfold as_u128. rewrite <- (Z_mod_plus_full a 1 (2 ^ 128)).
    rewrite (Z.mod_small (a + 1 * 2 ^ 128)) by (unfold i128_min in *; lia).
    replace (a + 1 * 2 ^ 128 + 2 ^ 127) with (2 ^ 127 + a + 1 * 2 ^ 128) by lia.
    rewrite Z_mod_plus_full. apply Z.mod_small. unfold i128_min in *. lia. }
  rewrite normalize_pretty by (unfold u128_max; lia). rewrite format_compare by (unfold u128_max, i128_min in *; lia).
  apply Z.compare_gt_iff. lia.
Qed.

Lemma digits_from_hex l : Forall SqlString.is_digit l → ∀ acc,
  digits_from 16 hex_val acc (digits_string l) = Some (foldl (λ acc d, 16 * acc + d) acc l).
Proof.
  induction 1 as [|d l Hd _ IH]; intros acc; [done|]. cbn [digits_string foldr digits_from].
  rewrite SqlString.hex_val_char by done. cbn [mbind option_bind]. apply IH.
Qed.
Lemma from_be_hex_all n : 0 ≤ n < 16 ^ 64 → from_be_hex (SqlString.trim_0x (SqlString.format_hex 66 n)) = Some n.
Proof.
  intros Hn. rewrite SqlString.trim_format_hex by lia. unfold from_be_hex.
  destruct (SqlString.pad_digits_spec 64 n) as (Hd & Hv & _ & Hl); [lia|]. change (66 - 2)%nat with 64%nat.
  rewrite SqlString.digits_string_length, Hl by (simpl; lia). simpl (64 =? 64)%nat. cbv iota.
  rewrite digits_from_hex by done. by rewrite <- Hv at 2.
Qed.
Lemma from_be_hex_format n : 0 ≤ n ≤ u128_max → from_be_hex (SqlString.trim_0x (SqlString.format_hex 66 n)) = Some n.
Proof. intros Hn. unfold u128_max in Hn. apply from_be_hex_all. lia. Qed.

(** ** What an entry holds *)
Section refinement.
Context `{Primitives} {TT : TyText} {AE : AggregationEnv}.
Context (no_failure : ∀ n, query_fails n = false).
Context (metadata_law : ∀ sum count, i128_min ≤ sum ≤ i128_max → 0 ≤ count ≤ i64_max →
  parse_metadata (avg_metadata sum count) = Some (Some (pretty sum), Some count)).
Context (config : AggregatorConfig) (group : string).

(** The value of an aggregation after the values [vs]. *)
Definition sum_of (vs : list Z) : Z := foldl saturating_add 0 vs.
Definition agg_spec (vs : list Z) : Z :=
  match agg_aggregation config with
  | AggCount => Z.of_nat (length vs)
  | AggLatest _ => default 0 (last vs)
  | AggMax _ => foldl Z.max 0 vs
  | AggMin _ => match vs with [] => 0 | v :: vs => foldl Z.min v vs end
  | AggSum _ => sum_of vs
  | AggAvg _ => Z.quot (sum_of vs) (Z.of_nat (length vs))
  end.

Definition in_range (v : Z) : Prop := 0 ≤ v ≤ i128_max.
(** A record of the group whose field shows the number [v]. *)
Definition field_shows (entity : DTy) (path : string) (v : Z) : Prop :=
  ∀ normalize, extract_field_value entity path normalize = Some (raw_or_normalized normalize (pretty v)).
Definition shows (entity : DTy) (v : Z) : Prop :=
  (∃ parts, mapM (λ path, extract_field_value entity path false) (agg_group_by config) = Some parts ∧
     SqlString.join ":" parts = group) ∧
  match agg_aggregation config with
  | AggCount => True
  | AggLatest f | AggMax f | AggMin f | AggSum f | AggAvg f => field_shows entity f v
  end.

Definition the_id : string := agg_id config +:+ ":" +:+ group.
Definition row_holds (vs : list Z) (r : AggregationRow) : Prop :=
  row_value r = SqlString.format_hex 66 (agg_spec vs) ∧ row_display_value r = pretty (agg_spec vs) ∧
  match agg_aggregation config with
  | AggAvg _ => row_metadata r = Some (avg_metadata (sum_of vs) (Z.of_nat (length vs)))
  | _ => True
  end.
Definition table_holds (vs : list Z) (d : AggregationDb) : Prop :=
  match vs with [] => aggregations d !! the_id = None | _ => ∃ r, aggregations d !! the_id = Some r ∧ row_holds vs r end.

Lemma sum_range vs : Forall in_range vs → in_range (sum_of vs).
Proof.
  unfold sum_of. induction vs as [|v vs IH] using rev_ind; [unfold in_range, i128_max; simpl; lia|].
  intros [Hvs Hv]%Forall_app. rewrite foldl_snoc. specialize (IH Hvs). rewrite Forall_singleton in Hv.
  revert IH Hv. generalize (foldl saturating_add 0 vs). intros x. unfold saturating_add, in_range, i128_min, i128_max. lia.
Qed.
Lemma foldl_min_range vs : ∀ a, in_range a → Forall in_range vs → in_range (foldl Z.min a vs).
Proof.
  induction vs as [|v vs IH]; intros a Ha Hvs; [done|]. apply Forall_cons in Hvs as [Hv Hvs].
  apply IH; [unfold in_range in *; lia|done].
Qed.
Lemma foldl_max_range vs : ∀ a, in_range a → Forall in_range vs → in_range (foldl Z.max a vs).
Proof.
  induction vs as [|v vs IH]; intros a Ha Hvs; [done|]. apply Forall_cons in Hvs as [Hv Hvs].
  apply IH; [unfold in_range in *; lia|done].
Qed.
Lemma zero_range : in_range 0.
Proof. unfold in_range, i128_max. lia. Qed.
Lemma agg_spec_range vs : Forall in_range vs → Z.of_nat (length vs) ≤ i64_max → in_range (agg_spec vs).
Proof.
  intros Hvs Hlen. pose proof zero_range. unfold agg_spec. destruct (agg_aggregation config).
  - unfold in_range, i128_max, i64_max in *. lia.
  - destruct (last vs) as [v|] eqn:Hl; [|done]. apply last_Some in Hl as [l ->].
    apply Forall_app in Hvs as [_ Hv]. by rewrite Forall_singleton in Hv.
  - by apply foldl_max_range.
  - destruct vs as [|v vs]; [done|]. apply Forall_cons in Hvs as [? ?]. by apply foldl_min_range.
  - by apply sum_range.
  - apply sum_range in Hvs. unfold in_range in *. destruct vs as [|v vs].
    { exact zero_range. }
    split; [apply Z.quot_pos; simpl; lia|].
    etrans; [|apply Hvs]. apply Z.quot_le_upper_bound; simpl; nia.
Qed.

(** What a calculation gives, the table staying as it is. *)
Definition calculates (m : st AggregationDb AggregationError (string * string * option string)) (vs : list Z)
    (d : AggregationDb) : Prop :=
  ∃ meta d', m d = (Ok (SqlString.format_hex 66 (agg_spec vs), pretty (agg_spec vs), meta), d') ∧
    aggregations d' = aggregations d ∧
    match agg_aggregation config with
    | AggAvg _ => meta = Some (avg_metadata (sum_of vs) (Z.of_nat (length vs)))
    | _ => True
    end.

Lemma select_ok {A} (f : gmap string AggregationRow → A) d :
  select f d = (Ok (f (aggregations d)), mkAggDb (aggregations d) (S (queries_run d))).
Proof. unfold select, query. by rewrite no_failure. Qed.
Lemma field_ok entity path v normalize d : field_shows entity path v →
  field entity path normalize d = (Ok (raw_or_normalized normalize (pretty v)), d).
Proof. intros Hf. unfold field, st_lift. by rewrite Hf. Qed.
Lemma range_u128 v : in_range v → 0 ≤ v ≤ u128_max.
Proof. unfold in_range, i128_max, u128_max. lia. Qed.
Lemma range_i128 v : in_range v → i128_min ≤ v ≤ i128_max.
Proof. unfold in_range, i128_min. lia. Qed.
#[local] Hint Resolve range_u128 range_i128 : torii.

(** The row of the group, when there is one. *)
Lemma table_row vs d : table_holds vs d →
  (vs = [] ∧ aggregations d !! the_id = None) ∨
  (vs ≠ [] ∧ ∃ r, aggregations d !! the_id = Some r ∧ row_holds vs r).
Proof. destruct vs; [by left|by right]. Qed.

Lemma first_sum v : in_range v → sum_of [v] = v.
Proof. unfold sum_of, saturating_add, in_range, i128_min. simpl. lia. Qed.

Section step.
Context (vs : list Z) (v : Z) (Hvs : Forall in_range vs) (Hv : in_range v).
Context (Hlen : Z.of_nat (S (length vs)) ≤ i64_max) (entity : DTy) (d : AggregationDb) (Hd : table_holds vs d).

Lemma spec_next_range : in_range (agg_spec (vs ++ [v])).
Proof.
  apply agg_spec_range; [|rewrite length_app; simpl; lia]. apply Forall_app. split; [done|]. by rewrite Forall_singleton.
Qed.
Lemma count_next : i64_add (Z.of_nat (length vs)) 1 = Z.of_nat (length (vs ++ [v])).
Proof. unfold i64_add, i64_max in *. rewrite length_app. simpl. rewrite Z.mod_small by lia. lia. Qed.

Lemma count_step : agg_aggregation config = AggCount →
  calculates (let! (norm, disp) := calculate_count_value the_id in st_ret (norm, disp, None)) (vs ++ [v]) d.
Proof.
  intros Ha. pose proof spec_next_range as Hr. unfold calculates. rewrite Ha. exists None, (mkAggDb (aggregations d) (S (queries_run d))). split; [|done].
  unfold st_bind, calculate_count_value, st_bind. rewrite select_ok.
  assert (agg_spec (vs ++ [v]) = Z.of_nat (length (vs ++ [v]))) as Hs by (unfold agg_spec; by rewrite Ha).
  enough (match row_display_value <$> aggregations d !! the_id with
          | Some t => i64_add (default 0 (parse_i64 t)) 1 | None => 1 end = agg_spec (vs ++ [v])) as ->.
  { unfold st_ret. by rewrite normalize_pretty by auto with torii. }
  rewrite Hs, <- count_next. destruct (table_row _ _ Hd) as [[-> ->]|(_ & r & -> & _ & Hdisp & _)]; [done|].
  cbn [fmap option_fmap option_map]. rewrite Hdisp. unfold agg_spec. rewrite Ha. unfold parse_i64.
  by rewrite signed_from_pretty by (unfold i64_min, i64_max in *; lia).
Qed.

Lemma latest_step f : agg_aggregation config = AggLatest f → field_shows entity f v →
  calculates (let! (norm, disp) := calculate_latest_value entity f in st_ret (norm, disp, None)) (vs ++ [v]) d.
Proof.
  intros Ha Hf. unfold calculates. rewrite Ha. exists None, d. split; [|done].
  assert (agg_spec (vs ++ [v]) = v) as -> by (unfold agg_spec; by rewrite Ha, last_snoc).
  unfold st_bind, calculate_latest_value, st_bind. rewrite !(field_ok _ _ v) by done. cbn [raw_or_normalized].
  by rewrite normalize_pretty by auto with torii.
Qed.

(** The better of the value kept and the new one. *)
Lemma best_step (better : comparison) (choose : Z → Z → Z) f :
  (∀ a b, choose a b = if bool_decide ((b ?= a) = better) then b else a) →
  (match agg_aggregation config with AggMax g | AggMin g => g = f | _ => False end) →
  field_shows entity f v →
  agg_spec (vs ++ [v]) = (match vs with [] => v | _ => choose (agg_spec vs) v end) →
  calculates (let! (norm, disp) := calculate_best_value better entity f the_id in st_ret (norm, disp, None)) (vs ++ [v]) d.
Proof.
  intros Hchoose Ha Hf Hspec. unfold calculates. exists None, (mkAggDb (aggregations d) (S (queries_run d))). split; [|by destruct (agg_aggregation config)].
  unfold st_bind, calculate_best_value, st_bind. rewrite (field_ok _ _ v) by done.
  unfold st_lift. rewrite Hf. cbn [unwrap raw_or_normalized]. rewrite select_ok, normalize_pretty by auto with torii.
  unfold st_ret. rewrite Hspec. destruct (table_row _ _ Hd) as [[-> ->]|(Hne & r & -> & Hval & Hdisp & _)]; [done|].
  cbn [fmap option_fmap option_map]. rewrite Hval, Hdisp.
  assert (in_range (agg_spec vs)) as Hs by (apply agg_spec_range; [done|lia]).
  rewrite format_compare by auto with torii. rewrite Hchoose. destruct vs as [|v0 vs0]; [done|]. by case_bool_decide.
Qed.
Lemma sum_next_val : vs ≠ [] → sum_of (vs ++ [v]) = saturating_add (sum_of vs) v.
Proof. intros _. unfold sum_of. by rewrite foldl_snoc. Qed.

Lemma sum_step f : agg_aggregation config = AggSum f → field_shows entity f v →
  calculates (let! (norm, disp) := calculate_sum_value entity f the_id in st_ret (norm, disp, None)) (vs ++ [v]) d.
Proof.
  intros Ha Hf. pose proof spec_next_range as Hr. unfold calculates. rewrite Ha. exists None, (mkAggDb (aggregations d) (S (queries_run d))). split; [|done].
  unfold st_bind, calculate_sum_value, st_bind. rewrite (field_ok _ _ v) by done. cbn [raw_or_normalized].
  rewrite select_ok, parse_display_pretty by auto with torii. cbn [default from_option id].
  assert (agg_spec (vs ++ [v]) = sum_of (vs ++ [v])) as Hs by (unfold agg_spec; by rewrite Ha).
  enough (match row_display_value <$> aggregations d !! the_id with
          | Some t => saturating_add (default 0 (parse_display_to_i128 t)) v | None => v end = agg_spec (vs ++ [v])) as ->.
  { unfold st_ret. by rewrite normalize_pretty by auto with torii. }
  rewrite Hs. destruct (table_row _ _ Hd) as [[-> ->]|(Hne & r & -> & _ & Hdisp & _)]; [symmetry; by apply first_sum|].
  cbn [fmap option_fmap option_map]. rewrite Hdisp. unfold agg_spec. rewrite Ha, sum_next_val by done.
  by rewrite parse_display_pretty by (apply range_i128, sum_range; done).
Qed.

Lemma avg_step f : agg_aggregation config = AggAvg f → field_shows entity f v →
  calculates (calculate_avg_value entity f the_id) (vs ++ [v]) d.
Proof.
  intros Ha Hf. pose proof spec_next_range as Hr. unfold calculates. rewrite Ha.
  eexists _, (mkAggDb (aggregations d) (S (queries_run d))). split; [|split; reflexivity].
  unfold calculate_avg_value, st_bind. rewrite (field_ok _ _ v) by done. cbn [raw_or_normalized]. rewrite select_ok.
  assert (∃ meta, (match aggregations d !! the_id with
             | None => Ok None
             | Some r => match row_metadata r with Some m => Ok (Some m) | None => Err AggSqlx end
             end) = Ok meta ∧
    match meta with Some meta => parsed_metadata meta | None => (0, 0) end = (sum_of vs, Z.of_nat (length vs)))
    as (meta & -> & Hmeta).
  { destruct (table_row _ _ Hd) as [[-> ->]|(Hne & r & -> & _ & _ & Hm)]; [by eexists|]. rewrite Ha in Hm. rewrite Hm.
    eexists. split; [reflexivity|]. unfold parsed_metadata.
    rewrite metadata_law by (first [apply range_i128, sum_range; done|lia]). cbn [default from_option id].
    by rewrite parse_display_pretty by (apply range_i128, sum_range; done). }
  unfold st_lift. rewrite Hmeta. rewrite parse_display_pretty by auto with torii. cbn [default from_option id].
  rewrite count_next. assert (saturating_add (sum_of vs) v = sum_of (vs ++ [v])) as ->.
  { unfold sum_of. by rewrite foldl_snoc. }
  rewrite (proj2 (Z.gtb_lt _ _)) by (rewrite length_app; simpl; lia).
  replace (Z.quot (sum_of (vs ++ [v])) (Z.of_nat (length (vs ++ [v])))) with (agg_spec (vs ++ [v]))
    by (unfold agg_spec; by rewrite Ha).
  unfold st_ret. by rewrite normalize_pretty by auto with torii.
Qed.

(** The calculation of the configured aggregation. *)
Lemma max_spec f : agg_aggregation config = AggMax f →
  agg_spec (vs ++ [v]) = match vs with [] => v | _ => Z.max (agg_spec vs) v end.
Proof.
  intros Ha. unfold agg_spec. rewrite Ha, foldl_snoc. destruct vs; [|done]. unfold in_range in Hv. simpl. lia.
Qed.
Lemma min_spec f : agg_aggregation config = AggMin f →
  agg_spec (vs ++ [v]) = match vs with [] => v | _ => Z.min (agg_spec vs) v end.
Proof. intros Ha. unfold agg_spec. rewrite Ha. destruct vs as [|v0 l]; [done|]. simpl. apply foldl_snoc. Qed.

Lemma calculation_step : shows entity v →
  calculates
    (match agg_aggregation config with
     | AggLatest f => let! (norm, disp) := calculate_latest_value entity f in st_ret (norm, disp, None)
     | AggCount => let! (norm, disp) := calculate_count_value the_id in st_ret (norm, disp, None)
     | AggMax f => let! (norm, disp) := calculate_max_value entity f the_id in st_ret (norm, disp, None)
     | AggMin f => let! (norm, disp) := calculate_min_value entity f the_id in st_ret (norm, disp, None)
     | AggSum f => let! (norm, disp) := calculate_sum_value entity f the_id in st_ret (norm, disp, None)
     | AggAvg f => calculate_avg_value entity f the_id
     end) (vs ++ [v]) d.
Proof.
  intros [_ Hf]. destruct (agg_aggregation config) as [|f|f|f|f|f] eqn:Ha.
  - by apply count_step.
  - by apply latest_step.
  - apply (best_step Gt Z.max); [|by rewrite Ha|done|by apply (max_spec f)].
    intros a b. destruct (Z.compare_spec b a); case_bool_decide; lia || done.
  - apply (best_step Lt Z.min); [|by rewrite Ha|done|by apply (min_spec f)].
    intros a b. destruct (Z.compare_spec b a); case_bool_decide; lia || done.
  - by apply sum_step.
  - by apply avg_step.
Qed.

(** One more record of the group. *)
Lemma update_step model_id : shows entity v →
  ∃ e d', update_aggregation config entity model_id d = (Ok (Some e), d') ∧ entry_value e = agg_spec (vs ++ [v]) ∧
    table_holds (vs ++ [v]) d' ∧ ∀ id, id ≠ the_id → aggregations d' !! id = aggregations d !! id.
Proof.
  intros Hsh. pose proof (calculation_step Hsh) as (meta & d1 & Hcalc & Hrows & Hmeta).
  pose proof spec_next_range as Hr. destruct Hsh as [(parts & Hparts & Hgroup) _].
  unfold update_aggregation. rewrite Hparts. cbv zeta. rewrite Hgroup. fold the_id. unfold st_bind at 1.
  unfold st_bind in Hcalc |- *. rewrite Hcalc. unfold upsert_aggregation_entry, st_bind, query.
  rewrite no_failure, select_ok, Hrows. unfold upsert_row.
  set (r := mkAggRow (agg_id config) group (SqlString.format_hex 66 (agg_spec (vs ++ [v])))
    (pretty (agg_spec (vs ++ [v]))) meta model_id (query_time (queries_run d1)) (query_time (queries_run d1))).
  set (rows := match aggregations d !! the_id with Some _ => _ | None => _ end).
  assert (∃ r', rows !! the_id = Some r' ∧ row_holds (vs ++ [v]) r') as (r' & Hr' & Hh).
  { unfold rows. destruct (aggregations d !! the_id) as [old|]; rewrite lookup_insert_eq; eexists; (split; [reflexivity|]);
      (split; [done|]); (split; [done|]); by destruct (agg_aggregation config). }
  cbn [aggregations]. rewrite Hr'. cbn [fmap option_fmap option_map ok_or st_lift]. unfold entry_of_row.
  rewrite (proj1 Hh), from_be_hex_format by auto with torii. cbn [mbind option_bind unwrap st_lift].
  eexists _, _. split; [reflexivity|]. split; [done|]. split.
  - assert (∃ r, rows !! the_id = Some r ∧ row_holds (vs ++ [v]) r) as Hex by eauto.
    unfold table_holds. destruct (vs ++ [v]) as [|x l] eqn:Happ; [by destruct vs|]. exact Hex.
  - intros id Hid. cbn [aggregations]. unfold rows. destruct (aggregations d !! the_id); by rewrite lookup_insert_ne.
Qed.
End step.


(** A text field makes the executor panic: the text of a [ByteArray] is stored as
    it is, and read back as a number of 64 digits. *)
Lemma text_field_panics f entity model_id t d :
  agg_aggregation config = AggLatest f →
  (∃ parts, mapM (λ path, extract_field_value entity path false) (agg_group_by config) = Some parts ∧
     SqlString.join ":" parts = group) →
  (∀ normalize, extract_field_value entity f normalize = Some t) → String.length (SqlString.trim_0x t) ≠ 64%nat →
  (update_aggregation config entity model_id d).1 = Panic.
Proof.
  intros Ha (parts & Hparts & Hgroup) Ht Hlen. unfold update_aggregation. rewrite Hparts. cbv zeta. rewrite Hgroup, Ha.
  unfold calculate_latest_value, field, upsert_aggregation_entry, st_bind, st_lift, query, select, query.
  rewrite !Ht. cbn [ok_or st_ret]. rewrite !no_failure. cbn [queries_run aggregations].
  unfold upsert_row. fold the_id.
  assert (∀ r pos, row_value r = t → entry_of_row the_id r pos = None) as Hentry.
  { intros r pos Hr. unfold entry_of_row, from_be_hex. rewrite Hr. by rewrite (proj2 (Nat.eqb_neq _ _) Hlen). }
  destruct (aggregations d !! the_id) as [old|]; rewrite lookup_insert_eq; cbn [fmap option_fmap option_map ok_or];
    by rewrite Hentry.
Qed.
End refinement.

(** ** Witnesses

    Numbers as primitives, a model with a player and a score. *)
Section witnesses.
#[local] Instance z_prims : Primitives := {| Primitive := Z; prim_eqb := Z.eqb |}.
#[local] Instance z_text : TyText := {|
  prim_sql_type _ := SqlInteger; prim_sql_value z := pretty z; enum_sql_value _ _ _ := ""; values_json _ := inr ""
|}.
(** The metadata cut at its quotes; the count is the digits after the colon. *)
Fixpoint digits_prefix (acc : Z) (s : string) : Z :=
  match s with
  | EmptyString => acc
  | String c s => match dec_val c with Some d => digits_prefix (10 * acc + d) s | None => acc end
  end.
Definition demo_parse (s : string) : option (option string * option Z) :=
  match SqlString.split (ascii_of_nat 34) s with
  | [_; _; _; sum; _; _; String _ count] => Some (Some sum, Some (digits_prefix 0 count))
  | _ => None
  end.
#[local] Instance demo_env : AggregationEnv := {|
  query_fails _ := false; query_time n := Z.of_nat n; parse_metadata := demo_parse
|}.

Lemma digits_prefix_spec s n : ∀ acc, digits_from 10 dec_val acc s = Some n → digits_prefix acc (s +:+ "}") = n.
Proof.
  induction s as [|c s IH]; intros acc; [by intros [= <-]|]. cbn [digits_from].
  change (String c s +:+ "}") with (String c (s +:+ "}")). cbn [digits_prefix]. destruct (dec_val c); [|done]. apply IH.
Qed.
Lemma pretty_unquoted (n : Z) : SqlString.free_of (ascii_of_nat 34) (pretty n).
Proof.
  assert (∀ s, dec_only s = true → SqlString.free_of (ascii_of_nat 34) s) as Hdec.
  { intros s. induction s as [|c s IH]; [done|]. cbn [dec_only]. intros [[x Hx]%bool_decide_eq_true Hs]%andb_prop.
    split; [intros ->; discriminate Hx|by apply IH]. }
  destruct (Z.le_gt_cases 0 n) as [Hn|Hn]; [by apply Hdec, pretty_dec|]. destruct n as [|p|p]; [lia|lia|].
  unfold pretty, pretty_Z. apply SqlString.free_of_app; [by repeat split|]. apply Hdec.
  apply (proj1 (pretty_N_digits (N.pos p))).
Qed.
Lemma demo_metadata sum count : 0 ≤ count → demo_parse (avg_metadata sum count) = Some (Some (pretty sum), Some count).
Proof.
  intros Hc. unfold demo_parse, avg_metadata, ModelTable.quoted, ModelTable.double_quote.
  rewrite !SqlString.append_assoc. rewrite !SqlString.split_sep by (by repeat split || apply pretty_unquoted).
  rewrite SqlString.split_free
    by (apply SqlString.free_of_app; [by repeat split|apply SqlString.free_of_app; [apply pretty_unquoted|by repeat split]]).
  change (":" +:+ pretty count +:+ "}") with (String (ascii_of_nat 58) (pretty count +:+ "}")). cbv iota.
  do 3 f_equal. apply digits_prefix_spec. rewrite pretty_nonneg by done.
  destruct (pretty_N_digits (Z.to_N count)) as (_ & -> & _). by rewrite Z2N.id.
Qed.

Definition demo_config : AggregatorConfig := mkAggregator "top" "game-Score" ["player"] (AggAvg "stats.score") SortDesc.
Definition demo_record (score : Z) : DTy :=
  TyStruct "game-Score" [("player", TyPrimitive (7 : Primitive), true);
    ("stats", TyStruct "Stats" [("score", TyPrimitive (score : Primitive), false)], false)].
Lemma demo_shows score : shows demo_config "7" (demo_record score) score.
Proof. split; [exists ["7"]; split; reflexivity|]. intros normalize. reflexivity. Qed.

End witnesses.
End Agg.
