(* ===== verification/Achievement.v ===== *)
(** * Achievements ([crates/sqlite/sqlite/src/executor/achievement.rs])

    The executor keeps four tables of achievements: their definitions, their
    tasks, the progress of every player on every task, and the totals of every
    player. [register_achievement] and [update_achievement_progression] are what
    it runs for the event messages of the models configured for them.

    A table is the list of its rows in the order of insertion, which is the order
    in which SQLite scans it. A query may fail ([ach_query_fails]), and what was
    written before it in the same call stays. Numbers of type [f64] and [f32] are
    those of [SpecFloat]. *)

From S2P Require Import Prelude Math Proto SqlString Traits Database Executor ModelTable Aggregator.
From stdpp Require Import pretty sorting.
From Stdlib Require Import Ascii SpecFloat.
Local Open Scope Z_scope.
Local Open Scope torii_scope.

(** ** Numbers *)
Definition parse_i32 : string → option Z := signed_from (- 2 ^ 31) (2 ^ 31 - 1).
Definition as_i32 (n : Z) : Z := (n + 2 ^ 31) mod 2 ^ 32 - 2 ^ 31.
Definition as_u32 (n : Z) : Z := n mod 2 ^ 32.
Definition i32_ok (n : Z) : Prop := - 2 ^ 31 ≤ n < 2 ^ 31.
(** [.sum()] of [i32]s, as in a release build *)
Definition sum_i32 (l : list Z) : Z := foldl (λ acc n, as_i32 (acc + n)) 0 l.

Abbreviation float := spec_float (only parsing).
Definition f64_of (n : Z) : float := binary_normalize 53 1024 n 0 false.
Definition f32_of (n : Z) : float := binary_normalize 24 128 n 0 false.
Definition f64_div (a b : float) : float := SFdiv 53 1024 a b.
Definition f32_div (a b : float) : float := SFdiv 24 128 a b.
Definition f64_mul (a b : float) : float := SFmul 53 1024 a b.

(** [(part as f64 / total as f64) * 100.0], or [0.0] of nothing *)
Definition percentage (part total : Z) : float :=
  if total >? 0 then f64_mul (f64_div (f64_of part) (f64_of total)) (f64_of 100) else f64_of 0.

(** ** Data *)
Record AchievementTaskDefinition : Type := mkTaskDef {
  def_id : string; def_description : string; def_total : Z
}.
Record AchievementRow : Type := mkAchievement {
  ach_id : string; ach_world_address : string; ach_namespace : string; ach_entity_id : string;
  ach_hidden : Z; ach_index_num : Z; ach_points : Z; ach_start : string; ach_end : string;
  ach_group_name : string; ach_icon : string; ach_title : string; ach_description : string;
  ach_tasks : string; ach_data : option string;
  ach_total_completions : Z; ach_completion_rate : float; ach_created_at : Z; ach_updated_at : Z
}.
Record TaskRow : Type := mkTaskRow {
  task_row_id : string; task_achievement_id : string; task_task_id : string; task_world_address : string;
  task_namespace : string; task_description : string; task_total : Z;
  task_total_completions : Z; task_completion_rate : float; task_created_at : Z
}.
Record ProgressionRow : Type := mkProgression {
  prog_id : string; prog_task_id : string; prog_world_address : string; prog_namespace : string;
  prog_player_id : string; prog_count : Z; prog_completed : Z; prog_completed_at : option Z;
  prog_created_at : Z; prog_updated_at : Z
}.
Record PlayerAchievementStats : Type := mkStats {
  stats_id : string; stats_world_address : string; stats_namespace : string; stats_player_id : string;
  stats_total_points : Z; stats_completed_achievements : Z; stats_total_achievements : Z;
  stats_completion_percentage : float; stats_last_achievement_at : option Z;
  stats_created_at : Z; stats_updated_at : Z
}.
Record AchievementStatus : Type := mkStatus { status_completed : bool; status_progress : float; status_points : Z }.
Record PlayerAchievement : Type := mkPlayerAchievement {
  pa_achievement_id : string; pa_title : string; pa_points : Z; pa_completed : bool; pa_progress : float;
  pa_earned_points : Z
}.
Record AchievementProgression : Type := mkAchievementProgression {
  ap_id : string; ap_achievement_id : string; ap_task_id : string; ap_world_address : Felt;
  ap_namespace : string; ap_player_id : Felt; ap_count : Z; ap_completed : bool; ap_completed_at : option Z;
  ap_created_at : Z; ap_updated_at : Z
}.
Inductive AchievementError : Type := AchSqlx | AchFieldExtraction | AchParse.

Record AchievementDb : Type := mkAchDb {
  achievements : list AchievementRow;
  achievement_tasks : list TaskRow;
  achievement_progressions : list ProgressionRow;
  player_achievements : list PlayerAchievementStats;
  ach_queries_run : nat
}.

Class AchievementEnv `{Primitives} : Type := {
  ach_query_fails : nat → bool;
  (** [CURRENT_TIMESTAMP] and [Utc::now()] *)
  ach_query_time : nat → Z;
  (** [serde_json::from_str::<Vec<AchievementTaskDefinition>>] *)
  parse_tasks : string → option (list AchievementTaskDefinition);
  (** [serde_json::to_string(&ty.to_json_value()?)] *)
  ty_json : DTy → option string;
  (** [Felt::from_hex] *)
  felt_of_hex : string → option Felt;
  (** the decoding of an INTEGER column into an [i32] *)
  decode_i32 : Z → option Z
}.

Module Ach.

Section operations.
Context `{Primitives} {TT : TyText} {AE : AchievementEnv}.
#[local] Abbreviation ach A := (st AchievementDb AchievementError A).
#[local] Abbreviation Ty := DTy.

Definition count_query (d : AchievementDb) : AchievementDb :=
  mkAchDb (achievements d) (achievement_tasks d) (achievement_progressions d) (player_achievements d)
    (S (ach_queries_run d)).
Definition query {A} (f : Z → AchievementDb → option (A * AchievementDb)) : ach A := λ d,
  if ach_query_fails (ach_queries_run d) then (Err AchSqlx, count_query d)
  else match f (ach_query_time (ach_queries_run d)) d with
       | Some (a, d') => (Ok a, count_query d')
       | None => (Err AchSqlx, count_query d)
       end.
Definition select {A} (f : AchievementDb → A) : ach A := query (λ _ d, Some (f d, d)).
Definition run (f : Z → AchievementDb → AchievementDb) : ach unit := query (λ now d, Some (tt, f now d)).

Definition set_achievements l d :=
  mkAchDb l (achievement_tasks d) (achievement_progressions d) (player_achievements d) (ach_queries_run d).
Definition set_tasks l d :=
  mkAchDb (achievements d) l (achievement_progressions d) (player_achievements d) (ach_queries_run d).
Definition set_progressions l d :=
  mkAchDb (achievements d) (achievement_tasks d) l (player_achievements d) (ach_queries_run d).
Definition set_player_achievements l d :=
  mkAchDb (achievements d) (achievement_tasks d) (achievement_progressions d) l (ach_queries_run d).

(** [INSERT .. ON CONFLICT(id) DO UPDATE] *)
Fixpoint upsert {A} (key : A → string) (update : A → A) (new : A) (l : list A) : list A :=
  match l with
  | [] => [new]
  | a :: l => if decide (key a = key new) then update a :: l else a :: upsert key update new l
  end.

(** ** Fields *)
Definition ty_to_string (ty : Ty) : outcome AchievementError (option string) :=
  match ty with
  | TyPrimitive p => Ok (Some (prim_sql_value p))
  | TyEnum n o os => Ok (Some (enum_sql_value n o os))
  | TyByteArray b => Ok (Some b)
  | _ => match ty_json ty with Some s => Ok (Some s) | None => Err AchParse end
  end.

Definition extract_field_value (ty : Ty) (field_name : string) : outcome AchievementError (option string) :=
  match ty with
  | TyStruct _ children =>
      match list_find (λ m : string * Ty * bool, m.1.1 = field_name) children with
      | Some (_, (_, t, _)) => ty_to_string t
      | None => Ok None
      end
  | TyPrimitive p => Ok (Some (prim_sql_value p))
  | TyEnum n o os => Ok (Some (enum_sql_value n o os))
  | TyByteArray b => Ok (Some b)
  | _ => Ok None
  end.

(** [extract_field_value(..)?.ok_or_else(..)?], [.unwrap_or(..)] and
    [.and_then(|v| v.parse::<i32>().ok()).unwrap_or(..)] *)
Definition field (entity : Ty) (name : string) : ach string :=
  let! v := st_lift (extract_field_value entity name) in st_lift (ok_or AchFieldExtraction v).
Definition field_or (default_value : string) (entity : Ty) (name : string) : ach string :=
  let! v := st_lift (extract_field_value entity name) in st_ret (default default_value v).
Definition field_i32_or (default_value : Z) (entity : Ty) (name : string) : ach Z :=
  let! v := st_lift (extract_field_value entity name) in st_ret (default default_value (v ≫= parse_i32)).

(** ** Registration *)
Definition upsert_achievement (r : AchievementRow) (l : list AchievementRow) : list AchievementRow :=
  upsert ach_id (λ old,
    mkAchievement (ach_id old) (ach_world_address old) (ach_namespace old) (ach_entity_id old)
      (ach_hidden r) (ach_index_num r) (ach_points r) (ach_start r) (ach_end r) (ach_group_name r)
      (ach_icon r) (ach_title r) (ach_description r) (ach_tasks r) (ach_data r)
      (ach_total_completions old) (ach_completion_rate old) (ach_created_at old) (ach_updated_at r)) r l.

Definition upsert_task (r : TaskRow) (l : list TaskRow) : list TaskRow :=
  upsert task_row_id (λ old,
    mkTaskRow (task_row_id old) (task_achievement_id old) (task_task_id old) (task_world_address old)
      (task_namespace old) (task_description r) (task_total r)
      (task_total_completions old) (task_completion_rate old) (task_created_at old)) r l.

Definition new_task (world_address namespace achievement_id : string) (task : AchievementTaskDefinition)
    (now : Z) : TaskRow :=
  mkTaskRow (world_address +:+ ":" +:+ namespace +:+ ":" +:+ achievement_id +:+ ":" +:+ def_id task)
    achievement_id (def_id task) world_address namespace (def_description task) (as_i32 (def_total task))
    0 (f64_of 0) now.

(** The column [group_name] may not be null: the statement fails without it. *)
Definition insert_achievement (r : string → Z → AchievementRow) (group_name : option string) : ach unit :=
  query (λ now d,
    match group_name with
    | Some g => Some (tt, set_achievements (upsert_achievement (r g now) (achievements d)) d)
    | None => None
    end).

Definition register_achievement (world_address namespace : string) (entity : Ty) : ach (option string) :=
  let! entity_id := field entity "id" in
  let achievement_id := world_address +:+ ":" +:+ namespace +:+ ":" +:+ entity_id in
  let! hidden := field_i32_or 0 entity "hidden" in
  let! index_num := field_i32_or 0 entity "index" in
  let! points := field_i32_or 0 entity "points" in
  let! start := field_or "" entity "start" in
  let! end_ := field_or "" entity "end" in
  let group_name := match extract_field_value entity "group" with Ok v => v | _ => None end in
  let! icon := field_or "" entity "icon" in
  let! title := field_or "" entity "title" in
  let! description := field_or "" entity "description" in
  let! tasks := field_or "[]" entity "tasks" in
  let! data := st_lift (extract_field_value entity "data") in
  insert_achievement (λ group now,
    mkAchievement achievement_id world_address namespace entity_id hidden index_num points start end_ group
      icon title description tasks data 0 (f64_of 0) now now) group_name ;;;
  let task_definitions := default [] (parse_tasks tasks) in
  for_each (λ task, run (λ now d,
    set_tasks (upsert_task (new_task world_address namespace achievement_id task now) (achievement_tasks d)) d))
    task_definitions ;;;
  st_ret (Some achievement_id).

(** ** The status of an achievement *)
Definition joined (p : ProgressionRow) (t : TaskRow) : bool :=
  bool_decide (task_task_id t = prog_task_id p ∧ task_world_address t = prog_world_address p ∧
               task_namespace t = prog_namespace p).

(** [SELECT COUNT .. JOIN .. WHERE achievement_id = ? AND player_id = ? AND completed = 1] *)
Definition count_completed_tasks (achievement_id player_id : string) (d : AchievementDb) : Z :=
  Z.of_nat (length (filter (λ pt : ProgressionRow * TaskRow,
    joined pt.1 pt.2 = true ∧ task_achievement_id pt.2 = achievement_id ∧
    prog_player_id pt.1 = player_id ∧ prog_completed pt.1 = 1)
    (cprod (achievement_progressions d) (achievement_tasks d)))).

Definition calculate_achievement_status (achievement_id player_id : string) : ach AchievementStatus :=
  let! achievement_data := select (λ d,
    head (filter (λ a, ach_id a = achievement_id) (achievements d))) in
  let '(tasks_json, points) :=
    match achievement_data with Some a => (ach_tasks a, ach_points a) | None => ("[]", 0) end in
  let total_tasks := Z.of_nat (length (default [] (parse_tasks tasks_json))) in
  if total_tasks =? 0 then st_ret (mkStatus false (f32_of 0) 0)
  else
    let! completed_tasks := select (count_completed_tasks achievement_id player_id) in
    let progress := f32_div (f32_of completed_tasks) (f32_of total_tasks) in
    let completed := completed_tasks =? total_tasks in
    st_ret (mkStatus completed progress (if completed then points else 0)).

(** ** Completion statistics *)
Definition distinct {A} `{EqDecision A} (l : list A) : Z := Z.of_nat (length (remove_dups l)).

Definition in_scope (world_address namespace : string) (p : ProgressionRow) : Prop :=
  prog_world_address p = world_address ∧ prog_namespace p = namespace.
#[export] Instance in_scope_dec w n p : Decision (in_scope w n p) := _.

Definition count_players (world_address namespace : string) (d : AchievementDb) : Z :=
  distinct (prog_player_id <$> filter (in_scope world_address namespace) (achievement_progressions d)).

Definition update_task_completion_stats (world_address namespace task_id : string) : ach unit :=
  let! total_completions := select (λ d,
    distinct (prog_player_id <$> filter (λ p, in_scope world_address namespace p ∧ prog_task_id p = task_id ∧
      prog_completed p = 1) (achievement_progressions d))) in
  let! total_players := select (count_players world_address namespace) in
  let completion_rate := percentage total_completions total_players in
  run (λ _ d, set_tasks ((λ t,
    if decide (task_world_address t = world_address ∧ task_namespace t = namespace ∧ task_task_id t = task_id)
    then mkTaskRow (task_row_id t) (task_achievement_id t) (task_task_id t) (task_world_address t)
           (task_namespace t) (task_description t) (task_total t) total_completions completion_rate
           (task_created_at t)
    else t) <$> achievement_tasks d) d).

(** [.. WHERE .. AND task_id IN (..) AND completed = 1 GROUP BY player_id
    HAVING COUNT(DISTINCT task_id) = ?]: the players of the groups *)
Definition players_completing (world_address namespace : string) (task_ids : list string)
    (d : AchievementDb) : list string :=
  let rows := filter (λ p, in_scope world_address namespace p ∧ prog_task_id p ∈ task_ids ∧
                           prog_completed p = 1) (achievement_progressions d) in
  filter (λ player, distinct (prog_task_id <$> filter (λ p, prog_player_id p = player) rows)
                    = Z.of_nat (length task_ids))
    (remove_dups (prog_player_id <$> rows)).

Definition update_achievement_completion_stats (achievement_id : string) : ach unit :=
  match SqlString.split ":"%char achievement_id with
  | world_address :: namespace :: _ :: _ =>
      let! task_ids := select (λ d,
        task_task_id <$> filter (λ t, task_achievement_id t = achievement_id) (achievement_tasks d)) in
      match task_ids with
      | [] => st_ret tt
      | _ =>
          let! completions := select (players_completing world_address namespace task_ids) in
          let total_completions := Z.of_nat (length completions) in
          let! total_players := select (count_players world_address namespace) in
          let completion_rate := percentage total_completions total_players in
          run (λ _ d, set_achievements ((λ a,
            if decide (ach_id a = achievement_id)
            then mkAchievement (ach_id a) (ach_world_address a) (ach_namespace a) (ach_entity_id a)
                   (ach_hidden a) (ach_index_num a) (ach_points a) (ach_start a) (ach_end a)
                   (ach_group_name a) (ach_icon a) (ach_title a) (ach_description a) (ach_tasks a)
                   (ach_data a) total_completions completion_rate (ach_created_at a) (ach_updated_at a)
            else a) <$> achievements d) d)
      end
  | _ => st_ret tt
  end.

(** ** Players *)
Definition by_index (a b : AchievementRow) : Prop := ach_index_num a ≤ ach_index_num b.
#[export] Instance by_index_dec : RelDecision by_index := λ a b, Z_le_dec _ _.

Definition achievements_of (world_address namespace : string) (d : AchievementDb) : list AchievementRow :=
  filter (λ a, ach_world_address a = world_address ∧ ach_namespace a = namespace) (achievements d).

Definition get_player_achievements (world_address namespace player_id : string)
  : ach (list PlayerAchievement) :=
  let! rows := select (λ d, merge_sort by_index (achievements_of world_address namespace d)) in
  st_mapM (λ a,
    let! status := calculate_achievement_status (ach_id a) player_id in
    st_ret (mkPlayerAchievement (ach_id a) (ach_title a) (ach_points a) (status_completed status)
              (status_progress status) (status_points status))) rows.

Definition get_player_total_points (world_address namespace player_id : string) : ach Z :=
  let! l := get_player_achievements world_address namespace player_id in
  st_ret (sum_i32 (pa_earned_points <$> l)).

(** [MAX(completed_at)], which leaves out nulls *)
Definition last_completion (world_address namespace player_id : string) (d : AchievementDb) : option Z :=
  foldr (λ p acc, union_with (λ a b, Some (Z.max a b)) (prog_completed_at p) acc) None
    (filter (λ p, in_scope world_address namespace p ∧ prog_player_id p = player_id ∧ prog_completed p = 1)
       (achievement_progressions d)).

Definition upsert_stats (r : PlayerAchievementStats) (l : list PlayerAchievementStats)
  : list PlayerAchievementStats :=
  upsert stats_id (λ old,
    mkStats (stats_id old) (stats_world_address old) (stats_namespace old) (stats_player_id old)
      (stats_total_points r) (stats_completed_achievements r) (stats_total_achievements r)
      (stats_completion_percentage r) (stats_last_achievement_at r) (stats_created_at old)
      (stats_updated_at r)) r l.

(** A row read as [PlayerAchievementStats] *)
Definition decode_stats (r : PlayerAchievementStats) : option PlayerAchievementStats :=
  points ← decode_i32 (stats_total_points r);
  completed ← decode_i32 (stats_completed_achievements r);
  total ← decode_i32 (stats_total_achievements r);
  Some (mkStats (stats_id r) (stats_world_address r) (stats_namespace r) (stats_player_id r)
          points completed total (stats_completion_percentage r) (stats_last_achievement_at r)
          (stats_created_at r) (stats_updated_at r)).

Definition update_player_achievement_stats (world_address namespace player_id : string)
  : ach PlayerAchievementStats :=
  let id := world_address +:+ ":" +:+ namespace +:+ ":" +:+ player_id in
  let! total_achievements := select (λ d, Z.of_nat (length (achievements_of world_address namespace d))) in
  let! l := get_player_achievements world_address namespace player_id in
  let completed_achievements := as_i32 (Z.of_nat (length (filter (λ a, pa_completed a = true) l))) in
  let total_points := sum_i32 (pa_earned_points <$> l) in
  let completion_percentage := percentage completed_achievements total_achievements in
  let! last_achievement_at := select (last_completion world_address namespace player_id) in
  run (λ now d, set_player_achievements (upsert_stats
    (mkStats id world_address namespace player_id total_points completed_achievements total_achievements
       completion_percentage last_achievement_at now now) (player_achievements d)) d) ;;;
  let! row := select (λ d, head (filter (λ r, stats_id r = id) (player_achievements d))) in
  let! row := st_lift (ok_or AchSqlx row) in
  st_lift (ok_or AchSqlx (decode_stats row)).

Definition get_player_stats (world_address namespace player_id : string)
  : ach (option PlayerAchievementStats) :=
  let! row := select (λ d, head (filter (λ r, stats_world_address r = world_address ∧
    stats_namespace r = namespace ∧ stats_player_id r = player_id) (player_achievements d))) in
  match row with
  | None => st_ret None
  | Some r => let! r := st_lift (ok_or AchSqlx (decode_stats r)) in st_ret (Some r)
  end.

Definition by_points (a b : PlayerAchievementStats) : Prop :=
  stats_total_points b < stats_total_points a ∨
  stats_total_points a = stats_total_points b ∧
  stats_completed_achievements b ≤ stats_completed_achievements a.
#[export] Instance by_points_dec : RelDecision by_points.
Proof. intros a b. unfold by_points. apply _. Defined.

(** [LIMIT ?]: a negative number is no limit *)
Definition limit_rows {A} (limit : Z) (l : list A) : list A :=
  if limit <? 0 then l else take (Z.to_nat limit) l.

Definition get_achievement_leaderboard (world_address namespace : string) (limit : Z)
  : ach (list PlayerAchievementStats) :=
  let! rows := select (λ d, limit_rows limit (merge_sort by_points
    (filter (λ r, stats_world_address r = world_address ∧ stats_namespace r = namespace)
       (player_achievements d)))) in
  st_lift (ok_or AchSqlx (mapM decode_stats rows)).

(** ** Progression *)

(** [new.prog_count] is what is added; [target] the bound of the statement. *)
Definition upsert_progression (target : Z) (new : ProgressionRow) (l : list ProgressionRow)
  : list ProgressionRow :=
  upsert prog_id (λ old,
    let count := prog_count old + prog_count new in
    mkProgression (prog_id old) (prog_task_id old) (prog_world_address old) (prog_namespace old)
      (prog_player_id old) count (if target <=? count then 1 else 0)
      (if (target <=? count) && (prog_completed old =? 0) then Some (prog_updated_at new)
       else prog_completed_at old)
      (prog_created_at old) (prog_updated_at new)) new l.

Definition progression_key (world_address namespace task_id player_id : string) : string :=
  world_address +:+ ":" +:+ namespace +:+ ":" +:+ task_id +:+ ":" +:+ player_id.

(** The statement, which returns the row it wrote *)
Definition write_progression (target : Z) (new : Z → ProgressionRow) : ach ProgressionRow :=
  query (λ now d,
    let l := upsert_progression target (new now) (achievement_progressions d) in
    p ← head (filter (λ p, prog_id p = prog_id (new now)) l);
    Some (p, set_progressions l d)).

Definition utc_now : ach Z := λ d, (Ok (ach_query_time (ach_queries_run d)), d).

Definition update_achievement_progression (world_address namespace : string) (entity : Ty)
  : ach (option AchievementProgression) :=
  let! player_id := field entity "player_id" in
  let! task_id := field entity "task_id" in
  let! count := field_i32_or 1 entity "count" in
  let! task_info := select (λ d, head (filter (λ t, task_world_address t = world_address ∧
    task_namespace t = namespace ∧ task_task_id t = task_id) (achievement_tasks d))) in
  match task_info with
  | None => st_ret None
  | Some t =>
      let achievement_id := task_achievement_id t in
      let task_target := task_total t in
      let progression_id := progression_key world_address namespace task_id player_id in
      let initial_completed := task_target <=? count in
      let! now := utc_now in
      let initial_completed_at := if initial_completed then Some now else None in
      let! row := write_progression task_target (λ now,
        mkProgression progression_id task_id world_address namespace player_id count
          (if initial_completed then 1 else 0) initial_completed_at now now) in
      let! new_count := st_lift (ok_or AchSqlx (decode_i32 (prog_count row))) in
      let completed := prog_completed row =? 1 in
      let! overall_status := calculate_achievement_status achievement_id player_id in
      (if completed then update_task_completion_stats world_address namespace task_id else st_ret tt) ;;;
      (if status_completed overall_status then update_achievement_completion_stats achievement_id
       else st_ret tt) ;;;
      update_player_achievement_stats world_address namespace player_id ;;;
      let! world_address_felt := st_lift (ok_or AchParse (felt_of_hex world_address)) in
      let! player_id_felt := st_lift (ok_or AchParse (felt_of_hex player_id)) in
      st_ret (Some (mkAchievementProgression progression_id achievement_id task_id world_address_felt
        namespace player_id_felt (as_u32 new_count) completed (prog_completed_at row)
        (prog_created_at row) (prog_updated_at row)))
  end.
End operations.

(** ** The abstract board

    Trophies with their tasks, and what every player did on every task. *)
Record Trophy : Type := mkTrophy { trophy_id : string; trophy_points : Z; trophy_tasks : list (string * Z) }.
Record Board : Type := mkBoard { trophies : list Trophy; progress : gmap (string * string) Z }.

Definition all_tasks (b : Board) : list (string * Z) := trophies b ≫= trophy_tasks.
(** The bound of a task is the one it was first registered with. *)
Definition target (b : Board) (task : string) : option Z :=
  snd <$> head (filter (λ x : string * Z, x.1 = task) (all_tasks b)).
Definition reached (b : Board) (task : string) (count : Z) : bool :=
  match target b task with Some g => g <=? count | None => false end.
Definition done_by (b : Board) (player task : string) : bool :=
  match progress b !! (task, player) with Some n => reached b task n | None => false end.
Definition achieved (b : Board) (player : string) (t : Trophy) : bool :=
  negb (bool_decide (trophy_tasks t = [])) && forallb (λ x, done_by b player x.1) (trophy_tasks t).

Definition register (t : Trophy) (b : Board) : Board := mkBoard (trophies b ++ [t]) (progress b).
Definition advance (task player : string) (count : Z) (b : Board) : Board :=
  match target b task with
  | Some _ =>
      mkBoard (trophies b)
        (<[(task, player) := default 0 (progress b !! (task, player)) + count]> (progress b))
  | None => b
  end.

Definition points_of (b : Board) (player : string) : Z :=
  foldr Z.add 0 (trophy_points <$> filter (λ t, achieved b player t = true) (trophies b)).
Definition completed_by (b : Board) (player : string) : Z :=
  Z.of_nat (length (filter (λ t, achieved b player t = true) (trophies b))).

(** ** Generic facts *)
Lemma length_filter_cons {A} (P : A → Prop) `{∀ x, Decision (P x)} x l :
  length (filter P (x :: l)) = ((if decide (P x) then 1 else 0) + length (filter P l))%nat.
Proof. rewrite filter_cons. by destruct (decide (P x)). Qed.

Lemma sum_list_with_add {A} (f g : A → nat) l :
  sum_list_with (λ x, f x + g x)%nat l = (sum_list_with f l + sum_list_with g l)%nat.
Proof. induction l as [|x l IH]; simpl; lia. Qed.

Lemma length_filter_sum {A} (P : A → Prop) `{∀ x, Decision (P x)} l :
  length (filter P l) = sum_list_with (λ x, if decide (P x) then 1%nat else 0%nat) l.
Proof. induction l as [|x l IH]; [done|]. rewrite length_filter_cons, IH. done. Qed.

Lemma sum_list_with_fmap {A B} (f : B → nat) (g : A → B) l :
  sum_list_with f (g <$> l) = sum_list_with (f ∘ g) l.
Proof. induction l as [|x l IH]; [done|]. simpl. by rewrite <- IH. Qed.

Lemma sum_list_with_ext {A} (f g : A → nat) l :
  (∀ x, x ∈ l → f x = g x) → sum_list_with f l = sum_list_with g l.
Proof.
  induction l as [|x l IH]; intros Hfg; [done|]. simpl.
  rewrite Hfg by left. rewrite IH; [done|]. intros y Hy. apply Hfg. by right.
Qed.

(** A filtered product, counted by its second components *)
Lemma length_filter_cprod {A B} (P : A * B → Prop) `{∀ x, Decision (P x)} l k :
  length (filter P (cprod l k)) = sum_list_with (λ y, length (filter (λ x, P (x, y)) l)) k.
Proof.
  induction l as [|x l IH]; simpl.
  - by induction k.
  - change (cprod (x :: l) k) with (((x,.) <$> k) ++ cprod l k).
    rewrite filter_app, length_app, IH, length_filter_sum, sum_list_with_fmap, <- sum_list_with_add.
    apply sum_list_with_ext. intros y _. by rewrite length_filter_cons.
Qed.


Lemma length_filter_unique {A K} (P : A → Prop) `{∀ x, Decision (P x)} (key : A → K) (k : K) l :
  NoDup (key <$> l) → (∀ x, P x → key x = k) →
  length (filter P l) = 0%nat ∧ (∀ x, x ∈ l → ¬ P x) ∨
  length (filter P l) = 1%nat ∧ ∃ x, x ∈ l ∧ P x.
Proof.
  intros Hnd Hk. induction l as [|x l IH]; [left; split; [done|]; intros ? ?%not_elem_of_nil; done|].
  rewrite fmap_cons, NoDup_cons in Hnd. destruct Hnd as [Hx Hnd]. rewrite length_filter_cons.
  destruct (IH Hnd) as [[-> Hn]|[-> (y & Hy & HP)]]; destruct (decide (P x)) as [Px|Px].
  - right. split; [done|]. exists x. split; [left|done].
  - left. split; [done|]. intros z [->|Hz]%elem_of_cons; auto.
  - exfalso. apply Hx. rewrite (Hk _ Px), <- (Hk _ HP). by apply list_elem_of_fmap_2.
  - right. split; [done|]. exists y. split; [by right|done].
Qed.

Lemma upsert_cases {A} (key : A → string) update new l :
  (∃ l1 a l2, l = l1 ++ a :: l2 ∧ key a = key new ∧ (∀ x, x ∈ l1 → key x ≠ key new) ∧
     upsert key update new l = l1 ++ update a :: l2) ∨
  ((∀ x, x ∈ l → key x ≠ key new) ∧ upsert key update new l = l ++ [new]).
Proof.
  induction l as [|x l IH]; simpl.
  { right. split; [|done]. by intros ? ?%not_elem_of_nil. }
  case_decide as Hx.
  { left. exists [], x, l. split_and!; [done|done| |done]. by intros ? ?%not_elem_of_nil. }
  destruct IH as [(l1 & a & l2 & -> & Ha & Hl1 & ->)|[Hl ->]].
  - left. exists (x :: l1), a, l2. split_and!; [done|done| |done].
    intros y [->|Hy]%elem_of_cons; auto.
  - right. split; [|done]. intros y [->|Hy]%elem_of_cons; auto.
Qed.

Lemma as_i32_range n : i32_ok (as_i32 n).
Proof. unfold i32_ok, as_i32. pose proof (Z.mod_pos_bound (n + 2 ^ 31) (2 ^ 32)). lia. Qed.
Lemma as_i32_id n : i32_ok n → as_i32 n = n.
Proof. unfold i32_ok, as_i32. intros Hn. rewrite Z.mod_small; lia. Qed.
Lemma as_i32_add n m : as_i32 (as_i32 n + m) = as_i32 (n + m).
Proof.
  unfold as_i32. f_equal.
  replace ((n + 2 ^ 31) mod 2 ^ 32 - 2 ^ 31 + m + 2 ^ 31) with ((n + 2 ^ 31) mod 2 ^ 32 + m) by lia.
  rewrite Z.add_mod_idemp_l by lia. f_equal. lia.
Qed.
Lemma sum_i32_spec l : sum_i32 l = as_i32 (foldr Z.add 0 l).
Proof.
  unfold sum_i32. cut (∀ acc, foldl (λ acc n, as_i32 (acc + n)) (as_i32 acc) l = as_i32 (acc + foldr Z.add 0 l)).
  { intros Hl. rewrite <- (Z.add_0_l (foldr _ _ _)), <- Hl. by rewrite as_i32_id. }
  induction l as [|x l IH]; intros acc; simpl; [by rewrite Z.add_0_r|].
  rewrite as_i32_add, IH. f_equal. lia.
Qed.

(** ** The tables represent the board *)
Section refinement.
Context `{Primitives} {TT : TyText} {AE : AchievementEnv}.
Context (world namespace : string).
Hypothesis no_failure : ∀ n, ach_query_fails n = false.
Hypothesis decode_i32_ok : ∀ n, i32_ok n → decode_i32 n = Some n.
#[local] Abbreviation ach A := (st AchievementDb AchievementError A).

(** *** What a call returns *)
Lemma gives_query {A} (f : Z → AchievementDb → option (A * AchievementDb)) d (Q : A → AchievementDb → Prop) a d' :
  f (ach_query_time (ach_queries_run d)) d = Some (a, d') → Q a (count_query d') → gives (query f) d Q.
Proof. intros Hf HQ. exists a, (count_query d'). split; [|done]. unfold query. by rewrite no_failure, Hf. Qed.
Lemma gives_select {A} (f : AchievementDb → A) d (Q : A → AchievementDb → Prop) :
  Q (f d) (count_query d) → gives (select f) d Q.
Proof. intros HQ. by eapply gives_query. Qed.
Lemma gives_run f d (Q : unit → AchievementDb → Prop) :
  Q tt (count_query (f (ach_query_time (ach_queries_run d)) d)) → gives (run f) d Q.
Proof. intros HQ. by eapply gives_query. Qed.

(** A call that reads only *)
Definition same_tables (d d' : AchievementDb) : Prop :=
  achievements d' = achievements d ∧ achievement_tasks d' = achievement_tasks d ∧
  achievement_progressions d' = achievement_progressions d ∧ player_achievements d' = player_achievements d.

(** *** The relation *)
Definition task_key (achievement_id task_id : string) : string :=
  world +:+ ":" +:+ namespace +:+ ":" +:+ achievement_id +:+ ":" +:+ task_id.
Definition task_matches (x : string * string * Z) (t : TaskRow) : Prop :=
  task_achievement_id t = x.1.1 ∧ task_task_id t = x.1.2 ∧ task_total t = x.2 ∧
  task_world_address t = world ∧ task_namespace t = namespace ∧ task_row_id t = task_key x.1.1 x.1.2.
Definition board_tasks (b : Board) : list (string * string * Z) :=
  trophies b ≫= λ t, (λ x, (trophy_id t, x.1, x.2)) <$> trophy_tasks t.
Definition definitions_of (tasks : string) : list (string * Z) :=
  (λ x, (def_id x, as_i32 (def_total x))) <$> default [] (parse_tasks tasks).
Definition trophy_matches (t : Trophy) (a : AchievementRow) : Prop :=
  ach_id a = trophy_id t ∧ ach_points a = trophy_points t ∧ definitions_of (ach_tasks a) = trophy_tasks t ∧
  ach_world_address a = world ∧ ach_namespace a = namespace.
Definition row_key (r : ProgressionRow) : string * string := (prog_task_id r, prog_player_id r).
Definition progression_matches (b : Board) (r : ProgressionRow) : Prop :=
  prog_id r = progression_key world namespace (prog_task_id r) (prog_player_id r) ∧
  SqlString.free_of ":"%char (prog_task_id r) ∧
  prog_world_address r = world ∧ prog_namespace r = namespace ∧
  progress b !! row_key r = Some (prog_count r) ∧
  prog_completed r = (if reached b (prog_task_id r) (prog_count r) then 1 else 0).
Definition board_ok (b : Board) : Prop :=
  NoDup (trophy_id <$> trophies b) ∧
  Forall (λ t, NoDup (trophy_tasks t).*1 ∧ Forall (λ x, SqlString.free_of ":"%char x.1) (trophy_tasks t)) (trophies b) ∧
  (∀ k, is_Some (progress b !! k) → is_Some (target b k.1)).

Record represents (b : Board) (d : AchievementDb) : Prop := {
  rep_board : board_ok b;
  rep_trophies : Forall2 trophy_matches (trophies b) (achievements d);
  rep_tasks : Forall2 task_matches (board_tasks b) (achievement_tasks d);
  rep_unique : NoDup (row_key <$> achievement_progressions d);
  rep_rows : Forall (progression_matches b) (achievement_progressions d);
  rep_progress : ∀ k, is_Some (progress b !! k) → k ∈ row_key <$> achievement_progressions d
}.

Lemma represents_same b d d' : same_tables d d' → represents b d → represents b d'.
Proof. intros (H1 & H2 & H3 & _) []. split; rewrite ?H1, ?H2, ?H3; done. Qed.

Lemma same_count_query d d' : same_tables d d' → same_tables d (count_query d').
Proof. by intros (? & ? & ? & ?). Qed.
Lemma same_tables_refl d : same_tables d d.
Proof. done. Qed.
#[local] Hint Resolve same_count_query same_tables_refl : torii.

(** *** The tasks of a trophy *)
Lemma trophy_of_id b t t' : board_ok b → t ∈ trophies b → t' ∈ trophies b → trophy_id t = trophy_id t' → t = t'.
Proof.
  intros (Hnd & _) Ht Ht' Hid. apply list_elem_of_lookup in Ht as [i Hi], Ht' as [j Hj].
  assert (i = j) as ->.
  { eapply NoDup_lookup; [exact Hnd| |]; rewrite list_lookup_fmap; [by rewrite Hi|by rewrite Hj, Hid]. }
  congruence.
Qed.

Lemma row_of_trophy b d t : represents b d → t ∈ trophies b →
  ∃ a, head (filter (λ a, ach_id a = trophy_id t) (achievements d)) = Some a ∧ trophy_matches t a.
Proof.
  intros Hr Ht. destruct (rep_board _ _ Hr) as (Hnd & _). pose proof (rep_trophies _ _ Hr) as HF.
  revert Ht Hnd. induction HF as [|t' a l k Hta HF IH]; intros Ht Hnd; [by apply not_elem_of_nil in Ht|].
  rewrite fmap_cons, NoDup_cons in Hnd. destruct Hnd as [Hn Hnd]. rewrite filter_cons.
  apply elem_of_cons in Ht as [->|Ht].
  - destruct Hta as (Hid & Hrest). rewrite decide_True by done. exists a. done.
  - rewrite decide_False; [by apply IH|]. destruct Hta as (-> & _). intros Heq.
    apply Hn. rewrite Heq. by apply list_elem_of_fmap_2.
Qed.

Lemma sum_bind {A B} (f : B → nat) (g : A → list B) l :
  sum_list_with f (l ≫= g) = sum_list_with (λ x, sum_list_with f (g x)) l.
Proof.
  induction l as [|x l IH]; [done|]. rewrite bind_cons, sum_list_with_app, IH. done.
Qed.

Lemma sum_list_with_zero {A} (f : A → nat) l : (∀ x, x ∈ l → f x = 0%nat) → sum_list_with f l = 0%nat.
Proof. intros Hf. rewrite (sum_list_with_ext _ (λ _, 0%nat)) by done. clear Hf. induction l; simpl; auto. Qed.

(** A sum over the trophies of what one of them has is over that one. *)
Lemma sum_one_trophy b t (f : Trophy → nat) : board_ok b → t ∈ trophies b →
  sum_list_with (λ t', if decide (trophy_id t' = trophy_id t) then f t' else 0%nat) (trophies b) = f t.
Proof.
  intros Hb Ht. pose proof (λ t', trophy_of_id b t t' Hb Ht) as Huniq. destruct Hb as (Hnd & _).
  apply list_elem_of_split in Ht as (l1 & l2 & Heq). rewrite Heq in *.
  rewrite fmap_app, fmap_cons in Hnd. apply NoDup_app in Hnd as (_ & Hd & [Hn _]%NoDup_cons).
  rewrite sum_list_with_app. simpl. rewrite decide_True by done.
  rewrite !sum_list_with_zero; [lia| |].
  - intros x Hx. rewrite decide_False; [done|]. intros Hid. apply Hn. rewrite <- Hid. by apply list_elem_of_fmap_2.
  - intros x Hx. rewrite decide_False; [done|]. intros Hid.
    apply (Hd (trophy_id x)); [by apply list_elem_of_fmap_2|]. rewrite Hid. left.
Qed.

Lemma sum_forall2 {A B} (R : A → B → Prop) (f : B → nat) (g : A → nat) l k :
  Forall2 R l k → (∀ x y, R x y → f y = g x) → sum_list_with f k = sum_list_with g l.
Proof. intros HF Hfg. induction HF as [|x y l k HR HF IH]; [done|]. simpl. by rewrite (Hfg _ _ HR), IH. Qed.

Lemma done_row b d player task : represents b d →
  done_by b player task = true ↔
  ∃ r, r ∈ achievement_progressions d ∧ prog_task_id r = task ∧ prog_player_id r = player ∧ prog_completed r = 1.
Proof.
  intros Hr. unfold done_by. split.
  - destruct (progress b !! (task, player)) as [n|] eqn:Hn; [|done]. intros Hre.
    assert ((task, player) ∈ row_key <$> achievement_progressions d) as Hrow by (apply (rep_progress _ _ Hr); by rewrite Hn).
    apply list_elem_of_fmap in Hrow as [r Hk].
    destruct Hk as [Hk Hin]. pose proof (proj1 (Forall_forall _ _) (rep_rows _ _ Hr) _ Hin) as Hm.
    destruct Hm as (_ & _ & _ & _ & Hp & Hc). unfold row_key in Hk. injection Hk as Ht Hpl.
    exists r. split_and!; try done. rewrite Hc. unfold row_key in Hp. rewrite <- Ht, <- Hpl, Hn in Hp.
    injection Hp as ->. by rewrite <- Ht, Hre.
  - intros (r & Hin & Ht & Hpl & Hc1).
    pose proof (proj1 (Forall_forall _ _) (rep_rows _ _ Hr) _ Hin) as (_ & _ & _ & _ & Hp & Hc).
    unfold row_key in Hp. rewrite <- Ht, <- Hpl, Hp. rewrite Hc in Hc1. by destruct (reached _ _ _).
Qed.

Lemma row_count b d id player x y : represents b d → task_matches x y →
  length (filter (λ r, joined r y = true ∧ task_achievement_id y = id ∧ prog_player_id r = player ∧
    prog_completed r = 1) (achievement_progressions d))
  = if decide (x.1.1 = id) then (if done_by b player x.1.2 then 1 else 0)%nat else 0%nat.
Proof.
  intros Hr (Ha & Ht & _ & Hw & Hns & _).
  destruct (length_filter_unique (λ r, joined r y = true ∧ task_achievement_id y = id ∧ prog_player_id r = player ∧
    prog_completed r = 1) row_key (x.1.2, player) (achievement_progressions d)) as [[-> Hn]|[-> (r & Hin & Hp)]].
  - apply (rep_unique _ _ Hr).
  - intros r (Hj%bool_decide_eq_true & _ & <- & _). unfold row_key. destruct Hj as (<- & _). by rewrite Ht.
  - case_decide as Hid; [|done]. destruct (done_by b player x.1.2) eqn:Hd; [|done]. exfalso.
    apply (done_row _ _ _ _ Hr) in Hd as (r & Hin & Hrt & Hrp & Hc). apply (Hn r Hin).
    pose proof (proj1 (Forall_forall _ _) (rep_rows _ _ Hr) _ Hin) as (_ & _ & Hrw & Hrn & _).
    split_and!; [|congruence|done|done]. apply bool_decide_eq_true. split_and!; congruence.
  - destruct Hp as (Hj%bool_decide_eq_true & Hid & Hpl & Hc). destruct Hj as (Hjt & _).
    rewrite decide_True by congruence.
    replace (done_by b player x.1.2) with true; [done|]. symmetry. apply (done_row _ _ _ _ Hr).
    exists r. split_and!; congruence.
Qed.

Lemma count_completed b d t player : represents b d → t ∈ trophies b →
  count_completed_tasks (trophy_id t) player d
  = Z.of_nat (length (filter (λ x, done_by b player x.1 = true) (trophy_tasks t))).
Proof.
  intros Hr Ht. unfold count_completed_tasks. f_equal. rewrite length_filter_cprod. simpl.
  rewrite (sum_forall2 _ _ _ _ _ (rep_tasks _ _ Hr) (λ x y, row_count b d (trophy_id t) player x y Hr)).
  unfold board_tasks. rewrite sum_bind, <- (sum_one_trophy b t (λ t',
    length (filter (λ x, done_by b player x.1 = true) (trophy_tasks t'))) (rep_board _ _ Hr) Ht).
  apply sum_list_with_ext. intros t' _. rewrite sum_list_with_fmap, length_filter_sum.
  case_decide as Hid.
  - apply sum_list_with_ext. intros x _. simpl. rewrite decide_True by done.
    by destruct (done_by b player x.1); case_decide.
  - apply sum_list_with_zero. intros x _. simpl. by rewrite decide_False.
Qed.

Lemma all_filtered {A} (f : A → bool) l : length (filter (λ x, f x = true) l) = length l ↔ forallb f l = true.
Proof.
  induction l as [|x l IH]; [done|]. rewrite length_filter_cons. simpl. rewrite andb_true_iff, <- IH.
  pose proof (length_filter (λ x, f x = true) l). case_decide as Hx; rewrite ?Hx; [split; [lia|intros [_ ?]; lia]|].
  split; [lia|by intros [? _]].
Qed.

Lemma achieved_spec b player t :
  achieved b player t = true ↔
  length (trophy_tasks t) ≠ 0%nat ∧
  length (filter (λ x, done_by b player x.1 = true) (trophy_tasks t)) = length (trophy_tasks t).
Proof.
  unfold achieved. rewrite andb_true_iff, negb_true_iff, bool_decide_eq_false, <- all_filtered.
  destruct (trophy_tasks t); naive_solver.
Qed.

(** [calculate_achievement_status] *)
Lemma status_ok b d d0 t player : represents b d → same_tables d d0 → t ∈ trophies b →
  gives (calculate_achievement_status (trophy_id t) player) d0 (λ s d',
    status_completed s = achieved b player t ∧
    status_points s = (if achieved b player t then trophy_points t else 0) ∧ same_tables d d').
Proof.
  intros Hr Hs Ht. unfold calculate_achievement_status.
  apply gives_bind, gives_select. destruct (row_of_trophy b d t Hr Ht) as (a & Ha & Hm).
  pose proof Hs as (-> & _). rewrite Ha. destruct Hm as (_ & Hp & Hd & _).
  assert (length (default [] (parse_tasks (ach_tasks a))) = length (trophy_tasks t)) as ->.
  { rewrite <- Hd. unfold definitions_of. by rewrite length_fmap. }
  pose proof (achieved_spec b player t) as Hach.
  destruct (Z.eqb_spec (Z.of_nat (length (trophy_tasks t))) 0) as [H0|H0].
  - apply gives_ret. simpl.
    assert (achieved b player t = false) as -> by (destruct (achieved b player t); [|done]; destruct Hach as [Hach _]; destruct (Hach eq_refl); lia).
    eauto with torii.
  - apply gives_bind, gives_select. simpl.
    assert (count_completed_tasks (trophy_id t) player (count_query d0) = Z.of_nat (length (filter (λ x, done_by b player x.1 = true) (trophy_tasks t)))) as ->.
    { apply count_completed; [|done]. eapply represents_same; [|done]. by apply same_count_query. }
    apply gives_ret. simpl.
    replace (Z.of_nat _ =? _) with (achieved b player t).
    { rewrite Hp. eauto with torii. }
    apply eq_bool_prop_intro. rewrite !Is_true_true, Hach, Z.eqb_eq. lia.
Qed.

(** *** Completion statistics leave the board alone *)
Lemma task_stats_ok b d task : represents b d →
  gives (update_task_completion_stats world namespace task) d (λ _ d', represents b d').
Proof.
  intros Hr. unfold update_task_completion_stats. apply gives_bind, gives_select, gives_bind, gives_select, gives_run.
  destruct Hr as [Hb Ht Hk Hu Hrows Hp]. split; simpl; try done.
  rewrite Forall2_fmap_r. eapply Forall2_impl; [exact Hk|]. intros x y Hxy. cbn. by case_decide.
Qed.

Lemma achievement_stats_ok b d id : represents b d →
  gives (update_achievement_completion_stats id) d (λ _ d', represents b d').
Proof.
  intros Hr. unfold update_achievement_completion_stats.
  assert (∀ {A} (a : A), gives (E := AchievementError) (st_ret a) d (λ _ d', represents b d')) as Hret by (intros; by apply gives_ret).
  destruct (SqlString.split _ _) as [|w [|n [|e parts]]]; try apply Hret.
  apply gives_bind, gives_select. destruct (_ <$> _) as [|i l].
  { apply gives_ret. eapply represents_same; [|done]. auto with torii. }
  apply gives_bind, gives_select, gives_bind, gives_select, gives_run.
  destruct Hr as [Hb Ht Hk Hu Hrows Hp]. split; simpl; try done.
  rewrite Forall2_fmap_r. eapply Forall2_impl; [exact Ht|]. intros x y Hxy. cbn. by case_decide.
Qed.

(** *** The totals of a player *)
Lemma achievements_of_all b d : represents b d → achievements_of world namespace d = achievements d.
Proof.
  intros Hr. unfold achievements_of. pose proof (rep_trophies _ _ Hr) as HF.
  induction HF as [|t a l k Hta HF IH]; [done|]. rewrite filter_cons, IH.
  destruct Hta as (_ & _ & _ & Hw & Hn). by rewrite decide_True.
Qed.

Definition achievement_matches (b : Board) (player : string) (t : Trophy) (pa : PlayerAchievement) : Prop :=
  pa_completed pa = achieved b player t ∧
  pa_earned_points pa = (if achieved b player t then trophy_points t else 0).

Lemma player_achievements_ok b d player : represents b d →
  gives (get_player_achievements world namespace player) d (λ l d',
    same_tables d d' ∧ ∃ ts, ts ≡ₚ trophies b ∧ Forall2 (achievement_matches b player) ts l).
Proof.
  intros Hr. unfold get_player_achievements. apply gives_bind, gives_select.
  rewrite (achievements_of_all b) by done.
  set (rows := merge_sort by_index (achievements d)).
  assert (∃ ts, trophies b ≡ₚ ts ∧ Forall2 trophy_matches ts rows) as (ts & Hperm & Hts).
  { destruct (Permutation_Forall2 (P := flip trophy_matches) (l1 := achievements d) (l1' := rows)
      (l2 := trophies b)) as (ts & Hp & HF).
    - symmetry. apply merge_sort_Permutation.
    - apply Forall2_flip, (rep_trophies _ _ Hr).
    - exists ts. split; [done|]. by apply Forall2_flip. }
  eapply gives_mono.
  { apply (gives_mapM _ (λ a pa, ∀ t, t ∈ trophies b → trophy_matches t a → achievement_matches b player t pa)
      (same_tables d)); [|auto with torii].
    intros a d0 Hd0 Ha. apply gives_bind.
    apply list_elem_of_lookup in Ha as [i Ha].
    destruct (Forall2_lookup_r _ _ _ _ _ Hts Ha) as (t & Hti & Htm).
    assert (t ∈ trophies b) as Ht by (rewrite Hperm; by eapply list_elem_of_lookup_2).
    pose proof Htm as (Hid & _). rewrite Hid.
    eapply gives_mono; [by apply (status_ok b d d0 t)|]. intros s d1 (Hc & Hp & Hs1).
    apply gives_ret. split; [|done]. intros t' Ht' (Hid' & _).
    assert (t' = t) as -> by (apply (trophy_of_id b); [apply Hr|done..|congruence]). by split. }
  intros l d' [Hl Hs]. split; [done|]. exists ts. split; [done|].
  assert (∀ t, t ∈ ts → t ∈ trophies b) as Hin by (intros t; by rewrite Hperm).
  clearbody rows. clear Hperm. revert l Hl Hin. induction Hts as [|t a ts rows Hta _ IH]; intros l Hl Hin; inversion Hl; subst.
  { constructor. }
  constructor; [|apply IH; [done|]; intros; apply Hin; by right].
  match goal with Hx : ∀ t, _ |- _ => apply Hx; [apply Hin; left|done] end.
Qed.

Lemma totals_of_player b player ts l : ts ≡ₚ trophies b → Forall2 (achievement_matches b player) ts l →
  sum_i32 (pa_earned_points <$> l) = as_i32 (points_of b player) ∧
  Z.of_nat (length (filter (λ a, pa_completed a = true) l)) = completed_by b player.
Proof.
  intros Hp HF. unfold points_of, completed_by. rewrite sum_i32_spec. rewrite <- Hp. clear Hp.
  induction HF as [|t a ts l [Hc He] HF [IH1 IH2]]; [done|].
  rewrite fmap_cons. simpl. rewrite !filter_cons, He, Hc. simpl.
  destruct (achieved b player t); simpl; split; try done.
  - rewrite Z.add_comm, <- as_i32_add, IH1, as_i32_add, Z.add_comm. done.
  - rewrite !Nat2Z.inj_succ. by rewrite IH2.
Qed.

Lemma upsert_head {A} (key : A → string) update new l :
  (∀ a, key (update a) = key a) →
  head (filter (λ a, key a = key new) (upsert key update new l)) =
  Some (from_option update new (head (filter (λ a, key a = key new) l))).
Proof.
  intros Hk. destruct (upsert_cases key update new l) as [(l1 & a & l2 & -> & Ha & Hl1 & ->)|[Hn ->]];
    rewrite !filter_app.
  - assert (filter (λ a, key a = key new) l1 = []) as ->.
    { apply filter_none. by apply Forall_forall. }
    simpl. rewrite !filter_cons, !decide_True by congruence. done.
  - assert (filter (λ a, key a = key new) l = []) as ->.
    { apply filter_none. by apply Forall_forall. }
    simpl. by rewrite filter_cons, decide_True.
Qed.

Lemma decode_stats_ok r : i32_ok (stats_total_points r) → i32_ok (stats_completed_achievements r) →
  i32_ok (stats_total_achievements r) → decode_stats r = Some r.
Proof. intros H1 H2 H3. unfold decode_stats. rewrite !decode_i32_ok by done. by destruct r. Qed.

Definition stats_hold (b : Board) (player : string) (r : PlayerAchievementStats) : Prop :=
  stats_total_points r = as_i32 (points_of b player) ∧
  stats_completed_achievements r = completed_by b player ∧
  stats_total_achievements r = Z.of_nat (length (trophies b)).
Definition stats_row (player : string) (d : AchievementDb) : option PlayerAchievementStats :=
  head (filter (λ r, stats_id r = world +:+ ":" +:+ namespace +:+ ":" +:+ player) (player_achievements d)).

Lemma player_stats_ok b d player : represents b d → Z.of_nat (length (trophies b)) < 2 ^ 31 →
  gives (update_player_achievement_stats world namespace player) d (λ r d',
    represents b d' ∧ stats_hold b player r ∧ stats_row player d' = Some r).
Proof.
  intros Hr Hlen. unfold update_player_achievement_stats. apply gives_bind, gives_select.
  rewrite (achievements_of_all b) by done. rewrite <- (Forall2_length _ _ _ (rep_trophies _ _ Hr)).
  apply gives_bind. eapply gives_mono.
  { apply (player_achievements_ok b). eapply represents_same; [|done]. auto with torii. }
  intros l d1 (Hs & ts & Hts & HF). destruct (totals_of_player _ _ _ _ Hts HF) as [Hpoints Hcompleted].
  rewrite Hpoints, Hcompleted. apply gives_bind, gives_select, gives_bind, gives_run, gives_bind, gives_select.
  cbn [count_query set_player_achievements player_achievements].
  match goal with |- context [upsert_stats ?x _] => set (new := x) end.
  assert (Hc : 0 ≤ completed_by b player < 2 ^ 31).
  { unfold completed_by. pose proof (length_filter (λ t, achieved b player t = true) (trophies b)). lia. }
  pose proof (upsert_head stats_id (λ old,
    mkStats (stats_id old) (stats_world_address old) (stats_namespace old) (stats_player_id old)
      (stats_total_points new) (stats_completed_achievements new) (stats_total_achievements new)
      (stats_completion_percentage new) (stats_last_achievement_at new) (stats_created_at old)
      (stats_updated_at new)) new (player_achievements d1) (λ _, eq_refl)) as Hhead.
  unfold upsert_stats. change (stats_id new) with (world +:+ ":" +:+ namespace +:+ ":" +:+ player) in Hhead.
  rewrite Hhead. set (row := from_option _ _ _) in Hhead |- *. apply gives_bind, gives_lift.
  assert (stats_hold b player row) as Hhold.
  { unfold row, stats_hold. assert (as_i32 (completed_by b player) = completed_by b player) as Hci.
    { apply as_i32_id. unfold i32_ok. lia. }
    destruct (head _); simpl; rewrite Hci; done. }
  assert (decode_stats row = Some row) as ->.
  { destruct Hhold as (H1 & H2 & H3). apply decode_stats_ok; rewrite ?H1, ?H2, ?H3; [apply as_i32_range|..]; unfold i32_ok; lia. }
  apply gives_lift. split_and!; [|done|exact Hhead].
  destruct Hr as [? ? ? ? ? ?]. destruct Hs as (E1 & E2 & E3 & _). split; simpl; rewrite ?E1, ?E2, ?E3; done.
Qed.

(** *** Progress on a task *)
Lemma progression_key_inj t p t' p' : SqlString.free_of ":"%char t → SqlString.free_of ":"%char t' →
  progression_key world namespace t p = progression_key world namespace t' p' → t = t' ∧ p = p'.
Proof.
  intros Ht Ht' Hk. unfold progression_key in Hk. do 4 apply (inj (String.append _)) in Hk.
  pose proof (f_equal (SqlString.split ":"%char) Hk) as Hs.
  change (t +:+ String ":" p) with (t +:+ String ":"%char "" +:+ p) in Hs.
  rewrite !SqlString.split_sep in Hs by done. injection Hs as -> _. split; [done|].
  do 2 apply (inj (String.append _)) in Hk. done.
Qed.

Lemma reached_advance b task player count : reached (advance task player count b) = reached b.
Proof. unfold advance. by destruct (target b task). Qed.

Definition rows_hold (b : Board) (l : list ProgressionRow) : Prop :=
  NoDup (row_key <$> l) ∧ Forall (progression_matches b) l ∧
  (∀ k, is_Some (progress b !! k) → k ∈ row_key <$> l).

Lemma row_of_key b l r task player : rows_hold b l → SqlString.free_of ":"%char task → r ∈ l →
  prog_id r = progression_key world namespace task player ↔ row_key r = (task, player).
Proof.
  intros (_ & HF & _) Hfree Hr. rewrite Forall_forall in HF. destruct (HF _ Hr) as (Hid & Hf & _).
  rewrite Hid. unfold row_key. split.
  - intros Hk. destruct (progression_key_inj _ _ _ _ Hf Hfree Hk) as [-> ->]. done.
  - by intros [= -> ->].
Qed.

Lemma other_row_matches b b' r task player count :
  target b task ≠ None → b' = advance task player count b → row_key r ≠ (task, player) →
  progression_matches b r → progression_matches b' r.
Proof.
  intros Ht -> Hne (H1 & H2 & H3 & H4 & H5 & H6). split_and!; try done; [|by rewrite reached_advance].
  unfold advance. destruct (target b task); [|done]. simpl. by rewrite lookup_insert_ne.
Qed.

Section write.
Context (b : Board) (task player : string) (count g now at_ : Z).
Hypothesis Htarget : target b task = Some g.
Hypothesis Hfree : SqlString.free_of ":"%char task.

Definition fresh_row : ProgressionRow :=
  mkProgression (progression_key world namespace task player) task world namespace player count
    (if g <=? count then 1 else 0) (if g <=? count then Some at_ else None) now now.

Lemma reached_target n : reached b task n = (g <=? n).
Proof. unfold reached. by rewrite Htarget. Qed.

Lemma progress_advance : progress (advance task player count b)
  = <[(task, player) := default 0 (progress b !! (task, player)) + count]> (progress b).
Proof. unfold advance. by rewrite Htarget. Qed.

Definition updated_row (old : ProgressionRow) : ProgressionRow :=
  let n := prog_count old + count in
  mkProgression (prog_id old) (prog_task_id old) (prog_world_address old) (prog_namespace old)
    (prog_player_id old) n (if g <=? n then 1 else 0)
    (if (g <=? n) && (prog_completed old =? 0) then Some now else prog_completed_at old)
    (prog_created_at old) now.

Lemma other_rows_match l k : Forall (progression_matches b) l → (∀ r, r ∈ k → r ∈ l ∧ row_key r ≠ (task, player)) →
  Forall (progression_matches (advance task player count b)) k.
Proof.
  rewrite !Forall_forall. intros HF Hk r Hr. destruct (Hk r Hr) as [Hin Hne].
  eapply other_row_matches; [|done|done|by apply HF]. congruence.
Qed.

Lemma progress_elsewhere k : is_Some (progress (advance task player count b) !! k) →
  k = (task, player) ∨ is_Some (progress b !! k).
Proof.
  rewrite progress_advance. destruct (decide (k = (task, player))) as [->|Hne]; [by left|].
  rewrite lookup_insert_ne by done. by right.
Qed.

Lemma replaced_rows_hold l1 a l2 : rows_hold b (l1 ++ a :: l2) → row_key a = (task, player) →
  rows_hold (advance task player count b) (l1 ++ updated_row a :: l2) ∧
  progress b !! (task, player) = Some (prog_count a).
Proof.
  intros (Hnd & HF & Hall) Hka. pose proof HF as HF'. apply Forall_app in HF' as [_ HFa].
  rewrite Forall_cons in HFa. destruct HFa as [(Hid & Hf & Hw & Hns & Hp & Hc) _]. rewrite Hka in Hp.
  split; [|done]. unfold rows_hold. rewrite fmap_app, fmap_cons. change (row_key (updated_row a)) with (row_key a).
  rewrite <- fmap_cons, <- fmap_app. split_and!; [done| |].
  - assert (∀ r, r ∈ l1 ∨ r ∈ l2 → row_key r ≠ (task, player)) as Hother.
    { rewrite fmap_app, fmap_cons, NoDup_app, NoDup_cons, Hka in Hnd. destruct Hnd as (_ & Hd & Hnot & _).
      intros r [Hr|Hr] Hkr; [|apply Hnot; rewrite <- Hkr; by apply list_elem_of_fmap_2].
      apply (Hd (row_key r)); [by apply list_elem_of_fmap_2|]. rewrite Hkr. left. }
    apply Forall_app; split; [|constructor].
    + eapply other_rows_match; [done|]. set_solver.
    + unfold progression_matches. simpl. rewrite reached_advance.
      assert (prog_task_id a = task ∧ prog_player_id a = player) as [Hta Hpa] by (by injection Hka).
      split_and!; try done; [|by rewrite Hta, reached_target].
      rewrite progress_advance. change (row_key (updated_row a)) with (row_key a).
      rewrite Hka, lookup_insert_eq, Hp. done.
    + eapply other_rows_match; [done|]. set_solver.
  - intros k [->|Hk]%progress_elsewhere; [|by apply Hall]. rewrite <- Hka. apply list_elem_of_fmap_2. set_solver.
Qed.

Lemma appended_rows_hold l : rows_hold b l → (∀ r, r ∈ l → row_key r ≠ (task, player)) →
  rows_hold (advance task player count b) (l ++ [fresh_row]) ∧ progress b !! (task, player) = None.
Proof.
  intros (Hnd & HF & Hall) Hn.
  assert (progress b !! (task, player) = None) as Hnone.
  { destruct (progress b !! (task, player)) eqn:Hp; [exfalso|done].
    assert ((task, player) ∈ row_key <$> l) as Hr by (apply Hall; by rewrite Hp).
    apply list_elem_of_fmap in Hr as (r & Hk & Hr). by apply (Hn r Hr). }
  split; [split_and!|done].
  - rewrite fmap_app, NoDup_app. split_and!; [done| |apply NoDup_singleton].
    intros k (r & -> & Hr)%list_elem_of_fmap Hk. apply list_elem_of_singleton in Hk. by apply (Hn r Hr).
  - apply Forall_app. split; [by eapply other_rows_match; eauto|rewrite Forall_singleton].
    unfold progression_matches. simpl. rewrite reached_advance, reached_target, progress_advance.
    split_and!; try done. unfold row_key. simpl. by rewrite lookup_insert_eq, Hnone.
  - intros k [->|Hk]%progress_elsewhere; rewrite fmap_app; apply elem_of_app; [right|left; by apply Hall].
    by apply list_elem_of_singleton.
Qed.

Lemma upsert_rows_hold l : rows_hold b l →
  rows_hold (advance task player count b) (upsert_progression g fresh_row l) ∧
  ∃ r, head (filter (λ p, prog_id p = prog_id fresh_row) (upsert_progression g fresh_row l)) = Some r ∧
    prog_count r = default 0 (progress b !! (task, player)) + count ∧
    prog_completed r = (if g <=? prog_count r then 1 else 0).
Proof.
  intros Hl. unfold upsert_progression. match goal with |- context [upsert prog_id ?u _ _] => change u with updated_row end.
  rewrite (upsert_head prog_id updated_row fresh_row l (λ _, eq_refl)).
  pose proof (λ r, row_of_key b l r task player Hl Hfree) as Hkey.
  destruct (upsert_cases prog_id updated_row fresh_row l) as [(l1 & a & l2 & -> & Ha & Hl1 & ->)|[Hn ->]].
  - assert (row_key a = (task, player)) as Hka by (apply Hkey; [set_solver|done]).
    destruct (replaced_rows_hold _ _ _ Hl Hka) as [Hrows ->]. split; [done|].
    rewrite filter_app, (filter_none _ l1), filter_cons, decide_True by (done || by apply Forall_forall).
    by eexists.
  - destruct (appended_rows_hold l Hl) as [Hrows ->]; [intros r Hr Hk; apply (Hn r Hr); by apply Hkey|].
    split; [done|]. rewrite (filter_none _ l) by (by apply Forall_forall). by eexists.
Qed.
End write.

Lemma board_ok_advance b task player count : board_ok b → board_ok (advance task player count b).
Proof.
  intros (H1 & H2 & H3). unfold advance. destruct (target b task) eqn:Ht; [|done]. split_and!; [done|done|].
  intros k. simpl. destruct (decide (k = (task, player))) as [->|Hne]; [intros _; by eexists|].
  rewrite lookup_insert_ne by done. apply H3.
Qed.

Lemma target_row b d task : represents b d →
  (λ t, (task_achievement_id t, task_total t)) <$>
    head (filter (λ t, task_world_address t = world ∧ task_namespace t = namespace ∧ task_task_id t = task)
      (achievement_tasks d))
  = (λ x, (x.1.1, x.2)) <$> head (filter (λ x, x.1.2 = task) (board_tasks b)).
Proof.
  intros Hr. pose proof (rep_tasks _ _ Hr) as HF. induction HF as [|x y l k Hxy HF IH]; [done|].
  rewrite !filter_cons. destruct Hxy as (Ha & Ht & Hg & Hw & Hn & _).
  destruct (decide (x.1.2 = task)).
  - rewrite decide_True by (split_and!; congruence). simpl. congruence.
  - rewrite decide_False; [done|]. intros (_ & _ & ?). congruence.
Qed.

Lemma board_target b task : target b task = snd <$> head (filter (λ x, x.1.2 = task) (board_tasks b)).
Proof.
  unfold target, all_tasks, board_tasks. induction (trophies b) as [|t l IH]; [done|].
  rewrite !bind_cons, !filter_app, !head_app.
  assert (∀ ts, head (filter (λ x : string * string * Z, x.1.2 = task) ((λ x, (trophy_id t, x.1, x.2)) <$> ts))
    = (λ x, (trophy_id t, x.1, x.2)) <$> head (filter (λ x : string * Z, x.1 = task) ts)) as Hts.
  { induction ts as [|x ts IHts]; [done|]. rewrite fmap_cons, !filter_cons. simpl. by case_decide. }
  rewrite Hts. destruct (head (filter _ (trophy_tasks t))) as [[? ?]|]; [done|]. exact IH.
Qed.

Lemma board_task_trophy b x : x ∈ board_tasks b →
  ∃ t, t ∈ trophies b ∧ x.1.1 = trophy_id t ∧ (x.1.2, x.2) ∈ trophy_tasks t.
Proof.
  unfold board_tasks. intros (t & Hx & Ht)%list_elem_of_bind. exists t.
  apply list_elem_of_fmap in Hx as ([task g] & -> & Hx). done.
Qed.

Lemma free_task b task : board_ok b → is_Some (target b task) → SqlString.free_of ":"%char task.
Proof.
  intros (_ & HF & _) [g Hg]. unfold target in Hg. destruct (head _) as [x|] eqn:Hx; [|done].
  apply head_Some_elem_of, list_elem_of_filter in Hx as [<- Hx].
  apply list_elem_of_bind in Hx as (t & Hx & Ht). rewrite Forall_forall in HF.
  destruct (HF t Ht) as [_ Hfree]. rewrite Forall_forall in Hfree. by apply Hfree.
Qed.

(** *** [update_achievement_progression] *)
Definition advances (entity : DTy) (task player : string) (count : Z) : Prop :=
  extract_field_value entity "player_id" = Ok (Some player) ∧
  extract_field_value entity "task_id" = Ok (Some task) ∧
  ∃ v, extract_field_value entity "count" = Ok v ∧ default 1 (v ≫= parse_i32) = count.

Definition progression_ok (b : Board) (task player : string) (r : option AchievementProgression) : Prop :=
  match target b task, r with
  | Some g, Some p =>
      ap_task_id p = task ∧ progress b !! (task, player) = Some (ap_count p) ∧
      ap_completed p = done_by b player task
  | None, None => True
  | _, _ => False
  end.

Lemma trophies_advance b task player count : trophies (advance task player count b) = trophies b.
Proof. unfold advance. by destruct (target b task). Qed.

Lemma write_ok b d task player count g at_ : represents b d → target b task = Some g →
  gives (write_progression g (λ now, fresh_row task player count g now at_)) d (λ r d',
    represents (advance task player count b) d' ∧
    prog_count r = default 0 (progress b !! (task, player)) + count ∧
    prog_completed r = (if g <=? prog_count r then 1 else 0)).
Proof.
  intros Hr Ht. assert (SqlString.free_of ":"%char task) as Hfree by (eapply free_task; [apply Hr|by rewrite Ht]).
  destruct (upsert_rows_hold b task player count g (ach_query_time (ach_queries_run d)) at_ Ht Hfree
    (achievement_progressions d)) as ((Hnd & HF & Hall) & r & Hhead & Hc & Hd).
  { split_and!; apply Hr. }
  eapply gives_query; [cbv beta zeta; rewrite Hhead; done|]. split_and!; [|done|done].
  destruct Hr as [Hb H1 H2 _ _ _]. split; simpl; [by apply board_ok_advance|..|done|done|done].
  - by rewrite trophies_advance.
  - unfold board_tasks. by rewrite trophies_advance.
Qed.

Lemma progression_step b d entity task player count wf pf :
  represents b d → advances entity task player count →
  felt_of_hex world = Some wf → felt_of_hex player = Some pf →
  Z.of_nat (length (trophies b)) < 2 ^ 31 →
  0 ≤ default 0 (progress b !! (task, player)) + count < 2 ^ 31 →
  gives (update_achievement_progression world namespace entity) d (λ r d',
    let b' := advance task player count b in
    represents b' d' ∧ progression_ok b' task player r ∧
    (is_Some (target b task) → ∃ s, stats_row player d' = Some s ∧ stats_hold b' player s)).
Proof.
  intros Hr (Hplayer & Htask & v & Hv & Hcount) Hwf Hpf Hlen Hrange. unfold update_achievement_progression, field, field_i32_or.
  do 2 (apply gives_bind, gives_bind; rewrite ?Hplayer, ?Htask; apply gives_lift, gives_lift).
  apply gives_bind, gives_bind. rewrite Hv. apply gives_lift, gives_ret. rewrite Hcount.
  apply gives_bind, gives_select. pose proof (target_row b d task Hr) as Hrow.
  pose proof (board_target b task) as Hbt.
  destruct (head (filter _ (achievement_tasks d))) as [t|] eqn:Ht;
    destruct (head (filter _ (board_tasks b))) as [x|] eqn:Hx; try done; simpl in Hrow, Hbt.
  2:{ apply gives_ret. unfold progression_ok, advance. rewrite Hbt. simpl. rewrite Hbt.
      split_and!; [|done|by intros []]. eapply represents_same; [|done]. auto with torii. }
  injection Hrow as Ha Hg. rewrite Ha, Hg.
  apply gives_bind. eexists _, _. split; [reflexivity|]. apply gives_bind. eapply gives_mono.
  { apply (write_ok b). - eapply represents_same; [|done]. auto with torii. - done. }
  intros r d1 (Hr1 & Hc & Hd). set (b' := advance task player count b) in *.
  apply gives_bind. rewrite Hc, decode_i32_ok by (unfold i32_ok; lia). apply gives_lift.
  apply head_Some_elem_of, list_elem_of_filter in Hx as [Hxt (t' & Ht' & Hid & Hin)%board_task_trophy].
  apply gives_bind. rewrite Hid. eapply gives_mono.
  { apply (status_ok b' d1 d1); [done|done|]. unfold b'. by rewrite trophies_advance. }
  intros st d2 (_ & _ & Hs2). assert (represents b' d2) as Hr2 by (by eapply represents_same).
  apply gives_bind. eapply gives_mono with (P := λ _ d', represents b' d').
  { destruct (prog_completed r =? 1); [by apply task_stats_ok|by apply gives_ret]. }
  intros _ d3 Hr3. apply gives_bind. eapply gives_mono with (P := λ _ d', represents b' d').
  { destruct (status_completed st); [by apply achievement_stats_ok|by apply gives_ret]. }
  intros _ d4 Hr4. apply gives_bind. eapply gives_mono.
  { apply (player_stats_ok b'); [done|]. unfold b'. by rewrite trophies_advance. }
  intros ss d5 (Hr5 & Hss & Hrow5). rewrite Hwf, Hpf. do 2 apply gives_bind, gives_lift. apply gives_ret.
  split_and!; [done| |by eexists].
  assert (target b' task = Some x.2) as Hbt' by (unfold b', advance; by rewrite Hbt).
  assert (progress b' !! (task, player) = Some (prog_count r)) as Hp.
  { unfold b'. rewrite (progress_advance _ _ _ _ _ Hbt), lookup_insert_eq. by rewrite Hc. }
  unfold progression_ok. rewrite Hbt'. simpl. unfold done_by, reached. rewrite Hp, Hbt', Hd. split_and!; [done| |by destruct (x.2 <=? _)].
  unfold as_u32. rewrite <- Hc, Z.mod_small by (rewrite Hc; lia). done.
Qed.

(** *** Registration *)
Lemma upsert_fresh {A} (key : A → string) update new l :
  (∀ x, x ∈ l → key x ≠ key new) → upsert key update new l = l ++ [new].
Proof.
  intros Hl. destruct (upsert_cases key update new l) as [(l1 & a & l2 & -> & Ha & _)|[_ ->]]; [|done].
  exfalso. apply (Hl a); [set_solver|done].
Qed.

Lemma free_app_r c s1 s2 : SqlString.free_of c (s1 +:+ s2) → SqlString.free_of c s2.
Proof. induction s1 as [|a s1 IH]; [done|]. intros [_ Hs]. by apply IH. Qed.

Lemma last_part_inj (a a' t t' : string) : SqlString.free_of ":"%char t → SqlString.free_of ":"%char t' →
  a +:+ ":" +:+ t = a' +:+ ":" +:+ t' → a = a' ∧ t = t'.
Proof.
  intros Ht Ht'. revert a'. induction a as [|c a IH]; intros [|c' a'] Heq.
  - injection Heq. done.
  - assert (t = a' +:+ ":" +:+ t') as -> by (by injection Heq). apply free_app_r in Ht. by destruct Ht.
  - assert (t' = a +:+ ":" +:+ t) as -> by (by injection Heq). apply free_app_r in Ht'. by destruct Ht'.
  - injection Heq as -> Heq. by destruct (IH a' Heq) as [-> ->].
Qed.

Lemma task_key_inj a t a' t' : SqlString.free_of ":"%char t → SqlString.free_of ":"%char t' →
  task_key a t = task_key a' t' → a = a' ∧ t = t'.
Proof.
  intros Ht Ht' Hk. unfold task_key in Hk. do 4 apply (inj (String.append _)) in Hk. by apply last_part_inj.
Qed.

Definition task_loop (id : string) (defs : list AchievementTaskDefinition) : ach unit :=
  for_each (λ task, run (λ now d,
    set_tasks (upsert_task (new_task world namespace id task now) (achievement_tasks d)) d)) defs.

Lemma task_loop_ok id defs d l :
  Forall2 task_matches l (achievement_tasks d) → Forall (λ x, SqlString.free_of ":"%char x.1.2) l →
  NoDup (def_id <$> defs) → Forall (λ x, SqlString.free_of ":"%char (def_id x)) defs →
  (∀ x def, x ∈ l → def ∈ defs → x.1 ≠ (id, def_id def)) →
  gives (task_loop id defs) d (λ _ d',
    achievements d' = achievements d ∧ achievement_progressions d' = achievement_progressions d ∧
    Forall2 task_matches (l ++ ((λ x, (id, def_id x, as_i32 (def_total x))) <$> defs)) (achievement_tasks d')).
Proof.
  revert d l. induction defs as [|def defs IH]; intros d l HF Hfree Hnd Hfd Hnew.
  { apply gives_ret. simpl. by rewrite app_nil_r. }
  rewrite fmap_cons, NoDup_cons in Hnd. destruct Hnd as [Hn Hnd]. rewrite Forall_cons in Hfd. destruct Hfd as [Hfd1 Hfd].
  unfold task_loop. cbn [for_each]. apply gives_bind, gives_run. fold (task_loop id defs).
  set (new := new_task world namespace id def (ach_query_time (ach_queries_run d))).
  assert (upsert_task new (achievement_tasks d) = achievement_tasks d ++ [new]) as Heq.
  { apply upsert_fresh. intros y Hy Hk. apply list_elem_of_lookup in Hy as [i Hy].
    destruct (Forall2_lookup_r _ _ _ _ _ HF Hy) as (x & Hx & Hxy). apply list_elem_of_lookup_2 in Hx.
    destruct Hxy as (_ & _ & _ & _ & _ & Hrow). rewrite Forall_forall in Hfree.
    apply (Hnew x def Hx); [left|]. destruct (task_key_inj x.1.1 x.1.2 id (def_id def)) as [H1 H2].
    - by apply Hfree. - done. - by rewrite <- Hrow, Hk.
    - destruct x as [[? ?] ?]. simpl in *. by subst. }
  cbn. rewrite Heq. eapply gives_mono.
  { apply (IH (count_query (set_tasks (achievement_tasks d ++ [new]) d)) (l ++ [(id, def_id def, as_i32 (def_total def))])); cbn; [| |done|done|].
    - apply Forall2_app; [done|]. by repeat constructor.
    - apply Forall_app. split; [done|]. by rewrite Forall_singleton.
    - intros x def' [Hx|Hx]%elem_of_app Hdef'; [apply Hnew; [done|by right]|].
      apply list_elem_of_singleton in Hx as ->. simpl. intros [= Hdup]. apply Hn. rewrite Hdup. by apply list_elem_of_fmap_2. }
  intros _ d' (H1 & H2 & H3). split_and!; [done|done|]. by rewrite <- app_assoc in H3.
Qed.

Definition registers (entity : DTy) (t : Trophy) : Prop :=
  (∀ name, ∃ v, extract_field_value entity name = Ok v) ∧
  (∃ e, extract_field_value entity "id" = Ok (Some e) ∧ trophy_id t = world +:+ ":" +:+ namespace +:+ ":" +:+ e) ∧
  (∃ v, extract_field_value entity "points" = Ok v ∧ default 0 (v ≫= parse_i32) = trophy_points t) ∧
  (∃ g, extract_field_value entity "group" = Ok (Some g)) ∧
  (∃ v, extract_field_value entity "tasks" = Ok v ∧ definitions_of (default "[]" v) = trophy_tasks t).
Definition new_trophy (b : Board) (t : Trophy) : Prop :=
  (trophy_id t ∉ (trophy_id <$> trophies b)) ∧ NoDup (trophy_tasks t).*1 ∧
  Forall (λ x, SqlString.free_of ":"%char x.1) (trophy_tasks t).

Lemma gives_field_or dv entity name v d (Q : string → AchievementDb → Prop) :
  extract_field_value entity name = Ok v → Q (default dv v) d → gives (field_or dv entity name) d Q.
Proof. intros Hv HQ. apply gives_bind. rewrite Hv. by apply gives_lift, gives_ret. Qed.
Lemma gives_field_i32_or dv entity name v d (Q : Z → AchievementDb → Prop) :
  extract_field_value entity name = Ok v → Q (default dv (v ≫= parse_i32)) d → gives (field_i32_or dv entity name) d Q.
Proof. intros Hv HQ. apply gives_bind. rewrite Hv. by apply gives_lift, gives_ret. Qed.

Lemma target_register b t task : is_Some (target b task) → target (register t b) task = target b task.
Proof.
  unfold target, all_tasks, register. simpl. rewrite bind_app, filter_app, head_app.
  by destruct (head (filter _ (trophies b ≫= trophy_tasks))); [|intros []].
Qed.

Lemma register_board_ok b t : board_ok b → new_trophy b t → board_ok (register t b).
Proof.
  intros (H1 & H2 & H3) (Hid & Hnd & Hfree). unfold board_ok. simpl. split_and!.
  - rewrite fmap_app, NoDup_app. split_and!; [done| |apply NoDup_singleton].
    intros x Hx Hx'. apply list_elem_of_singleton in Hx' as ->. done.
  - apply Forall_app. split; [done|]. by rewrite Forall_singleton.
  - intros k Hk. pose proof (H3 k Hk) as Ht. by rewrite target_register.
Qed.

Lemma row_matches_register b t r : board_ok b → progression_matches b r → progression_matches (register t b) r.
Proof.
  intros (_ & _ & Hb) (H1 & H2 & H3 & H4 & H5 & H6). split_and!; try done.
  rewrite H6. unfold reached. rewrite target_register; [done|]. apply (Hb (row_key r)). by rewrite H5.
Qed.

Lemma board_tasks_free b : board_ok b → Forall (λ x, SqlString.free_of ":"%char x.1.2) (board_tasks b).
Proof.
  intros (_ & HF & _). apply Forall_forall. intros x (t & Ht & _ & Hx)%board_task_trophy.
  rewrite Forall_forall in HF. destruct (HF t Ht) as [_ Hfree]. rewrite Forall_forall in Hfree. by apply (Hfree _ Hx).
Qed.

Lemma insert_row_ok r d (Q : unit → AchievementDb → Prop) g :
  (∀ now, ach_id (r g now) ∉ (ach_id <$> achievements d)) →
  (∀ now, Q tt (count_query (set_achievements (achievements d ++ [r g now]) d))) →
  gives (insert_achievement r (Some g)) d Q.
Proof.
  intros Hn HQ. unfold insert_achievement. eapply gives_query; [cbn; reflexivity|].
  unfold upsert_achievement. rewrite upsert_fresh; [apply HQ|]. intros x Hx Hk.
  eapply Hn. rewrite <- Hk. by apply list_elem_of_fmap_2.
Qed.

Lemma trophy_ids ts rows : Forall2 trophy_matches ts rows → ach_id <$> rows = trophy_id <$> ts.
Proof. induction 1 as [|? ? ? ? (Hm & _) HF IH]; [done|]. rewrite !fmap_cons. by rewrite Hm, IH. Qed.

Lemma registration_step b d entity t : represents b d → registers entity t → new_trophy b t →
  gives (register_achievement world namespace entity) d (λ r d',
    represents (register t b) d' ∧ r = Some (trophy_id t)).
Proof.
  intros Hr (Hall & (e & He & Hid) & (vp & Hvp & Hpoints) & (grp & Hgrp) & (vt & Hvt & Htasks)) Hnew.
  pose proof (register_board_ok b t (rep_board _ _ Hr) Hnew) as Hb. destruct Hnew as (Hfresh & Hnd & Hfree).
  pose proof (trophy_ids _ _ (rep_trophies _ _ Hr)) as Hids.
  unfold register_achievement, field. apply gives_bind, gives_bind. rewrite He. apply gives_lift, gives_lift.
  destruct (Hall "hidden") as [v1 H1], (Hall "index") as [v2 H2], (Hall "start") as [v3 H3], (Hall "end") as [v4 H4],
    (Hall "icon") as [v5 H5], (Hall "title") as [v6 H6], (Hall "description") as [v7 H7], (Hall "data") as [v8 H8].
  do 3 (apply gives_bind; eapply gives_field_i32_or; [eassumption|]).
  rewrite Hgrp. do 6 (apply gives_bind; eapply gives_field_or; [eassumption|]).
  apply gives_bind. rewrite H8. apply gives_lift. rewrite <- Hid, Hpoints.
  apply gives_bind, insert_row_ok; intros now; cbn [ach_id]; [by rewrite Hids|].
  set (row := mkAchievement _ _ _ _ _ _ _ _ _ _ _ _ _ _ _ _ _ _ _).
  apply gives_bind. eapply gives_mono.
  { apply (task_loop_ok (trophy_id t) _ _ (board_tasks b)).
    - apply Hr.
    - apply board_tasks_free, Hr.
    - rewrite <- Htasks in Hnd. unfold definitions_of in Hnd. by rewrite <- list_fmap_compose in Hnd.
    - rewrite <- Htasks in Hfree. unfold definitions_of in Hfree. by rewrite Forall_fmap in Hfree.
    - intros x def Hx _ Heq. apply board_task_trophy in Hx as (t' & Ht' & Hx1 & _). apply Hfresh.
      rewrite Heq in Hx1. simpl in Hx1. rewrite Hx1. by apply list_elem_of_fmap_2. }
  intros _ d' (E1 & E2 & E3). apply gives_ret. split; [|done]. cbn in E1, E2.
  destruct Hr as [Hb0 Ht Hk Hu Hrows Hp]. split; rewrite ?E1, ?E2; try done.
  - apply Forall2_app; [done|]. constructor; [|constructor]. unfold trophy_matches. by split_and!.
  - unfold board_tasks in *. simpl. rewrite bind_app. simpl. rewrite app_nil_r, <- Htasks. unfold definitions_of.
    rewrite <- list_fmap_compose. exact E3.
  - eapply Forall_impl; [exact Hrows|]. intros r. by apply row_matches_register.
Qed.

(** *** Sequences of messages *)
Inductive Op : Type :=
| OpRegister (entity : DTy) (t : Trophy)
| OpProgress (entity : DTy) (task player : string) (count : Z).

Definition run_op (op : Op) : ach (option AchievementProgression) :=
  match op with
  | OpRegister entity _ => register_achievement world namespace entity ;;; st_ret None
  | OpProgress entity _ _ _ => update_achievement_progression world namespace entity
  end.
Definition apply_op (b : Board) (op : Op) : Board :=
  match op with
  | OpRegister _ t => register t b
  | OpProgress _ task player count => advance task player count b
  end.
Definition op_ok (b : Board) (op : Op) : Prop :=
  Z.of_nat (length (trophies b)) < 2 ^ 31 ∧
  match op with
  | OpRegister entity t => registers entity t ∧ new_trophy b t
  | OpProgress entity task player count =>
      advances entity task player count ∧ is_Some (felt_of_hex world) ∧ is_Some (felt_of_hex player) ∧
      0 ≤ default 0 (progress b !! (task, player)) + count < 2 ^ 31
  end.
Fixpoint ops_ok (b : Board) (ops : list Op) : Prop :=
  match ops with [] => True | op :: ops => op_ok b op ∧ ops_ok (apply_op b op) ops end.
Definition result_ok (b : Board) (op : Op) (r : option AchievementProgression) (d : AchievementDb) : Prop :=
  match op with
  | OpRegister _ _ => r = None
  | OpProgress _ task player _ =>
      progression_ok b task player r ∧
      (is_Some (target b task) → ∃ s, stats_row player d = Some s ∧ stats_hold b player s)
  end.

Lemma op_step b d op : represents b d → op_ok b op →
  gives (run_op op) d (λ r d', represents (apply_op b op) d' ∧ result_ok (apply_op b op) op r d').
Proof.
  intros Hr [Hlen Hop]. destruct op as [entity t|entity task player count]; simpl in *.
  - destruct Hop as [Hreg Hnew]. apply gives_bind. eapply gives_mono; [by apply registration_step|].
    intros _ d' [Hr' _]. by apply gives_ret.
  - destruct Hop as (Hadv & [wf Hwf] & [pf Hpf] & Hrange).
    eapply gives_mono; [by eapply progression_step|]. intros r d' (Hr' & Hp & Hs). split_and!; [done|done|].
    unfold target, all_tasks. rewrite trophies_advance. exact Hs.
Qed.

Lemma ops_step ops : ∀ b d, represents b d → ops_ok b ops →
  gives (st_mapM run_op ops) d (λ _ d', represents (foldl apply_op b ops) d').
Proof.
  induction ops as [|op ops IH]; intros b d Hr Hops; [by apply gives_ret|]. destruct Hops as [Hop Hops].
  simpl. apply gives_bind. eapply gives_mono; [by apply op_step|]. intros r d1 [Hr1 _].
  apply gives_bind. eapply gives_mono; [by apply (IH (apply_op b op))|]. intros rs d2 Hr2. by apply gives_ret.
Qed.

Lemma ops_ok_app b ops op : ops_ok b (ops ++ [op]) → ops_ok b ops ∧ op_ok (foldl apply_op b ops) op.
Proof. revert b. induction ops as [|o ops IH]; intros b; simpl; [by intros [? _]|]. intros [Ho [? ?]%IH]. done. Qed.

Lemma represents_empty n : represents (mkBoard [] ∅) (mkAchDb [] [] [] [] n).
Proof.
  split; simpl; try constructor.
  - constructor.
  - split; [constructor|]. intros k [? Hk]. cbn in Hk. by rewrite lookup_empty in Hk.
  - intros k [? Hk]. cbn in Hk. by rewrite lookup_empty in Hk.
Qed.



(** An achievement without a group is not registered, although every other
    missing field has a default. *)
Lemma missing_group_fails entity d : (∀ name, ∃ v, extract_field_value entity name = Ok v) →
  (∃ e, extract_field_value entity "id" = Ok (Some e)) → extract_field_value entity "group" = Ok None →
  ∃ d', register_achievement world namespace entity d = (Err AchSqlx, d') ∧ same_tables d d'.
Proof.
  intros Hall [e He] Hg.
  destruct (Hall "hidden") as [v1 H1], (Hall "index") as [v2 H2], (Hall "start") as [v3 H3], (Hall "end") as [v4 H4],
    (Hall "icon") as [v5 H5], (Hall "title") as [v6 H6], (Hall "description") as [v7 H7], (Hall "data") as [v8 H8],
    (Hall "points") as [v9 H9], (Hall "tasks") as [v10 H10].
  unfold register_achievement, field, field_i32_or, field_or, insert_achievement, query, st_bind, st_lift, st_ret.
  rewrite He, H1, H2, H3, H4, H5, H6, H7, H8, H9, H10, Hg, no_failure. simpl. eexists. split; [done|]. by apply same_count_query.
Qed.
End refinement.

(** ** An example and its limits *)
Section witnesses.
#[local] Instance z_prims : Primitives := {| Primitive := Z; prim_eqb := Z.eqb |}.
#[local] Instance z_text : TyText := {|
  prim_sql_type _ := SqlInteger; prim_sql_value z := pretty z; enum_sql_value _ _ _ := ""; values_json _ := inr ""
|}.
Definition demo_tasks (s : string) : option (list AchievementTaskDefinition) :=
  if decide (s = "win,play") then Some [mkTaskDef "win" "win twice" 2; mkTaskDef "play" "play" 1]
  else if decide (s = "win,win") then Some [mkTaskDef "win" "win twice" 2; mkTaskDef "win" "win again" 2]
  else if decide (s = "win") then Some [mkTaskDef "win" "win twice" 2]
  else None.
#[local] Instance demo_env : AchievementEnv := {|
  ach_query_fails _ := false; ach_query_time n := Z.of_nat n; parse_tasks := demo_tasks; ty_json _ := None;
  felt_of_hex s := if decide (s = "0x1") then Some 1 else if decide (s = "0x7") then Some 7 else None;
  decode_i32 n := if decide (- 2 ^ 31 ≤ n < 2 ^ 31) then Some n else None
|}.
Definition demo_creation (fields : list (string * string)) : DTy :=
  TyStruct "game-TrophyCreation" ((λ x, (x.1, TyByteArray x.2, false)) <$> fields).
Definition demo_trophy : DTy :=
  demo_creation [("id", "champion"); ("points", "10"); ("group", "g"); ("tasks", "win,play")].
Definition demo_progress (task : string) (count : Z) : DTy :=
  TyStruct "game-TrophyProgression" [("player_id", TyByteArray "0x7", true); ("task_id", TyByteArray task, true);
    ("count", TyPrimitive (count : Primitive), false)].
Definition empty_db : AchievementDb := mkAchDb [] [] [] [] 0.

Lemma text_fields l name : ∃ v, extract_field_value (demo_creation l) name = Ok v.
Proof.
  unfold demo_creation. cbn [extract_field_value]. destruct (list_find _ _) as [[i [[n t] k]]|] eqn:Hf; [|by eexists].
  apply list_find_Some in Hf as (Hl & _). rewrite list_lookup_fmap in Hl. destruct (l !! i); [|done].
  injection Hl as <- <- <-. by eexists.
Qed.

Definition demo_ops : list Op :=
  [OpRegister demo_trophy (mkTrophy "0x1:game:champion" 10 [("win", 2); ("play", 1)]);
   OpProgress (demo_progress "win" 1) "win" "0x7" 1; OpProgress (demo_progress "win" 1) "win" "0x7" 1].

Lemma demo_advances task count : i32_ok count → advances (demo_progress task count) task "0x7" count.
Proof.
  intros Hc. split_and!; [done|done|]. exists (Some (pretty count)). split; [done|]. simpl. unfold parse_i32.
  rewrite Agg.signed_from_pretty; [done|lia|]. unfold i32_ok in Hc. lia.
Qed.

Lemma demo_progress_ok b task :
  (Z.of_nat (length (trophies b)) <? 2 ^ 31) = true →
  (0 <=? default 0 (progress b !! (task, "0x7")) + 1) && (default 0 (progress b !! (task, "0x7")) + 1 <? 2 ^ 31) = true →
  op_ok "0x1" "game" b (OpProgress (demo_progress task 1) task "0x7" 1).
Proof.
  intros Hlen%Z.ltb_lt [H1%Z.leb_le H2%Z.ltb_lt]%andb_prop. split; [done|].
  split; [by apply demo_advances|]. split; [by exists 1|]. split; [by exists 7|done].
Qed.

Lemma demo_register_ok : op_ok "0x1" "game" (mkBoard [] ∅)
  (OpRegister demo_trophy (mkTrophy "0x1:game:champion" 10 [("win", 2); ("play", 1)])).
Proof.
  split; [done|]. split.
  - split; [intros name; apply text_fields|]. split; [by exists "champion"|]. split; [by exists (Some "10")|].
    split; [by exists "g"|]. by exists (Some "win,play").
  - split; [by intros ?%not_elem_of_nil|]. split; [|by repeat constructor]. by apply (bool_decide_unpack _).
Qed.


Definition demo_completed (entities : list (DTy + DTy)) : option Z :=
  let run e := match e with
               | inl t => register_achievement "0x1" "game" t ;;; st_ret tt
               | inr p => update_achievement_progression "0x1" "game" p ;;; st_ret tt
               end in
  stats_completed_achievements <$> stats_row "0x1" "game" "0x7" (for_each run entities empty_db).2.

(** A task defined twice is stored once, so an achievement with it is never completed. *)
Lemma repeated_task_never_completed :
  demo_completed [inl (demo_creation [("id", "a"); ("group", "g"); ("tasks", "win,win")]);
                  inr (demo_progress "win" 2)] = Some 0.
Proof. vm_compute. reflexivity. Qed.

(** Registering an achievement again with fewer tasks keeps those left out, so it
    is lost by the players who completed them. *)
Lemma reregistered_achievement_lost :
  demo_completed [inl demo_trophy; inr (demo_progress "win" 2); inr (demo_progress "play" 1)] = Some 1 ∧
  demo_completed [inl demo_trophy; inr (demo_progress "win" 2); inr (demo_progress "play" 1);
    inl (demo_creation [("id", "champion"); ("group", "g"); ("tasks", "win")]); inr (demo_progress "win" 1)] = Some 0.
Proof. split; vm_compute; reflexivity. Qed.
End witnesses.
End Ach.
