(* ===== verification/Leaderboards.v ===== *)
(** * Aggregations and achievements in the executor

    The executor of [Executor.v] is given the updates of aggregations and
    achievements as actions on its database. Here they are those of
    [Aggregator.v] and [Achievement.v], on tables that are part of the database
    ([LeaderboardTables]); an error of theirs is dropped, as in
    [executor/mod.rs], and a panic is one of the executor. *)

From S2P Require Import Prelude Math Proto SqlString Traits Database Cache Executor ModelTable Aggregator Achievement.
From Stdlib Require Import Ascii.
Local Open Scope Z_scope.
Local Open Scope torii_scope.

(** Where the tables are in what the executor does not name itself. *)
Class LeaderboardTables `{Primitives} `{ExecutorEnv} : Type := {
  ty_of : Ty → DTy;
  get_aggregations : Rest → AggregationDb;
  set_aggregations : AggregationDb → Rest → Rest;
  get_achievements : Rest → AchievementDb;
  set_achievements : AchievementDb → Rest → Rest;
  get_set_achievements a r : get_achievements (set_achievements a r) = a
}.

Module Leaderboards.

Section env.
Context `{Primitives} {TT : TyText} {AG : AggregationEnv} {AC : AchievementEnv}.
Context {E0 : ExecutorEnv} {LT : LeaderboardTables}.

Definition set_rest (x : Rest) (d : Database Rest) : Database Rest :=
  mkDatabase (contracts d) (transaction_contract d) (transaction_models d) (transaction_calls d) (models d)
    (entities d) (entity_model d) (entities_historical d) (event_model d) (event_messages_historical d)
    (tokens d) (token_attributes d) (token_balances d) (activities d) x.

Definition of_error {E A} (error : E → ExecutorQueryError) (o : outcome E A) : outcome ExecutorQueryError A :=
  match o with Ok a => Ok a | Err e => Err (error e) | Panic => Panic end.
Definition aggregation_error (e : AggregationError) : ExecutorQueryError :=
  match e with AggSqlx => QSqlx | LeaderboardFieldExtraction _ => QParse end.
Definition achievement_error (e : AchievementError) : ExecutorQueryError :=
  match e with AchSqlx => QSqlx | AchFieldExtraction => QParse | AchParse => QParse end.

Definition on_aggregations {A} (m : st AggregationDb AggregationError A) (d : Database Rest)
  : outcome ExecutorQueryError A * Database Rest :=
  let '(o, a) := m (get_aggregations (rest d)) in
  (of_error aggregation_error o, set_rest (set_aggregations a (rest d)) d).
Definition achievements_in (d : Database Rest) : AchievementDb := get_achievements (rest d).
Definition put_achievements (a : AchievementDb) (d : Database Rest) : Database Rest :=
  set_rest (set_achievements a (rest d)) d.
Definition on_achievements {A} (m : st AchievementDb AchievementError A) (d : Database Rest)
  : outcome ExecutorQueryError A * Database Rest :=
  let '(o, a) := m (achievements_in d) in (of_error achievement_error o, put_achievements a d).

Definition leaderboard_env : ExecutorEnv := {|
  env_dojo := @env_dojo E0; env_json := @env_json E0; Rest := @Rest E0; Row := @Row E0;
  ModelRow := @ModelRow E0; EventRow := @EventRow E0; TransferRow := @TransferRow E0; TxData := @TxData E0;
  Executor.AggregatorConfig := Aggregator.AggregatorConfig; Executor.AggregationEntry := Aggregator.AggregationEntry;
  Progression := AchievementProgression;
  run_statement := run_statement; entity_of_row := entity_of_row; contract_of_row := contract_of_row;
  transaction_of_row := transaction_of_row; model_of_row := model_of_row; event_of_row := event_of_row;
  transfer_of_row := transfer_of_row; select_model_table := select_model_table; map_row_to_ty := map_row_to_ty;
  ty_name := ty_name; ty_to_json := ty_to_json; ty_empty_struct := ty_empty_struct;
  agg_model_tag := agg_tag;
  update_aggregation c ty model_id := on_aggregations (Agg.update_aggregation c (ty_of ty) model_id);
  register_achievement world_address namespace ty :=
    on_achievements (Ach.register_achievement world_address namespace (ty_of ty));
  update_achievement_progression world_address namespace ty :=
    on_achievements (Ach.update_achievement_progression world_address namespace (ty_of ty));
  provider_call := provider_call; provider_batch_name_symbol := provider_batch_name_symbol;
  parse_cairo_short_string := parse_cairo_short_string; byte_array_to_string := byte_array_to_string;
  cairo_u256_deserialize := cairo_u256_deserialize; sql_fails := sql_fails; unix_now := unix_now;
  wal_size := wal_size
|}.
End env.

(** ** A message of the progression model *)
Section progression.
Context `{Primitives} {TT : TyText} {AG : AggregationEnv} {AC : AchievementEnv}.
Context {E0 : ExecutorEnv} {LT : LeaderboardTables} {U : U256Ops} {HO : HashOrder}.
#[local] Existing Instance leaderboard_env | 0.
Hypothesis no_failure : ∀ n, sql_fails n = false.
Hypothesis no_query_failure : ∀ n, ach_query_fails n = false.
Hypothesis decode_i32_ok : ∀ n, i32_ok n → decode_i32 n = Some n.
#[local] Abbreviation stored := (achievements_in (LT := LT)).
#[local] Abbreviation as_dty := (ty_of (LeaderboardTables := LT)).
#[local] Abbreviation executor := (Ex.Executor (H := leaderboard_env)).
#[local] Abbreviation message := (Ex.QueryMessage (H := leaderboard_env)).
#[local] Abbreviation exec A := (st (Ex.Executor (H := leaderboard_env)) ExecutorQueryError A).

(** A statement on the other tables *)
Lemma gives_sql_try {A} (f : Database Rest → option (A * Database Rest)) d a d' (s : executor) (Q : A → executor → Prop) :
  Ex.transaction s = Some d → f d = Some (a, d') →
  Q a (Ex.set_transaction (Some d') (Ex.tick s)) → gives (Ex.sql_try f) s Q.
Proof. intros Ht Hf HQ. eexists _, _. split; [|exact HQ]. unfold Ex.sql_try. by rewrite Ht, no_failure, Hf. Qed.

Lemma gives_read_counter f d (s : executor) (Q : Z → executor → Prop) :
  Ex.transaction s = Some d → (∀ c, Q c (Ex.set_transaction (Some d) (Ex.tick s))) → gives (Ex.read_counter f) s Q.
Proof.
  intros Ht HQ. unfold Ex.read_counter, Ex.sql_get, Ex.sql_try. eexists _, _. cbv beta.
  rewrite Ht, no_failure. by split.
Qed.

Lemma gives_sql_sub {A} (m : st AchievementDb AchievementError A) d (s : executor) (Q : option A → executor → Prop) :
  Ex.transaction s = Some d →
  gives m (stored d) (λ r a, Q (Some r) (Ex.set_transaction (H := leaderboard_env) (Some (put_achievements (LT := LT) a d)) (Ex.tick s))) →
  gives (Ex.sql_sub (H := leaderboard_env) (on_achievements (LT := LT) m)) s Q.
Proof.
  intros Ht (r & a & Hm & HQ). eexists _, _. split; [|exact HQ]. unfold Ex.sql_sub, on_achievements. by rewrite Ht, Hm.
Qed.

Lemma gives_publish msg (s : executor) (Q : unit → executor → Prop) :
  (∀ s', Ex.transaction s' = Ex.transaction s → Ex.progressions s' = Ex.progressions s →
     Ex.config s' = Ex.config s → Q tt s') →
  gives (Ex.publish_optimistic_and_queue msg) s Q.
Proof. intros HQ. eexists _, _. split; [reflexivity|]. by apply HQ. Qed.

Definition op_entity (op : Ach.Op) : DTy :=
  match op with Ach.OpRegister entity _ => entity | Ach.OpProgress entity _ _ _ => entity end.
Definition is_registration (op : Ach.Op) : bool :=
  match op with Ach.OpRegister _ _ => true | Ach.OpProgress _ _ _ _ => false end.

(** The rows before the achievements are touched: the historical message and the
    counter leave them alone. *)
Lemma gives_historical (em : Ex.EventMessageQuery (H := leaderboard_env)) counter d (s : executor) (Q : Z → executor → Prop) :
  Ex.transaction s = Some d →
  (Ex.em_is_historical em = true → is_Some (Ex.split_once ":"%char (Ex.em_entity_id em)) ∧
     ∃ json, ty_to_json (Ex.em_ty em) = Ok json) →
  (∀ c s' d', Ex.transaction s' = Some d' → rest d' = rest d → Ex.config s' = Ex.config s →
     Ex.progressions s' = Ex.progressions s → Q c s') →
  gives (if Ex.em_is_historical em then
       let! (world_address, entity_id) := st_lift (unwrap (Ex.split_once ":"%char (Ex.em_entity_id em))) in
       let! data := st_lift (ty_to_json (Ex.em_ty em)) in
       Ex.sql_exec (λ d, set_event_messages_historical (event_messages_historical d ++
         [mkHistorical (Ex.em_entity_id em) (Some (Ex.em_keys_str em)) (Ex.em_event_id em) data
            (Ex.em_model_id em) (Ex.em_block_timestamp em) world_address entity_id]) d) ;;;
       st_ret (counter + 1)
     else st_ret counter) s Q.
Proof.
  intros Ht Hh HQ. destruct (Ex.em_is_historical em).
  - destruct (Hh eq_refl) as ([[w e] Hs] & json & Hj). rewrite Hs, Hj. apply gives_bind, gives_lift, gives_bind, gives_lift.
    apply gives_bind. eapply gives_sql_try; [done|done|]. apply gives_ret. by eapply HQ.
  - apply gives_ret. by eapply HQ.
Qed.

Lemma gives_no_aggregations ty model_id (s : executor) (Q : list _ → executor → Prop) :
  Ex.get_aggregator_for_model (ty_name ty) (Ex.config s) = [] → Q [] s →
  gives (Ex.update_aggregations ty model_id) s Q.
Proof. intros Ha HQ. apply gives_bind, gives_get. rewrite Ha. by apply gives_bind, gives_ret, gives_ret. Qed.

Lemma stored_put a d : stored (put_achievements a d) = a.
Proof. apply get_set_achievements. Qed.

(** The branch of the achievements *)
Lemma gives_achievements (em : Ex.EventMessageQuery (H := leaderboard_env)) (s : executor) (c : Ex.SqlConfig) d ns name b op
    (Q : unit → executor → Prop) :
  Ex.transaction s = Some d →
  Ex.is_achievement_registration_model_name name c = is_registration op →
  Ex.is_achievement_progression_model_name name c = negb (is_registration op) →
  op_entity op = as_dty (Ex.em_ty em) →
  Ach.represents (Ex.em_world_address em) ns b (stored d) → Ach.op_ok (Ex.em_world_address em) ns b op →
  (∀ (s' : executor) d' r, Ex.transaction s' = Some d' →
     Ach.represents (Ex.em_world_address em) ns (Ach.apply_op b op) (stored d') →
     Ach.result_ok (Ex.em_world_address em) ns (Ach.apply_op b op) op r (stored d') →
     Ex.progressions s' = Ex.progressions s ++ option_list r → Ex.config s' = Ex.config s → Q tt s') →
  gives ((if Ex.is_achievement_registration_model_name name c then
     let! _ := Ex.sql_sub (register_achievement (Ex.em_world_address em) ns (Ex.em_ty em)) in st_ret tt
   else st_ret tt) ;;;
  (if Ex.is_achievement_progression_model_name name c then
     let! r := Ex.sql_sub (update_achievement_progression (Ex.em_world_address em) ns (Ex.em_ty em)) in
     match r with
     | Some (Some progression) => st_modify (λ s, Ex.set_progressions (Ex.progressions s ++ [progression]) s)
     | _ => st_ret tt
     end
   else st_ret tt)) s Q.
Proof.
  intros Ht Hreg Hprog Hent Hrep Hok HQ. rewrite Hreg, Hprog.
  destruct op as [entity t|entity task player count]; simpl in Hent; subst entity; cbn [is_registration negb].
  - destruct Hok as (_ & Hregs & Hnew). apply gives_bind, gives_bind.
    eapply (gives_sql_sub (Ach.register_achievement _ ns (as_dty (Ex.em_ty em)))); [done|].
    eapply gives_mono; [by eapply Ach.registration_step|]. intros r a [Hr _]. do 2 apply gives_ret.
    eapply (HQ _ _ None); [done|by rewrite stored_put|done|by rewrite app_nil_r|done].
  - apply gives_bind, gives_ret, gives_bind.
    eapply (gives_sql_sub (Ach.update_achievement_progression _ ns (as_dty (Ex.em_ty em)))); [done|].
    eapply gives_mono; [by apply (Ach.op_step _ _ no_query_failure decode_i32_ok _ _ _ Hrep Hok)|].
    intros r a [Hr Hres]. destruct r as [p|].
    + eexists _, _. split; [reflexivity|]. eapply (HQ _ _ (Some p)); [done|by rewrite stored_put|by rewrite stored_put|done|done].
    + apply gives_ret. eapply (HQ _ _ None); [done|by rewrite stored_put|by rewrite stored_put|by rewrite app_nil_r|done].
Qed.

(** An event message of the model of achievements, registering one or making
    progress, is handled without error in the open transaction, whose tables of
    achievements are then those of the board with the achievement or the progress
    added; a progression is published with the count and the completion of the
    board, and nothing else is. *)
Theorem achievement_message (m : message) (em : Ex.EventMessageQuery (H := leaderboard_env)) (s : executor)
    d row rows n d1 er ns name b op :
  Ex.transaction s = Some d →
  run_statement (Ex.statement m) (Ex.arguments m) d = (Some (row :: rows, n), d1) → rest d1 = rest d →
  entity_of_row row = Some er →
  (Ex.em_is_historical em = true → is_Some (Ex.split_once ":"%char (Ex.em_entity_id em)) ∧
     ∃ json, ty_to_json (Ex.em_ty em) = Ok json) →
  Ex.split_once "-"%char (ty_name (Ex.em_ty em)) = Some (ns, name) →
  Ex.get_aggregator_for_model (ty_name (Ex.em_ty em)) (Ex.config s) = [] →
  Ex.is_achievement_registration_model_name name (Ex.config s) = is_registration op →
  Ex.is_achievement_progression_model_name name (Ex.config s) = negb (is_registration op) →
  op_entity op = as_dty (Ex.em_ty em) →
  Ach.represents (Ex.em_world_address em) ns b (stored d) → Ach.op_ok (Ex.em_world_address em) ns b op →
  gives (Ex.handle_event_message m em) s (λ _ s', ∃ d' r,
    let b' := Ach.apply_op b op in
    Ex.transaction s' = Some d' ∧ Ach.represents (Ex.em_world_address em) ns b' (stored d') ∧
    Ach.result_ok (Ex.em_world_address em) ns b' op r (stored d') ∧
    Ex.progressions s' = Ex.progressions s ++ option_list r ∧ Ex.config s' = Ex.config s).
Proof.
  intros Ht Hrun Hd1 Her Hh Hname Hagg Hreg Hprog Hent Hrep Hok. unfold Ex.handle_event_message, Ex.fetch_one.
  apply gives_bind, gives_bind. eapply gives_sql_try; [done|by rewrite Hrun|]. apply gives_lift.
  apply gives_bind. eapply gives_read_counter; [done|]. intros counter.
  apply gives_bind. eapply gives_historical; [done|done|]. intros counter' s1 d2 Ht1 Hr1 Hc1 Hp1.
  apply gives_bind. eapply gives_sql_try; [done|done|]. apply gives_bind. rewrite Her. apply gives_lift.
  apply gives_bind, gives_get, gives_bind. rewrite Hname. apply gives_lift.
  apply gives_bind, gives_no_aggregations; [by cbn; rewrite Hc1|].
  apply gives_assoc, gives_bind. eapply gives_achievements; [done|cbn; rewrite Hc1; done..|done| |done|].
  { assert (stored d2 = stored d) as Hst by (unfold achievements_in; f_equal; etransitivity; [exact Hr1|exact Hd1]).
    rewrite <- Hst in Hrep. exact Hrep. }
  intros s2 d3 r Ht2 Hrep2 Hres2 Hp2 Hc2. apply gives_bind, gives_ret, gives_publish. intros s3 Ht3 Hp3 Hc3.
  exists d3, r. rewrite Ht3, Hp3, Hp2, Hc3, Hc2. split_and!; try done; cbn; by rewrite Hp1.
Qed.
End progression.

(** ** A player who completes an achievement, from the message to the tables *)
Section witness.
#[local] Existing Instances Ach.z_prims Ach.z_text Ach.demo_env canonical_order u256_checked.
Definition demo_agg : AggregationEnv :=
  {| query_fails _ := false; query_time _ := 0; parse_metadata _ := None |}.
#[local] Existing Instance demo_agg.

Definition demo_base : ExecutorEnv :=
  {| env_dojo := {| Ty := DTy; Layout := unit; WorldMetadata := unit |}; env_json := Ex.demo_json;
     Rest := AggregationDb * AchievementDb; Row := unit; ModelRow := unit; EventRow := unit; TransferRow := unit;
     TxData := unit; Executor.AggregatorConfig := unit; Executor.AggregationEntry := unit; Progression := unit;
     run_statement _ _ d := (Some ([tt], 1), d);
     entity_of_row _ := Some (mkEntityRow "0x1:e" "k" "ev" "t");
     contract_of_row _ := None; transaction_of_row _ := None;
     model_of_row _ := Some tt; event_of_row _ := Some tt; transfer_of_row _ := Some tt;
     select_model_table _ _ _ := Some tt; map_row_to_ty ty _ := Some ty;
     ty_name ty := match ty with TyStruct name _ => name | _ => "" end;
     ty_to_json _ := Ok "json"; ty_empty_struct name := TyStruct name [];
     agg_model_tag _ := ""; update_aggregation _ _ _ d := (Err QSqlx, d);
     register_achievement _ _ _ d := (Err QSqlx, d); update_achievement_progression _ _ _ d := (Err QSqlx, d);
     provider_call _ _ _ _ := None; provider_batch_name_symbol _ := None;
     parse_cairo_short_string _ := None; byte_array_to_string _ := None; cairo_u256_deserialize _ := None;
     sql_fails _ := false; unix_now _ := 1000; wal_size _ := None |}.
#[local] Existing Instance demo_base.
#[local] Instance demo_tables : LeaderboardTables :=
  {| ty_of := id; get_aggregations := fst; set_aggregations a r := (a, r.2);
     get_achievements := snd; set_achievements a r := (r.1, a); get_set_achievements _ _ := eq_refl |}.
Definition demo_db : Database Rest :=
  mkDatabase ∅ ∅ ∅ [] ∅ ∅ ∅ [] ∅ [] ∅ ∅ ∅ [] (mkAggDb ∅ 0, Ach.empty_db).
Definition demo_cfg : Ex.SqlConfig (H := leaderboard_env) :=
  Ex.mkSqlConfig (H := leaderboard_env) [] 0 0 false 0 ∅ false false "TrophyCreation" "TrophyProgression".
Definition demo_event (ty : DTy) : Ex.EventMessageQuery (H := leaderboard_env) :=
  Ex.mkEventMessage (H := leaderboard_env) "0x1" "0x1:e" "m" "k" "ev" "t" true ty.
Definition demo_query (ty : DTy) : Ex.QueryMessage (H := leaderboard_env) :=
  Ex.mkQuery (H := leaderboard_env) "" [] (Ex.EventMessage (H := leaderboard_env) (demo_event ty)).
Definition demo_trophy_op : Ach.Op :=
  Ach.OpRegister Ach.demo_trophy (Ach.mkTrophy "0x1:game:champion" 10 [("win", 2); ("play", 1)]).
Definition demo_win_op : Ach.Op := Ach.OpProgress (Ach.demo_progress "win" 2) "win" "0x7" 2.

(** The trophy is registered, then the first of its two tasks completed. *)
Lemma achievement_message_witness :
  gives (Ex.handle_event_message (H := leaderboard_env) (demo_query Ach.demo_trophy) (demo_event Ach.demo_trophy) ;;;
         Ex.handle_event_message (H := leaderboard_env) (demo_query (Ach.demo_progress "win" 2))
           (demo_event (Ach.demo_progress "win" 2)))
    (Ex.new (H := leaderboard_env) demo_db demo_cfg)
    (λ _ s', ∃ p, Ex.progressions (H := leaderboard_env) s' = [p] ∧ ap_count p = 2 ∧ ap_completed p = true).
Proof.
  assert (∀ n, i32_ok n → decode_i32 n = Some n) as Hdec by (intros n Hn; exact (decide_True (P := - 2 ^ 31 ≤ n < 2 ^ 31) (Some n) None Hn)).
  apply gives_bind. eapply gives_mono.
  { apply (achievement_message (AG := demo_agg) (AC := Ach.demo_env) (E0 := demo_base) (λ _, eq_refl) (λ _, eq_refl) Hdec (demo_query Ach.demo_trophy) (demo_event Ach.demo_trophy) (Ex.new (H := leaderboard_env) demo_db demo_cfg)
      demo_db tt [] 1 demo_db (mkEntityRow "0x1:e" "k" "ev" "t") "game" "TrophyCreation" (Ach.mkBoard [] ∅) demo_trophy_op); try reflexivity.
    - intros _. split; [by eexists|by exists "json"].
    - apply (Ach.represents_empty "0x1" "game" 0).
    - exact Ach.demo_register_ok. }
  intros _ s1 (d1 & r1 & Ht1 & Hrep1 & -> & Hp1 & Hc1). cbv zeta in *. eapply gives_mono.
  { apply (achievement_message (AG := demo_agg) (AC := Ach.demo_env) (E0 := demo_base) (λ _, eq_refl) (λ _, eq_refl) Hdec (demo_query (Ach.demo_progress "win" 2))
      (demo_event (Ach.demo_progress "win" 2)) s1 d1 tt [] 1 d1 (mkEntityRow "0x1:e" "k" "ev" "t") "game" "TrophyProgression"
      (Ach.apply_op (Ach.mkBoard [] ∅) demo_trophy_op) demo_win_op); try reflexivity; try done; try (by rewrite Hc1).
    - intros _. split; [by eexists|by exists "json"].
    - split; [done|]. split; [apply Ach.demo_advances; unfold i32_ok; lia|]. split; [by exists 1|].
      split; [by exists 7|]. vm_compute. split; congruence. }
  intros _ s2 (d2 & r2 & _ & _ & [Hprog _] & Hp2 & _). rewrite Hp1 in Hp2. destruct r2 as [p|]; [|by exfalso].
  exists p. split; [exact Hp2|]. destruct Hprog as (_ & Hcount & Hcompleted). split.
  - change (Some 2 = Some (ap_count p)) in Hcount. congruence.
  - rewrite Hcompleted. vm_compute. reflexivity.
Defined.
End witness.
End Leaderboards.
