(* ===== verification/Matching.v ===== *)
(** * Which updates a subscriber wants ([crates/grpc/server/src/subscriptions/mod.rs])

    [match_entity] decides whether an entity is in the clause of a subscriber,
    [match_keys] whether the keys of an event are. A clause on a member walks a path
    through the type of the model and compares the value it finds. The result is an
    [outcome], for the slice of the path that may panic.

    What the dojo crates say of a value is a parameter ([DojoValues]): the name of a
    type, the selected option of an enum, the order of primitives, the cast to [u32].

    The same clauses also select stored entities, where the keys are matched as text
    by the regular expression of [build_keys_pattern]
    ([crates/sqlite/sqlite/src/utils.rs]); the two are compared at the end. *)

From S2P Require Import Prelude Proto SqlString ModelTable Wire Messages Aggregator.
From Stdlib Require Import Ascii.
Local Open Scope Z_scope.
Local Open Scope torii_scope.

Class DojoValues : Type := {
  (** [Ty::name] *)
  ty_name : DTy → string;
  (** [Enum::option] *)
  enum_selected : string → option nat → list (string * DTy) → option (string * DTy);
  (** [PartialOrd for Primitive] *)
  prim_partial_cmp : Prim → Prim → option comparison;
  (** [Primitive::as_u32] *)
  prim_as_u32 : Prim → option Z
}.

Module Matching.
Import Msg.

(** ** Text *)
Fixpoint find_char (c : ascii) (s : string) : option nat :=
  match s with
  | EmptyString => None
  | String c' s => if Ascii.eqb c' c then Some 0%nat else S <$> find_char c s
  end.
(** [s.split_once(c)] *)
Definition split_once (c : ascii) (s : string) : option (string * string) :=
  i ← find_char c s; Some (String.substring 0 i s, String.substring (S i) (String.length s) s).
Definition usize_max : Z := u64_max.
Definition parse_usize : string → option Z := unsigned_from 10 dec_val usize_max.

Definition open_bracket : ascii := ascii_of_nat 91.
Definition close_bracket : ascii := ascii_of_nat 93.
Definition dash : ascii := ascii_of_nat 45.
Definition dot : ascii := ascii_of_nat 46.

(** ** Comparisons *)
Section matching.
Context `{DojoValues}.

Definition is_primitive (p : Prim) (v : MemberValue) : bool :=
  match v with MemberPrimitive q => bool_decide (p = q) | _ => false end.
Definition is_string (s : string) (v : MemberValue) : bool :=
  match v with MemberString t => String.eqb s t | _ => false end.

Definition compare_enum_name (name : string) (operator : ComparisonOperator) (value : MemberValue) : bool :=
  match operator, value with
  | CEq, MemberString value => String.eqb name value
  | Neq, MemberString value => negb (String.eqb name value)
  | In, MemberList values => existsb (is_string name) values
  | NotIn, MemberList values => negb (existsb (is_string name) values)
  | _, _ => false
  end.

Definition compare_primitive (primitive : Prim) (operator : ComparisonOperator) (value : MemberValue) : bool :=
  match operator, value with
  | CEq, MemberPrimitive value => bool_decide (primitive = value)
  | Neq, MemberPrimitive value => negb (bool_decide (primitive = value))
  | Gt, MemberPrimitive value => match prim_partial_cmp primitive value with Some Datatypes.Gt => true | _ => false end
  | Gte, MemberPrimitive value =>
      match prim_partial_cmp primitive value with Some (Datatypes.Gt | Datatypes.Eq) => true | _ => false end
  | Lt, MemberPrimitive value => match prim_partial_cmp primitive value with Some Datatypes.Lt => true | _ => false end
  | Lte, MemberPrimitive value =>
      match prim_partial_cmp primitive value with Some (Datatypes.Lt | Datatypes.Eq) => true | _ => false end
  | In, MemberList values => existsb (is_primitive primitive) values
  | NotIn, MemberList values => negb (existsb (is_primitive primitive) values)
  | _, _ => false
  end.

Definition compare_string (s : string) (operator : ComparisonOperator) (value : MemberValue) : bool :=
  match operator, value with
  | CEq, MemberString value => String.eqb s value
  | Neq, MemberString value => negb (String.eqb s value)
  | Gt, MemberString value => match String.compare s value with Datatypes.Gt => true | _ => false end
  | Gte, MemberString value => match String.compare s value with Datatypes.Lt => false | _ => true end
  | Lt, MemberString value => match String.compare s value with Datatypes.Lt => true | _ => false end
  | Lte, MemberString value => match String.compare s value with Datatypes.Gt => false | _ => true end
  | In, MemberList values => existsb (is_string s) values
  | NotIn, MemberList values => negb (existsb (is_string s) values)
  | _, _ => false
  end.

(** An element of an array equal to a value of the clause *)
Definition element_is (elem : DTy) (value : MemberValue) : bool :=
  match elem, value with
  | TyPrimitive p, MemberPrimitive v => bool_decide ((p : Prim) = v)
  | TyByteArray s, MemberString v => String.eqb s v
  | _, _ => false
  end.
Definition length_test (test : Z → Z → bool) (array : list DTy) (value : Prim) : bool :=
  match prim_as_u32 value with Some len => test (Z.of_nat (length array)) len | None => false end.
Definition compare_array (array : list DTy) (operator : ComparisonOperator) (value : MemberValue) : bool :=
  match operator, value with
  | Contains, (MemberPrimitive _ | MemberString _) => existsb (λ elem, element_is elem value) array
  | ContainsAll, MemberList values => forallb (λ v, existsb (λ elem, element_is elem v) array) values
  | ContainsAny, MemberList values => existsb (λ v, existsb (λ elem, element_is elem v) array) values
  | ArrayLengthEq, MemberPrimitive value => length_test Z.eqb array value
  | ArrayLengthGt, MemberPrimitive value => length_test Z.gtb array value
  | ArrayLengthLt, MemberPrimitive value => length_test Z.ltb array value
  | _, _ => false
  end.

(** The value at the end of the path against the value of the clause *)
Definition compare_value (ty : DTy) (operator : ComparisonOperator) (value : MemberValue) : bool :=
  match ty with
  | TyPrimitive primitive => compare_primitive primitive operator value
  | TyByteArray s => compare_string s operator value
  | TyEnum name option options =>
      match enum_selected name option options with
      | Some selected => compare_enum_name selected.1 operator value
      | None => false
      end
  | TyArray array | TyFixedSizeArray array _ => compare_array array operator value
  | TyStruct _ _ | TyTuple _ => false
  end.

(** ** Paths *)

(** The array indexing syntax [field\[0\]]; the slice panics when the first closing
    bracket is before the first opening one. *)
Definition member_path (member : string) : outcome ProtoError (string * option Z) :=
  match find_char open_bracket member with
  | None => Ok (member, None)
  | Some start =>
      match find_char close_bracket member with
      | None => Ok (member, None)
      | Some finish =>
          if (finish <? S start)%nat then Panic
          else match parse_usize (String.substring (S start) (finish - S start) member) with
               | Some index => Ok (String.substring 0 start member, Some index)
               | None => Ok (member, None)
               end
      end
  end.

(** The loop over the parts goes on to a type, or returns from the function. *)
Inductive Walk : Type := WalkTo (ty : DTy) | WalkReturn (matched : bool).

Definition position {A} (p : A → bool) : list A → option (nat * A) :=
  fix go l := match l with
  | [] => None
  | x :: l => if p x then Some (0%nat, x) else '(i, y) ← go l; Some (S i, y)
  end.

Fixpoint walk (array_index : option Z) (operator : ComparisonOperator) (value : MemberValue)
    (parts : list string) (current_ty : DTy) : Walk :=
  match parts with
  | [] => WalkTo current_ty
  | part :: rest =>
      match current_ty with
      | TyStruct _ children =>
          match position (λ c, String.eqb c.1.1 part) children with
          | Some (_, member) => walk array_index operator value rest member.1.2
          | None => WalkReturn false
          end
      | TyTuple tuple =>
          match parse_usize part with
          | Some index =>
              match tuple !! Z.to_nat index with
              | Some ty => walk array_index operator value rest ty
              | None => WalkReturn false
              end
          | None => WalkReturn false
          end
      | TyEnum name option options =>
          match rest with
          | [] =>
              match enum_selected name option options with
              | Some selected => WalkReturn (compare_enum_name selected.1 operator value)
              | None => WalkReturn false
              end
          | _ =>
              match position (λ o, String.eqb o.1 part) options with
              | Some (option_idx, o) =>
                  if bool_decide (Some (option_idx `mod` 256)%nat = option) then walk array_index operator value rest o.2
                  else WalkReturn false
              | None => WalkReturn false
              end
          end
      | TyArray array | TyFixedSizeArray array _ =>
          match array_index with
          | Some index =>
              match array !! Z.to_nat index with
              | Some element => walk array_index operator value rest element
              | None => WalkReturn false
              end
          | None => WalkReturn false
          end
      | TyByteArray _ | TyPrimitive _ => WalkReturn false
      end
  end.

(** ** Clauses *)
Definition match_member (updated_model : option DTy) (clause : MemberClause) : outcome ProtoError bool :=
  match updated_model with
  | None => Ok false
  | Some model =>
      if negb (String.eqb (ty_name model) (member_model clause)) then Ok false
      else
        let? path := member_path (member_member clause) in
        match walk path.2 (member_operator clause) (member_value clause) (SqlString.split dot path.1) model with
        | WalkReturn matched => Ok matched
        | WalkTo ty => Ok (compare_value ty (member_operator clause) (member_value clause))
        end
  end.

(** One of the models of the clause, [namespace-model] with an empty part or [*] for any *)
Definition model_matches (namespace name clause_model : string) : bool :=
  if String.eqb clause_model EmptyString then true else
  let '(clause_namespace, clause_model) := default (clause_model, EmptyString) (split_once dash clause_model) in
  (String.eqb clause_namespace EmptyString || String.eqb clause_namespace "*" || String.eqb clause_namespace namespace)
  && (String.eqb clause_model EmptyString || String.eqb clause_model "*" || String.eqb clause_model name).

Definition models_match (updated_model : option DTy) (models : list string) : bool :=
  match models with
  | [] => true
  | _ =>
      match updated_model with
      | Some model =>
          let '(namespace, name) := default (EmptyString, ty_name model) (split_once dash (ty_name model)) in
          existsb (model_matches namespace name) models
      | None => false
      end
  end.

(** [keys.iter().enumerate().all(..)] against the pattern, a missing key matching any *)
Fixpoint keys_match (keys : list Felt) (pattern : list (option Felt)) : bool :=
  match keys, pattern with
  | [], _ | _, [] => true
  | key :: keys, Some sub_key :: pattern => (key =? sub_key) && keys_match keys pattern
  | _ :: keys, None :: pattern => keys_match keys pattern
  end.
Definition pattern_match (keys : list Felt) (clause : KeysClause) : bool :=
  match clause_pattern_matching clause with
  | FixedLen => if (length keys =? length (clause_keys clause))%nat then keys_match keys (clause_keys clause) else false
  | VariableLen => keys_match keys (clause_keys clause)
  end.

(** [iter().all(..)], [iter().any(..)] of a test that may panic *)
Definition outcome_all {E A} (f : A → outcome E bool) : list A → outcome E bool :=
  fix go l := match l with [] => Ok true | x :: l => let? b := f x in if b then go l else Ok false end.
Definition outcome_any {E A} (f : A → outcome E bool) : list A → outcome E bool :=
  fix go l := match l with [] => Ok false | x :: l => let? b := f x in if b then Ok true else go l end.

Fixpoint match_entity (id : Felt) (keys : list Felt) (updated_model : option DTy) (clause : Clause)
  : outcome ProtoError bool :=
  match clause with
  | HashedKeys hashed_keys =>
      Ok (match hashed_keys with [] => true | _ => existsb (Z.eqb id) hashed_keys end)
  | Keys clause => Ok (if models_match updated_model (clause_models clause) then pattern_match keys clause else false)
  | Member clause => match_member updated_model clause
  | Composite And clauses => outcome_all (match_entity id keys updated_model) clauses
  | Composite Or clauses => outcome_any (match_entity id keys updated_model) clauses
  end.

Definition match_keys (keys : list Felt) (clauses : list KeysClause) : bool :=
  match clauses with [] => true | _ => existsb (pattern_match keys) clauses end.
End matching.

(** ** The keys of stored entities *)
Definition KEY_PATTERN : string := "0x[0-9a-fA-F]+".
Definition key_text (k : option Felt) : string :=
  match k with Some felt => SqlString.felt_to_sql_string felt | None => KEY_PATTERN end.
Definition build_keys_pattern (clause : KeysClause) : string :=
  let keys := match clause_keys clause with
              | [] => [KEY_PATTERN]
              | ks => key_text <$> ks
              end in
  let keys_pattern := "^" +:+ SqlString.join "/" keys in
  let keys_pattern := match clause_pattern_matching clause with
                      | VariableLen => keys_pattern +:+ ("(/" +:+ KEY_PATTERN +:+ ")*")
                      | FixedLen => keys_pattern
                      end in
  keys_pattern +:+ "/$".

(** ** Regular expressions

    The expressions that [build_keys_pattern] writes, and what they match. *)
Inductive Regex : Type :=
| RChar (c : ascii) | RHexDigit | REmpty | RSeq (a b : Regex) | RPlus (a : Regex) | RStar (a : Regex).
Fixpoint render (r : Regex) : string :=
  match r with
  | RChar c => String c EmptyString
  | RHexDigit => "[0-9a-fA-F]"
  | REmpty => EmptyString
  | RSeq a b => render a +:+ render b
  | RPlus a => render a +:+ "+"
  | RStar a => "(" +:+ render a +:+ ")*"
  end.
Definition concat_all (l : list string) : string := foldr (λ s acc, s +:+ acc) EmptyString l.
(** The whole of the text, as between [^] and [$] *)
Fixpoint matches (r : Regex) (s : string) : Prop :=
  match r with
  | RChar c => s = String c EmptyString
  | RHexDigit => ∃ c, s = String c EmptyString ∧ is_Some (hex_val c)
  | REmpty => s = EmptyString
  | RSeq a b => ∃ s1 s2, s = s1 +:+ s2 ∧ matches a s1 ∧ matches b s2
  | RPlus a => ∃ l, l ≠ [] ∧ s = concat_all l ∧ Forall (matches a) l
  | RStar a => ∃ l, s = concat_all l ∧ Forall (matches a) l
  end.

Definition slash : ascii := ascii_of_nat 47.
Fixpoint literal (s : string) : Regex :=
  match s with EmptyString => REmpty | String c s => RSeq (RChar c) (literal s) end.
Definition any_key : Regex := RSeq (literal "0x") (RPlus RHexDigit).
Definition key_regex (k : option Felt) : Regex :=
  match k with Some f => literal (SqlString.felt_to_sql_string f) | None => any_key end.
Fixpoint path_regex (ks : list (option Felt)) : Regex :=
  match ks with
  | [] => REmpty
  | [k] => key_regex k
  | k :: ks => RSeq (key_regex k) (RSeq (RChar slash) (path_regex ks))
  end.
(** The keys the query asks for: one of any value when the clause has none *)
Definition asked_keys (c : KeysClause) : list (option Felt) :=
  match clause_keys c with [] => [None] | ks => ks end.
Definition keys_regex (c : KeysClause) : Regex :=
  RSeq (path_regex (asked_keys c))
    (RSeq match clause_pattern_matching c with
          | VariableLen => RStar (RSeq (RChar slash) any_key)
          | FixedLen => REmpty
          end (RChar slash)).

Lemma render_literal s : render (literal s) = s.
Proof. induction s as [|c s IH]; [done|]. cbn. by rewrite IH. Qed.
Lemma render_any_key : render any_key = KEY_PATTERN.
Proof. reflexivity. Qed.
Lemma render_path ks : render (path_regex ks) = SqlString.join "/" (key_text <$> ks).
Proof.
  assert (∀ k, render (key_regex k) = key_text k) as Hk.
  { intros [f|]; [apply render_literal|apply render_any_key]. }
  induction ks as [|k [|k' ks] IH]; [done|apply Hk|].
  transitivity (render (key_regex k) +:+ ("/" +:+ render (path_regex (k' :: ks)))); [done|]. by rewrite IH, Hk.
Qed.
(** The text of the pattern is that of the expression. *)
Lemma build_keys_pattern_render c : build_keys_pattern c = "^" +:+ (render (keys_regex c) +:+ "$").
Proof.
  unfold build_keys_pattern, keys_regex. cbn [render]. rewrite render_path. unfold asked_keys.
  assert (∀ ks p, (("^" +:+ ks) +:+ p) +:+ "/$" = "^" +:+ ((ks +:+ (p +:+ "/")) +:+ "$")) as Hs.
  { intros. by rewrite !SqlString.append_assoc. }
  destruct (clause_pattern_matching c), (clause_keys c); cbn [render]; rewrite ?render_any_key, <- ?Hs;
    cbn [String.append]; rewrite ?SqlString.append_nil_r; reflexivity.
Qed.

(** ** What the expression matches *)
Definition slash_text (l : list string) : string := foldr (λ s acc, s +:+ String slash acc) EmptyString l.

Lemma matches_literal s t : matches (literal s) t ↔ t = s.
Proof.
  revert t. induction s as [|c s IH]; intros t; [done|]. cbn. setoid_rewrite IH. split.
  - by intros (s1 & s2 & -> & -> & ->).
  - intros ->. by exists (String c EmptyString), s.
Qed.

Lemma join_slash segs extra : segs ≠ [] →
  SqlString.join "/" segs +:+ (concat_all (String slash <$> extra) +:+ String slash EmptyString) = slash_text (segs ++ extra).
Proof.
  assert (∀ l, concat_all (String slash <$> l) +:+ String slash EmptyString = String slash (slash_text l)) as Hl.
  { induction l as [|x l IH]; [done|].
    transitivity ((String slash x +:+ concat_all (String slash <$> l)) +:+ String slash EmptyString); [done|].
    by rewrite SqlString.append_assoc, IH. }
  rewrite Hl. induction segs as [|s [|s' segs] IH]; [done|done|]. intros _.
  transitivity ((s +:+ String slash (SqlString.join "/" (s' :: segs))) +:+ String slash (slash_text extra)); [done|].
  rewrite SqlString.append_assoc, SqlString.append_cons, IH by done. done.
Qed.

Lemma matches_path ks s : ks ≠ [] →
  matches (path_regex ks) s ↔ ∃ segs, Forall2 (λ k, matches (key_regex k)) ks segs ∧ s = SqlString.join "/" segs.
Proof.
  revert s. induction ks as [|k [|k' ks] IH]; intros s; [done| |].
  - intros _. split; [intros H; exists [s]; by repeat constructor|].
    intros (segs & H & ->). apply Forall2_cons_inv_l in H as (x & l & Hx & ->%Forall2_nil_inv_l & ->). done.
  - intros _. change (matches (path_regex (k :: k' :: ks)) s)
      with (∃ s1 s2, s = s1 +:+ s2 ∧ matches (key_regex k) s1 ∧
            ∃ s3 s4, s2 = s3 +:+ s4 ∧ s3 = String slash EmptyString ∧ matches (path_regex (k' :: ks)) s4).
    setoid_rewrite IH; [|done..]. split.
    + intros (s1 & s2 & -> & H1 & s3 & s4 & -> & -> & segs & H2 & ->). exists (s1 :: segs). split; [by constructor|].
      apply Forall2_length in H2. by destruct segs.
    + intros (segs & H & ->). apply Forall2_cons_inv_l in H as (x & l & Hx & Hl & ->).
      exists x, (String slash (SqlString.join "/" l)). split_and!; [|done|].
      * apply Forall2_length in Hl. by destruct l.
      * exists (String slash EmptyString), (SqlString.join "/" l). split_and!; eauto.
Qed.

Lemma matches_tail p t :
  matches match p with VariableLen => RStar (RSeq (RChar slash) any_key) | FixedLen => REmpty end t ↔
  ∃ extra, t = concat_all (String slash <$> extra) ∧ Forall (matches any_key) extra ∧ (p = FixedLen → extra = []).
Proof.
  destruct p; cbn [matches]; split.
  - intros ->. by exists [].
  - intros (extra & -> & _ & ->); done.
  - intros (l & -> & Hl). revert Hl. induction l as [|x l IH]; intros Hl; [by exists []|].
    apply Forall_cons in Hl as [(s1 & s2 & -> & -> & Hx) Hl]. destruct (IH Hl) as (extra & He & Hf & _).
    exists (s2 :: extra). split_and!; [|by constructor|done].
    change (concat_all ((String slash EmptyString +:+ s2) :: l)) with ((String slash EmptyString +:+ s2) +:+ concat_all l).
    by rewrite He.
  - intros (extra & -> & Hf & _). exists (String slash <$> extra). split; [done|]. apply Forall_fmap.
    eapply Forall_impl; [exact Hf|]. intros x Hx. by exists (String slash EmptyString), x.
Qed.

(** The text of keys, each followed by a slash: those asked for, then the rest. *)
Lemma matches_keys_regex c s :
  matches (keys_regex c) s ↔
  ∃ segs extra, s = slash_text (segs ++ extra) ∧ Forall2 (λ k, matches (key_regex k)) (asked_keys c) segs ∧
    Forall (matches any_key) extra ∧ (clause_pattern_matching c = FixedLen → extra = []).
Proof.
  assert (asked_keys c ≠ []) as Hne by (unfold asked_keys; by destruct (clause_keys c)).
  change (matches (keys_regex c) s) with (∃ s1 s2, s = s1 +:+ s2 ∧ matches (path_regex (asked_keys c)) s1 ∧
    ∃ s3 s4, s2 = s3 +:+ s4 ∧
      matches match clause_pattern_matching c with VariableLen => RStar (RSeq (RChar slash) any_key) | FixedLen => REmpty end s3 ∧
      s4 = String slash EmptyString).
  setoid_rewrite matches_tail. setoid_rewrite matches_path; [|done]. split.
  - intros (s1 & s2 & -> & (segs & Hs & ->) & s3 & s4 & -> & (extra & -> & He & Hx) & ->).
    exists segs, extra. split_and!; [|done..]. apply join_slash. intros ->. by apply Forall2_length in Hs; destruct (asked_keys c).
  - intros (segs & extra & -> & Hs & He & Hx). assert (segs ≠ []) as Hn.
    { intros ->. apply Forall2_length in Hs. by destruct (asked_keys c). }
    rewrite <- join_slash by done. do 2 eexists. split; [done|]. split; [eauto|]. do 2 eexists. split; [done|]. eauto.
Qed.

Lemma slash_text_split l : Forall (SqlString.free_of slash) l → SqlString.split slash (slash_text l) = l ++ [EmptyString].
Proof. induction 1 as [|s l Hs _ IH]; [done|].
  transitivity (SqlString.split slash (s +:+ String slash (slash_text l))); [done|].
  rewrite SqlString.split_cons by done. by rewrite IH. Qed.
Lemma slash_text_inj l l' :
  Forall (SqlString.free_of slash) l → Forall (SqlString.free_of slash) l' → slash_text l = slash_text l' → l = l'.
Proof.
  intros Hl Hl' H. apply (inj (.++ [EmptyString])). rewrite <- !slash_text_split by done. by f_equal.
Qed.

Lemma any_key_free s : matches any_key s → SqlString.free_of slash s.
Proof.
  intros (s1 & s2 & -> & H1 & l & _ & -> & Hl). apply matches_literal in H1 as ->. apply SqlString.free_of_app; [by cbn|].
  induction Hl as [|x l (c & -> & d & Hd) _ IH]; [done|]. split; [|exact IH]. by intros ->.
Qed.
Lemma felt_text_free f : SqlString.felt_ok f → SqlString.free_of slash (SqlString.felt_to_sql_string f).
Proof. intros H. apply SqlString.format_hex_free; [by right|]. by apply SqlString.felt_ok_bound. Qed.
Lemma felt_text_any f : SqlString.felt_ok f → matches any_key (SqlString.felt_to_sql_string f).
Proof.
  intros H%SqlString.felt_ok_bound. destruct (SqlString.pad_digits_spec 62 f H) as (Hd & _ & Hne & _).
  exists "0x", (digits_string (pad_digits 62 (digits_of f))). split; [done|]. split; [by apply matches_literal|].
  revert Hd Hne. generalize (pad_digits 62 (digits_of f)). intros l Hd Hne.
  exists ((λ d, String (hex_char d) EmptyString) <$> l). split_and!.
  - by destruct l.
  - clear Hne. induction Hd as [|d l Hd _ IH]; [done|].
    transitivity (String (hex_char d) (digits_string l)); [done|]. by rewrite IH.
  - apply Forall_fmap. eapply Forall_impl; [exact Hd|]. intros d Hd'. eexists. split; [done|].
    by rewrite SqlString.hex_val_char.
Qed.
Lemma felt_text_inj f g : SqlString.felt_ok f → SqlString.felt_ok g →
  SqlString.felt_to_sql_string f = SqlString.felt_to_sql_string g → f = g.
Proof.
  intros Hf%SqlString.felt_ok_bound Hg%SqlString.felt_ok_bound H.
  destruct (SqlString.pad_digits_spec 62 f Hf) as (Hdf & Hvf & _). destruct (SqlString.pad_digits_spec 62 g Hg) as (Hdg & Hvg & _).
  assert (∀ a b : string, "0x" +:+ a = "0x" +:+ b → a = b) as Hinj by (intros a b Hab; by injection Hab).
  apply Hinj in H. rewrite <- Hvf, <- Hvg.
  apply (f_equal SqlString.digits_of_string) in H. rewrite !SqlString.digits_of_string_digits in H by done.
  injection H as H. exact (f_equal digits_value H).
Qed.

(** A key against one of a pattern *)
Definition key_ok (pat : option Felt) (key : Felt) : Prop := ∀ f, pat = Some f → key = f.
Lemma key_regex_felt pat f : opt_ok SqlString.felt_ok pat → SqlString.felt_ok f →
  matches (key_regex pat) (SqlString.felt_to_sql_string f) ↔ key_ok pat f.
Proof.
  intros Hp Hf. destruct pat as [g|]; cbn [key_regex].
  - rewrite matches_literal. unfold key_ok. split; [|by intros H; rewrite (H g)].
    intros H ? [= <-]. by apply felt_text_inj; [|apply Hp|].
  - split; [done|]. intros _. by apply felt_text_any.
Qed.

Lemma key_regex_free pat s : opt_ok SqlString.felt_ok pat → matches (key_regex pat) s → SqlString.free_of slash s.
Proof.
  intros Hp. destruct pat as [g|]; cbn [key_regex]; [|apply any_key_free].
  rewrite matches_literal. intros ->. apply felt_text_free. by apply Hp.
Qed.

Lemma key_regex_nonempty pat : ¬ matches (key_regex pat) EmptyString.
Proof. destruct pat as [f|]; cbn [key_regex]; [by rewrite matches_literal|]. by intros (s1 & s2 & Hs & ->%matches_literal & _). Qed.

Lemma keys_match_take pat keys : (length pat ≤ length keys)%nat →
  keys_match keys pat = true ↔ Forall2 key_ok pat (take (length pat) keys).
Proof.
  revert keys. induction pat as [|p pat IH]; intros [|k keys] Hl; cbn in Hl; [done|by repeat split; constructor|lia|].
  specialize (IH keys ltac:(lia)). cbn [length firstn]. rewrite Forall2_cons, <- IH. destruct p as [f|]; cbn.
  - rewrite andb_true_iff, Z.eqb_eq. unfold key_ok. naive_solver.
  - unfold key_ok. naive_solver.
Qed.

Lemma felts_text keys : keys ≠ [] →
  SqlString.felts_to_sql_string keys = slash_text (SqlString.felt_to_sql_string <$> keys).
Proof.
  intros Hne. rewrite <- (app_nil_r (_ <$> keys)). rewrite <- (join_slash _ []) by by destruct keys. done.
Qed.

Definition asked_clause (c : KeysClause) : KeysClause :=
  mkKeysClause (asked_keys c) (clause_pattern_matching c) (clause_models c).

Lemma pattern_match_split c keys :
  (length (asked_keys c) ≤ length keys)%nat ∧ pattern_match keys (asked_clause c) = true ↔
  ∃ l1 l2, keys = l1 ++ l2 ∧ Forall2 key_ok (asked_keys c) l1 ∧ (clause_pattern_matching c = FixedLen → l2 = []).
Proof.
  unfold pattern_match, asked_clause. cbn. split.
  - intros [Hl Hm]. exists (take (length (asked_keys c)) keys), (drop (length (asked_keys c)) keys).
    split; [by rewrite take_drop|]. destruct (clause_pattern_matching c).
    + destruct (Nat.eqb_spec (length keys) (length (asked_keys c))) as [He|]; [|done]. split; [by apply keys_match_take|].
      intros _. by rewrite <- He, drop_all.
    + split; [by apply keys_match_take|done].
  - intros (l1 & l2 & -> & Hf & Hx). pose proof (Forall2_length _ _ _ Hf) as Hl. rewrite length_app.
    split; [lia|]. assert (keys_match (l1 ++ l2) (asked_keys c) = true) as Hm.
    { apply keys_match_take; [rewrite length_app; lia|]. by rewrite Hl, take_app_length. }
    destruct (clause_pattern_matching c); [|done]. rewrite Hx, Nat.add_0_r, Hl, Nat.eqb_refl by done. by rewrite Hx in Hm.
Qed.

Lemma segments_free pats segs :
  Forall (opt_ok SqlString.felt_ok) pats → Forall2 (λ k, matches (key_regex k)) pats segs →
  Forall (SqlString.free_of slash) segs.
Proof.
  intros Hp Hf. induction Hf as [|p s pats segs Hs _ IH]; [done|]. apply Forall_cons in Hp as [Hp Hps].
  constructor; [by apply (key_regex_free p)|auto].
Qed.
Lemma segments_keys pats l :
  Forall (opt_ok SqlString.felt_ok) pats → Forall SqlString.felt_ok l →
  Forall2 (λ k, matches (key_regex k)) pats (SqlString.felt_to_sql_string <$> l) ↔ Forall2 key_ok pats l.
Proof.
  intros Hp Hl. rewrite Forall2_fmap_r. revert pats Hp. induction Hl as [|f l Hf _ IH]; intros [|p pats] Hp.
  - by split; constructor.
  - split; inversion 1.
  - split; inversion 1.
  - apply Forall_cons in Hp as [Hp Hps]. rewrite !Forall2_cons, (IH pats Hps).
    pose proof (key_regex_felt p f Hp Hf). naive_solver.
Qed.
Lemma texts_free l : Forall SqlString.felt_ok l → Forall (SqlString.free_of slash) (SqlString.felt_to_sql_string <$> l).
Proof. intros H. apply Forall_fmap. eapply Forall_impl; [exact H|]. intros. by apply felt_text_free. Qed.
Lemma texts_any l : Forall SqlString.felt_ok l → Forall (matches any_key) (SqlString.felt_to_sql_string <$> l).
Proof. intros H. apply Forall_fmap. eapply Forall_impl; [exact H|]. intros. by apply felt_text_any. Qed.
Lemma asked_ok c : keys_clause_ok c → Forall (opt_ok SqlString.felt_ok) (asked_keys c) ∧ asked_keys c ≠ [].
Proof. unfold keys_clause_ok, asked_keys. destruct (clause_keys c); [|done]. intros _. by repeat constructor. Qed.

(** Which lists of texts, each without a slash, the expression matches. *)
Lemma matches_texts c texts : keys_clause_ok c → Forall (SqlString.free_of slash) texts →
  matches (keys_regex c) (slash_text texts) ↔
  ∃ segs extra, texts = segs ++ extra ∧ Forall2 (λ k, matches (key_regex k)) (asked_keys c) segs ∧
    Forall (matches any_key) extra ∧ (clause_pattern_matching c = FixedLen → extra = []).
Proof.
  intros Hc Ht. destruct (asked_ok c Hc) as [Hp _]. rewrite matches_keys_regex. split.
  - intros (segs & extra & Hs & Hf & He & Hx). exists segs, extra. split_and!; [|done..].
    apply slash_text_inj; [done| |done]. apply Forall_app. split; [by eapply segments_free|].
    eapply Forall_impl; [exact He|apply any_key_free].
  - intros (segs & extra & -> & ?). by exists segs, extra.
Qed.

(** The expression that selects stored entities by their keys matches the stored
    text of keys exactly when a subscriber to the same clause gets the entity, with
    two differences: the entity has at least as many keys as the clause, and a clause
    without keys asks for one key of any value. *)
Theorem stored_keys_equivalent (c : KeysClause) (keys : list Felt) :
  Forall SqlString.felt_ok keys → keys_clause_ok c →
  build_keys_pattern c = "^" +:+ (render (keys_regex c) +:+ "$") ∧
  (matches (keys_regex c) (SqlString.felts_to_sql_string keys) ↔
   (length (asked_keys c) ≤ length keys)%nat ∧ pattern_match keys (asked_clause c) = true).
Proof.
  intros Hk Hc. split; [apply build_keys_pattern_render|]. rewrite pattern_match_split.
  destruct (asked_ok c Hc) as [Hp Hne]. destruct (decide (keys = [])) as [->|Hkn].
  - change (SqlString.felts_to_sql_string []) with (slash_text [EmptyString]).
    rewrite matches_texts by (done || by repeat constructor). split.
    + intros (segs & extra & Hs & Hf & _). destruct Hf as [|k s ks segs Hm]; [done|].
      injection Hs as <- _. by apply key_regex_nonempty in Hm.
    + intros (l1 & l2 & H & Hf & _). symmetry in H. apply app_eq_nil in H as [-> _]. by inversion Hf; subst.
  - rewrite felts_text, matches_texts by auto using texts_free. split.
    + intros (segs & extra & Hs & Hf & He & Hx). apply fmap_app_inv in Hs as (l1 & l2 & -> & -> & ->).
      apply Forall_app in Hk as [Hk _]. exists l1, l2. split_and!; [done|by apply segments_keys|].
      intros H. by apply fmap_nil_inv in Hx.
    + intros (l1 & l2 & -> & Hf & Hx). apply Forall_app in Hk as [Hk1 Hk2].
      exists (SqlString.felt_to_sql_string <$> l1), (SqlString.felt_to_sql_string <$> l2). rewrite fmap_app.
      split_and!; [done|by apply segments_keys|by apply texts_any|]. intros H. by rewrite Hx.
Qed.

(** ** What a clause selects *)
Section selection.
Context `{DojoValues}.

Definition first_at {A} (p : A → Prop) (l : list A) (i : nat) (x : A) : Prop :=
  l !! i = Some x ∧ p x ∧ ∀ j y, (j < i)%nat → l !! j = Some y → ¬ p y.

(** The value at a path: a member of a structure by its name, an element of a tuple
    by its index, the value of the selected option of an enum by its name; at the end
    of the path, any name of an enum stands for the enum itself. *)
Inductive at_path : DTy → list string → DTy → Prop :=
| at_here t : at_path t [] t
| at_member n ms i x t k rest u :
    first_at (λ m, m.1.1 = x) ms i (x, t, k) → at_path t rest u → at_path (TyStruct n ms) (x :: rest) u
| at_element ts x i t rest u :
    parse_usize x = Some i → ts !! Z.to_nat i = Some t → at_path t rest u → at_path (TyTuple ts) (x :: rest) u
| at_option n o os i x t rest u :
    rest ≠ [] → first_at (λ o, o.1 = x) os i (x, t) → Some (i `mod` 256)%nat = o → at_path t rest u →
    at_path (TyEnum n o os) (x :: rest) u
| at_enum n o os x : at_path (TyEnum n o os) [x] (TyEnum n o os).

Definition keys_selected (keys : list Felt) (c : KeysClause) : Prop :=
  (clause_pattern_matching c = FixedLen → length keys = length (clause_keys c)) ∧
  ∀ i k f, keys !! i = Some k → clause_keys c !! i = Some (Some f) → k = f.
Definition model_selected (model : option DTy) (models : list string) : Prop :=
  models = [] ∨ ∃ m ns name cm, model = Some m ∧
    default (EmptyString, ty_name m) (split_once dash (ty_name m)) = (ns, name) ∧ cm ∈ models ∧
    model_matches ns name cm = true.
Fixpoint selected (id : Felt) (keys : list Felt) (model : option DTy) (c : Clause) : Prop :=
  match c with
  | HashedKeys l => l = [] ∨ id ∈ l
  | Keys c => model_selected model (clause_models c) ∧ keys_selected keys c
  | Member c =>
      ∃ m v, model = Some m ∧ ty_name m = member_model c ∧ at_path m (SqlString.split dot (member_member c)) v ∧
        compare_value v (member_operator c) (member_value c) = true
  | Composite And cs => Forall (λ P : Prop, P) (selected id keys model <$> cs)
  | Composite Or cs => Exists (λ P : Prop, P) (selected id keys model <$> cs)
  end.
(** No path uses the syntax of an index. *)
Fixpoint plain_paths (c : Clause) : Prop :=
  match c with
  | HashedKeys _ | Keys _ => True
  | Member c => find_char open_bracket (member_member c) = None
  | Composite _ cs => Forall (λ P : Prop, P) (plain_paths <$> cs)
  end.

Lemma position_Some {A} (p : A → bool) l i x :
  position p l = Some (i, x) ↔ first_at (λ x, p x = true) l i x.
Proof.
  revert i. induction l as [|y l IH]; intros i; [split; [done|by intros [? _]]|]. cbn. destruct (p y) eqn:Hp.
  - split.
    + intros [= <- <-]. split_and!; [done..|]. intros j z Hj. lia.
    + intros (Hi & Hx & Hf). destruct i as [|i]; [by injection Hi as ->|]. exfalso. apply (Hf 0%nat y); [lia|done|done].
  - split.
    + destruct (position p l) as [[j z]|] eqn:Hj; [|done]. intros [= <- <-].
      destruct (proj1 (IH j) eq_refl) as (Hi & Hx & Hf). split_and!; [done..|].
      intros [|j'] w Hlt Hw; [injection Hw as <-; congruence|]. apply (Hf j' w); [lia|done].
    + intros (Hi & Hx & Hf). destruct i as [|i]; [injection Hi as <-; congruence|].
      assert (position p l = Some (i, x)) as ->; [|done]. apply IH. split_and!; [done..|].
      intros j w Hlt Hw. apply (Hf (S j) w); [lia|done].
Qed.
Lemma first_at_unique {A} (P : A → Prop) l i x j y : first_at P l i x → first_at P l j y → i = j ∧ x = y.
Proof.
  intros (Hi & Px & H1) (Hj & Py & H2).
  destruct (lt_eq_lt_dec i j) as [[Hlt|He]|Hlt]; [by destruct (H2 i x Hlt Hi)|by simplify_eq|by destruct (H1 j y Hlt Hj)].
Qed.
Lemma position_name {A} (f : A → string) x l :
  match position (λ y, String.eqb (f y) x) l with
  | Some (i, y) => first_at (λ y, f y = x) l i y
  | None => ∀ i y, ¬ first_at (λ y, f y = x) l i y
  end.
Proof.
  assert (∀ i y, first_at (λ y, String.eqb (f y) x = true) l i y ↔ first_at (λ y, f y = x) l i y) as He.
  { intros. unfold first_at. by setoid_rewrite String.eqb_eq. }
  destruct (position _ l) as [[i y]|] eqn:Hp; [by apply He, position_Some|].
  intros i y Hf%He. apply position_Some in Hf. congruence.
Qed.

(** The outcome of the walk, as the test that is made at the end. *)
Definition walk_result (w : Walk) (op : ComparisonOperator) (v : MemberValue) : bool :=
  match w with WalkTo t => compare_value t op v | WalkReturn b => b end.

Definition finds (op : ComparisonOperator) (v : MemberValue) (t : DTy) (parts : list string) : Prop :=
  ∃ u, at_path t parts u ∧ compare_value u op v = true.

Section steps.
Context (op : ComparisonOperator) (v : MemberValue) (x : string) (rest : list string).
Context (IH : ∀ t, walk_result (walk None op v rest t) op v = true ↔ finds op v t rest).

Lemma walk_struct n ms :
  walk_result (walk None op v (x :: rest) (TyStruct n ms)) op v = true ↔ finds op v (TyStruct n ms) (x :: rest).
Proof.
  cbn [walk]. pose proof (position_name (λ m : string * DTy * bool, m.1.1) x ms) as Hp.
  destruct (position _ ms) as [[i [[y t] k]]|]; cbn.
  - rewrite IH. assert (y = x) as -> by by destruct Hp as (_ & ? & _). split; intros (u & Hu & Hc); exists u; (split; [|done]).
    + by eapply at_member.
    + inversion Hu as [|? ? i' ? t' k' ? ? Hf| | |]; subst. by destruct (first_at_unique _ _ _ _ _ _ Hp Hf) as [_ [= -> ->]].
  - split; [done|]. intros (u & Hu & _). inversion Hu as [|? ? i' ? t' k' ? ? Hf| | |]; subst. by destruct (Hp i' _ Hf).
Qed.

Lemma walk_enum n o os :
  walk_result (walk None op v (x :: rest) (TyEnum n o os)) op v = true ↔ finds op v (TyEnum n o os) (x :: rest).
Proof.
  cbn [walk]. pose proof (position_name (λ o : string * DTy, o.1) x os) as Hp. destruct rest as [|x' rest'].
  { transitivity (compare_value (TyEnum n o os) op v = true); [cbn; by destruct (enum_selected n o os)|].
    split; [intros Hc; eexists; by split; [apply at_enum|]|]. by intros (u & Hu & Hc); inversion Hu; subst. }
  destruct (position _ os) as [[i [y t]]|].
  - assert (y = x) as -> by by destruct Hp as (_ & ? & _). case_bool_decide as Ho.
    + rewrite IH. split; intros (u & Hu & Hc); exists u; (split; [|done]); [by eapply at_option|].
      inversion Hu as [| | |? ? ? i' ? t' ? ? ? Hf|]; subst. by destruct (first_at_unique _ _ _ _ _ _ Hp Hf) as [_ [= ->]].
    + split; [done|]. intros (u & Hu & Hc). inversion Hu as [| | |? ? ? i' ? t' ? ? ? Hf|]; subst.
      by destruct (first_at_unique _ _ _ _ _ _ Hp Hf) as [-> _].
  - split; [done|]. intros (u & Hu & _). inversion Hu as [| | |? ? ? i' ? t' ? ? ? Hf|]; subst. by destruct (Hp i' _ Hf).
Qed.

Lemma walk_tuple ts :
  walk_result (walk None op v (x :: rest) (TyTuple ts)) op v = true ↔ finds op v (TyTuple ts) (x :: rest).
Proof.
  cbn [walk]. destruct (parse_usize x) as [i|] eqn:Hi; [|split; [done|intros (u & Hu & _); inversion Hu; congruence]].
  destruct (ts !! Z.to_nat i) as [t|] eqn:Ht; [|split; [done|intros (u & Hu & _); inversion Hu; congruence]].
  rewrite IH. split; intros (u & Hu & Hc); exists u; (split; [|done]); [by eapply at_element|].
  inversion Hu; subst; congruence.
Qed.
End steps.

Lemma walk_finds op v parts t : walk_result (walk None op v parts t) op v = true ↔ finds op v t parts.
Proof.
  revert t. induction parts as [|x rest IH]; intros t.
  { split; [intros Hc; exists t; by split; [constructor|]|]. by intros (u & Hp & Hc); inversion Hp; subst. }
  destruct t as [q|n ms|n o os|ts|ts|ts l|b]; try (split; [done|by intros (u & Hp & _); inversion Hp]).
  - by apply walk_struct.
  - by apply walk_enum.
  - by apply walk_tuple.
Qed.

Lemma keys_match_spec keys pat :
  keys_match keys pat = true ↔ ∀ i k f, keys !! i = Some k → pat !! i = Some (Some f) → k = f.
Proof.
  revert pat. induction keys as [|k keys IH]; intros [|p pat]; try done. destruct p as [f|]; cbn.
  - rewrite andb_true_iff, Z.eqb_eq, IH. split.
    + intros [-> Hk] [|i] k' f' Hi Hf; [by simplify_eq/=|by eapply (Hk i)].
    + intros Hk. split; [by apply (Hk 0%nat)|]. intros i. apply (Hk (S i)).
  - rewrite IH. split.
    + intros Hk [|i] k' f' Hi Hf; [done|by eapply (Hk i)].
    + intros Hk i. apply (Hk (S i)).
Qed.
Lemma pattern_match_spec keys c : pattern_match keys c = true ↔ keys_selected keys c.
Proof.
  unfold pattern_match, keys_selected. rewrite <- keys_match_spec. destruct (clause_pattern_matching c).
  - destruct (Nat.eqb_spec (length keys) (length (clause_keys c))); naive_solver.
  - naive_solver.
Qed.
Lemma models_match_spec model models : models_match model models = true ↔ model_selected model models.
Proof.
  unfold models_match, model_selected. destruct models as [|m0 models]; [naive_solver|].
  destruct model as [m|]; [|naive_solver]. destruct (default _ _) as [ns name] eqn:Hd. rewrite existsb_exists. split.
  - intros (cm & Hin & Hm). right. exists m, ns, name, cm. split_and!; [done..|by apply list_elem_of_In|done].
  - intros [?|(m' & ns' & name' & cm & [= <-] & Hd' & Hin & Hm)]; [done|]. rewrite Hd in Hd'. injection Hd' as <- <-.
    exists cm. split; [by apply list_elem_of_In|done].
Qed.

Lemma match_member_spec model c : find_char open_bracket (member_member c) = None →
  match_member model c = Ok true ↔ selected 0 [] model (Member c).
Proof.
  intros Hb. unfold match_member, member_path. cbn [selected]. destruct model as [m|]; [|naive_solver].
  destruct (String.eqb_spec (ty_name m) (member_model c)) as [Hn|Hn]; [|naive_solver]. cbn. rewrite Hb. cbn.
  pose proof (walk_finds (member_operator c) (member_value c) (SqlString.split dot (member_member c)) m) as Hw.
  transitivity (finds (member_operator c) (member_value c) m (SqlString.split dot (member_member c))).
  - rewrite <- Hw. unfold walk_result. destruct (walk _ _ _ _ _); split; congruence.
  - split; [intros (u & Hu & Hc); by exists m, u|]. intros (m' & u & [= <-] & _ & Hu & Hc). by exists u.
Qed.
Lemma match_member_ok model c : find_char open_bracket (member_member c) = None → is_ok (match_member model c) = true.
Proof.
  intros Hb. unfold match_member, member_path. destruct model as [m|]; [|done]. destruct (String.eqb _ _); [|done]. cbn.
  rewrite Hb. cbn. by destruct (walk _ _ _ _ _).
Qed.

(** A test of the elements of a list that cannot panic *)
Lemma outcome_all_spec {A} (f : A → outcome ProtoError bool) (P : A → Prop) l :
  Forall (λ a, (f a = Ok true ↔ P a) ∧ is_ok (f a) = true) l →
  (outcome_all f l = Ok true ↔ Forall P l) ∧ is_ok (outcome_all f l) = true.
Proof.
  induction 1 as [|a l [Ha Hk] _ [IH1 IH2]]; [done|]. rewrite Forall_cons, <- IH1, <- Ha. cbn.
  destruct (f a) as [[]| |]; [|naive_solver..]. cbn. naive_solver.
Qed.
Lemma outcome_any_spec {A} (f : A → outcome ProtoError bool) (P : A → Prop) l :
  Forall (λ a, (f a = Ok true ↔ P a) ∧ is_ok (f a) = true) l →
  (outcome_any f l = Ok true ↔ Exists P l) ∧ is_ok (outcome_any f l) = true.
Proof.
  induction 1 as [|a l [Ha Hk] _ [IH1 IH2]]; [split; [split; [done|inversion 1]|done]|].
  rewrite Exists_cons, <- IH1, <- Ha. cbn. destruct (f a) as [[]| |]; [naive_solver| |done..]. cbn. naive_solver.
Qed.

(** A clause matches exactly the entities it selects, and the test never panics when no
    path uses the syntax of an index. *)
Lemma match_entity_exact (id : Felt) (keys : list Felt) (model : option DTy) (c : Clause) :
  plain_paths c →
  (match_entity id keys model c = Ok true ↔ selected id keys model c) ∧ is_ok (match_entity id keys model c) = true.
Proof.
  induction c as [l|c|c|o l IH] using Clause_ind'; cbn [plain_paths]; intros Hp.
  - split; [|done]. cbn [match_entity selected]. destruct l as [|k l]; [naive_solver|].
    transitivity (existsb (Z.eqb id) (k :: l) = true); [split; [intros Hx; by injection Hx|by intros ->]|].
    rewrite existsb_exists. setoid_rewrite Z.eqb_eq. setoid_rewrite <- list_elem_of_In. naive_solver.
  - split; [|done]. cbn [match_entity selected]. rewrite <- models_match_spec, <- pattern_match_spec.
    destruct (models_match model (clause_models c)).
    + split; [intros Hx; injection Hx as ->; done|by intros [_ ->]].
    + split; [done|by intros [? _]].
  - split; [exact (match_member_spec model c Hp)|exact (match_member_ok model c Hp)].
  - rewrite Forall_fmap in Hp. assert (Forall (λ a, (match_entity id keys model a = Ok true ↔ selected id keys model a) ∧
      is_ok (match_entity id keys model a) = true) l) as Hl.
    { eapply Forall_impl; [apply Forall_and; split; [exact IH|exact Hp]|]. naive_solver. }
    destruct o; cbn [match_entity selected].
    + rewrite Forall_fmap. by apply outcome_all_spec.
    + rewrite Exists_fmap. by apply outcome_any_spec.
Qed.

(** ** Members of arrays *)

(** The index of [field\[i\]] has no effect on a member of the model: the whole array
    is compared. *)
Lemma index_ignored n ms i op v x :
  walk_result (walk (Some i) op v [x] (TyStruct n ms)) op v = walk_result (walk None op v [x] (TyStruct n ms)) op v.
Proof. cbn. by destruct (position _ ms) as [[? ?]|]. Qed.

(** A path with its brackets the wrong way round, in the clause of any client, panics. *)
Lemma reversed_brackets_panic id keys n ms op v :
  ty_name (TyStruct n ms) = n →
  match_entity id keys (Some (TyStruct n ms)) (Member (mkMemberClause n "a][" op v)) = Panic.
Proof. intros Hn. unfold match_entity, match_member. rewrite Hn. cbn. by rewrite String.eqb_refl. Qed.
End selection.

(** ** Examples *)
Definition demo_values : DojoValues := {|
  ty_name t := match t with TyStruct n _ | TyEnum n _ _ => n | _ => EmptyString end;
  enum_selected _ o os := i ← o; os !! i;
  prim_partial_cmp p q := match p, q with PrimU32 (Some a), PrimU32 (Some b) => Some (a ?= b) | _, _ => None end;
  prim_as_u32 p := match p with PrimU32 v => v | _ => None end
|}.
Definition demo_model : DTy :=
  TyStruct "ns-Player" [("id", TyPrimitive (PrimU32 (Some 7) : Primitive), true);
                        ("pos", TyStruct "Vec" [("x", TyPrimitive (PrimU32 (Some 3) : Primitive), false)], false)].
Definition demo_clause : Clause :=
  Composite And [Keys (mkKeysClause [None; Some 2] VariableLen ["ns-*"]);
                 Member (mkMemberClause "ns-Player" "pos.x" Gte (MemberPrimitive (PrimU32 (Some 3))))].

Lemma stored_keys_equivalent_witness :
  matches (keys_regex (mkKeysClause [None; Some 2] VariableLen [])) (SqlString.felts_to_sql_string [5; 2; 9]).
Proof.
  apply (stored_keys_equivalent (mkKeysClause [None; Some 2] VariableLen []) [5; 2; 9]).
  - repeat constructor; concrete.
  - unfold keys_clause_ok. cbn. repeat (apply Forall_cons; split; [intros ? Hf; simplify_eq; concrete|]). constructor.
  - split; [cbn; lia|reflexivity].
Defined.
End Matching.
