(* ===== verification/Subscriptions.v ===== *)
(** * Subscriptions ([crates/grpc/server/src/subscriptions], [crates/broker])

    A client of the gRPC server subscribes to updates of one of eleven kinds. The
    manager of a kind keeps its subscribers, each with its filter and the sending end
    of a bounded channel whose receiving end is the stream of the client. The service
    of the kind takes the updates of the in-memory broker and sends each to the
    subscribers whose filter wants it, without waiting: a subscriber whose channel is
    full or whose client is gone is removed. A sweep removes the subscribers whose
    client is gone and that no update has met.

    [Manager] is the code the kinds share, over the filter, the update and the
    response of a kind; [Kinds] has the eleven kinds. Handlers of requests, the
    service and the sweep run concurrently; every operation on the map of subscribers
    locks it, and a run is a sequence of operations in the order of the locks. A panic
    in the service ends its task: no later update of the kind is sent to anyone. *)

From S2P Require Import Prelude Proto SqlString ModelTable Wire Messages Aggregator Matching.
From Stdlib Require Import Ascii.
Local Open Scope Z_scope.
Local Open Scope torii_scope.

(** ** The broker *)
Module Broker.

(** [Update] *)
Record Update (A : Type) : Type := mkUpdate { inner : A; optimistic : bool }.
Arguments mkUpdate {A} inner optimistic.
Arguments inner {A} _.
Arguments optimistic {A} _.
(** [From<T> for Update<T>] *)
Definition update_from {A} (value : A) : Update A := mkUpdate value false.

Section broker.
Context {A : Type}.

(** [Senders], a slab of the queues of the streams; the key of an entry is chosen by
    the slab among those not in use *)
#[local] Abbreviation Senders := (gmap nat (list (Update A))).
Definition publish (msg : Update A) (s : Senders) : Senders := (λ q, q ++ [msg]) <$> s.
Definition subscribe_raw (key : nat) (s : Senders) : Senders := <[key := []]> s.
(** [Drop for BrokerStream]; [Slab::remove] panics on a key that is not in use *)
Definition drop_stream (i : nat) (s : Senders) : outcome Empty_set Senders :=
  match s !! i with Some _ => Ok (delete i s) | None => Panic end.
(** [MemoryBroker::subscriber_count] *)
Definition stream_count (s : Senders) : nat := size s.

(** [subscribe], [subscribe_optimistic]: the updates of the stream that are kept *)
Definition kept (optimistic_only : bool) (u : Update A) : option A :=
  if Bool.eqb (optimistic u) optimistic_only then Some (inner u) else None.

(** [poll_next] of the filtered stream until it has an update: the updates that are
    passed over are consumed *)
Fixpoint next_kept (flag : bool) (q : list (Update A)) : option A * list (Update A) :=
  match q with
  | [] => (None, [])
  | u :: q => match kept flag u with Some a => (Some a, q) | None => next_kept flag q end
  end.
Definition poll_next (flag : bool) (i : nat) (s : Senders) : option A * Senders :=
  match s !! i with
  | Some q => let '(a, q) := next_kept flag q in (a, <[i := q]> s)
  | None => (None, s)
  end.

(** [while let Poll::Ready(Some(a)) = stream.poll_next_unpin(cx)], with fuel for the queue *)
Fixpoint poll_all (fuel : nat) (flag : bool) (i : nat) (s : Senders) : list A * Senders :=
  match fuel with
  | O => ([], s)
  | S fuel =>
      match poll_next flag i s with
      | (None, s) => ([], s)
      | (Some a, s) => let '(l, s) := poll_all fuel flag i s in (a :: l, s)
      end
  end.

Lemma next_kept_spec flag q :
  match next_kept flag q with
  | (Some a, q') => omap (kept flag) q = a :: omap (kept flag) q' ∧ (length q' < length q)%nat
  | (None, q') => omap (kept flag) q = [] ∧ q' = []
  end.
Proof.
  induction q as [|u q IH]; [done|]. cbn. destruct (kept flag u) as [a|] eqn:Hk; [split; [done|lia]|].
  destruct (next_kept flag q) as [[a|] q']; [|done]. destruct IH as [-> ?]. split; [done|lia].
Qed.
(** Draining a stream takes the updates it keeps, in order, and leaves it empty. *)
Lemma poll_all_spec fuel flag i s q : s !! i = Some q → (length q ≤ fuel)%nat →
  poll_all fuel flag i s = (omap (kept flag) q, <[i := []]> s).
Proof.
  revert s q. induction fuel as [|fuel IH]; intros s q Hi Hl.
  { destruct q; [|cbn in Hl; lia]. apply (f_equal (pair [])). symmetry. by apply insert_id. }
  cbn. unfold poll_next. rewrite Hi. pose proof (next_kept_spec flag q) as Hn.
  destruct (next_kept flag q) as [[a|] q'].
  - destruct Hn as [-> Hlt]. rewrite (IH _ q'); [|by rewrite lookup_insert_eq|lia]. by rewrite insert_insert_eq.
  - by destruct Hn as [-> ->].
Qed.
End broker.
End Broker.

(** ** What the kinds share *)
Module Manager.
Section manager.
Context {Filter Item Resp : Type} `{HashOrder}.
(** whether a subscriber wants an update, and the response that is sent to it *)
Context (wants : Filter → Item → outcome ProtoError bool) (response : Z → Item → outcome ProtoError Resp).
(** [config.subscription_buffer_size] *)
Context (buffer_size : nat).

(** A bounded channel of [tokio::sync::mpsc]: the messages that wait, those the client
    has taken, and whether its two ends are still held. *)
Record Channel : Type := mkChannel {
  queue : list Resp; received : list Resp; rx_open : bool; tx_open : bool
}.
Inductive SendResult : Type := Sent | Full | Closed.
(** [sender.try_send(Ok(resp))] *)
Definition try_send (resp : Resp) (ch : Channel) : SendResult * Channel :=
  if negb (rx_open ch) then (Closed, ch)
  else if (buffer_size <=? length (queue ch))%nat then (Full, ch)
  else (Sent, mkChannel (queue ch ++ [resp]) (received ch) (rx_open ch) (tx_open ch)).
(** the client takes a message, or hangs up *)
Definition recv (ch : Channel) : Channel :=
  match queue ch with
  | [] => ch
  | r :: q => mkChannel q (received ch ++ [r]) (rx_open ch) (tx_open ch)
  end.
Definition hang_up (ch : Channel) : Channel := mkChannel [] (received ch) false (tx_open ch).
(** the last sender is dropped *)
Definition drop_sender (ch : Channel) : Channel := mkChannel (queue ch) (received ch) (rx_open ch) false.

(** The subscribers by their identifiers, with the number of their channel *)
Record State : Type := mkState {
  subscribers : gmap Z (Filter * nat); channels : list Channel; service_alive : bool
}.
Definition new : State := mkState ∅ [] true.

(** [self.subscribers.remove(&id)] *)
Definition remove_subscriber (id : Z) (s : State) : State :=
  match subscribers s !! id with
  | Some (_, c) => mkState (delete id (subscribers s)) (alter drop_sender c (channels s)) (service_alive s)
  | None => s
  end.

(** [add_subscriber], with the identifier [rand] gave and the messages sent before the
    stream is returned. A channel without room cannot be made; a message that finds the
    channel full waits for a client that does not have the stream yet. *)
Inductive Added : Type := Subscribed | AddPanics | AddWaits.
Definition add_subscriber (id : Z) (filter : Filter) (initial : list Resp) (s : State) : Added * State :=
  if (buffer_size =? 0)%nat then (AddPanics, s)
  else if (buffer_size <? length initial)%nat then (AddWaits, s)
  else
    let s := remove_subscriber id s in
    (Subscribed, mkState (<[id := (filter, length (channels s))]> (subscribers s))
                   (channels s ++ [mkChannel initial [] true true]) (service_alive s)).

Definition update_subscriber (id : Z) (filter : Filter) (s : State) : State :=
  mkState (alter (λ e, (filter, e.2)) id (subscribers s)) (channels s) (service_alive s).

Definition is_closed (s : State) (c : nat) : bool :=
  match channels s !! c with Some ch => negb (rx_open ch) | None => false end.
(** [prune_closed]: [retain] of the subscribers whose receiver is held *)
Definition prune_closed (s : State) : nat * State :=
  let s' := foldl (λ s id, remove_subscriber id s)
              s (hm_keys (filter (λ e, is_closed s e.2.2 = true) (subscribers s))) in
  ((size (subscribers s) - size (subscribers s'))%nat, s').
Definition subscriber_count (s : State) : nat := size (subscribers s).

(** The body of the loop of [process_*]: the channels, and the subscribers to remove *)
Definition deliver (item : Item) (entry : Z * (Filter * nat)) : st (list Channel * list Z) ProtoError unit :=
  let '(idx, (filter, c)) := entry in
  let! wanted := st_lift (wants filter item) in
  if negb wanted then st_ret tt
  else
    let! resp := st_lift (response idx item) in
    let! loop := st_get in
    match loop.1 !! c with
    | None => st_ret tt
    | Some ch =>
        match try_send resp ch with
        | (Sent, ch) => st_modify (λ l, (<[c := ch]> l.1, l.2))
        | (Full, _) | (Closed, _) => st_modify (λ l, (l.1, l.2 ++ [idx]))
        end
    end.
(** [process_*]: on a panic the messages already sent stay sent, and the task ends *)
Definition process_update (item : Item) (s : State) : State :=
  match for_each (deliver item) (hm_iter (subscribers s)) (channels s, []) with
  | (Ok _, (chs, closed_stream)) =>
      foldl (λ s id, remove_subscriber id s) (mkState (subscribers s) chs (service_alive s)) closed_stream
  | (_, (chs, _)) => mkState (subscribers s) chs false
  end.

(** ** Runs *)
Inductive Step : Type :=
| Add (id : Z) (filter : Filter) (initial : list Resp)
| UpdateFilter (id : Z) (filter : Filter)
| Remove (id : Z)
| Process (item : Item)
| Prune
| Recv (c : nat)
| HangUp (c : nat).
Definition step (s : State) (e : Step) : State :=
  match e with
  | Add id filter initial => (add_subscriber id filter initial s).2
  | UpdateFilter id filter => update_subscriber id filter s
  | Remove id => remove_subscriber id s
  | Process item => if service_alive s then process_update item s else s
  | Prune => (prune_closed s).2
  | Recv c => mkState (subscribers s) (alter recv c (channels s)) (service_alive s)
  | HangUp c => mkState (subscribers s) (alter hang_up c (channels s)) (service_alive s)
  end.
Definition run (s : State) (l : list Step) : State := foldl step s l.

(** ** One subscriber on its own *)

(** Sending to a subscriber, if it wants the update *)
Definition attempt (item : Item) (id : Z) (f : Filter) (ch : Channel) : option (SendResult * Channel) :=
  match wants f item, response id item with Ok true, Ok r => Some (try_send r ch) | _, _ => None end.
Definition sent_channel item id f ch : Channel :=
  match attempt item id f ch with Some (Sent, ch) => ch | _ => ch end.
Definition dropped item id f ch : bool :=
  match attempt item id f ch with Some (Full, _) | Some (Closed, _) => true | _ => false end.

(** What a step does to the subscriber [id] with the channel [c]; other subscribers
    play no part in it. *)
Definition sub_step (id : Z) (c : nat) (sub : Filter * Channel) (e : Step) : Filter * Channel :=
  let '(f, ch) := sub in
  match e with
  | Add j _ initial =>
      (f, if bool_decide (j = id) && negb (buffer_size =? 0)%nat && (length initial <=? buffer_size)%nat
          then drop_sender ch else ch)
  | UpdateFilter j g => (if bool_decide (j = id) && tx_open ch then g else f, ch)
  | Remove j => (f, if bool_decide (j = id) then drop_sender ch else ch)
  | Process item =>
      (f, if tx_open ch then if dropped item id f ch then drop_sender ch else sent_channel item id f ch else ch)
  | Prune => (f, if rx_open ch then ch else drop_sender ch)
  | Recv c' => (f, if (c' =? c)%nat then recv ch else ch)
  | HangUp c' => (f, if (c' =? c)%nat then hang_up ch else ch)
  end.

(** Every subscriber has a channel of its own, which it can send to. *)
Definition wf (s : State) : Prop :=
  (∀ id f c, subscribers s !! id = Some (f, c) → ∃ ch, channels s !! c = Some ch ∧ tx_open ch = true) ∧
  (∀ id id' f f' c, subscribers s !! id = Some (f, c) → subscribers s !! id' = Some (f', c) → id = id').
Definition view (s : State) (id : Z) (c : nat) (sub : Filter * Channel) : Prop :=
  channels s !! c = Some sub.2 ∧
  if tx_open sub.2 then subscribers s !! id = Some (sub.1, c) else ∀ j g, subscribers s !! j ≠ Some (g, c).

Lemma drop_sender_id ch : tx_open ch = false → drop_sender ch = ch.
Proof. destruct ch. cbn. by intros ->. Qed.

Lemma remove_wf j s : wf s → wf (remove_subscriber j s).
Proof.
  intros [H1 H2]. unfold remove_subscriber. destruct (subscribers s !! j) as [[g d]|] eqn:Hj; [|by split].
  split; cbn.
  - intros id f c [Hne Hid]%lookup_delete_Some. destruct (H1 id f c Hid) as (ch & Hch & Htx).
    exists ch. split; [|done]. rewrite list_lookup_alter_ne; [done|]. intros ->. by destruct Hne; eapply H2.
  - intros id id' f f' c [_ Hi]%lookup_delete_Some [_ Hi']%lookup_delete_Some. by eapply H2.
Qed.
Lemma remove_view j s id c f ch : wf s → view s id c (f, ch) →
  view (remove_subscriber j s) id c (f, if bool_decide (j = id) then drop_sender ch else ch).
Proof.
  intros [H1 H2] [Hc Hv]. unfold remove_subscriber, view. cbn in *. destruct (tx_open ch) eqn:Htx.
  - case_bool_decide as Hj.
    + subst j. rewrite Hv. cbn. rewrite list_lookup_alter_eq, Hc. split; [done|].
      intros j g [Hne Hj]%lookup_delete_Some. by destruct Hne; eapply H2.
    + destruct (subscribers s !! j) as [[g d]|] eqn:Hjs; cbn; rewrite ?Htx; [|done].
      rewrite lookup_delete_ne by done. split; [|done]. rewrite list_lookup_alter_ne; [done|]. intros ->. by destruct Hj; eapply H2.
  - replace (if bool_decide (j = id) then drop_sender ch else ch) with ch by (case_bool_decide; by rewrite ?drop_sender_id).
    rewrite Htx. destruct (subscribers s !! j) as [[g d]|] eqn:Hjs; cbn; [|done]. split.
    + rewrite list_lookup_alter_ne; [done|]. intros ->. by apply (Hv j g).
    + intros k g' [_ Hk]%lookup_delete_Some. by apply (Hv k g').
Qed.
Lemma removes_view ids s id c f ch : wf s → view s id c (f, ch) →
  wf (foldl (λ s j, remove_subscriber j s) s ids) ∧
  view (foldl (λ s j, remove_subscriber j s) s ids) id c (f, if bool_decide (id ∈ ids) then drop_sender ch else ch).
Proof.
  revert s ch. induction ids as [|j ids IH]; intros s ch Hw Hv; cbn [foldl].
  - split; [done|]. by rewrite bool_decide_eq_false_2 by apply not_elem_of_nil.
  - destruct (IH (remove_subscriber j s) _ (remove_wf j s Hw) (remove_view j s id c f ch Hw Hv)) as [Hw' Hv'].
    split; [done|]. replace (if bool_decide (id ∈ j :: ids) then drop_sender ch else ch) with
      (if bool_decide (id ∈ ids) then drop_sender (if bool_decide (j = id) then drop_sender ch else ch)
       else if bool_decide (j = id) then drop_sender ch else ch); [done|].
    repeat case_bool_decide; set_solver.
Qed.

(** ** The loop over the subscribers *)
Lemma deliver_Ok item id f c chs cl chs' cl' ch :
  deliver item (id, (f, c)) (chs, cl) = (Ok tt, (chs', cl')) → chs !! c = Some ch →
  chs' = <[c := sent_channel item id f ch]> chs ∧ cl' = cl ++ (if dropped item id f ch then [id] else []).
Proof.
  intros Hd Hc. unfold deliver, sent_channel, dropped, attempt in *. cbn in Hd.
  unfold st_bind, st_lift, st_get, st_modify, st_ret in Hd.
  assert (<[c := ch]> chs = chs) as Hid by by apply list_insert_id.
  destruct (wants f item) as [[]| |]; [|by simplify_eq/=; rewrite ?Hid, ?app_nil_r|done..]. cbn in Hd.
  destruct (response id item) as [r| |]; [|done..]. cbn in Hd. rewrite Hc in Hd.
  destruct (try_send r ch) as [[] ch']; simplify_eq/=; by rewrite ?Hid, ?app_nil_r.
Qed.

Lemma deliver_loop item l chs cl chs' cl' :
  for_each (deliver item) l (chs, cl) = (Ok tt, (chs', cl')) →
  NoDup l.*1 → NoDup l.*2.*2 → (∀ id f c, (id, (f, c)) ∈ l → is_Some (chs !! c)) →
  (∀ c, c ∉ l.*2.*2 → chs' !! c = chs !! c) ∧
  (∀ id f c ch, (id, (f, c)) ∈ l → chs !! c = Some ch → chs' !! c = Some (sent_channel item id f ch)) ∧
  (∀ id, id ∈ cl' ↔ id ∈ cl ∨ ∃ f c ch, (id, (f, c)) ∈ l ∧ chs !! c = Some ch ∧ dropped item id f ch = true).
Proof.
  revert chs cl. induction l as [|[id [f c]] l IH]; intros chs cl Hl Hn Hc Hs.
  { cbn in Hl. unfold st_ret in Hl. simplify_eq. split_and!; [done|by intros id f c ch Hin%not_elem_of_nil|].
    intros id. split; [by left|]. intros [|(f & c & ch & Hin%not_elem_of_nil & _)]; done. }
  apply for_each_Ok_cons in Hl as ([chs1 cl1] & H1 & Hl). destruct (Hs id f c) as [ch Hch]; [by left|].
  destruct (deliver_Ok _ _ _ _ _ _ _ _ _ H1 Hch) as [-> ->]. csimpl in Hn. csimpl in Hc.
  apply NoDup_cons in Hn as [Hni Hn]. apply NoDup_cons in Hc as [Hci Hc].
  assert (∀ id' f' c', (id', (f', c')) ∈ l → c' ≠ c) as Hother.
  { intros id' f' c' Hin ->. apply Hci. apply list_elem_of_fmap. exists (f', c). split; [done|].
    apply list_elem_of_fmap. by exists (id', (f', c)). }
  assert (c < length chs)%nat as Hlt by by eapply lookup_lt_Some.
  destruct (IH _ _ Hl Hn Hc) as (E1 & E2 & E3).
  { intros id' f' c' Hin. rewrite list_lookup_insert_ne by (intros <-; by eapply Hother). eapply Hs. by right. }
  split_and!.
  - intros c' Hc'. csimpl in Hc'. rewrite not_elem_of_cons in Hc'. rewrite E1 by naive_solver.
    by rewrite list_lookup_insert_ne by naive_solver.
  - intros id' f' c' ch' [[= -> -> ->]|Hin]%elem_of_cons Hch'.
    + simplify_eq. rewrite E1 by done. by rewrite list_lookup_insert_eq.
    + apply E2; [done|]. rewrite list_lookup_insert_ne; [done|]. intros <-. by eapply Hother.
  - intros id'. rewrite E3, elem_of_app. split.
    + intros [[?|Hd]|(f' & c' & ch' & Hin & Hch' & Hd)]; [by left| |].
      * right. destruct (dropped item id f ch) eqn:Hdr; [|by apply not_elem_of_nil in Hd].
        apply list_elem_of_singleton in Hd as ->. exists f, c, ch. split; [by left|done].
      * right. exists f', c', ch'. split; [by right|]. split; [|done].
        by rewrite list_lookup_insert_ne in Hch' by (intros <-; by eapply Hother).
    + intros [?|(f' & c' & ch' & [[= -> -> ->]|Hin]%elem_of_cons & Hch' & Hd)]; [by left; left| |].
      * left. right. simplify_eq. rewrite Hd. by left.
      * right. exists f', c', ch'. split; [done|]. split; [|done].
        rewrite list_lookup_insert_ne; [done|]. intros <-. by eapply Hother.
Qed.

Lemma sent_channel_tx item id f ch : tx_open (sent_channel item id f ch) = tx_open ch.
Proof.
  unfold sent_channel, attempt. destruct (wants f item) as [[]| |]; [|done..]. destruct (response id item); [|done..].
  unfold try_send. by repeat case_match; simplify_eq/=.
Qed.

Lemma wf_channels s : wf s → NoDup (hm_iter (subscribers s)).*2.*2.
Proof.
  intros [_ H2]. rewrite <- list_fmap_compose. pose proof (NoDup_hm_keys (subscribers s)) as Hn.
  unfold hm_keys in Hn. apply NoDup_fmap_1 in Hn as Hnd.
  apply NoDup_fmap_2_strong; [|done]. intros [id [f c]] [id' [f' c']] Hi Hi' [= ->].
  apply elem_of_hm_iter in Hi, Hi'. assert (id = id') as -> by by eapply H2. congruence.
Qed.

Lemma process_view item s id c f ch : wf s → view s id c (f, ch) → service_alive (process_update item s) = true →
  wf (process_update item s) ∧ view (process_update item s) id c (sub_step id c (f, ch) (Process item)).
Proof.
  intros Hw Hv. unfold process_update.
  destruct (for_each _ _ _) as [[[]| |] [chs cl]] eqn:Hl; [|done..]. intros _.
  apply deliver_loop in Hl as (E1 & E2 & E3); [|by apply NoDup_hm_keys|by apply wf_channels|].
  2: { intros i g d Hin%elem_of_hm_iter. destruct (proj1 Hw _ _ _ Hin) as (ch' & -> & _). by eexists. }
  assert (wf (mkState (subscribers s) chs (service_alive s))) as Hw'.
  { destruct Hw as [H1 H2]. split; [|done]. cbn. intros i g d Hi. destruct (H1 _ _ _ Hi) as (ch' & Hch' & Htx).
    eexists. split; [apply E2; [by apply elem_of_hm_iter|done]|]. by rewrite sent_channel_tx. }
  destruct Hv as [Hc Hv]. cbn in Hc, Hv. cbn [sub_step]. destruct (tx_open ch) eqn:Htx.
  - assert (view (mkState (subscribers s) chs (service_alive s)) id c (f, sent_channel item id f ch)) as Hv'.
    { split; cbn; [apply E2; [by apply elem_of_hm_iter|done]|]. by rewrite sent_channel_tx, Htx. }
    destruct (removes_view cl _ _ _ _ _ Hw' Hv') as [Hw'' Hv'']. split; [done|].
    assert (id ∈ cl ↔ dropped item id f ch = true) as Hd.
    { rewrite E3. split; [|intros; right; exists f, c, ch; by rewrite elem_of_hm_iter].
      intros [?%not_elem_of_nil|(f' & c' & ch' & Hi%elem_of_hm_iter & Hch' & Hd)]; [done|]. congruence. }
    destruct (dropped item id f ch) eqn:Hdr.
    + rewrite bool_decide_eq_true_2 in Hv'' by by apply Hd. replace (drop_sender ch) with (drop_sender (sent_channel item id f ch)); [done|].
      revert Hdr. unfold dropped, sent_channel. by destruct (attempt item id f ch) as [[[] ?]|].
    + rewrite bool_decide_eq_false_2 in Hv'' by by rewrite Hd. done.
  - assert (view (mkState (subscribers s) chs (service_alive s)) id c (f, ch)) as Hv'.
    { split; cbn; [|by rewrite Htx]. rewrite E1; [done|]. intros ((g & d) & -> & Hin)%list_elem_of_fmap.
      apply list_elem_of_fmap in Hin as ([j [g' d']] & [= -> ->] & Hin). apply elem_of_hm_iter in Hin. by apply (Hv j g'). }
    destruct (removes_view cl _ _ _ _ _ Hw' Hv') as [Hw'' Hv'']. split; [done|].
    by rewrite drop_sender_id in Hv'' by done; case_bool_decide.
Qed.

(** ** The other steps *)
Lemma alter_channel_view g s id c f ch d : (∀ ch, tx_open (g ch) = tx_open ch) → wf s → view s id c (f, ch) →
  wf (mkState (subscribers s) (alter g d (channels s)) (service_alive s)) ∧
  view (mkState (subscribers s) (alter g d (channels s)) (service_alive s)) id c (f, if (d =? c)%nat then g ch else ch).
Proof.
  intros Hg [H1 H2] [Hc Hv]. split; [split; [|done]|]; cbn in *.
  - intros i h e Hi. destruct (H1 i h e Hi) as (ch' & Hch' & Htx). destruct (decide (d = e)) as [->|Hne].
    + exists (g ch'). by rewrite list_lookup_alter_eq, Hch', Hg.
    + exists ch'. by rewrite list_lookup_alter_ne.
  - unfold view. cbn. destruct (Nat.eqb_spec d c) as [->|Hne].
    + by rewrite list_lookup_alter_eq, Hc, Hg.
    + by rewrite list_lookup_alter_ne.
Qed.
Lemma recv_tx ch : tx_open (recv ch) = tx_open ch.
Proof. unfold recv. by destruct (queue ch). Qed.

Lemma update_view j g s id c f ch : wf s → view s id c (f, ch) →
  wf (update_subscriber j g s) ∧ view (update_subscriber j g s) id c (if bool_decide (j = id) && tx_open ch then g else f, ch).
Proof.
  intros [H1 H2] [Hc Hv]. cbn in *.
  assert (∀ i h d, subscribers (update_subscriber j g s) !! i = Some (h, d) → ∃ h', subscribers s !! i = Some (h', d)) as Hu.
  { intros i h d. cbn. destruct (decide (j = i)) as [->|Hne]; [|rewrite lookup_alter_ne by done; eauto].
    rewrite lookup_alter_eq. destruct (subscribers s !! i) as [[h' d']|]; cbn; [|done]. intros [= <- <-]. eauto. }
  split; [split|].
  - intros i h d (h' & Hi)%Hu. by eapply H1.
  - intros i i' h h' d (h1 & Hi)%Hu (h2 & Hi')%Hu. by eapply H2.
  - split; [done|]. cbn. destruct (tx_open ch).
    + rewrite andb_true_r. case_bool_decide as Hj; [subst; by rewrite lookup_alter_eq, Hv|by rewrite lookup_alter_ne].
    + intros i h (h' & Hi)%Hu. by apply (Hv i h').
Qed.

Lemma prune_view s id c f ch : wf s → view s id c (f, ch) →
  wf (prune_closed s).2 ∧ view (prune_closed s).2 id c (f, if rx_open ch then ch else drop_sender ch).
Proof.
  intros Hw Hv. unfold prune_closed. cbn.
  destruct (removes_view (hm_keys (filter (λ e, is_closed s e.2.2 = true) (subscribers s))) s id c f ch Hw Hv) as [Hw' Hv'].
  split; [done|]. destruct Hv as [Hc Hv]. cbn in Hc, Hv. destruct (tx_open ch) eqn:Htx.
  - assert (id ∈ hm_keys (filter (λ e, is_closed s e.2.2 = true) (subscribers s)) ↔ rx_open ch = false) as Hi.
    { rewrite elem_of_hm_keys. unfold is_Some. setoid_rewrite map_lookup_filter_Some. unfold is_closed. split.
      - intros ([f' c'] & Hid & Hcl). cbn in Hcl. rewrite Hv in Hid. injection Hid as <- <-. rewrite Hc in Hcl.
        by destruct (rx_open ch).
      - intros Hrx. exists (f, c). cbn. by rewrite Hc, Hrx. }
    destruct (rx_open ch); [rewrite bool_decide_eq_false_2 in Hv' by by rewrite Hi|rewrite bool_decide_eq_true_2 in Hv' by by apply Hi]; done.
  - rewrite drop_sender_id in * by done. by repeat case_bool_decide; destruct (rx_open ch).
Qed.

Lemma add_view j g initial s id c f ch : wf s → view s id c (f, ch) →
  wf (add_subscriber j g initial s).2 ∧
  view (add_subscriber j g initial s).2 id c (sub_step id c (f, ch) (Add j g initial)).
Proof.
  intros Hw Hv. unfold add_subscriber, sub_step.
  destruct (Nat.eqb_spec buffer_size 0); [by rewrite andb_false_r|].
  destruct (Nat.ltb_spec buffer_size (length initial)).
  { by rewrite (proj2 (Nat.leb_gt _ _)), andb_false_r by done. }
  rewrite (proj2 (Nat.leb_le _ _)) by done. rewrite !andb_true_r.
  pose proof (remove_wf j s Hw) as [H1 H2]. pose proof (remove_view j s id c f ch Hw Hv) as [Hc Hv'].
  generalize dependent (if bool_decide (j = id) then drop_sender ch else ch). intros ch' Hc Hv'. clear Hv.
  set (s' := remove_subscriber j s) in *. cbn. cbn in Hc.
  assert (∀ i h d, subscribers s' !! i = Some (h, d) → (d < length (channels s'))%nat) as Hlt.
  { intros i h d Hi. destruct (H1 _ _ _ Hi) as (ch0 & Hch0 & _). by eapply lookup_lt_Some. }
  split; [split|split]; cbn.
  - intros i h d [[<- [= <- <-]]|[Hne Hi]]%lookup_insert_Some.
    + exists (mkChannel initial [] true true). split; [|done]. by rewrite lookup_app_r, Nat.sub_diag by lia.
    + destruct (H1 _ _ _ Hi) as (ch0 & Hch0 & Htx). exists ch0. split; [|done]. by apply lookup_app_l_Some.
  - intros i i' h h' d [[<- [= <- <-]]|[Hne Hi]]%lookup_insert_Some [[<- [= <-]]|[Hne' Hi']]%lookup_insert_Some.
    + done.
    + apply Hlt in Hi'. lia.
    + subst d. apply Hlt in Hi. lia.
    + by eapply H2.
  - by apply lookup_app_l_Some.
  - apply lookup_lt_Some in Hc. cbn in Hv'. destruct (tx_open ch').
    + rewrite lookup_insert_ne; [done|]. intros ->. unfold s', remove_subscriber in Hv'.
      destruct (subscribers s !! id) as [[h d]|] eqn:Hs; cbn in Hv'; [by rewrite lookup_delete_eq in Hv'|congruence].
    + intros i h [[<- [= <- <-]]|[Hne Hi]]%lookup_insert_Some; [lia|by apply (Hv' i h)].
Qed.

Lemma step_view e s id c sub : wf s → view s id c sub → service_alive (step s e) = true →
  wf (step s e) ∧ view (step s e) id c (sub_step id c sub e).
Proof.
  destruct sub as [f ch]. intros Hw Hv. destruct e as [j g initial|j g|j|item| |d|d]; cbn [step]; intros Ha.
  - by apply add_view.
  - by apply update_view.
  - split; [by apply remove_wf|by apply remove_view].
  - destruct (service_alive s) eqn:Has; [|congruence]. by apply process_view.
  - by apply prune_view.
  - apply alter_channel_view; auto using recv_tx.
  - by apply (alter_channel_view hang_up).
Qed.

Lemma remove_alive j s : service_alive (remove_subscriber j s) = service_alive s.
Proof. unfold remove_subscriber. by destruct (subscribers s !! j) as [[]|]. Qed.
Lemma removes_alive ids s : service_alive (foldl (λ s j, remove_subscriber j s) s ids) = service_alive s.
Proof. revert s. induction ids as [|j ids IH]; intros s; [done|]. cbn. by rewrite IH, remove_alive. Qed.
Lemma step_alive e s : service_alive (step s e) = true → service_alive s = true.
Proof.
  destruct e as [j g initial|j g|j|item| |d|d]; cbn [step]; try done.
  - unfold add_subscriber. repeat case_match; try done. cbn. by rewrite remove_alive.
  - by rewrite remove_alive.
  - destruct (service_alive s) eqn:Ha; congruence.
  - unfold prune_closed. cbn. by rewrite removes_alive.
Qed.
Lemma run_alive l s : service_alive (run s l) = true → service_alive s = true.
Proof. revert s. induction l as [|e l IH]; intros s; [done|]. cbn. intros H1%IH. by eapply step_alive. Qed.

(** Without subscribers there is nothing to send. *)
Lemma wf_empty s : subscribers s = ∅ → wf s.
Proof. intros Hs. split; intros ?; rewrite Hs; intros *; by rewrite lookup_empty. Qed.
Lemma iter_empty : hm_iter (∅ : gmap Z (Filter * nat)) = [].
Proof. apply Permutation_nil_r. by rewrite hm_iter_perm, map_to_list_empty. Qed.
Lemma step_empty e s : subscribers s = ∅ → wf (step s e).
Proof.
  intros Hs. destruct e as [j g initial|j g|j|item| |d|d]; cbn [step]; try by apply wf_empty.
  - unfold add_subscriber. repeat case_match; [by apply wf_empty..|]. cbn. unfold remove_subscriber. rewrite Hs, lookup_empty.
    split; cbn; rewrite Hs.
    + intros id f c [[<- [= <- <-]]|[_ ?]]%lookup_insert_Some; [|by rewrite lookup_empty in *].
      exists (mkChannel initial [] true true). split; [|done]. by rewrite lookup_app_r, Nat.sub_diag by lia.
    + intros id id' f f' c [[<- _]|[_ ?]]%lookup_insert_Some [[<- _]|[_ ?]]%lookup_insert_Some; by rewrite ?lookup_empty in *.
  - apply wf_empty. cbn. by rewrite Hs, alter_empty.
  - apply wf_empty. unfold remove_subscriber. by rewrite Hs, lookup_empty.
  - destruct (service_alive s); [|by apply wf_empty]. apply wf_empty. unfold process_update. rewrite Hs, iter_empty. done.
  - apply wf_empty. unfold prune_closed, hm_keys. cbn. rewrite Hs, map_filter_empty, iter_empty. done.
Qed.
Lemma step_wf e s : wf s → service_alive (step s e) = true → wf (step s e).
Proof.
  intros Hw Ha. destruct (map_choose_or_empty (subscribers s)) as [(id & [f c] & Hid)|He]; [|by apply step_empty].
  destruct (proj1 Hw id f c Hid) as (ch & Hch & Htx).
  apply (step_view e s id c (f, ch)); [done| |done]. split; cbn; [done|]. by rewrite Htx.
Qed.
Lemma run_wf l s : wf s → service_alive (run s l) = true → wf (run s l).
Proof.
  revert s. induction l as [|e l IH]; intros s Hw Ha; [done|]. cbn in *. apply IH; [|done].
  apply step_wf; [done|]. by eapply run_alive.
Qed.
Lemma run_view l s id c sub : wf s → view s id c sub → service_alive (run s l) = true →
  view (run s l) id c (foldl (sub_step id c) sub l).
Proof.
  revert s sub. induction l as [|e l IH]; intros s sub Hw Hv Ha; [done|]. cbn in *.
  destruct (step_view e s id c sub Hw Hv) as [Hw' Hv']; [by eapply run_alive|]. by apply IH.
Qed.

(** ** What a subscriber receives *)

(** The responses to the updates it wants, with the filter it has at each *)
Fixpoint expected (id : Z) (f : Filter) (l : list Step) : list Resp :=
  match l with
  | [] => []
  | UpdateFilter j g :: l => expected id (if bool_decide (j = id) then g else f) l
  | Process item :: l =>
      match wants f item, response id item with Ok true, Ok r => r :: expected id f l | _, _ => expected id f l end
  | _ :: l => expected id f l
  end.
Definition log (ch : Channel) : list Resp := received ch ++ queue ch.

Lemma log_recv ch : log (recv ch) = log ch.
Proof. unfold recv, log. destruct (queue ch) as [|r q] eqn:Hq; cbn; [by rewrite Hq|]. by rewrite <- (assoc (++)). Qed.

Definition live (ch : Channel) : bool := tx_open ch && rx_open ch.
Lemma log_hang_up ch : log (hang_up ch) `prefix_of` log ch.
Proof. unfold log. cbn. rewrite app_nil_r. by apply prefix_app_r. Qed.

(** One step, for a subscriber that is connected *)
Lemma sub_step_live id c f ch e : live ch = true →
  let '(f', ch') := sub_step id c (f, ch) e in
  f' = match e with UpdateFilter j g => if bool_decide (j = id) then g else f | _ => f end ∧
  if live ch' then log ch' = log ch ++ expected id f [e] else log ch' `prefix_of` log ch.
Proof.
  unfold live. intros [Htx Hrx]%andb_true_iff.
  destruct e as [j g initial|j g|j|item| |d|d]; cbn [sub_step expected]; rewrite ?app_nil_r, ?Htx, ?Hrx, ?andb_true_r;
    (split; [done|]).
  - destruct (bool_decide _ && _ && _); cbn; [done|by rewrite Htx, Hrx].
  - done.
  - case_bool_decide; cbn; [done|by rewrite Htx, Hrx].
  - unfold dropped, sent_channel, attempt.
    destruct (wants f item) as [[]| |], (response id item) as [r| |]; rewrite ?app_nil_r, ?Htx, ?Hrx; try done.
    unfold try_send. rewrite Hrx. cbn. destruct (buffer_size <=? length (queue ch))%nat; cbn; [done|]. rewrite Htx. unfold log. cbn. by rewrite (assoc (++)).
  - by rewrite ?Htx, ?Hrx.
  - destruct (Nat.eqb_spec d c); [|by rewrite Htx, Hrx]. rewrite log_recv, recv_tx, Htx.
    replace (rx_open (recv ch)) with true; [done|]. unfold recv. by destruct (queue ch).
  - destruct (Nat.eqb_spec d c); [|by rewrite Htx, Hrx]. cbn. rewrite andb_false_r. apply log_hang_up.
Qed.
(** and for one that is not: it receives nothing more *)
Lemma sub_step_gone id c f ch e : live ch = false →
  log (sub_step id c (f, ch) e).2 `prefix_of` log ch ∧ live (sub_step id c (f, ch) e).2 = false.
Proof.
  unfold live. intros Hl. assert (tx_open (drop_sender ch) && rx_open (drop_sender ch) = false) as Hd by done.
  destruct e as [j g initial|j g|j|item| |d|d]; cbn [sub_step snd].
  - by destruct (bool_decide _ && _ && _).
  - done.
  - by destruct (bool_decide _).
  - destruct (tx_open ch) eqn:Htx; [|by rewrite Htx]. cbn in Hl. unfold dropped, sent_channel, attempt, try_send. rewrite Hl. cbn.
    destruct (wants f item) as [[]| |], (response id item) as [r| |]; cbn; by rewrite ?Htx, ?Hl.
  - by destruct (rx_open ch) eqn:Hrx; rewrite ?Hrx.
  - destruct (Nat.eqb d c); [|done]. rewrite log_recv, recv_tx. split; [done|].
    replace (rx_open (recv ch)) with (rx_open ch); [done|]. unfold recv. by destruct (queue ch).
  - destruct (Nat.eqb d c); [|done]. split; [apply log_hang_up|]. cbn. by rewrite andb_false_r.
Qed.
Lemma sub_run_gone id c f ch l : live ch = false →
  log (foldl (sub_step id c) (f, ch) l).2 `prefix_of` log ch ∧ live (foldl (sub_step id c) (f, ch) l).2 = false.
Proof.
  revert f ch. induction l as [|e l IH]; intros f ch Hl; [done|]. cbn [foldl].
  destruct (sub_step_gone id c f ch e Hl) as [Hp Ht]. destruct (sub_step id c (f, ch) e) as [f' ch']. cbn in *.
  destruct (IH f' ch' Ht) as [Hp' Ht']. split; [|done]. by etrans.
Qed.
Lemma expected_cons id f e l :
  expected id f (e :: l) =
  expected id f [e] ++ expected id match e with UpdateFilter j g => if bool_decide (j = id) then g else f | _ => f end l.
Proof. destruct e; cbn; try done. by destruct (wants f item) as [[]| |], (response id item). Qed.

Lemma sub_run_live id c f ch l : live ch = true →
  let ch' := (foldl (sub_step id c) (f, ch) l).2 in
  if live ch' then log ch' = log ch ++ expected id f l else log ch' `prefix_of` log ch ++ expected id f l.
Proof.
  revert f ch. induction l as [|e l IH]; intros f ch Hl; cbn [foldl]; [cbn [snd]; by rewrite Hl, app_nil_r|].
  cbv zeta in *. rewrite expected_cons, (assoc_L (++)). pose proof (sub_step_live id c f ch e Hl) as Hs.
  destruct (sub_step id c (f, ch) e) as [f' ch']. destruct Hs as (-> & Hs). destruct (live ch') eqn:Hl'.
  - rewrite <- Hs. by apply IH.
  - destruct (sub_run_gone id c (match e with UpdateFilter j g => if bool_decide (j = id) then g else f | _ => f end) ch' l Hl') as [Hp ->].
    rewrite Hp, Hs, <- (assoc (++)). by apply prefix_app_r.
Qed.

(** Not removed, nor replaced by a subscriber that is given the same identifier *)
Definition leaves_alone (id : Z) (e : Step) : Prop :=
  match e with Remove j => j ≠ id | Add j _ _ => j ≠ id | _ => True end.
Definition keeping_up (ch : Channel) : Prop := rx_open ch = true ∧ (length (queue ch) < buffer_size)%nat.

Lemma sub_run_stays id c f ch l :
  tx_open ch = true → Forall (leaves_alone id) l → (∀ n, keeping_up (foldl (sub_step id c) (f, ch) (take n l)).2) →
  live (foldl (sub_step id c) (f, ch) l).2 = true.
Proof.
  intros Htx Hl. revert f ch Htx. induction Hl as [|e l He _ IH]; intros f ch Htx Hk.
  { destruct (Hk 0%nat) as [Hrx _]. unfold live. cbn in *. by rewrite Htx, Hrx. }
  cbn [foldl]. destruct (Hk 0%nat) as [Hrx Hq]. cbn in Hrx, Hq.
  assert (tx_open (sub_step id c (f, ch) e).2 = true) as Ht.
  { destruct e as [j g initial|j g|j|item| |d|d]; cbn [sub_step snd leaves_alone] in *; rewrite ?Htx, ?Hrx; try done.
    - by rewrite bool_decide_eq_false_2.
    - by rewrite bool_decide_eq_false_2.
    - unfold dropped, sent_channel, attempt, try_send. rewrite Hrx, (proj2 (Nat.leb_gt _ _)) by done.
      by destruct (wants f item) as [[]| |], (response id item).
    - destruct (Nat.eqb d c); [by rewrite recv_tx|done].
    - by destruct (Nat.eqb d c). }
  destruct (sub_step id c (f, ch) e) as [f' ch'] eqn:Hs. apply IH; [done|]. intros n. specialize (Hk (S n)).
  cbn [firstn foldl] in Hk. by rewrite Hs in Hk.
Qed.

End manager.
End Manager.

(** ** The service of a kind *)
Module Service.
Import Broker Manager.
Section service.
Context {Filter Item Resp : Type} `{HashOrder}.
Context (wants : Filter → Item → outcome ProtoError bool) (response : Z → Item → outcome ProtoError Resp).
Context (buffer_size : nat).
(** [config.optimistic], the key of the stream of the service, and whether the updates
    go through the channel of a task ([publish_updates]) or are processed in [poll] *)
Context (flag : bool) (key : nat) (spawns : bool).
#[local] Abbreviation step := (Manager.step wants response buffer_size).
#[local] Abbreviation run := (Manager.run wants response buffer_size).

Record Feed : Type := mkFeed {
  senders : gmap nat (list (Update Item)); pending : list Item; manager : Manager.State (Filter := Filter) (Resp := Resp)
}.
Inductive Action : Type :=
| Publish (u : Update Item)
| Poll
| Task
| Handle (e : Step (Filter := Filter) (Item := Item) (Resp := Resp)).

Definition process_all (items : list Item) (m : Manager.State) : Manager.State := foldl (λ m i, step m (Process i)) m items.
(** [Service::poll] *)
Definition poll (s : Feed) : Feed :=
  let fuel := match senders s !! key with Some q => length q | None => 0%nat end in
  let '(items, senders) := poll_all fuel flag key (senders s) in
  if spawns then mkFeed senders (pending s ++ items) (manager s)
  else mkFeed senders (pending s) (process_all items (manager s)).
(** [Service::publish_updates], one turn of its loop *)
Definition publish_updates (s : Feed) : Feed :=
  match pending s with
  | item :: rest => mkFeed (senders s) rest (step (manager s) (Process item))
  | [] => s
  end.
Definition service_step (s : Feed) (a : Action) : Feed :=
  match a with
  | Publish u => mkFeed (publish u (senders s)) (pending s) (manager s)
  | Poll => poll s
  | Task => publish_updates s
  | Handle e => mkFeed (senders s) (pending s) (step (manager s) e)
  end.

Definition processed (l : list (Step (Filter := Filter) (Item := Item) (Resp := Resp))) : list Item :=
  omap (λ e, match e with Process i => Some i | _ => None end) l.
#[local] Instance request_dec (e : Step (Filter := Filter) (Item := Item) (Resp := Resp)) :
  Decision (match e with Process _ => False | _ => True end).
Proof. destruct e; apply _. Defined.
Definition requests (l : list (Step (Filter := Filter) (Item := Item) (Resp := Resp))) : list Step :=
  filter (λ e, match e with Process _ => False | _ => True end) l.
Definition published (l : list Action) : list (Update Item) :=
  omap (λ a, match a with Publish u => Some u | _ => None end) l.
Definition handled (l : list Action) : list Step := omap (λ a, match a with Handle e => Some e | _ => None end) l.

Lemma processed_all items m : process_all items m = run m (Process <$> items).
Proof. revert m. induction items as [|i items IH]; intros m; [done|]. apply IH. Qed.
Lemma processed_items items : processed (Process <$> items) = items ∧ requests (Process <$> items) = [].
Proof. induction items as [|i items [IH1 IH2]]; [done|]. unfold processed, requests in *. cbn. by rewrite IH1. Qed.
Lemma processed_app l1 l2 : processed (l1 ++ l2) = processed l1 ++ processed l2.
Proof. apply omap_app. Qed.
Lemma requests_app l1 l2 : requests (l1 ++ l2) = requests l1 ++ requests l2.
Proof. apply filter_app. Qed.

(** What is in the stream, before and after the channel of the task *)
Definition waiting (s : Feed) : list Item :=
  pending s ++ match senders s !! key with Some q => omap (kept flag) q | None => [] end.

(** One action runs some steps of the manager, and loses no update. *)
Lemma service_step_spec s a :
  is_Some (senders s !! key) → (spawns = false → pending s = []) → (∀ i, a ≠ Handle (Process i)) →
  is_Some (senders (service_step s a) !! key) ∧ (spawns = false → pending (service_step s a) = []) ∧
  ∃ steps, manager (service_step s a) = run (manager s) steps ∧ requests steps = handled [a] ∧
    processed steps ++ waiting (service_step s a) = waiting s ++ omap (kept flag) (published [a]).
Proof.
  intros [q Hq] Hsp Hna. unfold waiting. destruct a as [u| | |e]; cbn [service_step].
  - split; [unfold publish; cbn; rewrite lookup_fmap, Hq; by eexists|]. split; [done|]. exists []. split_and!; [done..|].
    cbn. unfold publish. rewrite lookup_fmap, Hq. cbn. by rewrite omap_app, <- (assoc_L (++)).
  - unfold poll. rewrite Hq, (poll_all_spec _ _ _ _ q) by done. destruct spawns; cbn; rewrite lookup_insert_eq.
    + split; [by eexists|]. split; [done|]. exists []. split_and!; [done..|]. cbn. by rewrite !app_nil_r.
    + split; [by eexists|]. split; [done|]. exists (Process <$> omap (kept flag) q).
      destruct (processed_items (omap (kept flag) q)) as [-> ->]. split_and!; [apply processed_all|done|].
      rewrite Hsp by done. cbn. by rewrite !app_nil_r.
  - unfold publish_updates. destruct (pending s) as [|i rest] eqn:Hp.
    + split; [by eexists|]. split; [done|]. exists []. rewrite Hp. split_and!; [done..|]. cbn. by rewrite app_nil_r.
    + split; [by eexists|]. split; [intros Hs; discriminate (Hsp Hs)|]. exists [Process i].
      split_and!; [done..|]. cbn. by rewrite app_nil_r.
  - split; [by eexists|]. split; [done|]. exists [e]. split_and!; [done| |].
    + destruct e; try done. by destruct (Hna item).
    + destruct e; cbn; rewrite ?app_nil_r; try done. by destruct (Hna item).
Qed.


End service.
End Service.
