(* ===== verification/SubscriptionKinds.v ===== *)
(** * The kinds of subscriptions ([crates/grpc/server/src/subscriptions/*.rs])

    For each kind: the filter of a subscriber, which updates it wants, the response
    it is sent, and the operations of its manager, those of [Manager] in
    Subscriptions.v. [contains] of a list or a set is [existsb] or membership. *)

From S2P Require Import Prelude Proto SqlString ModelTable Wire Messages Aggregator Matching Subscriptions.
Local Open Scope Z_scope.
Local Open Scope torii_scope.

Module Kinds.
Import Msg Matching.

(** [GrpcConfig], the fields the subscriptions read *)
Record GrpcConfig : Type := mkGrpcConfig { subscription_buffer_size : nat; config_optimistic : bool }.
Definition GrpcConfig_default : GrpcConfig := mkGrpcConfig 1000 false.

(** A response with the identifier of the subscription; the first one is empty. *)
Record Reply (P : Type) : Type := mkReply { subscription_id : Z; payload : option P }.
Arguments mkReply {P} _ _.
Arguments subscription_id {P} _.
Arguments payload {P} _.

(** [!l.is_empty() && !l.contains(&x)] *)
Definition excludes {A} `{EqDecision A} (l : list A) (x : A) : bool :=
  match l with [] => false | _ => bool_decide (x ∉ l) end.
Definition set_excludes {A} `{Countable A} (s : gset A) (x : A) : bool := bool_decide (s ≠ ∅ ∧ x ∉ s).
(** [!s.is_empty() && token_id.is_some() && !s.contains(&token_id.unwrap())] *)
Definition set_excludes_id (s : gset Z) (token_id : option Z) : bool :=
  match token_id with Some t => set_excludes s t | None => false end.

Section kinds.
Context `{HashOrder, Chrono, DojoValues} (config : GrpcConfig).
#[local] Abbreviation buffer := (subscription_buffer_size config).
#[local] Abbreviation State F P := (Manager.State (Filter := F) (Resp := P)).

(** ** Entities and event messages *)
Record EntitiesSubscriber : Type := mkEntitiesSubscriber { es_clause : option Clause; es_world_addresses : list Felt }.
(** [entity.models.first().map(|m| Ty::Struct(m.clone()))] *)
Definition first_model (e : Entity) : option DTy := (λ m : string * list (string * DTy * bool), TyStruct m.1 m.2) <$> hd_error (entity_models e).
Definition entity_wants (sub : EntitiesSubscriber) (e : Wire.EntityWithMetadata) : outcome ProtoError bool :=
  match es_clause sub with
  | None => Ok true
  | Some clause =>
      if excludes (es_world_addresses sub) (entity_world_address (ewm_entity e)) then Ok false
      else
        let? matches_old := match_entity (hashed_keys (ewm_entity e)) (ewm_keys e) (ewm_match_model e) clause in
        let? matches_new := match_entity (hashed_keys (ewm_entity e)) (ewm_keys e) (first_model (ewm_entity e)) clause in
        Ok (matches_old || matches_new)
  end.
Definition entity_response (idx : Z) (e : Wire.EntityWithMetadata) : outcome ProtoError (Reply PEntity) :=
  let? p := entity_into (ewm_entity e) in Ok (mkReply idx (Some p)).
Definition entity_add_subscriber (id : Z) (clause : option Clause) (world_addresses : list Felt) (s : State EntitiesSubscriber (Reply PEntity)) :=
  Manager.add_subscriber buffer id (mkEntitiesSubscriber clause world_addresses) [mkReply id None] s.
Definition entity_update_subscriber (id : Z) (clause : option Clause) (world_addresses : list Felt)
    (s : State EntitiesSubscriber (Reply PEntity)) :=
  Manager.update_subscriber id (mkEntitiesSubscriber clause world_addresses) s.
Definition process_entity_update (e : Wire.EntityWithMetadata) (s : State EntitiesSubscriber (Reply PEntity)) :=
  Manager.process_update entity_wants entity_response buffer e s.

Record EventMessageSubscriber : Type := mkEventMessageSubscriber { ems_clause : option Clause; ems_world_addresses : list Felt }.
Definition event_message_wants (sub : EventMessageSubscriber) (e : Wire.EntityWithMetadata) : outcome ProtoError bool :=
  match ems_clause sub with
  | None => Ok true
  | Some clause =>
      if excludes (ems_world_addresses sub) (entity_world_address (ewm_entity e)) then Ok false
      else
        let? matches_old := match_entity (hashed_keys (ewm_entity e)) (ewm_keys e) (ewm_match_model e) clause in
        let? matches_new := match_entity (hashed_keys (ewm_entity e)) (ewm_keys e) (first_model (ewm_entity e)) clause in
        Ok (matches_old || matches_new)
  end.
Definition event_message_response (idx : Z) (e : Wire.EntityWithMetadata) : outcome ProtoError (Reply PEntity) :=
  let? p := entity_into (ewm_entity e) in Ok (mkReply idx (Some p)).
Definition event_message_add_subscriber (id : Z) (clause : option Clause) (world_addresses : list Felt)
    (s : State EventMessageSubscriber (Reply PEntity)) :=
  Manager.add_subscriber buffer id (mkEventMessageSubscriber clause world_addresses) [mkReply id None] s.
Definition event_message_update_subscriber (id : Z) (clause : option Clause) (world_addresses : list Felt)
    (s : State EventMessageSubscriber (Reply PEntity)) :=
  Manager.update_subscriber id (mkEventMessageSubscriber clause world_addresses) s.
Definition process_event_message (e : Wire.EntityWithMetadata) (s : State EventMessageSubscriber (Reply PEntity)) :=
  Manager.process_update event_message_wants event_message_response buffer e s.

(** ** Events *)
Definition event_wants (keys : list KeysClause) (e : Msg.EventWithMetadata) : outcome ProtoError bool :=
  Ok (match_keys (event_keys (ewm_event e)) keys).
Definition event_response (_ : Z) (e : Msg.EventWithMetadata) : outcome ProtoError (option PEvent) :=
  let event := ewm_event e in
  Ok (Some (mkPEvent (felt_to_bytes <$> event_keys event) (felt_to_bytes <$> event_data event)
              (felt_to_bytes (event_transaction_hash event)))).
Definition event_add_subscriber (id : Z) (keys : list KeysClause) (s : State (list KeysClause) (option PEvent)) :=
  Manager.add_subscriber buffer id keys [None] s.
Definition process_event (e : Msg.EventWithMetadata) (s : State (list KeysClause) (option PEvent)) :=
  Manager.process_update event_wants event_response buffer e s.

(** ** Contracts *)
Definition contract_wants (query : ContractQuery) (c : Contract) : outcome ProtoError bool :=
  Ok (negb (excludes (contract_query_contract_addresses query) (contract_contract_address c))
      && negb (excludes (contract_query_contract_types query) (contract_contract_type c))).
Definition contract_response (_ : Z) (c : Contract) : outcome ProtoError (option PContract) := Ok (Some (contract_into c)).
(** [storage.contracts(&query).await?]: [None] is its error. The contracts are sent
    before the stream is returned. *)
Definition contract_add_subscriber (contracts : option (list Contract)) (id : Z) (query : ContractQuery)
    (s : State ContractQuery (option PContract)) : option (Manager.Added * State ContractQuery (option PContract)) :=
  contracts ← contracts;
  Some (Manager.add_subscriber buffer id query ((λ c, Some (contract_into c)) <$> contracts) s).
Definition process_contract (c : Contract) (s : State ContractQuery (option PContract)) :=
  Manager.process_update contract_wants contract_response buffer c s.

(** ** Tokens, balances and transfers *)
Record TokenSubscriber : Type := mkTokenSubscriber { ts_contract_addresses : gset Felt; ts_token_ids : gset U256 }.
Definition token_wants (sub : TokenSubscriber) (t : Token) : outcome ProtoError bool :=
  Ok (negb (set_excludes (ts_contract_addresses sub) (Msg.token_contract_address t))
      && negb (set_excludes_id (ts_token_ids sub) (Msg.token_token_id t))).
Definition token_response (idx : Z) (t : Token) : outcome ProtoError (Reply PToken) := Ok (mkReply idx (Some (token_into t))).
Definition token_subscriber (contract_addresses : list Felt) (token_ids : list U256) : TokenSubscriber :=
  mkTokenSubscriber (list_to_set contract_addresses) (list_to_set token_ids).
Definition token_add_subscriber (id : Z) (contract_addresses : list Felt) (token_ids : list U256) (s : State TokenSubscriber (Reply PToken)) :=
  Manager.add_subscriber buffer id (token_subscriber contract_addresses token_ids) [mkReply id None] s.
Definition token_update_subscriber (id : Z) (contract_addresses : list Felt) (token_ids : list U256) (s : State TokenSubscriber (Reply PToken)) :=
  Manager.update_subscriber id (token_subscriber contract_addresses token_ids) s.
Definition process_token (t : Token) (s : State TokenSubscriber (Reply PToken)) :=
  Manager.process_update token_wants token_response buffer t s.

Record TokenBalanceSubscriber : Type := mkTokenBalanceSubscriber {
  tbs_contract_addresses : gset Felt; tbs_account_addresses : gset Felt; tbs_token_ids : gset U256
}.
Definition balance_wants (sub : TokenBalanceSubscriber) (b : TokenBalance) : outcome ProtoError bool :=
  Ok (negb (set_excludes (tbs_contract_addresses sub) (balance_contract_address b))
      && negb (set_excludes (tbs_account_addresses sub) (balance_account_address b))
      && negb (set_excludes_id (tbs_token_ids sub) (Msg.balance_token_id b))).
Definition balance_response (idx : Z) (b : TokenBalance) : outcome ProtoError (Reply PTokenBalance) :=
  Ok (mkReply idx (Some (balance_into b))).
Definition balance_subscriber (contract_addresses account_addresses : list Felt) (token_ids : list U256) : TokenBalanceSubscriber :=
  mkTokenBalanceSubscriber (list_to_set contract_addresses) (list_to_set account_addresses) (list_to_set token_ids).
Definition balance_add_subscriber (id : Z) (contract_addresses account_addresses : list Felt) (token_ids : list U256)
    (s : State TokenBalanceSubscriber (Reply PTokenBalance)) :=
  Manager.add_subscriber buffer id (balance_subscriber contract_addresses account_addresses token_ids) [mkReply id None] s.
Definition balance_update_subscriber (id : Z) (contract_addresses account_addresses : list Felt) (token_ids : list U256)
    (s : State TokenBalanceSubscriber (Reply PTokenBalance)) :=
  Manager.update_subscriber id (balance_subscriber contract_addresses account_addresses token_ids) s.
Definition process_balance (b : TokenBalance) (s : State TokenBalanceSubscriber (Reply PTokenBalance)) :=
  Manager.process_update balance_wants balance_response buffer b s.

Record TokenTransferSubscriber : Type := mkTokenTransferSubscriber {
  tts_contract_addresses : gset Felt; tts_account_addresses : gset Felt; tts_token_ids : gset U256
}.
Definition transfer_wants (sub : TokenTransferSubscriber) (t : TokenTransfer) : outcome ProtoError bool :=
  Ok (negb (set_excludes (tts_contract_addresses sub) (transfer_contract_address t))
      && negb (set_excludes (tts_account_addresses sub) (transfer_from_address t)
               && bool_decide (transfer_to_address t ∉ tts_account_addresses sub))
      && negb (set_excludes_id (tts_token_ids sub) (transfer_token_id t))).
Definition transfer_response (idx : Z) (t : TokenTransfer) : outcome ProtoError (Reply PTokenTransfer) :=
  Ok (mkReply idx (Some (transfer_into t))).
Definition transfer_subscriber (contract_addresses account_addresses : list Felt) (token_ids : list U256) : TokenTransferSubscriber :=
  mkTokenTransferSubscriber (list_to_set contract_addresses) (list_to_set account_addresses) (list_to_set token_ids).
Definition transfer_add_subscriber (id : Z) (contract_addresses account_addresses : list Felt) (token_ids : list U256)
    (s : State TokenTransferSubscriber (Reply PTokenTransfer)) :=
  Manager.add_subscriber buffer id (transfer_subscriber contract_addresses account_addresses token_ids) [mkReply id None] s.
Definition transfer_update_subscriber (id : Z) (contract_addresses account_addresses : list Felt) (token_ids : list U256)
    (s : State TokenTransferSubscriber (Reply PTokenTransfer)) :=
  Manager.update_subscriber id (transfer_subscriber contract_addresses account_addresses token_ids) s.
Definition process_transfer (t : TokenTransfer) (s : State TokenTransferSubscriber (Reply PTokenTransfer)) :=
  Manager.process_update transfer_wants transfer_response buffer t s.

(** ** Transactions *)

(** [for x in l { if !set.contains(x) { continue; } }]: the [continue] is that of the
    inner loop *)
Fixpoint continue_loop {A B} `{EqDecision B} (field : A → B) (wanted : list B) (l : list A) : unit :=
  match l with
  | [] => tt
  | x :: l => if bool_decide (field x ∉ wanted) then continue_loop field wanted l else continue_loop field wanted l
  end.
Definition transaction_wants (filter : option TransactionFilter) (t : Transaction) : outcome ProtoError bool :=
  match filter with
  | None => Ok true
  | Some f =>
      if excludes (tx_filter_transaction_hashes f) (tx_transaction_hash t) then Ok false else
      let 'tt := match tx_filter_caller_addresses f with
                 | [] => tt | l => continue_loop call_caller_address l (tx_calls t) end in
      let 'tt := match tx_filter_contract_addresses f with
                 | [] => tt | l => continue_loop call_contract_address l (tx_calls t) end in
      let 'tt := match tx_filter_entrypoints f with
                 | [] => tt | l => continue_loop call_entrypoint l (tx_calls t) end in
      let 'tt := match tx_filter_model_selectors f with
                 | [] => tt | l => continue_loop (λ m : Felt, m) l (tx_unique_models t) end in
      if match tx_filter_from_block f with Some b => tx_block_number t <? b | None => false end then Ok false
      else if match tx_filter_to_block f with Some b => b <? tx_block_number t | None => false end then Ok false
      else Ok true
  end.
Definition transaction_response (_ : Z) (t : Transaction) : outcome ProtoError (option PTransaction) := Ok (Some (tx_into t)).
Definition transaction_add_subscriber (id : Z) (filter : option TransactionFilter)
    (s : State (option TransactionFilter) (option PTransaction)) :=
  Manager.add_subscriber buffer id filter [None] s.
Definition process_transaction (t : Transaction) (s : State (option TransactionFilter) (option PTransaction)) :=
  Manager.process_update transaction_wants transaction_response buffer t s.

(** ** Activities, aggregations and achievements *)
Definition in_filter {A} `{EqDecision A} (l : list A) (x : A) : bool := match l with [] => true | _ => bool_decide (x ∈ l) end.
Definition none {A} (l : list A) : bool := match l with [] => true | _ => false end.

Record ActivityFilter : Type := mkActivityFilter {
  af_world_addresses : list Felt; af_namespaces : list string; af_caller_addresses : list Felt
}.
Definition activity_matches (f : ActivityFilter) (a : Activity) : bool :=
  if none (af_world_addresses f) && none (af_namespaces f) && none (af_caller_addresses f) then true
  else in_filter (af_world_addresses f) (activity_world_address a) && in_filter (af_namespaces f) (activity_namespace a)
       && in_filter (af_caller_addresses f) (activity_caller_address a).
Definition activity_wants (f : ActivityFilter) (a : Activity) : outcome ProtoError bool := Ok (activity_matches f a).
Definition activity_response (idx : Z) (a : Activity) : outcome ProtoError (Reply PActivity) := Ok (mkReply idx (Some (activity_into a))).
Definition activity_add_subscriber (id : Z) (filter : ActivityFilter) (s : State ActivityFilter (Reply PActivity)) :=
  Manager.add_subscriber buffer id filter [mkReply id None] s.
Definition activity_update_subscriber (id : Z) (filter : ActivityFilter) (s : State ActivityFilter (Reply PActivity)) :=
  Manager.update_subscriber id filter s.
Definition process_activity_update (a : Activity) (s : State ActivityFilter (Reply PActivity)) :=
  Manager.process_update activity_wants activity_response buffer a s.

Record AggregationFilter : Type := mkAggregationFilter { agf_aggregator_ids : list string; agf_entity_ids : list string }.
Definition aggregation_matches (f : AggregationFilter) (e : Msg.AggregationEntry) : bool :=
  if none (agf_aggregator_ids f) && none (agf_entity_ids f) then true
  else in_filter (agf_aggregator_ids f) (aggregation_aggregator_id e) && in_filter (agf_entity_ids f) (aggregation_entity_id e).
Definition aggregation_wants (f : AggregationFilter) (e : Msg.AggregationEntry) : outcome ProtoError bool := Ok (aggregation_matches f e).
Definition aggregation_response (idx : Z) (e : Msg.AggregationEntry) : outcome ProtoError (Reply PAggregationEntry) :=
  Ok (mkReply idx (Some (aggregation_into e))).
Definition aggregation_add_subscriber (id : Z) (filter : AggregationFilter) (s : State AggregationFilter (Reply PAggregationEntry)) :=
  Manager.add_subscriber buffer id filter [mkReply id None] s.
Definition aggregation_update_subscriber (id : Z) (filter : AggregationFilter) (s : State AggregationFilter (Reply PAggregationEntry)) :=
  Manager.update_subscriber id filter s.
Definition process_aggregation_update (e : Msg.AggregationEntry) (s : State AggregationFilter (Reply PAggregationEntry)) :=
  Manager.process_update aggregation_wants aggregation_response buffer e s.

Record AchievementProgressionFilter : Type := mkProgressionFilter {
  apf_world_addresses : list Felt; apf_namespaces : list string; apf_player_addresses : list Felt;
  apf_achievement_ids : list string
}.
(** [s.contains(t)] on text *)
Definition str_contains (s t : string) : bool := match String.index 0 t s with Some _ => true | None => false end.
Definition progression_matches (f : AchievementProgressionFilter) (p : AchievementProgression) : bool :=
  if none (apf_world_addresses f) && none (apf_namespaces f) && none (apf_player_addresses f) && none (apf_achievement_ids f)
  then true
  else
    in_filter (apf_world_addresses f) (progression_world_address p) && in_filter (apf_namespaces f) (progression_namespace p)
    && in_filter (apf_player_addresses f) (progression_player_id p)
    && (none (apf_achievement_ids f) || existsb (str_contains (progression_id p)) (apf_achievement_ids f)).
Definition progression_wants (f : AchievementProgressionFilter) (p : AchievementProgression) : outcome ProtoError bool :=
  Ok (progression_matches f p).
Definition progression_response (idx : Z) (p : AchievementProgression) : outcome ProtoError (Reply PAchievementProgression) :=
  Ok (mkReply idx (Some (progression_into p))).
Definition progression_add_subscriber (id : Z) (filter : AchievementProgressionFilter)
    (s : State AchievementProgressionFilter (Reply PAchievementProgression)) :=
  Manager.add_subscriber buffer id filter [mkReply id None] s.
Definition progression_update_subscriber (id : Z) (filter : AchievementProgressionFilter)
    (s : State AchievementProgressionFilter (Reply PAchievementProgression)) :=
  Manager.update_subscriber id filter s.
Definition process_progression_update (p : AchievementProgression)
    (s : State AchievementProgressionFilter (Reply PAchievementProgression)) :=
  Manager.process_update progression_wants progression_response buffer p s.

(** ** What a subscriber to entities gets *)
Definition in_worlds (worlds : list Felt) (w : Felt) : Prop := worlds = [] ∨ w ∈ worlds.
Definition entity_selected (sub : EntitiesSubscriber) (e : Wire.EntityWithMetadata) : Prop :=
  ∀ c, es_clause sub = Some c →
    in_worlds (es_world_addresses sub) (entity_world_address (ewm_entity e)) ∧
    (selected (hashed_keys (ewm_entity e)) (ewm_keys e) (ewm_match_model e) c ∨
     selected (hashed_keys (ewm_entity e)) (ewm_keys e) (first_model (ewm_entity e)) c).

Lemma excludes_false {A} `{EqDecision A} (l : list A) (x : A) : excludes l x = false ↔ l = [] ∨ x ∈ l.
Proof.
  unfold excludes. destruct l as [|y l]; [naive_solver|]. rewrite bool_decide_eq_false. split; [|naive_solver].
  intros Hn. right. by apply dec_stable.
Qed.

(** A subscriber to entities wants an update exactly when its worlds have the entity
    and its clause selects it as it is now or as it was before the update: by its hashed
    keys, by the pattern of its keys and the names of its models, by comparing the value
    at the path of a member, or by every or some of the parts of a composite clause,
    however deep; and the test never panics when no path uses the syntax of an index.
    Without a clause every update is wanted, the worlds notwithstanding. *)
Theorem entity_wants_exact (sub : EntitiesSubscriber) (e : Wire.EntityWithMetadata) :
  (∀ c, es_clause sub = Some c → plain_paths c) →
  (entity_wants sub e = Ok true ↔ entity_selected sub e) ∧ is_ok (entity_wants sub e) = true.
Proof.
  unfold entity_wants, entity_selected. destruct (es_clause sub) as [c|]; intros Hp; [|naive_solver].
  specialize (Hp c eq_refl). destruct (excludes _ _) eqn:Hx.
  - split; [|done]. split; [done|]. intros Hs. destruct (Hs c eq_refl) as [Hw _]. apply excludes_false in Hw. congruence.
  - apply excludes_false in Hx.
    destruct (match_entity_exact (hashed_keys (ewm_entity e)) (ewm_keys e) (ewm_match_model e) c Hp) as [Ho Hok1].
    destruct (match_entity_exact (hashed_keys (ewm_entity e)) (ewm_keys e) (first_model (ewm_entity e)) c Hp) as [Hn Hok2].
    destruct (match_entity _ _ (ewm_match_model e) c) as [b1| |]; [|done..]. cbn [outcome_bind].
    destruct (match_entity _ _ (first_model (ewm_entity e)) c) as [b2| |]; [|done..]. cbn [outcome_bind]. split; [|done].
    transitivity (b1 || b2 = true); [split; [intros Hb; by injection Hb|by intros ->]|]. rewrite orb_true_iff.
    assert (∀ b, Ok (E := ProtoError) b = Ok true ↔ b = true) as Hb by (split; [intros Hb; by injection Hb|by intros ->]).
    rewrite Hb in Ho, Hn. unfold in_worlds. rewrite Ho, Hn. naive_solver.
Qed.

(** ** Where the code does less than it says *)

(** Of the filter of transactions only the hashes and the blocks have an effect. *)
Lemma transaction_filter_ignored (f g : TransactionFilter) (t : Transaction) :
  tx_filter_transaction_hashes f = tx_filter_transaction_hashes g →
  tx_filter_from_block f = tx_filter_from_block g → tx_filter_to_block f = tx_filter_to_block g →
  transaction_wants (Some f) t = transaction_wants (Some g) t.
Proof.
  intros Hh Hf Ht. unfold transaction_wants. rewrite Hh, Hf, Ht. destruct (excludes _ _); [done|].
  repeat match goal with |- context [match ?u with tt => _ end] => destruct u end. done.
Qed.

(** An update whose response cannot be made ends the service, for every subscriber. *)
Lemma loop_panics {A S} (f : A → st S ProtoError unit) l s x :
  x ∈ l → (∀ s, (f x s).1 = Panic) → (for_each f l s).1 ≠ Ok tt.
Proof.
  intros Hx Hf. revert s. induction Hx as [x l|x y l _ IH]; intros s; cbn; unfold st_bind.
  - specialize (Hf s). destruct (f x s) as [[]]; by simplify_eq/=.
  - destruct (f y s) as [[]]; [apply IH, Hf|done..].
Qed.
Lemma fixed_array_ends_service (id : Z) (c : nat) (worlds : list Felt) (e : Wire.EntityWithMetadata)
    (s : State EntitiesSubscriber (Reply PEntity)) :
  Manager.subscribers s !! id = Some (mkEntitiesSubscriber None worlds, c) →
  existsb (λ m : string * list (string * DTy * bool), existsb (λ x, has_fixed_array x.1.2) m.2) (entity_models (ewm_entity e)) = true →
  Manager.service_alive (process_entity_update e s) = false.
Proof.
  intros Hs Hf. unfold process_entity_update, Manager.process_update.
  assert (entity_into (ewm_entity e) = Panic) as Hp.
  { unfold entity_into. enough (outcome_mapM struct_into (entity_models (ewm_entity e)) = Panic) as -> by done.
    pose proof (mapM_panics struct_into (λ m, existsb (λ x : string * DTy * bool, has_fixed_array x.1.2) m.2)
      (entity_models (ewm_entity e))) as Hm. unfold panics_iff in Hm at 2. rewrite Hf in Hm. apply Hm.
    apply Forall_true. intros [n ms].
    apply (bind_panics (λ m : string * list (string * DTy * bool), outcome_mapM (member_into ty_into) m.2) (pair n) (n, ms)).
    apply (mapM_panics (member_into ty_into) (λ x : string * DTy * bool, has_fixed_array x.1.2) ms), Forall_true.
    intros [[x t] k]. apply (bind_panics (λ m : string * DTy * bool, ty_into m.1.2) (λ t', (x, Some t', k)) (x, t, k)).
    apply ty_into_panics. }
  pose proof (loop_panics (Manager.deliver entity_wants entity_response buffer e) (hm_iter (Manager.subscribers s))
    (Manager.channels s, []) (id, (mkEntitiesSubscriber None worlds, c))) as Hl.
  destruct (for_each _ _ _) as [[[]| |] [chs cl]]; [|done..]. exfalso. apply Hl; [by apply elem_of_hm_iter| |done].
  intros [chs' cl']. cbn. unfold st_bind, st_lift, entity_response. cbn. by rewrite Hp.
Qed.
End kinds.

(** ** Examples *)
Definition demo_balance (account amount : Z) : TokenBalance := mkTokenBalance amount account 1 None.
(** Another subscriber lets its channel fill; this one, of account 5, reads in time. *)
#[local] Abbreviation BalanceStep := (Manager.Step (Filter := TokenBalanceSubscriber) (Item := TokenBalance) (Resp := Reply PTokenBalance)).
Definition demo_pre : list BalanceStep :=
  [Manager.Add 1 (balance_subscriber [] [] []) [mkReply 1 None]].
Definition demo_post : list BalanceStep :=
  [Manager.Recv 1; Manager.Process (demo_balance 5 10); Manager.Process (demo_balance 6 20); Manager.Recv 1;
   Manager.Process (demo_balance 5 30); Manager.Prune].


Definition demo_service : Service.Feed (Filter := TokenBalanceSubscriber) (Item := TokenBalance) (Resp := Reply PTokenBalance) :=
  Service.mkFeed {[ 0%nat := [] ]} [] Manager.new.
Definition demo_actions : list (Service.Action (Filter := TokenBalanceSubscriber) (Item := TokenBalance) (Resp := Reply PTokenBalance)) :=
  [Service.Publish (Broker.mkUpdate (demo_balance 5 10) true); Service.Publish (Broker.mkUpdate (demo_balance 5 11) false);
   Service.Poll; Service.Publish (Broker.mkUpdate (demo_balance 5 12) false)].

Definition demo_subscriber : EntitiesSubscriber := mkEntitiesSubscriber (Some demo_clause) [7].
Definition demo_update : Wire.EntityWithMetadata :=
  Wire.mkEntityWithMetadata (mkEntity 7 1 [("ns-Player", [("id", TyPrimitive (PrimU32 (Some 7) : Primitive), true);
    ("pos", TyStruct "Vec" [("x", TyPrimitive (PrimU32 (Some 3) : Primitive), false)], false)])] 0 0 0) "id" [5; 2; 9] false None.
Lemma entity_wants_exact_witness :
  entity_wants (H1 := demo_values) demo_subscriber demo_update = Ok true ∧
  entity_selected (H1 := demo_values) demo_subscriber demo_update.
Proof.
  assert (entity_wants (H1 := demo_values) demo_subscriber demo_update = Ok true) as Hw by (vm_compute; reflexivity).
  split; [exact Hw|]. apply (entity_wants_exact (H1 := demo_values)); [|exact Hw].
  intros c Hc. injection Hc as <-. repeat constructor.
Defined.
End Kinds.
