(* ===== verification/World.v ===== *)
(** * What the processors share ([crates/processors/src/lib.rs], [error.rs])

    A processor acts on a [World]: the storage, the in-memory cache, the cache of
    contract classes, and the requests already made to the outside (the node,
    HTTP and IPFS servers), on which the answer to the next one may depend.

    [ProcessorStorage] is the part of the [Storage] trait the processors call.
    [storage.model(..)] looks in the cache first, as the storage of the indexer
    is built with the cache the processors use. *)

From S2P Require Import Prelude Math Proto EventProcessor Cache Database.
Local Open Scope Z_scope.
Local Open Scope torii_scope.

(** ** Requests *)
Record FunctionCall : Type := mkFunctionCall {
  fc_contract_address : Felt;
  fc_entry_point : string;
  fc_calldata : list Felt
}.
Inductive request : Type :=
| ReqCall (c : FunctionCall)
| ReqBatch (cs : list FunctionCall)
| ReqHttp (url : string)
| ReqIpfs (cid : string)
| ReqModel (what : string) (world_address address class_hash : Felt) (namespace name : string)
    (at_block : option Z)
| ReqLookup (address : string)
| ReqClass (contract_address : Felt) (block : Cache.BlockId).

(** ** Errors *)
Inductive ParseError : Type := ParseCairoShortString | FromUtf8 | FromJsonStr | Utf8Error | ParseCairoSerde.
Inductive HttpError : Type := StatusCode | Reqwest.
Inductive TokenMetadataError : Type :=
| MetadataParse (e : ParseError)
| MetadataIpfs
| MetadataDataUrl
| InvalidBase64
| InvalidMimeType (mime : string)
| UnsupportedUriScheme (uri : string)
| MetadataHttp (e : HttpError).
Inductive ControllerProcessorError : Type :=
| CalldataLenMismatch
| CartridgeMagicLengthMismatch
| CartridgeMagicMismatch
| InvalidCartridgeEncoding
| FetchMetadataError.
Inductive ProcessorError : Type :=
| StorageFailed (e : StorageError)
| ModelError
| PrimitiveError
| ModelNotFound (selector : Felt)
| ModelMemberNotFound (member_selector : Felt)
| UriMalformed
| IpfsError
| ProcParseError (e : ParseError)
| CairoSerdeError
| JoinError
| ControllerError (e : ControllerProcessorError)
| TokenMetadata (e : TokenMetadataError)
| CacheFailed (e : Cache.Error).

(** ** The storage *)
Class ProcessorStorage `{DojoTypes} (S : Type) : Type := {
  (** [SELECT * FROM models WHERE id = ?] *)
  model_row : S → Felt → Felt → outcome StorageError (option Model);
  register_model : Felt → Felt → Ty → Layout → Felt → Felt → Z → Z → Z → option Ty → option Ty → bool →
    st S StorageError unit;
  register_contract : Felt → ContractType → Z → st S StorageError unit;
  set_entity : Felt → Ty → string → Z → Felt → Felt → option (list Felt) → st S StorageError unit;
  set_event_message : Felt → Ty → string → Z → list Felt → st S StorageError unit;
  delete_entity : Felt → Felt → Felt → Ty → string → Z → st S StorageError unit;
  set_metadata : Felt → string → Z → st S StorageError unit;
  update_metadata : Felt → string → WorldMetadata → option string → option string → st S StorageError unit;
  add_controller : string → string → Z → st S StorageError unit;
  register_token_contract : Felt → string → string → Z → option string → st S StorageError unit;
  register_nft_token : Felt → U256 → string → st S StorageError unit;
  update_token_metadata : TokenId → string → st S StorageError unit;
  store_token_transfer : TokenId → Felt → Felt → U256 → Z → string → st S StorageError unit;
  store_transaction : Felt → Felt → list Felt → Felt → list Felt → Felt → Z → gset Felt → string → Z →
    list TransactionCall → gset Felt → st S StorageError unit
}.

(** ** The world *)
Section world.
Context `{DojoTypes} {DM : DashMap}.
Context (S : Type).

Record World : Type := mkWorld {
  storage : S;
  cache : Cache.InMemoryCache;
  class_cache : Cache.classes;
  requests : list request
}.
End world.
Arguments mkWorld {_ _ S}.
Arguments storage {_ _ S}.
Arguments cache {_ _ S}.
Arguments class_cache {_ _ S}.
Arguments requests {_ _ S}.

Section calls.
Context `{DojoTypes} {DM : DashMap} {U : U256Ops} {HO : HashOrder} {S : Type}.
#[local] Abbreviation world := (World S).
#[local] Abbreviation proc A := (st (World S) ProcessorError A).

Definition set_storage s (w : world) : world := mkWorld s (cache w) (class_cache w) (requests w).
Definition set_cache c (w : world) : world := mkWorld (storage w) c (class_cache w) (requests w).
Definition set_class_cache cs (w : world) : world := mkWorld (storage w) (cache w) cs (requests w).
Definition set_requests rs (w : world) : world := mkWorld (storage w) (cache w) (class_cache w) rs.

(** [ctx.storage.f(..).await?], calls on the cache, requests to the outside *)
Definition with_storage {A} (m : st S StorageError A) : proc A :=
  st_map_err StorageFailed (st_zoom storage set_storage m).
Definition with_cache (f : Cache.InMemoryCache → Cache.InMemoryCache) : proc unit :=
  st_modify (λ w, set_cache (f (cache w)) w).
Definition with_requests {E A} (f : E → ProcessorError) (m : st (list request) E A) : proc A :=
  st_map_err f (st_zoom requests set_requests m).

(** [ctx.cache.update_balance_diff(..)], which panics on overflow *)
Definition cache_update_balance_diff (t : TokenId) (from to : Felt) (value : U256) : proc unit := λ w,
  match Cache.update_balance_diff t from to value (cache w) with
  | Some c => (Ok tt, set_cache c w)
  | None => (Panic, w)
  end.

(** [get_token_registration_lock] *)
Definition cache_lock (t : TokenId) : proc (option nat) := λ w,
  let '(l, c) := Cache.get_token_registration_lock t (cache w) in (Ok l, set_cache c w).

Context `{!ProcessorStorage S}.

(** [storage.model(world_address, selector)] *)
Definition storage_model (world_address sel : Felt) : st world StorageError Model := λ w,
  match Cache.model world_address sel (Cache.im_model_cache (cache w)) with
  | Ok m => (Ok m, w)
  | _ =>
      match model_row (storage w) world_address sel with
      | Ok None => (Err (StorageModelNotFound world_address sel), w)
      | Ok (Some m) => (Ok m, set_cache (Cache.register_model world_address sel m (cache w)) w)
      | Err e => (Err e, w)
      | Panic => (Panic, w)
      end
  end.

Definition resolve_model_or_skip (ctx : EventProcessorContext) (sel : Felt) : proc (option Model) := λ w,
  let '(r, w') := storage_model (ctx_contract_address ctx) sel w in
  (match r with
   | Ok m => Ok (Some m)
   | Err (StorageModelNotFound _ _) =>
       if negb (set_is_empty (namespaces (ctx_config ctx))) then Ok None else Err (ModelNotFound sel)
   | Err e => Err (StorageFailed e)
   | Panic => Panic
   end, w').
End calls.

(** ** The promise of the storage

    Every operation moves the storage along [R] only, whatever its outcome. *)
Class ProcessorStorageSpec `{DojoTypes} (S : Type) `{!ProcessorStorage S} (R : relation S) : Prop := {
  register_model_spec a b c d e f g h i j k l : keeps R (register_model a b c d e f g h i j k l);
  register_contract_spec a b c : keeps R (register_contract a b c);
  set_entity_spec a b c d e f g : keeps R (set_entity a b c d e f g);
  set_event_message_spec a b c d e : keeps R (set_event_message a b c d e);
  delete_entity_spec a b c d e f : keeps R (delete_entity a b c d e f);
  set_metadata_spec a b c : keeps R (set_metadata a b c);
  update_metadata_spec a b c d e : keeps R (update_metadata a b c d e);
  add_controller_spec a b c : keeps R (add_controller a b c);
  register_token_contract_spec a b c d e : keeps R (register_token_contract a b c d e);
  register_nft_token_spec a b c : keeps R (register_nft_token a b c);
  update_token_metadata_spec a b : keeps R (update_token_metadata a b);
  store_token_transfer_spec a b c d e f : keeps R (store_token_transfer a b c d e f);
  store_transaction_spec a b c d e f g h i j k l : keeps R (store_transaction a b c d e f g h i j k l)
}.

(** ** A storage that counts

    The simplest implementation: it has no models and counts the writes. It runs
    the witnesses. *)
Section counting.
Context `{DojoTypes}.
Definition counted : st nat StorageError unit := λ n, (Ok tt, S n).
Definition counting_storage : ProcessorStorage nat := {|
  model_row _ _ _ := Ok None;
  register_model _ _ _ _ _ _ _ _ _ _ _ _ := counted;
  register_contract _ _ _ := counted;
  set_entity _ _ _ _ _ _ _ := counted;
  set_event_message _ _ _ _ _ := counted;
  delete_entity _ _ _ _ _ _ := counted;
  set_metadata _ _ _ := counted;
  update_metadata _ _ _ _ _ := counted;
  add_controller _ _ _ := counted;
  register_token_contract _ _ _ _ _ := counted;
  register_nft_token _ _ _ := counted;
  update_token_metadata _ _ := counted;
  store_token_transfer _ _ _ _ _ _ := counted;
  store_transaction _ _ _ _ _ _ _ _ _ _ _ _ := counted
|}.
End counting.
