(* ===== verification/Controllers.v ===== *)
(** * Synchronisation of controllers ([crates/controllers/src/sync.rs])

    The indexer copies the controllers the Cartridge API knows into the storage,
    in the background. [ControllersSync] remembers when the last one it stored was
    created, and asks for those created after. The API, its text formats and
    [Felt::from_str] are parameters; the history of the queries sent is part of
    the state, since the answer to the next one may depend on it. *)

From S2P Require Import Prelude Proto Cache Database SqlString World ModelTable.
Local Open Scope Z_scope.
Local Open Scope torii_scope.

(** A controller as the API gives it. *)
Record ApiController : Type := mkApiController {
  ac_username : string;
  ac_address : string;
  ac_created_at : Z
}.
(** A response: its status, [text().await], [json().await]. *)
Record ApiResponse : Type := mkApiResponse {
  is_success : bool;
  response_text : option string;
  response_json : option (list ApiController)
}.
Class ControllersApi : Type := {
  (** the answer to a query, [None] when it cannot be sent *)
  api_post : list string → string → option ApiResponse;
  to_rfc3339 : Z → string;
  felt_from_str : string → option Felt
}.

Inductive SyncError : Type := ApiReqwest | ApiError (text : string) | SyncStorage (e : StorageError).

Module Controllers.

Section operations.
Context `{DojoTypes} {API : ControllersApi} {S : Type} `{!ProcessorStorage S}.

Record ControllersSync : Type := mkSync { sync_storage : S; cursor : option Z; queries : list string }.
Definition set_sync_storage s (c : ControllersSync) : ControllersSync := mkSync s (cursor c) (queries c).
Definition set_cursor t (c : ControllersSync) : ControllersSync := mkSync (sync_storage c) t (queries c).
#[local] Abbreviation run A := (st ControllersSync SyncError A).

(** [new]: [newest] is the answer of [storage.controllers(..)] to the query for
    one row in descending order of [deployed_at], as the times of its items. *)
Definition new (newest : S → outcome StorageError (list Z)) (s : S) : outcome SyncError ControllersSync :=
  let? items := map_err SyncStorage (newest s) in Ok (mkSync s (hd_error items) []).

Definition newline : string := String (Ascii.ascii_of_nat 10) EmptyString.
Definition lines (l : list string) : string := SqlString.join newline l.

(** The query: an absent cursor is the start of the epoch. *)
Definition query_of (c : option Z) : string := lines [
  EmptyString;
  "        query {";
  "          controllers(where:{";
  "            createdAtGT:" +:+ ModelTable.quoted (to_rfc3339 (default 0 c));
  "          }, orderBy:{";
  "            field:CREATED_AT,";
  "            direction:ASC";
  "          }) {";
  "            edges {";
  "              node {";
  "                address";
  "                createdAt";
  "                account {";
  "                  username";
  "                }";
  "              }";
  "            }";
  "          }";
  "        }"].

Definition post (query : string) : run (option ApiResponse) := λ c,
  (Ok (api_post (queries c) query), mkSync (sync_storage c) (cursor c) (queries c ++ [query])).

(** The loop over the attempts, [retries] of them left after this one. *)
Fixpoint post_loop (retries : nat) (query : string) : run ApiResponse :=
  let! result := post query in
  match result with
  | Some resp =>
      if is_success resp then st_ret resp
      else
        let! text := st_lift (ok_or ApiReqwest (response_text resp)) in
        match retries with
        | Datatypes.S retries => post_loop retries query
        | O => st_throw (ApiError text)
        end
  | None =>
      match retries with
      | Datatypes.S retries => post_loop retries query
      | O => st_throw ApiReqwest
      end
  end.

Definition fetch_controllers : run (list ApiController) :=
  let! c := st_get in
  let! response := post_loop 2 (query_of (cursor c)) in
  st_lift (ok_or ApiReqwest (response_json response)).

(** [format!("{:#066x}", felt_addr)] *)
Definition padded_address (a : Felt) : string := SqlString.format_hex 66 a.

Definition store_controller (c : ApiController) : run unit :=
  let! felt_addr := st_lift (unwrap (felt_from_str (ac_address c))) in
  st_map_err SyncStorage (st_zoom sync_storage set_sync_storage
    (add_controller (ac_username c) (padded_address felt_addr) (ac_created_at c))) ;;;
  st_modify (set_cursor (Some (ac_created_at c))).

Definition sync : run nat :=
  let! controllers := fetch_controllers in
  for_each store_controller controllers ;;;
  st_ret (length controllers).
End operations.

(** ** What a run does to the storage *)
Section lemmas.
Context `{DojoTypes} {API : ControllersApi} {S : Type} `{!ProcessorStorage S}.
#[local] Abbreviation sync_state := (@ControllersSync S).

(** One controller written, whatever the outcome. *)
Definition adds (s s' : S) : Prop := ∃ username address t, s' = (add_controller username address t s).2.
Definition adds_all (c c' : sync_state) : Prop := rtc adds (sync_storage c) (sync_storage c').
#[local] Instance adds_all_preorder : PreOrder adds_all.
Proof. split; unfold adds_all; [by intros c|intros c1 c2 c3 ? ?; by etrans]. Qed.

Lemma post_loop_frame n q : ∀ c : sync_state,
  sync_storage (post_loop n q c).2 = sync_storage c ∧ cursor (post_loop n q c).2 = cursor c.
Proof.
  induction n as [|n IH]; intros c; simpl; unfold st_bind; simpl;
    (destruct (api_post (queries c) q) as [r|]; [destruct (is_success r); [done|]; unfold st_lift;
      destruct (response_text r); simpl; [|done]|]); try done;
    match goal with |- context [post_loop n q ?c'] => exact (IH c') end.
Qed.
Lemma fetch_frame (c : sync_state) :
  sync_storage (fetch_controllers c).2 = sync_storage c ∧ cursor (fetch_controllers c).2 = cursor c.
Proof.
  unfold fetch_controllers, st_bind, st_get. pose proof (post_loop_frame 2 (query_of (cursor c)) c) as Hf.
  destruct (post_loop 2 _ c) as [[]]; exact Hf.
Qed.
Lemma keeps_post_loop n q : keeps adds_all (post_loop (S := S) n q).
Proof. intros c. unfold adds_all. by rewrite (proj1 (post_loop_frame n q c)). Qed.
#[local] Hint Resolve keeps_post_loop : torii.

(** Nothing but writes of controllers. *)
Lemma keeps_sync : keeps adds_all (sync (S := S)).
Proof.
  assert (∀ c, keeps adds_all (store_controller (S := S) c)) as Hstore.
  { intros c. unfold store_controller. keeps_step; [keeps_step|]. apply keeps_bind; [exact _| |intros _ s; unfold adds_all; reflexivity].
    intros s. unfold st_map_err, st_zoom, adds_all.
    match goal with |- context [add_controller ?u ?x ?t (sync_storage s)] =>
      pose proof (ex_intro _ u (ex_intro _ x (ex_intro _ t eq_refl))
        : adds (sync_storage s) (add_controller u x t (sync_storage s)).2) as Ha;
      destruct (add_controller u x t (sync_storage s)) end.
    by apply rtc_once. }
  unfold sync, fetch_controllers. keeps_solve.
Qed.
End lemmas.

(** ** Resuming *)
Section resume.
Context `{DojoTypes} {API : ControllersApi} {S : Type} `{!ProcessorStorage S}.
Context (all : list ApiController).
#[local] Abbreviation sync_state := (@ControllersSync S).

(** The controllers there are, in the order they were created, no two at the same
    time; the API answers with those created after the time it is given. *)
Definition ordered : Prop :=
  StronglySorted Z.lt (ac_created_at <$> all) ∧ Forall (λ x, 0 < ac_created_at x) all.
Definition after (t : option Z) : list ApiController := filter (λ x, default 0 t < ac_created_at x) all.
Definition faithful : Prop :=
  ∀ hist t r, api_post hist (query_of t) = Some r → is_success r = true → response_json r = Some (after t).
Definition addresses_parse : Prop := Forall (λ x, is_Some (felt_from_str (ac_address x))) all.

(** The first [k] are done. *)
Definition at_position (k : nat) (c : sync_state) : Prop := (k ≤ length all)%nat ∧ after (cursor c) = drop k all.

(** What the storage is asked for a controller. *)
Definition add (x : ApiController) : st S StorageError unit :=
  add_controller (ac_username x) (from_option padded_address EmptyString (felt_from_str (ac_address x)))
    (ac_created_at x).

Lemma after_none : ordered → after None = all.
Proof. intros [_ Hpos]. by apply filter_all. Qed.
Lemma after_some k x : ordered → all !! k = Some x → after (Some (ac_created_at x)) = drop (Datatypes.S k) all.
Proof.
  intros [Hs _] Hk. unfold after. rewrite <- (take_drop_middle all k x Hk) in Hs |- * at 1.
  rewrite fmap_app, fmap_cons in Hs. apply StronglySorted_app in Hs as (Hlt & _ & Hs).
  apply StronglySorted_inv in Hs as [_ Hgt]. rewrite filter_app, filter_cons_False by (simpl; lia).
  rewrite (filter_none _ (take k all)), (filter_all _ (drop _ all)); [done| |].
  - exact (proj1 (Forall_fmap _ _ _) Hgt).
  - apply Forall_forall. intros y Hy. simpl. apply Z.nlt_ge, Z.lt_le_incl, Hlt; [by apply list_elem_of_fmap_2|left].
Qed.

Lemma store_controller_add x (c : sync_state) : is_Some (felt_from_str (ac_address x)) →
  store_controller x c =
    match add x (sync_storage c) with
    | (Ok _, s) => (Ok tt, mkSync s (Some (ac_created_at x)) (queries c))
    | (Err e, s) => (Err (SyncStorage e), set_sync_storage s c)
    | (Panic, s) => (Panic, set_sync_storage s c)
    end.
Proof.
  intros [a Ha]. unfold store_controller, add, st_bind, st_lift. rewrite Ha. simpl. unfold st_map_err, st_zoom.
  by destruct (add_controller _ _ _ _) as [[[]|e|] s].
Qed.

Lemma loop_errors l : Forall (λ x, is_Some (felt_from_str (ac_address x))) l →
  ∀ (c : sync_state) e c', for_each store_controller l c = (Err e, c') → ∃ e', e = SyncStorage e'.
Proof.
  induction 1 as [|x l Hx _ IH]; intros c e c'; [done|]. cbn [for_each]. unfold st_bind.
  rewrite store_controller_add by done. destruct (add x (sync_storage c)) as [[[]|e'|] s]; [|naive_solver..]. apply IH.
Qed.

(** What a run that starts at position [k] can come to. *)
Definition resumed (k : nat) (c : sync_state) (r : outcome SyncError nat) (c' : sync_state) : Prop :=
  ∃ j, (k ≤ j)%nat ∧ at_position j c' ∧
    match r with
    | Ok n => j = length all ∧ n = (j - k)%nat ∧
        for_each add (drop k all) (sync_storage c) = (Ok tt, sync_storage c')
    | Err (SyncStorage e) => (j < length all)%nat ∧
        for_each add (take (Datatypes.S j - k) (drop k all)) (sync_storage c) = (Err e, sync_storage c')
    | Err _ => j = k ∧ sync_storage c' = sync_storage c
    | Panic => (j < length all)%nat ∧
        for_each add (take (Datatypes.S j - k) (drop k all)) (sync_storage c) = (Panic, sync_storage c')
    end.

Lemma loop_resumed : ordered → addresses_parse → ∀ l k (c : sync_state),
  drop k all = l → at_position k c →
  resumed k c (outcome_bind (for_each store_controller l c).1 (λ _, Ok (length l))) (for_each store_controller l c).2.
Proof.
  intros Hord Hparse. induction l as [|x l IH]; intros k c Hl Hpos.
  - exists k. split; [done|]. split; [done|]. simpl. destruct Hpos as [Hk _].
    assert (k = length all) as -> by (apply (f_equal length) in Hl; rewrite length_drop in Hl; simpl in Hl; lia).
    rewrite Hl, Nat.sub_diag. done.
  - assert (all !! k = Some x) as Hx by (rewrite <- (Nat.add_0_r k), <- lookup_drop, Hl; done).
    assert (drop (Datatypes.S k) all = l) as Hl' by (rewrite (drop_S _ x) in Hl by done; by injection Hl).
    pose proof (lookup_lt_Some _ _ _ Hx) as Hlt.
    assert (is_Some (felt_from_str (ac_address x))) as Hax by exact (Forall_lookup_1 _ _ _ _ Hparse Hx).
    cbn [for_each]. unfold st_bind. rewrite store_controller_add by done.
    destruct (add x (sync_storage c)) as [[[]|e|] s] eqn:Hadd.
    + set (c1 := mkSync s (Some (ac_created_at x)) (queries c)).
      assert (at_position (Datatypes.S k) c1) as Hpos1 by (split; [lia|by apply after_some]).
      destruct (IH (Datatypes.S k) c1 Hl' Hpos1) as (j & Hj & Hp & Hr). exists j. split; [lia|]. split; [done|].
      replace (Datatypes.S j - k)%nat with (Datatypes.S (Datatypes.S j - Datatypes.S k)) by lia.
      rewrite Hl. cbn [take for_each]. unfold st_bind. rewrite Hadd.
      rewrite Hl' in Hr. assert (Forall (λ x, is_Some (felt_from_str (ac_address x))) l) as Hpl.
      { rewrite <- Hl'. by apply Forall_drop. }
      pose proof (loop_errors l Hpl c1) as Herr.
      destruct (for_each store_controller l c1) as [[[]|e|] c'']; cbn in Hr |- *; [| |done].
      * destruct Hr as (-> & Hn & Hf). split; [done|]. split; [|done]. lia.
      * by destruct (Herr e c'' eq_refl) as [e' ->].
    + exists k. split; [done|]. split; [done|]. rewrite Hl.
      replace (Datatypes.S k - k)%nat with 1%nat by lia. cbn. unfold st_bind. by rewrite Hadd.
    + exists k. split; [done|]. split; [done|]. rewrite Hl.
      replace (Datatypes.S k - k)%nat with 1%nat by lia. cbn. unfold st_bind. by rewrite Hadd.
Qed.

Lemma post_loop_Ok n q : ∀ (c : sync_state) r c', post_loop n q c = (Ok r, c') →
  is_success r = true ∧ ∃ hist, api_post hist q = Some r.
Proof.
  induction n as [|n IH]; intros c r c'; cbn [post_loop]; unfold st_bind, post;
    (destruct (api_post (queries c) q) as [r1|] eqn:Hp;
       [destruct (is_success r1) eqn:Hs; [intros [= <- <-]; eauto|];
        unfold st_lift; destruct (response_text r1); cbn [ok_or]; [|done]|]); try done; apply IH.
Qed.
Lemma post_loop_errors n q : ∀ c : sync_state,
  match (post_loop n q c).1 with Err (SyncStorage _) | Panic => False | _ => True end.
Proof.
  induction n as [|n IH]; intros c; cbn [post_loop]; unfold st_bind, post;
    (destruct (api_post (queries c) q) as [r1|]; [destruct (is_success r1); [done|];
      unfold st_lift; destruct (response_text r1); cbn [ok_or]; [|done]|]); try done; apply IH.
Qed.
Lemma fetch_outcomes (c : sync_state) : faithful →
  match (fetch_controllers c).1 with
  | Ok l => l = after (cursor c)
  | Err (SyncStorage _) | Panic => False
  | Err _ => True
  end.
Proof.
  intros Hf. unfold fetch_controllers, st_bind, st_get.
  pose proof (post_loop_errors 2 (query_of (cursor c)) c) as He.
  pose proof (post_loop_Ok 2 (query_of (cursor c)) c) as Hok.
  destruct (post_loop 2 _ c) as [[r|[]|] c1]; try done.
  destruct (Hok r c1 eq_refl) as (Hs & hist & Hp). cbn. by rewrite (Hf _ _ _ Hp Hs).
Qed.

(** Synchronisation resumes where it stopped. If the API answers with the
    controllers created after the time it is asked for, then a run that starts
    after the first [k] of them stores the following ones in order: all of them,
    when it succeeds, and it returns their number; those before the one the
    storage refused, when it fails; none, when the API does not answer. It then
    stands after the last one stored, so that the next run starts with the one
    that failed: no controller is skipped and none is stored twice. *)
Theorem sync_resumes k (c : sync_state) :
  ordered → faithful → addresses_parse → at_position k c → resumed k c (sync c).1 (sync c).2.
Proof.
  intros Hord Hf Hparse Hpos. pose proof (fetch_outcomes c Hf) as Ho. pose proof (fetch_frame c) as [Hs Hc].
  unfold sync, st_bind. destruct (fetch_controllers c) as [[l|e|] c1]; cbn [fst snd] in *; [|destruct e; try done|done].
  - assert (at_position k c1) as Hpos1 by (unfold at_position; rewrite Hc; exact Hpos).
    assert (drop k all = l) as Hl by (rewrite Ho; symmetry; apply Hpos).
    pose proof (loop_resumed Hord Hparse l k c1 Hl Hpos1) as Hr. unfold resumed in *. rewrite Hs in Hr.
    by destruct (for_each store_controller l c1) as [[]].
  - exists k. unfold at_position. rewrite Hc. split; [done|]. by split; [exact Hpos|].
  - exists k. unfold at_position. rewrite Hc. split; [done|]. by split; [exact Hpos|].
Qed.
End resume.

(** The identifier of a controller here is not the one
    [ControllerProcessor] gives it ([format!("{:#064x}", ..)]): they differ for
    every address of fewer than 64 digits. *)
Lemma hex_digits_length fuel : ∀ (k : nat) n, 0 ≤ n < 16 ^ Z.of_nat (Datatypes.S k) →
  (length (hex_digits fuel n) ≤ Datatypes.S k)%nat.
Proof.
  induction fuel as [|fuel IH]; intros k n Hn; simpl; [lia|]. destruct (Z.ltb_spec n 16); simpl; [lia|].
  rewrite length_app. simpl. destruct k as [|k]; [simpl in Hn; lia|].
  enough (length (hex_digits fuel (n / 16)) ≤ Datatypes.S k)%nat by lia. apply IH.
  split; [apply Z.div_pos; lia|]. apply Z.div_lt_upper_bound; [lia|].
  rewrite (Nat2Z.inj_succ (Datatypes.S k)), Z.pow_succ_r in Hn by lia. lia.
Qed.
Lemma controller_ids_differ a : 0 ≤ a < 16 ^ 63 → padded_address a ≠ SqlString.format_hex 64 a.
Proof.
  intros Ha Heq. apply (f_equal String.length) in Heq. unfold padded_address, SqlString.format_hex in Heq.
  assert (∀ s, String.length ("0x" +:+ s) = (2 + String.length s)%nat) as Hx by done.
  rewrite !Hx, !SqlString.digits_string_length in Heq. unfold pad_digits in Heq.
  rewrite !length_app, !length_replicate in Heq. pose proof (hex_digits_length 64 62 a Ha) as Hl.
  change (hex_digits 64 a) with (digits_of a) in Hl. lia.
Qed.

(** ** Witnesses

    Two controllers, created at 5 and 7. Times are written with as many letters as
    there are controllers up to then, so the API can tell them from the length of
    the query. *)
Section witnesses.
Definition demo_all : list ApiController := [mkApiController "ada" "1" 5; mkApiController "bob" "2" 7].
Definition demo_time (t : Z) : string := if t <? 5 then "a" else if t <? 7 then "bb" else "ccc".
Definition demo_query_length : nat := 382.
#[local] Instance demo_api : ControllersApi := {|
  api_post _ q := Some (mkApiResponse true None (Some (drop (String.length q - demo_query_length) demo_all)));
  to_rfc3339 := demo_time;
  felt_from_str s := if String.eqb s "1" then Some 1 else Some 2
|}.
#[local] Instance demo_types : DojoTypes := {| Ty := unit; Layout := unit; WorldMetadata := unit |}.
#[local] Existing Instance counting_storage.

Lemma demo_faithful : faithful demo_all.
Proof.
  intros hist t r [= <-] _. cbn [response_json]. f_equal. unfold query_of, after.
  generalize (default 0 t). intros x. cbn [to_rfc3339 demo_api]. unfold demo_time, demo_all.
  rewrite !filter_cons, filter_nil. cbn [ac_created_at].
  destruct (Z.ltb_spec x 5); [|destruct (Z.ltb_spec x 7)].
  - rewrite !decide_True by lia. vm_compute. reflexivity.
  - rewrite decide_False, decide_True by lia. vm_compute. reflexivity.
  - rewrite !decide_False by lia. vm_compute. reflexivity.
Qed.

Lemma sync_resumes_witness :
  sync (mkSync 0%nat (Some 5) []) = (Ok 1%nat, mkSync 1%nat (Some 7) [query_of (Some 5)]) ∧
  resumed demo_all 1 (mkSync 0%nat (Some 5) []) (Ok 1%nat) (mkSync 1%nat (Some 7) [query_of (Some 5)]).
Proof.
  assert (sync (mkSync 0%nat (Some 5) []) = (Ok 1%nat, mkSync 1%nat (Some 7) [query_of (Some 5)])) as Hs
    by (vm_compute; reflexivity).
  split; [exact Hs|].
  pose proof (sync_resumes demo_all 1 (mkSync 0%nat (Some 5) [])) as Hr. rewrite Hs in Hr. apply Hr.
  - split; [|by repeat constructor]. repeat constructor.
  - apply demo_faithful.
  - repeat constructor; vm_compute; eauto.
  - split; vm_compute; [lia|reflexivity].
Defined.
End witnesses.
End Controllers.
