(* ===== verification/Erc.v ===== *)
(** * Token metadata and registration ([crates/processors/src/erc.rs], [fetch.rs])

    A token or a token contract is registered the first time it is seen: its
    name, symbol, decimals and metadata are asked of the node, of HTTP servers
    and of IPFS, with a bounded number of attempts. The answers are parameters
    ([MetadataEnv]) and may depend on all the requests made before. Text that the
    code goes through by characters is a list of Unicode scalar values. Delays
    between attempts are not timed; locks and semaphores order concurrent
    handlers and have no effect on the one that holds them. *)

From S2P Require Import Prelude Math Proto EventProcessor Cache SqlString Traits World.
Import Traits.
Local Open Scope Z_scope.
Local Open Scope torii_scope.

(** ** The outside *)
Inductive CallError : Type := EntrypointNotFound | ContractNotFound | OtherCallError.

(** [cainome_cairo_serde], [starknet::core::utils] *)
Class CairoSerde : Type := {
  ByteArray : Type;
  parse_cairo_short_string : Felt → option string;
  byte_array_deserialize : list Felt → option ByteArray;
  byte_array_to_string : ByteArray → option string;
  felts_deserialize : list Felt → option (list Felt);
  u8_deserialize : list Felt → option Z;
  (** [U256Cainome::cairo_deserialize(felts, offset)] and [U256::from_words]: two
      words, the low one first *)
  u256_deserialize : list Felt → nat → option U256;
  u256_deserialize_at l i :
    u256_deserialize l i =
      (low ← l !! i; high ← l !! S i;
       if (low <? 2 ^ 128) && (high <? 2 ^ 128) then Some (low + 2 ^ 128 * high) else None)
}.

Inductive DataUrl : Type := mkDataUrl (mime : string) (decoded : option (list Byte.byte)).

Class MetadataEnv : Type := {
  node_call : list request → FunctionCall → CallError + list Felt;
  (** each response is the result of a call, or of another kind *)
  node_batch : list request → list FunctionCall → CallError + list (option (list Felt));
  (** the response: its status is a success, and its body *)
  http_get : list request → string → option (bool * option (list Byte.byte));
  ipfs_cat : list request → string → option (list Byte.byte);
  data_url_process : string → option DataUrl;
  (** [String::from_utf8_lossy(bytes).chars()] *)
  utf8_lossy : list Byte.byte → list Z;
  json_from_slice : list Byte.byte → option json;
  json_from_chars : list Z → option json;
  json_from_string : string → option json;
  json_to_string : json → option string
}.

Module Erc.

(** ** Text *)

(** [s.replace(pat, by)]: matches from left to right, without overlap. [skip]
    counts the characters of a match still to be dropped. *)
Fixpoint replace_from (skip : nat) (pat by_ s : string) : string :=
  match s with
  | EmptyString => EmptyString
  | String c s' =>
      match skip with
      | S skip => replace_from skip pat by_ s'
      | O =>
          if String.prefix pat s then by_ +:+ replace_from (String.length pat - 1) pat by_ s'
          else String c (replace_from 0 pat by_ s')
      end
  end.
Definition str_replace (pat by_ s : string) : string := replace_from 0 pat by_ s.

Definition starts_with (pat s : string) : bool := String.prefix pat s.
(** [s.strip_prefix(pat)] *)
Definition strip_prefix (pat s : string) : option string :=
  if String.prefix pat s then Some (String.substring (String.length pat) (String.length s - String.length pat) s)
  else None.

(** [char::is_whitespace], [char::is_ascii_control] *)
Definition is_whitespace (c : Z) : bool :=
  ((9 <=? c) && (c <=? 13)) || (c =? 32) || (c =? 133) || (c =? 160) || (c =? 5760) ||
  ((8192 <=? c) && (c <=? 8202)) || (c =? 8232) || (c =? 8233) || (c =? 8239) || (c =? 8287) || (c =? 12288).
Definition is_ascii_control (c : Z) : bool := ((0 <=? c) && (c <=? 31)) || (c =? 127).

Definition c_quote : Z := 34.
Definition c_backslash : Z := 92.
Definition c_colon : Z := 58.
Definition c_comma : Z := 44.
Definition c_brace : Z := 125.

(** The first character that is not white space. *)
Fixpoint next_visible (s : list Z) : option Z :=
  match s with
  | [] => None
  | c :: s => if is_whitespace c then next_visible s else Some c
  end.

(** The loop of [sanitize_json_string], by [in_string] and the parity of
    [backslash_count]. *)
Fixpoint sanitize (in_string : bool) (odd : bool) (s : list Z) : list Z :=
  match s with
  | [] => []
  | c :: s =>
      if negb in_string then
        c :: sanitize (c =? c_quote) false s
      else if c =? c_backslash then c_backslash :: sanitize true (negb odd) s
      else if c =? c_quote then
        if odd then c_quote :: sanitize true false s
        else
          match next_visible s with
          | Some n =>
              if (n =? c_colon) || (n =? c_comma) || (n =? c_brace)
              then c_quote :: sanitize false false s
              else c_backslash :: c_quote :: sanitize true false s
          | None => c_quote :: sanitize false false s
          end
      else c :: sanitize true false s
  end.
Definition sanitize_json_string (s : list Z) : list Z := sanitize false false s.

Section fetch.
Context `{CairoSerde} `{MetadataEnv}.
#[local] Abbreviation ask E A := (st (list request) E A).

(** Records a request and returns its answer, which may depend on those before. *)
Definition call {E A} (r : request) (answer : list request → A) : ask E A := λ h, (Ok (answer h), h ++ [r]).

Definition PROVIDER_MAX_RETRIES : nat := 5.
Definition REQ_MAX_RETRIES : nat := 5.

Definition is_permanent_error (error : CallError) : bool :=
  match error with
  | EntrypointNotFound => true
  | ContractNotFound => true
  | _ => false
  end.

(** ** HTTP and IPFS *)
Fixpoint http_loop (retries_left : nat) (url : string) : ask HttpError (list Byte.byte) :=
  let! response := call (ReqHttp url) (λ h, http_get h url) in
  match response with
  | Some (success, body) =>
      if negb success then st_throw StatusCode else st_lift (ok_or Reqwest body)
  | None =>
      match retries_left with
      | O => st_throw Reqwest
      | S retries_left => http_loop retries_left url
      end
  end.
Definition fetch_content_from_http (url : string) : ask HttpError (list Byte.byte) :=
  http_loop REQ_MAX_RETRIES url.

Fixpoint ipfs_loop (retries_left : nat) (cid : string) : ask unit (list Byte.byte) :=
  let! response := call (ReqIpfs cid) (λ h, ipfs_cat h cid) in
  match response with
  | Some bytes => st_ret bytes
  | None =>
      match retries_left with
      | O => st_throw tt
      | S retries_left => ipfs_loop retries_left cid
      end
  end.
Definition fetch_content_from_ipfs (cid : string) : ask unit (list Byte.byte) :=
  ipfs_loop REQ_MAX_RETRIES cid.

(** ** Contract metadata *)
Definition parse_text (response : option (list Felt)) : string :=
  match response with
  | Some [felt] => default "" (parse_cairo_short_string felt)
  | Some felts => default "" (ba ← byte_array_deserialize felts; byte_array_to_string ba)
  | None => ""
  end.

Definition metadata_requests (contract_address : Felt) (is_erc20 : bool) : list FunctionCall :=
  [mkFunctionCall contract_address "name" []; mkFunctionCall contract_address "symbol" []] ++
  (if is_erc20 then [mkFunctionCall contract_address "decimals" []] else []).

Definition parse_contract_metadata {E} (results : list (option (list Felt))) (is_erc20 : bool)
  : outcome E (string * string * Z) :=
  let? name := unwrap (results !! 0%nat) in
  let? symbol := unwrap (results !! 1%nat) in
  let? decimals :=
    (if is_erc20 then
       let? r := unwrap (results !! 2%nat) in
       Ok (match r with Some decimals => default 0 (u8_deserialize decimals) | None => 0 end)
     else Ok 0) in
  Ok (parse_text name, parse_text symbol, decimals).

Fixpoint contract_metadata_loop (retries_left : nat) (contract_address : Felt) (is_erc20 : bool)
  : ask CallError (option (string * string * Z)) :=
  let requests := metadata_requests contract_address is_erc20 in
  let! response := call (ReqBatch requests) (λ h, node_batch h requests) in
  match response with
  | inr results => let! m := st_lift (parse_contract_metadata results is_erc20) in st_ret (Some m)
  | inl e =>
      if is_permanent_error e then st_ret None
      else match retries_left with
           | O => st_ret None
           | S retries_left => contract_metadata_loop retries_left contract_address is_erc20
           end
  end.
Definition try_fetch_contract_metadata_sequence (contract_address : Felt) (is_erc20 : bool)
  : ask CallError (option (string * string * Z)) :=
  contract_metadata_loop PROVIDER_MAX_RETRIES contract_address is_erc20.

(** ** Uris

    Several entry points are tried in turn; one that failed for good is not
    tried again. *)
Inductive tried : Type := Found (result : list Felt) | Tried (permanent : gset string) (transient : bool).

Fixpoint try_methods (contract_address : Felt) (calldata : list Felt) (methods : list string)
    (permanent : gset string) (transient : bool) : ask CallError tried :=
  match methods with
  | [] => st_ret (Tried permanent transient)
  | m :: methods =>
      if set_contains m permanent then try_methods contract_address calldata methods permanent transient
      else
        let c := mkFunctionCall contract_address m calldata in
        let! response := call (ReqCall c) (λ h, node_call h c) in
        match response with
        | inr result => st_ret (Found result)
        | inl e =>
            if is_permanent_error e
            then try_methods contract_address calldata methods ({[m]} ∪ permanent) transient
            else try_methods contract_address calldata methods permanent true
        end
  end.

Fixpoint uri_loop (retries_left : nat) (contract_address : Felt) (calldata : list Felt)
    (methods : list string) (permanent : gset string) : ask CallError (option (list Felt)) :=
  let! t := try_methods contract_address calldata methods permanent false in
  match t with
  | Found result => st_ret (Some result)
  | Tried permanent has_transient_error =>
      if bool_decide (size permanent = 3%nat) then st_ret None
      else if negb has_transient_error then st_ret None
      else match retries_left with
           | O => st_ret None
           | S retries_left => uri_loop retries_left contract_address calldata methods permanent
           end
  end.

Definition contract_uri_methods : list string := ["contract_uri"; "contractURI"; "uri"].
Definition token_uri_methods : list string := ["token_uri"; "tokenURI"; "uri"].

Definition try_fetch_contract_uri_sequence (contract_address : Felt) : ask CallError (option (list Felt)) :=
  uri_loop PROVIDER_MAX_RETRIES contract_address [] contract_uri_methods ∅.

(** [token_id.low()], [token_id.high()] *)
Definition u256_low (v : U256) : Felt := v mod 2 ^ 128.
Definition u256_high (v : U256) : Felt := v / 2 ^ 128.
Definition try_fetch_token_uri_sequence (contract_address : Felt) (token_id : U256)
  : ask CallError (option (list Felt)) :=
  uri_loop PROVIDER_MAX_RETRIES contract_address [u256_low token_id; u256_high token_id] token_uri_methods ∅.

(** A uri as a byte array, or as an array of short strings. *)
Definition short_strings (felts : list Felt) : option string :=
  SqlString.join "" <$> mapM parse_cairo_short_string felts.
Definition decode_uri (felts : list Felt) : outcome TokenMetadataError (option string) :=
  match byte_array_deserialize felts with
  | Some byte_array =>
      let? s := ok_or (MetadataParse FromUtf8) (byte_array_to_string byte_array) in Ok (Some s)
  | None =>
      match felts_deserialize felts with
      | Some felt_array =>
          let? s := ok_or (MetadataParse ParseCairoShortString) (short_strings felt_array) in Ok (Some s)
      | None => Ok None
      end
  end.

(** [match m { Ok(..) => .., Err(_) => .. }]: the error becomes a value. *)
Definition catch {S E E' A} (m : st S E A) : st S E' (E + A) := λ s,
  match m s with
  | (Ok a, s') => (Ok (inr a), s')
  | (Err e, s') => (Ok (inl e), s')
  | (Panic, s') => (Panic, s')
  end.

Definition fetch_contract_uri (contract_address : Felt) : ask TokenMetadataError (option string) :=
  let! r := catch (try_fetch_contract_uri_sequence contract_address) in
  match r with
  | inr (Some uri) => st_lift (decode_uri uri)
  | inr None => st_ret None
  | inl _ => st_ret None
  end.

(** [format!("{:064x}", token_id)] *)
Definition token_id_hex (token_id : U256) : string := digits_string (pad_digits 64 (digits_of token_id)).

Definition fetch_token_uri (contract_address : Felt) (token_id : U256) : ask TokenMetadataError string :=
  let! r := catch (try_fetch_token_uri_sequence contract_address token_id) in
  match r with
  | inr (Some token_uri) =>
      let! uri := st_lift (decode_uri token_uri) in
      st_ret (str_replace "{id}" (token_id_hex token_id) (default "" uri))
  | inr None => st_ret ""
  | inl _ => st_ret ""
  end.

(** ** Metadata *)
Definition fetch_metadata (token_uri : string) : ask TokenMetadataError json :=
  if starts_with "http" token_uri || starts_with "https" token_uri then
    let! response := st_map_err MetadataHttp (fetch_content_from_http token_uri) in
    st_lift (ok_or (MetadataParse FromJsonStr) (json_from_slice response))
  else if starts_with "ipfs" token_uri then
    let! cid := st_lift (unwrap (strip_prefix "ipfs://" token_uri)) in
    let! response := st_map_err (λ _, MetadataIpfs) (fetch_content_from_ipfs cid) in
    st_lift (ok_or (MetadataParse FromJsonStr) (json_from_slice response))
  else if starts_with "data" token_uri then
    let uri := str_replace "#" "%23" token_uri in
    let! data_url := st_lift (ok_or MetadataDataUrl (data_url_process uri)) in
    let 'mkDataUrl mime decoded := data_url in
    if bool_decide (mime ≠ "application/json") then st_throw (InvalidMimeType mime)
    else
      let! decoded := st_lift (ok_or InvalidBase64 decoded) in
      let decoded_str := List.filter (λ c, negb (is_ascii_control c)) (utf8_lossy decoded) in
      let sanitized_json := sanitize_json_string decoded_str in
      st_lift (ok_or (MetadataParse FromJsonStr) (json_from_chars sanitized_json))
  else st_lift (ok_or (UnsupportedUriScheme token_uri) (json_from_string token_uri)).

Definition fetch_token_metadata (contract_address : Felt) (token_id : U256) : ask TokenMetadataError string :=
  let! token_uri := fetch_token_uri contract_address token_id in
  if bool_decide (token_uri = "") then st_ret ""
  else
    let! metadata := catch (fetch_metadata token_uri) in
    match metadata with
    | inr metadata => st_lift (ok_or (MetadataParse FromJsonStr) (json_to_string metadata))
    | inl _ => st_ret ""
    end.

Definition fetch_contract_metadata (contract_address : Felt) (is_erc20 : bool)
  : ask TokenMetadataError (string * string * Z * option string) :=
  let! r := catch (try_fetch_contract_metadata_sequence contract_address is_erc20) in
  let '(name, symbol, decimals) := match r with inr (Some m) => m | _ => ("", "", 0) end in
  let! uri := fetch_contract_uri contract_address in
  let! metadata :=
    (match uri with
     | Some uri =>
         let! m := catch (fetch_metadata uri) in
         st_ret (match m with inr m => json_to_string m | inl _ => None end)
     | None => st_ret None
     end) in
  st_ret (name, symbol, decimals, metadata).
End fetch.

(** ** Lemmas on the uri loops *)
Section uri_lemmas.
Context `{MetadataEnv} (a : Felt) (cd : list Felt).

Definition req (m : string) : request := ReqCall (mkFunctionCall a m cd).

(** The methods [ms] are called in turn after [h] and all fail; those that failed
    for good go from [P] to [P']. *)
Inductive fails : list request → list string → gset string → gset string → Prop :=
| fails_nil h P : fails h [] P P
| fails_cons h m ms e P P' :
    m ∉ P → node_call h (mkFunctionCall a m cd) = inl e →
    fails (h ++ [req m]) ms (if is_permanent_error e then {[m]} ∪ P else P) P' →
    fails h (m :: ms) P P'.

Definition calls_of (m : string) (ms : list string) : nat := length (filter (λ m', m' = m) ms).

Lemma fails_app h ms1 ms2 P1 P2 P3 :
  fails h ms1 P1 P2 → fails (h ++ (req <$> ms1)) ms2 P2 P3 → fails h (ms1 ++ ms2) P1 P3.
Proof.
  intros Hf. revert ms2 P3. induction Hf as [h P|h m ms e P P' Hm Hc Hf IH]; intros ms2 P3 H2.
  - by rewrite app_nil_r in H2.
  - simpl. econstructor; [done..|]. apply IH. by rewrite <- app_assoc.
Qed.
Lemma fails_incl h ms P P' : fails h ms P P' → P ⊆ P'.
Proof. induction 1 as [|h m ms e P P' _ _ _ IH]; [done|]. destruct (is_permanent_error e); set_solver. Qed.

(** What one round does. *)
Record round (methods : list string) h ms P P' : Prop := {
  round_fails : fails h ms P P';
  round_sub : ∀ m, m ∈ ms → m ∈ methods;
  round_all : ∀ m, m ∈ methods → m ∈ P' ∨ calls_of m ms = 1%nat;
  round_perm : ∀ m, m ∈ P' → m ∈ P ∨ m ∈ methods;
  round_length : (length ms ≤ length methods)%nat
}.

Lemma calls_of_new m ms : m ∉ ms → calls_of m (m :: ms) = 1%nat.
Proof.
  intros Hm. unfold calls_of. rewrite filter_cons_True by done. simpl. f_equal.
  rewrite filter_none; [done|]. apply Forall_forall. set_solver.
Qed.
Lemma calls_of_ne m m' ms : m' ≠ m → calls_of m' (m :: ms) = calls_of m' ms.
Proof. intros Hne. unfold calls_of. by rewrite filter_cons_False. Qed.
Lemma req_cons h m ms : h ++ (req <$> (m :: ms)) = (h ++ [req m]) ++ (req <$> ms).
Proof. by rewrite fmap_cons, <- app_assoc. Qed.

Lemma round_skip methods m h ms P P' : m ∈ P → round methods h ms P P' → round (m :: methods) h ms P P'.
Proof.
  intros Hm [Hf Hs Ha Hp Hl]. pose proof (fails_incl _ _ _ _ Hf).
  split; [done|set_solver|set_solver|set_solver|simpl; lia].
Qed.
Lemma round_call methods m h ms e P P' :
  m ∉ methods → m ∉ P → node_call h (mkFunctionCall a m cd) = inl e →
  round methods (h ++ [req m]) ms (if is_permanent_error e then {[m]} ∪ P else P) P' →
  round (m :: methods) h (m :: ms) P P'.
Proof.
  intros Hni HmP Hc [Hf Hs Ha Hp Hl]. split; [by econstructor|set_solver| | |simpl; lia].
  - intros m' [->|Hm']%elem_of_cons; [right; apply calls_of_new; set_solver|].
    rewrite calls_of_ne by set_solver. by apply Ha.
  - intros m' Hm'. apply Hp in Hm'. destruct (is_permanent_error e); set_solver.
Qed.

(** A call succeeds, after calls that failed. *)
Definition succeeds (methods : list string) h ms x P : Prop :=
  ∃ ms' m P', ms = ms' ++ [m] ∧ fails h ms' P P' ∧ (m ∉ P') ∧
    node_call (h ++ (req <$> ms')) (mkFunctionCall a m cd) = inr x ∧
    (∀ m', m' ∈ ms → m' ∈ methods) ∧ (length ms ≤ length methods)%nat.

Lemma try_methods_spec methods P tr h : NoDup methods →
  ∃ ms t, try_methods a cd methods P tr h = (Ok t, h ++ (req <$> ms)) ∧
    match t with
    | Found x => succeeds methods h ms x P
    | Tried P' tr' => round methods h ms P P' ∧ (tr' = true ↔ tr = true ∨ ∃ m, m ∈ methods ∧ m ∉ P')
    end.
Proof.
  revert P tr h. induction methods as [|m methods IH]; intros P tr h Hnd.
  { exists [], (Tried P tr). rewrite app_nil_r. split; [done|].
    split; [split; [constructor|set_solver..|simpl; lia]|set_solver]. }
  apply NoDup_cons in Hnd as [Hni Hnd]. cbn [try_methods]. unfold set_contains. case_bool_decide as HmP.
  - destruct (IH P tr h Hnd) as (ms & [x|P' tr'] & -> & Ht); [exists ms, (Found x)|exists ms, (Tried P' tr')];
      (split; [done|]).
    + destruct Ht as (ms' & m' & P' & -> & Hf & Hm' & Hc & Hin & Hlen).
      exists ms', m', P'. split_and!; [done..|set_solver|simpl in *; lia].
    + destruct Ht as [Hr Htr]. pose proof (fails_incl _ _ _ _ (round_fails _ _ _ _ _ Hr)).
      split; [by apply round_skip|]. rewrite Htr. set_solver.
  - unfold st_bind, call. destruct (node_call h (mkFunctionCall a m cd)) as [e|x] eqn:Hcall.
    2: { exists [m], (Found x). split; [done|]. exists [], m, P. simpl. rewrite app_nil_r.
         split_and!; [done|constructor|done|done|set_solver|lia]. }
    set (P1 := if is_permanent_error e then {[m]} ∪ P else P).
    set (tr1 := if is_permanent_error e then tr else true).
    replace (if is_permanent_error e then _ else _) with (try_methods a cd methods P1 tr1)
      by (unfold P1, tr1; by destruct (is_permanent_error e)).
    destruct (IH P1 tr1 (h ++ [req m]) Hnd) as (ms & [x|P' tr'] & Heq & Ht);
      [exists (m :: ms), (Found x)|exists (m :: ms), (Tried P' tr')]; rewrite req_cons; (split; [exact Heq|]).
    + destruct Ht as (ms' & m' & P' & -> & Hf & Hm' & Hc & Hin & Hlen).
      exists (m :: ms'), m', P'. rewrite req_cons.
      split_and!; [done|by econstructor|done|done|set_solver|simpl in *; lia].
    + destruct Ht as [Hr Htr]. pose proof (fails_incl _ _ _ _ (round_fails _ _ _ _ _ Hr)) as Hincl.
      split; [by eapply round_call|]. rewrite Htr. unfold P1, tr1 in *.
      destruct (is_permanent_error e); [set_solver|]. split; [|naive_solver].
      intros _. right. exists m. split; [left|]. intros Hin.
      apply (round_perm _ _ _ _ _ Hr) in Hin as [?|?]; contradiction.
Qed.

Lemma calls_of_app m ms1 ms2 : calls_of m (ms1 ++ ms2) = (calls_of m ms1 + calls_of m ms2)%nat.
Proof. unfold calls_of. by rewrite filter_app, length_app. Qed.

Lemma all_permanent (methods : list string) (P : gset string) m :
  NoDup methods → (∀ m, m ∈ P → m ∈ methods) → size P = length methods → m ∈ methods → m ∈ P.
Proof.
  intros Hnd HP Hsz Hm. assert (P ≡ list_to_set methods) as ->; [|by apply elem_of_list_to_set].
  apply set_subseteq_size_equiv; [intros m' Hm'; by apply elem_of_list_to_set, HP|].
  rewrite size_list_to_set by done. lia.
Qed.

(** What the loop does with [n] rounds after the first. *)
Definition loop_ran (n : nat) (methods : list string) h P ms (r : option (list Felt)) : Prop :=
  (length ms ≤ 3 * S n)%nat ∧ (∀ m, m ∈ ms → m ∈ methods) ∧
  match r with
  | Some x => ∃ ms' m P', ms = ms' ++ [m] ∧ fails h ms' P P' ∧ (m ∉ P') ∧
      node_call (h ++ (req <$> ms')) (mkFunctionCall a m cd) = inr x
  | None => ∃ P', fails h ms P P' ∧ ∀ m, m ∈ methods → m ∈ P' ∨ calls_of m ms = S n
  end.

Lemma loop_ran_next n methods h ms1 ms2 P P' r :
  (length ms1 ≤ 3)%nat → round methods h ms1 P P' →
  loop_ran n methods (h ++ (req <$> ms1)) P' ms2 r → loop_ran (S n) methods h P (ms1 ++ ms2) r.
Proof.
  intros Hlen [Hf Hs Ha Hp _] (Hl & Hin & Hr). split; [rewrite length_app; lia|]. split; [set_solver|].
  destruct r as [x|].
  - destruct Hr as (ms' & m & P2 & -> & Hf2 & Hm & Hc). exists (ms1 ++ ms'), m, P2.
    rewrite fmap_app, (assoc (++)). rewrite (assoc (++)). split_and!; [done|by eapply fails_app|done|done].
  - destruct Hr as (P2 & Hf2 & Hall). exists P2. split; [by eapply fails_app|]. intros m Hm.
    pose proof (fails_incl _ _ _ _ Hf2). destruct (Ha m Hm) as [?|H1]; [left; set_solver|].
    destruct (Hall m Hm) as [?|H2]; [by left|]. right. rewrite calls_of_app. lia.
Qed.

Lemma uri_loop_spec n methods P h :
  NoDup methods → length methods = 3%nat → (∀ m, m ∈ P → m ∈ methods) →
  ∃ ms r, uri_loop n a cd methods P h = (Ok r, h ++ (req <$> ms)) ∧ loop_ran n methods h P ms r.
Proof.
  intros Hnd H3. revert P h. induction n as [|n IH]; intros P h HP; cbn [uri_loop]; unfold st_bind;
    destruct (try_methods_spec methods P false h Hnd) as (ms & [x|P' tr'] & -> & Ht).
  1, 3: destruct Ht as (ms' & m & P' & -> & Hf & Hm & Hc & Hin & Hlen); eexists _, (Some x);
    split; [done|]; split; [lia|]; split; [done|]; by exists ms', m, P'.
  all: destruct Ht as [Hr Htr]; pose proof Hr as [Hf Hs Ha Hp Hl]; case_bool_decide as Hsz;
    [exists ms, None; split; [done|]; split; [lia|]; split; [done|]; exists P'; split; [done|]; intros m Hm; left;
     apply (all_permanent methods); [done| |congruence|done]; intros m' Hm'; destruct (Hp m' Hm'); auto|].
  all: destruct tr'; cbn [negb];
    [|exists ms, None; split; [done|]; split; [lia|]; split; [done|]; exists P'; split; [done|]; intros m Hm; left;
      apply dec_stable; intros Hni; by assert (false = true) by (apply Htr; eauto)].
  - exists ms, None. split; [done|]. split; [lia|]. split; [done|]. exists P'. split; [done|exact Ha].
  - destruct (IH P' (h ++ (req <$> ms))) as (ms2 & r & -> & Hran).
    { intros m Hm. destruct (Hp m Hm); auto. }
    exists (ms ++ ms2), r. rewrite fmap_app, (assoc (++)). split; [done|].
    eapply loop_ran_next; [lia|done|done].
Qed.

(** A method that failed for good before is not called again. *)
Lemma fails_not_again h ms P P' pre m post :
  fails h ms P P' → ms = pre ++ m :: post → (m ∉ P) ∧
    (m ∈ post → node_call (h ++ (req <$> pre)) (mkFunctionCall a m cd) = inl OtherCallError).
Proof.
  intros Hf. revert pre post. induction Hf as [h P|h m' ms e P P' Hm Hc Hf IH]; intros pre post Hms.
  { by destruct pre. }
  destruct pre as [|m0 pre]; simpl in Hms; injection Hms as -> ->.
  - split; [done|]. intros (p1 & p2 & ->)%list_elem_of_split. destruct (IH p1 p2 eq_refl) as [Hni _].
    simpl. rewrite app_nil_r, Hc. destruct e; simpl in Hni; [set_solver..|done].
  - destruct (IH pre post eq_refl) as [Hni Hagain]. rewrite req_cons.
    split; [destruct (is_permanent_error e); set_solver|done].
Qed.
Lemma fails_all h ms P P' pre m post :
  fails h ms P P' → ms = pre ++ m :: post →
  ∃ e, node_call (h ++ (req <$> pre)) (mkFunctionCall a m cd) = inl e.
Proof.
  intros Hf. revert pre. induction Hf as [h P|h m' ms e P P' Hm Hc Hf IH]; intros pre Hms.
  { by destruct pre. }
  destruct pre as [|m0 pre]; simpl in Hms; injection Hms as -> ->.
  - exists e. simpl. by rewrite app_nil_r.
  - rewrite req_cons. by apply IH.
Qed.
Lemma fails_called_permanent h ms P P' pre m post e :
  fails h ms P P' → ms = pre ++ m :: post →
  node_call (h ++ (req <$> pre)) (mkFunctionCall a m cd) = inl e → is_permanent_error e = true → m ∈ P'.
Proof.
  intros Hf. revert pre. induction Hf as [h P|h m' ms e' P P' Hm Hc Hf IH]; intros pre Hms.
  { by destruct pre. }
  destruct pre as [|m0 pre]; simpl in Hms; injection Hms as -> ->.
  - simpl. rewrite app_nil_r. intros He Hp. assert (e' = e) as -> by congruence.
    rewrite Hp in Hf. apply fails_incl in Hf. set_solver.
  - rewrite req_cons. by apply IH.
Qed.
Lemma fails_permanent h ms P P' m :
  fails h ms P P' → m ∈ P' → m ∈ P ∨ ∃ pre post e, ms = pre ++ m :: post ∧
    node_call (h ++ (req <$> pre)) (mkFunctionCall a m cd) = inl e ∧ is_permanent_error e = true.
Proof.
  induction 1 as [h P|h m' ms e P P' Hm Hc Hf IH]; intros Hin; [by left|].
  destruct (IH Hin) as [Hcase|(pre & post & e' & -> & Hc' & Hp)].
  - destruct (is_permanent_error e) eqn:He; [|by left].
    apply elem_of_union in Hcase as [->%elem_of_singleton|?]; [right|by left].
    exists [], ms, e. simpl. by rewrite app_nil_r.
  - right. exists (m' :: pre), post, e'. rewrite req_cons. done.
Qed.

(** The result [out] of asking [methods] after [h]. *)
Definition asked (methods : list string) (h : list request)
    (out : outcome CallError (option (list Felt)) * list request) : Prop :=
  ∃ ms r, out = (Ok r, h ++ (req <$> ms)) ∧ (length ms ≤ 18)%nat ∧ (∀ m, m ∈ ms → m ∈ methods) ∧
    (∀ pre m post, ms = pre ++ m :: post → m ∈ post →
       node_call (h ++ (req <$> pre)) (mkFunctionCall a m cd) = inl OtherCallError) ∧
    let failing ms := ∀ pre m post, ms = pre ++ m :: post →
      ∃ e, node_call (h ++ (req <$> pre)) (mkFunctionCall a m cd) = inl e in
    match r with
    | Some x => ∃ ms' m, ms = ms' ++ [m] ∧ failing ms' ∧
        node_call (h ++ (req <$> ms')) (mkFunctionCall a m cd) = inr x
    | None => failing ms ∧ ∀ m, m ∈ methods →
        calls_of m ms = 6%nat ∨
        ∃ pre post e, ms = pre ++ m :: post ∧
          node_call (h ++ (req <$> pre)) (mkFunctionCall a m cd) = inl e ∧ is_permanent_error e = true
    end.

Lemma uri_loop_asked methods h :
  NoDup methods → length methods = 3%nat → asked methods h (uri_loop 5 a cd methods ∅ h).
Proof.
  intros Hnd H3. destruct (uri_loop_spec 5 methods ∅ h Hnd H3) as (ms & r & -> & Hlen & Hin & Hr); [set_solver|].
  exists ms, r. split; [done|]. split; [lia|]. split; [done|]. destruct r as [x|].
  - destruct Hr as (ms' & m & P' & -> & Hf & Hm & Hc). split.
    + intros pre m' post Hms Hpost. destruct post as [|y post _] using rev_ind; [by apply elem_of_nil in Hpost|].
      rewrite app_comm_cons, (assoc (++)) in Hms. apply app_inj_tail in Hms as [Hms ->].
      destruct (decide (m' ∈ post)) as [Hp|Hp]; [by eapply fails_not_again|].
      assert (m' = y) as -> by set_solver. destruct (fails_all _ _ _ _ _ _ _ Hf Hms) as [e He]. rewrite He.
      destruct e; [| |done]; exfalso; apply Hm;
        by eapply fails_called_permanent.
    + exists ms', m. split; [done|]. split; [|done]. intros pre m' post. by eapply fails_all.
  - destruct Hr as (P' & Hf & Hall). split; [intros pre m post Hms Hp; by eapply fails_not_again|]. split.
    + intros pre m post. by eapply fails_all.
    + intros m Hm. destruct (Hall m Hm) as [HP|?]; [|by left]. right.
      by destruct (fails_permanent _ _ _ _ _ Hf HP) as [?%not_elem_of_empty|?].
Qed.
End uri_lemmas.

(** ** Registration *)
Section register.
Context `{CairoSerde} `{MetadataEnv} `{DojoTypes} {DM : DashMap} {U : U256Ops} {HO : HashOrder}.
Context {S : Type} `{!ProcessorStorage S}.
#[local] Abbreviation proc A := (st (World S) ProcessorError A).

Definition ask_metadata {A} (m : st (list request) TokenMetadataError A) : proc A :=
  with_requests TokenMetadata m.

Definition try_register_nft_token_metadata (id : TokenId) (contract_address : Felt) (actual_token_id : U256)
  : proc unit :=
  let! lock := cache_lock id in
  match lock with
  | None => st_ret tt
  | Some _ =>
      let! w := st_get in
      if Cache.is_token_registered id (cache w) then st_ret tt
      else
        let! metadata := ask_metadata (fetch_token_metadata contract_address actual_token_id) in
        with_storage (register_nft_token contract_address actual_token_id metadata) ;;;
        with_cache (Cache.mark_token_registered id) ;;;
        cache_update_balance_diff (TokenContract contract_address) FELT_ZERO 1 1
  end.

Definition try_register_token_contract (contract_address : Felt) (is_erc20 : bool) : proc unit :=
  let token_id := TokenContract contract_address in
  let! lock := cache_lock token_id in
  match lock with
  | None => st_ret tt
  | Some _ =>
      let! w := st_get in
      if Cache.is_token_registered token_id (cache w) then st_ret tt
      else
        let! m := ask_metadata (fetch_contract_metadata contract_address is_erc20) in
        let '(name, symbol, decimals, metadata) := m in
        with_storage (register_token_contract contract_address name symbol decimals metadata) ;;;
        with_cache (Cache.mark_token_registered token_id)
  end.

Definition update_contract_metadata (contract_address : Felt) : proc unit :=
  let! contract_uri := ask_metadata (fetch_contract_uri contract_address) in
  match contract_uri with
  | Some uri =>
      let! m := ask_metadata (fetch_metadata uri) in
      let! metadata := st_lift (ok_or (TokenMetadata (MetadataParse FromJsonStr)) (json_to_string m)) in
      with_storage (update_token_metadata (TokenContract contract_address) metadata)
  | None => st_ret tt
  end.
End register.

(** ** Sanitizing *)
Section sanitize_lemmas.

Definition ends_string (s : list Z) : bool :=
  match next_visible s with
  | Some n => (n =? c_colon) || (n =? c_comma) || (n =? c_brace)
  | None => true
  end.

(** One step of the loop. *)
Lemma sanitize_in_string odd c s :
  sanitize true odd (c :: s) =
    if c =? c_backslash then c_backslash :: sanitize true (negb odd) s
    else if c =? c_quote then
      if odd then c_quote :: sanitize true false s
      else if ends_string s then c_quote :: sanitize false false s
      else c_backslash :: c_quote :: sanitize true false s
    else c :: sanitize true false s.
Proof.
  cbn [sanitize negb]. unfold ends_string. destruct (c =? c_backslash), (c =? c_quote), odd; try done.
  by destruct (next_visible s).
Qed.

(** Outside a string the text up to the next visible character, if that is not a
    quote, is copied. *)
Lemma next_visible_outside odd s :
  (∀ n, next_visible s = Some n → n ≠ c_quote) → next_visible (sanitize false odd s) = next_visible s.
Proof.
  revert odd. induction s as [|c s IH]; intros odd Hq; [done|]. cbn [sanitize negb next_visible] in *.
  destruct (is_whitespace c) eqn:Hw; [|done].
  assert ((c =? c_quote) = false) as ->.
  { apply Z.eqb_neq. intros ->. discriminate Hw. }
  by apply IH.
Qed.
Lemma ends_string_outside s : ends_string s = true → ends_string (sanitize false false s) = true.
Proof.
  unfold ends_string. intros He. rewrite next_visible_outside; [done|].
  intros n Hn. rewrite Hn in He. intros ->. discriminate He.
Qed.

Lemma sanitize_again s : ∀ in_string odd,
  sanitize in_string odd (sanitize in_string odd s) = sanitize in_string odd s.
Proof.
  induction s as [|c s IH]; intros [|] odd; [done|done| |].
  - rewrite (sanitize_in_string odd c s). destruct (c =? c_backslash) eqn:Hb.
    { rewrite sanitize_in_string. simpl. by rewrite IH. }
    destruct (c =? c_quote) eqn:Hq; [|rewrite sanitize_in_string, Hb, Hq; by rewrite IH].
    destruct odd; cbv iota; [rewrite sanitize_in_string; simpl; by rewrite IH|].
    destruct (ends_string s) eqn:He.
    + rewrite sanitize_in_string. simpl. by rewrite ends_string_outside, IH.
    + simpl. by rewrite IH.
  - cbn [sanitize negb]. by rewrite IH.
Qed.

(** Characters that are neither a quote nor a backslash. *)
Definition plain (s : list Z) : Prop := Forall (λ c, c ≠ c_quote ∧ c ≠ c_backslash) s.

Lemma sanitize_plain body s odd :
  plain body → body ≠ [] ∨ odd = false → sanitize true odd (body ++ s) = body ++ sanitize true false s.
Proof.
  intros Hb. revert odd. induction Hb as [|c body [Hq Hs] _ IH]; intros odd Hor.
  { by destruct Hor as [?| ->]. }
  simpl. rewrite (proj2 (Z.eqb_neq _ _) Hq), (proj2 (Z.eqb_neq _ _) Hs). f_equal. apply IH. by right.
Qed.
End sanitize_lemmas.

(** ** Properties *)
Section properties.
Context `{CairoSerde} `{MetadataEnv}.

Lemma uri_methods_NoDup : NoDup contract_uri_methods ∧ NoDup token_uri_methods.
Proof. split; repeat constructor; set_solver. Qed.

Lemma uri_asked_aux (contract_address : Felt) (token_id : U256) (h : list request) :
  asked contract_address [u256_low token_id; u256_high token_id] token_uri_methods h
    (try_fetch_token_uri_sequence contract_address token_id h) ∧
  asked contract_address [] contract_uri_methods h (try_fetch_contract_uri_sequence contract_address h).
Proof.
  unfold try_fetch_token_uri_sequence, try_fetch_contract_uri_sequence, PROVIDER_MAX_RETRIES.
  destruct uri_methods_NoDup. split; by apply uri_loop_asked.
Qed.

(** The uri of a token and of a contract is asked for a bounded number of
    times, and never in vain: at most 18 calls, of the listed entry points only;
    an entry point is called again only after an error that may pass; the answer
    is that of the first call that succeeded, and there is none only if every
    call failed and every entry point either failed for good or was tried six
    times. The search itself never fails. *)
Theorem uri_asked (contract_address : Felt) (token_id : U256) (h : list request) :
  asked contract_address [u256_low token_id; u256_high token_id] token_uri_methods h
    (try_fetch_token_uri_sequence contract_address token_id h) ∧
  asked contract_address [] contract_uri_methods h (try_fetch_contract_uri_sequence contract_address h).
Proof. apply uri_asked_aux. Qed.

Lemma http_loop_no_panic n url h : (http_loop n url h).1 ≠ Panic.
Proof.
  revert h. induction n as [|n IH]; intros h; simpl; unfold st_bind, call;
    (destruct (http_get h url) as [[[] [body|]]|]; first [done|apply IH]).
Qed.
Lemma ipfs_loop_no_panic n cid h : (ipfs_loop n cid h).1 ≠ Panic.
Proof.
  revert h. induction n as [|n IH]; intros h; simpl; unfold st_bind, call;
    (destruct (ipfs_cat h cid); first [done|apply IH]).
Qed.

(** A uri that [fetch_metadata] takes for an IPFS one without its being one. *)
Definition bad_ipfs (uri : string) : Prop := starts_with "ipfs" uri = true ∧ starts_with "ipfs://" uri = false.

Lemma ok_or_no_panic {E A} (e : E) (o : option A) : ok_or e o ≠ Panic.
Proof. by destruct o. Qed.

Lemma starts_with_app p q uri : starts_with (p +:+ q) uri = true → starts_with p uri = true.
Proof.
  unfold starts_with. revert uri. induction p as [|c p IH]; intros uri; [by destruct uri|].
  destruct uri as [|d uri]; [done|]. change (String c p +:+ q) with (String c (p +:+ q)). cbn [String.prefix].
  case_match; [apply IH|done].
Qed.
Lemma ipfs_not_http uri : starts_with "ipfs" uri = true → starts_with "http" uri = false.
Proof.
  intros Hi%(starts_with_app "i" "pfs"). destruct (starts_with "http" uri) eqn:Hh; [|done].
  apply (starts_with_app "h" "ttp") in Hh. unfold starts_with in *. destruct uri as [|c uri]; [done|].
  cbn [String.prefix] in *. repeat case_match; congruence.
Qed.

Lemma fetch_metadata_panic uri h : (fetch_metadata uri h).1 = Panic ↔ bad_ipfs uri.
Proof.
  unfold fetch_metadata, bad_ipfs.
  assert (starts_with "http" uri || starts_with "https" uri = starts_with "http" uri) as ->.
  { pose proof (starts_with_app "http" "s" uri) as Hs. change ("http" +:+ "s") with "https" in Hs.
    destruct (starts_with "https" uri); [by rewrite Hs|by rewrite orb_false_r]. }
  destruct (starts_with "http" uri) eqn:Hh.
  { split; [|intros [Hi _]; by apply ipfs_not_http in Hi; congruence].
    unfold st_bind, st_map_err, fetch_content_from_http. pose proof (http_loop_no_panic REQ_MAX_RETRIES uri h).
    destruct (http_loop _ uri h) as [[bytes|?|] h']; [|done..]. simpl. by destruct (json_from_slice bytes). }
  destruct (starts_with "ipfs" uri) eqn:Hi.
  - unfold strip_prefix, starts_with. destruct (String.prefix "ipfs://" uri); [|done].
    split; [|by intros [_ ?]]. unfold st_bind, st_map_err, fetch_content_from_ipfs, st_lift, unwrap.
    match goal with |- context [ipfs_loop ?n ?c ?h] => pose proof (ipfs_loop_no_panic n c h);
      destruct (ipfs_loop n c h) as [[bytes|?|] h'] end; [|done..]. simpl. by destruct (json_from_slice bytes).
  - split; [|by intros [? _]]. destruct (starts_with "data" uri); [|by destruct (json_from_string uri)].
    unfold st_bind, st_lift. destruct (data_url_process _) as [[mime decoded]|]; [|done]. simpl.
    case_bool_decide; [done|]. destruct decoded as [bytes|]; [|done]. simpl. by destruct (json_from_chars _).
Qed.

Lemma decode_uri_no_panic felts : decode_uri felts ≠ Panic.
Proof.
  unfold decode_uri. destruct (byte_array_deserialize felts) as [ba|]; [by destruct (byte_array_to_string ba)|].
  destruct (felts_deserialize felts) as [l|]; [by destruct (short_strings l)|done].
Qed.

(** What can go wrong when the metadata of a token is fetched. Whatever the
    node and the servers answer, and however often they fail, the only errors are
    a uri that is not text and metadata that cannot be printed, all others giving
    empty metadata; and the only panic is a uri that begins with [ipfs] but not
    with [ipfs://]. *)
Theorem token_metadata_failures (contract_address : Felt) (token_id : U256) (h : list request) :
  match (fetch_token_metadata contract_address token_id h).1 with
  | Ok _ => True
  | Err e => (∃ felts, decode_uri felts = Err e) ∨ (e = MetadataParse FromJsonStr ∧ ∃ j, json_to_string j = None)
  | Panic => ∃ felts uri, decode_uri felts = Ok (Some uri) ∧
      bad_ipfs (str_replace "{id}" (token_id_hex token_id) uri)
  end.
Proof.
  unfold fetch_token_metadata, fetch_token_uri, st_bind at 1 2, catch at 1.
  destruct (proj1 (uri_asked_aux contract_address token_id h)) as (ms & r & -> & _).
  destruct r as [felts|]; [|done]. unfold st_lift, st_bind at 1.
  destruct (decode_uri felts) as [uri|e|] eqn:Hd; [|by left; exists felts|].
  2: { by apply decode_uri_no_panic in Hd. }
  unfold st_ret. case_bool_decide as Hempty; [done|]. unfold st_bind, catch.
  match goal with |- context [fetch_metadata ?u ?h'] => pose proof (fetch_metadata_panic u h') as Hp;
    destruct (fetch_metadata u h') as [[j|e|] h''] end; simpl in *.
  - destruct (json_to_string j) eqn:Hj; [done|]. right. eauto.
  - done.
  - destruct uri as [uri|]; [|done]. exists felts, uri. split; [done|]. by apply Hp.
Qed.

(** Cleaning twice is cleaning once, and text whose strings are already closed
    in the places the loop looks for is not changed; but the closing bracket of
    an array is not one of those places: the last string of an array loses its
    closing quote. *)
Theorem sanitize_spec (s body : list Z) :
  plain body →
  sanitize_json_string (sanitize_json_string s) = sanitize_json_string s ∧
  (let text := [c_quote] ++ body ++ [c_quote; c_colon] in sanitize_json_string text = text) ∧
  sanitize_json_string ([91; c_quote] ++ body ++ [c_quote; 93]) =
    [91; c_quote] ++ body ++ [c_backslash; c_quote; 93].
Proof.
  intros Hb. unfold sanitize_json_string. split_and!; [apply sanitize_again| |]; simpl; repeat f_equal;
    (rewrite sanitize_plain by auto); done.
Qed.
End properties.

(** ** Instances

    A decoder of words that decodes nothing else, and an outside that answers
    nothing; they run the witnesses. *)
Definition words_serde : CairoSerde := {|
  ByteArray := unit;
  parse_cairo_short_string _ := None;
  byte_array_deserialize _ := None;
  byte_array_to_string _ := None;
  felts_deserialize _ := None;
  u8_deserialize _ := None;
  u256_deserialize l i :=
    low ← l !! i; high ← l !! S i;
    if (low <? 2 ^ 128) && (high <? 2 ^ 128) then Some (low + 2 ^ 128 * high) else None;
  u256_deserialize_at l i := eq_refl
|}.
Definition silent_env : MetadataEnv := {|
  node_call _ _ := inl EntrypointNotFound;
  node_batch _ _ := inl EntrypointNotFound;
  http_get _ _ := None;
  ipfs_cat _ _ := None;
  data_url_process _ := None;
  utf8_lossy _ := [];
  json_from_slice _ := None;
  json_from_chars _ := None;
  json_from_string _ := None;
  json_to_string _ := None
|}.

Lemma sanitize_spec_witness :
  let body := [97; 98] in
  sanitize_json_string ([91; c_quote] ++ body ++ [c_quote; 93]) =
    [91; c_quote; 97; 98; c_backslash; c_quote; 93].
Proof.
  refine (proj2 (proj2 (sanitize_spec [] [97; 98] _))). repeat constructor; discriminate.
Defined.

End Erc.
