(* ===== verification/ErcProcessors.v ===== *)
(** * The token processors ([crates/processors/src/processors/erc*.rs])

    The processors of the transfers of ERC20, ERC721 and ERC1155 tokens, in the
    two layouts each event has on Starknet (indexed fields in the keys, or all of
    them in the data), of the metadata updates of ERC4906 and of the contract uri
    updates of ERC7572.

    Tasks a processor spawns run concurrently: here each takes effect at once, in
    an order given by [Schedule], which is arbitrary. Work left running in the
    background takes effect when it is spawned; its errors are dropped. *)

From S2P Require Import Prelude Math Proto EventProcessor TaskManager Cache World Erc.
Local Open Scope Z_scope.
Local Open Scope torii_scope.

(** The order in which spawned tasks take effect. *)
Class Schedule : Type := {
  schedule {A} : list request → list A → list A;
  schedule_perm {A} h (l : list A) : schedule h l ≡ₚ l
}.

Module ErcProc.

Section operations.
Context `{CairoSerde} `{MetadataEnv} `{DojoTypes} {DM : DashMap} {U : U256Ops} {HO : HashOrder}.
Context `{Hasher} {SC : Schedule} {S : Type} `{!ProcessorStorage S}.
#[local] Abbreviation proc A := (st (World S) ProcessorError A).
#[local] Abbreviation processor := (EventProcessor (World S) ProcessorError).

(** ** Reading events *)

(** [l[i]], [U256Cainome::cairo_deserialize(l, i)?] *)
Definition felt_at (l : list Felt) (i : nat) : proc Felt := st_lift (unwrap (l !! i)).
Definition u256_at (l : list Felt) (i : nat) : proc U256 := st_lift (ok_or CairoSerdeError (u256_deserialize l i)).

Definition keys_len (e : Event) (n : nat) : bool := (length (keys e) =? n)%nat.
Definition data_len (e : Event) (n : nat) : bool := (length (data e) =? n)%nat.

(** [hash(address)], [hash(address, token_id)] *)
Definition address_task (e : Event) : option TaskId := Some (hasher_finish [HFelt (from_address e)]).
Definition token_task (e : Event) (l : list Felt) (i : nat) : option TaskId :=
  token_id ← u256_deserialize l i; Some (hasher_finish [HFelt (from_address e); HU256 token_id]).
(** [hash(address, max(a, b))] *)
Definition pair_task (e : Event) (l : list Felt) (i j : nat) : option TaskId :=
  a ← l !! i; b ← l !! j; Some (hasher_finish [HFelt (from_address e); HFelt (Z.max a b)]).
(** [IndexingMode::Latest(hash(keys[0]))] *)
Definition latest_by_key (e : Event) (_ : EventProcessorConfig) : option IndexingMode :=
  k ← keys e !! 0%nat; Some (Latest (hasher_finish [HFelt k])).

(** ** Spawned tasks *)

(** Runs them in order and keeps their results. *)
Fixpoint run_tasks (ts : list (nat * proc unit)) (w : World S)
  : gmap nat (outcome ProcessorError unit) * World S :=
  match ts with
  | [] => (∅, w)
  | (i, t) :: ts =>
      let '(r, w) := t w in
      let '(rs, w) := run_tasks ts w in (<[i := r]> rs, w)
  end.
(** [try_join_all(tasks).await?.into_iter()], [result?] for each *)
Definition join_results (rs : list (outcome ProcessorError unit)) : outcome ProcessorError unit :=
  if existsb is_panic rs then Err JoinError else fold_outcome (λ _ r, r) rs tt.
Definition spawn_all (ts : list (proc unit)) : proc unit := λ w,
  let '(rs, w') := run_tasks (schedule (requests w) (imap pair ts)) w in
  (join_results (omap (λ i, rs !! i) (seq 0 (length ts))), w').
(** [tokio::spawn(m)] *)
Definition in_background {A} (m : proc A) : proc unit := λ w, (Ok tt, (m w).2).

(** ** Transfers *)
Definition erc20_process (l : list Felt) (from_idx to_idx : nat) (values : list Felt) (value_idx : nat)
    (ctx : EventProcessorContext) : proc unit :=
  let token_address := from_address (ctx_event ctx) in
  let! from := felt_at l from_idx in
  let! to := felt_at l to_idx in
  let! value := u256_at values value_idx in
  Erc.try_register_token_contract token_address true ;;;
  let token_id := TokenContract token_address in
  cache_update_balance_diff token_id from to value ;;;
  with_storage (store_token_transfer token_id from to value (ctx_block_timestamp ctx) (ctx_event_id ctx)).

Definition Erc20TransferProcessor : processor := {|
  event_key := "Transfer";
  validate e := keys_len e 3 && data_len e 2;
  should_process := default_should_process;
  task_identifier e := pair_task e (keys e) 1 2;
  task_dependencies := default_task_dependencies;
  indexing_mode := default_indexing_mode;
  process ctx := erc20_process (keys (ctx_event ctx)) 1 2 (data (ctx_event ctx)) 0 ctx
|}.
Definition Erc20LegacyTransferProcessor : processor := {|
  event_key := "Transfer";
  validate e := keys_len e 1 && data_len e 4;
  should_process := default_should_process;
  task_identifier e := pair_task e (data e) 0 1;
  task_dependencies := default_task_dependencies;
  indexing_mode := default_indexing_mode;
  process ctx := erc20_process (data (ctx_event ctx)) 0 1 (data (ctx_event ctx)) 2 ctx
|}.

(** The part the ERC721 and ERC1155 processors share: the token moves. *)
Definition move_token (token_address : Felt) (token_id : U256) (from to : Felt) (amount : U256)
    (ctx : EventProcessorContext) : proc unit :=
  let id := Nft token_address token_id in
  Erc.try_register_nft_token_metadata id token_address token_id ;;;
  cache_update_balance_diff id from to amount ;;;
  with_storage (store_token_transfer id from to amount (ctx_block_timestamp ctx) (ctx_event_id ctx)).

Definition erc721_process (l : list Felt) (from_idx to_idx token_idx : nat) (ctx : EventProcessorContext)
  : proc unit :=
  let token_address := from_address (ctx_event ctx) in
  let! from := felt_at l from_idx in
  let! to := felt_at l to_idx in
  let! token_id := u256_at l token_idx in
  Erc.try_register_token_contract token_address false ;;;
  move_token token_address token_id from to 1 ctx.

Definition Erc721TransferProcessor : processor := {|
  event_key := "Transfer";
  validate e := keys_len e 5 && data_len e 0;
  should_process := default_should_process;
  task_identifier e := token_task e (keys e) 3;
  task_dependencies := default_task_dependencies;
  indexing_mode := default_indexing_mode;
  process ctx := erc721_process (keys (ctx_event ctx)) 1 2 3 ctx
|}.
Definition Erc721LegacyTransferProcessor : processor := {|
  event_key := "Transfer";
  validate e := keys_len e 1 && data_len e 4;
  should_process := default_should_process;
  task_identifier e := token_task e (data e) 2;
  task_dependencies := default_task_dependencies;
  indexing_mode := default_indexing_mode;
  process ctx := erc721_process (data (ctx_event ctx)) 0 1 2 ctx
|}.

Definition erc1155_single_process (l : list Felt) (from_idx to_idx : nat) (d : list Felt)
    (token_idx amount_idx : nat) (ctx : EventProcessorContext) : proc unit :=
  let token_address := from_address (ctx_event ctx) in
  let! from := felt_at l from_idx in
  let! to := felt_at l to_idx in
  let! token_id := u256_at d token_idx in
  let! amount := u256_at d amount_idx in
  Erc.try_register_token_contract token_address false ;;;
  move_token token_address token_id from to amount ctx.

Definition Erc1155TransferSingleProcessor : processor := {|
  event_key := "TransferSingle";
  validate e := keys_len e 4 && data_len e 4;
  should_process := default_should_process;
  task_identifier := address_task;
  task_dependencies := default_task_dependencies;
  indexing_mode := default_indexing_mode;
  process ctx := erc1155_single_process (keys (ctx_event ctx)) 2 3 (data (ctx_event ctx)) 0 2 ctx
|}.
(** [let _operator = ctx.event.data[0]] *)
Definition Erc1155LegacyTransferSingleProcessor : processor := {|
  event_key := "TransferSingle";
  validate e := keys_len e 1 && data_len e 7;
  should_process := default_should_process;
  task_identifier e := token_task e (data e) 3;
  task_dependencies := default_task_dependencies;
  indexing_mode := default_indexing_mode;
  process ctx := felt_at (data (ctx_event ctx)) 0 ;;;
    erc1155_single_process (data (ctx_event ctx)) 1 2 (data (ctx_event ctx)) 3 5 ctx
|}.

(** *** Batches *)

(** [felt.try_into().unwrap_or(0u64) as usize] *)
Definition felt_to_usize (f : Felt) : Z := if (0 <=? f) && (f <? 2 ^ 64) then f else 0.
(** [Vec::<U256>::with_capacity(n)] panics over [isize::MAX] bytes. *)
Definition with_capacity (n : Z) : proc unit :=
  if n * 32 >? 2 ^ 63 - 1 then st_lift Panic else st_ret tt.

(** The loop that reads the token ids, for at most [n] of them. *)
Fixpoint read_ids (n : nat) (d : list Felt) (current_idx : nat) : proc (list U256 * nat) :=
  match n with
  | O => st_ret ([], current_idx)
  | Datatypes.S n =>
      if (length d <=? current_idx + 1)%nat then st_ret ([], current_idx)
      else
        let! token_id := u256_at d current_idx in
        let! (ids, idx) := read_ids n d (current_idx + 2) in
        st_ret (token_id :: ids, idx)
  end.
(** The ids are read up to the end of the data at most, so no more than
    [length d] times. *)
Definition read_token_ids (ids_len : Z) (d : list Felt) (start : nat) : proc (list U256 * nat) :=
  read_ids (Z.to_nat (Z.min ids_len (Z.of_nat (length d)))) d start.

(** The ids that have an amount, with the place of the amount. *)
Fixpoint with_amounts (values_len : Z) (d : list Felt) (current_idx idx : nat) (ids : list U256)
  : list (U256 * nat) :=
  match ids with
  | [] => []
  | token_id :: ids =>
      if (values_len <=? Z.of_nat idx) || (length d <=? current_idx + idx * 2 + 1)%nat then []
      else (token_id, (current_idx + idx * 2)%nat) :: with_amounts values_len d current_idx (Datatypes.S idx) ids
  end.

Definition batch_tasks (token_address from to : Felt) (d : list Felt) (values_len : Z) (current_idx : nat)
    (ids : list U256) (ctx : EventProcessorContext) : list (proc unit) :=
  (λ '(token_id, i), let! amount := u256_at d i in move_token token_address token_id from to amount ctx) <$>
    with_amounts values_len d current_idx 0 ids.

(** After the ids: the number of amounts, the contract, the tasks. *)
Definition batch_rest (token_address from to : Felt) (d : list Felt) (ids : list U256) (current_idx : nat)
    (ctx : EventProcessorContext) : proc unit :=
  let! values_len := felt_at d current_idx in
  Erc.try_register_token_contract token_address false ;;;
  spawn_all (batch_tasks token_address from to d (felt_to_usize values_len) (current_idx + 1) ids ctx).

Definition Erc1155TransferBatchProcessor : processor := {|
  event_key := "TransferBatch";
  validate e := keys_len e 4 && negb (data_len e 0);
  should_process := default_should_process;
  task_identifier := address_task;
  task_dependencies := default_task_dependencies;
  indexing_mode := default_indexing_mode;
  process ctx :=
    let d := data (ctx_event ctx) in
    let token_address := from_address (ctx_event ctx) in
    let! from := felt_at (keys (ctx_event ctx)) 2 in
    let! to := felt_at (keys (ctx_event ctx)) 3 in
    let! n := felt_at d 0 in
    with_capacity (felt_to_usize n) ;;;
    let! (ids, current_idx) := read_token_ids (felt_to_usize n) d 1 in
    batch_rest token_address from to d ids current_idx ctx
|}.
Definition Erc1155LegacyTransferBatchProcessor : processor := {|
  event_key := "TransferBatch";
  validate e := keys_len e 1 && (4 <=? length (data e))%nat;
  should_process := default_should_process;
  task_identifier := address_task;
  task_dependencies := default_task_dependencies;
  indexing_mode := default_indexing_mode;
  process ctx :=
    let d := data (ctx_event ctx) in
    let token_address := from_address (ctx_event ctx) in
    felt_at d 0 ;;;
    let! from := felt_at d 1 in
    let! to := felt_at d 2 in
    let! n := felt_at d 3 in
    with_capacity (felt_to_usize n) ;;;
    let! (ids, current_idx) := read_token_ids (felt_to_usize n) d 4 in
    if (length d <=? current_idx)%nat then st_ret tt
    else batch_rest token_address from to d ids current_idx ctx
|}.

(** ** Metadata updates *)
Definition metadata_should_process (e : Event) (config : EventProcessorConfig) : bool :=
  should_process_metadata_updates config (from_address e).

Definition refresh_token (token_address : Felt) (token_id : U256) : proc unit :=
  let! metadata := Erc.ask_metadata (Erc.fetch_token_metadata token_address token_id) in
  with_storage (update_token_metadata (Nft token_address token_id) metadata).

Definition Erc4906MetadataUpdateProcessor : processor := {|
  event_key := "MetadataUpdate";
  validate e := keys_len e 3 && data_len e 0;
  should_process := metadata_should_process;
  task_identifier e := token_task e (keys e) 1;
  task_dependencies e := Some [hasher_finish [HFelt (from_address e)]];
  indexing_mode := latest_by_key;
  process ctx :=
    if metadata_updates_only_at_head (ctx_config ctx) && negb (ctx_is_at_head ctx) then st_ret tt
    else
      let token_address := from_address (ctx_event ctx) in
      let! token_id := u256_at (keys (ctx_event ctx)) 1 in
      let! w := st_get in
      if negb (Cache.is_token_registered (Nft token_address token_id) (cache w)) then st_ret tt
      else if async_metadata_updates (ctx_config ctx)
      then in_background (refresh_token token_address token_id)
      else refresh_token token_address token_id
|}.

(** The loop over a range of token ids: the ids for which a task is spawned, and
    whether the increment after the last one overflows, which is a panic. The fuel
    is the number of turns. *)
Fixpoint token_range (fuel : nat) (token_id to_token_id : U256) : list U256 * bool :=
  match fuel with
  | O => ([], false)
  | Datatypes.S fuel =>
      if token_id <=? to_token_id then
        match u256_add token_id 1 with
        | None => ([token_id], true)
        | Some next => let '(l, overflow) := token_range fuel next to_token_id in (token_id :: l, overflow)
        end
      else ([], false)
  end.
Definition tokens_between (from_token_id to_token_id : U256) : list U256 * bool :=
  token_range (Z.to_nat (to_token_id - from_token_id + 1)) from_token_id to_token_id.

Definition Erc4906BatchMetadataUpdateProcessor : processor := {|
  event_key := "BatchMetadataUpdate";
  validate e := keys_len e 5 && data_len e 0;
  should_process := metadata_should_process;
  task_identifier := address_task;
  task_dependencies := default_task_dependencies;
  indexing_mode := default_indexing_mode;
  process ctx :=
    if metadata_updates_only_at_head (ctx_config ctx) && negb (ctx_is_at_head ctx) then st_ret tt
    else
      let token_address := from_address (ctx_event ctx) in
      let! from_token_id := u256_at (keys (ctx_event ctx)) 1 in
      let! to_token_id := u256_at (keys (ctx_event ctx)) 3 in
      let '(ids, overflow) := tokens_between from_token_id to_token_id in
      let tasks := refresh_token token_address <$> ids in
      if overflow then in_background (spawn_all tasks) ;;; st_lift Panic
      else if async_metadata_updates (ctx_config ctx) then in_background (spawn_all tasks)
      else spawn_all tasks
|}.

Definition Erc7572ContractUriUpdatedProcessor : processor := {|
  event_key := "ContractURIUpdated";
  validate e := keys_len e 1 && data_len e 0;
  should_process := default_should_process;
  task_identifier := address_task;
  task_dependencies := default_task_dependencies;
  indexing_mode := latest_by_key;
  process ctx :=
    let contract_address := from_address (ctx_event ctx) in
    let! w := st_get in
    if negb (Cache.is_token_registered (TokenContract contract_address) (cache w)) then st_ret tt
    else Erc.update_contract_metadata contract_address
|}.
End operations.

(** ** Lemmas *)
Section lemmas.
Context `{CairoSerde} `{MetadataEnv} `{DojoTypes} {DM : DashMap} {U : U256Ops} {HO : HashOrder}.
Context `{Hasher} {SC : Schedule} {S : Type} `{!ProcessorStorage S}.
#[local] Abbreviation proc A := (st (World S) ProcessorError A).

(** The fuel of the loop over a range is enough: it visits every id of the range
    once, in order; a range that ends below the largest number does not overflow. *)
Lemma token_range_exact fuel : ∀ from to, 0 ≤ from → to < U256_MAX → Z.to_nat (to - from + 1) = fuel →
  token_range fuel from to = (seqZ from (to - from + 1), false).
Proof.
  induction fuel as [|fuel IH]; intros from to Hfrom Hto Hfuel; cbn [token_range].
  { by rewrite seqZ_nil by lia. }
  rewrite (proj2 (Z.leb_le _ _)) by lia. rewrite u256_add_exact by (unfold u256_ok in *; lia).
  rewrite IH by lia. rewrite (seqZ_cons from) by lia. do 2 f_equal. f_equal; lia.
Qed.
Lemma tokens_between_exact from to : 0 ≤ from → to < U256_MAX →
  tokens_between from to = (seqZ from (to - from + 1), false).
Proof. intros. by apply token_range_exact. Qed.
(** One that ends there panics after its last id, when additions are checked. *)
Lemma tokens_between_overflow from : u256_add U256_MAX 1 = None → 0 ≤ from ≤ U256_MAX →
  tokens_between from U256_MAX = (seqZ from (U256_MAX - from + 1), true).
Proof.
  intros Hov Hfrom. unfold tokens_between. remember (Z.to_nat (U256_MAX - from + 1)) as fuel eqn:Hf.
  revert from Hfrom Hf. induction fuel as [|fuel IH]; intros from Hfrom Hf; [lia|]. cbn [token_range].
  rewrite (proj2 (Z.leb_le _ _)) by lia. rewrite (seqZ_cons from) by lia.
  destruct (Z.eq_dec from U256_MAX) as [->|Hne].
  - rewrite Hov. by rewrite seqZ_nil by lia.
  - rewrite u256_add_exact by (unfold u256_ok; lia). rewrite IH by lia. do 2 f_equal. f_equal; lia.
Qed.

(** A number as the two felts of its encoding. *)
Definition words (v : U256) : list Felt := [Erc.u256_low v; Erc.u256_high v].

Lemma words_deserialize pre v post i :
  0 ≤ v < 2 ^ 256 → i = length pre → u256_deserialize (pre ++ words v ++ post) i = Some v.
Proof.
  intros Hv ->. rewrite u256_deserialize_at. unfold words. cbn [app].
  rewrite !lookup_app_r by lia. rewrite Nat.sub_diag.
  replace (Datatypes.S (length pre) - length pre)%nat with 1%nat by lia. cbn. unfold Erc.u256_low, Erc.u256_high. pose proof (Z.mod_pos_bound v (2 ^ 128) ltac:(lia)).
  assert (v / 2 ^ 128 < 2 ^ 128) by (apply Z.div_lt_upper_bound; lia).
  rewrite (proj2 (Z.ltb_lt _ _)), (proj2 (Z.ltb_lt _ _)) by lia. simpl. f_equal.
  rewrite (Z.div_mod v (2 ^ 128)) at 3 by lia. lia.
Qed.

Lemma u256_at_words pre v post i (w : World S) :
  0 ≤ v < 2 ^ 256 → i = length pre → u256_at (pre ++ words v ++ post) i w = (Ok v, w).
Proof. intros Hv Hi. unfold u256_at, st_lift. by rewrite words_deserialize. Qed.

(** Two lists with the same two felts at two places hold the same number there. *)
Lemma u256_at_eq l i l' i' :
  l !! i = l' !! i' → l !! Datatypes.S i = l' !! Datatypes.S i' → u256_at (S := S) l i = u256_at l' i'.
Proof. intros Ha Hb. unfold u256_at. by rewrite !u256_deserialize_at, Ha, Hb. Qed.

Definition in_range (v : U256) : Prop := 0 ≤ v < 2 ^ 256.

(** The ids of a batch are read back. *)
Lemma read_ids_words ids : ∀ pre post n (w : World S),
  Forall in_range ids → (length ids ≤ n)%nat → n = length ids ∨ post = [] →
  read_ids n (pre ++ (ids ≫= words) ++ post) (length pre) w =
    (Ok (ids, (length pre + 2 * length ids)%nat), w).
Proof.
  induction ids as [|v ids IH]; intros pre post n w Hids Hn Hor.
  - replace (length pre + 2 * length [])%nat with (length pre) by (simpl; lia).
    destruct n as [|n]; [done|]. destruct Hor as [?| ->]; [done|]. cbn [mbind list_bind read_ids]. rewrite !app_nil_r.
    by rewrite (proj2 (Nat.leb_le _ _)) by lia.
  - apply Forall_cons in Hids as [Hv Hids]. destruct n as [|n]; [simpl in Hn; lia|].
    rewrite bind_cons, <- !(assoc (++)). cbn [read_ids].
    rewrite (proj2 (Nat.leb_gt _ _)) by (rewrite !length_app; simpl; lia).
    unfold st_bind at 1. rewrite u256_at_words by done. unfold st_bind.
    specialize (IH (pre ++ words v) post n w Hids). rewrite <- (assoc (++)), length_app in IH.
    change (length (words v)) with 2%nat in IH. rewrite IH by (simpl in *; lia || intuition lia).
    unfold st_ret. do 3 f_equal. simpl. lia.
Qed.

(** Amounts. *)
Lemma with_amounts_all vl d cur : ∀ ids idx,
  Z.of_nat (idx + length ids) ≤ vl → (cur + (idx + length ids) * 2 ≤ length d)%nat →
  with_amounts vl d cur idx ids = imap (λ j id, (id, (cur + (idx + j) * 2)%nat)) ids.
Proof.
  induction ids as [|id ids IH]; intros idx Hv Hd; [done|]. simpl in *.
  rewrite (proj2 (Z.leb_gt _ _)), (proj2 (Nat.leb_gt _ _)) by lia. simpl. f_equal; [do 2 f_equal; lia|].
  rewrite IH by lia. apply imap_ext. intros j x _. simpl. do 2 f_equal. lia.
Qed.

Lemma bind_words_app (l1 l2 : list U256) : ((l1 ++ l2) ≫= words) = (l1 ≫= words) ++ (l2 ≫= words).
Proof. apply bind_app. Qed.
Lemma length_words (l : list U256) : length (l ≫= words) = (2 * length l)%nat.
Proof. induction l as [|v l IH]; [done|]. rewrite bind_cons, length_app, IH. simpl. lia. Qed.

Lemma amounts_at pre amounts post j v :
  Forall in_range amounts → amounts !! j = Some v →
  u256_deserialize (pre ++ (amounts ≫= words) ++ post) (length pre + j * 2) = Some v.
Proof.
  intros Hr Hj. pose proof Hj as Hv. apply (Forall_lookup_1 _ _ _ _ Hr) in Hv.
  rewrite <- (take_drop_middle amounts j v Hj), bind_words_app, bind_cons, <- !(assoc (++)), (assoc (++) pre).
  apply words_deserialize; [exact Hv|]. rewrite length_app, length_words, length_take_le; [lia|].
  apply lookup_lt_Some in Hj. lia.
Qed.

(** The tasks of a well-formed batch: each id with its amount. *)
Lemma batch_tasks_words addr from to pre ids amounts ctx :
  length ids = length amounts → Forall in_range amounts →
  batch_tasks addr from to (pre ++ (amounts ≫= words)) (Z.of_nat (length ids)) (length pre) ids ctx =
    zip_with (λ id amount, move_token (S := S) addr id from to amount ctx) ids amounts.
Proof.
  intros Hlen Hr. unfold batch_tasks. rewrite with_amounts_all by (rewrite ?length_app, ?length_words; lia).
  apply list_eq. intros j. rewrite list_lookup_fmap, list_lookup_imap, lookup_zip_with.
  destruct (ids !! j) as [id|] eqn:Hid; [|done]. simpl.
  destruct (lookup_lt_is_Some_2 amounts j) as [v Hv]; [rewrite <- Hlen; by eapply lookup_lt_Some|].
  rewrite Hv. simpl. f_equal. pose proof (amounts_at pre amounts [] j v Hr Hv) as Ha.
  rewrite app_nil_r in Ha. unfold u256_at. replace (length pre + (0 + j) * 2)%nat with (length pre + j * 2)%nat by lia.
  by rewrite Ha.
Qed.

(** *** The differences a transfer leaves in the cache *)
#[local] Abbreviation erc w := (Cache.im_erc_cache (cache w)).
#[local] Abbreviation registered t w := (Cache.is_token_registered t (cache w)).

Lemma tracks_diffs os (c c' : Cache.ErcCache) :
  Cache.balances_diff c' = Cache.balances_diff c → Cache.total_supply_diff c' = Cache.total_supply_diff c →
  Cache.tracks os c → Cache.tracks os c'.
Proof. intros Hb Hs []. split; by rewrite ?Hb, ?Hs. Qed.

Lemma tracks_perm os os' c : os ≡ₚ os' → Cache.tracks os c → Cache.tracks os' c.
Proof. intros Hp []. split; [done..| |]; intros x; by rewrite <- Hp. Qed.

Lemma volume_ok_sub os os' : os ⊆+ os' → Cache.volume_ok os' → Cache.volume_ok os.
Proof. intros [k ->]%submseteq_Permutation. apply Cache.volume_ok_app. Qed.

(** The lock changes no difference and registers nothing. *)
Lemma cache_lock_spec t (w : World S) : ∃ l c,
  cache_lock t w = (Ok l, set_cache c w) ∧ (l = None ↔ registered t w = true) ∧
  (∀ t', Cache.is_token_registered t' c = registered t' w) ∧
  Cache.balances_diff (Cache.im_erc_cache c) = Cache.balances_diff (erc w) ∧
  Cache.total_supply_diff (Cache.im_erc_cache c) = Cache.total_supply_diff (erc w).
Proof.
  unfold cache_lock, Cache.get_token_registration_lock, Cache.erc_get_token_registration_lock,
    Cache.is_token_registered, Cache.erc_is_token_registered.
  destruct (dm_get t (Cache.token_id_registry (erc w))) as [[|m|]|] eqn:Ht; simpl;
    eexists _, _; (split; [done|]); simpl; split_and!; try done.
  all: intros t'; rewrite dm_get_insert; case_decide; [subst; by rewrite Ht|done].
Qed.

(** A registration that succeeded. *)
Lemma register_contract_Ok addr is_erc20 (w w' : World S) :
  Erc.try_register_token_contract addr is_erc20 w = (Ok tt, w') →
  (∀ t, registered t w' = registered t w || bool_decide (t = TokenContract addr)) ∧
  Cache.balances_diff (erc w') = Cache.balances_diff (erc w) ∧
  Cache.total_supply_diff (erc w') = Cache.total_supply_diff (erc w).
Proof.
  unfold Erc.try_register_token_contract. set (id := TokenContract addr).
  destruct (cache_lock_spec id w) as (l & c & Hl & Hnone & Hreg & Hb & Hs).
  unfold st_bind at 1. rewrite Hl. destruct l as [m|].
  - destruct (registered id w) eqn:Hr; [by pose proof (proj2 Hnone eq_refl)|].
    cbn [st_bind st_get]. simpl (cache (set_cache _ _)). rewrite Hreg, Hr.
    intros ((([n sy] & d) & md) & w1 & Ha & Hk)%st_bind_Ok.
    apply st_bind_Ok in Hk as ([] & w2 & Hst & [= <-]).
    assert (cache w2 = c) as Hc.
    { unfold with_storage, st_map_err, st_zoom in Hst. destruct (register_token_contract _ _ _ _ _ _) in Hst.
      simplify_eq/=. unfold Erc.ask_metadata, with_requests, st_map_err, st_zoom in Ha.
      by destruct (Erc.fetch_contract_metadata _ _ _) in Ha; simplify_eq/=. }
    simpl. rewrite Hc. split_and!; [|done..]. intros t.
    unfold Cache.is_token_registered, Cache.erc_is_token_registered in *. simpl. rewrite dm_get_insert.
    rewrite <- Hreg. case_decide; [subst; by rewrite bool_decide_true, orb_true_r|].
    by rewrite bool_decide_false, orb_false_r.
  - intros [= <-]. simpl. split_and!; [|done..]. intros t. rewrite Hreg.
    destruct (bool_decide_reflect (t = id)) as [->|]; [|by rewrite orb_false_r]. by rewrite (proj1 Hnone).
Qed.

(** The token of a contract that a new NFT adds to. *)
Definition mint_ops (addr : Felt) : list Cache.diff_op :=
  Cache.transfer_ops (Cache.mkTransfer (TokenContract addr) FELT_ZERO 1 1).

Lemma update_tracks t from to v os (w : World S) :
  Cache.tracks os (erc w) → Cache.volume_ok (os ++ Cache.transfer_ops (Cache.mkTransfer t from to v)) →
  ∃ c, cache_update_balance_diff t from to v w = (Ok tt, set_cache c w) ∧
    (∀ t', Cache.is_token_registered t' c = registered t' w) ∧
    Cache.tracks (os ++ Cache.transfer_ops (Cache.mkTransfer t from to v)) (Cache.im_erc_cache c).
Proof.
  intros Ht Hv. unfold cache_update_balance_diff, Cache.update_balance_diff.
  rewrite Cache.update_balance_diff_ops. destruct (Cache.run_ops_tracks os _ _ Ht Hv) as (c & Hc & Htc & Hr).
  rewrite Hc. simpl. eexists. split; [done|]. split; [|done]. intros t'.
  unfold Cache.is_token_registered, Cache.erc_is_token_registered. simpl. by rewrite Hr.
Qed.

Lemma register_nft_Ok addr t os (w w' : World S) :
  Cache.tracks os (erc w) → Cache.volume_ok (os ++ mint_ops addr) →
  Erc.try_register_nft_token_metadata (Nft addr t) addr t w = (Ok tt, w') →
  (∀ t', registered t' w' = registered t' w || bool_decide (t' = Nft addr t)) ∧
  Cache.tracks (os ++ if registered (Nft addr t) w then [] else mint_ops addr) (erc w').
Proof.
  intros Ht Hv. unfold Erc.try_register_nft_token_metadata. set (id := Nft addr t).
  destruct (cache_lock_spec id w) as (l & c & Hl & Hnone & Hreg & Hb & Hs).
  unfold st_bind at 1. rewrite Hl. destruct l as [m|].
  - destruct (registered id w) eqn:Hr; [by pose proof (proj2 Hnone eq_refl)|].
    cbn [st_bind st_get]. simpl (cache (set_cache _ _)). rewrite Hreg, Hr.
    intros (md & w1 & Ha & Hk)%st_bind_Ok. apply st_bind_Ok in Hk as ([] & w2 & Hst & Hk).
    assert (cache w2 = c) as Hc.
    { unfold with_storage, st_map_err, st_zoom in Hst. destruct (register_nft_token _ _ _ _) in Hst.
      simplify_eq/=. unfold Erc.ask_metadata, with_requests, st_map_err, st_zoom in Ha.
      by destruct (Erc.fetch_token_metadata _ _ _) in Ha; simplify_eq/=. }
    apply st_bind_Ok in Hk as ([] & w3 & [= <-] & Hk).
    destruct (update_tracks (TokenContract addr) FELT_ZERO 1 1 os
      (set_cache (Cache.mark_token_registered id (cache w2)) w2)) as (c' & Hu & Hreg' & Htr);
      [by eapply tracks_diffs; [| |exact Ht]; simpl; rewrite Hc|done|].
    rewrite Hu in Hk. injection Hk as <-. simpl. split; [|done]. intros t'. rewrite Hreg'.
    unfold Cache.is_token_registered, Cache.erc_is_token_registered in *. simpl. rewrite Hc, dm_get_insert.
    rewrite <- Hreg. case_decide; [subst; by rewrite bool_decide_true, orb_true_r|].
    by rewrite bool_decide_false, orb_false_r.
  - intros [= <-]. simpl. assert (registered id w = true) as Hr by by apply Hnone. rewrite Hr, app_nil_r. split.
    + intros t'. rewrite Hreg. destruct (bool_decide_reflect (t' = id)) as [->|]; [|by rewrite orb_false_r].
      by rewrite Hr.
    + by eapply tracks_diffs; [| |exact Ht].
Qed.

(** A transfer that was handled, in a cache that tracks [os]. *)
Lemma move_token_Ok addr t from to v ctx os (w w' : World S) :
  let ops := Cache.transfer_ops (Cache.mkTransfer (Nft addr t) from to v) in
  Cache.tracks os (erc w) → Cache.volume_ok (os ++ mint_ops addr ++ ops) →
  move_token addr t from to v ctx w = (Ok tt, w') →
  (∀ t', registered t' w' = registered t' w || bool_decide (t' = Nft addr t)) ∧
  Cache.tracks (os ++ (if registered (Nft addr t) w then [] else mint_ops addr) ++ ops) (erc w').
Proof.
  intros ops Ht Hv. unfold move_token. intros ([] & w1 & Hr & Hk)%st_bind_Ok.
  apply st_bind_Ok in Hk as ([] & w2 & Hu & Hs).
  destruct (register_nft_Ok addr t os w w1) as [Hreg Ht1]; [done| |done|].
  { eapply Cache.volume_ok_app. by rewrite <- (assoc (++)). }
  destruct (update_tracks (Nft addr t) from to v _ w1 Ht1) as (c & Hu' & Hreg' & Ht2).
  { eapply volume_ok_sub; [|exact Hv]. rewrite <- !(assoc (++)). apply submseteq_app; [done|].
    fold ops. destruct (registered _ w); [|done]. apply submseteq_inserts_l. done. }
  rewrite Hu in Hu'. injection Hu' as ->. fold ops in Ht2. rewrite <- (assoc (++)) in Ht2.
  assert (cache w' = c) as Hc.
  { unfold with_storage, st_map_err, st_zoom in Hs. destruct (store_token_transfer _ _ _ _ _ _ _) in Hs.
    by simplify_eq/=. }
  rewrite Hc. split; [|done]. intros t'. by rewrite Hreg', Hreg.
Qed.

(** A list of transfers of tokens of one contract: which tokens are new, and
    what the cache then tracks. *)
Definition accounted (addr from to : Felt) (l : list (U256 * U256)) os (w w' : World S) : Prop :=
  ∃ new, NoDup new ∧ (∀ t, t ∈ new ↔ t ∈ l.*1 ∧ registered (Nft addr t) w = false) ∧
    (∀ t, registered t w' = registered t w || bool_decide (t ∈ Nft addr <$> l.*1)) ∧
    Cache.tracks (os ++ (new ≫= λ _, mint_ops addr) ++
      (l ≫= λ x, Cache.transfer_ops (Cache.mkTransfer (Nft addr x.1) from to x.2))) (erc w').

(** The volume if every token were new. *)
Definition batch_ops (addr from to : Felt) (l : list (U256 * U256)) : list Cache.diff_op :=
  l ≫= λ x, mint_ops addr ++ Cache.transfer_ops (Cache.mkTransfer (Nft addr x.1) from to x.2).

#[local] Arguments batch_ops : simpl never.
#[local] Arguments mint_ops : simpl never.

Lemma batch_ops_cons addr from to t v l :
  batch_ops addr from to ((t, v) :: l) =
    mint_ops addr ++ Cache.transfer_ops (Cache.mkTransfer (Nft addr t) from to v) ++ batch_ops addr from to l.
Proof. unfold batch_ops. by rewrite bind_cons, <- (assoc (++)). Qed.

Lemma accounted_cons addr from to t v l os (w w1 w' : World S) :
  let ops := Cache.transfer_ops (Cache.mkTransfer (Nft addr t) from to v) in
  (∀ t', registered t' w1 = registered t' w || bool_decide (t' = Nft addr t)) →
  accounted addr from to l (os ++ (if registered (Nft addr t) w then [] else mint_ops addr) ++ ops) w1 w' →
  accounted addr from to ((t, v) :: l) os w w'.
Proof.
  intros ops Hreg (new & Hnd & Hnew & Hreg' & Ht).
  assert (t ∉ new) as Hni.
  { rewrite Hnew, Hreg, (bool_decide_true (Nft addr t = _)), orb_true_r by done. naive_solver. }
  assert (∀ t', t' ≠ t → registered (Nft addr t') w1 = registered (Nft addr t') w) as Hne.
  { intros t' Ht'. rewrite Hreg, bool_decide_false, orb_false_r; [done|congruence]. }
  assert (∀ t', registered t' w' = registered t' w || bool_decide (t' ∈ Nft addr <$> ((t, v) :: l).*1)) as Hr.
  { intros t'. rewrite Hreg', Hreg, !fmap_cons. simpl.
    rewrite (bool_decide_ext (t' ∈ _ :: _) _ (elem_of_cons _ _ _)), bool_decide_or. apply symmetry, orb_assoc. }
  destruct (registered (Nft addr t) w) eqn:Hw.
  - exists new. split; [done|]. split; [|split; [exact Hr|]].
    + intros t'. destruct (decide (t' = t)) as [->|Hd]; [split; [done|intros [_ ?]; congruence]|].
      rewrite Hnew, (Hne t' Hd). simpl. rewrite elem_of_cons. naive_solver.
    + eapply tracks_perm; [|exact Ht]. rewrite bind_cons. simpl. fold ops. solve_Permutation.
  - exists (t :: new). split; [by constructor|]. split; [|split; [exact Hr|]].
    + intros t'. rewrite elem_of_cons. destruct (decide (t' = t)) as [->|Hd]; [simpl; set_solver|].
      rewrite Hnew, (Hne t' Hd). simpl. rewrite elem_of_cons. naive_solver.
    + eapply tracks_perm; [|exact Ht]. rewrite !bind_cons. simpl. fold ops. solve_Permutation.
Qed.

Lemma run_tasks_dom ts (w : World S) i : is_Some ((run_tasks ts w).1 !! i) → i ∈ ts.*1.
Proof.
  revert w. induction ts as [|[j t] ts IH]; intros w; simpl; [rewrite lookup_empty; by intros []|].
  destruct (t w) as [r w1]. specialize (IH w1). destruct (run_tasks ts w1) as [rs w2]. simpl in *.
  rewrite lookup_insert. case_decide; [subst; left|]. intros. right. auto.
Qed.

Lemma run_tasks_accounted addr from to ctx : ∀ (l : list (nat * (U256 * U256))) os (w : World S),
  let '(rs, w') := run_tasks (prod_map id (λ x, move_token addr x.1 from to x.2 ctx) <$> l) w in
  NoDup l.*1 → Cache.tracks os (erc w) → Cache.volume_ok (os ++ batch_ops addr from to l.*2) →
  (∀ i r, rs !! i = Some r → r = Ok tt) → accounted addr from to l.*2 os w w'.
Proof.
  induction l as [|[i [t v]] l IH]; intros os w; cbn [fmap list_fmap].
  - intros _ Ht _ _. exists []. split; [constructor|]. simpl. split; [set_solver|].
    rewrite app_nil_r. split; [|done]. intros t. apply symmetry, orb_false_r.
  - simpl. destruct (move_token addr t from to v ctx w) as [r w1] eqn:Hm.
    set (os1 := os ++ (if registered (Nft addr t) w then [] else mint_ops addr) ++
      Cache.transfer_ops (Cache.mkTransfer (Nft addr t) from to v)).
    specialize (IH os1 w1). pose proof (run_tasks_dom
      (prod_map id (λ x, move_token addr x.1 from to x.2 ctx) <$> l) w1 i) as Hdom.
    destruct (run_tasks _ w1) as [rs w2]. simpl in Hdom. intros [Hi Hnd]%NoDup_cons Ht Hv Hok.
    rewrite batch_ops_cons in Hv.
    assert (r = Ok tt) as -> by (apply (Hok i); by rewrite lookup_insert_eq).
    destruct (move_token_Ok addr t from to v ctx os w w1 Ht) as [Hreg Ht1]; [|done|].
    { eapply volume_ok_sub; [|exact Hv]. rewrite !(assoc (++)). by apply submseteq_inserts_r. }
    apply (accounted_cons addr from to t v _ os w w1 w2 Hreg). apply IH; [done|exact Ht1| |].
    + eapply volume_ok_sub; [|exact Hv]. unfold os1. rewrite <- !(assoc (++)).
      apply submseteq_app; [done|]. destruct (registered _ w); [by apply submseteq_inserts_l|done].
    + intros j r Hj. apply (Hok j). rewrite lookup_insert_ne; [done|]. intros <-. apply Hi.
      specialize (Hdom (ex_intro _ r Hj)). rewrite <- list_fmap_compose in Hdom.
      erewrite list_fmap_ext; [exact Hdom|]. by intros ? [] ?.
Qed.

Lemma imap_pair_snd {A} (l : list A) : (imap pair l).*2 = l.
Proof. apply list_eq. intros i. rewrite list_lookup_fmap, list_lookup_imap. by destruct (l !! i). Qed.
Lemma imap_pair_fst {A} (l : list A) : (imap pair l).*1 = seq 0 (length l).
Proof.
  apply list_eq. intros i. rewrite list_lookup_fmap, list_lookup_imap. destruct (l !! i) as [x|] eqn:Hx; simpl.
  - apply lookup_lt_Some in Hx. by rewrite lookup_seq_lt.
  - apply lookup_ge_None in Hx. by rewrite lookup_seq_ge.
Qed.

Lemma join_results_Ok rs r : join_results rs = Ok tt → r ∈ rs → r = Ok tt.
Proof.
  unfold join_results. destruct (existsb is_panic rs); [done|].
  induction rs as [|x rs IH]; intros Hj Hr; [by apply elem_of_nil in Hr|]. simpl in Hj.
  destruct x as [[]|e|]; simpl in Hj; [|done..]. apply elem_of_cons in Hr as [->|Hr]; auto.
Qed.

Lemma accounted_perm addr from to l l' os (w w' : World S) :
  l ≡ₚ l' → accounted addr from to l os w w' → accounted addr from to l' os w w'.
Proof.
  intros Hp (new & Hnd & Hnew & Hreg & Ht). exists new. split; [done|]. split; [|split].
  - intros t. by rewrite Hnew, Hp.
  - intros t. rewrite Hreg. f_equal. apply bool_decide_ext. by rewrite Hp.
  - eapply tracks_perm; [|exact Ht]. by rewrite Hp.
Qed.

(** Transfers spawned together, in whatever order they take effect. *)
Lemma spawn_all_accounted addr from to ctx l os (w w' : World S) :
  Cache.tracks os (erc w) → Cache.volume_ok (os ++ batch_ops addr from to l) →
  spawn_all ((λ x, move_token addr x.1 from to x.2 ctx) <$> l) w = (Ok tt, w') →
  accounted addr from to l os w w'.
Proof.
  intros Ht Hv. unfold spawn_all. set (f := λ x : U256 * U256, move_token addr x.1 from to x.2 ctx).
  assert (imap pair (f <$> l) = prod_map id f <$> imap pair l) as ->.
  { apply list_eq. intros i. rewrite list_lookup_fmap, !list_lookup_imap, list_lookup_fmap. by destruct (l !! i). }
  match goal with |- context [schedule ?h ?x] =>
    destruct (Permutation_map_inv _ _ (schedule_perm h x : _ ≡ₚ map _ _)) as (l' & Hs & Hp); rewrite Hs; clear Hs end.
  change (map (prod_map id f) l') with (prod_map id f <$> l').
  assert (l'.*2 ≡ₚ l) as Hl2.
  { rewrite <- Hp. by rewrite imap_pair_snd. }
  assert (l'.*1 ≡ₚ seq 0 (length l)) as Hl1.
  { rewrite <- Hp. by rewrite imap_pair_fst. }
  pose proof (run_tasks_accounted addr from to ctx l' os w) as Hrun. fold f in Hrun.
  pose proof (run_tasks_dom (prod_map id f <$> l') w) as Hdom.
  destruct (run_tasks (prod_map id f <$> l') w) as [rs w1]. intros [= Hj <-].
  apply (accounted_perm _ _ _ l'.*2 l); [done|]. apply Hrun.
  - rewrite Hl1. apply NoDup_seq.
  - done.
  - eapply volume_ok_sub; [|exact Hv]. unfold batch_ops. by rewrite Hl2.
  - intros i r Hr. eapply join_results_Ok; [exact Hj|]. apply list_elem_of_omap. exists i. split; [|done].
    rewrite length_fmap, <- Hl1. specialize (Hdom i (ex_intro _ r Hr)). rewrite <- list_fmap_compose in Hdom.
    erewrite list_fmap_ext; [exact Hdom|]. by intros ? [] ?.
Qed.

(** *** Batches that are well formed *)

(** The data of a batch: the ids, then the amounts, each list with its length. *)
Definition batch_data (l : list (U256 * U256)) : list Felt :=
  [Z.of_nat (length l)] ++ (l.*1 ≫= words) ++ [Z.of_nat (length l)] ++ (l.*2 ≫= words).

Definition batch_ok (l : list (U256 * U256)) : Prop :=
  Forall (λ x, in_range x.1 ∧ in_range x.2) l ∧ Z.of_nat (length l) < 2 ^ 58.

Lemma felt_at_Ok l i (w : World S) x : l !! i = Some x → felt_at l i w = (Ok x, w).
Proof. intros Hx. unfold felt_at, st_lift, unwrap. by rewrite Hx. Qed.

(** Reading such a batch, after [pre], is exact. *)
Lemma bind_felt_at {A} l i x (k : Felt → proc A) (w : World S) :
  l !! i = Some x → st_bind (felt_at l i) k w = k x w.
Proof. intros Hx. unfold st_bind. by rewrite (felt_at_Ok _ _ _ x). Qed.

Lemma zip_with_fst_snd_fmap {A B C} (f : A → B → C) (l : list (A * B)) :
  zip_with f l.*1 l.*2 = (λ x, f x.1 x.2) <$> l.
Proof. induction l as [|[a b] l IH]; [done|]. cbn. by f_equal. Qed.

Lemma batch_process addr from to pre l ctx (w : World S) : batch_ok l →
  let d := pre ++ batch_data l in
  let n := felt_to_usize (Z.of_nat (length l)) in
  d !! length pre = Some (Z.of_nat (length l)) ∧
  with_capacity n w = (Ok tt, w) ∧
  read_token_ids n d (length pre + 1) w = (Ok (l.*1, (length pre + 1 + 2 * length l)%nat), w) ∧
  (length d <=? length pre + 1 + 2 * length l)%nat = false ∧
  batch_rest addr from to d l.*1 (length pre + 1 + 2 * length l) ctx w =
    (Erc.try_register_token_contract addr false ;;;
     spawn_all ((λ x, move_token addr x.1 from to x.2 ctx) <$> l)) w.
Proof.
  intros [Hr Hlen] d n. assert (n = Z.of_nat (length l)) as Hn.
  { unfold n, felt_to_usize. by rewrite (proj2 (Z.leb_le _ _)), (proj2 (Z.ltb_lt _ _)) by lia. }
  assert (length d = length pre + 2 + 4 * length l)%nat as Hd.
  { unfold d, batch_data. rewrite !length_app, !length_words, !length_fmap. simpl. lia. }
  assert (d = (pre ++ [Z.of_nat (length l)]) ++ (l.*1 ≫= words) ++ [Z.of_nat (length l)] ++ (l.*2 ≫= words)) as Hd1.
  { unfold d, batch_data. by rewrite <- !(assoc (++)). }
  assert (d = (pre ++ [Z.of_nat (length l)] ++ (l.*1 ≫= words) ++ [Z.of_nat (length l)]) ++ (l.*2 ≫= words)) as Hd2.
  { unfold d, batch_data. by rewrite <- !(assoc (++)). }
  split_and!.
  - unfold d. by rewrite lookup_app_r, Nat.sub_diag by lia.
  - unfold with_capacity. rewrite Hn. by rewrite Z.gtb_ltb, (proj2 (Z.ltb_ge _ _)) by lia.
  - unfold read_token_ids. rewrite Hn, Z.min_l, Nat2Z.id by lia. rewrite Hd1.
    replace (length pre + 1)%nat with (length (pre ++ [Z.of_nat (length l)])) by (rewrite length_app; done).
    rewrite read_ids_words; rewrite ?length_fmap; [done| |done|by left].
    apply Forall_fmap. eapply Forall_impl; [exact Hr|]. by intros ? [].
  - apply Nat.leb_gt. lia.
  - unfold batch_rest, st_bind at 1. rewrite (felt_at_Ok _ _ _ (Z.of_nat (length l))).
    2:{ rewrite Hd1, (assoc (++)), lookup_app_r; rewrite !length_app, length_words, length_fmap; simpl; [|lia].
        by rewrite Nat.sub_diag. }
    fold n. rewrite Hn.
    replace (Z.of_nat (length l)) with (Z.of_nat (length l.*1)) by by rewrite length_fmap.
    replace (length pre + 1 + 2 * length l + 1)%nat with
      (length (pre ++ [Z.of_nat (length l)] ++ (l.*1 ≫= words) ++ [Z.of_nat (length l)]))
      by (rewrite !length_app, length_words, length_fmap; simpl; lia).
    rewrite Hd2, (batch_tasks_words addr from to _ l.*1 l.*2 ctx).
    + by rewrite zip_with_fst_snd_fmap.
    + by rewrite !length_fmap.
    + apply Forall_fmap. eapply Forall_impl; [exact Hr|]. by intros ? [].
Qed.
End lemmas.

(** ** Properties *)
Section properties.
Context `{CairoSerde} `{MetadataEnv} `{DojoTypes} {DM : DashMap} {U : U256Ops} {HO : HashOrder}.
Context `{Hasher} {SC : Schedule} {S : Type} `{!ProcessorStorage S}.

Definition with_event (e : Event) (ctx : EventProcessorContext) : EventProcessorContext :=
  mkCtx (ctx_contract_address ctx) (ctx_block_number ctx) (ctx_block_timestamp ctx) (ctx_event_id ctx) e
    (ctx_config ctx) (ctx_is_at_head ctx).

(** The two layouts of an event do the same in [w]. *)
Definition same_effect (p p' : EventProcessor (World S) ProcessorError) (e e' : Event)
    (ctx : EventProcessorContext) (w : World S) : Prop :=
  validate p e = true ∧ validate p' e' = true ∧ validate p e' = false ∧ validate p' e = false ∧
  process p (with_event e ctx) w = process p' (with_event e' ctx) w.

Lemma new_batch_process addr key op from to l ctx (w : World S) : batch_ok l →
  process Erc1155TransferBatchProcessor (with_event (mkEvent addr [key; op; from; to] (batch_data l)) ctx) w =
    (Erc.try_register_token_contract addr false ;;;
     spawn_all ((λ x, move_token addr x.1 from to x.2
       (with_event (mkEvent addr [key; op; from; to] (batch_data l)) ctx)) <$> l)) w.
Proof.
  intros Hl. set (c := with_event _ ctx).
  destruct (batch_process addr from to [] l c w Hl) as (H0' & Hc & Hr & Hlen & Hrest). cbn [app length] in *.
  cbn [process Erc1155TransferBatchProcessor c with_event ctx_event data keys from_address].
  do 3 (erewrite bind_felt_at by first [exact H0'|reflexivity]).
  change (0 + 1)%nat with 1%nat in Hr. unfold st_bind at 1. rewrite Hc. unfold st_bind at 1. rewrite Hr. exact Hrest.
Qed.

Lemma legacy_batch_process addr key op from to l ctx (w : World S) : batch_ok l →
  process Erc1155LegacyTransferBatchProcessor
    (with_event (mkEvent addr [key] ([op; from; to] ++ batch_data l)) ctx) w =
    (Erc.try_register_token_contract addr false ;;;
     spawn_all ((λ x, move_token addr x.1 from to x.2
       (with_event (mkEvent addr [key] ([op; from; to] ++ batch_data l)) ctx)) <$> l)) w.
Proof.
  intros Hl. set (c := with_event _ ctx).
  destruct (batch_process addr from to [op; from; to] l c w Hl) as (H0' & Hc & Hr & Hlen & Hrest).
  cbn [length] in *.
  cbn [process Erc1155LegacyTransferBatchProcessor c with_event ctx_event data keys from_address].
  do 4 (erewrite bind_felt_at by first [exact H0'|reflexivity]).
  change (3 + 1)%nat with 4%nat in Hr. unfold st_bind at 1. rewrite Hc. unfold st_bind at 1. rewrite Hr.
  change (3 + 1 + 2 * length l)%nat with (4 + 2 * length l)%nat in Hlen, Hrest. rewrite Hlen. exact Hrest.
Qed.

(** An event means the same in the two layouts it has on Starknet. For a
    transfer of ERC20 and ERC721, a single transfer and a well-formed batch of
    ERC1155, each layout is accepted by its own processor and by no other of its
    kind, and the two do the same to the storage, the cache and the requests.
    Transfers of ERC20 and ERC721 also get the same task, whatever the layout; a
    single transfer of ERC1155 does not: the legacy processor tells tokens apart,
    the other serialises the whole contract. *)
Theorem legacy_layouts_equivalent (addr key op from to low high alow ahigh : Felt)
    (l : list (U256 * U256)) (ctx : EventProcessorContext) (w : World S) :
  let e20 := mkEvent addr [key; from; to] [low; high] in
  let l20 := mkEvent addr [key] [from; to; low; high] in
  let e721 := mkEvent addr [key; from; to; low; high] [] in
  let l721 := mkEvent addr [key] [from; to; low; high] in
  let e1155 := mkEvent addr [key; op; from; to] [low; high; alow; ahigh] in
  let l1155 := mkEvent addr [key] [op; from; to; low; high; alow; ahigh] in
  let ebatch := mkEvent addr [key; op; from; to] (batch_data l) in
  let lbatch := mkEvent addr [key] ([op; from; to] ++ batch_data l) in
  same_effect Erc20TransferProcessor Erc20LegacyTransferProcessor e20 l20 ctx w ∧
  same_effect Erc721TransferProcessor Erc721LegacyTransferProcessor e721 l721 ctx w ∧
  same_effect Erc1155TransferSingleProcessor Erc1155LegacyTransferSingleProcessor e1155 l1155 ctx w ∧
  (batch_ok l →
   same_effect Erc1155TransferBatchProcessor Erc1155LegacyTransferBatchProcessor ebatch lbatch ctx w) ∧
  task_identifier (W := World S) (E := ProcessorError) Erc20TransferProcessor e20 =
    task_identifier (W := World S) (E := ProcessorError) Erc20LegacyTransferProcessor l20 ∧
  task_identifier (W := World S) (E := ProcessorError) Erc721TransferProcessor e721 =
    task_identifier (W := World S) (E := ProcessorError) Erc721LegacyTransferProcessor l721 ∧
  task_identifier (W := World S) (E := ProcessorError) Erc1155TransferSingleProcessor e1155 =
    Some (hasher_finish [HFelt addr]) ∧
  task_identifier (W := World S) (E := ProcessorError) Erc1155LegacyTransferSingleProcessor l1155 =
    (t ← u256_deserialize [low; high] 0; Some (hasher_finish [HFelt addr; HU256 t])).
Proof.
  intros e20 l20 e721 l721 e1155 l1155 ebatch lbatch. unfold same_effect. split_and!; try reflexivity.
  - cbn [process Erc20TransferProcessor Erc20LegacyTransferProcessor]. unfold erc20_process. cbn [ctx_event with_event from_address keys data e20 l20].
    by rewrite (u256_at_eq [low; high] 0 [from; to; low; high] 2).
  - cbn [process Erc721TransferProcessor Erc721LegacyTransferProcessor]. unfold erc721_process. cbn [ctx_event with_event from_address keys data e721 l721].
    by rewrite (u256_at_eq [key; from; to; low; high] 3 [from; to; low; high] 2).
  - cbn [process Erc1155TransferSingleProcessor Erc1155LegacyTransferSingleProcessor].
    unfold erc1155_single_process. cbn [ctx_event with_event from_address keys data e1155 l1155].
    rewrite (bind_felt_at [op; from; to; low; high; alow; ahigh] 0 op) by done.
    by rewrite (u256_at_eq [low; high; alow; ahigh] 0 [op; from; to; low; high; alow; ahigh] 3),
      (u256_at_eq [low; high; alow; ahigh] 2 [op; from; to; low; high; alow; ahigh] 5).
  - intros Hl. split_and!; try reflexivity. unfold ebatch, lbatch.
    by rewrite new_batch_process, legacy_batch_process.
  - cbn. unfold token_task. by rewrite !u256_deserialize_at.
  - cbn. unfold token_task. by rewrite !u256_deserialize_at.
Qed.

(** C9: the transfers of a batch are all accounted for, whatever the order in
    which the tasks spawned for them take effect. When the processor returns
    [Ok], every token of the batch is registered and no other token became so,
    apart from the contract itself; the differences in the cache grew by exactly
    the transfers of the batch, and by one token of the contract, credited to
    account 1, for each token of the batch that was seen for the first time. *)
Theorem transfer_batch_accounted (addr key op from to : Felt) (l : list (U256 * U256))
    (ctx : EventProcessorContext) (os : list Cache.diff_op) (w w' : World S) :
  let e := mkEvent addr [key; op; from; to] (batch_data l) in
  batch_ok l → Cache.tracks os (Cache.im_erc_cache (cache w)) →
  Cache.volume_ok (os ++ batch_ops addr from to l) →
  process Erc1155TransferBatchProcessor (with_event e ctx) w = (Ok tt, w') →
  ∃ new, NoDup new ∧
    (∀ t, t ∈ new ↔ t ∈ l.*1 ∧ Cache.is_token_registered (Nft addr t) (cache w) = false) ∧
    (∀ t, Cache.is_token_registered t (cache w') =
       Cache.is_token_registered t (cache w) || bool_decide (t ∈ TokenContract addr :: (Nft addr <$> l.*1))) ∧
    Cache.tracks (os ++
      (new ≫= λ _, Cache.transfer_ops (Cache.mkTransfer (TokenContract addr) FELT_ZERO 1 1)) ++
      (l ≫= λ x, Cache.transfer_ops (Cache.mkTransfer (Nft addr x.1) from to x.2)))
      (Cache.im_erc_cache (cache w')).
Proof.
  intros e Hl Ht Hv. unfold e. rewrite new_batch_process by done. intros ([] & w1 & Hr & Hs)%st_bind_Ok.
  apply register_contract_Ok in Hr as (Hreg & Hb & Hsup).
  apply (spawn_all_accounted addr from to _ l os) in Hs as (new & Hnd & Hnew & Hreg' & Ht');
    [|by eapply tracks_diffs; [| |exact Ht]|done].
  exists new. split; [done|]. split; [|split; [|done]].
  - intros t. by rewrite Hnew, Hreg, bool_decide_false, orb_false_r.
  - intros t. rewrite Hreg', Hreg, (bool_decide_ext (t ∈ _ :: _) _ (elem_of_cons _ _ _)), bool_decide_or.
    apply symmetry, orb_assoc.
Qed.

(** A batch cut short. When the amounts of a batch are missing, the legacy
    processor skips the event and changes nothing; the processor of the other
    layout accepts the event and panics on it. A length that no event could
    hold makes both panic before they read anything. *)
Theorem truncated_batch (addr key op from to n : Felt) (ids : list U256) (rest : list Felt)
    (ctx : EventProcessorContext) (w : World S) :
  Forall in_range ids → Z.of_nat (length ids) < 2 ^ 58 →
  2 ^ 58 ≤ n < 2 ^ 64 →
  let cut := Z.of_nat (length ids) :: (ids ≫= words) in
  let e := mkEvent addr [key; op; from; to] cut in
  let le := mkEvent addr [key] ([op; from; to] ++ cut) in
  let big := mkEvent addr [key; op; from; to] (n :: rest) in
  let lbig := mkEvent addr [key] (op :: from :: to :: n :: rest) in
  validate (W := World S) (E := ProcessorError) Erc1155TransferBatchProcessor e = true ∧
  validate (W := World S) (E := ProcessorError) Erc1155LegacyTransferBatchProcessor le = true ∧
  process Erc1155TransferBatchProcessor (with_event e ctx) w = (Panic, w) ∧
  process Erc1155LegacyTransferBatchProcessor (with_event le ctx) w = (Ok tt, w) ∧
  process Erc1155TransferBatchProcessor (with_event big ctx) w = (Panic, w) ∧
  process Erc1155LegacyTransferBatchProcessor (with_event lbig ctx) w = (Panic, w).
Proof.
  intros Hr Hlen Hn cut e le big lbig.
  assert (felt_to_usize (Z.of_nat (length ids)) = Z.of_nat (length ids)) as Hu.
  { unfold felt_to_usize. by rewrite (proj2 (Z.leb_le _ _)), (proj2 (Z.ltb_lt _ _)) by lia. }
  assert (with_capacity (Z.of_nat (length ids)) w = (Ok tt, w)) as Hc.
  { unfold with_capacity. by rewrite Z.gtb_ltb, (proj2 (Z.ltb_ge _ _)) by lia. }
  assert (with_capacity (felt_to_usize n) w = (Panic, w)) as Hbig.
  { unfold with_capacity, felt_to_usize. rewrite (proj2 (Z.leb_le _ _)), (proj2 (Z.ltb_lt _ _)) by lia. simpl.
    by rewrite Z.gtb_ltb, (proj2 (Z.ltb_lt _ _)) by lia. }
  assert (∀ pre, read_token_ids (Z.of_nat (length ids)) (pre ++ cut) (length pre + 1) w =
    (Ok (ids, (length (pre ++ cut)))%nat, w)) as Hread.
  { intros pre. unfold read_token_ids, cut.
    rewrite Z.min_l, Nat2Z.id by (rewrite length_app; cbn [length]; rewrite length_words; lia).
    rewrite cons_middle, (assoc (++)), <- (app_nil_r (ids ≫= words)).
    replace (length pre + 1)%nat with (length (pre ++ [Z.of_nat (length ids)])) by (rewrite length_app; done).
    rewrite read_ids_words by auto. do 3 f_equal. rewrite app_nil_r, !length_app, length_words. simpl. lia. }
  split_and!; [done|done|..].
  - cbn [process Erc1155TransferBatchProcessor with_event ctx_event data keys from_address e].
    do 3 (erewrite bind_felt_at by reflexivity). unfold st_bind at 1. rewrite Hu, Hc.
    specialize (Hread []). cbn [app length Nat.add] in Hread. unfold st_bind at 1. rewrite Hread. unfold batch_rest, st_bind, felt_at, st_lift.
    by rewrite (proj2 (lookup_ge_None _ _)).
  - cbn [process Erc1155LegacyTransferBatchProcessor with_event ctx_event data keys from_address le].
    do 4 (erewrite bind_felt_at by reflexivity). unfold st_bind at 1. rewrite Hu, Hc.
    specialize (Hread [op; from; to]). cbn [length Nat.add] in Hread. unfold st_bind at 1. rewrite Hread. by rewrite (proj2 (Nat.leb_le _ _)).
  - cbn [process Erc1155TransferBatchProcessor with_event ctx_event data keys from_address big].
    do 3 (erewrite bind_felt_at by reflexivity). unfold st_bind. by rewrite Hbig.
  - cbn [process Erc1155LegacyTransferBatchProcessor with_event ctx_event data keys from_address lbig].
    do 4 (erewrite bind_felt_at by reflexivity). unfold st_bind. by rewrite Hbig.
Qed.
End properties.

(** ** Witnesses *)
Definition in_order : Schedule := {| schedule _ _ l := l; schedule_perm _ _ l := reflexivity l |}.
Definition zero_hasher : Hasher := {| hasher_finish _ := 0 |}.
Definition no_types : DojoTypes := {| Ty := unit; Layout := unit; WorldMetadata := unit |}.
#[local] Existing Instances Erc.words_serde Erc.silent_env no_types gmap_dashmap u256_checked canonical_order
  in_order zero_hasher counting_storage.

Definition demo_world : World nat :=
  mkWorld 0%nat (Cache.mkCache (Cache.mkModelCache ∅) Cache.empty_erc) ∅ [].
Definition demo_ctx : EventProcessorContext :=
  mkCtx 1 10 100 "0x1" (mkEvent 9 [] []) default_config true.
Definition demo_batch : list (U256 * U256) := [(5, 1); (6, 3); (5, 2)].
Definition demo_event : Event := mkEvent 9 [7; 1; 0; 2] (batch_data demo_batch).
(** Both tokens were registered before: no metadata is asked for. *)
Definition demo_known : World nat :=
  set_cache (Cache.mark_token_registered (TokenContract 9) (Cache.mark_token_registered (Nft 9 5)
    (Cache.mark_token_registered (Nft 9 6) (cache demo_world)))) demo_world.

Lemma demo_batch_ok : batch_ok demo_batch.
Proof. split; [|done]. repeat constructor; done. Qed.
Lemma demo_tracks : Cache.tracks [] (Cache.im_erc_cache (cache demo_known)).
Proof. split; intros k; try intros x; unfold demo_known; simpl; rewrite ?lookup_empty; done. Qed.
Lemma demo_volume : Cache.volume_ok ([] ++ batch_ops 9 0 2 demo_batch).
Proof.
  apply Cache.volume_ok_bound; [vm_compute; repeat constructor; discriminate|vm_compute; discriminate].
Qed.

Lemma transfer_batch_accounted_witness :
  let w' := (process Erc1155TransferBatchProcessor (with_event demo_event demo_ctx) demo_known).2 in
  storage w' = 3%nat ∧
  Cache.diff_of (mkBalanceId 2 (Nft 9 5)) (Cache.balances_diff (Cache.im_erc_cache (cache w'))) = 3.
Proof.
  split; [vm_compute; reflexivity|].
  destruct (transfer_batch_accounted 9 7 1 0 2 demo_batch demo_ctx [] demo_known
    (process Erc1155TransferBatchProcessor (with_event demo_event demo_ctx) demo_known).2)
    as (new & Hnd & Hnew & _ & Ht).
  - exact demo_batch_ok.
  - exact demo_tracks.
  - exact demo_volume.
  - apply outcome_of. vm_compute. reflexivity.
  - rewrite (Cache.tr_balance _ _ Ht). destruct new as [|t new]; [reflexivity|].
    exfalso. destruct (proj1 (Hnew t) (list_elem_of_here _ _)) as [Hin Hf].
    apply list_elem_of_In in Hin. destruct Hin as [<-|[<-|[<-|[]]]]; vm_compute in Hf; discriminate Hf.
Defined.

Lemma truncated_batch_witness :
  let e := mkEvent 9 [7; 1; 0; 2] [2; 5; 0; 6; 0] in
  (process Erc1155TransferBatchProcessor (with_event e demo_ctx) demo_known).1 = Panic.
Proof.
  destruct (truncated_batch 9 7 1 0 2 (2 ^ 58) [5; 6] [] demo_ctx demo_known)
    as (_ & _ & Hp & _); [repeat constructor; done|done|done|].
  intros e. unfold e. change [2; 5; 0; 6; 0] with (Z.of_nat (length [5; 6]) :: ([5; 6] ≫= words)).
  by rewrite Hp.
Defined.

Lemma legacy_layouts_equivalent_witness :
  (process Erc1155LegacyTransferBatchProcessor
     (with_event (mkEvent 9 [7] ([1; 0; 2] ++ batch_data demo_batch)) demo_ctx) demo_known).1 = Ok tt.
Proof.
  destruct (legacy_layouts_equivalent 9 7 1 0 2 0 0 0 0 demo_batch demo_ctx demo_known)
    as (_ & _ & _ & Hb & _).
  destruct (Hb demo_batch_ok) as (_ & _ & _ & _ & Heq). rewrite <- Heq. vm_compute. reflexivity.
Defined.

End ErcProc.
