(* ===== verification/WorldProcessors.v ===== *)
(** * The world processors ([crates/processors/src/processors/])

    The processors of the events of a world contract: models and events are
    registered and upgraded, records are set, updated and deleted, event messages
    are stored, external contracts and resource metadata are registered; and the
    processor of the deployments of controllers.

    Decoded world events, Cairo schemas and their (de)serialisation belong to the
    dojo crates: they are parameters ([DojoSchema]), as are the answers of the
    node and of the lookup service ([WorldEnv]). *)

From S2P Require Import Prelude Math Proto EventProcessor TaskManager Cache SqlString World Erc ErcProcessors.
From Stdlib Require Import Ascii.
Import ErcProc.
Local Open Scope Z_scope.
Local Open Scope torii_scope.

(** ** The dojo crates *)
Section types.
Context `{DojoTypes} `{CairoSerde}.

(** [dojo_types::schema::Member] *)
Record Member : Type := mkMember { member_name : string; member_ty : Ty; member_key : bool }.

(** The events of [dojo_world::contracts::abigen::world] the processors handle. *)
Inductive WorldEvent : Type :=
| StoreSetRecord (sel entity_id : Felt) (keys values : list Felt)
| StoreUpdateRecord (sel entity_id : Felt) (values : list Felt)
| StoreUpdateMember (sel entity_id member_selector : Felt) (values : list Felt)
| StoreDelRecord (sel entity_id : Felt)
| EventEmitted (sel system_address : Felt) (keys values : list Felt)
| ModelRegistered (name namespace : ByteArray) (class_hash address : Felt)
| ModelUpgraded (sel class_hash address : Felt)
| EventRegistered (name namespace : ByteArray) (class_hash address : Felt)
| EventUpgraded (sel class_hash address : Felt)
| ExternalContractRegistered (namespace contract_name instance_name : ByteArray)
    (contract_selector class_hash contract_address : Felt) (block_number : Z)
| MetadataUpdate (resource : Felt) (uri : ByteArray)
| OtherWorldEvent.

Class DojoSchema : Type := {
  world_event : Event → option WorldEvent;
  (** a structure, its name and its members *)
  Struct : string → list Member → Ty;
  as_struct : Ty → option (string * list Member);
  as_struct_Struct n ms : as_struct (Struct n ms) = Some (n, ms);
  ty_name : Ty → string;
  (** the value read, [None] being an error *)
  ty_deserialize : list Felt → bool → Ty → option Ty;
  ty_diff : Ty → Ty → option Ty;
  get_selector_from_name : string → option Felt;
  compute_selector_from_names : string → string → Felt;
  poseidon_hash_many : list Felt → Felt;
  (** [dojo_world::uri::Uri] *)
  Uri : Type;
  Ipfs : string → Uri;
  uri_cid : Uri → option string;
  icon_uri : WorldMetadata → option Uri;
  cover_uri : WorldMetadata → option Uri;
  (** [from_utf8], then [serde_json::from_str] *)
  metadata_from_json : list Byte.byte → outcome ParseError WorldMetadata;
  base64_encode : list Byte.byte → string;
  (** [DateTime::from_timestamp] *)
  datetime_from_timestamp : Z → option Z
}.

Inductive ModelReadError : Type := ReaderEntrypointNotFound | OtherModelError.

Record ModelRef : Type := mkModelRef {
  mr_world : Felt; mr_namespace : string; mr_name : string; mr_address : Felt; mr_class_hash : Felt;
  mr_block : option Z
}.

Class WorldEnv : Type := {
  read_schema : list request → ModelRef → outcome ModelReadError Ty;
  read_use_legacy_storage : list request → ModelRef → outcome ModelReadError bool;
  read_layout : list request → ModelRef → outcome ModelReadError Layout;
  read_unpacked_size : list request → ModelRef → outcome ModelReadError Z;
  read_packed_size : list request → ModelRef → outcome ModelReadError Z;
  (** the answer to a lookup: not sent, not parsed, or the names found *)
  lookup_post : list request → string → option (option (list string))
}.
End types.

Module WorldProc.

Section operations.
Context `{DojoTypes} `{CairoSerde} `{MetadataEnv} {DS : DojoSchema} {WE : WorldEnv}.
Context {DM : DashMap} {U : U256Ops} {HO : HashOrder} `{Hasher} {SC : Schedule}.
Context {S : Type} `{!ProcessorStorage S}.
#[local] Abbreviation proc A := (st (World S) ProcessorError A).
#[local] Abbreviation processor := (EventProcessor (World S) ProcessorError).

(** ** Tasks *)
Definition task_id_from_address_and_keys (from_address : Felt) (keys : list Felt) : TaskId :=
  hasher_finish (HFelt from_address :: (HFelt <$> keys)).
Definition task_id_from_address_and_key (from_address key : Felt) : TaskId :=
  task_id_from_address_and_keys from_address [key].

(** [event.keys[1..=2]] *)
Definition record_task (e : Event) : option TaskId :=
  k1 ← keys e !! 1%nat; k2 ← keys e !! 2%nat;
  Some (task_id_from_address_and_keys (from_address e) [k1; k2]).
(** [task_id_from_address_and_key(event.from_address, event.keys[1])] *)
Definition model_task (e : Event) : option TaskId :=
  k1 ← keys e !! 1%nat; Some (task_id_from_address_and_key (from_address e) k1).
Definition model_dependency (e : Event) : option (list TaskId) := t ← model_task e; Some [t].

(** Historical for the models listed, otherwise the latest by these keys. *)
Definition record_mode (ks : list nat) (e : Event) (config : EventProcessorConfig) : option IndexingMode :=
  model_id ← keys e !! 1%nat;
  if is_historical config model_id then Some Historical
  else ks ← mapM (λ i, keys e !! i) ks; Some (Latest (hasher_finish (HFelt <$> ks))).

(** [WorldEvent::try_from(event).unwrap_or_else(panic)], then the variant
    expected, the others being [unreachable!()] *)
Definition decode {A} (f : WorldEvent → option A) (e : Event) : proc A :=
  st_lift (unwrap (w ← world_event e; f w)).
(** [s.to_string().unwrap()] *)
Definition text (b : ByteArray) : proc string := st_lift (unwrap (byte_array_to_string b)).
(** [entity.deserialize(..)?] *)
Definition deserialize (felts : list Felt) (legacy : bool) (t : Ty) : proc Ty :=
  st_lift (ok_or PrimitiveError (ty_deserialize felts legacy t)).

(** ** Records *)
Definition set_record_process (ctx : EventProcessorContext) : proc unit :=
  let! (sel, entity_id, ks, values) := decode
    (λ w, match w with StoreSetRecord s i ks vs => Some (s, i, ks, vs) | _ => None end) (ctx_event ctx) in
  let! model := resolve_model_or_skip ctx sel in
  match model with
  | None => st_ret tt
  | Some model =>
      let! entity := deserialize (ks ++ values) (use_legacy_store model) (schema model) in
      with_storage (set_entity (ctx_contract_address ctx) entity (ctx_event_id ctx) (ctx_block_timestamp ctx)
        entity_id sel (Some ks))
  end.
Definition StoreSetRecordProcessor : processor := {|
  event_key := "StoreSetRecord";
  validate _ := true;
  should_process := default_should_process;
  task_identifier := record_task;
  task_dependencies := model_dependency;
  indexing_mode := record_mode [0%nat];
  process := set_record_process
|}.

Definition update_record_process (ctx : EventProcessorContext) : proc unit :=
  let! (sel, entity_id, values) := decode
    (λ w, match w with StoreUpdateRecord s i vs => Some (s, i, vs) | _ => None end) (ctx_event ctx) in
  let! model := resolve_model_or_skip ctx sel in
  match model with
  | None => st_ret tt
  | Some model =>
      let! (name, children) := st_lift (unwrap (as_struct (schema model))) in
      let entity := Struct name (filter (λ field, member_key field = false) children) in
      let! entity := deserialize values (use_legacy_store model) entity in
      with_storage (set_entity (ctx_contract_address ctx) entity (ctx_event_id ctx) (ctx_block_timestamp ctx)
        entity_id sel None)
  end.
Definition StoreUpdateRecordProcessor : processor := {|
  event_key := "StoreUpdateRecord";
  validate _ := true;
  should_process := default_should_process;
  task_identifier := record_task;
  task_dependencies := model_dependency;
  indexing_mode := record_mode [0%nat];
  process := update_record_process
|}.

(** [.iter().find(..)], stopping at the panic of an invalid member name *)
Fixpoint find_member (member_selector : Felt) (children : list Member) : outcome ProcessorError Member :=
  match children with
  | [] => Err (ModelMemberNotFound member_selector)
  | c :: children =>
      let? s := unwrap (get_selector_from_name (member_name c)) in
      if decide (s = member_selector) then Ok c else find_member member_selector children
  end.

Definition update_member_process (ctx : EventProcessorContext) : proc unit :=
  let! (sel, entity_id, member_selector, values) := decode
    (λ w, match w with StoreUpdateMember s i m vs => Some (s, i, m, vs) | _ => None end) (ctx_event ctx) in
  let! model := resolve_model_or_skip ctx sel in
  match model with
  | None => st_ret tt
  | Some model =>
      let! (_, children) := st_lift (unwrap (as_struct (schema model))) in
      let! member := st_lift (find_member member_selector children) in
      let! ty := deserialize values (use_legacy_store model) (member_ty member) in
      let wrapped_ty := Struct (ty_name (schema model)) [mkMember (member_name member) ty (member_key member)] in
      with_storage (set_entity (ctx_contract_address ctx) wrapped_ty (ctx_event_id ctx) (ctx_block_timestamp ctx)
        entity_id sel None)
  end.
Definition StoreUpdateMemberProcessor : processor := {|
  event_key := "StoreUpdateMember";
  validate _ := true;
  should_process := default_should_process;
  task_identifier := record_task;
  task_dependencies := model_dependency;
  indexing_mode := record_mode [0%nat; 3%nat];
  process := update_member_process
|}.

Definition del_record_process (ctx : EventProcessorContext) : proc unit :=
  let! (sel, entity_id) := decode
    (λ w, match w with StoreDelRecord s i => Some (s, i) | _ => None end) (ctx_event ctx) in
  let! model := resolve_model_or_skip ctx sel in
  match model with
  | None => st_ret tt
  | Some model =>
      with_storage (delete_entity (ctx_contract_address ctx) entity_id sel (schema model) (ctx_event_id ctx)
        (ctx_block_timestamp ctx))
  end.
Definition StoreDelRecordProcessor : processor := {|
  event_key := "StoreDelRecord";
  validate _ := true;
  should_process := default_should_process;
  task_identifier := record_task;
  task_dependencies := model_dependency;
  indexing_mode := record_mode [0%nat];
  process := del_record_process
|}.

(** ** Event messages *)

(** [format!("{:#x}", system_address)[2..10]], a label of a counter: a panic for
    an address of fewer than eight digits *)
Definition system_label (system_address : Felt) : proc string :=
  let s := SqlString.format_hex 0 system_address in
  if (10 <=? String.length s)%nat then st_ret (String.substring 2 8 s) else st_lift Panic.

Definition event_message_process (ctx : EventProcessorContext) : proc unit :=
  let! (sel, system_address, ks, values) := decode
    (λ w, match w with EventEmitted s a ks vs => Some (s, a, ks, vs) | _ => None end) (ctx_event ctx) in
  let! model := resolve_model_or_skip ctx sel in
  match model with
  | None => st_ret tt
  | Some model =>
      let! entity := deserialize (ks ++ values) (use_legacy_store model) (schema model) in
      with_storage (set_event_message (ctx_contract_address ctx) entity (ctx_event_id ctx)
        (ctx_block_timestamp ctx) ks) ;;;
      system_label system_address ;;;
      st_ret tt
  end.
Definition EventMessageProcessor : processor := {|
  event_key := "EventEmitted";
  validate _ := true;
  should_process := default_should_process;
  task_identifier e :=
    ks ← felts_deserialize (data e); k1 ← keys e !! 1%nat;
    Some (hasher_finish [HFelt (from_address e); HFelt k1; HFelt (poseidon_hash_many ks)]);
  task_dependencies := model_dependency;
  indexing_mode := record_mode [0%nat];
  process := event_message_process
|}.

(** ** Models and events *)

(** [model.f().await?] *)
Definition ask_model {A} (what : string) (f : list request → ModelRef → outcome ModelReadError A) (r : ModelRef)
  : st (World S) ModelReadError A := λ w,
  (f (requests w) r,
   set_requests (requests w ++ [ReqModel what (mr_world r) (mr_address r) (mr_class_hash r) (mr_namespace r)
     (mr_name r) (mr_block r)]) w).
Definition read_model {A} (what : string) (f : list request → ModelRef → outcome ModelReadError A)
    (r : ModelRef) : proc A := st_map_err (λ _, ModelError) (ask_model what f r).

(** The reader, at the block of the event when it is strict. *)
Definition model_reader (ctx : EventProcessorContext) (namespace name : string) (address class_hash : Felt)
  : ModelRef :=
  mkModelRef (from_address (ctx_event ctx)) namespace name address class_hash
    (if strict_model_reader (ctx_config ctx) then Some (ctx_block_number ctx) else None).

(** The schema of the model, its name prefixed by the namespace. *)
Definition namespaced_schema (r : ModelRef) : proc Ty :=
  let! t := read_model "schema" read_schema r in
  let! (name, children) := st_lift (unwrap (as_struct t)) in
  st_ret (Struct (mr_namespace r +:+ "-" +:+ name) children).

Definition use_legacy (r : ModelRef) : proc bool := λ w,
  match ask_model "use_legacy_storage" read_use_legacy_storage r w with
  | (Ok b, w) => (Ok b, w)
  | (Err ReaderEntrypointNotFound, w) => (Ok true, w)
  | (Err _, w) => (Err ModelError, w)
  | (Panic, w) => (Panic, w)
  end.

(** The storage and the cache learn a model. *)
Definition store_model (ctx : EventProcessorContext) (sel : Felt) (r : ModelRef) (new_schema : Ty) (lay : Layout)
    (psize usize : Z) (schema_diff upgrade_diff : option Ty) (legacy : bool) : proc unit :=
  with_storage (register_model (ctx_contract_address ctx) sel new_schema lay (mr_class_hash r) (mr_address r)
    psize usize (ctx_block_timestamp ctx) schema_diff upgrade_diff legacy) ;;;
  with_cache (Cache.register_model (ctx_contract_address ctx) sel
    (mkModel _ (ctx_contract_address ctx) (mr_namespace r) (mr_name r) sel (mr_class_hash r) (mr_address r)
       psize usize lay new_schema legacy)).

Definition register_model_process (ctx : EventProcessorContext) : proc unit :=
  let! (name, namespace, class_hash, address) := decode
    (λ w, match w with ModelRegistered n ns c a => Some (n, ns, c, a) | _ => None end) (ctx_event ctx) in
  let! namespace := text namespace in
  let! name := text name in
  let sel := compute_selector_from_names namespace name in
  if negb (should_index (ctx_config ctx) namespace name) then st_ret tt
  else
    let r := model_reader ctx namespace name address class_hash in
    let! sch := namespaced_schema r in
    let! legacy := use_legacy r in
    let! lay := read_model "layout" read_layout r in
    let! usize := read_model "unpacked_size" read_unpacked_size r in
    let! psize := read_model "packed_size" read_packed_size r in
    store_model ctx sel r sch lay psize usize None None legacy.
Definition RegisterModelProcessor : processor := {|
  event_key := "ModelRegistered";
  validate _ := true;
  should_process := default_should_process;
  task_identifier e :=
    w ← world_event e;
    match w with
    | ModelRegistered n ns _ _ =>
        ns ← byte_array_to_string ns; n ← byte_array_to_string n;
        Some (task_id_from_address_and_key (from_address e) (compute_selector_from_names ns n))
    | _ => None
    end;
  task_dependencies := default_task_dependencies;
  indexing_mode := default_indexing_mode;
  process := register_model_process
|}.

Definition register_event_process (ctx : EventProcessorContext) : proc unit :=
  let! (name, namespace, class_hash, address) := decode
    (λ w, match w with EventRegistered n ns c a => Some (n, ns, c, a) | _ => None end) (ctx_event ctx) in
  let! namespace := text namespace in
  let! name := text name in
  let sel := compute_selector_from_names namespace name in
  if negb (should_index (ctx_config ctx) namespace name) then st_ret tt
  else
    let r := model_reader ctx namespace name address class_hash in
    let! sch := namespaced_schema r in
    let! lay := read_model "layout" read_layout r in
    store_model ctx sel r sch lay 0 0 None None true.
Definition RegisterEventProcessor : processor := {|
  event_key := "EventRegistered";
  validate _ := true;
  should_process := default_should_process;
  task_identifier e :=
    w ← world_event e;
    match w with
    | EventRegistered n ns _ _ =>
        ns ← byte_array_to_string ns; n ← byte_array_to_string n;
        Some (task_id_from_address_and_key (from_address e) (compute_selector_from_names ns n))
    | _ => None
    end;
  task_dependencies := default_task_dependencies;
  indexing_mode := default_indexing_mode;
  process := register_event_process
|}.

Definition upgrade_model_process (ctx : EventProcessorContext) : proc unit :=
  let! (sel, class_hash, address) := decode
    (λ w, match w with ModelUpgraded s c a => Some (s, c, a) | _ => None end) (ctx_event ctx) in
  let! model := resolve_model_or_skip ctx sel in
  match model with
  | None => st_ret tt
  | Some model =>
      let r := model_reader ctx (namespace model) (model_name model) address class_hash in
      let prev_schema := schema model in
      let! new_schema := namespaced_schema r in
      match ty_diff new_schema prev_schema with
      | None => st_ret tt
      | Some schema_diff =>
          let! lay := read_model "layout" read_layout r in
          let! legacy := use_legacy r in
          let! usize := read_model "unpacked_size" read_unpacked_size r in
          let! psize := read_model "packed_size" read_packed_size r in
          store_model ctx sel r new_schema lay psize usize (Some schema_diff) (ty_diff prev_schema new_schema) legacy
      end
  end.
Definition UpgradeModelProcessor : processor := {|
  event_key := "ModelUpgraded";
  validate _ := true;
  should_process := default_should_process;
  task_identifier := model_task;
  task_dependencies := default_task_dependencies;
  indexing_mode := default_indexing_mode;
  process := upgrade_model_process
|}.

Definition upgrade_event_process (ctx : EventProcessorContext) : proc unit :=
  let! (sel, class_hash, address) := decode
    (λ w, match w with EventUpgraded s c a => Some (s, c, a) | _ => None end) (ctx_event ctx) in
  let! model := resolve_model_or_skip ctx sel in
  match model with
  | None => st_ret tt
  | Some model =>
      let r := model_reader ctx (namespace model) (model_name model) address class_hash in
      let prev_schema := schema model in
      let! new_schema := namespaced_schema r in
      match ty_diff new_schema prev_schema with
      | None => st_ret tt
      | Some schema_diff =>
          let! lay := read_model "layout" read_layout r in
          store_model ctx sel r new_schema lay 0 0 (Some schema_diff) (ty_diff prev_schema new_schema) true
      end
  end.
Definition UpgradeEventProcessor : processor := {|
  event_key := "EventUpgraded";
  validate _ := true;
  should_process := default_should_process;
  task_identifier := model_task;
  task_dependencies := default_task_dependencies;
  indexing_mode := default_indexing_mode;
  process := upgrade_event_process
|}.

(** ** External contracts *)
Definition external_contract_process (ctx : EventProcessorContext) : proc unit :=
  let! (namespace, contract_name, instance_name, address, block_number) := decode
    (λ w, match w with ExternalContractRegistered ns c i _ _ a b => Some (ns, c, i, a, b) | _ => None end)
    (ctx_event ctx) in
  let! namespace := text namespace in
  let! contract_name := text contract_name in
  let! instance_name := text instance_name in
  if negb (should_index_external_contract (ctx_config ctx) namespace instance_name) then st_ret tt
  else
    let contract_type := default OTHER (contract_type_from_str contract_name) in
    with_storage (register_contract address contract_type
      (if block_number >? 0 then block_number - 1 else 0)).
Definition RegisterExternalContractProcessor : processor := {|
  event_key := "ExternalContractRegistered";
  validate _ := true;
  should_process := default_should_process;
  task_identifier := address_task;
  task_dependencies := default_task_dependencies;
  indexing_mode := default_indexing_mode;
  process := external_contract_process
|}.

(** ** Metadata of resources *)
Definition fetch_image (image_uri : option Uri) : st (list request) ProcessorError (option string) :=
  match image_uri with
  | None => st_ret None
  | Some uri =>
      match uri_cid uri with
      | None => st_ret None
      | Some cid =>
          let! r := Erc.catch (Erc.fetch_content_from_ipfs cid) in
          match r with
          | inl _ => st_ret None
          | inr bytes => st_ret (Some (base64_encode bytes))
          end
      end
  end.
Definition metadata (uri_str : string)
  : st (list request) ProcessorError (WorldMetadata * option string * option string) :=
  let! cid := st_lift (ok_or UriMalformed (uri_cid (Ipfs uri_str))) in
  let! bytes := st_map_err (λ _, IpfsError) (Erc.fetch_content_from_ipfs cid) in
  let! m := st_lift (map_err ProcParseError (metadata_from_json bytes)) in
  let! icon_img := fetch_image (icon_uri m) in
  let! cover_img := fetch_image (cover_uri m) in
  st_ret (m, icon_img, cover_img).
Definition try_retrieve (resource : Felt) (uri_str : string) : proc unit :=
  let! r := Erc.catch (with_requests id (metadata uri_str)) in
  match r with
  | inr (m, icon_img, cover_img) =>
      let! stored := Erc.catch (with_storage (update_metadata resource uri_str m icon_img cover_img)) in
      match stored with inr _ => st_ret tt | inl _ => st_lift Panic end
  | inl _ => st_ret tt
  end.

Definition metadata_update_process (ctx : EventProcessorContext) : proc unit :=
  let! (resource, uri) := decode
    (λ w, match w with MetadataUpdate r u => Some (r, u) | _ => None end) (ctx_event ctx) in
  let! uri_str := text uri in
  with_storage (set_metadata resource uri_str (ctx_block_timestamp ctx)) ;;;
  if resource =? 0 then in_background (try_retrieve resource uri_str) else st_ret tt.
Definition MetadataUpdateProcessor : processor := {|
  event_key := "MetadataUpdate";
  validate _ := true;
  should_process := default_should_process;
  task_identifier e := Some (hasher_finish (HFelt <$> keys e));
  task_dependencies := default_task_dependencies;
  indexing_mode := default_indexing_mode;
  process := metadata_update_process
|}.

(** ** Other events *)
Definition RawEventProcessor : processor := {|
  event_key := "";
  validate _ := true;
  should_process := default_should_process;
  task_identifier _ := Some 0;
  task_dependencies := default_task_dependencies;
  indexing_mode := default_indexing_mode;
  process _ := st_ret tt
|}.

(** ** Controllers *)
Record UdcContractDeployedEvent : Type := mkUdc {
  udc_address : Felt; udc_deployer : Felt; udc_unique : Felt; udc_class_hash : Felt;
  udc_calldata : list Felt; udc_salt : Felt
}.
(** The fields in order, each after the felts of those before it. *)
Definition udc_deserialize (d : list Felt) : option UdcContractDeployedEvent :=
  address ← d !! 0%nat; deployer ← d !! 1%nat; unique ← d !! 2%nat; class_hash ← d !! 3%nat;
  calldata ← felts_deserialize (drop 4 d);
  salt ← d !! (5 + length calldata)%nat;
  Some (mkUdc address deployer unique class_hash calldata salt).

(** https://x.cartridge.gg *)
Definition CARTRIDGE_MAGIC : list Felt :=
  [104; 116; 116; 112; 115; 58; 47; 47; 120; 46; 99; 97; 114; 116; 114; 105; 100; 103; 101; 46; 103; 103].

#[local] Abbreviation parsed := (outcome ControllerProcessorError unit).
(** [if c { return Err(e); }] *)
Definition fail_if (c : bool) (e : ControllerProcessorError) : parsed := if c then Err e else Ok tt.
(** [calldata[i] != f] *)
Definition differs (calldata : list Felt) (i : nat) (f : Felt) : outcome ControllerProcessorError bool :=
  let? x := unwrap (calldata !! i) in Ok (negb (x =? f)).
Definition expect_felt (calldata : list Felt) (i : nat) (f : Felt) (e : ControllerProcessorError) : parsed :=
  let? b := differs calldata i f in fail_if b e.
(** [calldata.len() == n && calldata[i] != f] *)
Definition expect_last (calldata : list Felt) (n i : nat) (f : Felt) : parsed :=
  if (length calldata =? n)%nat then expect_felt calldata i f InvalidCartridgeEncoding else Ok tt.

Definition parse_controller_calldata_webauthn (calldata : list Felt) : parsed :=
  let? _ := fail_if (length calldata <? 25)%nat CalldataLenMismatch in
  let? _ := expect_felt calldata 0 0 InvalidCartridgeEncoding in
  let? _ := expect_felt calldata 1 4 InvalidCartridgeEncoding in
  let? _ := expect_felt calldata 2 22 CartridgeMagicLengthMismatch in
  let cartridge_magic := take 22 (drop 3 calldata) in
  if negb (length cartridge_magic =? 22)%nat then Panic
  else fail_if (negb (bool_decide (CARTRIDGE_MAGIC = cartridge_magic))) CartridgeMagicMismatch.
Definition parse_controller_calldata_eip191 (calldata : list Felt) : parsed :=
  let? _ := fail_if (length calldata <? 4)%nat CalldataLenMismatch in
  let? _ := expect_felt calldata 0 0 InvalidCartridgeEncoding in
  let? _ := expect_felt calldata 1 3 InvalidCartridgeEncoding in
  expect_last calldata 4 3 1.
Definition parse_controller_calldata_external (calldata : list Felt) : parsed :=
  let? _ := fail_if (length calldata <? 3)%nat CalldataLenMismatch in
  let? _ := expect_felt calldata 0 1 InvalidCartridgeEncoding in
  expect_last calldata 3 2 1.
Definition parse_controller_calldata_starknet (calldata : list Felt) : parsed :=
  let? _ := fail_if (length calldata <? 4)%nat CalldataLenMismatch in
  let? _ := expect_felt calldata 0 0 InvalidCartridgeEncoding in
  let? _ := expect_felt calldata 1 0 InvalidCartridgeEncoding in
  expect_last calldata 4 3 1.
Definition parse_controller_calldata_siws (calldata : list Felt) : parsed :=
  let? _ := fail_if (length calldata <? 5)%nat CalldataLenMismatch in
  let? _ := expect_felt calldata 0 0 InvalidCartridgeEncoding in
  let? _ := expect_felt calldata 1 5 InvalidCartridgeEncoding in
  expect_last calldata 5 4 1.

(** Short strings hold ASCII characters. *)
Definition is_alphanumeric (c : Ascii.ascii) : bool :=
  let n := Ascii.nat_of_ascii c in
  ((48 <=? n) && (n <=? 57) || (65 <=? n) && (n <=? 90) || (97 <=? n) && (n <=? 122))%nat.
Fixpoint username_chars (s : string) : bool :=
  match s with
  | EmptyString => true
  | String c s => (is_alphanumeric c || (Ascii.nat_of_ascii c =? 45)%nat) && username_chars s
  end.
Definition is_valid_username (username : string) : bool :=
  if decide (username = EmptyString) then false else username_chars username.

(** The loop over the attempts left; every failed one is followed by another,
    the last by the error after the loop. *)
Fixpoint lookup_loop (attempts : nat) (address : string)
  : st (list request) ControllerProcessorError (option string) :=
  match attempts with
  | O => st_throw FetchMetadataError
  | Datatypes.S attempts =>
      let! answer := Erc.call (ReqLookup address) (λ h, lookup_post h address) in
      match answer with
      | Some (Some results) => st_ret (results !! 0%nat)
      | Some None => st_throw FetchMetadataError
      | None => lookup_loop attempts address
      end
  end.
Definition fetch_controller_username (address : string)
  : st (list request) ControllerProcessorError (option string) := lookup_loop 3 address.

Definition controller_parsers : list (list Felt → parsed) :=
  [parse_controller_calldata_webauthn; parse_controller_calldata_eip191; parse_controller_calldata_starknet;
   parse_controller_calldata_external; parse_controller_calldata_siws].

(** [if parse(..).is_ok() { return .. }] for each parser in turn; a panic in one
    is a panic *)
Fixpoint any_parser (ps : list (list Felt → parsed)) (calldata : list Felt)
  : outcome ControllerProcessorError bool :=
  match ps with
  | [] => Ok false
  | p :: ps =>
      match p calldata with
      | Ok _ => Ok true
      | Err _ => any_parser ps calldata
      | Panic => Panic
      end
  end.

Definition is_cartridge_controller (event : UdcContractDeployedEvent)
  : st (list request) ControllerProcessorError bool :=
  let username := default EmptyString (parse_cairo_short_string (udc_salt event)) in
  let! known := st_lift (any_parser controller_parsers (udc_calldata event)) in
  if known then st_ret (is_valid_username username)
  else if negb (is_valid_username username) then st_ret false
  else
    let! found := fetch_controller_username (SqlString.format_hex 64 (udc_address event)) in
    st_ret (match found with Some _ => true | None => false end).

(** [block_timestamp as i64] *)
Definition as_i64 (n : Z) : Z := if n <? 2 ^ 63 then n else n - 2 ^ 64.

Definition controller_process (ctx : EventProcessorContext) : proc unit :=
  let! udc_event := st_lift (ok_or CairoSerdeError (udc_deserialize (data (ctx_event ctx)))) in
  let! b := with_requests ControllerError (is_cartridge_controller udc_event) in
  if negb b then st_ret tt
  else
    match parse_cairo_short_string (udc_salt udc_event) with
    | None => st_ret tt
    | Some username =>
        let! at_ := st_lift (unwrap (datetime_from_timestamp (as_i64 (ctx_block_timestamp ctx)))) in
        with_storage (add_controller username (SqlString.format_hex 64 (udc_address udc_event)) at_)
    end.
Definition ControllerProcessor : processor := {|
  event_key := "ContractDeployed";
  validate e := keys_len e 1 && (3 <=? length (data e))%nat;
  should_process := default_should_process;
  task_identifier e := a ← data e !! 0%nat; Some (hasher_finish [HFelt a]);
  task_dependencies := default_task_dependencies;
  indexing_mode := default_indexing_mode;
  process := controller_process
|}.
End operations.


(** ** Lemmas *)
Section lemmas.
Context `{DojoTypes} `{CairoSerde} `{MetadataEnv} {DS : DojoSchema} {WE : WorldEnv}.
Context {DM : DashMap} {U : U256Ops} {HO : HashOrder} `{Hasher} {SC : Schedule}.
Context {S : Type} `{!ProcessorStorage S}.
#[local] Abbreviation proc A := (st (World S) ProcessorError A).

(** A model neither the cache nor the storage has. *)
Definition unknown_model (world_address sel : Felt) (w : World S) : Prop :=
  Cache.model world_address sel (Cache.im_model_cache (cache w)) = Err (Cache.ModelNotFound sel) ∧
  model_row (storage w) world_address sel = Ok None.

Lemma resolve_unknown ctx sel (w : World S) : unknown_model (ctx_contract_address ctx) sel w →
  resolve_model_or_skip ctx sel w =
    (if set_is_empty (namespaces (ctx_config ctx)) then Err (ModelNotFound sel) else Ok None, w).
Proof.
  intros [Hc Hr]. unfold resolve_model_or_skip, storage_model. rewrite Hc, Hr. simpl. by destruct (set_is_empty _).
Qed.

Lemma resolve_cached ctx sel m (w : World S) :
  Cache.model (ctx_contract_address ctx) sel (Cache.im_model_cache (cache w)) = Ok m →
  resolve_model_or_skip ctx sel w = (Ok (Some m), w).
Proof. intros Hm. unfold resolve_model_or_skip, storage_model. by rewrite Hm. Qed.

Lemma bind_decode {A B} (f : WorldEvent → option A) e a (k : A → proc B) (w : World S) :
  (x ← world_event e; f x) = Some a → st_bind (decode f e) k w = k a w.
Proof. intros Ha. unfold st_bind, decode, st_lift, unwrap. by rewrite Ha. Qed.

(** What becomes of an event on a model that is unknown. *)
Definition skipped_or_failed (ctx : EventProcessorContext) (sel : Felt) (w : World S)
    (r : outcome ProcessorError unit * World S) : Prop :=
  r = (if set_is_empty (namespaces (ctx_config ctx)) then Err (ModelNotFound sel) else Ok tt, w).

(** The selector of an event that needs its model. *)
Definition event_selector (e : WorldEvent) : option Felt :=
  match e with
  | StoreSetRecord s _ _ _ | StoreUpdateRecord s _ _ | StoreUpdateMember s _ _ _ | StoreDelRecord s _
  | EventEmitted s _ _ _ | ModelUpgraded s _ _ | EventUpgraded s _ _ => Some s
  | _ => None
  end.
(** The processor of such an event. *)
Definition processor_of (e : WorldEvent) : EventProcessorContext → proc unit :=
  match e with
  | StoreSetRecord _ _ _ _ => process StoreSetRecordProcessor
  | StoreUpdateRecord _ _ _ => process StoreUpdateRecordProcessor
  | StoreUpdateMember _ _ _ _ => process StoreUpdateMemberProcessor
  | StoreDelRecord _ _ => process StoreDelRecordProcessor
  | EventEmitted _ _ _ _ => process EventMessageProcessor
  | ModelUpgraded _ _ _ => process UpgradeModelProcessor
  | EventUpgraded _ _ _ => process UpgradeEventProcessor
  | _ => λ _, st_ret tt
  end.

Lemma unknown_skipped ctx e sel (w : World S) :
  world_event (ctx_event ctx) = Some e → event_selector e = Some sel →
  unknown_model (ctx_contract_address ctx) sel w → skipped_or_failed ctx sel w (processor_of e ctx w).
Proof.
  intros He Hs Hu. unfold skipped_or_failed.
  destruct e; simpl in Hs; simplify_eq; cbn [processor_of process StoreSetRecordProcessor
    StoreUpdateRecordProcessor StoreUpdateMemberProcessor StoreDelRecordProcessor EventMessageProcessor
    UpgradeModelProcessor UpgradeEventProcessor];
  unfold set_record_process, update_record_process, update_member_process, del_record_process,
    event_message_process, upgrade_model_process, upgrade_event_process;
  (erewrite bind_decode by (rewrite He; reflexivity)); unfold st_bind at 1;
  rewrite resolve_unknown by done; by destruct (set_is_empty _).
Qed.

(** The steps of a registration. *)
Lemma store_model_Ok ctx sel r sch lay ps us sd ud legacy (w w' : World S) :
  store_model ctx sel r sch lay ps us sd ud legacy w = (Ok tt, w') →
  Cache.model (ctx_contract_address ctx) sel (Cache.im_model_cache (cache w')) =
    Ok (mkModel _ (ctx_contract_address ctx) (mr_namespace r) (mr_name r) sel (mr_class_hash r) (mr_address r)
          ps us lay sch legacy).
Proof.
  unfold store_model. intros ([] & w1 & _ & Hk)%st_bind_Ok. injection Hk as <-.
  unfold Cache.model. simpl. unfold Cache.set. simpl. by rewrite Cache.insert_model_lookup, decide_True.
Qed.

Lemma namespaced_schema_Ok r (w w' : World S) t :
  namespaced_schema r w = (Ok t, w') →
  ∃ t0 name ms, read_schema (requests w) r = Ok t0 ∧ as_struct t0 = Some (name, ms) ∧
    t = Struct (mr_namespace r +:+ "-" +:+ name) ms.
Proof.
  unfold namespaced_schema. intros (t0 & w1 & Hr & Hk)%st_bind_Ok.
  apply st_bind_Ok in Hk as ([name ms] & w2 & Hs & [= <- _]).
  unfold read_model, st_map_err, ask_model in Hr. simpl in Hr.
  destruct (read_schema (requests w) r) as [t1|e|] eqn:Hrs; simplify_eq/=.
  unfold st_lift in Hs. destruct (as_struct t0) as [[n m]|] eqn:Ha; simplify_eq/=. eauto 10.
Qed.

(** The digits of an address, and its length as text. *)
Lemma digits_short n : 0 ≤ n < 16 ^ 64 → (length (digits_of n) ≤ 7)%nat ↔ n < 16 ^ 7.
Proof.
  intros Hn. split.
  - intros Hl. destruct (SqlString.pad_digits_spec 0 n Hn) as (Hd & Hv & _).
    pose proof (SqlString.digits_value_bound _ Hd) as Hb. rewrite Hv in Hb. unfold pad_digits in Hb. simpl in Hb.
    eapply Z.lt_le_trans; [apply Hb|]. apply Z.pow_le_mono_r; lia.
  - intros Hl. destruct (SqlString.pad_digits_spec 7 n Hn) as (_ & _ & _ & Hlen).
    specialize (Hlen Hl ltac:(lia)). unfold pad_digits in Hlen. rewrite length_app, length_replicate in Hlen. lia.
Qed.
Lemma system_label_length a : String.length (SqlString.format_hex 0 a) = (2 + length (digits_of a))%nat.
Proof. change (Datatypes.S (Datatypes.S (String.length (digits_string (digits_of a)))) = (2 + length (digits_of a))%nat). by rewrite SqlString.digits_string_length. Qed.

(** *** Controllers *)

(** The calldata of a controller, by the way its owner signs in. *)
Definition known_calldata (cd : list Felt) : Prop :=
  (∃ rest, cd = [0; 4; 22] ++ CARTRIDGE_MAGIC ++ rest) ∨
  (∃ x y rest, cd = 0 :: 3 :: x :: y :: rest ∧ (rest = [] → y = 1)) ∨
  (∃ x y rest, cd = 0 :: 0 :: x :: y :: rest ∧ (rest = [] → y = 1)) ∨
  (∃ x y rest, cd = 1 :: x :: y :: rest ∧ (rest = [] → y = 1)) ∨
  (∃ x y z rest, cd = 0 :: 5 :: x :: y :: z :: rest ∧ (rest = [] → z = 1)).

(** One parser: no panic, and what it accepts. *)
Definition decides (p : list Felt → outcome ControllerProcessorError unit) (P : list Felt → Prop) : Prop :=
  ∀ cd, p cd ≠ Panic ∧ (p cd = Ok tt ↔ P cd).

Ltac decides_by_cases :=
  intros cd; unfold parse_controller_calldata_eip191, parse_controller_calldata_starknet,
    parse_controller_calldata_external, parse_controller_calldata_siws, expect_last, expect_felt, differs;
  destruct cd as [|? [|? [|? [|? [|? [|? ?]]]]]]; simpl;
  repeat match goal with |- context [?x =? ?y] => destruct (Z.eqb_spec x y); simplify_eq/= end;
  (split; [done|]); split; intros Hd; first
    [ discriminate Hd | done
    | by eexists _, _, _ | by eexists _, _, _, _ | by naive_solver ].

Lemma webauthn_decides :
  decides parse_controller_calldata_webauthn (λ cd, ∃ rest, cd = [0; 4; 22] ++ CARTRIDGE_MAGIC ++ rest).
Proof.
  intros cd. unfold parse_controller_calldata_webauthn.
  destruct (Nat.ltb_spec (length cd) 25) as [Hlt|Hge]; simpl.
  { split; [done|]. split; [done|]. intros [rest ->]. simpl in Hlt. lia. }
  destruct cd as [|a [|b [|c cd]]]; simpl in Hge; [lia..|].
  unfold expect_felt, differs. simpl.
  destruct (Z.eqb_spec a 0) as [->|Ha]; simpl; [|split; [done|]; split; [done|]; intros [rest Heq]; simpl in Heq; congruence].
  destruct (Z.eqb_spec b 4) as [->|Hb]; simpl; [|split; [done|]; split; [done|]; intros [rest Heq]; simpl in Heq; congruence].
  destruct (Z.eqb_spec c 22) as [->|Hc]; simpl; [|split; [done|]; split; [done|]; intros [rest Heq]; simpl in Heq; congruence].
  rewrite drop_0, (length_take_le cd 22) by lia. simpl. unfold fail_if.
  case_bool_decide as Hm; cbn [negb]; (split; [done|]); split; try done.
  - intros _. exists (drop 22 cd). rewrite <- (take_drop 22 cd) at 1. by rewrite <- Hm.
  - intros [rest Heq]. exfalso. apply Hm. injection Heq as ->. done.
Qed.

Lemma eip191_decides :
  decides parse_controller_calldata_eip191
    (λ cd, ∃ x y rest, cd = 0 :: 3 :: x :: y :: rest ∧ (rest = [] → y = 1)).
Proof. decides_by_cases. Qed.
Lemma starknet_decides :
  decides parse_controller_calldata_starknet
    (λ cd, ∃ x y rest, cd = 0 :: 0 :: x :: y :: rest ∧ (rest = [] → y = 1)).
Proof. decides_by_cases. Qed.
Lemma external_decides :
  decides parse_controller_calldata_external
    (λ cd, ∃ x y rest, cd = 1 :: x :: y :: rest ∧ (rest = [] → y = 1)).
Proof. decides_by_cases. Qed.
Lemma siws_decides :
  decides parse_controller_calldata_siws
    (λ cd, ∃ x y z rest, cd = 0 :: 5 :: x :: y :: z :: rest ∧ (rest = [] → z = 1)).
Proof. decides_by_cases. Qed.

Lemma any_parser_decides ps cd :
  Forall (λ p : list Felt → outcome ControllerProcessorError unit, p cd ≠ Panic) ps →
  ∃ b, any_parser ps cd = Ok b ∧ (b = true ↔ Exists (λ p, p cd = Ok tt) ps).
Proof.
  induction 1 as [|p ps Hp _ (b & Hb & IH)]; [exists false; by rewrite Exists_nil|]. cbn [any_parser].
  destruct (p cd) as [[]|e|] eqn:Hr; [exists true|exists b|done]; rewrite Exists_cons, Hr; naive_solver.
Qed.

Lemma known_calldata_parsed cd : ∃ b, any_parser controller_parsers cd = Ok b ∧ (b = true ↔ known_calldata cd).
Proof.
  destruct (webauthn_decides cd) as [Hw1 Hw2], (eip191_decides cd) as [He1 He2],
    (starknet_decides cd) as [Hs1 Hs2], (external_decides cd) as [Hx1 Hx2], (siws_decides cd) as [Hi1 Hi2].
  destruct (any_parser_decides controller_parsers cd) as (b & -> & Hb); [by repeat constructor|].
  exists b. split; [done|]. rewrite Hb. unfold known_calldata, controller_parsers. rewrite !Exists_cons, Exists_nil.
  rewrite Hw2, He2, Hs2, Hx2, Hi2. tauto.
Qed.

Lemma lookup_loop_asks n address h :
  ∃ k, (k ≤ n)%nat ∧ (lookup_loop n address h).2 = h ++ replicate k (ReqLookup address) ∧
    (lookup_loop n address h).1 ≠ Panic.
Proof.
  revert h. induction n as [|n IH]; intros h; simpl.
  - exists 0%nat. simpl. by rewrite app_nil_r.
  - unfold st_bind, Erc.call. destruct (lookup_post h address) as [[names|]|].
    + exists 1%nat. split; [lia|]. by destruct names.
    + exists 1%nat. split; [lia|done].
    + destruct (IH (h ++ [ReqLookup address])) as (k & Hk & -> & Hp). exists (Datatypes.S k).
      split; [lia|]. split; [|done]. by rewrite <- (assoc (++)).
Qed.
End lemmas.

(** ** Properties *)
Section properties.
Context `{DojoTypes} `{CairoSerde} `{MetadataEnv} {DS : DojoSchema} {WE : WorldEnv}.
Context {DM : DashMap} {U : U256Ops} {HO : HashOrder} `{Hasher} {SC : Schedule}.
Context {S : Type} `{!ProcessorStorage S}.
#[local] Abbreviation processor := (EventProcessor (World S) ProcessorError).

(** The record an event writes. *)
Definition record_of (e : WorldEvent) : option (Felt * Felt) :=
  match e with
  | StoreSetRecord s i _ _ | StoreUpdateRecord s i _ | StoreUpdateMember s i _ _ | StoreDelRecord s i => Some (s, i)
  | _ => None
  end.
(** The first key of a world event after its name is the selector, and the next
    the entity of a record, in the interface of the world contract. *)
Definition keyed_events : Prop :=
  (∀ e x s i, world_event e = Some x → record_of x = Some (s, i) →
     keys e !! 1%nat = Some s ∧ keys e !! 2%nat = Some i) ∧
  (∀ e s c a, world_event e = Some (ModelUpgraded s c a) → keys e !! 1%nat = Some s).
Definition record_processor (p : processor) : Prop :=
  p = StoreSetRecordProcessor ∨ p = StoreUpdateRecordProcessor ∨ p = StoreUpdateMemberProcessor ∨
  p = StoreDelRecordProcessor.

(** C23: the writes of a record are made in order. Whatever two of the four record
    processors handle two events on the same record of the same world, the two
    get the same task; both depend on one other task, which is the task of the
    registration of the model and of its upgrades. *)
Theorem record_writes_ordered (p1 p2 : processor) (e1 e2 reg upg : Event) (x1 x2 : WorldEvent)
    (sel id class_hash address : Felt) (name ns : ByteArray) (name' ns' : string) :
  keyed_events → record_processor p1 → record_processor p2 →
  world_event e1 = Some x1 → world_event e2 = Some x2 →
  record_of x1 = Some (sel, id) → record_of x2 = Some (sel, id) →
  world_event reg = Some (ModelRegistered name ns class_hash address) →
  byte_array_to_string name = Some name' → byte_array_to_string ns = Some ns' →
  sel = compute_selector_from_names ns' name' →
  world_event upg = Some (ModelUpgraded sel class_hash address) →
  from_address e1 = from_address e2 → from_address reg = from_address e1 → from_address upg = from_address e1 →
  ∃ task model,
    task_identifier p1 e1 = Some task ∧ task_identifier p2 e2 = Some task ∧
    task_dependencies p1 e1 = Some [model] ∧ task_dependencies p2 e2 = Some [model] ∧
    task_identifier (W := World S) (E := ProcessorError) RegisterModelProcessor reg = Some model ∧
    task_identifier (W := World S) (E := ProcessorError) UpgradeModelProcessor upg = Some model.
Proof.
  intros [Hrec Hup] Hp1 Hp2 Hx1 Hx2 Hr1 Hr2 Hreg Hn Hns Hsel Hupg Ha Har Hau.
  destruct (Hrec _ _ _ _ Hx1 Hr1) as [H11 H12], (Hrec _ _ _ _ Hx2 Hr2) as [H21 H22].
  pose proof (Hup _ _ _ _ Hupg) as Hu1.
  exists (task_id_from_address_and_keys (from_address e1) [sel; id]),
    (task_id_from_address_and_key (from_address e1) sel).
  assert (∀ p, record_processor p → task_identifier p = record_task ∧ task_dependencies p = model_dependency)
    as Hp by (intros p [->|[->|[->| ->]]]; done).
  destruct (Hp _ Hp1) as [-> ->], (Hp _ Hp2) as [-> ->].
  cbn [task_identifier RegisterModelProcessor UpgradeModelProcessor].
  unfold model_dependency, record_task, model_task.
  rewrite H11, H12, H21, H22, Hu1, Hreg. simpl. rewrite Hns. simpl. rewrite Hn. simpl.
  rewrite <- Hsel, Har, Hau, Ha. done.
Qed.

(** An event on a model that the indexer does not have leaves everything as it
    was, and is skipped when a filter on namespaces is set, an error otherwise.
    The filter on models is not one: with the namespaces unrestricted and a list
    of models that leaves a model out, its registration is skipped and every
    later event on it is an error, which fails its batch each time. *)
Theorem models_filter_blocks (ctx ctx' : EventProcessorContext) (x : WorldEvent) (sel class_hash address : Felt)
    (name ns : ByteArray) (name' ns' : string) (w : World S) :
  world_event (ctx_event ctx) = Some (ModelRegistered name ns class_hash address) →
  byte_array_to_string name = Some name' → byte_array_to_string ns = Some ns' →
  sel = compute_selector_from_names ns' name' →
  ctx_config ctx' = ctx_config ctx →
  world_event (ctx_event ctx') = Some x → event_selector x = Some sel →
  unknown_model (ctx_contract_address ctx') sel w →
  should_index (ctx_config ctx) ns' name' = false →
  process RegisterModelProcessor ctx w = (Ok tt, w) ∧
  processor_of x ctx' w =
    (if set_is_empty (namespaces (ctx_config ctx)) then Err (ModelNotFound sel) else Ok tt, w) ∧
  (set_is_empty (namespaces (ctx_config ctx)) = true → processor_of x ctx' w = (Err (ModelNotFound sel), w)).
Proof.
  intros Hreg Hn Hns Hsel Hcfg Hx Hs Hu Hidx.
  pose proof (unknown_skipped ctx' x sel w Hx Hs Hu) as Hsk. unfold skipped_or_failed in Hsk. rewrite Hcfg in Hsk.
  split; [|split; [done|intros He; by rewrite Hsk, He]].
  cbn [process RegisterModelProcessor]. unfold register_model_process.
  erewrite bind_decode by (rewrite Hreg; reflexivity). unfold text, st_bind, st_lift, unwrap. rewrite Hns, Hn.
  by rewrite Hidx.
Qed.

(** A model that was registered is the one later events find. When the
    processor of a registration returns [Ok] on a model that is indexed, the
    model is found under its selector without asking the storage, its structure
    the one the node gave, named after the namespace; the events of a model
    that the filters leave out find nothing new. *)
Theorem registered_model_found (ctx ctx' : EventProcessorContext) (class_hash address : Felt)
    (name ns : ByteArray) (name' ns' : string) (w w' : World S) :
  let sel := compute_selector_from_names ns' name' in
  world_event (ctx_event ctx) = Some (ModelRegistered name ns class_hash address) →
  byte_array_to_string name = Some name' → byte_array_to_string ns = Some ns' →
  ctx_contract_address ctx' = ctx_contract_address ctx →
  process RegisterModelProcessor ctx w = (Ok tt, w') →
  if should_index (ctx_config ctx) ns' name' then
    ∃ m t struct_name members,
      resolve_model_or_skip ctx' sel w' = (Ok (Some m), w') ∧
      read_schema (requests w) (model_reader ctx ns' name' address class_hash) = Ok t ∧
      as_struct t = Some (struct_name, members) ∧
      schema m = Struct (ns' +:+ "-" +:+ struct_name) members ∧
      selector m = sel ∧ namespace m = ns' ∧ model_name m = name'
  else w' = w.
Proof.
  intros sel Hreg Hn Hns Hctx. cbn [process RegisterModelProcessor]. unfold register_model_process.
  erewrite bind_decode by (rewrite Hreg; reflexivity). unfold text. unfold st_bind at 1 2.
  unfold st_lift, unwrap. rewrite Hns, Hn. destruct (should_index _ ns' name'); cbn [negb].
  2:{ by intros [= ->]. }
  intros (sch & w1 & Hsch & Hk)%st_bind_Ok. apply namespaced_schema_Ok in Hsch as (t & nm & ms & Ht & Hst & ->).
  apply st_bind_Ok in Hk as (leg & w2 & _ & Hk). apply st_bind_Ok in Hk as (lay & w3 & _ & Hk).
  apply st_bind_Ok in Hk as (us & w4 & _ & Hk). apply st_bind_Ok in Hk as (ps & w5 & _ & Hk).
  apply store_model_Ok in Hk. rewrite <- Hctx in Hk. eexists _, t, nm, ms.
  split; [apply resolve_cached, Hk|]. done.
Qed.

(** Which deployments are taken for controllers. The calldata parsers never
    panic and accept five shapes of calldata, and no other. A deployment of a
    known shape is decided by the name in its salt alone, with no request; of
    another shape, it is asked of the lookup service, at most three times, and
    only when the name is valid. *)
Theorem controller_recognised (ev : UdcContractDeployedEvent) (h : list request) :
  let username := default EmptyString (parse_cairo_short_string (udc_salt ev)) in
  let address := SqlString.format_hex 64 (udc_address ev) in
  let '(r, h') := is_cartridge_controller ev h in
  r ≠ Panic ∧
  (known_calldata (udc_calldata ev) → r = Ok (is_valid_username username) ∧ h' = h) ∧
  (is_valid_username username = false → r = Ok false ∧ h' = h) ∧
  (¬ known_calldata (udc_calldata ev) → is_valid_username username = true →
     ∃ k, (k ≤ 3)%nat ∧ h' = h ++ replicate k (ReqLookup address) ∧
       r = (let? found := (fetch_controller_username address h).1 in
            Ok (match found with Some _ => true | None => false end))).
Proof.
  intros username address. unfold is_cartridge_controller. fold username address.
  destruct (known_calldata_parsed (udc_calldata ev)) as (b & Hb & Hk).
  unfold st_bind, st_lift. rewrite Hb. destruct b; cbn [negb].
  { assert (known_calldata (udc_calldata ev)) by by apply Hk. split_and!; [done|done| |done].
    intros Hu. by rewrite Hu. }
  assert (¬ known_calldata (udc_calldata ev)) by by intros ?%Hk.
  destruct (is_valid_username username) eqn:Hu; cbn [negb]; [|by split_and!].
  destruct (lookup_loop_asks 3 address h) as (k & Hk3 & Hh & Hp). unfold fetch_controller_username.
  destruct (lookup_loop 3 address h) as [[found|err|] h']; cbn [fst snd] in *; [| |done];
    split_and!; try done; intros; by exists k.
Qed.

(** An event message is not indexed when the system that emitted it has a
    short address. A message of a known model that could be read and stored is
    followed by a panic, once it is in the storage, exactly when the address has
    fewer than eight hexadecimal digits. *)
Theorem event_message_short_address (ctx : EventProcessorContext) (sel system_address : Felt)
    (ks values : list Felt) (m : Model) (entity : Ty) (s' : S) (w : World S) :
  0 ≤ system_address < 16 ^ 64 →
  world_event (ctx_event ctx) = Some (EventEmitted sel system_address ks values) →
  resolve_model_or_skip ctx sel w = (Ok (Some m), w) →
  ty_deserialize (ks ++ values) (use_legacy_store m) (schema m) = Some entity →
  set_event_message (ctx_contract_address ctx) entity (ctx_event_id ctx) (ctx_block_timestamp ctx) ks (storage w) =
    (Ok tt, s') →
  process EventMessageProcessor ctx w =
    (if system_address <? 16 ^ 7 then Panic else Ok tt, set_storage s' w).
Proof.
  intros Ha He Hm Hd Hs. cbn [process EventMessageProcessor]. unfold event_message_process.
  erewrite bind_decode by (rewrite He; reflexivity). unfold st_bind at 1. rewrite Hm.
  unfold deserialize. unfold st_bind at 1, st_lift at 1. rewrite Hd. cbn [ok_or].
  unfold st_bind at 1, with_storage, st_map_err, st_zoom. rewrite Hs. cbn [map_err fst snd].
  pose proof (digits_short system_address Ha) as Hl.
  unfold st_bind, system_label. rewrite system_label_length.
  destruct (Z.ltb_spec system_address (16 ^ 7)); [by rewrite (proj2 (Nat.leb_gt _ _)) by lia|].
  by rewrite (proj2 (Nat.leb_le _ _)) by lia.
Qed.
End properties.

(** ** Witnesses *)
#[local] Set Warnings "-register-all".
Inductive demo_ty : Type := DemoFelt | DemoStruct (name : string) (ms : list (string * demo_ty * bool)).
Definition demo_types : DojoTypes := {| Ty := demo_ty; Layout := unit; WorldMetadata := unit |}.
Definition text_serde : CairoSerde := {|
  ByteArray := string;
  parse_cairo_short_string _ := None;
  byte_array_deserialize _ := None;
  byte_array_to_string s := Some s;
  felts_deserialize _ := None;
  u8_deserialize _ := None;
  u256_deserialize := u256_deserialize (CairoSerde := Erc.words_serde);
  u256_deserialize_at l i := eq_refl
|}.
#[local] Existing Instances demo_types text_serde Erc.silent_env gmap_dashmap u256_checked canonical_order
  in_order zero_hasher counting_storage.

Definition ba (s : string) : @ByteArray text_serde := s.
Definition pack (m : Member) : string * demo_ty * bool := (member_name m, member_ty m, member_key m).
Definition unpack (x : string * demo_ty * bool) : Member := mkMember x.1.1 x.1.2 x.2.
Lemma unpack_pack (ms : list Member) : unpack <$> (pack <$> ms) = ms.
Proof. induction ms as [|[] ms IH]; [done|]. cbn. by f_equal. Qed.

(** The name of an event tells its kind; the keys follow. *)
Definition demo_decode (e : Event) : option WorldEvent :=
  match keys e with
  | [1; s; i] => Some (StoreSetRecord s i [] (data e))
  | [2; s; i] => Some (StoreDelRecord s i)
  | [3] => Some (ModelRegistered (ba "m") (ba "ns") 8 9)
  | [4; s] => Some (ModelUpgraded s 8 9)
  | [5; s; a] => Some (EventEmitted s a [] (data e))
  | _ => None
  end.
Definition demo_struct (n : string) (ms : list Member) : demo_ty := DemoStruct n (pack <$> ms).
Definition demo_members (t : demo_ty) : option (string * list Member) :=
  match t with DemoStruct n ms => Some (n, unpack <$> ms) | _ => None end.
Lemma demo_members_struct n ms : demo_members (demo_struct n ms) = Some (n, ms).
Proof. unfold demo_members, demo_struct. by rewrite unpack_pack. Qed.
Definition demo_schema : DojoSchema := {|
  world_event := demo_decode;
  Struct := demo_struct;
  as_struct := demo_members;
  as_struct_Struct := demo_members_struct;
  ty_name _ := "";
  ty_deserialize _ _ t := Some t;
  ty_diff _ _ := None;
  get_selector_from_name _ := None;
  compute_selector_from_names _ _ := 77;
  poseidon_hash_many _ := 0;
  Uri := string;
  Ipfs s := s;
  uri_cid _ := None;
  icon_uri _ := None;
  cover_uri _ := None;
  metadata_from_json _ := Panic;
  base64_encode _ := "";
  datetime_from_timestamp n := Some n
|}.
Definition demo_node : WorldEnv := {|
  read_schema _ r := Ok (DemoStruct (mr_name r) []);
  read_use_legacy_storage _ _ := Err ReaderEntrypointNotFound;
  read_layout _ _ := Ok tt;
  read_unpacked_size _ _ := Ok 1;
  read_packed_size _ _ := Ok 1;
  lookup_post _ _ := None
|}.
#[local] Existing Instances demo_schema demo_node.

Definition demo_w : World nat :=
  mkWorld 0%nat (Cache.mkCache (Cache.mkModelCache ∅) Cache.empty_erc) ∅ [].
Definition demo_config : EventProcessorConfig :=
  mkConfig ∅ false ∅ 10 {["other"]} true ∅ true ∅ ∅ false false.
Definition ctx_of (cfg : EventProcessorConfig) (ks : list Felt) : EventProcessorContext :=
  mkCtx 1 10 100 "0x1" (mkEvent 1 ks []) cfg true.

Lemma demo_keyed : keyed_events.
Proof.
  split.
  - intros e x s i He Hx. simpl in He. unfold demo_decode in He. repeat case_match; simplify_eq/=; done.
  - intros e s c a He. simpl in He. unfold demo_decode in He. repeat case_match; simplify_eq/=; done.
Qed.

Lemma record_writes_ordered_witness :
  ∃ task, task_identifier (W := World nat) (E := ProcessorError) StoreSetRecordProcessor (mkEvent 1 [1; 77; 5] [])
      = Some task ∧
    task_identifier (W := World nat) (E := ProcessorError) StoreDelRecordProcessor (mkEvent 1 [2; 77; 5] [])
      = Some task.
Proof.
  destruct (record_writes_ordered (S := nat) StoreSetRecordProcessor StoreDelRecordProcessor
    (mkEvent 1 [1; 77; 5] []) (mkEvent 1 [2; 77; 5] []) (mkEvent 1 [3] []) (mkEvent 1 [4; 77] [])
    (StoreSetRecord 77 5 [] []) (StoreDelRecord 77 5) 77 5 8 9 (ba "m") (ba "ns") "m" "ns") as (t & m & Ha & Hb & _);
    try reflexivity.
  - exact demo_keyed.
  - left. reflexivity.
  - do 3 right. reflexivity.
  - exists t. split; [exact Ha|exact Hb].
Defined.

Lemma models_filter_blocks_witness :
  (process RegisterModelProcessor (ctx_of demo_config [3]) demo_w).1 = Ok tt ∧
  process StoreSetRecordProcessor (ctx_of demo_config [1; 77; 5]) demo_w = (Err (ModelNotFound 77), demo_w).
Proof.
  destruct (models_filter_blocks (ctx_of demo_config [3]) (ctx_of demo_config [1; 77; 5])
    (StoreSetRecord 77 5 [] []) 77 8 9 (ba "m") (ba "ns") "m" "ns" demo_w) as (Hr & _ & Hs);
    try reflexivity.
  - split; reflexivity.
  - split; [rewrite Hr; reflexivity|]. apply Hs. reflexivity.
Defined.

Lemma registered_model_found_witness :
  let w' := (process RegisterModelProcessor (ctx_of default_config [3]) demo_w).2 in
  ∃ m, resolve_model_or_skip (ctx_of default_config [1; 77; 5]) 77 w' = (Ok (Some m), w') ∧
    schema m = DemoStruct "ns-m" [].
Proof.
  intros w'. pose proof (registered_model_found (ctx_of default_config [3]) (ctx_of default_config [1; 77; 5])
    8 9 (ba "m") (ba "ns") "m" "ns" demo_w w') as Hf.
  destruct Hf as (m & t & n & ms & Hm & Ht & Hst & Hsch & _); try reflexivity.
  exists m. split; [exact Hm|]. rewrite Hsch. injection Ht as <-. injection Hst as <- <-. reflexivity.
Defined.

(** A world that has the model of the message. *)
Definition demo_known : World nat := (process RegisterModelProcessor (ctx_of default_config [3]) demo_w).2.
Lemma event_message_short_address_witness :
  process EventMessageProcessor (ctx_of default_config [5; 77; 16]) demo_known =
    (Panic, set_storage 2%nat demo_known).
Proof.
  apply (event_message_short_address (ctx_of default_config [5; 77; 16]) 77 16 [] []
    (mkModel demo_types 1 "ns" "m" 77 8 9 1 1 tt (DemoStruct "ns-m" []) true) (DemoStruct "ns-m" []) 2%nat demo_known).
  - lia.
  - reflexivity.
  - vm_compute. reflexivity.
  - reflexivity.
  - reflexivity.
Defined.

End WorldProc.
