(* ===== verification/StoreTransaction.v ===== *)
(** * Transactions ([crates/processors/src/processors/store_transaction.rs])

    The processor of transactions: it takes an invoke transaction apart into the
    calls it makes, those made through an "execute from outside" included, names
    their entry points from the classes of the contracts, and stores it all. The
    content of a transaction and the derived deserialisation of its calldata are
    parameters ([TxView], [CallSerde]), as is the node ([ClassEnv]). *)

From S2P Require Import Prelude Math Proto EventProcessor Cache Database SqlString World Erc.
Local Open Scope Z_scope.
Local Open Scope torii_scope.

(** ** Data *)
Record ExecuteCall : Type := mkExecuteCall {
  ec_contract_address : Felt; ec_selector : Felt; ec_calldata : list Felt
}.
Record LegacyExecuteCall : Type := mkLegacyExecuteCall {
  lec_contract_address : Felt; lec_selector : Felt; lec_data_offset : Z; lec_data_length : Z
}.
Inductive Execute : Type :=
| LegacyExecute (calls : list LegacyExecuteCall) (cd : list Felt)
| ExecuteCalls (calls : list ExecuteCall).

Record TransactionInfo : Type := mkTransactionInfo {
  sender_address : Felt;
  info_calldata : list Felt;
  max_fee : Felt;
  signature : list Felt;
  nonce : Felt;
  transaction_type : string
}.

(** The contents the processor tells apart. *)
Inductive TxKind : Type :=
| InvokeV3 (sender : Felt) (cd sig : list Felt) (n : Felt)
| InvokeV1 (sender : Felt) (cd : list Felt) (fee : Felt) (sig : list Felt) (n : Felt)
| L1Handler (contract : Felt) (cd : list Felt) (n : Z)
| OtherContent.
Class TxView (Tx : Type) : Type := { tx_view : Tx → TxKind }.

(** [cairo_deserialize(.., 0)] of the calldata, [None] being an error *)
Class CallSerde : Type := {
  execute_deserialize : list Felt → option (list ExecuteCall);
  legacy_deserialize : list Felt → option (list LegacyExecuteCall * list Felt)
}.

Class ClassEnv : Type := {
  class_hash_at : list request → Cache.BlockId → Felt → outcome Cache.ProviderError Felt;
  class_at : list request → Cache.BlockId → Felt → outcome Cache.ProviderError Cache.ContractClass;
  abi_from_json : string → option (list Cache.AbiEntry);
  selector_from_name : string → option Felt
}.

Module StoreTx.

Section operations.
Context `{DojoTypes} {DM : DashMap} {U : U256Ops} {HO : HashOrder}.
Context {Tx : Type} {TV : TxView Tx} {CSD : CallSerde} {CE : ClassEnv}.
Context {S : Type} `{!ProcessorStorage S}.
#[local] Abbreviation proc A := (st (World S) ProcessorError A).

Definition extract_transaction_info (transaction : Tx) : option TransactionInfo :=
  match tx_view transaction with
  | InvokeV3 sender cd sig n => Some (mkTransactionInfo sender cd 0 sig n "INVOKE")
  | InvokeV1 sender cd fee sig n => Some (mkTransactionInfo sender cd fee sig n "INVOKE")
  | L1Handler contract cd n => Some (mkTransactionInfo contract cd 0 [] n "L1_HANDLER")
  | OtherContent => None
  end.

(** [contract_class_cache.get(address, block).await?]: the node is asked when the
    class is not in the cache *)
Definition class_get (address : Felt) (block : Cache.BlockId) : proc Cache.ClassAbi := λ w,
  let '(r, cs) := Cache.get (class_hash_at (requests w)) (class_at (requests w)) abi_from_json address block
    (class_cache w) in
  let rs := match class_cache w !! address with
            | Some _ => requests w
            | None => requests w ++ [ReqClass address block]
            end in
  (map_err CacheFailed r, set_class_cache cs (set_requests rs w)).

(** The name of the entry point, or its selector in hexadecimal. *)
Definition entrypoint_name (class : Cache.ClassAbi) (sel : Felt) : proc string :=
  let! name := st_lift (map_err CacheFailed (Cache.get_entrypoint_name_from_class selector_from_name class sel)) in
  st_ret (default (SqlString.format_hex 0 sel) name).

(** [l[a..a + n]], whose bounds are checked *)
Definition slice (l : list Felt) (a n : Z) : proc (list Felt) :=
  if a + n <=? Z.of_nat (length l) then st_ret (take (Z.to_nat n) (drop (Z.to_nat a) l)) else st_lift Panic.

Definition parse_execute_call (c : ExecuteCall) (caller : Felt) (ty : string) (block_number : Z)
  : proc TransactionCall :=
  let! class := class_get (ec_contract_address c) (Cache.BlockNumber block_number) in
  let! entrypoint := entrypoint_name class (ec_selector c) in
  st_ret (mkCall (ec_contract_address c) entrypoint (ec_calldata c) ty caller).

Definition parse_legacy_execute_call (c : LegacyExecuteCall) (full_calldata : list Felt) (caller : Felt)
    (ty : string) (block_number : Z) : proc TransactionCall :=
  let! class := class_get (lec_contract_address c) (Cache.BlockNumber block_number) in
  let! entrypoint := entrypoint_name class (lec_selector c) in
  let! cd := slice full_calldata (lec_data_offset c) (lec_data_length c) in
  st_ret (mkCall (lec_contract_address c) entrypoint cd ty caller).

(** [calldata[i]], [felt.try_into().unwrap()] into a [usize] *)
Definition cd_at (cd : list Felt) (i : nat) : proc Felt := st_lift (unwrap (cd !! i)).
Definition to_usize (f : Felt) : proc Z :=
  if (0 <=? f) && (f <? 2 ^ 64) then st_ret f else st_lift Panic.

Definition parse_outside_call (cd : list Felt) (base_offset : nat) (caller : Felt)
  : proc (TransactionCall * nat) :=
  let selector_offset := (base_offset + 1)%nat in
  let calldata_offset := (selector_offset + 2)%nat in
  let! len := cd_at cd (selector_offset + 1) in
  let! calldata_len := to_usize len in
  let! contract_address := cd_at cd base_offset in
  let! class := class_get contract_address Cache.BlockPreConfirmed in
  let! sel := cd_at cd selector_offset in
  let! entrypoint := entrypoint_name class sel in
  let! call_data := slice cd (Z.of_nat calldata_offset) calldata_len in
  st_ret (mkCall contract_address entrypoint call_data "EXECUTE_FROM_OUTSIDE" caller,
          (calldata_offset + Z.to_nat calldata_len)%nat).

Fixpoint outside_loop (n : nat) (cd : list Felt) (current_offset : nat) (caller : Felt)
  : proc (list TransactionCall) :=
  match n with
  | O => st_ret []
  | Datatypes.S n =>
      let! (outside_call, next_offset) := parse_outside_call cd current_offset caller in
      let! rest := outside_loop n cd next_offset caller in
      st_ret (outside_call :: rest)
  end.
(** Every call read takes three felts or more of the calldata, so a loop of more
    than [length cd] turns panics before its end. *)
Definition outside_calls (cd : list Felt) (len_offset : nat) (caller : Felt) : proc (list TransactionCall) :=
  let! len := cd_at cd len_offset in
  let! outside_calls_len := to_usize len in
  outside_loop (Z.to_nat (Z.min outside_calls_len (Z.of_nat (length cd)))) cd (len_offset + 1) caller.

Definition process_outside_calls (c : TransactionCall) : proc (list TransactionCall) :=
  if String.eqb (entrypoint c) "execute_from_outside_v3" then
    outside_calls (calldata c) 5 (call_contract_address c)
  else if String.eqb (entrypoint c) "execute_from_outside_v2" then
    outside_calls (calldata c) 4 (call_contract_address c)
  else st_ret [].

Definition parse_calls (execute : Execute) (sender : Felt) (block_number : Z) : proc (list TransactionCall) :=
  match execute with
  | ExecuteCalls calls => st_mapM (λ c, parse_execute_call c sender "EXECUTE" block_number) calls
  | LegacyExecute calls cd => st_mapM (λ c, parse_legacy_execute_call c cd sender "EXECUTE" block_number) calls
  end.
Definition parse_execute (execute : Execute) (sender : Felt) (block_number : Z)
  : proc (list TransactionCall) :=
  let! calls := parse_calls execute sender block_number in
  let! outside := st_mapM process_outside_calls calls in
  st_ret (calls ++ concat outside).

(** The calls of a transaction; an error is logged and leaves none. *)
Definition transaction_calls_of (info : TransactionInfo) (block_number : Z) : proc (list TransactionCall) :=
  if String.eqb (transaction_type info) "INVOKE" then
    let execute :=
      match execute_deserialize (info_calldata info) with
      | Some calls => Some (ExecuteCalls calls)
      | None =>
          match legacy_deserialize (info_calldata info) with
          | Some (calls, cd) => Some (LegacyExecute calls cd)
          | None => None
          end
      end in
    match execute with
    | Some execute =>
        let! r := Erc.catch (parse_execute execute (sender_address info) block_number) in
        match r with inr calls => st_ret calls | inl _ => st_ret [] end
    | None => st_ret []
    end
  else st_ret [].

Definition StoreTransactionProcessor (ctx : TransactionProcessorContext Tx) : proc unit :=
  match extract_transaction_info (tx_content ctx) with
  | None => st_ret tt
  | Some info =>
      let! calls := transaction_calls_of info (tx_block_number ctx) in
      with_storage (store_transaction (tx_hash ctx) (sender_address info) (info_calldata info) (max_fee info)
        (signature info) (nonce info) (tx_block_number ctx) (tx_contract_addresses ctx) (transaction_type info)
        (tx_block_timestamp ctx) calls (tx_unique_models ctx))
  end.
End operations.


(** ** Lemmas *)
Section lemmas.
Context `{DojoTypes} {DM : DashMap} {U : U256Ops} {HO : HashOrder}.
Context {Tx : Type} {TV : TxView Tx} {CSD : CallSerde} {CE : ClassEnv}.
Context {S : Type} `{!ProcessorStorage S}.
#[local] Abbreviation proc A := (st (World S) ProcessorError A).

Lemma cd_at_Ok cd i x (w : World S) : cd !! i = Some x → cd_at cd i w = (Ok x, w).
Proof. intros Hx. unfold cd_at, st_lift, unwrap. by rewrite Hx. Qed.

(** A call that was read lies within the calldata. *)
Lemma parse_outside_call_Ok cd o caller c o' (w w' : World S) :
  parse_outside_call cd o caller w = (Ok (c, o'), w') → (o + 3 ≤ o' ≤ length cd)%nat.
Proof.
  unfold parse_outside_call. intros (len & w1 & _ & Hk)%st_bind_Ok.
  apply st_bind_Ok in Hk as (n & w2 & Hn & Hk). apply st_bind_Ok in Hk as (a & w3 & _ & Hk).
  apply st_bind_Ok in Hk as (cl & w4 & _ & Hk). apply st_bind_Ok in Hk as (s & w5 & _ & Hk).
  apply st_bind_Ok in Hk as (e & w6 & _ & Hk). apply st_bind_Ok in Hk as (d & w7 & Hs & Hk).
  injection Hk as <- <- <-. unfold slice in Hs. unfold to_usize in Hn.
  destruct (Z.leb_spec 0 len); [|discriminate Hn]. destruct (len <? 2 ^ 64); [|discriminate Hn]. injection Hn as -> <-.
  destruct (Z.leb_spec (Z.of_nat (o + 1 + 2) + n) (Z.of_nat (length cd))); [|discriminate Hs]. lia.
Qed.

(** The cap on the number of turns changes nothing. *)
Lemma outside_loop_cap m : ∀ n cd o caller (w : World S),
  (length cd < o + 3 * m)%nat → (1 ≤ m ≤ n)%nat → outside_loop n cd o caller w = outside_loop m cd o caller w.
Proof.
  induction m as [|m IH]; intros n cd o caller w Hm Hn; [lia|].
  destruct n as [|n]; [lia|]. simpl. unfold st_bind at 1 3.
  destruct (parse_outside_call cd o caller w) as [[[c o']|e|] w'] eqn:Hp; [|done..].
  apply parse_outside_call_Ok in Hp. unfold st_bind. rewrite (IH n cd o' caller w'); [done|lia|lia].
Qed.
Lemma outside_calls_loop cd k len caller (w : World S) :
  (1 ≤ k)%nat → cd !! k = Some len → 0 ≤ len < 2 ^ 64 →
  outside_calls cd k caller w = outside_loop (Z.to_nat len) cd (k + 1) caller w.
Proof.
  intros Hk Hlen Hr. unfold outside_calls, st_bind. rewrite (cd_at_Ok _ _ _ _ Hlen). unfold to_usize.
  rewrite (proj2 (Z.leb_le _ _)), (proj2 (Z.ltb_lt _ _)) by lia. cbn [andb st_ret].
  apply lookup_lt_Some in Hlen. destruct (Z.le_gt_cases len (Z.of_nat (length cd))).
  - by rewrite Z.min_l.
  - rewrite Z.min_r, Nat2Z.id by lia. symmetry. apply outside_loop_cap; lia.
Qed.

(** *** Calls that are well formed *)
Record outside_call : Type := mkOutside { oc_to : Felt; oc_selector : Felt; oc_data : list Felt }.
Definition encode_call (c : outside_call) : list Felt :=
  [oc_to c; oc_selector c; Z.of_nat (length (oc_data c))] ++ oc_data c.

(** The class of the contract is in the cache and names the entry point. *)
Definition named (w : World S) (c : outside_call) (name : option string) : Prop :=
  ∃ h class, class_cache w !! oc_to c = Some (h, class) ∧
    Cache.get_entrypoint_name_from_class selector_from_name class (oc_selector c) = Ok name.
Definition decoded (caller : Felt) (c : outside_call) (name : option string) : TransactionCall :=
  mkCall (oc_to c) (default (SqlString.format_hex 0 (oc_selector c)) name) (oc_data c)
    "EXECUTE_FROM_OUTSIDE" caller.

Lemma class_get_hit addr block h class (w : World S) :
  class_cache w !! addr = Some (h, class) → class_get addr block w = (Ok class, w).
Proof. intros Hc. unfold class_get, Cache.get. rewrite Hc. simpl. by destruct w. Qed.

Lemma parse_outside_call_words pre c post caller name (w : World S) :
  named w c name → Z.of_nat (length (oc_data c)) < 2 ^ 64 →
  parse_outside_call (pre ++ encode_call c ++ post) (length pre) caller w =
    (Ok (decoded caller c name, (length pre + length (encode_call c))%nat), w).
Proof.
  intros (h & class & Hc & Hn) Hlen. unfold parse_outside_call. set (cd := pre ++ encode_call c ++ post).
  assert (∀ i, (i < 3)%nat → cd !! (length pre + i)%nat =
    [oc_to c; oc_selector c; Z.of_nat (length (oc_data c))] !! i) as Hat.
  { intros i Hi. unfold cd. rewrite lookup_app_r by lia. replace (length pre + i - length pre)%nat with i by lia.
    unfold encode_call. rewrite <- (assoc (++)). by rewrite lookup_app_l by done. }
  unfold st_bind at 1. rewrite <- !Nat.add_assoc. cbn [Nat.add]. rewrite (cd_at_Ok _ _ _ _ (Hat 2%nat ltac:(lia))).
  unfold to_usize. rewrite (proj2 (Z.leb_le _ _)), (proj2 (Z.ltb_lt _ _)) by lia. cbn [andb].
  unfold st_bind at 1, st_ret at 1. unfold st_bind at 1.
  pose proof (Hat 0%nat ltac:(lia)) as Hat0. rewrite Nat.add_0_r in Hat0. rewrite (cd_at_Ok _ _ _ _ Hat0).
  unfold st_bind at 1. rewrite (class_get_hit _ _ _ _ _ Hc). unfold st_bind at 1.
  rewrite (cd_at_Ok _ _ _ _ (Hat 1%nat ltac:(lia))). unfold st_bind at 1, entrypoint_name, st_bind at 1, st_lift.
  rewrite Hn. cbn [map_err st_ret]. unfold st_bind, slice.
  assert (cd = (pre ++ [oc_to c; oc_selector c; Z.of_nat (length (oc_data c))]) ++ oc_data c ++ post) as Hcd.
  { unfold cd, encode_call. by rewrite <- !(assoc (++)). }
  rewrite (proj2 (Z.leb_le _ _)) by (rewrite Hcd, !length_app; simpl; lia).
  unfold st_ret. rewrite !Nat2Z.id.
  replace (drop (length pre + 3) cd) with (oc_data c ++ post); [|].
  - rewrite take_app_length. unfold decoded, encode_call. do 3 f_equal. rewrite length_app. simpl. lia.
  - rewrite Hcd. rewrite drop_app_length'; [done|]. by rewrite length_app.
Qed.

Lemma outside_loop_words cs names : ∀ pre post caller (w : World S),
  Forall2 (named w) cs names → Forall (λ c, Z.of_nat (length (oc_data c)) < 2 ^ 64) cs →
  outside_loop (length cs) (pre ++ (cs ≫= encode_call) ++ post) (length pre) caller w =
    (Ok (zip_with (decoded caller) cs names), w).
Proof.
  intros pre post caller w Hn. revert pre. induction Hn as [|c name cs names Hc Hn IH]; intros pre Hl; [done|].
  apply Forall_cons in Hl as [Hl1 Hl]. rewrite bind_cons, <- (assoc (++)). cbn [length outside_loop].
  unfold st_bind at 1. rewrite (parse_outside_call_words _ _ _ _ name) by done. unfold st_bind.
  specialize (IH (pre ++ encode_call c) Hl). rewrite <- (assoc (++)), length_app in IH. by rewrite IH.
Qed.

(** Parsing only asks the node and fills the class cache. *)
Definition only_classes (w w' : World S) : Prop := storage w' = storage w ∧ cache w' = cache w.
#[global] Instance only_classes_preorder : PreOrder only_classes.
Proof. split; [by intros|]. intros ? ? ? [Ha Hb] [Hc Hd]. split; congruence. Qed.

Lemma class_get_keeps a b : keeps only_classes (class_get a b).
Proof. intros w. unfold class_get. by destruct (Cache.get _ _ _ _ _ _). Qed.
Lemma entrypoint_name_keeps c s : keeps only_classes (entrypoint_name c s).
Proof. unfold entrypoint_name. keeps_solve. Qed.
Lemma parse_outside_call_keeps cd o caller : keeps only_classes (parse_outside_call cd o caller).
Proof.
  unfold parse_outside_call, cd_at, to_usize, slice. repeat first [apply class_get_keeps|apply entrypoint_name_keeps|keeps_step].
Qed.
Lemma outside_loop_keeps n cd o caller : keeps only_classes (outside_loop n cd o caller).
Proof.
  revert o. induction n as [|n IH]; intros o; simpl; [keeps_step|].
  apply keeps_bind; [exact _|apply parse_outside_call_keeps|]. intros [c o'].
  apply keeps_bind; [exact _|apply IH|]. intros rest. keeps_step.
Qed.
Lemma process_outside_keeps c : keeps only_classes (process_outside_calls c).
Proof.
  unfold process_outside_calls, outside_calls, cd_at, to_usize.
  repeat first [apply outside_loop_keeps|keeps_step].
Qed.
Lemma parse_execute_keeps e a n : keeps only_classes (parse_execute e a n).
Proof.
  unfold parse_execute, parse_calls, parse_execute_call, parse_legacy_execute_call, slice.
  repeat first [apply class_get_keeps|apply entrypoint_name_keeps|apply process_outside_keeps|keeps_step].
Qed.
End lemmas.

(** ** Properties *)
Section properties.
Context `{DojoTypes} {DM : DashMap} {U : U256Ops} {HO : HashOrder}.
Context {Tx : Type} {TV : TxView Tx} {CSD : CallSerde} {CE : ClassEnv}.
Context {S : Type} `{!ProcessorStorage S}.

(** The calls made through "execute from outside" are read back. The calldata
    of such a call is a header of five felts (four in version 2), the number of
    calls, the calls one after the other, each as its contract, its selector and
    its own calldata, and a rest; when the classes of the contracts are known,
    reading it gives exactly the calls, in order, under the names of their
    entry points, and changes nothing. *)
Theorem outside_calls_decoded (v3 : bool) (header tail : list Felt) (cs : list outside_call)
    (names : list (option string)) (addr caller : Felt) (ty : string) (w : World S) :
  length header = (if v3 then 5 else 4)%nat → Forall2 (named w) cs names →
  Z.of_nat (length cs) < 2 ^ 64 → Forall (λ c, Z.of_nat (length (oc_data c)) < 2 ^ 64) cs →
  let name := if v3 then "execute_from_outside_v3" else "execute_from_outside_v2" in
  let cd := header ++ [Z.of_nat (length cs)] ++ (cs ≫= encode_call) ++ tail in
  process_outside_calls (mkCall addr name cd ty caller) w = (Ok (zip_with (decoded addr) cs names), w).
Proof.
  intros Hh Hn Hlen Hl name cd.
  assert (∀ k, length header = k → (1 ≤ k)%nat →
    outside_calls cd k addr w = (Ok (zip_with (decoded addr) cs names), w)) as Hk.
  { intros k Hk Hk1. rewrite (outside_calls_loop cd k (Z.of_nat (length cs))); [|done| |lia].
    - rewrite Nat2Z.id. unfold cd. rewrite (assoc (++)).
      replace (k + 1)%nat with (length (header ++ [Z.of_nat (length cs)])) by (rewrite length_app; simpl; lia).
      by apply outside_loop_words.
    - unfold cd. rewrite lookup_app_r by lia. by rewrite Hk, Nat.sub_diag. }
  unfold process_outside_calls. cbn [entrypoint calldata call_contract_address].
  destruct v3; (apply Hk; [exact Hh|lia]).
Qed.

(** A transaction the indexer sees is stored whatever its calls. Whichever
    answers the node gives, taking a transaction apart returns no error: a class
    that cannot be had leaves the transaction without calls. It touches neither
    the storage nor the cache of tokens and models. An invoke or an L1 handler
    transaction is then stored once, with the calls found, unless it panics; any
    other is ignored. *)
Theorem transaction_stored (ctx : TransactionProcessorContext Tx) (w : World S) :
  match extract_transaction_info (tx_content ctx) with
  | None => tx_view (tx_content ctx) = OtherContent ∧ StoreTransactionProcessor ctx w = (Ok tt, w)
  | Some info =>
      ∃ r w1, transaction_calls_of info (tx_block_number ctx) w = (r, w1) ∧
        storage w1 = storage w ∧ cache w1 = cache w ∧
        ((∃ calls, r = Ok calls ∧ StoreTransactionProcessor ctx w =
            with_storage (store_transaction (tx_hash ctx) (sender_address info) (info_calldata info)
              (max_fee info) (signature info) (nonce info) (tx_block_number ctx) (tx_contract_addresses ctx)
              (transaction_type info) (tx_block_timestamp ctx) calls (tx_unique_models ctx)) w1) ∨
         (r = Panic ∧ StoreTransactionProcessor ctx w = (Panic, w1)))
  end.
Proof.
  unfold StoreTransactionProcessor. destruct (extract_transaction_info _) as [info|] eqn:Hx.
  2:{ unfold extract_transaction_info in Hx. by destruct (tx_view _). }
  destruct (transaction_calls_of info (tx_block_number ctx) w) as [r w1] eqn:Hc. exists r, w1. split; [done|].
  assert (only_classes w w1 ∧ ∀ e, r ≠ Err e) as [[Hs Hca] Hne].
  { unfold transaction_calls_of in Hc.
    destruct (String.eqb _ _); [|injection Hc as <- <-; by split].
    destruct (match execute_deserialize (info_calldata info) with Some c => Some (ExecuteCalls c) | None => _ end)
      as [ex|]; [|injection Hc as <- <-; by split].
    pose proof (parse_execute_keeps ex (sender_address info) (tx_block_number ctx) w) as Hk.
    unfold st_bind, Erc.catch in Hc.
    destruct (parse_execute ex (sender_address info) (tx_block_number ctx) w) as [[cs|e|] w2];
      cbn [st_ret] in Hc; injection Hc as <- <-; by split. }
  split; [done|]. split; [done|]. unfold st_bind. rewrite Hc.
  destruct r as [cs|e|]; [left; eauto|by destruct (Hne e)|by right].
Qed.

(** Calldata that claims to be an "execute from outside" and is too short is a
    panic, before anything is stored. An invoke transaction that makes one call,
    to a contract whose class names the entry point [execute_from_outside_v3],
    with five felts of calldata or fewer, or with a number of calls that does not
    fit 64 bits, stops the batch it is in. *)
Theorem short_outside_call_panics (ctx : TransactionProcessorContext Tx) (info : TransactionInfo)
    (c : ExecuteCall) (h : Felt) (class : Cache.ClassAbi) (w : World S) :
  extract_transaction_info (tx_content ctx) = Some info → transaction_type info = "INVOKE" →
  execute_deserialize (info_calldata info) = Some [c] →
  class_cache w !! ec_contract_address c = Some (h, class) →
  Cache.get_entrypoint_name_from_class selector_from_name class (ec_selector c) =
    Ok (Some "execute_from_outside_v3") →
  (length (ec_calldata c) ≤ 5)%nat ∨ (∃ n, ec_calldata c !! 5%nat = Some n ∧ 2 ^ 64 ≤ n) →
  StoreTransactionProcessor ctx w = (Panic, w).
Proof.
  intros Hx Hty Hd Hc Hn Hshort. unfold StoreTransactionProcessor. rewrite Hx. unfold st_bind at 1.
  unfold transaction_calls_of. rewrite Hty, Hd. cbn [String.eqb Ascii.eqb Bool.eqb].
  assert (parse_execute (ExecuteCalls [c]) (sender_address info) (tx_block_number ctx) w = (Panic, w)) as Hp.
  { unfold parse_execute, parse_calls. cbn [st_mapM]. unfold parse_execute_call, entrypoint_name, st_bind, st_lift.
    rewrite (class_get_hit _ _ _ _ _ Hc), Hn. cbn [map_err st_ret default].
    unfold st_ret. cbn [st_mapM]. unfold process_outside_calls. cbn [entrypoint String.eqb Ascii.eqb Bool.eqb default].
    unfold outside_calls, st_bind. cbn [calldata]. destruct Hshort as [Hs|(n & Hn5 & Hbig)].
    - unfold cd_at, st_lift. by rewrite (proj2 (lookup_ge_None _ _)) by lia.
    - unfold cd_at, st_lift. rewrite Hn5. cbn [unwrap]. unfold to_usize. rewrite (proj2 (Z.ltb_ge _ _)), andb_false_r by lia. done. }
  unfold st_bind, Erc.catch. by rewrite Hp.
Qed.
End properties.

(** ** Witnesses *)
Definition demo_types : DojoTypes := {| Ty := unit; Layout := unit; WorldMetadata := unit |}.
(** A transaction is its calldata, its calls one call of contract 9. *)
Definition demo_view : TxView (list Felt) := {| tx_view cd := InvokeV3 1 cd [] 0 |}.
Definition demo_serde : CallSerde := {|
  execute_deserialize cd := Some [mkExecuteCall 9 3 cd];
  legacy_deserialize _ := None
|}.
Definition demo_env : ClassEnv := {|
  class_hash_at _ _ _ := Err Cache.OtherProviderError;
  class_at _ _ _ := Err Cache.OtherProviderError;
  abi_from_json _ := None;
  selector_from_name name := Some (if String.eqb name "execute_from_outside_v3" then 3 else 4)
|}.
#[local] Existing Instances demo_types gmap_dashmap u256_checked canonical_order counting_storage demo_view
  demo_serde demo_env.

Definition demo_class : Cache.ClassAbi :=
  Cache.Legacy [Cache.LegacyFunction "execute_from_outside_v3"; Cache.LegacyFunction "move"].
Definition demo_world : World nat :=
  mkWorld 0%nat (Cache.mkCache (Cache.mkModelCache ∅) Cache.empty_erc) {[ 9 := (7, demo_class) ]} [].
Definition demo_calls : list outside_call := [mkOutside 9 4 [10; 11]; mkOutside 9 5 []].
Definition demo_tx (cd : list Felt) : TransactionProcessorContext (list Felt) := mkTxCtx 10 100 5 cd ∅ ∅.

Lemma outside_calls_decoded_witness :
  process_outside_calls (mkCall 9 "execute_from_outside_v3"
    [1; 2; 3; 4; 5; 2; 9; 4; 2; 10; 11; 9; 5; 0; 42] "EXECUTE" 1) demo_world =
  (Ok [mkCall 9 "move" [10; 11] "EXECUTE_FROM_OUTSIDE" 9; mkCall 9 "0x5" [] "EXECUTE_FROM_OUTSIDE" 9], demo_world).
Proof.
  refine (outside_calls_decoded true [1; 2; 3; 4; 5] [42] demo_calls [Some "move"; None] 9 1 "EXECUTE" demo_world
    _ _ _ _); try reflexivity.
  - repeat constructor; exists 7, demo_class; split; reflexivity.
  - repeat constructor.
Defined.

Lemma short_outside_call_panics_witness :
  StoreTransactionProcessor (demo_tx [1; 2; 3]) demo_world = (Panic, demo_world).
Proof.
  apply (short_outside_call_panics (demo_tx [1; 2; 3]) (mkTransactionInfo 1 [1; 2; 3] 0 [] 0 "INVOKE")
    (mkExecuteCall 9 3 [1; 2; 3]) 7 demo_class demo_world); try reflexivity.
  left. simpl. lia.
Defined.

End StoreTx.
