(* ===== verification/Fetcher.v ===== *)
(** * The fetcher ([crates/indexer/fetcher/src]: json_rpc.rs, lib.rs, error.rs)

    Given a cursor per contract, [fetch] asks the node for the events each
    contract emitted since, page by page and in retried batches, for the blocks
    they are in, and for the block being built; it returns the events grouped by
    block and transaction and the cursors moved forward.

    The node is a parameter ([Node]): it may refuse any call, and its answers may
    depend on when it is asked, for which chunk and at which attempt. So is the
    [indexmap] crate ([IndexMap]). The loop that follows continuation tokens
    takes fuel, one unit per round of requests. *)

From S2P Require Import Prelude Proto.
Local Open Scope Z_scope.
Local Open Scope torii_scope.

(** [indexmap::IndexMap] keyed by felts: a map that iterates in insertion order;
    inserting a key again keeps its place. *)
Definition assoc_insert {V} (k : Felt) (v : V) (l : list (Felt * V)) : list (Felt * V) :=
  if decide (k ∈ l.*1) then (λ kv, if decide (kv.1 = k) then (k, v) else kv) <$> l else l ++ [(k, v)].
Definition assoc_get {V} (k : Felt) (l : list (Felt * V)) : option V :=
  snd <$> List.find (λ kv, bool_decide (kv.1 = k)) l.
Definition assoc_alter {V} (f : V → V) (k : Felt) (l : list (Felt * V)) : list (Felt * V) :=
  (λ kv, if decide (kv.1 = k) then (k, f kv.2) else kv) <$> l.

Class IndexMap : Type := {
  im : Type → Type;
  im_iter {V} : im V → list (Felt * V);
  im_from_iter {V} : list (Felt * V) → im V;
  im_get {V} : Felt → im V → option V;
  im_alter {V} : (V → V) → Felt → im V → im V;
  im_retain {V} : (V → bool) → im V → im V;
  im_keys_NoDup {V} (m : im V) : NoDup (im_iter m).*1;
  im_iter_from {V} (l : list (Felt * V)) :
    im_iter (im_from_iter l) = foldl (λ acc kv, assoc_insert kv.1 kv.2 acc) [] l;
  im_get_iter {V} k (m : im V) : im_get k m = assoc_get k (im_iter m);
  im_iter_alter {V} (f : V → V) k (m : im V) : im_iter (im_alter f k m) = assoc_alter f k (im_iter m);
  im_iter_retain {V} (p : V → bool) (m : im V) :
    im_iter (im_retain p m) = List.filter (λ kv, p kv.2) (im_iter m)
}.

(** ** The node's data *)
Record EmittedEvent : Type := mkEmitted {
  emitted_from_address : Felt;
  emitted_keys : list Felt;
  emitted_data : list Felt;
  block_number : option Z;
  transaction_hash : Felt
}.
#[global] Instance EmittedEvent_eq_dec : EqDecision EmittedEvent.
Proof. solve_decision. Defined.

Class StarknetTypes : Type := {
  Transaction : Type;
  TransactionContent : Type;
  TransactionReceipt : Type;
  tx_hash : Transaction → Felt;
  tx_into : Transaction → TransactionContent;
  receipt_hash : TransactionReceipt → Felt;
  receipt_events : TransactionReceipt → list Event;
  receipt_reverted : TransactionReceipt → bool
}.

Record EventsPage : Type := mkPage { page_events : list EmittedEvent; continuation_token : option string }.

Record EventFilter : Type := mkFilter {
  from_block : Z;
  to_block_hash : Felt;
  filter_address : Felt;
  filter_token : option string;
  chunk_size : Z
}.

Inductive ProviderRequestData : Type :=
| GetEvents (f : EventFilter)
| GetBlockWithTxHashes (block_number : Z)
| GetTransactionByHash (hash : Felt)
| GetTransactionReceipt (hash : Felt).

Inductive ReceiptBlock : Type :=
| RBBlock (block_hash : Felt) (block_number : Z)
| RBPreConfirmed (block_number : Z).
Record TransactionReceiptWithBlockInfo `{StarknetTypes} : Type := mkReceiptInfo {
  ri_receipt : TransactionReceipt;
  ri_block : ReceiptBlock
}.

Inductive ProviderResponseData `{StarknetTypes} : Type :=
| REvents (p : EventsPage)
| RBlock (timestamp : Z) (transactions : list Felt) (block_hash : Felt)
| RPreConfirmedBlock
| RTransaction (t : Transaction)
| RReceipt (r : TransactionReceiptWithBlockInfo)
| ROther.

Record PreConfirmedBlock `{StarknetTypes} : Type := mkPreConfirmed {
  pre_block_number : Z;
  pre_timestamp : Z;
  pre_transactions : list (TransactionContent * TransactionReceipt)
}.

Arguments mkReceiptInfo {_}.
Arguments ri_receipt {_}.
Arguments ri_block {_}.
Arguments mkPreConfirmed {_}.
Arguments pre_block_number {_}.
Arguments pre_timestamp {_}.
Arguments pre_transactions {_}.

(** [None] is an error. The first argument of each call counts the calls made
    before; a batch is also told apart by its chunk and its attempt. *)
Class Node `{StarknetTypes} : Type := {
  block_hash_and_number : nat → option (Felt * Z);
  get_preconfirmed_block : nat → option (option PreConfirmedBlock);
  batch_requests : nat → nat → nat → list ProviderRequestData → option (list ProviderResponseData)
}.

Module Fetcher.

Inductive Error : Type := ProviderError | BatchRequest (e : Error).

Record FetchingFlags : Type := mkFlags {
  TRANSACTIONS : bool;
  PRECONFIRMED_BLOCK : bool;
  TRANSACTION_RECEIPTS : bool
}.
Record FetcherConfig : Type := mkConfig {
  batch_chunk_size : nat;
  blocks_chunk_size : Z;
  events_chunk_size : Z;
  world_block : Z;
  flags : FetchingFlags
}.
Definition default_config : FetcherConfig := mkConfig 1024 10240 1024 0 (mkFlags false false false).

Record ContractEventBatch : Type := mkBatch {
  batch_contract_address : Felt;
  batch_events : list EmittedEvent;
  batch_from_block : Z;
  batch_to_block : Z
}.

Section data.
Context `{StarknetTypes} `{IndexMap}.

Record FetchTransaction : Type := mkFetchTx {
  ft_transaction : option TransactionContent;
  ft_events : list Event;
  ft_receipt : option TransactionReceiptWithBlockInfo
}.
Record FetchRangeBlock : Type := mkRangeBlock {
  block_hash : option Felt;
  timestamp : Z;
  transactions : im FetchTransaction
}.
Record FetchRangeResult : Type := mkRange { blocks : gmap Z FetchRangeBlock }.
Record FetchPreconfirmedBlockResult : Type := mkPreconf {
  fp_block_number : Z;
  fp_timestamp : Z;
  fp_transactions : im FetchTransaction
}.
Record Cursors : Type := mkCursors {
  cursor_transactions : gmap Felt (gset Felt);
  cursors : gmap Felt ContractCursor
}.
Record FetchResult : Type := mkFetchResult {
  range : FetchRangeResult;
  preconfirmed_block : option FetchPreconfirmedBlockResult;
  fetched_cursors : Cursors
}.
End data.

(** [BTreeSet] and [BTreeMap] iterate by increasing key. *)
Definition bset_iter (s : gset Z) : list Z := merge_sort Z.le (elements s).
Definition key_le {V} (p q : Z * V) : Prop := p.1 ≤ q.1.
#[global] Instance key_le_dec {V} : RelDecision (@key_le V).
Proof. intros p q. unfold key_le. apply _. Defined.
Definition bmap_iter {V} (m : gmap Z V) : list (Z * V) := merge_sort key_le (map_to_list m).

Section operations.
Context `{StarknetTypes} `{!IndexMap} `{!Node} {HO : HashOrder} (config : FetcherConfig).
#[local] Abbreviation fetcher A := (st nat Error A).

(** ** Batches *)
Fixpoint chunks_aux {A} (fuel n : nat) (l : list A) : list (list A) :=
  match fuel, l with
  | S fuel, _ :: _ => take n l :: chunks_aux fuel n (drop n l)
  | _, _ => []
  end.
(** [l.chunks(n)], for a positive [n] *)
Definition chunks {A} (n : nat) (l : list A) : list (list A) := chunks_aux (length l) n l.

Definition MAX_RETRIES : nat := 5.
Definition INITIAL_BACKOFF : Z := 50.

(** The loop of one chunk from an attempt on, with the delays slept (in
    milliseconds). *)
Fixpoint chunk_loop (retries_left call chunk_index attempt : nat) (chunk : list ProviderRequestData)
  : outcome Error (list ProviderResponseData) * list Z :=
  match batch_requests call chunk_index attempt chunk with
  | Some results => (Ok results, [])
  | None =>
      match retries_left with
      | O => (Err (BatchRequest ProviderError), [])
      | S retries_left =>
          let '(r, sleeps) := chunk_loop retries_left call chunk_index (S attempt) chunk in
          (r, INITIAL_BACKOFF * 2 ^ Z.of_nat attempt :: sleeps)
      end
  end.

(** [try_join_all(futures)]: the results in order, or an error if one fails *)
Fixpoint try_join_all {A} (l : list (outcome Error A)) : outcome Error (list A) :=
  match l with
  | [] => Ok []
  | r :: l => let? a := r in let? l := try_join_all l in Ok (a :: l)
  end.

Definition chunked_batch_requests (requests : list ProviderRequestData)
  : fetcher (list ProviderResponseData) := λ call,
  if decide (requests = []) then (Ok [], call)
  else if decide (batch_chunk_size config = 0%nat) then (Panic, call)
  else
    let futures := imap (λ i chunk, (chunk_loop MAX_RETRIES call i 0 chunk).1)
                     (chunks (batch_chunk_size config) requests) in
    (let? results_of_chunks := try_join_all futures in Ok (concat results_of_chunks), S call).

(** ** Events *)
Definition PageRequest : Type := Felt * Z * Z * ProviderRequestData.

(** The loop over the events of a page: the block range, the events kept and
    whether the range was exceeded. *)
Fixpoint scan_page (latest_block_number : Z) (index : nat) (from to : Z) (events : list EmittedEvent)
  : outcome Error (Z * Z * list EmittedEvent * bool) :=
  match events with
  | [] => Ok (from, to, [], false)
  | event :: events =>
      let? b := unwrap (block_number event) in
      let '(from, to) :=
        if bool_decide (index = 0%nat) && ((b >? to) || (from =? 0))
        then (b, Z.min (u64_add b (blocks_chunk_size config)) latest_block_number) else (from, to) in
      if b >? to then Ok (from, to, [], true)
      else
        let? (from, to, kept, done) := scan_page latest_block_number (S index) from to events in
        Ok (from, to, event :: kept, done)
  end.

Definition extend_batch (contract_address : Felt) (from to : Z) (kept : list EmittedEvent)
    (batches : gmap Felt ContractEventBatch) : gmap Felt ContractEventBatch :=
  let batch := default (mkBatch contract_address [] from to) (batches !! contract_address) in
  <[contract_address := mkBatch (batch_contract_address batch) (batch_events batch ++ kept)
      (Z.min (batch_from_block batch) from) (Z.max (batch_to_block batch) to)]> batches.

Definition next_request (token : option string) (r : ProviderRequestData) : option ProviderRequestData :=
  match r with
  | GetEvents f =>
      Some (GetEvents (mkFilter (from_block f) (to_block_hash f) (filter_address f) token (chunk_size f)))
  | _ => None
  end.

(** The result of one request. *)
Definition process_page (latest_block_number : Z)
    (acc : gmap Felt ContractEventBatch * list PageRequest) (x : PageRequest * ProviderResponseData)
  : outcome Error (gmap Felt ContractEventBatch * list PageRequest) :=
  let '(batches, next_requests) := acc in
  let '((contract_address, from, to, original_request), result) := x in
  match result with
  | REvents page =>
      let? (from, to, kept, done) := scan_page latest_block_number 0 from to (page_events page) in
      let batches := extend_batch contract_address from to kept batches in
      match continuation_token page with
      | Some token =>
          if done then Ok (batches, next_requests)
          else match next_request (Some token) original_request with
               | Some r => Ok (batches, next_requests ++ [(contract_address, from, to, r)])
               | None => Ok (batches, next_requests)
               end
      | None => Ok (batches, next_requests)
      end
  | _ => Panic
  end.

(** The [while] loop; running out of fuel is [None]. *)
Fixpoint fetch_pages_loop (fuel : nat) (latest_block_number : Z)
    (batches : gmap Felt ContractEventBatch) (current_requests : list PageRequest)
  : fetcher (option (gmap Felt ContractEventBatch)) :=
  match current_requests with
  | [] => st_ret (Some batches)
  | _ =>
      match fuel with
      | O => st_ret None
      | S fuel =>
          let! batch_results := chunked_batch_requests (snd <$> current_requests) in
          let! (batches, next_requests) :=
            st_lift (fold_outcome (process_page latest_block_number)
              (zip current_requests batch_results) (batches, [])) in
          fetch_pages_loop fuel latest_block_number batches next_requests
      end
  end.

Definition fetch_all_event_pages (fuel : nat) (initial_requests : list PageRequest)
    (latest_block_number : Z) : fetcher (option (list ContractEventBatch)) :=
  let! batches := fetch_pages_loop fuel latest_block_number ∅ initial_requests in
  st_ret (hm_values <$> batches).

(** The loop over the events of a batch. [skip] is the transaction still looked
    for, [last] the one not to process again. *)
Fixpoint unprocessed (last skip : option Felt) (events : list EmittedEvent) : list EmittedEvent :=
  match events with
  | [] => []
  | event :: events =>
      let h := transaction_hash event in
      match skip with
      | Some tx =>
          if decide (h = tx) then
            if decide (last = Some h) then unprocessed last None events
            else event :: unprocessed last None events
          else unprocessed last skip events
      | None =>
          if decide (last = Some h) then unprocessed last None events
          else event :: unprocessed last None events
      end
  end.

Definition preprocess_batch (old_cursors : gmap Felt ContractCursor)
    (acc : list EmittedEvent * gmap Felt ContractCursor) (batch : ContractEventBatch)
  : list EmittedEvent * gmap Felt ContractCursor :=
  let '(processed, cursors) := acc in
  let a := batch_contract_address batch in
  match old_cursors !! a, cursors !! a with
  | Some old_cursor, Some new_cursor =>
      let should_skip :=
        match last_pending_block_tx old_cursor with
        | Some tx => existsb (λ e, bool_decide (transaction_hash e = tx)) (batch_events batch)
        | None => false
        end in
      let last := if should_skip then last_pending_block_tx old_cursor else None in
      let to := batch_to_block batch in
      let pending := if decide (head new_cursor = Some to) then last_pending_block_tx new_cursor else None in
      (processed ++ unprocessed last last (batch_events batch),
       <[a := mkCursor (cursor_contract_address new_cursor) (Some to)
                (last_block_timestamp new_cursor) pending]> cursors)
  | _, _ => (processed, cursors)
  end.

Definition preprocess_fetched_events (event_batches : list ContractEventBatch)
    (cursors : gmap Felt ContractCursor) : list EmittedEvent * gmap Felt ContractCursor :=
  foldl (preprocess_batch cursors) ([], cursors) event_batches.

Definition fetch_and_preprocess_events (fuel : nat) (initial_requests : list PageRequest)
    (cursors : gmap Felt ContractCursor) (latest_block_number : Z)
  : fetcher (option (list EmittedEvent * gmap Felt ContractCursor)) :=
  let! event_batches := fetch_all_event_pages fuel initial_requests latest_block_number in
  st_ret ((λ b, preprocess_fetched_events b cursors) <$> event_batches).
(** ** Ranges *)

(** The block a contract's events are asked from. *)
Definition next_block (cursor : ContractCursor) : Z :=
  match head cursor with
  | Some h => if h =? 0 then h else u64_add h 1
  | None => world_block config
  end.

(** The first requests, one per contract that is behind. *)
Definition event_request (latest_block : Felt * Z) (x : Felt * ContractCursor) : option PageRequest :=
  let '(contract_address, cursor) := x in
  let '(hash, number) := latest_block in
  if decide (head cursor = Some number) then None
  else
    let from := next_block cursor in
    let to := Z.min (u64_add from (blocks_chunk_size config)) number in
    Some (contract_address, from, to,
          GetEvents (mkFilter from hash contract_address None (events_chunk_size config))).

(** Steps 3 and 5: the blocks to fetch and the blocks without events. *)
Definition block_numbers (events : list EmittedEvent) (cursors : gmap Felt ContractCursor)
  : outcome Error (gset Z) :=
  let? s := fold_outcome (λ s e, let? b := unwrap (block_number e) in Ok ({[b]} ∪ s)) events ∅ in
  Ok (foldl (λ s c, match head c with Some h => {[h]} ∪ s | None => s end) s (hm_values cursors)).

Definition add_block (blocks : gmap Z FetchRangeBlock) (x : Z * ProviderResponseData)
  : outcome Error (gmap Z FetchRangeBlock) :=
  match x.2 with
  | RBlock ts tx_hashes hash =>
      Ok (<[x.1 := mkRangeBlock (Some hash) ts
              (im_from_iter ((λ h, (h, mkFetchTx None [] None)) <$> tx_hashes))]> blocks)
  | _ => Panic
  end.

Definition update_tx (f : FetchTransaction → FetchTransaction) (h : Felt) (b : FetchRangeBlock)
  : FetchRangeBlock := mkRangeBlock (block_hash b) (timestamp b) (im_alter f h (transactions b)).

Definition event_of (e : EmittedEvent) : Event :=
  mkEvent (emitted_from_address e) (emitted_keys e) (emitted_data e).
Definition push_events (es : list Event) (t : FetchTransaction) : FetchTransaction :=
  mkFetchTx (ft_transaction t) (ft_events t ++ es) (ft_receipt t).

(** [map.entry(a).or_default().insert(h)] *)
Definition insert_tx (a h : Felt) (m : gmap Felt (gset Felt)) : gmap Felt (gset Felt) :=
  <[a := {[h]} ∪ default ∅ (m !! a)]> m.

(** Step 6 for one event. *)
Definition assign_event (acc : gmap Z FetchRangeBlock * gmap Felt (gset Felt)) (e : EmittedEvent)
  : outcome Error (gmap Z FetchRangeBlock * gmap Felt (gset Felt)) :=
  let '(blocks, cursor_transactions) := acc in
  let? b := unwrap (block_number e) in
  let? block := unwrap (blocks !! b) in
  let? _ := unwrap (im_get (transaction_hash e) (transactions block)) in
  Ok (<[b := update_tx (push_events [event_of e]) (transaction_hash e) block]> blocks,
      insert_tx (emitted_from_address e) (transaction_hash e) cursor_transactions).

Definition has_events (t : FetchTransaction) : bool := negb (bool_decide (ft_events t = [])).

(** Step 7: transactions without events are dropped. *)
Definition retain_with_events (b : FetchRangeBlock) : FetchRangeBlock :=
  mkRangeBlock (block_hash b) (timestamp b) (im_retain has_events (transactions b)).

(** The transactions to ask for, with their blocks. *)
Definition relevant_transactions (blocks : gmap Z FetchRangeBlock) : list (Z * Felt) :=
  (bmap_iter blocks) ≫= (λ '(n, b),
    (λ kv, (n, kv.1)) <$> List.filter (λ kv, has_events kv.2) (im_iter (transactions b))).

Definition set_transaction (blocks : gmap Z FetchRangeBlock) (x : Z * ProviderResponseData)
  : outcome Error (gmap Z FetchRangeBlock) :=
  match x.2 with
  | RTransaction t =>
      Ok (alter (update_tx (λ ft, mkFetchTx (Some (tx_into t)) (ft_events ft) (ft_receipt ft)) (tx_hash t))
            x.1 blocks)
  | _ => Panic
  end.
Definition set_receipt (blocks : gmap Z FetchRangeBlock) (x : Z * ProviderResponseData)
  : outcome Error (gmap Z FetchRangeBlock) :=
  match x.2 with
  | RReceipt r =>
      Ok (alter (update_tx (λ ft, mkFetchTx (ft_transaction ft) (ft_events ft) (Some r))
            (receipt_hash (ri_receipt r))) x.1 blocks)
  | _ => Panic
  end.

(** The two optional steps have the same shape. *)
Definition fetch_details (enabled : bool) (request : Felt → ProviderRequestData)
    (set : gmap Z FetchRangeBlock → Z * ProviderResponseData → outcome Error (gmap Z FetchRangeBlock))
    (blocks : gmap Z FetchRangeBlock) : fetcher (gmap Z FetchRangeBlock) :=
  if enabled && negb (bool_decide (blocks = ∅)) then
    let txs := relevant_transactions blocks in
    if decide (txs = []) then st_ret blocks
    else
      let! results := chunked_batch_requests ((λ x : Z * Felt, request x.2) <$> txs) in
      st_lift (fold_outcome set (zip txs.*1 results) blocks)
  else st_ret blocks.

(** Step 9 *)
Definition update_timestamp (blocks : gmap Z FetchRangeBlock) (c : ContractCursor) : ContractCursor :=
  match head c ≫= (blocks !!.) with
  | Some b => mkCursor (cursor_contract_address c) (head c) (Some (timestamp b)) (last_pending_block_tx c)
  | None => c
  end.

Definition fetch_blocks (events : list EmittedEvent) (cursors : gmap Felt ContractCursor)
  : fetcher (gmap Z FetchRangeBlock) :=
  let! numbers := st_lift (block_numbers events cursors) in
  let! block_results := chunked_batch_requests (GetBlockWithTxHashes <$> bset_iter numbers) in
  st_lift (fold_outcome add_block (zip (bset_iter numbers) block_results) ∅).

(** Steps 6 to 8 *)
Definition fill_blocks (events : list EmittedEvent) (blocks : gmap Z FetchRangeBlock)
  : fetcher (gmap Z FetchRangeBlock * gmap Felt (gset Felt)) :=
  let! (blocks, cursor_transactions) := st_lift (fold_outcome assign_event events (blocks, ∅)) in
  let blocks := retain_with_events <$> blocks in
  let! blocks := fetch_details (TRANSACTIONS (flags config)) GetTransactionByHash set_transaction blocks in
  let! blocks :=
    fetch_details (TRANSACTION_RECEIPTS (flags config)) GetTransactionReceipt set_receipt blocks in
  st_ret (blocks, cursor_transactions).

Definition fetch_range (fuel : nat) (cursors : gmap Felt ContractCursor) (latest_block : Felt * Z)
  : fetcher (option (FetchRangeResult * Cursors)) :=
  let event_requests := omap (event_request latest_block) (hm_iter cursors) in
  let! fetched := fetch_and_preprocess_events fuel event_requests cursors latest_block.2 in
  match fetched with
  | None => st_ret None
  | Some (events, cursors) =>
      let! blocks := fetch_blocks events cursors in
      let! (blocks, cursor_transactions) := fill_blocks events blocks in
      st_ret (Some (mkRange blocks, mkCursors cursor_transactions (update_timestamp blocks <$> cursors)))
  end.

(** ** The block being built *)
Definition preconf_transaction (block_number : Z) (t : TransactionContent * TransactionReceipt)
  : Felt * FetchTransaction :=
  (receipt_hash t.2,
   mkFetchTx (Some t.1) []
     (if TRANSACTION_RECEIPTS (flags config) then Some (mkReceiptInfo t.2 (RBPreConfirmed block_number))
      else None)).

(** The state of the loop over the transactions for one contract: the
    transaction still looked for, the cursor, and what is shared. *)
Record Pre : Type := mkPre {
  pre_skip : option Felt;
  pre_cursor : ContractCursor;
  pre_txs : im FetchTransaction;
  pre_cursor_txs : gmap Felt (gset Felt)
}.

(** A transaction past the skipped ones. *)
Definition preconf_tx (contract_address timestamp : Z) (t : TransactionContent * TransactionReceipt) (p : Pre)
  : outcome Error Pre :=
  let h := receipt_hash t.2 in
  let c := pre_cursor p in
  if decide (last_pending_block_tx c = Some h) then Ok p
  else if receipt_reverted t.2 then Ok p
  else
    let events := filter (λ e, from_address e = contract_address) (receipt_events t.2) in
    if decide (events = []) then Ok p
    else
      let? _ := unwrap (im_get h (pre_txs p)) in
      Ok (mkPre (pre_skip p) (mkCursor (cursor_contract_address c) (head c) (Some timestamp) (Some h))
            (im_alter (push_events events) h (pre_txs p)) (insert_tx contract_address h (pre_cursor_txs p))).

Definition preconf_step (contract_address timestamp : Z) (p : Pre)
    (t : TransactionContent * TransactionReceipt) : outcome Error Pre :=
  match pre_skip p with
  | Some tx =>
      if decide (receipt_hash t.2 = tx) then
        preconf_tx contract_address timestamp t (mkPre None (pre_cursor p) (pre_txs p) (pre_cursor_txs p))
      else Ok p
  | None => preconf_tx contract_address timestamp t p
  end.

Definition preconf_contract (latest_block_number : Z) (block : PreConfirmedBlock)
    (acc : im FetchTransaction * Cursors) (x : Felt * ContractCursor)
  : outcome Error (im FetchTransaction * Cursors) :=
  let '(txs, new_cursors) := acc in
  let '(contract_address, cursor) := x in
  if decide (head cursor ≠ Some latest_block_number) then Ok acc
  else
    let? p := fold_outcome (preconf_step contract_address (pre_timestamp block)) (pre_transactions block)
                (mkPre (last_pending_block_tx cursor) cursor txs (cursor_transactions new_cursors)) in
    Ok (pre_txs p, mkCursors (pre_cursor_txs p)
                     (<[contract_address := pre_cursor p]> (cursors new_cursors))).

Definition fetch_preconfirmed_block (latest_block_number : Z) (cs : Cursors)
  : fetcher (option FetchPreconfirmedBlockResult * Cursors) := λ call,
  match get_preconfirmed_block call with
  | None => (Err ProviderError, S call)
  | Some None => (Ok (None, cs), S call)
  | Some (Some block) =>
      if negb (u64_saturating_add latest_block_number 1 =? pre_block_number block)
      then (Ok (None, cs), S call)
      else
        (let txs := im_from_iter (preconf_transaction (pre_block_number block) <$> pre_transactions block) in
         let? (txs, new_cursors) :=
           fold_outcome (preconf_contract latest_block_number block) (hm_iter (cursors cs)) (txs, cs) in
         Ok (Some (mkPreconf (pre_block_number block) (pre_timestamp block) (im_retain has_events txs)),
             new_cursors), S call)
  end.

Definition fetch (fuel : nat) (cs : gmap Felt ContractCursor) : fetcher (option FetchResult) :=
  let! latest_block := λ call, (ok_or ProviderError (block_hash_and_number call), S call) in
  let! r := fetch_range fuel cs latest_block in
  match r with
  | None => st_ret None
  | Some (range, cs) =>
      let! (preconfirmed, cs) :=
        (if PRECONFIRMED_BLOCK (flags config) &&
            existsb (λ c, bool_decide (head c = Some latest_block.2)) (hm_values (cursors cs))
         then fetch_preconfirmed_block latest_block.2 cs
         else st_ret (None, cs)) in
      st_ret (Some (mkFetchResult range preconfirmed cs))
  end.
End operations.

(** ** Batches: chunks and retries *)
Section batches.
Context `{StarknetTypes} `{!Node}.

Lemma concat_chunks {A} n (l : list A) : n ≠ 0%nat → concat (chunks n l) = l.
Proof.
  intros Hn. unfold chunks. assert (length l ≤ length l)%nat as Hlen by done. revert Hlen.
  generalize (length l) at 2 3 as fuel. intros fuel. revert l.
  induction fuel as [|fuel IH]; intros [|x l] Hlen; simpl in *; try done; [lia|].
  destruct n as [|n]; [done|]. simpl. rewrite IH; [by rewrite take_drop|]. rewrite length_drop. lia.
Qed.

(** When the node answers at all, it answers each request of the batch, and what
    it says does not depend on when it is asked. *)
Definition honest (answer : ProviderRequestData → ProviderResponseData) : Prop :=
  ∀ call i attempt reqs rs, batch_requests call i attempt reqs = Some rs → rs = answer <$> reqs.

Lemma chunk_loop_honest answer n call i attempt chunk : honest answer →
  (chunk_loop n call i attempt chunk).1 = Err (BatchRequest ProviderError) ∨
  (chunk_loop n call i attempt chunk).1 = Ok (answer <$> chunk).
Proof.
  intros Hh. revert attempt. induction n as [|n IH]; intros attempt; simpl.
  - destruct (batch_requests _ _ _ _) as [rs|] eqn:Hb; [right|by left]. by rewrite (Hh _ _ _ _ _ Hb).
  - destruct (batch_requests _ _ _ _) as [rs|] eqn:Hb; [right; by rewrite (Hh _ _ _ _ _ Hb)|].
    specialize (IH (S attempt)). by destruct (chunk_loop n call i (S attempt) chunk).
Qed.

Lemma try_join_all_honest answer n call (l : list (list ProviderRequestData)) k : honest answer →
  let r := try_join_all (imap (λ i chunk, (chunk_loop n call (k + i) 0 chunk).1) l) in
  r = Err (BatchRequest ProviderError) ∨ r = Ok (map (map answer) l).
Proof.
  intros Hh. revert k. induction l as [|c l IH]; intros k; [by right|]. cbv zeta. rewrite imap_cons. simpl.
  destruct (chunk_loop_honest answer n call (k + 0) 0 c Hh) as [-> | ->]; [by left|]. simpl.
  rewrite (imap_ext _ (λ i chunk, (chunk_loop n call (S k + i) 0 chunk).1)).
  2: { intros i x _. simpl. by rewrite Nat.add_succ_r. }
  destruct (IH (S k)) as [-> | ->]; [by left|by right].
Qed.

Lemma chunked_honest config answer reqs call : honest answer → batch_chunk_size config ≠ 0%nat →
  ∃ o call', chunked_batch_requests config reqs call = (o, call') ∧
    (o = Err (BatchRequest ProviderError) ∨ o = Ok (answer <$> reqs)).
Proof.
  intros Hh Hn. unfold chunked_batch_requests. destruct (decide (reqs = [])) as [->|Hne].
  { eexists _, _. split; [done|]. by right. }
  rewrite decide_False by done. eexists _, _. split; [done|].
  destruct (try_join_all_honest answer MAX_RETRIES call (chunks (batch_chunk_size config) reqs) 0 Hh)
    as [Hj|Hj]; cbn [Nat.add] in Hj; rewrite Hj; [by left|]. right. simpl. f_equal.
  rewrite <- (concat_chunks (batch_chunk_size config) reqs Hn) at 2. by rewrite concat_map.
Qed.
End batches.

(** ** Event pages

    The chain is a list of events per contract, in order; the node serves the
    part asked for in pages. *)
Section pages.
Context `{StarknetTypes} `{!IndexMap} `{!Node} {HO : HashOrder} (config : FetcherConfig).
Context (answer : ProviderRequestData → ProviderResponseData).

Definition block_of (e : EmittedEvent) : Z := default 0 (block_number e).

(** Events of known blocks, in block order. *)
Definition ordered (l : list EmittedEvent) : Prop :=
  Forall (λ e, is_Some (block_number e)) l ∧ StronglySorted Z.le (block_of <$> l).

(** The pages from a request on, with at most [n] requests. *)
Fixpoint pages (n : nat) (f : EventFilter) : option (list (list EmittedEvent)) :=
  match n with
  | O => None
  | S n =>
      match answer (GetEvents f) with
      | REvents p =>
          match continuation_token p with
          | None => Some [page_events p]
          | Some t =>
              cons (page_events p) <$>
                pages n (mkFilter (from_block f) (to_block_hash f) (filter_address f) (Some t) (chunk_size f))
          end
      | _ => None
      end
  end.

Lemma pages_mono n m f ps : (n ≤ m)%nat → pages n f = Some ps → pages m f = Some ps.
Proof.
  revert m f ps. induction n as [|n IH]; intros [|m] f ps Hle Hp; simpl in *; try done; [lia|].
  destruct (answer (GetEvents f)) as [p| | | | |]; try done. destruct (continuation_token p) as [t|]; [|done].
  destruct (pages n _) as [ps'|] eqn:Hps; [|done]. by rewrite (IH m _ ps') by (try lia; done).
Qed.

Lemma ordered_app_l l1 l2 : ordered (l1 ++ l2) → ordered l1.
Proof.
  intros [Hb Hs]. rewrite fmap_app in Hs. split; [by apply Forall_app in Hb as [? _]|].
  by apply StronglySorted_app_1_l in Hs.
Qed.
Lemma ordered_app_r l1 l2 : ordered (l1 ++ l2) → ordered l2.
Proof.
  intros [Hb Hs]. rewrite fmap_app in Hs. split; [by apply Forall_app in Hb as [_ ?]|].
  by apply StronglySorted_app_1_r in Hs.
Qed.
Lemma ordered_cons e l : ordered (e :: l) → block_number e = Some (block_of e) ∧ ordered l ∧
  Forall (λ e', block_of e ≤ block_of e') l.
Proof.
  intros [[[b Hb] Hbs]%Forall_cons Hs]. rewrite fmap_cons in Hs. apply StronglySorted_inv in Hs as [Hs Hf].
  split_and!; [unfold block_of; by rewrite Hb|by split|]. by rewrite Forall_fmap in Hf.
Qed.


Lemma ordered_after l1 e l2 to :
  ordered (l1 ++ e :: l2) → to < block_of e → Forall (λ e', to < block_of e') (e :: l2).
Proof.
  intros (_ & _ & Hge)%ordered_app_r%ordered_cons Hlt. apply Forall_cons. split; [done|].
  eapply Forall_impl; [exact Hge|]. simpl. lia.
Qed.

(** Ordered events up to a block are a prefix. *)
Lemma filter_prefix l1 l2 to :
  Forall (λ e, block_of e ≤ to) l1 → Forall (λ e, to < block_of e) l2 →
  filter (λ e, block_of e ≤ to) (l1 ++ l2) = l1.
Proof.
  intros Hl1 Hl2. rewrite filter_app, (filter_all _ l1) by done.
  rewrite (filter_none _ l2), app_nil_r; [done|]. eapply Forall_impl; [exact Hl2|]. simpl. lia.
Qed.

(** The range of a request that starts at [from]. *)
Definition range_end (latest from : Z) : Z := Z.min (u64_add from (blocks_chunk_size config)) latest.

(** No block number of the range overflows. *)
Definition blocks_fit (latest : Z) : Prop :=
  0 ≤ blocks_chunk_size config ∧ latest + blocks_chunk_size config < u64_max.

Lemma range_end_spec latest from : blocks_fit latest → 0 ≤ from ≤ latest →
  range_end latest from = Z.min (from + blocks_chunk_size config) latest.
Proof. intros [??] ?. unfold range_end. rewrite u64_add_small; lia. Qed.

(** What the loop over a page does: it keeps a prefix, all of it or up to the
    first event past the range, and the range only grows. *)
Lemma scan_page_spec latest index from to l :
  blocks_fit latest → ordered l → Forall (λ e, 0 ≤ block_of e ≤ latest) l →
  0 ≤ from ≤ latest → to = range_end latest from →
  ∃ from' to' kept rest done, scan_page config latest index from to l = Ok (from', to', kept, done) ∧
    l = kept ++ rest ∧ 0 ≤ from' ≤ latest ∧ to' = range_end latest from' ∧ to ≤ to' ∧
    Forall (λ e, block_of e ≤ to') kept ∧
    (if done then ∃ e rest', rest = e :: rest' ∧ to' < block_of e else rest = []).
Proof.
  intros Hfit. revert index from to. induction l as [|e l IH]; intros index from to Ho Hl Hf Ht.
  { exists from, to, [], [], false. split_and!; try done; lia. }
  apply ordered_cons in Ho as (Hb & Ho & Hge). apply Forall_cons in Hl as [He Hl]. simpl. rewrite Hb. simpl.
  set (cond := bool_decide (index = 0%nat) && _).
  assert (∃ from1 to1, (if cond then (block_of e, Z.min (u64_add (block_of e) (blocks_chunk_size config)) latest)
    else (from, to)) = (from1, to1) ∧ 0 ≤ from1 ≤ latest ∧ to1 = range_end latest from1 ∧ to ≤ to1)
    as (from1 & to1 & -> & Hf1 & Ht1 & Hle).
  { destruct cond eqn:Hc; [|exists from, to; split_and!; try done; lia].
    exists (block_of e), (range_end latest (block_of e)). split_and!; try done; try lia.
    unfold cond in Hc. apply andb_true_iff in Hc as [_ [Hc|Hc]%orb_true_iff].
    - apply Z.gtb_lt in Hc. rewrite range_end_spec by (done || lia). destruct Hfit. lia.
    - apply Z.eqb_eq in Hc. subst. rewrite !range_end_spec by (done || lia). lia. }
  destruct (Z.gtb_spec (block_of e) to1) as [Hgt|Hngt].
  - exists from1, to1, [], (e :: l), true. split_and!; try done; try lia. by exists e, l.
  - destruct (IH (S index) from1 to1 Ho Hl Hf1 Ht1)
      as (from2 & to2 & kept & rest & done & Hscan & -> & Hf2 & Ht2 & Hle2 & Hk & Hr).
    rewrite Hscan. exists from2, to2, (e :: kept), rest, done. split_and!; try done; try lia.
    apply Forall_cons. split; [lia|done].
Qed.
(** The events the node serves for each contract, from a first block on. *)
Context (latest : Z) (all : Felt → list EmittedEvent) (start : Felt → Z).
Context (fit : blocks_fit latest).
Context (all_ordered : ∀ a, ordered (all a)).
Context (all_range : ∀ a, Forall (λ e, 0 ≤ block_of e ≤ latest) (all a)).

Definition page_address (r : PageRequest) : Felt := r.1.1.1.

(** A contract whose batch is complete: every event up to its last block. *)
Definition settled (a : Felt) (batch : option ContractEventBatch) : Prop :=
  ∃ b, batch = Some b ∧ batch_contract_address b = a ∧
    range_end latest (start a) ≤ batch_to_block b ≤ latest ∧
    batch_events b = filter (λ e, block_of e ≤ batch_to_block b) (all a).

(** A contract with a request pending and at most [n] pages to come. *)
Definition going (n : nat) (a : Felt) (batch : option ContractEventBatch) (r : PageRequest) : Prop :=
  ∃ f from to got rest, r = (a, from, to, GetEvents f) ∧ pages n f = Some rest ∧
    all a = got ++ concat rest ∧ 0 ≤ from ≤ latest ∧ to = range_end latest from ∧
    range_end latest (start a) ≤ to ∧ Forall (λ e, block_of e ≤ to) got ∧
    match batch with
    | None => got = []
    | Some b => batch_contract_address b = a ∧ batch_events b = got ∧ batch_to_block b = to
    end.

Lemma range_end_latest from : range_end latest from ≤ latest.
Proof. unfold range_end. lia. Qed.

Lemma extend_batch_spec a from to to0 kept got batches :
  to0 ≤ to →
  match batches !! a with
  | None => got = []
  | Some b => batch_contract_address b = a ∧ batch_events b = got ∧ batch_to_block b = to0
  end →
  ∃ b, extend_batch a from to kept batches !! a = Some b ∧ batch_contract_address b = a ∧
    batch_events b = got ++ kept ∧ batch_to_block b = to.
Proof.
  intros Hle Hb. unfold extend_batch. rewrite lookup_insert_eq. eexists. split; [done|].
  destruct (batches !! a) as [b|]; simpl; [destruct Hb as (-> & -> & ->)|subst got];
    (split_and!; [done..|lia]).
Qed.

Lemma process_page_spec n r batches next :
  going (S n) (page_address r) (batches !! page_address r) r →
  ∃ batches' new, process_page config latest (batches, next) (r, answer r.2) = Ok (batches', next ++ new) ∧
    (∀ a, a ≠ page_address r → batches' !! a = batches !! a) ∧
    ((new = [] ∧ settled (page_address r) (batches' !! page_address r)) ∨
     (∃ r', new = [r'] ∧ page_address r' = page_address r ∧
        going n (page_address r) (batches' !! page_address r) r')).
Proof.
  intros (f & from & to & got & rest & -> & Hp & Hall & Hf & Ht & Hs & Hgot & Hb). simpl in *.
  set (a := page_address _) in *. change (page_address (a, from, to, GetEvents f)) with a in *.
  destruct (answer (GetEvents f)) as [p| | | | |]; try done.
  assert (∃ more, all a = got ++ page_events p ++ concat more ∧
    match continuation_token p with
    | None => more = []
    | Some t => pages n (mkFilter (from_block f) (to_block_hash f) (filter_address f) (Some t) (chunk_size f))
                  = Some more
    end) as (more & Hall' & Hmore).
  { destruct (continuation_token p) as [t|].
    - destruct (pages n _) as [more|]; simplify_eq/=. by exists more.
    - simplify_eq/=. by exists []. }
  pose proof (all_ordered a) as Ho. pose proof (all_range a) as Hr. rewrite Hall' in Ho, Hr.
  apply Forall_app in Hr as [_ [Hr1 _]%Forall_app].
  destruct (scan_page_spec latest 0 from to (page_events p) fit) as
    (from' & to' & kept & skipped & fin & -> & Hk & Hf' & Ht' & Hle & Hkept & Hfin);
    [by apply ordered_app_r, ordered_app_l in Ho|assumption..|].
  simpl. destruct (extend_batch_spec a from' to' to kept got batches Hle Hb) as (b & Hbl & Hba & Hbe & Hbt).
  assert (∀ a', a' ≠ a → extend_batch a from' to' kept batches !! a' = batches !! a') as Hother
    by (intros a' Ha'; unfold extend_batch; by rewrite lookup_insert_ne).
  assert (Forall (λ e, block_of e ≤ to') (got ++ kept)) as Hgk.
  { apply Forall_app. split; [|done]. eapply Forall_impl; [exact Hgot|]. simpl. lia. }
  assert (∀ tl, Forall (λ e, to' < block_of e) tl → all a = (got ++ kept) ++ tl →
    settled a (extend_batch a from' to' kept batches !! a)) as Hsettled.
  { intros tl Htl Heq. exists b. pose proof (range_end_latest from').
    split_and!; [done|done|rewrite Hbt; lia|rewrite Hbt; lia|].
    rewrite Heq, Hbt, Hbe. symmetry. by apply filter_prefix. }
  rewrite Hk in Ho, Hall'. destruct fin.
  - exists (extend_batch a from' to' kept batches), []. rewrite app_nil_r.
    split_and!; [by destruct (continuation_token p)|done|]. left. split; [done|].
    destruct Hfin as (e & rest' & -> & Hlt).
    apply (Hsettled (e :: rest' ++ concat more)); [|by rewrite Hall', <- !app_assoc].
    apply (ordered_after (got ++ kept)); [|done]. by rewrite <- !app_assoc in *.
  - subst skipped. rewrite app_nil_r in *. destruct (continuation_token p) as [t|].
    + eexists _, [_]. split_and!; [done|done|]. right. eexists. split_and!; [done|done|].
      exists (mkFilter (from_block f) (to_block_hash f) (filter_address f) (Some t) (chunk_size f)),
        from', to', (got ++ kept), more.
      split_and!; try done; try lia; [by rewrite Hall', <- app_assoc|]. by rewrite Hbl.
    + subst more. exists (extend_batch a from' to' kept batches), []. rewrite app_nil_r.
      split_and!; [done|done|]. left. split; [done|]. apply (Hsettled []); [done|].
      by rewrite Hall', !app_nil_r.
Qed.
(** One round: every contract asked for is complete or has its next request. *)
Lemma round_spec n rs batches next :
  NoDup (page_address <$> rs) →
  (∀ r, r ∈ rs → going (S n) (page_address r) (batches !! page_address r) r) →
  ∃ batches' new, fold_outcome (process_page config latest)
      ((λ r : PageRequest, (r, answer r.2)) <$> rs) (batches, next) =
      Ok (batches', next ++ new) ∧
    NoDup (page_address <$> new) ∧ page_address <$> new ⊆ page_address <$> rs ∧
    (∀ a, a ∉ page_address <$> rs → batches' !! a = batches !! a) ∧
    (∀ r', r' ∈ new → going n (page_address r') (batches' !! page_address r') r') ∧
    (∀ a, a ∈ page_address <$> rs → a ∈ page_address <$> new ∨ settled a (batches' !! a)).
Proof.
  revert batches next. induction rs as [|r rs IH]; intros batches next Hnd Hgo.
  { exists batches, []. rewrite app_nil_r. split_and!; [done|constructor|done|done|..]; intros ? Hin;
      by apply elem_of_nil in Hin. }
  rewrite fmap_cons in Hnd. apply NoDup_cons in Hnd as [Hni Hnd].
  destruct (process_page_spec n r batches next (Hgo r (list_elem_of_here _ _)))
    as (b1 & new1 & Hp & Hoth & Hcase).
  destruct (IH b1 (next ++ new1) Hnd) as (b2 & new2 & Hf & Hnd2 & Hsub & Hkeep & Hgo2 & Hall2).
  { intros r' Hr'. rewrite Hoth; [apply Hgo; by right|]. intros Heq. apply Hni. rewrite <- Heq.
    by apply list_elem_of_fmap_2. }
  assert (b2 !! page_address r = b1 !! page_address r) as Hsame by by apply Hkeep.
  exists b2, (new1 ++ new2). rewrite !fmap_cons. cbn [fold_outcome]. rewrite Hp. simpl. rewrite Hf, app_assoc.
  rewrite !fmap_app. assert (∀ a, a ∈ page_address <$> new1 → a = page_address r) as Hnew1.
  { intros a. destruct Hcase as [[-> _]|(r' & -> & Hr' & _)]; [by intros Hin; apply elem_of_nil in Hin|].
    intros ->%list_elem_of_singleton. done. }
  split_and!; [done| | | | |].
  - apply NoDup_app. split_and!; [|intros a ->%Hnew1 Hin; by apply Hni, Hsub|done].
    destruct Hcase as [[-> _]|(r' & -> & _ & _)]; [constructor|apply NoDup_singleton].
  - intros a [->%Hnew1|Hin]%elem_of_app; [left|right; by apply Hsub].
  - intros a Ha. apply not_elem_of_cons in Ha as [Hne Ha]. by rewrite Hkeep, Hoth.
  - intros r' [Hin|Hin]%elem_of_app; [|by apply Hgo2].
    destruct Hcase as [[-> _]|(r1 & -> & Hr1 & Hg)]; [by apply elem_of_nil in Hin|].
    apply list_elem_of_singleton in Hin as ->. by rewrite Hr1, Hsame.
  - intros a [->|Hin]%elem_of_cons; [|destruct (Hall2 a Hin); [left; by apply elem_of_app; right|by right]].
    destruct Hcase as [[_ Hset]|(r1 & -> & Hr1 & _)]; [right; by rewrite Hsame|].
    left. simpl. rewrite Hr1. left.
Qed.

(** The loop ends, and every contract asked for is complete. *)
Lemma fetch_pages_loop_spec n batches rs call :
  honest answer → batch_chunk_size config ≠ 0%nat →
  NoDup (page_address <$> rs) →
  (∀ r, r ∈ rs → going n (page_address r) (batches !! page_address r) r) →
  ∃ o call', fetch_pages_loop config n latest batches rs call = (o, call') ∧
    (o = Err (BatchRequest ProviderError) ∨
     ∃ batches', o = Ok (Some batches') ∧
       (∀ a, a ∉ page_address <$> rs → batches' !! a = batches !! a) ∧
       (∀ a, a ∈ page_address <$> rs → settled a (batches' !! a))).
Proof.
  intros Hh Hc. revert batches rs call. induction n as [|n IH]; intros batches rs call Hnd Hgo.
  { destruct rs as [|r rs].
    - eexists _, _. split; [done|]. right. exists batches. split_and!; [done..|]. by intros a Hin; apply elem_of_nil in Hin.
    - destruct (Hgo r (list_elem_of_here _ _)) as (f & ? & ? & ? & ? & _ & Hp & _). done. }
  destruct (decide (rs = [])) as [->|Hne].
  { eexists _, _. split; [done|]. right. exists batches. split_and!; [done..|]. by intros a Hin; apply elem_of_nil in Hin. }
  destruct (chunked_honest config answer (snd <$> rs) call Hh Hc) as (o & call1 & Hch & Ho).
  assert (fetch_pages_loop config (S n) latest batches rs call =
    (let! batch_results := chunked_batch_requests config (snd <$> rs) in
     let! (batches, next_requests) :=
       st_lift (fold_outcome (process_page config latest) (zip rs batch_results) (batches, [])) in
     fetch_pages_loop config n latest batches next_requests) call) as -> by by destruct rs.
  unfold st_bind at 1. rewrite Hch. destruct Ho as [-> | ->]; [eexists _, _; split; [done|by left]|].
  assert (zip rs (answer <$> (snd <$> rs)) = (λ r : PageRequest, (r, answer r.2)) <$> rs) as ->.
  { clear. induction rs as [|r rs IH]; [done|]. csimpl. by rewrite IH. }
  destruct (round_spec n rs batches [] Hnd Hgo) as (b1 & new & Hf & Hnd1 & Hsub & Hkeep & Hgo1 & Hall).
  unfold st_bind, st_lift. rewrite Hf. simpl.
  destruct (IH b1 new call1 Hnd1 Hgo1) as (o & call2 & -> & Ho). eexists _, _. split; [done|].
  destruct Ho as [->|(b2 & -> & Hk2 & Hs2)]; [by left|]. right. exists b2. split_and!; [done| |].
  - intros a Ha. rewrite Hk2, Hkeep; [done..|]. intros Hin. by apply Ha, Hsub.
  - intros a Ha. destruct (decide (a ∈ page_address <$> new)) as [Hin|Hin]; [by apply Hs2|].
    destruct (Hall a Ha) as [?|Hset]; [done|]. by rewrite Hk2.
Qed.
End pages.

(** ** Resuming after the last processed transaction *)
Section resume.

Definition of_tx (tx : Felt) (e : EmittedEvent) : bool := bool_decide (transaction_hash e = tx).

(** What is new in the events of a contract: when the transaction processed last
    is among them, what follows its first event, less its own events. *)
Definition new_events (pending : option Felt) (l : list EmittedEvent) : list EmittedEvent :=
  match pending with
  | Some tx =>
      if existsb (of_tx tx) l then filter (λ e, transaction_hash e ≠ tx) (drop_until (of_tx tx) l) else l
  | None => l
  end.

Lemma unprocessed_none l : unprocessed None None l = l.
Proof. induction l as [|e l IH]; [done|]. simpl. by rewrite IH. Qed.
Lemma unprocessed_found tx l : unprocessed (Some tx) None l = filter (λ e, transaction_hash e ≠ tx) l.
Proof.
  induction l as [|e l IH]; [done|]. simpl. rewrite filter_cons.
  repeat case_decide; try congruence; by rewrite IH.
Qed.
Lemma unprocessed_skip tx l :
  unprocessed (Some tx) (Some tx) l = filter (λ e, transaction_hash e ≠ tx) (drop_until (of_tx tx) l).
Proof.
  induction l as [|e l IH]; [done|]. cbn [unprocessed drop_until]. unfold of_tx at 1.
  destruct (decide (transaction_hash e = tx)) as [Heq|Hne].
  - rewrite bool_decide_true by done. rewrite (decide_True (P := Some tx = _)) by congruence.
    rewrite unprocessed_found, filter_cons_False; [done|]. simpl. tauto.
  - rewrite bool_decide_false by done. done.
Qed.

(** A cursor moved to the end of a range. *)
Definition advance (c : ContractCursor) (to : Z) : ContractCursor :=
  mkCursor (cursor_contract_address c) (Some to) (last_block_timestamp c)
    (if decide (head c = Some to) then last_pending_block_tx c else None).

Definition contribution (cs : gmap Felt ContractCursor) (b : ContractEventBatch) : list EmittedEvent :=
  match cs !! batch_contract_address b with
  | Some c => new_events (last_pending_block_tx c) (batch_events b)
  | None => []
  end.

Lemma preprocess_batch_spec old acc cs b :
  old !! batch_contract_address b = cs !! batch_contract_address b →
  ∃ cs', preprocess_batch old (acc, cs) b = (acc ++ contribution old b, cs') ∧
    cs' !! batch_contract_address b = (λ c, advance c (batch_to_block b)) <$> cs !! batch_contract_address b ∧
    ∀ a, a ≠ batch_contract_address b → cs' !! a = cs !! a.
Proof.
  intros Heq. unfold preprocess_batch, contribution. rewrite Heq.
  destruct (cs !! batch_contract_address b) as [c|] eqn:Hc; [|exists cs; by rewrite app_nil_r, Hc].
  eexists. split; [|split; [apply lookup_insert_eq|intros a Ha; by rewrite lookup_insert_ne]].
  f_equal. f_equal. unfold new_events. destruct (last_pending_block_tx c) as [tx|]; [|apply unprocessed_none].
  fold (of_tx tx). destruct (existsb (of_tx tx) (batch_events b)); [apply unprocessed_skip|apply unprocessed_none].
Qed.

Lemma preprocess_spec old L acc cs :
  NoDup (batch_contract_address <$> L) →
  (∀ b, b ∈ L → old !! batch_contract_address b = cs !! batch_contract_address b) →
  ∃ cs', foldl (preprocess_batch old) (acc, cs) L = (acc ++ (L ≫= contribution old), cs') ∧
    (∀ b, b ∈ L → cs' !! batch_contract_address b =
       (λ c, advance c (batch_to_block b)) <$> cs !! batch_contract_address b) ∧
    (∀ a, a ∉ batch_contract_address <$> L → cs' !! a = cs !! a).
Proof.
  revert acc cs. induction L as [|b L IH]; intros acc cs Hnd Hold.
  { exists cs. rewrite app_nil_r. split_and!; [done| |done]. intros b Hin. by apply elem_of_nil in Hin. }
  rewrite fmap_cons in Hnd. apply NoDup_cons in Hnd as [Hni Hnd].
  destruct (preprocess_batch_spec old acc cs b (Hold b (list_elem_of_here _ _))) as (cs1 & Hp & Hb & Hoth).
  assert (∀ b', b' ∈ L → batch_contract_address b' ≠ batch_contract_address b) as Hne.
  { intros b' Hb' Heq. apply Hni. rewrite <- Heq. by apply list_elem_of_fmap_2. }
  destruct (IH (acc ++ contribution old b) cs1 Hnd) as (cs2 & Hf & Hbs & Hkeep).
  { intros b' Hb'. rewrite Hoth by by apply Hne. apply Hold. by right. }
  exists cs2. cbn [foldl]. rewrite Hp, Hf. split_and!.
  - by rewrite <- app_assoc.
  - intros b' [->|Hin]%elem_of_cons; [by rewrite Hkeep|]. by rewrite Hbs, Hoth by (try apply Hne; done).
  - intros a Ha. apply not_elem_of_cons in Ha as [Hab Ha]. by rewrite Hkeep, Hoth.
Qed.

Lemma new_events_sublist pending l : sublist (new_events pending l) l.
Proof.
  destruct pending as [tx|]; [|done]. simpl. destruct (existsb _ l); [|done].
  etrans; [apply filter_sublist|]. induction l as [|e l IH]; [done|]. simpl.
  destruct (of_tx tx e); [done|by constructor].
Qed.

(** Past a run of events of one transaction. *)
Lemma new_events_resume tx A T B :
  Forall (λ e, transaction_hash e ≠ tx) A → Forall (λ e, transaction_hash e = tx) T → T ≠ [] →
  Forall (λ e, transaction_hash e ≠ tx) B → new_events (Some tx) (A ++ T ++ B) = B.
Proof.
  intros HA HT HT' HB. destruct T as [|e T]; [done|]. apply Forall_cons in HT as [He HT]. simpl.
  assert (of_tx tx e = true) as Htx by by apply bool_decide_eq_true.
  assert (existsb (of_tx tx) (A ++ e :: T ++ B) = true) as ->.
  { rewrite existsb_app. simpl. by rewrite Htx, orb_true_r. }
  assert (drop_until (of_tx tx) (A ++ e :: T ++ B) = e :: T ++ B) as ->.
  { clear -HA Htx. induction HA as [|e' A He' _ IH]; simpl; [by rewrite Htx|].
    unfold of_tx at 1. by rewrite bool_decide_false. }
  change (e :: T ++ B) with ((e :: T) ++ B).
  rewrite filter_app, (filter_all _ B) by done. rewrite filter_none; [done|].
  apply Forall_cons. split; [tauto|]. eapply Forall_impl; [exact HT|]. simpl. tauto.
Qed.

(** The events of one contract among all that were kept. *)
Lemma filter_contribution old L :
  NoDup (batch_contract_address <$> L) →
  (∀ b, b ∈ L → Forall (λ e, emitted_from_address e = batch_contract_address b) (batch_events b)) →
  (∀ b, b ∈ L → filter (λ e, emitted_from_address e = batch_contract_address b) (L ≫= contribution old)
                = contribution old b) ∧
  (∀ a, a ∉ batch_contract_address <$> L →
     filter (λ e, emitted_from_address e = a) (L ≫= contribution old) = []).
Proof.
  intros Hnd Hfrom.
  assert (∀ b, b ∈ L → Forall (λ e, emitted_from_address e = batch_contract_address b) (contribution old b)) as Hc.
  { intros b Hb. unfold contribution. destruct (old !! _) as [c|]; [|done].
    apply Forall_forall. intros e He. specialize (Hfrom b Hb). rewrite Forall_forall in Hfrom. apply Hfrom.
    by eapply elem_of_sublist, new_events_sublist. }
  clear Hfrom. induction L as [|b L IH]; [split; [intros b Hin; by apply elem_of_nil in Hin|done]|].
  rewrite fmap_cons in Hnd. apply NoDup_cons in Hnd as [Hni Hnd].
  destruct (IH Hnd) as [IH1 IH2]; [intros b' Hb'; apply Hc; by right|].
  pose proof (Hc b (list_elem_of_here _ _)) as Hb. cbn [mbind list_bind]. split.
  - intros b' [->|Hin]%elem_of_cons; rewrite filter_app.
    + by rewrite filter_all, IH2, app_nil_r.
    + rewrite (filter_none _ (contribution old b)); [by apply IH1|].
      eapply Forall_impl; [exact Hb|]. simpl. intros e -> Heq. apply Hni. rewrite Heq.
      by apply list_elem_of_fmap_2.
  - intros a Ha. apply not_elem_of_cons in Ha as [Hab Ha]. rewrite filter_app, IH2, app_nil_r by done.
    apply filter_none. eapply Forall_impl; [exact Hb|]. simpl. congruence.
Qed.
End resume.

(** ** What a round of event requests returns *)
Section events.
Context `{StarknetTypes} `{!IndexMap} `{!Node} {HO : HashOrder} (config : FetcherConfig).
Context (answer : ProviderRequestData → ProviderResponseData) (chain : Felt → list EmittedEvent).

Definition between (from to : Z) (a : Felt) : list EmittedEvent :=
  filter (λ e, from ≤ block_of e ≤ to) (chain a).

(** The node serves the chain up to [latest], each contract's events in at most
    [N] pages, and no cursor is ahead of it. *)
Record serves (N : nat) (latest : Felt * Z) (cs : gmap Felt ContractCursor) : Prop := {
  serves_honest : honest answer;
  serves_chunk : batch_chunk_size config ≠ 0%nat;
  serves_fit : blocks_fit config latest.2;
  serves_ordered a : ordered (chain a);
  serves_nonneg a e : e ∈ chain a → 0 ≤ block_of e;
  serves_from a e : e ∈ chain a → emitted_from_address e = a;
  serves_next a c : cs !! a = Some c → head c ≠ Some latest.2 → 0 ≤ next_block config c ≤ latest.2;
  serves_pages a c : cs !! a = Some c → head c ≠ Some latest.2 →
    ∃ ps, pages answer N (mkFilter (next_block config c) latest.1 a None (events_chunk_size config)) = Some ps ∧
      concat ps = between (next_block config c) latest.2 a
}.

(** What a contract gets: nothing when it is at the head of the chain, otherwise
    the events of a range of blocks that starts where its cursor stands, less
    those processed already, and its cursor at the end of that range. *)
Definition fetched (latest : Z) (a : Felt) (c : ContractCursor) (events : list EmittedEvent)
    (c' : option ContractCursor) : Prop :=
  let mine := filter (λ e, emitted_from_address e = a) events in
  if decide (head c = Some latest) then c' = Some c ∧ mine = []
  else ∃ to, range_end config latest (next_block config c) ≤ to ≤ latest ∧ c' = Some (advance c to) ∧
    mine = new_events (last_pending_block_tx c) (between (next_block config c) to a).

Lemma ordered_filter (P : EmittedEvent → Prop) `{!∀ e, Decision (P e)} l : ordered l → ordered (filter P l).
Proof.
  intros Ho. induction l as [|e l IH]; [done|]. apply ordered_cons in Ho as (Hb & Ho & Hge).
  rewrite filter_cons. destruct (decide (P e)); [|by apply IH]. destruct (IH Ho) as [Hbs Hs].
  split; [by constructor|]. rewrite fmap_cons. constructor; [done|]. apply Forall_fmap.
  apply Forall_forall. intros e' [_ He']%list_elem_of_filter. rewrite Forall_forall in Hge. by apply Hge.
Qed.

Section round.
Context (N : nat) (latest : Felt * Z) (cs : gmap Felt ContractCursor) (Hs : serves N latest cs).

Definition served (a : Felt) : list EmittedEvent :=
  match cs !! a with Some c => between (next_block config c) latest.2 a | None => [] end.
Definition served_from (a : Felt) : Z :=
  match cs !! a with Some c => next_block config c | None => 0 end.
#[local] Abbreviation requests := (omap (event_request config latest) (hm_iter cs)).

Lemma served_ordered a : ordered (served a).
Proof.
  unfold served. destruct (cs !! a) as [c|]; [|split; constructor].
  apply ordered_filter. apply (serves_ordered _ _ _ Hs).
Qed.
Lemma served_range a : Forall (λ e, 0 ≤ block_of e ≤ latest.2) (served a).
Proof.
  unfold served. destruct (cs !! a) as [c|]; [|done]. apply Forall_forall.
  intros e [Hr Hin]%list_elem_of_filter. split; [|lia]. by apply (serves_nonneg _ _ _ Hs a).
Qed.

Lemma elem_of_requests r : r ∈ requests ↔ ∃ c, cs !! page_address r = Some c ∧ head c ≠ Some latest.2 ∧
  event_request config latest (page_address r, c) = Some r.
Proof.
  rewrite list_elem_of_omap. split.
  - intros ([a c] & Hin%elem_of_hm_iter & Hr). unfold event_request in Hr. destruct latest as [hash number].
    case_decide as Hd; simplify_eq. exists c. simpl. rewrite decide_False by done. done.
  - intros (c & Hc & _ & Hr). exists (page_address r, c). by rewrite elem_of_hm_iter.
Qed.

Lemma requests_NoDup : NoDup (page_address <$> requests).
Proof.
  pose proof (NoDup_hm_keys cs) as Hnd. unfold hm_keys in Hnd. induction (hm_iter cs) as [|[a c] l IH]; [constructor|].
  rewrite fmap_cons in Hnd. apply NoDup_cons in Hnd as [Hni Hnd]. cbn [omap list_omap].
  destruct (event_request config latest (a, c)) as [r|] eqn:Hr; [|by apply IH].
  rewrite fmap_cons. constructor; [|by apply IH]. intros (r' & Hr' & Hin)%list_elem_of_fmap.
  apply list_elem_of_omap in Hin as ([a' c'] & Hin & Hr''). apply Hni. simpl.
  unfold event_request in Hr, Hr''. destruct latest as [hash number].
  repeat case_decide; simplify_eq. unfold page_address in Hr'. simpl in Hr'. subst a'.
  by apply (list_elem_of_fmap_2 fst) in Hin.
Qed.

Lemma requests_going r : r ∈ requests →
  going config answer latest.2 served served_from N (page_address r) None r.
Proof.
  intros (c & Hc & Hh & Hr)%elem_of_requests. destruct r as [[[a from] to] q].
  change (page_address (a, from, to, q)) with a in *.
  destruct (serves_pages _ _ _ Hs _ _ Hc Hh) as (ps & Hps & Hall).
  pose proof (serves_next _ _ _ Hs _ _ Hc Hh) as Hn.
  unfold event_request in Hr. destruct latest as [hash number] eqn:Hl. simpl in *.
  rewrite decide_False in Hr by done. simplify_eq. unfold going, served, served_from, range_end.
  rewrite Hc. eexists _, (next_block config c), _, [], ps. split_and!; try done; try lia.
  by rewrite Hl, Hall.
Qed.

Lemma between_le from to a : to ≤ latest.2 →
  filter (λ e, block_of e ≤ to) (between from latest.2 a) = between from to a.
Proof. intros Hle. unfold between. rewrite list_filter_filter. apply filter_ext_in. intros e _. simpl. lia. Qed.

(** The batches of a round hold, for each contract behind, the events from its
    next block to the end of the batch. *)
Lemma batches_spec batches :
  (∀ a, a ∉ page_address <$> requests → batches !! a = None) →
  (∀ a, a ∈ page_address <$> requests → settled config latest.2 served served_from a (batches !! a)) →
  ∀ b, b ∈ hm_values batches → batches !! batch_contract_address b = Some b ∧
    ∃ c, cs !! batch_contract_address b = Some c ∧ head c ≠ Some latest.2 ∧
      range_end config latest.2 (next_block config c) ≤ batch_to_block b ≤ latest.2 ∧
      batch_events b = between (next_block config c) (batch_to_block b) (batch_contract_address b).
Proof.
  intros Hnone Hset b Hb. unfold hm_values in Hb. apply list_elem_of_fmap in Hb as ([a b'] & -> & Hin).
  apply elem_of_hm_iter in Hin. simpl.
  destruct (decide (a ∈ page_address <$> requests)) as [Ha|Ha]; [|by rewrite Hnone in Hin].
  destruct (Hset a Ha) as (b & Hb & Haddr & Hto & Hev). rewrite Hin in Hb. simplify_eq.
  split; [done|]. apply list_elem_of_fmap in Ha as (r & Hr & (c & Hc & Hh & _)%elem_of_requests).
  rewrite <- Hr in Hc. exists c. unfold served, served_from in *. rewrite Hc in *.
  split_and!; [done|done|lia|lia|]. rewrite Hev. apply between_le. lia.
Qed.

Lemma batches_NoDup batches :
  (∀ a, a ∉ page_address <$> requests → batches !! a = None) →
  (∀ a, a ∈ page_address <$> requests → settled config latest.2 served served_from a (batches !! a)) →
  NoDup (batch_contract_address <$> hm_values batches).
Proof.
  intros Hnone Hset. enough (batch_contract_address <$> hm_values batches = hm_keys batches) as ->
    by apply NoDup_hm_keys.
  unfold hm_values, hm_keys. rewrite <- list_fmap_compose. apply list_fmap_ext. intros i [a b] Hi. simpl.
  apply list_elem_of_lookup_2 in Hi. apply elem_of_hm_iter in Hi as Hab.
  destruct (decide (a ∈ page_address <$> requests)) as [Ha|Ha]; [|by rewrite Hnone in Hab].
  destruct (Hset a Ha) as (b' & Hb' & Haddr & _). rewrite Hab in Hb'. by simplify_eq.
Qed.

(** Every contract behind has a batch. *)
Lemma batches_complete batches a c :
  (∀ a, a ∈ page_address <$> requests → settled config latest.2 served served_from a (batches !! a)) →
  cs !! a = Some c → head c ≠ Some latest.2 →
  ∃ b, b ∈ hm_values batches ∧ batch_contract_address b = a.
Proof.
  intros Hset Hc Hh. destruct (event_request config latest (a, c)) as [r|] eqn:Hr.
  - assert (page_address r = a) as Hra.
    { unfold event_request in Hr. destruct latest as [hash number]. simpl in *.
      rewrite decide_False in Hr by done. by simplify_eq. }
    destruct (Hset a) as (b & Hb & Haddr & _).
    { rewrite <- Hra. apply list_elem_of_fmap_2, elem_of_requests. exists c. by rewrite Hra. }
    exists b. split; [|done]. unfold hm_values. apply list_elem_of_fmap. exists (a, b).
    by rewrite elem_of_hm_iter.
  - unfold event_request in Hr. destruct latest as [hash number]. simpl in *.
    by rewrite decide_False in Hr by done.
Qed.

Lemma fetch_events_spec call :
  ∃ o call', fetch_and_preprocess_events config N requests cs latest.2 call = (o, call') ∧
    (o = Err (BatchRequest ProviderError) ∨
     ∃ events cs', o = Ok (Some (events, cs')) ∧ 
       (∀ e, e ∈ events → e ∈ chain (emitted_from_address e) ∧ is_Some (cs !! emitted_from_address e)) ∧
       (∀ a, cs !! a = None → cs' !! a = None) ∧
       ∀ a c, cs !! a = Some c → fetched latest.2 a c events (cs' !! a)).
Proof.
  destruct (fetch_pages_loop_spec config answer latest.2 served served_from (serves_fit _ _ _ Hs)
    served_ordered served_range N ∅ requests call (serves_honest _ _ _ Hs) (serves_chunk _ _ _ Hs)
    requests_NoDup) as (o & call' & Hloop & Ho).
  { intros r Hr. rewrite lookup_empty. by apply requests_going. }
  unfold fetch_and_preprocess_events, fetch_all_event_pages, st_bind. rewrite Hloop.
  destruct Ho as [->|(batches & -> & Hnone & Hset)]; [eexists _, _; split; [done|by left]|]. simpl.
  eexists _, _. split; [done|]. right.
  pose proof (batches_spec batches Hnone Hset) as Hb. set (L := hm_values batches) in *.
  pose proof (batches_NoDup batches Hnone Hset) as Hnd. fold L in Hnd.
  destruct (preprocess_spec cs L [] cs Hnd) as (cs' & Hpre & Hin & Hout); [done|].
  destruct (filter_contribution cs L Hnd) as [Hmine Hnothing].
  { intros b (_ & c & _ & _ & _ & ->)%Hb. apply Forall_forall. intros e [_ He]%list_elem_of_filter.
    by apply (serves_from _ _ _ Hs). }
  unfold preprocess_fetched_events. rewrite Hpre. simpl. exists (L ≫= contribution cs), cs'.
  split_and!; [done|..].
  - intros e (b & He & Hbl)%list_elem_of_bind. unfold contribution in He.
    destruct (Hb b Hbl) as (_ & c & Hc & _ & _ & Hev). rewrite Hc in He.
    eapply elem_of_sublist in He; [|apply new_events_sublist]. rewrite Hev in He.
    apply list_elem_of_filter in He as [_ He]. rewrite (serves_from _ _ _ Hs _ _ He). by rewrite Hc.
  - intros a Ha. rewrite Hout; [done|]. intros (b & -> & Hbl)%list_elem_of_fmap.
    destruct (Hb b Hbl) as (_ & c & Hc & _). congruence.
  - intros a c Hc. unfold fetched. destruct (decide (head c = Some latest.2)) as [Hh|Hh].
    + assert (a ∉ batch_contract_address <$> L) as Ha.
      { intros (b & -> & Hbl)%list_elem_of_fmap. destruct (Hb b Hbl) as (_ & c' & Hc' & Hh' & _). congruence. }
      by rewrite Hout, Hnothing.
    + destruct (batches_complete batches a c Hset Hc Hh) as (b & Hbl & <-). fold L in Hbl.
      destruct (Hb b Hbl) as (_ & c' & Hc' & _ & Hto & Hev). rewrite Hc in Hc'. simplify_eq.
      exists (batch_to_block b). split; [done|]. rewrite (Hin b Hbl), Hc. split; [done|].
      rewrite (Hmine b Hbl). unfold contribution. by rewrite Hc, Hev.
Qed.
End round.
End events.

(** ** Blocks and transactions *)
Section index_maps.
Context `{!IndexMap}.

Lemma im_get_elem {V} k v (m : im V) : im_get k m = Some v ↔ (k, v) ∈ im_iter m.
Proof.
  rewrite im_get_iter. pose proof (im_keys_NoDup m) as Hnd. unfold assoc_get.
  induction (im_iter m) as [|[k' v'] l IH]; [split; [done|by intros ?%elem_of_nil]|].
  rewrite fmap_cons in Hnd. apply NoDup_cons in Hnd as [Hni Hnd]. simpl in *.
  case_bool_decide as Hk; simpl.
  - subst k'. split; [intros [= ->]; left|]. intros [[= ->]|Hin]%elem_of_cons; [done|].
    exfalso. apply Hni. by apply (list_elem_of_fmap_2 fst) in Hin.
  - rewrite (IH Hnd), elem_of_cons. naive_solver.
Qed.

Lemma im_get_alter {V} (f : V → V) k h (m : im V) :
  im_get h (im_alter f k m) = if decide (h = k) then f <$> im_get h m else im_get h m.
Proof.
  apply option_eq. intros v. rewrite im_get_elem, im_iter_alter. unfold assoc_alter.
  rewrite list_elem_of_fmap. case_decide as Hk.
  - subst k. rewrite fmap_Some. setoid_rewrite im_get_elem. split.
    + intros ([k' v'] & Heq & Hin). simpl in Heq. case_decide; simplify_eq; eauto.
    + intros (v' & Hin & ->). exists (h, v'). simpl. by rewrite decide_True.
  - rewrite im_get_elem. split.
    + intros ([k' v'] & Heq & Hin). simpl in Heq. by case_decide; simplify_eq.
    + intros Hin. exists (h, v). simpl. by rewrite decide_False.
Qed.

Lemma im_get_retain {V} (p : V → bool) h (m : im V) :
  im_get h (im_retain p m) = (v ← im_get h m; if p v then Some v else None).
Proof.
  apply option_eq. intros v. rewrite im_get_elem, im_iter_retain, bind_Some.
  setoid_rewrite im_get_elem. rewrite list_elem_of_In, filter_In, <- list_elem_of_In. simpl. split.
  - intros [Hin Hp]. exists v. by rewrite Hp.
  - intros (v' & Hin & Hp). destruct (p v') eqn:Hpv; by simplify_eq.
Qed.

(** Keys inserted with the same value. *)
Lemma im_get_same {V} (v : V) h (keys : list Felt) :
  im_get h (im_from_iter ((λ k, (k, v)) <$> keys)) = if decide (h ∈ keys) then Some v else None.
Proof.
  assert (∀ acc : list (Felt * V), (∀ kv, kv ∈ acc → kv.2 = v) →
    ∀ kv, kv ∈ foldl (λ acc kv, assoc_insert kv.1 kv.2 acc) acc ((λ k, (k, v)) <$> keys) ↔
      kv ∈ acc ∨ (kv.1 ∈ keys ∧ kv.2 = v)) as Hfold.
  { induction keys as [|k keys IH]; intros acc Hacc kv; simpl; [rewrite elem_of_nil; naive_solver|].
    assert (∀ kv, kv ∈ assoc_insert k v acc ↔ kv ∈ acc ∨ kv = (k, v)) as Hins.
    { intros [k1 v1]. unfold assoc_insert. case_decide as Hin.
      - apply list_elem_of_fmap in Hin as ([k0 v0] & Hk0 & Hin0). simpl in Hk0. subst k0.
        pose proof (Hacc _ Hin0). simpl in *. subst v0. rewrite list_elem_of_fmap. split.
        + intros ([k2 v2] & Heq & Hin2). simpl in Heq. case_decide; simplify_eq; auto.
        + intros [Hin2|[= -> ->]]; [|exists (k, v); simpl; by rewrite decide_True].
          exists (k1, v1). simpl. case_decide; [|done]. pose proof (Hacc _ Hin2). by simplify_eq/=.
      - rewrite elem_of_app, list_elem_of_singleton. done. }
    rewrite IH, Hins, elem_of_cons; [|intros kv' [?| ->]%Hins; auto].
    destruct kv as [k1 v1]. simpl. naive_solver. }
  apply option_eq. intros v'. rewrite im_get_elem, im_iter_from, Hfold by (intros ? ?%elem_of_nil; done).
  rewrite elem_of_nil. simpl. case_decide; naive_solver.
Qed.
End index_maps.

Section blocks.
Context `{StarknetTypes} `{!IndexMap} `{!Node} {HO : HashOrder} (config : FetcherConfig).
Context (answer : ProviderRequestData → ProviderResponseData).
Implicit Types bs : gmap Z FetchRangeBlock.

(** The events recorded for a transaction of a block. *)
Definition events_at bs (n : Z) (h : Felt) : list Event :=
  default [] (b ← bs !! n; ft_events <$> im_get h (transactions b)).
Definition has_tx bs (n : Z) (h : Felt) : Prop :=
  ∃ b, bs !! n = Some b ∧ is_Some (im_get h (transactions b)).

(** Two collections of blocks with the same events and timestamps. *)
Definition same_events bs bs' : Prop :=
  (∀ n h, events_at bs' n h = events_at bs n h) ∧ ∀ n, timestamp <$> bs' !! n = timestamp <$> bs !! n.
#[global] Instance same_events_preorder : PreOrder same_events.
Proof.
  split; [done|]. intros b1 b2 b3 [He1 Ht1] [He2 Ht2].
  split; [intros n h|intros n]; [by rewrite He2|by rewrite Ht2].
Qed.

Lemma same_events_alter bs (f : FetchTransaction → FetchTransaction) n h :
  (∀ t, ft_events (f t) = ft_events t) → same_events bs (alter (update_tx f h) n bs).
Proof.
  intros Hf. split.
  - intros n' h'. unfold events_at. destruct (decide (n' = n)) as [->|Hne]; [|by rewrite lookup_alter_ne].
    rewrite lookup_alter_eq. destruct (bs !! n) as [b|]; [|done]. simpl. rewrite im_get_alter.
    case_decide; [|done]. destruct (im_get h' (transactions b)); [|done]. simpl. by rewrite Hf.
  - intros n'. destruct (decide (n' = n)) as [->|Hne]; [|by rewrite lookup_alter_ne].
    rewrite lookup_alter_eq. by destruct (bs !! n).
Qed.

Lemma same_events_retain bs : same_events bs (retain_with_events <$> bs).
Proof.
  split.
  - intros n h. unfold events_at. rewrite lookup_fmap. destruct (bs !! n) as [b|]; [|done]. simpl.
    rewrite im_get_retain. destruct (im_get h (transactions b)) as [t|]; [|done]. simpl.
    unfold has_events. by destruct (ft_events t) eqn:He; simpl; rewrite ?He.
  - intros n. rewrite lookup_fmap. by destruct (bs !! n).
Qed.

(** Placing the events: each goes to its transaction, after those already there. *)
Definition placed (l : list EmittedEvent) (n : Z) (h : Felt) : list Event :=
  event_of <$> filter (λ e, block_of e = n ∧ transaction_hash e = h) l.

Lemma assign_event_spec bs ct e :
  is_Some (block_number e) → has_tx bs (block_of e) (transaction_hash e) →
  ∃ bs', assign_event (bs, ct) e =
      Ok (bs', insert_tx (emitted_from_address e) (transaction_hash e) ct) ∧
    (∀ n h, events_at bs' n h = events_at bs n h ++ placed [e] n h) ∧
    (∀ n h, has_tx bs n h → has_tx bs' n h) ∧
    ∀ n, timestamp <$> bs' !! n = timestamp <$> bs !! n.
Proof.
  intros [n Hn] (b & Hb & [t Ht]). unfold block_of in Hb. rewrite Hn in Hb. simpl in Hb.
  unfold assign_event. rewrite Hn. simpl. rewrite Hb. simpl. rewrite Ht. simpl. eexists. split; [done|].
  split_and!.
  - intros n' h'. unfold events_at, placed. rewrite filter_cons, filter_nil. unfold block_of. rewrite Hn. simpl.
    destruct (decide (n' = n)) as [->|Hne].
    + rewrite lookup_insert_eq, Hb. simpl. rewrite im_get_alter. destruct (decide (h' = transaction_hash e)) as [->|Hh].
      * rewrite Ht, (decide_True (P := n = n ∧ _)) by done. done.
      * rewrite (decide_False (P := n = n ∧ _)) by naive_solver. by rewrite app_nil_r.
    + rewrite lookup_insert_ne by done. rewrite (decide_False (P := n = n' ∧ _)) by naive_solver.
      by rewrite app_nil_r.
  - intros n' h' (b' & Hb' & Hs). destruct (decide (n' = n)) as [->|Hne].
    + simplify_eq. eexists. rewrite lookup_insert_eq. split; [done|]. simpl. rewrite im_get_alter.
      case_decide; [|done]. by apply fmap_is_Some.
    + exists b'. by rewrite lookup_insert_ne.
  - intros n'. destruct (decide (n' = n)) as [->|Hne]; [by rewrite lookup_insert_eq, Hb|].
    by rewrite lookup_insert_ne.
Qed.

Lemma placed_cons e l n h : placed (e :: l) n h = placed [e] n h ++ placed l n h.
Proof. unfold placed. change (e :: l) with ([e] ++ l). by rewrite filter_app, fmap_app. Qed.

(** The transactions recorded for a contract. *)
Definition txs_of (ct : gmap Felt (gset Felt)) (a : Felt) : gset Felt := default ∅ (ct !! a).

Lemma insert_tx_spec a h ct a' h' :
  h' ∈ txs_of (insert_tx a h ct) a' ↔ h' ∈ txs_of ct a' ∨ (a' = a ∧ h' = h).
Proof.
  unfold txs_of, insert_tx. rewrite lookup_insert. case_decide as Ha; simpl; [subst a'; set_solver|].
  naive_solver.
Qed.

Lemma assign_events_spec l bs ct :
  (∀ e, e ∈ l → is_Some (block_number e) ∧ has_tx bs (block_of e) (transaction_hash e)) →
  ∃ bs' ct', fold_outcome assign_event l (bs, ct) = Ok (bs', ct') ∧
    (∀ n h, events_at bs' n h = events_at bs n h ++ placed l n h) ∧
    (∀ n, timestamp <$> bs' !! n = timestamp <$> bs !! n) ∧
    (∀ a h, h ∈ txs_of ct' a ↔ h ∈ txs_of ct a ∨
       ∃ e, e ∈ l ∧ emitted_from_address e = a ∧ transaction_hash e = h).
Proof.
  revert bs ct. induction l as [|e l IH]; intros bs ct Hl.
  { exists bs, ct. split_and!; [done|intros; by rewrite app_nil_r|done|].
    intros a h. split; [by left|]. intros [?|(e & Hin & _)]; [done|by apply elem_of_nil in Hin]. }
  destruct (Hl e (list_elem_of_here _ _)) as [Hn Hh].
  destruct (assign_event_spec bs ct e Hn Hh) as (bs1 & He & Hev & Hk & Hts).
  destruct (IH bs1 (insert_tx (emitted_from_address e) (transaction_hash e) ct))
    as (bs2 & ct2 & Hf & Hev2 & Hts2 & Hct).
  { intros e' He'. destruct (Hl e') as [? ?]; [by right|]. auto. }
  exists bs2, ct2. cbn [fold_outcome]. rewrite He. simpl. split_and!; [done| | |].
  - intros n h. by rewrite Hev2, Hev, <- app_assoc, <- placed_cons.
  - intros n. by rewrite Hts2.
  - intros a h. rewrite Hct, insert_tx_spec. setoid_rewrite elem_of_cons. naive_solver.
Qed.
(** The optional steps change neither events nor timestamps. *)
Lemma fold_same_events {A} (f : gmap Z FetchRangeBlock → A → outcome Error (gmap Z FetchRangeBlock)) l bs :
  (∀ x bs, x ∈ l → ∃ bs', f bs x = Ok bs' ∧ same_events bs bs') →
  ∃ bs', fold_outcome f l bs = Ok bs' ∧ same_events bs bs'.
Proof.
  revert bs. induction l as [|x l IH]; intros bs Hf; [by exists bs|].
  destruct (Hf x bs (list_elem_of_here _ _)) as (bs1 & Hb1 & Hs1).
  destruct (IH bs1) as (bs2 & Hb2 & Hs2); [intros; apply Hf; by right|].
  exists bs2. cbn [fold_outcome]. rewrite Hb1. split; [done|]. by etrans.
Qed.

Lemma fetch_details_spec enabled request set bs call :
  honest answer → batch_chunk_size config ≠ 0%nat →
  (∀ n h bs, ∃ bs', set bs (n, answer (request h)) = Ok bs' ∧ same_events bs bs') →
  ∃ o call', fetch_details config enabled request set bs call = (o, call') ∧
    (o = Err (BatchRequest ProviderError) ∨ ∃ bs', o = Ok bs' ∧ same_events bs bs').
Proof.
  intros Hh Hc Hset. unfold fetch_details.
  destruct (enabled && _); [|by eexists _, _; split; [done|right; exists bs]].
  case_decide; [by eexists _, _; split; [done|right; exists bs]|].
  set (txs := relevant_transactions bs). unfold st_bind.
  destruct (chunked_honest config answer ((λ x : Z * Felt, request x.2) <$> txs) call Hh Hc)
    as (o & call1 & -> & [-> | ->]); [by eexists _, _; split; [done|left]|].
  destruct (fold_same_events set (zip txs.*1 (answer <$> ((λ x : Z * Felt, request x.2) <$> txs))) bs)
    as (bs' & Hf & Hs).
  { intros [n r] bs0 Hin. rewrite <- list_fmap_compose, zip_with_fmap_l, zip_with_fmap_r in Hin.
    apply elem_of_zip_with in Hin as ([n1 h1] & [n2 h2] & [= -> ->] & _ & _). apply Hset. }
  eexists _, _. split; [done|]. right. unfold st_lift. rewrite Hf. by exists bs'.
Qed.

Lemma set_transaction_spec (Htx : ∀ h, ∃ t, answer (GetTransactionByHash h) = RTransaction t) n h bs :
  ∃ bs', set_transaction bs (n, answer (GetTransactionByHash h)) = Ok bs' ∧ same_events bs bs'.
Proof.
  destruct (Htx h) as [t Ht]. rewrite Ht. eexists. split; [done|]. by apply same_events_alter.
Qed.
Lemma set_receipt_spec (Hrc : ∀ h, ∃ r, answer (GetTransactionReceipt h) = RReceipt r) n h bs :
  ∃ bs', set_receipt bs (n, answer (GetTransactionReceipt h)) = Ok bs' ∧ same_events bs bs'.
Proof.
  destruct (Hrc h) as [r Hr]. rewrite Hr. eexists. split; [done|]. by apply same_events_alter.
Qed.

(** The blocks to fetch: those of the events and of the cursors. *)
Lemma block_numbers_spec l (cs : gmap Felt ContractCursor) :
  Forall (λ e, is_Some (block_number e)) l →
  ∃ ns, block_numbers l cs = Ok ns ∧ ∀ n, n ∈ ns ↔
    (∃ e, e ∈ l ∧ block_of e = n) ∨ ∃ a c, cs !! a = Some c ∧ head c = Some n.
Proof.
  intros Hl.
  assert (∀ s : gset Z, ∃ s', fold_outcome (λ s e, let? b := unwrap (block_number e) in Ok ({[b]} ∪ s)) l s
    = Ok (E := Error) s' ∧ ∀ n, n ∈ s' ↔ n ∈ s ∨ ∃ e, e ∈ l ∧ block_of e = n) as Hev.
  { induction Hl as [|e l [b Hb] Hl IH]; intros s.
    - exists s. split; [done|]. intros n. split; [by left|].
      intros [?|(e & Hin & _)]; [done|by apply elem_of_nil in Hin].
    - cbn [fold_outcome]. rewrite Hb. simpl. destruct (IH ({[b]} ∪ s)) as (s' & -> & Hs'). exists s'.
      split; [done|]. intros n. rewrite Hs', elem_of_union, elem_of_singleton. setoid_rewrite elem_of_cons.
      assert (block_of e = b) by (unfold block_of; by rewrite Hb). naive_solver. }
  destruct (Hev ∅) as (s & Hs & Hin). unfold block_numbers. rewrite Hs. simpl. eexists. split; [done|].
  assert (∀ L (s0 : gset Z) n, n ∈ foldl (λ s c, match head c with Some h => {[h]} ∪ s | None => s end) s0 L ↔
    n ∈ s0 ∨ ∃ c, c ∈ L ∧ head c = Some n) as Hcs.
  { induction L as [|c L IH]; intros s0 n; simpl.
    - split; [by left|]. intros [?|(c & Hc & _)]; [done|by apply elem_of_nil in Hc].
    - rewrite IH. setoid_rewrite elem_of_cons. destruct (head c) as [h|] eqn:Hh; [set_solver|naive_solver]. }
  intros n. rewrite Hcs, Hin. setoid_rewrite elem_of_empty. unfold hm_values. setoid_rewrite list_elem_of_fmap.
  split.
  - intros [[[]|?]|(c & ([a c'] & -> & Hac) & Hh)]; [by left|]. apply elem_of_hm_iter in Hac. right. eauto.
  - intros [?|(a & c & Hc & Hh)]; [by left; right|]. right. exists c. split; [|done]. exists (a, c).
    by rewrite elem_of_hm_iter.
Qed.

(** A block as it is before events are placed. *)
Definition bare_block (ts : Z) (txs : list Felt) (hash : Felt) : FetchRangeBlock :=
  mkRangeBlock (Some hash) ts (im_from_iter ((λ h, (h, mkFetchTx None [] None)) <$> txs)).

Lemma add_blocks_spec (ns : list Z) bs0 :
  (∀ n, n ∈ ns → ∃ ts txs hash, answer (GetBlockWithTxHashes n) = RBlock ts txs hash) →
  ∃ bs, fold_outcome add_block ((λ n, (n, answer (GetBlockWithTxHashes n))) <$> ns) bs0 = Ok bs ∧
    ∀ n, if decide (n ∈ ns)
         then ∃ ts txs hash, answer (GetBlockWithTxHashes n) = RBlock ts txs hash ∧
                bs !! n = Some (bare_block ts txs hash)
         else bs !! n = bs0 !! n.
Proof.
  revert bs0. induction ns as [|n ns IH]; intros bs0 Hns; [by exists bs0|].
  destruct (Hns n (list_elem_of_here _ _)) as (ts & txs & hash & Hn). rewrite fmap_cons. cbn [fold_outcome].
  unfold add_block at 1. simpl. rewrite Hn. simpl.
  destruct (IH (<[n := bare_block ts txs hash]> bs0)) as (bs & Hf & Hbs); [intros; apply Hns; by right|].
  exists bs. split; [done|]. intros n'. specialize (Hbs n'). destruct (decide (n' ∈ ns)) as [Hin|Hin].
  - rewrite decide_True by by right. done.
  - destruct (decide (n' = n)) as [->|Hne].
    + rewrite decide_True by left. rewrite lookup_insert_eq in Hbs. eauto.
    + rewrite decide_False by (rewrite elem_of_cons; naive_solver). by rewrite lookup_insert_ne in Hbs.
Qed.
End blocks.

(** ** The range *)
Section range.
Context `{StarknetTypes} `{!IndexMap} `{!Node} {HO : HashOrder} (config : FetcherConfig).
Context (answer : ProviderRequestData → ProviderResponseData) (chain : Felt → list EmittedEvent).

(** The node knows the blocks up to [latest], with the transactions of the
    chain's events, and the details of every transaction. *)
Record serves_data (latest : Z) : Prop := {
  serves_block n : n ≤ latest → ∃ ts txs hash, answer (GetBlockWithTxHashes n) = RBlock ts txs hash ∧
    ∀ a e, e ∈ chain a → block_of e = n → transaction_hash e ∈ txs;
  serves_tx h : ∃ t, answer (GetTransactionByHash h) = RTransaction t;
  serves_receipt h : ∃ r, answer (GetTransactionReceipt h) = RReceipt r
}.

Definition block_time (n : Z) : Z :=
  match answer (GetBlockWithTxHashes n) with RBlock ts _ _ => ts | _ => 0 end.

Lemma fetch_blocks_spec latest l (cs : gmap Felt ContractCursor) call :
  honest answer → batch_chunk_size config ≠ 0%nat → serves_data latest →
  (∀ e, e ∈ l → is_Some (block_number e) ∧ block_of e ≤ latest ∧ e ∈ chain (emitted_from_address e)) →
  (∀ a c h, cs !! a = Some c → head c = Some h → h ≤ latest) →
  ∃ o call', fetch_blocks config l cs call = (o, call') ∧
    (o = Err (BatchRequest ProviderError) ∨ ∃ bs, o = Ok bs ∧
       (∀ e, e ∈ l → has_tx bs (block_of e) (transaction_hash e)) ∧ (∀ n h, events_at bs n h = []) ∧
       (∀ a c h, cs !! a = Some c → head c = Some h → timestamp <$> bs !! h = Some (block_time h))).
Proof.
  intros Hh Hc Hd Hl Hcs.
  destruct (block_numbers_spec l cs) as (ns & Hns & Hin); [apply Forall_forall; naive_solver|].
  unfold fetch_blocks, st_bind at 1, st_lift at 1. rewrite Hns. unfold st_bind.
  destruct (chunked_honest config answer (GetBlockWithTxHashes <$> bset_iter ns) call Hh Hc)
    as (o & call1 & -> & [-> | ->]); [by eexists _, _; split; [done|left]|].
  assert (zip (bset_iter ns) (answer <$> (GetBlockWithTxHashes <$> bset_iter ns)) =
    (λ n, (n, answer (GetBlockWithTxHashes n))) <$> bset_iter ns) as ->.
  { generalize (bset_iter ns). intros L. induction L as [|n L IH]; [done|]. csimpl. by rewrite IH. }
  assert (∀ n, n ∈ bset_iter ns ↔ n ∈ ns) as Hiter.
  { intros n. unfold bset_iter. by rewrite merge_sort_Permutation, elem_of_elements. }
  assert (∀ n, n ∈ ns → n ≤ latest) as Hle by (intros n [(e & He & <-)|(a & c & Hac & Hh')]%Hin; [by apply Hl|eauto]).
  destruct (add_blocks_spec answer (bset_iter ns) ∅) as (bs & Hf & Hbs).
  { intros n Hn%Hiter%Hle. destruct (serves_block _ Hd n Hn) as (ts & txs & hash & ? & _). eauto. }
  eexists _, _. split; [done|]. right. unfold st_lift. rewrite Hf. exists bs.
  assert (∀ n, n ∈ ns → ∃ txs hash, answer (GetBlockWithTxHashes n) = RBlock (block_time n) txs hash ∧
    bs !! n = Some (bare_block (block_time n) txs hash)) as Hblock.
  { intros n Hn. specialize (Hbs n). rewrite decide_True in Hbs by by apply Hiter.
    destruct Hbs as (ts & txs & hash & Ha & Hb). unfold block_time. rewrite Ha. eauto. }
  split_and!; [done|..].
  - intros e He. destruct (Hblock (block_of e)) as (txs & hash & Ha & Hb); [apply Hin; eauto|].
    eexists. split; [exact Hb|]. unfold bare_block. simpl. rewrite im_get_same, decide_True; [done|].
    destruct (Hl e He) as (_ & Hlt & Hch). destruct (serves_block _ Hd _ Hlt) as (ts' & txs' & hash' & Ha' & Htx).
    rewrite Ha in Ha'. simplify_eq. by eapply Htx.
  - intros n h. unfold events_at. specialize (Hbs n). case_decide; [|by rewrite Hbs].
    destruct Hbs as (ts & txs & hash & _ & ->). simpl. rewrite im_get_same. by case_decide.
  - intros a c h Hac Hhd. destruct (Hblock h) as (txs & hash & _ & ->); [apply Hin; eauto|done].
Qed.

(** The new cursor of a contract, with the time of its block. *)
Definition timed (c : ContractCursor) : ContractCursor :=
  match head c with
  | Some h => mkCursor (cursor_contract_address c) (head c) (Some (block_time h)) (last_pending_block_tx c)
  | None => c
  end.

Lemma fetched_bounds latest a c events cs' c' :
  fetched config chain latest a c events cs' → cs' = Some c' → ∃ h, head c' = Some h ∧ h ≤ latest.
Proof.
  unfold fetched. case_decide as Hh.
  - intros [-> _] [= <-]. exists latest. split; [done|lia].
  - intros (to & Hto & -> & _) [= <-]. exists to. split; [done|lia].
Qed.

Lemma fetched_events_bounds N latest cs a c events cs' e :
  serves config answer chain N latest cs → cs !! a = Some c →
  fetched config chain latest.2 a c events cs' → e ∈ events → emitted_from_address e = a →
  is_Some (block_number e) ∧ block_of e ≤ latest.2.
Proof.
  intros Hs Hc Hf He Ha. unfold fetched in Hf.
  assert (e ∈ filter (λ e, emitted_from_address e = a) events) as Hin by by apply list_elem_of_filter.
  case_decide as Hh.
  - destruct Hf as [_ Hnil]. rewrite Hnil in Hin. by apply elem_of_nil in Hin.
  - destruct Hf as (to & Hto & _ & Heq). rewrite Heq in Hin.
    eapply elem_of_sublist in Hin; [|apply new_events_sublist]. apply list_elem_of_filter in Hin as [Hr Hin].
    split; [|lia]. destruct (serves_ordered _ _ _ _ _ _ Hs a) as [Hb _]. rewrite Forall_forall in Hb. auto.
Qed.
(** What [fetch_range] owes: events placed in their transactions, the set of
    transactions of each contract, and the cursors. *)
Definition range_ok (latest : Z) (cs : gmap Felt ContractCursor) (events : list EmittedEvent)
    (r : FetchRangeResult) (new : Cursors) : Prop :=
  (∀ n h, events_at (blocks r) n h = placed events n h) ∧
  (∀ a h, h ∈ txs_of (cursor_transactions new) a ↔
     ∃ e, e ∈ events ∧ emitted_from_address e = a ∧ transaction_hash e = h) ∧
  (∀ a, cs !! a = None → cursors new !! a = None) ∧
  ∀ a c, cs !! a = Some c → ∃ c', cursors new !! a = Some (timed c') ∧
    fetched config chain latest a c events (Some c').

Lemma fill_blocks_spec latest events bs call :
  honest answer → batch_chunk_size config ≠ 0%nat → serves_data latest →
  (∀ e, e ∈ events → is_Some (block_number e) ∧ has_tx bs (block_of e) (transaction_hash e)) →
  (∀ n h, events_at bs n h = []) →
  ∃ o call', fill_blocks config events bs call = (o, call') ∧
    (o = Err (BatchRequest ProviderError) ∨
     ∃ bs' ct, o = Ok (bs', ct) ∧ (∀ n h, events_at bs' n h = placed events n h) ∧
       (∀ n, timestamp <$> bs' !! n = timestamp <$> bs !! n) ∧
       ∀ a h, h ∈ txs_of ct a ↔ ∃ e, e ∈ events ∧ emitted_from_address e = a ∧ transaction_hash e = h).
Proof.
  intros Hh Hc Hd Hhas Hempty.
  destruct (assign_events_spec events bs ∅ Hhas) as (bs1 & ct & Has & Hev1 & Hts1 & Hct).
  unfold fill_blocks, st_bind at 1, st_lift at 1. rewrite Has. cbv beta iota zeta. unfold st_bind at 1.
  pose proof (same_events_retain bs1) as Hret.
  destruct (fetch_details_spec config answer (TRANSACTIONS (flags config)) _ _
    (retain_with_events <$> bs1) call Hh Hc (set_transaction_spec answer (serves_tx _ Hd)))
    as (o3 & call3 & -> & [->|(bs3 & -> & Hs3)]); [by eexists _, _; split; [done|left]|].
  unfold st_bind at 1.
  destruct (fetch_details_spec config answer (TRANSACTION_RECEIPTS (flags config)) _ _ bs3 call3 Hh Hc
    (set_receipt_spec answer (serves_receipt _ Hd)))
    as (o4 & call4 & -> & [->|(bs4 & -> & Hs4)]); [by eexists _, _; split; [done|left]|].
  assert (same_events bs1 bs4) as [Hsame Hstamp] by (etrans; [exact Hret|]; by etrans).
  eexists _, _. split; [done|]. right. exists bs4, ct. split_and!; [done|..].
  - intros n h. by rewrite Hsame, Hev1, Hempty.
  - intros n. by rewrite Hstamp, Hts1.
  - intros a h. rewrite Hct. unfold txs_of. rewrite lookup_empty. set_solver.
Qed.

Lemma fetch_range_spec N latest cs call :
  serves config answer chain N latest cs → serves_data latest.2 →
  ∃ o call', fetch_range config N cs latest call = (o, call') ∧
    (o = Err (BatchRequest ProviderError) ∨
     ∃ events r new, o = Ok (Some (r, new)) ∧ range_ok latest.2 cs events r new).
Proof.
  intros Hs Hd. pose proof (serves_honest _ _ _ _ _ _ Hs) as Hh. pose proof (serves_chunk _ _ _ _ _ _ Hs) as Hc.
  unfold fetch_range, st_bind at 1.
  destruct (fetch_events_spec config answer chain N latest cs Hs call)
    as (o1 & call1 & -> & [->|(events & cs1 & -> & Hev & Hnone & Hcs)]); [by eexists _, _; split; [done|left]|].
  assert (∀ a c1, cs1 !! a = Some c1 → ∃ c h, cs !! a = Some c ∧ head c1 = Some h ∧ h ≤ latest.2) as Hheads.
  { intros a c1 Hc1. destruct (cs !! a) as [c|] eqn:Hca; [|by rewrite Hnone in Hc1].
    destruct (fetched_bounds _ _ _ _ _ _ (Hcs a c Hca) Hc1) as (h & ? & ?). eauto. }
  assert (∀ e, e ∈ events → is_Some (block_number e) ∧ block_of e ≤ latest.2) as Hin.
  { intros e He. destruct (Hev e He) as [_ [c Hec]].
    by destruct (fetched_events_bounds N latest cs _ c _ _ e Hs Hec (Hcs _ _ Hec) He eq_refl). }
  unfold st_bind at 1.
  destruct (fetch_blocks_spec latest.2 events cs1 call1 Hh Hc Hd)
    as (o2 & call2 & -> & [->|(bs & -> & Hhas & Hempty & Htime)]).
  { intros e He. destruct (Hin e He), (Hev e He). done. }
  { intros a c1 h Hc1 Hhd. destruct (Hheads a c1 Hc1) as (c & h' & _ & Hh' & Hle). congruence. }
  { by eexists _, _; split; [done|left]. }
  unfold st_bind at 1.
  destruct (fill_blocks_spec latest.2 events bs call2 Hh Hc Hd)
    as (o3 & call3 & -> & [->|(bs3 & ct & -> & Hplaced & Hstamp & Hct)]);
    [intros e He; destruct (Hin e He); auto|done|by eexists _, _; split; [done|left]|].
  eexists _, _. split; [done|]. right. eexists events, _, _. split; [done|]. split_and!; simpl; [done..| |].
  - intros a Ha. by rewrite lookup_fmap, Hnone.
  - intros a c Hac. specialize (Hcs a c Hac) as Hf. destruct (cs1 !! a) as [c1|] eqn:Hc1.
    + exists c1. split; [|done]. rewrite lookup_fmap, Hc1. simpl. f_equal.
      destruct (Hheads a c1 Hc1) as (_ & h & _ & Hhd & _). unfold update_timestamp, timed. rewrite Hhd. simpl.
      specialize (Htime a c1 h Hc1 Hhd). rewrite <- Hstamp in Htime.
      destruct (bs3 !! h) as [b|]; [|done]. injection Htime as Hbt. by rewrite Hbt, ?Hhd.
    + unfold fetched in Hf. case_decide; [by destruct Hf|]. by destruct Hf as (? & _ & ? & _).
Qed.
(** Successful fetches, each from the cursors the one before returned, on a chain
    that may have grown in between. *)
Inductive fetches : gmap Felt ContractCursor → list FetchRangeResult → gmap Felt ContractCursor → Prop :=
| fetches_nil cs : fetches cs [] cs
| fetches_cons N latest call call' cs r new rs cs' :
    serves config answer chain N latest cs → serves_data latest.2 →
    fetch_range config N cs latest call = (Ok (Some (r, new)), call') →
    fetches (cursors new) rs cs' → fetches cs (r :: rs) cs'.

(** The events of a contract recorded for a transaction of a block. *)
Definition events_of (a : Felt) (n : Z) (h : Felt) (r : FetchRangeResult) : list Event :=
  filter (λ ev, from_address ev = a) (events_at (blocks r) n h).

Lemma placed_filter a l n h :
  filter (λ ev, from_address ev = a) (placed l n h) = placed (filter (λ e, emitted_from_address e = a) l) n h.
Proof.
  unfold placed. induction l as [|e l IH]; [done|]. rewrite !filter_cons.
  destruct (decide (block_of e = n ∧ transaction_hash e = h)) as [Hb|Hb];
    destruct (decide (emitted_from_address e = a)) as [Ha|Ha]; rewrite ?fmap_cons, ?filter_cons.
  - rewrite (decide_True (P := from_address (event_of e) = a)), (decide_True (P := _ ∧ _)) by done.
    by rewrite fmap_cons, IH.
  - by rewrite (decide_False (P := from_address (event_of e) = a)).
  - by rewrite (decide_False (P := _ ∧ _)) by done.
  - done.
Qed.

Lemma between_split from mid to a : ordered (chain a) → from ≤ mid + 1 → mid ≤ to →
  between chain from to a = between chain from mid a ++ between chain (mid + 1) to a.
Proof.
  intros Ho Hfm Hmt. unfold between. induction (chain a) as [|e l IH]; [done|].
  apply ordered_cons in Ho as (_ & Ho & Hge). rewrite !filter_cons, IH by done.
  destruct (decide (from ≤ block_of e ≤ mid)) as [Hm|Hm].
  - rewrite decide_True by lia. rewrite (decide_False (P := mid + 1 ≤ _ ≤ _)) by lia. done.
  - destruct (decide (mid + 1 ≤ block_of e ≤ to)) as [Ht|Ht].
    + rewrite decide_True by lia. rewrite (filter_none (λ e, from ≤ block_of e ≤ mid) l); [done|].
      eapply Forall_impl; [exact Hge|]. simpl. lia.
    + by rewrite decide_False by lia.
Qed.

Lemma fetch_step N latest call call' cs r new a c h :
  serves config answer chain N latest cs → serves_data latest.2 →
  fetch_range config N cs latest call = (Ok (Some (r, new)), call') →
  cs !! a = Some c → head c = Some h → 0 < h < u64_max → last_pending_block_tx c = None →
  ∃ c' h', cursors new !! a = Some c' ∧ head c' = Some h' ∧ h ≤ h' < u64_max ∧
    last_pending_block_tx c' = None ∧ (h < latest.2 → h < h') ∧
    ∀ n t, events_of a n t r = placed (between chain (h + 1) h' a) n t.
Proof.
  intros Hs Hd Hf Hc Hh Hpos Hp. destruct (fetch_range_spec N latest cs call Hs Hd) as (o & c1 & Hf' & Ho).
  rewrite Hf in Hf'. simplify_eq. destruct Ho as [?|(events & r' & new' & Heq & Hev & _ & _ & Hcs)]; [done|].
  simplify_eq. destruct (Hcs a c Hc) as (c' & Hnew & Hfe). unfold fetched in Hfe.
  assert (∀ n t, events_of a n t r' = placed (filter (λ e, emitted_from_address e = a) events) n t) as Hev'.
  { intros n t. unfold events_of. by rewrite Hev, placed_filter. }
  case_decide as Hl.
  - destruct Hfe as [[= ->] Hnil]. exists (timed c), h. unfold timed. rewrite Hh. simpl.
    rewrite Hh in Hl. simplify_eq. split_and!; try done; try lia.
    + rewrite Hnew. unfold timed. by rewrite Hh.
    + intros n t. rewrite Hev', Hnil. unfold between. by rewrite (filter_none _ (chain a)) by
        (apply Forall_forall; intros e _; simpl; lia).
  - destruct Hfe as (to & Hto & [= ->] & Hmine). pose proof (serves_next _ _ _ _ _ _ Hs a c Hc Hl) as Hn.
    pose proof (serves_fit _ _ _ _ _ _ Hs) as Hfit.
    rewrite (range_end_spec config latest.2 _ Hfit Hn) in Hto.
    assert (next_block config c = h + 1) as Hnb.
    { unfold next_block. rewrite Hh, (proj2 (Z.eqb_neq h 0)) by lia. apply u64_add_small; lia. }
    rewrite Hnb in *. destruct Hfit. exists (timed (advance c to)), to. unfold timed, advance. simpl. split_and!.
    + by rewrite Hnew.
    + done.
    + lia.
    + lia.
    + by rewrite Hp; case_decide.
    + lia.
    + intros n t. rewrite Hev', Hmine, Hp. done.
Qed.
End range.

(** ** The block being built *)
Section preconfirmed.
Context `{StarknetTypes} `{!IndexMap} `{!Node} {HO : HashOrder} (config : FetcherConfig).
#[local] Abbreviation ptx := (TransactionContent * TransactionReceipt)%type.
#[local] Abbreviation hash_of := (λ t : ptx, receipt_hash t.2).
Implicit Types (L : list ptx) (m : im FetchTransaction).

(** A contract's events in a transaction; a reverted transaction has none. *)
Definition tx_events (a : Felt) (t : ptx) : list Event :=
  if receipt_reverted t.2 then [] else filter (λ e, from_address e = a) (receipt_events t.2).

(** The transactions after the one processed last; none when it is not there. *)
Definition after_pending (pending : option Felt) L : list ptx :=
  match pending with
  | Some tx => tail (drop_until (λ t, bool_decide (hash_of t = tx)) L)
  | None => L
  end.

Definition relevant (a : Felt) L : list ptx := filter (λ t, tx_events a t ≠ []) L.
(** The cursor stops at the last transaction with events. *)
Definition preconf_cursor (a : Felt) (ts : Z) (c : ContractCursor) L : ContractCursor :=
  match last (relevant a L) with
  | Some t => mkCursor (cursor_contract_address c) (head c) (Some ts) (Some (hash_of t))
  | None => c
  end.

Definition tx_recorded m (h : Felt) : list Event := default [] (ft_events <$> im_get h m).
Definition from_contract (a : Felt) (l : list Event) : list Event := filter (λ e, from_address e = a) l.
Definition known m L : Prop := ∀ t, t ∈ L → is_Some (im_get (hash_of t) m).

Lemma tx_recorded_push m k es h : is_Some (im_get k m) →
  tx_recorded (im_alter (push_events es) k m) h = tx_recorded m h ++ (if decide (k = h) then es else []).
Proof.
  intros [t Ht]. unfold tx_recorded. rewrite im_get_alter. destruct (decide (h = k)) as [->|Hne].
  - rewrite decide_True, Ht by done. done.
  - rewrite decide_False by done. by rewrite app_nil_r.
Qed.
Lemma known_push m k es L : known m L → known (im_alter (push_events es) k m) L.
Proof.
  intros Hk t Ht. rewrite im_get_alter. case_decide; [|by apply Hk]. by apply fmap_is_Some, Hk.
Qed.

(** One transaction. *)
Definition record_tx (a : Felt) (ts : Z) (t : ptx) (p : Pre) : Pre :=
  mkPre (pre_skip p)
    (mkCursor (cursor_contract_address (pre_cursor p)) (head (pre_cursor p)) (Some ts) (Some (hash_of t)))
    (im_alter (push_events (tx_events a t)) (hash_of t) (pre_txs p)) (insert_tx a (hash_of t) (pre_cursor_txs p)).

Lemma preconf_tx_spec a ts t p :
  last_pending_block_tx (pre_cursor p) ≠ Some (hash_of t) → is_Some (im_get (hash_of t) (pre_txs p)) →
  preconf_tx a ts t p = Ok (if decide (tx_events a t = []) then p else record_tx a ts t p).
Proof.
  intros Hp [ft Hft]. unfold preconf_tx. rewrite decide_False by done. unfold record_tx, tx_events.
  destruct (receipt_reverted t.2); [by rewrite decide_True|].
  destruct (decide (filter _ _ = [])); [done|]. by rewrite Hft.
Qed.

(** The loop past the pending transaction. *)
Lemma preconf_loop a ts L p :
  NoDup (hash_of <$> L) → pre_skip p = None → known (pre_txs p) L →
  (∀ h, last_pending_block_tx (pre_cursor p) = Some h → h ∉ hash_of <$> L) →
  ∃ p', fold_outcome (preconf_step a ts) L p = Ok p' ∧ pre_cursor p' = preconf_cursor a ts (pre_cursor p) L ∧
    (∀ L', known (pre_txs p) L' → known (pre_txs p') L') ∧
    ∀ h, tx_recorded (pre_txs p') h = tx_recorded (pre_txs p) h ++
      (filter (λ t, hash_of t = h) L ≫= tx_events a).
Proof.
  revert p. induction L as [|t L IH]; intros p Hnd Hskip Hk Hp.
  { exists p. split_and!; try done. intros h. by rewrite app_nil_r. }
  rewrite fmap_cons in Hnd, Hp. apply NoDup_cons in Hnd as [Hni Hnd].
  assert (known (pre_txs p) L) as HkL by (intros t' ?; apply Hk; by right).
  cbn [fold_outcome]. unfold preconf_step at 1. rewrite Hskip, preconf_tx_spec;
    [|intros Heq; apply (Hp _ Heq); left|apply Hk; left]. cbn [outcome_bind].
  unfold preconf_cursor, relevant. rewrite filter_cons. destruct (decide (tx_events a t = [])) as [Hnil|Hev].
  - rewrite (decide_False (P := ¬ _)) by tauto. destruct (IH p Hnd Hskip HkL) as (p' & Hf & Hc & Hkn & Hrec).
    { intros h Hh Hin. apply (Hp h Hh). by right. }
    exists p'. split_and!; [done|done|done|]. intros h. rewrite Hrec, filter_cons.
    case_decide; [|done]. cbn [mbind list_bind]. by rewrite Hnil.
  - rewrite decide_True by done.
    destruct (IH (record_tx a ts t p)) as (p' & Hf & Hc & Hkn & Hrec);
      [done|done|by apply known_push|by intros h [= <-]|].
    exists p'. split_and!; [exact Hf| |intros L' HL'; by apply Hkn, known_push|].
    + rewrite Hc. unfold preconf_cursor, relevant. rewrite last_cons. by destruct (last _).
    + intros h. rewrite Hrec. unfold record_tx. cbn [pre_txs]. rewrite tx_recorded_push by (apply Hk; left).
      rewrite <- app_assoc. f_equal. rewrite filter_cons. by case_decide.
Qed.

(** The whole loop for one contract. *)
Lemma preconf_contract_loop a ts L c m ct :
  NoDup (hash_of <$> L) → known m L →
  let todo := after_pending (last_pending_block_tx c) L in
  ∃ p', fold_outcome (preconf_step a ts) L (mkPre (last_pending_block_tx c) c m ct) = Ok p' ∧
    pre_cursor p' = preconf_cursor a ts c todo ∧ (∀ L', known m L' → known (pre_txs p') L') ∧
    ∀ h, tx_recorded (pre_txs p') h = tx_recorded m h ++ (filter (λ t, hash_of t = h) todo ≫= tx_events a).
Proof.
  intros Hnd Hk. cbv zeta. destruct (last_pending_block_tx c) as [tx|] eqn:Hp.
  - simpl. induction L as [|t L IH].
    + eexists. split; [done|]. split_and!; try done. intros h. simpl. by rewrite app_nil_r.
    + rewrite fmap_cons in Hnd. apply NoDup_cons in Hnd as [Hni Hnd].
      cbn [fold_outcome drop_until]. unfold preconf_step at 1. cbn [pre_skip].
      destruct (decide (receipt_hash t.2 = tx)) as [<-|Hne].
      * rewrite bool_decide_true by done. unfold preconf_tx. cbn [pre_cursor].
        rewrite decide_True by done. cbn [outcome_bind tail].
        apply (preconf_loop a ts L (mkPre None c m ct)); [done|done|intros t' ?; apply Hk; by right|].
        simpl. rewrite Hp. by intros h [= <-].
      * rewrite bool_decide_false by done. cbn [outcome_bind]. apply IH; [done|].
        intros t' ?; apply Hk; by right.
  - simpl. apply (preconf_loop a ts L (mkPre None c m ct)); [done..|]. simpl. by rewrite Hp.
Qed.

(** What one contract gets from the block being built. *)
Definition preconfirmed_for (latest : Z) (block : PreConfirmedBlock) (m : im FetchTransaction)
    (a : Felt) (c : ContractCursor) (c' : option ContractCursor) : Prop :=
  if decide (head c = Some latest) then
    let todo := after_pending (last_pending_block_tx c) (pre_transactions block) in
    c' = Some (preconf_cursor a (pre_timestamp block) c todo) ∧
    ∀ h, from_contract a (tx_recorded m h) = filter (λ t, hash_of t = h) todo ≫= tx_events a
  else c' = Some c ∧ ∀ h, from_contract a (tx_recorded m h) = [].

Lemma from_contract_tx_events a a' (l : list ptx) :
  from_contract a' (l ≫= tx_events a) = if decide (a = a') then l ≫= tx_events a else [].
Proof.
  unfold from_contract. assert (Forall (λ e, from_address e = a) (l ≫= tx_events a)) as Hall.
  { apply Forall_forall. intros e (t & He & _)%list_elem_of_bind. unfold tx_events in He.
    destruct (receipt_reverted _); [by apply elem_of_nil in He|]. by apply list_elem_of_filter in He as [? _]. }
  case_decide as Ha; [subst; by apply filter_all|]. apply filter_none.
  eapply Forall_impl; [exact Hall|]. simpl. congruence.
Qed.

Lemma from_contract_app a l1 l2 : from_contract a (l1 ++ l2) = from_contract a l1 ++ from_contract a l2.
Proof. apply filter_app. Qed.

Lemma preconf_contract_spec latest block m new a c :
  NoDup (hash_of <$> pre_transactions block) → known m (pre_transactions block) →
  cursors new !! a = Some c → (∀ h, from_contract a (tx_recorded m h) = []) →
  ∃ m1 new1, preconf_contract latest block (m, new) (a, c) = Ok (m1, new1) ∧
    known m1 (pre_transactions block) ∧ preconfirmed_for latest block m1 a c (cursors new1 !! a) ∧
    ∀ a', a' ≠ a → cursors new1 !! a' = cursors new !! a' ∧
      ∀ h, from_contract a' (tx_recorded m1 h) = from_contract a' (tx_recorded m h).
Proof.
  intros Hb Hk Hac Hnone. unfold preconf_contract, preconfirmed_for.
  destruct (decide (head c = Some latest)) as [Hh|Hh].
  2: { rewrite decide_True by done. exists m, new. split_and!; done. }
  rewrite decide_False by tauto.
  destruct (preconf_contract_loop a (pre_timestamp block) (pre_transactions block) c m
    (cursor_transactions new) Hb Hk) as (p' & -> & Hc' & Hkn & Hrec).
  eexists _, _. split; [done|]. simpl. split_and!; [by apply Hkn|by rewrite lookup_insert_eq, Hc'| |].
  - intros h. by rewrite Hrec, from_contract_app, Hnone, from_contract_tx_events, decide_True.
  - intros a' Ha'. split; [by rewrite lookup_insert_ne|]. intros h.
    by rewrite Hrec, from_contract_app, from_contract_tx_events, decide_False, app_nil_r.
Qed.

Lemma preconf_contracts_spec latest block (l : list (Felt * ContractCursor)) m new :
  NoDup l.*1 → NoDup (hash_of <$> pre_transactions block) → known m (pre_transactions block) →
  (∀ a c, (a, c) ∈ l → cursors new !! a = Some c ∧ ∀ h, from_contract a (tx_recorded m h) = []) →
  ∃ m' new', fold_outcome (preconf_contract latest block) l (m, new) = Ok (m', new') ∧
    (∀ a c, (a, c) ∈ l → preconfirmed_for latest block m' a c (cursors new' !! a)) ∧
    (∀ a, a ∉ l.*1 → cursors new' !! a = cursors new !! a ∧
       ∀ h, from_contract a (tx_recorded m' h) = from_contract a (tx_recorded m h)).
Proof.
  intros Hl Hb. revert m new. induction l as [|[a c] l IH]; intros m new Hk Hin.
  { exists m, new. split_and!; try done. intros a c Hac. by apply elem_of_nil in Hac. }
  rewrite fmap_cons in Hl. apply NoDup_cons in Hl as [Hni Hl]. simpl in Hni.
  destruct (Hin a c (list_elem_of_here _ _)) as [Hac Hnone].
  destruct (preconf_contract_spec latest block m new a c Hb Hk Hac Hnone)
    as (m1 & new1 & Hstep & Hk1 & Hmine & Hothers).
  destruct (IH Hl m1 new1 Hk1) as (m2 & new2 & Hf & Hmine2 & Hothers2).
  { intros a' c' Hac'. assert (a' ≠ a) as Hne.
    { intros ->. apply Hni. by apply (list_elem_of_fmap_2 fst) in Hac'. }
    destruct (Hothers a' Hne) as [-> Hsame]. destruct (Hin a' c') as [? Hn]; [by right|].
    split; [done|]. intros h. by rewrite Hsame. }
  exists m2, new2. cbn [fold_outcome]. rewrite Hstep. split_and!; [exact Hf| |].
  - intros a' c' [[= -> ->]|Hac']%elem_of_cons; [|by apply Hmine2].
    destruct (Hothers2 a Hni) as [Hcur Hrec]. unfold preconfirmed_for in *. rewrite Hcur.
    case_decide; destruct Hmine as [? Hm]; (split; [done|]); intros h; by rewrite Hrec, Hm.
  - intros a' Ha'. rewrite fmap_cons in Ha'. apply not_elem_of_cons in Ha' as [Hne Ha'].
    destruct (Hothers2 a' Ha') as [-> Hr2]. destruct (Hothers a' Hne) as [-> Hr1].
    split; [done|]. intros h. by rewrite Hr2, Hr1.
Qed.

Lemma tx_recorded_retain m h : tx_recorded (im_retain has_events m) h = tx_recorded m h.
Proof.
  unfold tx_recorded. rewrite im_get_retain. destruct (im_get h m) as [t|]; [|done]. simpl.
  unfold has_events. by destruct (ft_events t) eqn:He; simpl; rewrite ?He.
Qed.

(** The map the loop starts from: every transaction, with no events. *)
Lemma preconf_transactions_spec n L : NoDup (hash_of <$> L) →
  let m := im_from_iter (preconf_transaction config n <$> L) in known m L ∧ ∀ h, tx_recorded m h = [].
Proof.
  intros Hnd. cbv zeta.
  assert (im_iter (im_from_iter (preconf_transaction config n <$> L)) = preconf_transaction config n <$> L) as Hit.
  { rewrite im_iter_from.
    assert (∀ acc : list (Felt * FetchTransaction), NoDup (acc.*1 ++ (hash_of <$> L)) →
      foldl (λ acc kv, assoc_insert kv.1 kv.2 acc) acc (preconf_transaction config n <$> L) =
      acc ++ (preconf_transaction config n <$> L)) as Hfold; [|by apply (Hfold [])].
    clear. induction L as [|t L IH]; intros acc Hnd; simpl; [by rewrite app_nil_r|].
    rewrite fmap_cons in Hnd. unfold assoc_insert at 2. rewrite decide_False.
    - rewrite IH, <- app_assoc; [done|]. by rewrite fmap_app, <- app_assoc.
    - intros Hin. apply NoDup_app in Hnd as (_ & Hdis & _). by apply (Hdis (hash_of t) Hin); left. }
  split.
  - intros t Ht. exists (preconf_transaction config n t).2. apply im_get_elem. rewrite Hit.
    by apply (list_elem_of_fmap_2 (preconf_transaction config n)) in Ht.
  - intros h. unfold tx_recorded. destruct (im_get h _) as [ft|] eqn:Hg; [|done].
    apply im_get_elem in Hg. rewrite Hit in Hg. by apply list_elem_of_fmap in Hg as (t & [= -> ->] & _).
Qed.
End preconfirmed.

(** ** Properties *)
Section properties.
Context `{StarknetTypes} `{!IndexMap} `{!Node} {HO : HashOrder} (config : FetcherConfig).
Context (answer : ProviderRequestData → ProviderResponseData) (chain : Felt → list EmittedEvent).

(** A fetch returns exactly the new events. Against a node that answers
    truthfully when it answers, fetching a range ends (with as much fuel as a
    contract has pages) in a retryable error or in a result where: every contract
    behind the chain gets all its events of a range of blocks starting at its
    cursor and reaching at least one chunk further (or the latest block), less
    those up to the transaction it processed last; the events are grouped under
    their block and transaction in order; each contract's transactions are
    listed; and each cursor stands at the end of its range with that block's
    time. Contracts at the latest block get nothing. *)
Theorem fetch_range_exact (N : nat) (latest : Felt * Z) (cs : gmap Felt ContractCursor) (call : nat) :
  serves config answer chain N latest cs → serves_data answer chain latest.2 →
  let o := (fetch_range config N cs latest call).1 in
  o = Err (BatchRequest ProviderError) ∨
  ∃ events r new, o = Ok (Some (r, new)) ∧ range_ok config answer chain latest.2 cs events r new.
Proof.
  intros Hs Hd. destruct (fetch_range_spec config answer chain N latest cs call Hs Hd) as (o & c & -> & Ho).
  exact Ho.
Qed.

(** C2: nothing is fetched twice and nothing is missed. Over any sequence of
    successful fetches, each going on from the cursors of the one before while
    the chain grows, a contract that started at block [h] receives, transaction
    by transaction and in order, exactly its events of the blocks after [h] up
    to the head its cursor ends at. *)
Theorem fetch_exactly_once cs rs cs' a c h :
  fetches config answer chain cs rs cs' →
  cs !! a = Some c → head c = Some h → 0 < h < u64_max → last_pending_block_tx c = None →
  ∃ c' h', cs' !! a = Some c' ∧ head c' = Some h' ∧ h ≤ h' ∧
    ∀ n t, (rs ≫= events_of a n t) = placed (between chain (h + 1) h' a) n t.
Proof.
  intros Hf. revert c h. induction Hf as [cs|N latest call call' cs r new rs cs' Hs Hd Hr Hf IH];
    intros c h Hc Hh Hpos Hp.
  { exists c, h. split_and!; try done. intros n t. unfold between.
    by rewrite (filter_none _ (chain a)) by (apply Forall_forall; intros e _; simpl; lia). }
  destruct (fetch_step config answer chain N latest call call' cs r new a c h Hs Hd Hr Hc Hh Hpos Hp)
    as (c1 & h1 & Hc1 & Hh1 & Hle1 & Hp1 & _ & Hev1).
  destruct (IH c1 h1 Hc1 Hh1) as (c2 & h2 & Hc2 & Hh2 & Hle2 & Hev2); [lia|done|].
  exists c2, h2. split_and!; [done|done|lia|]. intros n t. cbn [mbind list_bind].
  rewrite Hev1, Hev2, (between_split chain (h + 1) h1 h2 a) by
    (try lia; apply (serves_ordered _ _ _ _ _ _ Hs)).
  unfold placed. by rewrite filter_app, fmap_app.
Qed.

(** The block being built is read from where each contract stopped. When the
    node serves the block after the latest one, every contract that is at the
    latest block gets its events of the transactions after the one it processed
    last (none if that one is not in the block), reverted ones excepted, and its
    cursor moves to the last transaction that had any; the other contracts get
    nothing and keep their cursors. It does not panic. *)
Theorem preconfirmed_exact latest (cs : Cursors) call block :
  get_preconfirmed_block call = Some (Some block) →
  pre_block_number block = u64_saturating_add latest 1 →
  NoDup ((λ t : TransactionContent * TransactionReceipt, receipt_hash t.2) <$> pre_transactions block) →
  ∃ res new, fetch_preconfirmed_block config latest cs call = (Ok (Some res, new), S call) ∧
    ∀ a c, cursors cs !! a = Some c →
      preconfirmed_for latest block (fp_transactions res) a c (cursors new !! a).
Proof.
  intros Hg Hn Hnd. unfold fetch_preconfirmed_block. rewrite Hg, Hn, Z.eqb_refl. cbn [negb]. cbv zeta.
  destruct (preconf_transactions_spec config (u64_saturating_add latest 1) _ Hnd) as [Hk Hempty].
  destruct (preconf_contracts_spec latest block (hm_iter (cursors cs))
    (im_from_iter (preconf_transaction config (u64_saturating_add latest 1) <$> pre_transactions block)) cs)
    as (m & new & -> & Hmine & _); [apply NoDup_hm_keys|done|done| |].
  { intros a c Hac. split; [by apply elem_of_hm_iter|]. intros h. by rewrite Hempty. }
  eexists _, _. split; [done|]. intros a c Hac%elem_of_hm_iter%Hmine. unfold preconfirmed_for in *. simpl.
  case_decide; destruct Hac as [? Hm]; (split; [done|]); intros h; by rewrite tx_recorded_retain, Hm.
Qed.

(** The events of transactions as a block of the chain shows them. *)
Definition as_emitted (a : Felt) (n : Z) (t : TransactionContent * TransactionReceipt) : list EmittedEvent :=
  (λ e, mkEmitted (from_address e) (keys e) (data e) (Some n) (receipt_hash t.2)) <$> tx_events a t.

(** What was processed from the block being built is not processed again when
    the block is confirmed. If a contract processed the transactions [L] of the
    block being built and the chain then has their events followed by others,
    the next range skips exactly the events of [L]. *)
Theorem confirmed_after_preconfirmed (a : Felt) (ts n : Z) (c : ContractCursor) L others :
  NoDup ((λ t : TransactionContent * TransactionReceipt, receipt_hash t.2) <$> L) →
  relevant a L ≠ [] →
  (∀ e t, e ∈ others → t ∈ L → transaction_hash e ≠ receipt_hash t.2) →
  new_events (last_pending_block_tx (preconf_cursor a ts c L)) ((L ≫= as_emitted a n) ++ others) = others.
Proof.
  intros Hnd Hne Hoth. unfold preconf_cursor.
  destruct (last (relevant a L)) as [t|] eqn:Hlast; [|by apply last_None in Hlast].
  unfold relevant in Hlast. apply last_filter_Some in Hlast as Hsplit. destruct Hsplit as (L1 & L2 & -> & HL2).
  assert (tx_events a t ≠ []) as Ht.
  { apply last_Some_elem_of in Hlast. by apply list_elem_of_filter in Hlast as [? _]. }
  assert (L2 ≫= as_emitted a n = []) as HL2'.
  { clear -HL2. induction HL2 as [|t2 L2 Ht2 _ IH]; [done|]. cbn [mbind list_bind]. rewrite IH.
    unfold as_emitted. by destruct (tx_events a t2); [|exfalso; apply Ht2]. }
  rewrite bind_app, bind_cons, HL2', app_nil_r, <- app_assoc. simpl.
  set (A := L1 ≫= as_emitted a n). set (T := as_emitted a n t).
  assert (Forall (λ e, transaction_hash e ≠ receipt_hash t.2) A) as HA.
  { apply Forall_forall. intros e (t1 & He & Ht1)%list_elem_of_bind.
    apply list_elem_of_fmap in He as (ev & -> & _). simpl.
    rewrite fmap_app, fmap_cons in Hnd. apply NoDup_app in Hnd as (_ & Hdis & _).
    intros Heq. eapply Hdis; [apply (list_elem_of_fmap_2 (λ t : TransactionContent * TransactionReceipt,
      receipt_hash t.2)), Ht1|]. simpl. rewrite Heq. left. }
  assert (Forall (λ e, transaction_hash e = receipt_hash t.2) T ∧ T ≠ []) as [HT HT'].
  { unfold T, as_emitted. split; [by apply Forall_fmap, Forall_true|]. by destruct (tx_events a t). }
  apply new_events_resume; [done..|]. apply Forall_forall. intros e He. apply Hoth; [done|].
  apply elem_of_app. right. left.
Qed.
End properties.

(** ** Witnesses

    Lists without repeated keys implement the index map; one contract has two
    events, in blocks 2 and 3, and one transaction in the block being built. *)
Section witnesses.

Fixpoint first_keys {V} (l : list (Felt * V)) : list (Felt * V) :=
  match l with
  | [] => []
  | kv :: l => kv :: List.filter (λ kv', bool_decide (kv'.1 ≠ kv.1)) (first_keys l)
  end.

Lemma filter_NoDup_keys {V} (p : Felt * V → bool) l : NoDup l.*1 → NoDup (List.filter p l).*1.
Proof.
  induction l as [|kv l IH]; intros Hnd; [constructor|]. rewrite fmap_cons in Hnd.
  apply NoDup_cons in Hnd as [Hni Hnd]. simpl. destruct (p kv); [|by apply IH].
  rewrite fmap_cons. constructor; [|by apply IH]. intros (kv' & Heq & Hin)%list_elem_of_fmap.
  apply list_elem_of_In, filter_In in Hin as [Hin _]. apply Hni, list_elem_of_fmap. exists kv'.
  by rewrite list_elem_of_In.
Qed.
Lemma first_keys_NoDup {V} (l : list (Felt * V)) : NoDup (first_keys l).*1.
Proof.
  induction l as [|kv l IH]; [constructor|]. cbn [first_keys]. rewrite fmap_cons. constructor; [|by apply filter_NoDup_keys].
  intros (kv' & Heq & Hin)%list_elem_of_fmap. apply list_elem_of_In, filter_In in Hin as [_ Hp].
  by apply bool_decide_eq_true in Hp.
Qed.
Lemma first_keys_id {V} (l : list (Felt * V)) : NoDup l.*1 → first_keys l = l.
Proof.
  induction l as [|kv l IH]; intros Hnd; [done|]. rewrite fmap_cons in Hnd.
  apply NoDup_cons in Hnd as [Hni Hnd]. simpl. rewrite IH by done. f_equal. clear IH Hnd.
  induction l as [|kv' l IH]; [done|]. simpl. rewrite fmap_cons, not_elem_of_cons in Hni.
  rewrite bool_decide_true by naive_solver. f_equal. naive_solver.
Qed.
Lemma assoc_insert_keys {V} k (v : V) l : NoDup l.*1 → NoDup (assoc_insert k v l).*1.
Proof.
  intros Hnd. unfold assoc_insert. case_decide as Hin.
  - rewrite <- list_fmap_compose. rewrite (list_fmap_ext _ fst); [done|].
    intros i kv _. simpl. by case_decide.
  - rewrite fmap_app. apply NoDup_app. split_and!; [done| |apply NoDup_singleton].
    intros x Hx Hk. apply list_elem_of_singleton in Hk. by subst.
Qed.
Lemma assoc_from_keys {V} (l acc : list (Felt * V)) :
  NoDup acc.*1 → NoDup (foldl (λ acc kv, assoc_insert kv.1 kv.2 acc) acc l).*1.
Proof. revert acc. induction l as [|kv l IH]; intros acc Hnd; [done|]. simpl. by apply IH, assoc_insert_keys. Qed.
Lemma assoc_alter_keys {V} (f : V → V) k l : (assoc_alter f k l).*1 = l.*1.
Proof.
  unfold assoc_alter. rewrite <- list_fmap_compose. apply list_fmap_ext. intros i kv _. simpl. by case_decide.
Qed.

Definition list_index_map : IndexMap.
Proof.
  refine {| im V := list (Felt * V); im_iter V := first_keys;
    im_from_iter V l := foldl (λ acc kv, assoc_insert kv.1 kv.2 acc) [] l;
    im_get V k l := assoc_get k (first_keys l);
    im_alter V f k l := assoc_alter f k (first_keys l);
    im_retain V p l := List.filter (λ kv, p kv.2) (first_keys l) |}.
  - intros V m. apply first_keys_NoDup.
  - intros V l. apply first_keys_id, assoc_from_keys. constructor.
  - done.
  - intros V f k m. apply first_keys_id. rewrite assoc_alter_keys. apply first_keys_NoDup.
  - intros V p m. apply first_keys_id, filter_NoDup_keys, first_keys_NoDup.
Defined.
#[local] Existing Instance list_index_map.
#[local] Existing Instance canonical_order.

#[local] Instance demo_types : StarknetTypes :=
  {| Transaction := Felt; TransactionContent := Felt; TransactionReceipt := Felt * list Event;
     tx_hash t := t; tx_into t := t; receipt_hash r := r.1; receipt_events r := r.2;
     receipt_reverted _ := false |}.

Definition demo_chain (a : Felt) : list EmittedEvent :=
  if decide (a = 9) then [mkEmitted 9 [1] [] (Some 2) 5; mkEmitted 9 [2] [] (Some 3) 6] else [].
Definition demo_answer (r : ProviderRequestData) : ProviderResponseData :=
  match r with
  | GetEvents f =>
      REvents (mkPage (filter (λ e, from_block f ≤ block_of e ≤ 3) (demo_chain (filter_address f))) None)
  | GetBlockWithTxHashes n => RBlock (100 + n) [5; 6] n
  | GetTransactionByHash h => RTransaction h
  | GetTransactionReceipt h => RReceipt (mkReceiptInfo (h, []) (RBBlock 0 0))
  end.
Definition demo_block : PreConfirmedBlock :=
  mkPreConfirmed 4 200 [(7, (7, [mkEvent 9 [3] []])); (8, (8, [mkEvent 1 [] []]))].
#[local] Instance demo_node : Node :=
  {| block_hash_and_number _ := Some (77, 3); get_preconfirmed_block _ := Some (Some demo_block);
     batch_requests _ _ _ reqs := Some (demo_answer <$> reqs) |}.
Definition demo_config : FetcherConfig := mkConfig 1 10 10 0 (mkFlags true true true).
Definition demo_cursors : gmap Felt ContractCursor := {[ 9 := mkCursor 9 (Some 1) None None ]}.

Lemma demo_ordered a : ordered (demo_chain a).
Proof.
  unfold demo_chain. case_decide; [|split; constructor]. split.
  - do 2 (apply Forall_cons; split; [by eexists|]). constructor.
  - cbn. repeat (constructor; try (vm_compute; discriminate)).
Qed.

Lemma demo_serves : serves demo_config demo_answer demo_chain 1%nat (77, 3) demo_cursors.
Proof.
  split.
  - by intros call i attempt reqs rs [= <-].
  - done.
  - vm_compute. split; [discriminate|done].
  - apply demo_ordered.
  - intros a e. unfold demo_chain. case_decide; [|by intros Hin; apply elem_of_nil in Hin].
    intros [->|[->|Hin]%elem_of_cons]%elem_of_cons; [vm_compute; discriminate..|by apply elem_of_nil in Hin].
  - intros a e. unfold demo_chain. case_decide; [|by intros Hin; apply elem_of_nil in Hin].
    intros [->|[->|Hin]%elem_of_cons]%elem_of_cons; [done..|by apply elem_of_nil in Hin].
  - intros a c Hc _. unfold demo_cursors in Hc. apply lookup_singleton_Some in Hc as [<- <-].
    vm_compute. split; discriminate.
  - intros a c Hc _. unfold demo_cursors in Hc. apply lookup_singleton_Some in Hc as [<- <-].
    eexists. split; [done|]. reflexivity.
Qed.

Lemma demo_serves_data : serves_data demo_answer demo_chain 3.
Proof.
  split.
  - intros n _. eexists _, _, _. split; [done|]. intros a e. unfold demo_chain.
    case_decide; [|by intros Hin; apply elem_of_nil in Hin].
    intros [->|[->|Hin]%elem_of_cons]%elem_of_cons _; [left|right; left|by apply elem_of_nil in Hin].
  - intros h. by eexists.
  - intros h. by eexists.
Qed.

Lemma fetch_range_exact_witness :
  let o := (fetch_range demo_config 1%nat demo_cursors (77, 3) 0%nat).1 in
  o = Err (BatchRequest ProviderError) ∨
  ∃ events r new, o = Ok (Some (r, new)) ∧
    range_ok demo_config demo_answer demo_chain 3 demo_cursors events r new.
Proof. apply fetch_range_exact; [apply demo_serves|apply demo_serves_data]. Defined.

Lemma fetch_exactly_once_witness :
  ∃ r new call', fetch_range demo_config 1%nat demo_cursors (77, 3) 0%nat = (Ok (Some (r, new)), call') ∧
    ∃ c' h', cursors new !! 9 = Some c' ∧ head c' = Some h' ∧ 1 ≤ h' ∧
      ∀ n t, ([r] ≫= events_of 9 n t) = placed (between demo_chain 2 h' 9) n t.
Proof.
  destruct (fetch_range demo_config 1%nat demo_cursors (77, 3) 0%nat) as [[[[r new]|]|e|] call'] eqn:Hf;
    try (exfalso; vm_compute in Hf; discriminate Hf).
  exists r, new, call'. split; [done|].
  apply (fetch_exactly_once demo_config demo_answer demo_chain demo_cursors [r] (cursors new) 9
    (mkCursor 9 (Some 1) None None) 1).
  - eapply fetches_cons; [apply demo_serves|apply demo_serves_data|exact Hf|apply fetches_nil].
  - done.
  - done.
  - done.
  - done.
Defined.

Lemma preconfirmed_exact_witness :
  ∃ res new, fetch_preconfirmed_block demo_config 3
      (mkCursors ∅ {[ 9 := mkCursor 9 (Some 3) None None ]}) 0%nat = (Ok (Some res, new), 1%nat) ∧
    cursors new !! 9 = Some (mkCursor 9 (Some 3) (Some 200) (Some 7)).
Proof.
  destruct (preconfirmed_exact demo_config 3 (mkCursors ∅ {[ 9 := mkCursor 9 (Some 3) None None ]}) 0%nat demo_block)
    as (res & new & Hf & Hc); [done|done| |].
  { vm_compute. repeat constructor; set_solver. }
  exists res, new. split; [done|]. specialize (Hc 9 _ eq_refl). unfold preconfirmed_for in Hc.
  rewrite decide_True in Hc by done. destruct Hc as [-> _]. reflexivity.
Defined.

Lemma confirmed_after_preconfirmed_witness :
  let others := [mkEmitted 9 [4] [] (Some 4) 10] in
  new_events (last_pending_block_tx
    (preconf_cursor 9 200 (mkCursor 9 (Some 3) None None) (pre_transactions demo_block)))
    ((pre_transactions demo_block ≫= as_emitted 9 4) ++ others) = others.
Proof.
  intros others. apply confirmed_after_preconfirmed.
  - vm_compute. repeat constructor; set_solver.
  - vm_compute. discriminate.
  - intros e t ->%list_elem_of_singleton [->|[->|Hin]%elem_of_cons]%elem_of_cons;
      [discriminate..|by apply elem_of_nil in Hin].
Defined.
End witnesses.

End Fetcher.
