(* ===== verification/Storage.v ===== *)
(** * The storage the engine uses ([crates/storage/src/lib.rs] and its
      implementation in [crates/sqlite/sqlite/src/storage.rs])

    [IndexerStorage] is the part of the [Storage] trait the indexing engine
    calls, with the two views that matter to it: what is committed and what the
    open transaction holds; [IndexerStorageSpec] is what the engine relies on.

    [Sql] implements it by messages to the executor. Most operations only put a
    message in the channel: the executor logs what fails, the sender does not
    learn of it. [update_cursors], [execute] and [rollback] wait for the answer.
    The executor handles messages in the order they were sent, so its state is
    modelled as of the last message sent. Reads go to the pool and see what is
    committed. *)

From S2P Require Import Prelude Math Proto SqlString Traits Database Cache Executor Fetcher.
Import Math.
From stdpp Require Import pretty.
Local Open Scope Z_scope.
Local Open Scope torii_scope.

(** What the engine reads of a contract's row. *)
Record ContractInfo : Type := mkContractInfo {
  info_address : Felt;
  info_type : ContractType;
  info_cursor : ContractCursor
}.

Class IndexerStorage `{StarknetTypes} (S : Type) : Type := {
  contracts : S → outcome StorageError (list ContractInfo);
  token_ids : S → outcome StorageError (gset TokenId);
  store_event : string → Event → Felt → Z → st S StorageError unit;
  store_transaction_receipt : TransactionReceiptWithBlockInfo → Z → st S StorageError unit;
  apply_balances_diff : gmap BalanceId I256 → gmap TokenId I256 → gmap Felt ContractCursor →
    st S StorageError unit;
  update_cursors : gmap Felt ContractCursor → gmap Felt (gset Felt) → st S StorageError unit;
  execute : st S StorageError unit;
  rollback : st S StorageError unit
}.

(** Nothing but [execute] changes what is committed. *)
Class IndexerStorageSpec `{StarknetTypes} (S : Type) `{!IndexerStorage S} : Type := {
  content : Type;
  committed : S → content;
  working : S → content;
  same_committed (s s' : S) : Prop := committed s' = committed s;
  store_event_spec id e h t : keeps same_committed (store_event id e h t);
  store_receipt_spec r t : keeps same_committed (store_transaction_receipt r t);
  apply_balances_spec b t c : keeps same_committed (apply_balances_diff b t c);
  update_cursors_spec c t : keeps same_committed (update_cursors c t);
  rollback_spec : keeps same_committed rollback;
  execute_spec s : committed (execute s).2 = committed s ∨ committed (execute s).2 = working s;
  execute_Ok s s' : execute s = (Ok tt, s') → committed s' = working s ∧ working s' = working s;
  rollback_Ok s s' : rollback s = (Ok tt, s') → committed s' = committed s ∧ working s' = committed s
}.

Module Storage.

(** The parts of a receipt that are stored, as text. *)
Class ReceiptText `{StarknetTypes} : Type := {
  fee_amount : TransactionReceipt → string;
  fee_unit : TransactionReceipt → string;
  finality_status : TransactionReceipt → string;
  revert_reason : TransactionReceipt → option string;
  execution_resources_json : TransactionReceipt → option string;
  (** [format!("{:#x}", felt)] *)
  felt_short_hex : Felt → string;
  utc_dt_string_from_timestamp : Z → string
}.

Section sql.
Context `{ExecutorEnv} `{!StarknetTypes} `{!ReceiptText} {U : U256Ops} {HO : HashOrder}.

(** [alive] is false once the executor's task has panicked: its end of the
    channel is gone. *)
Record Sql : Type := mkSql { executor : Ex.Executor; alive : bool }.

(** [self.executor.send(m)?] *)
Definition send (m : Ex.QueryMessage) : st Sql StorageError unit := λ s,
  if alive s then
    let '(r, x) := Ex.handle_query_message m (executor s) in (Ok tt, mkSql x (negb (is_panic r)))
  else (Err Cache.Sql, s).

(** [send], then [recv.await] *)
Definition request (m : Ex.QueryMessage) : st Sql StorageError unit := λ s,
  if alive s then
    let '(r, x) := Ex.handle_query_message m (executor s) in
    (match r with Ok _ => Ok tt | _ => Err Cache.Sql end, mkSql x (negb (is_panic r)))
  else (Err Cache.Sql, s).

(** [ContractCursor::from(torii_proto::Contract::from(row))] *)
Definition cursor_of_row (c : Contract) : ContractCursor :=
  mkCursor (contract_address c) (Ex.as_u64 <$> contract_head c)
    (Ex.as_u64 <$> contract_last_block_timestamp c) (contract_last_pending_block_tx c).
Definition info_of_row (c : Contract) : ContractInfo :=
  mkContractInfo (contract_address c) (contract_type c) (cursor_of_row c).

(** A read of the pool, which may fail. *)
Definition read_pool {A} (f : Database Rest → A) (s : Sql) : outcome StorageError A :=
  if sql_fails (Ex.clock (executor s)) then Err Cache.Sql else Ok (f (Ex.pool (executor s))).

Definition sql_contracts : Sql → outcome StorageError (list ContractInfo) :=
  read_pool (λ d, info_of_row <$> hm_values (Database.contracts d)).
Definition sql_token_ids : Sql → outcome StorageError (gset TokenId) :=
  read_pool (λ d, dom (tokens d)).

(** The message of [store_event]. *)
Definition store_event_message (event_id : string) (event : Event) (transaction_hash : Felt) (block_timestamp : Z)
  : Ex.QueryMessage :=
  Ex.mkQuery
    "INSERT INTO events (id, keys, data, transaction_hash, executed_at) VALUES (?, ?, ?, ?, ?) ON CONFLICT DO NOTHING RETURNING *"
    [ArgString event_id; ArgString (SqlString.felts_to_sql_string (keys event));
     ArgString (SqlString.felts_to_sql_string (data event)); ArgFieldElement transaction_hash;
     ArgString (utc_dt_string_from_timestamp block_timestamp)] Ex.StoreEvent.
Definition sql_store_event (event_id : string) (event : Event) (transaction_hash : Felt)
    (block_timestamp : Z) : st Sql StorageError unit :=
  send (store_event_message event_id event transaction_hash block_timestamp).

Definition receipt_block (b : ReceiptBlock) : option string * Z :=
  match b with
  | RBBlock hash n => (Some (felt_short_hex hash), n)
  | RBPreConfirmed n => (None, n)
  end.

Definition sql_store_transaction_receipt (receipt_with_block : TransactionReceiptWithBlockInfo)
    (block_timestamp : Z) : st Sql StorageError unit :=
  let receipt := ri_receipt receipt_with_block in
  let! resources := st_lift (ok_or Internal (execution_resources_json receipt)) in
  let execution_status := match revert_reason receipt with None => "SUCCEEDED" | Some _ => "REVERTED" end in
  let '(block_hash, block_number) := receipt_block (ri_block receipt_with_block) in
  let transaction_hash := receipt_hash receipt in
  send (Ex.other_message
    "INSERT INTO transaction_receipts (id, transaction_hash, actual_fee_amount, actual_fee_unit, execution_status, finality_status, revert_reason, execution_resources, block_hash, block_number, block_timestamp) VALUES (?, ?, ?, ?, ?, ?, ?, ?, ?, ?, ?) ON CONFLICT(transaction_hash) DO UPDATE SET actual_fee_amount=excluded.actual_fee_amount, actual_fee_unit=excluded.actual_fee_unit, execution_status=excluded.execution_status, finality_status=excluded.finality_status, revert_reason=excluded.revert_reason, execution_resources=excluded.execution_resources, block_hash=excluded.block_hash, block_number=excluded.block_number, block_timestamp=excluded.block_timestamp RETURNING *"
    [ArgFieldElement transaction_hash; ArgFieldElement transaction_hash; ArgString (fee_amount receipt);
     ArgString (fee_unit receipt); ArgString execution_status; ArgString (finality_status receipt);
     ArgString (default "" (revert_reason receipt)); ArgString resources;
     ArgString (default "" block_hash); ArgString (pretty block_number);
     ArgString (pretty block_timestamp)]).

Definition sql_apply_balances_diff (balances_diff : gmap BalanceId I256)
    (total_supply_diff : gmap TokenId I256) (cursors : gmap Felt ContractCursor) : st Sql StorageError unit :=
  send (Ex.mkQuery "" [] (Ex.ApplyBalanceDiff (Ex.mkApply balances_diff total_supply_diff cursors))).

Definition sql_update_cursors (cursors : gmap Felt ContractCursor)
    (cursor_transactions : gmap Felt (gset Felt)) : st Sql StorageError unit :=
  request (Ex.mkQuery "" [] (Ex.UpdateCursors (Ex.mkUpdateCursors cursors cursor_transactions))).

Definition sql_execute : st Sql StorageError unit := request Ex.execute_message.
Definition sql_rollback : st Sql StorageError unit := request Ex.rollback_message.

#[global] Instance Sql_storage : IndexerStorage Sql :=
  {| contracts := sql_contracts; token_ids := sql_token_ids; store_event := sql_store_event;
     store_transaction_receipt := sql_store_transaction_receipt;
     apply_balances_diff := sql_apply_balances_diff; update_cursors := sql_update_cursors;
     execute := sql_execute; rollback := sql_rollback |}.

(** ** The executor keeps the promise *)

(** What is committed, and what the open transaction holds. *)
Definition sql_committed (s : Sql) : Database Rest := Ex.pool (executor s).
Definition sql_working (s : Sql) : Database Rest :=
  default (Ex.pool (executor s)) (Ex.transaction (executor s)).

Lemma handle_keeps_pool m x : Ex.query_type m ≠ Ex.Execute →
  Ex.pool (Ex.handle_query_message m x).2 = Ex.pool x.
Proof. intros Hm. by destruct (Ex.handle_pool x m) as [|[? _]]. Qed.

Lemma send_keeps m : Ex.query_type m ≠ Ex.Execute →
  keeps (λ s s', sql_committed s' = sql_committed s) (send m).
Proof.
  intros Hm s. unfold send, sql_committed. destruct (alive s); [|done].
  pose proof (handle_keeps_pool m (executor s) Hm) as Hp.
  by destruct (Ex.handle_query_message m (executor s)).
Qed.
Lemma request_keeps m : Ex.query_type m ≠ Ex.Execute →
  keeps (λ s s', sql_committed s' = sql_committed s) (request m).
Proof.
  intros Hm s. unfold request, sql_committed. destruct (alive s); [|done].
  pose proof (handle_keeps_pool m (executor s) Hm) as Hp.
  by destruct (Ex.handle_query_message m (executor s)).
Qed.

Lemma request_Ok m s s' : request m s = (Ok tt, s') →
  ∃ d, Ex.transaction (executor s) = Some d ∧ ∃ x, Ex.dispatch m (executor s) = (Ok tt, x) ∧ executor s' = x.
Proof.
  unfold request, Ex.handle_query_message. destruct (alive s); [|done].
  destruct (Ex.transaction (executor s)) as [d|]; [|done].
  destruct (Ex.dispatch m (executor s)) as [[[]|e|] x]; intros [= <-]. eauto.
Qed.

#[global] Instance Sql_storage_spec : IndexerStorageSpec Sql.
Proof.
  refine {| content := Database Rest; committed := sql_committed; working := sql_working |}.
  - intros id e h t. by apply send_keeps.
  - intros r t s. simpl. unfold sql_store_transaction_receipt, st_bind, st_lift.
    destruct (ok_or _ _); [|done..]. destruct (receipt_block _). by apply send_keeps.
  - intros b t c. by apply send_keeps.
  - intros c t. by apply request_keeps.
  - by apply request_keeps.
  - intros s. simpl. unfold sql_execute, request, sql_committed, sql_working. destruct (alive s); [|by left].
    pose proof (Ex.handle_pool (executor s) Ex.execute_message) as Hp.
    destruct (Ex.handle_query_message Ex.execute_message (executor s)) as [r x]. simpl in *.
    destruct Hp as [Hp|[_ Hp]]; [by left|right]. by rewrite Hp.
  - intros s s' (d & Hd & x & Hx & Hs')%request_Ok. unfold sql_committed, sql_working. rewrite Hs', Hd.
    pose proof (Ex.execute_spec (executor s) d Hd) as He. unfold Ex.dispatch in Hx. simpl in Hx.
    unfold st_map_err in Hx. destruct (Ex.execute (executor s)) as [[[]|e|] x']; simplify_eq/=.
    destruct He as (-> & -> & _). done.
  - intros s s' (d & Hd & x & Hx & Hs')%request_Ok. unfold sql_committed, sql_working. rewrite Hs'.
    pose proof (Ex.rollback_spec (executor s) d Hd) as He. unfold Ex.dispatch in Hx. simpl in Hx.
    unfold st_map_err in Hx. destruct (Ex.rollback (executor s)) as [[[]|e|] x']; simplify_eq/=.
    destruct He as (-> & -> & _). done.
Defined.
End sql.

End Storage.
