(* ===== verification/StorageWrites.v ===== *)
(** * What the processors write ([crates/sqlite/sqlite/src/storage.rs], [lib.rs])

    The operations of the storage the processors call, as the messages they send
    to the executor, in order, up to the error or the panic that ends them. With
    them the SQLite storage implements [ProcessorStorage]. *)

From S2P Require Import Prelude Math Proto EventProcessor SqlString SqlText Database Cache Executor ModelTable World Storage Fetcher.
From stdpp Require Import pretty.
Local Open Scope Z_scope.
Local Open Scope torii_scope.

(** ** Configuration and text *)
Inductive HookEvent : Type :=
| HookRegistered (model_tag : string)
| HookUpdated (model_tag : string)
| HookDeleted (model_tag : string).
Record Hook : Type := mkHook { hook_event : HookEvent; hook_statement : string }.

(** The fields of [SqlConfig] used here. *)
Record WriteConfig : Type := mkWriteConfig {
  wc_all_model_indices : bool;
  wc_model_indices : list ModelTable.ModelIndices;
  wc_historical_models : gset Felt;
  wc_hooks : list Hook
}.

(** Serialisation and hashing by other crates; [Ty] seen as its variants. *)
Class WriteEnv `{ExecutorEnv} `{Primitives} : Type := {
  ty_view : Ty → DTy;
  layout_json : Layout → option string;
  schema_json : Ty → option string;
  metadata_json : WorldMetadata → option string;
  rfc3339 : Z → string;
  utc_now : nat → string;
  poseidon_hash : list Felt → Felt;
  selector_from_names : string → string → Felt;
  (** [SELECT * FROM models WHERE id = ?] on the pool *)
  select_model : Felt → Felt → Database Rest → outcome StorageError (option Model)
}.

Module Writes.

(** [s.split_once('-')] *)
Fixpoint split_once (s : string) : option (string * string) :=
  match s with
  | EmptyString => None
  | String c s =>
      if (Ascii.nat_of_ascii c =? 45)%nat then Some (EmptyString, s)
      else '(a, b) ← split_once s; Some (String c a, b)
  end.

(** ** Messages in order *)
Section writes.
Context `{ExecutorEnv} `{Primitives} {TT : TyText} {WV : WriteEnv} `{!StarknetTypes} `{!Storage.ReceiptText}.

(** The messages sent, and how the operation ended. *)
Definition writes (A : Type) : Type := list Ex.QueryMessage * outcome StorageError A.
Definition w_ret {A} (a : A) : writes A := ([], Ok a).
Definition w_lift {A} (o : outcome StorageError A) : writes A := ([], o).
Definition w_send (m : Ex.QueryMessage) : writes unit := ([m], Ok tt).
Definition w_bind {A B} (m : writes A) (k : A → writes B) : writes B :=
  match m with
  | (ms, Ok a) => (ms ++ (k a).1, (k a).2)
  | (ms, Err e) => (ms, Err e)
  | (ms, Panic) => (ms, Panic)
  end.
#[local] Notation "'let+' x ':=' c 'in' k" := (w_bind c (λ x, k))
  (at level 10, x pattern, c at level 100, k at level 200).
#[local] Notation "c ';+' k" := (w_bind c (λ _, k)) (at level 199, k at level 200, right associativity).
Definition w_all (ms : list Ex.QueryMessage) : writes unit := (ms, Ok tt).

(** [utc_dt_string_from_timestamp] *)
#[local] Abbreviation at_ := Storage.utc_dt_string_from_timestamp.
#[local] Abbreviation scoped := SqlString.format_world_scoped_id.

(** The hooks of an event on a model, each run on one id. *)
Definition run_hooks (hooks : list Hook) (matches : HookEvent → bool) (id : string) : writes unit :=
  w_all ((λ h, Ex.other_message (hook_statement h) [ArgString id]) <$> filter (λ h, matches (hook_event h) = true) hooks).
Definition on_registered (name : string) (e : HookEvent) : bool :=
  match e with HookRegistered tag => String.eqb name tag | _ => false end.
Definition on_updated (name : string) (e : HookEvent) : bool :=
  match e with HookUpdated tag => String.eqb name tag | _ => false end.
Definition on_deleted (name : string) (e : HookEvent) : bool :=
  match e with HookDeleted tag => String.eqb name tag | _ => false end.

Context (config : WriteConfig).
Definition is_historical (sel : Felt) : bool := bool_decide (sel ∈ wc_historical_models config).

(** [serde_json::to_string(..).map_err(..)?] *)
Definition json_or_fail (o : option string) : writes string := w_lift (ok_or Cache.Internal o).

(** ** Models *)
Definition insert_models : string :=
  "INSERT INTO models (id, world_address, model_selector, namespace, name, class_hash, contract_address, layout, legacy_store, schema, packed_size, unpacked_size, executed_at) VALUES (?, ?, ?, ?, ?, ?, ?, ?, ?, ?, ?, ?, ?) ON CONFLICT(id) DO UPDATE SET world_address=EXCLUDED.world_address, model_selector=EXCLUDED.model_selector, contract_address=EXCLUDED.contract_address, class_hash=EXCLUDED.class_hash, layout=EXCLUDED.layout, legacy_store=EXCLUDED.legacy_store, schema=EXCLUDED.schema, packed_size=EXCLUDED.packed_size, unpacked_size=EXCLUDED.unpacked_size, executed_at=EXCLUDED.executed_at RETURNING *".

Definition register_model_writes (world_address sel : Felt) (model : Ty) (lay : Layout)
    (class_hash contract_address : Felt) (packed_size unpacked_size block_timestamp : Z)
    (schema_diff upgrade_diff : option Ty) (legacy_store : bool) : writes unit :=
  let namespaced_name := ty_name model in
  let+ (namespace, name) := w_lift (unwrap (split_once namespaced_name)) in
  let+ layout_str := json_or_fail (layout_json lay) in
  let+ schema_str := json_or_fail (schema_json model) in
  w_send (Ex.mkQuery insert_models
    [ArgString (scoped world_address sel); ArgString (SqlString.felt_to_sql_string world_address);
     ArgString (SqlString.felt_to_sql_string sel); ArgString namespace; ArgString name;
     ArgFieldElement class_hash; ArgFieldElement contract_address; ArgString layout_str; ArgBool legacy_store;
     ArgString schema_str; ArgInt packed_size; ArgInt unpacked_size; ArgString (at_ block_timestamp)]
    Ex.RegisterModel) ;+
  w_all ((λ s, Ex.other_message s []) <$>
    ModelTable.build_model_query (wc_all_model_indices config) (wc_model_indices config) namespaced_name
      (ty_view model) (ty_view <$> schema_diff) (ty_view <$> upgrade_diff)) ;+
  run_hooks (wc_hooks config) (on_registered namespaced_name) (scoped world_address sel).

Definition insert_contract : string :=
  "INSERT INTO contracts (id, contract_address, contract_type, head, updated_at, created_at) VALUES (?, ?, ?, ?, CURRENT_TIMESTAMP, CURRENT_TIMESTAMP) ON CONFLICT(id) DO UPDATE SET contract_type=EXCLUDED.contract_type, head=EXCLUDED.head, updated_at=CURRENT_TIMESTAMP RETURNING *".
(** [impl Display for ContractType] *)
Definition contract_type_to_string (t : ContractType) : string :=
  match t with
  | WORLD => "WORLD" | ERC20 => "ERC20" | ERC721 => "ERC721" | ERC1155 => "ERC1155" | UDC => "UDC" | OTHER => "OTHER"
  end.
Definition register_contract_writes (address : Felt) (ct : ContractType) (head : Z) : writes unit :=
  w_send (Ex.mkQuery insert_contract
    [ArgFieldElement address; ArgFieldElement address; ArgString (contract_type_to_string ct); ArgInt (Ex.as_i64 head)]
    Ex.RegisterContract).

(** ** Entities and event messages *)

(** [self.set_entity_model(..)?] *)
Definition entity_model_writes (now model_name event_id entity_id : string) (entity : Ty) (block_timestamp : Z)
  : writes unit :=
  let+ (s, args) := w_lift (map_err (λ _, Cache.Internal)
    (ModelTable.set_entity_model model_name event_id entity_id (at_ block_timestamp) now (ty_view entity))) in
  w_send (Ex.other_message s args).

Definition insert_entities (with_keys : bool) : string :=
  if with_keys then
    "INSERT INTO entities (id, world_address, entity_id, event_id, executed_at, keys) VALUES (?, ?, ?, ?, ?, ?) ON CONFLICT(id) DO UPDATE SET world_address=EXCLUDED.world_address, updated_at=CURRENT_TIMESTAMP, entity_id=EXCLUDED.entity_id, executed_at=EXCLUDED.executed_at, event_id=EXCLUDED.event_id, keys=EXCLUDED.keys RETURNING *"
  else
    "INSERT INTO entities (id, world_address, entity_id, event_id, executed_at) VALUES (?, ?, ?, ?, ?) ON CONFLICT(id) DO UPDATE SET world_address=EXCLUDED.world_address, updated_at=CURRENT_TIMESTAMP, entity_id=EXCLUDED.entity_id, executed_at=EXCLUDED.executed_at, event_id=EXCLUDED.event_id RETURNING *".
Definition insert_entity_model : string :=
  "INSERT INTO entity_model (entity_id, model_id) VALUES (?, ?) ON CONFLICT(entity_id, model_id) DO NOTHING".

Definition set_entity_writes (now : string) (world_address : Felt) (entity : Ty) (event_id : string)
    (block_timestamp : Z) (entity_id model_selector : Felt) (ks : option (list Felt)) : writes unit :=
  let namespaced_name := ty_name entity in
  let scoped_entity_id := scoped world_address entity_id in
  let scoped_model_id := scoped world_address model_selector in
  let world_address_str := SqlString.felt_to_sql_string world_address in
  let keys_str := SqlString.felts_to_sql_string <$> ks in
  let arguments :=
    [ArgString scoped_entity_id; ArgString world_address_str; ArgString (SqlString.felt_to_sql_string entity_id);
     ArgString event_id; ArgString (at_ block_timestamp)] ++
    match keys_str with Some ks => [ArgString ks] | None => [] end ++ [ArgString world_address_str] in
  w_send (Ex.mkQuery (insert_entities (match keys_str with Some _ => true | None => false end)) arguments
    (Ex.SetEntity (Ex.mkEntityQuery scoped_entity_id scoped_model_id keys_str event_id (at_ block_timestamp)
       (is_historical model_selector) entity))) ;+
  w_send (Ex.other_message insert_entity_model [ArgString scoped_entity_id; ArgString scoped_model_id]) ;+
  entity_model_writes now namespaced_name event_id scoped_entity_id entity block_timestamp ;+
  run_hooks (wc_hooks config) (on_updated namespaced_name) scoped_entity_id.

Definition insert_event_messages : string :=
  "INSERT INTO event_messages (id, world_address, entity_id, keys, event_id, executed_at) VALUES (?, ?, ?, ?, ?, ?) ON CONFLICT(id) DO UPDATE SET updated_at=CURRENT_TIMESTAMP, executed_at=EXCLUDED.executed_at, event_id=EXCLUDED.event_id RETURNING *".
Definition set_event_message_writes (now : string) (world_address : Felt) (entity : Ty) (event_id : string)
    (block_timestamp : Z) (ks : list Felt) : writes unit :=
  let namespaced_name := ty_name entity in
  let+ (model_namespace, name) := w_lift (unwrap (split_once namespaced_name)) in
  let entity_id := poseidon_hash ks in
  let scoped_entity_id := scoped world_address entity_id in
  let model_selector := selector_from_names model_namespace name in
  let scoped_model_id := scoped world_address model_selector in
  let world_address_str := SqlString.felt_to_sql_string world_address in
  let keys_str := SqlString.felts_to_sql_string ks in
  w_send (Ex.mkQuery insert_event_messages
    [ArgString scoped_entity_id; ArgString world_address_str; ArgString (SqlString.felt_to_sql_string entity_id);
     ArgString keys_str; ArgString event_id; ArgString (at_ block_timestamp)]
    (Ex.EventMessage (Ex.mkEventMessage world_address_str scoped_entity_id scoped_model_id keys_str event_id
       (at_ block_timestamp) (is_historical model_selector) entity))) ;+
  entity_model_writes now namespaced_name event_id ("event:" +:+ scoped_entity_id) entity block_timestamp ;+
  run_hooks (wc_hooks config) (on_updated namespaced_name) scoped_entity_id.

Definition delete_entity_writes (world_address entity_id model_id : Felt) (entity : Ty) (event_id : string)
    (block_timestamp : Z) : writes unit :=
  let scoped_entity_id := scoped world_address entity_id in
  let model_table := ty_name entity in
  w_send (Ex.mkQuery ("DELETE FROM [" +:+ model_table +:+ "] WHERE internal_id = ?") [ArgString scoped_entity_id]
    (Ex.DeleteEntity (Ex.mkDelete scoped_entity_id (scoped world_address model_id) event_id (at_ block_timestamp)
       entity))) ;+
  run_hooks (wc_hooks config) (on_deleted model_table) scoped_entity_id.

(** ** Metadata and controllers *)
Definition insert_metadata : string :=
  "INSERT INTO metadata (id, uri, executed_at) VALUES (?, ?, ?) ON CONFLICT(id) DO UPDATE SET id=excluded.id, executed_at=excluded.executed_at, updated_at=CURRENT_TIMESTAMP".
Definition set_metadata_writes (resource : Felt) (uri : string) (block_timestamp : Z) : writes unit :=
  w_send (Ex.other_message insert_metadata
    [ArgFieldElement resource; ArgString uri; ArgString (at_ block_timestamp)]).

Definition update_metadata_writes (resource : Felt) (uri : string) (m : WorldMetadata)
    (icon_img cover_img : option string) : writes unit :=
  let+ json := w_lift (unwrap (metadata_json m)) in
  let optional (col : string) (o : option string) : list (string * list Argument) :=
    match o with Some x => [(col, [ArgString x])] | None => [] end in
  let update := [("uri=?", [ArgString uri]); ("json=?", [ArgString json]); ("updated_at=CURRENT_TIMESTAMP", [])] ++
    optional "icon_img=?" icon_img ++ optional "cover_img=?" cover_img in
  w_send (Ex.other_message ("UPDATE metadata SET " +:+ SqlString.join "," update.*1 +:+ " WHERE id = ?")
    (concat update.*2 ++ [ArgFieldElement resource])).

Definition newline : string := String (Ascii.ascii_of_nat 10) EmptyString.
(** The literal spans several lines. *)
Definition insert_controller : string :=
  newline +:+ "            INSERT INTO controllers (id, username, address, deployed_at)" +:+
  newline +:+ "            VALUES (?, ?, ?, ?)" +:+
  newline +:+ "            ON CONFLICT(id) DO UPDATE SET" +:+
  newline +:+ "                username=EXCLUDED.username," +:+
  newline +:+ "                address=EXCLUDED.address," +:+
  newline +:+ "                deployed_at=EXCLUDED.deployed_at" +:+
  newline +:+ "            RETURNING *".
Definition add_controller_writes (username address : string) (timestamp : Z) : writes unit :=
  w_send (Ex.other_message insert_controller
    [ArgString username; ArgString username; ArgString address; ArgString (rfc3339 timestamp)]).

(** ** Tokens *)
Definition register_token_contract_writes (contract_address : Felt) (name symbol : string) (decimals : Z)
    (metadata : option string) : writes unit :=
  w_send (Ex.mkQuery "" [] (Ex.RegisterTokenContract (Ex.mkRegisterContract contract_address name symbol decimals metadata))).
Definition register_nft_token_writes (contract_address : Felt) (token_id : U256) (metadata : string) : writes unit :=
  w_send (Ex.mkQuery "" [] (Ex.RegisterNftToken (Ex.mkRegisterNft contract_address token_id metadata))).
Definition update_token_metadata_writes (token_id : TokenId) (metadata : string) : writes unit :=
  w_send (Ex.mkQuery "" [] (Ex.UpdateTokenMetadata (Ex.mkUpdateMetadata token_id metadata))).
Definition insert_transfer : string :=
  "INSERT INTO token_transfers (id, contract_address, from_address, to_address, amount, token_id, event_id, executed_at) VALUES (?, ?, ?, ?, ?, ?, ?, ?) ON CONFLICT DO NOTHING RETURNING *".
Definition store_token_transfer_writes (token_id : TokenId) (from to : Felt) (amount : U256) (block_timestamp : Z)
    (event_id : string) : writes unit :=
  w_send (Ex.mkQuery insert_transfer
    [ArgString (event_id +:+ ":" +:+ Ex.token_id_to_string token_id);
     ArgFieldElement (token_contract_address token_id); ArgFieldElement from; ArgFieldElement to;
     ArgString (SqlString.u256_to_sql_string amount); ArgString (Ex.token_id_to_string token_id);
     ArgString event_id; ArgString (at_ block_timestamp)] Ex.StoreTokenTransfer).

(** ** Transactions *)
Definition insert_transactions : string :=
  "INSERT INTO transactions (id, transaction_hash, sender_address, calldata, max_fee, signature, nonce, transaction_type, executed_at, block_number) VALUES (?, ?, ?, ?, ?, ?, ?, ?, ?, ?) ON CONFLICT DO UPDATE SET transaction_hash=excluded.transaction_hash RETURNING *".
Definition store_transaction_writes (tx sender : Felt) (cd : list Felt) (fee : Felt) (sig : list Felt)
    (n : Felt) (block_number : Z) (contract_addresses : gset Felt) (ty : string) (block_timestamp : Z)
    (calls : list TransactionCall) (unique_models : gset Felt) : writes unit :=
  w_send (Ex.mkQuery insert_transactions
    [ArgFieldElement tx; ArgFieldElement tx; ArgFieldElement sender; ArgString (SqlString.felts_to_sql_string cd);
     ArgFieldElement fee; ArgString (SqlString.felts_to_sql_string sig); ArgFieldElement n; ArgString ty;
     ArgString (at_ block_timestamp); ArgString (pretty block_number)]
    (Ex.StoreTransaction (Ex.mkStoreTransaction contract_addresses calls unique_models))).

(** ** Starting up *)
Record ContractDefinition : Type := mkDefinition {
  def_address : Felt; def_type : ContractType; def_starting_block : option Z
}.
Definition insert_definition : string :=
  "INSERT OR IGNORE INTO contracts (id, contract_address, contract_type, updated_at) VALUES (?, ?, ?, CURRENT_TIMESTAMP)".
(** The messages of [new_with_config], before [execute]. *)
Definition new_writes (contracts : list ContractDefinition) : list Ex.QueryMessage :=
  (λ c, Ex.other_message insert_definition
     [ArgFieldElement (def_address c); ArgFieldElement (def_address c);
      ArgString (contract_type_to_string (def_type c));
      ArgInt (Ex.as_i64 (match def_starting_block c with Some b => u64_sub b 1 | None => 0 end))]) <$> contracts.

(** ** The storage *)
Context {U : U256Ops} {HO : HashOrder}.

(** Sends the messages one by one, then returns what the operation returned. *)
Definition run_writes (w : writes unit) : st Storage.Sql StorageError unit :=
  for_each Storage.send w.1 ;;; st_lift w.2.
(** The clock when the operation starts. *)
Definition timed (f : string → writes unit) : st Storage.Sql StorageError unit := λ s,
  run_writes (f (utc_now (Ex.clock (Storage.executor s)))) s.

Definition sql_processor_storage : ProcessorStorage Storage.Sql := {|
  model_row s world_address sel := select_model world_address sel (Ex.pool (Storage.executor s));
  register_model a b c d e f g h i j k l := run_writes (register_model_writes a b c d e f g h i j k l);
  register_contract a b c := run_writes (register_contract_writes a b c);
  set_entity a b c d e f g := timed (λ now, set_entity_writes now a b c d e f g);
  set_event_message a b c d e := timed (λ now, set_event_message_writes now a b c d e);
  delete_entity a b c d e f := run_writes (delete_entity_writes a b c d e f);
  set_metadata a b c := run_writes (set_metadata_writes a b c);
  update_metadata a b c d e := run_writes (update_metadata_writes a b c d e);
  add_controller a b c := run_writes (add_controller_writes a b c);
  register_token_contract a b c d e := run_writes (register_token_contract_writes a b c d e);
  register_nft_token a b c := run_writes (register_nft_token_writes a b c);
  update_token_metadata a b := run_writes (update_token_metadata_writes a b);
  store_token_transfer a b c d e f := run_writes (store_token_transfer_writes a b c d e f);
  store_transaction a b c d e f g h i j k l := run_writes (store_transaction_writes a b c d e f g h i j k l)
|}.
End writes.


(** ** Placeholders *)
Section placeholders.
Context `{Primitives} {TT : TyText}.

(** No member or option of the type has a [?] in its name. *)
Fixpoint plain_names (t : DTy) : Prop :=
  match t with
  | TyStruct _ ms =>
      (fix go ms := match ms with
       | [] => True
       | (x, t, _) :: ms => placeholders x = 0%nat ∧ plain_names t ∧ go ms
       end) ms
  | TyEnum _ _ os =>
      (fix go os := match os with
       | [] => True
       | (x, t) :: os => placeholders x = 0%nat ∧ plain_names t ∧ go os
       end) os
  | TyTuple ts => (fix go ts := match ts with [] => True | t :: ts => plain_names t ∧ go ts end) ts
  | _ => True
  end.

Definition plain_columns (r : outcome ExecutorQueryError (list (string * Argument))) : Prop :=
  match r with Ok l => Forall (λ c, placeholders c = 0%nat) l.*1 | _ => True end.
Lemma plain_columns_app r1 r2 : plain_columns r1 → plain_columns r2 →
  plain_columns (let? a := r1 in let? b := r2 in Ok (a ++ b)).
Proof. destruct r1, r2; simpl; try done. rewrite fmap_app, Forall_app. done. Qed.

Lemma quoted_plain c : placeholders c = 0%nat → placeholders (ModelTable.quoted c) = 0%nat.
Proof. intros Hc. unfold ModelTable.quoted. by rewrite !placeholders_app, Hc. Qed.
Lemma child_column_plain p x : placeholders p = 0%nat → placeholders x = 0%nat →
  placeholders (ModelTable.child_column p x) = 0%nat.
Proof. intros Hp Hx. unfold ModelTable.child_column. case_decide; [done|]. by rewrite !placeholders_app, Hp, Hx. Qed.

Lemma collect_plain t : ∀ prefix, plain_names t → placeholders prefix = 0%nat →
  plain_columns (ModelTable.collect_members prefix t).
Proof.
  induction t as [q|n ms IH|n o os IH|ts IH|ts _|ts l _|b] using ModelTable.DTy_ind'; intros prefix Hn Hp;
    cbn [ModelTable.collect_members].
  - constructor; [by apply quoted_plain|constructor].
  - simpl in Hn. induction IH as [|[[x t] k] ms Ht _ IHms]; [constructor|]. destruct Hn as (Hx & Ht' & Hn).
    apply plain_columns_app; [|by apply IHms]. apply Ht; [done|]. by apply child_column_plain.
  - assert (placeholders (ModelTable.quoted prefix) = 0%nat) as Hq by by apply quoted_plain.
    destruct o as [i|]; [|by constructor; [|constructor]]. generalize (enum_sql_value n (Some i) os). intros val.
    simpl in Hn. revert i. induction IH as [|[x t] os Ht _ IHos]; intros i; [done|]. destruct Hn as (Hx & Ht' & Hn).
    destruct i as [|i]; [|by apply IHos]. destruct (ModelTable.is_empty_tuple t); [by constructor; [|constructor]|].
    specialize (Ht (prefix +:+ "." +:+ x) Ht'). cbn in Ht. destruct (ModelTable.collect_members _ t); [|done..].
    constructor; [done|]. apply Ht. by rewrite !placeholders_app, Hp, Hx.
  - simpl in Hn. generalize 0%nat. induction IH as [|t ts Ht _ IHts]; intros j; [constructor|].
    destruct Hn as [Ht' Hn]. apply plain_columns_app; [|by apply IHts]. apply Ht; [done|].
    apply child_column_plain; [done|apply pretty_plain].
  - destruct (values_json ts); [done|]. constructor; [by apply quoted_plain|constructor].
  - destruct (values_json ts); [done|]. constructor; [by apply quoted_plain|constructor].
  - constructor; [by apply quoted_plain|constructor].
Qed.

(** The statement that writes a value has a place for each argument. *)
Lemma set_entity_model_bound name event_id entity_id at_ now t s args :
  placeholders name = 0%nat → plain_names t →
  ModelTable.set_entity_model name event_id entity_id at_ now t = Ok (s, args) →
  placeholders s = length args.
Proof.
  intros Hname Hn. unfold ModelTable.set_entity_model, ModelTable.entity_model_columns.
  pose proof (collect_plain t EmptyString Hn eq_refl) as Hc.
  destruct (ModelTable.collect_members EmptyString t) as [l|e|]; cbn [outcome_bind]; [|done|done].
  intros [= <- <-]. cbn [plain_columns] in Hc.
  match goal with |- context [ModelTable.insert_statement name ?c ?n] => set (cols := c); set (k := n) end.
  assert (Forall (λ c, placeholders c = 0%nat) cols) as Hcols.
  { unfold cols. do 5 (apply Forall_cons; split; [by try destruct (ModelTable.starts_with_event entity_id)|]). done. }
  unfold ModelTable.insert_statement. rewrite !placeholders_app, Hname, join_marks by done.
  rewrite (join_plain "," cols), (join_plain ", ") by
    (done || (apply Forall_fmap, Forall_drop; eapply Forall_impl; [exact Hcols|]; intros c Hx; simpl;
              by rewrite !placeholders_app, Hx)).
  change (placeholders "INSERT INTO [") with 0%nat. change (placeholders "] (") with 0%nat.
  change (placeholders ") VALUES (") with 0%nat.
  change (placeholders ") ON CONFLICT(internal_id) DO UPDATE SET ") with 0%nat.
  rewrite Nat.add_0_r. reflexivity.
Qed.
End placeholders.


(** ** The committed database *)
Section committed.
Context `{ExecutorEnv} `{Primitives} {TT : TyText} {WV : WriteEnv} `{!StarknetTypes} `{!Storage.ReceiptText}.
Context {U : U256Ops} {HO : HashOrder} (config : WriteConfig).

Lemma w_bind_messages {A B} (m : writes A) (k : A → writes B) P :
  Forall P m.1 → (∀ a, m.2 = Ok a → Forall P (k a).1) → Forall P (w_bind m k).1.
Proof.
  destruct m as [ms [a|e|]]; cbn; [|done..]. intros Hm Hk. apply Forall_app. auto.
Qed.

Definition same_pool (s s' : Storage.Sql) : Prop := Storage.sql_committed s' = Storage.sql_committed s.
#[global] Instance same_pool_preorder : PreOrder same_pool.
Proof. split; unfold same_pool; [by intros s|intros s1 s2 s3; congruence]. Qed.

(** Messages that do not commit. *)
Definition no_commit (m : Ex.QueryMessage) : Prop := Ex.query_type m ≠ Ex.Execute.
Lemma run_writes_keeps w : Forall no_commit w.1 → keeps same_pool (run_writes w).
Proof.
  intros Hw. unfold run_writes. apply keeps_bind; [exact _| |intros _; apply keeps_lift; exact _].
  apply keeps_for_each_in; [exact _|]. intros m Hm. apply Storage.send_keeps. exact (proj1 (Forall_forall _ _) Hw m Hm).
Qed.
Lemma hooks_no_commit hs f id : Forall no_commit (run_hooks hs f id).1.
Proof. apply Forall_fmap, Forall_true. done. Qed.
Lemma entity_model_no_commit now n e i t ts : Forall no_commit (entity_model_writes now n e i t ts).1.
Proof. unfold entity_model_writes. apply w_bind_messages; [constructor|]. intros [s args] _. by repeat constructor. Qed.

(** Splits a list of messages along the code that sends it. *)
Ltac no_commit :=
  repeat first
    [ apply hooks_no_commit | apply entity_model_no_commit
    | apply Forall_fmap, Forall_true; done
    | solve [repeat (constructor; try done)]
    | apply w_bind_messages; [|intros ? _]
    | match goal with |- Forall _ (let '(_, _) := ?x in _).1 => destruct x end ].

#[global] Instance sql_writes_spec :
  @ProcessorStorageSpec _ Storage.Sql (sql_processor_storage config) same_pool.
Proof.
  split; intros; try (apply run_writes_keeps);
    try (intros s; apply run_writes_keeps);
    unfold register_model_writes, set_entity_writes, set_event_message_writes, delete_entity_writes,
      update_metadata_writes; no_commit.
Qed.
End committed.

(** ** Properties *)
Section properties.
Context `{ExecutorEnv} `{Primitives} {TT : TyText} {WV : WriteEnv} `{!StarknetTypes} `{!Storage.ReceiptText}.
Context {U : U256Ops} {HO : HashOrder} (config : WriteConfig).

(** As many places as arguments, or one argument too many. *)
Definition bound (m : Ex.QueryMessage) : Prop := placeholders (Ex.statement m) = length (Ex.arguments m).
Definition unbound (m : Ex.QueryMessage) : Prop := length (Ex.arguments m) = S (placeholders (Ex.statement m)).

Definition hooks_bound : Prop := Forall (λ h, placeholders (hook_statement h) = 1%nat) (wc_hooks config).

Lemma hook_messages_bound f id : hooks_bound → Forall bound (run_hooks (wc_hooks config) f id).1.
Proof.
  intros Hh. cbn. apply Forall_fmap. apply Forall_forall. intros h [_ Hin]%list_elem_of_filter.
  unfold bound. cbn. by apply (Forall_forall (λ h, placeholders (hook_statement h) = 1%nat) (wc_hooks config)).
Qed.

Lemma entity_model_bound now name event_id entity_id entity t :
  placeholders name = 0%nat → plain_names (ty_view entity) →
  Forall bound (entity_model_writes now name event_id entity_id entity t).1.
Proof.
  intros Hn Hp. unfold entity_model_writes. apply w_bind_messages; [constructor|]. intros [s args] Ho.
  cbn in Ho |- *. constructor; [|constructor]. unfold bound. cbn.
  eapply set_entity_model_bound; [exact Hn|exact Hp|].
  destruct (ModelTable.set_entity_model _ _ _ _ _ _) as [[s' args']|e|] eqn:Hs; [|done..].
  injection Ho as -> ->. exact Hs.
Qed.

(** Every statement the indexer sends has one place for each value sent with
    it: those that write event messages, deletions, metadata, controllers,
    tokens, transfers, transactions and registered contracts, the rows of models
    and the hooks. There are two exceptions, which bind one value too many: the
    statement of an entity is given the address of the world twice, and the
    statement that registers the configured contracts at start-up is given the
    block to start from without a place, or a column, for it. *)
Theorem messages_bound (now uri id name symbol ty : string) (a b c d n block : Felt) (ts amount head decimals : Z)
    (entity : Ty) (lay : Layout) (m : WorldMetadata) (icon cover meta : option string) (ks : list Felt)
    (keys_ : option (list Felt)) (t : TokenId) (ct : ContractType) (cs : gset Felt) (calls : list TransactionCall)
    (defs : list ContractDefinition) :
  hooks_bound → placeholders (ty_name entity) = 0%nat → plain_names (ty_view entity) →
  Forall bound (set_event_message_writes config now a entity id ts ks).1 ∧
  Forall bound (delete_entity_writes config a b c entity id ts).1 ∧
  Forall bound (set_metadata_writes a uri ts).1 ∧
  Forall bound (update_metadata_writes a uri m icon cover).1 ∧
  Forall bound (add_controller_writes name id ts).1 ∧
  Forall bound (register_token_contract_writes a name symbol decimals meta).1 ∧
  Forall bound (store_token_transfer_writes t a b amount ts id).1 ∧
  Forall bound (store_transaction_writes a b ks c ks n block cs ty ts calls cs).1 ∧
  Forall bound (register_contract_writes a ct head).1 ∧
  (∀ q, (register_model_writes config a b entity lay c d head head ts None None true).1 !! 0%nat = Some q → bound q) ∧
  (∃ q rest, (set_entity_writes config now a entity id ts b c keys_).1 = q :: rest ∧ unbound q ∧ Forall bound rest) ∧
  Forall unbound (new_writes defs).
Proof.
  intros Hh Hname Hp. split_and!; try (repeat constructor; fail).
  - unfold set_event_message_writes. apply w_bind_messages; [constructor|]. intros [ns nm] _.
    apply w_bind_messages; [repeat constructor|]. intros _ _. apply w_bind_messages; [by apply entity_model_bound|].
    intros _ _. by apply hook_messages_bound.
  - unfold delete_entity_writes. apply w_bind_messages; [|intros; by apply hook_messages_bound].
    constructor; [|constructor]. unfold bound. cbn [Ex.statement Ex.arguments]. by rewrite !placeholders_app, Hname.
  - unfold update_metadata_writes. apply w_bind_messages; [constructor|]. intros json _.
    constructor; [|constructor]. by destruct icon, cover.
  - intros q. unfold register_model_writes. destruct (split_once _) as [[ns nm]|]; [|done].
    destruct (layout_json lay) as [l|]; [|done]. destruct (schema_json entity) as [sj|]; [|done].
    cbn. by intros [= <-].
  - eexists _, _. split; [reflexivity|]. split; [by destruct keys_|].
    apply w_bind_messages; [repeat constructor|]. intros _ _. apply w_bind_messages; [by apply entity_model_bound|].
    intros _ _. by apply hook_messages_bound.
  - unfold new_writes. apply Forall_fmap, Forall_true. intros x. reflexivity.
Qed.
End properties.

(** ** Witnesses *)
Definition demo_text : @Storage.ReceiptText Fetcher.demo_types :=
  {| Storage.fee_amount _ := ""; Storage.fee_unit _ := ""; Storage.finality_status _ := "";
     Storage.revert_reason _ := None; Storage.execution_resources_json _ := Some "";
     Storage.felt_short_hex _ := ""; Storage.utc_dt_string_from_timestamp _ := "" |}.
(** Every model has one member, [x]. *)
Definition demo_write_env : @WriteEnv Ex.ok_env ModelTable.demo_prims :=
  {| ty_view _ := TyStruct "game-Moves" [("x", ModelTable.prim 3, false)];
     layout_json _ := Some "[]"; schema_json _ := Some "{}"; metadata_json _ := Some "{}";
     rfc3339 _ := ""; utc_now _ := ""; poseidon_hash _ := 0; selector_from_names _ _ := 0;
     select_model _ _ _ := Ok None |}.
#[local] Existing Instances Ex.ok_env ModelTable.demo_prims ModelTable.demo_text demo_write_env Fetcher.demo_types demo_text.
Definition demo_config : WriteConfig :=
  mkWriteConfig false [] ∅ [mkHook (HookUpdated "game-Moves") "UPDATE t SET n = 1 WHERE id = ?"].

Lemma messages_bound_witness :
  length (set_event_message_writes demo_config "now" 1 "game-Moves" "e" 100 [5]).1 = 3%nat ∧
  Forall bound (set_event_message_writes demo_config "now" 1 "game-Moves" "e" 100 [5]).1.
Proof.
  split; [vm_compute; reflexivity|].
  refine (proj1 (messages_bound demo_config "now" "" "e" "" "" "" 1 0 0 0 0 0 100 0 0 0 "game-Moves" tt tt None None
    None [5] None (TokenContract 0) WORLD ∅ [] [] _ _ _)).
  - repeat constructor.
  - reflexivity.
  - repeat split.
Defined.

End Writes.
