(* ===== verification/Query.v ===== *)
(** * Queries and pages ([crates/sqlite/sqlite/src/query.rs], [cursor.rs])

    A read of the storage is the text of a statement with the values bound to its
    placeholders, put together by a [QueryBuilder]; [execute_paginated_query] adds
    the conditions of the cursor, the order and the limit, and returns a page of
    rows with the cursor of the next one.

    SQLite behind [sqlx] is a parameter ([Sqlx], [Pool]), and so are the compression
    and the base 64 of cursors ([CursorCodec]). What SQLite answers to the statements
    of a paginated query is the hypothesis [ordered_table]. *)

From S2P Require Import Prelude Proto SqlString SqlText ModelTable Wire Messages Aggregator.
From stdpp Require Import pretty.
From Stdlib Require Import Ascii.
Local Open Scope Z_scope.
Local Open Scope torii_scope.

(** ** SQLite *)
Inductive IntKind : Type := I8 | I16 | I32 | I64 | U8 | U16 | U32 | U64.

(** [row.try_get::<T, _>(column)] for the types the code asks for. An [Option] is
    [None] for a null; a [f64] is the integer of its bits. *)
Class Sqlx : Type := {
  SqliteRow : Type;
  SqlxError : Type;
  sqlx_text : SqlxError → string;
  row_string : SqliteRow → string → SqlxError + string;
  row_int : IntKind → SqliteRow → string → SqlxError + Z;
  row_bool : SqliteRow → string → SqlxError + bool;
  row_time : SqliteRow → string → SqlxError + DateTime;
  row_f64 : SqliteRow → string → SqlxError + Z;
  (** whether the column holds a null; an error when there is no such column *)
  row_null : SqliteRow → string → SqlxError + bool
}.
Definition row_i64 `{Sqlx} : SqliteRow → string → SqlxError + Z := row_int I64.

(** A statement with its bound values, run on the database at hand. *)
Class Pool `{Sqlx} : Type := { fetch_all : string → list string → SqlxError + list SqliteRow }.

(** ** Compression of cursors *)
Class CursorCodec : Type := {
  Encoder : Type;
  (** [encoder.write_all(bytes)], [encoder.finish()], [decoder.read_to_string(..)] *)
  deflate_write : string → string + Encoder;
  deflate_finish : Encoder → string + Bytes;
  inflate_to_string : Bytes → string + string;
  base64_encode : Bytes → string;
  base64_decode : string → string + Bytes
}.
Class CursorCodecSpec (C : CursorCodec) : Prop := {
  deflate_inflate s : ∃ e b, deflate_write s = inr e ∧ deflate_finish e = inr b ∧
    Forall (λ x, 0 ≤ x < 256) b ∧ inflate_to_string b = inr s;
  base64_round b : Forall (λ x, 0 ≤ x < 256) b → base64_decode (base64_encode b) = inr b
}.

Module Query.
Import Msg.

(** ** Errors ([crates/sqlite/sqlite/src/error.rs]) *)
Inductive QueryError : Type :=
| UnsupportedQuery (what : string)
| MissingParam (what : string)
| UnsupportedValue (what : string)
| QueryModelNotFound (what : string)
| SqliteJoinLimit
| InvalidNamespacedModel (what : string)
| InvalidCursor (what : string).

Inductive ParseError : Type :=
| ParseFromStr
| ParseInt
| FromJsonStr
| InvalidFixedSizeArray (what : string)
| InvalidWorldScopedId (what : string).

Inductive Error `{Sqlx} : Type :=
| ErrProto (e : ProtoError)
| ErrParse (e : ParseError)
| ErrSql (e : SqlxError)
| ErrQuery (e : QueryError)
| ErrPrimitive
| ErrEnum
| ErrModelNotFound (world_address selector : Felt).

(** [r?] on a result of [sqlx] *)
Definition sql {A} `{Sqlx} (r : SqlxError + A) : outcome Error A :=
  match r with inl e => Err (ErrSql e) | inr a => Ok a end.

(** ** The query builder *)
Record QueryBuilder : Type := mkQueryBuilder {
  table_name : string;
  table_alias : string;
  selections : list string;
  joins : list string;
  where_conditions : list string;
  bind_values : list string;
  order_fields : list string;
  qb_group_by : option string;
  having_clause : option string;
  qb_limit : option Z
}.

Definition new (table : string) : QueryBuilder := mkQueryBuilder table "" [] [] [] [] [] None None None.
Definition alias (a : string) (q : QueryBuilder) : QueryBuilder :=
  mkQueryBuilder (table_name q) a (selections q) (joins q) (where_conditions q) (bind_values q) (order_fields q)
    (qb_group_by q) (having_clause q) (qb_limit q).
Definition select (columns : list string) (q : QueryBuilder) : QueryBuilder :=
  mkQueryBuilder (table_name q) (table_alias q) (selections q ++ columns) (joins q) (where_conditions q)
    (bind_values q) (order_fields q) (qb_group_by q) (having_clause q) (qb_limit q).
Definition add_join (clause : string) (q : QueryBuilder) : QueryBuilder :=
  mkQueryBuilder (table_name q) (table_alias q) (selections q) (joins q ++ [clause]) (where_conditions q)
    (bind_values q) (order_fields q) (qb_group_by q) (having_clause q) (qb_limit q).
Definition where_clause (condition : string) (q : QueryBuilder) : QueryBuilder :=
  mkQueryBuilder (table_name q) (table_alias q) (selections q) (joins q) (where_conditions q ++ [condition])
    (bind_values q) (order_fields q) (qb_group_by q) (having_clause q) (qb_limit q).
Definition bind_value (value : string) (q : QueryBuilder) : QueryBuilder :=
  mkQueryBuilder (table_name q) (table_alias q) (selections q) (joins q) (where_conditions q)
    (bind_values q ++ [value]) (order_fields q) (qb_group_by q) (having_clause q) (qb_limit q).
Definition direction_str (d : OrderDirection) : string := match d with Asc => "ASC" | Desc => "DESC" end.
Definition order_by (field : string) (d : OrderDirection) (q : QueryBuilder) : QueryBuilder :=
  mkQueryBuilder (table_name q) (table_alias q) (selections q) (joins q) (where_conditions q) (bind_values q)
    (order_fields q ++ [field +:+ " " +:+ direction_str d]) (qb_group_by q) (having_clause q) (qb_limit q).
Definition group_by (field : string) (q : QueryBuilder) : QueryBuilder :=
  mkQueryBuilder (table_name q) (table_alias q) (selections q) (joins q) (where_conditions q) (bind_values q)
    (order_fields q) (Some field) (having_clause q) (qb_limit q).
Definition having (clause : string) (q : QueryBuilder) : QueryBuilder :=
  mkQueryBuilder (table_name q) (table_alias q) (selections q) (joins q) (where_conditions q) (bind_values q)
    (order_fields q) (qb_group_by q) (Some clause) (qb_limit q).
Definition limit (n : Z) (q : QueryBuilder) : QueryBuilder :=
  mkQueryBuilder (table_name q) (table_alias q) (selections q) (joins q) (where_conditions q) (bind_values q)
    (order_fields q) (qb_group_by q) (having_clause q) (Some n).

(** A part of the statement that is left out when there is nothing to say. *)
Definition clause_text (keyword separator : string) (parts : list string) : string :=
  match parts with [] => EmptyString | _ => keyword +:+ SqlString.join separator parts end.
Definition optional_text {A} (keyword : string) (show : A → string) (o : option A) : string :=
  match o with Some a => keyword +:+ show a | None => EmptyString end.

Definition build (q : QueryBuilder) : string :=
  "SELECT " +:+ SqlString.join ", " (selections q) +:+ " FROM [" +:+ table_name q +:+ "] " +:+ table_alias q +:+
  clause_text " " " " (joins q) +:+
  clause_text " WHERE " " AND " (where_conditions q) +:+
  optional_text " GROUP BY " id (qb_group_by q) +:+
  optional_text " HAVING " id (having_clause q) +:+
  clause_text " ORDER BY " ", " (order_fields q) +:+
  optional_text " LIMIT " (pretty : Z → string) (qb_limit q).

(** ** Cursors *)
Definition CURSOR_DELIMITER : ascii := ascii_of_nat 31.

Section cursors.
Context `{Sqlx} {C : CursorCodec}.

Definition invalid_cursor {A} (what : string) (r : string + A) : outcome Error A :=
  match r with inl e => Err (ErrQuery (InvalidCursor (what +:+ e))) | inr a => Ok a end.

Definition encode_cursor (value : string) : outcome Error string :=
  let? encoder := invalid_cursor "Cursor compression error: " (deflate_write value) in
  let? compressed_bytes := invalid_cursor "Cursor compression finish error: " (deflate_finish encoder) in
  Ok (base64_encode compressed_bytes).

Definition decode_cursor (encoded_cursor : string) : outcome Error string :=
  let? compressed_cursor_bytes := invalid_cursor "Base64 decode error: " (base64_decode encoded_cursor) in
  invalid_cursor "Decompression error: " (inflate_to_string compressed_cursor_bytes).

Definition encode_cursor_values (values : list string) : outcome Error string :=
  encode_cursor (SqlString.join (String CURSOR_DELIMITER EmptyString) values).

Definition decode_cursor_values (cursor_str : string) : outcome Error (list string) :=
  let? decompressed_str := decode_cursor cursor_str in
  if String.eqb decompressed_str EmptyString then Ok [] else Ok (SqlString.split CURSOR_DELIMITER decompressed_str).

Definition cursor_operator (o : OrderDirection) (d : PaginationDirection) : string :=
  match o, d with Asc, Forward | Desc, Backward => ">" | Asc, Backward | Desc, Forward => "<" end.

(** The condition of the order field [ob] after the fields [prev]. *)
Definition cursor_condition (d : PaginationDirection) (prev : list OrderBy) (ob : OrderBy) : string :=
  let operator := cursor_operator (order_direction ob) d in
  match prev with
  | [] => "[" +:+ order_field ob +:+ "] " +:+ operator +:+ " ?"
  | _ =>
      "(" +:+ SqlString.join " AND " ((λ p, "[" +:+ order_field p +:+ "] = ?") <$> prev) +:+
      " AND [" +:+ order_field ob +:+ "] " +:+ operator +:+ " ?)"
  end.
Definition cursor_conditions (d : PaginationDirection) : list OrderBy → list OrderBy → list string :=
  fix go prev obs := match obs with
    | [] => []
    | ob :: obs => cursor_condition d prev ob :: go (prev ++ [ob]) obs
    end.

Definition build_cursor_conditions (p : Pagination) (cursor_values : option (list string))
  : outcome Error (list string * list string) :=
  match cursor_values with
  | None => Ok ([], [])
  | Some values =>
      if (length values =? length (page_order_by p))%nat
      then Ok (cursor_conditions (page_direction p) [] (page_order_by p), values)
      else Err (ErrQuery (InvalidCursor "Invalid cursor values length"))
  end.

Definition cursor_value (row : SqliteRow) (field : string) : outcome Error string :=
  match row_string row field with
  | inr val => Ok val
  | inl _ =>
      match row_i64 row field with
      | inr val => Ok (pretty val)
      | inl e => Err (ErrQuery (InvalidCursor ("Could not extract cursor value for column " +:+ field +:+ ": " +:+ sqlx_text e)))
      end
  end.
Definition build_cursor_values (p : Pagination) (row : SqliteRow) : outcome Error (list string) :=
  outcome_mapM (λ ob, cursor_value row (order_field ob)) (page_order_by p).

(** ** Pages *)
Context {PL : Pool}.

Definition SQL_DEFAULT_LIMIT : Z := 10000.

Definition order_direction_for (o : OrderDirection) (d : PaginationDirection) : OrderDirection :=
  match o, d with Asc, Forward | Desc, Backward => Asc | Asc, Backward | Desc, Forward => Desc end.

Definition with_default_order (p : Pagination) (default_order_by : OrderBy) : Pagination :=
  mkPagination (page_cursor p) (page_limit p) (page_direction p) (page_order_by p ++ [default_order_by]).

(** The statement of a page: conditions and values of the cursor, order, limit. *)
Definition page_statement (q : QueryBuilder) (p : Pagination) (conditions binds : list string) (fetch_limit : Z)
  : QueryBuilder :=
  let q := foldl (λ q condition, where_clause condition q) q conditions in
  let q := foldl (λ q b, bind_value b q) q binds in
  let q := foldl (λ q ob, order_by ("[" +:+ order_field ob +:+ "]")
                            (order_direction_for (order_direction ob) (page_direction p)) q) q (page_order_by p) in
  limit fetch_limit q.

(** [rows.truncate(n)] and the cursor of the last row that is left *)
Definition finish_page (p : Pagination) (original_limit : Z) (has_more : bool) (rows : list SqliteRow)
  : outcome Error (Page SqliteRow) :=
  if has_more then
    let rows := take (Z.to_nat original_limit) rows in
    match last rows with
    | Some last_row =>
        let? cursor_values := build_cursor_values p last_row in
        let? next_cursor := encode_cursor_values cursor_values in
        Ok (mkPage _ rows (Some next_cursor))
    | None => Ok (mkPage _ rows None)
    end
  else Ok (mkPage _ rows None).

Definition execute_paginated_query (q : QueryBuilder) (p : Pagination) (default_order_by : OrderBy)
  : outcome Error (Page SqliteRow) :=
  let p := with_default_order p default_order_by in
  let original_limit := default SQL_DEFAULT_LIMIT (page_limit p) in
  let fetch_limit := wrap_u 32 (original_limit + 1) in
  let? cursor_values := outcome_option decode_cursor_values (page_cursor p) in
  let? (cursor_conditions, cursor_binds) := build_cursor_conditions p cursor_values in
  let q := page_statement q p cursor_conditions cursor_binds fetch_limit in
  let? rows := sql (fetch_all (build q) (bind_values q)) in
  let has_more := fetch_limit <=? Z.of_nat (length rows) in
  let rows := match page_direction p with Backward => reverse rows | Forward => rows end in
  finish_page p original_limit has_more rows.
End cursors.

(** ** Cursors are read back *)
Lemma split_join c (vs : list string) : vs ≠ [] → Forall (SqlString.free_of c) vs →
  SqlString.split c (SqlString.join (String c EmptyString) vs) = vs.
Proof.
  intros Hne Hfree. induction Hfree as [|v vs Hv Hvs IH]; [done|].
  destruct vs as [|w vs]; [by apply SqlString.split_free|].
  transitivity (v :: SqlString.split c (SqlString.join (String c EmptyString) (w :: vs))).
  - by apply SqlString.split_sep.
  - by rewrite IH.
Qed.

Lemma join_empty c (vs : list string) : SqlString.join (String c EmptyString) vs = EmptyString → vs = [] ∨ vs = [EmptyString].
Proof. destruct vs as [|v [|w vs]]; simpl; [by left|intros ->; by right|by destruct v]. Qed.

Section pages.
Context `{Sqlx} {C : CursorCodec} {CS : CursorCodecSpec C} {PL : Pool}.

Lemma encode_decode s : ∃ c, encode_cursor s = Ok c ∧ decode_cursor c = Ok s.
Proof.
  destruct (deflate_inflate s) as (e & b & He & Hb & Hbytes & Hs). exists (base64_encode b).
  unfold encode_cursor, decode_cursor. rewrite He, base64_round by done. simpl. by rewrite Hb, Hs.
Qed.

Lemma cursor_values_round vs : vs ≠ [EmptyString] → Forall (SqlString.free_of CURSOR_DELIMITER) vs →
  ∃ c, encode_cursor_values vs = Ok c ∧ decode_cursor_values c = Ok vs.
Proof.
  intros Hne Hfree. unfold encode_cursor_values, decode_cursor_values.
  destruct (encode_decode (SqlString.join (String CURSOR_DELIMITER EmptyString) vs)) as (c & Hc & Hd).
  exists c. split; [done|]. rewrite Hd. cbn [outcome_bind]. destruct (String.eqb_spec (SqlString.join (String CURSOR_DELIMITER EmptyString) vs) EmptyString) as [Heq|Hfull].
  - by destruct (join_empty _ _ Heq) as [->| ->].
  - destruct vs as [|v vs]; [done|]. by rewrite split_join.
Qed.

(** The cursor of a single empty value is that of no value. *)
Lemma empty_value_cursor : ∃ c, encode_cursor_values [EmptyString] = Ok c ∧ decode_cursor_values c = Ok [].
Proof.
  destruct (encode_decode EmptyString) as (c & Hc & Hd). exists c. split; [done|].
  unfold decode_cursor_values. by rewrite Hd.
Qed.

(** ** Tables in the order of a column

    [rows] are the rows a query selects, ascending in the values [key] of the
    column [field]. *)
Definition directed {A} (d : OrderDirection) (l : list A) : list A :=
  match d with Asc => l | Desc => reverse l end.
Definition opposite (d : OrderDirection) : OrderDirection := match d with Asc => Desc | Desc => Asc end.
Definition beyond (lt : relation string) (d : OrderDirection) : relation string :=
  match d with Asc => lt | Desc => flip lt end.
#[export] Instance beyond_dec lt `{!RelDecision lt} d : RelDecision (beyond lt d).
Proof. destruct d; [done|]. intros x y. unfold beyond, flip. apply _. Defined.
Definition beyond_text (d : OrderDirection) : string := match d with Asc => ">" | Desc => "<" end.

Record ordered_table (lt : relation string) `{!RelDecision lt} (q : QueryBuilder) (field : string)
  (key : SqliteRow → string) (rows : list SqliteRow) : Prop := {
  ot_sorted : StronglySorted (λ r r', lt (key r) (key r')) rows;
  ot_key r : r ∈ rows → cursor_value r field = Ok (key r) ∧ SqlString.free_of CURSOR_DELIMITER (key r) ∧ key r ≠ EmptyString;
  ot_select d n : 0 ≤ n < 2 ^ 32 →
    fetch_all (build (limit n (order_by ("[" +:+ field +:+ "]") d q))) (bind_values q)
    = inr (take (Z.to_nat n) (directed d rows));
  ot_beyond side d v n : 0 ≤ n < 2 ^ 32 →
    fetch_all (build (limit n (order_by ("[" +:+ field +:+ "]") d
                 (bind_value v (where_clause ("[" +:+ field +:+ "] " +:+ beyond_text side +:+ " ?") q)))))
      (bind_values q ++ [v])
    = inr (take (Z.to_nat n) (directed d (filter (λ r, beyond lt side v (key r)) rows)))
}.

Section table.
Context (lt : relation string) `{!RelDecision lt, !StrictOrder lt}.
Context (q : QueryBuilder) (ob : OrderBy) (key : SqliteRow → string) (rows : list SqliteRow).
Context (OT : ordered_table lt q (order_field ob) key rows).
#[local] Abbreviation dir := (order_direction ob).

Definition in_order : list SqliteRow := directed dir rows.

#[local] Instance beyond_strict d : StrictOrder (beyond lt d).
Proof. destruct d; simpl; apply _. Qed.

Lemma directed_filter (P : SqliteRow → Prop) `{!∀ r, Decision (P r)} d l :
  directed d (filter P l) = filter P (directed d l).
Proof.
  destruct d; [done|]. simpl. induction l as [|x l IH]; [done|].
  rewrite reverse_cons, filter_app, <- IH, !filter_cons. simpl.
  case_decide; [by rewrite reverse_cons|by rewrite filter_nil, app_nil_r].
Qed.

Lemma elem_of_directed {A} (x : A) d l : x ∈ directed d l ↔ x ∈ l.
Proof. destruct d; simpl; [done|]. by rewrite elem_of_reverse. Qed.

Lemma directed_opposite {A} d (l : list A) : directed (opposite d) l = reverse (directed d l).
Proof. destruct d; simpl; [done|]. by rewrite reverse_involutive. Qed.

Lemma sorted_directed d : StronglySorted (λ r r', beyond lt d (key r) (key r')) (directed d rows).
Proof.
  pose proof (ot_sorted _ _ _ _ _ OT) as Hs. destruct d; [done|]. simpl. clear OT.
  induction Hs as [|r l _ IH Hr]; [constructor|]. rewrite reverse_cons. apply StronglySorted_app_2; [|done|by repeat constructor].
  intros x1 x2 Hx1 Hx2. rewrite elem_of_reverse in Hx1. apply list_elem_of_singleton in Hx2 as ->.
  rewrite Forall_forall in Hr. exact (Hr _ Hx1).
Qed.

(** A cursor at [r] splits the rows: those beyond it are those after it. *)
Lemma beyond_cursor d pre r post : directed d rows = pre ++ r :: post →
  filter (λ x, beyond lt d (key r) (key x)) (directed d rows) = post ∧
  filter (λ x, beyond lt (opposite d) (key r) (key x)) (directed d rows) = pre.
Proof.
  intros Heq. pose proof (sorted_directed d) as Hs. rewrite Heq in Hs |- *.
  apply StronglySorted_app in Hs as (Hcross & _ & Hpost). apply StronglySorted_inv in Hpost as [_ Hpost].
  rewrite Forall_forall in Hpost.
  assert (Hflip : ∀ x y, beyond lt (opposite d) x y ↔ beyond lt d y x) by by destruct d.
  assert (Hpre : ∀ x, x ∈ pre → beyond lt d (key x) (key r)) by (intros x Hx; apply Hcross; [done|left]).
  assert (Hasym : ∀ x y, beyond lt d x y → ¬ beyond lt d y x) by (intros x y ??; by apply (irreflexivity (beyond lt d) x); etransitivity).
  rewrite !filter_app. split.
  - rewrite filter_none by (apply Forall_forall; naive_solver).
    rewrite filter_cons_False by apply (irreflexivity (beyond lt d)).
    apply filter_all, Forall_forall. intros x Hx. by apply Hpost.
  - rewrite (filter_all _ pre) by (apply Forall_forall; naive_solver).
    rewrite filter_none, app_nil_r; [done|]. apply Forall_forall. intros x [->|Hx]%elem_of_cons; rewrite Hflip.
    + apply (irreflexivity (beyond lt d)).
    + by apply Hasym, Hpost.
Qed.

Lemma cursor_at r : r ∈ rows → ∃ c, encode_cursor_values [key r] = Ok c ∧ decode_cursor_values c = Ok [key r].
Proof.
  intros (_ & Hfree & Hne)%(ot_key _ _ _ _ _ OT). apply cursor_values_round; [congruence|by constructor].
Qed.

(** ** The statements of a page *)
Context (p : Pagination) (no_client_order : page_order_by p = []).
#[local] Abbreviation side := (order_direction_for dir (page_direction p)).
#[local] Abbreviation the_limit := (default SQL_DEFAULT_LIMIT (page_limit p)).
Context (limit_ok : 1 ≤ the_limit < 2 ^ 32 - 1).
Definition oriented (fetched : list SqliteRow) : list SqliteRow :=
  match page_direction p with Backward => reverse fetched | Forward => fetched end.
Definition page_of (selected : list SqliteRow) : outcome Error (Page SqliteRow) :=
  let fetched := take (Z.to_nat (the_limit + 1)) selected in
  finish_page (with_default_order p ob) the_limit (the_limit + 1 <=? Z.of_nat (length fetched)) (oriented fetched).

Lemma first_page : page_cursor p = None → execute_paginated_query q p ob = page_of (directed side rows).
Proof.
  intros Hc. unfold execute_paginated_query. cbn [with_default_order page_cursor page_limit].
  rewrite Hc. cbn [outcome_option outcome_bind build_cursor_conditions].
  rewrite wrap_u_small by lia. unfold page_statement. cbn [with_default_order page_order_by foldl page_direction].
  rewrite no_client_order. cbn [app foldl limit order_by bind_values].
  rewrite (ot_select _ _ _ _ _ OT) by lia. done.
Qed.

Lemma later_page c v : page_cursor p = Some c → decode_cursor_values c = Ok [v] →
  execute_paginated_query q p ob = page_of (directed side (filter (λ r, beyond lt side v (key r)) rows)).
Proof.
  intros Hc Hd. unfold execute_paginated_query. cbn [with_default_order page_cursor page_limit].
  rewrite Hc. cbn [outcome_option]. rewrite Hd. cbn [outcome_bind].
  unfold build_cursor_conditions. cbn [with_default_order page_order_by page_direction]. rewrite no_client_order.
  cbn [app length Nat.eqb outcome_bind cursor_conditions cursor_condition].
  rewrite wrap_u_small by lia. unfold page_statement. cbn [with_default_order page_order_by foldl page_direction].
  rewrite no_client_order. cbn [app foldl limit order_by bind_values bind_value where_clause].
  pose proof (ot_beyond _ _ _ _ _ OT side side v (the_limit + 1) ltac:(lia)) as Hf.
  replace (cursor_operator dir (page_direction p)) with (beyond_text side) by by destruct dir, (page_direction p).
  by rewrite Hf.
Qed.

Lemma last_page_of selected : Z.of_nat (length selected) ≤ the_limit →
  page_of selected = Ok (mkPage _ (oriented selected) None).
Proof.
  intros Hl. unfold page_of. rewrite take_ge by lia. unfold finish_page.
  destruct (Z.leb_spec (the_limit + 1) (Z.of_nat (length selected))); [lia|done].
Qed.

Lemma full_page_of selected shown r dropped : the_limit < Z.of_nat (length selected) → r ∈ rows →
  oriented (take (Z.to_nat (the_limit + 1)) selected) = shown ++ r :: dropped →
  Z.of_nat (length (shown ++ [r])) = the_limit →
  ∃ c, page_of selected = Ok (mkPage _ (shown ++ [r]) (Some c)) ∧ decode_cursor_values c = Ok [key r].
Proof.
  intros Hl Hr Ho Hshown. destruct (cursor_at r Hr) as (c & Hc & Hd). exists c. split; [|done].
  unfold page_of, finish_page. rewrite length_take.
  destruct (Z.leb_spec (the_limit + 1) (Z.of_nat (Z.to_nat (the_limit + 1) `min` length selected))); [|lia].
  rewrite Ho. rewrite (cons_middle r shown dropped), app_assoc, take_app_length' by lia.
  rewrite last_snoc. unfold build_cursor_values. cbn [with_default_order page_order_by]. rewrite no_client_order.
  cbn [app outcome_mapM]. destruct (ot_key _ _ _ _ _ OT r Hr) as [-> _]. cbn [outcome_bind]. by rewrite Hc.
Qed.
End table.

(** ** All the pages *)
Definition set_cursor (p : Pagination) (c : string) : Pagination :=
  mkPagination (Some c) (page_limit p) (page_direction p) (page_order_by p).

(** The pages of a client that follows the cursors to the end. *)
Inductive page_run (q : QueryBuilder) (ob : OrderBy) : Pagination → list (list SqliteRow) → Prop :=
| run_last p items : execute_paginated_query q p ob = Ok (mkPage _ items None) → page_run q ob p [items]
| run_more p items c rest :
    execute_paginated_query q p ob = Ok (mkPage _ items (Some c)) →
    page_run q ob (set_cursor p c) rest → page_run q ob p (items :: rest).

Lemma split_last {A} (l : list A) n : (0 < n)%nat → (n < length l)%nat →
  ∃ shown r, take n l = shown ++ [r] ∧ l = shown ++ r :: drop n l ∧ length (shown ++ [r]) = n.
Proof.
  intros Hn Hl. destruct (last (take n l)) as [r|] eqn:Hr.
  - apply last_Some in Hr as [shown Hs]. exists shown, r. split; [done|]. split.
    + by rewrite (cons_middle r shown), app_assoc, <- Hs, take_drop.
    + rewrite <- Hs, length_take. lia.
  - apply last_None in Hr. apply (f_equal length) in Hr. rewrite length_take in Hr. simpl in Hr. lia.
Qed.

Section runs.
Context (lt : relation string) `{!RelDecision lt, !StrictOrder lt}.
Context (q : QueryBuilder) (ob : OrderBy) (key : SqliteRow → string) (rows : list SqliteRow).
Context (OT : ordered_table lt q (order_field ob) key rows).

Lemma run_from n : ∀ p pre post,
  page_order_by p = [] → page_direction p = Forward →
  1 ≤ default SQL_DEFAULT_LIMIT (page_limit p) < 2 ^ 32 - 1 →
  in_order ob rows = pre ++ post → (length post ≤ n)%nat → execute_paginated_query q p ob = page_of ob p post →
  ∃ pages, page_run q ob p pages ∧ concat pages = post ∧
    (∀ pg, pg ∈ pages → Z.of_nat (length pg) ≤ default SQL_DEFAULT_LIMIT (page_limit p)) ∧
    (∀ i pg, pages !! i = Some pg → (S i < length pages)%nat → Z.of_nat (length pg) = default SQL_DEFAULT_LIMIT (page_limit p)).
Proof.
  induction n as [n IH] using lt_wf_ind. intros p pre post Hob Hd Hlim Hin Hn He.
  set (L := default SQL_DEFAULT_LIMIT (page_limit p)) in *.
  destruct (Z.le_gt_cases (Z.of_nat (length post)) L) as [Hle|Hgt].
  { exists [post]. split; [|split; [|split]].
    - apply run_last. rewrite He, last_page_of by done. unfold oriented. by rewrite Hd.
    - simpl. by rewrite app_nil_r.
    - by intros pg ->%list_elem_of_singleton.
    - intros [|i] pg Hi Hlt; simpl in *; [lia|done]. }
  destruct (split_last post (Z.to_nat L)) as (shown & r & Htake & Hpost & Hlen); [lia..|].
  assert (Hr : r ∈ rows).
  { rewrite <- (elem_of_directed r (order_direction ob)). change (r ∈ in_order ob rows). rewrite Hin, Hpost. set_solver. }
  destruct (full_page_of lt q ob key rows OT p Hob Hlim post shown r (take 1 (drop (Z.to_nat L) post))) as (c & Hpage & Hdec);
    [done|done| |by rewrite Hlen; lia|].
  { unfold oriented. rewrite Hd. fold L. rewrite (cons_middle r shown), app_assoc, <- Htake.
    replace (Z.to_nat (L + 1)) with (Z.to_nat L + 1)%nat by lia. by rewrite take_take_drop. }
  set (p' := set_cursor p c).
  assert (Hnext : execute_paginated_query q p' ob = page_of ob p' (drop (Z.to_nat L) post)).
  { rewrite (later_page lt q ob key rows OT p' Hob Hlim c (key r) eq_refl Hdec).
    replace (order_direction_for (order_direction ob) (page_direction p')) with (order_direction ob)
      by (simpl; rewrite Hd; by destruct (order_direction ob)).
    rewrite directed_filter. f_equal. eapply (beyond_cursor lt q ob key rows OT _ (pre ++ shown) r).
    change (in_order ob rows = (pre ++ shown) ++ r :: drop (Z.to_nat L) post). by rewrite <- app_assoc, <- Hpost. }
  assert (Hshort : (length (drop (Z.to_nat L) post) < n)%nat) by (rewrite length_drop; lia).
  destruct (IH _ Hshort p' (pre ++ shown ++ [r]) (drop (Z.to_nat L) post)) as (pages & Hrun & Hcat & Hall & Hfull);
    [done..| |done|done|].
  { by rewrite <- !app_assoc, <- (cons_middle r), <- Hpost. }
  exists ((shown ++ [r]) :: pages). split; [|split; [|split]].
  - eapply run_more; [by rewrite He|done].
  - simpl. rewrite Hcat. by rewrite <- app_assoc, <- (cons_middle r), <- Hpost.
  - intros pg [->|Hpg]%elem_of_cons; [rewrite Hlen; lia|by apply Hall].
  - intros [|i] pg Hi Hlt; simpl in *; simplify_eq; [rewrite Hlen; lia|]. eapply Hfull; [done|lia].
Qed.


(** ** Pages backward *)
Context (p : Pagination) (no_client_order : page_order_by p = []) (backward : page_direction p = Backward).
Context (limit_ok : 1 ≤ default SQL_DEFAULT_LIMIT (page_limit p) < 2 ^ 32 - 1).
Context (c : string) (r : SqliteRow) (at_r : page_cursor p = Some c) (c_at_r : decode_cursor_values c = Ok [key r]).

Lemma backward_selected pre post : in_order ob rows = pre ++ r :: post →
  execute_paginated_query q p ob = page_of ob p (reverse pre).
Proof.
  intros Hin. rewrite (later_page lt q ob key rows OT p no_client_order limit_ok c (key r) at_r c_at_r).
  replace (order_direction_for (order_direction ob) (page_direction p)) with (opposite (order_direction ob))
    by (rewrite backward; by destruct (order_direction ob)).
  rewrite directed_opposite, directed_filter. do 2 f_equal.
  by eapply (beyond_cursor lt q ob key rows OT).
Qed.

(** When all the rows before the cursor fit in a page, it holds them in order. *)
Lemma backward_page_exact pre post : in_order ob rows = pre ++ r :: post →
  Z.of_nat (length pre) ≤ default SQL_DEFAULT_LIMIT (page_limit p) →
  execute_paginated_query q p ob = Ok (mkPage _ pre None).
Proof.
  intros Hin Hl. rewrite (backward_selected _ _ Hin), last_page_of by (done || by rewrite length_reverse).
  unfold oriented. by rewrite backward, reverse_involutive.
Qed.

(** When they do not, the row next to the cursor is left out: the rows are reversed
    before the one too many is dropped. *)
Lemma backward_page_skips far shown r' near post :
  in_order ob rows = (far ++ (shown ++ [r']) ++ [near]) ++ r :: post →
  Z.of_nat (length (shown ++ [r'])) = default SQL_DEFAULT_LIMIT (page_limit p) →
  ∃ c', execute_paginated_query q p ob = Ok (mkPage _ (shown ++ [r']) (Some c')) ∧ decode_cursor_values c' = Ok [key r'].
Proof.
  intros Hin Hl. rewrite (backward_selected _ _ Hin).
  apply (full_page_of lt q ob key rows OT p no_client_order limit_ok _ _ _ [near]); [| | |done].
  - rewrite length_reverse, !length_app. rewrite length_app in Hl. simpl in *. lia.
  - rewrite <- (elem_of_directed r' (order_direction ob)). change (r' ∈ in_order ob rows). rewrite Hin. set_solver.
  - unfold oriented. rewrite backward, reverse_app, take_app_length'.
    + by rewrite reverse_involutive, <- app_assoc.
    + rewrite length_reverse, (length_app _ [near]). simpl. lia.
Qed.
End runs.

(** ** Placeholders of a cursor *)
Lemma condition_marks d prev ob :
  Forall (λ o, placeholders (order_field o) = 0%nat) (prev ++ [ob]) →
  placeholders (cursor_condition d prev ob) = S (length prev).
Proof.
  intros [Hprev Hob]%Forall_app. apply Forall_inv in Hob.
  assert (Hop : placeholders (cursor_operator (order_direction ob) d) = 0%nat) by by destruct (order_direction ob), d.
  destruct prev as [|o prev]; unfold cursor_condition; rewrite !placeholders_app, Hop, Hob; [done|].
  rewrite placeholders_join by done.
  assert (list_sum (placeholders <$> ((λ p, "[" +:+ order_field p +:+ "] = ?") <$> (o :: prev))) = length (o :: prev)) as ->.
  { induction Hprev as [|x l Hx Hl IH]; [done|]. cbn [fmap list_fmap]. rewrite !placeholders_app, Hx.
    simpl. by rewrite IH. }
  simpl. lia.
Qed.

Lemma conditions_marks d obs : ∀ prev, Forall (λ o, placeholders (order_field o) = 0%nat) (prev ++ obs) →
  (2 * list_sum (placeholders <$> cursor_conditions d prev obs) = length obs * (2 * length prev + length obs + 1))%nat.
Proof.
  induction obs as [|ob obs IH]; intros prev Hobs; [done|].
  cbn [cursor_conditions fmap list_fmap list_sum].
  rewrite condition_marks by (rewrite Forall_app, Forall_cons in Hobs; rewrite Forall_app; naive_solver).
  specialize (IH (prev ++ [ob])). rewrite length_app in IH. simpl in *.
  rewrite <- app_assoc in IH. specialize (IH Hobs). lia.
Qed.

(** C22: The conditions of a cursor have one placeholder for each value that is bound
    exactly when there is one order field at most. A read adds a field of its own to
    those of the client, so a cursor is only sound for clients that ask for no order:
    with [n] fields there are [n * (n + 1) / 2] placeholders for [n] values. *)
Theorem cursor_binds_iff (p : Pagination) (values conditions binds : list string) :
  Forall (λ o, placeholders (order_field o) = 0%nat) (page_order_by p) →
  build_cursor_conditions p (Some values) = Ok (conditions, binds) →
  (list_sum (placeholders <$> conditions) = length binds ↔ (length (page_order_by p) ≤ 1)%nat) ∧
  (2 * list_sum (placeholders <$> conditions) = length values * (length values + 1))%nat.
Proof.
  intros Hf. unfold build_cursor_conditions.
  destruct (Nat.eqb_spec (length values) (length (page_order_by p))) as [Hlen|]; [|done]. intros [= <- <-].
  pose proof (conditions_marks (page_direction p) (page_order_by p) [] Hf) as Hm. simpl in Hm. rewrite Hlen.
  split; [|lia]. split; intros; nia.
Qed.
End pages.

(** ** A table of texts, in the order of their lengths *)
Lemma split_last_word c (a b : string) : SqlString.free_of c b → last (SqlString.split c (a +:+ String c b)) = Some b.
Proof.
  intros Hb. unfold SqlString.split. generalize EmptyString at 1 as acc. induction a as [|x a IH]; intros acc.
  - simpl. rewrite decide_True, SqlString.split_acc_free by done. done.
  - change (String x a +:+ String c b) with (String x (a +:+ String c b)). cbn [SqlString.split_acc].
    case_decide; [|apply IH]. specialize (IH EmptyString).
    destruct (SqlString.split_acc c EmptyString (a +:+ String c b)) eqn:E; [done|exact IH].
Qed.

Definition demo_rows : list string := ["a"; "aa"; "aaa"; "aaaa"; "aaaaa"].
Definition shorter : relation string := λ a b, (String.length a < String.length b)%nat.
#[local] Instance shorter_dec : RelDecision shorter.
Proof. intros a b. unfold shorter. apply _. Defined.
#[local] Instance shorter_strict : StrictOrder shorter.
Proof. unfold shorter. split; [intros a; unfold complement; lia|intros a b d; lia]. Qed.

#[local] Instance demo_sqlx : Sqlx := {|
  SqliteRow := string; SqlxError := unit; sqlx_text _ := "error"; row_string r _ := inr r; row_int _ _ _ := inl tt;
  row_bool _ _ := inl tt; row_time _ _ := inl tt; row_f64 _ _ := inl tt; row_null _ _ := inr false
|}.
Definition demo_limit (statement : string) : nat :=
  Z.to_nat (default 0 (last (SqlString.split " " statement) ≫= parse_u128)).
Definition demo_query : QueryBuilder := select ["name"] (new "words").
Definition demo_prefix (side : option OrderDirection) (d : OrderDirection) : string :=
  "SELECT name FROM [words] " +:+
  match side with Some side => " WHERE [name] " +:+ beyond_text side +:+ " ?" | None => EmptyString end +:+
  " ORDER BY [name] " +:+ direction_str d +:+ " LIMIT".
Definition demo_answer (statement : string) (binds : list string) (side : option OrderDirection) (d : OrderDirection)
  : option (list string) :=
  if String.prefix (demo_prefix side d) statement then
    Some (take (demo_limit statement) (directed d
      match side, binds with Some side, [v] => filter (λ r, beyond shorter side v r) demo_rows | _, _ => demo_rows end))
  else None.
#[local] Instance demo_pool : Pool := {|
  fetch_all s bs :=
    let answer := demo_answer s bs in
    match answer None Asc, answer None Desc, answer (Some Asc) Asc, answer (Some Asc) Desc,
          answer (Some Desc) Asc, answer (Some Desc) Desc with
    | Some l, _, _, _, _, _ | _, Some l, _, _, _, _ | _, _, Some l, _, _, _ | _, _, _, Some l, _, _
    | _, _, _, _, Some l, _ | _, _, _, _, _, Some l => inr l
    | _, _, _, _, _, _ => inl tt
    end
|}.
#[local] Instance demo_codec : CursorCodec := {|
  Encoder := Bytes; deflate_write s := inr (string_bytes s); deflate_finish e := inr e;
  inflate_to_string b := inr (bytes_string b); base64_encode b := bytes_string b;
  base64_decode s := inr (string_bytes s)
|}.

Lemma string_bytes_range s : Forall (λ x, 0 ≤ x < 256) (string_bytes s).
Proof.
  induction s as [|c s IH]; [constructor|]. change (string_bytes (String c s)) with (Z.of_nat (nat_of_ascii c) :: string_bytes s).
  constructor; [|done]. pose proof (nat_ascii_bounded c). lia.
Qed.
Lemma bytes_string_bytes b : Forall (λ x, 0 ≤ x < 256) b → string_bytes (bytes_string b) = b.
Proof.
  induction 1 as [|x b Hx Hb IH]; [done|].
  change (string_bytes (bytes_string (x :: b))) with (Z.of_nat (nat_of_ascii (ascii_of_nat (Z.to_nat x))) :: string_bytes (bytes_string b)).
  rewrite nat_ascii_embedding by lia. rewrite IH. f_equal. lia.
Qed.
#[local] Instance demo_codec_spec : CursorCodecSpec demo_codec.
Proof.
  split.
  - intros s. exists (string_bytes s), (string_bytes s). split_and!; [done..|apply string_bytes_range|].
    simpl. by rewrite string_bytes_string.
  - intros b Hb. simpl. by rewrite bytes_string_bytes.
Qed.

Lemma dec_only_free s : Agg.dec_only s = true → SqlString.free_of space s.
Proof.
  induction s as [|c s IH]; [done|]. cbn [Agg.dec_only]. intros [[d Hd]%bool_decide_eq_true Hs]%andb_prop.
  split; [|by apply IH]. intros ->. discriminate Hd.
Qed.

Lemma demo_limit_of a n : 0 ≤ n < 2 ^ 32 → demo_limit (a +:+ " " +:+ pretty n) = Z.to_nat n.
Proof.
  intros Hn. unfold demo_limit. change (" " +:+ pretty n) with (String space (pretty n)).
  rewrite split_last_word by (apply dec_only_free; apply Agg.pretty_dec; lia).
  cbn [mbind option_bind]. rewrite Agg.parse_u128_pretty by (unfold u128_max; lia). done.
Qed.

Lemma demo_table : ordered_table shorter demo_query "name" id demo_rows.
Proof.
  split.
  - repeat constructor.
  - intros r Hr. split; [done|]. repeat (apply elem_of_cons in Hr as [->|Hr]; [by vm_compute; intuition discriminate|]). by apply elem_of_nil in Hr.
  - intros d n Hn. assert (build (limit n (order_by ("[" +:+ "name" +:+ "]") d demo_query)) = demo_prefix None d +:+ " " +:+ pretty n) as -> by by destruct d.
    cbn [fetch_all demo_pool]. unfold demo_answer. rewrite !demo_limit_of by done. by destruct d.
  - intros side d v n Hn.
    assert (build (limit n (order_by ("[" +:+ "name" +:+ "]") d (bind_value v (where_clause ("[" +:+ "name" +:+ "] " +:+ beyond_text side +:+ " ?") demo_query))))
            = demo_prefix (Some side) d +:+ " " +:+ pretty n) as -> by by destruct d, side.
    cbn [fetch_all demo_pool]. unfold demo_answer. rewrite !demo_limit_of by done. by destruct side, d.
Qed.

Definition demo_first_page : Pagination := mkPagination None (Some 2) Forward [].

Lemma cursor_binds_iff_witness :
  list_sum (placeholders <$> ["[name] > ?"; "([name] = ? AND [id] < ?)"]) = 3%nat.
Proof.
  destruct (cursor_binds_iff (mkPagination None None Forward [mkOrderBy "name" Asc; mkOrderBy "id" Desc]) ["b"; "7"]
    ["[name] > ?"; "([name] = ? AND [id] < ?)"] ["b"; "7"]) as [_ Hsum]; [by repeat constructor|reflexivity|].
  simpl in *. lia.
Defined.
End Query.
