(* ===== verification/Rows.v ===== *)
(** * Rows of the tables ([crates/sqlite/types/src/lib.rs])

    A row of a query is read into the struct of its table, a column for each field,
    and the struct is turned into the type of the protocol: felts and numbers are
    parsed from their text, and a text that is none is a panic.

    [x_from_row] is the derived [FromRow] of [x], [x_into_proto] its [From]. *)

From S2P Require Import Prelude Proto SqlString SqlText Database Executor ModelTable Wire Messages Aggregator.
From S2P Require Import Fetcher World Storage StorageWrites Query.
From stdpp Require Import pretty.
From Stdlib Require Import Ascii.
Local Open Scope Z_scope.
Local Open Scope torii_scope.

Module Rows.
Import Query.

(** The parsers of other crates: [Felt::from_hex], and the JSON of columns. *)
Class ColumnText : Type := {
  felt_from_hex_text : string → option Felt;
  actions_from_json : string → option (gmap string Z)
}.

Section rows.
Context `{Sqlx} `{SqlString.FeltFromStr} {CT : ColumnText}.

(** [row.try_get::<Option<T>, _>(column)?] *)
Definition optional {A} (get : SqliteRow → string → SqlxError + A) (row : SqliteRow) (column : string)
  : outcome Error (option A) :=
  let? is_null := sql (row_null row column) in
  if is_null then Ok None else let? a := sql (get row column) in Ok (Some a).
#[local] Abbreviation text row column := (sql (row_string row column)).
#[local] Abbreviation int kind row column := (sql (row_int kind row column)).
#[local] Abbreviation time row column := (sql (row_time row column)).

(** [Felt::from_str(..).unwrap()], [U256::from_be_hex(s.trim_start_matches("0x"))],
    [s.split('/').filter(..).map(|k| Felt::from_str(k).unwrap())] *)
Definition felt_of {E} (s : string) : outcome E Felt := unwrap (SqlString.felt_from_str s).
Definition u256_of {E} (s : string) : outcome E U256 := unwrap (from_be_hex (SqlString.trim_0x s)).
Definition felts_of {E} (s : string) : outcome E (list Felt) := unwrap (SqlString.sql_string_to_felts s).

(** ** Controllers and contracts *)
Record ControllerRow : Type := mkControllerRow {
  cr_address : string; cr_username : string; cr_deployed_at : DateTime
}.
Definition controller_from_row (row : SqliteRow) : outcome Error ControllerRow :=
  let? address := text row "address" in
  let? username := text row "username" in
  let? deployed_at := time row "deployed_at" in
  Ok (mkControllerRow address username deployed_at).
Definition controller_into_proto {E} (value : ControllerRow) : outcome E Msg.Controller :=
  let? address := felt_of (cr_address value) in
  Ok (Msg.mkController address (cr_username value) (cr_deployed_at value)).

Record ContractRow : Type := mkContractRow {
  ctr_id : string; ctr_contract_address : string; ctr_contract_type : string; ctr_head : option Z; ctr_tps : option Z;
  ctr_last_block_timestamp : option Z; ctr_last_pending_block_tx : option string; ctr_updated_at : DateTime;
  ctr_created_at : DateTime
}.
Definition contract_from_row (row : SqliteRow) : outcome Error ContractRow :=
  let? id := text row "id" in
  let? contract_address := text row "contract_address" in
  let? contract_type := text row "contract_type" in
  let? head := optional (row_int I64) row "head" in
  let? tps := optional (row_int I64) row "tps" in
  let? last_block_timestamp := optional (row_int I64) row "last_block_timestamp" in
  let? last_pending_block_tx := optional row_string row "last_pending_block_tx" in
  let? updated_at := time row "updated_at" in
  let? created_at := time row "created_at" in
  Ok (mkContractRow id contract_address contract_type head tps last_block_timestamp last_pending_block_tx updated_at
        created_at).
Definition contract_into_proto {E} (value : ContractRow) : outcome E Msg.Contract :=
  let contract_type := default OTHER (contract_type_from_str (ctr_contract_type value)) in
  let? contract_address := felt_of (ctr_contract_address value) in
  let? last_pending_block_tx := outcome_option felt_of (ctr_last_pending_block_tx value) in
  Ok (Msg.mkContract contract_address contract_type (wrap_u 64 <$> ctr_head value) (wrap_u 64 <$> ctr_tps value)
        (wrap_u 64 <$> ctr_last_block_timestamp value) last_pending_block_tx (ctr_updated_at value)
        (ctr_created_at value)).

(** ** Tokens *)
Record TokenRow : Type := mkTokenRow {
  tr_id : string; tr_contract_address : string; tr_token_id : string; tr_name : string; tr_symbol : string;
  tr_decimals : Z; tr_metadata : string; tr_total_supply : option string
}.
Definition token_from_row (row : SqliteRow) : outcome Error TokenRow :=
  let? id := text row "id" in
  let? contract_address := text row "contract_address" in
  let? token_id := text row "token_id" in
  let? name := text row "name" in
  let? symbol := text row "symbol" in
  let? decimals := int U8 row "decimals" in
  let? metadata := text row "metadata" in
  let? total_supply := optional row_string row "total_supply" in
  Ok (mkTokenRow id contract_address token_id name symbol decimals metadata total_supply).
Definition token_into_proto {E} (value : TokenRow) : outcome E Msg.Token :=
  let? token_id := if String.eqb (tr_token_id value) EmptyString then Ok None
                   else let? u := u256_of (tr_token_id value) in Ok (Some u) in
  let? contract_address := felt_of (tr_contract_address value) in
  let? total_supply := outcome_option u256_of (tr_total_supply value) in
  Ok (Msg.mkToken token_id contract_address (tr_name value) (tr_symbol value) (tr_decimals value) (tr_metadata value)
        total_supply).

Record TokenContractRow : Type := mkTokenContractRow {
  tcr_contract_address : string; tcr_contract_type : string; tcr_name : string; tcr_symbol : string; tcr_decimals : Z;
  tcr_metadata : string; tcr_total_supply : option string; tcr_traits : string; tcr_token_metadata : string
}.
Definition token_contract_from_row (row : SqliteRow) : outcome Error TokenContractRow :=
  let? contract_address := text row "contract_address" in
  let? contract_type := text row "contract_type" in
  let? name := text row "name" in
  let? symbol := text row "symbol" in
  let? decimals := int U8 row "decimals" in
  let? metadata := text row "metadata" in
  let? total_supply := optional row_string row "total_supply" in
  let? traits := text row "traits" in
  let? token_metadata := text row "token_metadata" in
  Ok (mkTokenContractRow contract_address contract_type name symbol decimals metadata total_supply traits token_metadata).
Definition token_contract_into_proto {E} (value : TokenContractRow) : outcome E Msg.TokenContract :=
  let? contract_address := felt_of (tcr_contract_address value) in
  let ty := default OTHER (contract_type_from_str (tcr_contract_type value)) in
  let? total_supply := outcome_option u256_of (tcr_total_supply value) in
  Ok (Msg.mkTokenContract contract_address ty (tcr_name value) (tcr_symbol value) (tcr_decimals value)
        (tcr_metadata value) (tcr_token_metadata value) total_supply (tcr_traits value)).

Record TokenBalanceRow : Type := mkTokenBalanceRow {
  tbr_id : string; tbr_balance : string; tbr_account_address : string; tbr_contract_address : string;
  tbr_token_id : string
}.
Definition token_balance_from_row (row : SqliteRow) : outcome Error TokenBalanceRow :=
  let? id := text row "id" in
  let? balance := text row "balance" in
  let? account_address := text row "account_address" in
  let? contract_address := text row "contract_address" in
  let? token_id := text row "token_id" in
  Ok (mkTokenBalanceRow id balance account_address contract_address token_id).
Definition token_balance_into_proto {E} (value : TokenBalanceRow) : outcome E Msg.TokenBalance :=
  let? balance := u256_of (tbr_balance value) in
  let? account_address := felt_of (tbr_account_address value) in
  let? contract_address := felt_of (tbr_contract_address value) in
  let? token_id := match SqlString.split ":"%char (tbr_token_id value) with
                   | [_; token_id] => let? u := u256_of token_id in Ok (Some u)
                   | _ => Ok None
                   end in
  Ok (Msg.mkTokenBalance balance account_address contract_address token_id).

Record TokenTransferRow : Type := mkTokenTransferRow {
  ttr_id : string; ttr_contract_address : string; ttr_from_address : string; ttr_to_address : string;
  ttr_amount : string; ttr_token_id : string; ttr_executed_at : DateTime; ttr_event_id : option string
}.
Definition token_transfer_from_row (row : SqliteRow) : outcome Error TokenTransferRow :=
  let? id := text row "id" in
  let? contract_address := text row "contract_address" in
  let? from_address := text row "from_address" in
  let? to_address := text row "to_address" in
  let? amount := text row "amount" in
  let? token_id := text row "token_id" in
  let? executed_at := time row "executed_at" in
  let? event_id := optional row_string row "event_id" in
  Ok (mkTokenTransferRow id contract_address from_address to_address amount token_id executed_at event_id).
Definition token_transfer_into_proto {E} (value : TokenTransferRow) : outcome E Msg.TokenTransfer :=
  let? token_id := outcome_option u256_of (SqlString.split ":"%char (ttr_token_id value) !! 1%nat) in
  let? contract_address := felt_of (ttr_contract_address value) in
  let? from_address := felt_of (ttr_from_address value) in
  let? to_address := felt_of (ttr_to_address value) in
  let? amount := u256_of (ttr_amount value) in
  Ok (Msg.mkTokenTransfer (ttr_id value) contract_address from_address to_address amount token_id
        (ttr_executed_at value) (ttr_event_id value)).

(** ** Events and transactions *)
Record EventRow : Type := mkEventRow {
  er_id : string; er_keys : string; er_data : string; er_transaction_hash : string; er_executed_at : DateTime;
  er_created_at : DateTime
}.
Definition event_from_row (row : SqliteRow) : outcome Error EventRow :=
  let? id := text row "id" in
  let? keys := text row "keys" in
  let? data := text row "data" in
  let? transaction_hash := text row "transaction_hash" in
  let? executed_at := time row "executed_at" in
  let? created_at := time row "created_at" in
  Ok (mkEventRow id keys data transaction_hash executed_at created_at).
Definition event_into_proto {E} (value : EventRow) : outcome E Msg.Event :=
  let? keys := felts_of (er_keys value) in
  let? data := felts_of (er_data value) in
  let? transaction_hash := felt_of (er_transaction_hash value) in
  Ok (Msg.mkEvent keys data transaction_hash).

(** The columns; [calls], [contract_addresses] and [unique_models] are skipped. *)
Record TransactionRow : Type := mkTransactionRow {
  txr_id : string; txr_transaction_hash : string; txr_sender_address : string; txr_calldata : string;
  txr_max_fee : string; txr_signature : string; txr_nonce : string; txr_executed_at : DateTime;
  txr_created_at : DateTime; txr_transaction_type : string; txr_block_number : Z
}.
Definition transaction_from_row (row : SqliteRow) : outcome Error TransactionRow :=
  let? id := text row "id" in
  let? transaction_hash := text row "transaction_hash" in
  let? sender_address := text row "sender_address" in
  let? calldata := text row "calldata" in
  let? max_fee := text row "max_fee" in
  let? signature := text row "signature" in
  let? nonce := text row "nonce" in
  let? executed_at := time row "executed_at" in
  let? created_at := time row "created_at" in
  let? transaction_type := text row "transaction_type" in
  let? block_number := int U64 row "block_number" in
  Ok (mkTransactionRow id transaction_hash sender_address calldata max_fee signature nonce executed_at created_at
        transaction_type block_number).

(** ** Activities, leaderboards and achievements *)
Record ActivityRow : Type := mkActivityRow {
  ar_id : string; ar_world_address : string; ar_namespace : string; ar_caller_address : string;
  ar_session_start : DateTime; ar_session_end : DateTime; ar_action_count : Z; ar_actions : string;
  ar_updated_at : DateTime
}.
Definition activity_from_row (row : SqliteRow) : outcome Error ActivityRow :=
  let? id := text row "id" in
  let? world_address := text row "world_address" in
  let? namespace := text row "namespace" in
  let? caller_address := text row "caller_address" in
  let? session_start := time row "session_start" in
  let? session_end := time row "session_end" in
  let? action_count := int I32 row "action_count" in
  let? actions := text row "actions" in
  let? updated_at := time row "updated_at" in
  Ok (mkActivityRow id world_address namespace caller_address session_start session_end action_count actions updated_at).
Definition activity_into_proto {E} (value : ActivityRow) : outcome E Msg.Activity :=
  let actions := default ∅ (actions_from_json (ar_actions value)) in
  let? world_address := unwrap (felt_from_hex_text (ar_world_address value)) in
  let? caller_address := unwrap (felt_from_hex_text (ar_caller_address value)) in
  Ok (Msg.mkActivity (ar_id value) world_address (ar_namespace value) caller_address (ar_session_start value)
        (ar_session_end value) (wrap_u 32 (ar_action_count value)) actions (ar_updated_at value)).

(** [AggregationEntryWithPosition] *)
Record AggregationRow : Type := mkAggregationRow {
  agr_id : string; agr_aggregator_id : string; agr_entity_id : string; agr_value : string; agr_display_value : string;
  agr_model_id : string; agr_created_at : DateTime; agr_updated_at : DateTime; agr_position : Z
}.
Definition aggregation_from_row (row : SqliteRow) : outcome Error AggregationRow :=
  let? id := text row "id" in
  let? aggregator_id := text row "aggregator_id" in
  let? entity_id := text row "entity_id" in
  let? value := text row "value" in
  let? display_value := text row "display_value" in
  let? model_id := text row "model_id" in
  let? created_at := time row "created_at" in
  let? updated_at := time row "updated_at" in
  let? position := int I64 row "position" in
  Ok (mkAggregationRow id aggregator_id entity_id value display_value model_id created_at updated_at position).
Definition aggregation_into_proto {E} (r : AggregationRow) : outcome E Msg.AggregationEntry :=
  let? value := u256_of (agr_value r) in
  Ok (Msg.mkAggregationEntry (agr_id r) (agr_aggregator_id r) (agr_entity_id r) value (agr_display_value r)
        (wrap_u 64 (agr_position r)) (agr_model_id r) (agr_created_at r) (agr_updated_at r)).

Record AchievementRow : Type := mkAchievementRow {
  acr_id : string; acr_world_address : string; acr_hidden : Z; acr_index_num : Z; acr_points : Z; acr_start : string;
  acr_end : string; acr_group_name : string; acr_icon : string; acr_title : string; acr_description : string;
  acr_tasks : string; acr_data : option string; acr_created_at : DateTime; acr_updated_at : DateTime
}.
Definition achievement_from_row (row : SqliteRow) : outcome Error AchievementRow :=
  let? id := text row "id" in
  let? world_address := text row "world_address" in
  let? hidden := int I32 row "hidden" in
  let? index_num := int I32 row "index_num" in
  let? points := int I32 row "points" in
  let? start := text row "start" in
  let? end_ := text row "end" in
  let? group_name := text row "group_name" in
  let? icon := text row "icon" in
  let? title := text row "title" in
  let? description := text row "description" in
  let? tasks := text row "tasks" in
  let? data := optional row_string row "data" in
  let? created_at := time row "created_at" in
  let? updated_at := time row "updated_at" in
  Ok (mkAchievementRow id world_address hidden index_num points start end_ group_name icon title description tasks data
        created_at updated_at).

Record AchievementTaskRow : Type := mkAchievementTaskRow {
  atr_id : string; atr_achievement_id : string; atr_task_id : string; atr_world_address : string; atr_namespace : string;
  atr_description : string; atr_total : Z; atr_total_completions : Z; atr_completion_rate : Z; atr_created_at : DateTime
}.
Definition achievement_task_from_row (row : SqliteRow) : outcome Error AchievementTaskRow :=
  let? id := text row "id" in
  let? achievement_id := text row "achievement_id" in
  let? task_id := text row "task_id" in
  let? world_address := text row "world_address" in
  let? namespace := text row "namespace" in
  let? description := text row "description" in
  let? total := int I32 row "total" in
  let? total_completions := int I32 row "total_completions" in
  let? completion_rate := sql (row_f64 row "completion_rate") in
  let? created_at := time row "created_at" in
  Ok (mkAchievementTaskRow id achievement_id task_id world_address namespace description total total_completions
        completion_rate created_at).

Record ProgressionRow : Type := mkProgressionRow {
  pr_id : string; pr_task_id : string; pr_world_address : string; pr_namespace : string; pr_player_id : string;
  pr_count : Z; pr_completed : Z; pr_completed_at : option DateTime; pr_created_at : DateTime; pr_updated_at : DateTime
}.
Definition progression_from_row (row : SqliteRow) : outcome Error ProgressionRow :=
  let? id := text row "id" in
  let? task_id := text row "task_id" in
  let? world_address := text row "world_address" in
  let? namespace := text row "namespace" in
  let? player_id := text row "player_id" in
  let? count := int I32 row "count" in
  let? completed := int I32 row "completed" in
  let? completed_at := optional row_time row "completed_at" in
  let? created_at := time row "created_at" in
  let? updated_at := time row "updated_at" in
  Ok (mkProgressionRow id task_id world_address namespace player_id count completed completed_at created_at updated_at).
End rows.

(** ** What is stored is read back *)

(** The columns an [INSERT] names: what its first parentheses hold. *)
Fixpoint before (c : ascii) (s : string) : string :=
  match s with EmptyString => EmptyString | String x s => if Ascii.eqb x c then EmptyString else String x (before c s) end.
Fixpoint after (c : ascii) (s : string) : string :=
  match s with EmptyString => EmptyString | String x s => if Ascii.eqb x c then s else after c s end.
Definition trim_space (s : string) : string :=
  match s with String x s' => if Ascii.eqb x space then s' else s | EmptyString => s end.
Definition insert_columns (statement : string) : list string :=
  trim_space <$> SqlString.split ","%char (before ")"%char (after "("%char statement)).

(** The text an argument is bound as *)
Definition argument_text (a : Argument) : option string :=
  match a with ArgString s => Some s | ArgFieldElement f => Some (SqlString.felt_to_sql_string f) | _ => None end.

Section stored.
Context `{Sqlx} `{SqlString.FeltFromStr} {CT : ColumnText}.
Context `{ExecutorEnv} `{!StarknetTypes} `{!Storage.ReceiptText} `{Primitives} {TT : TyText} {WV : WriteEnv}.

(** [row] holds what the message inserted. *)
Definition inserted (m : Ex.QueryMessage) (row : SqliteRow) : Prop :=
  ∀ i column a s, insert_columns (Ex.statement m) !! i = Some column → Ex.arguments m !! i = Some a →
    argument_text a = Some s → row_null row column = inr false ∧ row_string row column = inr s.

Lemma felt_of_text {E} f : SqlString.felt_ok f → felt_of (E := E) (SqlString.felt_to_sql_string f) = Ok f.
Proof. intros Hf. unfold felt_of, SqlString.felt_to_sql_string. by rewrite SqlString.felt_from_format. Qed.
Lemma u256_of_text {E} u : u256_ok u → u256_of (E := E) (SqlString.u256_to_sql_string u) = Ok u.
Proof. intros Hu. unfold u256_of, SqlString.u256_to_sql_string. by rewrite Agg.from_be_hex_all. Qed.
Lemma felts_of_text {E} l : Forall SqlString.felt_ok l → felts_of (E := E) (SqlString.felts_to_sql_string l) = Ok l.
Proof.
  intros Hl. unfold felts_of.
  destruct (SqlString.sql_felts_roundtrip l 0 0) as [-> _]; done.
Qed.

(** Rewrites with the column [name], at position [i] of what was inserted. *)
Ltac column Hin i name :=
  let Hn := fresh in let Hc := fresh in
  destruct (Hin i%nat name _ _ eq_refl eq_refl eq_refl) as [Hn Hc]; rewrite ?Hn, ?Hc; clear Hn Hc; cbn [sql outcome_bind].

Definition token_ok (t : TokenId) : Prop :=
  SqlString.felt_ok (token_contract_address t) ∧ ∀ u, token_token_id t = Some u → u256_ok u.

Lemma token_text_second (t : TokenId) : token_ok t →
  SqlString.split ":"%char (Ex.token_id_to_string t) !! 1%nat = (SqlString.u256_to_sql_string <$> token_token_id t).
Proof.
  intros [Hf%SqlString.felt_ok_bound Hu].
  destruct t as [a|a u]; cbn [Ex.token_id_to_string token_token_id token_contract_address fmap option_fmap option_map] in *.
  - by rewrite SqlString.split_free by (apply SqlString.format_hex_free; [by left|done]).
  - rewrite SqlString.split_sep by (apply SqlString.format_hex_free; [by left|done]).
    by rewrite SqlString.split_free by (apply SqlString.format_hex_free; [by left|by apply Hu]).
Qed.

(** A token transfer and an event that were inserted into their tables are read back
    as they were stored: the columns a read takes by name are those the insert wrote, and
    the addresses, amounts, token ids, keys and data parse to the values they were
    written from. *)
Theorem stored_rows_read_back {E} (row : SqliteRow) (executed_at created_at : DateTime) :
  row_time row "executed_at" = inr executed_at → row_time row "created_at" = inr created_at →
  (∀ t from to amount ts event_id m,
     token_ok t → SqlString.felt_ok from → SqlString.felt_ok to → u256_ok amount →
     (Writes.store_token_transfer_writes t from to amount ts event_id).1 = [m] → inserted m row →
     ∃ r, token_transfer_from_row row = Ok r ∧
       token_transfer_into_proto (E := E) r =
         Ok (Msg.mkTokenTransfer (event_id +:+ ":" +:+ Ex.token_id_to_string t) (token_contract_address t) from to amount
               (token_token_id t) executed_at (Some event_id))) ∧
  (∀ event_id ev hash ts,
     Forall SqlString.felt_ok (keys ev) → Forall SqlString.felt_ok (data ev) → SqlString.felt_ok hash →
     inserted (Storage.store_event_message event_id ev hash ts) row →
     ∃ r, event_from_row row = Ok r ∧ er_id r = event_id ∧
       event_into_proto (E := E) r = Ok (Msg.mkEvent (keys ev) (data ev) hash)).
Proof.
  intros Hex Hcr. split.
  - intros t from to amount ts event_id m Ht Hfrom Hto Ham [= <-] Hin. unfold token_transfer_from_row, optional.
    column Hin 0%nat "id". column Hin 1%nat "contract_address". column Hin 2%nat "from_address".
    column Hin 3%nat "to_address". column Hin 4%nat "amount". column Hin 5%nat "token_id". rewrite Hex. cbn [sql outcome_bind].
    column Hin 6%nat "event_id". eexists. split; [reflexivity|]. unfold token_transfer_into_proto.
    cbn [ttr_token_id ttr_contract_address ttr_from_address ttr_to_address ttr_amount ttr_id ttr_executed_at ttr_event_id].
    rewrite token_text_second, (felt_of_text (token_contract_address t)), (felt_of_text from), (felt_of_text to), u256_of_text
      by (done || apply Ht).
    destruct (token_token_id t) as [u|] eqn:Hu; [|done]. cbn [fmap option_fmap option_map outcome_option].
    by rewrite u256_of_text by by apply Ht.
  - intros event_id ev hash ts Hk Hd Hh Hin. unfold event_from_row.
    column Hin 0%nat "id". column Hin 1%nat "keys". column Hin 2%nat "data". column Hin 3%nat "transaction_hash".
    rewrite Hex, Hcr. eexists. split; [reflexivity|]. split; [done|]. unfold event_into_proto.
    cbn [er_keys er_data er_transaction_hash]. by rewrite !felts_of_text, felt_of_text by done.
Qed.
End stored.

(** ** Witness: rows as lists of named texts *)
Definition named_row : Type := list (string * string).
Definition named_column (row : named_row) (column : string) : unit + string :=
  match find (λ c, String.eqb c.1 column) row with Some (_, s) => inr s | None => inl tt end.
Definition named_sqlx : Sqlx := {|
  SqliteRow := named_row; SqlxError := unit; sqlx_text _ := "no such column"; row_string := named_column;
  row_int _ r c := match named_column r c with inr s => match parse_u128 s with Some n => inr n | None => inl tt end | inl e => inl e end;
  row_bool _ _ := inl tt; row_time _ _ := inr 7; row_f64 _ _ := inl tt;
  row_null r c := match named_column r c with inr _ => inr false | inl e => inl e end
|}.
#[local] Existing Instances named_sqlx SqlString.hex_parser Ex.ok_env ModelTable.demo_prims ModelTable.demo_text
  Writes.demo_write_env Fetcher.demo_types Writes.demo_text.
Definition demo_token : TokenId := Nft 10 300.
Definition demo_transfer : named_row :=
  [("id", "e:" +:+ Ex.token_id_to_string demo_token); ("contract_address", SqlString.felt_to_sql_string 10);
   ("from_address", SqlString.felt_to_sql_string 1); ("to_address", SqlString.felt_to_sql_string 2);
   ("amount", SqlString.u256_to_sql_string 5); ("token_id", Ex.token_id_to_string demo_token); ("event_id", "e");
   ("executed_at", "")].

Lemma demo_inserted m : (Writes.store_token_transfer_writes demo_token 1 2 5 100 "e").1 = [m] → inserted m demo_transfer.
Proof.
  intros [= <-] i column a s. do 8 (destruct i as [|i]; [intros [= <-] [= <-] [= <-]; vm_compute; done|]).
  intros Hi. discriminate Hi.
Qed.

Lemma stored_rows_read_back_witness : ∃ r, token_transfer_from_row demo_transfer = Ok r ∧
  token_transfer_into_proto (E := unit) r =
    Ok (Msg.mkTokenTransfer ("e:" +:+ Ex.token_id_to_string demo_token) 10 1 2 5 (Some 300) 7 (Some "e")).
Proof.
  destruct (stored_rows_read_back (H := named_sqlx) (E := unit) demo_transfer 7 7 eq_refl eq_refl) as [Ht _].
  eapply (Ht demo_token 1 2 5 100 "e"); [split; [done|by intros u [= <-]]|done..|apply demo_inserted; reflexivity].
Defined.
End Rows.
