(* ===== verification/Reads.v ===== *)
(** * The reads of the storage ([crates/sqlite/sqlite/src/storage.rs])

    Each read of [ReadOnlyStorage] builds a query from what the client asked for, runs
    it as a page and turns the rows into the types of the protocol. [x_query] is the
    query of the read [x], [x] the read itself. *)

From S2P Require Import Prelude Proto SqlString SqlText Database Executor ModelTable Wire Messages Aggregator Matching.
From S2P Require Import Fetcher World Storage StorageWrites Query Rows.
From stdpp Require Import pretty.
From Stdlib Require Import Ascii.
Local Open Scope Z_scope.
Local Open Scope torii_scope.

Module Reads.
Import Msg Query Rows.

(** [vec!["?"; n].join(", ")] *)
Definition marks (n : nat) : string := SqlString.join ", " (replicate n "?").
(** [format!("{column} IN ({placeholders})")] *)
Definition in_list (column : string) (n : nat) : string := column +:+ " IN (" +:+ marks n +:+ ")".
Definition bind_all (values : list string) (q : QueryBuilder) : QueryBuilder := foldl (λ q v, bind_value v q) q values.
(** [if !values.is_empty() { .. }]: the condition, then its values *)
Definition filter_in (column : string) (values : list string) (q : QueryBuilder) : QueryBuilder :=
  match values with [] => q | _ => bind_all values (where_clause (in_list column (length values)) q) end.
Definition filter_text (condition : string) (value : option string) (q : QueryBuilder) : QueryBuilder :=
  match value with Some v => bind_value v (where_clause condition q) | None => q end.
#[local] Abbreviation felts l := (SqlString.felt_to_sql_string <$> l).
#[local] Abbreviation u256s l := (SqlString.u256_to_sql_string <$> l).

(** ** Queries *)
Definition controllers_query (query : ControllerQuery) : QueryBuilder :=
  filter_in "address" (felts (controller_query_contract_addresses query)) (
  filter_in "id" (controller_query_usernames query) (
  select ["address"; "username"; "deployed_at"] (new "controllers"))).

(** The conditions and values are collected apart, and the conditions added as one. *)
Definition attribute_alias (i : nat) : string := "ta" +:+ pretty i.
Definition tokens_query (query : TokenQuery) : QueryBuilder :=
  let q := select ["t.*"; "t.id as ordering"] (alias "t" (new "tokens")) in
  let addresses := felts (token_query_contract_addresses query) in
  let ids := u256s (token_query_token_ids query) in
  let filters := token_query_attribute_filters query in
  let where_conditions :=
    ["t.token_id != '' AND t.token_id IS NOT NULL"] ++
    match addresses with [] => [] | _ => [in_list "t.contract_address" (length addresses)] end ++
    match ids with [] => [] | _ => [in_list "t.token_id" (length ids)] end ++
    imap (λ i _, attribute_alias i +:+ ".trait_name = ? AND " +:+ attribute_alias i +:+ ".trait_value = ?") filters in
  let q := bind_all addresses q in
  let q := bind_all ids q in
  let q := foldl (λ q f, bind_value (attribute_filter_trait_value f) (bind_value (attribute_filter_trait_name f) q)) q filters in
  let q := foldl (λ q j, add_join j q) q
    (imap (λ i _, "JOIN token_attributes " +:+ attribute_alias i +:+ " ON t.id = " +:+ attribute_alias i +:+ ".token_id") filters) in
  where_clause (SqlString.join " AND " where_conditions) q.

Definition id_after_colon : string := "SUBSTR(token_id, INSTR(token_id, ':') + 1)".
Definition token_balances_query (query : TokenBalanceQuery) : QueryBuilder :=
  filter_in id_after_colon (u256s (balance_query_token_ids query)) (
  filter_in "contract_address" (felts (balance_query_contract_addresses query)) (
  filter_in "account_address" (felts (balance_query_account_addresses query)) (
  select ["*"] (new "token_balances")))).

Definition newline_spaces (n : nat) : string :=
  String (ascii_of_nat 10) (SqlString.join EmptyString (replicate n " ")).
Definition first_token_metadata : string :=
  "COALESCE((" +:+ newline_spaces 20 +:+ "SELECT metadata " +:+ newline_spaces 20 +:+ "FROM tokens tk " +:+
  newline_spaces 20 +:+ "WHERE tk.contract_address = t.contract_address " +:+ newline_spaces 20 +:+
  "AND tk.token_id != '' " +:+ newline_spaces 20 +:+ "AND tk.token_id IS NOT NULL" +:+ newline_spaces 20 +:+
  "ORDER BY tk.token_id " +:+ newline_spaces 20 +:+ "LIMIT 1" +:+ newline_spaces 16 +:+ "), '') as token_metadata".
Definition token_contracts_query (query : TokenContractQuery) : QueryBuilder :=
  filter_in "c.contract_type" (Writes.contract_type_to_string <$> token_contract_query_contract_types query) (
  filter_in "t.contract_address" (felts (token_contract_query_contract_addresses query)) (
  where_clause "t.token_id = '' OR t.token_id IS NULL" (
  add_join "JOIN contracts c ON c.contract_address = t.contract_address" (
  select ["t.contract_address as contract_address"; "c.contract_type as contract_type"; "t.name as name";
          "t.symbol as symbol"; "t.decimals as decimals"; "t.metadata as metadata"; "t.total_supply as total_supply";
          "t.traits as traits"; first_token_metadata; "t.contract_address as ordering"]
    (alias "t" (new "tokens")))))).

(** The conditions on the calls of a transaction, with their values. *)
Definition call_filters (f : TransactionFilter) : list (string * list string) :=
  filter (λ c, c.2 ≠ [])
    [("tc.contract_address", felts (tx_filter_contract_addresses f)); ("tc.entrypoint", tx_filter_entrypoints f);
     ("tc.caller_address", felts (tx_filter_caller_addresses f))].
Definition filter_calls (f : TransactionFilter) (q : QueryBuilder) : QueryBuilder :=
  match call_filters f with
  | [] => q
  | call_conditions =>
      let q := add_join "JOIN transaction_calls tc ON tc.transaction_hash = t.transaction_hash" q in
      let q := foldl (λ q c, bind_all c.2 q) q call_conditions in
      where_clause ("(" +:+ SqlString.join " AND " ((λ c, in_list c.1 (length c.2)) <$> call_conditions) +:+ ")") q
  end.
Definition filter_models (f : TransactionFilter) (q : QueryBuilder) : QueryBuilder :=
  match tx_filter_model_selectors f with
  | [] => q
  | _ => filter_in "tm.model_id" (felts (tx_filter_model_selectors f))
           (add_join "JOIN transaction_models tm ON tm.transaction_hash = t.transaction_hash" q)
  end.
Definition transactions_query (query : TransactionQuery) : QueryBuilder :=
  let q := select ["t.id"; "t.transaction_hash"; "t.sender_address"; "t.calldata"; "t.max_fee"; "t.signature"; "t.nonce";
                   "t.block_number"; "t.transaction_type"; "t.executed_at"; "t.created_at"]
             (alias "t" (new "transactions")) in
  match tx_query_filter query with
  | None => q
  | Some f =>
      filter_text "t.block_number <= ?" (pretty <$> tx_filter_to_block f) (
      filter_text "t.block_number >= ?" (pretty <$> tx_filter_from_block f) (
      filter_models f (filter_calls f (
      filter_in "t.transaction_hash" (felts (tx_filter_transaction_hashes f)) q))))
  end.

Definition events_query (query : EventQuery) : QueryBuilder :=
  let q := select ["id"; "keys"; "data"; "transaction_hash"; "executed_at"; "created_at"] (new "events") in
  match event_query_keys query with
  | None => q
  | Some keys =>
      let keys_pattern := Matching.build_keys_pattern keys in
      if String.eqb keys_pattern EmptyString then q else bind_value keys_pattern (where_clause "keys REGEXP ?" q)
  end.

Definition filter_accounts (accounts : list string) (q : QueryBuilder) : QueryBuilder :=
  match accounts with
  | [] => q
  | _ =>
      let n := length accounts in
      bind_all accounts (bind_all accounts
        (where_clause ("((from_address IN (" +:+ marks n +:+ ")) OR (to_address IN (" +:+ marks n +:+ ")))") q))
  end.
Definition token_transfers_query (query : TokenTransferQuery) : QueryBuilder :=
  filter_in id_after_colon (u256s (transfer_query_token_ids query)) (
  filter_in "contract_address" (felts (transfer_query_contract_addresses query)) (
  filter_accounts (felts (transfer_query_account_addresses query)) (
  select ["*"] (new "token_transfers")))).

Definition aggregations_query (query : AggregationQuery) : QueryBuilder :=
  filter_in "a.entity_id" (aggregation_query_entity_ids query) (
  filter_in "a.aggregator_id" (aggregation_query_aggregator_ids query) (
  select ["a.id"; "a.aggregator_id"; "a.entity_id"; "a.value"; "a.display_value"; "a.model_id"; "a.created_at";
          "a.updated_at"; "ROW_NUMBER() OVER (PARTITION BY a.aggregator_id ORDER BY a.value DESC) as position"]
    (alias "a" (new "aggregations")))).

Definition activities_query `{Chrono} (query : ActivityQuery) : QueryBuilder :=
  filter_text "session_end <= ?" (to_rfc3339 <$> activity_query_to_time query) (
  filter_text "session_end >= ?" (to_rfc3339 <$> activity_query_from_time query) (
  filter_in "caller_address" (felts (activity_query_caller_addresses query)) (
  filter_in "namespace" (activity_query_namespaces query) (
  filter_in "world_address" (felts (activity_query_world_addresses query)) (
  select ["id"; "world_address"; "namespace"; "caller_address"; "session_start"; "session_end"; "action_count"; "actions";
          "updated_at"] (new "activities")))))).

Definition achievements_query (query : AchievementQuery) : QueryBuilder :=
  filter_text "hidden = ?" ((λ hidden : bool, if hidden then "1" else "0") <$> achievement_query_hidden query) (
  filter_in "namespace" (achievement_query_namespaces query) (
  filter_in "world_address" (felts (achievement_query_world_addresses query)) (
  select ["id"; "world_address"; "namespace"; "entity_id"; "hidden"; "index_num"; "points"; "start"; "end"; "group_name";
          "icon"; "title"; "description"; "tasks"; "data"; "total_completions"; "completion_rate"; "created_at";
          "updated_at"] (new "achievements")))).

Definition player_achievements_query (query : PlayerAchievementQuery) : QueryBuilder :=
  group_by "player_id" (
  filter_in "player_id" (felts (player_query_player_addresses query)) (
  filter_in "namespace" (player_query_namespaces query) (
  filter_in "world_address" (felts (player_query_world_addresses query)) (
  select ["player_id"; "SUM(total_points) as total_points"; "SUM(completed_achievements) as completed_achievements";
          "SUM(total_achievements) as total_achievements"; "AVG(completion_percentage) as completion_percentage";
          "MAX(last_achievement_at) as last_achievement_at"; "MIN(created_at) as created_at";
          "MAX(updated_at) as updated_at"] (new "player_achievements"))))).

(** ** Reads *)
Section reads.
Context `{Sqlx} {C : CursorCodec} {PL : Pool} `{SqlString.FeltFromStr} {CT : ColumnText} `{Chrono}.

(** The page of a query, each of its rows decoded. *)
Definition read_page {A} (q : QueryBuilder) (p : Pagination) (default_order_by : OrderBy)
    (decode : SqliteRow → outcome Error A) : outcome Error (Page A) :=
  let? page := execute_paginated_query q p default_order_by in
  let? items := outcome_mapM decode (page_items _ page) in
  Ok (mkPage _ items (page_next_cursor _ page)).
(** [T::from_row(&row)?.into()] *)
Definition decoded {R A} (from_row : SqliteRow → outcome Error R) (into : R → outcome Error A) (row : SqliteRow)
  : outcome Error A :=
  let? r := from_row row in into r.

Definition controllers (query : ControllerQuery) : outcome Error (Page Controller) :=
  read_page (controllers_query query) (controller_query_pagination query) (mkOrderBy "address" Desc)
    (decoded controller_from_row controller_into_proto).
Definition tokens (query : TokenQuery) : outcome Error (Page Token) :=
  read_page (tokens_query query) (token_query_pagination query) (mkOrderBy "ordering" Desc)
    (decoded token_from_row token_into_proto).
Definition token_balances (query : TokenBalanceQuery) : outcome Error (Page TokenBalance) :=
  read_page (token_balances_query query) (balance_query_pagination query) (mkOrderBy "id" Desc)
    (decoded token_balance_from_row token_balance_into_proto).
Definition token_contracts (query : TokenContractQuery) : outcome Error (Page TokenContract) :=
  read_page (token_contracts_query query) (token_contract_query_pagination query) (mkOrderBy "ordering" Desc)
    (decoded token_contract_from_row token_contract_into_proto).
Definition events (query : EventQuery) : outcome Error (Page Event) :=
  read_page (events_query query) (event_query_pagination query) (mkOrderBy "id" Desc)
    (decoded event_from_row event_into_proto).
Definition token_transfers (query : TokenTransferQuery) : outcome Error (Page TokenTransfer) :=
  read_page (token_transfers_query query) (transfer_query_pagination query) (mkOrderBy "id" Desc)
    (decoded token_transfer_from_row token_transfer_into_proto).
Definition aggregations (query : AggregationQuery) : outcome Error (Page AggregationEntry) :=
  read_page (aggregations_query query) (aggregation_query_pagination query) (mkOrderBy "position" Asc)
    (decoded aggregation_from_row aggregation_into_proto).
Definition activities (query : ActivityQuery) : outcome Error (Page Activity) :=
  read_page (activities_query query) (activity_query_pagination query) (mkOrderBy "session_end" Desc)
    (decoded activity_from_row activity_into_proto).

(** Contracts are not paginated. *)
Definition contracts_statement (query : ContractQuery) : string * list string :=
  let addresses := felts (contract_query_contract_addresses query) in
  let types := Writes.contract_type_to_string <$> contract_query_contract_types query in
  let conditions :=
    match addresses with [] => [] | _ => [in_list "contract_address" (length addresses)] end ++
    match types with [] => [] | _ => [in_list "contract_type" (length types)] end in
  ("SELECT * FROM contracts" +:+ clause_text " WHERE " " AND " conditions +:+ " ORDER BY created_at DESC", addresses ++ types).
Definition contracts (query : ContractQuery) : outcome Error (list Contract) :=
  let? rows := sql (fetch_all (contracts_statement query).1 (contracts_statement query).2) in
  let? rows := outcome_mapM contract_from_row rows in
  outcome_mapM contract_into_proto rows.

Definition models_statement (world_addresses selectors : list Felt) : string * list string :=
  let conditions :=
    match world_addresses with [] => [] | _ => [in_list "world_address" (length world_addresses)] end ++
    match selectors with [] => [] | _ => [in_list "model_selector" (length selectors)] end in
  ("SELECT * FROM models" +:+ clause_text " WHERE " " AND " conditions, felts world_addresses ++ felts selectors).

(** [token_ids], the ids of the table as they are parsed *)
Definition token_id_of (id : string) : outcome Error TokenId :=
  match SqlString.split ":"%char id with
  | [a; u] => let? addr := felt_of a in let? token_id := u256_of u in Ok (Nft addr token_id)
  | a :: _ => let? addr := felt_of a in Ok (Proto.TokenContract addr)
  | [] => Panic
  end.
Definition token_ids : outcome Error (list TokenId) :=
  let? rows := sql (fetch_all "SELECT id FROM tokens" []) in
  let? ids := outcome_mapM (λ row, sql (row_string row "id")) rows in
  outcome_mapM token_id_of ids.

(** ** Transactions *)

(** [Felt::from_str(&s).map_err(..)?] *)
Definition felt_or_error (s : string) : outcome Error Felt := ok_or (ErrParse ParseFromStr) (SqlString.felt_from_str s).

Definition transaction_calls_statement : string :=
  "SELECT contract_address, entrypoint, calldata, call_type, caller_address" +:+ newline_spaces 13 +:+
  "FROM transaction_calls" +:+ newline_spaces 13 +:+ "WHERE transaction_hash = ?".
Definition call_of_row (row : SqliteRow) : outcome Error TransactionCall :=
  let? contract_address := sql (row_string row "contract_address") in
  let? entrypoint := sql (row_string row "entrypoint") in
  let? calldata := sql (row_string row "calldata") in
  let? call_type := sql (row_string row "call_type") in
  let? caller_address := sql (row_string row "caller_address") in
  let? contract_address := felt_or_error contract_address in
  let? calldata := felts_of calldata in
  let? call_type := map_err ErrProto (call_type_from_str call_type) in
  let? caller_address := felt_or_error caller_address in
  Ok (mkTransactionCall contract_address entrypoint calldata call_type caller_address).
Definition fetch_transaction_calls (transaction_hash : string) : outcome Error (list TransactionCall) :=
  let? rows := sql (fetch_all transaction_calls_statement [transaction_hash]) in
  outcome_mapM call_of_row rows.
Definition fetch_transaction_models (transaction_hash : string) : outcome Error (list Felt) :=
  let? rows := sql (fetch_all "SELECT model_id FROM transaction_models WHERE transaction_hash = ?" [transaction_hash]) in
  outcome_mapM (λ row, let? model_id := sql (row_string row "model_id") in felt_or_error model_id) rows.

Definition transaction_of (header : TransactionRow) : outcome Error Transaction :=
  let? calls := fetch_transaction_calls (txr_transaction_hash header) in
  let? unique_models := fetch_transaction_models (txr_transaction_hash header) in
  let? transaction_hash := felt_or_error (txr_transaction_hash header) in
  let? sender_address := felt_or_error (txr_sender_address header) in
  let? calldata := felts_of (txr_calldata header) in
  let? max_fee := felt_or_error (txr_max_fee header) in
  let? signature := felts_of (txr_signature header) in
  let? nonce := felt_or_error (txr_nonce header) in
  Ok (mkTransaction transaction_hash sender_address calldata max_fee signature nonce (txr_block_number header)
        (txr_transaction_type header) (txr_executed_at header) calls unique_models).
Definition transactions (query : TransactionQuery) : outcome Error (Page Transaction) :=
  let? page := read_page (transactions_query query) (tx_query_pagination query) (mkOrderBy "id" Desc) transaction_from_row in
  let? transactions := outcome_mapM transaction_of (page_items _ page) in
  Ok (mkPage _ transactions (page_next_cursor _ page)).
End reads.

(** ** The statements of the reads *)
Inductive Read : Type :=
| ReadControllers (q : ControllerQuery)
| ReadTokens (q : TokenQuery)
| ReadBalances (q : TokenBalanceQuery)
| ReadTokenContracts (q : TokenContractQuery)
| ReadTransactions (q : TransactionQuery)
| ReadEvents (q : EventQuery)
| ReadTransfers (q : TokenTransferQuery)
| ReadAggregations (q : AggregationQuery)
| ReadActivities (q : ActivityQuery)
| ReadAchievements (q : AchievementQuery)
| ReadPlayers (q : PlayerAchievementQuery).
Definition query_of `{Chrono} (r : Read) : QueryBuilder :=
  match r with
  | ReadControllers q => controllers_query q
  | ReadTokens q => tokens_query q
  | ReadBalances q => token_balances_query q
  | ReadTokenContracts q => token_contracts_query q
  | ReadTransactions q => transactions_query q
  | ReadEvents q => events_query q
  | ReadTransfers q => token_transfers_query q
  | ReadAggregations q => aggregations_query q
  | ReadActivities q => activities_query q
  | ReadAchievements q => achievements_query q
  | ReadPlayers q => player_achievements_query q
  end.
Definition order_of (r : Read) : OrderBy :=
  match r with
  | ReadControllers _ => mkOrderBy "address" Desc
  | ReadTokens _ | ReadTokenContracts _ => mkOrderBy "ordering" Desc
  | ReadBalances _ | ReadTransactions _ | ReadEvents _ | ReadTransfers _ => mkOrderBy "id" Desc
  | ReadAggregations _ => mkOrderBy "position" Asc
  | ReadActivities _ => mkOrderBy "session_end" Desc
  | ReadAchievements _ => mkOrderBy "index_num" Asc
  | ReadPlayers _ => mkOrderBy "total_points" Desc
  end.

(** ** Values and placeholders *)
Definition plain (s : string) : Prop := placeholders s = 0%nat.
Definition plain_parts (q : QueryBuilder) : Prop :=
  plain (table_name q) ∧ plain (table_alias q) ∧ Forall plain (selections q) ∧ Forall plain (joins q) ∧
  Forall plain (order_fields q) ∧ plain (default EmptyString (qb_group_by q)) ∧ plain (default EmptyString (having_clause q)).
Definition bound_query (q : QueryBuilder) : Prop :=
  list_sum (placeholders <$> where_conditions q) = length (bind_values q) ∧ plain_parts q.

Lemma clause_marks keyword sep parts : plain keyword → plain sep →
  placeholders (clause_text keyword sep parts) = list_sum (placeholders <$> parts).
Proof. intros Hk Hs. destruct parts; [done|]. unfold clause_text. by rewrite placeholders_app, placeholders_join, Hk. Qed.
Lemma optional_marks {A} keyword (show : A → string) o : plain keyword → (∀ a, o = Some a → plain (show a)) →
  plain (optional_text keyword show o).
Proof. intros Hk Ho. destruct o as [a|]; [|done]. unfold plain, optional_text. by rewrite placeholders_app, Hk, Ho. Qed.
Lemma plain_sum l : Forall plain l → list_sum (placeholders <$> l) = 0%nat.
Proof. induction 1 as [|x l Hx Hl IH]; [done|]. simpl. rewrite Hx. exact IH. Qed.

Lemma build_marks q : plain_parts q → placeholders (build q) = list_sum (placeholders <$> where_conditions q).
Proof.
  intros (Ht & Ha & Hs & Hj & Ho & Hg & Hh). unfold build. rewrite !placeholders_app, !clause_marks by done.
  rewrite placeholders_join, (plain_sum (selections q)), (plain_sum (joins q)), (plain_sum (order_fields q)), Ht, Ha by done.
  rewrite (optional_marks " GROUP BY " id), (optional_marks " HAVING " id), (optional_marks " LIMIT " pretty); try done.
  - intros n _. apply pretty_plain_Z.
  - intros a Heq. by rewrite Heq in Hh.
  - intros a Heq. by rewrite Heq in Hg.
Qed.

Lemma bind_all_eq values q : bind_all values q =
  mkQueryBuilder (table_name q) (table_alias q) (selections q) (joins q) (where_conditions q) (bind_values q ++ values)
    (order_fields q) (qb_group_by q) (having_clause q) (qb_limit q).
Proof.
  revert q. induction values as [|v values IH]; intros q; [by destruct q; rewrite app_nil_r|].
  change (bind_all (v :: values) q) with (bind_all values (bind_value v q)). rewrite IH.
  unfold bind_value; cbn. by rewrite <- app_assoc.
Qed.

Lemma marks_count n : placeholders (marks n) = n.
Proof. by apply join_marks. Qed.
Lemma in_list_marks column n : plain column → placeholders (in_list column n) = n.
Proof. intros Hc. unfold in_list. rewrite !placeholders_app, Hc, marks_count. simpl. lia. Qed.

(** A condition with a value for each of its placeholders. *)
Lemma add_condition_bound condition values q : placeholders condition = length values →
  bound_query q → bound_query (bind_all values (where_clause condition q)).
Proof.
  intros Hc [Hb Hp]. split; [|by rewrite bind_all_eq].
  rewrite bind_all_eq. cbn [where_conditions bind_values where_clause]. rewrite fmap_app, list_sum_app, length_app, Hb, <- Hc.
  simpl. lia.
Qed.
Lemma filter_in_bound column values q : plain column → bound_query q → bound_query (filter_in column values q).
Proof.
  intros Hc Hq. unfold filter_in. destruct values as [|v values]; [done|].
  apply add_condition_bound; [by apply in_list_marks|done].
Qed.
Lemma filter_text_bound condition value q : placeholders condition = 1%nat → bound_query q →
  bound_query (filter_text condition value q).
Proof. intros Hc Hq. destruct value as [v|]; [|done]. by apply (add_condition_bound condition [v]). Qed.
Lemma add_join_bound j q : plain j → bound_query q → bound_query (add_join j q).
Proof.
  intros Hj [Hb (?&?&?&Hjs&?&?&?)]. split; [done|]. unfold plain_parts; cbn. split_and!; try done.
  apply Forall_app. split; [done|by repeat constructor].
Qed.

Lemma bind_all_app a b q : bind_all b (bind_all a q) = bind_all (a ++ b) q.
Proof. unfold bind_all. by rewrite foldl_app. Qed.

Lemma attributes_bound (filters : list TokenAttributeFilter) q :
  foldl (λ q f, bind_value (attribute_filter_trait_value f) (bind_value (attribute_filter_trait_name f) q)) q filters =
  bind_all (filters ≫= λ f, [attribute_filter_trait_name f; attribute_filter_trait_value f]) q.
Proof. revert q. induction filters as [|f filters IH]; intros q; [done|]. cbn [foldl]. by rewrite IH. Qed.

Lemma joins_bound js q : Forall plain js → bound_query q → bound_query (foldl (λ q j, add_join j q) q js).
Proof.
  intros Hjs. revert q. induction Hjs as [|j js Hj Hjs IH]; intros q Hq; [done|]. cbn [foldl]. apply IH. by apply add_join_bound.
Qed.

Lemma imap_sum {A} (f : nat → A → string) k l : (∀ i a, placeholders (f i a) = k) →
  list_sum (placeholders <$> imap f l) = (k * length l)%nat.
Proof.
  revert f. induction l as [|a l IH]; intros f Hf; [simpl; lia|]. rewrite imap_cons. cbn [fmap list_fmap list_sum length].
  simpl. rewrite Hf, IH; [lia|]. intros i b. apply Hf.
Qed.

Lemma alias_plain i : plain (attribute_alias i).
Proof. unfold plain, attribute_alias. by rewrite placeholders_app, pretty_plain. Qed.

Lemma where_joins condition js q :
  where_clause condition (foldl (λ q j, add_join j q) q js) = foldl (λ q j, add_join j q) (where_clause condition q) js.
Proof. revert q. induction js as [|j js IH]; intros q; [done|]. cbn [foldl]. by rewrite IH. Qed.
Lemma where_bind_all condition values q : where_clause condition (bind_all values q) = bind_all values (where_clause condition q).
Proof. by rewrite !bind_all_eq. Qed.

Lemma tokens_bound query : bound_query (tokens_query query).
Proof.
  unfold tokens_query. set (addresses := felts _). set (ids := u256s _). set (filters := token_query_attribute_filters query).
  rewrite attributes_bound, !bind_all_app.
  set (values := addresses ++ ids ++ (filters ≫= λ f, [attribute_filter_trait_name f; attribute_filter_trait_value f])).
  set (condition := SqlString.join " AND " _).
  assert (Hc : placeholders condition = length values).
  { unfold condition, values. rewrite placeholders_join, !fmap_app, !list_sum_app, !length_app by done.
    rewrite (imap_sum _ 2) by (intros i a; by rewrite !placeholders_app, !alias_plain).
    assert (length (filters ≫= (λ f, [attribute_filter_trait_name f; attribute_filter_trait_value f])) = (2 * length filters)%nat) as ->
      by (clear; induction filters as [|f fs IH]; [done|]; cbn; lia).
    assert (Hin : ∀ column (l : list string), plain column →
      list_sum (placeholders <$> match l with [] => [] | _ :: _ => [in_list column (length l)] end) = length l).
    { intros column [|x l] Hp; [done|]. cbn [fmap list_fmap list_sum]. rewrite in_list_marks by done. simpl. lia. }
    rewrite !Hin by done. simpl. lia. }
  rewrite where_joins, where_bind_all. apply joins_bound; [|apply add_condition_bound; [exact Hc|by repeat constructor]].
  apply Forall_lookup. intros i x (y & _ & ->)%list_lookup_imap_Some. unfold plain. by rewrite !placeholders_app, !alias_plain.
Qed.

Lemma calls_bound f q : bound_query q → bound_query (filter_calls f q).
Proof.
  intros Hq. unfold filter_calls.
  assert (Hcols : Forall (λ c : string * list string, plain c.1) (call_filters f))
    by (apply Forall_forall; intros c [_ Hc]%list_elem_of_filter;
        repeat (apply elem_of_cons in Hc as [->|Hc]; [done|]); by apply elem_of_nil in Hc).
  destruct (call_filters f) as [|c cs]; [done|]. set (l := c :: cs) in *. clearbody l.
  set (q' := add_join _ q).
  assert (foldl (λ q c, bind_all c.2 q) q' l = bind_all (concat l.*2) q') as ->.
  { clearbody q'. clear. revert q'. induction l as [|c l IH]; intros q1; [done|]. cbn [foldl fmap list_fmap concat]. by rewrite IH, bind_all_app. }
  set (condition := "(" +:+ _ +:+ ")").
  assert (Hc : placeholders condition = length (concat l.*2)).
  { unfold condition. rewrite !placeholders_app, placeholders_join by done. clear -Hcols.
    induction Hcols as [|c l Hc Hl IH]; [done|]. cbn [fmap list_fmap list_sum concat]. rewrite length_app, in_list_marks by done.
    simpl in *. lia. }
  assert (Hb : bound_query (bind_all (concat l.*2) (where_clause condition q')))
    by (apply add_condition_bound; [done|]; by apply add_join_bound).
  rewrite bind_all_eq in Hb |- *. exact Hb.
Qed.

Lemma query_bound `{Chrono} r : bound_query (query_of r).
Proof.
  destruct r; cbn [query_of].
  - unfold controllers_query. repeat (apply filter_in_bound; [done|]). by repeat constructor.
  - apply tokens_bound.
  - unfold token_balances_query. repeat (apply filter_in_bound; [done|]). by repeat constructor.
  - unfold token_contracts_query. repeat (apply filter_in_bound; [done|]). by repeat constructor.
  - unfold transactions_query. destruct (tx_query_filter q) as [f|]; [|by repeat constructor].
    do 2 (apply filter_text_bound; [done|]). unfold filter_models.
    assert (bound_query (filter_calls f (filter_in "t.transaction_hash" (felts (tx_filter_transaction_hashes f))
      (select ["t.id"; "t.transaction_hash"; "t.sender_address"; "t.calldata"; "t.max_fee"; "t.signature"; "t.nonce";
                   "t.block_number"; "t.transaction_type"; "t.executed_at"; "t.created_at"] (alias "t" (new "transactions")))))) as Hc
      by (apply calls_bound, filter_in_bound; [done|by repeat constructor]).
    destruct (tx_filter_model_selectors f); [done|]. apply filter_in_bound; [done|]. by apply add_join_bound.
  - unfold events_query. destruct (event_query_keys q) as [k|]; [|by repeat constructor].
    destruct (String.eqb _ _); [by repeat constructor|]. apply (add_condition_bound _ [_]); [done|by repeat constructor].
  - unfold token_transfers_query. repeat (apply filter_in_bound; [done|]). unfold filter_accounts.
    destruct (felts _) as [|a accounts]; [by repeat constructor|]. rewrite bind_all_app.
    apply add_condition_bound; [|by repeat constructor].
    rewrite !placeholders_app, !marks_count, length_app. simpl. lia.
  - unfold aggregations_query. repeat (apply filter_in_bound; [done|]). by repeat constructor.
  - unfold activities_query. do 2 (apply filter_text_bound; [done|]). repeat (apply filter_in_bound; [done|]). by repeat constructor.
  - unfold achievements_query. apply filter_text_bound; [done|]. repeat (apply filter_in_bound; [done|]). by repeat constructor.
  - unfold player_achievements_query.
    assert (∀ q0, bound_query q0 → bound_query (group_by "player_id" q0)) as Hg by by intros q0 [? (?&?&?&?&?&?&?)]; repeat split.
    apply Hg. repeat (apply filter_in_bound; [done|]). by repeat constructor.
Qed.

Lemma where_all_eq conditions q : foldl (λ q condition, where_clause condition q) q conditions =
  mkQueryBuilder (table_name q) (table_alias q) (selections q) (joins q) (where_conditions q ++ conditions)
    (bind_values q) (order_fields q) (qb_group_by q) (having_clause q) (qb_limit q).
Proof.
  revert q. induction conditions as [|c cs IH]; intros q; [by destruct q; rewrite app_nil_r|].
  cbn [foldl]. rewrite IH. cbn. by rewrite <- app_assoc.
Qed.
Lemma order_all_eq (field : OrderBy → string) (d : OrderBy → OrderDirection) obs q :
  foldl (λ q ob, order_by (field ob) (d ob) q) q obs =
  mkQueryBuilder (table_name q) (table_alias q) (selections q) (joins q) (where_conditions q) (bind_values q)
    (order_fields q ++ ((λ ob, field ob +:+ " " +:+ direction_str (d ob)) <$> obs))
    (qb_group_by q) (having_clause q) (qb_limit q).
Proof.
  revert q. induction obs as [|ob obs IH]; intros q; [by destruct q; rewrite app_nil_r|].
  cbn [foldl]. rewrite IH. cbn. by rewrite <- app_assoc.
Qed.
Lemma page_statement_eq q p conditions binds n : page_statement q p conditions binds n =
  mkQueryBuilder (table_name q) (table_alias q) (selections q) (joins q) (where_conditions q ++ conditions)
    (bind_values q ++ binds)
    (order_fields q ++ ((λ ob, ("[" +:+ order_field ob +:+ "]") +:+ " " +:+
       direction_str (order_direction_for (order_direction ob) (page_direction p))) <$> page_order_by p))
    (qb_group_by q) (having_clause q) (Some n).
Proof.
  unfold page_statement. rewrite where_all_eq.
  change (foldl (λ q b, bind_value b q) ?q0 binds) with (bind_all binds q0). rewrite bind_all_eq, order_all_eq. done.
Qed.

(** Every read binds a value to each placeholder of its statement, and no more: for
    every filter a client may ask for, every cursor and every limit, when the client
    asks for no order of its own. *)
Theorem reads_bound `{Chrono} `{Sqlx} (r : Read) (p : Pagination) (values : option (list string))
    (conditions binds : list string) (n : Z) :
  page_order_by p = [] →
  build_cursor_conditions (with_default_order p (order_of r)) values = Ok (conditions, binds) →
  let statement := page_statement (query_of r) (with_default_order p (order_of r)) conditions binds n in
  placeholders (build statement) = length (bind_values statement).
Proof.
  intros Hob Hcur. cbv zeta. rewrite page_statement_eq.
  destruct (query_bound r) as [Hsum (?&?&?&?&Ho&?&?)].
  assert (Hfield : plain (order_field (order_of r))) by by destruct r.
  rewrite build_marks; cbn [where_conditions bind_values].
  - rewrite fmap_app, list_sum_app, length_app, Hsum. f_equal. revert Hcur. unfold build_cursor_conditions.
    cbn [with_default_order page_order_by page_direction]. rewrite Hob. destruct values as [vs|]; [|by intros [= <- <-]].
    destruct vs as [|v [|w vs]]; [done| |done]. intros [= <- <-]. cbn [app cursor_conditions fmap list_fmap list_sum].
    rewrite !placeholders_app, Hfield. by destruct (order_of r) as [? []], (page_direction p).
  - unfold plain_parts; cbn. split_and!; try done. apply Forall_app. split; [done|]. rewrite Hob.
    constructor; [|constructor]. cbn [app]. unfold plain. rewrite !placeholders_app, Hfield.
    by destruct r, (page_direction p).
Qed.

(** ** Conditions are read together *)
Definition conjunctive (q : QueryBuilder) : Prop := Forall no_or (where_conditions q).

Lemma marks_balanced n : balanced (marks n) = true.
Proof.
  unfold marks. induction n as [|[|n] IH]; [done..|]. cbn [replicate] in *. rewrite join_cons2.
  do 2 (apply balanced_app; [done|]). exact IH.
Qed.
Lemma in_list_atomic column n : atomic column = true → atomic (in_list column n) = true.
Proof.
  intros (Hb & Ha & Ho)%atomic_spec. destruct (parens_word _ (marks_balanced n)) as [Hpb Hpw].
  change (in_list column n) with (column +:+ " " +:+ ("IN" +:+ " " +:+ parens (marks n))).
  apply atomic_spec. rewrite top_words_app, (top_words_app "IN"), Hpw by done.
  split; [apply balanced_app; [done|]; apply balanced_app; [done|]; by apply balanced_app|].
  change (top_words "IN") with ["IN"]. rewrite !not_elem_of_app, !list_elem_of_singleton. done.
Qed.
Lemma atomic_no_or c : atomic c = true → no_or c.
Proof. intros (?&?&?)%atomic_spec. done. Qed.

Lemma add_condition_conj condition values q : no_or condition → conjunctive q →
  conjunctive (bind_all values (where_clause condition q)).
Proof.
  intros Hc Hq. unfold conjunctive. rewrite bind_all_eq. cbn. apply Forall_app. split; [done|by apply Forall_singleton].
Qed.
Lemma filter_in_conj column values q : atomic column = true → conjunctive q → conjunctive (filter_in column values q).
Proof.
  intros Hc Hq. unfold filter_in. destruct values as [|v values]; [done|].
  apply add_condition_conj; [by apply atomic_no_or, in_list_atomic|done].
Qed.
Lemma filter_text_conj condition value q : no_or condition → conjunctive q → conjunctive (filter_text condition value q).
Proof. intros Hc Hq. destruct value as [v|]; [|done]. by apply (add_condition_conj condition [v]). Qed.
Ltac decide_no_or := match goal with |- no_or ?s => refine (bool_decide_unpack (no_or s) _); vm_compute; exact I end.
Ltac conj_filters :=
  repeat first [apply filter_in_conj; [by vm_compute|] | apply filter_text_conj; [decide_no_or|]].

Lemma attribute_no_or i : no_or (attribute_alias i +:+ ".trait_name = ? AND " +:+ attribute_alias i +:+ ".trait_value = ?").
Proof.
  assert (Hw : ∀ t, wordy t = true → wordy (attribute_alias i +:+ t) = true).
  { intros t Ht. apply wordy_app; [|done]. apply wordy_app; [done|apply pretty_wordy]. }
  destruct (wordy_word _ (Hw ".trait_name" eq_refl)) as [Hb1 Hw1].
  destruct (wordy_word _ (Hw ".trait_value" eq_refl)) as [Hb2 Hw2].
  replace (attribute_alias i +:+ ".trait_name = ? AND " +:+ attribute_alias i +:+ ".trait_value = ?")
    with ((attribute_alias i +:+ ".trait_name") +:+ " " +:+ ("= ?" +:+ " " +:+ ("AND" +:+ " " +:+ ((attribute_alias i +:+ ".trait_value") +:+ " " +:+ "= ?"))))
    by by rewrite !SqlString.append_assoc.
  split.
  - do 6 (apply balanced_app; [done|]). by apply balanced_app.
  - rewrite top_words_app, (top_words_app "= ?"), (top_words_app "AND"), (top_words_app (attribute_alias i +:+ ".trait_value")), Hw1, Hw2 by done.
    change (top_words "= ?") with ["="; "?"]. change (top_words "AND") with ["AND"].
    rewrite !not_elem_of_app, !not_elem_of_cons. split_and!; (discriminate || apply not_elem_of_nil).
Qed.

Lemma joins_conj js q : conjunctive q → conjunctive (foldl (λ q j, add_join j q) q js).
Proof. revert q. induction js as [|j js IH]; intros q Hq; [done|]. cbn [foldl]. by apply IH. Qed.
Lemma tokens_conj query : conjunctive (tokens_query query).
Proof.
  unfold tokens_query. rewrite attributes_bound, !bind_all_app, where_joins, where_bind_all.
  apply joins_conj, add_condition_conj; [|by constructor]. apply no_or_join. repeat apply Forall_app_2.
  - apply Forall_singleton. decide_no_or.
  - destruct (felts _); [done|]. apply Forall_singleton. by apply atomic_no_or, in_list_atomic.
  - destruct (u256s _); [done|]. apply Forall_singleton. by apply atomic_no_or, in_list_atomic.
  - apply Forall_lookup. intros i x (y & _ & ->)%list_lookup_imap_Some. apply attribute_no_or.
Qed.

Lemma calls_conj f q : conjunctive q → conjunctive (filter_calls f q).
Proof.
  intros Hq. unfold filter_calls.
  assert (Hcols : Forall (λ c : string * list string, atomic c.1 = true) (call_filters f))
    by (apply Forall_forall; intros c [_ Hc]%list_elem_of_filter;
        repeat (apply elem_of_cons in Hc as [->|Hc]; [done|]); by apply elem_of_nil in Hc).
  destruct (call_filters f) as [|c cs]; [done|]. set (l := c :: cs) in *. clearbody l.
  assert (Hwhere : ∀ q0, where_conditions (foldl (λ q c, bind_all c.2 q) q0 l) = where_conditions q0).
  { clear. induction l as [|c l IH]; intros q0; [done|]. cbn [foldl]. by rewrite IH, bind_all_eq. }
  unfold conjunctive, where_clause. cbn [where_conditions]. rewrite Hwhere. apply Forall_app. split; [done|].
  apply Forall_singleton, atomic_no_or, parens_atomic, (balanced_join "AND"); [by left|].
  apply Forall_fmap. eapply Forall_impl; [exact Hcols|]. intros c' Hc'. by apply atomic_spec, in_list_atomic.
Qed.

Lemma query_conj `{Chrono} r : (∀ q, r ≠ ReadTokenContracts q) → conjunctive (query_of r).
Proof.
  intros Hr. destruct r as [q|q|q|q|q|q|q|q|q|q|q]; cbn [query_of].
  - unfold controllers_query. conj_filters. constructor.
  - apply tokens_conj.
  - unfold token_balances_query. conj_filters. constructor.
  - by destruct (Hr q).
  - unfold transactions_query. destruct (tx_query_filter q) as [f|]; [|constructor].
    do 2 (apply filter_text_conj; [decide_no_or|]). unfold filter_models.
    match goal with |- context [filter_calls f ?q0] => assert (Hc : conjunctive (filter_calls f q0)) end.
    { apply calls_conj. conj_filters. constructor. }
    destruct (tx_filter_model_selectors f); [done|]. apply filter_in_conj; [by vm_compute|]. exact Hc.
  - unfold events_query. destruct (event_query_keys q) as [k|]; [|constructor].
    destruct (String.eqb _ _); [constructor|]. apply (add_condition_conj _ [_]); [decide_no_or|constructor].
  - unfold token_transfers_query. conj_filters. unfold filter_accounts.
    destruct (felts _) as [|a accounts]; [constructor|]. rewrite bind_all_app. apply add_condition_conj; [|constructor].
    set (n := length (a :: accounts)).
    assert (Hin : ∀ column, atomic column = true → balanced (parens (in_list column n)) = true).
    { intros column Hc. by apply parens_word, atomic_spec, in_list_atomic. }
    replace ("((from_address IN (" +:+ marks n +:+ ")) OR (to_address IN (" +:+ marks n +:+ ")))")
      with (parens (parens (in_list "from_address" n) +:+ " OR " +:+ parens (in_list "to_address" n)))
      by by unfold parens, in_list; rewrite !SqlString.append_assoc.
    apply atomic_no_or, parens_atomic.
    apply balanced_app; [by apply Hin|]. apply balanced_app; [done|by apply Hin].
  - unfold aggregations_query. conj_filters. constructor.
  - unfold activities_query. conj_filters. constructor.
  - unfold achievements_query. conj_filters. constructor.
  - unfold player_achievements_query. unfold conjunctive. cbn [group_by where_conditions].
    match goal with |- Forall _ (where_conditions ?q0) => change (conjunctive q0) end. conj_filters. constructor.
Qed.

(** The conditions of every read but that of the token contracts are read together:
    whatever filters the client asks for, the [WHERE] of the statement has no [OR]
    outside of its parentheses, so that each filter and the condition of the cursor
    restrict all the rows. *)
Theorem reads_conjoined `{Chrono} `{Sqlx} (r : Read) (p : Pagination) (values : option (list string))
    (conditions binds : list string) (n : Z) :
  (∀ q, r ≠ ReadTokenContracts q) → page_order_by p = [] →
  build_cursor_conditions (with_default_order p (order_of r)) values = Ok (conditions, binds) →
  let statement := page_statement (query_of r) (with_default_order p (order_of r)) conditions binds n in
  where_conditions statement ≠ [] →
  ∃ conjuncts, reading (SqlString.join " AND " (where_conditions statement)) = [conjuncts] ∧
    (∀ c, c ∈ where_conditions statement → atomic c = true → c ∈ conjuncts) ∧ (∀ c, c ∈ conditions → c ∈ conjuncts).
Proof.
  intros Hr Hob Hcur. cbv zeta. rewrite page_statement_eq. cbn [where_conditions]. intros Hne.
  assert (Hcond : Forall (λ c, atomic c = true) conditions).
  { revert Hcur. unfold build_cursor_conditions. cbn [with_default_order page_order_by page_direction]. rewrite Hob.
    destruct values as [vs|]; [|by intros [= <- _]]. destruct vs as [|v [|w vs]]; [done| |done]. intros [= <- _].
    apply Forall_singleton. by destruct r, (page_direction p); vm_compute. }
  destruct (no_or_reading (where_conditions (query_of r) ++ conditions)) as (conjuncts & Hread & Hin); [done| |].
  { apply Forall_app. split; [by apply query_conj|]. eapply Forall_impl; [exact Hcond|]. apply atomic_no_or. }
  exists conjuncts. split; [exact Hread|]. split; [done|]. intros c Hc. apply Hin; [set_solver|].
  by apply (proj1 (Forall_forall _ _) Hcond).
Qed.

(** The condition that selects the token contracts has an [OR] of its own and no
    parentheses: neither the filters of the client nor its cursor restrict the rows
    whose token id is the empty text. *)
Lemma token_contracts_filters_ignored holds query conditions :
  holds "t.token_id = ''" = true →
  says holds (SqlString.join " AND " (where_conditions (token_contracts_query query) ++ conditions)) = true.
Proof.
  intros Hh.
  assert (∃ rest, where_conditions (token_contracts_query query) ++ conditions = "t.token_id = '' OR t.token_id IS NULL" :: rest) as [rest ->].
  { unfold token_contracts_query, filter_in.
    repeat match goal with |- context [match ?l with [] => _ | _ => _ end] => destruct l end;
      rewrite ?bind_all_eq; cbn; by eexists. }
  assert (∃ t, SqlString.join " AND " ("t.token_id = '' OR t.token_id IS NULL" :: rest) = "t.token_id = ''" +:+ spaced "OR" +:+ t) as [t ->].
  { destruct rest as [|c rest]; [by exists "t.token_id IS NULL"|]. rewrite join_cons2. by eexists (_ +:+ _). }
  unfold says, reading. rewrite top_words_keyword by (done || by right). rewrite cut_app.
  change (cut "OR" (top_words "t.token_id = ''")) with [["t.token_id"; "="; "''"]]. cbn [app fmap list_fmap existsb].
  change (SqlString.join " " <$> cut "AND" ["t.token_id"; "="; "''"]) with ["t.token_id = ''"]. cbn [forallb]. by rewrite Hh.
Qed.

(** ** Witnesses *)
#[local] Existing Instances demo_chrono named_sqlx.
Definition demo_read : Read :=
  ReadTransfers (mkTokenTransferQuery [1; 2] [] [300] (mkPagination None (Some 5) Forward [])).
Definition demo_cursor_statement : QueryBuilder :=
  page_statement (query_of demo_read) (with_default_order (mkPagination None (Some 5) Forward []) (order_of demo_read))
    ["[id] < ?"] ["7"] 6.

Lemma reads_bound_witness :
  placeholders (build demo_cursor_statement) = 6%nat ∧ length (bind_values demo_cursor_statement) = 6%nat ∧
  placeholders (build demo_cursor_statement) = length (bind_values demo_cursor_statement).
Proof.
  split; [vm_compute; reflexivity|]. split; [vm_compute; reflexivity|].
  exact (reads_bound demo_read (mkPagination None (Some 5) Forward []) (Some ["7"]) ["[id] < ?"] ["7"] 6 eq_refl eq_refl).
Defined.

Lemma reads_conjoined_witness : ∃ conjuncts,
  reading (SqlString.join " AND " (where_conditions demo_cursor_statement)) = [conjuncts] ∧ "[id] < ?" ∈ conjuncts.
Proof.
  destruct (reads_conjoined demo_read (mkPagination None (Some 5) Forward []) (Some ["7"]) ["[id] < ?"] ["7"] 6)
    as (conjuncts & Hread & _ & Hcur); [discriminate|reflexivity|reflexivity|discriminate|].
  exists conjuncts. split; [exact Hread|]. apply Hcur. by left.
Defined.
End Reads.
