(* ===== verification/Composite.v ===== *)
(** * The clauses of a query as SQL ([crates/sqlite/sqlite/src/model.rs])

    A query for entities has a tree of clauses: hashed keys, keys with wildcards,
    comparisons of members, and the conjunctions and disjunctions of others.
    [build_composite_clause] turns it into a condition with the values to bind. *)

From S2P Require Import Prelude Proto SqlString SqlText ModelTable Wire Messages Aggregator Matching Query Rows Reads.
From stdpp Require Import pretty.
From Stdlib Require Import Ascii.
Local Open Scope Z_scope.
Local Open Scope torii_scope.

(** The dojo crates: the selector of a tag, a primitive as SQL and as JSON. *)
Class ClauseEnv : Type := {
  selector_from_tag : string → option Felt;
  prim_to_sql : Prim → string;
  prim_to_json : Prim → option string
}.

Module Composite.
Import Msg Query Rows Reads.

(** [parse_array_index] *)
Definition parse_array_index (field_name : string) : option (string * Z) :=
  start ← Matching.find_char Matching.open_bracket field_name;
  end_ ← Matching.find_char Matching.close_bracket field_name;
  if (start <? end_)%nat then
    index ← Matching.parse_usize (String.substring (S start) (end_ - S start) field_name);
    Some (String.substring 0 start field_name, index)
  else None.

Definition column_access (table model field : string) (historical : bool) : string :=
  if historical then "JSON_EXTRACT(" +:+ table +:+ ".data, '$." +:+ field +:+ "')" else "[" +:+ model +:+ "].[" +:+ field +:+ "]".

(** A comparison of the column as it is. *)
Definition plain_comparison (table model field operator value : string) (historical : bool) : string :=
  if historical then "CAST(JSON_EXTRACT(" +:+ table +:+ ".data, '$." +:+ field +:+ "') AS TEXT) " +:+ operator +:+ " " +:+ value
  else "([" +:+ model +:+ "].[" +:+ field +:+ "] " +:+ operator +:+ " " +:+ value +:+ ")".

Definition build_array_query (table model field : string) (operator : ComparisonOperator) (value : string)
    (historical : bool) : string :=
  let column_access := column_access table model field historical in
  match operator with
  | Contains => "EXISTS (SELECT 1 FROM json_each(" +:+ column_access +:+ ") WHERE value = " +:+ value +:+ ")"
  | ContainsAll =>
      "NOT EXISTS (SELECT 1 FROM (VALUES " +:+ value +:+ ") AS input_vals(val) WHERE NOT EXISTS (SELECT 1 FROM json_each(" +:+
      column_access +:+ ") WHERE value = input_vals.val))"
  | ContainsAny => "EXISTS (SELECT 1 FROM json_each(" +:+ column_access +:+ ") WHERE value IN " +:+ value +:+ ")"
  | ArrayLengthEq => "json_array_length(" +:+ column_access +:+ ") = " +:+ value
  | ArrayLengthGt => "json_array_length(" +:+ column_access +:+ ") > " +:+ value
  | ArrayLengthLt => "json_array_length(" +:+ column_access +:+ ") < " +:+ value
  | _ => plain_comparison table model field (comparison_to_string operator) value historical
  end.

Definition is_array_operator (operator : ComparisonOperator) : bool :=
  match operator with
  | Contains | ContainsAll | ContainsAny | ArrayLengthEq | ArrayLengthGt | ArrayLengthLt => true
  | _ => false
  end.

(** [s.replace(..)] of the double quotes by nothing *)
Fixpoint remove_quotes (s : string) : string :=
  match s with
  | EmptyString => EmptyString
  | String c s => if Ascii.eqb c (ascii_of_nat 34) then remove_quotes s else String c (remove_quotes s)
  end.

Section clauses.
Context `{Sqlx} {CE : ClauseEnv}.

(** [prepare_comparison]: the text, and the values pushed *)
Fixpoint prepare_comparison (json_format : bool) (value : MemberValue) : outcome Error (string * list string) :=
  match value with
  | MemberString value => Ok ("?", [value])
  | MemberPrimitive value =>
      if json_format then
        let? json := ok_or ErrPrimitive (prim_to_json value) in Ok ("?", [remove_quotes json])
      else Ok ("?", [prim_to_sql value])
  | MemberList values =>
      let? parts := outcome_mapM (prepare_comparison json_format) values in
      Ok ("(" +:+ SqlString.join ", " parts.*1 +:+ ")", concat parts.*2)
  end.

Context (table model_relation_table : string) (historical : bool).

Definition hashed_keys_clause (hashed_keys : list Felt) : string * list string :=
  ("(" +:+ table +:+ ".entity_id IN (" +:+ marks (length hashed_keys) +:+ "))", SqlString.felt_to_sql_string <$> hashed_keys).

Definition model_selectors (models : list string) : outcome Error (list string) :=
  outcome_mapM (λ model,
    let? selector := ok_or (ErrQuery (InvalidNamespacedModel model)) (selector_from_tag model) in
    Ok (SqlString.felt_to_sql_string selector)) models.

Definition keys_clause (keys : KeysClause) : outcome Error (string * list string) :=
  let keys_pattern := Matching.build_keys_pattern keys in
  let? selectors := model_selectors (clause_models keys) in
  match selectors with
  | [] => Ok ("(" +:+ table +:+ ".keys REGEXP ?)", [keys_pattern])
  | _ =>
      let placeholders := SqlString.join ", " (replicate (length selectors) (table +:+ ".world_address || ':' || ?")) in
      Ok (if historical then
            "(" +:+ table +:+ ".keys REGEXP ? AND " +:+ table +:+ ".model_id IN (" +:+ placeholders +:+ "))"
          else
            "EXISTS (SELECT 1 FROM " +:+ model_relation_table +:+ " mr WHERE mr.entity_id = " +:+ table +:+ ".id AND " +:+
            table +:+ ".keys REGEXP ? AND mr.model_id IN (" +:+ placeholders +:+ "))",
          keys_pattern :: selectors)
  end.

Definition member_clause (member : MemberClause) : outcome Error (string * list string) :=
  let model := member_model member in
  let operator := member_operator member in
  let array_index := parse_array_index (member_member member) in
  let is_array_operation := is_array_operator operator || bool_decide (is_Some array_index) in
  let? (value, binds) := prepare_comparison is_array_operation (member_value member) in
  Ok (match array_index with
      | Some (field_name, index) =>
          "json_extract(" +:+ column_access table model field_name historical +:+ ", '$[" +:+ pretty index +:+ "]') " +:+
          comparison_to_string operator +:+ " " +:+ value
      | None =>
          if is_array_operator operator
          then build_array_query table model (member_member member) operator value historical
          else plain_comparison table model (member_member member) (comparison_to_string operator) value historical
      end, binds).

Definition logical_text (operator : LogicalOperator) : string := match operator with Or => " OR " | And => " AND " end.

(** What a clause adds to the conditions and to the values. *)
Fixpoint clause_parts (c : Clause) : outcome Error (list string * list string) :=
  match c with
  | HashedKeys hashed_keys => let '(w, b) := hashed_keys_clause hashed_keys in Ok ([w], b)
  | Keys keys => let? (w, b) := keys_clause keys in Ok ([w], b)
  | Member member => let? (w, b) := member_clause member in Ok ([w], b)
  | Composite operator clauses =>
      let? parts := outcome_mapM clause_parts clauses in
      let nested_where := SqlString.join (logical_text operator) (concat parts.*1) in
      Ok (if String.eqb nested_where EmptyString then [] else [nested_where], concat parts.*2)
  end.

Definition build_composite_clause (operator : LogicalOperator) (clauses : list Clause)
  : outcome Error (string * list string) :=
  let? parts := outcome_mapM clause_parts clauses in
  Ok (SqlString.join (logical_text operator) (concat parts.*1), concat parts.*2).
End clauses.

(** ** Placeholders *)
Lemma mapM_Ok {E A B} (f : A → outcome E B) l ys : outcome_mapM f l = Ok ys → Forall2 (λ x y, f x = Ok y) l ys.
Proof.
  revert ys. induction l as [|x l IH]; cbn; intros ys Hys; [by injection Hys as <-|].
  destruct (f x) as [y|e|] eqn:Hx; [|done..]. cbn in Hys. destruct (outcome_mapM f l) as [zs|e|]; [|done..].
  injection Hys as <-. constructor; [done|]. by apply IH.
Qed.

Lemma Ok_inj {E A} (a b : A) : Ok (E := E) a = Ok b → a = b.
Proof. congruence. Qed.

Lemma substring_plain n m s : plain s → plain (String.substring n m s).
Proof.
  unfold plain. revert n m. induction s as [|c s IH]; intros n m; [by destruct n, m|]. cbn [placeholders].
  destruct (Ascii.nat_of_ascii c =? 63)%nat eqn:Hc; [done|]. intros Hs. destruct n as [|n]; [|by apply IH].
  destruct m as [|m]; [done|]. cbn [String.substring placeholders]. rewrite Hc. by apply IH.
Qed.

(** The names a client writes have no [?]. *)
Definition member_plain (m : MemberClause) : Prop := plain (member_model m) ∧ plain (member_member m).
Fixpoint clause_plain (c : Clause) : Prop :=
  match c with
  | Member m => member_plain m
  | Composite _ cs => (fix all cs := match cs with [] => True | c :: cs => clause_plain c ∧ all cs end) cs
  | _ => True
  end.

Lemma operator_plain o : plain (comparison_to_string o).
Proof. by destruct o. Qed.

Section placeholders.
Context `{Sqlx} {CE : ClauseEnv}.

(** The text has a placeholder for each of the values. *)
Definition covers (p : string * list string) : Prop := placeholders p.1 = length p.2.

Lemma parts_cover (l : list (string * list string)) : Forall covers l →
  list_sum (placeholders <$> l.*1) = length (concat l.*2).
Proof. induction 1 as [|p l Hp Hl IH]; [done|]. cbn. rewrite length_app, Hp. unfold list_sum in *. simpl in *. lia. Qed.

Lemma prepare_covers json v p : prepare_comparison json v = Ok p → covers p.
Proof.
  revert p. induction v as [q|s|l IH] using MemberValue_ind'; intros p; cbn [prepare_comparison].
  - destruct json; [|by intros [= <-]]. destruct (prim_to_json q) as [j|]; [|done]. by intros [= <-].
  - by intros [= <-].
  - destruct (outcome_mapM _ l) as [parts|e|] eqn:Hparts; [|done..]. intros [= <-]. unfold covers. cbn [fst snd].
    rewrite !placeholders_app, placeholders_join, parts_cover by (done || (
      apply mapM_Ok in Hparts; revert IH; clear -Hparts; induction Hparts; intros IH; constructor;
      [eapply Forall_inv in IH; by apply IH|by apply IHHparts; eapply Forall_inv_tail in IH])).
    simpl. lia.
Qed.

Context (table relation : string) (historical : bool) (table_plain : plain table) (relation_plain : plain relation).

Lemma column_plain model field : plain model → plain field → plain (column_access table model field historical).
Proof. intros Hm Hf. unfold plain, column_access. destruct historical; by rewrite !placeholders_app, ?table_plain, ?Hm, ?Hf. Qed.

Lemma plain_comparison_marks model field operator value : plain model → plain field → plain operator →
  placeholders (plain_comparison table model field operator value historical) = placeholders value.
Proof.
  intros Hm Hf Ho. unfold plain_comparison. destruct historical; rewrite !placeholders_app, ?table_plain, ?Hm, ?Hf, ?Ho; simpl; lia.
Qed.

Lemma member_covers m p : member_plain m → member_clause table historical m = Ok p → covers p.
Proof.
  intros [Hm Hf]. unfold member_clause. destruct (prepare_comparison _ _) as [[value binds]|e|] eqn:Hv; [|done..].
  apply prepare_covers in Hv. unfold covers in *. cbn [fst snd outcome_bind] in *. intros [= <-]. cbn [fst snd]. rewrite <- Hv.
  destruct (parse_array_index (member_member m)) as [[field index]|] eqn:Hi.
  - assert (plain field) as Hfield.
    { unfold parse_array_index in Hi. apply bind_Some in Hi as (i & _ & Hi). apply bind_Some in Hi as (j & _ & Hi).
      destruct (i <? j)%nat; [|done]. apply bind_Some in Hi as (n & _ & [= <- <-]). by apply substring_plain. }
    rewrite !placeholders_app, (column_plain (member_model m) field Hm Hfield), pretty_plain_Z, operator_plain. simpl. lia.
  - pose proof (column_plain (member_model m) (member_member m) Hm Hf) as Hc.
    destruct (member_operator m); cbn [is_array_operator build_array_query comparison_to_string];
      rewrite ?plain_comparison_marks, ?placeholders_app, ?Hc by done; simpl; lia.
Qed.

Lemma keys_covers k p : keys_clause table relation historical k = Ok p → covers p.
Proof.
  unfold keys_clause. destruct (model_selectors _) as [sels|e|]; [|done..]. cbn [outcome_bind].
  destruct sels as [|s sels]; intros Hp%Ok_inj; subst p; unfold covers; cbn [fst snd]; [by rewrite !placeholders_app, table_plain|].
  set (n := length (s :: sels)).
  assert (Hp : placeholders (SqlString.join ", " (replicate n (table +:+ ".world_address || ':' || ?"))) = n).
  { rewrite placeholders_join by done. clearbody n. induction n as [|n IH]; [done|]. cbn [replicate fmap list_fmap list_sum].
    simpl. rewrite placeholders_app, table_plain. unfold list_sum in *. simpl in *. by rewrite IH. }
  destruct historical; rewrite !placeholders_app, Hp, ?table_plain, ?relation_plain; simpl; lia.
Qed.

Lemma clause_covers c parts : clause_plain c → clause_parts table relation historical c = Ok parts →
  list_sum (placeholders <$> parts.1) = length parts.2.
Proof.
  revert parts. induction c as [l|k|m|o cs IH] using Clause_ind'; intros parts Hp; cbn [clause_parts].
  - intros [= <-]. cbn [fst snd]. cbn [fmap list_fmap list_sum]. simpl list_sum.
    rewrite !placeholders_app, table_plain, marks_count, length_fmap. simpl. lia.
  - destruct (keys_clause _ _ _ k) as [[w b]|e|] eqn:Hk; [|done..]. apply keys_covers in Hk. intros [= <-].
    unfold covers in Hk. simpl in *. lia.
  - destruct (member_clause _ _ m) as [[w b]|e|] eqn:Hk; [|done..]. apply member_covers in Hk; [|done]. intros [= <-].
    unfold covers in Hk. simpl in *. lia.
  - destruct (outcome_mapM _ cs) as [l|e|] eqn:Hl; [|done..]. apply mapM_Ok in Hl. intros [= <-]. cbn [fst snd].
    assert (Hsum : list_sum (placeholders <$> concat l.*1) = length (concat l.*2)).
    { clear -IH Hl Hp. cbn [clause_plain] in Hp. induction Hl as [|c p cs l Hc Hl IHl]; [done|]. destruct Hp as [Hpc Hps].
      cbn [fmap list_fmap concat]. rewrite fmap_app, list_sum_app, length_app.
      rewrite (Forall_inv IH p Hpc Hc). f_equal. apply IHl; [exact (Forall_inv_tail IH)|done]. }
    rewrite <- Hsum. set (w := SqlString.join (logical_text o) (concat l.*1)).
    assert (Hw : placeholders w = list_sum (placeholders <$> concat l.*1)) by (apply placeholders_join; by destruct o).
    rewrite <- Hw. destruct (String.eqb_spec w EmptyString) as [->|]; simpl; [done|lia].
Qed.
End placeholders.

(** ** What the condition says *)

(** The names of a comparison do not close the brackets or quotes they are put in. *)
Definition member_named (m : MemberClause) : Prop :=
  let field := match parse_array_index (member_member m) with Some (field, _) => field | None => member_member m end in
  SqlString.free_of "]"%char (member_model m) ∧ SqlString.free_of "]"%char field ∧ SqlString.free_of quote field.
Fixpoint clause_named (c : Clause) : Prop :=
  match c with
  | Member m => member_named m
  | Composite _ cs => (fix all cs := match cs with [] => True | c :: cs => clause_named c ∧ all cs end) cs
  | _ => True
  end.

(** A disjunction, at any depth. *)
Fixpoint has_or (c : Clause) : bool :=
  match c with Composite Or _ => true | Composite And cs => existsb has_or cs | _ => false end.
(** No disjunction within a conjunction. *)
Fixpoint shallow (c : Clause) : bool :=
  match c with Composite And cs => negb (existsb has_or cs) | Composite Or cs => forallb shallow cs | _ => true end.

Section meaning.
Context `{Sqlx} {CE : ClauseEnv} (table relation : string) (historical : bool) (holds : string → bool).

Definition combine (operator : LogicalOperator) (l : list bool) : option bool :=
  match l with [] => None | _ => Some (match operator with And => forallb id l | Or => existsb id l end) end.
(** What the client means, when the condition of a clause that is no composite holds as
    it is written. Composites of nothing are left out. *)
Fixpoint meaning (c : Clause) : option bool :=
  match c with
  | Composite operator cs => combine operator (omap meaning cs)
  | c => match clause_parts table relation historical c with Ok ([w], _) => Some (holds w) | _ => None end
  end.

(** *** Conditions that are no composite *)
Context (table_wordy : wordy table = true) (relation_wordy : wordy relation = true).

Lemma table_balanced : balanced table = true.
Proof. by apply wordy_word. Qed.
Lemma relation_balanced : balanced relation = true.
Proof. by apply wordy_word. Qed.
(** Splits a balanced text into its parts. *)
Ltac balance :=
  repeat match goal with
    | |- balanced (_ +:+ _) = true => apply balanced_app
    | |- balanced (parens _) = true => apply piece_balanced, parens_piece
    end;
  first [exact table_balanced | exact relation_balanced | assumption | by vm_compute | idtac].

Lemma value_piece json v t b : prepare_comparison json v = Ok (t, b) → piece t ∧ (t ≠ "AND") ∧ (t ≠ "OR").
Proof.
  revert t b. induction v as [q|s|l IH] using MemberValue_ind'; intros t b; cbn [prepare_comparison].
  - destruct json; [destruct (prim_to_json q) as [j|]; [|done]|]; intros [= <- <-]; (split; [by apply wordy_piece|done]).
  - intros [= <- <-]. split; [by apply wordy_piece|done].
  - destruct (outcome_mapM _ l) as [parts|e|] eqn:Hparts; [|done..]. intros [= <- <-]. split; [|done].
    apply parens_piece. apply mapM_Ok in Hparts.
    induction Hparts as [|v p l parts Hp Hparts IHp]; [done|]. destruct p as [t' b'].
    destruct (Forall_inv IH _ _ Hp) as [Ht' _]. apply piece_balanced in Ht'. specialize (IHp (Forall_inv_tail IH)).
    cbn [fmap list_fmap fst]. destruct parts as [|p' parts]; [done|]. cbn [fmap list_fmap] in *.
    rewrite join_cons2. by balance.
Qed.

Lemma column_piece model field : SqlString.free_of "]"%char model → SqlString.free_of "]"%char field → SqlString.free_of quote field →
  piece (column_access table model field historical).
Proof.
  intros Hm Hf Hq. unfold column_access. destruct historical.
  - replace ("JSON_EXTRACT(" +:+ table +:+ ".data, '$." +:+ field +:+ "')")
      with ("JSON_EXTRACT" +:+ parens (table +:+ ".data, " +:+ quoted_text ("$." +:+ field)))
      by by unfold parens, quoted_text, enclosed; rewrite !SqlString.append_assoc.
    apply piece_app; [by apply wordy_piece|]. apply parens_piece. balance.
    apply piece_balanced, quoted_piece. by apply SqlString.free_of_app.
  - replace ("[" +:+ model +:+ "].[" +:+ field +:+ "]") with (bracketed model +:+ "." +:+ bracketed field)
      by by unfold bracketed, enclosed; rewrite !SqlString.append_assoc.
    apply piece_app; [by apply bracketed_piece|]. apply piece_app; [by apply wordy_piece|by apply bracketed_piece].
Qed.

Lemma operator_atomic o : atomic (comparison_to_string o) = true.
Proof. by destruct o. Qed.
Lemma compared_atomic p o t : piece p → p ≠ "AND" → p ≠ "OR" → piece t ∧ (t ≠ "AND") ∧ (t ≠ "OR") →
  atomic (p +:+ " " +:+ comparison_to_string o +:+ " " +:+ t) = true.
Proof.
  intros Hp Ha Ho (Ht & Hta & Hto). apply atomic_app; [by apply piece_atomic|].
  apply atomic_app; [apply operator_atomic|by apply piece_atomic].
Qed.

Lemma index_quiet (n : Z) : SqlString.free_of quote (pretty n).
Proof.
  assert (Hpos : ∀ n, 0 ≤ n → SqlString.free_of quote (pretty n)).
  { clear n. intros n Hn. destruct (Agg.pretty_dec n Hn) as [Hd _]. revert Hd. generalize (pretty n) as s. induction s as [|c s IH]; [done|].
    cbn [Agg.dec_only]. intros [[d Hd]%bool_decide_eq_true Hs]%andb_prop. split; [|by apply IH]. intros ->. discriminate Hd. }
  destruct n as [|p|p]; [by apply Hpos|by apply Hpos|].
  change (SqlString.free_of quote ("-" +:+ pretty (Npos p))). apply SqlString.free_of_app; [by split|exact (Hpos (Zpos p) ltac:(lia))].
Qed.

Lemma plain_comparison_atomic model field o value :
  SqlString.free_of "]"%char model → SqlString.free_of "]"%char field → SqlString.free_of quote field →
  piece value ∧ (value ≠ "AND") ∧ (value ≠ "OR") →
  atomic (plain_comparison table model field (comparison_to_string o) value historical) = true.
Proof.
  intros Hm Hf Hq Hv. pose proof (column_piece model field Hm Hf Hq) as Hc. apply piece_balanced in Hc as Hcb.
  pose proof (piece_balanced _ (proj1 Hv)) as Hvb. set (op := comparison_to_string o).
  assert (balanced op = true) as Hob by by destruct o.
  unfold plain_comparison, column_access in *. destruct historical.
  - replace ("CAST(JSON_EXTRACT(" +:+ table +:+ ".data, '$." +:+ field +:+ "') AS TEXT) " +:+ op +:+ " " +:+ value)
      with (("CAST" +:+ parens (("JSON_EXTRACT(" +:+ table +:+ ".data, '$." +:+ field +:+ "')") +:+ " AS TEXT")) +:+ " " +:+ op +:+ " " +:+ value)
      by by unfold parens; rewrite !SqlString.append_assoc.
    apply compared_atomic; [|discriminate|discriminate|done]. apply piece_app; [by apply wordy_piece|]. apply parens_piece.
    apply balanced_app; [done|by vm_compute].
  - replace ("([" +:+ model +:+ "].[" +:+ field +:+ "] " +:+ op +:+ " " +:+ value +:+ ")")
      with (parens (("[" +:+ model +:+ "].[" +:+ field +:+ "]") +:+ " " +:+ op +:+ " " +:+ value))
      by by unfold parens; rewrite !SqlString.append_assoc.
    apply parens_atomic. do 2 (apply balanced_app; [done|]). apply balanced_app; [done|]. by apply balanced_app.
Qed.

Lemma array_atomic model field o value :
  SqlString.free_of "]"%char model → SqlString.free_of "]"%char field → SqlString.free_of quote field →
  piece value ∧ (value ≠ "AND") ∧ (value ≠ "OR") → is_array_operator o = true →
  atomic (build_array_query table model field o value historical) = true.
Proof.
  intros Hm Hf Hq Hv Ho. pose proof (piece_balanced _ (column_piece model field Hm Hf Hq)) as Hcb.
  pose proof (piece_balanced _ (proj1 Hv)) as Hvb. unfold build_array_query. set (col := column_access _ _ _ _) in *.
  assert (Hlen : ∀ o, atomic (("json_array_length" +:+ parens col) +:+ " " +:+ comparison_to_string o +:+ " " +:+ value) = true).
  { intros o'. apply compared_atomic; [|discriminate|discriminate|done]. apply piece_app; [by apply wordy_piece|by apply parens_piece]. }
  destruct o; try discriminate Ho.
  - replace ("EXISTS (SELECT 1 FROM json_each(" +:+ col +:+ ") WHERE value = " +:+ value +:+ ")")
      with ("EXISTS" +:+ " " +:+ parens ("SELECT 1 FROM json_each" +:+ parens col +:+ " WHERE value = " +:+ value))
      by by unfold parens; rewrite !SqlString.append_assoc.
    apply atomic_app; [done|]. apply parens_atomic. by balance.
  - replace ("NOT EXISTS (SELECT 1 FROM (VALUES " +:+ value +:+ ") AS input_vals(val) WHERE NOT EXISTS (SELECT 1 FROM json_each(" +:+
        col +:+ ") WHERE value = input_vals.val))")
      with ("NOT EXISTS" +:+ " " +:+ parens ("SELECT 1 FROM " +:+ parens ("VALUES " +:+ value) +:+ " AS input_vals(val) WHERE NOT EXISTS " +:+
        parens ("SELECT 1 FROM json_each" +:+ parens col +:+ " WHERE value = input_vals.val")))
      by by unfold parens; rewrite !SqlString.append_assoc.
    apply atomic_app; [done|]. apply parens_atomic. by balance.
  - replace ("EXISTS (SELECT 1 FROM json_each(" +:+ col +:+ ") WHERE value IN " +:+ value +:+ ")")
      with ("EXISTS" +:+ " " +:+ parens ("SELECT 1 FROM json_each" +:+ parens col +:+ " WHERE value IN " +:+ value))
      by by unfold parens; rewrite !SqlString.append_assoc.
    apply atomic_app; [done|]. apply parens_atomic. by balance.
  - replace ("json_array_length(" +:+ col +:+ ") = " +:+ value)
      with (("json_array_length" +:+ parens col) +:+ " " +:+ comparison_to_string CEq +:+ " " +:+ value)
      by by unfold parens; rewrite !SqlString.append_assoc. apply Hlen.
  - replace ("json_array_length(" +:+ col +:+ ") > " +:+ value)
      with (("json_array_length" +:+ parens col) +:+ " " +:+ comparison_to_string Gt +:+ " " +:+ value)
      by by unfold parens; rewrite !SqlString.append_assoc. apply Hlen.
  - replace ("json_array_length(" +:+ col +:+ ") < " +:+ value)
      with (("json_array_length" +:+ parens col) +:+ " " +:+ comparison_to_string Lt +:+ " " +:+ value)
      by by unfold parens; rewrite !SqlString.append_assoc. apply Hlen.
Qed.

Lemma member_atomic m w b : member_named m → member_clause table historical m = Ok (w, b) → atomic w = true.
Proof.
  unfold member_named, member_clause. intros (Hm & Hf & Hq).
  destruct (prepare_comparison _ _) as [[value binds]|e|] eqn:Hv; [|done..]. cbn [outcome_bind].
  intros Hw%Ok_inj. injection Hw as <- _. apply value_piece in Hv as Hval. destruct Hval as (Hvp & Hva & Hvo).
  pose proof (piece_balanced _ Hvp) as Hvb.
  destruct (parse_array_index (member_member m)) as [[field index]|] eqn:Hi.
  - pose proof (column_piece _ field Hm Hf Hq) as Hc. apply piece_balanced in Hc as Hcb.
    set (col := column_access _ _ _ _) in *. set (op := comparison_to_string _) in *.
    replace ("json_extract(" +:+ col +:+ ", '$[" +:+ pretty index +:+ "]') " +:+ op +:+ " " +:+ value)
      with (("json_extract" +:+ parens (col +:+ ", " +:+ quoted_text ("$[" +:+ pretty index +:+ "]"))) +:+ " " +:+ op +:+ " " +:+ value)
      by by unfold parens, quoted_text, enclosed; rewrite !SqlString.append_assoc.
    apply compared_atomic; [|discriminate|discriminate|done]. apply piece_app; [by apply wordy_piece|]. apply parens_piece. balance.
    apply piece_balanced, quoted_piece. apply SqlString.free_of_app; [by vm_compute|].
    apply SqlString.free_of_app; [apply index_quiet|by vm_compute].
  - destruct (is_array_operator (member_operator m)) eqn:Ho; [by apply array_atomic|by apply plain_comparison_atomic].
Qed.

Lemma keys_atomic k w b : keys_clause table relation historical k = Ok (w, b) → atomic w = true.
Proof.
  unfold keys_clause. destruct (model_selectors _) as [sels|e|]; [|done..]. cbn [outcome_bind].
  destruct sels as [|s sels]; intros Hw%Ok_inj; apply (f_equal fst) in Hw; cbn [fst] in Hw; subst w.
  { replace ("(" +:+ table +:+ ".keys REGEXP ?)") with (parens (table +:+ ".keys REGEXP ?"))
      by by unfold parens; rewrite !SqlString.append_assoc.
    apply parens_atomic. by balance. }
  set (n := length (s :: sels)). set (ph := SqlString.join ", " _).
  assert (balanced ph = true) as Hph.
  { unfold ph. clearbody n. induction n as [|[|n] IHn]; [done|by cbn; balance|].
    cbn [replicate] in *. rewrite join_cons2. by balance. }
  destruct historical.
  - replace ("(" +:+ table +:+ ".keys REGEXP ? AND " +:+ table +:+ ".model_id IN (" +:+ ph +:+ "))")
      with (parens (table +:+ ".keys REGEXP ? AND " +:+ table +:+ ".model_id IN " +:+ parens ph))
      by by unfold parens; rewrite !SqlString.append_assoc.
    apply parens_atomic. by balance.
  - replace ("EXISTS (SELECT 1 FROM " +:+ relation +:+ " mr WHERE mr.entity_id = " +:+ table +:+ ".id AND " +:+ table +:+
        ".keys REGEXP ? AND mr.model_id IN (" +:+ ph +:+ "))")
      with ("EXISTS" +:+ " " +:+ parens ("SELECT 1 FROM " +:+ relation +:+ " mr WHERE mr.entity_id = " +:+ table +:+ ".id AND " +:+ table +:+
        ".keys REGEXP ? AND mr.model_id IN " +:+ parens ph))
      by by unfold parens; rewrite !SqlString.append_assoc.
    apply atomic_app; [done|]. apply parens_atomic. by balance.
Qed.

Lemma leaf_atomic c w b : (match c with Composite _ _ => False | _ => True end) → clause_named c →
  clause_parts table relation historical c = Ok ([w], b) → atomic w = true.
Proof.
  destruct c as [l|k|m|o cs]; intros Hleaf Hn; [| | |done]; cbn [clause_parts].
  - intros Hw%Ok_inj. injection Hw as <- _.
    replace ("(" +:+ table +:+ ".entity_id IN (" +:+ marks (length l) +:+ "))")
      with (parens (table +:+ ".entity_id IN " +:+ parens (marks (length l))))
      by by unfold parens; rewrite !SqlString.append_assoc.
    apply parens_atomic. pose proof (marks_balanced (length l)). by balance.
  - destruct (keys_clause _ _ _ k) as [[w' b']|e|] eqn:Hk; [|done..]. intros Hw%Ok_inj. injection Hw as <- _. by eapply keys_atomic.
  - destruct (member_clause _ _ m) as [[w' b']|e|] eqn:Hk; [|done..]. intros Hw%Ok_inj. injection Hw as <- _. by eapply member_atomic.
Qed.

(** *** Composites *)

(** What the text [ws] of the clause [c] says, when it has one. *)
Definition sound (c : Clause) (ws : list string) : Prop :=
  match ws with
  | [] => meaning c = None
  | [w] => w ≠ EmptyString ∧ balanced w = true ∧ (shallow c = true → meaning c = Some (says holds w)) ∧ (has_or c = false → no_or w)
  | _ => False
  end.

Lemma says_atomic w : atomic w = true → says holds w = holds w.
Proof.
  intros Ha. unfold says. rewrite <- (top_words_join w) at 1. pose proof (reading_conditions [w] ltac:(done) ltac:(by constructor)) as Hr.
  cbn [SqlString.join] in Hr. rewrite top_words_join, Hr. cbn. by rewrite andb_true_r, orb_false_r.
Qed.
Lemma says_no_or w : no_or w → says holds w = forallb holds (SqlString.join " " <$> cut "AND" (top_words w)).
Proof. intros [Hb Ho]. unfold says, reading. rewrite cut_absent by done. cbn. by rewrite orb_false_r. Qed.
Lemma says_and ws : ws ≠ [] → Forall no_or ws → says holds (SqlString.join " AND " ws) = forallb id (says holds <$> ws).
Proof.
  intros Hne Hws. unfold says at 1. change " AND " with (spaced "AND"). rewrite reading_and by done. cbn [existsb]. rewrite orb_false_r.
  clear Hne. induction Hws as [|w ws Hw Hws IH]; [done|]. cbn [fmap list_fmap concat forallb id].
  by rewrite forallb_app, IH, says_no_or.
Qed.
Lemma says_or ws : ws ≠ [] → Forall (λ w, balanced w = true) ws →
  says holds (SqlString.join " OR " ws) = existsb id (says holds <$> ws).
Proof.
  intros Hne Hws. unfold says at 1. change " OR " with (spaced "OR"). rewrite reading_or by done.
  clear Hne. induction Hws as [|w ws Hw Hws IH]; [done|]. cbn [fmap list_fmap concat existsb id].
  by rewrite existsb_app, IH.
Qed.

Lemma join_ne sep ws : Forall (λ w, w ≠ EmptyString) ws → SqlString.join sep ws = EmptyString → ws = [].
Proof. intros Hws. destruct Hws as [|w [|w' ws] Hw Hws]; [done|intros Heq; by destruct Hw|by destruct w]. Qed.

Lemma existsb_false {A} (f : A → bool) l : existsb f l = false → Forall (λ x, f x = false) l.
Proof. induction l as [|x l IH]; cbn; [constructor|]. intros [Hx Hl]%orb_false_iff. constructor; [done|by apply IH]. Qed.
Lemma forallb_Forall {A} (f : A → bool) l : forallb f l = true → Forall (λ x, f x = true) l.
Proof. induction l as [|x l IH]; cbn; [constructor|]. intros [Hx Hl]%andb_prop. constructor; [done|by apply IH]. Qed.

Lemma has_or_shallow c : has_or c = false → shallow c = true.
Proof. destruct c as [| | |[] cs]; [done..| |done]. cbn. by intros ->. Qed.

Section children.
Context (cs : list Clause) (wss : list (list string)) (children : Forall2 sound cs wss).

Lemma children_balanced : Forall (λ w, w ≠ EmptyString ∧ balanced w = true) (concat wss).
Proof.
  induction children as [|c ws cs' wss' Hc Hcs IH]; [constructor|]. cbn. apply Forall_app. split; [|by apply IH].
  destruct ws as [|w [|? ?]]; [constructor|by destruct Hc as (?&?&?); apply Forall_singleton|done].
Qed.
Lemma children_meaning : Forall (λ c, shallow c = true) cs → omap meaning cs = says holds <$> concat wss.
Proof.
  induction children as [|c ws cs' wss' Hc Hcs IH]; intros Hs; [done|]. apply Forall_cons in Hs as [Hsc Hs].
  cbn. destruct ws as [|w [|? ?]]; [| |done]; cbn in Hc.
  - rewrite Hc. by apply IH.
  - destruct Hc as (_ & _ & -> & _); [|done]. cbn. f_equal. by apply IH.
Qed.
Lemma children_no_or : Forall (λ c, has_or c = false) cs → Forall no_or (concat wss).
Proof.
  induction children as [|c ws cs' wss' Hc Hcs IH]; intros Hs; [constructor|]. apply Forall_cons in Hs as [Hsc Hs].
  cbn. apply Forall_app. split; [|by apply IH].
  destruct ws as [|w [|? ?]]; [constructor|destruct Hc as (_ & _ & _ & Hc); apply Forall_singleton; by apply Hc|done].
Qed.

Lemma composite_sound o :
  let w := SqlString.join (logical_text o) (concat wss) in
  sound (Composite o cs) (if String.eqb w EmptyString then [] else [w]).
Proof.
  cbv zeta. pose proof children_balanced as Hb. set (w := SqlString.join _ _).
  assert (Hno : w = EmptyString → concat wss = []).
  { apply join_ne. eapply Forall_impl; [exact Hb|by intros ? []]. }
  assert (Hbal : balanced w = true).
  { unfold w. destruct o; [apply (balanced_join "AND"); [by left|]|apply (balanced_join "OR"); [by right|]]; (eapply Forall_impl; [exact Hb|by intros ? []]). }
  destruct (String.eqb_spec w EmptyString) as [Hw|Hw].
  - cbn. specialize (Hno Hw). assert (omap meaning cs = []) as ->; [|done].
    clear -children Hno. induction children as [|c ws cs' wss' Hc Hcs IH]; [done|]. cbn in *.
    apply app_eq_nil in Hno as [-> Hno]. cbn in Hc. rewrite Hc. by apply IH.
  - assert (Hne : concat wss ≠ []) by (intros Heq; apply Hw; unfold w; by rewrite Heq).
    split; [done|]. split; [done|]. split.
    + intros Hs. cbn [shallow meaning] in *. destruct o.
      * apply negb_true_iff, existsb_false in Hs. rewrite children_meaning by (eapply Forall_impl; [exact Hs|apply has_or_shallow]).
        unfold w, logical_text. rewrite says_and by (done || by apply children_no_or). by destruct (concat wss).
      * apply forallb_Forall in Hs. rewrite children_meaning by done. unfold w, logical_text.
        rewrite says_or; [by destruct (concat wss)|done|]. eapply Forall_impl; [exact Hb|by intros ? []].
    + cbn [has_or]. destruct o; [|done]. intros Hs%existsb_false. by apply no_or_join, children_no_or.
Qed.
End children.

Lemma clause_sound c parts : clause_named c → clause_parts table relation historical c = Ok parts → sound c parts.1.
Proof.
  assert (Hleaf : ∀ c w b, (match c with Composite _ _ => False | _ => True end) → clause_named c → w ≠ EmptyString →
    clause_parts table relation historical c = Ok ([w], b) → sound c [w]).
  { intros c' w b Hl Hn Hw Hp. pose proof (leaf_atomic c' w b Hl Hn Hp) as Ha. pose proof Ha as (Hb & _ & _)%atomic_spec.
    split; [done|]. split; [done|]. split; [|intros _; by apply atomic_no_or]. intros _. rewrite says_atomic by done.
    destruct c'; [..|done]; unfold meaning; by rewrite Hp. }
  revert parts. induction c as [l|k|m|o cs IH] using Clause_ind'; intros parts Hn Hp.
  - cbn [clause_parts] in Hp. apply Ok_inj in Hp as <-. by eapply Hleaf.
  - pose proof Hp as Hp'. cbn [clause_parts] in Hp'. destruct (keys_clause _ _ _ k) as [[w b]|e|] eqn:Hk; [|done..].
    apply Ok_inj in Hp' as <-. eapply Hleaf; [done|done| |exact Hp].
    unfold keys_clause in Hk. destruct (model_selectors _) as [[|s sels]|e|]; [..|done|done]; apply Ok_inj in Hk; injection Hk as <- _; [done|].
    by destruct historical.
  - pose proof Hp as Hp'. cbn [clause_parts] in Hp'. destruct (member_clause _ _ m) as [[w b]|e|] eqn:Hk; [|done..].
    apply Ok_inj in Hp' as <-. eapply Hleaf; [done|done| |exact Hp].
    unfold member_clause in Hk. destruct (prepare_comparison _ _) as [[v bs]|e|]; [|done..]. apply Ok_inj in Hk. injection Hk as <- _.
    destruct (parse_array_index _) as [[f i]|]; [done|].
    destruct (member_operator m); cbn [is_array_operator build_array_query]; unfold plain_comparison; by destruct historical.
  - cbn [clause_parts] in Hp. destruct (outcome_mapM _ cs) as [l|e|] eqn:Hl; [|done..]. apply Ok_inj in Hp as <-. cbn [fst].
    apply composite_sound. apply mapM_Ok in Hl. clear -IH Hl Hn. cbn [clause_named] in Hn.
    induction Hl as [|c p cs l Hc Hl IHl]; [constructor|]. destruct Hn as [Hnc Hns].
    constructor; [by apply (Forall_inv IH)|]. apply IHl; [exact (Forall_inv_tail IH)|done].
Qed.
End meaning.


(** ** Witnesses *)
Definition demo_clauses : ClauseEnv := {|
  selector_from_tag _ := Some 9; prim_to_sql _ := "0x1"; prim_to_json _ := Some "1"
|}.
#[local] Existing Instances named_sqlx demo_clauses.
Definition compare_one (member : string) : Clause := Member (mkMemberClause "game-Player" member Gt (MemberPrimitive (PrimU32 (Some 1)))).
(** Either a score or a level, or one of two entities. *)
Definition demo_or : list Clause :=
  [Composite And [compare_one "score"; compare_one "level"]; HashedKeys [1; 2]].


(** A disjunction within a conjunction is read as one around it: with a score or a level,
    and being active, the active players with the level are found, and with them all
    those who have the score. *)
Definition nested_or : list Clause := [Composite Or [compare_one "score"; compare_one "level"]; compare_one "active"].
Lemma nested_or_misread :
  let holds := String.eqb "([game-Player].[score] > ?)" in
  build_composite_clause "entities" "entity_model" false And nested_or =
    Ok ("([game-Player].[score] > ?) OR ([game-Player].[level] > ?) AND ([game-Player].[active] > ?)", ["0x1"; "0x1"; "0x1"]) ∧
  meaning "entities" "entity_model" false holds (Composite And nested_or) = Some false ∧
  says holds "([game-Player].[score] > ?) OR ([game-Player].[level] > ?) AND ([game-Player].[active] > ?)" = true.
Proof. split_and!; reflexivity. Qed.

(** The name of a member is put into the statement as it is, and may close the brackets
    around it and add conditions of its own. *)
Lemma member_injected :
  member_clause "entities" false (mkMemberClause "game-Player" "x] = 1) OR (1 = 1) --" CEq (MemberString "")) =
    Ok ("([game-Player].[x] = 1) OR (1 = 1) --] = ?)", [""]) ∧
  length (reading "([game-Player].[x] = 1) OR (1 = 1) --] = ?)") = 2%nat.
Proof. split; reflexivity. Qed.
End Composite.
