(* ===== verification/EntityReads.v ===== *)
(** * Entities from the database ([crates/sqlite/sqlite/src/model.rs])

    The values of an entity are read from the columns of its models:
    [map_row_to_ty] fills a schema from a row, [collect_columns] names the columns of
    the query, [query_by_composite] puts the query together and turns its rows into
    entities.

    JSON and the operations of the dojo crates on types are parameters. *)

From S2P Require Import Prelude Proto SqlString SqlText Database Executor ModelTable Wire Messages Aggregator Matching Query Rows.
From S2P Require Import Reads Composite.
From stdpp Require Import pretty.
From Stdlib Require Import Ascii.
Local Open Scope Z_scope.
Local Open Scope torii_scope.

Class TyJson : Type := {
  JsonValue : Type;
  (** [serde_json::from_str], as a value and as a list of values *)
  json_value : string → option JsonValue;
  json_values : string → option (list JsonValue);
  (** [value["elements"].as_array()], [value["size"].as_u64()] *)
  json_elements : JsonValue → option (list JsonValue);
  json_size : JsonValue → option Z;
  (** [ty.from_json_value(value)] *)
  ty_from_json : DTy → JsonValue → option DTy;
  (** [Enum::set_option]: the index of the option of this name *)
  set_option : list (string * DTy) → string → option nat
}.

(** [model] and [models] of the storage, which answer from the cache or from the table
    of models: the world, the selector and the schema of a model. *)
Class ModelReads `{Sqlx} : Type := {
  model_read : Felt → Felt → outcome Query.Error DTy;
  models_read : list Felt → list Felt → outcome Query.Error (list (Felt * Felt * DTy))
}.

Module EntityReads.
Import Msg Query Rows Reads Composite.

Section rows.
Context `{Sqlx} `{SqlString.FeltFromStr} {TJ : TyJson}.
#[local] Abbreviation Ty := DTy.
#[local] Abbreviation text row column := (sql (row_string row column)).

Definition parse_int (o : option Z) : outcome Error Z := ok_or (ErrParse ParseInt) o.
(** The value of an unsigned number as hexadecimal text, none when there are no digits. *)
Definition hex_number (parse : string → option Z) (old : option Z) (value : string) : outcome Error (option Z) :=
  let hex_str := SqlString.trim_0x value in
  if String.eqb hex_str EmptyString then Ok old else let? n := parse_int (parse hex_str) in Ok (Some n).
Definition felt_value (old : option Felt) (value : string) : outcome Error (option Felt) :=
  if String.eqb value EmptyString then Ok old else let? f := felt_or_error value in Ok (Some f).

Definition read_primitive (primitive : Prim) (row : SqliteRow) (column_name : string) : outcome Error Prim :=
  let int kind (c : option Z → Prim) := let? v := sql (row_int kind row column_name) in Ok (c (Some v)) in
  let felt old (c : option Felt → Prim) :=
    let? value := text row column_name in let? v := felt_value old value in Ok (c v) in
  match primitive with
  | PrimI8 _ => int I8 PrimI8
  | PrimI16 _ => int I16 PrimI16
  | PrimI32 _ => int I32 PrimI32
  | PrimI64 _ => int I64 PrimI64
  | PrimI128 _ =>
      let? value := text row column_name in
      let? n := parse_int (u128_from_hex (SqlString.trim_0x value)) in
      Ok (PrimI128 (Some (as_i128 n)))
  | PrimU8 _ => int U8 PrimU8
  | PrimU16 _ => int U16 PrimU16
  | PrimU32 _ => int U32 PrimU32
  | PrimU64 old => let? value := text row column_name in let? v := hex_number SqlString.u64_from_hex old value in Ok (PrimU64 v)
  | PrimU128 old => let? value := text row column_name in let? v := hex_number u128_from_hex old value in Ok (PrimU128 v)
  | PrimU256 old =>
      let? value := text row column_name in
      let hex_str := SqlString.trim_0x value in
      if String.eqb hex_str EmptyString then Ok (PrimU256 old)
      else let? v := unwrap (from_be_hex hex_str) in Ok (PrimU256 (Some v))
  | PrimBool _ => let? v := sql (row_bool row column_name) in Ok (PrimBool (Some v))
  | PrimFelt252 old => felt old PrimFelt252
  | PrimClassHash old => felt old PrimClassHash
  | PrimContractAddress old => felt old PrimContractAddress
  | PrimEthAddress old => felt old PrimEthAddress
  end.

Definition elements_of (schema : Ty) (values : list JsonValue) : outcome Error (list Ty) :=
  outcome_mapM (λ v, ok_or ErrPrimitive (ty_from_json schema v)) values.

(** The type filled from the row; [column_name] from the path and the name. *)
Fixpoint map_row_to_ty (path name : string) (ty : Ty) (row : SqliteRow) {struct ty} : outcome Error Ty :=
  let column_name := ModelTable.child_column path name in
  match ty with
  | TyPrimitive p => let? p := read_primitive p row column_name in Ok (TyPrimitive p)
  | TyEnum n option options =>
      let? option_name := text row column_name in
      let? option := if String.eqb option_name EmptyString then Ok option
                     else let? i := ok_or ErrEnum (set_option options option_name) in Ok (Some i) in
      let? options := (fix go os := match os with
        | [] => Ok []
        | (x, t) :: os =>
            let? t := if String.eqb x option_name then map_row_to_ty column_name x t row else Ok t in
            let? os := go os in Ok ((x, t) :: os)
        end) options in
      Ok (TyEnum n option options)
  | TyStruct n children =>
      let? children := (fix go ms := match ms with
        | [] => Ok []
        | (x, t, k) :: ms => let? t := map_row_to_ty column_name x t row in let? ms := go ms in Ok ((x, t, k) :: ms)
        end) children in
      Ok (TyStruct n children)
  | TyTuple ts =>
      let? ts := (fix go i ts := match ts with
        | [] => Ok []
        | t :: ts => let? t := map_row_to_ty column_name (pretty (i : nat)) t row in let? ts := go (S i) ts in Ok (t :: ts)
        end) 0%nat ts in
      Ok (TyTuple ts)
  | TyArray ts =>
      match ts with
      | [] => Panic
      | schema :: _ =>
          let? serialized_array := text row column_name in
          if String.eqb serialized_array EmptyString then Ok (TyArray [])
          else
            let? values := ok_or (ErrParse FromJsonStr) (json_values serialized_array) in
            let? ts := elements_of schema values in Ok (TyArray ts)
      end
  | TyFixedSizeArray ts size =>
      match ts with
      | [] => Panic
      | schema :: _ =>
          let? serialized_array := text row column_name in
          if String.eqb serialized_array EmptyString then Ok (TyFixedSizeArray [] size)
          else
            let? value := ok_or (ErrParse FromJsonStr) (json_value serialized_array) in
            let? elems := ok_or (ErrParse (InvalidFixedSizeArray "Missing 'elements' field")) (json_elements value) in
            let? _ := ok_or (ErrParse (InvalidFixedSizeArray "Missing 'size' field")) (json_size value) in
            let? ts := elements_of schema elems in Ok (TyFixedSizeArray ts size)
      end
  | TyByteArray _ => let? value := text row column_name in Ok (TyByteArray value)
  end.

(** [row.get(column)], which panics *)
Definition get {A} (r : SqlxError + A) : outcome Error A := match r with inr a => Ok a | inl _ => Panic end.
Definition parsed_felt (s : string) : outcome Error Felt := felt_or_error s.

Context {DV : DojoValues}.
(** [ty.as_struct().unwrap()] *)
Definition as_struct (t : Ty) : outcome Error Struct := match t with TyStruct n ms => Ok (n, ms) | _ => Panic end.

(** [schemas] in the order of the iteration of the map. *)
Definition map_row_to_entity (schemas : list (string * Ty)) (row : SqliteRow) (dont_include_hashed_keys : bool)
  : outcome Error Entity :=
  let? entity_id := get (row_string row "entity_id") in
  let? hashed_keys := parsed_felt entity_id in
  let? world_address := get (row_string row "world_address") in
  let? world_address := parsed_felt world_address in
  let? created_at := get (row_time row "created_at") in
  let? updated_at := get (row_time row "updated_at") in
  let? executed_at := get (row_time row "executed_at") in
  let? model_ids := get (row_string row "model_ids") in
  let model_ids := SqlString.split ","%char model_ids in
  let? models := outcome_mapM (λ s : string * Ty,
      let? ty := map_row_to_ty EmptyString (ty_name s.2) s.2 row in as_struct ty)
    (filter (λ s, s.1 ∈ model_ids) schemas) in
  Ok (mkEntity world_address (if dont_include_hashed_keys then 0 else hashed_keys) models created_at updated_at executed_at).

(** ** Columns *)
Fixpoint collect_paths (path : string) (ty : Ty) : list string :=
  match ty with
  | TyStruct _ children =>
      (fix go ms := match ms with
       | [] => []
       | (x, t, _) :: ms => collect_paths (ModelTable.child_column path x) t ++ go ms
       end) children
  | TyTuple ts =>
      (fix go i ts := match ts with
       | [] => []
       | t :: ts => collect_paths (ModelTable.child_column path (pretty (i : nat))) t ++ go (S i) ts
       end) 0%nat ts
  | TyEnum _ _ options =>
      path :: (fix go os := match os with
       | [] => []
       | (x, t) :: os =>
           (if ModelTable.is_empty_tuple t then [] else collect_paths (path +:+ "." +:+ x) t) ++ go os
       end) options
  | _ => [path]
  end.
Definition selection (table_prefix path : string) : string :=
  "[" +:+ table_prefix +:+ "].[" +:+ path +:+ "] as " +:+ ModelTable.quoted (table_prefix +:+ "." +:+ path).
Definition collect_columns (table_prefix path : string) (ty : Ty) : list string :=
  selection table_prefix <$> collect_paths path ty.
(** ** Entities by their clauses *)
Context {CE : ClauseEnv} {C : CursorCodec} {PL : Pool} {HO : HashOrder} {MR : ModelReads}.

Definition SQL_MAX_JOINS : nat := 64.
Definition ENTITIES_TABLE : string := "entities".
Definition ENTITIES_MODEL_RELATION_TABLE : string := "entity_model".
Definition ENTITIES_ENTITY_RELATION_COLUMN : string := "internal_entity_id".
Definition ENTITIES_HISTORICAL_TABLE : string := "entities_historical".
Definition EVENT_MESSAGES_TABLE : string := "event_messages".
Definition EVENT_MESSAGES_MODEL_RELATION_TABLE : string := "event_model".
Definition EVENT_MESSAGES_ENTITY_RELATION_COLUMN : string := "internal_event_message_id".
Definition EVENT_MESSAGES_HISTORICAL_TABLE : string := "event_messages_historical".

(** [l.chunks(n)]; [fuel] at least the length of [l] *)
Fixpoint chunks {A} (fuel n : nat) (l : list A) : list (list A) :=
  match fuel, l with
  | O, _ | _, [] => []
  | S fuel, _ => take n l :: chunks fuel n (drop n l)
  end.

(** The query for the models of a chunk. *)
Definition entity_columns (table_name model_relation_table : string) : list string :=
  ((λ c, table_name +:+ "." +:+ c) <$>
     ["world_address"; "id"; "entity_id"; "keys"; "event_id"; "created_at"; "updated_at"; "executed_at"]) ++
  ["group_concat(" +:+ model_relation_table +:+ ".model_id) as model_ids"].
Definition join_model (table_name entity_relation_column : string) (model : Ty) : string :=
  let model_table := ty_name model in
  "LEFT JOIN [" +:+ model_table +:+ "] ON " +:+ table_name +:+ ".id = [" +:+ model_table +:+ "]." +:+ entity_relation_column.
Definition entities_query (table_name model_relation_table entity_relation_column : string)
    (where_text having_text : option string) (bind_values : list string) (chunk : list Ty) : QueryBuilder :=
  let q := add_join ("JOIN " +:+ table_name +:+ " ON " +:+ model_relation_table +:+ ".entity_id = " +:+ table_name +:+ ".id")
             (new model_relation_table) in
  let q := foldl (λ q model, add_join (join_model table_name entity_relation_column model) q) q chunk in
  let q := select (entity_columns table_name model_relation_table ++
                   (chunk ≫= λ model, collect_columns (ty_name model) EmptyString model)) q in
  let q := group_by (table_name +:+ ".id") q in
  let q := match where_text with Some w => where_clause ("(" +:+ w +:+ ")") q | None => q end in
  let q := bind_all bind_values q in
  match having_text with Some h => having h q | None => q end.

(** The chunks are queried until one has more rows than asked for. *)
Fixpoint fetch_chunks (query : list Ty → QueryBuilder) (pagination : Pagination) (all_rows : list SqliteRow)
    (chunks : list (list Ty)) : outcome Error (Page SqliteRow) :=
  match chunks with
  | [] => Ok (mkPage _ all_rows None)
  | chunk :: chunks =>
      let? page := execute_paginated_query (query chunk) pagination (mkOrderBy "event_id" Desc) in
      let all_rows := all_rows ++ page_items _ page in
      match page_next_cursor _ page with
      | Some next_cursor => Ok (mkPage _ all_rows (Some next_cursor))
      | None => fetch_chunks query pagination all_rows chunks
      end
  end.
Definition fetch_entities (schemas : gmap string Ty) (table_name model_relation_table entity_relation_column : string)
    (where_text having_text : option string) (pagination : Pagination) (bind_values : list string)
  : outcome Error (Page SqliteRow) :=
  let models := hm_values schemas in
  fetch_chunks (entities_query table_name model_relation_table entity_relation_column where_text having_text bind_values)
    pagination [] (chunks (length models) SQL_MAX_JOINS models).

Definition historical_query (table where_text : string) (bind_values : list string) : QueryBuilder :=
  let q := group_by (table +:+ ".event_id") (select ((λ c, table +:+ "." +:+ c) <$>
    ["world_address"; "id"; "entity_id"; "data"; "model_id"; "event_id"; "created_at"; "updated_at"; "executed_at"])
    (new table)) in
  bind_all bind_values (if String.eqb where_text EmptyString then q else where_clause where_text q).
Definition historical_entity (schemas : gmap string Ty) (row : SqliteRow) : outcome Error Entity :=
  let? entity_id := get (row_string row "entity_id") in
  let? data := get (row_string row "data") in
  let? model_id := get (row_string row "model_id") in
  let? created_at := get (row_time row "created_at") in
  let? updated_at := get (row_time row "updated_at") in
  let? executed_at := get (row_time row "executed_at") in
  let? world_address := get (row_string row "world_address") in
  let? world_address := parsed_felt world_address in
  let? hashed_keys := parsed_felt entity_id in
  let? schema := unwrap (schemas !! model_id) in
  let? value := ok_or (ErrParse FromJsonStr) (json_value data) in
  let? schema := ok_or ErrPrimitive (ty_from_json schema value) in
  let? model := as_struct schema in
  Ok (mkEntity world_address hashed_keys [model] created_at updated_at executed_at).
Definition fetch_historical_entities (table where_text : string) (bind_values : list string) (pagination : Pagination)
    (schemas : gmap string Ty) : outcome Error (Page Entity) :=
  read_page (historical_query table where_text bind_values) pagination (mkOrderBy "event_id" Asc)
    (historical_entity schemas).

(** The conditions added to those of the clauses, with their values. *)
Definition world_conditions (table : string) (world_addresses : list Felt) : list string * list string :=
  match world_addresses with
  | [] => ([], [])
  | _ => ([in_list (table +:+ ".world_address") (length world_addresses)], SqlString.felt_to_sql_string <$> world_addresses)
  end.
Definition model_conditions (table model_table : string) (models : list Felt) : list string * list string :=
  match models with
  | [] => ([], [])
  | _ =>
      (["(" +:+ SqlString.join " OR "
          (replicate (length models) (model_table +:+ ".model_id = " +:+ table +:+ ".world_address || ':' || ?")) +:+ ")"],
       SqlString.felt_to_sql_string <$> models)
  end.
Definition composite_conditions (table model_relation_table : string) (historical : bool) (where_text : string)
    (models world_addresses : list Felt) : list string * list string :=
  let w := world_conditions table world_addresses in
  let m := model_conditions table (if historical then table else model_relation_table) models in
  ((if String.eqb where_text EmptyString then [] else [where_text]) ++ w.1 ++ m.1, w.2 ++ m.2).

Definition query_by_composite (table model_relation_table entity_relation_column : string) (operator : LogicalOperator)
    (clauses : list Clause) (pagination : Pagination) (no_hashed_keys : bool) (models : list string) (historical : bool)
    (world_addresses : list Felt) : outcome Error (Page Entity) :=
  let? models := outcome_mapM (λ model,
    ok_or (ErrQuery (InvalidNamespacedModel model)) (selector_from_tag model)) models in
  let? found := models_read world_addresses models in
  let schemas : gmap string Ty :=
    foldl (λ m x, <[SqlString.format_world_scoped_id x.1.1 x.1.2 := x.2]> m) ∅ found in
  let? (where_text, bind_values) := build_composite_clause table model_relation_table historical operator clauses in
  let '(conditions, values) := composite_conditions table model_relation_table historical where_text models world_addresses in
  let bind_values := bind_values ++ values in
  let where_text := SqlString.join " AND " conditions in
  if historical then fetch_historical_entities table where_text bind_values pagination schemas
  else
    let? page := fetch_entities schemas table model_relation_table entity_relation_column
      (if String.eqb where_text EmptyString then None else Some where_text) None pagination bind_values in
    let? items := outcome_mapM (λ row, map_row_to_entity (hm_iter schemas) row no_hashed_keys) (page_items _ page) in
    Ok (mkPage _ items (page_next_cursor _ page)).

(** ** The reads of the storage *)
(** Any other clause is the only one of a conjunction. *)
Definition as_composite (clause : option Clause) : LogicalOperator * list Clause :=
  match clause with
  | Some (Composite operator clauses) => (operator, clauses)
  | Some c => (And, [c])
  | None => (And, [])
  end.
Definition entities (query : Query) : outcome Error (Page Entity) :=
  let '(operator, clauses) := as_composite (query_clause query) in
  query_by_composite (if query_historical query then ENTITIES_HISTORICAL_TABLE else ENTITIES_TABLE)
    ENTITIES_MODEL_RELATION_TABLE ENTITIES_ENTITY_RELATION_COLUMN operator clauses (query_pagination query)
    (query_no_hashed_keys query) (query_models query) (query_historical query) (query_world_addresses query).
Definition event_messages (query : Query) : outcome Error (Page Entity) :=
  let '(operator, clauses) := as_composite (query_clause query) in
  query_by_composite (if query_historical query then EVENT_MESSAGES_HISTORICAL_TABLE else EVENT_MESSAGES_TABLE)
    EVENT_MESSAGES_MODEL_RELATION_TABLE EVENT_MESSAGES_ENTITY_RELATION_COLUMN operator clauses (query_pagination query)
    (query_no_hashed_keys query) (query_models query) (query_historical query) (query_world_addresses query).
Definition entity_model (world_address entity_id model_selector : Felt) : outcome Error (option Ty) :=
  let? schema := model_read world_address model_selector in
  let? rows := sql (fetch_all ("SELECT * FROM [" +:+ ty_name schema +:+ "] WHERE internal_id = ?")
                      [SqlString.format_world_scoped_id world_address entity_id]) in
  match rows with
  | [] => Ok None
  | row :: _ => let? t := map_row_to_ty EmptyString EmptyString schema row in Ok (Some t)
  end.
End rows.
End EntityReads.
