(* ===== verification/EntityValues.v ===== *)
(** * What is written of an entity is what is read ([crates/sqlite/sqlite/src])

    Three parts of the code name the columns of a model: [build_model_query] those of its
    table, [set_entity_model] those it writes and [map_row_to_ty] those it reads, from the
    table or from a page that [collect_columns] selects. The theorems of this file say
    that they agree. *)

From S2P Require Import Prelude Proto SqlString SqlText Database Executor ModelTable Wire Messages Aggregator Matching Query Rows.
From S2P Require Import Reads Composite EntityReads.
From stdpp Require Import pretty.
From Stdlib Require Import Ascii.
Local Open Scope Z_scope.
Local Open Scope torii_scope.

(** The two types of columns. *)
#[local] Abbreviation integer_column := SqlInteger.
#[local] Abbreviation text_column := SqlText.

Module EntityValues.
Import Msg Query Rows Reads Composite EntityReads.

(** ** Columns of a page *)
Section agreement.
Context `{Sqlx} `{SqlString.FeltFromStr} {TJ : TyJson}.
#[local] Abbreviation Ty := DTy.

(** A column of a row holds what another column of another row does. *)
Definition same_column (r1 : SqliteRow) (c1 : string) (r2 : SqliteRow) (c2 : string) : Prop :=
  row_string r1 c1 = row_string r2 c2 ∧ (∀ k, row_int k r1 c1 = row_int k r2 c2) ∧ row_bool r1 c1 = row_bool r2 c2.

Lemma read_primitive_same p r1 c1 r2 c2 : same_column r1 c1 r2 c2 → read_primitive p r1 c1 = read_primitive p r2 c2.
Proof. intros (Hs & Hi & Hb). destruct p; cbn; by rewrite ?Hs, ?Hi, ?Hb. Qed.

Lemma child_column_ne p x : p ≠ EmptyString → ModelTable.child_column p x = p +:+ "." +:+ x ∧
  ModelTable.child_column p x ≠ EmptyString.
Proof.
  intros Hp. unfold ModelTable.child_column. rewrite decide_False by done. split; [done|]. by destruct p.
Qed.

(** [q] is the column in the table and [base +:+ q] the one in the page. *)
Lemma page_reads base page row t : ∀ q path name path' name',
  q ≠ EmptyString → ModelTable.child_column path' name' = q → ModelTable.child_column path name = base +:+ q →
  (∀ c, c ∈ collect_paths q t → same_column page (base +:+ c) row c) →
  map_row_to_ty path name t page = map_row_to_ty path' name' t row.
Proof.
  assert (∀ q x, q ≠ EmptyString → ModelTable.child_column (base +:+ q) x = base +:+ ModelTable.child_column q x ∧
    ModelTable.child_column q x ≠ EmptyString ∧ ModelTable.child_column q x = q +:+ "." +:+ x) as Hchild.
  { intros q x Hq. destruct (child_column_ne q x Hq) as [-> Hne]. split; [|done].
    destruct (child_column_ne (base +:+ q) x) as [-> _]; [by destruct base|]. by rewrite !SqlString.append_assoc. }
  induction t as [p|n ms IH|n o os IH|ts IH|ts _|ts l _|b] using ModelTable.DTy_ind';
    intros q path name path' name' Hq Hq' Hc Hsame; cbn [map_row_to_ty]; rewrite Hc, Hq'; cbn [collect_paths] in Hsame.
  - rewrite (read_primitive_same p page (base +:+ q) row q); [done|]. apply Hsame. by left.
  - f_equal. induction IH as [|[[x t] k] ms Ht _ IHms]; [done|]. cbn [fst snd] in *.
    destruct (Hchild q x Hq) as (Hx & Hne & _).
    rewrite (Ht (ModelTable.child_column q x) (base +:+ q) x q x Hne eq_refl Hx) by set_solver.
    destruct (map_row_to_ty q x t row) as [t'|e|]; [|done..]. cbn [outcome_bind].
    rewrite IHms by set_solver. done.
  - assert (same_column page (base +:+ q) row q) as (Hs & _) by (apply Hsame; left). rewrite Hs.
    destruct (row_string row q) as [e|option_name]; [done|]. cbn [sql outcome_bind].
    destruct (if String.eqb option_name "" then _ else _) as [o'|e|]; [|done..]. cbn [outcome_bind].
    f_equal. assert (∀ c, c ∈ (fix go os := match os with
       | [] => []
       | (x, t) :: os => (if ModelTable.is_empty_tuple t then [] else collect_paths (q +:+ "." +:+ x) t) ++ go os
       end) os → same_column page (base +:+ c) row c) as Hos by (intros c Hin; apply Hsame; by right).
    clear Hsame. induction IH as [|[x t] os Ht _ IHos]; [done|]. cbn [fst snd] in *.
    assert ((if String.eqb x option_name then map_row_to_ty (base +:+ q) x t page else Ok t) =
            (if String.eqb x option_name then map_row_to_ty q x t row else Ok t)) as ->.
    { destruct (String.eqb x option_name); [|done]. destruct (ModelTable.is_empty_tuple t) eqn:He.
      - destruct t as [| | |[]| | |]; try done.
      - destruct (Hchild q x Hq) as (Hx & Hne & Hd).
        apply (Ht (ModelTable.child_column q x)); [done..|]. rewrite Hd. set_solver. }
    destruct (if String.eqb x option_name then _ else _) as [t'|e|]; [|done..]. cbn [outcome_bind].
    rewrite IHos by set_solver. done.
  - f_equal. revert Hsame. generalize 0%nat. induction IH as [|t ts Ht _ IHts]; intros i Hsame; [done|].
    destruct (Hchild q (pretty i) Hq) as (Hx & Hne & _).
    rewrite (Ht (ModelTable.child_column q (pretty i)) (base +:+ q) (pretty i) q (pretty i) Hne eq_refl Hx) by set_solver.
    destruct (map_row_to_ty q (pretty i) t row) as [t'|e|]; [|done..]. cbn [outcome_bind].
    rewrite IHts by set_solver. done.
  - destruct ts as [|s ts]; [done|]. destruct (Hsame q) as (-> & _); [by left|]. done.
  - destruct ts as [|s ts]; [done|]. destruct (Hsame q) as (-> & _); [by left|]. done.
  - destruct (Hsame q) as (-> & _); [by left|]. done.
Qed.

Lemma page_reads_struct n n' ms page row :
  n ≠ EmptyString → Forall (λ m, m.1.1 ≠ EmptyString) ms →
  (∀ c, c ∈ collect_paths EmptyString (TyStruct n' ms) → same_column page (n +:+ "." +:+ c) row c) →
  map_row_to_ty EmptyString n (TyStruct n' ms) page = map_row_to_ty EmptyString EmptyString (TyStruct n' ms) row.
Proof.
  intros Hn Hms Hsame. cbn [map_row_to_ty collect_paths] in *. f_equal. change (ModelTable.child_column "" n) with n.
  change (ModelTable.child_column "" "") with EmptyString.
  induction Hms as [|[[x t] k] ms Hx _ IH]; [done|]. cbn [fst snd] in *.
  rewrite (page_reads (n +:+ ".") page row t x n x EmptyString x); [|done|done| |].
  - destruct (map_row_to_ty "" x t row) as [t'|e|]; [|done..]. cbn [outcome_bind]. rewrite IH by set_solver. done.
  - rewrite (proj1 (child_column_ne n x Hn)). by rewrite SqlString.append_assoc.
  - intros c Hc. rewrite SqlString.append_assoc. apply Hsame, elem_of_app. by left.
Qed.

(** What the query of a chunk selects. *)
Context {DV : DojoValues}.
Lemma bind_all_selections values q : selections (bind_all values q) = selections q.
Proof. revert q. induction values as [|v values IH]; intros q; [done|]. unfold bind_all in *. cbn. by rewrite IH. Qed.
Lemma entities_query_selections table relation column w h binds chunk :
  selections (entities_query table relation column w h binds chunk) =
    entity_columns table relation ++ (chunk ≫= λ model, collect_columns (ty_name model) EmptyString model).
Proof.
  unfold entities_query. destruct h as [h|]; cbn [selections having]; rewrite bind_all_selections;
    destruct w as [w|]; cbn [selections where_clause group_by select];
    (assert (∀ q, selections (foldl (λ q model, add_join (join_model table column model) q) q chunk) = selections q) as ->;
      [intros q; revert q; induction chunk as [|m chunk IH]; intros q; [done|]; cbn [foldl]; by rewrite IH|done]).
Qed.

(** C20: the query of a page selects every column that is read from it. When the row of a
    page has, under the alias of each column that [fetch_entities] selects, the column of
    the row of the model, the model of the entity read from the page is the one read from
    its table. *)
Theorem page_reads_model table relation column w h binds chunk n ms page row :
  ty_name (TyStruct n ms) = n → n ≠ EmptyString → Forall (λ m, m.1.1 ≠ EmptyString) ms → TyStruct n ms ∈ chunk →
  (∀ c, selection n c ∈ selections (entities_query table relation column w h binds chunk) →
     same_column page (n +:+ "." +:+ c) row c) →
  map_row_to_ty EmptyString n (TyStruct n ms) page = map_row_to_ty EmptyString EmptyString (TyStruct n ms) row.
Proof.
  intros Hname Hn Hms Hin Hsel. apply page_reads_struct; [done..|]. intros c Hc. apply Hsel.
  rewrite entities_query_selections. apply elem_of_app. right. apply list_elem_of_bind. exists (TyStruct n ms).
  split; [|done]. rewrite Hname. by apply list_elem_of_fmap_2.
Qed.
End agreement.

(** ** Values *)
(** The kind of a primitive: it without its value. *)
Definition kind_of (p : Prim) : Prim :=
  match p with
  | PrimI8 _ => PrimI8 None | PrimI16 _ => PrimI16 None | PrimI32 _ => PrimI32 None | PrimI64 _ => PrimI64 None
  | PrimI128 _ => PrimI128 None | PrimU8 _ => PrimU8 None | PrimU16 _ => PrimU16 None | PrimU32 _ => PrimU32 None
  | PrimU64 _ => PrimU64 None | PrimU128 _ => PrimU128 None | PrimU256 _ => PrimU256 None | PrimBool _ => PrimBool None
  | PrimFelt252 _ => PrimFelt252 None | PrimClassHash _ => PrimClassHash None
  | PrimContractAddress _ => PrimContractAddress None | PrimEthAddress _ => PrimEthAddress None
  end.
Definition kind_type (p : Prim) : SqlType :=
  match p with
  | PrimI8 _ | PrimI16 _ | PrimI32 _ | PrimI64 _ | PrimU8 _ | PrimU16 _ | PrimU32 _ | PrimBool _ => integer_column
  | _ => text_column
  end.
Definition bool_text (b : bool) : string := if b then "1" else "0".
(** Decimal for what is an integer of SQLite, and else all the digits of a word. *)
Definition prim_text (p : Prim) : option string :=
  match p with
  | PrimI8 v | PrimI16 v | PrimI32 v | PrimI64 v | PrimU8 v | PrimU16 v | PrimU32 v => pretty <$> v
  | PrimBool b => bool_text <$> b
  | PrimI128 v => SqlString.format_hex 66 <$> (as_u128 <$> v)
  | PrimU64 v | PrimU128 v | PrimU256 v | PrimFelt252 v | PrimClassHash v | PrimContractAddress v | PrimEthAddress v =>
      SqlString.format_hex 66 <$> v
  end.
Lemma kind_type_of p q : kind_of p = kind_of q → kind_type p = kind_type q.
Proof. by destruct p, q. Qed.

(** [v] is a value of the schema [s]: every primitive has a value, every enum an option of
    its own name; the options not selected are as in the schema. Fixed size arrays are
    left out. *)
Fixpoint value_of (s v : DTy) {struct v} : Prop :=
  match v, s with
  | TyPrimitive p, TyPrimitive q => kind_of p = kind_of q ∧ prim_ok p ∧ is_Some (prim_text p)
  | TyByteArray _, TyByteArray _ => True
  | TyArray vs, TyArray (s :: _) => (fix go vs := match vs with [] => True | v :: vs => value_of s v ∧ go vs end) vs
  | TyStruct n vs, TyStruct n' ms =>
      n = n' ∧ (fix go vs ms {struct vs} := match vs, ms with
       | [], [] => True
       | (x, v, k) :: vs, (x', t, k') :: ms => x = x' ∧ k = k' ∧ value_of t v ∧ go vs ms
       | _, _ => False
       end) vs ms
  | TyTuple vs, TyTuple ts =>
      (fix go vs ts {struct vs} := match vs, ts with
       | [], [] => True
       | v :: vs, t :: ts => value_of t v ∧ go vs ts
       | _, _ => False
       end) vs ts
  | TyEnum n (Some i) vs, TyEnum n' _ os =>
      n = n' ∧ NoDup (os.*1) ∧ (EmptyString ∉ os.*1) ∧
      (fix go (sel : option nat) vs os {struct vs} := match vs, os, sel with
       | [], [], None => True
       | (x, v) :: vs, (x', t) :: os, Some 0%nat => x = x' ∧ value_of t v ∧ go None vs os
       | (x, v) :: vs, (x', t) :: os, Some (S i) => x = x' ∧ v = t ∧ go (Some i) vs os
       | (x, v) :: vs, (x', t) :: os, None => x = x' ∧ v = t ∧ go None vs os
       | _, _, _ => False
       end) (Some i) vs os
  | _, _ => False
  end.

(** What the dojo crates say of the texts of values. *)
Class ValueTextSpec {TT : TyText} {TJ : TyJson} : Prop := {
  spec_sql_type p : prim_sql_type p = kind_type p;
  spec_sql_value p text : prim_ok p → prim_text p = Some text → prim_sql_value p = text;
  spec_enum_value name i (options : list (string * DTy)) x : (options.*1) !! i = Some x → enum_sql_value name (Some i) options = x;
  spec_set_option (options : list (string * DTy)) i x :
    NoDup (options.*1) → (options.*1) !! i = Some x → set_option options x = Some i;
  spec_values_json s vs json : Forall (value_of s) vs → values_json vs = inr json →
    json ≠ EmptyString ∧ ∃ js, json_values json = Some js ∧ Forall2 (λ j v, ty_from_json s j = Some v) js vs
}.

(** ** Rows *)
Section values.
Context `{Sqlx} `{SqlString.FeltFromStr} {TT : TyText} {TJ : TyJson} {VS : ValueTextSpec}.
Context (all_model_indices : bool) (model_indices : list ModelTable.ModelIndices).
#[local] Abbreviation Ty := DTy.

Definition int_fits (k : IntKind) (n : Z) : Prop :=
  match k with
  | I8 => - 2 ^ 7 ≤ n < 2 ^ 7 | I16 => - 2 ^ 15 ≤ n < 2 ^ 15 | I32 => - 2 ^ 31 ≤ n < 2 ^ 31 | I64 => - 2 ^ 63 ≤ n < 2 ^ 63
  | U8 => 0 ≤ n < 2 ^ 8 | U16 => 0 ≤ n < 2 ^ 16 | U32 => 0 ≤ n < 2 ^ 32 | U64 => 0 ≤ n < 2 ^ 64
  end.
(** What is read from a column of the declared type after the text was written to it: a
    decimal is an integer in a column of integers. *)
Definition reads_as (declared : string) (row : SqliteRow) (column written : string) : Prop :=
  if String.eqb declared "INTEGER" then
    (∀ k n, written = pretty n → int_fits k n → row_int k row column = inr n) ∧
    (∀ b, written = bool_text b → row_bool row column = inr b)
  else row_string row column = inr written.

Definition table_columns (path : list string) (table_id : string) (key : bool) (s : Ty) : list (string * string) :=
  ModelTable.ch_columns (ModelTable.add_columns_recursive all_model_indices model_indices path s table_id None None key).
(** The row after the columns were written. *)
Definition row_of (row : SqliteRow) (table : list (string * string)) (written : list (string * Argument)) : Prop :=
  ∀ name declared value, (name, declared) ∈ table → (ModelTable.quoted name, ArgString value) ∈ written →
    reads_as declared row name value.

Lemma row_of_mono row t1 t2 w1 w2 : t1 ⊆ t2 → w1 ⊆ w2 → row_of row t2 w2 → row_of row t1 w1.
Proof. intros Ht Hw Hr name declared value H1 H2. eauto. Qed.

Lemma columns_struct path tbl key n ms x t k :
  (x, t, k) ∈ ms → table_columns (path ++ [x]) tbl k t ⊆ table_columns path tbl key (TyStruct n ms).
Proof.
  unfold table_columns. cbn [ModelTable.add_columns_recursive]. induction ms as [|[[x' t'] k'] ms IH].
  - by intros ?%elem_of_nil.
  - intros [[= <- <- <-]|Hin]%elem_of_cons; cbn [ModelTable.ch_app ModelTable.ch_columns]; [set_solver|].
    specialize (IH Hin). set_solver.
Qed.
Lemma columns_enum path tbl key n o os x t :
  (x, t) ∈ os → ModelTable.is_empty_tuple t = false →
  table_columns (path ++ [x]) tbl key t ⊆ table_columns path tbl key (TyEnum n o os).
Proof.
  intros Hin He. unfold table_columns. cbn [ModelTable.add_columns_recursive ModelTable.ch_app ModelTable.ch_columns].
  apply list_subseteq_app_r. induction os as [|[x' t'] os IH]; [by apply elem_of_nil in Hin|].
  apply elem_of_cons in Hin as [[= <- <-]|Hin]; cbn [ModelTable.ch_app ModelTable.ch_columns].
  - rewrite He. apply list_subseteq_app_l. done.
  - apply list_subseteq_app_r. by apply IH.
Qed.
Lemma columns_tuple path tbl key ts i t :
  ts !! i = Some t → table_columns (path ++ [pretty i]) tbl key t ⊆ table_columns path tbl key (TyTuple ts).
Proof.
  unfold table_columns. cbn [ModelTable.add_columns_recursive]. change i with (0 + i)%nat at 2. generalize 0%nat.
  revert i. induction ts as [|t' ts IH]; intros i j Hi; [done|]. cbn [ModelTable.ch_app ModelTable.ch_columns].
  destruct i as [|i]; cbn in Hi.
  - injection Hi as ->. rewrite Nat.add_0_r. apply list_subseteq_app_l. done.
  - rewrite Nat.add_succ_r. apply list_subseteq_app_r. apply (IH i (Datatypes.S j) Hi).
Qed.

Lemma hex_ne n : 0 ≤ n < 16 ^ 64 → SqlString.trim_0x (SqlString.format_hex 66 n) ≠ EmptyString.
Proof.
  intros Hn Heq. rewrite SqlString.trim_format_hex in Heq by done.
  apply (f_equal String.length) in Heq. rewrite SqlString.digits_string_length in Heq.
  destruct (SqlString.pad_digits_spec 64 n Hn) as (_ & _ & _ & Hl). change (66 - 2)%nat with 64%nat in Heq.
  rewrite Hl in Heq by (simpl; lia). done.
Qed.
Lemma u128_hex n : 0 ≤ n ≤ u128_max → u128_from_hex (SqlString.trim_0x (SqlString.format_hex 66 n)) = Some n.
Proof.
  intros Hn. assert (0 ≤ n < 16 ^ 64) as Hn' by (unfold u128_max in Hn; lia).
  pose proof (hex_ne n Hn') as Hne. rewrite SqlString.trim_format_hex in * by done.
  destruct (SqlString.pad_digits_spec 64 n Hn') as (Hd & Hv & _). change (66 - 2)%nat with 64%nat in *.
  pose proof (Agg.digits_from_hex _ Hd 0) as Hdf. unfold digits_value in Hv. rewrite Hv in Hdf.
  destruct Hd as [|d l Hd Hl]; [done|]. cbn [digits_string foldr] in *. unfold u128_from_hex, unsigned_from.
  assert (Ascii.eqb (hex_char d) plus_sign = false) as ->.
  { apply Ascii.eqb_neq. apply SqlString.hex_char_separator; [done|]. unfold SqlString.separator. auto. }
  unfold number_from. rewrite Hdf. cbn [mbind option_bind].
  by rewrite Z.mul_1_l, (proj2 (Z.leb_le _ _)), (proj2 (Z.leb_le _ _)) by lia.
Qed.
Lemma as_i128_u128 n : - 2 ^ 127 ≤ n < 2 ^ 127 → as_i128 (as_u128 n) = n ∧ 0 ≤ as_u128 n ≤ u128_max.
Proof.
  intros Hn. unfold as_i128, as_u128, u128_max. pose proof (Z.mod_pos_bound n (2 ^ 128) eq_refl) as Hb.
  split; [|lia]. destruct (Z.le_gt_cases 0 n) as [Hp|Hp].
  - rewrite Z.mod_small by lia. by rewrite (proj2 (Z.ltb_lt _ _)) by lia.
  - rewrite <- (Z_mod_plus_full n 1), Z.mod_small by lia. rewrite (proj2 (Z.ltb_ge _ _)) by lia. lia.
Qed.

Lemma format_hex_ne n : SqlString.format_hex 66 n ≠ EmptyString.
Proof. done. Qed.
Lemma hex_number_back parse old n : 0 ≤ n < 16 ^ 64 →
  parse (SqlString.trim_0x (SqlString.format_hex 66 n)) = Some n →
  hex_number parse old (SqlString.format_hex 66 n) = Ok (Some n).
Proof.
  intros Hn Hp. unfold hex_number. rewrite (proj2 (String.eqb_neq _ _) (hex_ne n Hn)). by rewrite Hp.
Qed.
Lemma felt_value_back old f : SqlString.felt_ok f → felt_value old (SqlString.format_hex 66 f) = Ok (Some f).
Proof.
  intros Hf. unfold felt_value. rewrite (proj2 (String.eqb_neq _ _) (format_hex_ne f)).
  unfold felt_or_error. by rewrite SqlString.felt_from_format.
Qed.

(** A primitive is read back as it was written. *)
Lemma primitive_back p q row column text :
  kind_of p = kind_of q → prim_ok p → prim_text p = Some text →
  reads_as (ModelTable.sql_type_ref (kind_type q)) row column text → read_primitive q row column = Ok p.
Proof.
  intros Hk Hok Ht Hr.
  destruct p as [v|v|v|v|v|v|v|v|v|v|v|v|v|v|v|v], q; try discriminate Hk; clear Hk;
    destruct v as [v|]; try discriminate Ht; apply (inj Some) in Ht; subst text;
    unfold reads_as in Hr; cbn [ModelTable.sql_type_ref kind_type String.eqb Ascii.eqb Bool.eqb] in Hr;
    cbn [prim_ok] in Hok; unfold signed_ok, unsigned_ok in Hok; specialize (Hok v eq_refl) || clear Hok;
    cbn [read_primitive];
    lazymatch type of Hr with
    | _ ∧ _ => destruct Hr as [Hi Hb]; first [erewrite Hi by (reflexivity || (cbn; lia)) | erewrite Hb by reflexivity]; done
    | _ => rewrite Hr; cbn [sql outcome_bind]
    end.
  - destruct (as_i128_u128 v) as [Hv Hu]; [lia|]. rewrite u128_hex by done. cbn. by rewrite Hv.
  - rewrite hex_number_back; [done|lia|]. apply SqlString.u64_from_hex_format. unfold u64_max. lia.
  - rewrite hex_number_back; [done|lia|]. apply u128_hex. unfold u128_max. lia.
  - assert (0 ≤ v < 16 ^ 64) as Hv by lia. rewrite (proj2 (String.eqb_neq _ _) (hex_ne v Hv)).
    by rewrite Agg.from_be_hex_all.
  - by rewrite felt_value_back.
  - by rewrite felt_value_back.
  - by rewrite felt_value_back.
  - by rewrite felt_value_back.
Qed.

(** The options that are not the one of this name are left as they are. *)
Definition read_options (q : string) (row : SqliteRow) (option_name : string) :=
  fix go (os : list (string * Ty)) : outcome Error (list (string * Ty)) := match os with
  | [] => Ok []
  | (x, t) :: os =>
      let? t := if String.eqb x option_name then map_row_to_ty q x t row else Ok t in
      let? os := go os in Ok ((x, t) :: os)
  end.
Lemma options_unread q row option_name os rest : option_name ∉ os.*1 →
  read_options q row option_name (os ++ rest) = (let? rest := read_options q row option_name rest in Ok (os ++ rest)).
Proof.
  induction os as [|[x t] os IH]; [intros _; cbn [app]; by destruct (read_options q row option_name rest)|].
  cbn [fmap list_fmap fst]. intros [Hx Hos]%not_elem_of_cons. cbn [app read_options].
  rewrite (proj2 (String.eqb_neq _ _)) by congruence. cbn [outcome_bind]. rewrite IH by done.
  by destruct (read_options q row option_name rest).
Qed.
(** The enum, by the option that is selected. *)
Lemma value_of_enum n o n' o' vs os : value_of (TyEnum n' o' os) (TyEnum n o vs) →
  n = n' ∧ NoDup os.*1 ∧ ∃ pre x v t post, o = Some (length pre) ∧ x ≠ EmptyString ∧ vs = pre ++ (x, v) :: post ∧
    os = pre ++ (x, t) :: post ∧ value_of t v.
Proof.
  cbn [value_of]. destruct o as [i|]; [|done]. intros (-> & Hnd & Hne & Hgo). split_and!; [done..|]. clear Hnd.
  assert (∀ vs os : list (string * Ty), (fix go (sel : option nat) (vs os : list (string * Ty)) {struct vs} : Prop := match vs, os, sel with
       | [], [], None => True
       | (x, v) :: vs, (x', t) :: os, Some 0%nat => x = x' ∧ value_of t v ∧ go None vs os
       | (x, v) :: vs, (x', t) :: os, Some (S i) => x = x' ∧ v = t ∧ go (Some i) vs os
       | (x, v) :: vs, (x', t) :: os, None => x = x' ∧ v = t ∧ go None vs os
       | _, _, _ => False
       end) None vs os → vs = os) as Hnone.
  { intros vs1. induction vs1 as [|[x v] vs1 IH]; intros [|[x' t] os1]; try done. intros (-> & -> & Hr). f_equal. by apply IH. }
  revert i os Hne Hgo. induction vs as [|[x v] vs IH]; intros i [|[x' t] os] Hne Hgo; try done.
  cbn [fmap list_fmap fst] in Hne. apply not_elem_of_cons in Hne as [Hx Hne]. destruct i as [|i].
  - destruct Hgo as (<- & Hv & Hr). apply Hnone in Hr as <-. exists [], x, v, t, vs. split_and!; [done|congruence|done..].
  - destruct Hgo as (<- & <- & Hr). apply IH in Hr as (pre & y & u & u' & post & Hi & Hy & -> & -> & Hu); [|done].
    injection Hi as ->. by exists ((x, v) :: pre), y, u, u', post.
Qed.
Lemma collect_enum prefix n (pre : list (string * Ty)) x v post :
  ModelTable.collect_members prefix (TyEnum n (Some (length pre)) (pre ++ (x, v) :: post)) =
  let col := (ModelTable.quoted prefix, ArgString (enum_sql_value n (Some (length pre)) (pre ++ (x, v) :: post))) in
  if ModelTable.is_empty_tuple v then Ok [col]
  else let? a := ModelTable.collect_members (prefix +:+ "." +:+ x) v in Ok (col :: a).
Proof.
  cbn [ModelTable.collect_members]. generalize (enum_sql_value n (Some (length pre)) (pre ++ (x, v) :: post)). intros text.
  induction pre as [|[y u] pre IH]; [done|]. cbn [length app]. exact IH.
Qed.

Lemma elements_back s js vs : Forall2 (λ j v, ty_from_json s j = Some v) js vs → elements_of s js = Ok vs.
Proof. induction 1 as [|j v js vs Hj _ IH]; [done|]. unfold elements_of in *. cbn. rewrite Hj. cbn. by rewrite IH. Qed.
Lemma values_of s vs : (fix go vs := match vs with [] => True | v :: vs => value_of s v ∧ go vs end) vs → Forall (value_of s) vs.
Proof. induction vs as [|v vs IH]; [done|]. intros [Hv Hvs]. constructor; auto. Qed.

(** [v], written to the columns of its path, is read from the row that has them. *)
Definition reads_back (row : SqliteRow) (tbl : string) (v : Ty) : Prop := ∀ s key p path name cols,
  value_of s v → p ≠ [] → SqlString.join "." p ≠ EmptyString →
  ModelTable.child_column path name = SqlString.join "." p →
  ModelTable.collect_members (SqlString.join "." p) v = Ok cols →
  row_of row (table_columns (tbl :: p) tbl key s) cols →
  map_row_to_ty path name s row = Ok v.

Lemma collected_app {E A} (r1 r2 : outcome E (list A)) cols :
  (let? a := r1 in let? b := r2 in Ok (a ++ b)) = Ok cols → ∃ a b, r1 = Ok a ∧ r2 = Ok b ∧ a ⊆ cols ∧ b ⊆ cols.
Proof.
  destruct r1 as [a|e|]; [|done..]. destruct r2 as [b|e|]; [|done..]. intros [= <-].
  exists a, b. split_and!; [done..|by apply list_subseteq_app_l|by apply list_subseteq_app_r].
Qed.

(** The members of a structure; [column] is the empty name at the top. *)
Lemma members_back row tbl p column n n' (vs ms : list (string * Ty * bool)) cols :
  Forall (λ m, reads_back row tbl m.1.2) vs → value_of (TyStruct n' ms) (TyStruct n vs) →
  (∀ x, x ∈ vs.*1.*1 → ModelTable.child_column column x = SqlString.join "." (p ++ [x]) ∧
     SqlString.join "." (p ++ [x]) ≠ EmptyString) →
  ModelTable.collect_members column (TyStruct n vs) = Ok cols →
  (∀ x t k, (x, t, k) ∈ ms → row_of row (table_columns (tbl :: p ++ [x]) tbl k t) cols) →
  (fix go ms := match ms with
   | [] => Ok []
   | (x, t, k) :: ms => let? t := map_row_to_ty column x t row in let? ms := go ms in Ok ((x, t, k) :: ms)
   end) ms = Ok vs.
Proof.
  intros IH [_ Hv] Hx Hcols Hrow. cbn [ModelTable.collect_members] in Hcols. revert ms cols Hv Hcols Hrow.
  induction IH as [|[[x v] k] vs Hback _ IH]; intros [|[[x' t] k'] ms] cols Hv Hcols Hrow; try done.
  destruct Hv as (<- & <- & Hv & Hvs). apply collected_app in Hcols as (a & b & Ha & Hb & Hac & Hbc).
  destruct (Hx x) as [Hcol Hne]; [by left|]. cbn [fst snd] in Hback.
  rewrite (Hback t k (p ++ [x]) column x a); [|done|by destruct p|done|done|by rewrite <- Hcol|].
  - cbn [outcome_bind]. rewrite (IH ltac:(intros y Hy; apply Hx; by right) ms b Hvs Hb); [done|].
    intros y u k' Hin. eapply row_of_mono; [done|exact Hbc|]. apply Hrow. by right.
  - eapply row_of_mono; [done|exact Hac|]. apply Hrow. by left.
Qed.

Lemma tuple_back row tbl p key (vs ts : list Ty) cols :
  Forall (reads_back row tbl) vs → value_of (TyTuple ts) (TyTuple vs) → p ≠ [] → SqlString.join "." p ≠ EmptyString →
  ModelTable.collect_members (SqlString.join "." p) (TyTuple vs) = Ok cols →
  row_of row (table_columns (tbl :: p) tbl key (TyTuple ts)) cols →
  (fix go i ts := match ts with
   | [] => Ok []
   | t :: ts => let? t := map_row_to_ty (SqlString.join "." p) (pretty (i : nat)) t row in
                let? ts := go (S i) ts in Ok (t :: ts)
   end) 0%nat ts = Ok vs.
Proof.
  intros IH Hv Hp Hne Hcols Hrow.
  assert (∀ i t, ts !! i = Some t → row_of row (table_columns (tbl :: p ++ [pretty (0 + i)%nat]) tbl key t) cols) as Hrow'.
  { intros i t Hi. eapply row_of_mono; [|done|exact Hrow]. by apply (columns_tuple (tbl :: p)). }
  clear Hrow. cbn [ModelTable.collect_members] in Hcols. revert Hcols Hrow'. generalize 0%nat. intros j. revert j ts cols Hv.
  cbn [value_of]. induction IH as [|v vs Hback _ IH]; intros j [|t ts] cols Hv Hcols Hrow; try done.
  destruct Hv as [Hv Hvs]. apply collected_app in Hcols as (a & b & Ha & Hb & Hac & Hbc).
  destruct (ModelTable.child_column_inner p (pretty j) Hp Hne) as [Hcol Hne'].
  rewrite (Hback t key (p ++ [pretty j]) (SqlString.join "." p) (pretty j) a);
    [|done|by destruct p|done|done|by rewrite <- Hcol|].
  - cbn [outcome_bind]. rewrite (IH (Datatypes.S j) ts b Hvs Hb); [done|]. intros i u Hi.
    eapply row_of_mono; [done|exact Hbc|]. replace (Datatypes.S j + i)%nat with (j + Datatypes.S i)%nat by lia. by apply Hrow.
  - eapply row_of_mono; [done|exact Hac|]. specialize (Hrow 0%nat t eq_refl). by rewrite Nat.add_0_r in Hrow.
Qed.

Lemma empty_tuple_value t v : value_of t v → ModelTable.is_empty_tuple t = ModelTable.is_empty_tuple v.
Proof. destruct v as [| | |[|]| | |], t as [| | |[|]| | |]; cbn; try done; by destruct option. Qed.
Lemma empty_tuple_read q x t v row : value_of t v → ModelTable.is_empty_tuple v = true → map_row_to_ty q x t row = Ok v.
Proof. intros Hv He. destruct v as [| | |[|]| | |]; try discriminate He. by destruct t as [| | |[|]| | |]. Qed.

Lemma enum_back row tbl p key n o n' o' vs os cols :
  Forall (λ x, reads_back row tbl x.2) vs → value_of (TyEnum n' o' os) (TyEnum n o vs) →
  p ≠ [] → SqlString.join "." p ≠ EmptyString →
  ModelTable.collect_members (SqlString.join "." p) (TyEnum n o vs) = Ok cols →
  row_of row (table_columns (tbl :: p) tbl key (TyEnum n' o' os)) cols →
  ∃ i x, o = Some i ∧ row_string row (SqlString.join "." p) = inr x ∧ x ≠ EmptyString ∧ set_option os x = Some i ∧
    read_options (SqlString.join "." p) row x os = Ok vs.
Proof.
  intros IH Hv Hp Hne Hcols Hrow.
  destruct (value_of_enum _ _ _ _ _ _ Hv) as (-> & Hnd & pre & x & v & t & post & -> & Hx & -> & -> & Ht).
  rewrite collect_enum in Hcols. cbv zeta in Hcols.
  rewrite (spec_enum_value _ _ _ x) in Hcols by (rewrite fmap_app, lookup_app_r, length_fmap, Nat.sub_diag by (by rewrite length_fmap); done).
  exists (length pre), x. split; [done|]. split; [|split; [done|split]].
  - assert (∃ d, (SqlString.join "." p, "TEXT CONSTRAINT [" +:+ d) ∈ table_columns (tbl :: p) tbl key (TyEnum n' o' (pre ++ (x, t) :: post)))
      as [d Hd].
    { eexists. unfold table_columns. cbn [ModelTable.add_columns_recursive ModelTable.ch_app ModelTable.ch_columns].
      unfold ModelTable.enum_column. rewrite ModelTable.column_name_inner by done. by left. }
    apply (Hrow _ _ x Hd). { destruct (ModelTable.is_empty_tuple v); [apply Ok_inj in Hcols as <-; by left|].
      destruct (ModelTable.collect_members _ v) as [a|e|]; [|done..]. apply Ok_inj in Hcols as <-. by left. }
  - apply spec_set_option; [done|]. by rewrite fmap_app, lookup_app_r, length_fmap, Nat.sub_diag by (by rewrite length_fmap).
  - rewrite fmap_app in Hnd. apply NoDup_app in Hnd as (_ & Hpre & Hpost). cbn [fmap list_fmap fst] in Hpost.
    apply NoDup_cons in Hpost as [Hpost _].
    rewrite options_unread by (intros Hin; apply (Hpre x Hin); by left). cbn [read_options]. rewrite String.eqb_refl.
    assert (map_row_to_ty (SqlString.join "." p) x t row = Ok v) as ->.
    + destruct (ModelTable.is_empty_tuple v) eqn:He; [by apply empty_tuple_read|].
      destruct (ModelTable.child_column_inner p x Hp Hne) as [Hcol Hne'].
      destruct (ModelTable.collect_members _ v) as [a|e|] eqn:Ha; [|done..]. apply Ok_inj in Hcols. subst cols.
      rewrite Forall_app, Forall_cons in IH. destruct IH as (_ & Hback & _). cbn [snd] in Hback.
      apply (Hback t key (p ++ [x]) _ _ a); [done|by destruct p|done|done| |].
      * by rewrite <- Hcol, (proj1 (child_column_ne _ x Hne)).
      * eapply row_of_mono; [|intros c Hc; by right|exact Hrow].
        apply (columns_enum (tbl :: p)); [apply elem_of_app; right; by left|]. by rewrite (empty_tuple_value t v).
    + cbn [outcome_bind]. rewrite <- (app_nil_r post) at 1. rewrite options_unread by done. cbn. by rewrite app_nil_r.
Qed.

Lemma value_back row tbl v : reads_back row tbl v.
Proof.
  induction v as [q|n vs IH|n o vs IH|vs IH|vs _|vs l _|b] using ModelTable.DTy_ind';
    intros s key p path name cols Hv Hp Hne Hc Hcols Hrow;
    destruct s as [q'|n' ms|n' o' os|ts|ts|ts l'|b']; try done; try (by destruct o);
    cbn [map_row_to_ty]; rewrite Hc.
  - destruct Hv as (Hk & Hok & [text Ht]). cbn [ModelTable.collect_members] in Hcols. apply Ok_inj in Hcols. subst cols.
    rewrite (primitive_back q q' row (SqlString.join "." p) text Hk Hok Ht); [done|].
    rewrite <- (spec_sql_type q'). apply Hrow.
    + unfold table_columns. cbn. rewrite ModelTable.column_name_inner by done. by left.
    + rewrite (spec_sql_value q text Hok Ht). by left.
  - rewrite (members_back row tbl p (SqlString.join "." p) n n' vs ms cols); [by destruct Hv as [-> _]|done..| | |].
    + intros x _. by apply ModelTable.child_column_inner.
    + done.
    + intros x t k Hin. eapply row_of_mono; [|done|exact Hrow]. by apply (columns_struct (tbl :: p)).
  - destruct (enum_back row tbl p key n o n' o' vs os cols) as (i & x & -> & Hx & Hxe & Hset & Hgo); [done..|].
    rewrite Hx. cbn [sql outcome_bind]. rewrite (proj2 (String.eqb_neq _ _) Hxe), Hset. cbn [ok_or outcome_bind].
    change ((let? options := read_options (SqlString.join "." p) row x os in Ok (TyEnum n' (Some i) options)) = Ok (TyEnum n (Some i) vs)).
    rewrite Hgo. cbn. by destruct (value_of_enum _ _ _ _ _ _ Hv) as [-> _].
  - by rewrite (tuple_back row tbl p key vs ts cols).
  - destruct ts as [|s ts]; [done|]. apply values_of in Hv. cbn [ModelTable.collect_members] in Hcols.
    destruct (values_json vs) as [e|json] eqn:Hj; [done|]. apply Ok_inj in Hcols. subst cols.
    destruct (spec_values_json s vs json Hv Hj) as (Hjne & js & Hjs & Hel).
    assert (row_string row (SqlString.join "." p) = inr json) as ->.
    { apply (Hrow _ "TEXT"); [|by left]. unfold table_columns. cbn. rewrite ModelTable.column_name_inner by done. by left. }
    cbn [sql outcome_bind]. rewrite (proj2 (String.eqb_neq _ _) Hjne), Hjs. cbn [ok_or outcome_bind].
    by rewrite (elements_back _ _ _ Hel).
  - cbn [ModelTable.collect_members] in Hcols. apply Ok_inj in Hcols. subst cols.
    assert (row_string row (SqlString.join "." p) = inr b) as ->; [|done].
    apply (Hrow _ "TEXT"); [|by left]. unfold table_columns. cbn. rewrite ModelTable.column_name_inner by done. by left.
Qed.

(** C15: what is written of an entity is read back. When the table of a model was created from
    its schema, [set_entity_model] wrote the columns of a value of the schema and the row has
    them, [entity_model] reads this value from it, on every primitive type, through nested
    structures, tuples, enums and arrays. Fixed size arrays are not read back. *)
Theorem stored_model_read_back table n ms vs entity_id event_id executed_at now written row :
  value_of (TyStruct n ms) (TyStruct n vs) → Forall (λ m, m.1.1 ≠ EmptyString) vs →
  ModelTable.entity_model_columns entity_id event_id executed_at now (TyStruct n vs) = Ok written →
  row_of row (table_columns [table] table false (TyStruct n ms)) written →
  map_row_to_ty EmptyString EmptyString (TyStruct n ms) row = Ok (TyStruct n vs).
Proof.
  intros Hv Hne Hw Hrow. unfold ModelTable.entity_model_columns in Hw.
  destruct (ModelTable.collect_members EmptyString (TyStruct n vs)) as [cols|e|] eqn:Hcols; [|done..].
  apply Ok_inj in Hw. cbn [map_row_to_ty]. change (ModelTable.child_column "" "") with EmptyString.
  rewrite (members_back row table [] EmptyString n n vs ms cols); [done|apply Forall_true; intros m; apply value_back|done| |done|].
  - intros x Hx. apply list_elem_of_fmap in Hx as ([y t] & -> & Hy). apply list_elem_of_fmap in Hy as ([[z u] k] & [= -> ->] & Hin).
    rewrite Forall_forall in Hne. specialize (Hne _ Hin). done.
  - intros x t k Hin. eapply row_of_mono; [| |exact Hrow]; [by apply (columns_struct [table])|].
    rewrite <- Hw. by apply list_subseteq_app_r.
Qed.
End values.

(** ** Where the parts do not agree *)
Section divergences.
Context `{Sqlx} `{SqlString.FeltFromStr} {TT : TyText} {TJ : TyJson}.

(** A fixed size array is written as an array and read as an object with the field
    [elements], which an array does not have: no value of a model with one is read. *)
Lemma fixed_size_array_unread path name prefix vs cols s ts size row :
  (∀ vs json, values_json vs = inr json → json ≠ EmptyString ∧ ∃ j, json_value json = Some j ∧ json_elements j = None) →
  ModelTable.collect_members prefix (TyFixedSizeArray vs size) = Ok cols →
  (∀ value, (ModelTable.quoted prefix, ArgString value) ∈ cols →
     row_string row (ModelTable.child_column path name) = inr value) →
  map_row_to_ty path name (TyFixedSizeArray (s :: ts) size) row =
    Err (ErrParse (InvalidFixedSizeArray "Missing 'elements' field")).
Proof.
  intros Hjson Hcols Hrow. cbn [ModelTable.collect_members] in Hcols. destruct (values_json vs) as [e|json] eqn:Hj; [done|].
  apply Ok_inj in Hcols. subst cols. destruct (Hjson _ _ Hj) as (Hne & j & Hv & He).
  cbn [map_row_to_ty]. rewrite (Hrow json) by by left. cbn [sql outcome_bind].
  by rewrite (proj2 (String.eqb_neq _ _) Hne), Hv; cbn; rewrite He.
Qed.

(** With more models than joins, every chunk is asked with the same conditions, and the
    rows are put one after the other: an entity is there once per chunk. *)
Context {C : CursorCodec} {PL : Pool} {DV : DojoValues}.
Lemma bind_all_where values q : where_conditions (bind_all values q) = where_conditions q.
Proof. revert q. induction values as [|v values IH]; intros q; [done|]. unfold bind_all in *. cbn. by rewrite IH. Qed.
Lemma entities_query_where table relation column w binds chunk :
  where_conditions (entities_query table relation column w None binds chunk) =
    match w with Some w => ["(" +:+ w +:+ ")"] | None => [] end.
Proof.
  unfold entities_query. rewrite bind_all_where.
  assert (∀ q, where_conditions (foldl (λ q model, add_join (join_model table column model) q) q chunk) = where_conditions q) as Hj
    by (intros q; revert q; induction chunk as [|m chunk IH]; intros q; [done|]; cbn [foldl]; by rewrite IH).
  destruct w as [w|]; cbn [where_conditions where_clause group_by select]; by rewrite Hj.
Qed.
Lemma chunks_concatenated query pagination cs pages : ∀ all_rows,
  Forall2 (λ c page, execute_paginated_query (query c) pagination (mkOrderBy "event_id" Desc) = Ok page ∧
                     page_next_cursor _ page = None) cs pages →
  fetch_chunks query pagination all_rows cs = Ok (mkPage _ (all_rows ++ (pages ≫= page_items _)) None).
Proof.
  revert pages. induction cs as [|c cs IH]; intros pages all_rows Hcs.
  - apply Forall2_nil_inv_l in Hcs as ->. cbn. by rewrite app_nil_r.
  - apply Forall2_cons_inv_l in Hcs as (page & pages' & [Hp Hn] & Hcs & ->). cbn [fetch_chunks]. rewrite Hp.
    cbn [outcome_bind]. rewrite Hn, (IH pages') by done. cbn [mbind list_bind]. by rewrite (assoc (++)).
Qed.
End divergences.

(** A disjunction of clauses is joined to the condition on the world as it is: an entity of
    any world that satisfies the first clause is found. *)
Lemma other_worlds_found :
  let first := "(entities.entity_id IN (?))" in
  let holds := String.eqb first in
  let '(conditions, values) := composite_conditions "entities" "entity_model" false
    (first +:+ " OR (entities.keys REGEXP ?)") [] [7] in
  SqlString.join " AND " conditions = first +:+ " OR (entities.keys REGEXP ?) AND entities.world_address IN (?)" ∧
  holds "entities.world_address IN (?)" = false ∧ says holds (SqlString.join " AND " conditions) = true.
Proof. split_and!; reflexivity. Qed.

(** ** Witnesses *)
#[local] Existing Instances named_sqlx SqlString.hex_parser.
Definition felt_of_value (v : DTy) : option Felt :=
  match v with TyPrimitive p => match (p : Prim) with PrimFelt252 f => f | _ => None end | _ => None end.
Definition demo_value_text : TyText := {|
  prim_sql_type (p : Primitive) := kind_type p;
  prim_sql_value (p : Primitive) := default EmptyString (prim_text p);
  enum_sql_value _ o os := default EmptyString (i ← o; (os.*1) !! i);
  values_json vs := match mapM felt_of_value vs with
    | Some l => inr (String "["%char (SqlString.felts_to_sql_string l)) | None => inl QPrimitive end
|}.
Definition position_of (os : list (string * DTy)) (x : string) : option nat :=
  fst <$> list_find (λ o, o.1 = x) os.
Definition demo_value_json : TyJson := {|
  JsonValue := Felt; json_value _ := None; json_elements _ := None; json_size _ := None;
  json_values s := match s with String _ s => SqlString.sql_string_to_felts s | EmptyString => None end;
  ty_from_json s j := match s with TyPrimitive p => match (p : Prim) with
    | PrimFelt252 _ => Some (TyPrimitive (PrimFelt252 (Some j) : Primitive)) | _ => None end | _ => None end;
  set_option := position_of
|}.
#[local] Existing Instances demo_value_text demo_value_json.

Lemma felt_values s vs l : Forall (value_of s) vs → mapM felt_of_value vs = Some l →
  Forall SqlString.felt_ok l ∧ Forall2 (λ j v, ty_from_json s j = Some v) l vs.
Proof.
  intros Hv Hl. apply mapM_Some_1 in Hl. induction Hl as [|v f vs l Hf _ IH]; [done|].
  apply Forall_cons in Hv as [Hv Hvs]. destruct (IH Hvs) as [Hok Hel].
  destruct v as [p| | | | | |]; try discriminate Hf. cbn in Hf. destruct p; try discriminate Hf. cbn in Hf. subst.
  destruct s as [q| | | | | |]; try done. cbn in Hv. destruct Hv as (Hk & Hfok & _). destruct q; try discriminate Hk.
  split; constructor; try done. by apply Hfok.
Qed.
#[local] Instance demo_value_spec : ValueTextSpec.
Proof.
  split.
  - done.
  - intros p text _ Ht. cbn. by rewrite Ht.
  - intros name i options x Hx. cbn. by rewrite Hx.
  - intros options i x Hnd Hx. cbn. unfold position_of. apply list_lookup_fmap_Some in Hx as ([y t] & -> & Ho).
    destruct (list_find (λ o : string * DTy, o.1 = (y, t).1) options) as [[j o]|] eqn:Hf; cbn [fst].
    + apply list_find_Some in Hf as (Hj & Hy & _). cbn. f_equal. eapply NoDup_lookup; [exact Hnd| |].
      * rewrite list_lookup_fmap, Hj. cbn. rewrite Hy. done.
      * by rewrite list_lookup_fmap, Ho.
    + apply list_find_None in Hf. rewrite Forall_forall in Hf. exfalso. apply (Hf (y, t)); [|done].
      by apply list_elem_of_lookup_2 in Ho.
  - intros s vs json Hv Hj. cbn in Hj. destruct (mapM felt_of_value vs) as [l|] eqn:Hl; [|done].
    apply (inj inr) in Hj. subst json. destruct (felt_values s vs l Hv Hl) as [Hok Hel]. split; [done|].
    exists l. split; [|done]. cbn [json_values demo_value_json].
    pose proof (felts_of_text (E := unit) l Hok) as Hf. unfold felts_of in Hf.
    destruct (SqlString.sql_string_to_felts _); cbn in Hf; [by apply Ok_inj in Hf as ->|done].
Qed.

(** A player with a position, a state and items. *)
Definition prim (p : Prim) : DTy := TyPrimitive (p : Primitive).
Definition demo_schema : list (string * DTy * bool) :=
  [("player", prim (PrimContractAddress None), true); ("pos", TyStruct "Vec" [("x", prim (PrimU32 None), false)], false);
   ("state", TyEnum "State" None [("Idle", TyTuple []); ("Until", prim (PrimU64 None))], false);
   ("items", TyArray [prim (PrimFelt252 None)], false)].
Definition demo_player : list (string * DTy * bool) :=
  [("player", prim (PrimContractAddress (Some 77)), true); ("pos", TyStruct "Vec" [("x", prim (PrimU32 (Some 5)), false)], false);
   ("state", TyEnum "State" (Some 1%nat) [("Idle", TyTuple []); ("Until", prim (PrimU64 (Some 900)))], false);
   ("items", TyArray [prim (PrimFelt252 (Some 3)); prim (PrimFelt252 (Some 4))], false)].
Definition demo_row : named_row :=
  [("player", SqlString.format_hex 66 77); ("pos.x", "5"); ("state", "Until"); ("state.Until", SqlString.format_hex 66 900);
   ("items", String "["%char (SqlString.felts_to_sql_string [3; 4]))].

Definition demo_written : list (string * Argument) :=
  [("internal_id", ArgString "0x1:0x2"); ("internal_event_id", ArgString "e"); ("internal_executed_at", ArgString "t");
   ("internal_updated_at", ArgString "now"); ("internal_entity_id", ArgString "0x1:0x2")] ++
  ((λ c, (ModelTable.quoted c.1, ArgString c.2)) <$> demo_row).
Lemma demo_columns : ModelTable.entity_model_columns "0x1:0x2" "e" "t" "now" (TyStruct "game-Player" demo_player) = Ok demo_written.
Proof. reflexivity. Qed.

Lemma stored_model_read_back_witness :
  map_row_to_ty (H := named_sqlx) EmptyString EmptyString (TyStruct "game-Player" demo_schema) (demo_row : SqliteRow (Sqlx := named_sqlx)) =
    Ok (TyStruct "game-Player" demo_player).
Proof.
  apply (stored_model_read_back (H := named_sqlx) false [] "game-Player" "game-Player" demo_schema demo_player "0x1:0x2" "e" "t" "now"
    demo_written (demo_row : SqliteRow (Sqlx := named_sqlx))).
  - cbn. repeat split; try (repeat constructor; set_solver); try (eexists; reflexivity).
    all: simplify_eq; first [set_solver | vm_compute; congruence].
  - repeat constructor; discriminate.
  - exact demo_columns.
  - intros name declared value Ht Hw.
    assert (List.In (name, declared) (table_columns false [] ["game-Player"] "game-Player" false (TyStruct "game-Player" demo_schema)))
      as Ht' by by apply list_elem_of_In.
    assert (List.In (ModelTable.quoted name, ArgString value) demo_written) as Hw' by by apply list_elem_of_In.
    clear Ht Hw. cbn in Ht'. decompose [or] Ht'; clear Ht';
      match goal with E : _ = (name, declared) |- _ => injection E as <- <- | F : False |- _ => destruct F end;
      cbn in Hw'; decompose [or] Hw'; clear Hw';
      match goal with E : _ = (_, ArgString value) |- _ => try discriminate E; injection E as <- | F : False |- _ => destruct F end;
      try reflexivity.
    split; [|by intros []].
    intros k m Hm _. change "5" with (pretty 5) in Hm. apply (inj pretty) in Hm as <-. reflexivity.
Defined.

(** The same player in a page, with the name of the table before the columns. *)
#[local] Instance demo_names : DojoValues := {|
  ty_name t := match t with TyStruct n _ => n | _ => EmptyString end;
  enum_selected _ _ _ := None; prim_partial_cmp _ _ := None; prim_as_u32 _ := None
|}.
Definition demo_page : named_row := ((λ c, ("game-Player." +:+ c.1, c.2)) <$> demo_row) ++ [("entity_id", "0x2")].
Lemma named_found (f : string → string) (row rest : named_row) c : (∀ x y, f x = f y → x = y) →
  c ∈ row.*1 → named_column (((λ c, (f c.1, c.2)) <$> row) ++ rest) (f c) = named_column row c.
Proof.
  intros Hf. unfold named_column. induction row as [|[x v] row IH]; [by intros ?%elem_of_nil|]. intros Hc.
  cbn. destruct (String.eqb_spec (f x) (f c)) as [He|He].
  - apply Hf in He as ->. by rewrite String.eqb_refl.
  - destruct (String.eqb_spec x c) as [->|Hx]; [done|]. apply IH. set_solver.
Qed.
Lemma string_app_length (a b : string) : String.length (a +:+ b) = (String.length a + String.length b)%nat.
Proof. induction a as [|x a IH]; [done|]. cbn. by rewrite <- IH. Qed.
Lemma string_app_inj a : ∀ b r r', String.length a = String.length b → a +:+ r = b +:+ r' → a = b.
Proof.
  induction a as [|x a IH]; intros [|y b] r r' Hl Heq; try done. cbn in Heq, Hl. injection Heq as -> Heq.
  f_equal. eapply IH; [lia|done].
Qed.
Lemma selection_inj n c d : selection n c = selection n d → c = d.
Proof.
  unfold selection, ModelTable.quoted. intros Heq. pose proof (f_equal String.length Heq) as Hl.
  rewrite !string_app_length in Hl. do 3 apply (inj (String.append _)) in Heq.
  eapply string_app_inj; [|exact Heq]. lia.
Qed.
Lemma page_reads_model_witness :
  map_row_to_ty (H := named_sqlx) EmptyString "game-Player" (TyStruct "game-Player" demo_schema) demo_page =
    Ok (TyStruct "game-Player" demo_player).
Proof.
  rewrite (page_reads_model (H := named_sqlx) "entities" "entity_model" "internal_entity_id" None None []
    [TyStruct "game-Player" demo_schema] "game-Player" demo_schema demo_page demo_row); [reflexivity|reflexivity|done| | |].
  - repeat constructor; discriminate.
  - by left.
  - intros c Hc.
    assert (c ∈ demo_row.*1) as Hin.
    { rewrite entities_query_selections in Hc. apply elem_of_app in Hc as [Hc|Hc].
      - apply list_elem_of_In in Hc. cbn in Hc. decompose [or] Hc; (contradiction || discriminate).
      - apply list_elem_of_bind in Hc as (m & Hc & ->%list_elem_of_singleton).
        apply list_elem_of_fmap in Hc as (d & ->%selection_inj & Hd). exact Hd. }
    assert (named_column demo_page ("game-Player." +:+ c) = named_column demo_row c) as Hn.
    { apply (named_found (λ c, "game-Player." +:+ c)); [|done]. intros x y Hxy. by injection Hxy. }
    split; [exact Hn|split; [|done]]. intros k. exact (f_equal (λ r, match r with inr s => match parse_u128 s with Some n => inr n | None => inl tt end | inl e => inl e end) Hn).
Defined.
End EntityValues.
