(* ===== verification/AchievementReads.v ===== *)
(** * Achievements and search ([crates/sqlite/sqlite/src/storage.rs])

    The reads of [ReadOnlyStorage] that put several queries together: achievements with
    their tasks, the progress of players on them, and the search of the full-text index.

    A number of type [f64] is its bits, as in Messages.v; the arithmetic on them is that
    of Achievement.v. The JSON of the index is a parameter. *)

From S2P Require Import Prelude Proto SqlString SqlText Database Executor ModelTable Wire Messages Aggregator Achievement Matching.
From S2P Require Import Fetcher World Storage StorageWrites Query Rows Reads Composite.
From stdpp Require Import pretty.
From Stdlib Require Import Ascii SpecFloat.
Local Open Scope Z_scope.
Local Open Scope torii_scope.

(** [serde_json::from_str] of a map of texts *)
Class SearchEnv : Type := { metadata_from_json : string → option (gmap string string) }.

Module AchReads.
Import Msg Query Rows Reads.
#[local] Abbreviation felts l := (SqlString.felt_to_sql_string <$> l).

(** ** Numbers *)
Definition f64_of_bits (b : Z) : spec_float :=
  let s := Z.testbit b 63 in
  let e := Z.land (Z.shiftr b 52) 2047 in
  let m := Z.land b (2 ^ 52 - 1) in
  if e =? 0 then match m with Zpos p => S754_finite s p (-1074) | _ => S754_zero s end
  else if e =? 2047 then if m =? 0 then S754_infinity s else S754_nan
  else match m + 2 ^ 52 with Zpos p => S754_finite s p (e - 1075) | _ => S754_nan end.
Definition f64_bits (f : spec_float) : Z :=
  let sign (s : bool) := if s then 2 ^ 63 else 0 in
  match f with
  | S754_zero s => sign s
  | S754_infinity s => sign s + 2047 * 2 ^ 52
  | S754_nan => 2047 * 2 ^ 52 + 2 ^ 51
  | S754_finite s m e => if Zpos m <? 2 ^ 52 then sign s + Zpos m else sign s + (e + 1075) * 2 ^ 52 + (Zpos m - 2 ^ 52)
  end.
(** [iter.sum::<f64>()], which starts from [-0.0] *)
Definition sum_f64 (l : list F64) : spec_float := foldl (λ acc b, SFadd 53 1024 acc (f64_of_bits b)) (S754_zero true) l.
(** [iter.sum::<u32>()] in a release build *)
Definition sum_u32 (l : list Z) : Z := foldl (λ acc n, as_u32 (acc + n)) 0 l.
(** [sum_rate / tasks.len() as f64] *)
Definition average_rate (rates : list F64) : F64 :=
  match rates with
  | [] => f64_bits (f64_of 0)
  | _ => f64_bits (f64_div (sum_f64 rates) (f64_of (Z.of_nat (length rates))))
  end.

(** ** Achievements *)
Definition tasks_statement (indent : nat) : string :=
  "SELECT id, achievement_id, task_id, world_address, namespace, description, total, " +:+ newline_spaces indent +:+
  "total_completions, completion_rate, created_at " +:+ newline_spaces indent +:+ "FROM achievement_tasks " +:+
  newline_spaces indent +:+ "WHERE achievement_id = ? " +:+ newline_spaces indent +:+ "ORDER BY created_at ASC".
Definition task_of (t : AchievementTaskRow) : AchievementTask :=
  mkAchievementTask (atr_task_id t) (atr_description t) (as_u32 (atr_total t)) (as_u32 (atr_total_completions t))
    (atr_completion_rate t) (atr_created_at t).
Definition last_part (id : string) : string := default EmptyString (last (SqlString.split ":"%char id)).
Definition achievement_of (a : AchievementRow) (world_address : Felt) (namespace : string) (tasks : list AchievementTask)
    (total_completions : Z) (completion_rate : F64) : Achievement :=
  mkAchievement (acr_id a) world_address namespace (last_part (acr_id a)) (negb (acr_hidden a =? 0)) (as_u32 (acr_index_num a))
    (as_u32 (acr_points a)) (acr_start a) (acr_end a) (acr_group_name a) (acr_icon a) (acr_title a) (acr_description a) tasks
    (acr_data a) total_completions completion_rate (acr_created_at a) (acr_updated_at a).

Section reads.
Context `{Sqlx} {C : CursorCodec} {PL : Pool} `{SqlString.FeltFromStr} {CT : ColumnText} `{Chrono} {HO : HashOrder} {SN : SearchEnv}.

Definition tasks_of (indent : nat) (achievement_id : string) : outcome Error (list AchievementTaskRow) :=
  let? rows := sql (fetch_all (tasks_statement indent) [achievement_id]) in outcome_mapM achievement_task_from_row rows.
Definition completions (tasks : list AchievementTask) : Z :=
  match tasks with
  | [] => 0
  | _ => sum_u32 (task_total_completions <$> tasks) / as_u32 (Z.of_nat (length tasks))
  end.
Definition achievement_with_tasks (row : SqliteRow) : outcome Error Achievement :=
  let? achievement := achievement_from_row row in
  let? tasks := tasks_of 17 (acr_id achievement) in
  let tasks := task_of <$> tasks in
  let? world_address := felt_or_error (acr_world_address achievement) in
  Ok (achievement_of achievement world_address (default EmptyString (SqlString.split ":"%char (acr_id achievement) !! 1%nat)) tasks
        (completions tasks) (average_rate (task_completion_rate <$> tasks))).
Definition achievements (query : AchievementQuery) : outcome Error (Page Achievement) :=
  read_page (achievements_query query) (achievement_query_pagination query) (mkOrderBy "index_num" Asc) achievement_with_tasks.

(** ** Players *)
Record AggregatedPlayerStats : Type := mkAggregatedStats {
  aps_player_id : string; aps_total_points : Z; aps_completed_achievements : Z; aps_total_achievements : Z;
  aps_completion_percentage : F64; aps_last_achievement_at : option string; aps_created_at : string; aps_updated_at : string
}.
(** [row.try_get(column).ok()] *)
Definition ok_of {A} (r : SqlxError + A) : option A := match r with inr a => Some a | inl _ => None end.
Definition aggregated_stats (row : SqliteRow) : outcome Error AggregatedPlayerStats :=
  let? player_id := sql (row_string row "player_id") in
  let? total_points := sql (row_int I32 row "total_points") in
  let? completed_achievements := sql (row_int I32 row "completed_achievements") in
  let? total_achievements := sql (row_int I32 row "total_achievements") in
  let? completion_percentage := sql (row_f64 row "completion_percentage") in
  let last_achievement_at := ok_of (row_string row "last_achievement_at") in
  let? created_at := sql (row_string row "created_at") in
  let? updated_at := sql (row_string row "updated_at") in
  Ok (mkAggregatedStats player_id total_points completed_achievements total_achievements completion_percentage
        last_achievement_at created_at updated_at).

(** [.. player_id IN (?) AND world_address IN (?) AND namespace IN (?)] with its values *)
Definition scoped (start : string) (player_ids : list string) (query : PlayerAchievementQuery) : string * list string :=
  let worlds := felts (player_query_world_addresses query) in
  let namespaces := player_query_namespaces query in
  (start +:+ marks (length player_ids) +:+ ")" +:+
   match worlds with [] => EmptyString | _ => " AND world_address IN (" +:+ marks (length worlds) +:+ ")" end +:+
   match namespaces with [] => EmptyString | _ => " AND namespace IN (" +:+ marks (length namespaces) +:+ ")" end,
   player_ids ++ worlds ++ namespaces).
Definition worlds_start : string := "SELECT DISTINCT world_address, namespace FROM player_achievements WHERE player_id IN (".
Definition progressions_start : string :=
  "SELECT id, task_id, world_address, namespace, player_id, count, " +:+ newline_spaces 17 +:+
  "completed, completed_at, created_at, updated_at " +:+ newline_spaces 17 +:+ "FROM achievement_progressions " +:+
  newline_spaces 17 +:+ "WHERE player_id IN (".
Definition world_achievements_statement : string :=
  "SELECT id, world_address, hidden, index_num, points, start, end, group_name, " +:+ newline_spaces 17 +:+
  "icon, title, description, tasks, data, created_at, updated_at " +:+ newline_spaces 17 +:+ "FROM achievements " +:+
  newline_spaces 17 +:+ "WHERE world_address = ? AND namespace = ? " +:+ newline_spaces 17 +:+ "ORDER BY index_num ASC".
(** The columns of a row of two, by their names. *)
Definition world_namespace (row : SqliteRow) : outcome Error (string * string) :=
  let? world_address := sql (row_string row "world_address") in
  let? namespace := sql (row_string row "namespace") in Ok (world_address, namespace).
Abbreviation WithTasks := (AchievementRow * list AchievementTaskRow)%type (only parsing).
Definition world_achievements (pair : string * string) : outcome Error (list WithTasks) :=
  let? rows := sql (fetch_all world_achievements_statement [pair.1; pair.2]) in
  let? achievements := outcome_mapM achievement_from_row rows in
  outcome_mapM (λ a, let? tasks := tasks_of 21 (acr_id a) in Ok (a, tasks)) achievements.
Definition collect_achievements (pairs : list (string * string)) : outcome Error (gmap (string * string) (list WithTasks)) :=
  fold_outcome (λ m pair, let? l := world_achievements pair in Ok (<[pair := l]> m)) pairs ∅.
Definition group_progressions (l : list Rows.ProgressionRow) : gmap string (list Rows.ProgressionRow) :=
  foldl (λ m p, <[pr_player_id p := default [] (m !! pr_player_id p) ++ [p]]> m) ∅ l.

(** [player_progressions.iter().find(|p| p.task_id == task.task_id)] *)
Definition progression_of (progressions : list Rows.ProgressionRow) (task : AchievementTaskRow) : option Rows.ProgressionRow :=
  snd <$> list_find (λ p, pr_task_id p = atr_task_id task) progressions.
Definition task_progress_of (progressions : list Rows.ProgressionRow) (task : AchievementTaskRow) : TaskProgress :=
  match progression_of progressions task with
  | Some p => mkTaskProgress (atr_task_id task) (as_u32 (pr_count p)) (negb (pr_completed p =? 0))
  | None => mkTaskProgress (atr_task_id task) 0 false
  end.
Definition completed_tasks (l : list TaskProgress) : nat := length (filter (λ p, progress_completed p = true) l).
Definition completions_i32 (tasks : list AchievementTaskRow) : Z :=
  match tasks with
  | [] => 0
  | _ => Z.quot (sum_i32 (atr_total_completions <$> tasks)) (as_i32 (Z.of_nat (length tasks)))
  end.
Definition achievement_progress (progressions : list Rows.ProgressionRow) (pair : string * string) (a : WithTasks)
  : outcome Error PlayerAchievementProgress :=
  let '(achievement, tasks) := a in
  let progress := task_progress_of progressions <$> tasks in
  let total := length progress in
  let done := completed_tasks progress in
  let? world_address := felt_or_error pair.1 in
  Ok (mkPlayerAchievementProgress
        (achievement_of achievement world_address pair.2 (task_of <$> tasks) (as_u32 (completions_i32 tasks))
           (average_rate (atr_completion_rate <$> tasks)))
        progress ((0 <? total)%nat && (done =? total)%nat) (f64_bits (percentage (Z.of_nat done) (Z.of_nat total)))).
(** [DateTime::parse_from_rfc3339(..).ok()] *)
Definition player_stats (now : DateTime) (s : AggregatedPlayerStats) : PlayerAchievementStats :=
  mkPlayerAchievementStats (as_u32 (aps_total_points s)) (as_u32 (aps_completed_achievements s)) (as_u32 (aps_total_achievements s))
    (aps_completion_percentage s) (match aps_last_achievement_at s with Some t => parse_from_rfc3339 t | None => None end)
    (default now (parse_from_rfc3339 (aps_created_at s))) (default now (parse_from_rfc3339 (aps_updated_at s))).
Definition player_entry (now : DateTime) (pairs : list (string * string)) (achievements : gmap (string * string) (list WithTasks))
    (progressions : gmap string (list Rows.ProgressionRow)) (s : AggregatedPlayerStats) : outcome Error PlayerAchievementEntry :=
  let? player_address := felt_or_error (aps_player_id s) in
  let progressions := default [] (progressions !! aps_player_id s) in
  let? progress := outcome_mapM (λ pair, outcome_mapM (achievement_progress progressions pair) (default [] (achievements !! pair))) pairs in
  Ok (mkPlayerAchievementEntry player_address (player_stats now s) (concat progress)).
Definition player_achievements (now : DateTime) (query : PlayerAchievementQuery) : outcome Error (Page PlayerAchievementEntry) :=
  let? page := execute_paginated_query (player_achievements_query query) (player_query_pagination query) (mkOrderBy "total_points" Desc) in
  let? stats := outcome_mapM aggregated_stats (page_items _ page) in
  match stats with
  | [] => Ok (mkPage _ [] (page_next_cursor _ page))
  | _ =>
      let player_ids := aps_player_id <$> stats in
      let worlds := scoped worlds_start player_ids query in
      let? rows := sql (fetch_all worlds.1 worlds.2) in
      let? pairs := outcome_mapM world_namespace rows in
      let? achievements := collect_achievements pairs in
      let statement := scoped progressions_start player_ids query in
      let? rows := sql (fetch_all statement.1 statement.2) in
      let? progressions := outcome_mapM progression_from_row rows in
      let? entries := outcome_mapM (player_entry now pairs achievements (group_progressions progressions)) stats in
      Ok (mkPage _ entries (page_next_cursor _ page))
  end.

(** ** Search *)
Record SearchConfig : Type := mkSearchConfig {
  search_max_results : Z; search_min_query_length : Z; search_prefix_matching : bool; search_return_snippets : bool;
  search_snippet_length : Z
}.
Definition no_results : SearchResponse := mkSearchResponse 0 [].
Definition ends_with_star (s : string) : bool :=
  match String.get (String.length s - 1) s with Some c => Ascii.eqb c "*"%char | None => false end.
Definition fts_query (config : SearchConfig) (term : string) : string :=
  if search_prefix_matching config && negb (ends_with_star term) then term +:+ "*" else term.
Definition search_limit (config : SearchConfig) (limit : Z) : Z :=
  if (0 <? limit) && (limit <=? as_u32 (search_max_results config)) then limit else as_u32 (search_max_results config).
Definition search_statement (limit : Z) : string :=
  "SELECT entity_type, entity_id, primary_text, secondary_text, metadata, bm25(search_index) as rank FROM search_index " +:+
  "WHERE search_index MATCH ? ORDER BY rank ASC LIMIT " +:+ pretty (as_u32 (limit * 3)).

Record SearchRow : Type := mkSearchRow {
  sr_entity_type : string; sr_entity_id : string; sr_primary_text : string; sr_secondary_text : string; sr_metadata : string;
  sr_score : option F64
}.
(** [row.try_get(..).unwrap_or_default()] *)
Definition search_row (row : SqliteRow) : SearchRow :=
  let text column := default EmptyString (ok_of (row_string row column)) in
  mkSearchRow (text "entity_type") (text "entity_id") (text "primary_text") (text "secondary_text")
    (default "{}" (ok_of (row_string row "metadata"))) (ok_of (row_f64 row "rank")).
(** [&text[..n]] panics inside a character *)
Definition char_boundary (n : nat) (s : string) : bool :=
  match String.get n s with Some c => negb (continuation (Z.of_nat (nat_of_ascii c))) | None => true end.
Definition snippet (config : SearchConfig) (text : string) : outcome Error string :=
  let n := Z.to_nat (search_snippet_length config) in
  if search_snippet_length config <? Z.of_nat (String.length text) then
    if char_boundary n text then Ok (String.substring 0 n text +:+ "...") else Panic
  else Ok text.
Definition search_match (config : SearchConfig) (r : SearchRow) : outcome Error SearchMatch :=
  let fields := default ∅ (metadata_from_json (sr_metadata r)) in
  let fields := <["primary_text" := sr_primary_text r]> (<["entity_id" := sr_entity_id r]> fields) in
  let empty := String.eqb (sr_secondary_text r) EmptyString in
  let fields := if empty then fields else <["secondary_text" := sr_secondary_text r]> fields in
  let? fields :=
    if search_return_snippets config then
      let? s := snippet config (if empty then sr_primary_text r else sr_secondary_text r) in Ok (<["snippet" := s]> fields)
    else Ok fields in
  Ok (mkSearchMatch (sr_entity_id r) fields (sr_score r)).

Abbreviation Groups := (gmap string (list SearchMatch) * gmap string Z)%type (only parsing).
Definition group_row (config : SearchConfig) (limit : Z) (groups : Groups) (row : SqliteRow) : outcome Error Groups :=
  let r := search_row row in
  let count := as_u32 (default 0 (groups.2 !! sr_entity_type r) + 1) in
  let counts := <[sr_entity_type r := count]> groups.2 in
  if limit <? count then Ok (groups.1, counts)
  else
    let? m := search_match config r in
    Ok (<[sr_entity_type r := default [] (groups.1 !! sr_entity_type r) ++ [m]]> groups.1, counts).
Definition type_to_table (entity_type : string) : string :=
  if String.eqb entity_type "achievement" then "achievements"
  else if String.eqb entity_type "controller" then "controllers"
  else if String.eqb entity_type "token_attribute" then "token_attributes"
  else if String.eqb entity_type "token" then "tokens"
  else entity_type.
Definition table_results (entry : string * list SearchMatch) : TableSearchResults :=
  mkTableSearchResults (type_to_table entry.1) (as_u32 (Z.of_nat (length entry.2))) entry.2.
Definition search (config : SearchConfig) (query : SearchQuery) : outcome Error SearchResponse :=
  let term := str_trim (search_query_query query) in
  if String.eqb term EmptyString then Ok no_results
  else if Z.of_nat (String.length term) <? search_min_query_length config then Ok no_results
  else
    let limit := search_limit config (search_query_limit query) in
    match fetch_all (search_statement limit) [fts_query config term] with
    | inl _ => Ok no_results
    | inr rows =>
        let? groups := fold_outcome (group_row config limit) rows (∅, ∅) in
        let results := table_results <$> hm_iter groups.1 in
        Ok (mkSearchResponse (foldl (λ total r, as_u32 (total + table_count r)) 0 results) results)
    end.

(** ** Progress of a player *)
Lemma completed_tasks_all l : completed_tasks l = length l ↔ Forall (λ p, progress_completed p = true) l.
Proof.
  unfold completed_tasks. induction l as [|p l IH]; [by split|].
  assert (length (filter (λ p, progress_completed p = true) l) ≤ length l)%nat by apply length_filter.
  rewrite filter_cons, Forall_cons. destruct (decide _) as [Hp|Hp]; simpl; [|split; [lia|by intros [? _]]].
  rewrite <- IH. split; [intros [= ->]|intros [_ ->]]; done.
Qed.
Lemma task_progress_completed progressions task :
  progress_completed (task_progress_of progressions task) = true ↔
  ∃ p, progression_of progressions task = Some p ∧ pr_completed p ≠ 0.
Proof.
  unfold task_progress_of. destruct (progression_of progressions task) as [p|]; simpl.
  - rewrite negb_true_iff, Z.eqb_neq. split; [eauto|]. by intros (? & [= ->] & ?).
  - split; [done|]. by intros (? & ? & _).
Qed.
(** An achievement is completed when it has tasks and the first progression of each of
    them is completed. *)
Lemma achievement_completed_iff progressions pair achievement tasks progress :
  achievement_progress progressions pair (achievement, tasks) = Ok progress →
  pap_completed progress = true ↔
  tasks ≠ [] ∧ ∀ task, task ∈ tasks → ∃ p, progression_of progressions task = Some p ∧ pr_completed p ≠ 0.
Proof.
  simpl. destruct (felt_or_error pair.1); simpl; [|done..]. intros [= <-]. simpl.
  rewrite andb_true_iff, Nat.ltb_lt, Nat.eqb_eq, completed_tasks_all, length_fmap, Forall_fmap, Forall_forall.
  setoid_rewrite task_progress_completed.
  destruct tasks; simpl; split; intros [? ?]; (split; [|done]); (done || lia).
Qed.

(** The progression of a task is looked up by the name of the task alone: one of another
    world or namespace counts when it comes first. *)
Lemma progression_of_any_world progressions task p :
  pr_task_id p = atr_task_id task → progression_of (p :: progressions) task = Some p.
Proof. intros E. unfold progression_of. simpl. by rewrite decide_True. Qed.

(** Every player of a page gets the achievements of every world of the page. *)
Lemma player_entry_worlds now pairs achievements progressions s entry :
  player_entry now pairs achievements progressions s = Ok entry →
  length (entry_achievements entry) = sum_list_with (λ pair, length (default [] (achievements !! pair))) pairs.
Proof.
  unfold player_entry. destruct (felt_or_error (aps_player_id s)); simpl; [|done..].
  destruct (outcome_mapM _ pairs) as [progress| |] eqn:E; simpl; [|done..]. intros [= <-]. simpl.
  revert progress E. induction pairs as [|pair pairs IH]; intros progress E; simpl in *.
  - by injection E as <-.
  - destruct (outcome_mapM _ (default [] _)) as [l| |] eqn:El; simpl in E; [|done..].
    destruct (outcome_mapM _ pairs) as [rest| |] eqn:Er; simpl in E; [|done..]. injection E as <-.
    simpl. rewrite length_app, (IH rest eq_refl). f_equal. by apply Composite.mapM_Ok, Forall2_length in El.
Qed.

(** ** What a search finds *)
Lemma search_match_without_snippets config r :
  search_return_snippets config = false → ∃ m, search_match config r = Ok m ∧ match__id m = sr_entity_id r.
Proof. unfold search_match. intros ->. simpl. eauto. Qed.
(** A text cut inside a character stops the search. *)
Lemma snippet_cut_panics config text :
  search_snippet_length config < Z.of_nat (String.length text) →
  char_boundary (Z.to_nat (search_snippet_length config)) text = false → snippet config text = Panic.
Proof. unfold snippet. intros ->%Z.ltb_lt ->. done. Qed.
(** A query the index cannot parse looks like one that finds nothing. *)
Lemma search_error_hidden config query e :
  fetch_all (search_statement (search_limit config (search_query_limit query))) [fts_query config (str_trim (search_query_query query))] = inl e →
  search config query = Ok no_results.
Proof. unfold search. intros ->. by repeat case_match. Qed.

Section found.
Context (config : SearchConfig) (limit : Z) (f : SqliteRow → SearchMatch).
Definition typed (ty : string) (rows : list SqliteRow) : list SqliteRow := filter (λ row, sr_entity_type (search_row row) = ty) rows.
Definition unless_empty {A} (l : list A) : option (list A) := match l with [] => None | _ => Some l end.
(** What the rows seen so far leave in the two maps. *)
Record found (rows : list SqliteRow) (groups : Groups) : Prop := mkFound {
  found_counts ty : default 0 (groups.2 !! ty) = Z.of_nat (length (typed ty rows));
  found_matches ty : groups.1 !! ty = unless_empty (f <$> take (Z.to_nat limit) (typed ty rows));
  found_total : (sum_list_with (λ e, length e.2) (map_to_list groups.1) ≤ length rows)%nat
}.

Lemma typed_app ty rows row :
  typed ty (rows ++ [row]) = typed ty rows ++ (if decide (sr_entity_type (search_row row) = ty) then [row] else []).
Proof. unfold typed. rewrite filter_app, filter_cons, filter_nil. done. Qed.
Lemma length_typed ty rows : (length (typed ty rows) ≤ length rows)%nat.
Proof. apply length_filter. Qed.
Lemma default_unless_empty {A} (l : list A) : default [] (unless_empty l) = l.
Proof. by destruct l. Qed.
Lemma unless_empty_snoc {A} (l : list A) a : unless_empty (l ++ [a]) = Some (l ++ [a]).
Proof. by destruct l. Qed.
Lemma sum_insert (m : gmap string (list SearchMatch)) ty l :
  (sum_list_with (λ e, length e.2) (map_to_list (<[ty:=l]> m)) + length (default [] (m !! ty)) =
   sum_list_with (λ e, length e.2) (map_to_list m) + length l)%nat.
Proof.
  destruct (m !! ty) as [l0|] eqn:E; simpl.
  - rewrite <- (insert_delete_eq m ty l), map_to_list_insert by apply lookup_delete_eq.
    rewrite <- (map_to_list_delete m ty l0 E). simpl. lia.
  - rewrite map_to_list_insert by done. simpl. lia.
Qed.

Lemma group_row_found rows row groups :
  found rows groups → Z.of_nat (length rows) + 1 < 2 ^ 32 → 0 ≤ limit →
  search_match config (search_row row) = Ok (f row) →
  ∃ groups', group_row config limit groups row = Ok groups' ∧ found (rows ++ [row]) groups'.
Proof.
  intros [Hc Hm Ht] Hlen Hlimit Hrow. unfold group_row. set (ty := sr_entity_type (search_row row)).
  pose proof (length_typed ty rows) as Hty. unfold as_u32. rewrite Hc, Z.mod_small by lia.
  assert (Hcounts : ∀ ty', default 0 (<[ty:=Z.of_nat (length (typed ty rows)) + 1]> groups.2 !! ty') =
                    Z.of_nat (length (typed ty' (rows ++ [row])))).
  { intros ty'. rewrite typed_app, length_app. fold ty. destruct (decide (ty = ty')) as [<-|Hne].
    - rewrite lookup_insert_eq. simpl. lia.
    - rewrite lookup_insert_ne, Hc by done. simpl. lia. }
  destruct (Z.ltb_spec limit (Z.of_nat (length (typed ty rows)) + 1)) as [Hfull|Hroom].
  - eexists. split; [reflexivity|]. split; simpl; [done| |rewrite length_app; simpl; lia].
    intros ty'. rewrite Hm, typed_app. fold ty. destruct (decide (ty = ty')) as [<-|Hne]; [|by rewrite app_nil_r].
    by rewrite take_app_le by lia.
  - rewrite Hrow. simpl. eexists. split; [reflexivity|]. split; simpl; [done| |].
    + intros ty'. rewrite typed_app. fold ty. destruct (decide (ty = ty')) as [<-|Hne].
      * rewrite lookup_insert_eq, Hm, default_unless_empty, !take_ge, fmap_app by (rewrite ?length_app; simpl; lia).
        simpl. by rewrite unless_empty_snoc.
      * by rewrite lookup_insert_ne, Hm, app_nil_r by done.
    + pose proof (sum_insert groups.1 ty (default [] (groups.1 !! ty) ++ [f row])) as Hs.
      rewrite length_app in Hs |- *. simpl in *. lia.
Qed.

Lemma rows_found rows seen groups :
  found seen groups → Z.of_nat (length seen + length rows) < 2 ^ 32 → 0 ≤ limit →
  (∀ row, row ∈ rows → search_match config (search_row row) = Ok (f row)) →
  ∃ groups', fold_outcome (group_row config limit) rows groups = Ok groups' ∧ found (seen ++ rows) groups'.
Proof.
  revert seen groups. induction rows as [|row rows IH]; intros seen groups Hf Hlen Hlimit Hrows; simpl in *.
  - exists groups. by rewrite app_nil_r.
  - destruct (group_row_found seen row groups Hf) as (g & -> & Hg); [lia|done|apply Hrows; set_solver|].
    destruct (IH (seen ++ [row]) g Hg) as (g' & Hg' & Hf'); [rewrite length_app; simpl; lia|done|set_solver|].
    exists g'. by rewrite <- app_assoc in Hf'.
Qed.
End found.

Lemma found_nothing limit f : found limit f [] (∅, ∅).
Proof. split; [done| |simpl; by rewrite map_to_list_empty]. intros ty. unfold typed. rewrite filter_nil. by rewrite take_nil. Qed.
Lemma total_of_counts (l : list (string * list SearchMatch)) n :
  Z.of_nat (n + sum_list_with (λ e, length e.2) l) < 2 ^ 32 →
  foldl (λ total r, as_u32 (total + table_count r)) (Z.of_nat n) (table_results <$> l) =
  Z.of_nat (n + sum_list_with (λ e, length e.2) l).
Proof.
  revert n. induction l as [|e l IH]; intros n Hn; simpl in *; [by rewrite Nat.add_0_r|].
  unfold as_u32. rewrite (Z.mod_small (Z.of_nat (length e.2))), Z.mod_small by lia.
  rewrite <- Nat2Z.inj_add, Nat.add_assoc. apply IH. lia.
Qed.
Lemma search_limit_nonneg config limit : 0 ≤ search_limit config limit.
Proof. unfold search_limit, as_u32. destruct (_ && _) eqn:E; [|apply Z.mod_pos_bound; lia]. apply andb_true_iff in E as [?%Z.ltb_lt _]. lia. Qed.
Lemma sum_list_fmap l :
  sum_list_with (λ table, length (table_matches table)) (table_results <$> l) = sum_list_with (λ e, length e.2) l.
Proof. induction l as [|e l IH]; simpl; [done|]. f_equal. exact IH. Qed.

(** A search whose query is long enough, on an index that answers with fewer than
    2^32 rows none of which is cut inside a character, returns one table for each kind of
    entity found, in any order; the table of a kind holds the first [limit] rows of that
    kind in the order of the index, its count is their number, and the total is the
    number of matches of all tables. *)
Theorem search_exact config query rows f :
  let term := str_trim (search_query_query query) in
  let limit := search_limit config (search_query_limit query) in
  term ≠ EmptyString → search_min_query_length config ≤ Z.of_nat (String.length term) →
  fetch_all (search_statement limit) [fts_query config term] = inr rows →
  Z.of_nat (length rows) < 2 ^ 32 →
  (∀ row, row ∈ rows → search_match config (search_row row) = Ok (f row)) →
  ∃ (groups : gmap string (list SearchMatch)) response,
    search config query = Ok response ∧
    response_results response = table_results <$> hm_iter groups ∧
    (∀ ty, groups !! ty =
       unless_empty (f <$> take (Z.to_nat limit) (filter (λ row, sr_entity_type (search_row row) = ty) rows))) ∧
    (∀ table, table ∈ response_results response → table_count table = Z.of_nat (length (table_matches table))) ∧
    response_total response = Z.of_nat (sum_list_with (λ table, length (table_matches table)) (response_results response)).
Proof.
  intros term limit Hterm Hmin Hrows Hlen Hf.
  destruct (rows_found config limit f rows [] (∅, ∅) (found_nothing limit f)) as (groups & Hg & [_ Hm Ht]);
    [done|apply search_limit_nonneg|done|]. simpl in Hm, Ht.
  exists groups.1. eexists. split.
  { unfold search. fold term limit. rewrite (proj2 (String.eqb_neq _ _) Hterm), (proj2 (Z.ltb_ge _ _) Hmin), Hrows, Hg. done. }
  simpl. split_and!; [done|exact Hm| |].
  - intros table ([ty l] & -> & Hin)%list_elem_of_fmap. simpl. unfold as_u32. rewrite Z.mod_small; [done|].
    rewrite hm_iter_perm in Hin. apply (sum_list_with_in _ (λ e, length e.2)) in Hin. simpl in Hin. lia.
  - rewrite sum_list_fmap. rewrite <- hm_iter_perm in Ht. apply (total_of_counts (hm_iter groups.1) 0). lia.
Qed.

End reads.

(** An index of three rows: two controllers and a token. *)
#[local] Instance demo_index : Sqlx := {|
  SqliteRow := gmap string string; SqlxError := unit; sqlx_text _ := "error";
  row_string r c := match r !! c with Some v => inr v | None => inl tt end; row_int _ _ _ := inl tt;
  row_bool _ _ := inl tt; row_time _ _ := inl tt; row_f64 _ _ := inl tt; row_null r c := inr (bool_decide (r !! c = None))
|}.
Definition demo_row (ty id text : string) : gmap string string :=
  <["entity_type" := ty]> (<["entity_id" := id]> {["primary_text" := text]}).
Definition demo_found : list (gmap string string) :=
  [demo_row "controller" "c1" "alice"; demo_row "token" "t1" "alicecoin"; demo_row "controller" "c2" "alicia"].
Definition demo_search : SearchConfig := mkSearchConfig 1 2 true true 5.
#[local] Instance demo_search_pool : Pool := {|
  fetch_all s b := if decide (b = ["ali*"]) then inr demo_found else inl tt
|}.
#[local] Instance demo_search_env : SearchEnv := {| metadata_from_json _ := None |}.
Definition demo_match (row : gmap string string) : SearchMatch :=
  match search_match demo_search (search_row row) with Ok m => m | _ => mkSearchMatch EmptyString ∅ None end.
Lemma search_exact_witness :
  ∃ groups response,
    @search demo_index demo_search_pool canonical_order demo_search_env demo_search (mkSearchQuery " ali " 9) = Ok response ∧
    response_results response = table_results <$> @hm_iter canonical_order _ _ _ _ groups ∧
    match__id <$> (default [] (groups !! "controller")) = ["c1"] ∧ response_total response = 2.
Proof.
  destruct (@search_exact demo_index demo_search_pool canonical_order demo_search_env demo_search (mkSearchQuery " ali " 9)
              demo_found demo_match) as (groups & response & Hs & Hr & Hg & _ & _).
  - discriminate.
  - vm_compute. discriminate.
  - reflexivity.
  - vm_compute. reflexivity.
  - intros row Hin. apply list_elem_of_In in Hin. simpl in Hin.
    destruct Hin as [<-|[<-|[<-|[]]]]; vm_compute; reflexivity.
  - exists groups, response. split; [exact Hs|]. split; [exact Hr|]. split.
    + rewrite Hg. vm_compute. reflexivity.
    + vm_compute in Hs. injection Hs as <-. reflexivity.
Defined.
End AchReads.
