(* ===== verification/Messaging.v ===== *)
(** * Signed messages ([crates/messaging])

    A client may write an entity without a transaction: it sends a message of typed data
    with the signature of an account. [validate_and_set_entity] fills the schema of the
    model with the values of the message ([parse_value_to_ty]), checks the timestamps
    and the signature, and stores the entity.

    The typed data of [starknet_core], the node that checks the signature, the clock and
    the dojo types are parameters; the storage is the class [MessageStorage]. *)

From S2P Require Import Prelude Proto SqlString Executor ModelTable Wire Messages Aggregator Matching.
From stdpp Require Import pretty.
From Stdlib Require Import Ascii.
Local Open Scope Z_scope.
Local Open Scope torii_scope.

(** [starknet_core::types::typed_data::Value]; the fields of an object in their order *)
#[local] Set Warnings "-register-all".
Inductive Value : Type :=
| VObject (fields : list (string * Value))
| VArray (elements : list Value)
| VBoolean (b : bool)
| VString (s : string)
| VUnsignedInteger (n : Z)
| VSignedInteger (n : Z).

(** What the dojo types say of values. *)
Class DojoMessage : Type := {
  (** [Enum::set_option]: the index of the option of this name *)
  message_set_option : list (string * DTy) → string → option nat;
  (** [Member::serialize] *)
  member_serialize : DTy → option (list Felt);
  (** [Primitive::as_u128], [as_u64], [as_contract_address] *)
  prim_as_u128 : Prim → option Z;
  prim_as_u64 : Prim → option Z;
  prim_as_contract_address : Prim → option Felt;
  (** [Struct::get], the type of the member of a name *)
  struct_get : list (string * DTy * bool) → string → option DTy;
  (** [try_compute_selector_from_tag] *)
  message_selector : string → option Felt
}.

Class DojoMessageSpec `{SqlString.FeltFromStr} (DM : DojoMessage) : Prop := {
  set_option_named os x i : message_set_option os x = Some i → (os.*1) !! i = Some x;
  as_u128_spec p n : prim_as_u128 p = Some n ↔ p = PrimU128 (Some n);
  as_u64_spec p n : prim_as_u64 p = Some n ↔ p = PrimU64 (Some n);
  as_contract_address_spec p f : prim_as_contract_address p = Some f ↔ p = PrimContractAddress (Some f);
  (** a [Felt] is below the prime of the field *)
  felt_from_range text f : SqlString.felt_from_str text = Some f → SqlString.felt_ok f
}.

(** [MessagingError], with what its transparent variants wrap. *)
Inductive MessagingError {StorageError ProviderError : Type} : Type :=
| MInvalidType (what : string)
| MParseIntError
| MFieldNotFound (what : string)
| MInvalidTupleLength
| MParseFeltError
| MInvalidModelTag (tag : string)
| MModelNotFound (what : string)
| MMessageNotStruct
| MSerializeModelKeyError
| MEnumError
| MStorageError (e : StorageError)
| MProviderError (e : ProviderError)
| MTypedDataError
| MInvalidSignature
| MTimestampTooFuture
| MTimestampTooOld
| MTimestampNotFound
| MInvalidTimestamp.
Arguments MessagingError : clear implicits.

(** The storage as the messages use it: the reads [model] and [entity_model], and the
    writes [set_entity] and [execute]. *)
Class MessageStorage (S SE : Type) : Type := {
  ms_model : Felt → Felt → S → SE + DTy;
  ms_entity_model : Felt → Felt → Felt → S → SE + option DTy;
  ms_set_entity : Felt → DTy → string → Z → Felt → Felt → option (list Felt) → st S SE unit;
  ms_execute : st S SE unit;
  ms_error_text : SE → string
}.

(** A write that succeeds is what the next read of the entity gives, as far as its timestamp
    goes, and changes no other entity. *)
Class MessageStorageSpec `{SqlString.FeltFromStr} {DM : DojoMessage} (timestamp : DTy → option Z) {S SE : Type} (MS : MessageStorage S SE) : Prop := {
  written_read world ty event_id at_ entity model keys s s1 s2 :
    ms_set_entity world ty event_id at_ entity model keys s = (Ok tt, s1) → ms_execute s1 = (Ok tt, s2) →
    (∃ ty', ms_entity_model world entity model s2 = inr (Some ty') ∧ timestamp ty' = timestamp ty) ∧
    (∀ world' entity' model', (world', entity', model') ≠ (world, entity, model) →
       ms_entity_model world' entity' model' s2 = ms_entity_model world' entity' model' s)
}.

(** Typed data, the hash of keys, the node and the clock. *)
Class MessageEnv : Type := {
  TypedMessage : Type;
  (** [message.primary_type().signature_ref_repr()], [message.message()] *)
  primary_type : TypedMessage → string;
  message_value : TypedMessage → Value;
  (** [message.message_hash(account)] *)
  message_hash : TypedMessage → Felt → option Felt;
  poseidon_hash_many : list Felt → Felt;
  ProviderError : Type;
  (** [provider.call], of [is_valid_signature] at the address *)
  call_is_valid_signature : Felt → list Felt → ProviderError + list Felt;
  messaging_error_text {SE} : MessagingError SE ProviderError → string
}.

Module Messaging.
Import Msg.

(** ** Integers *)
(** [from_str_radix] of a signed type *)
Definition signed_radix (radix : Z) (val : ascii → option Z) (lo hi : Z) (s : string) : option Z :=
  match s with
  | String c s' =>
      if Ascii.eqb c plus_sign then number_from radix val lo hi 1 s'
      else if Ascii.eqb c minus_sign then number_from radix val lo hi (-1) s'
      else number_from radix val lo hi 1 s
  | EmptyString => None
  end.
(** The digits of a hexadecimal text, whose prefix is [0x] or [0X]. *)
Definition hex_text (s : string) : option string :=
  if String.prefix "0x" s || String.prefix "0X" s then Some (String.substring 2 (String.length s - 2) s) else None.
(** The macro [from_str!] for a signed and for an unsigned type of so many bits. *)
Definition from_str_i (bits : Z) (s : string) : option Z :=
  let lo := - 2 ^ (bits - 1) in
  let hi := 2 ^ (bits - 1) - 1 in
  match hex_text s with Some h => signed_radix 16 hex_val lo hi h | None => signed_radix 10 dec_val lo hi s end.
Definition from_str_u (bits : Z) (s : string) : option Z :=
  let hi := 2 ^ bits - 1 in
  match hex_text s with Some h => unsigned_from 16 hex_val hi h | None => unsigned_from 10 dec_val hi s end.

Section parsing.
Context `{SqlString.FeltFromStr} {DM : DojoMessage} {DV : DojoValues} {SE PE : Type}.
#[local] Abbreviation Ty := DTy.
#[local] Abbreviation Error := (MessagingError SE PE).

Definition invalid_type {A} (what : string) (ty : Ty) : outcome Error A :=
  Err (MInvalidType ("Invalid " +:+ what +:+ " type for " +:+ ty_name ty)).

(** The first member of the name is replaced. *)
Fixpoint parse_member (parse : Ty → outcome Error Ty) (key : string) (children : list (string * Ty * bool))
  : outcome Error (list (string * Ty * bool)) :=
  match children with
  | [] => Err (MFieldNotFound key)
  | (x, t, k) :: children =>
      if String.eqb x key then let? t := parse t in Ok ((x, t, k) :: children)
      else let? children := parse_member parse key children in Ok ((x, t, k) :: children)
  end.

(** [Value::UnsignedInteger], [Value::SignedInteger]: [*number as u8] and so on *)
Definition parse_unsigned (number : Z) (ty : Ty) : outcome Error Ty :=
  match ty with
  | TyPrimitive p =>
      match (p : Prim) with
      | PrimU8 _ => Ok (TyPrimitive (PrimU8 (Some (wrap_u 8 number)) : Primitive))
      | PrimU16 _ => Ok (TyPrimitive (PrimU16 (Some (wrap_u 16 number)) : Primitive))
      | PrimU32 _ => Ok (TyPrimitive (PrimU32 (Some (wrap_u 32 number)) : Primitive))
      | PrimU64 _ => Ok (TyPrimitive (PrimU64 (Some (wrap_u 64 number)) : Primitive))
      | PrimU128 _ => Ok (TyPrimitive (PrimU128 (Some number) : Primitive))
      | _ => invalid_type "number" ty
      end
  | _ => invalid_type "number" ty
  end.
Definition parse_signed (number : Z) (ty : Ty) : outcome Error Ty :=
  match ty with
  | TyPrimitive p =>
      match (p : Prim) with
      | PrimI8 _ => Ok (TyPrimitive (PrimI8 (Some (wrap_i 8 number)) : Primitive))
      | PrimI16 _ => Ok (TyPrimitive (PrimI16 (Some (wrap_i 16 number)) : Primitive))
      | PrimI32 _ => Ok (TyPrimitive (PrimI32 (Some (wrap_i 32 number)) : Primitive))
      | PrimI64 _ => Ok (TyPrimitive (PrimI64 (Some (wrap_i 64 number)) : Primitive))
      | PrimI128 _ => Ok (TyPrimitive (PrimI128 (Some number) : Primitive))
      | _ => invalid_type "number" ty
      end
  | _ => invalid_type "number" ty
  end.
Definition parse_string (s : string) (ty : Ty) : outcome Error Ty :=
  let int (c : option Z → Prim) (o : option Z) := let? n := ok_or MParseIntError o in Ok (TyPrimitive (c (Some n) : Primitive)) in
  let felt (c : option Felt → Prim) :=
    let? f := ok_or MParseFeltError (SqlString.felt_from_str s) in Ok (TyPrimitive (c (Some f) : Primitive)) in
  match ty with
  | TyPrimitive p =>
      match (p : Prim) with
      | PrimI64 _ => int PrimI64 (from_str_i 64 s)
      | PrimI128 _ => int PrimI128 (from_str_i 128 s)
      | PrimU64 _ => int PrimU64 (from_str_u 64 s)
      | PrimU128 _ => int PrimU128 (from_str_u 128 s)
      | PrimFelt252 _ => felt PrimFelt252
      | PrimClassHash _ => felt PrimClassHash
      | PrimContractAddress _ => felt PrimContractAddress
      | PrimEthAddress _ => felt PrimEthAddress
      | _ => Err (MInvalidType "Invalid primitive type")
      end
  | TyByteArray _ => Ok (TyByteArray s)
  | _ => invalid_type "string" ty
  end.

(** [ty.as_primitive().unwrap().as_u128().unwrap()] *)
Definition unwrap_u128 (ty : Ty) : outcome Error Z :=
  match ty with TyPrimitive p => unwrap (prim_as_u128 p) | _ => Panic end.
Definition u128_schema : Ty := TyPrimitive (PrimU128 None : Primitive).
(** [bytes[..16] = high, bytes[16..] = low] *)
Definition u256_of_halves (high low : Z) : U256 := high * 2 ^ 128 + low.

Fixpoint parse_value_to_ty (value : Value) (ty : Ty) {struct value} : outcome Error Ty :=
  match value with
  | VObject fields =>
      match ty with
      | TyStruct n children =>
          let? children := (fix go fs children := match fs with
            | [] => Ok children
            | (key, v) :: fs => let? children := parse_member (parse_value_to_ty v) key children in go fs children
            end) fields children in
          Ok (TyStruct n children)
      | TyPrimitive p =>
          match (p : Prim) with
          | PrimU256 _ =>
              let half key := (fix go fs := match fs with
                | [] => Panic
                | (k, v) :: fs => if String.eqb k key then parse_value_to_ty v u128_schema else go fs
                end) fields in
              let? low := half "low" in
              let? high := half "high" in
              let? low := unwrap_u128 low in
              let? high := unwrap_u128 high in
              Ok (TyPrimitive (PrimU256 (Some (u256_of_halves high low)) : Primitive))
          | _ => invalid_type "object" ty
          end
      | TyEnum n _ options =>
          match fields with
          | [] => Err (MFieldNotFound "enum variant not found")
          | (option_name, v) :: _ =>
              let? options := (fix go os := match os with
                | [] => Ok []
                | (x, t) :: os =>
                    let? t := if String.eqb x option_name then parse_value_to_ty v t else Ok t in
                    let? os := go os in Ok ((x, t) :: os)
                end) options in
              let? i := ok_or MEnumError (message_set_option options option_name) in
              Ok (TyEnum n (Some i) options)
          end
      | _ => invalid_type "object" ty
      end
  | VArray elements =>
      match ty with
      | TyArray ts =>
          match ts with
          | [] => Panic
          | inner :: _ =>
              let? ts := (fix go vs := match vs with
                | [] => Ok []
                | v :: vs => let? t := parse_value_to_ty v inner in let? ts := go vs in Ok (t :: ts)
                end) elements in
              Ok (TyArray ts)
          end
      | TyTuple ts =>
          if (length ts =? length elements)%nat then
            let? ts := (fix go vs ts {struct vs} := match vs, ts with
              | v :: vs, t :: ts => let? t := parse_value_to_ty v t in let? ts := go vs ts in Ok (t :: ts)
              | _, _ => Ok []
              end) elements ts in
            Ok (TyTuple ts)
          else Err MInvalidTupleLength
      | _ => invalid_type "array" ty
      end
  | VUnsignedInteger number => parse_unsigned number ty
  | VSignedInteger number => parse_signed number ty
  | VBoolean boolean => Ok (TyPrimitive (PrimBool (Some boolean) : Primitive))
  | VString s => parse_string s ty
  end.
End parsing.

(** ** Entities *)
Section service.
Context `{SqlString.FeltFromStr} {DM : DojoMessage} {DV : DojoValues} {ME : MessageEnv} {S SE : Type} {MS : MessageStorage S SE}.
#[local] Abbreviation Ty := DTy.
#[local] Abbreviation Error := (MessagingError SE ProviderError).

Definition ty_keys (ty : Ty) : outcome Error (list Felt) :=
  match ty with
  | TyStruct _ ms =>
      let? keys := outcome_mapM (λ m : string * Ty * bool, ok_or MSerializeModelKeyError (member_serialize m.1.2))
        (filter (λ m, m.2 = true) ms) in
      Ok (concat keys)
  | _ => Err (MInvalidType "Message should be a struct")
  end.
Definition ty_model_id (ty : Ty) : outcome Error Felt :=
  ok_or (MInvalidModelTag (ty_name ty)) (message_selector (ty_name ty)).
Definition get_identity_from_ty (ty : Ty) : outcome Error Felt :=
  let? ms := ok_or MMessageNotStruct (ModelTable.as_struct ty) in
  let? t := ok_or (MFieldNotFound "identity") (struct_get ms "identity") in
  let? p := ok_or (MInvalidType "Identity should be a primitive") (ModelTable.as_primitive t) in
  ok_or (MInvalidType "Identity should be a contract address") (prim_as_contract_address p).
Definition get_timestamp_from_ty (ty : Ty) : option Z :=
  match ModelTable.as_struct ty with
  | Some ms => match struct_get ms "timestamp" with
    | Some t => match ModelTable.as_primitive t with Some p => prim_as_u64 p | None => None end
    | None => None
    end
  | None => None
  end.

(** [r?] and [r.map_err(..)?] on what the storage returns *)
Definition storage {A} (m : st S SE A) : st S Error A := st_map_err MStorageError m.
Definition read_storage {A} (read : S → SE + A) : st S Error A := λ s,
  (match read s with inl e => Err (MStorageError e) | inr a => Ok a end, s).

(** [format!("{:#064x}", block_timestamp)] *)
Definition timestamp_id (block_timestamp : Z) : string := SqlString.format_hex 64 block_timestamp.
Definition set_entity (world_address : Felt) (ty : Ty) (block_timestamp : Z) (entity_id model_id : Felt) (keys : list Felt)
  : st S Error unit :=
  storage (ms_set_entity world_address ty (timestamp_id block_timestamp) block_timestamp entity_id model_id (Some keys)) ;;;
  storage ms_execute.

(** ** Validation *)
(** [res[0] != Felt::ZERO]; [res[0]] panics when there is none *)
Definition validate_signature (entity_identity : Felt) (message : TypedMessage) (signature : list Felt) : outcome Error bool :=
  let? hash := ok_or MTypedDataError (message_hash message entity_identity) in
  match call_is_valid_signature entity_identity (hash :: Z.of_nat (length signature) :: signature) with
  | inl e => Err (MProviderError e)
  | inr res => let? r := unwrap (head res) in Ok (negb (r =? 0))
  end.

Definition validate_message (world_address : Felt) (message : TypedMessage) : st S Error Ty := λ s,
  (let tag := primary_type message in
   let? selector := ok_or (MInvalidModelTag tag) (message_selector tag) in
   let? ty := match ms_model world_address selector s with
              | inl e => Err (MModelNotFound (ms_error_text e)) | inr ty => Ok ty end in
   parse_value_to_ty (message_value message) ty, s).

(** ** The service *)
Record MessagingConfig : Type := mkMessagingConfig { max_age : Z; future_tolerance : Z; require_timestamp : bool }.
Definition MessagingConfig_default : MessagingConfig := mkMessagingConfig 300000 60000 false.

(** The timestamp of the message against the clock in milliseconds. *)
Definition check_timestamp (config : MessagingConfig) (now : Z) (message_timestamp : option Z) : outcome Error unit :=
  let? _ := match message_timestamp with
    | Some timestamp =>
        if u64_add now (future_tolerance config) <? timestamp then Err MTimestampTooFuture
        else if max_age config <? Z.max 0 (now - timestamp) then Err MTimestampTooOld
        else Ok tt
    | None => Ok tt
    end in
  if require_timestamp config && bool_decide (message_timestamp = None) then Err MTimestampNotFound else Ok tt.
(** The timestamp of the message against that of the stored entity. *)
Definition check_entity_timestamp (message_timestamp entity_timestamp : option Z) : outcome Error unit :=
  match entity_timestamp with
  | Some timestamp =>
      let? t := ok_or MTimestampNotFound message_timestamp in
      if t <=? timestamp then Err MInvalidTimestamp else Ok tt
  | None => Ok tt
  end.
Definition keys_or_not_found (ty : Ty) : outcome Error (list Felt) :=
  match ty_keys ty with Err e => Err (MModelNotFound (messaging_error_text e)) | r => r end.

(** [now_millis], [now] are the clock in milliseconds and in seconds. *)
Definition validate_and_set_entity (config : MessagingConfig) (now_millis now : Z) (world_address : Felt)
    (message : TypedMessage) (signature : list Felt) : st S Error string :=
  let! ty := validate_message world_address message in
  let! keys := st_lift (keys_or_not_found ty) in
  let entity_id := poseidon_hash_many keys in
  let! model_id := st_lift (match ty_model_id ty with Err _ => Panic | r => r end) in
  let message_timestamp := get_timestamp_from_ty ty in
  st_lift (check_timestamp config now_millis message_timestamp) ;;;
  let! entity_model := read_storage (ms_entity_model world_address entity_id model_id) in
  let! entity_identity := st_lift (get_identity_from_ty (default ty entity_model)) in
  st_lift (check_entity_timestamp message_timestamp (match entity_model with Some m => get_timestamp_from_ty m | None => None end)) ;;;
  let! valid := st_lift (validate_signature entity_identity message signature) in
  if valid then
    set_entity world_address ty (default now message_timestamp) entity_id model_id keys ;;;
    st_ret (SqlString.format_world_scoped_id world_address entity_id)
  else st_throw MInvalidSignature.
End service.

(** ** The type of a parsed value *)
Lemma Value_ind' (P : Value → Prop) :
  (∀ fields, Forall (λ f, P f.2) fields → P (VObject fields)) → (∀ vs, Forall P vs → P (VArray vs)) →
  (∀ b, P (VBoolean b)) → (∀ s, P (VString s)) → (∀ n, P (VUnsignedInteger n)) → (∀ n, P (VSignedInteger n)) → ∀ v, P v.
Proof.
  intros Ho Ha Hb Hs Hu Hi. fix IH 1. intros [fields|vs|b|s|n|n]; [apply Ho|apply Ha|apply Hb|apply Hs|apply Hu|apply Hi].
  - induction fields as [|[k v] fields IHf]; constructor; [apply IH|exact IHf].
  - induction vs as [|v vs IHv]; constructor; [apply IH|exact IHv].
Qed.

Fixpoint has_boolean (v : Value) : bool :=
  match v with
  | VObject fields => (fix go fs := match fs with [] => false | (_, v) :: fs => has_boolean v || go fs end) fields
  | VArray vs => (fix go vs := match vs with [] => false | v :: vs => has_boolean v || go vs end) vs
  | VBoolean _ => true
  | _ => false
  end.

Definition same_kind (p q : Prim) : Prop :=
  match p, q with
  | PrimI8 _, PrimI8 _ | PrimI16 _, PrimI16 _ | PrimI32 _, PrimI32 _ | PrimI64 _, PrimI64 _ | PrimI128 _, PrimI128 _
  | PrimU8 _, PrimU8 _ | PrimU16 _, PrimU16 _ | PrimU32 _, PrimU32 _ | PrimU64 _, PrimU64 _ | PrimU128 _, PrimU128 _
  | PrimU256 _, PrimU256 _ | PrimBool _, PrimBool _ | PrimFelt252 _, PrimFelt252 _ | PrimClassHash _, PrimClassHash _
  | PrimContractAddress _, PrimContractAddress _ | PrimEthAddress _, PrimEthAddress _ => True
  | _, _ => False
  end.
Definition is_boolean (t : DTy) : Prop := ∃ b, t = TyPrimitive (PrimBool (Some b) : Primitive).

(** [v] is a value of the schema [s], in which a boolean may have taken any place when [b]. *)
Fixpoint typed (b : bool) (s v : DTy) {struct v} : Prop :=
  (b = true ∧ is_boolean v) ∨
  match v, s with
  | TyPrimitive p, TyPrimitive q => same_kind p q ∧ (prim_ok q → prim_ok p)
  | TyByteArray _, TyByteArray _ => True
  | TyFixedSizeArray _ _, TyFixedSizeArray _ _ => v = s
  | TyArray vs, TyArray ts =>
      vs = ts ∨ match ts with
                | inner :: _ => (fix go vs := match vs with [] => True | v :: vs => typed b inner v ∧ go vs end) vs
                | [] => False
                end
  | TyStruct n vs, TyStruct n' ms =>
      n = n' ∧ (fix go vs ms {struct vs} := match vs, ms with
       | [], [] => True
       | (x, v, k) :: vs, (x', t, k') :: ms => x = x' ∧ k = k' ∧ typed b t v ∧ go vs ms
       | _, _ => False
       end) vs ms
  | TyTuple vs, TyTuple ts =>
      (fix go vs ts {struct vs} := match vs, ts with
       | [], [] => True
       | v :: vs, t :: ts => typed b t v ∧ go vs ts
       | _, _ => False
       end) vs ts
  | TyEnum n o vs, TyEnum n' o' os =>
      n = n' ∧ (o = o' ∨ ∃ i, o = Some i ∧ (i < length vs)%nat) ∧
      (fix go vs os {struct vs} := match vs, os with
       | [], [] => True
       | (x, v) :: vs, (x', t) :: os => x = x' ∧ typed b t v ∧ go vs os
       | _, _ => False
       end) vs os
  | _, _ => False
  end.

Lemma typed_refl b s : typed b s s.
Proof.
  induction s as [p|n ms IH|n o os IH|ts IH|ts _|ts l _|x] using ModelTable.DTy_ind'; right; try done.
  - by destruct p.
  - split; [done|]. induction IH as [|[[x t] k] ms Ht _ IHms]; done.
  - split_and!; [done|by left|]. induction IH as [|[x t] os Ht _ IHos]; done.
  - induction IH as [|t ts Ht _ IHts]; done.
  - by left.
Qed.
Lemma typed_mono b b' s v : (b = true → b' = true) → typed b s v → typed b' s v.
Proof.
  intros Hb. revert s. induction v as [p|n ms IH|n o os IH|ts IH|ts IH|ts l _|x] using ModelTable.DTy_ind';
    intros s [[H1 H2]|Ht]; try (left; by auto); right; destruct s as [q|n' ms'|n' o' os'|ts'|ts'|ts' l'|x']; try done.
  - destruct Ht as [-> Ht]. split; [done|]. revert ms' Ht. induction IH as [|[[x t] k] ms Ht' _ IHms]; intros [|[[x' t'] k'] ms']; try done.
    intros (-> & -> & Ht & Hms). split_and!; [done|done|by apply Ht'|by apply IHms].
  - destruct Ht as (-> & Ho & Ht). split_and!; [done|done|]. clear Ho. revert os' Ht.
    induction IH as [|[x t] os Ht' _ IHos]; intros [|[x' t'] os']; try done.
    intros (-> & Ht & Hos). split_and!; [done|by apply Ht'|by apply IHos].
  - revert ts' Ht. induction IH as [|t ts Ht' _ IHts]; intros [|t' ts']; try done. intros [Ht Hts]. split; [by apply Ht'|by apply IHts].
  - destruct Ht as [->|Ht]; [by left|right]. destruct ts' as [|inner ts']; [done|]. clear -IH Ht Hb.
    induction IH as [|t ts Ht' _ IHts]; [done|]. destruct Ht as [Ht Hts]. split; [by apply Ht'|by apply IHts].
Qed.

Lemma not_boolean (t : DTy) : match t with TyPrimitive _ => False | _ => True end → ¬ is_boolean t.
Proof. by intros Ht [b ->]. Qed.
Lemma typed_struct b s n vs : typed b s (TyStruct n vs) ↔
  ∃ ms, s = TyStruct n ms ∧ Forall2 (λ v m : string * DTy * bool, v.1.1 = m.1.1 ∧ v.2 = m.2 ∧ typed b m.1.2 v.1.2) vs ms.
Proof.
  split.
  - intros [[_ Hb]|Ht]; [by apply not_boolean in Hb|]. destruct s as [|n' ms| | | | |]; try done. destruct Ht as [-> Ht].
    exists ms. split; [done|]. revert ms Ht. induction vs as [|[[x v] k] vs IH]; intros [|[[x' t] k'] ms]; try done.
    intros (-> & -> & Ht & Hvs). constructor; [done|by apply IH].
  - intros (ms & -> & Hf). right. split; [done|]. induction Hf as [|[[x v] k] [[x' t] k'] vs ms (? & ? & ?) _ IH]; done.
Qed.
Lemma typed_enum b s n o vs : typed b s (TyEnum n o vs) ↔
  ∃ o' os, s = TyEnum n o' os ∧ (o = o' ∨ ∃ i, o = Some i ∧ (i < length vs)%nat) ∧
    Forall2 (λ v t : string * DTy, v.1 = t.1 ∧ typed b t.2 v.2) vs os.
Proof.
  split.
  - intros [[_ Hb]|Ht]; [by apply not_boolean in Hb|]. destruct s as [| |n' o' os| | | |]; try done.
    destruct Ht as (-> & Ho & Ht). exists o', os. split_and!; [done..|]. clear Ho. revert os Ht.
    induction vs as [|[x v] vs IH]; intros [|[x' t] os]; try done. intros (-> & Ht & Hvs). constructor; [done|by apply IH].
  - intros (o' & os & -> & Ho & Hf). right. split_and!; [done..|]. clear Ho.
    induction Hf as [|[x v] [x' t] vs os (? & ?) _ IH]; done.
Qed.
Lemma typed_tuple b s vs : typed b s (TyTuple vs) ↔ ∃ ts, s = TyTuple ts ∧ Forall2 (λ v t, typed b t v) vs ts.
Proof.
  split.
  - intros [[_ Hb]|Ht]; [by apply not_boolean in Hb|]. destruct s as [| | |ts| | |]; try done. exists ts. split; [done|].
    revert ts Ht. induction vs as [|v vs IH]; intros [|t ts]; try done. intros [Ht Hvs]. constructor; [done|by apply IH].
  - intros (ts & -> & Hf). right. induction Hf as [|v t vs ts ? _ IH]; done.
Qed.
Lemma typed_array b s vs : typed b s (TyArray vs) ↔
  ∃ ts, s = TyArray ts ∧ (vs = ts ∨ ∃ inner rest, ts = inner :: rest ∧ Forall (typed b inner) vs).
Proof.
  split.
  - intros [[_ Hb]|Ht]; [by apply not_boolean in Hb|]. destruct s as [| | | |ts| |]; try done. exists ts. split; [done|].
    destruct Ht as [->|Ht]; [by left|right]. destruct ts as [|inner rest]; [done|]. exists inner, rest. split; [done|].
    induction vs as [|v vs IH]; [done|]. destruct Ht as [Ht Hvs]. constructor; [done|by apply IH].
  - intros (ts & -> & [->|(inner & rest & -> & Hf)]); right; [by left|right]. induction Hf as [|v vs ? _ IH]; done.
Qed.
(** The element type of an array that is typed. *)
Lemma typed_array_inner b s inner vs : typed b s (TyArray (inner :: vs)) →
  ∃ inner' rest, s = TyArray (inner' :: rest) ∧ typed b inner' inner.
Proof.
  intros (ts & -> & [<-|(inner' & rest & -> & Hf)])%typed_array; [exists inner, vs; split; [done|apply typed_refl]|].
  exists inner', rest. split; [done|]. by apply Forall_cons in Hf as [? _].
Qed.

Section parsed.
Context `{SqlString.FeltFromStr} {DM : DojoMessage} {DV : DojoValues} {SE PE : Type}.
#[local] Abbreviation Ty := DTy.
#[local] Abbreviation Error := (MessagingError SE PE).
#[local] Abbreviation parse v := (parse_value_to_ty (SE := SE) (PE := PE) v).

Definition parses_typed (v : Value) : Prop := ∀ b s t t',
  typed b s t → parse v t = Ok t' → typed (b || has_boolean v) s t'.

Lemma typed_prim b s (p q : Prim) : typed b s (TyPrimitive (p : Primitive)) → same_kind q p → (∀ v, p ≠ PrimBool v) → prim_ok q →
  typed b s (TyPrimitive (q : Primitive)).
Proof.
  intros [[_ [x Hx]]|Ht] Hk Hb Hok; [injection Hx as ->; by destruct (Hb (Some x))|].
  right. destruct s as [r| | | | | |]; try done. destruct Ht as [Ht _]. split; [|done].
  destruct q, p; try done; destruct r; done.
Qed.

(** The integers of a message are of the types [u128] and [i128]. *)
Fixpoint value_ok (v : Value) : Prop :=
  match v with
  | VObject fields => (fix go fs := match fs with [] => True | (_, v) :: fs => value_ok v ∧ go fs end) fields
  | VArray vs => (fix go vs := match vs with [] => True | v :: vs => value_ok v ∧ go vs end) vs
  | VUnsignedInteger n => 0 ≤ n < 2 ^ 128
  | VSignedInteger n => - 2 ^ 127 ≤ n < 2 ^ 127
  | _ => True
  end.

Lemma number_from_range radix val lo hi sign s n : number_from radix val lo hi sign s = Some n → lo ≤ n ≤ hi.
Proof.
  unfold number_from. destruct s as [|c s]; [done|]. destruct (digits_from _ _ _ _) as [m|]; [|done]. cbn.
  destruct (lo <=? sign * m) eqn:H1; [|done]. destruct (sign * m <=? hi) eqn:H2; [|done]. intros [= <-].
  apply Z.leb_le in H1, H2. lia.
Qed.
Lemma from_str_i_range bits s n : from_str_i bits s = Some n → - 2 ^ (bits - 1) ≤ n < 2 ^ (bits - 1).
Proof.
  assert (∀ radix val t, signed_radix radix val (- 2 ^ (bits - 1)) (2 ^ (bits - 1) - 1) t = Some n →
    - 2 ^ (bits - 1) ≤ n < 2 ^ (bits - 1)) as Hr.
  { intros radix val [|c t]; [done|]. cbn [signed_radix].
    destruct (Ascii.eqb c plus_sign), (Ascii.eqb c minus_sign); intros Hn%number_from_range; lia. }
  unfold from_str_i. destruct (hex_text s); apply Hr.
Qed.
Lemma from_str_u_range bits s n : from_str_u bits s = Some n → 0 ≤ n < 2 ^ bits.
Proof.
  assert (∀ radix val t, unsigned_from radix val (2 ^ bits - 1) t = Some n → 0 ≤ n < 2 ^ bits) as Hr.
  { intros radix val [|c t]; [done|]. cbn [unsigned_from]. destruct (Ascii.eqb c plus_sign); intros Hn%number_from_range; lia. }
  unfold from_str_u. destruct (hex_text s); apply Hr.
Qed.
Lemma wrap_u_range bits n : 0 ≤ bits → 0 ≤ wrap_u bits n < 2 ^ bits.
Proof. intros Hb. apply Z.mod_pos_bound. by apply Z.pow_pos_nonneg. Qed.
Lemma wrap_i_range bits n : 0 < bits → - 2 ^ (bits - 1) ≤ wrap_i bits n < 2 ^ (bits - 1).
Proof.
  intros Hb. unfold wrap_i.
  assert (2 ^ bits = 2 * 2 ^ (bits - 1)) as Hp by (rewrite <- Z.pow_succ_r by lia; f_equal; lia).
  pose proof (Z.mod_pos_bound (n + 2 ^ (bits - 1)) (2 ^ bits) ltac:(apply Z.pow_pos_nonneg; lia)) as Hm. lia.
Qed.

Context {SPEC : DojoMessageSpec DM}.

(** The leaves. *)
Lemma unsigned_typed b s t t' n : 0 ≤ n < 2 ^ 128 → typed b s t → parse_unsigned (SE := SE) (PE := PE) n t = Ok t' → typed b s t'.
Proof.
  intros Hn Ht. destruct t as [p| | | | | |]; try done. cbn. destruct p; try done; intros [= <-];
    (eapply typed_prim; [exact Ht|done|done|]); intros x [= <-]; solve [by apply (wrap_u_range _ n) | done].
Qed.
Lemma signed_typed b s t t' n : - 2 ^ 127 ≤ n < 2 ^ 127 → typed b s t → parse_signed (SE := SE) (PE := PE) n t = Ok t' → typed b s t'.
Proof.
  intros Hn Ht. destruct t as [p| | | | | |]; try done. cbn. destruct p; try done; intros [= <-];
    (eapply typed_prim; [exact Ht|done|done|]); intros x [= <-]; solve [by apply (wrap_i_range _ n) | cbn; lia].
Qed.
Lemma string_typed b s t t' text : typed b s t → parse_string (SE := SE) (PE := PE) text t = Ok t' → typed b s t'.
Proof.
  intros Ht. destruct t as [p| | | | | |x]; try done.
  - cbn [parse_string]. destruct p; try done;
      match goal with |- outcome_bind (ok_or _ ?o) _ = _ → _ => destruct o as [n|] eqn:Hn; [|done] end;
      intros [= <-]; (eapply typed_prim; [exact Ht|done|done|]); intros x [= <-];
      first [by apply from_str_i_range in Hn | by apply from_str_u_range in Hn | by eapply felt_from_range].
  - intros [= <-]. destruct Ht as [[_ Hb]|Ht]; [by apply not_boolean in Hb|]. by destruct s; try done; right.
Qed.

(** The structures. [b'] is what the values so far allow. *)
Lemma member_typed v b b' n s key children children' :
  parses_typed v → (b = true → b' = true) → (has_boolean v = true → b' = true) →
  typed b s (TyStruct n children) → parse_member (parse v) key children = Ok children' → typed b' s (TyStruct n children').
Proof.
  intros Hv Hb Hv' (ms & -> & Hf)%typed_struct Hp. apply typed_struct. exists ms. split; [done|].
  revert children' Hp. induction Hf as [|[[x t] k] [[x' u] k'] children ms (Hx & Hk & Ht) Hf IH]; intros children' Hp; [done|].
  cbn [parse_member] in Hp. cbn [fst snd] in *.
  destruct (String.eqb x key).
  - destruct (parse v t) as [t'|e|] eqn:Ht'; [|done..]. injection Hp as <-. constructor.
    + split_and!; [done..|]. eapply typed_mono; [|exact (Hv _ _ _ _ Ht Ht')]. intros [?|?]%orb_true_iff; auto.
    + eapply Forall2_impl; [done|]. intros m1 m2 (? & ? & Ht2). split_and!; [done..|]. exact (typed_mono _ _ _ _ Hb Ht2).
  - destruct (parse_member (parse v) key children) as [cs|e|] eqn:Hc; [|done..]. injection Hp as <-.
    constructor; [|by apply IH]. split_and!; [done..|]. exact (typed_mono _ _ _ _ Hb Ht).
Qed.

Lemma fields_typed fields : Forall (λ f, parses_typed f.2) fields → ∀ b s n children children',
  typed b s (TyStruct n children) →
  (fix go fs children := match fs with
   | [] => Ok children
   | (key, v) :: fs => let? children := parse_member (parse v) key children in go fs children
   end) fields children = Ok children' →
  typed (b || has_boolean (VObject fields)) s (TyStruct n children').
Proof.
  induction 1 as [|[key v] fields Hv _ IH]; intros b s n children children' Ht Hp.
  - injection Hp as <-. cbn [has_boolean]. by rewrite orb_false_r.
  - cbn [snd] in Hv. destruct (parse_member (parse v) key children) as [cs|e|] eqn:Hc; [|done..]. cbn [outcome_bind] in Hp.
    eapply typed_mono; [|eapply (IH (b || has_boolean v)); [|exact Hp]].
    + cbn [has_boolean]. rewrite !orb_true_iff. tauto.
    + eapply member_typed; [exact Hv| | |exact Ht|exact Hc]; rewrite orb_true_iff; tauto.
Qed.

Lemma options_typed v b b' name (options os options' : list (string * Ty)) :
  parses_typed v → (b = true → b' = true) → (has_boolean v = true → b' = true) →
  Forall2 (λ x t : string * Ty, x.1 = t.1 ∧ typed b t.2 x.2) options os →
  (fix go os := match os with
   | [] => Ok []
   | (x, t) :: os => let? t := if String.eqb x name then parse v t else Ok t in let? os := go os in Ok ((x, t) :: os)
   end) options = Ok options' →
  Forall2 (λ x t : string * Ty, x.1 = t.1 ∧ typed b' t.2 x.2) options' os.
Proof.
  intros Hv Hb Hv' Hf. revert options'. induction Hf as [|[x t] [x' u] options os [Hx Ht] _ IH]; intros options' Hp;
    [by injection Hp as <-|].
  cbn [fst snd] in *. destruct (if String.eqb x name then parse v t else Ok t) as [t'|e|] eqn:Ht'; [|done..].
  destruct ((fix go os := match os with
   | [] => Ok []
   | (x, t) :: os => let? t := if String.eqb x name then parse v t else Ok t in let? os := go os in Ok ((x, t) :: os)
   end) options) as [cs|e|] eqn:Hc; [|done..]. injection Hp as <-. constructor; [|by apply IH].
  split; [done|]. cbn [snd]. destruct (String.eqb x name).
  - eapply typed_mono; [|exact (Hv _ _ _ _ Ht Ht')]. intros [?|?]%orb_true_iff; auto.
  - injection Ht' as <-. exact (typed_mono _ _ _ _ Hb Ht).
Qed.

Lemma elements_typed vs b s inner ts : Forall parses_typed vs → typed b s inner →
  (fix go vs := match vs with
   | [] => Ok []
   | v :: vs => let? t := parse v inner in let? ts := go vs in Ok (t :: ts)
   end) vs = Ok ts → Forall (typed (b || has_boolean (VArray vs)) s) ts.
Proof.
  intros Hvs Hi. revert ts. induction Hvs as [|v vs Hv _ IH]; intros ts Hp; [by injection Hp as <-|].
  destruct (parse v inner) as [t|e|] eqn:Ht; [|done..]. cbn [outcome_bind] in Hp.
  match type of Hp with outcome_bind ?r _ = _ => destruct r as [us|e|] eqn:Hu; [|done..] end. injection Hp as <-.
  cbn [has_boolean]. constructor.
  - eapply typed_mono; [|exact (Hv _ _ _ _ Hi Ht)]. rewrite !orb_true_iff. tauto.
  - eapply Forall_impl; [by apply IH|]. intros u Hu'. eapply typed_mono; [|exact Hu']. cbn [has_boolean]. rewrite !orb_true_iff. tauto.
Qed.

Lemma tuple_typed vs b (us ts ts' : list Ty) : Forall parses_typed vs → Forall2 (λ t u, typed b u t) ts us → length ts = length vs →
  (fix go vs ts {struct vs} := match vs, ts with
   | v :: vs, t :: ts => let? t := parse v t in let? ts := go vs ts in Ok (t :: ts)
   | _, _ => Ok []
   end) vs ts = Ok ts' → Forall2 (λ t u, typed (b || has_boolean (VArray vs)) u t) ts' us.
Proof.
  intros Hvs. revert us ts ts'. induction Hvs as [|v vs Hv _ IH]; intros us ts ts' Hf Hl Hp.
  - destruct ts; [|done]. inversion Hf; subst. by injection Hp as <-.
  - destruct Hf as [|t u ts us Ht Hf]; [done|]. destruct (parse v t) as [t'|e|] eqn:Ht'; [|done..]. cbn [outcome_bind] in Hp.
    match type of Hp with outcome_bind ?r _ = _ => destruct r as [us'|e|] eqn:Hu; [|done..] end. injection Hp as <-.
    cbn [has_boolean]. constructor.
    + eapply typed_mono; [|exact (Hv _ _ _ _ Ht Ht')]. rewrite !orb_true_iff. tauto.
    + eapply Forall2_impl; [eapply IH; [exact Hf|by injection Hl|done]|]. intros x y Hxy. eapply typed_mono; [|exact Hxy].
      cbn [has_boolean]. rewrite !orb_true_iff. tauto.
Qed.

(** A half of a 256-bit integer is one of 128 bits. *)
Lemma half_range fields key t n : Forall (λ f, parses_typed f.2) fields →
  (fix go fs := match fs with
   | [] => Panic
   | (k, v) :: fs => if String.eqb k key then parse v u128_schema else go fs
   end) fields = Ok t → unwrap_u128 (SE := SE) (PE := PE) t = Ok n → 0 ≤ n < 2 ^ 128.
Proof.
  intros Hf Hp Hn. assert (typed true u128_schema t) as Ht.
  { induction Hf as [|[k v] fields Hv _ IH]; [done|]. destruct (String.eqb k key); [|by apply IH].
    eapply typed_mono; [|eapply Hv; [apply (typed_refl true)|exact Hp]]. done. }
  destruct t as [p| | | | | |]; try done. cbn in Hn. destruct (prim_as_u128 p) as [m|] eqn:Hm; [|done]. injection Hn as ->.
  apply as_u128_spec in Hm as ->. destruct Ht as [[_ [b Hb]]|[_ Hok]]; [done|]. by apply Hok.
Qed.

Lemma parse_typed v : value_ok v → parses_typed v.
Proof.
  induction v as [fields IH|vs IH|x|x|n|n] using Value_ind'; intros Hok b s t t' Ht Hp; cbn [parse_value_to_ty] in Hp.
  - assert (Forall (λ f : string * Value, parses_typed f.2) fields) as Hf.
    { clear Hp. induction IH as [|[k v] fields Hv _ IHf]; [done|]. destruct Hok as [Hok1 Hok2]. constructor; [by apply Hv|by apply IHf]. }
    clear IH Hok. destruct t as [p|n children|n o os|ts|ts|ts l|x]; try done.
    + destruct p; try done.
      match type of Hp with outcome_bind ?r _ = _ => destruct r as [low|e|] eqn:Hlow; [|done..] end. cbn [outcome_bind] in Hp.
      match type of Hp with outcome_bind ?r _ = _ => destruct r as [high|e|] eqn:Hhigh; [|done..] end. cbn [outcome_bind] in Hp.
      destruct (unwrap_u128 low) as [l|e|] eqn:Hl; [|done..]. destruct (unwrap_u128 high) as [h|e|] eqn:Hh; [|done..].
      injection Hp as <-. pose proof (half_range fields _ _ _ Hf Hlow Hl). pose proof (half_range fields _ _ _ Hf Hhigh Hh).
      refine (typed_prim _ _ _ _ (typed_mono _ _ _ _ _ Ht) _ _ _); [by intros ->|done|done|].
      intros y [= <-]. unfold u256_of_halves. lia.
    + match type of Hp with outcome_bind ?r _ = _ => destruct r as [cs|e|] eqn:Hc; [|done..] end. injection Hp as <-.
      eapply fields_typed; [exact Hf|exact Ht|exact Hc].
    + destruct fields as [|[name v] fields]; [done|]. apply Forall_cons in Hf as [Hv _].
      match type of Hp with outcome_bind ?r _ = _ => destruct r as [os'|e|] eqn:Hc; [|done..] end. cbn [outcome_bind] in Hp.
      destruct (message_set_option os' name) as [i|] eqn:Hi; [|done]. injection Hp as <-.
      apply typed_enum in Ht as (o' & ss & -> & _ & Hos). apply typed_enum. exists o', ss.
      split; [done|]. apply set_option_named in Hi. apply lookup_lt_Some in Hi. rewrite length_fmap in Hi.
      split; [right; eauto|]. eapply options_typed; [exact Hv| | |exact Hos|exact Hc]; cbn [has_boolean snd]; rewrite !orb_true_iff; tauto.
  - assert (Forall parses_typed vs) as Hf.
    { clear Hp. induction IH as [|v vs Hv _ IHf]; [done|]. destruct Hok as [Hok1 Hok2]. constructor; [by apply Hv|by apply IHf]. }
    clear IH Hok. destruct t as [p|n children|n o os|ts|ts|ts l|x]; try done.
    + destruct (Nat.eqb_spec (length ts) (length vs)) as [Hl|Hl]; [|done].
      match type of Hp with outcome_bind ?r _ = _ => destruct r as [ts'|e|] eqn:Hc; [|done..] end. injection Hp as <-.
      apply typed_tuple in Ht as (us & -> & Hus). apply typed_tuple. exists us. split; [done|]. eapply tuple_typed; [exact Hf|exact Hus|exact Hl|exact Hc].
    + destruct ts as [|inner ts]; [done|].
      match type of Hp with outcome_bind ?r _ = _ => destruct r as [ts'|e|] eqn:Hc; [|done..] end. injection Hp as <-.
      apply typed_array_inner in Ht as (inner' & rest & -> & Hi). apply typed_array. exists (inner' :: rest).
      split; [done|]. right. exists inner', rest. split; [done|]. eapply elements_typed; [exact Hf|exact Hi|exact Hc].
  - injection Hp as <-. assert (typed true s (TyPrimitive (PrimBool (Some x) : Primitive))) as Hx by (left; split; [done|by exists x]).
    cbn [has_boolean]. by rewrite orb_true_r.
  - cbn [has_boolean]. rewrite orb_false_r. by eapply string_typed.
  - cbn [has_boolean]. rewrite orb_false_r. by eapply unsigned_typed.
  - cbn [has_boolean]. rewrite orb_false_r. by eapply signed_typed.
Qed.

(** A schema as it is registered: no option of an enum is selected. *)
Fixpoint schema_ok (s : Ty) : Prop :=
  match s with
  | TyStruct _ ms => (fix go ms := match ms with [] => True | (_, t, _) :: ms => schema_ok t ∧ go ms end) ms
  | TyEnum _ o os => o = None ∧ (fix go os := match os with [] => True | (_, t) :: os => schema_ok t ∧ go os end) os
  | TyTuple ts => (fix go ts := match ts with [] => True | t :: ts => schema_ok t ∧ go ts end) ts
  | _ => True
  end.
Lemma typed_fits s v : schema_ok s → typed false s v → ModelTable.fits s v.
Proof.
  revert s. induction v as [p|n vs IH|n o vs IH|vs IH|vs _|vs l _|x] using ModelTable.DTy_ind'; intros s Hs Ht.
  - destruct Ht as [[? _]|Ht]; [done|]. by destruct s.
  - apply typed_struct in Ht as (ms & -> & Hf). cbn in Hs |- *. assert (∀ m, m ∈ ms → m ∈ ms) as Hsub by done. revert Hsub.
    generalize ms at 2 3. intros all Hsub.
    induction Hf as [|[[x v] k] [[x' t] k'] vs ms (Hx & Hk & Ht) _ IHf]; [done|]. cbn in Hx, Ht. subst x'.
    apply Forall_cons in IH as [Hv IH]. destruct Hs as [Hs1 Hs2]. split.
    + exists t, k'. split; [apply Hsub; by left|]. by apply Hv.
    + apply IHf; [done..|]. intros m Hm. apply Hsub. by right.
  - apply typed_enum in Ht as (o' & os & -> & Ho & Hf). destruct Hs as [-> Hs]. cbn. split.
    + destruct Ho as [->|(i & -> & Hi)]; done.
    + clear Ho. induction Hf as [|[x v] [x' t] vs os (Hx & Ht) _ IHf]; [done|]. apply Forall_cons in IH as [Hv IH].
      destruct Hs as [Hs1 Hs2]. split_and!; [done|by apply Hv|by apply IHf].
  - apply typed_tuple in Ht as (ts & -> & Hf). cbn in Hs |- *. induction Hf as [|v t vs ts Ht _ IHf]; [done|].
    apply Forall_cons in IH as [Hv IH]. destruct Hs as [Hs1 Hs2]. split; [by apply Hv|by apply IHf].
  - by apply typed_array in Ht as (ts & -> & _).
  - destruct Ht as [[? _]|Ht]; [done|]. by destruct s.
  - destruct Ht as [[? _]|Ht]; [done|]. by destruct s.
Qed.

(** C40: a message fills the schema of its model and does not change it. The value parsed has
    the members, options and primitive types of the schema, at any depth, with integers in
    their range, but for the places that a boolean of the message has taken; without
    booleans it fits the table of the model. *)
Theorem parsed_message_typed v schema ty :
  value_ok v → parse v schema = Ok ty →
  typed (has_boolean v) schema ty ∧ (has_boolean v = false → schema_ok schema → ModelTable.fits schema ty).
Proof.
  intros Hok Hp. pose proof (parse_typed v Hok false schema schema ty (typed_refl _ _) Hp) as Ht. cbn [orb] in Ht.
  split; [done|]. intros Hb Hs. rewrite Hb in Ht. by apply typed_fits.
Qed.

(** An integer that does not fit is cut off without an error: what is stored is not what
    was signed. *)
Lemma number_truncated n : 0 ≤ n → parse (VUnsignedInteger (2 ^ 8 + n)) (TyPrimitive (PrimU8 None : Primitive)) =
  Ok (TyPrimitive (PrimU8 (Some (n mod 2 ^ 8)) : Primitive)).
Proof.
  intros Hn. cbn [parse_value_to_ty parse_unsigned]. unfold wrap_u. do 4 f_equal.
  rewrite <- (Z_mod_plus_full n 1 (2 ^ 8)). f_equal. lia.
Qed.
(** A 256-bit integer without its halves, or with a half that is a boolean, panics. *)
Lemma missing_half_panics old : parse (VObject []) (TyPrimitive (PrimU256 old : Primitive)) = Panic.
Proof. done. Qed.
Lemma boolean_half_panics b v old t : parse v u128_schema = Ok t →
  parse (VObject [("low", VBoolean b); ("high", v)]) (TyPrimitive (PrimU256 old : Primitive)) = Panic.
Proof.
  intros Hv. cbn [parse_value_to_ty String.eqb Ascii.eqb Bool.eqb]. cbn [outcome_bind]. rewrite Hv. cbn [outcome_bind unwrap_u128].
  destruct (prim_as_u128 (PrimBool (Some b))) as [n|] eqn:Hn; [|done]. by apply as_u128_spec in Hn.
Qed.
End parsed.

(** ** Who may write *)
Section service_lemmas.
Context `{SqlString.FeltFromStr} {DM : DojoMessage} {DV : DojoValues} {ME : MessageEnv} {S SE : Type} {MS : MessageStorage S SE}.
#[local] Abbreviation Ty := DTy.
#[local] Abbreviation Error := (MessagingError SE ProviderError).
Context (config : MessagingConfig).

(** What the value [ty] of a message has to satisfy for the entity to be written. *)
Record permitted (now_millis : Z) (world : Felt) (message : TypedMessage) (signature : list Felt) (s : S)
    (ty : Ty) (keys : list Felt) (model_id identity : Felt) : Prop := {
  permitted_value : ∃ selector schema, message_selector (primary_type message) = Some selector ∧
    ms_model world selector s = inr schema ∧
    parse_value_to_ty (SE := SE) (PE := ProviderError) (message_value message) schema = Ok ty;
  permitted_keys : ty_keys (SE := SE) ty = Ok keys;
  permitted_model : message_selector (ty_name ty) = Some model_id;
  (** neither from the future nor too old *)
  permitted_clock : ∀ t, get_timestamp_from_ty ty = Some t →
    t ≤ u64_add now_millis (future_tolerance config) ∧ Z.max 0 (now_millis - t) ≤ max_age config;
  permitted_required : require_timestamp config = true → is_Some (get_timestamp_from_ty ty);
  (** signed by the owner of the stored entity, or of the message when there is none, and
      newer than what is stored *)
  permitted_owner : ∃ stored, ms_entity_model world (poseidon_hash_many keys) model_id s = inr stored ∧
    get_identity_from_ty (SE := SE) (default ty stored) = Ok identity ∧
    (∀ m t, stored = Some m → get_timestamp_from_ty m = Some t → ∃ t', get_timestamp_from_ty ty = Some t' ∧ t < t');
  permitted_signed : ∃ hash r rest, message_hash message identity = Some hash ∧
    call_is_valid_signature identity (hash :: Z.of_nat (length signature) :: signature) = inr (r :: rest) ∧ r ≠ 0
}.
(** The write, and the identifier returned. *)
Definition write (now : Z) (world : Felt) (ty : Ty) (keys : list Felt) (model_id : Felt) : st S Error string :=
  set_entity world ty (default now (get_timestamp_from_ty ty)) (poseidon_hash_many keys) model_id keys ;;;
  st_ret (SqlString.format_world_scoped_id world (poseidon_hash_many keys)).

Lemma check_timestamp_Ok now ts : check_timestamp (SE := SE) config now ts = Ok tt ↔
  (∀ t, ts = Some t → t ≤ u64_add now (future_tolerance config) ∧ Z.max 0 (now - t) ≤ max_age config) ∧
  (require_timestamp config = true → is_Some ts).
Proof.
  unfold check_timestamp. destruct ts as [t|].
  - destruct (Z.ltb_spec (u64_add now (future_tolerance config)) t); cbn.
    { split; [done|]. intros [Hc _]. destruct (Hc t eq_refl). lia. }
    destruct (Z.ltb_spec (max_age config) (Z.max 0 (now - t))); cbn.
    { split; [done|]. intros [Hc _]. destruct (Hc t eq_refl). lia. }
    rewrite andb_false_r. split; [|done]. intros _. split; [|eauto]. by intros t' [= <-].
  - cbn. rewrite andb_true_r. destruct (require_timestamp config); split; try done.
    intros [_ Hr]. destruct (Hr eq_refl). done.
Qed.
Lemma check_entity_Ok ts stored : check_entity_timestamp (SE := SE) ts stored = Ok tt ↔
  ∀ t, stored = Some t → ∃ t', ts = Some t' ∧ t < t'.
Proof.
  unfold check_entity_timestamp. destruct stored as [t|]; [|by split].
  destruct ts as [t'|]; cbn.
  - destruct (Z.leb_spec t' t); split; try done.
    + intros Hc. destruct (Hc t eq_refl) as (x & [= <-] & Hx). lia.
    + intros _ x [= <-]. eauto.
  - split; [done|]. intros Hc. by destruct (Hc t eq_refl) as (x & ? & _).
Qed.
Lemma validate_signature_true identity message signature :
  validate_signature (SE := SE) identity message signature = Ok true ↔
  ∃ hash r rest, message_hash message identity = Some hash ∧
    call_is_valid_signature identity (hash :: Z.of_nat (length signature) :: signature) = inr (r :: rest) ∧ r ≠ 0.
Proof.
  unfold validate_signature. destruct (message_hash message identity) as [hash|]; cbn; [|split; [done|by intros (? & ? & ? & ? & _)]].
  destruct (call_is_valid_signature identity _) as [e|[|r rest]] eqn:Hc; cbn.
  - split; [done|]. intros (h & r & rest & [= <-] & Hr & _). congruence.
  - split; [done|]. intros (h & r & rest & [= <-] & Hr & _). congruence.
  - split.
    + intros [= Hr]. exists hash, r, rest. split_and!; [done..|]. apply negb_true_iff, Z.eqb_neq in Hr. done.
    + intros (h & r' & rest' & [= <-] & Hr & Hne). rewrite Hc in Hr. injection Hr as <- <-. f_equal. by apply negb_true_iff, Z.eqb_neq.
Qed.

#[local] Abbreviation run now_millis now world message signature :=
  (validate_and_set_entity (S := S) config now_millis now world message signature).

Lemma run_permitted now_millis now world message signature s ty keys model_id identity :
  permitted now_millis world message signature s ty keys model_id identity →
  run now_millis now world message signature s = write now world ty keys model_id s.
Proof.
  intros [(selector & schema & Hsel & Hschema & Hparse) Hkeys Hmodel Hclock Hreq (stored & Hread & Hid & Hts) Hsig].
  unfold validate_and_set_entity, st_bind, validate_message, st_lift, read_storage, keys_or_not_found, ty_model_id.
  rewrite Hsel. cbn [ok_or outcome_bind]. rewrite Hschema. cbn [outcome_bind]. rewrite Hparse, Hkeys, Hmodel. cbn [ok_or].
  rewrite (proj2 (check_timestamp_Ok _ _) (conj Hclock Hreq)), Hread, Hid.
  rewrite (proj2 (check_entity_Ok _ _)); [|destruct stored as [m|]; [intros t Ht; by eapply Hts|done]].
  by rewrite (proj2 (validate_signature_true _ _ _) Hsig).
Qed.

(** One step of a handler that only reads. *)
Lemma bind_reads {A B} (m : st S Error A) (k : A → st S Error B) s r s' :
  (m s).2 = s → st_bind m k s = (r, s') →
  (∃ a, (m s).1 = Ok a ∧ k a s = (r, s')) ∨ (s' = s ∧ ∀ b, r ≠ Ok b).
Proof.
  unfold st_bind. destruct (m s) as [[a|e|] s1]; cbn; intros ->; [eauto|..]; intros [= <- <-]; right; done.
Qed.
#[local] Tactic Notation "reads" hyp(Hrun) simple_intropattern(a) ident(Ha) :=
  apply bind_reads in Hrun as [(a & Ha & Hrun)|Hrefused]; [|by right|done]; cbn [st_lift fst] in Ha.

Lemma run_refused now_millis now world message signature s r s' :
  run now_millis now world message signature s = (r, s') →
  (∃ ty keys model_id identity, permitted now_millis world message signature s ty keys model_id identity) ∨
  (s' = s ∧ ∀ id, r ≠ Ok id).
Proof.
  intros Hrun. unfold validate_and_set_entity in Hrun.
  reads Hrun ty Hty. reads Hrun keys Hkeys. reads Hrun model_id Hmodel. reads Hrun [] Hclock.
  reads Hrun stored Hstored. reads Hrun identity Hid. reads Hrun [] Hts. reads Hrun valid Hvalid.
  destruct valid; [|right; by injection Hrun as <- <-]. left. exists ty, keys, model_id, identity.
  apply check_timestamp_Ok in Hclock as [Hclock Hreq]. split; [|..|done|done| |].
  - cbn in Hty. destruct (message_selector (primary_type message)) as [selector|]; [|done]. cbn in Hty.
    destruct (ms_model world selector s) as [e|schema] eqn:Hs; [done|]. exists selector, schema. done.
  - unfold keys_or_not_found in Hkeys. destruct (ty_keys ty); [by injection Hkeys as ->|done..].
  - unfold ty_model_id in Hmodel. destruct (message_selector (ty_name ty)); [by injection Hmodel as ->|done].
  - cbn in Hstored. destruct (ms_entity_model world _ model_id s) as [e|m]; [done|]. injection Hstored as ->.
    exists stored. split_and!; [done..|]. intros m t -> Hm. by apply (proj1 (check_entity_Ok _ _) Hts).
  - by apply validate_signature_true in Hvalid.
Qed.

Lemma run_unpermitted now_millis now world message signature s :
  (∀ ty keys model_id identity, ¬ permitted now_millis world message signature s ty keys model_id identity) →
  (run now_millis now world message signature s).2 = s.
Proof.
  intros Hno. destruct (run now_millis now world message signature s) as [r s'] eqn:Hrun.
  destruct (run_refused _ _ _ _ _ _ _ _ Hrun) as [(ty & keys & m & i & Hp)|[Hr _]]; [by destruct (Hno _ _ _ _ Hp)|done].
Qed.

(** C16: an entity is written for a message exactly when its owner signed it. If the message
    parses, is within the time allowed, newer than what is stored, and the account that owns
    the stored entity, or the one the message names when there is none, accepts the
    signature of its hash, then what happens is the write of that entity; in every other
    case the storage is as before and the result is not a success. *)
Theorem message_authorized now_millis now world message signature s :
  (∀ ty keys model_id identity, permitted now_millis world message signature s ty keys model_id identity →
     run now_millis now world message signature s = write now world ty keys model_id s) ∧
  ((∀ ty keys model_id identity, ¬ permitted now_millis world message signature s ty keys model_id identity) →
     (run now_millis now world message signature s).2 = s ∧
     ∀ id, (run now_millis now world message signature s).1 ≠ Ok id).
Proof.
  split; [intros; by eapply run_permitted|]. intros Hno.
  destruct (run now_millis now world message signature s) as [r s'] eqn:Hrun.
  destruct (run_refused _ _ _ _ _ _ _ _ Hrun) as [(ty & keys & m & i & Hp)|Hr]; [by destruct (Hno _ _ _ _ Hp)|done].
Qed.

(** ** No message twice *)
(** An accepted message: the entity it wrote and its timestamp. *)
Definition entity_key : Type := Felt * Felt * Felt.
(** The messages served one after the other, from the storage [s0]. *)
Inductive session (s0 : S) : list (entity_key * option Z) → S → Prop :=
| session_start : session s0 [] s0
| session_accept l s s' now_millis now world message signature ty keys model_id identity id :
    session s0 l s → permitted now_millis world message signature s ty keys model_id identity →
    run now_millis now world message signature s = (Ok id, s') →
    session s0 (l ++ [((world, poseidon_hash_many keys, model_id), get_timestamp_from_ty ty)]) s'
| session_refuse l s now_millis now world message signature :
    session s0 l s → (∀ ty keys model_id identity, ¬ permitted now_millis world message signature s ty keys model_id identity) →
    session s0 l (run now_millis now world message signature s).2.

Context {SPEC : MessageStorageSpec get_timestamp_from_ty MS}.

Lemma write_Ok now world ty keys model_id s id s' : write now world ty keys model_id s = (Ok id, s') →
  (∃ ty', ms_entity_model world (poseidon_hash_many keys) model_id s' = inr (Some ty') ∧
     get_timestamp_from_ty ty' = get_timestamp_from_ty ty) ∧
  (∀ world' entity' model', (world', entity', model') ≠ (world, poseidon_hash_many keys, model_id) →
     ms_entity_model world' entity' model' s' = ms_entity_model world' entity' model' s).
Proof.
  unfold write, set_entity, storage, st_bind, st_map_err.
  destruct (ms_set_entity _ _ _ _ _ _ _ s) as [[[]|e|] s1] eqn:H1; cbn; try done.
  destruct (ms_execute s1) as [[[]|e|] s2] eqn:H2; cbn; try done. intros [= <- <-].
  exact (written_read _ _ _ _ _ _ _ _ _ _ H1 H2).
Qed.

(** What is stored has the timestamp of the last message for the entity. *)
Lemma session_stored s0 l s : session s0 l s → ∀ k ts pre post,
  l = pre ++ (k, ts) :: post → k ∉ post.*1 →
  ∃ ty, ms_entity_model k.1.1 k.1.2 k.2 s = inr (Some ty) ∧ get_timestamp_from_ty ty = ts.
Proof.
  induction 1 as [|l s s' now_millis now world message signature ty keys model_id identity id Hs IH Hp Hrun
    |l s now_millis now world message signature Hs IH Hno]; intros k ts pre post Hl Hk.
  - by destruct pre.
  - rewrite (run_permitted _ _ _ _ _ _ _ _ _ _ Hp) in Hrun. apply write_Ok in Hrun as [Hread Hframe].
    destruct post as [|x post _] using rev_ind.
    + apply app_inj_tail in Hl as [-> [= <- <-]]. exact Hread.
    + rewrite app_comm_cons, (assoc (++)) in Hl. apply app_inj_tail in Hl as [-> <-].
      rewrite fmap_app, not_elem_of_app in Hk. destruct Hk as [Hk Hne]. cbn in Hne. apply not_elem_of_cons in Hne as [Hne _].
      destruct (IH k ts pre post eq_refl Hk) as (ty' & Hty' & Ht'). exists ty'. split; [|done].
      rewrite Hframe; [done|]. by destruct k as [[? ?] ?].
  - rewrite run_unpermitted by done. by eapply IH.
Qed.

Lemma last_occurrence {K V} `{EqDecision K} (l : list (K * V)) i k v : l !! i = Some (k, v) →
  ∃ pre v' post, l = pre ++ (k, v') :: post ∧ (k ∉ post.*1) ∧ ((i = length pre ∧ v = v') ∨ (i < length pre)%nat).
Proof.
  revert i v. induction l as [|[k' v'] l IH] using rev_ind; [done|]. intros i v Hi.
  destruct (decide (k' = k)) as [->|Hne].
  - exists l, v', []. split_and!; [done|by intros ?%elem_of_nil|]. apply lookup_app_Some in Hi as [Hi|[Hl Hi]].
    + right. by apply lookup_lt_Some in Hi.
    + destruct (i - length l)%nat eqn:He; [|done]. injection Hi as ->. left. split; [lia|done].
  - apply lookup_app_Some in Hi as [Hi|[Hl Hi]].
    + destruct (IH i v Hi) as (pre & v2 & post & -> & Hk & Hor). exists pre, v2, (post ++ [(k', v')]).
      split_and!; [by rewrite <- (assoc (++))| |done]. rewrite fmap_app, not_elem_of_app. split; [done|]. cbn. set_solver.
    + destruct (i - length l)%nat; [|done]. by injection Hi as ? _.
Qed.

End service_lemmas.

(** ** Witnesses *)
#[local] Existing Instance SqlString.hex_parser.
Definition demo_get (ms : list (string * DTy * bool)) (x : string) : option DTy :=
  match list_find (λ m, m.1.1 = x) ms with Some (_, m) => Some m.1.2 | None => None end.
Definition demo_message : DojoMessage := {|
  message_set_option os x := match list_find (λ o, o.1 = x) os with Some (i, _) => Some i | None => None end;
  member_serialize t := match t with TyPrimitive p => match (p : Prim) with PrimFelt252 (Some f) => Some [f] | _ => None end | _ => None end;
  prim_as_u128 p := match p with PrimU128 v => v | _ => None end;
  prim_as_u64 p := match p with PrimU64 v => v | _ => None end;
  prim_as_contract_address p := match p with PrimContractAddress v => v | _ => None end;
  struct_get := demo_get;
  message_selector _ := Some 9
|}.
#[local] Existing Instance demo_message.
Lemma digits_ok s l : SqlString.digits_of_string s = Some l → Forall SqlString.is_digit l.
Proof.
  revert l. induction s as [|c s IH]; intros l Hl; cbn in Hl; [by injection Hl as <-|].
  destruct (hex_val c) as [d|] eqn:Hd; [|done]. cbn in Hl. destruct (SqlString.digits_of_string s) as [l'|]; [|done]. injection Hl as <-.
  constructor; [|by apply IH]. unfold hex_val in Hd. unfold SqlString.is_digit.
  repeat match type of Hd with (if ?b then _ else _) = _ => destruct b eqn:?; [injection Hd as <-|] end; try done; lia.
Qed.
#[local] Instance demo_message_spec : DojoMessageSpec demo_message.
Proof.
  split.
  - intros os x i Hi. cbn in Hi. destruct (list_find _ os) as [[j o]|] eqn:Hf; [|done]. injection Hi as ->.
    apply list_find_Some in Hf as (Hj & Hx & _). by rewrite list_lookup_fmap, Hj, <- Hx.
  - intros p n. cbn. destruct p; split; try done; [by intros ->|by intros [= ->]].
  - intros p n. cbn. destruct p; split; try done; [by intros ->|by intros [= ->]].
  - intros p n. cbn. destruct p; split; try done; [by intros ->|by intros [= ->]].
  - intros text f Hf. cbn in Hf. destruct text as [|c1 [|c2 text]]; try done. case_decide; [|done].
    destruct (SqlString.digits_of_string text) as [l|] eqn:Hl; [|done]. cbn in Hf. case_decide as Hd; [|done]. injection Hf as <-.
    split; [|by apply Hd]. pose proof (SqlString.digits_value_bound l (digits_ok _ _ Hl)). lia.
Qed.

(** A note of a player, with an identity and a timestamp. *)
#[local] Instance demo_values : DojoValues := {|
  ty_name t := match t with TyStruct n _ => n | _ => EmptyString end;
  enum_selected _ _ _ := None; prim_partial_cmp _ _ := None; prim_as_u32 _ := None
|}.
Definition prim (p : Prim) : DTy := TyPrimitive (p : Primitive).
Definition note (id : option Felt) (identity : option Felt) (timestamp level : option Z) : DTy :=
  TyStruct "game-Note" [("id", prim (PrimFelt252 id), true); ("identity", prim (PrimContractAddress identity), false);
    ("timestamp", prim (PrimU64 timestamp), false); ("level", prim (PrimU8 level), false)].
Definition demo_note (t : string) : Value :=
  VObject [("id", VString "0x7"); ("identity", VString "0xa"); ("timestamp", VString t); ("level", VUnsignedInteger 3)].

Lemma parsed_message_typed_witness :
  parse_value_to_ty (SE := unit) (PE := unit) (demo_note "1000") (note None None None None) =
    Ok (note (Some 7) (Some 10) (Some 1000) (Some 3)) ∧
  ModelTable.fits (note None None None None) (note (Some 7) (Some 10) (Some 1000) (Some 3)).
Proof.
  assert (parse_value_to_ty (SE := unit) (PE := unit) (demo_note "1000") (note None None None None) =
    Ok (note (Some 7) (Some 10) (Some 1000) (Some 3))) as Hp by (vm_compute; reflexivity).
  split; [exact Hp|]. refine (proj2 (parsed_message_typed (demo_note "1000") _ _ _ Hp) _ _); [|reflexivity|].
  - vm_compute. repeat split; congruence.
  - vm_compute. repeat split.
Defined.

(** Entities in a map, and an account that signs with its own address. *)
Definition demo_storage : MessageStorage (gmap (Felt * Felt * Felt) DTy) unit := {|
  ms_model _ _ _ := inr (note None None None None);
  ms_entity_model w e m s := inr (s !! (w, e, m));
  ms_set_entity w ty _ _ e m _ := st_modify <[(w, e, m) := ty]>;
  ms_execute := st_ret tt;
  ms_error_text _ := "error"
|}.
Definition demo_env : MessageEnv := {|
  TypedMessage := Value; primary_type _ := "game-Note"; message_value v := v; message_hash _ a := Some a;
  poseidon_hash_many := foldr Z.add 0; ProviderError := unit;
  call_is_valid_signature a l := inr [if decide (l = [a; 1; a]) then 1 else 0];
  messaging_error_text _ _ := "error"
|}.
#[local] Existing Instances demo_storage demo_env.
#[local] Instance demo_storage_spec : MessageStorageSpec get_timestamp_from_ty demo_storage.
Proof.
  split. intros world ty event_id at_ entity model keys s s1 s2 [= <-] [= <-]. split.
  - exists ty. cbn. by rewrite lookup_insert_eq.
  - intros w e m Hne. cbn. by rewrite lookup_insert_ne by congruence.
Qed.
Definition demo_run (t : string) : st (gmap (Felt * Felt * Felt) DTy) (MessagingError unit unit) string :=
  validate_and_set_entity MessagingConfig_default 1000 1 5 (demo_note t : TypedMessage (MessageEnv := demo_env)) [10].
Lemma demo_permitted t n stored : parse_value_to_ty (SE := unit) (PE := unit) (demo_note t) (note None None None None) =
    Ok (note (Some 7) (Some 10) (Some n) (Some 3)) → 0 ≤ n ≤ 1000 →
  (∀ m, stored !! (5, 7, 9) = Some m → ∃ n0, m = note (Some 7) (Some 10) (Some n0) (Some 3) ∧ n0 < n) →
  permitted MessagingConfig_default 1000 5 (demo_note t : TypedMessage (MessageEnv := demo_env)) [10] stored
    (note (Some 7) (Some 10) (Some n) (Some 3)) [7] 9 10.
Proof.
  intros Hp Hn Hs. split.
  - exists 9, (note None None None None). split_and!; [done|done|exact Hp].
  - done.
  - done.
  - intros x [= <-]. vm_compute max_age. unfold u64_add, u64_wrap. cbn [future_tolerance MessagingConfig_default].
    rewrite Z.mod_small by lia. lia.
  - done.
  - exists (stored !! (5, 7, 9)). split; [done|]. destruct (stored !! (5, 7, 9)) as [m|] eqn:Hm.
    + destruct (Hs m eq_refl) as (n0 & -> & Hlt). split; [done|]. intros m' x [= <-] [= <-]. by exists n.
    + split; [done|]. by intros.
  - exists 10, 1, []. split_and!; [done|reflexivity|done].
Qed.

End Messaging.
