(* ===== verification/TypedData.v ===== *)
(** * Typed data ([crates/typed-data])

    The typed data of SNIP-12 as clients build and sign it: a value of the types a message
    declares ([PrimitiveType]), the text and the hash of types and values ([encode_type],
    [encode]), the typed data of a model ([from_model]), and the way back from the values
    to the model ([parse_value_to_ty]).

    The hashes, short strings and selectors of the starknet crates, the numbers of
    [serde_json] and the options of dojo enums are parameters. An [IndexMap] is the list
    of its entries in their order. *)

From S2P Require Import Prelude Proto SqlString Executor ModelTable Wire Messages Aggregator Matching Messaging.
From stdpp Require Import pretty sorting.
From Stdlib Require Import Ascii.
Local Open Scope Z_scope.
Local Open Scope torii_scope.

(** [serde_json::Number] *)
Class JsonNumber : Type := {
  Number : Type;
  number_text : Number → string;
  number_as_i64 : Number → option Z;
  number_as_u64 : Number → option Z;
  (** [Number::from], of an integer of at most 64 bits *)
  number_from_int : Z → Number
}.

(** The starknet crates. *)
Class TypedDataEnv : Type := {
  felt_poseidon : list Felt → Felt;
  (** [get_selector_from_name], [cairo_short_string_to_felt] *)
  selector_from_name : string → option Felt;
  short_string_to_felt : string → option Felt;
  (** [ByteArray::from_string]: the words, the pending word and its length *)
  byte_array_from_string : string → option (list Felt * Felt * Z);
  (** [Felt::to_string] *)
  felt_to_string : Felt → string;
  (** [str::to_lowercase] *)
  str_to_lowercase : string → string
}.

(** The messages of errors that other libraries word are left out. *)
Inductive TypedDataError : Type :=
| TInvalidType (what : string)
| TTypeNotFound (name : string)
| TInvalidEnum (what : string)
| TInvalidValue (what : string)
| TInvalidDomain (what : string)
| TCryptoError
| TParseError (what : string)
| TFieldNotFound (what : string).

Inductive Field : Type :=
| ParentType (name type contains : string)
| SimpleType (name type : string).

#[local] Set Warnings "-register-all".
Inductive PrimitiveType `{JsonNumber} : Type :=
| PObject (fields : list (string * PrimitiveType))
| PArray (elements : list PrimitiveType)
| PBool (b : bool)
| PString (s : string)
| PNumber (n : Number).

Module TypedData.
Import Msg.
Abbreviation Types := (list (string * list Field)).

(** [IndexMap::get], [insert]: an entry that is there keeps its place *)
Fixpoint im_get {V} (k : string) (m : list (string * V)) : option V :=
  match m with [] => None | (x, v) :: m => if String.eqb x k then Some v else im_get k m end.
Fixpoint im_insert {V} (k : string) (v : V) (m : list (string * V)) : list (string * V) :=
  match m with [] => [(k, v)] | (x, w) :: m => if String.eqb x k then (x, v) :: m else (x, w) :: im_insert k v m end.
Definition im_contains {V} (k : string) (m : list (string * V)) : bool := match im_get k m with Some _ => true | None => false end.

(** ** Types *)
Definition get_preset_types : Types :=
  im_insert "u256" [SimpleType "low" "u128"; SimpleType "high" "u128"] (
  im_insert "NftId" [SimpleType "collection_address" "ContractAddress"; SimpleType "token_id" "u256"] (
  im_insert "TokenAmount" [SimpleType "token_address" "ContractAddress"; SimpleType "amount" "u256"] [])).

Definition get_fields (name : string) (types : Types) : outcome TypedDataError (list Field) :=
  ok_or (TTypeNotFound name) (im_get name types).

(** [s.trim_end_matches(c)] *)
Fixpoint trim_end_char (c : ascii) (s : string) : string :=
  match s with
  | EmptyString => EmptyString
  | String a s =>
      match trim_end_char c s with
      | EmptyString => if Ascii.eqb a c then EmptyString else String a EmptyString
      | s => String a s
      end
  end.
Fixpoint trim_start_char (c : ascii) (s : string) : string :=
  match s with String a s' => if Ascii.eqb a c then trim_start_char c s' else s | EmptyString => EmptyString end.
Definition star : ascii := ascii_of_nat 42.
Definition open_paren : ascii := ascii_of_nat 40.
Definition close_paren : ascii := ascii_of_nat 41.
Definition comma : ascii := ascii_of_nat 44.

(** The type a field refers to. *)
Definition field_type (f : Field) : string :=
  trim_end_char star (match f with SimpleType _ t => t | ParentType _ _ contains => contains end).

(** The recursion ends when every type is a dependency; [fuel] bounds its depth, and is
    [None] when it is not enough. *)
Fixpoint get_dependencies (fuel : nat) (name : string) (types : Types) (dependencies : list string)
  : option (outcome TypedDataError (list string)) :=
  match fuel with
  | O => None
  | S fuel =>
      if bool_decide (name ∈ dependencies) then Some (Ok dependencies)
      else
        let dependencies := dependencies ++ [name] in
        match get_fields name types with
        | Ok fields =>
            (fix go fs dependencies := match fs with
             | [] => Some (Ok dependencies)
             | f :: fs =>
                 if im_contains (field_type f) types && negb (bool_decide (field_type f ∈ dependencies)) then
                   match get_dependencies fuel (field_type f) types dependencies with
                   | Some (Ok dependencies) => go fs dependencies
                   | r => r
                   end
                 else go fs dependencies
             end) fields dependencies
        | Err e => Some (Err e)
        | Panic => Some Panic
        end
  end.

Section types.
Context {TE : TypedDataEnv}.
(** [sort_by_key(|dep| dep.to_lowercase())], which is stable *)
Fixpoint insert_by_key (x : string) (l : list string) : list string :=
  match l with
  | [] => [x]
  | y :: l => if String.leb (str_to_lowercase x) (str_to_lowercase y) then x :: y :: l else y :: insert_by_key x l
  end.
Definition sort_by_lowercase (l : list string) : list string := foldr insert_by_key [] l.

(** [s.starts_with('(') && s.ends_with(')')], and what is between *)
Definition last_char (s : string) : option ascii := String.get (String.length s - 1) s.
Definition is_tuple_type (t : string) : bool :=
  match t with
  | String a _ => Ascii.eqb a open_paren && match last_char t with Some b => Ascii.eqb b close_paren | None => false end
  | EmptyString => false
  end.
(** [t[1..t.len() - 1]], which panics for the text of one parenthesis; that is not a tuple type *)
Definition inner_text (t : string) : string := String.substring 1 (String.length t - 2) t.

Definition quote : string := String (ascii_of_nat 34) EmptyString.
Definition quoted (s : string) : string := quote +:+ s +:+ quote.
Definition field_text (f : Field) : string :=
  match f with
  | SimpleType name t =>
      if is_tuple_type t then
        quoted name +:+ ":(" +:+
        SqlString.join "," ((λ t, if String.eqb t EmptyString then t else quoted t) <$> SqlString.split comma (inner_text t)) +:+ ")"
      else quoted name +:+ ":" +:+ quoted t
  | ParentType name _ contains => quoted name +:+ ":" +:+ quoted contains
  end.
Definition type_text (types : Types) (dep : string) : outcome TypedDataError string :=
  let? fields := get_fields dep types in
  Ok (quoted dep +:+ "(" +:+ SqlString.join "," (field_text <$> fields) +:+ ")").

(** The fuel is never used up ([dependencies_exact]). *)
Definition encode_type (name : string) (types : Types) : outcome TypedDataError string :=
  let? dependencies := default Panic (get_dependencies (S (length types)) name types []) in
  let? texts := outcome_mapM (type_text types) (sort_by_lowercase dependencies) in
  Ok (SqlString.join EmptyString texts).
End types.

(** ** Values *)
Record Ctx : Type := mkCtx { base_type : string; parent_type : string; is_preset : bool }.
Definition default_ctx : Ctx := mkCtx EmptyString EmptyString false.
Record FieldInfo : Type := mkFieldInfo { fi_type : string; fi_base_type : string; fi_index : nat }.

(** The first type or field of the name, in the order of the types. *)
Fixpoint field_info (name : string) (idx : nat) (fields : list Field) : option FieldInfo :=
  match fields with
  | [] => None
  | SimpleType n t :: fields => if String.eqb n name then Some (mkFieldInfo t EmptyString idx) else field_info name (S idx) fields
  | ParentType n t contains :: fields =>
      if String.eqb n name then Some (mkFieldInfo contains t idx) else field_info name (S idx) fields
  end.
Fixpoint type_info (name : string) (idx : nat) (types : Types) : option FieldInfo :=
  match types with
  | [] => None
  | (key, value) :: types =>
      if String.eqb key name then Some (mkFieldInfo key EmptyString idx)
      else match field_info name 0 value with Some i => Some i | None => type_info name (S idx) types end
  end.
Definition get_value_type (name : string) (types : Types) : outcome TypedDataError FieldInfo :=
  ok_or (TFieldNotFound name) (type_info name 0 types).

Section encode.
Context `{SqlString.FeltFromStr} {JN : JsonNumber} {TE : TypedDataEnv}.

Definition get_hex (value : string) : outcome TypedDataError Felt :=
  match SqlString.felt_from_str value with
  | Some f => Ok f
  | None => ok_or (TParseError "Invalid shortstring for felt") (short_string_to_felt value)
  end.

Definition encode_string (s type : string) : outcome TypedDataError Felt :=
  if String.eqb type "string" then
    let? (data, pending_word, pending_word_len) := ok_or (TParseError "Invalid string for bytearray") (byte_array_from_string s) in
    Ok (felt_poseidon ([Z.of_nat (length data)] ++ data ++ [pending_word; pending_word_len]))
  else if String.eqb type "selector" then ok_or (TParseError "Invalid selector") (selector_from_name s)
  else if bool_decide (type ∈ ["shortstring"; "felt"; "ContractAddress"; "ClassHash"; "timestamp"; "u128"; "i128"]) then get_hex s
  else Err (TInvalidType ("Invalid type " +:+ type +:+ " for string")).

(** The context is threaded through, as the source changes it in place. *)
Fixpoint encode (value : PrimitiveType) (type : string) (types preset_types : Types) (ctx : Ctx) {struct value}
  : outcome TypedDataError (Felt * Ctx) :=
  match value with
  | PObject obj =>
      let ctx := mkCtx (base_type ctx) (parent_type ctx) (im_contains type preset_types) in
      if String.eqb (base_type ctx) "enum" then
        match obj with
        | [] => Err (TInvalidEnum "Enum value must be populated")
        | (variant_name, v) :: _ =>
            let? variant_type := get_value_type variant_name types in
            let? (hashes, ctx) :=
              match v with
              | PArray arr =>
                  let params := SqlString.split comma (trim_end_char close_paren (trim_start_char open_paren (fi_type variant_type))) in
                  (fix go idx arr ctx {struct arr} := match arr with
                   | [] => Ok ([], ctx)
                   | param :: arr =>
                       let? field_type := ok_or (TInvalidEnum "Invalid enum variant type") (params !! idx) in
                       let? (h, ctx) := encode param field_type types preset_types ctx in
                       let? (hs, ctx) := go (S idx) arr ctx in Ok (h :: hs, ctx)
                   end) 0%nat arr ctx
              | _ => let? (h, ctx) := encode v (fi_type variant_type) types preset_types ctx in Ok ([h], ctx)
              end in
            Ok (felt_poseidon (Z.of_nat (fi_index variant_type) :: hashes), ctx)
        end
      else
        let? type_hash := encode_type type (if is_preset ctx then preset_types else types) in
        let? type_hash := ok_or (TParseError ("Invalid type " +:+ type +:+ " for selector")) (selector_from_name type_hash) in
        let? (hashes, ctx) := (fix go obj ctx := match obj with
          | [] => Ok ([], ctx)
          | (field_name, v) :: obj =>
              let preset := im_contains type preset_types in
              let? field_type := get_value_type field_name (if preset then preset_types else types) in
              let ctx := mkCtx (fi_base_type field_type) type preset in
              let? (h, ctx) := encode v (fi_type field_type) types preset_types ctx in
              let? (hs, ctx) := go obj ctx in Ok (h :: hs, ctx)
          end) obj ctx in
        Ok (felt_poseidon (type_hash :: hashes), ctx)
  | PArray array =>
      if is_tuple_type type then
        let inner_types := str_trim <$> SqlString.split comma (inner_text type) in
        if (length inner_types =? length array)%nat then
          let? (hashes, ctx) := (fix go idx array ctx {struct array} := match array with
            | [] => Ok ([], ctx)
            | v :: array =>
                let? inner := unwrap (inner_types !! idx) in
                let? (h, ctx) := encode v inner types preset_types ctx in
                let? (hs, ctx) := go (S idx) array ctx in Ok (h :: hs, ctx)
            end) 0%nat array ctx in
          Ok (felt_poseidon hashes, ctx)
        else Err (TInvalidValue "Tuple length mismatch")
      else
        let? (hashes, ctx) := (fix go array ctx {struct array} := match array with
          | [] => Ok ([], ctx)
          | v :: array =>
              let? (h, ctx) := encode v (trim_end_char star type) types preset_types ctx in
              let? (hs, ctx) := go array ctx in Ok (h :: hs, ctx)
          end) array ctx in
        Ok (felt_poseidon hashes, ctx)
  | PBool b => Ok (if b then 1 else 0, ctx)
  | PString s => let? h := encode_string s type in Ok (h, ctx)
  | PNumber n => let? h := ok_or (TParseError ("Invalid number " +:+ number_text n)) (SqlString.felt_from_str (number_text n)) in Ok (h, ctx)
  end.

(** ** Domains *)
Record Domain : Type := mkDomain { domain_name : string; domain_version : string; domain_chain_id : string; domain_revision : option string }.
Definition domain_encode (domain : Domain) (types : Types) : outcome TypedDataError Felt :=
  if String.eqb (default "1" (domain_revision domain)) "1" then
    let object := [("name", PString (domain_name domain)); ("version", PString (domain_version domain));
                   ("chainId", PString (domain_chain_id domain))] ++
                  match domain_revision domain with Some revision => [("revision", PString revision)] | None => [] end in
    let? (h, _) := encode (PObject object) "StarknetDomain" types [] default_ctx in Ok h
  else Err (TInvalidDomain "Legacy revision 0 is not supported").
End encode.

(** ** From values to models *)
(** [Display for Error] *)
Definition error_text (e : TypedDataError) : string :=
  match e with
  | TInvalidType what => "Invalid type: " +:+ what
  | TTypeNotFound name => "Type not found: " +:+ name
  | TInvalidEnum what => "Invalid enum: " +:+ what
  | TInvalidValue what => "Invalid value: " +:+ what
  | TInvalidDomain what => "Invalid domain: " +:+ what
  | TCryptoError => "Crypto error: "
  | TParseError what => "Parse error: " +:+ what
  | TFieldNotFound what => "Field not found: " +:+ what
  end.

Section parsing.
Context `{SqlString.FeltFromStr} {JN : JsonNumber} {DM : DojoMessage} {DV : DojoValues} {TE : TypedDataEnv}.
#[local] Abbreviation Ty := DTy.

Definition invalid_type {A} (what : string) (ty : Ty) : outcome TypedDataError A :=
  Err (TInvalidType ("Invalid " +:+ what +:+ " type for " +:+ ty_name ty)).

(** The first member of the name is replaced. *)
Fixpoint parse_member (parse : Ty → outcome TypedDataError Ty) (key : string) (children : list (string * Ty * bool))
  : outcome TypedDataError (list (string * Ty * bool)) :=
  match children with
  | [] => Err (TFieldNotFound ("Member " +:+ key +:+ " not found"))
  | (x, t, k) :: children =>
      if String.eqb x key then let? t := parse t in Ok ((x, t, k) :: children)
      else let? children := parse_member parse key children in Ok ((x, t, k) :: children)
  end.

(** [PrimitiveType::Number] *)
Definition parse_number (number : Number) (ty : Ty) : outcome TypedDataError Ty :=
  let int (c : option Z → Prim) (cast : Z → Z) (o : option Z) :=
    let? n := ok_or (TParseError "Number out of range") o in Ok (TyPrimitive (c (Some (cast n)) : Primitive)) in
  match ty with
  | TyPrimitive p =>
      match (p : Prim) with
      | PrimI8 _ => int PrimI8 (wrap_i 8) (number_as_i64 number)
      | PrimI16 _ => int PrimI16 (wrap_i 16) (number_as_i64 number)
      | PrimI32 _ => int PrimI32 (wrap_i 32) (number_as_i64 number)
      | PrimI64 _ => int PrimI64 id (number_as_i64 number)
      | PrimU8 _ => int PrimU8 (wrap_u 8) (number_as_u64 number)
      | PrimU16 _ => int PrimU16 (wrap_u 16) (number_as_u64 number)
      | PrimU32 _ => int PrimU32 (wrap_u 32) (number_as_u64 number)
      | PrimU64 _ => int PrimU64 id (number_as_u64 number)
      | _ => invalid_type "number" ty
      end
  | _ => invalid_type "number" ty
  end.
(** [bool::from_str] *)
Definition bool_from_str (s : string) : option bool :=
  if String.eqb s "true" then Some true else if String.eqb s "false" then Some false else None.
(** [PrimitiveType::String] *)
Definition parse_string (s : string) (ty : Ty) : outcome TypedDataError Ty :=
  let int (c : option Z → Prim) (o : option Z) :=
    let? n := ok_or (TParseError "Failed to parse number: ") o in Ok (TyPrimitive (c (Some n) : Primitive)) in
  let felt (c : option Felt → Prim) (what : string) :=
    let? f := ok_or (TParseError ("Failed to parse " +:+ what +:+ ": ")) (SqlString.felt_from_str s) in
    Ok (TyPrimitive (c (Some f) : Primitive)) in
  match ty with
  | TyPrimitive p =>
      match (p : Prim) with
      | PrimI8 _ => int PrimI8 (Messaging.from_str_i 8 s)
      | PrimI16 _ => int PrimI16 (Messaging.from_str_i 16 s)
      | PrimI32 _ => int PrimI32 (Messaging.from_str_i 32 s)
      | PrimI64 _ => int PrimI64 (Messaging.from_str_i 64 s)
      | PrimI128 _ => int PrimI128 (Messaging.from_str_i 128 s)
      | PrimU8 _ => int PrimU8 (Messaging.from_str_u 8 s)
      | PrimU16 _ => int PrimU16 (Messaging.from_str_u 16 s)
      | PrimU32 _ => int PrimU32 (Messaging.from_str_u 32 s)
      | PrimU64 _ => int PrimU64 (Messaging.from_str_u 64 s)
      | PrimU128 _ => int PrimU128 (Messaging.from_str_u 128 s)
      | PrimFelt252 _ => felt PrimFelt252 "felt"
      | PrimClassHash _ => felt PrimClassHash "class hash"
      | PrimContractAddress _ => felt PrimContractAddress "contract address"
      | PrimEthAddress _ => felt PrimEthAddress "eth address"
      | PrimBool _ =>
          let? b := ok_or (TParseError "Failed to parse bool: ") (bool_from_str s) in Ok (TyPrimitive (PrimBool (Some b) : Primitive))
      | _ => Err (TInvalidType "Invalid primitive type")
      end
  | TyByteArray _ => Ok (TyByteArray s)
  | _ => invalid_type "string" ty
  end.

(** [ty.as_primitive().unwrap().as_u128().unwrap()] *)
Definition unwrap_u128 (ty : Ty) : outcome TypedDataError Z :=
  match ty with TyPrimitive p => unwrap (prim_as_u128 p) | _ => Panic end.
Definition enum_error {A} (r : outcome TypedDataError A) : outcome TypedDataError A :=
  match r with Err e => Err (TInvalidEnum ("Failed to parse enum option: " +:+ error_text e)) | r => r end.

Fixpoint parse_value_to_ty (value : PrimitiveType) (ty : Ty) {struct value} : outcome TypedDataError Ty :=
  match value with
  | PObject object =>
      match ty with
      | TyStruct n children =>
          let? children := (fix go fs children := match fs with
            | [] => Ok children
            | (key, v) :: fs => let? children := parse_member (parse_value_to_ty v) key children in go fs children
            end) object children in
          Ok (TyStruct n children)
      | TyPrimitive p =>
          match (p : Prim) with
          | PrimU256 _ =>
              let half key := (fix go fs := match fs with
                | [] => Panic
                | (k, v) :: fs => if String.eqb k key then parse_value_to_ty v Messaging.u128_schema else go fs
                end) object in
              let? low := half "low" in
              let? high := half "high" in
              let? low := unwrap_u128 low in
              let? high := unwrap_u128 high in
              Ok (TyPrimitive (PrimU256 (Some (Messaging.u256_of_halves high low)) : Primitive))
          | _ => invalid_type "object" ty
          end
      | TyEnum n _ options =>
          match object with
          | [] => Err (TInvalidEnum "Enum variant not found")
          | (option_name, v) :: _ =>
              let? options := enum_error ((fix go os := match os with
                | [] => Ok []
                | (x, t) :: os =>
                    let? t := if String.eqb x option_name then parse_value_to_ty v t else Ok t in
                    let? os := go os in Ok ((x, t) :: os)
                end) options) in
              let? i := ok_or (TInvalidEnum "Failed to set enum option: ") (message_set_option options option_name) in
              Ok (TyEnum n (Some i) options)
          end
      | _ => invalid_type "object" ty
      end
  | PArray values =>
      match ty with
      | TyArray ts =>
          match ts with
          | [] => Panic
          | inner :: _ =>
              let? ts := (fix go vs := match vs with
                | [] => Ok []
                | v :: vs => let? t := parse_value_to_ty v inner in let? ts := go vs in Ok (t :: ts)
                end) values in
              Ok (TyArray ts)
          end
      | TyTuple ts =>
          if (length ts =? length values)%nat then
            let? ts := (fix go vs ts {struct vs} := match vs, ts with
              | v :: vs, t :: ts => let? t := parse_value_to_ty v t in let? ts := go vs ts in Ok (t :: ts)
              | _, _ => Ok []
              end) values ts in
            Ok (TyTuple ts)
          else Err (TInvalidValue "Tuple length mismatch")
      | _ => invalid_type "array" ty
      end
  | PNumber number => parse_number number ty
  | PBool boolean => Ok (TyPrimitive (PrimBool (Some boolean) : Primitive))
  | PString s => parse_string s ty
  end.

(** ** From models to values *)
(** [to_string] of an integer *)
Definition int_value (n : Z) : PrimitiveType := PString (pretty n).
Definition prim_value (p : Prim) : PrimitiveType :=
  match p with
  | PrimBool b => PBool (default false b)
  | PrimI8 n | PrimI16 n | PrimI32 n | PrimU8 n | PrimU16 n | PrimU32 n => PNumber (number_from_int (default 0 n))
  | PrimI64 n | PrimI128 n | PrimU64 n | PrimU128 n => int_value (default 0 n)
  | PrimFelt252 f | PrimClassHash f | PrimContractAddress f | PrimEthAddress f => PString (felt_to_string (default 0 f))
  | PrimU256 u256 =>
      let n := default 0 u256 in
      PObject (im_insert "low" (int_value (n mod 2 ^ 128)) (im_insert "high" (int_value (n / 2 ^ 128)) []))
  end.
Fixpoint map_ty_to_primitive (ty : Ty) : outcome TypedDataError PrimitiveType :=
  match ty with
  | TyStruct _ children =>
      let? object := (fix go children object := match children with
        | [] => Ok object
        | (x, t, _) :: children => let? v := map_ty_to_primitive t in go children (im_insert x v object)
        end) children [] in
      Ok (PObject object)
  | TyEnum _ o options =>
      let? i := ok_or (TInvalidEnum "Enum option not found") o in
      let? (x, v) := (fix go i os {struct os} := match os, i with
        | [], _ => Err (TInvalidEnum "Enum option not found")
        | (x, t) :: _, O => let? v := map_ty_to_primitive t in Ok (x, v)
        | _ :: os, S i => go i os
        end) i options in
      Ok (PObject (im_insert x v []))
  | TyArray ts | TyFixedSizeArray ts _ | TyTuple ts =>
      let? vs := (fix go ts := match ts with
        | [] => Ok []
        | t :: ts => let? v := map_ty_to_primitive t in let? vs := go ts in Ok (v :: vs)
        end) ts in
      Ok (PArray vs)
  | TyPrimitive p => Ok (prim_value p)
  | TyByteArray s => Ok (PString s)
  end.

(** ** The types of a model *)
Definition prim_type (p : Prim) : string :=
  match p with
  | PrimI8 _ | PrimI16 _ | PrimI32 _ | PrimI64 _ | PrimI128 _ => "i128"
  | PrimU8 _ | PrimU16 _ | PrimU32 _ | PrimU64 _ | PrimU128 _ => "u128"
  | PrimU256 _ => "u256"
  | PrimBool _ => "bool"
  | PrimFelt252 _ => "felt"
  | PrimClassHash _ => "ClassHash"
  | PrimContractAddress _ => "ContractAddress"
  | PrimEthAddress _ => "EthAddress"
  end.
Definition own_type (f : Field) : string := match f with SimpleType _ t => t | ParentType _ t _ => t end.
(** The types are changed in place. *)
Fixpoint map_ty_type (types : Types) (name : string) (ty : Ty) {struct ty} : Types * Field :=
  match ty with
  | TyPrimitive p => (types, SimpleType name (prim_type p))
  | TyFixedSizeArray ts _ | TyArray ts =>
      match ts with
      | inner :: _ => let (types, f) := map_ty_type types "inner" inner in (types, SimpleType name (own_type f +:+ "*"))
      | [] => (types, SimpleType name "felt")
      end
  | TyStruct n children =>
      let (types, fields) := (fix go types children := match children with
        | [] => (types, [])
        | (x, t, _) :: children =>
            let (types, f) := map_ty_type types x t in
            let (types, fs) := go types children in (types, f :: fs)
        end) types children in
      (im_insert n fields types, SimpleType name n)
  | TyEnum n _ options =>
      let (types, fields) := (fix go types os := match os with
        | [] => (types, [])
        | (x, t) :: os =>
            let (types, f) := map_ty_type types x t in
            let (types, fs) := go types os in (types, f :: fs)
        end) types options in
      (im_insert n fields types, ParentType name "enum" n)
  | TyTuple ts =>
      let (types, inner) := (fix go types ts := match ts with
        | [] => (types, [])
        | t :: ts =>
            let (types, f) := map_ty_type types "inner" t in
            let (types, fs) := go types ts in (types, own_type f :: fs)
        end) types ts in
      (types, SimpleType name ("(" +:+ SqlString.join "," inner +:+ ")"))
  | TyByteArray _ => (types, SimpleType name "string")
  end.

(** ** Typed data *)
Record TypedMessageData : Type := mkTypedData {
  td_types : Types; td_primary_type : string; td_domain : Domain; td_message : list (string * PrimitiveType)
}.
Definition domain_types : Types :=
  [("StarknetDomain", [SimpleType "name" "shortstring"; SimpleType "version" "shortstring";
                       SimpleType "chainId" "shortstring"; SimpleType "revision" "shortstring"])].
(** The loop over the members of the model. *)
Fixpoint model_members (types : Types) (values : list (string * PrimitiveType)) (fields : list Field)
    (children : list (string * Ty * bool)) : outcome TypedDataError (Types * list (string * PrimitiveType) * list Field) :=
  match children with
  | [] => Ok (types, values, fields)
  | (x, t, _) :: children =>
      let (types, f) := map_ty_type types x t in
      let? v := map_ty_to_primitive t in
      model_members types (im_insert x v values) (fields ++ [f]) children
  end.
Definition from_model (model : Ty) (domain : Domain) : outcome TypedDataError TypedMessageData :=
  match model with
  | TyStruct n children =>
      let? (types, values, fields) := model_members domain_types [] [] children in
      Ok (mkTypedData (im_insert n fields types) n domain values)
  | _ => Panic
  end.
Definition typed_data_encode (data : TypedMessageData) (account : Felt) : outcome TypedDataError Felt :=
  let? prefix_message := ok_or TCryptoError (short_string_to_felt "StarkNet Message") in
  let? domain_hash := domain_encode (td_domain data) (td_types data) in
  let? (message_hash, _) := encode (PObject (td_message data)) (td_primary_type data) (td_types data) get_preset_types default_ctx in
  Ok (felt_poseidon [prefix_message; domain_hash; account; message_hash]).
End parsing.

(** ** Values read back *)
(** The numbers of [serde_json] hold the integers they are made of, a felt is read from its
    text, and an option of an enum is found by its name. *)
Class TypedDataSpec `{SqlString.FeltFromStr} (JN : JsonNumber) (DM : DojoMessage) (TE : TypedDataEnv) : Prop := {
  as_i64_from n : - 2 ^ 63 ≤ n < 2 ^ 63 → number_as_i64 (number_from_int n) = Some n;
  as_u64_from n : 0 ≤ n < 2 ^ 64 → number_as_u64 (number_from_int n) = Some n;
  felt_text_read f : SqlString.felt_ok f → SqlString.felt_from_str (felt_to_string f) = Some f;
  set_option_known os x : x ∈ os.*1 → is_Some (message_set_option os x)
}.

(** [value_of s v]: [v] is a value of the schema [s], without arrays of a fixed size. The
    options of an enum that are not selected are those of the schema. *)
Inductive value_of : DTy → DTy → Prop :=
| value_prim (q p : Prim) : Messaging.same_kind p q → prim_ok p → value_of (TyPrimitive (q : Primitive)) (TyPrimitive (p : Primitive))
| value_bytes a b : value_of (TyByteArray a) (TyByteArray b)
| value_struct n ms vs : NoDup (vs.*1.*1) →
    Forall2 (λ m v : string * DTy * bool, m.1.1 = v.1.1 ∧ m.2 = v.2 ∧ value_of m.1.2 v.1.2) ms vs →
    value_of (TyStruct n ms) (TyStruct n vs)
| value_tuple ts vs : Forall2 value_of ts vs → value_of (TyTuple ts) (TyTuple vs)
| value_array inner rest vs : Forall (value_of inner) vs → value_of (TyArray (inner :: rest)) (TyArray vs)
| value_enum n o x t v pre post : NoDup ((pre ++ (x, v) :: post).*1) → value_of t v →
    value_of (TyEnum n o (pre ++ (x, t) :: post)) (TyEnum n (Some (length pre)) (pre ++ (x, v) :: post)).

(** What is read back: a value that is missing is zero. *)
Fixpoint zeroed (v : DTy) : DTy :=
  match v with
  | TyPrimitive p => TyPrimitive (prim_filled p : Primitive)
  | TyStruct n vs => TyStruct n ((λ m, (m.1.1, zeroed m.1.2, m.2)) <$> vs)
  | TyTuple vs => TyTuple (zeroed <$> vs)
  | TyArray vs => TyArray (zeroed <$> vs)
  | TyEnum n (Some i) os =>
      TyEnum n (Some i) ((fix go i os {struct os} := match os, i with
        | [], _ => []
        | (x, t) :: os, O => (x, zeroed t) :: os
        | o :: os, S i => o :: go i os
        end) i os)
  | v => v
  end.

Section roundtrip.
Context `{SqlString.FeltFromStr} {JN : JsonNumber} {DM : DojoMessage} {DV : DojoValues} {TE : TypedDataEnv}.
Context {MSPEC : DojoMessageSpec DM} {SPEC : TypedDataSpec JN DM TE}.

Lemma hex_text_pretty (n : Z) : Messaging.hex_text (pretty n) = None.
Proof.
  destruct (Z.le_gt_cases 0 n) as [Hn|Hn].
  - destruct (Agg.pretty_dec n Hn) as [Hd _]. unfold Messaging.hex_text. revert Hd. generalize (pretty n). intros [|c [|c' s]] Hd; [done| |].
    + cbn [String.prefix]. by destruct (ascii_dec "0" c).
    + cbn [Agg.dec_only] in Hd. apply andb_prop in Hd as [_ [[d Hd]%bool_decide_eq_true _]%andb_prop].
      cbn [String.prefix]. destruct (ascii_dec "0" c); [|done]. destruct (ascii_dec "x" c') as [<-|]; [discriminate Hd|].
      destruct (ascii_dec "X" c') as [<-|]; [discriminate Hd|]. done.
  - destruct n as [|p|p]; [lia|lia|]. unfold pretty, pretty_Z. by destruct (pretty p).
Qed.
Lemma from_str_u_pretty bits (n : Z) : 0 ≤ n < 2 ^ bits → Messaging.from_str_u bits (pretty n) = Some n.
Proof.
  intros Hn. unfold Messaging.from_str_u. rewrite hex_text_pretty. destruct (Agg.pretty_dec n) as [Hd Hne]; [lia|]. unfold unsigned_from.
  pose proof (Agg.number_from_pretty 0 (2 ^ bits - 1) n ltac:(lia) ltac:(lia)) as Hp.
  destruct (pretty n) as [|c s]; [done|]. by rewrite (proj1 (Agg.dec_head _ _ Hd)).
Qed.
Lemma from_str_i_pretty bits (n : Z) : - 2 ^ (bits - 1) ≤ n < 2 ^ (bits - 1) → Messaging.from_str_i bits (pretty n) = Some n.
Proof.
  intros Hn. unfold Messaging.from_str_i. rewrite hex_text_pretty. apply (Agg.signed_from_pretty (- 2 ^ (bits - 1))); lia.
Qed.
Lemma halves (n : Z) : Messaging.u256_of_halves (n / 2 ^ 128) (n mod 2 ^ 128) = n.
Proof. unfold Messaging.u256_of_halves. rewrite Z.mul_comm. symmetry. by apply Z_div_mod_eq_full. Qed.
Lemma as_u128_some n : prim_as_u128 (PrimU128 (Some n)) = Some n.
Proof. by apply as_u128_spec. Qed.
(** Integers at their width. *)
Lemma parse_prim (p q : Prim) : Messaging.same_kind p q → prim_ok p →
  parse_value_to_ty (prim_value p) (TyPrimitive (q : Primitive)) = Ok (TyPrimitive (prim_filled p : Primitive)).
Proof.
  destruct p as [v|v|v|v|v|v|v|v|v|v|v|v|v|v|v|v], q; try done; intros _ Hok; cbn [prim_ok] in Hok;
    first [apply signed_default in Hok; [|done] | apply unsigned_default in Hok; [|done] | apply felt_default in Hok | idtac];
    cbn [prim_value prim_filled parse_value_to_ty parse_number parse_string int_value].
  1-3: rewrite as_i64_from by lia; cbn [ok_or outcome_bind]; by rewrite wrap_i_small.
  1-2: by rewrite from_str_i_pretty.
  1-3: rewrite as_u64_from by lia; cbn [ok_or outcome_bind]; by rewrite wrap_u_small.
  1-2: by rewrite from_str_u_pretty.
  2-5: by rewrite felt_text_read.
  assert (0 ≤ default 0 v mod 2 ^ 128 < 2 ^ 128) as Hlow by (apply Z.mod_pos_bound; lia).
  assert (0 ≤ default 0 v / 2 ^ 128 < 2 ^ 128) as Hhigh.
  { split; [apply Z.div_pos; lia|]. apply Z.div_lt_upper_bound; [lia|]. change (2 ^ 128 * 2 ^ 128) with (2 ^ 256). lia. }
  cbn [im_insert String.eqb Ascii.eqb Bool.eqb parse_value_to_ty parse_string int_value Messaging.u128_schema].
  rewrite !from_str_u_pretty by done. cbn [ok_or outcome_bind unwrap_u128]. rewrite !as_u128_some. cbn [unwrap outcome_bind].
  by rewrite halves.
Qed.

(** The members of a structure. *)
Lemma im_insert_fresh {V} x (v : V) m : x ∉ m.*1 → im_insert x v m = m ++ [(x, v)].
Proof.
  induction m as [|[y w] m IH]; [done|]. intros Hx. apply not_elem_of_cons in Hx as [Hne Hx]. cbn [im_insert].
  destruct (String.eqb_spec y x) as [->|]; [done|]. by rewrite IH.
Qed.
Lemma parse_member_at parse x t t' k (pre post : list (string * DTy * bool)) : x ∉ pre.*1.*1 → parse t = Ok t' →
  parse_member parse x (pre ++ (x, t, k) :: post) = Ok (pre ++ (x, t', k) :: post).
Proof.
  intros Hx Ht. induction pre as [|[[y u] j] pre IH]; cbn [app parse_member].
  - by rewrite String.eqb_refl, Ht.
  - apply not_elem_of_cons in Hx as [Hne Hx]. destruct (String.eqb_spec y x) as [->|]; [done|]. by rewrite IH.
Qed.

(** [v] is written, and read back into any schema it is a value of. *)
Definition reads_back (v : DTy) : Prop := ∀ s, value_of s v →
  ∃ p, map_ty_to_primitive v = Ok p ∧ parse_value_to_ty p s = Ok (zeroed v).

Lemma members_read_back ms vs : Forall (λ m : string * DTy * bool, reads_back m.1.2) vs → NoDup (vs.*1.*1) →
  Forall2 (λ m v : string * DTy * bool, m.1.1 = v.1.1 ∧ m.2 = v.2 ∧ value_of m.1.2 v.1.2) ms vs →
  ∃ fs : list (string * PrimitiveType),
    (∀ acc, (∀ x, x ∈ vs.*1.*1 → x ∉ acc.*1) →
      (fix go (children : list (string * DTy * bool)) object := match children with
        | [] => Ok object
        | (x, t, _) :: children => let? v := map_ty_to_primitive t in go children (im_insert x v object)
        end) vs acc = Ok (acc ++ fs)) ∧
    (∀ pre, (∀ x, x ∈ vs.*1.*1 → x ∉ pre.*1.*1) →
      (fix go (fs : list (string * PrimitiveType)) children := match fs with
        | [] => Ok children
        | (key, v) :: fs => let? children := parse_member (parse_value_to_ty v) key children in go fs children
        end) fs (pre ++ ms) = Ok (pre ++ ((λ m, (m.1.1, zeroed m.1.2, m.2)) <$> vs))).
Proof.
  intros Hr Hnd Hf. induction Hf as [|[[x t] k] [[x' v] k'] ms vs (Hx & Hk & Hv) Hf IH]; cbn [fst snd] in *.
  - exists []. split; [intros acc _; by rewrite app_nil_r|done].
  - subst x' k'. apply Forall_cons in Hr as [Hrv Hr]. apply NoDup_cons in Hnd as [Hnx Hnd]. cbn [fst snd] in *.
    destruct (IH Hr Hnd) as (fs & Hw & Hp). destruct (Hrv t Hv) as (p & Hmap & Hparse). exists ((x, p) :: fs). split.
    + intros acc Hacc. rewrite Hmap. cbn [outcome_bind]. rewrite im_insert_fresh by (apply Hacc; by left).
      rewrite Hw, <- (assoc (++)); [done|]. intros y Hy. rewrite fmap_app, not_elem_of_app. split; [apply Hacc; by right|].
      cbn. intros ->%list_elem_of_singleton. done.
    + intros pre Hpre. rewrite (parse_member_at _ x t (zeroed v)) by (done || (apply Hpre; by left)). cbn [outcome_bind].
      specialize (Hp (pre ++ [(x, zeroed v, k)])). rewrite <- !(assoc (++)) in Hp. apply Hp.
      intros y Hy. rewrite !fmap_app, not_elem_of_app. split; [apply Hpre; by right|]. cbn. by intros ->%list_elem_of_singleton.
Qed.

Lemma elements_read_back ts vs : Forall reads_back vs → Forall2 value_of ts vs →
  ∃ ps, (fix go (ts : list DTy) := match ts with
          | [] => Ok []
          | t :: ts => let? v := map_ty_to_primitive t in let? vs := go ts in Ok (v :: vs)
          end) vs = Ok ps ∧ length ps = length ts ∧
    Forall2 (λ p tv, parse_value_to_ty p tv.1 = Ok tv.2) ps (zip ts (zeroed <$> vs)).
Proof.
  intros Hr Hf. induction Hf as [|t v ts vs Hv Hf IH]; [by exists []|]. apply Forall_cons in Hr as [Hrv Hr].
  destruct (IH Hr) as (ps & Hw & Hl & Hp). destruct (Hrv t Hv) as (p & Hmap & Hparse). exists (p :: ps).
  rewrite Hmap. cbn [outcome_bind]. rewrite Hw. split_and!; [done|cbn; by rewrite Hl|by constructor].
Qed.

(** The option of an enum. *)
Lemma option_written x v p (pre post : list (string * DTy)) : map_ty_to_primitive v = Ok p →
  map_ty_to_primitive (TyEnum EmptyString (Some (length pre)) (pre ++ (x, v) :: post)) = Ok (PObject [(x, p)]).
Proof.
  intros Hp. cbn [map_ty_to_primitive ok_or outcome_bind]. induction pre as [|[y u] pre IH]; [|exact IH]. cbn. by rewrite Hp.
Qed.
Lemma option_parsed x t t' p (pre post : list (string * DTy)) : NoDup ((pre ++ (x, t) :: post).*1) → parse_value_to_ty p t = Ok t' →
  (fix go (os : list (string * DTy)) := match os with
    | [] => Ok []
    | (y, t) :: os =>
        let? t := if String.eqb y x then parse_value_to_ty p t else Ok t in
        let? os := go os in Ok ((y, t) :: os)
    end) (pre ++ (x, t) :: post) = Ok (pre ++ (x, t') :: post).
Proof.
  intros Hnd Hp. induction pre as [|[y u] pre IH]; cbn [app fmap list_fmap fst] in *; apply NoDup_cons in Hnd as [Hx Hnd].
  - rewrite String.eqb_refl, Hp. cbn [outcome_bind]. clear Hnd Hp.
    assert (∀ os, x ∉ os.*1 → (fix go (os : list (string * DTy)) := match os with
      | [] => Ok []
      | (y, t) :: os =>
          let? t := if String.eqb y x then parse_value_to_ty p t else Ok t in
          let? os := go os in Ok ((y, t) :: os)
      end) os = Ok os) as Hos; [|by rewrite Hos].
    induction os as [|[y u] os IH]; [done|]. intros Hos. apply not_elem_of_cons in Hos as [Hne Hos].
    destruct (String.eqb_spec y x) as [->|]; [done|]. cbn [outcome_bind]. by rewrite IH.
  - destruct (String.eqb_spec y x) as [->|].
    { destruct Hx. rewrite fmap_app, elem_of_app. right. by left. }
    cbn [outcome_bind]. by rewrite IH.
Qed.
Lemma option_zeroed x v (pre post : list (string * DTy)) n :
  zeroed (TyEnum n (Some (length pre)) (pre ++ (x, v) :: post)) = TyEnum n (Some (length pre)) (pre ++ (x, zeroed v) :: post).
Proof. cbn [zeroed]. f_equal. induction pre as [|[y u] pre IH]; [done|]. cbn. by rewrite IH. Qed.
Lemma set_option_at x (v : DTy) (pre post : list (string * DTy)) : NoDup ((pre ++ (x, v) :: post).*1) →
  message_set_option (pre ++ (x, v) :: post) x = Some (length pre).
Proof.
  intros Hnd. assert ((pre ++ (x, v) :: post).*1 !! length pre = Some x) as Hpre.
  { by rewrite list_lookup_fmap, lookup_app_r, Nat.sub_diag. }
  destruct (set_option_known (pre ++ (x, v) :: post) x) as [i Hi]; [by apply list_elem_of_lookup_2 in Hpre|]. rewrite Hi. f_equal.
  exact (NoDup_lookup _ _ _ _ Hnd (set_option_named _ _ _ Hi) Hpre).
Qed.

Lemma value_reads_back v : reads_back v.
Proof.
  induction v as [p|n vs IH|n o vs IH|vs IH|vs IH|vs l _|x] using ModelTable.DTy_ind'; intros s Hs.
  - inversion Hs; subst. eexists. split; [done|by apply parse_prim].
  - inversion Hs as [| |n' ms vs' Hnd Hf| | |]; subst. destruct (members_read_back ms vs IH Hnd Hf) as (fs & Hw & Hp).
    exists (PObject fs). cbn [map_ty_to_primitive parse_value_to_ty]. rewrite (Hw []) by (intros y _ ?%elem_of_nil; done).
    split; [done|]. pose proof (Hp []) as Hp'. cbn [app] in Hp'. rewrite Hp'; [done|]. by intros y _ ?%elem_of_nil.
  - inversion Hs as [| | | | |n' o' x t v pre post Hnd Hv]; subst. apply Forall_app in IH as [_ [IHv _]%Forall_cons].
    destruct (IHv t Hv) as (p & Hmap & Hparse). exists (PObject [(x, p)]). split; [by apply (option_written x v p)|].
    cbn [parse_value_to_ty]. rewrite (option_parsed x t (zeroed v) p);
      [|rewrite fmap_app in *; exact Hnd|done]. cbn [enum_error outcome_bind]. rewrite set_option_at by (rewrite fmap_app in *; exact Hnd).
    by rewrite option_zeroed.
  - inversion Hs as [| | |ts vs' Hf| |]; subst. destruct (elements_read_back ts vs IH Hf) as (ps & Hw & Hl & Hp).
    exists (PArray ps). cbn [map_ty_to_primitive parse_value_to_ty]. rewrite Hw, Hl, Nat.eqb_refl. split; [done|]. clear Hw Hs IH.
    assert ((fix go vs ts {struct vs} := match vs, ts with
      | v :: vs, t :: ts => let? t := parse_value_to_ty v t in let? ts := go vs ts in Ok (t :: ts)
      | _, _ => Ok []
      end) ps ts = Ok (zeroed <$> vs)) as ->; [|done].
    revert ps Hl Hp. induction Hf as [|t v ts vs _ _ IHf]; intros ps Hl Hp; [by destruct ps|]. cbn in Hp.
    inversion Hp as [|p ? ps' ? Ht Hps]; subst. cbn [fst snd] in Ht. rewrite Ht. cbn [outcome_bind]. injection Hl as Hl. by rewrite IHf.
  - inversion Hs as [| | | |inner rest vs' Hf|]; subst.
    assert (Forall2 value_of (replicate (length vs) inner) vs) as Hf2 by (clear IH Hs; induction Hf; by constructor).
    destruct (elements_read_back _ vs IH Hf2) as (ps & Hw & Hl & Hp). exists (PArray ps).
    cbn [map_ty_to_primitive parse_value_to_ty]. rewrite Hw. split; [done|]. clear Hw Hs IH Hf Hf2 Hl.
    assert ((fix go vs := match vs with
      | [] => Ok []
      | v :: vs => let? t := parse_value_to_ty v inner in let? ts := go vs in Ok (t :: ts)
      end) ps = Ok (zeroed <$> vs)) as ->; [|done].
    revert ps Hp. induction vs as [|v vs IHv]; intros ps Hp; cbn in Hp; inversion Hp as [|p ? ps' ? Ht Hps]; subst; [done|].
    cbn [fst snd] in Ht. rewrite Ht. cbn [outcome_bind]. by rewrite IHv.
  - inversion Hs.
  - inversion Hs; subst. by exists (PString x).
Qed.

(** The members of a model, as the typed data of it is built. *)
Lemma model_members_values children : ∀ types values fields values',
  (fix go (children : list (string * DTy * bool)) object := match children with
    | [] => Ok object
    | (x, t, _) :: children => let? v := map_ty_to_primitive t in go children (im_insert x v object)
    end) children values = Ok values' →
  ∃ types' fields', model_members types values fields children = Ok (types', values', fields ++ fields') ∧
    length fields' = length children.
Proof.
  induction children as [|[[x t] k] children IH]; intros types values fields values' Hv.
  - injection Hv as <-. exists types, []. by rewrite app_nil_r.
  - destruct (map_ty_to_primitive t) as [v|e|] eqn:Ht; [|done..]. cbn [outcome_bind] in Hv. cbn [model_members].
    destruct (map_ty_type types x t) as [types1 f]. rewrite Ht. cbn [outcome_bind].
    destruct (IH types1 (im_insert x v values) (fields ++ [f]) values' Hv) as (types' & fields' & Hrun & Hl).
    exists types', (f :: fields'). rewrite <- (assoc (++)) in Hrun. split; [done|cbn; by rewrite Hl].
Qed.
Lemma im_get_insert {V} k (v : V) m : im_get k (im_insert k v m) = Some v.
Proof.
  induction m as [|[x w] m IH]; cbn [im_insert im_get]; [by rewrite String.eqb_refl|].
  destruct (String.eqb x k) eqn:He; cbn [im_get]; by rewrite He.
Qed.


(** ** What the encoding does not carry *)
(** An Ethereum address cannot be encoded: the name of its type is not one of those that
    texts are encoded for. *)
Lemma eth_address_not_encoded v types preset_types ctx :
  encode (prim_value (PrimEthAddress v)) (prim_type (PrimEthAddress v)) types preset_types ctx =
    Err (TInvalidType "Invalid type EthAddress for string").
Proof. done. Qed.
(** The type of a field is looked for by its name alone: the first type with a field of the
    name decides, whichever type the field is of. *)
Lemma field_of_another_type name type type' owner owner' : owner ≠ name →
  get_value_type name [(owner, [SimpleType name type]); (owner', [SimpleType name type'])] = Ok (mkFieldInfo type EmptyString 0).
Proof.
  intros Hne. unfold get_value_type. cbn [type_info field_info]. apply String.eqb_neq in Hne. by rewrite Hne, String.eqb_refl.
Qed.
(** The halves of a 256-bit integer are hashed in the order of the object, the high one
    first, where the type declares the low one first. *)
Lemma u256_hashed_high_first n types ctx text type_hash :
  encode_type "u256" get_preset_types = Ok text → selector_from_name text = Some type_hash → base_type ctx = EmptyString →
  SqlString.felt_from_str (pretty (n / 2 ^ 128)) = Some (n / 2 ^ 128) →
  SqlString.felt_from_str (pretty (n mod 2 ^ 128)) = Some (n mod 2 ^ 128) →
  ∃ ctx', encode (prim_value (PrimU256 (Some n))) "u256" types get_preset_types ctx =
    Ok (felt_poseidon [type_hash; n / 2 ^ 128; n mod 2 ^ 128], ctx').
Proof.
  intros Ht Hs Hb Hh Hl. cbn [prim_value from_option id im_insert String.eqb Ascii.eqb Bool.eqb encode int_value].
  rewrite Hb. change (im_contains "u256" get_preset_types) with true. cbn [base_type is_preset String.eqb]. rewrite Ht.
  cbn [outcome_bind]. rewrite Hs. cbn [ok_or outcome_bind].
  change (get_value_type "high" get_preset_types) with (Ok (E := TypedDataError) (mkFieldInfo "u128" EmptyString 1)).
  change (get_value_type "low" get_preset_types) with (Ok (E := TypedDataError) (mkFieldInfo "u128" EmptyString 0)).
  cbn [outcome_bind fi_type fi_base_type encode].
  assert (∀ s, encode_string s "u128" = get_hex s) as Hu by done. rewrite !Hu. unfold get_hex. rewrite Hh, Hl. by eexists.
Qed.
(** The elements of an array of enums have the type [enum], not the name of the enum. *)
Lemma enum_elements_untyped types x n o os rest : ∃ types',
  map_ty_type types x (TyArray (TyEnum n o os :: rest)) = (types', SimpleType x "enum*").
Proof.
  assert (∃ types', map_ty_type types "inner" (TyEnum n o os) = (types', ParentType "inner" "enum" n)) as [types' He].
  { cbn [map_ty_type]. match goal with |- context [?f types os] => destruct (f types os) end. by eexists. }
  exists types'. change (map_ty_type types x (TyArray (TyEnum n o os :: rest))) with
    (let (types, f) := map_ty_type types "inner" (TyEnum n o os) in (types, SimpleType x (own_type f +:+ "*"))).
  by rewrite He.
Qed.

(** The context of an element is the one the element before it left: after a structure whose
    last field is an enum, the next element is taken for an enum, of which only the first
    field is hashed. The signature of the array does not cover the other fields. *)
Definition item_types : Types :=
  [("Item", [SimpleType "id" "felt"; ParentType "kind" "enum" "Kind"]); ("Kind", [SimpleType "Sword" "felt"])].
Definition item (id kind : string) : PrimitiveType := PObject [("id", PString id); ("kind", PObject [("Sword", PString kind)])].
Lemma item_leaves_enum id kind h ctx :
  encode (item id kind) "Item" item_types [] default_ctx = Ok (h, ctx) → base_type ctx = "enum".
Proof.
  unfold item. cbn [encode base_type default_ctx String.eqb is_preset im_contains im_get].
  destruct (encode_type "Item" item_types) as [text|e|]; [|done..]. cbn [outcome_bind].
  destruct (selector_from_name text) as [type_hash|]; [|done]. cbn [ok_or outcome_bind].
  change (get_value_type "id" item_types) with (Ok (E := TypedDataError) (mkFieldInfo "felt" EmptyString 0)).
  change (get_value_type "kind" item_types) with (Ok (E := TypedDataError) (mkFieldInfo "Kind" "enum" 1)).
  change (get_value_type "Sword" item_types) with (Ok (E := TypedDataError) (mkFieldInfo "felt" EmptyString 0)).
  cbn [outcome_bind fi_type fi_base_type fi_index base_type String.eqb Ascii.eqb Bool.eqb].
  destruct (encode_string id "felt") as [hi|e|]; [|done..]. cbn [outcome_bind].
  destruct (encode_string kind "felt") as [hk|e|]; [|done..]. cbn [outcome_bind]. by intros [= <- <-].
Qed.
Lemma later_fields_unhashed a b kind kind1 kind2 :
  encode (PArray [item a kind; item b kind1]) "Item*" item_types [] default_ctx =
  encode (PArray [item a kind; item b kind2]) "Item*" item_types [] default_ctx.
Proof.
  cbn [encode]. change (is_tuple_type "Item*") with false. change (trim_end_char star "Item*") with "Item". cbv iota.
  destruct (encode (item a kind) "Item" item_types [] default_ctx) as [[h ctx]|e|] eqn:Ha; [|done..]. cbn [outcome_bind].
  apply item_leaves_enum in Ha. unfold item. cbn [encode base_type]. by rewrite Ha.
Qed.

End roundtrip.

(** ** The types a type depends on *)
Definition refers (types : Types) (a b : string) : Prop :=
  ∃ fields f, im_get a types = Some fields ∧ f ∈ fields ∧ field_type f = b ∧ im_contains b types = true.

Lemma im_contains_elem {V} k (m : list (string * V)) : im_contains k m = true ↔ k ∈ m.*1.
Proof.
  unfold im_contains. induction m as [|[x v] m IH]; cbn; [split; [done|by intros ?%elem_of_nil]|].
  destruct (String.eqb_spec x k) as [->|Hne].
  - split; [intros _; by left|done].
  - rewrite IH, elem_of_cons. split; [tauto|]. intros [->|?]; done.
Qed.
Lemma im_contains_get {V} k (m : list (string * V)) : im_contains k m = true → ∃ v, im_get k m = Some v.
Proof. unfold im_contains. destruct (im_get k m); [eauto|done]. Qed.

Section dependencies.
Context (types : Types).

(** What a call adds to the dependencies: types that can be reached from [name], with
    everything they refer to. *)
Record extends (name : string) (deps deps' : list string) : Prop := {
  ext_prefix : deps ⊆ deps';
  ext_nodup : NoDup deps';
  ext_known : deps' ⊆ types.*1;
  ext_reached : ∀ x, x ∈ deps' → x ∈ deps ∨ rtc (refers types) name x;
  ext_closed : ∀ x y, x ∈ deps' → x ∉ deps → refers types x y → y ∈ deps'
}.

Lemma nodup_subset_length (l1 l2 : list string) : NoDup l1 → l1 ⊆ l2 → (length l1 ≤ length l2)%nat.
Proof. intros Hnd Hsub. apply submseteq_length. by apply NoDup_submseteq. Qed.
Lemma extends_refl name deps : NoDup deps → deps ⊆ types.*1 → extends name deps deps.
Proof. intros Hnd Hk. split; try done. by left. Qed.
Lemma extends_trans name inner a b c : rtc (refers types) name inner → extends inner a b → extends name b c → extends name a c.
Proof.
  intros Hr [P1 N1 K1 R1 C1] [P2 N2 K2 R2 C2]. split; [set_solver|done|done| |].
  - intros x Hx. destruct (R2 x Hx) as [Hb|?]; [|by right]. destruct (R1 x Hb) as [?|?]; [by left|right; by etrans].
  - intros x y Hx Ha Hxy. destruct (decide (x ∈ b)) as [Hb|Hb]; [|by eapply C2]. apply P2. by eapply C1.
Qed.

(** The loop over the fields, with what it does for each. *)
Definition visit (get : string → list string → option (outcome TypedDataError (list string))) :=
  fix go fs dependencies := match fs with
  | [] => Some (Ok dependencies)
  | f :: fs =>
      if im_contains (field_type f) types && negb (bool_decide (field_type f ∈ dependencies)) then
        match get (field_type f) dependencies with
        | Some (Ok dependencies) => go fs dependencies
        | r => r
        end
      else go fs dependencies
  end.
Lemma visit_extends get name fields (fs : list Field) size :
  im_get name types = Some fields → (∀ f, f ∈ fs → f ∈ fields) →
  (∀ inner deps, NoDup deps → deps ⊆ types.*1 → im_contains inner types = true → inner ∉ deps → (size ≤ length deps)%nat →
     ∃ deps', get inner deps = Some (Ok deps') ∧ inner ∈ deps' ∧ extends inner deps deps') →
  ∀ acc, NoDup acc → acc ⊆ types.*1 → (size ≤ length acc)%nat →
  ∃ deps', visit get fs acc = Some (Ok deps') ∧ extends name acc deps' ∧
    (∀ f, f ∈ fs → im_contains (field_type f) types = true → field_type f ∈ deps').
Proof.
  intros Hname Hfs Hget. induction fs as [|f fs IH]; intros acc Hnd Hk Hsize.
  - exists acc. split; [done|]. split; [by apply extends_refl|]. by intros f ?%elem_of_nil.
  - assert (∀ g, g ∈ fs → g ∈ fields) as Hfs' by (intros g Hg; apply Hfs; by right). cbn [visit].
    destruct (im_contains (field_type f) types) eqn:Hc; cbn [andb].
    + case_bool_decide as Hin; cbn [negb].
      * destruct (IH Hfs' acc Hnd Hk Hsize) as (deps' & Hrun & Hext & Hall). exists deps'. split_and!; [done..|].
        intros g [->|Hg]%elem_of_cons Hcg; [by apply (ext_prefix _ _ _ Hext)|by apply Hall].
      * destruct (Hget (field_type f) acc) as (mid & Hmid & Hfm & Hext1); [done..|]. rewrite Hmid.
        destruct (IH Hfs' mid) as (deps' & Hrun & Hext & Hall).
        { by apply (ext_nodup _ _ _ Hext1). }
        { by apply (ext_known _ _ _ Hext1). }
        { pose proof (nodup_subset_length acc mid Hnd (ext_prefix _ _ _ Hext1)). lia. }
        exists deps'. split; [done|]. split.
        { eapply extends_trans; [|done|done]. apply rtc_once. exists fields, f. split_and!; [done|apply Hfs; by left|done..]. }
        intros g [->|Hg]%elem_of_cons Hcg; [by apply (ext_prefix _ _ _ Hext)|by apply Hall].
    + destruct (IH Hfs' acc Hnd Hk Hsize) as (deps' & Hrun & Hext & Hall). exists deps'. split_and!; [done..|].
      intros g [->|Hg]%elem_of_cons Hcg; [congruence|by apply Hall].
Qed.

Lemma dependencies_extend fuel : ∀ name deps,
  NoDup deps → deps ⊆ types.*1 → im_contains name types = true → name ∉ deps →
  (length types - length deps ≤ fuel)%nat →
  ∃ deps', get_dependencies fuel name types deps = Some (Ok deps') ∧ name ∈ deps' ∧ extends name deps deps'.
Proof.
  induction fuel as [|fuel IH]; intros name deps Hnd Hsub Hname Hnew Hfuel.
  all: assert (deps ++ [name] ⊆ types.*1) as Hsub'
    by (intros x [Hx| ->%list_elem_of_singleton]%elem_of_app; [by apply Hsub|by apply im_contains_elem]).
  all: assert (NoDup (deps ++ [name])) as Hnd' by (apply NoDup_app; split_and!; [done|set_solver|apply NoDup_singleton]).
  - pose proof (nodup_subset_length _ _ Hnd' Hsub') as Hb. rewrite length_app, length_fmap in Hb. cbn in Hb. lia.
  - cbn [get_dependencies]. rewrite bool_decide_false by done. unfold get_fields.
    destruct (im_contains_get _ _ Hname) as [fields Hfields]. rewrite Hfields. cbn [ok_or].
    change (∃ deps', visit (λ n d, get_dependencies fuel n types d) fields (deps ++ [name]) = Some (Ok deps') ∧
      name ∈ deps' ∧ extends name deps deps').
    destruct (visit_extends (λ n d, get_dependencies fuel n types d) name fields fields (S (length deps)) Hfields)
      with (acc := deps ++ [name]) as (deps' & Hrun & [P N K R C] & Hall); [done| |done|done|rewrite length_app; cbn; lia|].
    { intros inner d Hd Hk Hc Hi Hs. apply IH; try done. lia. }
    assert (name ∈ deps') as Hin by (apply P, elem_of_app; right; by left).
    exists deps'. split_and!; [done..|]. split; [set_solver|done|done| |].
    + intros x Hx. destruct (R x Hx) as [[?| ->%list_elem_of_singleton]%elem_of_app|?]; [by left|by right|by right].
    + intros x y Hx Hxd Hxy. destruct (decide (x = name)) as [->|Hne].
      * destruct Hxy as (fs & f & Hf & Hfin & <- & Hc). rewrite Hfields in Hf. injection Hf as <-. by apply Hall.
      * apply (C x y); [done| |done]. rewrite elem_of_app, list_elem_of_singleton. tauto.
Qed.

Lemma dependencies_reached name : im_contains name types = true →
  ∃ deps, get_dependencies (S (length types)) name types [] = Some (Ok deps) ∧ NoDup deps ∧ deps ⊆ types.*1 ∧
    ∀ x, x ∈ deps ↔ rtc (refers types) name x.
Proof.
  intros Hname. destruct (dependencies_extend (S (length types)) name []) as (deps & Hrun & Hin & [P N K R C]);
    [by constructor|by intros x ?%elem_of_nil|done|by intros ?%elem_of_nil|cbn; lia|].
  exists deps. split_and!; [done..|]. intros x. split.
  - intros Hx. destruct (R x Hx) as [?%elem_of_nil|?]; done.
  - intros Hr. apply rtc_ind_r with (P := λ z, z ∈ deps) in Hr; [done|done|].
    intros y z _ Hyz Hy. apply (C y z); [done|by intros ?%elem_of_nil|done].
Qed.

Context {TE : TypedDataEnv}.
Definition below (x y : string) : Prop := String.leb (str_to_lowercase x) (str_to_lowercase y) = true.
Lemma insert_by_key_perm x l : insert_by_key x l ≡ₚ x :: l.
Proof.
  induction l as [|y l IH]; [done|]. cbn [insert_by_key]. destruct (String.leb _ _); [done|].
  rewrite IH. by constructor.
Qed.
Lemma sort_perm l : sort_by_lowercase l ≡ₚ l.
Proof. induction l as [|x l IH]; [done|]. cbn. by rewrite insert_by_key_perm, IH. Qed.
Lemma insert_by_key_sorted x l : Sorted below l → Sorted below (insert_by_key x l).
Proof.
  induction 1 as [|y l Hl IH Hy]; cbn [insert_by_key]; [by repeat constructor|].
  destruct (String.leb (str_to_lowercase x) (str_to_lowercase y)) eqn:Hxy; [by repeat constructor|].
  assert (below y x) as Hyx.
  { unfold below. destruct (String.leb_total (str_to_lowercase x) (str_to_lowercase y)) as [He|He]; congruence. }
  constructor; [done|]. destruct l as [|z l]; cbn [insert_by_key]; [by constructor|].
  destruct (String.leb (str_to_lowercase x) (str_to_lowercase z)); constructor; [done|]. by inversion Hy.
Qed.
Lemma sort_sorted l : Sorted below (sort_by_lowercase l).
Proof. induction l as [|x l IH]; [constructor|]. cbn. by apply insert_by_key_sorted. Qed.

Lemma type_texts l : l ⊆ types.*1 → ∃ texts, outcome_mapM (type_text types) l = Ok texts ∧
  Forall2 (λ dep text, type_text types dep = Ok text) l texts.
Proof.
  induction l as [|x l IH]; intros Hl; [by exists []|]. destruct IH as (texts & Hrun & Hf); [set_solver|].
  assert (im_contains x types = true) as [fields Hx]%im_contains_get by (apply im_contains_elem; set_solver).
  assert (∃ text, type_text types x = Ok text) as [text Ht] by (unfold type_text, get_fields; rewrite Hx; by eexists).
  exists (text :: texts). cbn [outcome_mapM]. rewrite Ht. cbn [outcome_bind]. rewrite Hrun. split; [done|by constructor].
Qed.

End dependencies.

(** ** Witnesses *)
#[local] Existing Instances SqlString.hex_parser Messaging.demo_message Messaging.demo_message_spec Messaging.demo_values.
#[local] Instance demo_numbers : JsonNumber := {|
  Number := Z; number_text := pretty; number_as_i64 := Some; number_as_u64 := Some; number_from_int := id
|}.
#[local] Instance demo_typed_env : TypedDataEnv := {|
  felt_poseidon := foldr Z.add 0; selector_from_name _ := Some 1; short_string_to_felt _ := Some 2;
  byte_array_from_string _ := Some ([], 0, 0); felt_to_string := SqlString.format_hex 66;
  str_to_lowercase := id
|}.
#[local] Instance demo_typed_spec : TypedDataSpec demo_numbers Messaging.demo_message demo_typed_env.
Proof.
  split; [done|done| |].
  - intros f Hf. by apply SqlString.felt_from_format.
  - intros os x Hx. cbn. destruct (list_find (λ o, o.1 = x) os) as [[i o]|] eqn:Hf; [by eexists|].
    apply list_find_None in Hf. apply list_elem_of_fmap in Hx as (o & -> & Ho). rewrite Forall_forall in Hf. by destruct (Hf o Ho).
Qed.

(** Two types that refer to each other, and one that neither does. *)
Definition demo_types : Types :=
  [("Tree", [SimpleType "children" "Forest"]); ("Other", [SimpleType "x" "felt"]); ("Forest", [SimpleType "trees" "Tree*"])].

(** A player with a position, a status and scores. *)
Definition demo_player (full : bool) : DTy :=
  let z (c : option Z → Prim) (n : Z) : DTy := TyPrimitive (c (if full then Some n else None) : Primitive) in
  TyStruct "game-Player" [
    ("id", z PrimFelt252 7, true);
    ("position", TyTuple [z PrimI8 (-3); z PrimU256 (2 ^ 200 + 5)], false);
    ("status", TyEnum "Status" (if full then Some 1%nat else None)
                 [("Alive", TyPrimitive (PrimU8 None : Primitive)); ("Hurt", z PrimU16 40)], false);
    ("scores", TyArray (z PrimU64 1 :: (if full then [z PrimU64 2] else [])), false);
    ("name", TyByteArray (if full then "ann" else EmptyString), false)].
Lemma demo_player_value : value_of (demo_player false) (demo_player true).
Proof.
  apply value_struct.
  { apply (bool_decide_unpack _). vm_compute. reflexivity. }
  repeat match goal with |- Forall2 _ _ _ => constructor end; split_and?; try done; cbn [fst snd].
  - apply value_prim; [done|]. intros f [= <-]. vm_compute. split; congruence.
  - apply value_tuple. repeat match goal with |- Forall2 _ _ _ => constructor end; split_and?; try done;
      (apply value_prim; [done|]); intros x [= <-]; vm_compute; split; congruence.
  - apply (value_enum "Status" None "Hurt" _ _ [("Alive", Messaging.prim (PrimU8 None))] []).
    { apply (bool_decide_unpack _). vm_compute. reflexivity. }
    apply value_prim; [done|]. intros x [= <-]; vm_compute; split; congruence.
  - apply value_array. repeat match goal with |- Forall _ _ => constructor end; (apply value_prim; [done|]); intros x [= <-]; vm_compute; split; congruence.
  - apply value_bytes.
Qed.
End TypedData.
