(* ===== verification/Grpc.v ===== *)
(** * The gRPC server ([crates/grpc/server/src/lib.rs])

    The handlers of the service [World]: reads of the storage, subscriptions, messages and
    raw SQL. A handler reads a request, asks the storage, a manager of subscriptions
    (SubscriptionKinds.v) or the messaging service (Messaging.v), and turns the answer
    into a response or a [Status].

    The storage is the class [ReadOnlyStorage], with [MessageStorage] for what messages
    write; the JSON of typed data and the texts of errors are parameters. The set-up of
    the transport ([new]) is left out. *)

From S2P Require Import Prelude Proto SqlString Executor ModelTable Wire Messages Aggregator Matching Subscriptions SubscriptionKinds Messaging.
Local Open Scope Z_scope.
Local Open Scope torii_scope.

(** [tonic::Status] *)
Inductive Status : Type :=
| InvalidArgument (message : string)
| Internal (message : string)
| PermissionDenied (message : string)
(** what the transport reports when a handler panics *)
| Disconnected (message : string).

(** [torii_proto::Message] *)
Record Message : Type := mkMessage { message_signature : list Felt; message_text : string; message_world_address : Felt }.

(** A row of a raw query: the name, the type and the value of each column. *)
Abbreviation RawRow := (list (string * string * Msg.SqlValue)).

(** [ReadOnlyStorage], the reads of the handlers; [sqlx::query(..).fetch_all(..)] *)
Class ReadOnlyStorage `{Msg.SerdeJson} (S SE : Type) : Type := {
  rs_models : list Felt → list Felt → S → outcome SE (list Msg.Model);
  rs_model : Felt → Felt → S → outcome SE Msg.Model;
  rs_controllers : Msg.ControllerQuery → S → outcome SE (Msg.Page Msg.Controller);
  rs_contracts : Msg.ContractQuery → S → outcome SE (list Msg.Contract);
  rs_tokens : Msg.TokenQuery → S → outcome SE (Msg.Page Msg.Token);
  rs_token_balances : Msg.TokenBalanceQuery → S → outcome SE (Msg.Page Msg.TokenBalance);
  rs_token_contracts : Msg.TokenContractQuery → S → outcome SE (Msg.Page Msg.TokenContract);
  rs_token_transfers : Msg.TokenTransferQuery → S → outcome SE (Msg.Page Msg.TokenTransfer);
  rs_transactions : Msg.TransactionQuery → S → outcome SE (Msg.Page Msg.Transaction);
  rs_events : Msg.EventQuery → S → outcome SE (Msg.Page Msg.Event);
  rs_entities : Msg.Query → S → outcome SE (Msg.Page Entity);
  rs_event_messages : Msg.Query → S → outcome SE (Msg.Page Entity);
  rs_aggregations : Msg.AggregationQuery → S → outcome SE (Msg.Page Msg.AggregationEntry);
  rs_activities : Msg.ActivityQuery → S → outcome SE (Msg.Page Msg.Activity);
  rs_achievements : Msg.AchievementQuery → S → outcome SE (Msg.Page Msg.Achievement);
  rs_player_achievements : Msg.PlayerAchievementQuery → S → outcome SE (Msg.Page Msg.PlayerAchievementEntry);
  rs_search : Msg.SearchQuery → S → outcome SE Msg.SearchResponse;
  rs_fetch_all : string → S → string + list RawRow;
  rs_error_text : SE → string
}.

(** [serde_json::from_str] of typed data, the texts of errors, and the selector of a model *)
Class ServerEnv `{MessageEnv} : Type := {
  typed_data_from_json : string → option TypedMessage;
  proto_error_text : ProtoError → string;
  selector_from_names : string → string → Felt
}.

(** [row.get::<Option<T>, _>], [row.try_get::<T, _>] of sqlx, which fail for a value of
    another type *)
Class SqlDecode : Type := {
  get_text : Msg.SqlValue → option (option string);
  get_i64 : Msg.SqlValue → option (option Z);
  get_f64 : Msg.SqlValue → option (option Msg.F64);
  get_blob : Msg.SqlValue → option (option Bytes);
  try_get_i64 : Msg.SqlValue → option Z;
  try_get_f64 : Msg.SqlValue → option Msg.F64;
  try_get_text : Msg.SqlValue → option string
}.

Module Server.
Import Msg Kinds.

(** [RetrieveTokensResponse] and the others: the items, and the cursor as text *)
Record Paged (P : Type) : Type := mkPaged { paged_items : list P; paged_next_cursor : string }.
Arguments mkPaged {P} _ _.
Arguments paged_items {P} _.
Arguments paged_next_cursor {P} _.

(** What a request to subscribe gives: the stream of a channel, or a handler that waits
    for ever. *)
Inductive Subscription : Type := Stream (channel : nat) | NeverReturns.

Section server.
Context `{HashOrder, Chrono, SqlString.FeltFromStr, SerdeJson} {DM : DojoMessage} {DV : DojoValues} {ME : MessageEnv} {SV : ServerEnv} {SQ : SqlDecode}.
Context {S SE : Type} {RS : ReadOnlyStorage S SE} {MS : MessageStorage S SE}.
Context (config : GrpcConfig) (raw_sql : bool) (messaging_config : Messaging.MessagingConfig).
#[local] Abbreviation State F P := (Manager.State (Filter := F) (Resp := P)).

(** [DojoWorld] *)
Record DojoWorld : Type := mkDojoWorld {
  storage : S;
  (** [Some]: whether the receiver is held, and the messages sent to it *)
  cross_messaging_tx : option (bool * list Message);
  entity_manager : State EntitiesSubscriber (Reply PEntity);
  event_message_manager : State EventMessageSubscriber (Reply PEntity);
  event_manager : State (list KeysClause) (option PEvent);
  contract_manager : State ContractQuery (option PContract);
  token_balance_manager : State TokenBalanceSubscriber (Reply PTokenBalance);
  token_manager : State TokenSubscriber (Reply PToken);
  token_transfer_manager : State TokenTransferSubscriber (Reply PTokenTransfer);
  transaction_manager : State (option TransactionFilter) (option PTransaction);
  aggregation_manager : State AggregationFilter (Reply PAggregationEntry);
  activity_manager : State ActivityFilter (Reply PActivity);
  achievement_progression_manager : State AchievementProgressionFilter (Reply PAchievementProgression)
}.
Definition set_storage x (w : DojoWorld) : DojoWorld :=
  mkDojoWorld x (cross_messaging_tx w) (entity_manager w) (event_message_manager w) (event_manager w) (contract_manager w) (token_balance_manager w) (token_manager w) (token_transfer_manager w) (transaction_manager w) (aggregation_manager w) (activity_manager w) (achievement_progression_manager w).
Definition set_cross_messaging_tx x (w : DojoWorld) : DojoWorld :=
  mkDojoWorld (storage w) x (entity_manager w) (event_message_manager w) (event_manager w) (contract_manager w) (token_balance_manager w) (token_manager w) (token_transfer_manager w) (transaction_manager w) (aggregation_manager w) (activity_manager w) (achievement_progression_manager w).
Definition set_entity_manager x (w : DojoWorld) : DojoWorld :=
  mkDojoWorld (storage w) (cross_messaging_tx w) x (event_message_manager w) (event_manager w) (contract_manager w) (token_balance_manager w) (token_manager w) (token_transfer_manager w) (transaction_manager w) (aggregation_manager w) (activity_manager w) (achievement_progression_manager w).
Definition set_event_message_manager x (w : DojoWorld) : DojoWorld :=
  mkDojoWorld (storage w) (cross_messaging_tx w) (entity_manager w) x (event_manager w) (contract_manager w) (token_balance_manager w) (token_manager w) (token_transfer_manager w) (transaction_manager w) (aggregation_manager w) (activity_manager w) (achievement_progression_manager w).
Definition set_event_manager x (w : DojoWorld) : DojoWorld :=
  mkDojoWorld (storage w) (cross_messaging_tx w) (entity_manager w) (event_message_manager w) x (contract_manager w) (token_balance_manager w) (token_manager w) (token_transfer_manager w) (transaction_manager w) (aggregation_manager w) (activity_manager w) (achievement_progression_manager w).
Definition set_contract_manager x (w : DojoWorld) : DojoWorld :=
  mkDojoWorld (storage w) (cross_messaging_tx w) (entity_manager w) (event_message_manager w) (event_manager w) x (token_balance_manager w) (token_manager w) (token_transfer_manager w) (transaction_manager w) (aggregation_manager w) (activity_manager w) (achievement_progression_manager w).
Definition set_token_balance_manager x (w : DojoWorld) : DojoWorld :=
  mkDojoWorld (storage w) (cross_messaging_tx w) (entity_manager w) (event_message_manager w) (event_manager w) (contract_manager w) x (token_manager w) (token_transfer_manager w) (transaction_manager w) (aggregation_manager w) (activity_manager w) (achievement_progression_manager w).
Definition set_token_manager x (w : DojoWorld) : DojoWorld :=
  mkDojoWorld (storage w) (cross_messaging_tx w) (entity_manager w) (event_message_manager w) (event_manager w) (contract_manager w) (token_balance_manager w) x (token_transfer_manager w) (transaction_manager w) (aggregation_manager w) (activity_manager w) (achievement_progression_manager w).
Definition set_token_transfer_manager x (w : DojoWorld) : DojoWorld :=
  mkDojoWorld (storage w) (cross_messaging_tx w) (entity_manager w) (event_message_manager w) (event_manager w) (contract_manager w) (token_balance_manager w) (token_manager w) x (transaction_manager w) (aggregation_manager w) (activity_manager w) (achievement_progression_manager w).
Definition set_transaction_manager x (w : DojoWorld) : DojoWorld :=
  mkDojoWorld (storage w) (cross_messaging_tx w) (entity_manager w) (event_message_manager w) (event_manager w) (contract_manager w) (token_balance_manager w) (token_manager w) (token_transfer_manager w) x (aggregation_manager w) (activity_manager w) (achievement_progression_manager w).
Definition set_aggregation_manager x (w : DojoWorld) : DojoWorld :=
  mkDojoWorld (storage w) (cross_messaging_tx w) (entity_manager w) (event_message_manager w) (event_manager w) (contract_manager w) (token_balance_manager w) (token_manager w) (token_transfer_manager w) (transaction_manager w) x (activity_manager w) (achievement_progression_manager w).
Definition set_activity_manager x (w : DojoWorld) : DojoWorld :=
  mkDojoWorld (storage w) (cross_messaging_tx w) (entity_manager w) (event_message_manager w) (event_manager w) (contract_manager w) (token_balance_manager w) (token_manager w) (token_transfer_manager w) (transaction_manager w) (aggregation_manager w) x (achievement_progression_manager w).
Definition set_achievement_progression_manager x (w : DojoWorld) : DojoWorld :=
  mkDojoWorld (storage w) (cross_messaging_tx w) (entity_manager w) (event_message_manager w) (event_manager w) (contract_manager w) (token_balance_manager w) (token_manager w) (token_transfer_manager w) (transaction_manager w) (aggregation_manager w) (activity_manager w) x.

(** ** Reads *)
Definition invalid {A} (r : outcome ProtoError A) : outcome Status A := map_err (λ e, InvalidArgument (proto_error_text e)) r.
Definition internal {A} (r : outcome SE A) : outcome Status A := map_err (λ e, Internal (rs_error_text e)) r.
(** [query.ok_or_else(..)?.try_into().map_err(..)?] *)
Definition parse_query {P Q} (try_from : P → outcome ProtoError Q) (query : option P) : outcome Status Q :=
  let? query := ok_or (InvalidArgument "Missing query argument") query in invalid (try_from query).
(** [self.storage.read(&query).await.map_err(..)?] *)
Definition ask {A} (read : S → outcome SE A) : st DojoWorld Status A := λ w, (internal (read (storage w)), w).
(** [items.into_iter().map(Into::into).collect()], [next_cursor.unwrap_or_default()] *)
Definition paged {A P} (into : A → P) (page : Page A) : Paged P :=
  mkPaged (into <$> page_items _ page) (default EmptyString (page_next_cursor _ page)).

Definition retrieve_transactions (query : option PTransactionQuery) : st DojoWorld Status (Paged PTransaction) :=
  let! query := st_lift (parse_query tx_query_try_from query) in
  let! transactions := ask (rs_transactions query) in st_ret (paged tx_into transactions).
(** [entity.into()] panics for an array of a fixed size *)
Definition paged_entities (page : Page Entity) : outcome Status (Paged PEntity) :=
  let? entities := match outcome_mapM entity_into (page_items _ page) with Ok es => Ok es | _ => Panic end in
  Ok (mkPaged entities (default EmptyString (page_next_cursor _ page))).
Definition retrieve_entities (query : option PQuery) : st DojoWorld Status (Paged PEntity) :=
  let! query := st_lift (parse_query query_try_from query) in
  let! entities := ask (rs_entities query) in st_lift (paged_entities entities).
Definition retrieve_event_messages (query : option PQuery) : st DojoWorld Status (Paged PEntity) :=
  let! query := st_lift (parse_query query_try_from query) in
  let! entities := ask (rs_event_messages query) in st_lift (paged_entities entities).
(** [query.into()] only panics *)
Definition retrieve_events (query : option PEventQuery) : st DojoWorld Status (Paged PEvent) :=
  let! query := st_lift (ok_or (InvalidArgument "Missing query argument") query) in
  let! query := st_lift (match event_query_from query with Ok q => Ok q | _ => Panic end) in
  let! events := ask (rs_events query) in st_ret (paged event_into events).
Definition retrieve_controllers (query : option PControllerQuery) : st DojoWorld Status (Paged PController) :=
  let! query := st_lift (parse_query controller_query_try_from query) in
  let! controllers := ask (rs_controllers query) in st_ret (paged controller_into controllers).
Definition retrieve_aggregations (query : option PAggregationQuery) : st DojoWorld Status (Paged PAggregationEntry) :=
  let! query := st_lift (parse_query aggregation_query_try_from query) in
  let! aggregations := ask (rs_aggregations query) in st_ret (paged aggregation_into aggregations).
Definition retrieve_activities (query : option PActivityQuery) : st DojoWorld Status (Paged PActivity) :=
  let! query := st_lift (parse_query activity_query_try_from query) in
  let! activities := ask (rs_activities query) in st_ret (paged activity_into activities).
Definition retrieve_achievements (query : option PAchievementQuery) : st DojoWorld Status (Paged PAchievement) :=
  let! query := st_lift (parse_query achievement_query_try_from query) in
  let! achievements := ask (rs_achievements query) in st_ret (paged achievement_into achievements).
Definition retrieve_player_achievements (query : option PPlayerAchievementQuery) : st DojoWorld Status (Paged PPlayerAchievementEntry) :=
  let! query := st_lift (parse_query player_query_try_from query) in
  let! page := ask (rs_player_achievements query) in st_ret (paged entry_into page).
Definition search (query : option PSearchQuery) : st DojoWorld Status (option PSearchResponse) :=
  let! query := st_lift (parse_query search_query_try_from query) in
  let! response := ask (rs_search query) in st_ret (Some (response_into response)).
Definition retrieve_contracts (query : option PContractQuery) : st DojoWorld Status (list PContract) :=
  let! query := st_lift (parse_query contract_query_try_from query) in
  let! contracts := ask (rs_contracts query) in st_ret (contract_into <$> contracts).
Definition retrieve_tokens (query : option PTokenQuery) : st DojoWorld Status (Paged PToken) :=
  let! query := st_lift (parse_query token_query_try_from query) in
  let! tokens := ask (rs_tokens query) in st_ret (paged token_into tokens).
Definition retrieve_token_contracts (query : option PTokenContractQuery) : st DojoWorld Status (Paged PTokenContract) :=
  let! query := st_lift (parse_query token_contract_query_try_from query) in
  let! token_contracts := ask (rs_token_contracts query) in st_ret (paged tcontract_into token_contracts).
Definition retrieve_token_transfers (query : option PTokenTransferQuery) : st DojoWorld Status (Paged PTokenTransfer) :=
  let! query := st_lift (parse_query transfer_query_try_from query) in
  let! transfers := ask (rs_token_transfers query) in st_ret (paged transfer_into transfers).
Definition retrieve_token_balances (query : option PTokenBalanceQuery) : st DojoWorld Status (Paged PTokenBalance) :=
  let! query := st_lift (parse_query balance_query_try_from query) in
  let! balances := ask (rs_token_balances query) in st_ret (paged balance_into balances).

(** ** Worlds *)
(** [worlds.entry(model.world_address).or_default().push(model.into())] *)
Definition add_model (worlds : gmap Felt (list PModel)) (model : Model) : outcome string (gmap Felt (list PModel)) :=
  let? p := match model_into model with Ok p => Ok p | _ => Panic end in
  Ok (<[model_world_address model := default [] (worlds !! model_world_address model) ++ [p]]> worlds).
(** [format!("{:#x}", world_address)] *)
Definition proto_world (entry : Felt * list PModel) : PWorld := mkPWorld (SqlString.format_hex 0 entry.1) entry.2.
Definition worlds_of (world_addresses : list Felt) : st DojoWorld string (list PWorld) := λ w,
  (let? models := map_err (λ e, "Failed to get models from cache: " +:+ rs_error_text e)
                    (rs_models world_addresses [] (storage w)) in
   let? worlds := fold_outcome add_model models ∅ in
   Ok (proto_world <$> hm_iter worlds), w).
Definition model (world_address : Felt) (namespace name : string) : st DojoWorld string PModel := λ w,
  (let? model := map_err (λ e, "Failed to get model from cache: " +:+ rs_error_text e)
                   (rs_model world_address (selector_from_names namespace name) (storage w)) in
   match model_into model with Ok p => Ok p | _ => Panic end, w).
(** The request: [e.to_string()] of the error is its text. *)
Definition worlds (world_addresses : list Bytes) : st DojoWorld Status (list PWorld) :=
  st_map_err Internal (worlds_of (felt_from_bytes <$> world_addresses)).

(** ** Subscriptions *)
(** [ReceiverStream::new(self.manager.add_subscriber(..).await)] *)
Definition subscribe {F P} (get : DojoWorld → State F P) (set : State F P → DojoWorld → DojoWorld)
    (add : State F P → Manager.Added * State F P) : st DojoWorld Status Subscription := λ w,
  match add (get w) with
  | (Manager.Subscribed, s) => (Ok (Stream (length (Manager.channels (get w)))), set s w)
  | (Manager.AddPanics, s) => (Panic, set s w)
  | (Manager.AddWaits, s) => (Ok NeverReturns, set s w)
  end.
Definition update {F P} (get : DojoWorld → State F P) (set : State F P → DojoWorld → DojoWorld)
    (change : State F P → State F P) : st DojoWorld Status unit := st_modify (λ w, set (change (get w)) w).
(** [.map(|c| c.try_into()).transpose().map_err(|e| Status::internal(..))?] *)
Definition optional {P A} (try_from : P → outcome ProtoError A) (o : option P) : outcome Status (option A) :=
  map_err (λ e, Internal (proto_error_text e)) (outcome_option try_from o).
(** [U256::from_be_slice] panics when there are not 32 bytes *)
Definition token_ids_from (l : list Bytes) : outcome Status (list U256) := outcome_mapM u256_from_slice l.
Definition felts_from (l : list Bytes) : list Felt := felt_from_bytes <$> l.

Definition subscribe_transactions (id : Z) (filter : option PTransactionFilter) : st DojoWorld Status Subscription :=
  let! filter := st_lift (optional tx_filter_try_from filter) in
  subscribe transaction_manager set_transaction_manager (transaction_add_subscriber config id filter).
Definition subscribe_aggregations (id : Z) (aggregator_ids entity_ids : list string) : st DojoWorld Status Subscription :=
  subscribe aggregation_manager set_aggregation_manager (aggregation_add_subscriber config id (mkAggregationFilter aggregator_ids entity_ids)).
Definition update_aggregations_subscription (id : Z) (aggregator_ids entity_ids : list string) : st DojoWorld Status unit :=
  update aggregation_manager set_aggregation_manager (aggregation_update_subscriber id (mkAggregationFilter aggregator_ids entity_ids)).
Definition activity_filter (world_addresses : list Bytes) (namespaces : list string) (caller_addresses : list Bytes) : ActivityFilter :=
  mkActivityFilter (felts_from world_addresses) namespaces (felts_from caller_addresses).
Definition subscribe_activities (id : Z) (world_addresses : list Bytes) (namespaces : list string) (caller_addresses : list Bytes)
  : st DojoWorld Status Subscription :=
  subscribe activity_manager set_activity_manager
    (activity_add_subscriber config id (activity_filter world_addresses namespaces caller_addresses)).
Definition update_activities_subscription (id : Z) (world_addresses : list Bytes) (namespaces : list string) (caller_addresses : list Bytes)
  : st DojoWorld Status unit :=
  update activity_manager set_activity_manager (activity_update_subscriber id (activity_filter world_addresses namespaces caller_addresses)).
Definition progression_filter (world_addresses : list Bytes) (namespaces : list string) (player_addresses : list Bytes)
    (achievement_ids : list string) : AchievementProgressionFilter :=
  mkProgressionFilter (felts_from world_addresses) namespaces (felts_from player_addresses) achievement_ids.
Definition subscribe_achievement_progressions (id : Z) (world_addresses : list Bytes) (namespaces : list string)
    (player_addresses : list Bytes) (achievement_ids : list string) : st DojoWorld Status Subscription :=
  subscribe achievement_progression_manager set_achievement_progression_manager
    (progression_add_subscriber config id (progression_filter world_addresses namespaces player_addresses achievement_ids)).
Definition update_achievement_progressions_subscription (id : Z) (world_addresses : list Bytes) (namespaces : list string)
    (player_addresses : list Bytes) (achievement_ids : list string) : st DojoWorld Status unit :=
  update achievement_progression_manager set_achievement_progression_manager
    (progression_update_subscriber id (progression_filter world_addresses namespaces player_addresses achievement_ids)).
Definition subscribe_tokens (id : Z) (contract_addresses token_ids : list Bytes) : st DojoWorld Status Subscription :=
  let! token_ids := st_lift (token_ids_from token_ids) in
  subscribe token_manager set_token_manager (token_add_subscriber config id (felts_from contract_addresses) token_ids).
Definition update_tokens_subscription (id : Z) (contract_addresses token_ids : list Bytes) : st DojoWorld Status unit :=
  let! token_ids := st_lift (token_ids_from token_ids) in
  update token_manager set_token_manager (token_update_subscriber id (felts_from contract_addresses) token_ids).
Definition subscribe_token_transfers (id : Z) (contract_addresses account_addresses token_ids : list Bytes) : st DojoWorld Status Subscription :=
  let! token_ids := st_lift (token_ids_from token_ids) in
  subscribe token_transfer_manager set_token_transfer_manager
    (transfer_add_subscriber config id (felts_from contract_addresses) (felts_from account_addresses) token_ids).
Definition update_token_transfers_subscription (id : Z) (contract_addresses account_addresses token_ids : list Bytes) : st DojoWorld Status unit :=
  let! token_ids := st_lift (token_ids_from token_ids) in
  update token_transfer_manager set_token_transfer_manager
    (transfer_update_subscriber id (felts_from contract_addresses) (felts_from account_addresses) token_ids).
Definition subscribe_token_balances (id : Z) (contract_addresses account_addresses token_ids : list Bytes) : st DojoWorld Status Subscription :=
  let! token_ids := st_lift (token_ids_from token_ids) in
  subscribe token_balance_manager set_token_balance_manager
    (balance_add_subscriber config id (felts_from contract_addresses) (felts_from account_addresses) token_ids).
Definition update_token_balances_subscription (id : Z) (contract_addresses account_addresses token_ids : list Bytes) : st DojoWorld Status unit :=
  let! token_ids := st_lift (token_ids_from token_ids) in
  update token_balance_manager set_token_balance_manager
    (balance_update_subscriber id (felts_from contract_addresses) (felts_from account_addresses) token_ids).
Definition subscribe_contracts (id : Z) (query : option PContractQuery) : st DojoWorld Status Subscription :=
  let! query := st_lift (parse_query contract_query_try_from query) in
  let! contracts := ask (rs_contracts query) in
  subscribe contract_manager set_contract_manager
    (λ s, default (Manager.AddPanics, s) (contract_add_subscriber config (Some contracts) id query s)).
Definition subscribe_entities (id : Z) (clause : option PClause) (world_addresses : list Bytes) : st DojoWorld Status Subscription :=
  let! clause := st_lift (optional clause_try_from clause) in
  subscribe entity_manager set_entity_manager (entity_add_subscriber config id clause (felts_from world_addresses)).
Definition update_entities_subscription (id : Z) (clause : option PClause) (world_addresses : list Bytes) : st DojoWorld Status unit :=
  let! clause := st_lift (optional clause_try_from clause) in
  update entity_manager set_entity_manager (entity_update_subscriber id clause (felts_from world_addresses)).
Definition subscribe_event_messages (id : Z) (clause : option PClause) (world_addresses : list Bytes) : st DojoWorld Status Subscription :=
  let! clause := st_lift (optional clause_try_from clause) in
  subscribe event_message_manager set_event_message_manager (event_message_add_subscriber config id clause (felts_from world_addresses)).
Definition update_event_messages_subscription (id : Z) (clause : option PClause) (world_addresses : list Bytes) : st DojoWorld Status unit :=
  let! clause := st_lift (optional clause_try_from clause) in
  update event_message_manager set_event_message_manager (event_message_update_subscriber id clause (felts_from world_addresses)).
Definition subscribe_events (id : Z) (keys : list PKeysClause) : st DojoWorld Status Subscription :=
  subscribe event_manager set_event_manager (event_add_subscriber config id (keys_clause_from <$> keys)).

(** ** Messages *)
Definition on_storage {E A} (m : st S E A) : st DojoWorld E A := st_zoom storage set_storage m.
(** [self.messaging.validate_and_set_entity(..)]; [clock] gives the time in milliseconds and in
    seconds when the message is handled *)
Definition handle_message (clock : Z * Z) (signature : list Felt) (message : string) (world_address : Felt) : st DojoWorld Status string :=
  let! typed_data := st_lift (ok_or (InvalidArgument "Invalid message") (typed_data_from_json message)) in
  st_map_err (λ e, Internal (messaging_error_text e))
    (on_storage (Messaging.validate_and_set_entity messaging_config clock.1 clock.2 world_address typed_data signature)).
(** [tx.send(message)], which fails when the receiver has been dropped *)
Definition relay (message : Message) : st DojoWorld Status unit := λ w,
  match cross_messaging_tx w with
  | None => (Ok tt, w)
  | Some (true, sent) => (Ok tt, set_cross_messaging_tx (Some (true, sent ++ [message])) w)
  | Some (false, _) => (Err (Internal "channel closed"), w)
  end.
Definition publish_message (clock : Z * Z) (signature : list Bytes) (message : string) (world_address : Bytes) : st DojoWorld Status string :=
  let signature := felts_from signature in
  let world_address := felt_from_bytes world_address in
  let! entity_id := handle_message clock signature message world_address in
  relay (mkMessage signature message world_address) ;;;
  st_ret entity_id.
Fixpoint publish_message_batch (messages : list (Z * Z * (list Bytes * string * Bytes))) : st DojoWorld Status (list string) :=
  match messages with
  | [] => st_ret []
  | (clock, (signature, message, world_address)) :: messages =>
      let! entity_id := handle_message clock (felts_from signature) message (felt_from_bytes world_address) in
      let! responses := publish_message_batch messages in
      st_ret (entity_id :: responses)
  end.

(** ** Raw SQL *)
Definition get_or_null {A} (c : A → PSqlValueType) (o : option (option A)) : outcome Status (option PSqlValueType) :=
  let? v := unwrap o in Ok (Some (match v with Some a => c a | None => PSqlNull true end)).
Definition map_column (type : string) (v : SqlValue) : outcome Status (option PSqlValueType) :=
  if String.eqb type "TEXT" then get_or_null PSqlText (get_text v)
  else if String.eqb type "INTEGER" then get_or_null PSqlInteger (get_i64 v)
  else if String.eqb type "REAL" then get_or_null PSqlReal (get_f64 v)
  else if String.eqb type "BLOB" then get_or_null PSqlBlob (get_blob v)
  else match try_get_i64 v with
  | Some n => Ok (Some (PSqlInteger n))
  | None => match try_get_f64 v with
    | Some f => Ok (Some (PSqlReal f))
    | None => match try_get_text v with
      | Some s => Ok (Some (PSqlText s))
      | None => get_or_null PSqlBlob (get_blob v)
      end
    end
  end.
Definition map_row_to_proto (row : RawRow) : outcome Status (gmap string (option PSqlValueType)) :=
  fold_outcome (λ fields '(name, type, v), let? value := map_column type v in Ok (<[name := value]> fields)) row ∅.
Definition execute_sql (query : string) : st DojoWorld Status (list (gmap string (option PSqlValueType))) := λ w,
  (if raw_sql then
     match rs_fetch_all query (storage w) with
     | inl e => Err (InvalidArgument ("Query error: " +:+ e))
     | inr rows => outcome_mapM map_row_to_proto rows
     end
   else Err (PermissionDenied "SQL endpoint is disabled."), w).
End server.
End Server.
