(* ===== verification/Client.v ===== *)
(** * The clients ([crates/grpc/client/src/lib.rs], [crates/client/src/lib.rs])

    [WorldClient] sends requests to the server and maps the streams of its subscriptions;
    [Client] turns its responses into the types of the protocol. Both are modelled over
    the handlers of Grpc.v: a call runs the handler and brings back its response or its
    [Status]. A response that is too large for the transport, and connections that fail,
    are left out; what a client is told when a handler panics is a parameter. *)

From S2P Require Import Prelude Proto SqlString Executor ModelTable Wire Messages Aggregator Matching Subscriptions SubscriptionKinds Messaging Grpc.
Local Open Scope Z_scope.
Local Open Scope torii_scope.

(** [torii_grpc_client::Error], [torii_client::error::Error]: what a call can give *)
Inductive GrpcError : Type := GrpcStatus (status : Status) | GrpcProto (e : ProtoError).
Inductive ClientError : Type := GrpcClientError (e : GrpcError) | ClientProto (e : ProtoError).

Module Client.
Import Msg Kinds Server.

Section client.
Context `{HashOrder, Chrono, SqlString.FeltFromStr, SerdeJson} {DM : DojoMessage} {DV : DojoValues} {ME : MessageEnv} {SV : ServerEnv} {SQ : SqlDecode}.
Context {S SE : Type} {RS : ReadOnlyStorage S SE} {MS : MessageStorage S SE}.
Context (config : GrpcConfig) (raw_sql : bool) (messaging_config : Messaging.MessagingConfig).
(** what is reported for a handler that panics *)
Context (lost : string).
#[local] Abbreviation World := (DojoWorld (S := S)).

(** [self.inner.method(request).await.map_err(Error::Grpc).map(|res| res.into_inner())] *)
Definition rpc {A} (handler : st World Status A) : st World GrpcError A := λ w,
  match handler w with
  | (Ok a, w) => (Ok a, w)
  | (Err s, w) => (Err (GrpcStatus s), w)
  | (Panic, w) => (Err (GrpcStatus (Disconnected lost)), w)
  end.
Definition felts_into (l : list Felt) : list Bytes := felt_to_bytes <$> l.
Definition token_ids_into (l : list U256) : list Bytes := u256_to_bytes <$> l.

(** ** [WorldClient] *)
Definition wc_worlds (world_addresses : list Felt) : st World GrpcError (list Msg.World) :=
  let! worlds := rpc (Server.worlds (felts_into world_addresses)) in
  st_lift (map_err GrpcProto (outcome_mapM world_try_from worlds)).
Definition wc_retrieve_controllers (query : ControllerQuery) := rpc (retrieve_controllers (Some (controller_query_into query))).
Definition wc_retrieve_contracts (query : ContractQuery) := rpc (retrieve_contracts (Some (contract_query_into query))).
Definition wc_retrieve_transactions (query : TransactionQuery) := rpc (retrieve_transactions (Some (tx_query_into query))).
Definition wc_retrieve_aggregations (query : AggregationQuery) := rpc (retrieve_aggregations (Some (aggregation_query_into query))).
Definition wc_retrieve_activities (query : ActivityQuery) := rpc (retrieve_activities (Some (activity_query_into query))).
Definition wc_retrieve_achievements (query : AchievementQuery) := rpc (retrieve_achievements (Some (achievement_query_into query))).
Definition wc_retrieve_player_achievements (query : PlayerAchievementQuery) := rpc (retrieve_player_achievements (Some (player_query_into query))).
Definition wc_retrieve_tokens (query : TokenQuery) := rpc (retrieve_tokens (Some (token_query_into query))).
Definition wc_retrieve_token_balances (query : TokenBalanceQuery) := rpc (retrieve_token_balances (Some (balance_query_into query))).
Definition wc_retrieve_token_contracts (query : TokenContractQuery) := rpc (retrieve_token_contracts (Some (token_contract_query_into query))).
Definition wc_retrieve_token_transfers (query : TokenTransferQuery) := rpc (retrieve_token_transfers (Some (transfer_query_into query))).
Definition wc_retrieve_entities (query : Query) := rpc (retrieve_entities (Some (query_into query))).
Definition wc_retrieve_event_messages (query : Query) := rpc (retrieve_event_messages (Some (query_into query))).
Definition wc_retrieve_events (query : EventQuery) := rpc (retrieve_events (Some (event_query_into query))).
Definition wc_search (query : SearchQuery) : st World GrpcError SearchResponse :=
  let! response := rpc (Server.search (Some (search_query_into query))) in
  st_ret (match response with Some r => response_from r | None => mkSearchResponse 0 [] end).
Definition wc_execute_sql (query : string) : st World GrpcError (list (gmap string SqlValue)) :=
  let! rows := rpc (execute_sql raw_sql query) in st_ret (sql_row_from <$> rows).
Definition wc_publish_message (clock : Z * Z) (message : Message) :=
  rpc (publish_message messaging_config clock (felts_into (message_signature message)) (message_text message)
         (felt_to_bytes (message_world_address message))).
Definition wc_publish_message_batch (messages : list (Z * Z * Message)) :=
  rpc (publish_message_batch messaging_config
         ((λ m, (m.1, (felts_into (message_signature m.2), message_text m.2, felt_to_bytes (message_world_address m.2)))) <$> messages)).

(** Subscriptions; [id] is the identifier the server gives. *)
Definition wc_subscribe_activities (id : Z) (world_addresses : list Felt) (namespaces : list string) (caller_addresses : list Felt) :=
  rpc (subscribe_activities config id (felts_into world_addresses) namespaces (felts_into caller_addresses)).
Definition wc_update_activities_subscription (id : Z) (world_addresses : list Felt) (namespaces : list string) (caller_addresses : list Felt) :=
  rpc (update_activities_subscription id (felts_into world_addresses) namespaces (felts_into caller_addresses)).
Definition wc_subscribe_achievement_progressions (id : Z) (world_addresses : list Felt) (namespaces : list string)
    (player_addresses : list Felt) (achievement_ids : list string) :=
  rpc (subscribe_achievement_progressions config id (felts_into world_addresses) namespaces (felts_into player_addresses) achievement_ids).
Definition wc_update_achievement_progressions_subscription (id : Z) (world_addresses : list Felt) (namespaces : list string)
    (player_addresses : list Felt) (achievement_ids : list string) :=
  rpc (update_achievement_progressions_subscription id (felts_into world_addresses) namespaces (felts_into player_addresses) achievement_ids).
Definition wc_subscribe_aggregations (id : Z) (aggregator_ids entity_ids : list string) :=
  rpc (subscribe_aggregations config id aggregator_ids entity_ids).
Definition wc_update_aggregations_subscription (id : Z) (aggregator_ids entity_ids : list string) :=
  rpc (update_aggregations_subscription id aggregator_ids entity_ids).
Definition wc_subscribe_transactions (id : Z) (filter : option TransactionFilter) :=
  rpc (subscribe_transactions config id (tx_filter_into <$> filter)).
Definition wc_subscribe_tokens (id : Z) (contract_addresses : list Felt) (token_ids : list U256) :=
  rpc (subscribe_tokens config id (felts_into contract_addresses) (token_ids_into token_ids)).
Definition wc_update_tokens_subscription (id : Z) (contract_addresses : list Felt) (token_ids : list U256) :=
  rpc (update_tokens_subscription id (felts_into contract_addresses) (token_ids_into token_ids)).
Definition wc_subscribe_token_transfers (id : Z) (contract_addresses account_addresses : list Felt) (token_ids : list U256) :=
  rpc (subscribe_token_transfers config id (felts_into contract_addresses) (felts_into account_addresses) (token_ids_into token_ids)).
Definition wc_update_token_transfers_subscription (id : Z) (contract_addresses account_addresses : list Felt) (token_ids : list U256) :=
  rpc (update_token_transfers_subscription id (felts_into contract_addresses) (felts_into account_addresses) (token_ids_into token_ids)).
Definition wc_subscribe_token_balances (id : Z) (contract_addresses account_addresses : list Felt) (token_ids : list U256) :=
  rpc (subscribe_token_balances config id (felts_into contract_addresses) (felts_into account_addresses) (token_ids_into token_ids)).
Definition wc_update_token_balances_subscription (id : Z) (contract_addresses account_addresses : list Felt) (token_ids : list U256) :=
  rpc (update_token_balances_subscription id (felts_into contract_addresses) (felts_into account_addresses) (token_ids_into token_ids)).
Definition wc_subscribe_contracts (id : Z) (query : ContractQuery) := rpc (subscribe_contracts config id (Some (contract_query_into query))).
Definition wc_subscribe_entities (id : Z) (clause : option Clause) (world_addresses : list Felt) :=
  rpc (subscribe_entities config id (clause_into <$> clause) (felts_into world_addresses)).
Definition wc_update_entities_subscription (id : Z) (clause : option Clause) (world_addresses : list Felt) :=
  rpc (update_entities_subscription id (clause_into <$> clause) (felts_into world_addresses)).
Definition wc_subscribe_event_messages (id : Z) (clause : option Clause) (world_addresses : list Felt) :=
  rpc (subscribe_event_messages config id (clause_into <$> clause) (felts_into world_addresses)).
Definition wc_update_event_messages_subscription (id : Z) (clause : option Clause) (world_addresses : list Felt) :=
  rpc (update_event_messages_subscription id (clause_into <$> clause) (felts_into world_addresses)).
Definition wc_subscribe_events (id : Z) (keys : list KeysClause) := rpc (subscribe_events config id (keys_clause_into <$> keys)).

(** ** The items of the streams *)
(** [payload.map_or(default, |p| p.try_into().expect(..))] *)
Definition item_or {P A} (default : A) (try_from : P → outcome ProtoError A) (payload : option P) : outcome GrpcError A :=
  match payload with
  | None => Ok default
  | Some p => match try_from p with Ok a => Ok a | _ => Panic end
  end.
Definition with_id {P A} (default : A) (try_from : P → outcome ProtoError A) (r : Reply P) : outcome GrpcError (Z * A) :=
  let? a := item_or default try_from (payload r) in Ok (subscription_id r, a).

(** [Default], with the epoch for times *)
Definition Activity_default : Activity := mkActivity EmptyString 0 EmptyString 0 0 0 0 ∅ 0.
Definition AchievementProgression_default : AchievementProgression :=
  mkAchievementProgression EmptyString EmptyString EmptyString 0 EmptyString 0 0 false None 0 0.
(** [Utc::now()] *)
Definition AggregationEntry_default (now : DateTime) : AggregationEntry :=
  mkAggregationEntry EmptyString EmptyString EmptyString 0 EmptyString 0 EmptyString now now.
Definition Transaction_default : Transaction := mkTransaction 0 0 [] 0 [] 0 0 EmptyString 0 [] [].
Definition Token_default : Token := mkToken None 0 EmptyString EmptyString 0 EmptyString None.
Definition TokenTransfer_default : TokenTransfer := mkTokenTransfer EmptyString 0 0 0 0 None 0 None.
Definition TokenBalance_default : TokenBalance := mkTokenBalance 0 0 0 None.
Definition Event_default : Event := mkEvent [] [] 0.
Definition Entity_default : Entity := mkEntity 0 0 [] 0 0 0.

Definition activity_item : Reply PActivity → outcome GrpcError (Z * Activity) := with_id Activity_default activity_try_from.
Definition progression_item : Reply PAchievementProgression → outcome GrpcError (Z * AchievementProgression) :=
  with_id AchievementProgression_default progression_try_from.
Definition aggregation_item (now : DateTime) : Reply PAggregationEntry → outcome GrpcError (Z * AggregationEntry) :=
  with_id (AggregationEntry_default now) aggregation_try_from.
Definition transaction_item : option PTransaction → outcome GrpcError Transaction := item_or Transaction_default tx_try_from.
Definition token_item : Reply PToken → outcome GrpcError (Z * Token) := with_id Token_default token_try_from.
Definition token_transfer_item (r : Reply PTokenTransfer) : outcome GrpcError TokenTransfer :=
  item_or TokenTransfer_default transfer_try_from (payload r).
Definition token_balance_item : Reply PTokenBalance → outcome GrpcError (Z * TokenBalance) := with_id TokenBalance_default balance_try_from.
(** [.map(|c| c.try_into().expect(..)).expect(..)] *)
Definition contract_item (r : option PContract) : outcome GrpcError Contract :=
  match r with Some c => match contract_try_from c with Ok c => Ok c | _ => Panic end | None => Panic end.
Definition entity_item : Reply PEntity → outcome GrpcError (Z * Entity) := with_id Entity_default entity_try_from.
Definition event_item (r : option PEvent) : outcome GrpcError Event := Ok (match r with Some e => event_from e | None => Event_default end).

(** ** [Client] *)
(** [?] on the result of [WorldClient] *)
Definition grpc {A} (m : st World GrpcError A) : st World ClientError A := st_map_err GrpcClientError m.
(** [items.into_iter().map(TryInto::try_into).collect::<Result<_, _>>()?] *)
Definition convert {P A} (try_from : P → outcome ProtoError A) (items : list P) : outcome ClientError (list A) :=
  map_err ClientProto (outcome_mapM try_from items).
Definition next_cursor_of (cursor : string) : option string := if String.eqb cursor EmptyString then None else Some cursor.
Definition page_of {P A} (try_from : P → outcome ProtoError A) (r : Paged P) : outcome ClientError (Page A) :=
  let? items := convert try_from (paged_items r) in Ok (mkPage _ items (next_cursor_of (paged_next_cursor r))).

Definition publish (clock : Z * Z) (message : Message) : st World ClientError string := grpc (wc_publish_message clock message).
Definition publish_batch (messages : list (Z * Z * Message)) : st World ClientError (list string) := grpc (wc_publish_message_batch messages).
Definition worlds (world_addresses : list Felt) : st World ClientError (list Msg.World) := grpc (wc_worlds world_addresses).
Definition controllers (query : ControllerQuery) : st World ClientError (Page Controller) :=
  let! r := grpc (wc_retrieve_controllers query) in st_lift (page_of controller_try_from r).
Definition contracts (query : ContractQuery) : st World ClientError (list Contract) :=
  let! r := grpc (wc_retrieve_contracts query) in st_lift (convert contract_try_from r).
Definition tokens (query : TokenQuery) : st World ClientError (Page Token) :=
  let! r := grpc (wc_retrieve_tokens query) in st_lift (page_of token_try_from r).
Definition token_balances (query : TokenBalanceQuery) : st World ClientError (Page TokenBalance) :=
  let! r := grpc (wc_retrieve_token_balances query) in st_lift (page_of balance_try_from r).
Definition token_contracts (query : TokenContractQuery) : st World ClientError (Page TokenContract) :=
  let! r := grpc (wc_retrieve_token_contracts query) in st_lift (page_of tcontract_try_from r).
Definition token_transfers (query : TokenTransferQuery) : st World ClientError (Page TokenTransfer) :=
  let! r := grpc (wc_retrieve_token_transfers query) in st_lift (page_of transfer_try_from r).
Definition transactions (query : TransactionQuery) : st World ClientError (Page Transaction) :=
  let! r := grpc (wc_retrieve_transactions query) in st_lift (page_of tx_try_from r).
Definition aggregations (query : AggregationQuery) : st World ClientError (Page AggregationEntry) :=
  let! r := grpc (wc_retrieve_aggregations query) in st_lift (page_of aggregation_try_from r).
Definition activities (query : ActivityQuery) : st World ClientError (Page Activity) :=
  let! r := grpc (wc_retrieve_activities query) in st_lift (page_of activity_try_from r).
Definition achievements (query : AchievementQuery) : st World ClientError (Page Achievement) :=
  let! r := grpc (wc_retrieve_achievements query) in st_lift (page_of achievement_try_from r).
Definition player_achievements (query : PlayerAchievementQuery) : st World ClientError (Page PlayerAchievementEntry) :=
  let! r := grpc (wc_retrieve_player_achievements query) in st_lift (page_of entry_try_from r).
Definition entities (query : Query) : st World ClientError (Page Entity) :=
  let! r := grpc (wc_retrieve_entities query) in st_lift (page_of entity_try_from r).
Definition event_messages (query : Query) : st World ClientError (Page Entity) :=
  let! r := grpc (wc_retrieve_event_messages query) in st_lift (page_of entity_try_from r).
Definition starknet_events (query : EventQuery) : st World ClientError (Page Event) :=
  let! r := grpc (wc_retrieve_events query) in
  st_ret (mkPage _ (event_from <$> paged_items r) (next_cursor_of (paged_next_cursor r))).
Definition sql (query : string) : st World ClientError (list (gmap string SqlValue)) := grpc (wc_execute_sql query).
Definition search (query : SearchQuery) : st World ClientError SearchResponse := grpc (wc_search query).

Definition on_activity_updated id world_addresses namespaces caller_addresses := grpc (wc_subscribe_activities id world_addresses namespaces caller_addresses).
Definition update_activity_subscription id world_addresses namespaces caller_addresses :=
  grpc (wc_update_activities_subscription id world_addresses namespaces caller_addresses).
Definition on_achievement_progression_updated id world_addresses namespaces player_addresses achievement_ids :=
  grpc (wc_subscribe_achievement_progressions id world_addresses namespaces player_addresses achievement_ids).
Definition update_achievement_progression_subscription id world_addresses namespaces player_addresses achievement_ids :=
  grpc (wc_update_achievement_progressions_subscription id world_addresses namespaces player_addresses achievement_ids).
Definition on_aggregation_updated id aggregator_ids entity_ids := grpc (wc_subscribe_aggregations id aggregator_ids entity_ids).
Definition update_aggregation_subscription id aggregator_ids entity_ids := grpc (wc_update_aggregations_subscription id aggregator_ids entity_ids).
Definition on_transaction id filter := grpc (wc_subscribe_transactions id filter).
Definition on_entity_updated id clause world_addresses := grpc (wc_subscribe_entities id clause world_addresses).
Definition update_entity_subscription id clause world_addresses := grpc (wc_update_entities_subscription id clause world_addresses).
Definition on_event_message_updated id clause world_addresses := grpc (wc_subscribe_event_messages id clause world_addresses).
Definition update_event_message_subscription id clause world_addresses := grpc (wc_update_event_messages_subscription id clause world_addresses).
Definition on_starknet_event id keys := grpc (wc_subscribe_events id keys).
(** [contract_address.map(|c| vec![c]).unwrap_or_default()] *)
Definition on_contract_updated id (contract_address : option Felt) :=
  grpc (wc_subscribe_contracts id (mkContractQuery (match contract_address with Some c => [c] | None => [] end) [])).
Definition on_token_balance_updated id contract_addresses account_addresses token_ids :=
  grpc (wc_subscribe_token_balances id contract_addresses account_addresses token_ids).
Definition update_token_balance_subscription id contract_addresses account_addresses token_ids :=
  grpc (wc_update_token_balances_subscription id contract_addresses account_addresses token_ids).
Definition on_token_updated id contract_addresses token_ids := grpc (wc_subscribe_tokens id contract_addresses token_ids).
Definition update_token_subscription id contract_addresses token_ids := grpc (wc_update_tokens_subscription id contract_addresses token_ids).
Definition on_token_transfer_updated id contract_addresses account_addresses token_ids :=
  grpc (wc_subscribe_token_transfers id contract_addresses account_addresses token_ids).
Definition update_token_transfer_subscription id contract_addresses account_addresses token_ids :=
  grpc (wc_update_token_transfers_subscription id contract_addresses account_addresses token_ids).
(** ** Reads through the server *)
(** [None], as the wire has it *)
Definition wire_cursor (cursor : option string) : option string :=
  match cursor with Some c => next_cursor_of c | None => None end.
Lemma wire_cursor_spec cursor : next_cursor_of (default EmptyString cursor) = wire_cursor cursor.
Proof. by destruct cursor. Qed.

(** The answer of a call: what the storage gave, its error, or a lost connection when it
    panicked; nothing is changed. *)
Definition answered {A B} (read : outcome SE A) (ok : A → Prop) (f : A → B) (answer : outcome ClientError B * World) (w : World) : Prop :=
  match read with
  | Ok a => ok a → answer = (Ok (f a), w)
  | Err e => answer = (Err (GrpcClientError (GrpcStatus (Internal (rs_error_text e)))), w)
  | Panic => answer = (Err (GrpcClientError (GrpcStatus (Disconnected lost))), w)
  end.
(** A page comes with its items, [norm]ed, and its cursor. *)
Definition reads_through {Q A} (call : Q → st World ClientError (Page A)) (read : Q → S → outcome SE (Page A))
    (q_ok : Q → Prop) (a_ok : A → Prop) (norm : A → A) : Prop := ∀ q w, q_ok q →
  answered (read q (storage w)) (λ page, Forall a_ok (page_items _ page))
    (λ page, mkPage _ (norm <$> page_items _ page) (wire_cursor (page_next_cursor _ page))) (call q w) w.

Lemma paged_through {Q PQ A P} (q_into : Q → PQ) q_try_from (read : Q → S → outcome SE (Page A)) (into : A → P) try_from
    (q_ok : Q → Prop) (a_ok : A → Prop) :
  (∀ q, q_ok q → q_try_from (q_into q) = Ok q) → (∀ a, a_ok a → try_from (into a) = Ok a) →
  reads_through (λ q,
    let! r := grpc (rpc (let! query := st_lift (parse_query q_try_from (Some (q_into q))) in
                         let! page := ask (read query) in st_ret (paged into page))) in
    st_lift (page_of try_from r)) read q_ok a_ok id.
Proof.
  intros Hq Ha q w Hok. unfold st_bind, st_lift, grpc, rpc, parse_query, ask, internal, st_map_err. cbn [ok_or outcome_bind].
  unfold invalid. rewrite Hq by done. cbn [map_err]. destruct (read q (storage w)) as [page|e|]; cbn [map_err fst snd answered]; [|done..].
  intros Hitems. cbn. unfold page_of, convert, paged. cbn [paged_items paged_next_cursor].
  rewrite (mapM_round into try_from) by (eapply Forall_impl; [exact Hitems|exact Ha]). cbn [map_err outcome_bind].
  by rewrite wire_cursor_spec, list_fmap_id.
Qed.

Lemma entities_through (read : Query → S → outcome SE (Page Entity)) :
  reads_through (λ q,
    let! r := grpc (rpc (let! query := st_lift (parse_query query_try_from (Some (query_into q))) in
                         let! page := ask (read query) in st_lift (paged_entities page))) in
    st_lift (page_of entity_try_from r)) read query_ok entity_ok entity_filled.
Proof.
  intros q w Hok. unfold st_bind, st_lift, grpc, rpc, parse_query, ask, internal, st_map_err. cbn [ok_or outcome_bind].
  unfold invalid. rewrite query_round by done. cbn [map_err]. destruct (read q (storage w)) as [page|e|]; cbn [map_err fst snd answered]; [|done..].
  intros Hitems. destruct (carries_mapM entity_into entity_try_from entity_filled (page_items _ page)) as (ps & Hinto & Hfrom).
  { eapply Forall_impl; [exact Hitems|]. apply entity_round. }
  unfold paged_entities. rewrite Hinto. cbn. unfold page_of, convert. cbn [paged_items paged_next_cursor]. rewrite Hfrom.
  cbn [map_err outcome_bind]. by rewrite wire_cursor_spec.
Qed.

Lemma events_through : reads_through starknet_events rs_events event_query_ok event_ok id.
Proof.
  intros q w Hok. unfold starknet_events, wc_retrieve_events, retrieve_events, st_bind, st_lift, grpc, rpc, ask, internal, st_map_err, st_ret.
  cbn [ok_or]. rewrite event_query_round by done. destruct (rs_events q (storage w)) as [page|e|]; cbn [map_err fst snd answered]; [|done..].
  intros Hitems. unfold paged. cbn. rewrite (list_round event_into event_from event_ok) by (done || apply event_round).
  by rewrite wire_cursor_spec, list_fmap_id.
Qed.

Lemma contracts_through q w : contract_query_ok q → answered (rs_contracts q (storage w)) (Forall contract_ok) id (contracts q w) w.
Proof.
  intros Hok. unfold contracts, wc_retrieve_contracts, retrieve_contracts, st_bind, st_lift, grpc, rpc, parse_query, ask, internal, st_map_err, st_ret.
  cbn [ok_or outcome_bind]. unfold invalid. rewrite contract_query_round by done. cbn [map_err].
  destruct (rs_contracts q (storage w)) as [cs|e|]; cbn [map_err fst snd answered]; [|done..]. intros Hitems. unfold convert.
  by rewrite (mapM_round contract_into contract_try_from) by (eapply Forall_impl; [exact Hitems|apply contract_round]).
Qed.
Lemma search_through q w : answered (rs_search q (storage w)) (λ _, True) id (search q w) w.
Proof.
  unfold search, wc_search, Server.search, st_bind, st_lift, grpc, rpc, parse_query, ask, internal, st_map_err, st_ret.
  cbn [ok_or outcome_bind]. unfold invalid. rewrite search_query_round. cbn [map_err].
  destruct (rs_search q (storage w)) as [r|e|]; cbn [map_err fst snd answered]; [|done..]. intros _. by rewrite response_round.
Qed.


(** ** Subscriptions through the server *)
Definition subscribed {F P} (get : World → Manager.State) set (add : Manager.State → Manager.Added * Manager.State) :
  st World ClientError Subscription := grpc (rpc (subscribe (F := F) (P := P) get set add)).
Definition updated {F P} (get : World → Manager.State) set (change : Manager.State → Manager.State) :
  st World ClientError unit := grpc (rpc (update (F := F) (P := P) get set change)).

Lemma felts_arrive l : Forall SqlString.felt_ok l → felts_from (felts_into l) = l.
Proof. apply felts_bytes. Qed.
Lemma token_ids_arrive l : Forall u256_ok l → token_ids_from (token_ids_into l) = Ok l.
Proof. induction 1 as [|v l Hv _ IH]; [done|]. unfold token_ids_from, token_ids_into in *. cbn. rewrite u256_bytes by done. cbn. by rewrite IH. Qed.
Lemma optional_arrives {A P} (into : A → P) try_from (o : option A) :
  (∀ a, o = Some a → try_from (into a) = Ok a) → optional try_from (into <$> o) = Ok o.
Proof. intros Ho. unfold optional. by rewrite option_round. Qed.
Lemma st_lift_ok {A B} (a : A) (k : A → st World Status B) : st_bind (st_lift (Ok a)) k = k a.
Proof. done. Qed.

Create HintDb client.
#[local] Hint Unfold on_entity_updated update_entity_subscription on_event_message_updated update_event_message_subscription
  on_starknet_event on_transaction on_token_updated update_token_subscription on_token_balance_updated
  update_token_balance_subscription on_token_transfer_updated update_token_transfer_subscription on_activity_updated
  update_activity_subscription on_achievement_progression_updated update_achievement_progression_subscription
  on_aggregation_updated update_aggregation_subscription wc_subscribe_entities wc_update_entities_subscription
  wc_subscribe_event_messages wc_update_event_messages_subscription wc_subscribe_events wc_subscribe_transactions
  wc_subscribe_tokens wc_update_tokens_subscription wc_subscribe_token_balances wc_update_token_balances_subscription
  wc_subscribe_token_transfers wc_update_token_transfers_subscription wc_subscribe_activities
  wc_update_activities_subscription wc_subscribe_achievement_progressions wc_update_achievement_progressions_subscription
  wc_subscribe_aggregations wc_update_aggregations_subscription subscribe_entities update_entities_subscription
  subscribe_event_messages update_event_messages_subscription subscribe_events subscribe_transactions subscribe_tokens
  update_tokens_subscription subscribe_token_balances update_token_balances_subscription subscribe_token_transfers
  update_token_transfers_subscription subscribe_activities update_activities_subscription subscribe_achievement_progressions
  update_achievement_progressions_subscription activity_filter progression_filter : client.
Ltac arrives :=
  intros;
  repeat first [rewrite felts_arrive by assumption | rewrite token_ids_arrive by assumption | rewrite st_lift_ok
    | rewrite optional_arrives by (intros; eauto using clause_round, tx_filter_round)
    | rewrite (list_round keys_clause_into keys_clause_from keys_clause_ok) by eauto using keys_clause_round];
  reflexivity.

(** What a client subscribes to is what the manager of the subscriptions is asked for,
    whatever the filter: the request to the server, and the bytes it travels as, change
    nothing. The same holds of updates of a subscription. *)
Theorem subscriptions_arrive :
  (∀ id clause ws, opt_ok clause_ok clause → Forall SqlString.felt_ok ws →
     on_entity_updated id clause ws = subscribed entity_manager set_entity_manager (entity_add_subscriber config id clause ws) ∧
     update_entity_subscription id clause ws = updated entity_manager set_entity_manager (entity_update_subscriber id clause ws) ∧
     on_event_message_updated id clause ws =
       subscribed event_message_manager set_event_message_manager (event_message_add_subscriber config id clause ws) ∧
     update_event_message_subscription id clause ws =
       updated event_message_manager set_event_message_manager (event_message_update_subscriber id clause ws)) ∧
  (∀ id keys, Forall keys_clause_ok keys →
     on_starknet_event id keys = subscribed event_manager set_event_manager (event_add_subscriber config id keys)) ∧
  (∀ id filter, opt_ok tx_filter_ok filter →
     on_transaction id filter = subscribed transaction_manager set_transaction_manager (transaction_add_subscriber config id filter)) ∧
  (∀ id cs ts, Forall SqlString.felt_ok cs → Forall u256_ok ts →
     on_token_updated id cs ts = subscribed token_manager set_token_manager (token_add_subscriber config id cs ts) ∧
     update_token_subscription id cs ts = updated token_manager set_token_manager (token_update_subscriber id cs ts)) ∧
  (∀ id cs accounts ts, Forall SqlString.felt_ok cs → Forall SqlString.felt_ok accounts → Forall u256_ok ts →
     on_token_balance_updated id cs accounts ts =
       subscribed token_balance_manager set_token_balance_manager (balance_add_subscriber config id cs accounts ts) ∧
     update_token_balance_subscription id cs accounts ts =
       updated token_balance_manager set_token_balance_manager (balance_update_subscriber id cs accounts ts) ∧
     on_token_transfer_updated id cs accounts ts =
       subscribed token_transfer_manager set_token_transfer_manager (transfer_add_subscriber config id cs accounts ts) ∧
     update_token_transfer_subscription id cs accounts ts =
       updated token_transfer_manager set_token_transfer_manager (transfer_update_subscriber id cs accounts ts)) ∧
  (∀ id ws namespaces callers, Forall SqlString.felt_ok ws → Forall SqlString.felt_ok callers →
     on_activity_updated id ws namespaces callers =
       subscribed activity_manager set_activity_manager (activity_add_subscriber config id (mkActivityFilter ws namespaces callers)) ∧
     update_activity_subscription id ws namespaces callers =
       updated activity_manager set_activity_manager (activity_update_subscriber id (mkActivityFilter ws namespaces callers))) ∧
  (∀ id ws namespaces players ids, Forall SqlString.felt_ok ws → Forall SqlString.felt_ok players →
     on_achievement_progression_updated id ws namespaces players ids =
       subscribed achievement_progression_manager set_achievement_progression_manager
         (progression_add_subscriber config id (mkProgressionFilter ws namespaces players ids)) ∧
     update_achievement_progression_subscription id ws namespaces players ids =
       updated achievement_progression_manager set_achievement_progression_manager
         (progression_update_subscriber id (mkProgressionFilter ws namespaces players ids))) ∧
  (∀ id aggregators es,
     on_aggregation_updated id aggregators es =
       subscribed aggregation_manager set_aggregation_manager (aggregation_add_subscriber config id (mkAggregationFilter aggregators es)) ∧
     update_aggregation_subscription id aggregators es =
       updated aggregation_manager set_aggregation_manager (aggregation_update_subscriber id (mkAggregationFilter aggregators es))).
Proof.
  autounfold with client.
  repeat split; arrives.
Qed.

(** ** Updates through the streams *)
(** Every update a manager sends to a subscriber is the item its stream yields, with the
    identifier of the subscription where the stream keeps it. *)
Lemma updates_arrive :
  (∀ idx e r, entity_ok (ewm_entity e) → entity_response idx e = Ok r → entity_item r = Ok (idx, entity_filled (ewm_entity e))) ∧
  (∀ idx e r, entity_ok (ewm_entity e) → event_message_response idx e = Ok r → entity_item r = Ok (idx, entity_filled (ewm_entity e))) ∧
  (∀ idx e r, event_ok (ewm_event e) → event_response idx e = Ok r → event_item r = Ok (ewm_event e)) ∧
  (∀ idx c r, contract_ok c → contract_response idx c = Ok r → contract_item r = Ok c) ∧
  (∀ idx t r, token_ok t → token_response idx t = Ok r → token_item r = Ok (idx, t)) ∧
  (∀ idx b r, balance_ok b → balance_response idx b = Ok r → token_balance_item r = Ok (idx, b)) ∧
  (∀ idx t r, transfer_ok t → transfer_response idx t = Ok r → token_transfer_item r = Ok t) ∧
  (∀ idx t r, tx_ok t → transaction_response idx t = Ok r → transaction_item r = Ok t) ∧
  (∀ idx a r, activity_ok a → activity_response idx a = Ok r → activity_item r = Ok (idx, a)) ∧
  (∀ now idx e r, aggregation_ok e → aggregation_response idx e = Ok r → aggregation_item now r = Ok (idx, e)) ∧
  (∀ idx p r, progression_ok p → progression_response idx p = Ok r → progression_item r = Ok (idx, p)).
Proof.
  split_and!.
  1-2: intros idx e r (p & Hinto & Hfrom)%entity_round; unfold entity_response, event_message_response; rewrite Hinto; intros [= <-];
    unfold entity_item, with_id, item_or; cbn; by rewrite Hfrom.
  - intros idx e r He [= <-]. unfold event_item. change (mkPEvent _ _ _) with (event_into (ewm_event e)). by rewrite event_round.
  - intros idx c r Hc [= <-]. unfold contract_item. by rewrite contract_round.
  - intros idx t r Ht [= <-]. unfold token_item, with_id, item_or. cbn [payload]. by rewrite token_round.
  - intros idx t r Ht [= <-]. unfold token_balance_item, with_id, item_or. cbn [payload]. by rewrite balance_round.
  - intros idx t r Ht [= <-]. unfold token_transfer_item, item_or. cbn [payload]. by rewrite transfer_round.
  - intros idx t r Ht [= <-]. unfold transaction_item, item_or. by rewrite tx_round.
  - intros idx t r Ht [= <-]. unfold activity_item, with_id, item_or. cbn [payload]. by rewrite activity_round.
  - intros now idx t r Ht [= <-]. unfold aggregation_item, with_id, item_or. cbn [payload]. by rewrite aggregation_round.
  - intros idx t r Ht [= <-]. unfold progression_item, with_id, item_or. cbn [payload]. by rewrite progression_round.
Qed.
(** The first reply of a subscription has no payload: the client yields a default value for
    it, an entity of no world. *)
Lemma first_item_default id : entity_item (mkReply id None) = Ok (id, Entity_default).
Proof. done. Qed.
(** Without a contract address all contracts are subscribed to, not that of the world. *)
Lemma all_contracts_updated (c : Contract) : contract_wants (mkContractQuery [] []) c = Ok true.
Proof. done. Qed.

(** ** Messages through the server *)
Definition message_ok (m : Message) : Prop :=
  Forall SqlString.felt_ok (message_signature m) ∧ SqlString.felt_ok (message_world_address m).
(** The message as the service handles it. *)
Definition handled (clock : Z * Z) (m : Message) : st World Status string :=
  handle_message messaging_config clock (message_signature m) (message_text m) (message_world_address m).

Lemma handled_keeps_relay clock m w : cross_messaging_tx (handled clock m w).2 = cross_messaging_tx w.
Proof.
  unfold handled, handle_message, st_bind, st_lift, st_map_err, on_storage, st_zoom.
  destruct (typed_data_from_json _) as [td|]; [|done]. cbn [ok_or].
  by destruct (Messaging.validate_and_set_entity _ _ _ _ _ _ _) as [r s].
Qed.

(** The messages of a list, each handled in the state the one before left. *)
Inductive all_handled : World → list (Z * Z * Message) → list string → World → Prop :=
| all_handled_nil w : all_handled w [] [] w
| all_handled_cons w clock m ms id ids w1 w2 :
    handled clock m w = (Ok id, w1) → all_handled w1 ms ids w2 → all_handled w ((clock, m) :: ms) (id :: ids) w2.
(** The error of a message that is not accepted. *)
Definition refused (r : outcome Status string) : option GrpcError :=
  match r with Ok _ => None | Err s => Some (GrpcStatus s) | Panic => Some (GrpcStatus (Disconnected lost)) end.

Lemma batch_handled (ms : list (Z * Z * Message)) w : Forall (λ m, message_ok m.2) ms →
  (∃ ids w', all_handled w ms ids w' ∧ wc_publish_message_batch ms w = (Ok ids, w')) ∨
  (∃ done clock m rest ids w1 r w2 e, ms = done ++ (clock, m) :: rest ∧ all_handled w done ids w1 ∧
     handled clock m w1 = (r, w2) ∧ refused r = Some e ∧ wc_publish_message_batch ms w = (Err e, w2)).
Proof.
  intros Hms. revert w. induction Hms as [|[clock m] ms [Hs Hw] _ IH]; intros w.
  - left. exists [], w. split; [constructor|done].
  - unfold wc_publish_message_batch, rpc in *. cbn [fmap list_fmap publish_message_batch fst snd].
    rewrite felts_arrive, felt_bytes by done. fold (handled clock m). unfold st_bind at 1.
    destruct (handled clock m w) as [r w1] eqn:Hr. destruct r as [id|s|].
    + destruct (IH w1) as [(ids & w' & Hall & Hrun)|(dn & c' & m' & rest & ids & w1' & r & w2 & e & -> & Hall & Hh & He & Hrun)].
      * left. exists (id :: ids), w'. split; [by econstructor|]. unfold st_bind.
        destruct (publish_message_batch messaging_config _ w1) as [[l|s|] w2]; [|done..]. by injection Hrun as -> ->.
      * right. exists ((clock, m) :: dn), c', m', rest, (id :: ids), w1', r, w2, e.
        split_and!; [done|by econstructor|done|done|]. unfold st_bind.
        rewrite Hr. destruct (publish_message_batch messaging_config _ w1) as [[l|s|] w3]; [done| |]; by injection Hrun as <- <-.
    + right. exists [], clock, m, ms, [], w, (Err s), w1, (GrpcStatus s). split_and!; [done|constructor|done|done|]. unfold st_bind. by rewrite Hr.
    + right. exists [], clock, m, ms, [], w, Panic, w1, (GrpcStatus (Disconnected lost)). split_and!; [done|constructor|done|done|].
      unfold st_bind. by rewrite Hr.
Qed.
Lemma all_handled_relay w ms ids w' : all_handled w ms ids w' → cross_messaging_tx w' = cross_messaging_tx w.
Proof.
  induction 1 as [|w clock m ms id ids w1 w2 Hh _ IH]; [done|]. rewrite IH. pose proof (handled_keeps_relay clock m w) as Hk.
  by rewrite Hh in Hk.
Qed.

(** What publishing a message does after the service handled it. *)
Definition relayed (m : Message) (id : string) (w : World) : outcome ClientError string * World :=
  match cross_messaging_tx w with
  | None => (Ok id, w)
  | Some (true, sent) => (Ok id, set_cross_messaging_tx (Some (true, sent ++ [m])) w)
  | Some (false, _) => (Err (GrpcClientError (GrpcStatus (Internal "channel closed"))), w)
  end.

(** A message a client publishes is handled by the messaging service as it was signed,
    and relayed to the other servers, as it was, exactly when it was accepted. The messages
    of a batch are handled one after the other until one is refused: those before it stay
    written although the client gets an error, those after it are not looked at, and none
    is relayed. *)
Theorem published_messages :
  (∀ clock m w, message_ok m → publish clock m w =
     match handled clock m w with
     | (Ok id, w1) => relayed m id w1
     | (r, w1) => (match refused r with Some e => Err (GrpcClientError e) | None => Panic end, w1)
     end) ∧
  (∀ ms w, Forall (λ m, message_ok m.2) ms →
     cross_messaging_tx (publish_batch ms w).2 = cross_messaging_tx w ∧
     ((∃ ids w', all_handled w ms ids w' ∧ publish_batch ms w = (Ok ids, w')) ∨
      (∃ before clock m after ids w1 r w2 e, ms = before ++ (clock, m) :: after ∧ all_handled w before ids w1 ∧
         handled clock m w1 = (r, w2) ∧ refused r = Some e ∧ publish_batch ms w = (Err (GrpcClientError e), w2)))).
Proof.
  split.
  - intros clock m w [Hs Hw]. unfold publish, grpc, wc_publish_message, rpc, publish_message, st_map_err.
    rewrite felts_arrive, felt_bytes by done. fold (handled clock m). unfold st_bind.
    destruct (handled clock m w) as [[id|s|] w1]; [|done..]. unfold relay, relayed. cbn [refused].
    destruct m as [sg text world]. by destruct (cross_messaging_tx w1) as [[[] sent]|].
  - intros ms w Hms. unfold publish_batch, grpc, st_map_err.
    destruct (batch_handled ms w Hms) as [(ids & w' & Hall & Hrun)|(dn & clock & m & rest & ids & w1 & r & w2 & e & -> & Hall & Hh & He & Hrun)];
      rewrite Hrun; cbn [fst snd map_err].
    + split; [by eapply all_handled_relay|left; eauto].
    + split; [|right; by eauto 15]. rewrite <- (all_handled_relay _ _ _ _ Hall).
      pose proof (handled_keeps_relay clock m w1) as Hk. by rewrite Hh in Hk.
Qed.


(** ** Raw SQL through the server *)
(** sqlx decodes a value of the type asked for, and [NULL] as [None]. *)
Class SqlDecodeSpec : Prop := {
  decode_text s : get_text (SqlText s) = Some (Some s);
  decode_i64 n : get_i64 (SqlInteger n) = Some (Some n);
  decode_f64 f : get_f64 (SqlReal f) = Some (Some f);
  decode_blob b : get_blob (SqlBlob b) = Some (Some b);
  decode_null : get_text SqlNull = Some None ∧ get_i64 SqlNull = Some None ∧ get_f64 SqlNull = Some None ∧ get_blob SqlNull = Some None
}.
(** The value of a column has the type of the column, or is [NULL]. *)
Definition column_typed (type : string) (v : SqlValue) : Prop :=
  match v with
  | SqlText _ => type = "TEXT" | SqlInteger _ => type = "INTEGER" | SqlReal _ => type = "REAL" | SqlBlob _ => type = "BLOB"
  | SqlNull => type ∈ ["TEXT"; "INTEGER"; "REAL"; "BLOB"]
  end.
Lemma column_arrives `{!SqlDecodeSpec} type v : column_typed type v → ∃ p, map_column type v = Ok p ∧ sql_value_from p = v.
Proof.
  destruct decode_null as (Hn1 & Hn2 & Hn3 & Hn4). destruct v as [s|n|f|b|]; cbn [column_typed].
  - intros ->. unfold map_column. cbn [String.eqb Ascii.eqb Bool.eqb]. rewrite decode_text. by eexists.
  - intros ->. unfold map_column. cbn [String.eqb Ascii.eqb Bool.eqb]. rewrite decode_i64. by eexists.
  - intros ->. unfold map_column. cbn [String.eqb Ascii.eqb Bool.eqb]. rewrite decode_f64. by eexists.
  - intros ->. unfold map_column. cbn [String.eqb Ascii.eqb Bool.eqb]. rewrite decode_blob. by eexists.
  - rewrite !elem_of_cons, elem_of_nil. intros [->|[->|[->|[->|[]]]]]; unfold map_column; cbn [String.eqb Ascii.eqb Bool.eqb];
      rewrite ?Hn1, ?Hn2, ?Hn3, ?Hn4; by eexists.
Qed.
(** A row arrives with the value of each column; of two columns of one name the last. *)
Lemma row_arrives `{!SqlDecodeSpec} (row : RawRow) : Forall (λ c, column_typed c.1.2 c.2) row →
  ∃ p, map_row_to_proto row = Ok p ∧ sql_row_from p = foldl (λ m c, <[c.1.1 := c.2]> m) ∅ row.
Proof.
  intros Hrow. unfold map_row_to_proto, sql_row_from.
  enough (∀ acc : gmap string (option PSqlValueType), ∃ p,
    fold_outcome (λ fields '(name, type, v), let? value := map_column type v in Ok (<[name := value]> fields)) row acc = Ok p ∧
    sql_value_from <$> p = foldl (λ m c, <[c.1.1 := c.2]> m) (sql_value_from <$> acc) row) as Hall.
  { destruct (Hall ∅) as (p & Hp & Hv). exists p. split; [done|]. by rewrite Hv, fmap_empty. }
  induction Hrow as [|[[name type] v] row Hc _ IH]; intros acc; [by exists acc|]. cbn [fst snd] in Hc.
  destruct (column_arrives type v Hc) as (p & Hp & Hv). cbn [fold_outcome]. rewrite Hp. cbn [outcome_bind].
  destruct (IH (<[name := p]> acc)) as (q & Hq & Hvq). exists q. split; [done|]. rewrite Hvq, fmap_insert, Hv. done.
Qed.
Lemma sql_disabled query w : raw_sql = false →
  sql query w = (Err (GrpcClientError (GrpcStatus (PermissionDenied "SQL endpoint is disabled."))), w).
Proof. intros Hraw. unfold sql, wc_execute_sql, execute_sql, grpc, st_map_err, st_bind, rpc. by rewrite Hraw. Qed.

(** ** Worlds through the server *)
Definition models_of (a : Felt) (models : list Model) : list Model := filter (λ m, model_world_address m = a) models.
Definition world_of (a : Felt) (models : list Model) : Msg.World :=
  mkWorld _ a (foldl (λ acc m, <[model_selector m := m]> acc) ∅ (models_of a models)).

(** The models so far, by their worlds. *)
Definition grouped (models : list Model) (acc : gmap Felt (list PModel)) : Prop :=
  ∀ a, match acc !! a with
       | Some ps => models_of a models ≠ [] ∧ outcome_mapM model_into (models_of a models) = Ok ps
       | None => models_of a models = []
       end.
Lemma mapM_snoc {E A B} (f : A → outcome E B) l x ps p :
  outcome_mapM f l = Ok ps → f x = Ok p → outcome_mapM f (l ++ [x]) = Ok (ps ++ [p]).
Proof.
  revert ps. induction l as [|y l IH]; intros ps; cbn; [intros [= <-] Hx; by rewrite Hx|].
  destruct (f y) as [q|e|]; [|done..]. cbn. destruct (outcome_mapM f l) as [qs|e|]; [|done..]. intros [= <-] Hx.
  by rewrite (IH qs).
Qed.
Lemma add_model_grouped seen m acc p : model_into m = Ok p → grouped seen acc →
  ∃ acc', add_model acc m = Ok acc' ∧ grouped (seen ++ [m]) acc'.
Proof.
  intros Hp Hg. unfold add_model. rewrite Hp. cbn [outcome_bind]. eexists. split; [done|]. intros a. specialize (Hg a). unfold models_of in *.
  rewrite filter_app, filter_cons, filter_nil. destruct (decide (model_world_address m = a)) as [<-|Hne].
  - rewrite lookup_insert_eq. split; [by destruct (filter _ seen)|]. apply mapM_snoc; [|done].
    destruct (acc !! model_world_address m) as [ps|]; [by destruct Hg|]. by rewrite Hg.
  - rewrite lookup_insert_ne by done. by rewrite app_nil_r.
Qed.
Lemma add_models_grouped models : ∀ seen acc, Forall (λ m, ∃ p, model_into m = Ok p) models → grouped seen acc →
  ∃ acc', fold_outcome add_model models acc = Ok acc' ∧ grouped (seen ++ models) acc'.
Proof.
  induction models as [|m models IH]; intros seen acc Hok Hg; [exists acc; by rewrite app_nil_r|].
  apply Forall_cons in Hok as [[p Hp] Hok]. destruct (add_model_grouped seen m acc p Hp Hg) as (acc1 & Hadd & Hg1).
  destruct (IH (seen ++ [m]) acc1 Hok Hg1) as (acc2 & Hrun & Hg2). exists acc2. rewrite <- (assoc (++)) in Hg2.
  cbn [fold_outcome]. rewrite Hadd. done.
Qed.

(** [serde_json::from_slice] reads what [serde_json::to_vec] wrote. *)
Hypothesis ty_json : ∀ t b, ty_to_vec t = Some b → ty_from_slice b = Some t.
Hypothesis layout_json : ∀ l b, layout_to_vec l = Some b → layout_from_slice b = Some l.

(** The worlds a client gets: those of the models of the storage, each once, with all of its
    models under their selectors. *)
Lemma worlds_grouped addresses w models :
  rs_models addresses [] (storage w) = Ok models → Forall SqlString.felt_ok addresses → Forall model_ok models →
  ∃ l, NoDup l ∧ (∀ a, a ∈ l ↔ ∃ m, m ∈ models ∧ model_world_address m = a) ∧
    worlds addresses w = (Ok ((λ a, world_of a models) <$> l), w).
Proof.
  intros Hread Haddr Hok. destruct (add_models_grouped models [] ∅) as (acc & Hrun & Hg).
  { eapply Forall_impl; [exact Hok|]. intros m (p & Hp & _)%(model_round ty_json layout_json). by exists p. }
  { intros a. by rewrite lookup_empty. }
  rewrite app_nil_l in Hg. exists (hm_keys acc). split; [apply NoDup_hm_keys|]. split.
  { intros a. rewrite elem_of_hm_keys. specialize (Hg a). unfold models_of in Hg. split.
    - intros [ps Hps]. rewrite Hps in Hg. destruct Hg as [Hne _].
      destruct (filter (λ m, model_world_address m = a) models) as [|m ms] eqn:Hf; [done|]. exists m.
      assert (m ∈ filter (λ m, model_world_address m = a) models) as [? ?]%list_elem_of_filter by (rewrite Hf; by left). done.
    - intros (m & Hm & Ha). destruct (acc !! a) as [ps|]; [by exists ps|].
      assert (m ∈ filter (λ m, model_world_address m = a) models) as Hin by (by apply list_elem_of_filter).
      rewrite Hg in Hin. by apply elem_of_nil in Hin. }
  unfold worlds, wc_worlds, grpc, st_map_err, st_bind, rpc, Server.worlds, st_map_err, worlds_of, st_lift.
  change (felt_from_bytes <$> felts_into addresses) with (felts_from (felts_into addresses)). rewrite felts_arrive by done.
  rewrite Hread. cbn [map_err outcome_bind]. rewrite Hrun. cbn [outcome_bind fst snd map_err].
  assert (outcome_mapM world_try_from (proto_world <$> hm_iter acc) = Ok ((λ a, world_of a models) <$> hm_keys acc)) as ->; [|done].
  unfold hm_keys. assert (Forall (λ e, acc !! e.1 = Some e.2) (hm_iter acc)) as Hin.
  { apply Forall_forall. intros [a ps] Hin. by apply elem_of_hm_iter. }
  revert Hin. generalize (hm_iter acc). intros l. induction 1 as [|[a ps] l Ha _ IH]; [done|]. cbn [fst snd] in Ha.
  specialize (Hg a). rewrite Ha in Hg. destruct Hg as [Hne Hps].
  assert (SqlString.felt_ok a) as Hfelt.
  { destruct (models_of a models) as [|m ms] eqn:Hf; [done|].
    assert (m ∈ models_of a models) as [<- Hm]%list_elem_of_filter by (rewrite Hf; by left).
    rewrite Forall_forall in Hok. by destruct (Hok m Hm). }
  destruct (world_round ty_json layout_json (SqlString.format_hex 0 a) a (models_of a models)) as (ps' & Hps' & Hw).
  { by apply SqlString.felt_from_format. }
  { rewrite Forall_forall in *. intros m [_ Hm]%list_elem_of_filter. by apply Hok. }
  rewrite Hps in Hps'. injection Hps' as <-. cbn [fmap list_fmap outcome_mapM]. unfold proto_world at 1. cbn [fst snd].
  rewrite Hw. cbn [outcome_bind]. change (list_fmap _ _ proto_world l) with (proto_world <$> l). rewrite IH. done.
Qed.

End client.
End Client.
