(* ===== verification/Http.v ===== *)
(** * The HTTP server ([crates/server], [crates/mcp])

    The server answers on one port: a request goes to the first handler that takes it, to
    the GraphQL and gRPC servers behind it, to raw SQL, to the tools of the model context
    protocol, to the reindexing of metadata, or to static files (StaticFiles.v).

    A handler is a record of its two methods, acting on the state of the server; a panic
    ends the connection. The clients of the servers behind the proxy, the parsers of JSON
    and of forms, and the database are parameters. *)

From S2P Require Import Prelude Math Proto EventProcessor SqlString Cache Database Traits Executor ModelTable Wire Messages Aggregator Fetcher Storage World Erc.
From S2P Require Import Matching SubscriptionKinds Messaging Grpc.
From Stdlib Require Import Ascii.
Local Open Scope Z_scope.
Local Open Scope torii_scope.

(** ** Requests and responses *)
Inductive Method : Type := GET | POST | OtherMethod (name : string).
#[global] Instance Method_eq_dec : EqDecision Method.
Proof. solve_decision. Defined.
Record Request : Type := mkRequest {
  req_method : Method; req_path : string; req_query : option string;
  (** by their names in lower case *)
  req_headers : gmap string string;
  (** [None] when the connection ends before the end of the body *)
  req_body : option Bytes
}.
Inductive Body : Type :=
| Text (body : string)
(** the events of a session of the model context protocol *)
| EventStream (session_id : string)
(** what a server behind the proxy sends *)
| Upstream (body : string).
Record Response : Type := mkResponse { resp_status : Z; resp_headers : gmap string string; resp_body : Body }.

#[local] Set Warnings "-register-all".
(** [serde_json::Value] *)
Inductive Value : Type :=
| Null | Bool (b : bool) | Integer (n : Z) | Float (f : Msg.F64) | Str (s : string) | Array (l : list Value)
| Object (m : gmap string Value).

(** A request sent on to a server, which has a minute to answer. *)
Inductive ProxyAnswer : Type := Answered (r : Response) | ProxyFailed | TimedOut.

Class HttpEnv : Type := {
  (** [form_urlencoded::parse] *)
  form_parse : string → list (string * string);
  (** [proxy_client.call(client_addr, addr, req)] of the HTTP/2 client, with its timeout,
      and of the WebSocket client *)
  proxy_call : string → string → Request → ProxyAnswer;
  websocket_call : string → string → Request → option Response;
  (** [hyper_tungstenite::upgrade] *)
  tungstenite_upgrade : Request → option Response;
  (** [sqlx::query(..).bind(..).fetch_all(..)] on the pool of the server, which only reads *)
  run_sql : string → list string → string + list RawRow;
  try_get_bool : Msg.SqlValue → option bool;
  (** [serde_json::Number::from_f64], [STANDARD.encode] *)
  finite : Msg.F64 → bool;
  encode_base64 : Bytes → string;
  value_from_str : string → string + Value;
  value_to_string : Value → string;
  value_to_string_pretty : Value → string;
  (** [format!("{}", e)] *)
  felt_error_text : string → string;
  metadata_error_text : TokenMetadataError → string;
  storage_error_text : StorageError → string;
  (** [include_str!], [env!] *)
  playground_html : string;
  mcp_instructions : string;
  pkg_version : string
}.

Module Http.
Import Msg.

Record Handler (W : Type) : Type := mkHandler {
  should_handle : Request → bool;
  handle : Request → string → st W Empty_set Response
}.
Arguments should_handle {W} _ _.
Arguments handle {W} _ _ _.

(** [h.to_str().ok()]: visible characters only *)
Definition visible (c : Z) : bool := ((32 <=? c) && (c <? 127)) || (c =? 9).
Definition header_text (req : Request) (name : string) : option string :=
  v ← req_headers req !! name; if forallb visible (string_bytes v) then Some v else None.
Definition response (status : Z) (headers : list (string * string)) (body : string) : Response :=
  mkResponse status (list_to_map headers) (Text body).
(** [Body::from(r#..#)] of an object of one text *)
Definition quote : string := String (ascii_of_nat 34) EmptyString.
Definition json_error (message : string) : string :=
  "{" +:+ quote +:+ "error" +:+ quote +:+ ":" +:+ quote +:+ message +:+ quote +:+ "}".
Definition json_header : string * string := ("content-type", "application/json").

Definition is_websocket_upgrade (req : Request) : bool :=
  match header_text req "upgrade" with Some v => String.eqb (to_lowercase v) "websocket" | None => false end &&
  match header_text req "connection" with Some v => Kinds.str_contains (to_lowercase v) "upgrade" | None => false end.

Section handlers.
Context {HE : HttpEnv} {SQ : SqlDecode}.

Definition query_key (entry : string * string) : bool := String.eqb entry.1 "q" || String.eqb entry.1 "query".
Definition extract_query (req : Request) : Response + string :=
  match req_method req with
  | GET =>
      match List.find query_key (form_parse (default EmptyString (req_query req))) with
      | Some (_, value) => inr value
      | None => inl (response 400 [] "Missing 'q' or 'query' parameter.")
      end
  | POST =>
      match req_body req with
      | None => inl (response 400 [] "Failed to read query from request body")
      | Some bytes => match from_utf8 bytes with Ok s => inr s | _ => inl (response 400 [] "Invalid query") end
      end
  | OtherMethod _ => inl (response 405 [] "Only GET and POST methods are allowed")
  end.

(** ** The servers behind the proxy *)
Section upstream.
Context {W : Type}.
Definition http_url (addr : string) : string := "http://" +:+ addr.
Definition proxied (a : ProxyAnswer) : Response :=
  match a with
  | Answered r => r
  | ProxyFailed => response 502 [] EmptyString
  | TimedOut => response 504 [] EmptyString
  end.
Definition graphql_handle (graphql_addr : option string) (req : Request) (client_addr : string) : st W Empty_set Response :=
  st_ret match graphql_addr with
  | Some addr =>
      if is_websocket_upgrade req then
        match websocket_call client_addr (http_url addr) req with Some r => r | None => response 502 [] EmptyString end
      else proxied (proxy_call client_addr (http_url addr) req)
  | None => response 404 [] EmptyString
  end.
Definition GraphQLHandler (graphql_addr : option string) : Handler W :=
  mkHandler _ (λ req, Erc.starts_with "/graphql" (req_path req)) (graphql_handle graphql_addr).

Definition grpc_should_handle (req : Request) : bool :=
  match header_text req "content-type" with Some ct => Erc.starts_with "application/grpc" ct | None => false end.
Definition grpc_handle (grpc_addr : option string) (req : Request) (client_addr : string) : st W Empty_set Response :=
  st_ret match grpc_addr with
  | Some addr => proxied (proxy_call client_addr (http_url addr) req)
  | None => response 404 [] EmptyString
  end.
Definition GrpcHandler (grpc_addr : option string) : Handler W := mkHandler _ grpc_should_handle (grpc_handle grpc_addr).
End upstream.

(** ** Raw SQL *)
(** [row.get::<Option<T>, _>(i).map_or(Null, ..)], which panics for another type *)
Definition get_or {A} (c : A → Value) (o : option (option A)) : outcome Empty_set Value :=
  match o with Some (Some a) => Ok (c a) | Some None => Ok Null | None => Panic end.
Definition real_value (f : F64) : Value := if finite f then Float f else Null.
Definition blob_value (b : Bytes) : Value := Str (encode_base64 b).
Definition column_to_json (type : string) (v : SqlValue) : outcome Empty_set Value :=
  if String.eqb type "TEXT" then get_or Str (get_text v)
  else if String.eqb type "INTEGER" then get_or Integer (get_i64 v)
  else if String.eqb type "REAL" then get_or real_value (get_f64 v)
  else if String.eqb type "BLOB" then get_or blob_value (get_blob v)
  else
    match try_get_i64 v with
    | Some n => Ok (Integer n)
    | None =>
        match try_get_f64 v with
        | Some f => Ok (real_value f)
        | None =>
            match try_get_bool v with
            | Some b => Ok (Bool b)
            | None => match try_get_text v with Some s => Ok (Str s) | None => get_or blob_value (get_blob v) end
            end
        end
    end.
Definition map_row_to_json (row : RawRow) : outcome Empty_set Value :=
  let? fields := fold_outcome (λ m '(name, type, v), let? j := column_to_json type v in Ok (<[name := j]> m)) row ∅ in
  Ok (Object fields).

Definition execute_query (query : string) : outcome Empty_set Response :=
  match run_sql query [] with
  | inr rows =>
      let? result := outcome_mapM map_row_to_json rows in
      Ok (response 200 [json_header] (value_to_string (Array result)))
  | inl e => Ok (response 400 [] ("Query error: " +:+ e))
  end.
Definition disabled_response : Response := response 403 [("content-type", "text/plain")] "SQL endpoint is disabled.".
Definition serve_playground : Response :=
  response 200 [("content-type", "text/html"); ("access-control-allow-origin", "*")] playground_html.
Definition sql_handle_request (enabled : bool) (req : Request) : outcome Empty_set Response :=
  if negb enabled then Ok disabled_response
  else if bool_decide (req_method req = GET) && String.eqb (default EmptyString (req_query req)) EmptyString then Ok serve_playground
  else match extract_query req with inr query => execute_query query | inl _ => Ok serve_playground end.
Definition SqlHandler {W} (enabled : bool) : Handler W :=
  mkHandler _ (λ req, Erc.starts_with "/sql" (req_path req)) (λ req _, st_lift (sql_handle_request enabled req)).

(** ** Reindexing the metadata of a token *)
Section reindex.
Context `{!DojoTypes, !StarknetTypes, !CairoSerde, !MetadataEnv, !SqlString.FeltFromStr} {S W : Type} `{!ProcessorStorage S, !IndexerStorage S}.
Context (get_storage : W → S) (set_storage : S → W → W) (get_requests : W → list request) (set_requests : list request → W → W).

Definition bad_request (message : string) : Response := response 400 [json_header] (json_error message).
Definition server_error (message : string) : Response := response 500 [json_header] (json_error message).
(** The token a path names, or the response that refuses it; [U256::from_be_hex] panics
    unless there are 64 digits. *)
Definition reindex_target (path : string) : outcome Response (string * Felt * U256) :=
  match Erc.strip_prefix "/metadata/reindex/" path with
  | None => Err (bad_request "Invalid path")
  | Some path =>
      match SqlString.split "/"%char path with
      | [address; id] =>
          if negb (Erc.starts_with "0x" address) then Err (bad_request "Invalid contract address format")
          else
            match SqlString.felt_from_str address with
            | None => Err (bad_request ("Invalid contract address: " +:+ felt_error_text address))
            | Some contract_address =>
                if negb (Erc.starts_with "0x" id) then Err (bad_request "Invalid token ID format")
                else
                  let? token_id := unwrap (from_be_hex (default id (Erc.strip_prefix "0x" id))) in
                  Ok (address +:+ ":" +:+ id, contract_address, token_id)
            end
      | _ => Err (bad_request "Invalid path format. Expected: /metadata/reindex/{contract_address}/{token_id}")
      end
  end.
Definition reindexed (token_key metadata : string) : Response :=
  response 200 [json_header]
    ("{" +:+ quote +:+ "success" +:+ quote +:+ ":true," +:+ quote +:+ "message" +:+ quote +:+ ":" +:+ quote +:+
     "Metadata updated successfully" +:+ quote +:+ "," +:+ quote +:+ "token_id" +:+ quote +:+ ":" +:+ quote +:+ token_key +:+
     quote +:+ "," +:+ quote +:+ "metadata" +:+ quote +:+ ":" +:+ metadata +:+ "}").
Definition on_storage {E A} (m : st S E A) : st W E A := st_zoom get_storage set_storage m.
Definition on_requests {E A} (m : st (list request) E A) : st W E A := st_zoom get_requests set_requests m.
(** [match r { Ok(a) => a, Err(response) => return response }] *)
Definition answer (m : st W Response Response) : st W Empty_set Response := λ w,
  match m w with (Ok r, w) | (Err r, w) => (Ok r, w) | (Panic, w) => (Panic, w) end.
Definition reindex (req : Request) : st W Response Response :=
  let! (token_key, contract_address, token_id) := st_lift (reindex_target (req_path req)) in
  let! metadata := st_map_err (λ e, server_error ("Failed to fetch metadata: " +:+ metadata_error_text e))
                     (on_requests (Erc.fetch_token_metadata contract_address token_id)) in
  let! _ := st_map_err (λ e, server_error ("Metadata update failed: " +:+ storage_error_text e))
              (on_storage (update_token_metadata (Nft contract_address token_id) metadata)) in
  let! _ := st_map_err (λ e, server_error ("Transaction execution failed: " +:+ storage_error_text e)) (on_storage execute) in
  st_ret (reindexed token_key metadata).
Definition MetadataHandler : Handler W :=
  mkHandler _ (λ req, Erc.starts_with "/metadata/reindex/" (req_path req)) (λ req _, answer (reindex req)).
End reindex.
End handlers.
End Http.
