(* ===== verification/Mcp.v ===== *)
(** * The model context protocol ([crates/mcp], [crates/server/src/handlers/mcp.rs])

    JSON-RPC over WebSockets, or over posts whose answers are also sent as events to the
    session they name. The identifier of a new session and the text of a response are
    parameters; what serde derives for the messages is [message_of]. *)

From S2P Require Import Prelude Proto SqlString Wire Messages Erc Matching SubscriptionKinds Messaging Grpc Http.
From stdpp Require Import pretty.
From Stdlib Require Import Ascii.
Local Open Scope Z_scope.
Local Open Scope torii_scope.

(** ** Messages *)
Record JsonRpcRequest : Type := mkRpcRequest { rpc_jsonrpc : string; rpc_id : Value; rpc_method : string; rpc_params : option Value }.
Record JsonRpcNotification : Type := mkNotification { not_jsonrpc : string; not_method : string; not_params : option Value }.
Inductive JsonRpcMessage : Type := RpcRequest (r : JsonRpcRequest) | RpcNotification (n : JsonRpcNotification).
Record JsonRpcError : Type := mkRpcError { rpc_code : Z; rpc_message : string; rpc_data : option Value }.
Record JsonRpcResponse : Type := mkRpcResponse {
  rpc_version : string; rpc_reply_id : Value; rpc_result : option Value; rpc_error : option JsonRpcError
}.

Class McpEnv `{HttpEnv} : Type := {
  rpc_to_string : JsonRpcResponse → string;
  (** [hyper_tungstenite::is_upgrade_request], and [upgrade], which may fail *)
  is_upgrade_request : Request → bool
}.

Module Mcp.
Import Msg Http.

Definition JSONRPC_VERSION : string := "2.0".
Definition MCP_VERSION : string := "2024-11-05".
(** [broadcast::channel(100)] has room for the next power of two. *)
Definition CHANNEL_ROOM : nat := 128.

Definition object (fields : list (string * Value)) : Value := Object (list_to_map fields).
Definition get (key : string) (v : Value) : option Value := match v with Object m => m !! key | _ => None end.
Definition as_str (v : Value) : option string := match v with Str s => Some s | _ => None end.
Definition as_object (v : Value) : option Value := match v with Object _ => Some v | _ => None end.
(** A field of type [Option<Value>] *)
Definition optional_value (o : option Value) : option Value := match o with Some Null => None | _ => o end.

(** [#[derive(Deserialize)]] of the messages, from an object or from an array *)
Definition request_of (v : Value) : option JsonRpcRequest :=
  match v with
  | Object m =>
      jsonrpc ← m !! "jsonrpc" ≫= as_str; id ← m !! "id"; method ← m !! "method" ≫= as_str;
      Some (mkRpcRequest jsonrpc id method (optional_value (m !! "params")))
  | Array [Str jsonrpc; id; Str method; params] => Some (mkRpcRequest jsonrpc id method (optional_value (Some params)))
  | _ => None
  end.
Definition notification_of (v : Value) : option JsonRpcNotification :=
  match v with
  | Object m =>
      jsonrpc ← m !! "_jsonrpc" ≫= as_str; method ← m !! "_method" ≫= as_str;
      Some (mkNotification jsonrpc method (optional_value (m !! "_params")))
  | Array [Str jsonrpc; Str method; params] => Some (mkNotification jsonrpc method (optional_value (Some params)))
  | _ => None
  end.
Definition message_of (v : Value) : option JsonRpcMessage :=
  match request_of v with Some r => Some (RpcRequest r) | None => RpcNotification <$> notification_of v end.

Definition rpc_ok (id result : Value) : JsonRpcResponse := mkRpcResponse JSONRPC_VERSION id (Some result) None.
Definition rpc_err (id : Value) (code : Z) (message : string) (data : option Value) : JsonRpcResponse :=
  mkRpcResponse JSONRPC_VERSION id None (Some (mkRpcError code message data)).
Definition invalid_request (id : Value) : JsonRpcResponse := rpc_err id (-32600) "Invalid Request" None.
Definition method_not_found (id : Value) : JsonRpcResponse := rpc_err id (-32601) "Method not found" None.
Definition details (s : string) : option Value := Some (object [("details", Str s)]).
Definition invalid_params (id : Value) (d : string) : JsonRpcResponse := rpc_err id (-32602) "Invalid params" (details d).
Definition parse_error (id : Value) (d : string) : JsonRpcResponse := rpc_err id (-32700) "Parse error" (details d).
Definition database_error (id : Value) (e : string) : JsonRpcResponse := rpc_err id (-32603) "Database error" (details e).
Definition text_content (text : string) : Value :=
  object [("content", Array [object [("type", Str "text"); ("text", Str text)]])].

(** ** Tools and resources *)
Record Tool : Type := mkTool { tool_name : string; tool_description : string; tool_input_schema : Value }.
Definition described (type description : string) : Value := object [("type", Str type); ("description", Str description)].
Definition query_tool : Tool :=
  mkTool "query" "Execute a SQL query on the database"
    (object [("type", Str "object"); ("properties", object [("query", described "string" "SQL query to execute")]);
             ("required", Array [Str "query"])]).
Definition schema_tool : Tool :=
  mkTool "schema" "Retrieve the database schema including tables, columns, and their types"
    (object [("type", Str "object");
             ("properties", object [("table", described "string"
               "Optional table name to get schema for. If omitted, returns schema for all tables.")])]).
Definition get_tools : list Tool := [query_tool; schema_tool].
Definition get_resources : list string := [].

Section mcp.
Context {HE : HttpEnv} {SQ : SqlDecode} {MC : McpEnv}.

Definition handle_query (request : JsonRpcRequest) : outcome Empty_set JsonRpcResponse :=
  let id := rpc_id request in
  match rpc_params request with
  | None => Ok (invalid_params id "Missing params")
  | Some params =>
      match (args ← get "arguments" params; args ← as_object args; query ← get "query" args; as_str query) with
      | Some query =>
          match run_sql query [] with
          | inr rows =>
              let? result := outcome_mapM map_row_to_json rows in
              Ok (rpc_ok id (text_content (value_to_string (Array result))))
          | inl e => Ok (database_error id e)
          end
      | None => Ok (invalid_params id "Missing query parameter")
      end
  end.

Definition newline : string := String (ascii_of_nat 10) EmptyString.
Definition line (indent : nat) (text : string) : string := newline +:+ String.concat EmptyString (replicate indent " ") +:+ text.
Definition schema_query (filtered : bool) : string :=
  "SELECT " +:+ line 16 "m.name as table_name," +:+ line 16 "p.* " +:+ line 12 "FROM sqlite_master m" +:+
  line 12 "JOIN pragma_table_info(m.name) p" +:+ line 12 "WHERE m.type = 'table'" +:+
  (if filtered then line 12 "AND m.name = ?" else EmptyString) +:+ line 12 "ORDER BY m.name, p.cid".
(** [row.try_get(column).unwrap()] *)
Definition column (row : RawRow) (name : string) : option SqlValue :=
  snd <$> List.find (λ c : string * string * SqlValue, String.eqb c.1.1 name) row.
Definition must_get {A} (try : SqlValue → option A) (row : RawRow) (name : string) : outcome Empty_set A :=
  unwrap (column row name ≫= try).
Definition schema_entry (not_null pk : bool) (type : string) (default_value : option string) : Value :=
  object [("type", Str type); ("nullable", Bool (negb not_null)); ("primary_key", Bool pk);
          ("default", match default_value with Some d => Str d | None => Null end)].
(** [schema.entry(table).or_insert_with(..)["columns"].insert(column, ..)] *)
Definition add_column (schema : gmap string (gmap string Value)) (row : RawRow) : outcome Empty_set (gmap string (gmap string Value)) :=
  let? table_name := must_get try_get_text row "table_name" in
  let? column_name := must_get try_get_text row "name" in
  let? column_type := must_get try_get_text row "type" in
  let? not_null := must_get try_get_bool row "notnull" in
  let? pk := must_get try_get_bool row "pk" in
  let? default_value := must_get get_text row "dflt_value" in
  Ok (<[table_name := <[column_name := schema_entry not_null pk column_type default_value]> (default ∅ (schema !! table_name))]> schema).
Definition schema_value (schema : gmap string (gmap string Value)) : Value :=
  Object ((λ columns, object [("columns", Object columns)]) <$> schema).
Definition handle_schema (request : JsonRpcRequest) : outcome Empty_set JsonRpcResponse :=
  let table_filter := (params ← rpc_params request; args ← get "arguments" params; table ← get "table" args; as_str table) in
  let rows := match table_filter with Some table => run_sql (schema_query true) [table] | None => run_sql (schema_query false) [] end in
  match rows with
  | inr rows =>
      let? schema := fold_outcome add_column rows ∅ in
      Ok (rpc_ok (rpc_id request) (text_content (value_to_string_pretty (schema_value schema))))
  | inl e => Ok (database_error (rpc_id request) e)
  end.

(** ** Requests *)
Definition handle_initialize (id : Value) : JsonRpcResponse :=
  rpc_ok id (object [
    ("protocolVersion", Str MCP_VERSION);
    ("serverInfo", object [("name", Str "torii-mcp"); ("version", Str pkg_version)]);
    ("capabilities", object [
      ("tools", object [("list_changed", Bool true)]);
      ("resources", object [("subscribe", Bool true); ("list_changed", Bool true)])]);
    ("instructions", Str mcp_instructions)]).
Definition tool_value (t : Tool) : Value :=
  object [("name", Str (tool_name t)); ("description", Str (tool_description t)); ("inputSchema", tool_input_schema t)].
Definition handle_tools_list (id : Value) : JsonRpcResponse := rpc_ok id (object [("tools", Array (tool_value <$> get_tools))]).
Definition handle_resources_list (id : Value) : JsonRpcResponse :=
  rpc_ok id (object [("resources", Array ((λ name, object [("name", Str name)]) <$> get_resources))]).
Definition handle_tools_call (request : JsonRpcRequest) : outcome Empty_set JsonRpcResponse :=
  let id := rpc_id request in
  match rpc_params request with
  | None => Ok (invalid_params id "Missing params")
  | Some params =>
      match get "name" params ≫= as_str with
      | None => Ok (invalid_params id "Missing tool name")
      | Some tool_name =>
          if String.eqb tool_name "query" then handle_query request
          else if String.eqb tool_name "schema" then handle_schema request
          else Ok (method_not_found id)
      end
  end.
Definition handle_resources_read (request : JsonRpcRequest) : JsonRpcResponse :=
  let id := rpc_id request in
  match rpc_params request with
  | None => invalid_params id "Missing params"
  | Some params =>
      match get "name" params ≫= as_str with
      | None => invalid_params id "Missing resource name"
      | Some _ => method_not_found id
      end
  end.
Definition handle_request (request : JsonRpcRequest) : outcome Empty_set JsonRpcResponse :=
  let id := rpc_id request in
  let named m := String.eqb (rpc_method request) m in
  if negb (String.eqb (rpc_jsonrpc request) JSONRPC_VERSION) then Ok (invalid_request id)
  else if named "initialize" then Ok (handle_initialize id)
  else if named "tools/list" then Ok (handle_tools_list id)
  else if named "tools/call" then handle_tools_call request
  else if named "resources/list" then Ok (handle_resources_list id)
  else if named "resources/read" then Ok (handle_resources_read request)
  else Ok (method_not_found id).

Definition no_variant : string := "data did not match any variant of untagged enum JsonRpcMessage".
(** [serde_json::from_str::<JsonRpcMessage>(text)] *)
Definition parse_message (text : string) : string + JsonRpcMessage :=
  match value_from_str text with
  | inl e => inl e
  | inr v => match message_of v with Some m => inr m | None => inl no_variant end
  end.

(** ** WebSockets *)
Inductive WsMessage : Type := WsText (text : string) | WsOther.
(** The texts sent for the messages that came in, as long as the client takes them. *)
Fixpoint handle_websocket_connection (takes : nat → bool) (incoming : list WsMessage) : outcome Empty_set (list string) :=
  match incoming with
  | [] => Ok []
  | WsOther :: incoming => handle_websocket_connection takes incoming
  | WsText text :: incoming =>
      let reply :=
        match parse_message text with
        | inr (RpcRequest request) => let? r := handle_request request in Ok (Some r)
        | inr (RpcNotification _) => Ok None
        | inl e => Ok (Some (parse_error Null e))
        end in
      let? reply := reply in
      match reply with
      | None => handle_websocket_connection takes incoming
      | Some r =>
          if takes (length incoming) then
            let? rest := handle_websocket_connection takes incoming in Ok (rpc_to_string r :: rest)
          else Ok []
      end
  end.

(** ** Sessions *)
Record SseSession : Type := mkSession {
  (** whether the client still reads the events *)
  sess_connected : bool;
  sess_queue : list JsonRpcResponse;
  (** the messages that were dropped since it last read *)
  sess_lagged : Z
}.
(** [tx.send(response)] *)
Definition send (r : JsonRpcResponse) (s : SseSession) : SseSession :=
  if sess_connected s then
    match sess_queue s with
    | _ :: q => if (CHANNEL_ROOM <=? length (sess_queue s))%nat then mkSession true (q ++ [r]) (sess_lagged s + 1)
                else mkSession true (sess_queue s ++ [r]) (sess_lagged s)
    | [] => mkSession true [r] (sess_lagged s)
    end
  else s.
Definition event (name data : string) : string := "event: " +:+ name +:+ newline +:+ "data: " +:+ data +:+ newline +:+ newline.
Definition lag_event (n : Z) : string :=
  event "error" ("{" +:+ newline +:+ "  " +:+ quote +:+ "error" +:+ quote +:+ ": " +:+ quote +:+ "channel lagged by " +:+ pretty n +:+ quote +:+ " }").
(** The next event of the stream; [None] while there is none, since the session keeps the
    sender. *)
Definition next_event (s : SseSession) : option (string * SseSession) :=
  if 0 <? sess_lagged s then Some (lag_event (sess_lagged s), mkSession (sess_connected s) (sess_queue s) 0)
  else match sess_queue s with
       | r :: q => Some (event "message" (rpc_to_string r), mkSession (sess_connected s) q 0)
       | [] => None
       end.
Abbreviation Sessions := (gmap string SseSession).
Definition endpoint_event (session_id : string) : string := event "endpoint" ("/mcp/message?sessionId=" +:+ session_id).
Definition handle_sse_connection (session_id : string) : st Sessions Empty_set Response := λ sessions,
  (Ok (mkResponse 200 (list_to_map [("content-type", "text/event-stream"); ("cache-control", "no-cache"); ("connection", "keep-alive")])
         (EventStream session_id)),
   <[session_id := mkSession true [] 0]> sessions).

Definition session_param (p : string) : option string :=
  match SqlString.split "="%char p with
  | [key; value] => if String.eqb key "sessionId" then Some value else None
  | _ => None
  end.
Definition session_of (req : Request) : option string :=
  q ← req_query req; head (omap session_param (SqlString.split "&"%char q)).
Definition reply_response (r : JsonRpcResponse) : Response := response 200 [json_header] (rpc_to_string r).
Definition handle_message_request (req : Request) : st Sessions Empty_set Response := λ sessions,
  match session_of req with
  | None => (Ok (response 400 [] "Missing sessionId parameter"), sessions)
  | Some session_id =>
      match sessions !! session_id with
      | None => (Ok (response 404 [] "Session not found"), sessions)
      | Some session =>
          match req_body req with
          | None => (Panic, sessions)
          | Some body =>
              match from_utf8 body with
              | Ok text =>
                  match parse_message text with
                  | inr (RpcRequest request) =>
                      match handle_request request with
                      | Ok r => (Ok (reply_response r), <[session_id := send r session]> sessions)
                      | _ => (Panic, sessions)
                      end
                  | inr (RpcNotification _) => (Ok (reply_response (rpc_ok Null (object []))), sessions)
                  | inl e => (Ok (reply_response (parse_error Null e)), sessions)
                  end
              | _ => (Panic, sessions)
              end
          end
      end
  end.
(** [new_id] is [Uuid::new_v4()] *)
Definition mcp_handle (new_id : string) (req : Request) : st Sessions Empty_set Response :=
  if is_upgrade_request req then st_lift (unwrap (tungstenite_upgrade req))
  else if String.eqb (req_path req) "/mcp/message" then handle_message_request req
  else if decide (req_method req = GET) then handle_sse_connection new_id
  else st_ret (response 200 [] (rpc_to_string (method_not_found Null))).
Definition McpHandler {W} (get_sessions : W → Sessions) (set_sessions : Sessions → W → W) (new_id : string) : Handler W :=
  mkHandler _ (λ req, Erc.starts_with "/mcp" (req_path req)) (λ req _, st_zoom get_sessions set_sessions (mcp_handle new_id req)).

(** ** Replies *)
(** A reply of JSON-RPC: the identifier of the request, and a result or an error. *)
Definition valid_reply (request : JsonRpcRequest) (r : JsonRpcResponse) : Prop :=
  rpc_version r = JSONRPC_VERSION ∧ rpc_reply_id r = rpc_id request ∧ (rpc_result r = None ↔ rpc_error r ≠ None).
Lemma rpc_ok_valid request result : valid_reply request (rpc_ok (rpc_id request) result).
Proof. by split_and!. Qed.
Lemma rpc_err_valid request code message data : valid_reply request (rpc_err (rpc_id request) code message data).
Proof. by split_and!. Qed.
Create HintDb mcp discriminated.
#[local] Hint Extern 2 (valid_reply _ _) => apply rpc_err_valid : mcp.
#[local] Hint Extern 2 (valid_reply _ _) => apply rpc_ok_valid : mcp.

Lemma handle_query_valid request r : handle_query request = Ok r → valid_reply request r.
Proof.
  unfold handle_query. repeat (case_match; try (intros [= <-]; by auto with mcp)).
  destruct (outcome_mapM map_row_to_json _); simpl; [intros [= <-]; auto with mcp|done..].
Qed.
Lemma handle_schema_valid request r : handle_schema request = Ok r → valid_reply request r.
Proof.
  unfold handle_schema. destruct (match _ with Some table => run_sql _ _ | None => _ end) as [e|rows]; [intros [= <-]; auto with mcp|].
  destruct (fold_outcome add_column rows ∅); simpl; [intros [= <-]; auto with mcp|done..].
Qed.
Lemma handle_resources_read_valid request : valid_reply request (handle_resources_read request).
Proof. unfold handle_resources_read. repeat case_match; auto with mcp. Qed.
Lemma handle_tools_call_valid request r : handle_tools_call request = Ok r → valid_reply request r.
Proof.
  unfold handle_tools_call. repeat case_match; try (intros [= <-]; by auto with mcp).
  - apply handle_query_valid.
  - apply handle_schema_valid.
Qed.
Lemma handle_request_valid request r : handle_request request = Ok r → valid_reply request r.
Proof.
  unfold handle_request. repeat case_match; try (intros [= <-]; by auto with mcp).
  - apply handle_tools_call_valid.
  - intros [= <-]. apply handle_resources_read_valid.
Qed.

(** A notification as JSON-RPC has it, without an identifier, is no message. *)
Lemma notification_refused m : m !! "id" = None → m !! "_jsonrpc" = None → message_of (Object m) = None.
Proof. intros Hid Hn. unfold message_of, request_of, notification_of. rewrite Hid, Hn. simpl. by destruct (m !! "jsonrpc" ≫= as_str). Qed.

(** The tool runs any query although raw SQL is disabled. *)
Definition query_call (id : Value) (query : string) : JsonRpcRequest :=
  mkRpcRequest JSONRPC_VERSION id "tools/call" (Some (object [("name", Str "query"); ("arguments", object [("query", Str query)])])).
Lemma disabled_sql_reachable id query req rows result :
  run_sql query [] = inr rows → outcome_mapM map_row_to_json rows = Ok result →
  sql_handle_request false req = Ok disabled_response ∧
  handle_request (query_call id query) = Ok (rpc_ok id (text_content (value_to_string (Array result)))).
Proof.
  intros Hq Hr. split; [done|]. unfold handle_request, handle_tools_call, handle_query, query_call. cbn [rpc_jsonrpc rpc_method rpc_params rpc_id].
  set (args := object [("query", Str query)]). set (params := object [("name", Str "query"); ("arguments", args)]).
  assert (get "name" params = Some (Str "query")) as -> by reflexivity.
  assert (get "arguments" params = Some args) as -> by reflexivity.
  assert (get "query" args = Some (Str query)) as Ha by reflexivity. simpl in *. rewrite Ha. simpl. by rewrite Hq, Hr.
Qed.

(** Sessions are never removed. *)
Lemma sessions_kept new_id req sessions : dom sessions ⊆ dom (mcp_handle new_id req sessions).2.
Proof.
  unfold mcp_handle, handle_message_request, handle_sse_connection, st_lift, st_ret.
  repeat case_match; simpl; rewrite ?dom_insert; set_solver.
Qed.

(** ** A session *)
Fixpoint post_all (posts : list Request) : st Sessions Empty_set (list Response) :=
  match posts with
  | [] => st_ret []
  | p :: posts => let! r := handle_message_request p in let! rs := post_all posts in st_ret (r :: rs)
  end.
(** What a client reads, and what is left. *)
Fixpoint read_events (n : nat) (s : SseSession) : list string :=
  match n with
  | O => []
  | S n => match next_event s with Some (e, s) => e :: read_events n s | None => [] end
  end.
Definition posted (session_id : string) (post : Request) (request : JsonRpcRequest) (r : JsonRpcResponse) : Prop :=
  session_of post = Some session_id ∧
  ∃ body text, req_body post = Some body ∧ from_utf8 body = Ok text ∧ parse_message text = inr (RpcRequest request) ∧
    handle_request request = Ok r.
Lemma send_room r q : (length q < CHANNEL_ROOM)%nat → send r (mkSession true q 0) = mkSession true (q ++ [r]) 0.
Proof. unfold send. cbn [sess_connected sess_queue sess_lagged]. destruct q as [|x q]; [done|]. intros Hq%Nat.leb_gt. by rewrite Hq. Qed.
Lemma posts_queued session_id posts requests replies q sessions :
  sessions !! session_id = Some (mkSession true q 0) → (length q + length posts ≤ CHANNEL_ROOM)%nat →
  Forall3 (posted session_id) posts requests replies →
  post_all posts sessions = (Ok (reply_response <$> replies), <[session_id := mkSession true (q ++ replies) 0]> sessions).
Proof.
  intros Hs Hq Hall. revert q sessions Hs Hq. induction Hall as [|p request r posts requests replies (Hid & body & text & Hb & Ht & Hp & Hr) _ IH];
    intros q sessions Hs Hq; simpl in *.
  - unfold st_ret. by rewrite app_nil_r, insert_id.
  - unfold handle_message_request, st_bind. rewrite Hid, Hs, Hb, Ht, Hp, Hr, send_room by lia.
    rewrite (IH (q ++ [r])); [|by rewrite lookup_insert_eq|rewrite length_app; simpl; lia].
    unfold st_ret. by rewrite insert_insert_eq, <- app_assoc.
Qed.
Lemma read_queue b q n : (length q ≤ n)%nat → read_events n (mkSession b q 0) = (λ r, event "message" (rpc_to_string r)) <$> q.
Proof. revert n. induction q as [|r q IH]; intros [|n] Hn; simpl in *; try done; [lia|]. f_equal. apply IH. lia. Qed.
Lemma Forall3_valid session_id posts requests replies :
  Forall3 (posted session_id) posts requests replies → Forall2 valid_reply requests replies.
Proof. induction 1 as [|p q r ps qs rs (_ & ? & ? & _ & _ & _ & Hr)]; constructor; [by apply handle_request_valid|done]. Qed.

(** C31: the requests a client posts to its session, up to 128 before it reads, are each
    answered with a reply of JSON-RPC to that request, in the response to the post and as
    an event of the session; the events come once and in the order of the posts, and the
    other sessions get nothing. *)
Theorem posts_answered session_id posts requests replies sessions n :
  sessions !! session_id = Some (mkSession true [] 0) → (length posts ≤ CHANNEL_ROOM)%nat → (length posts ≤ n)%nat →
  Forall3 (posted session_id) posts requests replies →
  Forall2 valid_reply requests replies ∧
  ∃ session, post_all posts sessions = (Ok (reply_response <$> replies), <[session_id := session]> sessions) ∧
    read_events n session = (λ r, event "message" (rpc_to_string r)) <$> replies.
Proof.
  intros Hs Hroom Hn Hall. split; [by eapply Forall3_valid|]. eexists. split; [by eapply posts_queued|].
  simpl. apply read_queue. apply Forall3_length_lr in Hall. lia.
Qed.
End mcp.

#[local] Instance demo_http : HttpEnv := {|
  form_parse _ := []; proxy_call _ _ _ := ProxyFailed; websocket_call _ _ _ := None; tungstenite_upgrade _ := None;
  run_sql _ _ := inr []; try_get_bool _ := None; finite _ := true; encode_base64 _ := EmptyString;
  value_from_str _ := inr (Object (list_to_map [("jsonrpc", Str "2.0"); ("id", Integer 7); ("method", Str "tools/list")]));
  value_to_string _ := EmptyString; value_to_string_pretty _ := EmptyString; felt_error_text _ := EmptyString;
  metadata_error_text _ := EmptyString; storage_error_text _ := EmptyString; playground_html := EmptyString;
  mcp_instructions := EmptyString; pkg_version := EmptyString
|}.
#[local] Instance demo_decode : SqlDecode := {|
  get_text _ := None; get_i64 _ := None; get_f64 _ := None; get_blob _ := None; try_get_i64 _ := None; try_get_f64 _ := None;
  try_get_text _ := None
|}.
#[local] Instance demo_mcp : McpEnv := {|
  rpc_to_string r := match rpc_reply_id r with Integer n => "reply " +:+ pretty n | _ => "reply" end; is_upgrade_request _ := false
|}.
Definition demo_post : Request := mkRequest POST "/mcp/message" (Some "sessionId=s1") ∅ (Some (string_bytes "{}")).
Definition demo_sessions : gmap string SseSession := {["s1" := mkSession true [] 0]}.
Lemma posts_answered_witness :
  ∃ session, (post_all [demo_post; demo_post] demo_sessions).2 = <["s1" := session]> demo_sessions ∧
    read_events 3 session = [event "message" "reply 7"; event "message" "reply 7"].
Proof.
  destruct (posts_answered "s1" [demo_post; demo_post]
    (replicate 2 (mkRpcRequest "2.0" (Integer 7) "tools/list" None)) (replicate 2 (handle_tools_list (Integer 7))) demo_sessions 3)
    as (_ & session & Hrun & Hread).
  - reflexivity.
  - vm_compute. lia.
  - simpl. lia.
  - assert (posted "s1" demo_post (mkRpcRequest "2.0" (Integer 7) "tools/list" None) (handle_tools_list (Integer 7))).
    { split; [reflexivity|]. exists (string_bytes "{}"), "{}". split_and!; reflexivity. }
    apply Forall3_cons; [assumption|]. apply Forall3_cons; [assumption|]. apply Forall3_nil.
  - exists session. split; [by rewrite Hrun|]. rewrite Hread. vm_compute. reflexivity.
Defined.
End Mcp.
