(* ===== verification/StaticFiles.v ===== *)
(** * Static files ([crates/server/src/handlers/static.rs])

    Images and metadata of tokens and contracts. An image is fetched when it is asked for,
    stored in three sizes in a directory of its token, and fetched again when the row of
    the token has changed since: the time of the file is that of the row.

    The state is the file system below the directory of artifacts, and the requests made
    to the outside. A directory is the list of its names from there; the order in which
    one is read is the arbitrary one of [HashOrder]. The library of images, the disk and
    the formats of HTTP are parameters. *)

From S2P Require Import Prelude Math Proto EventProcessor SqlString Cache Database Traits Executor ModelTable Wire Messages Aggregator Matching.
From S2P Require Import Fetcher World Storage StorageWrites Query Erc SubscriptionKinds Messaging Grpc Http.
From Stdlib Require Import Ascii.
From Stdlib Require String.
Local Open Scope Z_scope.
Local Open Scope torii_scope.

Abbreviation Data := (list Byte.byte).
(** The directory and the name of a file *)
Abbreviation Dir := (list string).

Class ImageLib : Type := {
  DynamicImage : Type;
  ImageFormat : Type;
  guess_format : Data → option ImageFormat;
  load_from_memory : Data → ImageFormat → option DynamicImage;
  resize_to_fill : DynamicImage → Z → Z → DynamicImage;
  write_to : DynamicImage → ImageFormat → option Data;
  extension : ImageFormat → string
}.
Class StaticEnv : Type := {
  sha256 : Data → list Z;
  (** [mime_guess::from_path(..).first_or_octet_stream()] *)
  mime_from_path : string → string;
  base64_standard : Data → string;
  (** [re.captures_iter(svg)]: where a match begins and ends, and its two groups *)
  href_captures : string → list (nat * nat * string * string);
  parse_http_date : string → option Z;
  fmt_http_date : Z → string;
  (** [NaiveDateTime::parse_from_str(.., "%Y-%m-%d %H:%M:%S")] *)
  parse_timestamp : string → option Z
}.
(** What the disk does with a request, and the time it gives to a file that is written. *)
Class Disk : Type := {
  disk_now : Z;
  can_create_dir : Dir → bool;
  can_create : Dir → string → bool;
  can_write : Dir → string → bool;
  (** what is left of the data when it cannot be written *)
  partly_written : Data → Data;
  can_read : Dir → string → bool;
  can_stat : Dir → string → bool;
  can_set_times : Dir → string → bool
}.

Module Static.
Import Msg Http Query.

(** ** Requests *)
Record ImageQuery : Type := mkImageQuery { image_height : option Z; image_width : option Z }.
Definition parse_u32 : string → option Z := unsigned_from 10 dec_val (2 ^ 32 - 1).
(** [pair.split_once('=')] *)
Definition split_once (c : ascii) (s : string) : option (string * string) :=
  match SqlString.split c s with
  | key :: value :: rest => Some (key, SqlString.join (String c EmptyString) (value :: rest))
  | _ => None
  end.
Definition query_pair (q : ImageQuery) (pair : string) : ImageQuery :=
  match split_once "="%char pair with
  | Some (key, value) =>
      let or old := match parse_u32 value with Some n => Some n | None => old end in
      if String.eqb key "h" || String.eqb key "height" then mkImageQuery (or (image_height q)) (image_width q)
      else if String.eqb key "w" || String.eqb key "width" then mkImageQuery (image_height q) (or (image_width q))
      else q
  | None => q
  end.
Definition parse_image_query (query_str : string) : ImageQuery :=
  foldl query_pair (mkImageQuery None None) (SqlString.split "&"%char query_str).

Inductive StaticResource : Type := Image | Metadata.
Definition parse_resource (segment : string) : option StaticResource :=
  if String.eqb segment "image" then Some Image else if String.eqb segment "metadata" then Some Metadata else None.
(** The directory, the identifier and the resource a path names. *)
Definition target (path : string) : option (Dir * string * StaticResource) :=
  match SqlString.split "/"%char path with
  | [contract_address; token_id; segment] =>
      resource ← parse_resource segment;
      if Erc.starts_with "0x" contract_address && Erc.starts_with "0x" token_id
      then Some ([contract_address; token_id], contract_address +:+ ":" +:+ token_id, resource) else None
  | [contract_address; segment] =>
      resource ← parse_resource segment;
      if Erc.starts_with "0x" contract_address then Some ([contract_address], contract_address, resource) else None
  | _ => None
  end.

(** ** Files *)
Record File : Type := mkFile { file_contents : Data; file_modified : Z }.
Abbreviation Files := (gmap (list string) (gmap string File)).
Record State : Type := mkState { files : Files; requests : list request }.
Definition set_files fs (s : State) : State := mkState fs (requests s).
Definition set_net rs (s : State) : State := mkState (files s) rs.

Definition not_found : Response := response 404 [] EmptyString.
Definition bytes_text (b : Data) : string := String.string_of_list_byte b.
Definition text_bytes (s : string) : Data := String.list_byte_of_string s.

Section static.
Context `{Sqlx} {PL : Pool} `{!MetadataEnv} {HO : HashOrder} {IM : ImageLib} {SE : StaticEnv} {DK : Disk}.
#[local] Abbreviation run A := (st State unit A).

Definition content_etag (contents : Data) : string :=
  quote +:+ String.concat EmptyString ((λ b, digits_string (pad_digits 2 (digits_of b))) <$> take 8 (sha256 contents)) +:+ quote.
Definition json_error_response (status : Z) (message : string) : Response :=
  response status [json_header] (default EmptyString (json_to_string (JObject {["error" := JString message]}))).

(** One column of the row of a token; [None] when the database fails. *)
Definition token_column (column token_id : string) : option (option string) :=
  match fetch_all ("SELECT " +:+ column +:+ " FROM tokens WHERE id = ?") [token_id] with
  | inl _ => None
  | inr [] => Some None
  | inr (row :: _) => match row_string row column with inr s => Some (Some s) | inl _ => None end
  end.
(** [fetch_one]: no row is an error *)
Definition fetch_one_column (column token_id : string) : outcome unit string :=
  match token_column column token_id with Some (Some s) => Ok s | _ => Err tt end.
Definition get_token_updated_at (token_id : string) : outcome unit string := fetch_one_column "updated_at" token_id.

Definition serve_metadata (token_id : string) (req : Request) : outcome unit Response :=
  match token_column "metadata" token_id with
  | None => Err tt
  | Some None => Ok (json_error_response 404 "Token not found")
  | Some (Some metadata) =>
      if String.eqb (str_trim metadata) EmptyString then Ok (json_error_response 404 "No metadata stored for token")
      else
        match json_from_string metadata with
        | None => Ok (json_error_response 500 "Stored metadata is not valid JSON")
        | Some _ =>
            let etag := content_etag (text_bytes metadata) in
            if decide (header_text req "if-none-match" = Some etag) then
              Ok (response 304 [("etag", etag); ("cache-control", "public, no-cache")] EmptyString)
            else Ok (response 200 [json_header; ("etag", etag); ("cache-control", "public, no-cache")] metadata)
        end
  end.

(** ** The images of a directory *)
Definition base_image (name : string) : bool := Erc.starts_with "image" name && negb (Kinds.str_contains name "@").
Definition find_base (entries : gmap string File) : option (string * File) :=
  List.find (λ e : string * File, base_image e.1) (hm_iter entries).
Definition at_most (bound : Z) (o : option Z) : bool := match o with Some n => n <=? bound | None => false end.
Definition size_suffix (q : ImageQuery) : string :=
  if at_most 100 (image_width q) then "@small"
  else if at_most 100 (image_height q) then "@small"
  else if at_most 250 (image_width q) then "@medium"
  else if at_most 250 (image_height q) then "@medium"
  else EmptyString.
Definition file_name_from_dir_and_query (token_image_dir : Dir) (query : ImageQuery) (fs : Files) : option string :=
  entries ← fs !! token_image_dir; base ← find_base entries;
  Some ("image" +:+ size_suffix query +:+ "." +:+ default EmptyString (last (SqlString.split "."%char base.1))).

Definition check_if_image_outdated (token_image_dir : Dir) (token_id : string) (fs : Files) : outcome unit bool :=
  match fs !! token_image_dir ≫= find_base with
  | None => Ok true
  | Some (name, file) =>
      if can_stat token_image_dir name then
        let? db_timestamp := get_token_updated_at token_id in
        Ok (match parse_timestamp db_timestamp with Some t => file_modified file <? t | None => true end)
      else Ok true
  end.

(** ** Fetching *)
Definition get_first_token_metadata (contract_address : string) : outcome unit json :=
  match fetch_all "SELECT metadata, id FROM tokens WHERE id LIKE ? AND metadata != '' ORDER BY id LIMIT 100" [contract_address +:+ ":%"] with
  | inl _ => Err tt
  | inr rows =>
      let? decoded := outcome_mapM (λ row, match row_string row "metadata", row_string row "id" with
                                           | inr m, inr i => Ok (m, i) | _, _ => Err tt end) rows in
      let image_of (e : string * string) :=
        m ← json_from_string e.1; if decide (json_get "image" m = None) then None else Some m in
      ok_or tt (omap image_of decoded !! 0%nat)
  end.
Definition is_contract (token_id : string) : bool := negb (Kinds.str_contains token_id ":").
(** The metadata of a token; for a contract without an image, that of its first token. *)
Definition image_metadata (token_id : string) : outcome unit json :=
  let fallback := if is_contract token_id then get_first_token_metadata token_id else Err tt in
  match fetch_one_column "metadata" token_id with
  | Ok text =>
      let text := str_trim text in
      if String.eqb text EmptyString then fallback
      else
        match json_from_string text with
        | Some metadata => if decide (json_get "image" metadata = None) then fallback else Ok metadata
        | None => fallback
        end
  | _ => fallback
  end.
Inductive ErcImageType : Type := Dynamic (img : DynamicImage) (format : ImageFormat) | Svg (data : Data).
Definition decode_image (data : Data) : outcome unit ErcImageType :=
  let? format := ok_or tt (guess_format data) in
  let? img := ok_or tt (load_from_memory data format) in Ok (Dynamic img format).
Definition looks_like_svg (data : Data) : bool := Erc.starts_with "<svg" (bytes_text data) || Erc.starts_with "<?xml" (bytes_text data).
Definition fetched_image (data : Data) : outcome unit ErcImageType :=
  if looks_like_svg data then Ok (Svg data) else decode_image data.
Definition on_net {E A} (m : st (list request) E A) : run A := st_map_err (λ _, tt) (st_zoom requests set_net m).
Definition image_type (uri : string) : run ErcImageType :=
  if Erc.starts_with "http" uri || Erc.starts_with "https" uri then
    let! data := on_net (Erc.fetch_content_from_http uri) in st_lift (fetched_image data)
  else if Erc.starts_with "ipfs" uri then
    let! cid := st_lift (unwrap (Erc.strip_prefix "ipfs://" uri)) in
    let! data := on_net (Erc.fetch_content_from_ipfs cid) in st_lift (fetched_image data)
  else if Erc.starts_with "data" uri then
    let! data_url := st_lift (ok_or tt (data_url_process uri)) in
    let 'mkDataUrl mime decoded := data_url in
    let! data := st_lift (ok_or tt decoded) in
    if String.eqb mime "image/svg+xml" then st_ret (Svg data) else st_lift (decode_image data)
  else st_throw tt.

(** [&s[a..b]] *)
Definition slice (a b : nat) (s : string) : string := String.substring a (b - a) s.
(** What takes the place of a reference to an image, [None] to leave it. *)
Definition embed (attr_name href : string) : run (option string) :=
  let embedded data := Some (attr_name +:+ "=" +:+ quote +:+ "data:" +:+ mime_from_path href +:+ ";base64," +:+ base64_standard data +:+ quote) in
  if Erc.starts_with "data:" href then st_ret None
  else if Erc.starts_with "http://" href || Erc.starts_with "https://" href then
    let! data := on_net (Erc.fetch_content_from_http href) in st_ret (embedded data)
  else match Erc.strip_prefix "ipfs://" href with
       | Some cid => let! data := on_net (Erc.fetch_content_from_ipfs cid) in st_ret (embedded data)
       | None => st_ret None
       end.
Fixpoint patch_captures (svg : string) (last_end : nat) (captures : list (nat * nat * string * string)) : run string :=
  match captures with
  | [] => st_ret (slice last_end (String.length svg) svg)
  | (a, b, attr_name, href) :: captures =>
      let! e := embed attr_name href in
      let! rest := patch_captures svg b captures in
      st_ret (slice last_end a svg +:+ default (slice a b svg) e +:+ rest)
  end.
Definition patch_svg_images_regex (svg_data : Data) : run Data :=
  match from_utf8 (string_bytes (bytes_text svg_data)) with
  | Ok svg_str => let! s := patch_captures svg_str 0 (href_captures svg_str) in st_ret (text_bytes s)
  | _ => st_throw tt
  end.

(** ** Storing *)
Definition create_dir (fs : Files) (d : Dir) : Files := match fs !! d with Some _ => fs | None => <[d := ∅]> fs end.
Definition create_dir_all (d : Dir) : run unit :=
  if can_create_dir d then st_modify (λ s, set_files (foldl create_dir (files s) ((λ n, take (S n) d) <$> seq 0 (length d))) s)
  else st_throw tt.
Definition put (d : Dir) (name : string) (f : File) (fs : Files) : Files := <[d := <[name := f]> (default ∅ (fs !! d))]> fs.
Definition create_file (d : Dir) (name : string) : run unit :=
  if can_create d name then st_modify (λ s, set_files (put d name (mkFile [] disk_now) (files s)) s) else st_throw tt.
Definition write_all (d : Dir) (name : string) (data : Data) : run unit :=
  if can_write d name then st_modify (λ s, set_files (put d name (mkFile data disk_now) (files s)) s)
  else st_modify (λ s, set_files (put d name (mkFile (partly_written data) disk_now) (files s)) s) ;;; st_throw tt.
(** An error to set the time of a file is only logged. *)
Definition set_file_timestamp (d : Dir) (name timestamp_str : string) : run unit :=
  match parse_timestamp timestamp_str with
  | Some t =>
      if can_set_times d name then
        st_modify (λ s, set_files (match files s !! d ≫= lookup name with
                                   | Some f => put d name (mkFile (file_contents f) t) (files s)
                                   | None => files s
                                   end) s)
      else st_ret tt
  | None => st_ret tt
  end.
Definition stamp (d : Dir) (name : string) (db_timestamp : option string) : run unit :=
  match db_timestamp with Some t => set_file_timestamp d name t | None => st_ret tt end.
(** The file is created before the image is encoded. *)
Definition save_image (d : Dir) (name : string) (img : DynamicImage) (format : ImageFormat) (db_timestamp : option string) : run unit :=
  create_file d name ;;;
  let! data := st_lift (ok_or tt (write_to img format)) in
  write_all d name data ;;; stamp d name db_timestamp.
Definition target_sizes : list (string * Z) := [("@medium", 250); ("@small", 100)].
Definition image_dir (token_id : string) : outcome unit Dir :=
  if Kinds.str_contains token_id ":" then
    match SqlString.split ":"%char token_id with
    | [contract_address; token_id_part] =>
        Ok (if String.eqb token_id_part EmptyString then [contract_address] else [contract_address; token_id_part])
    | _ => Err tt
    end
  else Ok [token_id].
Definition store_image (d : Dir) (db_timestamp : option string) (image : ErcImageType) : run unit :=
  match image with
  | Dynamic img format =>
      let name suffix := "image" +:+ suffix +:+ "." +:+ extension format in
      save_image d (name EmptyString) img format db_timestamp ;;;
      for_each (λ '(label, size), save_image d (name label) (resize_to_fill img size size) format db_timestamp) target_sizes
  | Svg data =>
      let! patched := patch_svg_images_regex data in
      create_file d "image.svg" ;;; write_all d "image.svg" patched ;;; stamp d "image.svg" db_timestamp
  end.
Definition fetch_and_process_image (token_id : string) (db_timestamp : option string) : run unit :=
  let! metadata := st_lift (image_metadata token_id) in
  let! image_uri := st_lift (ok_or tt (i ← json_get "image" metadata; Traits.as_str i)) in
  let! image := image_type image_uri in
  let! d := st_lift (image_dir token_id) in
  create_dir_all d ;;; store_image d db_timestamp image.

(** ** Serving *)
Definition cache_control : string * string := ("cache-control", "public, max-age=3600, stale-while-revalidate=86400").
Definition seconds (t : Z) : Z := Z.max 0 t / 10 ^ 9.
Definition serve_file (d : Dir) (name : string) (req : Request) (fs : Files) : Response :=
  match fs !! d ≫= lookup name with
  | Some file =>
      if can_read d name then
        let etag := content_etag (file_contents file) in
        let modified := if can_stat d name then Some (file_modified file) else None in
        if decide (header_text req "if-none-match" = Some etag) then response 304 [("etag", etag); cache_control] EmptyString
        else
          match header_text req "if-modified-since" ≫= parse_http_date, modified with
          | Some client_time, Some file_mod_time =>
              if seconds file_mod_time <=? seconds client_time then
                response 304 [("etag", etag); ("last-modified", fmt_http_date file_mod_time); cache_control] EmptyString
              else
                response 200 [("content-type", mime_from_path name); ("etag", etag); cache_control;
                              ("last-modified", fmt_http_date file_mod_time)] (bytes_text (file_contents file))
          | _, Some file_mod_time =>
              response 200 [("content-type", mime_from_path name); ("etag", etag); cache_control;
                            ("last-modified", fmt_http_date file_mod_time)] (bytes_text (file_contents file))
          | _, None => response 200 [("content-type", mime_from_path name); ("etag", etag); cache_control] (bytes_text (file_contents file))
          end
      else not_found
  | None => not_found
  end.
Definition outdated (d : Dir) (token_id : string) (fs : Files) : outcome unit bool :=
  match check_if_image_outdated d token_id fs with Ok b => Ok b | Err _ => Ok true | Panic => Panic end.
Definition serve_image (d : Dir) (token_id : string) (query : ImageQuery) (req : Request) : run Response :=
  let! fs := (λ s, (Ok (files s), s)) in
  let! should_fetch := st_lift (outdated d token_id fs) in
  let db_timestamp := match get_token_updated_at token_id with Ok t => Some t | _ => None end in
  let! fetched := Erc.catch (if should_fetch : bool then fetch_and_process_image token_id db_timestamp else st_ret tt) in
  match fetched with
  | inl _ => st_ret not_found
  | inr _ =>
      let! fs := (λ s, (Ok (files s), s)) in
      st_ret match file_name_from_dir_and_query d query fs with Some name => serve_file d name req fs | None => not_found end
  end.
Definition serve_static_file (path : string) (query : ImageQuery) (req : Request) : run Response :=
  match target path with
  | None => st_ret not_found
  | Some (_, token_id, Metadata) => st_lift (serve_metadata token_id req)
  | Some (d, token_id, Image) => serve_image d token_id query req
  end.
Definition static_handle (req : Request) : st State Empty_set Response :=
  let! r := Erc.catch (serve_static_file (default EmptyString (Erc.strip_prefix "/static/" (req_path req)))
                         (parse_image_query (default EmptyString (req_query req))) req) in
  st_ret match r with inr response => response | inl _ => not_found end.
Definition StaticHandler {W} (get_static : W → State) (set_static : State → W → W) : Handler W :=
  mkHandler _ (λ req, Erc.starts_with "/static" (req_path req)) (λ req _, st_zoom get_static set_static (static_handle req)).

(** ** Where files are written *)
(** Names that stay in the directory of artifacts. *)
Definition safe_name (n : string) : Prop := Erc.starts_with "0x" n = true ∧ SqlString.free_of "/"%char n.
Definition safe_dir (d : Dir) : Prop := (length d = 1 ∨ length d = 2)%nat ∧ Forall safe_name d.
Definition only_safe (s s' : State) : Prop := ∀ d, ¬ safe_dir d → files s' !! d = files s !! d.
#[local] Instance only_safe_preorder : PreOrder only_safe.
Proof. split; [done|]. intros s1 s2 s3 H1 H2 d Hd. by rewrite H2, H1. Qed.

Lemma free_snoc c s c' : SqlString.free_of c s → c' ≠ c → SqlString.free_of c (s +:+ String c' EmptyString).
Proof. induction s as [|x s IH]; simpl; [by split|]. intros [? ?] ?. split; auto. Qed.
Lemma split_parts_free c s : Forall (SqlString.free_of c) (SqlString.split c s).
Proof.
  unfold SqlString.split. assert (SqlString.free_of c EmptyString) as Ha by done. revert Ha. generalize EmptyString as acc.
  induction s as [|x s IH]; intros acc Ha; simpl; [by constructor|].
  case_decide; [constructor; [done|by apply IH]|]. apply IH. by apply free_snoc.
Qed.
Lemma substring_middle a b : String.substring (String.length a) 1 (a +:+ ":" +:+ b) = ":".
Proof. induction a as [|c a IH]; simpl; [by destruct b|exact IH]. Qed.
Lemma token_has_colon a b : Kinds.str_contains (a +:+ ":" +:+ b) ":" = true.
Proof.
  unfold Kinds.str_contains. destruct (String.index 0 ":" (a +:+ ":" +:+ b)) eqn:E; [done|].
  exfalso. refine (String.index_correct3 _ (String.length a) _ _ E _ _ (substring_middle a b)); [done|lia].
Qed.
Lemma target_safe path d token_id resource :
  target path = Some (d, token_id, resource) → safe_dir d ∧ (is_contract token_id = true → safe_name token_id).
Proof.
  unfold target. pose proof (split_parts_free "/"%char path) as Hfree.
  destruct (SqlString.split "/"%char path) as [|c [|t [|r [|? ?]]]]; try done.
  - destruct (parse_resource t); simpl; [|done]. destruct (Erc.starts_with "0x" c) eqn:Hc; [|done]. intros [= <- <- <-].
    apply Forall_cons_1 in Hfree as [? _]. assert (safe_name c) by done. split; [|done]. split; [by left|by constructor].
  - destruct (parse_resource r); simpl; [|done]. destruct (Erc.starts_with "0x" c) eqn:Hc; [|done].
    destruct (Erc.starts_with "0x" t) eqn:Ht; [|done]. intros [= <- <- <-].
    apply Forall_cons_1 in Hfree as [? [? _]%Forall_cons_1]. split.
    + split; [by right|]. repeat constructor; done.
    + unfold is_contract. by rewrite token_has_colon.
Qed.

(** ** Fetching leaves the files as they are *)
Definition same_files (s s' : State) : Prop := files s' = files s.
#[local] Instance same_files_preorder : PreOrder same_files.
Proof. split; [done|]. unfold same_files. congruence. Qed.
Lemma same_on_net {E A} (m : st (list request) E A) : keeps same_files (on_net m).
Proof. intros s. unfold same_files, on_net, st_map_err, st_zoom. by destruct (m (requests s)). Qed.
#[local] Hint Resolve same_on_net : torii.
Lemma same_image_type uri : keeps same_files (image_type uri).
Proof. unfold image_type. keeps_solve. Qed.
Lemma same_embed a h : keeps same_files (embed a h).
Proof. unfold embed. keeps_solve. Qed.
#[local] Hint Resolve same_embed same_image_type : torii.
Lemma same_patch_captures svg n captures : keeps same_files (patch_captures svg n captures).
Proof. revert n. induction captures as [|[[[a b] x] h] l IH]; intros n; simpl; keeps_solve. Qed.
#[local] Hint Resolve same_patch_captures : torii.
Lemma same_patch_svg data : keeps same_files (patch_svg_images_regex data).
Proof. unfold patch_svg_images_regex. keeps_solve. Qed.
#[local] Hint Resolve same_patch_svg : torii.

Section contained.
(** The identifiers in the table of tokens are those of contracts and tokens. *)
Hypothesis token_ids : ∀ id text d, token_column "metadata" id = Some (Some text) → image_dir id = Ok d → safe_dir d.

Lemma keeps_files {A} (m : run A) : keeps same_files m → keeps only_safe m.
Proof. intros Hm s d _. by rewrite Hm. Qed.
Lemma keeps_modify (f : State → State) : (∀ s, only_safe s (f s)) → keeps only_safe (st_modify (E := unit) f).
Proof. intros Hf s. apply Hf. Qed.
#[local] Hint Resolve keeps_files : torii.
Lemma put_safe d name f s : safe_dir d → only_safe s (set_files (put d name f (files s)) s).
Proof. intros Hd d' Hd'. simpl. unfold put. apply lookup_insert_ne. by intros ->. Qed.
Lemma keeps_create_file d name : safe_dir d → keeps only_safe (create_file d name).
Proof. intros Hd. unfold create_file. keeps_solve. apply keeps_modify. intros ?. by apply put_safe. Qed.
Lemma keeps_write_all d name data : safe_dir d → keeps only_safe (write_all d name data).
Proof. intros Hd. unfold write_all. keeps_solve; apply keeps_modify; intros ?; by apply put_safe. Qed.
Lemma keeps_stamp d name t : safe_dir d → keeps only_safe (stamp d name t).
Proof.
  intros Hd. unfold stamp, set_file_timestamp. keeps_solve. apply keeps_modify. intros s'.
  destruct (_ ≫= lookup name); [by apply put_safe|done].
Qed.
#[local] Hint Resolve keeps_create_file keeps_write_all keeps_stamp : torii.
Lemma keeps_save_image d name img format t : safe_dir d → keeps only_safe (save_image d name img format t).
Proof. intros Hd. unfold save_image. keeps_solve. Qed.
#[local] Hint Resolve keeps_save_image : torii.
Lemma keeps_store_image d t image : safe_dir d → keeps only_safe (store_image d t image).
Proof. intros Hd. unfold store_image, target_sizes. simpl. keeps_solve. Qed.
Lemma create_dirs_safe l fs d : Forall safe_dir l → ¬ safe_dir d → foldl create_dir fs l !! d = fs !! d.
Proof.
  intros Hl Hd. revert fs. induction Hl as [|x l Hx _ IH]; intros fs; simpl; [done|]. rewrite IH. unfold create_dir.
  destruct (fs !! x); [done|]. apply lookup_insert_ne. by intros ->.
Qed.
Lemma safe_dir_prefixes d : safe_dir d → Forall safe_dir ((λ n, take (S n) d) <$> seq 0 (length d)).
Proof.
  intros [Hlen Hnames]. unfold safe_dir. destruct d as [|a [|b [|? ?]]]; simpl in *; try lia; rewrite !Forall_cons in Hnames;
    rewrite !Forall_cons, !Forall_nil; simpl; intuition.
Qed.
Lemma keeps_create_dir_all d : safe_dir d → keeps only_safe (create_dir_all d).
Proof.
  intros Hd. unfold create_dir_all. keeps_solve. apply keeps_modify. intros s d' Hd'. simpl.
  apply create_dirs_safe; [by apply safe_dir_prefixes|done].
Qed.
#[local] Hint Resolve keeps_store_image keeps_create_dir_all : torii.
Lemma image_metadata_safe id metadata d :
  (is_contract id = true → safe_name id) → image_metadata id = Ok metadata → image_dir id = Ok d → safe_dir d.
Proof.
  intros Hid Hm Hd. destruct (fetch_one_column "metadata" id) as [text|[]|] eqn:Hrow.
  - unfold fetch_one_column in Hrow. destruct (token_column "metadata" id) as [[text'|]|] eqn:Hc; try done. by eapply token_ids.
  - unfold image_metadata in Hm. rewrite Hrow in Hm. unfold is_contract in *. unfold image_dir in Hd.
    destruct (Kinds.str_contains id ":"); simpl in *; [done|]. injection Hd as <-. split; [by left|]. by apply Forall_singleton, Hid.
  - unfold fetch_one_column in Hrow. by repeat case_match.
Qed.
Lemma keeps_lift_bind {A B} (o : outcome unit A) (k : A → run B) : (∀ a, o = Ok a → keeps only_safe (k a)) → keeps only_safe (st_bind (st_lift o) k).
Proof. intros Hk s. unfold st_bind, st_lift. destruct o as [a|e|]; [by apply Hk|done..]. Qed.
Lemma keeps_fetch id t : (is_contract id = true → safe_name id) → keeps only_safe (fetch_and_process_image id t).
Proof.
  intros Hid. unfold fetch_and_process_image. apply keeps_lift_bind. intros metadata Hm. keeps_step; [by keeps_solve|].
  keeps_step; [by keeps_solve|]. apply keeps_lift_bind. intros d Hd.
  assert (safe_dir d) by (by eapply image_metadata_safe). keeps_solve.
Qed.
Lemma keeps_erc_catch {S E E' A} (R : relation S) `{!PreOrder R} (m : st S E A) : keeps R m → keeps R (Erc.catch (E' := E') m).
Proof. intros Hm s. specialize (Hm s). unfold Erc.catch. by destruct (m s) as [[]]. Qed.
Lemma keeps_serve_image d id q req : (is_contract id = true → safe_name id) → keeps only_safe (serve_image d id q req).
Proof.
  intros Hid. unfold serve_image. apply keeps_bind; [exact _|by intros s|]. intros fs. keeps_step; [by keeps_solve|].
  keeps_step. { apply keeps_erc_catch; [exact _|]. destruct a; [by apply keeps_fetch|keeps_solve]. }
  destruct a0; [by keeps_solve|]. apply keeps_bind; [exact _|by intros s|]. intros fs'. keeps_solve.
Qed.

(** C21: whatever path is asked for, the server only writes files in directories of one or
    two names that begin with 0x and have no slash, that is, below the directory of
    artifacts, if the identifiers in the table of tokens are such names. *)
Theorem static_writes_contained req s d :
  ¬ safe_dir d → files (static_handle req s).2 !! d = files s !! d.
Proof.
  revert s d. change (keeps only_safe (static_handle req)). unfold static_handle. apply keeps_bind; [exact _| |intros r; keeps_solve].
  apply keeps_erc_catch; [exact _|]. unfold serve_static_file.
  destruct (target _) as [[[d id] resource]|] eqn:Ht; [|keeps_solve]. apply target_safe in Ht as [_ Hid].
  destruct resource; [by apply keeps_serve_image|keeps_solve].
Qed.
End contained.

(** ** Fetching once *)
Definition entry (fs : Files) (d : Dir) (name : string) : option File := fs !! d ≫= lookup name.
Lemma entry_put d name f fs n : entry (put d name f fs) d n = if decide (n = name) then Some f else entry fs d n.
Proof.
  unfold entry, put. rewrite lookup_insert_eq. simpl. case_decide as Hn; [subst; apply lookup_insert_eq|].
  rewrite lookup_insert_ne by done. by destruct (fs !! d); simpl; rewrite ?lookup_empty.
Qed.
Lemma find_base_entry fs d name f : fs !! d ≫= find_base = Some (name, f) → base_image name = true ∧ entry fs d name = Some f.
Proof.
  unfold entry. destruct (fs !! d) as [entries|]; simpl; [|done]. unfold find_base. intros [Hin Hb]%List.find_some.
  split; [done|]. apply list_elem_of_In, elem_of_hm_iter in Hin. done.
Qed.

Section once.
Context (d : Dir) (timestamp : string) (t : Z).
Hypothesis parsed : parse_timestamp timestamp = Some t.
Hypothesis times : ∀ name, can_set_times d name = true.

(** The images of the directory have the time of the row. *)
Definition as_of (s : State) : Prop := ∀ name f, base_image name = true → entry (files s) d name = Some f → file_modified f = t.
Definition hold {A} (m : run A) : Prop := ∀ s a s', as_of s → m s = (Ok a, s') → as_of s'.
Lemma hold_bind {A B} (m : run A) (k : A → run B) : hold m → (∀ a, hold (k a)) → hold (st_bind m k).
Proof.
  intros Hm Hk s b s' Hs. unfold st_bind. destruct (m s) as [[a|e|] s1] eqn:E; [|done..]. intros H1.
  eapply Hk; [|exact H1]. by eapply Hm.
Qed.
Lemma hold_files {A} (m : run A) : keeps same_files m → hold m.
Proof. intros Hm s a s' Hs E name f. specialize (Hm s). rewrite E in Hm. simpl in Hm. rewrite Hm. apply Hs. Qed.
Lemma hold_lift {A} (o : outcome unit A) : hold (st_lift o).
Proof. by apply hold_files. Qed.
Lemma put_stamp name f s : as_of s → as_of (mkState (put d name (mkFile f t) (files s)) (requests s)).
Proof. intros Hs n f' Hb. simpl. rewrite entry_put. case_decide; [by intros [= <-]|by apply Hs]. Qed.
Lemma put_put name f g fs : put d name g (put d name f fs) = put d name g fs.
Proof. unfold put. by rewrite lookup_insert_eq, insert_insert_eq; simpl; rewrite insert_insert_eq. Qed.
Lemma written name data s : as_of s → ∀ s',
  (create_file d name ;;; write_all d name data ;;; stamp d name (Some timestamp)) s = (Ok tt, s') → as_of s'.
Proof.
  intros Hs s'. unfold create_file, write_all, stamp, set_file_timestamp, st_bind, st_modify, st_throw, st_ret. rewrite parsed, times.
  destruct (can_create d name); [|done]. destruct (can_write d name); [|done]. intros [= <-]. simpl. rewrite put_put.
  assert (put d name (mkFile data disk_now) (files s) !! d ≫= lookup name = Some (mkFile data disk_now)) as ->.
  { pose proof (entry_put d name (mkFile data disk_now) (files s) name) as E. by rewrite decide_True in E. }
  simpl. rewrite put_put. exact (put_stamp name data s Hs).
Qed.
Lemma hold_save_image name img format : hold (save_image d name img format (Some timestamp)).
Proof.
  intros s [] s' Hs. unfold save_image. destruct (write_to img format) as [data|]; simpl.
  - intros E. apply (written name data s Hs). exact E.
  - unfold st_bind, create_file, st_modify, st_throw, st_lift. by destruct (can_create d name).
Qed.
Lemma hold_for_each {A} (f : A → run unit) l : (∀ x, hold (f x)) → hold (for_each f l).
Proof. intros Hf. induction l; simpl; [by apply hold_files|]. by apply hold_bind. Qed.
Lemma hold_store_image image : hold (store_image d (Some timestamp) image).
Proof.
  destruct image as [img format|data]; unfold store_image.
  - apply hold_bind; [apply hold_save_image|]. intros []. apply hold_for_each. intros [label size]. apply hold_save_image.
  - apply hold_bind; [apply hold_files, same_patch_svg|]. intros patched s [] s' Hs. by apply written.
Qed.
Lemma create_dir_entry fs x name : entry (create_dir fs x) d name = entry fs d name.
Proof.
  unfold create_dir, entry. destruct (fs !! x) eqn:E; [done|]. destruct (decide (x = d)) as [->|Hne]; [|by rewrite lookup_insert_ne].
  rewrite lookup_insert_eq, E. simpl. apply lookup_empty.
Qed.
Lemma hold_create_dir_all d' : hold (create_dir_all d').
Proof.
  intros s [] s' Hs. unfold create_dir_all, st_throw, st_modify. destruct (can_create_dir d'); [|done]. intros [= <-] name f. simpl.
  generalize ((λ n, take (S n) d') <$> seq 0 (length d')). intros l Hb He. apply (Hs name f Hb). revert He. generalize (files s).
  induction l as [|x l IH]; intros fs; simpl; [done|]. intros Hf%IH. by rewrite create_dir_entry in Hf.
Qed.
Lemma hold_fetch id : image_dir id = Ok d → hold (fetch_and_process_image id (Some timestamp)).
Proof.
  intros Hd. unfold fetch_and_process_image. apply hold_bind; [apply hold_lift|]. intros metadata. apply hold_bind; [apply hold_lift|].
  intros uri. apply hold_bind; [apply hold_files, same_image_type|]. intros image. rewrite Hd.
  change (hold (create_dir_all d ;;; store_image d (Some timestamp) image)). apply hold_bind; [apply hold_create_dir_all|].
  intros _. apply hold_store_image.
Qed.
End once.

(** What is served from the files at hand. *)
Definition served (d : Dir) (query : ImageQuery) (req : Request) (fs : Files) : Response :=
  match file_name_from_dir_and_query d query fs with Some name => serve_file d name req fs | None => not_found end.
Lemma serve_image_Ok d id q req s r s' : serve_image d id q req s = (Ok r, s') → r ≠ not_found →
  r = served d q req (files s') ∧
  (s' = s ∨ fetch_and_process_image id (match get_token_updated_at id with Ok t => Some t | _ => None end) s = (Ok tt, s')).
Proof.
  unfold serve_image, st_bind, st_lift, st_ret, Erc.catch. destruct (outdated d id (files s)) as [[]| |]; [|..|done|done].
  - destruct (fetch_and_process_image id _ s) as [[[]|e|] s1]; intros [= <- <-] Hr; try done. split; [done|by right].
  - intros [= <- <-] _. split; [done|by left].
Qed.
Lemma etag_of_served d q req fs r e :
  r = served d q req fs → r ≠ not_found → resp_headers r !! "etag" = Some e →
  ∃ name file, file_name_from_dir_and_query d q fs = Some name ∧ entry fs d name = Some file ∧ can_read d name = true ∧ e = content_etag (file_contents file).
Proof.
  unfold served, entry. intros -> Hr He. destruct (file_name_from_dir_and_query d q fs) as [name|]; [|done]. exists name.
  unfold serve_file in *. destruct (fs !! d ≫= lookup name) as [file|]; [|done]. exists file. destruct (can_read d name); [|done].
  split_and!; [done..|]. repeat case_match; simplify_eq; simpl in He;
    repeat (rewrite lookup_insert_ne in He; [|discriminate]); rewrite lookup_insert_eq in He; congruence.
Qed.
Lemma served_not_modified d q req fs name file :
  file_name_from_dir_and_query d q fs = Some name → entry fs d name = Some file → can_read d name = true →
  header_text req "if-none-match" = Some (content_etag (file_contents file)) → resp_status (served d q req fs) = 304.
Proof. unfold served, serve_file, entry. intros -> -> -> ->. by rewrite decide_True. Qed.

(** An image that was fetched is served from the files until the row of its token
    changes: another request, for any size, asks nothing of the outside and writes
    nothing, and one with the tag of the first answer is told that nothing changed. *)
Theorem image_fetched_once d id q req q' req' timestamp t s r s' :
  image_dir id = Ok d → (∀ name f, base_image name = true → entry (files s) d name ≠ Some f) →
  get_token_updated_at id = Ok timestamp → parse_timestamp timestamp = Some t →
  (∀ name, can_stat d name = true ∧ can_set_times d name = true) →
  serve_image d id q req s = (Ok r, s') → r ≠ not_found →
  serve_image d id q' req' s' = (Ok (served d q' req' (files s')), s') ∧
  (∀ e, resp_headers r !! "etag" = Some e → header_text req' "if-none-match" = Some e → q' = q →
     resp_status (served d q' req' (files s')) = 304).
Proof.
  intros Hd Hnone Hrow Ht Hdisk Hrun Hr. apply serve_image_Ok in Hrun as [Hserved Hfetch]; [|done]. split.
  - assert (as_of d t s') as Hnew.
    { assert (as_of d t s) as Hs by (intros name f Hb He; by destruct (Hnone name f Hb)).
      destruct Hfetch as [->|Hfetch]; [done|]. rewrite Hrow in Hfetch.
      refine (hold_fetch d timestamp t Ht _ id Hd s tt s' Hs Hfetch). intros name. apply Hdisk. }
    assert (outdated d id (files s') = Ok false) as Hout.
    { unfold outdated, check_if_image_outdated. destruct (files s' !! d ≫= find_base) as [[name f]|] eqn:Hb.
      - destruct (find_base_entry _ _ _ _ Hb) as [Hbase He]. rewrite (proj1 (Hdisk name)), Hrow. simpl.
        by rewrite Ht, (Hnew name f Hbase He), Z.ltb_irrefl.
      - exfalso. apply Hr. rewrite Hserved. unfold served, file_name_from_dir_and_query.
        by destruct (files s' !! d) as [entries|]; simpl in *; rewrite ?Hb. }
    unfold serve_image, st_bind, st_lift, st_ret, Erc.catch. by rewrite Hout.
  - intros e He Hreq ->. destruct (etag_of_served d q req (files s') r e Hserved Hr He) as (name & file & Hn & Hf & Hc & ->).
    by eapply served_not_modified.
Qed.

(** ** What is not found *)
(** The smaller sizes of a drawing are never stored, but asked for. *)
Lemma small_svg_not_found d q req fs entries f :
  fs !! d = Some entries → find_base entries = Some ("image.svg", f) → entries !! "image@small.svg" = None →
  at_most 100 (image_width q) = true → served d q req fs = not_found.
Proof.
  intros Hd Hb Hs Hq. unfold served.
  assert (file_name_from_dir_and_query d q fs = Some "image@small.svg") as ->.
  { unfold file_name_from_dir_and_query, size_suffix. rewrite Hd, Hq. simpl. by rewrite Hb. }
  unfold serve_file. rewrite Hd. simpl. by rewrite Hs.
Qed.
(** An image that cannot be encoded leaves an empty file, which is newer than the row. *)
Lemma failed_encoding_leaves_file d name img format t s :
  write_to img format = None → can_create d name = true →
  ∃ s', save_image d name img format t s = (Err tt, s') ∧ entry (files s') d name = Some (mkFile [] disk_now).
Proof.
  intros Hw Hc. unfold save_image, create_file, st_bind, st_modify, st_lift. rewrite Hc, Hw. simpl. eexists. split; [done|].
  simpl. rewrite entry_put. by rewrite decide_True.
Qed.
Lemma ipfs_no_http_image uri rest : Erc.starts_with "ipfs" uri = true → Erc.starts_with (String "h" rest) uri = false.
Proof.
  unfold Erc.starts_with. destruct uri as [|c uri]; [done|]. cbn [String.prefix].
  destruct (ascii_dec "i" c) as [<-|]; [reflexivity|discriminate].
Qed.
Lemma bad_ipfs_panics uri s : Erc.bad_ipfs uri → image_type uri s = (Panic, s).
Proof.
  intros [Hi Hs]. unfold image_type. rewrite !ipfs_no_http_image, Hi by done. unfold Erc.strip_prefix. unfold Erc.starts_with in Hs.
  by rewrite Hs.
Qed.
End static.

(** ** A token with an image *)
#[local] Instance demo_rows : Sqlx := {|
  SqliteRow := gmap string string; SqlxError := unit; sqlx_text _ := "error";
  row_string r c := match r !! c with Some v => inr v | None => inl tt end; row_int _ _ _ := inl tt;
  row_bool _ _ := inl tt; row_time _ _ := inl tt; row_f64 _ _ := inl tt; row_null r c := inr (bool_decide (r !! c = None))
|}.
#[local] Instance demo_tokens : Pool := {|
  fetch_all s b := if decide (b = ["0xa:0x1"]) then inr [list_to_map [("metadata", "{..}"); ("updated_at", "now")]] else inr []
|}.
#[local] Instance demo_metadata : MetadataEnv := {|
  node_call _ _ := inr []; node_batch _ _ := inr []; http_get _ _ := None; ipfs_cat _ _ := None;
  data_url_process _ := Some (mkDataUrl "image/png" (Some [Byte.x2a])); utf8_lossy _ := []; json_from_slice _ := None;
  json_from_chars _ := None; json_from_string _ := Some (JObject {["image" := JString "data:image/png;base64,Kg=="]});
  json_to_string _ := Some EmptyString
|}.
#[local] Instance demo_images : ImageLib := {|
  DynamicImage := Z; ImageFormat := unit; guess_format _ := Some tt; load_from_memory _ _ := Some 1000;
  resize_to_fill _ w _ := w; write_to n _ := Some (replicate (Z.to_nat n / 50) Byte.x2a); extension _ := "png"
|}.
#[local] Instance demo_static : StaticEnv := {|
  sha256 d := [Z.of_nat (length d)]; mime_from_path _ := "image/png"; base64_standard _ := EmptyString; href_captures _ := [];
  parse_http_date _ := None; fmt_http_date _ := EmptyString; parse_timestamp _ := Some 5
|}.
#[local] Instance demo_disk : Disk := {|
  disk_now := 100; can_create_dir _ := true; can_create _ _ := true; can_write _ _ := true; partly_written _ := []; can_read _ _ := true;
  can_stat _ _ := true; can_set_times _ _ := true
|}.
#[local] Existing Instance canonical_order.
Definition demo_get (path : string) (headers : gmap string string) : Request := mkRequest GET path None headers None.
Definition demo_empty : State := mkState ∅ [].

Lemma demo_ids id text d : token_column "metadata" id = Some (Some text) → image_dir id = Ok d → safe_dir d.
Proof.
  unfold token_column. cbn [fetch_all demo_tokens]. destruct (decide ([id] = ["0xa:0x1"])) as [Hid|_]; [|discriminate].
  injection Hid as ->. intros _ Hdir. vm_compute in Hdir. injection Hdir as <-. split; [right; reflexivity|].
  apply Forall_cons. split; [|apply Forall_singleton]; split; try reflexivity; repeat split; discriminate.
Qed.
Lemma static_writes_contained_witness :
  resp_status <$> match (static_handle (demo_get "/static/0xa/0x1/image" ∅) demo_empty).1 with Ok r => Some r | _ => None end = Some 200 ∧
  files (static_handle (demo_get "/static/0xa/0x1/image" ∅) demo_empty).2 !! [".."] = None.
Proof.
  split; [vm_compute; reflexivity|].
  rewrite (static_writes_contained demo_ids (demo_get "/static/0xa/0x1/image" ∅) demo_empty [".."]); [reflexivity|].
  intros [_ [[Hname _] _]%Forall_cons_1]. discriminate Hname.
Defined.

Definition demo_first : outcome unit Response * State :=
  serve_image ["0xa"; "0x1"] "0xa:0x1" (mkImageQuery None (Some 200)) (demo_get "/static/0xa/0x1/image" ∅) demo_empty.
Definition demo_answer : Response := match demo_first.1 with Ok r => r | _ => not_found end.
Definition demo_again : Request := demo_get "/static/0xa/0x1/image" {["if-none-match" := content_etag (replicate 5 Byte.x2a)]}.
Lemma image_fetched_once_witness :
  resp_status demo_answer = 200 ∧
  serve_image ["0xa"; "0x1"] "0xa:0x1" (mkImageQuery None (Some 200)) demo_again demo_first.2 =
    (Ok (served ["0xa"; "0x1"] (mkImageQuery None (Some 200)) demo_again (files demo_first.2)), demo_first.2) ∧
  resp_status (served ["0xa"; "0x1"] (mkImageQuery None (Some 200)) demo_again (files demo_first.2)) = 304.
Proof.
  destruct (image_fetched_once ["0xa"; "0x1"] "0xa:0x1" (mkImageQuery None (Some 200)) (demo_get "/static/0xa/0x1/image" ∅)
    (mkImageQuery None (Some 200)) demo_again "now" 5 demo_empty demo_answer demo_first.2) as [H1 H2].
  - reflexivity.
  - intros name f _. discriminate.
  - reflexivity.
  - reflexivity.
  - intros name. split; reflexivity.
  - vm_compute. reflexivity.
  - intros Heq%(f_equal resp_status). vm_compute in Heq. discriminate Heq.
  - split; [vm_compute; reflexivity|]. split; [exact H1|].
    apply (H2 (content_etag (replicate 5 Byte.x2a))); vm_compute; reflexivity.
Defined.
End Static.
