(* ===== verification/Proxy.v ===== *)
(** * The proxy ([crates/server/src/proxy.rs])

    The one port of the server: the handlers in their order, the response when none takes
    a request, the origins that are allowed. The state is that of all handlers together;
    the storage is the one the indexer writes to. *)

From S2P Require Import Prelude Math Proto EventProcessor SqlString Cache Database Traits Executor ModelTable Wire Messages Aggregator Matching.
From S2P Require Import Fetcher World Storage StorageWrites Query Erc SubscriptionKinds Messaging Grpc Http Mcp StaticFiles.
From Stdlib Require Import Ascii.
Local Open Scope Z_scope.
Local Open Scope torii_scope.

(** [o.parse::<http::Uri>()] *)
Class UriEnv : Type := { uri_parses : string → bool }.

Module Proxy.
Import Msg Http.

(** ** Settings *)
Record ProxySettings : Type := mkProxySettings {
  tcp_keepalive_interval : Z; http2_keepalive_interval : Z; http2_keepalive_timeout : Z
}.
(** [(n > 0).then(|| Duration::from_secs(n))] *)
Definition positive (n : Z) : option Z := if 0 <? n then Some n else None.
Definition tcp_keepalive (s : ProxySettings) : option Z := positive (tcp_keepalive_interval s).
Definition http2_interval (s : ProxySettings) : option Z := positive (http2_keepalive_interval s).
Definition http2_timeout (s : ProxySettings) : option Z := positive (http2_keepalive_timeout s).

(** The origins a browser may call from. *)
Inductive AllowOrigin : Type := MirrorRequest | OriginList (origins : list string).
(** [HeaderValue::from_str] *)
Definition header_value (s : string) : option string :=
  if forallb (λ c, ((32 <=? c) && negb (c =? 127)) || (c =? 9)) (string_bytes s) then Some s else None.
(** [AllowOrigin::list] panics when one of the origins is the wildcard. *)
Definition origin_list (l : list string) : outcome Empty_set AllowOrigin :=
  if existsb (String.eqb "*") l then Panic else Ok (OriginList l).
Definition create_cors_layer `{UriEnv} (allowed_origins : option (list string)) : outcome Empty_set (option AllowOrigin) :=
  match allowed_origins with
  | None => Ok None
  | Some origins =>
      let? origin :=
        (if decide (origins = ["*"]) then Ok MirrorRequest
         else
           let? values := outcome_mapM (λ o, if uri_parses o then unwrap (header_value o) else Panic) origins in
           origin_list values) in
      Ok (Some origin)
  end.

Section proxy.
Context `{!DojoTypes, !StarknetTypes, !CairoSerde, !MetadataEnv, !SqlString.FeltFromStr} {S : Type} `{!ProcessorStorage S, !IndexerStorage S}.
Context {HE : HttpEnv} {SQ : SqlDecode} {MC : McpEnv} `{!Sqlx} {PL : Pool} {HO : HashOrder} {IM : ImageLib} {SE : StaticEnv} {DK : Disk}.

(** ** The state of the handlers *)
Record Server : Type := mkServer {
  sv_storage : S;
  sv_sessions : gmap string Mcp.SseSession;
  (** the files, and the requests made to the outside *)
  sv_static : Static.State
}.
Definition set_sv_storage s (w : Server) : Server := mkServer s (sv_sessions w) (sv_static w).
Definition set_sv_sessions x (w : Server) : Server := mkServer (sv_storage w) x (sv_static w).
Definition set_sv_static x (w : Server) : Server := mkServer (sv_storage w) (sv_sessions w) x.
Definition sv_requests (w : Server) : list request := Static.requests (sv_static w).
Definition set_sv_requests rs (w : Server) : Server := set_sv_static (Static.set_net rs (sv_static w)) w.

Record Proxy : Type := mkProxy {
  allowed_origins : option (list string);
  handlers : list (Handler Server);
  version_spec : string;
  hostname : option string;
  proxy_settings : ProxySettings
}.
Definition metadata_handler : Handler Server := MetadataHandler sv_storage set_sv_storage sv_requests set_sv_requests.
(** [Proxy::new]; [new_id] is what the next session will be called *)
Definition new (new_id : string) (origins : option (list string)) (grpc_addr graphql_addr : option string) (raw_sql : bool)
    (version : string) (host : option string) (settings : ProxySettings) : Proxy :=
  mkProxy origins
    [GraphQLHandler graphql_addr; GrpcHandler grpc_addr; Mcp.McpHandler sv_sessions set_sv_sessions new_id; metadata_handler;
     SqlHandler raw_sql; Static.StaticHandler sv_static set_sv_static] version host settings.
(** [handlers[0] = ..], which panics when there is none *)
Definition set_graphql_addr (addr : string) (p : Proxy) : outcome Empty_set Proxy :=
  match handlers p with
  | _ :: l => Ok (mkProxy (allowed_origins p) (GraphQLHandler (Some addr) :: l) (version_spec p) (hostname p) (proxy_settings p))
  | [] => Panic
  end.

Definition default_response (version : string) : Response :=
  response 200 [json_header]
    (value_to_string (Object (list_to_map [("service", Str "torii"); ("version", Str version); ("success", Bool true)]))).
Definition add_host (host : option string) (r : Response) : Response :=
  match host ≫= header_value with
  | Some v => mkResponse (resp_status r) (<["x-torii-host" := v]> (resp_headers r)) (resp_body r)
  | None => r
  end.
Definition handler_of (req : Request) (l : list (Handler Server)) : option (Handler Server) :=
  List.find (λ h, should_handle h req) l.
Definition handle (p : Proxy) (client_ip : string) (req : Request) : st Server Empty_set Response :=
  let! r := match handler_of req (handlers p) with
            | Some h => Http.handle h req client_ip
            | None => st_ret (default_response (version_spec p))
            end in
  st_ret (add_host (hostname p) r).

(** ** Which handler takes a request *)
Lemma no_graphql_handler new_id origins grpc_addr graphql_addr raw_sql version host settings addr req ip w :
  Erc.starts_with "/graphql" (req_path req) = false →
  let p := new new_id origins grpc_addr graphql_addr raw_sql version host settings in
  ∃ p', set_graphql_addr addr p = Ok p' ∧ handle p' ip req w = handle p ip req w.
Proof. intros Hpath. eexists. split; [reflexivity|]. unfold handle, handler_of. simpl. by rewrite Hpath. Qed.
(** A path no handler takes is answered with success. *)
Lemma unknown_path_succeeds p ip req w :
  handler_of req (handlers p) = None → ∃ r, handle p ip req w = (Ok r, w) ∧ resp_status r = 200.
Proof.
  intros Hn. unfold handle. rewrite Hn. eexists. split; [reflexivity|]. unfold add_host. by destruct (hostname p ≫= header_value).
Qed.
Lemma wildcard_among_origins `{UriEnv} l : length l ≠ 1%nat → "*" ∈ l → Forall (λ o, uri_parses o = true ∧ header_value o = Some o) l →
  create_cors_layer (Some l) = Panic.
Proof.
  intros Hlen Hin Hok. unfold create_cors_layer. rewrite decide_False by (intros ->; done).
  assert (outcome_mapM (E := Empty_set) (λ o, if uri_parses o then unwrap (header_value o) else Panic) l = Ok l) as ->.
  { clear Hlen Hin. induction Hok as [|o l [Hu Hh] _ IH]; [done|]. simpl. rewrite Hu, Hh. simpl. by rewrite IH. }
  simpl. unfold origin_list. assert (existsb (String.eqb "*") l = true) as ->; [|done].
  apply existsb_exists. exists "*". split; [by apply list_elem_of_In|done].
Qed.

(** ** Reindexing *)
Section reindex.
Context `{!IndexerStorageSpec S} {PS : ProcessorStorageSpec S same_committed}.
#[local] Abbreviation reindex := (Http.reindex sv_storage set_sv_storage sv_requests set_sv_requests).

(** What a request to reindex does to what is committed, by the status of its answer. *)
Definition reindexed_to (req : Request) (w : Server) (status : Z) (s' : S) : Prop :=
  (status = 200 ∧ ∃ key contract_address token_id metadata s1,
     reindex_target (req_path req) = Ok (key, contract_address, token_id) ∧
     update_token_metadata (Nft contract_address token_id) metadata (sv_storage w) = (Ok tt, s1) ∧
     execute s1 = (Ok tt, s') ∧ committed s' = working s1) ∨
  (status = 400 ∧ s' = sv_storage w) ∨
  (status = 500 ∧ (committed s' = committed (sv_storage w) ∨ ∃ s1 e, execute s1 = (Err e, s') ∧ committed s1 = committed (sv_storage w))).

Lemma target_refused path r : reindex_target path = Err r → resp_status r = 400.
Proof. unfold reindex_target, unwrap. repeat case_match; simpl; intros; by simplify_eq. Qed.
Lemma reindex_spec req w r w' :
  reindex req w = (Ok r, w') ∨ reindex req w = (Err r, w') → reindexed_to req w (resp_status r) (sv_storage w').
Proof.
  unfold reindex, on_requests, on_storage, st_zoom, st_map_err, st_bind, st_lift, st_ret, reindexed_to.
  destruct (reindex_target (req_path req)) as [[[key a] id]|e|] eqn:Ht; simpl.
  - destruct (Erc.fetch_token_metadata a id (sv_requests w)) as [[m|e|] rs]; simpl;
      [|intros [[=]|[= <- <-]]; right; right; split; [done|by left]|by intros [[=]|[=]]].
    pose proof (update_token_metadata_spec (Nft a id) m (sv_storage w)) as Hc.
    destruct (update_token_metadata (Nft a id) m (sv_storage w)) as [[[]|e|] s1] eqn:Hu; simpl in *;
      [|intros [[=]|[= <- <-]]; right; right; split; [done|by left]|by intros [[=]|[=]]].
    destruct (execute s1) as [[[]|e|] s2] eqn:Hx; simpl; [| |by intros [[=]|[=]]].
    + intros [[= <- <-]|[=]]. left. split; [done|]. exists key, a, id, m, s1. split_and!; [done..|by apply execute_Ok in Hx as [? _]].
    + intros [[=]|[= <- <-]]. right. right. split; [done|]. right. by exists s1, e.
  - intros [[=]|[= -> <-]]. right. left. split; [by eapply target_refused|done].
  - by intros [[=]|[=]].
Qed.

(** C11: a request to reindex a token that is answered with success has committed the
    storage: the new metadata, and with it everything else that was written since the last
    commit, such as the part of a batch the indexer is still working on. One that is
    refused changes nothing, and one that fails commits nothing unless the commit itself
    fails. *)
Theorem reindex_commits p ip req w r w' :
  handler_of req (handlers p) = Some metadata_handler →
  handle p ip req w = (Ok r, w') → reindexed_to req w (resp_status r) (sv_storage w').
Proof.
  intros Hh. unfold handle. rewrite Hh. unfold st_bind, st_ret, metadata_handler, MetadataHandler, answer. simpl.
  assert (∀ r0, resp_status (add_host (hostname p) r0) = resp_status r0) as Hst.
  { intros r0. unfold add_host. by destruct (hostname p ≫= header_value). }
  destruct (reindex req w) as [[r0|r0|] w1] eqn:E; simpl; intros [= <- <-]; rewrite Hst; apply reindex_spec; auto.
Qed.
End reindex.
End proxy.

(** ** A storage with an open batch *)
Section witness.
#[local] Instance demo_dojo : DojoTypes := {| Proto.Ty := unit; Proto.Layout := unit; Proto.WorldMetadata := unit |}.
#[local] Instance demo_starknet : StarknetTypes :=
  {| Fetcher.Transaction := Felt; TransactionContent := Felt; TransactionReceipt := Felt; tx_hash t := t; Fetcher.tx_into t := t;
     receipt_hash r := r; receipt_events _ := []; receipt_reverted _ := false |}.
(** The writes that are committed, and all of them. *)
#[local] Abbreviation Pair := (nat * nat)%type.
Definition written : st Pair StorageError unit := λ s, (Ok tt, (s.1, S s.2)).
#[local] Instance demo_writes : ProcessorStorage Pair := {|
  model_row _ _ _ := Ok None; register_model _ _ _ _ _ _ _ _ _ _ _ _ := written; register_contract _ _ _ := written;
  set_entity _ _ _ _ _ _ _ := written; set_event_message _ _ _ _ _ := written; delete_entity _ _ _ _ _ _ := written;
  set_metadata _ _ _ := written; update_metadata _ _ _ _ _ := written; add_controller _ _ _ := written;
  register_token_contract _ _ _ _ _ := written; register_nft_token _ _ _ := written; update_token_metadata _ _ := written;
  store_token_transfer _ _ _ _ _ _ := written; store_transaction _ _ _ _ _ _ _ _ _ _ _ _ := written
|}.
#[local] Instance demo_indexer : IndexerStorage Pair := {|
  contracts _ := Ok []; token_ids _ := Ok ∅; store_event _ _ _ _ := written; store_transaction_receipt _ _ := written;
  apply_balances_diff _ _ _ := written; update_cursors _ _ := written;
  execute := λ s, (Ok tt, (s.2, s.2)); rollback := λ s, (Ok tt, (s.1, s.1))
|}.
#[local] Instance demo_indexer_spec : IndexerStorageSpec Pair.
Proof.
  refine {| content := nat; committed := fst; working := snd |}; try (intros; intros s; reflexivity).
  - intros s. by right.
  - intros s s' [= <-]. done.
  - intros s s' [= <-]. done.
Defined.
#[local] Instance demo_writes_spec : ProcessorStorageSpec Pair same_committed.
Proof. split; intros; intros s'; reflexivity. Qed.
#[local] Existing Instances Erc.words_serde Erc.silent_env canonical_order SqlString.hex_parser Mcp.demo_http Mcp.demo_decode Mcp.demo_mcp.
#[local] Existing Instances Static.demo_rows Static.demo_tokens Static.demo_images Static.demo_static Static.demo_disk.

(** Two writes are committed and three are not: the request commits all of them. *)
Definition demo_proxy : Proxy := new "s1" None None None false "1.0" (Some "host") (mkProxySettings 0 0 0).
Definition demo_reindex : Request :=
  mkRequest POST ("/metadata/reindex/0xa/0x" +:+ digits_string (pad_digits 64 [1])) None ∅ None.
Definition demo_open : Server := mkServer (2%nat, 5%nat) ∅ Static.demo_empty.
Definition demo_run : outcome Empty_set Response * Server := handle demo_proxy "ip" demo_reindex demo_open.
Definition demo_reply : Response := match demo_run.1 with Ok r => r | _ => disabled_response end.
Lemma reindex_commits_witness :
  resp_status demo_reply = 200 ∧ sv_storage demo_run.2 = (6%nat, 6%nat) ∧
  reindexed_to demo_reindex demo_open (resp_status demo_reply) (sv_storage demo_run.2).
Proof.
  split; [vm_compute; reflexivity|]. split; [vm_compute; reflexivity|].
  apply (reindex_commits demo_proxy "ip" demo_reindex demo_open demo_reply demo_run.2).
  - reflexivity.
  - vm_compute. reflexivity.
Defined.
End witness.
End Proxy.
