(* ===== verification/GraphqlQuery.v ===== *)
(** * Queries of the GraphQL server ([crates/graphql/src/query], [object/connection], [object/inputs])

    The arguments of a connection field, filters by the suffix of a name, the text of the
    statements, and the pages the server cuts out of their answers, with the cursors that
    lead from one page to the next.

    The values of [async-graphql], whose type the sources match on, are [GValue]; what
    SQLite answers is a parameter as in Query.v, and so are the base 64 of cursors, the
    escaping of regular expressions and the text of a value. *)

From S2P Require Import Prelude Proto SqlString SqlText Executor ModelTable Wire Messages Aggregator Messaging TypedData Query.
From stdpp Require Import pretty.
From Stdlib Require Import Ascii.
Local Open Scope Z_scope.
Local Open Scope torii_scope.

(** ** Values *)
#[local] Set Warnings "-register-all".
(** [async_graphql::Value]; an object is the list of its entries in their order *)
Inductive GValue `{JsonNumber} : Type :=
| VNull
| VNumber (n : Number)
| VString (s : string)
| VBoolean (b : bool)
| VBinary (b : Bytes)
| VEnum (name : string)
| VList (l : list GValue)
| VObject (fields : list (string * GValue)).

Class GraphqlEnv `{JsonNumber} : Type := {
  (** [general_purpose::STANDARD] *)
  b64_encode : Bytes → string;
  b64_decode : string → option Bytes;
  (** [regex::escape] *)
  regex_escape : string → string;
  (** [Value::to_string] *)
  value_text : GValue → string;
  (** [ValueAccessor::string], [enum_name], [i64], [boolean], [list], [object] *)
  as_string : GValue → option string;
  as_enum_name : GValue → option string;
  as_i64 : GValue → option Z;
  as_boolean : GValue → option bool;
  as_list : GValue → option (list GValue);
  as_object : GValue → option (list (string * GValue))
}.
Class Base64Spec `{GraphqlEnv} : Prop := {
  b64_round b : Forall (λ x, 0 ≤ x < 256) b → b64_decode (b64_encode b) = Some b
}.

(** [row.try_get_unchecked::<String, _>(column)]: the text of a column of any type *)
Class UncheckedText `{Sqlx} : Type := { row_unchecked : SqliteRow → string → SqlxError + string }.

Module Gql.
Import Msg Query TypedData.

Abbreviation ValueMapping := (list (string * GValue)).

(** ** Errors *)
Inductive ExtractError : Type :=
| NotFound (field : string)
| NotNumber (field : string)
| NotString (field : string)
| NotFelt (field : string)
| NotList (field : string).

(** [sqlx::Error], of the database or made by the server itself *)
Inductive QError `{Sqlx} : Type :=
| QDatabase (e : SqlxError)
| QDecode (what : string)
| QProtocol (what : string)
| QRowNotFound.

(** [async_graphql::Error] *)
Inductive GError `{Sqlx} : Type :=
| GMessage (what : string)
| GExtract (e : ExtractError)
| GSql (e : QError).

Definition db {A} `{Sqlx} (r : SqlxError + A) : outcome QError A :=
  match r with inl e => Err (QDatabase e) | inr a => Ok a end.

(** ** Filters ([query/filter.rs]) *)
Inductive Comparator : Type := Gt | Gte | Lt | Lte | Neq | Eq | NotIn | In | NotLike | Like.
#[global] Instance Comparator_eq_dec : EqDecision Comparator.
Proof. solve_decision. Defined.
(** [Comparator::iter()] *)
Definition comparators : list Comparator := [Gt; Gte; Lt; Lte; Neq; Eq; NotIn; In; NotLike; Like].
(** [comparator.as_ref()] *)
Definition comparator_ref (c : Comparator) : string :=
  match c with
  | Gt => "GT" | Gte => "GTE" | Lt => "LT" | Lte => "LTE" | Neq => "NEQ" | Eq => "EQ"
  | NotIn => "NOTIN" | In => "IN" | NotLike => "NOTLIKE" | Like => "LIKE"
  end.
(** [Display for Comparator] *)
Definition comparator_text (c : Comparator) : string :=
  match c with
  | Gt => ">" | Gte => ">=" | Lt => "<" | Lte => "<=" | Neq => "!=" | Eq => "="
  | In => "IN" | NotIn => "NOT IN" | Like => "LIKE" | NotLike => "NOT LIKE"
  end.

Inductive FilterValue : Type :=
| FInt (i : Z)
| FString (s : string)
| FList (l : list FilterValue).
Record Filter : Type := mkFilter { filter_field : string; filter_comparator : Comparator; filter_value : FilterValue }.

(** [str::strip_suffix] *)
Fixpoint strip_suffix (suffix s : string) : option string :=
  if String.eqb s suffix then Some EmptyString
  else match s with EmptyString => None | String a s => String a <$> strip_suffix suffix s end.

Definition parse_filter (input : string) (value : FilterValue) : Filter :=
  (fix go (cs : list Comparator) := match cs with
   | [] => mkFilter input Eq value
   | c :: cs => match strip_suffix (comparator_ref c) input with
                | Some field => mkFilter field c value
                | None => go cs
                end
   end) comparators.

(** ** Orders ([query/order.rs]) *)
Record Order : Type := mkOrder { o_field : string; o_direction : OrderDirection }.
Inductive CursorDirection : Type := After | Before.
Definition cursor_direction_ref (d : CursorDirection) : string := match d with After => "<=" | Before => ">=" end.

(** ** Arguments ([utils.rs], [object/connection/mod.rs], [object/inputs]) *)
Record ConnectionArguments : Type := mkConnection {
  ca_first : option Z; ca_last : option Z; ca_after : option string; ca_before : option string;
  ca_offset : option Z; ca_limit : option Z
}.
Record PageInfo : Type := mkPageInfo {
  has_previous_page : bool; has_next_page : bool; start_cursor : option string; end_cursor : option string
}.
Definition no_page : PageInfo := mkPageInfo false false None None.

Section arguments.
Context `{JsonNumber} {GE : GraphqlEnv} `{SqlString.FeltFromStr} `{Sqlx}.

Definition extract_value (values : ValueMapping) (key : string) : outcome ExtractError GValue :=
  ok_or (NotFound key) (im_get key values).
(** [Ok(n.as_u64().unwrap())] *)
Definition extract_u64 (values : ValueMapping) (key : string) : outcome ExtractError Z :=
  let? value := extract_value values key in
  match value with VNumber n => unwrap (number_as_u64 n) | _ => Err (NotNumber key) end.
Definition extract_string (values : ValueMapping) (key : string) : outcome ExtractError string :=
  let? value := extract_value values key in
  match value with VString s => Ok s | _ => Err (NotString key) end.
Definition extract_felt (values : ValueMapping) (key : string) : outcome ExtractError Felt :=
  let? value := extract_value values key in
  match value with VString s => ok_or (NotFelt key) (SqlString.felt_from_str s) | _ => Err (NotString key) end.
(** [s.to_string()] without the double quotes at its ends *)
Definition trim_quotes (s : string) : string :=
  trim_end_char (ascii_of_nat 34) (trim_start_char (ascii_of_nat 34) s).
Definition extract_strings (values : ValueMapping) (key : string) : outcome ExtractError (list string) :=
  let? value := extract_value values key in
  match value with VList l => Ok ((λ v, trim_quotes (value_text v)) <$> l) | _ => Err (NotList key) end.

(** [r.ok()]; a panic is not caught *)
Definition result_ok {E E' A} (r : outcome E A) : outcome E' (option A) :=
  match r with Ok a => Ok (Some a) | Err _ => Ok None | Panic => Panic end.

Definition both_first_last : string := "Passing both `first` and `last` to paginate a connection is not supported.".
Definition both_after_before : string := "Passing both `after` and `before` to paginate a connection is not supported.".
Definition offset_or_cursor : string :=
  "Pass either `offset`/`limit` OR `first`/`last`/`after`/`before` to paginate a connection.".
Definition parse_connection_arguments (args : ValueMapping) : outcome GError ConnectionArguments :=
  let? first := result_ok (extract_u64 args "first") in
  let? last := result_ok (extract_u64 args "last") in
  let? after := result_ok (extract_string args "after") in
  let? before := result_ok (extract_string args "before") in
  let? offset := result_ok (extract_u64 args "offset") in
  let? limit := result_ok (extract_u64 args "limit") in
  if bool_decide (is_Some first) && bool_decide (is_Some last) then Err (GMessage both_first_last)
  else if bool_decide (is_Some after) && bool_decide (is_Some before) then Err (GMessage both_after_before)
  else if (bool_decide (is_Some offset) || bool_decide (is_Some limit)) &&
          (bool_decide (is_Some first) || bool_decide (is_Some last) || bool_decide (is_Some before) || bool_decide (is_Some after))
  then Err (GMessage offset_or_cursor)
  else Ok (mkConnection first last after before offset limit).

(** [char::is_ascii_hexdigit] *)
Definition is_ascii_hexdigit (c : ascii) : bool := bool_decide (is_Some (SqlString.hex_val c)).
Fixpoint all_hex (s : string) : bool :=
  match s with EmptyString => true | String c s => is_ascii_hexdigit c && all_hex s end.
(** [s.strip_prefix("0x")] or [s] *)
Definition without_0x (s : string) : string :=
  if String.prefix "0x" s then String.substring 2 (String.length s - 2) s else s.
Definition is_hex_or_star (s : string) : bool := if String.eqb s "*" then true else all_hex (without_0x s).
Definition parse_key (s : string) : outcome GError string :=
  if String.eqb s "*" then Ok "*"
  else let? felt := ok_or (GMessage "Failed to parse key as felt") (SqlString.felt_from_str s) in
       Ok (SqlString.felt_to_sql_string felt).
Definition parse_keys_argument (args : ValueMapping) : outcome GError (option (list string)) :=
  match extract_strings args "keys" with
  | Ok keys =>
      if forallb is_hex_or_star keys then
        let? keys := outcome_mapM parse_key keys in Ok (Some keys)
      else Err (GMessage "Key parts can only be hex string or wild card `*`")
  | Err _ => Ok None
  | Panic => Panic
  end.

(** [Direction::try_from]; the names of GraphQL are ASCII *)
Definition direction_from (s : string) : option OrderDirection :=
  if String.eqb s "ASC" then Some Asc else if String.eqb s "DESC" then Some Desc else None.
Definition parse_order_argument (args : ValueMapping) : option Order :=
  order_input ← im_get "order" args;
  input_object ← as_object order_input;
  dir_value ← im_get "direction" input_object;
  field_value ← im_get "field" input_object;
  direction ← as_enum_name dir_value ≫= direction_from;
  field ← to_lowercase <$> as_enum_name field_value;
  Some (mkOrder field direction).
End arguments.

(** ** Cursors ([object/connection/cursor.rs]) *)
Inductive CursorError : Type := CursorBase64 | CursorUtf8 | CursorFormat.

Section cursors.
Context `{JsonNumber} {GE : GraphqlEnv} `{Sqlx}.

Definition slash : ascii := "/"%char.
Definition cursor_encode (primary secondary : string) : string :=
  b64_encode (string_bytes ("cursor/" +:+ primary +:+ "/" +:+ secondary)).
Definition cursor_decode (cursor : string) : outcome CursorError (string * string) :=
  let? bytes := ok_or CursorBase64 (b64_decode cursor) in
  if valid_utf8 bytes then
    match SqlString.split slash (bytes_string bytes) with
    | [tag; primary; secondary] => if String.eqb tag "cursor" then Ok (primary, secondary) else Err CursorFormat
    | _ => Err CursorFormat
    end
  else Err CursorUtf8.

(** [query/data.rs], [handle_cursor] *)
Definition handle_cursor (order : option Order) (id_column : string) (cursor : string) (direction : CursorDirection)
  : outcome QError string :=
  match cursor_decode cursor with
  | Ok (event_id, field_value) =>
      let op := cursor_direction_ref direction in
      Ok match order with
         | Some order =>
             "((" +:+ id_column +:+ " " +:+ op +:+ " '" +:+ event_id +:+ "' AND " +:+ o_field order +:+ " = '" +:+ field_value +:+
             "') OR " +:+ o_field order +:+ " " +:+ op +:+ " '" +:+ field_value +:+ "')"
         | None => id_column +:+ " " +:+ op +:+ " '" +:+ event_id +:+ "'"
         end
  | Err _ => Err (QDecode "Invalid cursor format")
  | Panic => Panic
  end.
(** [object/erc/mod.rs], [handle_cursor] *)
Definition erc_handle_cursor (id_column : string) (cursor : string) (direction : CursorDirection) : outcome QError string :=
  match cursor_decode cursor with
  | Ok (event_id, _) => Ok (id_column +:+ " " +:+ cursor_direction_ref direction +:+ " '" +:+ event_id +:+ "'")
  | Err _ => Err (QDecode "Invalid cursor format")
  | Panic => Panic
  end.
End cursors.

(** ** Statements ([query/data.rs]) *)
Definition DEFAULT_LIMIT : Z := 10.
Definition ID_COLUMN : string := "id".
Definition quote_text (s : string) : string := "'" +:+ s +:+ "'".

Inductive JoinType : Type := JoinInner | JoinLeft | JoinRight | JoinFull.
Record JoinConfig : Type := mkJoin {
  join_table : string; join_alias : option string; join_on : string; join_type : JoinType
}.
Definition join_as_sql (t : JoinType) : string :=
  match t with JoinInner => "INNER JOIN" | JoinLeft | JoinRight | JoinFull => "LEFT JOIN" end.
Definition join_clause (j : JoinConfig) : string :=
  join_as_sql (join_type j) +:+ " " +:+
  match join_alias j with Some alias => "[" +:+ join_table j +:+ "] AS " +:+ alias | None => "[" +:+ join_table j +:+ "]" end +:+
  " ON " +:+ join_on j.

Section statements.
Context `{JsonNumber} {GE : GraphqlEnv} `{Sqlx} {PL : Pool} {UT : UncheckedText}.

(** [key.replace('*', "%")] *)
Fixpoint star_to_percent (s : string) : string :=
  match s with
  | EmptyString => EmptyString
  | String c s => String (if Ascii.eqb c "*"%char then "%"%char else c) (star_to_percent s)
  end.
Definition keys_to_pattern (keys : list string) (use_regex : bool) : string :=
  let pattern := SqlString.join "/" ((λ key,
    if use_regex then if String.eqb key "*" then "([^/]*)" else regex_escape key else star_to_percent key) <$> keys) in
  if use_regex then "^" +:+ pattern +:+ ".*" else pattern +:+ "/%".

Definition keys_condition (keys : option (list string)) : list string :=
  match keys with
  | Some (key :: rest) =>
      let use_regex := String.eqb key "*" in
      ["keys " +:+ (if use_regex then "REGEXP" else "LIKE") +:+ " " +:+ quote_text (keys_to_pattern (key :: rest) use_regex)]
  | _ => []
  end.
(** [unreachable!()] for a list in a list *)
Definition list_value {E} (v : FilterValue) : outcome E string :=
  match v with FInt i => Ok (pretty i) | FString s => Ok (quote_text s) | FList _ => Panic end.
Definition filter_condition {E} (f : Filter) : outcome E string :=
  let start := "[" +:+ filter_field f +:+ "] " +:+ comparator_text (filter_comparator f) +:+ " " in
  match filter_value f with
  | FInt i => Ok (start +:+ pretty i)
  | FString s => Ok (start +:+ quote_text s)
  | FList l => let? values := outcome_mapM list_value l in Ok (start +:+ "(" +:+ SqlString.join ", " values +:+ ")")
  end.
Definition build_conditions {E} (keys : option (list string)) (filters : option (list Filter)) : outcome E (list string) :=
  let? filters := outcome_mapM filter_condition (default [] filters) in
  Ok (keys_condition keys ++ filters).

(** [fetch_one]: no row is an error *)
Definition fetch_row (statement : string) (binds : list string) : outcome QError SqliteRow :=
  let? rows := db (fetch_all statement binds) in ok_or QRowNotFound (head rows).
(** The only column of an answer is read by its place; [query_as::<(T,)>]. *)
Definition count_column : string := "COUNT(*)".
Definition count_rows (table_name : string) (keys : option (list string)) (filters : option (list Filter)) : outcome QError Z :=
  let? conditions := build_conditions keys filters in
  let? row := fetch_row ("SELECT COUNT(*) FROM [" +:+ table_name +:+ "]" +:+ clause_text " WHERE " " AND " conditions) [] in
  db (row_i64 row count_column).
Definition WORLD_CONTRACT_TYPE : string := "WORLD".
Definition fetch_world_address : outcome QError string :=
  let? row := fetch_row "SELECT contract_address FROM contracts where contract_type = ?" [WORLD_CONTRACT_TYPE] in
  db (row_string row "contract_address").

Definition fetch_single_row (table_name id_column id : string) : outcome QError SqliteRow :=
  fetch_row ("SELECT * FROM [" +:+ table_name +:+ "] WHERE " +:+ id_column +:+ " = " +:+ quote_text id) [].
Definition fetch_single_row_with_joins (table_name id_column id : string) (joins : list JoinConfig)
    (select_columns : option (list string)) : outcome QError SqliteRow :=
  let select := match select_columns with
    | Some columns => SqlString.join ", " columns
    | None => "[" +:+ table_name +:+ "].*"
    end in
  fetch_row ("SELECT " +:+ select +:+ " FROM [" +:+ table_name +:+ "] " +:+ SqlString.join " " (join_clause <$> joins) +:+
             " WHERE [" +:+ table_name +:+ "]." +:+ id_column +:+ " = " +:+ quote_text id) [].

(** ** Pages *)

(** [cursor_param]: a cursor given as [before] takes the place of one given as [after] *)
Definition cursor_param (c : ConnectionArguments) : option string :=
  match ca_before c with Some cursor => Some cursor | None => ca_after c end.
Definition cursor_conditions_of (handle : string → CursorDirection → outcome QError string) (c : ConnectionArguments)
  : outcome QError (list string) :=
  let? after := outcome_option (λ cursor, handle cursor After) (ca_after c) in
  let? before := outcome_option (λ cursor, handle cursor Before) (ca_before c) in
  Ok (option_list after ++ option_list before).
(** [a.or(b)] *)
Definition option_or {A} (a b : option A) : option A := match a with Some _ => a | None => b end.
Definition is_cursor_based (c : ConnectionArguments) : bool :=
  bool_decide (is_Some (option_or (ca_first c) (ca_last c))) || bool_decide (is_Some (cursor_param c)).
Definition data_limit (c : ConnectionArguments) : Z :=
  default DEFAULT_LIMIT (option_or (option_or (ca_first c) (ca_last c)) (ca_limit c)).
Definition fetch_limit (c : ConnectionArguments) : Z :=
  if is_cursor_based c then match cursor_param c with Some _ => u64_add (data_limit c) 2 | None => u64_add (data_limit c) 1 end
  else data_limit c.
Definition inferred_direction (c : ConnectionArguments) : OrderDirection :=
  match ca_first c, ca_last c with Some _, _ => Desc | None, Some _ => Asc | None, None => Desc end.
Definition order_text (order : option Order) (id_column : string) (c : ConnectionArguments) : string :=
  match order with
  | Some o => " ORDER BY " +:+ o_field o +:+ " " +:+ direction_str (o_direction o) +:+ ", " +:+ id_column +:+ " " +:+
              direction_str (o_direction o)
  | None => " ORDER BY " +:+ id_column +:+ " " +:+ direction_str (inferred_direction c)
  end.
Definition page_text (order : option Order) (id_column : string) (c : ConnectionArguments) : string :=
  order_text order id_column c +:+ " LIMIT " +:+ pretty (fetch_limit c) +:+
  optional_text " OFFSET " (pretty : Z → string) (ca_offset c).

(** [data.pop()] *)
Definition pop {A} (l : list A) : list A := take (length l - 1) l.
Definition len_u64 {A} (l : list A) : Z := Z.of_nat (length l).

(** The rows that are shown and whether pages lie before and after them, of the rows
    fetched with a cursor and without one. *)
Definition cut_at_cursor (first_cursor cursor_query : string) (limit : Z) (data : list SqliteRow) : list SqliteRow * bool * bool :=
  let '(data, previous) :=
    if String.eqb first_cursor cursor_query && negb (length data =? 1)%nat then (drop 1 data, true) else (pop data, false) in
  if len_u64 data =? u64_sub limit 1 then (pop data, previous, true) else (data, previous, false).
Definition cut_first (limit : Z) (data : list SqliteRow) : list SqliteRow * bool * bool :=
  if len_u64 data =? limit then (pop data, false, true) else (data, false, false).

(** [first] gives the cursor the first row is compared by, [of_row] those of the page. *)
Definition connection_page (first of_row : SqliteRow → outcome QError string) (c : ConnectionArguments) (total_count : Z)
    (data : list SqliteRow) : outcome QError (list SqliteRow * PageInfo) :=
  let limit := fetch_limit c in
  match data with
  | [] => Ok ([], no_page)
  | row :: _ =>
      if is_cursor_based c then
        let? (shown, previous, next) := match cursor_param c with
          | Some cursor_query => let? first_cursor := first row in Ok (cut_at_cursor first_cursor cursor_query limit data)
          | None => Ok (cut_first limit data)
          end in
        match head shown, last shown with
        | Some row, Some row' =>
            let? start := of_row row in
            let? stop := of_row row' in
            Ok (shown, mkPageInfo previous next (Some start) (Some stop))
        | _, _ => Ok (shown, mkPageInfo previous next None None)
        end
      else
        let offset := default 0 (ca_offset c) in
        let total := u64_wrap total_count in
        Ok (data, mkPageInfo ((1 <? offset) && (offset <? total)) (u64_add limit offset <? total) None None)
  end.

(** [cursor::encode(&row.try_get(id)?, &row.try_get_unchecked(field)?)] *)
Definition row_cursor (id_column field : string) (row : SqliteRow) : outcome QError string :=
  let? primary := db (row_string row id_column) in
  let? secondary := db (row_unchecked row field) in
  Ok (cursor_encode primary secondary).
Definition order_field_of (order : option Order) (id_column : string) : string :=
  match order with Some o => o_field o | None => id_column end.

Definition fetch_multiple_rows (table_name id_column : string) (keys : option (list string)) (order : option Order)
    (filters : option (list Filter)) (c : ConnectionArguments) (total_count : Z) : outcome QError (list SqliteRow * PageInfo) :=
  let? conditions := build_conditions keys filters in
  let? cursors := cursor_conditions_of (handle_cursor order id_column) c in
  let statement := "SELECT * FROM [" +:+ table_name +:+ "]" +:+ clause_text " WHERE " " AND " (conditions ++ cursors) +:+
                   page_text order id_column c in
  let? data := db (fetch_all statement []) in
  let cursor_of := row_cursor id_column (order_field_of order id_column) in
  connection_page cursor_of cursor_of c total_count data.
End statements.

(** ** Filters are read back *)
Lemma append_length (a b : string) : String.length (a +:+ b) = (String.length a + String.length b)%nat.
Proof. induction a as [|c a IH]; [done|]. change (Datatypes.S (String.length (a +:+ b)) = (Datatypes.S (String.length a) + String.length b)%nat). by rewrite IH. Qed.
Lemma append_split (t u : string) : (String.length t ≤ String.length u)%nat → ∀ f g, f +:+ t = g +:+ u → ∃ r, u = r +:+ t ∧ f = g +:+ r.
Proof.
  intros Hl f g. revert f. induction g as [|a g IH]; intros f Heq; [by exists f|].
  destruct f as [|b f].
  - apply (f_equal String.length) in Heq. change (String.length t = Datatypes.S (String.length (g +:+ u))) in Heq.
    rewrite append_length in Heq. lia.
  - injection Heq as -> Heq. destruct (IH f Heq) as (r & -> & ->). by exists r.
Qed.

Lemma strip_suffix_Some suffix s f : strip_suffix suffix s = Some f → s = f +:+ suffix.
Proof.
  revert f. induction s as [|a s IH]; intros f; cbn [strip_suffix];
    match goal with |- context [String.eqb ?x suffix] => destruct (String.eqb_spec x suffix) as [<-|_] end.
  - by intros [= <-].
  - done.
  - by intros [= <-].
  - intros (g & Hg & ->)%fmap_Some. by rewrite (IH g Hg).
Qed.
Lemma strip_suffix_app suffix f : strip_suffix suffix (f +:+ suffix) = Some f.
Proof.
  induction f as [|a f IH].
  - change (strip_suffix suffix suffix = Some EmptyString). destruct suffix; cbn [strip_suffix]; by rewrite String.eqb_refl.
  - change (String a f +:+ suffix) with (String a (f +:+ suffix)). cbn [strip_suffix]. rewrite IH.
    destruct (String.eqb_spec (String a (f +:+ suffix)) suffix) as [Heq|_]; [|done].
    apply (f_equal String.length) in Heq. cbn [String.length] in Heq. rewrite append_length in Heq. lia.
Qed.
(** A suffix of a text that ends with [t] is found within [t], or reaches before it. *)
Lemma strip_suffix_within suffix f t : (String.length suffix ≤ String.length t)%nat →
  strip_suffix suffix (f +:+ t) = String.append f <$> strip_suffix suffix t.
Proof.
  intros Hl. destruct (strip_suffix suffix (f +:+ t)) as [g|] eqn:Hg.
  - apply strip_suffix_Some in Hg. destruct (append_split suffix t Hl g f (eq_sym Hg)) as (r & -> & ->).
    by rewrite strip_suffix_app.
  - destruct (strip_suffix suffix t) as [r|] eqn:Hr; [|done]. apply strip_suffix_Some in Hr as ->.
    by rewrite <- SqlString.append_assoc, strip_suffix_app in Hg.
Qed.
Lemma strip_suffix_beyond r f t : strip_suffix (r +:+ t) (f +:+ t) = String.append EmptyString <$> strip_suffix r f.
Proof.
  destruct (strip_suffix (r +:+ t) (f +:+ t)) as [g|] eqn:Hg.
  - apply strip_suffix_Some in Hg. rewrite <- SqlString.append_assoc in Hg.
    destruct (append_split t t (le_n _) _ _ Hg) as (r' & Ht & Hf). destruct r' as [|a r'].
    + rewrite SqlString.append_nil_r in Hf. subst f. by rewrite strip_suffix_app.
    + apply (f_equal String.length) in Ht. rewrite append_length in Ht. cbn [String.length] in Ht. lia.
  - destruct (strip_suffix r f) as [g|] eqn:Hr; [|done]. apply strip_suffix_Some in Hr as ->.
    by rewrite SqlString.append_assoc, strip_suffix_app in Hg.
Qed.
Lemma strip_suffix_not suffix f t : (String.length t ≤ String.length suffix)%nat → strip_suffix t suffix = None →
  strip_suffix suffix (f +:+ t) = None.
Proof.
  intros Hl Hn. destruct (strip_suffix suffix (f +:+ t)) as [g|] eqn:Hg; [|done]. apply strip_suffix_Some in Hg.
  destruct (append_split t suffix Hl f g Hg) as (r & -> & _). by rewrite strip_suffix_app in Hn.
Qed.

(** The ends of a field that hide a comparator: [xN] with [EQ] reads as [x] with [NEQ]. *)
Definition hidden_by (c : Comparator) : option string :=
  match c with Eq => Some "N" | In | Like => Some "NOT" | _ => None end.
Definition hidden (f : string) (c : Comparator) : bool :=
  match hidden_by c with Some s => bool_decide (is_Some (strip_suffix s f)) | None => false end.
Definition has_comparator (f : string) : bool := existsb (λ c, bool_decide (is_Some (strip_suffix (comparator_ref c) f))) comparators.

Ltac strip_suffixes :=
  repeat first
    [ rewrite strip_suffix_within by (cbn; lia); cbn [strip_suffix String.eqb Ascii.eqb Bool.eqb fmap option_fmap option_map]
    | rewrite strip_suffix_not by (try reflexivity; cbn; lia) ].
Lemma parse_filter_comparator f c v : parse_filter (f +:+ comparator_ref c) v = mkFilter f c v ↔ hidden f c = false.
Proof.
  unfold parse_filter, hidden. destruct c; cbn [comparators comparator_ref hidden_by]; strip_suffixes; rewrite ?SqlString.append_nil_r; try done.
  - change "NEQ" with ("N" +:+ "EQ"). rewrite strip_suffix_beyond, (strip_suffix_app "EQ").
    destruct (strip_suffix "N" f); cbn; split; intros; by simplify_eq.
  - change "NOTIN" with ("NOT" +:+ "IN"). rewrite strip_suffix_beyond, (strip_suffix_app "IN").
    destruct (strip_suffix "NOT" f); cbn; split; intros; by simplify_eq.
  - change "NOTLIKE" with ("NOT" +:+ "LIKE"). rewrite strip_suffix_beyond, (strip_suffix_app "LIKE").
    destruct (strip_suffix "NOT" f); cbn; split; intros; by simplify_eq.
Qed.
Lemma parse_filter_plain f v : parse_filter f v = mkFilter f Eq v ↔ has_comparator f = false.
Proof.
  unfold parse_filter, has_comparator. induction comparators as [|c cs IH]; [done|]. cbn [existsb].
  destruct (strip_suffix (comparator_ref c) f) as [g|] eqn:Hg; [|by rewrite bool_decide_false by (intros [? [=]])].
  rewrite bool_decide_true by eauto. apply strip_suffix_Some in Hg. split; [|done]. intros [= Hgf _]. subst g.
  apply (f_equal String.length) in Hg. rewrite append_length in Hg. destruct c; cbn in Hg; lia.
Qed.

(** ** Cursors are read back *)
Lemma string_bytes_app (a b : string) : string_bytes (a +:+ b) = string_bytes a ++ string_bytes b.
Proof. induction a as [|c a IH]; [done|]. change (string_bytes (String c a +:+ b)) with (Z.of_nat (nat_of_ascii c) :: string_bytes (a +:+ b)). by rewrite IH. Qed.
#[local] Abbreviation between := Wire.between.
(** What follows the first character. *)
Definition utf8_tail (l : Bytes) : option Bytes :=
  match l with
  | [] => None
  | a :: l1 =>
      if between 0 127 a then Some l1 else
      match l1 with
      | [] => None
      | b :: l2 =>
          if between 194 223 a then if continuation b then Some l2 else None else
          match l2 with
          | [] => None
          | c :: l3 =>
              if between 224 239 a then
                if between (if a =? 224 then 160 else 128) (if a =? 237 then 159 else 191) b && continuation c then Some l3 else None
              else match l3 with
              | [] => None
              | d :: l4 =>
                  if between 240 244 a && between (if a =? 240 then 144 else 128) (if a =? 244 then 143 else 191) b
                     && continuation c && continuation d then Some l4 else None
              end
          end
      end
  end.
Lemma valid_utf8_tail a l : valid_utf8 (a :: l) = match utf8_tail (a :: l) with Some r => valid_utf8 r | None => false end.
Proof.
  unfold utf8_tail. cbn [valid_utf8]. destruct (between 0 127 a); [done|]. destruct l as [|b l2]; [done|].
  destruct (between 194 223 a); [by destruct (continuation b)|]. destruct l2 as [|c l3]; [done|].
  destruct (between 224 239 a); [match goal with |- ?x && valid_utf8 _ = _ => by destruct x end|]. destruct l3 as [|d l4]; [done|].
  match goal with |- ?x && valid_utf8 _ = _ => by destruct x end.
Qed.
Lemma utf8_tail_app l r b : utf8_tail l = Some r → utf8_tail (l ++ b) = Some (r ++ b) ∧ (length r < length l)%nat.
Proof.
  unfold utf8_tail. destruct l as [|w [|x [|y [|z l]]]]; cbn [app length];
    repeat match goal with |- context [if ?c then _ else _] => destruct c end; intros; simplify_eq; split; first [done|cbn [length]; lia].
Qed.
Lemma valid_utf8_app b : valid_utf8 b = true → ∀ a, valid_utf8 a = true → valid_utf8 (a ++ b) = true.
Proof.
  intros Hb a. remember (length a) as n eqn:Hn. revert a Hn. induction (lt_wf n) as [n _ IH]. intros [|x a] -> Ha; [done|].
  cbn [app]. rewrite valid_utf8_tail in Ha |- *. destruct (utf8_tail (x :: a)) as [r|] eqn:Hr; [|done].
  destruct (utf8_tail_app _ _ b Hr) as [Happ Hl]. cbn [app] in Happ. rewrite Happ. by apply (IH (length r)).
Qed.

Section cursors_back.
Context `{JsonNumber} {GE : GraphqlEnv} {B64 : Base64Spec} `{Sqlx}.

Lemma split_acc_app c acc (a b : string) : SqlString.split_acc c acc (a +:+ String c b) = SqlString.split_acc c acc a ++ SqlString.split c b.
Proof.
  revert acc. induction a as [|x a IH]; intros acc.
  - change (SqlString.split_acc c acc (String c b) = [acc] ++ SqlString.split c b). cbn. by rewrite decide_True.
  - change (String x a +:+ String c b) with (String x (a +:+ String c b)). cbn [SqlString.split_acc].
    case_decide; rewrite IH; done.
Qed.
Lemma split_single c (s : string) : length (SqlString.split c s) = 1%nat ↔ SqlString.free_of c s.
Proof.
  split; [|by intros ->%SqlString.split_free]. unfold SqlString.split. generalize EmptyString.
  induction s as [|x s IH]; intros acc; cbn [SqlString.split_acc SqlString.free_of]; [done|]. case_decide as Hx.
  - cbn [length]. intros Hl. pose proof (SqlString.split_ne_nil c s). unfold SqlString.split in *.
    by destruct (SqlString.split_acc c EmptyString s).
  - intros Hl. split; [done|]. by eapply IH.
Qed.

Lemma cursor_parts p s : SqlString.split slash ("cursor/" +:+ p +:+ "/" +:+ s) = "cursor" :: SqlString.split slash p ++ SqlString.split slash s.
Proof.
  change ("cursor/" +:+ p +:+ "/" +:+ s) with ("cursor" +:+ String slash (p +:+ String slash s)).
  rewrite SqlString.split_cons by (cbn; repeat split; done). f_equal. apply split_acc_app.
Qed.
Lemma cursor_decode_encode p s : utf8_ok p → utf8_ok s →
  cursor_decode (cursor_encode p s) =
    match SqlString.split slash p ++ SqlString.split slash s with [x; y] => Ok (x, y) | _ => Err CursorFormat end.
Proof.
  intros Hp Hs. unfold cursor_decode, cursor_encode. rewrite b64_round by apply string_bytes_range.
  cbn [ok_or outcome_bind].
  assert (valid_utf8 (string_bytes ("cursor/" +:+ p +:+ "/" +:+ s)) = true) as ->.
  { rewrite !string_bytes_app. repeat (apply valid_utf8_app; [|done]). done. }
  rewrite string_bytes_string, cursor_parts. cbn [String.eqb Ascii.eqb Bool.eqb].
  by destruct (_ ++ _) as [|x [|y [|z l]]].
Qed.

(** A cursor is read back as the identifier and the value it was made of exactly when
    neither has a slash; one with a slash is refused. *)
Lemma cursor_round_iff p s : utf8_ok p → utf8_ok s →
  (cursor_decode (cursor_encode p s) = Ok (p, s) ↔ SqlString.free_of slash p ∧ SqlString.free_of slash s) ∧
  (¬ (SqlString.free_of slash p ∧ SqlString.free_of slash s) → cursor_decode (cursor_encode p s) = Err CursorFormat).
Proof.
  intros Hp Hs. rewrite cursor_decode_encode by done. rewrite <- !split_single.
  pose proof (SqlString.split_ne_nil slash p) as Hnp. pose proof (SqlString.split_ne_nil slash s) as Hns.
  destruct (decide (length (SqlString.split slash p) = 1%nat ∧ length (SqlString.split slash s) = 1%nat)) as [[H1 H2]|Hn].
  - split; [|intros Hn; by destruct Hn]. split; [done|]. intros _. apply split_single in H1, H2. by rewrite !SqlString.split_free.
  - assert ((match SqlString.split slash p ++ SqlString.split slash s with [x; y] => Ok (x, y) | _ => Err CursorFormat end)
      = Err CursorFormat) as ->; [|by split].
    destruct (SqlString.split slash p) as [|x [|x' lp]], (SqlString.split slash s) as [|y [|y' ls]]; try done; [exfalso; by apply Hn|by destruct lp..].
Qed.
End cursors_back.

(** ** Following the cursors

    [rows] are the rows that meet the conditions of a query, ascending in the values [key]
    of the column [id_column]; the condition of a cursor takes in the row of the cursor. *)
Definition not_below (lt : relation string) (d : OrderDirection) (v x : string) : Prop := x = v ∨ beyond lt d v x.
#[export] Instance not_below_dec lt `{!RelDecision lt} d v x : Decision (not_below lt d v x).
Proof. unfold not_below. apply _. Defined.
Definition from_text (d : OrderDirection) : string := match d with Asc => ">=" | Desc => "<=" end.

Section table.
Context `{JsonNumber} {GE : GraphqlEnv} {B64 : Base64Spec} `{Sqlx} {PL : Pool} {UT : UncheckedText}.
Context (lt : relation string) `{!RelDecision lt, !StrictOrder lt}.

Record gql_table (table id_column : string) (conditions : list string) (key : SqliteRow → string) (rows : list SqliteRow) : Prop := {
  gt_sorted : StronglySorted (λ r r', lt (key r) (key r')) rows;
  gt_key r : r ∈ rows → row_string r id_column = inr (key r) ∧ row_unchecked r id_column = inr (key r) ∧
    SqlString.free_of slash (key r) ∧ utf8_ok (key r);
  gt_select d n : 0 ≤ n ≤ u64_max →
    fetch_all ("SELECT * FROM [" +:+ table +:+ "]" +:+ clause_text " WHERE " " AND " conditions +:+
               " ORDER BY " +:+ id_column +:+ " " +:+ direction_str d +:+ " LIMIT " +:+ pretty n) []
    = inr (take (Z.to_nat n) (directed d rows));
  gt_from r d n : r ∈ rows → 0 ≤ n ≤ u64_max →
    fetch_all ("SELECT * FROM [" +:+ table +:+ "]" +:+
               clause_text " WHERE " " AND " (conditions ++ [id_column +:+ " " +:+ from_text d +:+ " '" +:+ key r +:+ "'"]) +:+
               " ORDER BY " +:+ id_column +:+ " " +:+ direction_str d +:+ " LIMIT " +:+ pretty n) []
    = inr (take (Z.to_nat n) (directed d (filter (λ x, not_below lt d (key r) (key x)) rows)))
}.

(** What a client asks for to read on: the first rows after a cursor, which come in
    descending order, or the last before it, in ascending order. *)
Definition read_on (d : OrderDirection) (n : Z) (cursor : option string) : ConnectionArguments :=
  match d with
  | Desc => mkConnection (Some n) None cursor None None None
  | Asc => mkConnection None (Some n) None cursor None None
  end.

Context (table id_column : string) (keys : option (list string)) (filters : option (list Filter)) (conditions : list string).
Context (key : SqliteRow → string) (rows : list SqliteRow).
Context (Hconditions : build_conditions keys filters = Ok (E := @QError _) conditions).
Context (GT : gql_table table id_column conditions key rows).
Context (d : OrderDirection) (n : Z) (n_ok : 1 ≤ n ≤ u64_max - 2) (total_count : Z).

Definition the_cursor (r : SqliteRow) : string := cursor_encode (key r) (key r).
Definition page_of (cursor : option string) : outcome QError (list SqliteRow * PageInfo) :=
  fetch_multiple_rows table id_column keys None filters (read_on d n cursor) total_count.

Lemma row_cursor_at r : r ∈ rows → row_cursor id_column id_column r = Ok (the_cursor r).
Proof. intros (Hs & Hu & _ & _)%(gt_key _ _ _ _ _ GT). unfold row_cursor. by rewrite Hs, Hu. Qed.

(** The page that shows [shown] out of [post]. *)
Definition shows (post : list SqliteRow) (previous : bool) : list SqliteRow * PageInfo :=
  let shown := take (Z.to_nat n) post in
  (shown, mkPageInfo previous (bool_decide (n < Z.of_nat (length post)))
            (the_cursor <$> head shown) (the_cursor <$> last shown)).

Lemma pop_take {A} m (l : list A) : (m < length l)%nat → pop (take (Datatypes.S m) l) = take m l.
Proof. intros Hl. unfold pop. rewrite length_take, take_take. f_equal. lia. Qed.

Lemma take_sub {A} m (l : list A) : take m l ⊆ l.
Proof. intros x (i & Hi & _)%elem_of_take. by eapply list_elem_of_lookup_2. Qed.

Lemma of_shown (shown : list SqliteRow) previous next : shown ⊆ rows →
  (match head shown, last shown with
   | Some row, Some row' =>
       let? start := row_cursor id_column id_column row in
       let? stop := row_cursor id_column id_column row' in
       Ok (shown, mkPageInfo previous next (Some start) (Some stop))
   | _, _ => Ok (shown, mkPageInfo previous next None None)
   end) = Ok (E := @QError _) (shown, mkPageInfo previous next (the_cursor <$> head shown) (the_cursor <$> last shown)).
Proof.
  intros Hin. destruct shown as [|r l]; [done|]. destruct (last (r :: l)) as [r'|] eqn:Hl; [|by apply last_None in Hl].
  cbn [head]. rewrite !row_cursor_at; [done|apply Hin; by apply last_Some_elem_of|apply Hin; left].
Qed.

Lemma limit_without : fetch_limit (read_on d n None) = n + 1.
Proof. destruct d; unfold fetch_limit; cbn; apply u64_add_small; lia. Qed.
Lemma limit_with c : fetch_limit (read_on d n (Some c)) = n + 2.
Proof. destruct d; unfold fetch_limit; cbn; apply u64_add_small; lia. Qed.

Lemma page_without_cursor (selected : list SqliteRow) : selected ⊆ rows →
  connection_page (row_cursor id_column id_column) (row_cursor id_column id_column) (read_on d n None) total_count
    (take (Z.to_nat (n + 1)) selected) = Ok (shows selected false).
Proof.
  intros Hin. unfold connection_page, shows. rewrite limit_without.
  replace (Z.to_nat (n + 1)) with (Datatypes.S (Z.to_nat n)) by lia.
  destruct selected as [|r selected]; [rewrite !take_nil; cbn [length]; by rewrite bool_decide_false by lia|]. cbn [take].
  replace (is_cursor_based (read_on d n None)) with true by by destruct d.
  replace (cursor_param (read_on d n None)) with (@None string) by by destruct d.
  cbn [outcome_bind]. unfold cut_first, len_u64. change (r :: take (Z.to_nat n) selected) with (take (Datatypes.S (Z.to_nat n)) (r :: selected)).
  rewrite length_take. destruct (Z.eqb_spec (Z.of_nat (Datatypes.S (Z.to_nat n) `min` length (r :: selected))) (n + 1)) as [Hf|Hs].
  - rewrite pop_take by lia. cbn [outcome_bind]. rewrite of_shown by (intros x Hx; apply Hin; by eapply take_sub). by rewrite bool_decide_true by lia.
  - rewrite !(take_ge (r :: selected)) by lia. cbn [outcome_bind]. rewrite of_shown by done. by rewrite bool_decide_false by lia.
Qed.

Lemma page_with_cursor r (post : list SqliteRow) : (r :: post) ⊆ rows →
  connection_page (row_cursor id_column id_column) (row_cursor id_column id_column) (read_on d n (Some (the_cursor r))) total_count
    (take (Z.to_nat (n + 2)) (r :: post)) = Ok (shows post (bool_decide (post ≠ []))).
Proof.
  intros Hin. unfold connection_page, shows. rewrite limit_with.
  replace (Z.to_nat (n + 2)) with (Datatypes.S (Datatypes.S (Z.to_nat n))) by lia. cbn [take].
  replace (is_cursor_based (read_on d n (Some (the_cursor r)))) with true by by destruct d.
  replace (cursor_param (read_on d n (Some (the_cursor r)))) with (Some (the_cursor r)) by by destruct d.
  rewrite row_cursor_at by (apply Hin; left). cbn [outcome_bind]. unfold cut_at_cursor, len_u64.
  rewrite String.eqb_refl, u64_sub_small by lia.
  destruct post as [|r' post].
  { rewrite !take_nil. cbn [length Nat.eqb negb andb pop take Nat.sub]. rewrite (proj2 (Z.eqb_neq (Z.of_nat 0) (n + 2 - 1))) by lia.
    by rewrite (bool_decide_false (n < Z.of_nat 0)) by lia. }
  change (length (r :: take (Datatypes.S (Z.to_nat n)) (r' :: post)) =? 1)%nat with false.
  cbn [negb andb skipn]. rewrite !drop_0, length_take, (bool_decide_true (r' :: post ≠ [])) by done.
  assert ((r' :: post) ⊆ rows) as Hpost by (intros x Hx; apply Hin; by right).
  destruct (Z.eqb_spec (Z.of_nat (Datatypes.S (Z.to_nat n) `min` length (r' :: post))) (n + 2 - 1)) as [Hf|Hs].
  - rewrite pop_take by lia. cbn [outcome_bind]. rewrite of_shown by (intros x Hx; apply Hpost; by eapply take_sub). by rewrite bool_decide_true by lia.
  - rewrite !(take_ge (r' :: post)) by lia. cbn [outcome_bind]. rewrite of_shown by done. by rewrite bool_decide_false by lia.
Qed.

Lemma directed_subset : directed d rows ⊆ rows.
Proof. intros x. by rewrite elem_of_directed. Qed.

Lemma first_page_shows : page_of None = Ok (shows (directed d rows) false).
Proof.
  unfold page_of, fetch_multiple_rows. rewrite Hconditions. cbn [outcome_bind].
  replace (cursor_conditions_of (handle_cursor None id_column) (read_on d n None)) with (Ok (E := @QError _) (@nil string)) by by destruct d.
  cbn [outcome_bind]. rewrite app_nil_r. unfold page_text. rewrite limit_without. cbn [order_text].
  replace (inferred_direction (read_on d n None)) with d by by destruct d.
  replace (optional_text " OFFSET " (pretty : Z → string) (ca_offset (read_on d n None))) with EmptyString by by destruct d.
  rewrite SqlString.append_nil_r.
  pose proof (gt_select _ _ _ _ _ GT d (n + 1) ltac:(lia)) as Hf. rewrite !SqlString.append_assoc in *. rewrite Hf. cbn [db outcome_bind order_field_of].
  apply page_without_cursor, directed_subset.
Qed.

#[local] Instance beyond_order side : StrictOrder (beyond lt side).
Proof. destruct side; cbn; apply _. Qed.
Lemma rows_directed side : StronglySorted (λ r r', beyond lt side (key r) (key r')) (directed side rows).
Proof.
  pose proof (gt_sorted _ _ _ _ _ GT) as Hs. destruct side; [done|]. cbn. clear GT.
  induction Hs as [|r l _ IH Hr]; [constructor|]. rewrite reverse_cons. apply StronglySorted_app_2; [|done|by repeat constructor].
  intros x1 x2 Hx1 Hx2. rewrite elem_of_reverse in Hx1. apply list_elem_of_singleton in Hx2 as ->.
  rewrite Forall_forall in Hr. exact (Hr _ Hx1).
Qed.
Lemma from_cursor pre r post : directed d rows = pre ++ r :: post →
  directed d (filter (λ x, not_below lt d (key r) (key x)) rows) = r :: post.
Proof.
  intros Heq. pose proof (rows_directed d) as Hs. rewrite directed_filter, Heq in *.
  apply StronglySorted_app in Hs as (Hcross & _ & Hpost). apply StronglySorted_inv in Hpost as [_ Hpost].
  rewrite Forall_forall in Hpost.
  assert (∀ x y, beyond lt d x y → x ≠ y ∧ ¬ beyond lt d y x) as Hasym.
  { intros x y Hxy. split; [intros ->|intros Hyx]; apply (irreflexivity (beyond lt d) y); [done|by etransitivity]. }
  assert (Forall (λ x, ¬ not_below lt d (key r) (key x)) pre) as Hpre.
  { apply Forall_forall. intros x Hx. destruct (Hasym (key x) (key r)) as [Hne Hn]; [apply Hcross; [done|left]|].
    by intros [Hk|Hk]. }
  rewrite filter_app, (filter_none _ pre), filter_cons_True by (done || by left).
  cbn [app]. f_equal. apply filter_all, Forall_forall. intros x Hx. right. by apply Hpost.
Qed.

Lemma next_page_shows pre r post : directed d rows = pre ++ r :: post →
  page_of (Some (the_cursor r)) = Ok (shows post (bool_decide (post ≠ []))).
Proof.
  intros Hr. assert (r ∈ rows) as Hin by (apply (elem_of_directed _ d); rewrite Hr; apply elem_of_app; right; left).
  unfold page_of, fetch_multiple_rows. rewrite Hconditions. cbn [outcome_bind].
  replace (cursor_conditions_of (handle_cursor None id_column) (read_on d n (Some (the_cursor r))))
    with (Ok (E := @QError _) [id_column +:+ " " +:+ from_text d +:+ " '" +:+ key r +:+ "'"]).
  2: { destruct (gt_key _ _ _ _ _ GT r Hin) as (_ & _ & Hfree & Hu).
       assert (cursor_decode (the_cursor r) = Ok (key r, key r)) as Hd by (by apply cursor_round_iff).
       unfold cursor_conditions_of, handle_cursor. destruct d; cbn [read_on ca_after ca_before outcome_option outcome_bind]; by rewrite Hd. }
  cbn [outcome_bind]. unfold page_text. rewrite limit_with. cbn [order_text].
  replace (inferred_direction (read_on d n (Some (the_cursor r)))) with d by by destruct d.
  replace (optional_text " OFFSET " (pretty : Z → string) (ca_offset (read_on d n (Some (the_cursor r))))) with EmptyString by by destruct d.
  rewrite SqlString.append_nil_r.
  pose proof (gt_from _ _ _ _ _ GT r d (n + 2) Hin ltac:(lia)) as Hf. rewrite !SqlString.append_assoc in *. rewrite Hf. cbn [db outcome_bind order_field_of].
  rewrite (from_cursor _ _ _ Hr). apply page_with_cursor.
  intros x Hx. apply directed_subset. rewrite Hr. apply elem_of_app. by right.
Qed.

(** The pages of a client that reads on while it is told that there is a next page. *)
Inductive connection_run : option string → list (list SqliteRow) → Prop :=
| crun_last cursor shown info : page_of cursor = Ok (shown, info) → has_next_page info = false → connection_run cursor [shown]
| crun_more cursor shown info c rest :
    page_of cursor = Ok (shown, info) → has_next_page info = true → end_cursor info = Some c →
    connection_run (Some c) rest → connection_run cursor (shown :: rest).

Lemma connection_run_from k : ∀ pre post cursor previous,
  directed d rows = pre ++ post → (length post ≤ k)%nat → page_of cursor = Ok (shows post previous) →
  ∃ pages, connection_run cursor pages ∧ concat pages = post ∧
    (∀ pg, pg ∈ pages → Z.of_nat (length pg) ≤ n) ∧
    (∀ i pg, pages !! i = Some pg → (S i < length pages)%nat → Z.of_nat (length pg) = n).
Proof.
  induction k as [k IH] using lt_wf_ind. intros pre post cursor previous Hin Hk Hpage.
  destruct (Z.le_gt_cases (Z.of_nat (length post)) n) as [Hle|Hgt].
  { exists [post]. split_and!.
    - eapply crun_last; [rewrite Hpage; unfold shows; rewrite (take_ge post) by lia; reflexivity|].
      apply bool_decide_false. lia.
    - by rewrite concat_cons, app_nil_r.
    - by intros pg ->%list_elem_of_singleton.
    - intros [|i] pg Hi Hlt; cbn in *; [lia|done]. }
  destruct (split_last post (Z.to_nat n)) as (shown & r & Htake & Hpost & Hlen); [lia..|].
  assert (directed d rows = (pre ++ shown) ++ r :: drop (Z.to_nat n) post) as Hr by by rewrite <- app_assoc, <- Hpost.
  destruct (IH (length (drop (Z.to_nat n) post)) ltac:(rewrite length_drop; lia) (pre ++ shown ++ [r]) (drop (Z.to_nat n) post)
    (Some (the_cursor r)) (bool_decide (drop (Z.to_nat n) post ≠ []))) as (pages & Hrun & Hcat & Hall & Hfull);
    [by rewrite Hr, <- !app_assoc|done|by eapply next_page_shows|].
  exists ((shown ++ [r]) :: pages). split_and!.
  - eapply crun_more; [rewrite Hpage; unfold shows; rewrite Htake; reflexivity| | |exact Hrun].
    + apply bool_decide_true. lia.
    + cbn. by rewrite last_snoc.
  - rewrite concat_cons, Hcat. by rewrite <- app_assoc, <- (cons_middle r), <- Hpost.
  - intros pg [->|Hpg]%elem_of_cons; [rewrite Hlen; lia|by apply Hall].
  - intros [|i] pg Hi Hlt; cbn in *; simplify_eq; [rewrite Hlen; lia|]. eapply Hfull; [done|lia].
Qed.
End table.

Section connections.
Context `{JsonNumber} {GE : GraphqlEnv} {B64 : Base64Spec} `{Sqlx} {PL : Pool} {UT : UncheckedText}.
Context (lt : relation string) `{!RelDecision lt, !StrictOrder lt}.


(** ** Where the pages are not what they should be *)

(** A row of the cursor that is no longer where it was, as an entity that was updated since,
    is taken for one that is still there: of the last rows one is lost. *)
Lemma moved_cursor_loses_row first_cursor query n (data : list SqliteRow) :
  first_cursor ≠ query → 1 ≤ n ≤ u64_max - 2 → data ≠ [] → Z.of_nat (length data) ≤ n + 1 →
  cut_at_cursor first_cursor query (n + 2) data = (pop data, false, false) ∧ (length (pop data) < length data)%nat.
Proof.
  intros Hne Hn Hd Hl. unfold cut_at_cursor, len_u64.
  assert ((length (pop data) < length data)%nat) as Hpop.
  { unfold pop. rewrite length_take. destruct data; [done|]. cbn [length]. lia. }
  rewrite (proj2 (String.eqb_neq _ _)) by done. cbn [andb]. rewrite u64_sub_small by lia.
  by rewrite (proj2 (Z.eqb_neq _ _)) by lia.
Qed.
(** With an order of the client the condition of the cursor takes in every row of the same
    value, so when more than a page of rows share a value the next page is the first one
    of them again. *)
Lemma tied_page_repeats first_cursor query n (tied : list SqliteRow) :
  first_cursor ≠ query → 1 ≤ n ≤ u64_max - 2 → n + 2 ≤ Z.of_nat (length tied) →
  cut_at_cursor first_cursor query (n + 2) (take (Z.to_nat (n + 2)) tied) = (take (Z.to_nat n) tied, false, true).
Proof.
  intros Hne Hn Hl. unfold cut_at_cursor, len_u64. rewrite (proj2 (String.eqb_neq _ _)) by done. cbn [andb].
  replace (Z.to_nat (n + 2)) with (S (S (Z.to_nat n))) by lia. rewrite pop_take by lia.
  rewrite length_take, u64_sub_small, (proj2 (Z.eqb_eq _ _)) by lia. by rewrite pop_take by lia.
Qed.
Lemma negative_first_panics args num : im_get "first" args = Some (VNumber num) → number_as_u64 num = None →
  parse_connection_arguments args = Panic.
Proof. intros Hf Hn. unfold parse_connection_arguments, extract_u64, extract_value. rewrite Hf. cbn. by rewrite Hn. Qed.
(** Text of a client is put into the statement as it is. *)
Lemma filter_text_unescaped {E} field s :
  filter_condition (E := E) (mkFilter field Eq (FString s)) = Ok ("[" +:+ field +:+ "] = '" +:+ s +:+ "'").
Proof. unfold filter_condition, quote_text. cbn [filter_field filter_comparator filter_value comparator_text]. by rewrite !SqlString.append_assoc. Qed.
End connections.

(** ** Witnesses *)
#[local] Instance demo_number : JsonNumber := {|
  Number := Z; number_text := pretty; number_as_i64 := Some; number_as_u64 z := if 0 <=? z then Some z else None; number_from_int := id
|}.
#[local] Instance demo_env : GraphqlEnv := {|
  b64_encode := bytes_string; b64_decode s := Some (string_bytes s); regex_escape := id; value_text _ := EmptyString;
  as_string v := match v with VString s => Some s | _ => None end;
  as_enum_name v := match v with VEnum s | VString s => Some s | _ => None end;
  as_i64 v := match v with VNumber n => Some n | _ => None end;
  as_boolean v := match v with VBoolean b => Some b | _ => None end;
  as_list v := match v with VList l => Some l | _ => None end;
  as_object v := match v with VObject l => Some l | _ => None end
|}.
#[local] Instance demo_b64 : Base64Spec.
Proof. split. intros b Hb. cbn. by rewrite bytes_string_bytes. Qed.
#[local] Existing Instance demo_sqlx.
#[local] Existing Instance shorter_dec.
#[local] Existing Instance shorter_strict.
#[local] Instance demo_unchecked : UncheckedText := {| row_unchecked r _ := inr r |}.
Definition demo_statement (from : option string) (d : OrderDirection) : string :=
  "SELECT * FROM [words]" +:+
  match from with Some v => " WHERE id " +:+ from_text d +:+ " '" +:+ v +:+ "'" | None => EmptyString end +:+
  " ORDER BY id " +:+ direction_str d +:+ " LIMIT".
Definition demo_answers : list (string * list string) :=
  ((λ d, (demo_statement None d, directed d demo_rows)) <$> [Asc; Desc]) ++
  (d ← [Asc; Desc]; v ← demo_rows; [(demo_statement (Some v) d, directed d (filter (λ x, not_below shorter d v x) demo_rows))]).
#[local] Instance demo_gql_pool : Pool := {|
  fetch_all s _ := match find (λ a, String.prefix a.1 s) demo_answers with
                   | Some (_, l) => inr (take (demo_limit s) l)
                   | None => inl tt
                   end
|}.
Lemma demo_limit_at a n : 0 ≤ n ≤ u64_max → demo_limit (a +:+ " " +:+ pretty n) = Z.to_nat n.
Proof.
  intros Hn. unfold demo_limit. change (" " +:+ pretty n) with (String space (pretty n)). unfold u64_max in Hn.
  rewrite split_last_word by (apply dec_only_free; apply Agg.pretty_dec; lia).
  cbn [mbind option_bind]. rewrite Agg.parse_u128_pretty by (unfold u128_max; lia). done.
Qed.
Lemma demo_gql_table : gql_table shorter "words" "id" [] id demo_rows.
Proof.
  split.
  - repeat constructor.
  - intros r Hr. repeat (apply elem_of_cons in Hr as [->|Hr]; [by vm_compute; intuition discriminate|]). by apply elem_of_nil in Hr.
  - intros d n Hn.
    match goal with |- fetch_all ?s _ = _ => assert (s = demo_statement None d +:+ " " +:+ pretty n) as -> by by destruct d end.
    cbn [fetch_all demo_gql_pool]. rewrite demo_limit_at by done. by destruct d.
  - intros r d n Hr Hn.
    match goal with |- fetch_all ?s _ = _ => assert (s = demo_statement (Some r) d +:+ " " +:+ pretty n) as -> by
      (unfold demo_statement; cbn [clause_text app SqlString.join]; rewrite !SqlString.append_assoc; by destruct d) end.
    cbn [fetch_all demo_gql_pool]. rewrite demo_limit_at by done.
    repeat (apply elem_of_cons in Hr as [->|Hr]; [by destruct d|]). by apply elem_of_nil in Hr.
Qed.

End Gql.
