(* ===== verification/GraphqlTypes.v ===== *)
(** * Types and values of models in GraphQL ([crates/graphql/src/query/mod.rs], [types.rs], [object/inputs/where_input.rs])

    The types of the fields of a model, made of its schema; the values of those fields, read
    from a row of the table of the model; and the filters of a where argument.

    The names of primitives and of types, the case of identifiers and the reading of JSON
    are parameters. *)

From S2P Require Import Prelude Proto SqlString SqlText Executor ModelTable Wire Messages Aggregator Messaging TypedData Query GraphqlQuery.
From stdpp Require Import pretty.
From Stdlib Require Import Ascii.
Local Open Scope Z_scope.
Local Open Scope torii_scope.

(** [async_graphql::dynamic::TypeRef] *)
Inductive TypeRef : Type :=
| TNamed (name : string)
| TNonNull (t : TypeRef)
| TList (t : TypeRef).
#[global] Instance TypeRef_eq_dec : EqDecision TypeRef.
Proof. solve_decision. Defined.
#[local] Set Warnings "-register-all".
Inductive TypeData : Type :=
| TDSimple (t : TypeRef)
| TDNested (t : TypeRef) (types : list (string * TypeData))
| TDList (t : TypeData).

Class ModelTypes `{JsonNumber} : Type := {
  (** [Primitive::to_string], [Primitive::from_str], [Primitive::to_sql_type] *)
  prim_name : Prim → string;
  prim_from_name : string → option Prim;
  prim_sql_kind : Prim → SqlType;
  (** [from_json_value] of a number and of a string, then [to_sql_value] *)
  prim_from_number : Prim → Z → option Prim;
  prim_from_text : Prim → string → option Prim;
  prim_sql_text : Prim → string;
  (** [Ty::name] *)
  ty_name : DTy → string;
  (** [to_case(Case::Snake)] *)
  to_snake : string → string;
  (** [serde_json::from_str::<Value>] *)
  value_from_json : string → option GValue
}.
(** A name reads as a primitive of the same kind, and no other type has such a name. *)
Class ModelTypesSpec `{ModelTypes} : Prop := {
  prim_name_kind p : ∃ q, prim_from_name (prim_name p) = Some q ∧ prim_sql_kind q = prim_sql_kind p ∧
    ((∃ b, q = PrimBool b) ↔ ∃ b, p = PrimBool b);
  other_names name : name = "Enum" ∨ name = "ByteArray" ∨ name = "String" ∨ name = "DateTime" ∨ name = "Int" → prim_from_name name = None;
  prim_name_not p : prim_name p ≠ "Enum"
}.

Module GqlTypes.
Import Msg Query TypedData Gql.
#[local] Existing Instance wire_primitives.
Abbreviation TypeMapping := (list (string * TypeData)).
Abbreviation Ty := DTy.

(** ** Types ([types.rs]) *)
Fixpoint type_ref_text (t : TypeRef) : string :=
  match t with TNamed n => n | TNonNull t => type_ref_text t +:+ "!" | TList t => "[" +:+ type_ref_text t +:+ "]" end.
Fixpoint type_ref (t : TypeData) : TypeRef :=
  match t with TDSimple r | TDNested r _ => r | TDList t => TList (type_ref t) end.
Definition is_list (t : TypeData) : bool := match t with TDList _ => true | _ => false end.
Definition type_mapping (t : TypeData) : option TypeMapping := match t with TDNested _ m => Some m | _ => None end.

Section mapping.
Context `{JsonNumber} {MT : ModelTypes}.

(** [re.replace_all(&name, "")] with the class [, ()<>\[\];-] *)
Definition sanitized_char (c : ascii) : bool :=
  bool_decide (c ∈ [","%char; " "%char; "("%char; ")"%char; "<"%char; ">"%char; "["%char; "]"%char; ";"%char; "-"%char]).
Fixpoint sanitize (s : string) : string :=
  match s with EmptyString => EmptyString | String c s => if sanitized_char c then sanitize s else String c (sanitize s) end.
Definition nested_name (namespace : string) (schema : Ty) : TypeRef := TNamed (sanitize (namespace +:+ "_" +:+ ty_name schema)).
Definition tuple_name (i : nat) : string := "_" +:+ pretty i.
Definition simple_enum : TypeData := TDSimple (TNamed "Enum").

(** [collect] into an [IndexMap] *)
Definition collect_map {V} (l : list (string * V)) : list (string * V) := foldl (λ m '(k, v), im_insert k v m) [] l.

(** [member_to_type_data], with [parse_nested_type] for the types that have members. The
    first element of an array without any is an index out of range. *)
Fixpoint member_to_type_data {E} (namespace : string) (schema : Ty) {struct schema} : outcome E TypeData :=
  match schema with
  | TyPrimitive p => Ok (TDSimple (TNamed (prim_name p)))
  | TyByteArray _ => Ok (TDSimple (TNamed "ByteArray"))
  | TyArray ts => match ts with t :: _ => let? t := member_to_type_data namespace t in Ok (TDList t) | [] => Panic end
  | TyStruct _ children =>
      let? types := (fix go ms := match ms with
        | [] => Ok []
        | (name, t, _) :: ms =>
            let? t := member_to_type_data namespace t in
            let? rest := go ms in Ok ((name, t) :: rest)
        end) children in
      Ok (TDNested (nested_name namespace schema) (collect_map types))
  | TyEnum _ _ options =>
      if forallb (λ o, ModelTable.is_empty_tuple o.2) options then Ok simple_enum
      else
        let? types := (fix go os := match os with
          | [] => Ok []
          | (name, t) :: os =>
              if ModelTable.is_empty_tuple t then go os
              else let? t := member_to_type_data namespace t in
                   let? rest := go os in Ok ((name, t) :: rest)
          end) options in
        Ok (TDNested (nested_name namespace schema) (im_insert "option" simple_enum (collect_map types)))
  | TyTuple ts =>
      let? types := (fix go i ts {struct ts} := match ts with
        | [] => Ok []
        | t :: ts =>
            let? t := member_to_type_data namespace t in
            let? rest := go (Datatypes.S i) ts in Ok ((tuple_name i, t) :: rest)
        end) 0%nat ts in
      Ok (TDNested (nested_name namespace schema) (collect_map types))
  | TyFixedSizeArray ts _ =>
      match ts with
      | t :: _ =>
          let? t := member_to_type_data namespace t in
          Ok (TDNested (nested_name namespace schema) [("elements", TDList t); ("size", TDSimple (TNamed "u32"))])
      | [] => Panic
      end
  end.
(** [schema.as_struct().unwrap()] *)
Definition build_type_mapping {E} (namespace : string) (schema : Ty) : outcome E TypeMapping :=
  match schema with
  | TyStruct _ children =>
      let? types := outcome_mapM (λ '(name, t, _), let? t := member_to_type_data namespace t in Ok (name, t)) children in
      Ok (collect_map types)
  | _ => Panic
  end.
End mapping.

(** ** Values *)
Section values.
Context `{JsonNumber} {MT : ModelTypes} `{Sqlx} `{Chrono}.

Definition ENTITY_ID_COLUMN : string := "internal_entity_id".
Definition EVENT_MESSAGE_ID_COLUMN : string := "internal_event_message_id".
Definition INTERNAL_ENTITY_ID_KEY : string := "$entity_id$".
Definition SQL_FELT_DELIMITER : ascii := "/"%char.

(** [str_val.trim_start_matches("0x")], [format!("0x{:0>1}", ..)] *)
Definition remove_hex_leading_zeros (value : GValue) : GValue :=
  match value with
  | VString s =>
      if String.prefix "0x" s then
        let trimmed := trim_start_char "0"%char (SqlString.trim_0x s) in
        VString ("0x" +:+ if String.eqb trimmed EmptyString then "0" else trimmed)
      else value
  | _ => value
  end.

(** [part[1..].parse::<usize>().is_ok()] *)
Definition is_usize (s : string) : bool := match parse_u128 s with Some n => n <=? u64_max | None => false end.
Definition tuple_part (part : string) : string :=
  match part with
  | String c rest => if Ascii.eqb c "_"%char && is_usize rest then rest else part
  | EmptyString => part
  end.
(** [s.trim_end_matches(suffix)] *)
Fixpoint trim_end_text (fuel : nat) (suffix s : string) : string :=
  match fuel with
  | O => s
  | Datatypes.S fuel => match strip_suffix suffix s with Some s => trim_end_text fuel suffix s | None => s end
  end.
Definition dot : ascii := "."%char.
Definition column_of (field_name type_name : string) (is_internal snake_case : bool) : string :=
  let column := if is_internal then "internal_" +:+ field_name else if snake_case then to_snake field_name else field_name in
  let column := SqlString.join "." (tuple_part <$> SqlString.split dot column) in
  if String.eqb type_name "Enum" then trim_end_text (String.length column) ".option" column else column.

Definition number (z : Z) : GValue := VNumber (number_from_int z).
Definition fetch_value (row : SqliteRow) (field_name type_name : string) (is_internal snake_case : bool) : outcome QError GValue :=
  let column := column_of field_name type_name is_internal snake_case in
  match prim_from_name type_name with
  | Some (PrimBool _) => let? i := db (row_i64 row column) in Ok (VBoolean (i =? 1))
  | Some p =>
      match prim_sql_kind p with
      | ModelTable.SqlInteger => let? i := db (row_i64 row column) in Ok (number i)
      | ModelTable.SqlText => let? s := db (row_string row column) in Ok (remove_hex_leading_zeros (VString s))
      end
  | None =>
      if String.eqb type_name "DateTime" then
        match row_time row column with inr t => Ok (VString (to_rfc3339 t)) | inl _ => Panic end
      else if String.eqb type_name "Int" then let? i := db (row_i64 row column) in Ok (number i)
      else let? s := db (row_string row column) in Ok (VString s)
  end.

(** Felts stored with a delimiter after each; the last, empty part is dropped. *)
Definition felts_value (s : string) : GValue := VList (VString <$> pop (SqlString.split SQL_FELT_DELIMITER s)).

Definition insert_entity_id (entity_id : option string) (obj : ValueMapping) : ValueMapping :=
  match entity_id with Some id => im_insert INTERNAL_ENTITY_ID_KEY (VString id) obj | None => obj end.
(** [populate_value]: what is missing of a value read from JSON is filled in *)
Fixpoint populate_value {E} (entity_id : option string) (type_data : TypeData) (value : GValue) {struct type_data} : outcome E GValue :=
  match value with
  | VObject obj =>
      match type_data with
      | TDNested _ types =>
          let? obj := (fix go types obj := match types with
            | [] => Ok obj
            | (name, t) :: types =>
                match im_get name obj with
                | Some v => let? v := populate_value entity_id t v in go types (im_insert name v obj)
                | None =>
                    if String.eqb name "option" then
                      match obj with
                      | (k, _) :: _ => go types (im_insert name (VString k) obj)
                      | [] => Panic
                      end
                    else go types (im_insert name VNull obj)
                end
            end) types obj in
          Ok (VObject (insert_entity_id entity_id obj))
      | _ => Panic
      end
  | VList inner =>
      match type_data with
      | TDList t => let? inner := outcome_mapM (populate_value entity_id t) inner in Ok (VList inner)
      | TDNested _ types =>
          let? items := (fix go i inner := match inner with
            | [] => Ok []
            | v :: inner =>
                let? v := (fix find types := match types with
                  | [] => Panic
                  | (name, t) :: types => if String.eqb name (tuple_name i) then populate_value entity_id t v else find types
                  end) types in
                let? rest := go (Datatypes.S i) inner in Ok ((tuple_name i, v) :: rest)
            end) 0%nat inner in
          Ok (VObject (collect_map items))
      | TDSimple _ => Ok value
      end
  | _ => Ok value
  end.

Definition field_path (prefix name : string) : string := if String.eqb prefix EmptyString then name else prefix +:+ "." +:+ name.
Definition simple_value (t : TypeRef) (value : GValue) : GValue :=
  match t, value with TList _, VString s => felts_value s | _, _ => value end.
(** [build_value_mapping], of the entries of one object *)
Fixpoint build_value (row : SqliteRow) (is_internal snake_case : bool) (entity_id : option string) (column_name : string) (t : TypeData)
    {struct t} : outcome QError (option GValue) :=
  match t with
  | TDSimple r =>
      let? value := fetch_value row column_name (type_ref_text r) is_internal snake_case in Ok (Some (simple_value r value))
  | TDList _ =>
      let? value := fetch_value row column_name "String" is_internal snake_case in
      match value with
      | VString json_str =>
          if String.eqb json_str EmptyString then Ok (Some (VList []))
          else
            let? value := ok_or (QProtocol "JSON parse error") (value_from_json json_str) in
            let? value := populate_value entity_id t value in Ok (Some value)
      | _ => Ok None
      end
  | TDNested _ types =>
      let? values := (fix go types values := match types with
        | [] => Ok values
        | (name, t) :: types =>
            let? value := build_value row is_internal snake_case entity_id (field_path column_name name) t in
            go types (match value with Some v => im_insert name v values | None => values end)
        end) types (insert_entity_id entity_id []) in
      Ok (Some (VObject values))
  end.
(** The object of all the fields, whose columns have no prefix. *)
Definition value_mapping_from_row (row : SqliteRow) (types : TypeMapping) (is_internal snake_case : bool) : outcome QError ValueMapping :=
  let entity_id := match row_string row ENTITY_ID_COLUMN with
    | inr id => Some id
    | inl _ => match row_string row EVENT_MESSAGE_ID_COLUMN with inr id => Some id | inl _ => None end
    end in
  (fix go types values := match types with
   | [] => Ok values
   | (name, t) :: types =>
       let? value := build_value row is_internal snake_case entity_id name t in
       go types (match value with Some v => im_insert name v values | None => values end)
   end) types (insert_entity_id entity_id []).
End values.

(** ** Where arguments ([object/inputs/where_input.rs]) *)
Inductive WhereInputObject : Type := mkWhere (type_name : string) (mapping : TypeMapping) (nested_inputs : list WhereInputObject).
Definition wi_type_name (w : WhereInputObject) : string := let 'mkWhere n _ _ := w in n.
Definition wi_mapping (w : WhereInputObject) : TypeMapping := let 'mkWhere _ m _ := w in m.

Definition wi_nested (w : WhereInputObject) : list WhereInputObject := let 'mkWhere _ _ ws := w in ws.

Definition comparator_field (type_name : string) (type_data : TypeData) (c : Comparator) : string * TypeData :=
  (type_name +:+ comparator_ref c, match c with In | NotIn => TDList type_data | _ => type_data end).
Definition build_field_mapping (type_name : string) (type_data : TypeData) : TypeMapping :=
  if bool_decide (type_ref type_data = TNamed "Enum") || bool_decide (type_ref type_data = TNamed "bool") then [(type_name, type_data)]
  else (type_name, type_data) :: (comparator_field type_name type_data <$> comparators).
Definition insert_all {V} (entries m : list (string * V)) : list (string * V) := foldl (λ m '(k, v), im_insert k v m) m entries.
(** [WhereInputObject::new] of the types of an object. A nested object keeps the types of
    its fields, without those of the comparators. *)
Fixpoint where_input (type_name : string) (object : TypeData) {struct object} : WhereInputObject :=
  match object with
  | TDNested _ types =>
      (fix go types mapping nested := match types with
       | [] => mkWhere (type_name +:+ "WhereInput") mapping nested
       | (name, t) :: types =>
           match t with
           | TDList _ => go types mapping nested
           | TDNested _ nested_types =>
               let input := where_input (type_name +:+ "_" +:+ name) t in
               go types (im_insert name (TDNested (TNamed (wi_type_name input)) nested_types) mapping) (nested ++ [input])
           | TDSimple _ => go types (insert_all (build_field_mapping name t) mapping) nested
           end
       end) types [] []
  | _ => mkWhere (type_name +:+ "WhereInput") [] []
  end.
Definition where_input_new (type_name : string) (object_types : TypeMapping) : WhereInputObject :=
  where_input type_name (TDNested (TNamed type_name) object_types).
(** The declared input objects: names with the fields and their types. *)
Fixpoint input_objects (w : WhereInputObject) : list (string * list (string * TypeRef)) :=
  let 'mkWhere name mapping nested := w in
  (name, (λ '(field, t), (field, type_ref t)) <$> mapping) ::
  (fix go ws := match ws with [] => [] | w :: ws => input_objects w ++ go ws end) nested.

Section parsing.
Context `{JsonNumber} {GE : GraphqlEnv} {MT : ModelTypes} `{Sqlx}.

(** Whether a number is given to [from_json_value] where the text is one. *)
Definition takes_number (p : Prim) : bool :=
  match p with
  | PrimI8 _ | PrimI16 _ | PrimI32 _ | PrimU8 _ | PrimU16 _ | PrimU32 _ | PrimBool _ | PrimI64 _ => true
  | _ => false
  end.
Definition format_value_with_primitive_formatting (input_value : string) (p : Prim) : option string :=
  let parsed := match (if takes_number p then parse_i64 input_value else None) with
    | Some num => prim_from_number p num
    | None => prim_from_text p input_value
    end in
  prim_sql_text <$> parsed.
Definition parse_integer (input : GValue) (type_name : string) (p : Prim) : outcome GError FilterValue :=
  match p with
  | PrimBool _ => let? b := ok_or (GMessage ("Expected boolean on field " +:+ type_name)) (as_boolean input) in Ok (FInt (Z.b2z b))
  | _ => let? i := ok_or (GMessage ("Expected integer on field " +:+ type_name)) (as_i64 input) in Ok (FInt i)
  end.
Definition parse_string (input : GValue) (type_name : string) (p : Prim) : outcome GError FilterValue :=
  let? i := ok_or (GMessage ("Expected string on field " +:+ type_name)) (as_string input) in
  Ok (FString (default i (format_value_with_primitive_formatting i p))).
Definition parse_primitive (type_name : string) (input : GValue) (field_path : string) : outcome GError FilterValue :=
  let? p := ok_or (GMessage "not a primitive") (prim_from_name type_name) in
  match prim_sql_kind p with
  | ModelTable.SqlInteger => parse_integer input field_path p
  | ModelTable.SqlText => parse_string input field_path p
  end.
Definition trim_option (f : Filter) : Filter :=
  mkFilter (trim_end_text (String.length (filter_field f)) ".option" (filter_field f)) (filter_comparator f) (filter_value f).
(** [parse_where_value], [parse_nested_where] *)
Fixpoint parse_where_value (field_path : string) (t : TypeData) (input : GValue) {struct t} : outcome GError (list Filter) :=
  match t with
  | TDSimple r =>
      if bool_decide (r = TNamed "Enum") then
        let? value := ok_or (GMessage "internal: not a string") (as_string input) in
        Ok [trim_option (parse_filter field_path (FString value))]
      else
        let? value := parse_primitive (type_ref_text r) input field_path in
        Ok [parse_filter field_path value]
  | TDList inner =>
      let? l := ok_or (GMessage "internal: not a list") (as_list input) in
      let? values := outcome_mapM (λ v, parse_primitive (type_ref_text (type_ref inner)) v field_path) l in
      Ok [parse_filter field_path (FList values)]
  | TDNested _ types =>
      let? nested := ok_or (GMessage "internal: not an object") (as_object input) in
      (fix go types := match types with
       | [] => Ok []
       | (name, t) :: types =>
           match im_get name nested with
           | Some v =>
               let? filters := parse_where_value (field_path +:+ "." +:+ name) t v in
               let? rest := go types in Ok (filters ++ rest)
           | None => go types
           end
       end) types
  end.
Definition parse_fields (object : ValueMapping) : TypeMapping → outcome GError (list Filter) :=
  fix go types := match types with
  | [] => Ok []
  | (name, t) :: types =>
      match im_get name object with
      | Some v => let? filters := parse_where_value name t v in let? rest := go types in Ok (filters ++ rest)
      | None => go types
      end
  end.
Definition parse_where_argument (args : ValueMapping) (where_mapping : TypeMapping) : outcome GError (option (list Filter)) :=
  match im_get "where" args with
  | None => Ok None
  | Some input =>
      let? object := ok_or (GMessage "internal: not an object") (as_object input) in
      let? filters := parse_fields object where_mapping in Ok (Some filters)
  end.
End parsing.

(** ** Filters are those asked for *)
Lemma insert_all_new {V} (l m : list (string * V)) : NoDup (m.*1 ++ l.*1) → insert_all l m = m ++ l.
Proof.
  revert m. induction l as [|[k v] l IH]; intros m Hnd; [by rewrite app_nil_r|].
  unfold insert_all. cbn [foldl]. fold (insert_all (V := V)). cbn [fmap list_fmap fst] in Hnd.
  assert (k ∉ m.*1) as Hk. { apply NoDup_app in Hnd as (_ & Hd & _). intros Hin. apply (Hd k Hin). left. }
  rewrite im_insert_fresh by done. change (insert_all l (m ++ [(k, v)]) = m ++ (k, v) :: l).
  rewrite IH; [by rewrite <- app_assoc|]. by rewrite fmap_app, <- app_assoc.
Qed.
Lemma im_get_unique {V} (m : list (string * V)) k v : NoDup m.*1 → (k, v) ∈ m → im_get k m = Some v.
Proof.
  induction m as [|[x w] m IH]; [by intros _ ?%elem_of_nil|]. cbn. intros [Hx Hnd]%NoDup_cons [Heq|Hin]%elem_of_cons.
  - injection Heq as -> ->. by rewrite String.eqb_refl.
  - rewrite (proj2 (String.eqb_neq x k)); [by apply IH|]. intros ->. apply Hx. by apply (list_elem_of_fmap_2 fst _ (k, v)).
Qed.

(** The entries of a where input for one field. *)
Definition where_entries (type_name : string) (f : string * TypeData) : TypeMapping :=
  match f.2 with
  | TDList _ => []
  | TDNested _ types => [(f.1, TDNested (TNamed (wi_type_name (where_input (type_name +:+ "_" +:+ f.1) f.2))) types)]
  | TDSimple _ => build_field_mapping f.1 f.2
  end.
Lemma where_mapping_entries type_name (types : TypeMapping) : NoDup (types ≫= where_entries type_name).*1 →
  wi_mapping (where_input_new type_name types) = types ≫= where_entries type_name.
Proof.
  unfold where_input_new. cbn [where_input].
  assert (∀ types mapping nested, NoDup (mapping.*1 ++ (types ≫= where_entries type_name).*1) →
    wi_mapping ((fix go types mapping nested := match types with
       | [] => mkWhere (type_name +:+ "WhereInput") mapping nested
       | (name, t) :: types =>
           match t with
           | TDList _ => go types mapping nested
           | TDNested _ nested_types =>
               let input := where_input (type_name +:+ "_" +:+ name) t in
               go types (im_insert name (TDNested (TNamed (wi_type_name input)) nested_types) mapping) (nested ++ [input])
           | TDSimple _ => go types (insert_all (build_field_mapping name t) mapping) nested
           end
       end) types mapping nested) = mapping ++ (types ≫= where_entries type_name)) as Hgo; [|by intros; apply (Hgo types [] [])].
  clear types. induction types as [|[name t] types IH]; intros mapping nested Hnd; [by rewrite app_nil_r|].
  cbn [mbind list_bind] in Hnd |- *. rewrite fmap_app in Hnd. unfold where_entries at 1 in Hnd. unfold where_entries at 1. cbn [fst snd] in Hnd |- *.
  destruct t as [r|r nt|t]; cbn zeta.
  - rewrite insert_all_new by (rewrite (assoc (++)) in Hnd; by apply NoDup_app in Hnd as (? & _)).
    rewrite IH; [by rewrite <- app_assoc|]. by rewrite fmap_app, <- app_assoc.
  - rewrite im_insert_fresh by (apply NoDup_app in Hnd as (_ & Hd & _); intros Hin; apply (Hd name Hin); left).
    rewrite IH; [by rewrite <- app_assoc|]. by rewrite fmap_app, <- app_assoc.
  - by apply IH.
Qed.

Section where_theorems.
Context `{JsonNumber} {GE : GraphqlEnv} {MT : ModelTypes} {MS : ModelTypesSpec} `{Sqlx}.

(** An object with one entry gives the filters of that entry. *)
Lemma parse_single (W : TypeMapping) k v t : NoDup W.*1 → (k, t) ∈ W → parse_fields [(k, v)] W = parse_where_value k t v.
Proof.
  intros Hnd Hin. assert (∀ W', k ∉ W'.*1 → parse_fields [(k, v)] W' = Ok []) as Hskip.
  { induction W' as [|[x t'] W' IH]; [done|]. cbn. intros Hn. apply not_elem_of_cons in Hn as [Hx Hn].
    rewrite (proj2 (String.eqb_neq k x)) by done. by apply IH. }
  induction W as [|[x t'] W IH]; [by apply elem_of_nil in Hin|]. cbn in Hnd. apply NoDup_cons in Hnd as [Hx Hnd]. cbn.
  apply elem_of_cons in Hin as [Heq|Hin].
  - injection Heq as <- <-. rewrite String.eqb_refl.
    destruct (parse_where_value k t v); [|done..]. cbn. fold (parse_fields [(k, v)] W). rewrite Hskip by done. cbn. by rewrite app_nil_r.
  - rewrite (proj2 (String.eqb_neq k x)); [by apply IH|]. intros <-. apply Hx. by apply (list_elem_of_fmap_2 fst _ (k, t)).
Qed.

(** The value of a filter: a list of them for [IN] and [NOT IN]. *)
Definition asked_value (c : Comparator) (type_name : string) (v : GValue) (field : string) : outcome GError FilterValue :=
  match c with
  | In | NotIn =>
      let? l := ok_or (GMessage "internal: not a list") (as_list v) in
      let? values := outcome_mapM (λ v, parse_primitive type_name v field) l in Ok (FList values)
  | _ => parse_primitive type_name v field
  end.


(** ** What is not filtered *)
Lemma nested_input_declared type_name (types : TypeMapping) name r nt : (name, TDNested r nt) ∈ types →
  where_input (type_name +:+ "_" +:+ name) (TDNested r nt) ∈ wi_nested (where_input_new type_name types).
Proof.
  intros Hin. remember (where_input (type_name +:+ "_" +:+ name) (TDNested r nt)) as x eqn:Hx.
  unfold where_input_new. cbn [where_input]. generalize (@nil (string * TypeData)).
  assert (∀ types mapping nested x, x ∈ nested ∨ (∃ name r nt, (name, TDNested r nt) ∈ types ∧ x = where_input (type_name +:+ "_" +:+ name) (TDNested r nt)) →
    x ∈ wi_nested ((fix go types mapping nested := match types with
       | [] => mkWhere (type_name +:+ "WhereInput") mapping nested
       | (name, t) :: types =>
           match t with
           | TDList _ => go types mapping nested
           | TDNested _ nested_types =>
               let input := where_input (type_name +:+ "_" +:+ name) t in
               go types (im_insert name (TDNested (TNamed (wi_type_name input)) nested_types) mapping) (nested ++ [input])
           | TDSimple _ => go types (insert_all (build_field_mapping name t) mapping) nested
           end
       end) types mapping nested)) as Hgo; [|intros m; apply (Hgo types m []); right; by exists name, r, nt].
  clear. induction types as [|[name t] types IH]; intros mapping nested x Hx.
  { destruct Hx as [Hx|(? & ? & ? & Hx & _)]; [done|by apply elem_of_nil in Hx]. }
  destruct t as [r|r nt|t]; cbn zeta; apply IH.
  1, 3: destruct Hx as [Hx|(n & r' & nt' & [[=]|Hx]%elem_of_cons & ->)]; [by left|right; by exists n, r', nt'].
  destruct Hx as [Hx|(n & r' & nt' & [[= -> -> ->]|Hx]%elem_of_cons & ->)].
  - left. apply elem_of_app. by left.
  - left. apply elem_of_app. right. left.
  - right. by exists n, r', nt'.
Qed.
Lemma nested_objects_elem w w' o : w' ∈ wi_nested w → o ∈ input_objects w' → o ∈ input_objects w.
Proof.
  destruct w as [n m ws]. cbn. intros Hw Ho. right. induction ws as [|w ws IH]; [by apply elem_of_nil in Hw|].
  apply elem_of_app. apply elem_of_cons in Hw as [->|Hw]; [by left|right; by apply IH].
Qed.

(** A condition with a comparator on a member of a nested object is declared in the schema,
    so a client may give it, and is then left out: no filter is made of it. *)
Theorem nested_comparator_ignored (type_name : string) (types : TypeMapping) (name : string) (r : TypeRef) (nt : TypeMapping) (f : string)
    (p : Prim) (c : Comparator) (w v input : GValue) (args : ValueMapping) :
  NoDup (types ≫= where_entries type_name).*1 → (name, TDNested r nt) ∈ types →
  NoDup (nt ≫= where_entries (type_name +:+ "_" +:+ name)).*1 → (f, TDSimple (TNamed (prim_name p))) ∈ nt → prim_name p ≠ "bool" →
  f +:+ comparator_ref c ∉ nt.*1 →
  im_get "where" args = Some w → as_object w = Some [(name, input)] → as_object input = Some [(f +:+ comparator_ref c, v)] →
  (∃ object fields, (object, fields) ∈ input_objects (where_input_new type_name types) ∧ f +:+ comparator_ref c ∈ fields.*1) ∧
  parse_where_argument args (wi_mapping (where_input_new type_name types)) = Ok (Some []).
Proof.
  intros Hnd Hin Hnd' Hf Hb Hfree Hw Ho Hi. split.
  - set (nested := where_input (type_name +:+ "_" +:+ name) (TDNested r nt)).
    exists (wi_type_name nested), ((λ '(field, t), (field, type_ref t)) <$> wi_mapping nested). split.
    + eapply nested_objects_elem; [by apply nested_input_declared|]. change (where_input _ _) with nested. destruct nested. left.
    + change (wi_mapping nested) with (wi_mapping (where_input_new (type_name +:+ "_" +:+ name) nt)).
      rewrite where_mapping_entries by done. rewrite <- list_fmap_compose. apply list_elem_of_fmap.
      exists (comparator_field f (TDSimple (TNamed (prim_name p))) c). split; [done|].
      apply list_elem_of_bind. exists (f, TDSimple (TNamed (prim_name p))). split; [|done]. unfold where_entries. cbn [fst snd].
      unfold build_field_mapping. cbn [type_ref]. rewrite !bool_decide_false; [|congruence|intros [= Hp]; by apply (prim_name_not p)].
      right. apply list_elem_of_fmap. exists c. split; [done|]. by destruct c; repeat (left || right).
  - rewrite where_mapping_entries by done. unfold parse_where_argument. rewrite Hw, Ho. cbn [ok_or outcome_bind].
    erewrite parse_single; [|done|apply list_elem_of_bind; exists (name, TDNested r nt); split; [left|done]].
    cbn [parse_where_value]. rewrite Hi. cbn [ok_or outcome_bind]. clear - Hfree.
    induction nt as [|[x t] nt IH]; [done|]. apply not_elem_of_cons in Hfree as [Hx Hfree]. cbn [fst] in Hx. cbn [im_get].
    rewrite (proj2 (String.eqb_neq (f +:+ comparator_ref c) x)) by done. by apply IH.
Qed.
End where_theorems.

(** ** Models are read from the columns of their tables *)
Definition plain_name (x : string) : Prop := x ≠ EmptyString ∧ x ≠ "option" ∧ SqlString.free_of dot x ∧ tuple_part x = x.
(** Schemas without arrays of a fixed size, whose names are plain. *)
Fixpoint readable (t : Ty) : Prop :=
  match t with
  | TyPrimitive _ | TyByteArray _ | TyArray _ => True
  | TyFixedSizeArray _ _ => False
  | TyStruct _ ms => (fix go ms := match ms with [] => True | (x, t, _) :: ms => plain_name x ∧ readable t ∧ go ms end) ms
  | TyEnum _ _ os => (fix go os := match os with [] => True | (x, t) :: os => plain_name x ∧ readable t ∧ go os end) os
  | TyTuple ts => Z.of_nat (length ts) ≤ u64_max ∧ (fix go ts := match ts with [] => True | t :: ts => readable t ∧ go ts end) ts
  end.

Lemma readable_struct n ms : readable (TyStruct n ms) → ∀ x t k, (x, t, k) ∈ ms → plain_name x ∧ readable t.
Proof.
  cbn. induction ms as [|[[x t] k] ms IH]; intros Hr x' t' k' Hin; [by apply elem_of_nil in Hin|].
  destruct Hr as (Hx & Ht & Hms). apply elem_of_cons in Hin as [[= -> -> ->]|Hin]; [done|by eapply IH].
Qed.
Lemma readable_enum n o os : readable (TyEnum n o os) → ∀ x t, (x, t) ∈ os → plain_name x ∧ readable t.
Proof.
  cbn. induction os as [|[x t] os IH]; intros Hr x' t' Hin; [by apply elem_of_nil in Hin|].
  destruct Hr as (Hx & Ht & Hos). apply elem_of_cons in Hin as [[= -> ->]|Hin]; [done|by eapply IH].
Qed.
Lemma readable_tuple ts : readable (TyTuple ts) → Z.of_nat (length ts) ≤ u64_max ∧ ∀ i t, ts !! i = Some t → readable t.
Proof.
  cbn. intros [Hl Hr]. split; [done|]. clear Hl. induction ts as [|t ts IH]; intros i t' Hi; [done|].
  destruct Hr as [Ht Hts], i as [|i]; cbn in Hi; [by injection Hi as <-|by eapply IH].
Qed.

(** The parts of the path of a field, as the types name them. *)
Definition segment (r : string) : Prop := SqlString.free_of dot r ∧ tuple_part r ≠ EmptyString ∧ tuple_part r ≠ "option".
Lemma plain_segment x : plain_name x → segment x.
Proof. intros (Hne & Ho & Hf & Ht). split; [done|]. by rewrite Ht. Qed.
Lemma pretty_nat_Z (i : nat) : pretty i = pretty (Z.of_nat i).
Proof. rewrite Agg.pretty_nonneg by lia. unfold pretty at 1, pretty_nat. f_equal. lia. Qed.
Lemma tuple_part_name (i : nat) : Z.of_nat i ≤ u64_max → tuple_part (tuple_name i) = pretty i.
Proof.
  intros Hi. unfold tuple_part, tuple_name. change ("_" +:+ pretty i) with (String "_"%char (pretty i)). cbn [Ascii.eqb Bool.eqb andb].
  unfold is_usize, u64_max in *. rewrite pretty_nat_Z, Agg.parse_u128_pretty by (unfold u128_max; lia).
  cbn. by rewrite (proj2 (Z.leb_le _ _)).
Qed.
Lemma dec_free s : Agg.dec_only s = true → SqlString.free_of dot s.
Proof.
  induction s as [|c s IH]; [done|]. cbn [Agg.dec_only]. intros [[d Hd]%bool_decide_eq_true Hs]%andb_prop.
  split; [|by apply IH]. intros ->. discriminate Hd.
Qed.
Lemma tuple_segment (i : nat) : Z.of_nat i ≤ u64_max → segment (tuple_name i).
Proof.
  intros Hi. unfold segment. rewrite tuple_part_name, pretty_nat_Z by done. destruct (Agg.pretty_dec (Z.of_nat i)) as [Hd Hne]; [lia|].
  split_and!; [|done|intros Heq; by rewrite Heq in Hd]. unfold tuple_name. rewrite pretty_nat_Z. split; [done|]. by apply dec_free.
Qed.

Lemma tuple_part_free r : SqlString.free_of dot r → SqlString.free_of dot (tuple_part r).
Proof. destruct r as [|c r]; [done|]. intros [Hc Hr]. cbn. by destruct (_ && _). Qed.
Lemma join_nonempty rs : rs ≠ [] → Forall (λ r, r ≠ EmptyString) rs → SqlString.join "." rs ≠ EmptyString.
Proof. intros Hne Hall Hj. apply (join_empty dot) in Hj as [->| ->]; [done|]. by apply Forall_cons in Hall as [? _]. Qed.
Lemma segments_raw rs : Forall segment rs → Forall (λ r, r ≠ EmptyString) rs ∧ Forall (SqlString.free_of dot) rs.
Proof. intros Hs. split; (eapply Forall_impl; [exact Hs|]); intros r (Hf & Hne & _); [by intros ->|done]. Qed.
Lemma segments_columns rs : Forall segment rs →
  Forall (λ r, r ≠ EmptyString) (tuple_part <$> rs) ∧ Forall (SqlString.free_of dot) (tuple_part <$> rs).
Proof.
  intros Hs. split; apply Forall_fmap; (eapply Forall_impl; [exact Hs|]); intros r (Hf & Hne & _); cbn; [done|by apply tuple_part_free].
Qed.
Lemma strip_option cs : cs ≠ [] → Forall (SqlString.free_of dot) cs → last cs ≠ Some "option" →
  strip_suffix ".option" (SqlString.join "." cs) = None.
Proof.
  intros Hne Hf Hl. destruct (strip_suffix _ _) as [g|] eqn:Hg; [|done]. apply strip_suffix_Some in Hg. destruct Hl.
  assert (cs = SqlString.split dot g ++ ["option"]) as ->; [|by rewrite last_snoc].
  rewrite <- (split_join dot cs) by done. change (SqlString.join (String dot EmptyString) cs) with (SqlString.join "." cs).
  rewrite Hg. apply split_acc_app.
Qed.
Lemma trim_end_none n suffix s : strip_suffix suffix s = None → trim_end_text n suffix s = s.
Proof. intros Hn. destruct n; [done|]. cbn. by rewrite Hn. Qed.

Lemma trim_end_step n suffix s g : strip_suffix suffix s = Some g → trim_end_text (Datatypes.S n) suffix s = trim_end_text n suffix g.
Proof. intros Hg. cbn. by rewrite Hg. Qed.

(** The column a field is read from. *)
Definition column_path (rs : list string) : string := SqlString.join "." (tuple_part <$> rs).
Lemma last_not_option rs : Forall segment rs → last (tuple_part <$> rs) ≠ Some "option".
Proof.
  intros Hs Hl. rewrite fmap_last in Hl. apply fmap_Some in Hl as (r & Hr & Ho). apply last_Some_elem_of in Hr.
  rewrite Forall_forall in Hs. by destruct (Hs r Hr) as (_ & _ & ?).
Qed.
Section columns.
Context `{JsonNumber} {MT : ModelTypes} {MS : ModelTypesSpec} `{Sqlx} `{Chrono} {TT : TyText}.

Lemma column_of_path rs type_name : rs ≠ [] → Forall segment rs → column_of (SqlString.join "." rs) type_name false false = column_path rs.
Proof.
  intros Hne Hs. destruct (segments_raw rs Hs) as [_ Hf]. unfold column_of, column_path. cbn zeta.
  replace (SqlString.split dot (SqlString.join "." rs)) with rs by (symmetry; by apply (split_join dot)).
  destruct (String.eqb type_name "Enum"); [|done]. apply trim_end_none, strip_option.
  - by destruct rs.
  - by apply segments_columns.
  - by apply last_not_option.
Qed.
Lemma column_of_option rs : rs ≠ [] → Forall segment rs → column_of (SqlString.join "." (rs ++ ["option"])) "Enum" false false = column_path rs.
Proof.
  intros Hne Hs. destruct (segments_raw rs Hs) as [_ Hf]. unfold column_of, column_path. cbn zeta.
  replace (SqlString.split dot (SqlString.join "." (rs ++ ["option"]))) with (rs ++ ["option"])
    by (symmetry; apply (split_join dot); [by destruct rs|apply Forall_app; split; [done|by repeat constructor]]).
  rewrite fmap_app. cbn [fmap list_fmap]. change (tuple_part "option") with "option". cbn [String.eqb Ascii.eqb Bool.eqb].
  rewrite ModelTable.join_snoc by by destruct rs. set (c := SqlString.join "." (tuple_part <$> rs)).
  change (c +:+ "." +:+ "option") with (c +:+ ".option"). rewrite append_length. cbn [String.length].
  replace (String.length c + 7)%nat with (Datatypes.S (String.length c + 6)) by lia.
  rewrite (trim_end_step _ _ _ c) by apply strip_suffix_app. apply trim_end_none, strip_option.
  - by destruct rs.
  - by apply segments_columns.
  - by apply last_not_option.
Qed.

(** Rows that hold the same in some columns. *)
Definition agree (cols : list string) (r1 r2 : SqliteRow) : Prop :=
  ∀ c, c ∈ cols → row_string r1 c = row_string r2 c ∧ row_i64 r1 c = row_i64 r2 c ∧ row_time r1 c = row_time r2 c.
Lemma agree_mono cols cols' r1 r2 : cols ⊆ cols' → agree cols' r1 r2 → agree cols r1 r2.
Proof. intros Hs Ha c Hc. by apply Ha, Hs. Qed.
Lemma fetch_agree r1 r2 field type_name : agree [column_of field type_name false false] r1 r2 →
  fetch_value r1 field type_name false false = fetch_value r2 field type_name false false.
Proof.
  intros Ha. unfold fetch_value. cbn zeta. destruct (Ha (column_of field type_name false false)) as (Hs & Hi & Ht); [left|].
  by rewrite Hs, Hi, Ht.
Qed.

Context (r1 r2 : SqliteRow) (entity_id : option string).
#[local] Abbreviation value_of row := (build_value row false false entity_id).
Lemma nested_agree prefix r (types : TypeMapping) :
  (∀ name t, (name, t) ∈ types → value_of r1 (field_path prefix name) t = value_of r2 (field_path prefix name) t) →
  value_of r1 prefix (TDNested r types) = value_of r2 prefix (TDNested r types).
Proof.
  cbn [build_value]. generalize (insert_entity_id entity_id []). intros acc Hall. f_equal. revert acc.
  induction types as [|[name t] types IH]; intros acc; [done|]. rewrite (Hall name t) by left.
  destruct (value_of r2 _ t); [|done..]. cbn [outcome_bind]. apply IH. intros name' t' Hin. apply Hall. by right.
Qed.

Lemma im_insert_elem {V} e k (v : V) m : e ∈ im_insert k v m → e = (k, v) ∨ e ∈ m.
Proof.
  induction m as [|[x w] m IH]; cbn; [intros [->|?%elem_of_nil]%elem_of_cons; [by left|done]|].
  destruct (String.eqb_spec x k) as [->|_].
  - intros [->|He]%elem_of_cons; [by left|right; by right].
  - intros [->|He]%elem_of_cons; [right; by left|]. destruct (IH He) as [->|?]; [by left|right; by right].
Qed.
Lemma collect_map_elem {V} (l : list (string * V)) e : e ∈ collect_map l → e ∈ l.
Proof.
  unfold collect_map. assert (∀ m, e ∈ foldl (λ m '(k, v), im_insert k v m) m l → e ∈ m ∨ e ∈ l) as Hgo.
  2: { intros He. by destruct (Hgo [] He) as [?%elem_of_nil|]. }
  induction l as [|[k v] l IH]; intros m He; [by left|]. cbn in He. destruct (IH _ He) as [He'|He']; [|right; by right].
  destruct (im_insert_elem _ _ _ _ He') as [->|?]; [right; by left|by left].
Qed.

Context (namespace table : string) (all_model_indices : bool) (model_indices : list ModelTable.ModelIndices).
#[local] Abbreviation created_at rs key := (ModelTable.created all_model_indices model_indices (table :: (tuple_part <$> rs)) table key).
Context {E : Type}.
#[local] Abbreviation types_of := (member_to_type_data (E := E) namespace).

Lemma created_snoc rs x key t : created_at (rs ++ [x]) key t =
  ModelTable.created all_model_indices model_indices ((table :: (tuple_part <$> rs)) ++ [tuple_part x]) table key t.
Proof. by rewrite fmap_app. Qed.
Lemma column_name_path rs otherwise : rs ≠ [] → Forall segment rs → ModelTable.column_name (table :: (tuple_part <$> rs)) otherwise = column_path rs.
Proof.
  intros Hne Hs. unfold ModelTable.column_name. cbn [drop skipn]. rewrite drop_0. rewrite decide_False; [done|].
  apply join_nonempty; [by destruct rs|by apply segments_columns].
Qed.
Lemma field_path_snoc rs x : rs ≠ [] → Forall segment rs → field_path (SqlString.join "." rs) x = SqlString.join "." (rs ++ [x]).
Proof.
  intros Hne Hs. unfold field_path. rewrite (proj2 (String.eqb_neq _ _)) by (apply join_nonempty; [done|by apply segments_raw]).
  by rewrite ModelTable.join_snoc.
Qed.

(** The types of the members of a structure, of the options of an enum and of the parts
    of a tuple are made one by one. *)
Lemma struct_types n ms td : types_of (TyStruct n ms) = Ok td → ∃ r types, td = TDNested r types ∧
  ∀ x t', (x, t') ∈ types → ∃ t k, (x, t, k) ∈ ms ∧ types_of t = Ok t'.
Proof.
  cbn [member_to_type_data]. match goal with |- outcome_bind ?l _ = _ → _ => destruct l as [l'|?|] eqn:Hl end; [|done..].
  cbn. intros [= <-]. eexists _, _. split; [done|]. intros x t' Hin%collect_map_elem. revert l' Hl x t' Hin.
  induction ms as [|[[x t] k] ms IH]; intros l' Hl x' t' Hin; [injection Hl as <-; by apply elem_of_nil in Hin|].
  destruct (types_of t) as [t1|?|] eqn:Ht; [|done..]. cbn in Hl.
  match type of Hl with outcome_bind ?l _ = _ => destruct l as [rest|?|] eqn:Hr end; [|done..]. cbn in Hl. injection Hl as <-.
  apply elem_of_cons in Hin as [[= -> ->]|Hin]; [exists t, k; split; [left|done]|].
  destruct (IH _ eq_refl _ _ Hin) as (t2 & k2 & Hin2 & Ht2). exists t2, k2. split; [by right|done].
Qed.
Lemma enum_types n o os td : types_of (TyEnum n o os) = Ok td → td = simple_enum ∨ ∃ r types, td = TDNested r types ∧
  ∀ x t', (x, t') ∈ types → (x, t') = ("option", simple_enum) ∨ ∃ t, (x, t) ∈ os ∧ ModelTable.is_empty_tuple t = false ∧ types_of t = Ok t'.
Proof.
  cbn [member_to_type_data]. destruct (forallb _ os); [intros [= <-]; by left|]. intros Hty. right. revert Hty.
  match goal with |- outcome_bind ?l _ = _ → _ => destruct l as [l'|?|] eqn:Hl end; [|done..].
  cbn. intros [= <-]. eexists _, _. split; [done|]. intros x t' [Heq|Hin%collect_map_elem]%im_insert_elem; [by left|]. right. revert l' Hl x t' Hin.
  induction os as [|[x t] os IH]; intros l' Hl x' t' Hin; [injection Hl as <-; by apply elem_of_nil in Hin|].
  destruct (ModelTable.is_empty_tuple t) eqn:He.
  { destruct (IH _ Hl _ _ Hin) as (t2 & Hin2 & Ht2). exists t2. split; [by right|done]. }
  destruct (types_of t) as [t1|?|] eqn:Ht; [|done..]. cbn in Hl.
  match type of Hl with outcome_bind ?l _ = _ => destruct l as [rest|?|] eqn:Hr end; [|done..]. cbn in Hl. injection Hl as <-.
  apply elem_of_cons in Hin as [[= -> ->]|Hin]; [exists t; split_and!; [left|done..]|].
  destruct (IH _ eq_refl _ _ Hin) as (t2 & Hin2 & Ht2). exists t2. split; [by right|done].
Qed.
Lemma tuple_types ts td : types_of (TyTuple ts) = Ok td → ∃ r types, td = TDNested r types ∧
  ∀ x t', (x, t') ∈ types → ∃ i t, x = tuple_name i ∧ ts !! i = Some t ∧ types_of t = Ok t'.
Proof.
  cbn [member_to_type_data]. match goal with |- outcome_bind ?l _ = _ → _ => destruct l as [l'|?|] eqn:Hl end; [|done..].
  cbn. intros [= <-]. eexists _, _. split; [done|]. intros x t' Hin%collect_map_elem.
  assert (∃ i t, x = tuple_name (0 + i) ∧ ts !! i = Some t ∧ types_of t = Ok t') as Hex; [|done]. revert Hl Hin.
  generalize 0%nat. revert l'. induction ts as [|t ts IH]; intros l' j Hl Hin; [injection Hl as <-; by apply elem_of_nil in Hin|].
  destruct (types_of t) as [t1|?|] eqn:Ht; [|done..]. cbn in Hl.
  match type of Hl with outcome_bind ?l _ = _ => destruct l as [rest|?|] eqn:Hr end; [|done..]. cbn in Hl. injection Hl as <-.
  apply elem_of_cons in Hin as [[= -> ->]|Hin]; [exists 0%nat, t; by rewrite Nat.add_0_r|].
  destruct (IH _ _ Hr Hin) as (i & t2 & -> & Hi & Ht2). exists (Datatypes.S i), t2. split_and!; [f_equal; lia|done..].
Qed.

Lemma simple_agree rs key t r : rs ≠ [] → Forall segment rs → created_at rs key t = [column_path rs] → agree (created_at rs key t) r1 r2 →
  value_of r1 (SqlString.join "." rs) (TDSimple r) = value_of r2 (SqlString.join "." rs) (TDSimple r).
Proof. intros Hne Hs Hc Ha. cbn [build_value]. rewrite (fetch_agree r1 r2); [done|]. by rewrite column_of_path, <- Hc. Qed.

Lemma build_agree (t : Ty) : ∀ rs key td, readable t → rs ≠ [] → Forall segment rs → types_of t = Ok td →
  agree (created_at rs key t) r1 r2 → value_of r1 (SqlString.join "." rs) td = value_of r2 (SqlString.join "." rs) td.
Proof.
  assert (∀ rs x, Forall segment rs → segment x → Forall segment (rs ++ [x])) as Hsnoc by (intros; apply Forall_app; split; [done|by constructor]).
  assert (∀ rs otherwise, rs ≠ [] → Forall segment rs → [ModelTable.column_name (table :: (tuple_part <$> rs)) otherwise] = [column_path rs]) as Hcol
    by (intros; by rewrite column_name_path).
  induction t as [p|n ms IH|n o os IH|ts IH|ts _|ts len _|b] using ModelTable.DTy_ind'; intros rs key td Hr Hne Hs Htd Ha.
  - injection Htd as <-. eapply simple_agree; [done..| |exact Ha]. by apply (Hcol rs "value").
  - destruct (struct_types _ _ _ Htd) as (r & types & -> & Hall). apply nested_agree. intros x t' Hin.
    destruct (Hall x t' Hin) as (t & k & Hm & Ht). destruct (readable_struct _ _ Hr _ _ _ Hm) as [Hx Hrt].
    rewrite field_path_snoc by done. rewrite Forall_forall in IH.
    eapply (IH _ Hm _ k); [done|by destruct rs|by apply Hsnoc, plain_segment|done|].
    eapply agree_mono; [|exact Ha]. intros c Hc. apply ModelTable.created_struct. exists x, t, k. split; [done|].
    rewrite created_snoc in Hc. by rewrite (proj2 (proj2 (proj2 Hx))) in Hc.
  - assert (column_path rs ∈ created_at rs key (TyEnum n o os)) as Hopt by (apply ModelTable.created_enum; left; by rewrite column_name_path).
    destruct (enum_types _ _ _ _ Htd) as [->|(r & types & -> & Hall)].
    { cbn [build_value simple_enum]. rewrite (fetch_agree r1 r2); [done|]. rewrite column_of_path by done.
      eapply agree_mono; [|exact Ha]. by intros c ->%list_elem_of_singleton. }
    apply nested_agree. intros x t' Hin. rewrite field_path_snoc by done. destruct (Hall x t' Hin) as [[= -> ->]|(t & Hm & He & Ht)].
    { cbn [build_value simple_enum]. rewrite (fetch_agree r1 r2); [done|]. cbn [type_ref_text]. rewrite column_of_option by done.
      eapply agree_mono; [|exact Ha]. by intros c ->%list_elem_of_singleton. }
    destruct (readable_enum _ _ _ Hr _ _ Hm) as [Hx Hrt]. rewrite Forall_forall in IH.
    eapply (IH _ Hm _ key); [done|by destruct rs|by apply Hsnoc, plain_segment|done|].
    eapply agree_mono; [|exact Ha]. intros c Hc. apply ModelTable.created_enum. right. exists x, t. split_and!; [done..|].
    rewrite created_snoc in Hc. by rewrite (proj2 (proj2 (proj2 Hx))) in Hc.
  - destruct (tuple_types _ _ Htd) as (r & types & -> & Hall). apply nested_agree. intros x t' Hin.
    destruct (Hall x t' Hin) as (i & t & -> & Hi & Ht). destruct (readable_tuple _ Hr) as [Hl Hrt].
    assert (Z.of_nat i ≤ u64_max) as Hu by (apply lookup_lt_Some in Hi; lia).
    rewrite field_path_snoc by done. rewrite Forall_forall in IH.
    eapply (IH t (list_elem_of_lookup_2 _ _ _ Hi) _ key); [by eapply Hrt|by destruct rs|by apply Hsnoc, tuple_segment|done|].
    eapply agree_mono; [|exact Ha]. intros c Hc. apply ModelTable.created_tuple. exists i, t. split; [done|].
    rewrite created_snoc in Hc. by rewrite tuple_part_name in Hc.
  - cbn in Htd. destruct ts as [|t ts]; [done|]. destruct (types_of t) as [t1|?|]; [|done..]. injection Htd as <-.
    cbn [build_value]. rewrite (fetch_agree r1 r2); [done|]. rewrite column_of_path by done.
    eapply agree_mono; [|exact Ha]. unfold ModelTable.created. cbn. rewrite column_name_path by done. done.
  - done.
  - injection Htd as <-. eapply simple_agree; [done..| |exact Ha]. by apply (Hcol rs "value").
Qed.
End columns.

Section column_theorems.
Context `{JsonNumber} {MT : ModelTypes} {MS : ModelTypesSpec} `{Sqlx} `{Chrono} {TT : TyText}.

Lemma build_types_elem {E} namespace n ms types : build_type_mapping (E := E) namespace (TyStruct n ms) = Ok types →
  ∀ x t', (x, t') ∈ types → ∃ t k, (x, t, k) ∈ ms ∧ member_to_type_data (E := E) namespace t = Ok t'.
Proof.
  cbn [build_type_mapping]. destruct (outcome_mapM _ ms) as [l|?|] eqn:Hl; [|done..]. cbn. intros [= <-] x t' Hin%collect_map_elem.
  revert l Hl Hin. induction ms as [|[[x' t] k] ms IH]; intros l Hl Hin; cbn in Hl; [injection Hl as <-; by apply elem_of_nil in Hin|].
  destruct (member_to_type_data namespace t) as [t1|?|] eqn:Ht; [|done..]. cbn in Hl.
  match type of Hl with outcome_bind ?l _ = _ => destruct l as [rest|?|] eqn:Hr end; [|done..]. cbn in Hl. injection Hl as <-.
  apply elem_of_cons in Hin as [[= -> ->]|Hin]; [exists t, k; split; [left|done]|].
  destruct (IH _ eq_refl Hin) as (t2 & k2 & Hin2 & Ht2). exists t2, k2. split; [by right|done].
Qed.


(** An array of a fixed size is looked for in columns that are not created: the column of
    its elements is asked for, while the table has one column of the name of the member. *)
Theorem fixed_array_not_found namespace (x : string) (t : DTy) (len : Z) (ty : TypeData) (row : SqliteRow) (e : SqlxError) :
  plain_name x → member_to_type_data (E := unit) namespace t = Ok ty → row_string row (x +:+ ".elements") = inl e →
  ∃ types, build_type_mapping (E := unit) namespace (TyStruct "M" [(x, TyFixedSizeArray [t] len, false)]) = Ok types ∧
    value_mapping_from_row row types false false = Err (QDatabase e).
Proof.
  intros (Hne & Ho & Hf & Hp) Ht He.
  exists [(x, TDNested (nested_name namespace (TyFixedSizeArray [t] len)) [("elements", TDList ty); ("size", TDSimple (TNamed "u32"))])].
  split; [cbn; by rewrite Ht|]. unfold value_mapping_from_row. cbn [build_value outcome_bind].
  unfold fetch_value. rewrite (other_names "String") by (right; right; by left). cbn [String.eqb Ascii.eqb Bool.eqb].
  replace (column_of (field_path x "elements") "String" false false) with (x +:+ ".elements"); [by rewrite He|].
  unfold field_path. rewrite (proj2 (String.eqb_neq _ _)) by done. symmetry.
  assert (segment "elements") as Hel by (split_and!; [cbn; by repeat split|done..]).
  change (x +:+ "." +:+ "elements") with (SqlString.join "." [x; "elements"]). rewrite column_of_path; [|done|].
  - unfold column_path. cbn [fmap list_fmap]. by rewrite Hp.
  - constructor; [by apply plain_segment|by constructor].
Qed.
End column_theorems.

(** ** Witnesses *)
#[local] Existing Instance demo_number.
#[local] Existing Instance demo_env.
Definition demo_prims_named : list (string * Prim) :=
  [("i8", PrimI8 None); ("i16", PrimI16 None); ("i32", PrimI32 None); ("i64", PrimI64 None); ("i128", PrimI128 None);
   ("u8", PrimU8 None); ("u16", PrimU16 None); ("u32", PrimU32 None); ("u64", PrimU64 None); ("u128", PrimU128 None);
   ("u256", PrimU256 None); ("bool", PrimBool None); ("felt252", PrimFelt252 None); ("ClassHash", PrimClassHash None);
   ("ContractAddress", PrimContractAddress None); ("EthAddress", PrimEthAddress None)].
Definition demo_prim_name (p : Prim) : string :=
  match p with
  | PrimI8 _ => "i8" | PrimI16 _ => "i16" | PrimI32 _ => "i32" | PrimI64 _ => "i64" | PrimI128 _ => "i128"
  | PrimU8 _ => "u8" | PrimU16 _ => "u16" | PrimU32 _ => "u32" | PrimU64 _ => "u64" | PrimU128 _ => "u128" | PrimU256 _ => "u256"
  | PrimBool _ => "bool" | PrimFelt252 _ => "felt252" | PrimClassHash _ => "ClassHash"
  | PrimContractAddress _ => "ContractAddress" | PrimEthAddress _ => "EthAddress"
  end.
Definition demo_kind (p : Prim) : SqlType := if takes_number p then ModelTable.SqlInteger else ModelTable.SqlText.
#[local] Instance demo_types : ModelTypes := {|
  prim_name := demo_prim_name; prim_from_name s := im_get s demo_prims_named; prim_sql_kind := demo_kind;
  prim_from_number p _ := Some p; prim_from_text p _ := Some p; prim_sql_text _ := "0x5"; ty_name _ := "T"; to_snake := id;
  value_from_json _ := None
|}.
#[local] Instance demo_types_spec : ModelTypesSpec.
Proof.
  split.
  - intros p. destruct p; eexists; (split; [reflexivity|]); (split; [reflexivity|]); split; intros [b Hb]; try discriminate Hb; eauto.
  - intros name [->|[->|[->|[->| ->]]]]; reflexivity.
  - by intros [].
Qed.
#[local] Instance demo_ty_text : TyText := {|
  prim_sql_type := demo_kind; prim_sql_value _ := "0x5"; enum_sql_value _ _ _ := "A"; values_json _ := inr "[]"
|}.
Definition demo_row : Type := list (string * string).
#[local] Instance demo_rows_sqlx : Sqlx := {|
  SqliteRow := demo_row; SqlxError := unit; sqlx_text _ := "no such column";
  row_string r c := match im_get c r with Some s => inr s | None => inl tt end;
  row_int _ r c := match im_get c r with Some s => inr (Z.of_nat (String.length s)) | None => inl tt end;
  row_bool _ _ := inl tt; row_time _ _ := inl tt; row_f64 _ _ := inl tt; row_null _ _ := inl tt
|}.
#[local] Instance demo_times : Chrono := {| second_in_range _ := true; to_rfc3339 _ := EmptyString; parse_from_rfc3339 _ := None |}.

Definition demo_where : GValue := VObject [("amountGTE", VString "5")].

Definition demo_members : list (string * DTy * bool) :=
  [("player", TyPrimitive (PrimFelt252 None), true);
   ("pos", TyStruct "Vec2" [("x", TyPrimitive (PrimU8 None), false); ("y", TyPrimitive (PrimU8 None), false)], false);
   ("pair", TyTuple [TyPrimitive (PrimU8 None); TyByteArray EmptyString], false);
   ("state", TyEnum "State" None [("Idle", TyTuple []); ("Moving", TyPrimitive (PrimU8 None))], false)].
Definition demo_columns : demo_row :=
  [("player", "0x0007"); ("pos.x", "a"); ("pos.y", "aa"); ("pair.0", "aaa"); ("pair.1", "text"); ("state", "Moving"); ("state.Moving", "a");
   ("internal_entity_id", "0x1")].
End GqlTypes.
