(* ===== verification/GraphqlTokens.v ===== *)
(** * Tokens of the GraphQL server ([crates/graphql/src/object/erc])

    The connections of token balances, transfers and tokens: the statements they run, the
    nodes they make of the rows, and the nodes sent to subscribers of balances and tokens.

    The JSON of metadata is a parameter. *)

From S2P Require Import Prelude Proto SqlString SqlText Executor ModelTable Wire Messages Aggregator Matching Messaging TypedData.
From S2P Require Import Fetcher World Storage StorageWrites Query Rows Reads Erc StaticFiles GraphqlQuery.
From stdpp Require Import pretty.
From Stdlib Require Import Ascii.
Local Open Scope Z_scope.
Local Open Scope torii_scope.

(** [serde_json::Value] of the metadata of a token *)
Class MetadataJson : Type := {
  MetaJson : Type;
  meta_from_str : string → option MetaJson;
  meta_get : MetaJson → string → option MetaJson;
  meta_text : MetaJson → string
}.

Module GqlTokens.
Import Msg Query Reads TypedData Gql.

(** ** Nodes *)
Record Erc20Token : Type := mkErc20 {
  e20_name : string; e20_symbol : string; e20_decimals : Z; e20_contract_address : string; e20_amount : string
}.
(** The fields of the metadata: the text, the name, the description, the attributes and
    the path of the image. *)
Record TokenMeta : Type := mkMeta {
  meta_str : string; meta_name : option string; meta_description : option string; meta_attributes : option string;
  meta_image_path : string
}.
Record Erc721Token : Type := mkErc721 {
  e721_name : string; e721_symbol : string; e721_token_id : string; e721_contract_address : string; e721_meta : TokenMeta
}.
Record Erc1155Token : Type := mkErc1155 {
  e1155_name : string; e1155_symbol : string; e1155_token_id : string; e1155_contract_address : string; e1155_amount : string;
  e1155_meta : TokenMeta
}.
Inductive ErcTokenType : Type :=
| Erc20 (token : Erc20Token)
| Erc721 (token : Erc721Token)
| Erc1155 (token : Erc1155Token).
Record ConnectionEdge (A : Type) : Type := mkEdge { edge_node : A; edge_cursor : string }.
Record Connection (A : Type) : Type := mkConn { conn_total : Z; conn_edges : list (ConnectionEdge A); conn_page : PageInfo }.
Record TokenTransferNode : Type := mkTransferNode {
  node_from : string; node_to : string; node_executed_at : string; node_token : ErcTokenType; node_transaction_hash : string
}.

Section values.
Context `{JsonNumber}.
Definition or_null (o : option string) : GValue := match o with Some s => VString s | None => VNull end.
Definition meta_values (m : TokenMeta) : ValueMapping :=
  [("metadata", VString (meta_str m)); ("metadataName", or_null (meta_name m)); ("metadataDescription", or_null (meta_description m));
   ("metadataAttributes", or_null (meta_attributes m)); ("imagePath", VString (meta_image_path m))].
(** The value with the name of its type. *)
Definition to_field_value (t : ErcTokenType) : GValue * string :=
  match t with
  | Erc20 t =>
      (VObject [("name", VString (e20_name t)); ("symbol", VString (e20_symbol t));
                ("decimals", VNumber (number_from_int (e20_decimals t)));
                ("contractAddress", VString (e20_contract_address t)); ("amount", VString (e20_amount t))], "ERC20__Token")
  | Erc721 t =>
      (VObject ([("name", VString (e721_name t)); ("symbol", VString (e721_symbol t)); ("tokenId", VString (e721_token_id t));
                 ("contractAddress", VString (e721_contract_address t))] ++ meta_values (e721_meta t)), "ERC721__Token")
  | Erc1155 t =>
      (VObject ([("name", VString (e1155_name t)); ("symbol", VString (e1155_symbol t)); ("tokenId", VString (e1155_token_id t));
                 ("contractAddress", VString (e1155_contract_address t)); ("amount", VString (e1155_amount t))] ++
                meta_values (e1155_meta t)), "ERC1155__Token")
  end.
End values.

(** ** Rows *)
Record BalanceQueryResultRaw : Type := mkBalanceRow {
  br_id : string; br_contract_address : string; br_name : string; br_symbol : string; br_decimals : Z; br_token_id : string;
  br_balance : string; br_contract_type : string; br_metadata : string
}.
Record TransferQueryResultRaw : Type := mkTransferRow {
  tr_id : string; tr_contract_address : string; tr_from_address : string; tr_to_address : string; tr_token_id : string;
  tr_amount : string; tr_executed_at : string; tr_name : string; tr_symbol : string; tr_decimals : Z; tr_contract_type : string;
  tr_metadata : string
}.

Section nodes.
Context {MJ : MetadataJson} `{SqlString.FeltFromStr} `{Sqlx}.

Definition balance_from_row (row : SqliteRow) : outcome QError BalanceQueryResultRaw :=
  let? id := db (row_string row "id") in
  let? contract_address := db (row_string row "contract_address") in
  let? name := db (row_string row "name") in
  let? symbol := db (row_string row "symbol") in
  let? decimals := db (row_int U8 row "decimals") in
  let? token_id := db (row_string row "token_id") in
  let? balance := db (row_string row "balance") in
  let? contract_type := db (row_string row "contract_type") in
  let? metadata := db (row_string row "metadata") in
  Ok (mkBalanceRow id contract_address name symbol decimals token_id balance contract_type metadata).
Definition transfer_from_row (row : SqliteRow) : outcome QError TransferQueryResultRaw :=
  let? id := db (row_string row "id") in
  let? contract_address := db (row_string row "contract_address") in
  let? from_address := db (row_string row "from_address") in
  let? to_address := db (row_string row "to_address") in
  let? token_id := db (row_string row "token_id") in
  let? amount := db (row_string row "amount") in
  let? executed_at := db (row_string row "executed_at") in
  let? name := db (row_string row "name") in
  let? symbol := db (row_string row "symbol") in
  let? decimals := db (row_int U8 row "decimals") in
  let? contract_type := db (row_string row "contract_type") in
  let? metadata := db (row_string row "metadata") in
  Ok (mkTransferRow id contract_address from_address to_address token_id amount executed_at name symbol decimals contract_type metadata).

(** ** The nodes of rows *)
Definition no_meta : TokenMeta := mkMeta EmptyString None None None EmptyString.
Definition meta_field (metadata : MetaJson) (field : string) : option string := (λ v, trim_quotes (meta_text v)) <$> meta_get metadata field.
Definition meta_of (metadata_str image_path : string) (metadata : MetaJson) : TokenMeta :=
  mkMeta metadata_str (meta_field metadata "name") (meta_field metadata "description") (meta_field metadata "attributes") image_path.
Definition not_json : string := "Failed to parse metadata as JSON".
Definition parse_meta (metadata_str image_path : string) : outcome string TokenMeta :=
  let? metadata := ok_or not_json (meta_from_str metadata_str) in Ok (meta_of metadata_str image_path metadata).
(** [contract_address:token_id] *)
Definition colon : ascii := ":"%char.
Definition token_id_parts (token_id : string) : outcome string (string * string) :=
  match SqlString.split colon token_id with
  | [contract_address; id] => Ok (contract_address, id)
  | _ => Err ("Invalid token_id format: " +:+ token_id)
  end.
Definition image_path (contract_address id : string) : string := contract_address +:+ "/" +:+ id +:+ "/" +:+ "image".

Definition token_balance_mapping_from_row (row : BalanceQueryResultRaw) : outcome string ErcTokenType :=
  let kind := to_lowercase (br_contract_type row) in
  if String.eqb kind "erc20" then
    Ok (Erc20 (mkErc20 (br_name row) (br_symbol row) (br_decimals row) (br_contract_address row) (br_balance row)))
  else if String.eqb kind "erc721" then
    let? (contract_address, id) := token_id_parts (br_token_id row) in
    let? meta := if String.eqb (br_metadata row) EmptyString then Ok no_meta
                 else parse_meta (br_metadata row) (image_path contract_address id) in
    Ok (Erc721 (mkErc721 (br_name row) (br_symbol row) id (br_contract_address row) meta))
  else if String.eqb kind "erc1155" then
    let? (contract_address, id) := token_id_parts (br_token_id row) in
    let? meta := if String.eqb (br_metadata row) EmptyString then Ok no_meta
                 else parse_meta (br_metadata row) (image_path contract_address id) in
    Ok (Erc1155 (mkErc1155 (br_name row) (br_symbol row) id (br_contract_address row) (br_balance row) meta))
  else Err ("Unknown contract type: " +:+ br_contract_type row).

(** The metadata of an ERC-721 token that is empty is parsed all the same. *)
Definition token_transfer_mapping_from_row (row : TransferQueryResultRaw) : outcome string TokenTransferNode :=
  let? (_, transaction_hash, _, _) := unwrap (SqlString.parse_event_id (tr_id row)) in
  let transaction_hash := SqlString.felt_to_sql_string transaction_hash in
  let node token := mkTransferNode (tr_from_address row) (tr_to_address row) (tr_executed_at row) token transaction_hash in
  let kind := to_lowercase (tr_contract_type row) in
  if String.eqb kind "erc20" then
    Ok (node (Erc20 (mkErc20 (tr_name row) (tr_symbol row) (tr_decimals row) (tr_contract_address row) (tr_amount row))))
  else if String.eqb kind "erc721" then
    let? (contract_address, id) := token_id_parts (tr_token_id row) in
    let? meta := parse_meta (tr_metadata row) (image_path contract_address id) in
    Ok (node (Erc721 (mkErc721 (tr_name row) (tr_symbol row) id (tr_contract_address row) meta)))
  else if String.eqb kind "erc1155" then
    let? (contract_address, id) := token_id_parts (tr_token_id row) in
    let? meta := if String.eqb (tr_metadata row) EmptyString then Ok (mkMeta (tr_metadata row) None None None EmptyString)
                 else parse_meta (tr_metadata row) (image_path contract_address id) in
    Ok (node (Erc1155 (mkErc1155 (tr_name row) (tr_symbol row) id (tr_contract_address row) (tr_amount row) meta)))
  else Err ("Unknown contract type: " +:+ tr_contract_type row).

(** [row.get(column)] panics when the column cannot be read *)
Definition get {E A} (r : SqlxError + A) : outcome E A := match r with inr a => Ok a | inl _ => Panic end.
(** [id.replace(":", "/")] *)
Fixpoint colon_to_slash (s : string) : string :=
  match s with
  | EmptyString => EmptyString
  | String c s => String (if Ascii.eqb c colon then slash else c) (colon_to_slash s)
  end.
(** The metadata of a row of tokens: text that is not JSON panics. *)
Definition row_meta {E} (row : SqliteRow) (id : string) : outcome E TokenMeta :=
  let? metadata_str := get (row_string row "metadata") in
  if String.eqb metadata_str EmptyString then Ok no_meta
  else let? metadata := unwrap (meta_from_str metadata_str) in
       Ok (meta_of metadata_str (colon_to_slash id +:+ "/image") metadata).
(** [None]: the type of the contract is not known *)
Definition token_of_row {E} (row : SqliteRow) : outcome E (option ErcTokenType) :=
  let? contract_type := get (row_string row "contract_type") in
  let kind := to_lowercase contract_type in
  if String.eqb kind "erc20" then
    let? contract_address := get (row_string row "contract_address") in
    let? name := get (row_string row "name") in
    let? symbol := get (row_string row "symbol") in
    let? decimals := get (row_int U8 row "decimals") in
    Ok (Some (Erc20 (mkErc20 name symbol decimals contract_address "0")))
  else if String.eqb kind "erc721" || String.eqb kind "erc1155" then
    let? id := get (row_string row "id") in
    let? token_id := unwrap (SqlString.split colon id !! 1%nat) in
    let? meta := row_meta row id in
    let? name := get (row_string row "name") in
    let? contract_address := get (row_string row "contract_address") in
    let? symbol := get (row_string row "symbol") in
    Ok (Some (if String.eqb kind "erc721" then Erc721 (mkErc721 name symbol token_id contract_address meta)
              else Erc1155 (mkErc1155 name symbol token_id contract_address "0" meta)))
  else Ok None.
Definition create_token_metadata_from_row (row : SqliteRow) : outcome QError ErcTokenType :=
  let? token := token_of_row row in ok_or QRowNotFound token.
End nodes.

(** ** Statements and fields *)
Definition TOKEN_BALANCE_TABLE : string := "token_balances".
Definition TOKEN_TRANSFER_TABLE : string := "token_transfers".
Definition balance_columns : string :=
  "SELECT b.id, t.contract_address, t.name, t.symbol, t.decimals, b.balance, b.token_id, t.metadata, c.contract_type".
Definition balances_statement : string :=
  balance_columns +:+ newline_spaces 9 +:+ "FROM " +:+ TOKEN_BALANCE_TABLE +:+ " b" +:+ newline_spaces 9 +:+
  "JOIN tokens t ON b.token_id = t.id" +:+ newline_spaces 9 +:+ "JOIN contracts c ON t.contract_address = c.contract_address".
Definition balances_conditions : list string :=
  ["(b.account_address = ?)";
   "(t.token_id IS NULL OR b.balance != '0x0000000000000000000000000000000000000000000000000000000000000000')"].
Definition transfers_statement : string :=
  SqlString.join (newline_spaces 0)
    [""; "SELECT"; "    et.id,"; "    et.contract_address,"; "    et.from_address,"; "    et.to_address,"; "    et.amount,";
     "    et.token_id,"; "    et.executed_at,"; "    t.name,"; "    t.symbol,"; "    t.decimals,"; "    c.contract_type,"; "    t.metadata";
     "FROM"; "    " +:+ TOKEN_TRANSFER_TABLE +:+ " et"; "JOIN"; "    tokens t ON et.token_id = t.id"; "JOIN";
     "    contracts c ON t.contract_address = c.contract_address"; ""].
Definition transfers_conditions : list string :=
  ["(et.from_address = ? OR et.to_address = ?)"; "(t.metadata IS NULL OR length(t.metadata) > 0)"].
Definition tokens_statement : string :=
  "SELECT t.*, c.contract_type " +:+ newline_spaces 20 +:+ "FROM tokens t " +:+ newline_spaces 20 +:+
  "JOIN contracts c ON t.contract_address = c.contract_address".
Definition token_statement : string :=
  "SELECT t.*, c.contract_type " +:+ newline_spaces 35 +:+ "FROM tokens t " +:+ newline_spaces 35 +:+
  "JOIN contracts c ON t.contract_address = c.contract_address " +:+ newline_spaces 35 +:+ "WHERE t.id = ?".

Section fields.
Context `{JsonNumber} {GE : GraphqlEnv} {MJ : MetadataJson} `{SqlString.FeltFromStr} `{Sqlx} {PL : Pool} {UT : UncheckedText}.

(** The page of a join: the conditions of the cursor name the column without its table. *)
Definition joined_page (statement : string) (binds conditions : list string) (alias first_column : string) (c : ConnectionArguments)
    (total_count : Z) : outcome QError (list SqliteRow * PageInfo) :=
  let? cursors := cursor_conditions_of (erc_handle_cursor ID_COLUMN) c in
  let? data := db (fetch_all (statement +:+ clause_text " WHERE " " AND " (conditions ++ cursors) +:+
                              page_text None (alias +:+ "." +:+ ID_COLUMN) c) binds) in
  connection_page (row_cursor first_column first_column) (row_cursor ID_COLUMN ID_COLUMN) c total_count data.
Definition fetch_token_balances (address : Felt) (c : ConnectionArguments) (total_count : Z) : outcome QError (list SqliteRow * PageInfo) :=
  joined_page balances_statement [SqlString.felt_to_sql_string address] balances_conditions "b" ("b." +:+ ID_COLUMN) c total_count.
Definition fetch_token_transfers (address : Felt) (c : ConnectionArguments) (total_count : Z) : outcome QError (list SqliteRow * PageInfo) :=
  joined_page transfers_statement [SqlString.felt_to_sql_string address; SqlString.felt_to_sql_string address] transfers_conditions "et" ID_COLUMN
    c total_count.
Definition fetch_tokens (contract_address : option string) (c : ConnectionArguments) (total_count : Z) : outcome QError (list SqliteRow * PageInfo) :=
  joined_page tokens_statement [] (option_list ((λ addr, "t.contract_address = '" +:+ addr +:+ "'") <$> contract_address)) "t" ID_COLUMN
    c total_count.

(** Rows that make no node are left out, with a warning. *)
Definition edges_of {R A} (from_row : SqliteRow → outcome QError R) (id : R → string) (node : R → outcome string A)
  : list SqliteRow → outcome QError (list (ConnectionEdge A)) :=
  fix go data := match data with
  | [] => Ok []
  | row :: data =>
      let? r := from_row row in
      match node r with
      | Ok n => let? rest := go data in Ok (mkEdge _ n (cursor_encode (id r) (id r)) :: rest)
      | Err _ => go data
      | Panic => Panic
      end
  end.
Definition token_balances_connection_output (data : list SqliteRow) (total_count : Z) (page_info : PageInfo)
  : outcome QError (Connection ErcTokenType) :=
  let? edges := edges_of balance_from_row br_id token_balance_mapping_from_row data in Ok (mkConn _ total_count edges page_info).
Definition token_transfers_connection_output (data : list SqliteRow) (total_count : Z) (page_info : PageInfo)
  : outcome QError (Connection TokenTransferNode) :=
  let? edges := edges_of transfer_from_row tr_id token_transfer_mapping_from_row data in Ok (mkConn _ total_count edges page_info).

Definition resolve_token_balances (args : ValueMapping) : outcome GError (Connection ErcTokenType) :=
  let? connection := parse_connection_arguments args in
  let? address := map_err GExtract (extract_felt args "accountAddress") in
  let filter := [mkFilter "account_address" Eq (FString (SqlString.felt_to_sql_string address))] in
  map_err GSql (
    let? total_count := count_rows TOKEN_BALANCE_TABLE None (Some filter) in
    let? (data, page_info) := fetch_token_balances address connection total_count in
    token_balances_connection_output data total_count page_info).
Definition resolve_token_transfers (args : ValueMapping) : outcome GError (Connection TokenTransferNode) :=
  let? connection := parse_connection_arguments args in
  let? address := map_err GExtract (extract_felt args "accountAddress") in
  map_err GSql (
    let? row := fetch_row ("SELECT COUNT(*) FROM " +:+ TOKEN_TRANSFER_TABLE +:+ " WHERE from_address = ? OR to_address = ?")
                  [SqlString.felt_to_sql_string address; SqlString.felt_to_sql_string address] in
    let? total_count := db (row_i64 row count_column) in
    let? (data, page_info) := fetch_token_transfers address connection total_count in
    token_transfers_connection_output data total_count page_info).

Definition token_edge (row : SqliteRow) : outcome QError (ConnectionEdge ErcTokenType) :=
  let? token_metadata := create_token_metadata_from_row row in
  let? id := get (row_string row "id") in
  Ok (mkEdge _ token_metadata (cursor_encode id id)).
Definition resolve_tokens (args : ValueMapping) : outcome GError (Connection ErcTokenType) :=
  let? connection := parse_connection_arguments args in
  let? contract_address := match im_get "contractAddress" args with
    | Some v => let? s := unwrap (as_string v) in Ok (Some s)
    | None => Ok None
    end in
  map_err GSql (
    let? row := fetch_row ("SELECT COUNT(*) as count FROM tokens t" +:+
      match contract_address with Some addr => " WHERE t.contract_address = '" +:+ addr +:+ "'" | None => EmptyString end) [] in
    let? total_count := get (row_i64 row "count") in
    let? (data, page_info) := fetch_tokens contract_address connection total_count in
    let? edges := outcome_mapM token_edge data in
    Ok (mkConn _ total_count edges page_info)).
Definition resolve_token (args : ValueMapping) : outcome GError (option ErcTokenType) :=
  let? token_id := ok_or (GMessage "Token ID is required") (im_get "id" args ≫= as_string) in
  map_err GSql (
    let? rows := db (fetch_all token_statement [token_id]) in
    match rows with
    | row :: _ => let? token := create_token_metadata_from_row row in Ok (Some token)
    | [] => Ok None
    end).

(** ** Subscriptions: what is sent for an update, if anything *)
Definition token_row_id (contract_address : Felt) (token_id : option U256) : string :=
  match token_id with
  | Some token_id => SqlString.felt_and_u256_to_sql_string contract_address token_id
  | None => SqlString.felt_to_sql_string contract_address
  end.
Definition balance_row_id (account_address contract_address : Felt) (token_id : option U256) : string :=
  SqlString.felt_to_sql_string account_address +:+ "/" +:+ token_row_id contract_address token_id.
Definition balance_statement : string :=
  balance_columns +:+ newline_spaces 40 +:+ "FROM " +:+ TOKEN_BALANCE_TABLE +:+ " b" +:+ newline_spaces 40 +:+
  "JOIN tokens t ON b.token_id = t.id" +:+ newline_spaces 40 +:+ "JOIN contracts c ON t.contract_address = c.contract_address" +:+
  newline_spaces 40 +:+ "WHERE b.id = ?".
Definition token_balance_updated (address : option Felt) (update : TokenBalance) : outcome unit (option ErcTokenType) :=
  if match address with Some addr => negb (balance_account_address update =? addr) | None => false end then Ok None
  else
    let id := balance_row_id (balance_account_address update) (balance_contract_address update) (Msg.balance_token_id update) in
    match fetch_row balance_statement [id] with
    | Ok row =>
        match balance_from_row row with
        | Ok row => match token_balance_mapping_from_row row with Ok t => Ok (Some t) | Err _ => Ok None | Panic => Panic end
        | Err _ => Ok None
        | Panic => Panic
        end
    | Err _ => Ok None
    | Panic => Panic
    end.
Definition updated_token_statement : string :=
  "SELECT t.*, c.contract_type " +:+ newline_spaces 47 +:+ "FROM tokens t " +:+ newline_spaces 47 +:+
  "JOIN contracts c ON t.contract_address = c.contract_address " +:+ newline_spaces 47 +:+ "WHERE t.id = ?".
Definition token_updated (update : Token) : outcome unit (option ErcTokenType) :=
  match fetch_row updated_token_statement [token_row_id (Msg.token_contract_address update) (Msg.token_token_id update)] with
  | Ok row => token_of_row row
  | Err _ => Ok None
  | Panic => Panic
  end.
End fields.

(** ** The nodes of one token *)
Definition meta_of_token (t : ErcTokenType) : option TokenMeta :=
  match t with Erc20 _ => None | Erc721 t => Some (e721_meta t) | Erc1155 t => Some (e1155_meta t) end.
Definition with_amount (amount : string) (t : ErcTokenType) : ErcTokenType :=
  match t with
  | Erc20 t => Erc20 (mkErc20 (e20_name t) (e20_symbol t) (e20_decimals t) (e20_contract_address t) amount)
  | Erc721 t => Erc721 t
  | Erc1155 t => Erc1155 (mkErc1155 (e1155_name t) (e1155_symbol t) (e1155_token_id t) (e1155_contract_address t) amount (e1155_meta t))
  end.
Definition is_nft_kind (contract_type : string) : bool :=
  String.eqb (to_lowercase contract_type) "erc721" || String.eqb (to_lowercase contract_type) "erc1155".
Definition known_kind (contract_type : string) : bool := String.eqb (to_lowercase contract_type) "erc20" || is_nft_kind contract_type.

Lemma token_id_split c id : 0 ≤ c < 16 ^ 64 → 0 ≤ id < 16 ^ 64 →
  SqlString.split colon (SqlString.felt_and_u256_to_sql_string c id) = [SqlString.felt_to_sql_string c; SqlString.u256_to_sql_string id].
Proof.
  intros Hc Hid. unfold SqlString.felt_and_u256_to_sql_string, SqlString.felt_to_sql_string, SqlString.u256_to_sql_string.
  rewrite (SqlString.split_sep colon) by (apply SqlString.format_hex_free; [by left|done]).
  by rewrite SqlString.split_free by (apply SqlString.format_hex_free; [by left|done]).
Qed.
Lemma colon_to_slash_free s : SqlString.free_of colon s → colon_to_slash s = s.
Proof.
  induction s as [|a s IH]; [done|]. intros [Ha Hs]. cbn [colon_to_slash]. rewrite IH by done.
  by rewrite (proj2 (Ascii.eqb_neq a colon)).
Qed.
Lemma colon_to_slash_app a b : colon_to_slash (a +:+ b) = colon_to_slash a +:+ colon_to_slash b.
Proof. induction a as [|x a IH]; [done|]. change (String x a +:+ b) with (String x (a +:+ b)). cbn [colon_to_slash]. by rewrite IH. Qed.
Lemma colon_to_slash_token c id : 0 ≤ c < 16 ^ 64 → 0 ≤ id < 16 ^ 64 →
  colon_to_slash (SqlString.felt_and_u256_to_sql_string c id) +:+ "/image" =
  image_path (SqlString.felt_to_sql_string c) (SqlString.u256_to_sql_string id).
Proof.
  intros Hc Hid. unfold SqlString.felt_and_u256_to_sql_string, image_path.
  rewrite !colon_to_slash_app, (colon_to_slash_free (SqlString.felt_to_sql_string c)), (colon_to_slash_free (SqlString.u256_to_sql_string id))
    by (apply SqlString.format_hex_free; [by left|done]).
  change (colon_to_slash ":") with "/". by rewrite !SqlString.append_assoc.
Qed.
Lemma prefix_app p s : String.prefix p (p +:+ s) = true.
Proof.
  induction p as [|a p IH]; [by destruct s|]. change (String a p +:+ s) with (String a (p +:+ s)). cbn [String.prefix].
  by destruct (ascii_dec a a).
Qed.
(** The path of an image is one the server takes as the image of that token. *)
Lemma image_path_target c id : 0 ≤ c < 16 ^ 64 → 0 ≤ id < 16 ^ 64 →
  Static.target (image_path (SqlString.felt_to_sql_string c) (SqlString.u256_to_sql_string id)) =
    Some ([SqlString.felt_to_sql_string c; SqlString.u256_to_sql_string id], SqlString.felt_and_u256_to_sql_string c id, Static.Image).
Proof.
  intros Hc Hid. unfold Static.target, image_path.
  rewrite (SqlString.split_sep "/"%char) by (apply SqlString.format_hex_free; [by right|done]).
  rewrite (SqlString.split_sep "/"%char) by (apply SqlString.format_hex_free; [by right|done]).
  rewrite (SqlString.split_free "/"%char "image") by (cbn; split_and!; done). unfold Erc.starts_with.
  unfold SqlString.felt_to_sql_string at 1, SqlString.u256_to_sql_string at 1, SqlString.format_hex. by rewrite !(prefix_app "0x").
Qed.

Section theorems.
Context `{JsonNumber} {GE : GraphqlEnv} {MJ : MetadataJson} `{SqlString.FeltFromStr} `{Sqlx} {PL : Pool} {UT : UncheckedText}.

Definition json_or_empty (metadata : string) : Prop := metadata = EmptyString ∨ is_Some (meta_from_str metadata).

(** A row of the tokens and a row of the balances of one token. *)
Record same_token (c : Felt) (id : option U256) (row : SqliteRow) (b : BalanceQueryResultRaw) : Prop := {
  st_id : row_string row "id" = inr (token_row_id c id);
  st_type : row_string row "contract_type" = inr (br_contract_type b);
  st_address : row_string row "contract_address" = inr (br_contract_address b);
  st_name : row_string row "name" = inr (br_name b);
  st_symbol : row_string row "symbol" = inr (br_symbol b);
  st_decimals : row_int U8 row "decimals" = inr (br_decimals b);
  st_metadata : row_string row "metadata" = inr (br_metadata b);
  st_token_id : br_token_id b = token_row_id c id
}.

(** The node of a token is the same wherever it is asked for: the one of a balance and
    the one of the list of tokens differ only in the amount, which the list gives as zero.
    The path of the image of an NFT is one under which the HTTP server serves the image of
    that token. It holds for a token whose metadata is empty or JSON. *)
Theorem token_nodes_agree (c : Felt) (id : option U256) (row : SqliteRow) (b : BalanceQueryResultRaw) :
  same_token c id row b → 0 ≤ c < 16 ^ 64 → (∀ i, id = Some i → 0 ≤ i < 16 ^ 64) →
  known_kind (br_contract_type b) = true → (is_nft_kind (br_contract_type b) = true → id ≠ None) → json_or_empty (br_metadata b) →
  ∃ t, token_balance_mapping_from_row b = Ok t ∧ create_token_metadata_from_row row = Ok (with_amount "0" t) ∧
    (∀ m i, meta_of_token t = Some m → id = Some i → br_metadata b ≠ EmptyString →
       Static.target (meta_image_path m) = Some ([SqlString.felt_to_sql_string c; SqlString.u256_to_sql_string i], token_row_id c id, Static.Image)).
Proof.
  intros [Hid Hty Had Hna Hsy Hde Hme Htid] Hc Hi Hkind Hnft Hjson.
  unfold create_token_metadata_from_row, token_of_row, token_balance_mapping_from_row. rewrite Hty, Hid, Htid. cbn [get outcome_bind].
  unfold known_kind, is_nft_kind in *. set (k := to_lowercase (br_contract_type b)) in *.
  destruct (String.eqb k "erc20") eqn:H20.
  { rewrite Had, Hna, Hsy, Hde. cbn. eexists. split; [done|]. split; [done|]. by intros m i [=]. }
  destruct id as [i|]; [|by destruct (Hnft Hkind)]. cbn [token_row_id]. specialize (Hi i eq_refl).
  unfold token_id_parts, row_meta. rewrite token_id_split by done. cbn [lookup list_lookup unwrap outcome_bind].
  rewrite Hme, Had, Hna, Hsy. cbn [get outcome_bind]. rewrite colon_to_slash_token by done. unfold parse_meta.
  assert (∀ meta m, Some meta = Some m → meta_image_path meta = image_path (SqlString.felt_to_sql_string c) (SqlString.u256_to_sql_string i) →
    Static.target (meta_image_path m) = Some ([SqlString.felt_to_sql_string c; SqlString.u256_to_sql_string i], token_row_id c (Some i), Static.Image)) as Himg.
  { intros meta m [= <-] ->. by apply image_path_target. }
  cbn [orb] in Hkind. destruct (String.eqb k "erc721") eqn:H721; [|destruct (String.eqb k "erc1155") eqn:H1155; [|done]]; cbn [orb];
    (destruct (String.eqb_spec (br_metadata b) EmptyString) as [He|He]; [|destruct Hjson as [|[j Hj]]; [done|]; rewrite Hj]); cbn;
    eexists; split_and!; try done; intros m i' Hm [= <-] Hne; try done; by eapply Himg.
Qed.

(** ** What cannot be read *)

(** The row of an NFT contract itself, which the indexer stores under the address alone,
    has no second part to its identifier. *)
Definition nft_contract_row (row : SqliteRow) : Prop :=
  ∃ c contract_type, 0 ≤ c < 16 ^ 64 ∧ row_string row "id" = inr (SqlString.felt_to_sql_string c) ∧
    row_string row "contract_type" = inr contract_type ∧ is_nft_kind contract_type = true.
Definition known_row (row : SqliteRow) : Prop :=
  ∃ contract_type, row_string row "contract_type" = inr contract_type ∧ known_kind contract_type = true.

Lemma nft_contract_panics {E} row : nft_contract_row row → token_of_row (E := E) row = Panic.
Proof.
  intros (c & contract_type & Hc & Hid & Hty & Hk). unfold token_of_row, is_nft_kind in *. rewrite Hty, Hid. cbn [get outcome_bind].
  set (k := to_lowercase contract_type) in *.
  destruct (String.eqb_spec k "erc20") as [->|_]; [done|]. rewrite Hk. unfold SqlString.felt_to_sql_string.
  rewrite SqlString.split_free by (apply SqlString.format_hex_free; [by left|done]). done.
Qed.
Lemma token_edge_never_fails row e : known_row row → token_edge row ≠ Err e.
Proof.
  intros (ty & Hty & Hk). unfold token_edge, create_token_metadata_from_row, token_of_row. rewrite Hty. cbn [get outcome_bind].
  unfold known_kind, is_nft_kind in Hk. set (k := to_lowercase ty) in *. unfold row_meta.
  destruct (String.eqb k "erc20"); cbn [orb] in Hk; [|rewrite Hk];
    repeat (match goal with |- context [get ?r] => destruct r | |- context [unwrap ?r] => destruct r
            | |- context [if String.eqb ?a EmptyString then _ else _] => destruct (String.eqb a EmptyString) end; cbn [get unwrap outcome_bind ok_or]; try done).
Qed.
Lemma mapM_panics_at {E A B} (f : A → outcome E B) l x : x ∈ l → f x = Panic → Forall (λ y, ∀ e, f y ≠ Err e) l → outcome_mapM f l = Panic.
Proof.
  induction l as [|y l IH]; [by intros ?%elem_of_nil|]. intros Hin Hx [Hy Hl]%Forall_cons. cbn.
  destruct (f y) as [b|e|] eqn:Hfy; [|by destruct (Hy e)|done]. cbn.
  apply elem_of_cons in Hin as [->|Hin]; [congruence|]. by rewrite IH.
Qed.

(** The list of tokens panics as soon as the page has the row of an NFT contract. *)
Theorem tokens_with_nft_contract_panic args connection count total data info row :
  parse_connection_arguments args = Ok connection → im_get "contractAddress" args = None →
  fetch_row "SELECT COUNT(*) as count FROM tokens t" [] = Ok count → row_i64 count "count" = inr total →
  fetch_tokens None connection total = Ok (data, info) →
  row ∈ data → nft_contract_row row → Forall known_row data → resolve_tokens args = Panic.
Proof.
  intros Hp Ha Hc Ht Hf Hin Hrow Hall. unfold resolve_tokens. rewrite Hp, Ha. cbn [outcome_bind].
  rewrite SqlString.append_nil_r, Hc. cbn [outcome_bind]. rewrite Ht. cbn [get outcome_bind]. rewrite Hf. cbn [outcome_bind].
  rewrite (mapM_panics_at token_edge data row); [done|done|..].
  - unfold token_edge, create_token_metadata_from_row. by rewrite nft_contract_panics.
  - eapply Forall_impl; [exact Hall|]. intros y Hy e. by apply token_edge_never_fails.
Qed.

Context {B64 : Base64Spec}.
Lemma slash_cursor_refused p s d : ¬ SqlString.free_of slash p →
  erc_handle_cursor ID_COLUMN (cursor_encode p s) d = Err (QDecode "Invalid cursor format").
Proof.
  intros Hp. unfold erc_handle_cursor, cursor_decode, cursor_encode. rewrite b64_round by apply string_bytes_range.
  cbn [ok_or outcome_bind]. destruct (valid_utf8 _); [|done]. rewrite string_bytes_string, cursor_parts.
  destruct (SqlString.split slash p) as [|x [|x' lp]] eqn:Hx.
  - by destruct (SqlString.split_ne_nil slash p).
  - destruct Hp. apply split_single. by rewrite Hx.
  - cbn [app]. pose proof (SqlString.split_ne_nil slash s) as Hs. by destruct lp, (SqlString.split slash s).
Qed.
Lemma slash_inside (a b : string) : ¬ SqlString.free_of slash (a +:+ String slash b).
Proof. induction a as [|x a IH]; [by intros [? _]|]. intros [_ Hr]. by apply IH. Qed.

(** The balances of an account cannot be read past their first page: every cursor the
    server gives with a balance is refused when it is given back, since the identifier of
    a balance has a slash. *)
Theorem balance_cursors_refused (data : list SqliteRow) (total_count : Z) (info : PageInfo) (conn : Connection ErcTokenType)
    (e : ConnectionEdge ErcTokenType) (address : Felt) (d : OrderDirection) (n : Z) :
  Forall (λ row, ∃ account c id, row_string row "id" = inr (balance_row_id account c id)) data →
  token_balances_connection_output data total_count info = Ok conn → e ∈ conn_edges _ conn →
  fetch_token_balances address (read_on d n (Some (edge_cursor _ e))) total_count = Err (QDecode "Invalid cursor format").
Proof.
  intros Hids Hout He.
  assert (∃ id, edge_cursor _ e = cursor_encode id id ∧ ¬ SqlString.free_of slash id) as (id & Hcur & Hid).
  { unfold token_balances_connection_output in Hout. destruct (edges_of _ _ _ data) as [edges|?|] eqn:Hed; [|done..].
    cbn in Hout. injection Hout as <-. cbn in He. revert edges Hed He.
    induction Hids as [|row data (account & c & tid & Hid) _ IH]; intros edges Hed He.
    { injection Hed as <-. by apply elem_of_nil in He. }
    cbn [edges_of] in Hed. destruct (balance_from_row row) as [r|?|] eqn:Hr; [|done..]. cbn in Hed.
    assert (br_id r = balance_row_id account c tid) as Hrid.
    { unfold balance_from_row in Hr. rewrite Hid in Hr. cbn in Hr.
      repeat match type of Hr with context [db ?x] => destruct x; [done|]; cbn in Hr end. by injection Hr as <-. }
    destruct (token_balance_mapping_from_row r) as [t|?|]; [|by eapply IH|done].
    destruct (edges_of _ _ _ data) as [rest|?|]; [|done..]. cbn in Hed. injection Hed as <-.
    apply elem_of_cons in He as [->|He]; [|by eapply IH].
    exists (br_id r). split; [done|]. rewrite Hrid. apply slash_inside. }
  unfold fetch_token_balances, joined_page, cursor_conditions_of.
  destruct d; cbn [read_on ca_after ca_before outcome_option outcome_bind]; by rewrite Hcur, slash_cursor_refused.
Qed.
End theorems.

(** ** Witnesses *)
#[local] Existing Instance Rows.named_sqlx.
#[local] Existing Instance demo_number.
#[local] Existing Instance demo_env.
#[local] Existing Instance demo_b64.
#[local] Existing Instance SqlString.hex_parser.
#[local] Instance demo_meta : MetadataJson := {| MetaJson := string; meta_from_str s := Some s; meta_get m k := Some (k +:+ m); meta_text := id |}.
#[local] Instance demo_unchecked_text : UncheckedText := {| row_unchecked := row_string |}.
#[local] Instance no_rows : Pool := {| fetch_all _ _ := inr [] |}.
Definition demo_token_columns : list (string * string) :=
  [("contract_type", "ERC721"); ("contract_address", "0x10"); ("name", "Beasts"); ("symbol", "BEAST"); ("decimals", "0"); ("metadata", "{}")].
Definition demo_token_row : @SqliteRow Rows.named_sqlx := ("id", token_row_id 16 (Some 7)) :: demo_token_columns.
Definition demo_balance_row : @SqliteRow Rows.named_sqlx :=
  [("id", balance_row_id 1 16 (Some 7)); ("token_id", token_row_id 16 (Some 7)); ("balance", "0x1")] ++ demo_token_columns.
Definition demo_balance : BalanceQueryResultRaw :=
  mkBalanceRow (balance_row_id 1 16 (Some 7)) "0x10" "Beasts" "BEAST" 0 (token_row_id 16 (Some 7)) "0x1" "ERC721" "{}".
Lemma token_nodes_agree_witness :
  ∃ t, token_balance_mapping_from_row demo_balance = Ok t ∧ create_token_metadata_from_row demo_token_row = Ok (with_amount "0" t).
Proof.
  destruct (token_nodes_agree 16 (Some 7) demo_token_row demo_balance) as (t & Hb & Hr & _);
    [by split; vm_compute|lia|intros i [= <-]; lia|done|done|right; by exists "{}"|]. by exists t.
Defined.
Definition demo_edge : ConnectionEdge ErcTokenType :=
  mkEdge _ (Erc721 (mkErc721 "Beasts" "BEAST" (SqlString.u256_to_sql_string 7) "0x10"
    (meta_of "{}" (image_path (SqlString.felt_to_sql_string 16) (SqlString.u256_to_sql_string 7)) "{}")))
    (cursor_encode (balance_row_id 1 16 (Some 7)) (balance_row_id 1 16 (Some 7))).
Lemma demo_output : token_balances_connection_output [demo_balance_row] 1 no_page = Ok (mkConn _ 1 [demo_edge] no_page).
Proof. reflexivity. Qed.
Lemma balance_cursors_refused_witness :
  fetch_token_balances 1 (read_on Desc 5 (Some (edge_cursor _ demo_edge))) 1 = Err (QDecode "Invalid cursor format").
Proof.
  eapply (balance_cursors_refused [demo_balance_row] 1 no_page _ demo_edge); [|exact demo_output|left].
  constructor; [|constructor]. exists 1, 16, (Some 7). reflexivity.
Defined.
End GqlTokens.
