(* ===== verification/GraphqlSchema.v ===== *)
(** * The schema of GraphQL ([crates/graphql/src/schema.rs], [mapping.rs], [object])

    The server builds its schema when it starts: the objects it knows, each with the types
    of its fields, and the objects of the models registered in the database. A field may
    only refer to a type that is registered too; [schema_complete] shows that this is so
    for any models, since the server does not start otherwise.

    What fields answer is in GraphqlObjects.v; here a field is its name, its type and its
    arguments. *)

From S2P Require Import Prelude Proto SqlString SqlText Executor ModelTable Wire Messages Aggregator Messaging TypedData Query GraphqlQuery GraphqlTypes.
From Stdlib Require Import Ascii.
Local Open Scope Z_scope.
Local Open Scope torii_scope.

(** [convert_case], [dojo_types::naming::get_tag], [str::to_uppercase], [Primitive::iter] and
    [serde_json::from_str::<Ty>] *)
Class SchemaEnv `{ModelTypes} : Type := {
  to_camel : string → string;
  to_pascal : string → string;
  get_tag : string → string → string;
  to_uppercase : string → string;
  primitive_iter : list Prim;
  schema_from_json : string → option DTy
}.
Class SchemaEnvSpec `{SchemaEnv} : Prop := {
  primitive_iter_all p : prim_name p ∈ prim_name <$> primitive_iter;
  u32_name : prim_name (PrimU32 None) = "u32"
}.

Module Schema.
Import Msg Query TypedData Gql GqlTypes.

(** ** Names ([constants.rs]) *)
Definition ENTITY_TYPE_NAME : string := "World__Entity".
Definition EVENT_MESSAGE_TYPE_NAME : string := "World__EventMessage".
Definition MODEL_TYPE_NAME : string := "World__Model".
Definition EVENT_TYPE_NAME : string := "World__Event".
Definition SOCIAL_TYPE_NAME : string := "World__Social".
Definition CONTENT_TYPE_NAME : string := "World__Content".
Definition METADATA_TYPE_NAME : string := "World__Metadata".
Definition PAGE_INFO_TYPE_NAME : string := "World__PageInfo".
Definition TRANSACTION_TYPE_NAME : string := "World__Transaction".
Definition CALL_TYPE_NAME : string := "World__Call".
Definition QUERY_TYPE_NAME : string := "World__Query".
Definition MUTATION_TYPE_NAME : string := "World__Mutation".
Definition SUBSCRIPTION_TYPE_NAME : string := "World__Subscription".
Definition MODEL_ORDER_TYPE_NAME : string := "World__ModelOrder".
Definition MODEL_ORDER_FIELD_TYPE_NAME : string := "World__ModelOrderField".
Definition TOKEN_BALANCE_TYPE_NAME : string := "Token__Balance".
Definition TOKEN_TRANSFER_TYPE_NAME : string := "Token__Transfer".
Definition TOKEN_UNION_TYPE_NAME : string := "ERC__Token".
Definition ERC20_TYPE_NAME : string := "ERC20__Token".
Definition ERC721_TYPE_NAME : string := "ERC721__Token".
Definition ERC1155_TYPE_NAME : string := "ERC1155__Token".
Definition ORDER_DIR_TYPE_NAME : string := "OrderDirection".
Definition EMPTY_TYPE_NAME : string := "World__Empty".
Definition CONTROLLER_TYPE_NAME : string := "World__Controller".
Definition PUBLISH_MESSAGE_RESPONSE_TYPE_NAME : string := "World__PublishMessageResponse".
Definition MODEL_UNION : string := "ModelUnion".

(** ** Types *)
(** [TypeRef::named], [named_nn], [named_list], [named_nn_list] *)
Definition named (n : string) : TypeRef := TNamed n.
Definition named_nn (n : string) : TypeRef := TNonNull (TNamed n).
Definition named_list (n : string) : TypeRef := TList (TNamed n).
Definition named_nn_list (n : string) : TypeRef := TNonNull (TList (TNamed n)).
(** [TypeRef::ID] and the others, [GraphqlType] *)
Definition ID : string := "ID".
Definition STRING : string := "String".
Definition INT : string := "Int".
Definition BOOLEAN : string := "Boolean".
Definition DATETIME : string := "DateTime".
Definition CURSOR : string := "Cursor".
Definition graphql_types : list string := ["ByteArray"; "Enum"; CURSOR; DATETIME].

Section mappings.
Context `{JsonNumber} {MT : ModelTypes}.
#[local] Abbreviation simple n t := ((n, TDSimple t) : string * TypeData).
Definition felt_name : string := prim_name (PrimFelt252 None).

(** ** The types of the fields ([mapping.rs]) *)
Definition ENTITY_TYPE_MAPPING : TypeMapping :=
  [simple "id" (named ID); simple "keys" (named_list STRING); simple "eventId" (named STRING); simple "executedAt" (named DATETIME);
   simple "createdAt" (named DATETIME); simple "updatedAt" (named DATETIME)].
Definition EVENT_TYPE_MAPPING : TypeMapping :=
  [simple "id" (named ID); simple "keys" (named_list STRING); simple "data" (named_list STRING); simple "executedAt" (named DATETIME);
   simple "createdAt" (named DATETIME); simple "transactionHash" (named STRING)].
Definition MODEL_TYPE_MAPPING : TypeMapping :=
  [simple "id" (named ID); simple "name" (named STRING); simple "namespace" (named STRING); simple "classHash" (named felt_name);
   simple "contractAddress" (named felt_name); simple "transactionHash" (named felt_name); simple "executedAt" (named DATETIME);
   simple "createdAt" (named DATETIME)].
Definition CALL_MAPPING : TypeMapping :=
  [simple "transactionHash" (named STRING); simple "contractAddress" (named STRING); simple "entrypoint" (named STRING);
   simple "calldata" (named_list STRING); simple "callType" (named STRING); simple "callerAddress" (named STRING)].
Definition TRANSACTION_MAPPING : TypeMapping :=
  [simple "id" (named ID); simple "transactionHash" (named felt_name); simple "senderAddress" (named felt_name);
   simple "calldata" (named_list felt_name); simple "maxFee" (named felt_name); simple "signature" (named_list felt_name);
   simple "nonce" (named felt_name); simple "executedAt" (named DATETIME); simple "createdAt" (named DATETIME);
   simple "blockNumber" (named INT)].
Definition PAGE_INFO_TYPE_MAPPING : TypeMapping :=
  [simple "hasPreviousPage" (named_nn BOOLEAN); simple "hasNextPage" (named_nn BOOLEAN); simple "startCursor" (named CURSOR);
   simple "endCursor" (named CURSOR)].
Definition SOCIAL_TYPE_MAPPING : TypeMapping := [simple "name" (named STRING); simple "url" (named STRING)].
Definition CONTENT_TYPE_MAPPING : TypeMapping :=
  [simple "name" (named STRING); simple "description" (named STRING); simple "website" (named STRING); simple "iconUri" (named STRING);
   simple "coverUri" (named STRING); simple "socials" (named_list SOCIAL_TYPE_NAME)].
Definition METADATA_TYPE_MAPPING : TypeMapping :=
  [simple "id" (named ID); simple "uri" (named STRING); simple "worldAddress" (named_nn STRING);
   ("content", TDNested (named CONTENT_TYPE_NAME) []); simple "iconImg" (named STRING); simple "coverImg" (named STRING);
   simple "executedAt" (named DATETIME); simple "createdAt" (named DATETIME); simple "updatedAt" (named DATETIME)].
Definition TOKEN_BALANCE_TYPE_MAPPING : TypeMapping := [("tokenMetadata", TDNested (named_nn TOKEN_UNION_TYPE_NAME) [])].
Definition TOKEN_TRANSFER_TYPE_MAPPING : TypeMapping :=
  [simple "from" (named_nn STRING); simple "to" (named_nn STRING); simple "executedAt" (named_nn STRING);
   ("tokenMetadata", TDNested (named_nn TOKEN_UNION_TYPE_NAME) []); simple "transactionHash" (named_nn STRING)].
Definition ERC20_TOKEN_TYPE_MAPPING : TypeMapping :=
  [simple "name" (named_nn STRING); simple "symbol" (named_nn STRING); simple "decimals" (named_nn INT);
   simple "contractAddress" (named_nn STRING); simple "amount" (named_nn STRING)].
Definition ERC721_TOKEN_TYPE_MAPPING : TypeMapping :=
  [simple "name" (named_nn STRING); simple "symbol" (named_nn STRING); simple "tokenId" (named_nn STRING);
   simple "contractAddress" (named_nn STRING); simple "metadata" (named_nn STRING); simple "metadataName" (named STRING);
   simple "metadataDescription" (named STRING); simple "metadataAttributes" (named STRING); simple "imagePath" (named_nn STRING)].
Definition ERC1155_TOKEN_TYPE_MAPPING : TypeMapping :=
  [simple "name" (named_nn STRING); simple "symbol" (named_nn STRING); simple "tokenId" (named_nn STRING);
   simple "contractAddress" (named_nn STRING); simple "amount" (named_nn STRING); simple "metadata" (named_nn STRING);
   simple "metadataName" (named STRING); simple "metadataDescription" (named STRING); simple "metadataAttributes" (named STRING);
   simple "imagePath" (named_nn STRING)].
Definition EMPTY_MAPPING : TypeMapping := [simple "id" (named ID)].
Definition CONTROLLER_MAPPING : TypeMapping :=
  [simple "id" (named ID); simple "username" (named_nn STRING); simple "address" (named_nn STRING); simple "deployedAt" (named_nn DATETIME)].
Definition TOKEN_TYPE_MAPPING : TypeMapping := [("tokenMetadata", TDNested (named_nn TOKEN_UNION_TYPE_NAME) [])].
Definition PUBLISH_MESSAGE_RESPONSE_MAPPING : TypeMapping := [simple "id" (named_nn STRING)].
Definition edge_mapping (type_name : string) : TypeMapping := [simple "node" (named type_name); simple "cursor" (named CURSOR)].
Definition connection_mapping (type_name : string) : TypeMapping :=
  [simple "edges" (named_list (type_name +:+ "Edge")); simple "totalCount" (named_nn INT);
   ("pageInfo", TDNested (named_nn PAGE_INFO_TYPE_NAME) [])].
End mappings.

(** ** What is registered *)
Record FieldDef : Type := mkField { fd_name : string; fd_type : TypeRef; fd_args : list (string * TypeRef) }.
Inductive Registered : Type :=
| RScalar (name : string)
| REnum (name : string) (items : list string)
| RInput (name : string) (fields : list (string * TypeRef))
| RUnion (name : string) (types : list string)
| RObject (name : string) (fields : list FieldDef).
(** [ObjectVariant]: what a [BasicObject] or a [ResolvableObject] registers *)
Record ObjectDef : Type := mkObjectDef {
  od_objects : list Registered;
  od_resolvers : list FieldDef;
  od_connections : list Registered;
  od_enums : list Registered;
  od_inputs : list Registered;
  od_subscriptions : list FieldDef
}.

(** [BasicObject::objects] *)
Definition basic_objects (type_name : string) (types : TypeMapping) (related : list FieldDef) : list Registered :=
  [RObject type_name (((λ '(field, t), mkField field (type_ref t) []) <$> types) ++ related)].
(** [EdgeObject::new], [ConnectionObject::new], [connection_objects] *)
Definition connection_objects (type_name : string) : list Registered :=
  basic_objects (type_name +:+ "Edge") (edge_mapping type_name) [] ++
  basic_objects (type_name +:+ "Connection") (connection_mapping type_name) [].
Definition basic (type_name : string) (types : TypeMapping) : ObjectDef :=
  mkObjectDef (basic_objects type_name types []) [] [] [] [] [].
Definition resolvable (type_name : string) (types : TypeMapping) (related resolvers : list FieldDef) (enums inputs : list Registered)
    (subscriptions : list FieldDef) : ObjectDef :=
  mkObjectDef (basic_objects type_name types related) resolvers (connection_objects type_name) enums inputs subscriptions.

(** [connection_arguments], [keys_argument], [order_argument], [where_argument] *)
Definition connection_arguments : list (string * TypeRef) :=
  [("first", named INT); ("last", named INT); ("before", named CURSOR); ("after", named CURSOR); ("offset", named INT); ("limit", named INT)].
Definition keys_argument : string * TypeRef := ("keys", named_list STRING).
Definition order_argument (type_name : string) : string * TypeRef := ("order", named (type_name +:+ "Order")).
Definition where_argument (type_name : string) : string * TypeRef := ("where", named (type_name +:+ "WhereInput")).

Section objects.
Context `{JsonNumber} {MT : ModelTypes} {SE : SchemaEnv} `{Sqlx}.

(** [resolve_one], [resolve_many], the fields they make *)
Definition one_field (id_column field_name type_name : string) : FieldDef :=
  mkField field_name (named_nn type_name) [(to_camel id_column, named_nn ID)].
Definition many_field (field_name type_name : string) (arguments : list (string * TypeRef)) : FieldDef :=
  mkField field_name (named (type_name +:+ "Connection")) (connection_arguments ++ arguments).

Definition entity_object : ObjectDef :=
  resolvable ENTITY_TYPE_NAME ENTITY_TYPE_MAPPING [mkField "models" (named_list MODEL_UNION) []]
    [one_field "id" "entity" ENTITY_TYPE_NAME; many_field "entities" ENTITY_TYPE_NAME [keys_argument]] [] []
    [mkField "entityUpdated" (named_nn ENTITY_TYPE_NAME) [("id", named ID)]].
Definition event_message_object : ObjectDef :=
  resolvable EVENT_MESSAGE_TYPE_NAME ENTITY_TYPE_MAPPING [mkField "models" (named_list MODEL_UNION) []]
    [one_field "id" "eventMessage" EVENT_MESSAGE_TYPE_NAME; many_field "eventMessages" EVENT_MESSAGE_TYPE_NAME [keys_argument]] [] []
    [mkField "eventMessageUpdated" (named_nn EVENT_MESSAGE_TYPE_NAME) [("id", named ID)]].
Definition event_object : ObjectDef :=
  resolvable EVENT_TYPE_NAME EVENT_TYPE_MAPPING [] [many_field "events" EVENT_TYPE_NAME [keys_argument]] [] []
    [mkField "eventEmitted" (named_nn EVENT_TYPE_NAME) [("keys", named_list STRING)]].
Definition metadata_object : ObjectDef :=
  resolvable METADATA_TYPE_NAME METADATA_TYPE_MAPPING [] [many_field "metadatas" METADATA_TYPE_NAME []] [] [] [].
Definition order_direction : Registered := REnum ORDER_DIR_TYPE_NAME ["ASC"; "DESC"].
Definition order_input (type_name : string) (field_type : string) : Registered :=
  RInput type_name [("direction", named_nn ORDER_DIR_TYPE_NAME); ("field", named_nn field_type)].
Definition model_object : ObjectDef :=
  resolvable MODEL_TYPE_NAME MODEL_TYPE_MAPPING []
    [one_field "id" "model" MODEL_TYPE_NAME; many_field "models" MODEL_TYPE_NAME [("order", named MODEL_ORDER_TYPE_NAME)]]
    [order_direction; REnum MODEL_ORDER_FIELD_TYPE_NAME ["NAME"; "CLASS_HASH"]]
    [order_input MODEL_ORDER_TYPE_NAME MODEL_ORDER_FIELD_TYPE_NAME]
    [mkField "modelRegistered" (named_nn MODEL_TYPE_NAME) [("id", named ID)]].
Definition transaction_object : ObjectDef :=
  resolvable TRANSACTION_TYPE_NAME TRANSACTION_MAPPING
    [mkField "calls" (named_list CALL_TYPE_NAME) []; mkField "tokenTransfers" (named_list TOKEN_TRANSFER_TYPE_NAME) []]
    [one_field "transaction_hash" "transaction" TRANSACTION_TYPE_NAME; many_field "transactions" TRANSACTION_TYPE_NAME []] [] []
    [mkField "transaction" (named_nn TRANSACTION_TYPE_NAME) [("hash", named ID); ("hasCaller", named STRING)]].
Definition erc_balance_object : ObjectDef :=
  resolvable TOKEN_BALANCE_TYPE_NAME TOKEN_BALANCE_TYPE_MAPPING []
    [mkField "tokenBalances" (named (TOKEN_BALANCE_TYPE_NAME +:+ "Connection")) ((to_camel "account_address", named_nn STRING) :: connection_arguments)] [] []
    [mkField "tokenBalanceUpdated" (named_nn TOKEN_BALANCE_TYPE_NAME) [("accountAddress", named STRING)]].
Definition erc_transfer_object : ObjectDef :=
  resolvable TOKEN_TRANSFER_TYPE_NAME TOKEN_TRANSFER_TYPE_MAPPING []
    [mkField "tokenTransfers" (named (TOKEN_TRANSFER_TYPE_NAME +:+ "Connection")) ((to_camel "account_address", named_nn STRING) :: connection_arguments)] [] [] [].
Definition controller_object : ObjectDef :=
  resolvable CONTROLLER_TYPE_NAME CONTROLLER_MAPPING []
    [one_field "id" "controller" CONTROLLER_TYPE_NAME; many_field "controllers" CONTROLLER_TYPE_NAME []] [] [] [].
Definition token_object : ObjectDef :=
  resolvable "Token" TOKEN_TYPE_MAPPING []
    [mkField "tokens" (named_nn ("Token" +:+ "Connection")) (("contractAddress", named STRING) :: connection_arguments);
     mkField "token" (named_nn "Token") [("id", named_nn STRING)]] [] []
    [mkField "tokenUpdated" (named_nn "Token") []].
Definition predefined_objects : list ObjectDef :=
  [entity_object; event_message_object; event_object; metadata_object; model_object; transaction_object; erc_balance_object;
   erc_transfer_object; controller_object; token_object; basic SOCIAL_TYPE_NAME SOCIAL_TYPE_MAPPING;
   basic CONTENT_TYPE_NAME CONTENT_TYPE_MAPPING; basic PAGE_INFO_TYPE_NAME PAGE_INFO_TYPE_MAPPING;
   basic ERC721_TYPE_NAME ERC721_TOKEN_TYPE_MAPPING; basic ERC20_TYPE_NAME ERC20_TOKEN_TYPE_MAPPING;
   basic ERC1155_TYPE_NAME ERC1155_TOKEN_TYPE_MAPPING; basic EMPTY_TYPE_NAME EMPTY_MAPPING; basic CALL_TYPE_NAME CALL_MAPPING].

(** ** The objects of a model ([object/model_data.rs]) *)
Record ModelDataObject : Type := mkModelData {
  md_name : string; md_plural_name : string; md_type_name : string; md_type_mapping : TypeMapping; md_schema : DTy;
  md_where_input : WhereInputObject; md_order_type_name : string
}.
Definition model_data_new (name type_name : string) (type_mapping : TypeMapping) (schema : DTy) : ModelDataObject :=
  mkModelData name (name +:+ "Models") type_name type_mapping schema (where_input_new type_name type_mapping) (type_name +:+ "Order").

Definition field_name_from_names (namespace model_name : string) : string := to_camel namespace +:+ to_pascal model_name.
Definition type_name_from_names (namespace model_name : string) : string := namespace +:+ "_" +:+ model_name.
(** The namespace and the model are taken from the name of the type again. *)
Definition split_type_name (type_name : string) : string * string :=
  let parts := SqlString.split "_"%char type_name in (SqlString.join "_" (pop parts), default EmptyString (last parts)).
Definition model_table (type_name : string) : string := let '(namespace, model) := split_type_name type_name in get_tag namespace model.

(** [data_objects_recursion]: names and types of the objects, with the paths to them *)
Fixpoint data_objects (type_data : TypeData) (path : list string) {struct type_data} : list (string * TypeMapping * list string) :=
  match type_data with
  | TDNested r types =>
      (fix go types := match types with
       | [] => []
       | (field, t) :: types => data_objects t (path ++ [field]) ++ go types
       end) types ++ [(type_ref_text r, types, path)]
  | TDList inner => data_objects inner path
  | TDSimple _ => []
  end.
(** [ModelDataObject::objects]: the last object, that of the model itself, has two more fields *)
Definition model_entity_fields : list FieldDef :=
  [mkField "entity" (named ENTITY_TYPE_NAME) []; mkField "eventMessage" (named EVENT_MESSAGE_TYPE_NAME) []].
Definition data_object (o : string * TypeMapping * list string) (related : list FieldDef) : list Registered := basic_objects o.1.1 o.1.2 related.
Definition model_objects (m : ModelDataObject) : list Registered :=
  let objects := data_objects (TDNested (named (md_type_name m)) (md_type_mapping m)) [model_table (md_type_name m)] in
  (pop objects ≫= λ o, data_object o []) ++
  match last objects with Some root => data_object root model_entity_fields | None => [] end.
Definition model_inputs (m : ModelDataObject) : list Registered :=
  ((λ '(name, fields), RInput name fields) <$> input_objects (md_where_input m)) ++
  [order_input (md_order_type_name m) (md_order_type_name m +:+ "Field")].
Definition model_enums (m : ModelDataObject) : list Registered :=
  [order_direction; REnum (md_order_type_name m +:+ "Field") (to_uppercase <$> (md_type_mapping m).*1)].
Definition model_resolver (m : ModelDataObject) : FieldDef :=
  mkField (md_plural_name m) (named (md_type_name m +:+ "Connection"))
    (connection_arguments ++ [where_argument (md_type_name m); order_argument (md_type_name m)]).
Definition model_data_object (m : ModelDataObject) : ObjectDef :=
  mkObjectDef (model_objects m) [model_resolver m] (connection_objects (md_type_name m)) (model_enums m) (model_inputs m) [].

(** ** The schema *)
(** [torii_sqlite::types::Model] *)
Record ModelRow : Type := mkModelRow {
  mr_id : string; mr_model_selector : string; mr_world_address : string; mr_namespace : string; mr_name : string;
  mr_class_hash : string; mr_contract_address : string; mr_layout : string; mr_schema : string; mr_packed_size : Z;
  mr_unpacked_size : Z; mr_executed_at : DateTime; mr_created_at : DateTime; mr_legacy_store : bool
}.
Definition model_from_row (row : SqliteRow) : outcome QError ModelRow :=
  let text column := db (row_string row column) in
  let? id := text "id" in
  let? model_selector := text "model_selector" in
  let? world_address := text "world_address" in
  let? namespace := text "namespace" in
  let? name := text "name" in
  let? class_hash := text "class_hash" in
  let? contract_address := text "contract_address" in
  let? layout := text "layout" in
  let? schema := text "schema" in
  let? packed_size := db (row_int U32 row "packed_size") in
  let? unpacked_size := db (row_int U32 row "unpacked_size") in
  let? executed_at := db (row_time row "executed_at") in
  let? created_at := db (row_time row "created_at") in
  let? legacy_store := db (row_bool row "legacy_store") in
  Ok (mkModelRow id model_selector world_address namespace name class_hash contract_address layout schema packed_size unpacked_size
        executed_at created_at legacy_store).

Definition erc_token_union : Registered := RUnion TOKEN_UNION_TYPE_NAME [ERC20_TYPE_NAME; ERC721_TYPE_NAME; ERC1155_TYPE_NAME].
(** The objects of the models, in their order; a model without fields has none. *)
Fixpoint models_of (models : list ModelRow) : outcome GError (list ModelDataObject) :=
  match models with
  | [] => Ok []
  | model :: models =>
      let? schema := ok_or (GMessage "Failed to parse model schema") (schema_from_json (mr_schema model)) in
      let? type_mapping := build_type_mapping (mr_namespace model) schema in
      let? rest := models_of models in
      match type_mapping with
      | [] => Ok rest
      | _ => Ok (model_data_new (field_name_from_names (mr_namespace model) (mr_name model))
                   (type_name_from_names (mr_namespace model) (mr_name model)) type_mapping schema :: rest)
      end
  end.
Definition model_union (models : list ModelRow) (objects : list ModelDataObject) : Registered :=
  RUnion MODEL_UNION ((md_type_name <$> objects) ++ match models with [] => [EMPTY_TYPE_NAME] | _ => [] end).
Definition build_objects (models : list ModelRow) : outcome GError (list ObjectDef * list Registered) :=
  let? objects := models_of models in
  Ok (predefined_objects ++ (model_data_object <$> objects), [erc_token_union; model_union models objects]).

(** [ScalarType::all] *)
Definition scalar_types : list string := (prim_name <$> primitive_iter) ++ graphql_types.
Definition registered_of (o : ObjectDef) : list Registered := od_objects o ++ od_connections o ++ od_enums o ++ od_inputs o.
(** [PublishMessageObject::mutation_field] *)
Definition mutation_field : FieldDef :=
  mkField "publishMessage" (named_nn PUBLISH_MESSAGE_RESPONSE_TYPE_NAME)
    [("worldAddress", named_nn STRING); ("signature", named_nn_list STRING); ("message", named_nn STRING)].
Definition register_all (objects : list ObjectDef) (unions : list Registered) : list Registered :=
  unions ++ (RScalar <$> scalar_types) ++ (objects ≫= registered_of) ++
  basic_objects PUBLISH_MESSAGE_RESPONSE_TYPE_NAME PUBLISH_MESSAGE_RESPONSE_MAPPING [] ++
  [RObject QUERY_TYPE_NAME (objects ≫= od_resolvers); RObject MUTATION_TYPE_NAME [mutation_field];
   RObject SUBSCRIPTION_TYPE_NAME (objects ≫= od_subscriptions)].
Context {PL : Pool}.
Definition build_schema : outcome GError (list Registered) :=
  let? rows := map_err GSql (db (fetch_all "SELECT * FROM models" [])) in
  let? models := map_err GSql (outcome_mapM model_from_row rows) in
  let? (objects, unions) := build_objects models in
  Ok (register_all objects unions).
End objects.

(** ** Every type is registered *)
Fixpoint base_name (t : TypeRef) : string := match t with TNamed n => n | TNonNull t | TList t => base_name t end.
Definition field_refers (f : FieldDef) : list string := base_name (fd_type f) :: (base_name ∘ snd <$> fd_args f).
(** The types a registered type refers to. *)
Definition refers (r : Registered) : list string :=
  match r with
  | RScalar _ | REnum _ _ => []
  | RInput _ fields => base_name ∘ snd <$> fields
  | RUnion _ types => types
  | RObject _ fields => fields ≫= field_refers
  end.
Definition registered_name (r : Registered) : string :=
  match r with RScalar n | REnum n _ | RInput n _ | RUnion n _ | RObject n _ => n end.
(** The scalars of GraphQL itself. *)
Definition builtin : list string := [INT; "Float"; STRING; BOOLEAN; ID].

Section complete.
Context `{JsonNumber} {MT : ModelTypes} {SE : SchemaEnv} {SS : SchemaEnvSpec} `{Sqlx} {PL : Pool}.

(** The types of a model: scalars, and objects of such types with a name of their own. *)
Fixpoint known (t : TypeData) : Prop :=
  match t with
  | TDSimple r => base_name r ∈ scalar_types
  | TDList t => known t
  | TDNested r types =>
      (∃ n, r = TNamed n) ∧ (fix go types := match types with [] => True | (_, t) :: types => known t ∧ go types end) types
  end.
Lemma known_nested r types : known (TDNested r types) ↔ (∃ n, r = TNamed n) ∧ ∀ x t, (x, t) ∈ types → known t.
Proof.
  cbn. apply and_iff_compat_l. induction types as [|[x t] types IH]; [split; [intros _ ? ? ?%elem_of_nil; done|done]|].
  rewrite IH. split; [intros [Ht Hts] x' t' [[= -> ->]|Hin]%elem_of_cons; [done|by eapply Hts]|].
  intros Hall. split; [apply (Hall x); left|]. intros x' t' Hin. apply (Hall x'). by right.
Qed.

Lemma scalar_prim p : prim_name p ∈ scalar_types.
Proof. apply elem_of_app. left. apply primitive_iter_all. Qed.
Lemma scalar_graphql n : n ∈ graphql_types → n ∈ scalar_types.
Proof. intros Hn. apply elem_of_app. by right. Qed.
Lemma enum_known : known simple_enum.
Proof. apply scalar_graphql. right. left. Qed.

Lemma member_known {E} namespace t : ∀ td, member_to_type_data (E := E) namespace t = Ok td → known td.
Proof.
  induction t as [p|n ms IH|n o os IH|ts IH|ts IH|ts len IH|b] using ModelTable.DTy_ind'; intros td Htd.
  - injection Htd as <-. apply scalar_prim.
  - pose proof Htd as Htd'. destruct (struct_types _ _ _ _ Htd) as (r & types & -> & Hall). apply known_nested.
    split; [|intros x t' Hin; destruct (Hall x t' Hin) as (t & k & Hm & Ht); rewrite Forall_forall in IH; by apply (IH _ Hm)].
    revert Htd'. cbn. destruct (_ ms) as [l|?|]; [|done..]. intros [= <- _]. by eexists.
  - pose proof Htd as Htd'. destruct (enum_types _ _ _ _ _ Htd) as [->|(r & types & -> & Hall)]; [apply enum_known|]. apply known_nested. split.
    + revert Htd'. cbn. destruct (forallb _ os); [done|]. destruct (_ os) as [l|?|]; [|done..]. intros [= <- _]. by eexists.
    + intros x t' Hin. destruct (Hall x t' Hin) as [[= -> ->]|(t & Hm & _ & Ht)]; [apply enum_known|]. rewrite Forall_forall in IH. by apply (IH _ Hm).
  - pose proof Htd as Htd'. destruct (tuple_types _ _ _ Htd) as (r & types & -> & Hall). apply known_nested. split.
    + revert Htd'. cbn. destruct (_ 0%nat ts) as [l|?|]; [|done..]. intros [= <- _]. by eexists.
    + intros x t' Hin. destruct (Hall x t' Hin) as (i & t & -> & Hi & Ht). rewrite Forall_forall in IH. by apply (IH _ (list_elem_of_lookup_2 _ _ _ Hi)).
  - cbn in Htd. destruct ts as [|t ts]; [done|]. apply Forall_cons in IH as [IHt _].
    destruct (member_to_type_data namespace t) as [t1|?|] eqn:Ht; [|done..]. injection Htd as <-. by apply (IHt t1).
  - cbn in Htd. destruct ts as [|t ts]; [done|]. apply Forall_cons in IH as [IHt _].
    destruct (member_to_type_data namespace t) as [t1|?|] eqn:Ht; [|done..]. injection Htd as <-. apply known_nested. split; [by eexists|].
    intros x t' [[= -> ->]|[[= -> ->]|?%elem_of_nil]%elem_of_cons]%elem_of_cons; [by apply (IHt t1)| |done]. cbn. rewrite <- u32_name. apply scalar_prim.
  - injection Htd as <-. apply scalar_graphql. left.
Qed.

Lemma TypeData_ind' (P : TypeData → Prop) : (∀ r, P (TDSimple r)) → (∀ r types, Forall (λ f, P f.2) types → P (TDNested r types)) →
  (∀ t, P t → P (TDList t)) → ∀ t, P t.
Proof.
  intros Hs Hn Hl. fix IH 1. intros [r|r types|t]; [apply Hs|apply Hn|apply Hl, IH].
  induction types as [|[x t] types IHts]; constructor; [apply IH|exact IHts].
Qed.

(** *** The objects of the nested types *)
Lemma data_objects_nested r types path : ∃ inner, data_objects (TDNested r types) path = inner ++ [(type_ref_text r, types, path)] ∧
  ∀ o, o ∈ inner ↔ ∃ x t, (x, t) ∈ types ∧ o ∈ data_objects t (path ++ [x]).
Proof.
  cbn [data_objects]. eexists. split; [done|]. intros o. induction types as [|[x t] types IH].
  { split; [by intros ?%elem_of_nil|by intros (? & ? & ?%elem_of_nil & _)]. }
  rewrite elem_of_app, IH. split.
  - intros [Ho|(x' & t' & Hin & Ho)]; [exists x, t; split; [left|done]|exists x', t'; split; [by right|done]].
  - intros (x' & t' & [[= -> ->]|Hin]%elem_of_cons & Ho); [by left|right; by exists x', t'].
Qed.
Lemma type_name_declared t path : known t → base_name (type_ref t) ∈ scalar_types ∨ ∃ o, o ∈ data_objects t path ∧ o.1.1 = base_name (type_ref t).
Proof.
  revert path. induction t as [r|r types _|t IH] using TypeData_ind'; intros path Hk; [by left| |by apply IH].
  apply known_nested in Hk as [[n ->] _]. right. destruct (data_objects_nested (TNamed n) types path) as (inner & -> & _).
  eexists. split; [apply elem_of_app; right; by left|done].
Qed.
Lemma data_objects_closed t path o x t' : known t → o ∈ data_objects t path → (x, t') ∈ o.1.2 →
  base_name (type_ref t') ∈ scalar_types ∨ ∃ o', o' ∈ data_objects t path ∧ o'.1.1 = base_name (type_ref t').
Proof.
  revert path. induction t as [r|r types IH|t IH] using TypeData_ind'; intros path Hk Ho Hx; [by apply elem_of_nil in Ho| |by eapply IH].
  apply known_nested in Hk as [_ Hk]. destruct (data_objects_nested r types path) as (inner & Heq & Hin). rewrite Heq in Ho |- *.
  assert (∀ x1 t1, (x1, t1) ∈ types → ∀ n, (n ∈ scalar_types ∨ ∃ o', o' ∈ data_objects t1 (path ++ [x1]) ∧ o'.1.1 = n) →
    n ∈ scalar_types ∨ ∃ o', o' ∈ inner ++ [(type_ref_text r, types, path)] ∧ o'.1.1 = n) as Hup.
  { intros x1 t1 H1 n [?|(o' & Ho' & <-)]; [by left|]. right. exists o'. split; [|done]. apply elem_of_app. left. apply Hin. by exists x1, t1. }
  apply elem_of_app in Ho as [(x1 & t1 & H1 & Ho)%Hin| ->%list_elem_of_singleton].
  - apply (Hup _ _ H1). rewrite Forall_forall in IH. by apply (IH _ H1); [eapply Hk|..].
  - apply (Hup _ _ Hx). apply type_name_declared. by eapply Hk.
Qed.

(** *** The inputs of where arguments *)
Lemma input_objects_elem w o : o ∈ input_objects w ↔
  o = (wi_type_name w, (λ '(field, t), (field, type_ref t)) <$> wi_mapping w) ∨ ∃ w', w' ∈ wi_nested w ∧ o ∈ input_objects w'.
Proof.
  destruct w as [n mapping nested]. cbn [input_objects wi_type_name wi_mapping wi_nested]. rewrite elem_of_cons. apply or_iff_compat_l.
  induction nested as [|w ws IH]; [split; [by intros ?%elem_of_nil|by intros (? & ?%elem_of_nil & _)]|]. rewrite elem_of_app, IH. split.
  - intros [Ho|(w' & Hw & Ho)]; [exists w; split; [left|done]|exists w'; split; [by right|done]].
  - intros (w' & [ -> |Hw]%elem_of_cons & Ho); [by left|right; by exists w'].
Qed.
Definition mapping_known (mapping : TypeMapping) (nested : list WhereInputObject) : Prop :=
  ∀ x t, (x, t) ∈ mapping → base_name (type_ref t) ∈ scalar_types ∨ base_name (type_ref t) ∈ wi_type_name <$> nested.
Definition inputs_closed (w : WhereInputObject) : Prop :=
  ∀ o x r, o ∈ input_objects w → (x, r) ∈ o.2 → base_name r ∈ scalar_types ∨ base_name r ∈ (input_objects w).*1.
Lemma inputs_closed_intro n mapping nested : mapping_known mapping nested → (∀ w, w ∈ nested → inputs_closed w) → inputs_closed (mkWhere n mapping nested).
Proof.
  intros Hm Hn o x r. rewrite input_objects_elem. cbn [wi_type_name wi_mapping wi_nested]. intros [ -> |(w & Hw & Ho)] Hx.
  - cbn in Hx. apply list_elem_of_fmap in Hx as ([f t] & [= -> ->] & Hin). destruct (Hm _ _ Hin) as [?|Hname]; [by left|]. right.
    apply list_elem_of_fmap in Hname as (w & -> & Hw). apply list_elem_of_fmap. exists (wi_type_name w, (λ '(field, t), (field, type_ref t)) <$> wi_mapping w).
    split; [done|]. apply input_objects_elem. right. exists w. split; [done|]. apply input_objects_elem. by left.
  - destruct (Hn w Hw _ _ _ Ho Hx) as [?|Hname]; [by left|]. right. apply list_elem_of_fmap in Hname as (o' & -> & Ho').
    apply list_elem_of_fmap. exists o'. split; [done|]. apply input_objects_elem. right. by exists w.
Qed.
Lemma field_mapping_known name r x t : base_name r ∈ scalar_types → (x, t) ∈ build_field_mapping name (TDSimple r) → base_name (type_ref t) ∈ scalar_types.
Proof.
  intros Hr. unfold build_field_mapping. case_match; [by intros [[= -> ->]|?%elem_of_nil]%elem_of_cons|].
  intros [[= -> ->]|(c & [= -> ->] & _)%list_elem_of_fmap]%elem_of_cons; [done|]. by destruct c.
Qed.
Lemma insert_all_elem {V} (entries m : list (string * V)) e : e ∈ insert_all entries m → e ∈ entries ∨ e ∈ m.
Proof.
  revert m. induction entries as [|[k v] entries IH]; intros m He; [by right|]. destruct (IH _ He) as [?|He']; [left; by right|].
  destruct (im_insert_elem _ _ _ _ He') as [->|?]; [left; by left|by right].
Qed.
Lemma where_input_name type_name t : wi_type_name (where_input type_name t) = type_name +:+ "WhereInput".
Proof.
  destruct t as [|r types|]; [done| |done]. cbn [where_input].
  match goal with |- wi_type_name (?g types [] []) = _ => assert (∀ mapping nested, wi_type_name (g types mapping nested) = type_name +:+ "WhereInput") as Hgo end;
    [|apply Hgo]. induction types as [|[x [r'|r' ts|t]] types IH]; intros mapping nested; [done|apply IH..].
Qed.
Lemma where_input_closed t : ∀ type_name, known t → inputs_closed (where_input type_name t).
Proof.
  induction t as [r|r types IH|t _] using TypeData_ind'; intros type_name Hk;
    [apply inputs_closed_intro; [by intros ? ? ?%elem_of_nil|by intros ? ?%elem_of_nil]| |
     apply inputs_closed_intro; [by intros ? ? ?%elem_of_nil|by intros ? ?%elem_of_nil]].
  apply known_nested in Hk as [_ Hk]. cbn [where_input].
  match goal with |- inputs_closed (?g types [] []) => assert (∀ mapping nested, mapping_known mapping nested →
    (∀ w, w ∈ nested → inputs_closed w) → inputs_closed (g types mapping nested)) as Hgo end;
    [|apply Hgo; [by intros ? ? ?%elem_of_nil|by intros ? ?%elem_of_nil]].
  induction types as [|[x t] types IHts]; intros mapping nested Hm Hn; [by apply inputs_closed_intro|].
  apply Forall_cons in IH as [IHt IH]. assert (known t) as Hkt by (apply (Hk x); left).
  specialize (IHts IH (λ x' t' Hin, Hk x' t' (list_elem_of_further _ _ _ Hin))). destruct t as [r'|r' types'|t'].
  - apply IHts; [|done]. intros x' t' [Hin|Hin]%insert_all_elem; [left; by eapply field_mapping_known|by eapply Hm].
  - apply IHts.
    + intros x' t' [[= -> ->]|Hin]%im_insert_elem; [right; rewrite fmap_app; apply elem_of_app; right; by left|].
      destruct (Hm _ _ Hin) as [?|?]; [by left|right]. rewrite fmap_app. apply elem_of_app. by left.
    + intros w [Hw| ->%list_elem_of_singleton]%elem_of_app; [by apply Hn|]. by apply IHt.
  - by apply IHts.
Qed.

(** *** The objects known beforehand *)
Definition fixed_names : list string :=
  [TOKEN_UNION_TYPE_NAME; MODEL_UNION; PUBLISH_MESSAGE_RESPONSE_TYPE_NAME] ++ (registered_name <$> (predefined_objects ≫= registered_of)).
Definition predefined_refers : list string :=
  [EMPTY_TYPE_NAME; ENTITY_TYPE_NAME; EVENT_MESSAGE_TYPE_NAME; ORDER_DIR_TYPE_NAME; INT; CURSOR; PAGE_INFO_TYPE_NAME] ++
  ((predefined_objects ≫= registered_of) ≫= refers) ++ ((predefined_objects ≫= od_resolvers) ≫= field_refers) ++
  ((predefined_objects ≫= od_subscriptions) ≫= field_refers) ++ refers erc_token_union ++ field_refers mutation_field ++
  (basic_objects PUBLISH_MESSAGE_RESPONSE_TYPE_NAME PUBLISH_MESSAGE_RESPONSE_MAPPING [] ≫= refers).
Definition among (names : list string) (n : string) : bool := existsb (String.eqb n) names.
Lemma among_elem names n : among names n = true ↔ n ∈ names.
Proof.
  unfold among. rewrite existsb_exists. setoid_rewrite String.eqb_eq. split; [intros (x & Hin & ->)|intros Hn; exists n];
    [by apply list_elem_of_In|split; [by apply list_elem_of_In|done]].
Qed.
Lemma predefined_known : Forall (λ n, n = felt_name ∨ among (builtin ++ graphql_types ++ fixed_names) n = true) predefined_refers.
Proof. unfold predefined_refers. cbn. repeat (apply Forall_cons; split; [first [by right|by left]|]). by apply Forall_nil. Qed.

(** *** The objects of a model *)
Lemma build_known {E} namespace schema types : build_type_mapping (E := E) namespace schema = Ok types → ∀ x t, (x, t) ∈ types → known t.
Proof.
  destruct schema as [|n ms| | | | |]; [done| |done..]. intros Hty x t Hin. destruct (build_types_elem _ _ _ _ Hty _ _ Hin) as (t' & k & _ & Ht).
  by eapply member_known.
Qed.
Definition model_known (m : ModelDataObject) : Prop :=
  (∀ x t, (x, t) ∈ md_type_mapping m → known t) ∧ md_where_input m = where_input_new (md_type_name m) (md_type_mapping m) ∧
  md_order_type_name m = md_type_name m +:+ "Order".
Definition model_names (m : ModelDataObject) : list string := registered_name <$> registered_of (model_data_object m).
(** What a type of a model may refer to. *)
Definition refer_ok (m : ModelDataObject) (n : string) : Prop := n ∈ predefined_refers ∨ n ∈ scalar_types ∨ n ∈ model_names m.
Lemma fixed_ref m n : among predefined_refers n = true → refer_ok m n.
Proof. intros ?%among_elem. by left. Qed.
Lemma object_names types related type_name : registered_name <$> basic_objects type_name types related = [type_name].
Proof. done. Qed.

Section one_model.
Context (m : ModelDataObject) (Hm : model_known m).
#[local] Abbreviation root := (TDNested (named (md_type_name m)) (md_type_mapping m)).
#[local] Abbreviation path := [model_table (md_type_name m)].
Lemma root_known : known root.
Proof. apply known_nested. split; [by eexists|]. apply Hm. Qed.
Lemma model_objects_split : ∃ inner, data_objects root path = inner ++ [(md_type_name m, md_type_mapping m, path)] ∧
  model_objects m = (inner ≫= λ o, data_object o []) ++ data_object (md_type_name m, md_type_mapping m, path) model_entity_fields.
Proof.
  destruct (data_objects_nested (named (md_type_name m)) (md_type_mapping m) path) as (inner & Heq & _). exists inner. split; [done|].
  unfold model_objects. rewrite Heq. cbn [type_ref_text named]. unfold pop. rewrite length_app. cbn [length].
  replace (length inner + 1 - 1)%nat with (length inner) by lia. by rewrite take_app_length, last_snoc.
Qed.
Lemma model_type_named o : o ∈ data_objects root path → o.1.1 ∈ model_names m.
Proof.
  destruct model_objects_split as (inner & Heq & Hobj). rewrite Heq. intros Ho. unfold model_names, registered_of. rewrite fmap_app. apply elem_of_app. left.
  cbn [od_objects model_data_object]. rewrite Hobj, fmap_app. apply elem_of_app. apply elem_of_app in Ho as [Ho| ->%list_elem_of_singleton]; [left|right; by left].
  apply list_elem_of_fmap. eexists. split; [|apply list_elem_of_bind; exists o; split; [by left|done]]. done.
Qed.
Lemma model_name_in : md_type_name m ∈ model_names m.
Proof.
  apply (model_type_named (md_type_name m, md_type_mapping m, path)). destruct model_objects_split as (inner & -> & _).
  apply elem_of_app. right. by left.
Qed.
Lemma model_part_in part n : part ⊆ registered_of (model_data_object m) → n ∈ registered_name <$> part → n ∈ model_names m.
Proof. intros Hp (r & -> & Hr)%list_elem_of_fmap. apply list_elem_of_fmap. exists r. split; [done|by apply Hp]. Qed.
Lemma connections_in : connection_objects (md_type_name m) ⊆ registered_of (model_data_object m).
Proof. unfold registered_of. cbn [od_objects od_connections model_data_object]. set_solver. Qed.
Lemma enums_in : model_enums m ⊆ registered_of (model_data_object m).
Proof. unfold registered_of. cbn [od_enums model_data_object]. set_solver. Qed.
Lemma inputs_in : model_inputs m ⊆ registered_of (model_data_object m).
Proof. unfold registered_of. cbn [od_inputs model_data_object]. set_solver. Qed.

Lemma model_objects_refer r n : r ∈ model_objects m → n ∈ refers r → refer_ok m n.
Proof.
  destruct model_objects_split as (inner & Heq & ->).
  assert (∀ o related, o ∈ data_objects root path → (∀ n, n ∈ related ≫= field_refers → refer_ok m n) →
    r ∈ data_object o related → n ∈ refers r → refer_ok m n) as Hone.
  { intros o related Ho Hrel ->%list_elem_of_singleton. cbn [refers]. rewrite bind_app. intros [Hn|Hn]%elem_of_app; [|by apply Hrel].
    apply list_elem_of_bind in Hn as (f & Hn & ([x t] & -> & Hx)%list_elem_of_fmap). apply list_elem_of_singleton in Hn as ->. cbn [fd_type].
    destruct (data_objects_closed _ _ _ _ _ root_known Ho Hx) as [?|(o' & Ho' & <-)]; [right; by left|]. right. right. by apply model_type_named. }
  intros [(o & Hr & Ho)%list_elem_of_bind|Hr]%elem_of_app Hn.
  - eapply (Hone o []); [|by intros ? ?%elem_of_nil|exact Hr|exact Hn]. rewrite Heq. apply elem_of_app. by left.
  - eapply (Hone _ model_entity_fields); [| |exact Hr|exact Hn]; [rewrite Heq; apply elem_of_app; right; by left|].
    intros n' [ -> |[ -> |?%elem_of_nil]%elem_of_cons]%elem_of_cons; [by apply fixed_ref..|done].
Qed.
Lemma connections_refer r n : r ∈ connection_objects (md_type_name m) → n ∈ refers r → refer_ok m n.
Proof.
  pose proof (model_part_in _ (md_type_name m +:+ "Edge") connections_in) as Hedge.
  intros [ -> |[ -> |?%elem_of_nil]%elem_of_cons]%elem_of_cons; [..|done]; cbn [refers basic_objects fmap list_fmap edge_mapping connection_mapping app];
    cbn; rewrite !elem_of_cons, elem_of_nil.
  - intros [ -> |[ -> |[]]]; [right; right; apply model_name_in|by apply fixed_ref].
  - intros [ -> |[ -> |[ -> |[]]]]; [right; right; apply Hedge; by left|by apply fixed_ref..].
Qed.
Lemma inputs_refer r n : r ∈ model_inputs m → n ∈ refers r → refer_ok m n.
Proof.
  destruct Hm as (_ & Hw & _). intros [Hr| ->%list_elem_of_singleton]%elem_of_app.
  - apply list_elem_of_fmap in Hr as ([name fields] & -> & Hin). cbn. intros ([x t] & -> & Hx)%list_elem_of_fmap. cbn. rewrite Hw in Hin.
    destruct (where_input_closed root (md_type_name m) root_known _ _ _ Hin Hx) as [?|Hname]; [right; by left|]. right. right.
    apply (model_part_in _ _ inputs_in). unfold model_inputs. rewrite fmap_app. apply elem_of_app. left. rewrite Hw, <- list_fmap_compose.
    apply list_elem_of_fmap in Hname as ([name' fields'] & -> & Hin'). apply list_elem_of_fmap. by exists (name', fields').
  - cbn. rewrite !elem_of_cons, elem_of_nil. intros [ -> |[ -> |[]]]; [by apply fixed_ref|]. right. right. apply (model_part_in _ _ enums_in).
    right. by left.
Qed.
Lemma model_closed r n : r ∈ registered_of (model_data_object m) → n ∈ refers r → refer_ok m n.
Proof.
  intros [Hr|[Hr|[Hr|Hr]%elem_of_app]%elem_of_app]%elem_of_app; [by apply model_objects_refer|by apply connections_refer| |by apply inputs_refer].
  cbn [od_enums model_data_object] in Hr. unfold model_enums in Hr. rewrite !elem_of_cons, elem_of_nil in Hr. by destruct Hr as [ -> |[ -> |[]]]; intros ?%elem_of_nil.
Qed.
Lemma resolver_closed n : n ∈ field_refers (model_resolver m) → refer_ok m n.
Proof.
  destruct Hm as (_ & Hw & Ho). unfold field_refers, model_resolver. cbn. rewrite !elem_of_cons, elem_of_nil.
  intros [ -> |[ -> |[ -> |[ -> |[ -> |[ -> |[ -> |[ -> |[ -> |[]]]]]]]]]]; try by apply fixed_ref.
  - right. right. apply (model_part_in _ _ connections_in). right. by left.
  - right. right. apply (model_part_in _ _ inputs_in). unfold model_inputs. rewrite Hw. apply list_elem_of_fmap.
    exists (RInput (wi_type_name (where_input_new (md_type_name m) (md_type_mapping m)))
      ((λ '(field, t), (field, type_ref t)) <$> wi_mapping (where_input_new (md_type_name m) (md_type_mapping m)))). split.
    { cbn [registered_name]. symmetry. apply where_input_name. }
    apply elem_of_app. left. apply list_elem_of_fmap. eexists (_, _). split; [done|]. apply input_objects_elem. by left.
  - right. right. apply (model_part_in _ _ inputs_in). unfold model_inputs. rewrite fmap_app. apply elem_of_app. right.
    apply list_elem_of_singleton. cbn. by rewrite Ho.
Qed.
End one_model.

(** *** The whole schema *)
Lemma models_of_known models : ∀ objects, models_of models = Ok objects → ∀ m, m ∈ objects → model_known m.
Proof.
  induction models as [|model models IH]; intros objects Hm m Hin; cbn in Hm; [injection Hm as <-; by apply elem_of_nil in Hin|].
  destruct (schema_from_json _) as [schema|]; [|done]. cbn in Hm. destruct (build_type_mapping _ schema) as [types|?|] eqn:Hty; [|done..]. cbn in Hm.
  destruct (models_of models) as [rest|?|]; [|done..]. cbn in Hm. specialize (IH _ eq_refl).
  destruct types as [|f types]; injection Hm as <-; [by apply IH|]. apply elem_of_cons in Hin as [ -> |Hin]; [|by apply IH].
  split_and!; [|done..]. cbn. by eapply build_known.
Qed.
Section whole.
Context (models : list ModelRow) (objects : list ModelDataObject) (Hobjects : ∀ m, m ∈ objects → model_known m).
#[local] Abbreviation all_objects := (predefined_objects ++ (model_data_object <$> objects)).
#[local] Abbreviation schema := (register_all all_objects [erc_token_union; model_union models objects]).
Lemma registered_object r : r ∈ all_objects ≫= registered_of → r ∈ schema.
Proof. intros Hr. apply elem_of_app. right. apply elem_of_app. right. apply elem_of_app. by left. Qed.
Lemma registered_named r : r ∈ schema → registered_name r ∈ registered_name <$> schema.
Proof. intros Hr. apply list_elem_of_fmap. by exists r. Qed.
Lemma model_registered m n : m ∈ objects → n ∈ model_names m → n ∈ registered_name <$> schema.
Proof.
  intros Hm (r & -> & Hr)%list_elem_of_fmap. apply registered_named, registered_object, list_elem_of_bind. exists (model_data_object m). split; [done|].
  apply elem_of_app. right. apply list_elem_of_fmap. by exists m.
Qed.
Lemma scalar_registered n : n ∈ scalar_types → n ∈ registered_name <$> schema.
Proof.
  intros Hn. apply (registered_named (RScalar n)). apply elem_of_app. right. apply elem_of_app. left. apply list_elem_of_fmap. by exists n.
Qed.
Lemma fixed_registered n : n ∈ fixed_names → n ∈ registered_name <$> schema.
Proof.
  intros [Hn|(r & -> & Hr)%list_elem_of_fmap]%elem_of_app.
  - rewrite !elem_of_cons, elem_of_nil in Hn. destruct Hn as [ -> |[ -> |[ -> |[]]]].
    + apply (registered_named erc_token_union). by left.
    + apply (registered_named (model_union models objects)). right. by left.
    + eapply (registered_named (RObject PUBLISH_MESSAGE_RESPONSE_TYPE_NAME _)). do 3 (apply elem_of_app; right). apply elem_of_app. left. by left.
  - apply registered_named, registered_object. rewrite bind_app. apply elem_of_app. by left.
Qed.
Lemma predefined_registered n : n ∈ predefined_refers → n ∈ builtin ++ (registered_name <$> schema).
Proof.
  pose proof predefined_known as Hall. rewrite Forall_forall in Hall. intros Hn. apply elem_of_app.
  destruct (Hall n Hn) as [ -> |[?|[?|?]%elem_of_app]%among_elem%elem_of_app]; [right; apply scalar_registered, scalar_prim|by left| |].
  - right. by apply scalar_registered, scalar_graphql.
  - right. by apply fixed_registered.
Qed.
Lemma refer_registered m n : m ∈ objects → refer_ok m n → n ∈ builtin ++ (registered_name <$> schema).
Proof.
  intros Hm [?|[?|?]]; [by apply predefined_registered|..]; apply elem_of_app; right; [by apply scalar_registered|by eapply model_registered].
Qed.
Lemma fields_refer (part : ObjectDef → list FieldDef) n :
  (∀ m n, m ∈ objects → n ∈ part (model_data_object m) ≫= field_refers → refer_ok m n) →
  ((predefined_objects ≫= part) ≫= field_refers) ⊆ predefined_refers →
  n ∈ (all_objects ≫= part) ≫= field_refers → n ∈ builtin ++ (registered_name <$> schema).
Proof.
  intros Hpart Hpre. rewrite !bind_app. intros [Hn|Hn]%elem_of_app; [by apply predefined_registered, Hpre|].
  apply list_elem_of_bind in Hn as (f & Hn & (o & Hf & (m & -> & Hm)%list_elem_of_fmap)%list_elem_of_bind).
  apply (refer_registered m); [done|]. apply Hpart; [done|]. apply list_elem_of_bind. by exists f.
Qed.
Lemma schema_closed r n : r ∈ schema → n ∈ refers r → n ∈ builtin ++ (registered_name <$> schema).
Proof.
  assert (∀ part, part ⊆ predefined_refers → n ∈ part → n ∈ builtin ++ (registered_name <$> schema)) as Hpre
    by (intros part Hp Hn; by apply predefined_registered, Hp).
  intros [Hr|[Hr|[Hr|[Hr|Hr]%elem_of_app]%elem_of_app]%elem_of_app]%elem_of_app Hn.
  - rewrite !elem_of_cons, elem_of_nil in Hr. destruct Hr as [ -> |[ -> |[]]].
    + apply (Hpre (refers erc_token_union)); [|done]. intros x Hx. do 4 (apply elem_of_app; right). apply elem_of_app. by left.
    + unfold model_union, refers in Hn. apply elem_of_app in Hn as [(m & -> & Hm)%list_elem_of_fmap|Hn].
      * apply elem_of_app. right. apply (model_registered m); [done|apply model_name_in].
      * destruct models; [|by apply elem_of_nil in Hn]. apply list_elem_of_singleton in Hn as ->. apply predefined_registered. by left.
  - apply list_elem_of_fmap in Hr as (? & -> & _). by apply elem_of_nil in Hn.
  - rewrite bind_app in Hr. apply elem_of_app in Hr as [Hr|(o & Hr & (m & -> & Hm)%list_elem_of_fmap)%list_elem_of_bind].
    + apply (Hpre ((predefined_objects ≫= registered_of) ≫= refers)); [|apply list_elem_of_bind; by exists r].
      intros x Hx. apply elem_of_app. right. apply elem_of_app. by left.
    + apply (refer_registered m); [done|]. eapply model_closed; [by apply Hobjects|exact Hr|exact Hn].
  - apply (Hpre (basic_objects PUBLISH_MESSAGE_RESPONSE_TYPE_NAME PUBLISH_MESSAGE_RESPONSE_MAPPING [] ≫= refers));
      [|apply list_elem_of_bind; by exists r]. intros x Hx. by do 6 (apply elem_of_app; right).
  - rewrite !elem_of_cons, elem_of_nil in Hr. destruct Hr as [ -> |[ -> |[ -> |[]]]]; cbn [refers] in Hn.
    + revert Hn. apply fields_refer; [|intros x Hx; do 2 (apply elem_of_app; right); apply elem_of_app; by left].
      intros m n' Hm Hn'. apply resolver_closed; [by apply Hobjects|].
      apply list_elem_of_bind in Hn' as (f & Hf & ->%list_elem_of_singleton). done.
    + apply (Hpre (field_refers mutation_field)); [|apply list_elem_of_bind in Hn as (f & Hf & ->%list_elem_of_singleton); done]. intros x Hx. do 5 (apply elem_of_app; right). apply elem_of_app. by left.
    + revert Hn. apply fields_refer; [by intros m n' Hm ?%elem_of_nil|]. intros x Hx. do 3 (apply elem_of_app; right). apply elem_of_app. by left.
Qed.
End whole.

(** C32: The schema is complete. Whatever models are registered in the database, with members of
    any types at any depth, every type that a field, an argument, an input or a union of the
    schema refers to is registered in it or is a scalar of GraphQL itself. A schema that is not
    complete is refused, and the server does not start. *)
Theorem schema_complete (s : list Registered) : build_schema = Ok s →
  ∀ r n, r ∈ s → n ∈ refers r → n ∈ builtin ++ (registered_name <$> s).
Proof.
  unfold build_schema, build_objects. destruct (fetch_all _ _) as [?|rows]; [done|]. cbn. destruct (outcome_mapM model_from_row rows) as [models|?|]; [|done..].
  cbn. destruct (models_of models) as [objects|?|] eqn:Hm; [|done..]. cbn. intros [= <-] r n. apply schema_closed. by eapply models_of_known.
Qed.

(** *** The table of a model *)
Lemma split_acc_parts c s : ∀ acc, SqlString.free_of c acc → Forall (SqlString.free_of c) (SqlString.split_acc c acc s).
Proof.
  induction s as [|c' s IH]; intros acc Ha; cbn; [by constructor|]. case_decide as Hc; [constructor; [done|by apply IH]|].
  apply IH, SqlString.free_of_app; [done|]. by split.
Qed.
Lemma join_split_acc c s : ∀ acc, SqlString.join (String c EmptyString) (SqlString.split_acc c acc s) = acc +:+ s.
Proof.
  induction s as [|c' s IH]; intros acc; cbn; [by rewrite SqlString.append_nil_r|]. case_decide as Hc.
  - subst c'. pose proof (SqlString.split_ne_nil c s) as Hne. specialize (IH EmptyString). unfold SqlString.split in Hne.
    destruct (SqlString.split_acc c EmptyString s) as [|p ps]; [done|].
    change (acc +:+ String c EmptyString +:+ SqlString.join (String c EmptyString) (p :: ps) = acc +:+ String c s). by rewrite IH.
  - by rewrite IH, SqlString.append_assoc.
Qed.
(** The table of a model is found from the name of its type exactly when the name of the model
    has no underscore: the namespace is taken to end at the last one. *)
Lemma model_table_found namespace name : split_type_name (type_name_from_names namespace name) = (namespace, name) ↔ SqlString.free_of "_"%char name.
Proof.
  unfold split_type_name, type_name_from_names. rewrite (split_acc_app "_"%char EmptyString namespace name : SqlString.split "_" (namespace +:+ "_" +:+ name) = _).
  rewrite last_app. pose proof (split_acc_parts "_"%char name EmptyString I) as Hfree. split.
  - intros Heq. injection Heq as _ Hname. destruct (last (SqlString.split "_" name)) as [t|] eqn:Hl.
    + cbn in Hname. subst t. rewrite Forall_forall in Hfree. by apply Hfree, last_Some_elem_of.
    + by apply last_None, SqlString.split_ne_nil in Hl.
  - intros Hname. rewrite (SqlString.split_free _ _ Hname). cbn. f_equal. unfold pop. rewrite length_app. cbn [length].
    replace (length _ + 1 - 1)%nat with (length (SqlString.split_acc "_" EmptyString namespace)) by lia. rewrite take_app_length.
    apply (join_split_acc "_"%char namespace EmptyString).
Qed.
End complete.

(** ** Witness: a database with one model, whose members are a felt, a structure, a tuple and an enum *)
#[local] Existing Instance demo_number.
#[local] Existing Instance demo_types.
#[local] Instance demo_schema_env : SchemaEnv := {|
  to_camel := id; to_pascal := id; get_tag a b := a +:+ "-" +:+ b; to_uppercase := id; primitive_iter := demo_prims_named.*2;
  schema_from_json _ := Some (TyStruct "M" demo_members)
|}.
#[local] Instance demo_schema_spec : SchemaEnvSpec.
Proof. split; [intros []; apply among_elem; reflexivity|done]. Qed.
#[local] Instance demo_model_sqlx : Sqlx := {|
  SqliteRow := string; SqlxError := unit; sqlx_text _ := "no such column"; row_string r c := if String.eqb c "namespace" then inr "ns" else inr r;
  row_int _ _ _ := inr 1; row_bool _ _ := inr false; row_time _ _ := inr 0; row_f64 _ _ := inl tt; row_null _ _ := inr false
|}.
#[local] Instance demo_model_pool : Pool := {| fetch_all _ _ := inr ["M"] |}.
Lemma schema_complete_witness : ∃ s, build_schema = Ok s ∧ "ns_MWhereInput" ∈ registered_name <$> s ∧
  ∀ r n, r ∈ s → n ∈ refers r → n ∈ builtin ++ (registered_name <$> s).
Proof.
  eexists. split; [reflexivity|]. split; [apply among_elem; vm_compute; reflexivity|]. intros r n. apply schema_complete. reflexivity.
Defined.
End Schema.
