(* ===== verification/GraphqlObjects.v ===== *)
(** * What the fields of GraphQL answer ([crates/graphql/src/object])

    The resolvers of the objects: one object by its identifier, connections, the models of
    an entity, the objects nested in a model, metadata, the calls and transfers of a
    transaction. A resolver gets the value of its parent and gives its own.

    async-graphql hands a field either a value or one of the nodes the server made itself;
    both are [FieldValue]. The tables are read through [Pool]. *)

From S2P Require Import Prelude Proto SqlString SqlText Executor ModelTable Wire Messages Aggregator Messaging TypedData Query Controllers Erc StorageWrites Rows Reads Composite GraphqlQuery GraphqlTypes GraphqlTokens GraphqlSchema.
From Stdlib Require Import Ascii.
Local Open Scope Z_scope.
Local Open Scope torii_scope.

(** The JSON of the metadata of a world: [serde_json::from_str(..).unwrap_or_default()], the
    text under a name, and the entries of the object under a name with their texts *)
Class ContentJson : Type := {
  Content : Type;
  content_from_str : string → Content;
  content_text : Content → string → option string;
  content_object : Content → string → option (list (string * option string))
}.

Module Objects.
Import Msg Query Reads TypedData Gql GqlTypes GqlTokens Schema.

(** ** Values and nodes *)
#[local] Set Warnings "-register-all".
Inductive FieldValue `{JsonNumber} : Type :=
| FVValue (v : GValue)
| FVList (l : list FieldValue)
(** [owned_any], [borrowed_any] *)
| FVMapping (m : ValueMapping)
| FVTokens (c : Connection ErcTokenType)
| FVTokenEdge (e : ConnectionEdge ErcTokenType)
| FVToken (t : ErcTokenType)
| FVTransfers (c : Connection TokenTransferNode)
| FVTransferEdge (e : ConnectionEdge TokenTransferNode)
| FVTransfer (t : TokenTransferNode)
(** [with_type] *)
| FVTyped (v : FieldValue) (type_name : string).

Section fields.
Context `{JsonNumber} {GE : GraphqlEnv} {MT : ModelTypes} {SE : SchemaEnv} {MJ : MetadataJson} {CJ : ContentJson} `{SqlString.FeltFromStr}
  `{Sqlx} `{Chrono} {PL : Pool} {UT : UncheckedText}.

Definition requires_object : string := "incorrect value, requires Value::Object".
(** [PageInfoObject::value] *)
Definition page_info_value (p : PageInfo) : GValue :=
  VObject [("hasPreviousPage", VBoolean (has_previous_page p)); ("hasNextPage", VBoolean (has_next_page p));
           ("startCursor", or_null (start_cursor p)); ("endCursor", or_null (end_cursor p))].

(** [BasicObject::objects]: the resolver of a field *)
Definition connection_field {A} (name : string) (edge : ConnectionEdge A → FieldValue) (c : Connection A) : outcome GError FieldValue :=
  if String.eqb name "edges" then Ok (FVList (edge <$> conn_edges _ c))
  else if String.eqb name "pageInfo" then Ok (FVValue (page_info_value (conn_page _ c)))
  else if String.eqb name "totalCount" then Ok (FVValue (number (conn_total _ c)))
  else Err (GMessage requires_object).
Definition edge_field {A} (name : string) (node : A → FieldValue) (e : ConnectionEdge A) : outcome GError FieldValue :=
  if String.eqb name "node" then Ok (node (edge_node _ e))
  else if String.eqb name "cursor" then Ok (FVValue (VString (edge_cursor _ e)))
  else Err (GMessage requires_object).
Definition typed_token (t : ErcTokenType) : FieldValue := let '(v, type_name) := to_field_value t in FVTyped (FVValue v) type_name.
Definition transfer_field (name : string) (t : TokenTransferNode) : outcome GError FieldValue :=
  if String.eqb name "from" then Ok (FVValue (VString (node_from t)))
  else if String.eqb name "to" then Ok (FVValue (VString (node_to t)))
  else if String.eqb name "executedAt" then Ok (FVValue (VString (node_executed_at t)))
  else if String.eqb name "tokenMetadata" then Ok (typed_token (node_token t))
  else if String.eqb name "transactionHash" then Ok (FVValue (VString (node_transaction_hash t)))
  else Err (GMessage requires_object).
Definition basic_field (name : string) (parent : FieldValue) : outcome GError FieldValue :=
  match parent with
  | FVValue (VObject values) => let? v := unwrap (im_get name values) in Ok (FVValue v)
  | FVValue _ => Err (GMessage requires_object)
  | FVTokens c => connection_field name FVTokenEdge c
  | FVTokenEdge e => edge_field name FVToken e
  | FVTransfers c => connection_field name FVTransferEdge c
  | FVTransferEdge e => edge_field name FVTransfer e
  | FVTransfer t => transfer_field name t
  | FVToken t => Ok (typed_token t)
  | _ => Err (GMessage "unexpected parent value")
  end.

(** ** Connections ([object/connection/mod.rs]) *)
Definition edge_value (types : TypeMapping) (order : option Order) (id_column : string) (is_internal snake_case : bool) (row : SqliteRow)
  : outcome QError GValue :=
  let order_field := match order with
    | Some order => if is_internal then "internal_" +:+ o_field order else o_field order
    | None => id_column
    end in
  let? cursor := row_cursor id_column order_field row in
  let? values := value_mapping_from_row row types is_internal snake_case in
  Ok (VObject [("node", VObject values); ("cursor", VString cursor)]).
Definition connection_values (total_count : Z) (edges : list GValue) (page_info : PageInfo) : ValueMapping :=
  [("totalCount", number total_count); ("edges", VList edges); ("pageInfo", page_info_value page_info)].
Definition connection_output (data : list SqliteRow) (types : TypeMapping) (order : option Order) (id_column : string) (total_count : Z)
    (is_internal snake_case : bool) (page_info : PageInfo) : outcome QError ValueMapping :=
  let? edges := outcome_mapM (edge_value types order id_column is_internal snake_case) data in
  Ok (connection_values total_count edges page_info).

(** ** One object and many ([object/mod.rs]) *)
Definition resolve_one (table_name id_column : string) (types : TypeMapping) (args : ValueMapping) : outcome GError GValue :=
  let? id := map_err GExtract (extract_string args (to_camel id_column)) in
  map_err GSql (
    let? data := fetch_single_row table_name id_column id in
    let? model := value_mapping_from_row data types false true in Ok (VObject model)).
Definition resolve_one_with_joins (table_name id_column : string) (types : TypeMapping) (joins : list JoinConfig)
    (select_columns : option (list string)) (args : ValueMapping) : outcome GError GValue :=
  let? id := map_err GExtract (extract_string args (to_camel id_column)) in
  map_err GSql (
    let? data := fetch_single_row_with_joins table_name id_column id joins select_columns in
    let? model := value_mapping_from_row data types false true in Ok (VObject model)).
Definition resolve_many (table_name id_column : string) (types : TypeMapping) (args : ValueMapping) : outcome GError GValue :=
  let? connection := parse_connection_arguments args in
  let? keys := parse_keys_argument args in
  let order := parse_order_argument args in
  map_err GSql (
    let? total_count := count_rows table_name keys None in
    let? (data, page_info) := fetch_multiple_rows table_name id_column keys order None connection total_count in
    let? results := connection_output data types order id_column total_count false true page_info in
    Ok (VObject results)).

(** ** Models ([object/model_data.rs]) *)
Definition resolve_models (m : ModelDataObject) (args : ValueMapping) : outcome GError GValue :=
  let table_name := model_table (md_type_name m) in
  let order := parse_order_argument args in
  let? filters := parse_where_argument args (wi_mapping (md_where_input m)) in
  let? connection := parse_connection_arguments args in
  map_err GSql (
    let? total_count := count_rows table_name None filters in
    let? (data, page_info) := fetch_multiple_rows table_name "internal_event_id" None order filters connection total_count in
    let? connection := connection_output data (md_type_mapping m) order "internal_event_id" total_count false false page_info in
    Ok (VObject connection)).

(** [s.replace(pattern, "")], for a pattern that is not empty *)
Fixpoint remove_all (fuel : nat) (pattern s : string) : string :=
  match fuel with
  | O => s
  | Datatypes.S fuel =>
      if String.prefix pattern s then
        remove_all fuel pattern (String.substring (String.length pattern) (String.length s - String.length pattern) s)
      else match s with EmptyString => EmptyString | String c s => String c (remove_all fuel pattern s) end
  end.
Definition nested_table (path : list string) (field_name : string) : string :=
  let joined := SqlString.join "$" (path ++ [field_name]) in
  remove_all (String.length joined) (default EmptyString (path !! 0%nat) +:+ "_") joined.
(** The resolver of a field of the object of a model, or of an object nested in one *)
Definition model_field (path : list string) (field_name : string) (type_data : TypeData) (parent : FieldValue) : outcome GError GValue :=
  match parent with
  | FVValue value =>
      match type_data with
      | TDNested _ nested =>
          match value with
          | VObject values =>
              let? entity_id := map_err GExtract (extract_string values INTERNAL_ENTITY_ID_KEY) in
              match im_get field_name values with
              | Some data => Ok data
              | None =>
                  map_err GSql (
                    let? data := fetch_single_row (nested_table path field_name) ENTITY_ID_COLUMN entity_id in
                    let? result := value_mapping_from_row data nested false false in Ok (VObject result))
              end
          | _ => Err (GMessage requires_object)
          end
      | _ =>
          match value with
          | VObject values => unwrap (im_get field_name values)
          | _ => Err (GMessage "Incorrect value, requires Value::Object")
          end
      end
  | FVMapping values => unwrap (im_get field_name values)
  | _ => Err (GMessage "Field resolver only accepts Value or IndexMap")
  end.

(** [ctx.parent_value.try_to_value()?], which must be an object *)
Definition parent_object (parent : FieldValue) : outcome GError ValueMapping :=
  match parent with
  | FVValue (VObject values) => Ok values
  | FVValue _ => Err (GMessage requires_object)
  | _ => Err (GMessage "internal: not a Value")
  end.
Definition ENTITY_TABLE : string := "entities".
Definition EVENT_MESSAGE_TABLE : string := "event_messages".
(** [entity_field], [event_message_field] *)
Definition parent_entity (table : string) (parent : FieldValue) : outcome GError GValue :=
  let? values := parent_object parent in
  let? entity_id := map_err GExtract (extract_string values INTERNAL_ENTITY_ID_KEY) in
  map_err GSql (
    let? data := fetch_single_row table ID_COLUMN entity_id in
    let? entity := value_mapping_from_row data ENTITY_TYPE_MAPPING false true in Ok (VObject entity)).

(** [model_union_field] of entities and of event messages *)
Definition models_statement (relation : string) : string :=
  "SELECT namespace, name, schema" +:+ newline_spaces 24 +:+ "FROM models" +:+ newline_spaces 24 +:+ "WHERE id IN (    " +:+
  newline_spaces 28 +:+ "SELECT model_id" +:+ newline_spaces 28 +:+ "FROM " +:+ relation +:+ newline_spaces 28 +:+
  "WHERE entity_id = ?" +:+ newline_spaces 24 +:+ ")".
Definition model_value (id_column entity_id : string) (model : SqliteRow) : outcome GError FieldValue :=
  let? namespace := map_err GSql (db (row_string model "namespace")) in
  let? name := map_err GSql (db (row_string model "name")) in
  let? schema := map_err GSql (db (row_string model "schema")) in
  let? schema := ok_or (GMessage "Failed to parse model schema") (schema_from_json schema) in
  let? types := build_type_mapping namespace schema in
  let? data := map_err GSql (
    let? row := fetch_row ("SELECT * FROM [" +:+ get_tag namespace name +:+ "] WHERE " +:+ id_column +:+ " = ?") [entity_id] in
    value_mapping_from_row row types false false) in
  Ok (FVTyped (FVMapping data) (type_name_from_names namespace name)).
Definition model_union_field (relation id_column : string) (parent : FieldValue) : outcome GError FieldValue :=
  let? values := parent_object parent in
  let? entity_id := map_err GExtract (extract_string values "id") in
  let? models := map_err GSql (db (fetch_all (models_statement relation) [entity_id])) in
  let? results := outcome_mapM (model_value id_column entity_id) models in
  Ok (FVList results).
Definition entity_models : FieldValue → outcome GError FieldValue := model_union_field "entity_model" ENTITY_ID_COLUMN.
Definition event_message_models : FieldValue → outcome GError FieldValue := model_union_field "event_model" EVENT_MESSAGE_ID_COLUMN.

(** ** Transactions ([object/transaction.rs]) *)
Definition calls_field (parent : FieldValue) : outcome GError GValue :=
  let? values := parent_object parent in
  let? transaction_hash := map_err GExtract (extract_string values "transactionHash") in
  map_err GSql (
    let? rows := db (fetch_all "SELECT * FROM transaction_calls WHERE transaction_hash = ?" [transaction_hash]) in
    let? results := outcome_mapM (λ row, let? call := value_mapping_from_row row CALL_MAPPING false true in Ok (VObject call)) rows in
    Ok (VList results)).
Definition transaction_transfers_statement (transaction_hash : string) : string :=
  let line s := newline_spaces 24 +:+ s in
  let column s := newline_spaces 28 +:+ s in
  line "SELECT " +:+ column "et.id," +:+ column "et.contract_address," +:+ column "et.from_address," +:+ column "et.to_address," +:+
  column "et.amount," +:+ column "et.token_id," +:+ column "et.executed_at," +:+ column "t.name," +:+ column "t.symbol," +:+
  column "t.decimals," +:+ column "c.contract_type," +:+ column "t.metadata" +:+ line "FROM" +:+
  column (TOKEN_TRANSFER_TABLE +:+ " et") +:+ line "JOIN" +:+ column "tokens t ON et.token_id = t.id" +:+ line "JOIN" +:+
  column "contracts c ON t.contract_address = c.contract_address" +:+ line "WHERE" +:+
  column ("et.event_id LIKE '%:" +:+ transaction_hash +:+ ":%'") +:+ line EmptyString.
Definition token_transfers_field (parent : FieldValue) : outcome GError FieldValue :=
  let? values := parent_object parent in
  let? transaction_hash := map_err GExtract (extract_string values "transactionHash") in
  let? rows := map_err GSql (db (fetch_all (transaction_transfers_statement transaction_hash) [transaction_hash])) in
  let? results := outcome_mapM (λ row,
    let? row := map_err GSql (transfer_from_row row) in
    let? node := map_err GMessage (token_transfer_mapping_from_row row) in Ok (FVTransfer node)) rows in
  Ok (FVList results).

(** ** Metadata ([object/metadata/mod.rs]) *)
(** [IndexMap::swap_remove]: the last entry takes the place of the one that is removed *)
Definition swap_remove {V} (key : string) (m : list (string * V)) : list (string * V) :=
  match im_get key m, last m with
  | Some _, Some l =>
      if String.eqb l.1 key then pop m else (λ e, if String.eqb e.1 key then l else e) <$> pop m
  | _, _ => m
  end.
Definition row_types : TypeMapping := swap_remove "worldAddress" METADATA_TYPE_MAPPING.
Definition extract_str_mapping (name : string) (content : Content) : string * GValue := (to_camel name, or_null (content_text content name)).
Definition social_value (s : string * option string) : outcome QError GValue :=
  let? url := unwrap s.2 in Ok (VObject [("name", VString s.1); ("url", VString url)]).
Definition extract_socials_mapping (name : string) (content : Content) : outcome QError (string * GValue) :=
  match content_object content name with
  | Some socials => let? list := outcome_mapM social_value socials in Ok (name, VList list)
  | None => Ok (name, VList [])
  end.
Definition metadata_edge (world_address : string) (row : SqliteRow) : outcome QError GValue :=
  let? order := db (row_string row ID_COLUMN) in
  let? values := value_mapping_from_row row row_types false true in
  let values := im_insert "worldAddress" (VString world_address) values in
  let? json_str := db (row_string row "json") in
  let content := content_from_str json_str in
  let? socials := extract_socials_mapping "socials" content in
  let content := collect_map [extract_str_mapping "name" content; extract_str_mapping "description" content;
    extract_str_mapping "website" content; extract_str_mapping "icon_uri" content; extract_str_mapping "cover_uri" content; socials] in
  Ok (VObject [("node", VObject (im_insert "content" (VObject content) values)); ("cursor", VString (cursor_encode order order))]).
Definition metadata_connection_output (data : list SqliteRow) (total_count : Z) (page_info : PageInfo) (world_address : string)
  : outcome QError ValueMapping :=
  let? edges := outcome_mapM (metadata_edge world_address) data in Ok (connection_values total_count edges page_info).
Definition METADATA_TABLE : string := "metadata".
Definition resolve_metadatas (args : ValueMapping) : outcome GError GValue :=
  let? connection := parse_connection_arguments args in
  map_err GSql (
    let? total_count := count_rows METADATA_TABLE None None in
    let? (data, page_info) := fetch_multiple_rows METADATA_TABLE ID_COLUMN None None None connection total_count in
    let? world_address := fetch_world_address in
    let? results := metadata_connection_output data total_count page_info world_address in
    Ok (VObject results)).
End fields.

(** ** Fields that are always there *)
Lemma im_get_insert_ne {V} k k' (v : V) m : k ≠ k' → im_get k (im_insert k' v m) = im_get k m.
Proof.
  intros Hne. induction m as [|[x w] m IH]; cbn; [by rewrite (proj2 (String.eqb_neq k' k))|].
  destruct (String.eqb_spec x k') as [ -> |Hx]; cbn; [by rewrite (proj2 (String.eqb_neq k' k))|by rewrite IH].
Qed.

Section answers.
Context `{JsonNumber} {GE : GraphqlEnv} {MT : ModelTypes} {MS : ModelTypesSpec} {SE : SchemaEnv} {MJ : MetadataJson} {CJ : ContentJson}
  `{SqlString.FeltFromStr} `{Sqlx} `{Chrono} {PL : Pool} {UT : UncheckedText}.

(** The loop that fills the entries of an object. *)
Definition fill (value : string → TypeData → outcome QError (option GValue)) : TypeMapping → ValueMapping → outcome QError ValueMapping :=
  fix go types values := match types with
  | [] => Ok values
  | (name, t) :: types => let? v := value name t in go types (match v with Some v => im_insert name v values | None => values end)
  end.
Lemma fill_other value types : ∀ values m k, fill value types values = Ok m → k ∉ types.*1 → im_get k m = im_get k values.
Proof.
  induction types as [|[x t] types IH]; intros values m k Hf Hk; cbn in Hf; [by injection Hf as <-|].
  destruct (value x t) as [o|?|]; [|done..]. cbn in Hf. apply not_elem_of_cons in Hk as [Hx Hk]. rewrite (IH _ _ _ Hf Hk).
  destruct o; [by apply im_get_insert_ne|done].
Qed.
Lemma fill_entry value types : ∀ values m x t, fill value types values = Ok m → NoDup types.*1 → (∀ y u, value y u ≠ Ok None) → (x, t) ∈ types →
  ∃ v, value x t = Ok (Some v) ∧ im_get x m = Some v.
Proof.
  induction types as [|[y u] types IH]; intros values m x t Hf Hnd Hsome Hin; [by apply elem_of_nil in Hin|]. cbn in Hf, Hnd.
  apply NoDup_cons in Hnd as [Hy Hnd]. destruct (value y u) as [o|?|] eqn:Hv; [|done..]. destruct o as [v|]; [|by apply Hsome in Hv]. cbn in Hf.
  apply elem_of_cons in Hin as [[= -> ->]|Hin]; [|by eapply IH]. exists v. split; [done|]. rewrite (fill_other _ _ _ _ _ Hf Hy). apply im_get_insert.
Qed.

Lemma fetch_string row column is_internal snake_case v : fetch_value row column "String" is_internal snake_case = Ok v → ∃ s, v = VString s.
Proof.
  unfold fetch_value. rewrite (other_names "String") by (right; right; by left). cbn. destruct (row_string _ _); [done|]. intros [= <-]. by eexists.
Qed.
Lemma build_value_some row is_internal snake_case id column t : build_value row is_internal snake_case id column t ≠ Ok None.
Proof.
  destruct t as [r|r types|t]; cbn [build_value].
  - by destruct (fetch_value _ _ _ _ _).
  - by match goal with |- outcome_bind ?o _ ≠ _ => destruct o end.
  - destruct (fetch_value _ _ _ _ _) as [v|?|] eqn:Hv; [|done..]. destruct (fetch_string _ _ _ _ _ Hv) as [s ->]. cbn.
    destruct (String.eqb s EmptyString); [done|]. destruct (value_from_json s) as [j|]; [|done]. cbn [ok_or outcome_bind].
    by match goal with |- outcome_bind ?o _ ≠ _ => destruct o end.
Qed.
Lemma value_mapping_fill row types is_internal snake_case : ∃ id, value_mapping_from_row row types is_internal snake_case =
  fill (build_value row is_internal snake_case id) types (insert_entity_id id []) ∧
  (∀ e, row_string row ENTITY_ID_COLUMN = inr e → id = Some e) ∧
  (∀ e, row_string row EVENT_MESSAGE_ID_COLUMN = inr e → id ≠ None).
Proof.
  eexists. split; [reflexivity|]. split; intros e He; [by rewrite He|]. destruct (row_string row ENTITY_ID_COLUMN); [|done]. by rewrite He.
Qed.

(** *** The fields of models *)
(** Every field of a type, down to those that are not objects, gives a value: its resolver
    does not panic, does not fail and asks nothing of the database. *)
Fixpoint answers (path : list string) (t : TypeData) (v : GValue) {struct t} : Prop :=
  match t with
  | TDNested _ types =>
      (fix go types := match types with
       | [] => True
       | (x, t) :: types => (∃ v', (∀ database : Pool, model_field path x t (FVValue v) = Ok v') ∧ answers (path ++ [x]) t v') ∧ go types
       end) types
  | _ => True
  end.
(** Names of fields are distinct, as in every [IndexMap], and not the key of the entity. *)
Fixpoint proper (t : TypeData) : Prop :=
  match t with
  | TDNested _ types =>
      NoDup types.*1 ∧ (INTERNAL_ENTITY_ID_KEY ∉ types.*1) ∧
      (fix go types := match types with [] => True | (_, t) :: types => proper t ∧ go types end) types
  | _ => True
  end.
Lemma proper_nested r types : proper (TDNested r types) → NoDup types.*1 ∧ (INTERNAL_ENTITY_ID_KEY ∉ types.*1) ∧ ∀ x t, (x, t) ∈ types → proper t.
Proof.
  intros (Hnd & Hk & Hall). split_and!; [done..|]. clear Hnd Hk. induction types as [|[y u] types IH]; intros x t Hin; [by apply elem_of_nil in Hin|].
  destruct Hall as [Hu Hall]. apply elem_of_cons in Hin as [[= -> ->]|Hin]; [done|by eapply IH].
Qed.
Lemma answers_nested path r types v :
  (∀ x t, (x, t) ∈ types → ∃ v', (∀ database : Pool, model_field path x t (FVValue v) = Ok v') ∧ answers (path ++ [x]) t v') →
  answers path (TDNested r types) v.
Proof.
  cbn [answers]. induction types as [|[x t] types IH]; intros Hall; [done|]. split; [apply Hall; left|]. apply IH. intros y u Hin. apply Hall. by right.
Qed.
Lemma built_answers row id t : ∀ path column v, proper t → build_value row false false (Some id) column t = Ok (Some v) → answers path t v.
Proof.
  induction t as [r|r types IH|t _] using TypeData_ind'; intros path column v Hp Hv; [done| |done].
  apply proper_nested in Hp as (Hnd & Hkey & Hp). cbn [build_value] in Hv.
  match type of Hv with outcome_bind ?o _ = _ => destruct o as [m|?|] eqn:Hm end; [|done..]. injection Hv as <-.
  change (fill (λ x t, build_value row false false (Some id) (field_path column x) t) types [(INTERNAL_ENTITY_ID_KEY, VString id)] = Ok m) in Hm.
  apply answers_nested. intros x t Hin.
  destruct (fill_entry _ _ _ _ _ _ Hm Hnd (λ y u, build_value_some row false false (Some id) (field_path column y) u) Hin) as (v & Hv & Hget).
  exists v. split.
  - intros database. unfold model_field. destruct t; [by rewrite Hget| |by rewrite Hget]. unfold extract_string, extract_value.
    rewrite (fill_other _ _ _ _ _ Hm Hkey). cbn. by rewrite Hget.
  - rewrite Forall_forall in IH. by eapply (IH _ Hin), Hv; eapply Hp.
Qed.
Definition has_entity_id (row : SqliteRow) : Prop :=
  (∃ e, row_string row ENTITY_ID_COLUMN = inr e) ∨ ∃ e, row_string row EVENT_MESSAGE_ID_COLUMN = inr e.
Lemma model_node_answers row r types path m : proper (TDNested r types) → has_entity_id row → value_mapping_from_row row types false false = Ok m →
  answers path (TDNested r types) (VObject m).
Proof.
  intros Hp Hid Hm. destruct (value_mapping_fill row types false false) as (id & Heq & H1' & H2'). rewrite Heq in Hm.
  assert (∃ e, id = Some e) as [e ->].
  { destruct Hid as [[e He]|[e He]]; [exists e; by apply H1'|]. apply H2' in He. destruct id; [by eexists|done]. }
  apply proper_nested in Hp as (Hnd & Hkey & Hp). apply answers_nested. intros x t Hin.
  destruct (fill_entry _ _ _ _ _ _ Hm Hnd (build_value_some row false false (Some e)) Hin) as (v & Hv & Hget). exists v. split.
  - intros database. unfold model_field. destruct t; [by rewrite Hget| |by rewrite Hget]. unfold extract_string, extract_value.
    rewrite (fill_other _ _ _ _ _ Hm Hkey). cbn. by rewrite Hget.
  - eapply built_answers; [by eapply Hp|done].
Qed.

Lemma edge_value_parts types order id_column is_internal snake_case row e : edge_value types order id_column is_internal snake_case row = Ok e →
  ∃ values cursor, value_mapping_from_row row types is_internal snake_case = Ok values ∧ e = VObject [("node", VObject values); ("cursor", VString cursor)].
Proof.
  unfold edge_value. destruct (row_cursor _ _ row) as [c|?|]; [|done..]. cbn. destruct (value_mapping_from_row _ _ _ _) as [values|?|] eqn:Hv; [|done..].
  cbn. intros [= <-]. by exists values, c.
Qed.
Lemma connection_output_edges data types order id_column total_count is_internal snake_case info conn :
  connection_output data types order id_column total_count is_internal snake_case info = Ok conn →
  ∃ edges, conn = connection_values total_count edges info ∧ Forall2 (λ row e, edge_value types order id_column is_internal snake_case row = Ok e) data edges.
Proof.
  unfold connection_output. destruct (outcome_mapM _ data) as [edges|?|] eqn:He; [|done..]. cbn. intros [= <-]. exists edges. split; [done|].
  by apply Composite.mapM_Ok.
Qed.


(** The objects known beforehand: the fields of a connection, of its edges, of the information
    of its page and of its nodes all have values, so that the [unwrap] of their resolvers is safe. *)
Definition has_fields (types : TypeMapping) (v : GValue) : Prop :=
  ∀ x t, (x, t) ∈ types → ∃ v', basic_field x (FVValue v) = Ok (FVValue v').
Theorem connection_fields_answer type_name table_name id_column types args v : NoDup types.*1 → resolve_many table_name id_column types args = Ok v →
  has_fields (connection_mapping type_name) v ∧ ∃ edges info, basic_field "edges" (FVValue v) = Ok (FVValue (VList edges)) ∧
    basic_field "pageInfo" (FVValue v) = Ok (FVValue info) ∧ has_fields PAGE_INFO_TYPE_MAPPING info ∧
    ∀ e, e ∈ edges → has_fields (edge_mapping type_name) e ∧ ∃ node, basic_field "node" (FVValue e) = Ok (FVValue node) ∧ has_fields types node.
Proof.
  intros Hnd. unfold resolve_many. destruct (parse_connection_arguments args) as [connection|?|]; [|done..]. cbn [outcome_bind].
  destruct (parse_keys_argument args) as [keys|?|]; [|done..]. cbn [outcome_bind]. destruct (count_rows _ _ _) as [total|?|]; [|done..]. cbn [outcome_bind].
  destruct (fetch_multiple_rows _ _ _ _ _ _ _) as [[data info]|?|]; [|done..]. cbn [outcome_bind].
  destruct (connection_output _ _ _ _ _ _ _ _) as [conn|?|] eqn:Hc; [|done..]. cbn. intros [= <-].
  destruct (connection_output_edges _ _ _ _ _ _ _ _ _ Hc) as (edges & -> & Hed). split.
  { intros x t Hin. unfold connection_mapping, PAGE_INFO_TYPE_MAPPING, edge_mapping in Hin. rewrite !elem_of_cons, elem_of_nil in Hin. destruct Hin as [[= -> ->]|[[= -> ->]|[[= -> ->]|[]]]]; by eexists. }
  exists edges, (page_info_value info). split; [done|]. split; [done|]. split.
  { intros x t Hin. unfold connection_mapping, PAGE_INFO_TYPE_MAPPING, edge_mapping in Hin. rewrite !elem_of_cons, elem_of_nil in Hin. destruct Hin as [[= -> ->]|[[= -> ->]|[[= -> ->]|[[= -> ->]|[]]]]]; by eexists. }
  intros e (i & He)%list_elem_of_lookup. destruct (Forall2_lookup_r _ _ _ _ _ Hed He) as (row & Hrow & Hv).
  destruct (edge_value_parts _ _ _ _ _ _ _ Hv) as (values & cursor & Hm & ->). split.
  { intros x t Hin. unfold connection_mapping, PAGE_INFO_TYPE_MAPPING, edge_mapping in Hin. rewrite !elem_of_cons, elem_of_nil in Hin. destruct Hin as [[= -> ->]|[[= -> ->]|[]]]; by eexists. }
  exists (VObject values). split; [done|]. intros x t Hin. destruct (value_mapping_fill row types false true) as (id & Heq & _). rewrite Heq in Hm.
  destruct (fill_entry _ _ _ _ _ _ Hm Hnd (build_value_some row false true id) Hin) as (v & _ & Hget). exists v. cbn. by rewrite Hget.
Qed.

(** *** Hashes without their leading zeros *)
Lemma trim_0x_length s : (String.length (SqlString.trim_0x s) ≤ String.length s)%nat.
Proof.
  enough (∀ n s, (String.length s ≤ n)%nat → (String.length (SqlString.trim_0x s) ≤ String.length s)%nat) as Hn by by eapply Hn.
  clear s. induction n as [|n IH]; intros [|a [|b s]] Hl; cbn in *; try lia. case_decide; [|cbn; lia]. specialize (IH s). lia.
Qed.
Lemma trim_start_length c s : (String.length (trim_start_char c s) ≤ String.length s)%nat.
Proof. induction s as [|a s IH]; cbn; [lia|]. destruct (Ascii.eqb a c); cbn; lia. Qed.
Lemma trimmed_length s : (String.length (trim_start_char "0" (SqlString.trim_0x (String "0" s))) ≤ String.length s)%nat.
Proof.
  destruct s as [|b s]; [done|]. cbn [SqlString.trim_0x]. case_decide as Hx.
  - pose proof (trim_0x_length s). pose proof (trim_start_length "0"%char (SqlString.trim_0x s)). cbn. lia.
  - cbn [trim_start_char]. rewrite Ascii.eqb_refl. apply (trim_start_length "0"%char (String b s)).
Qed.
Lemma stored_length h : (64 ≤ String.length (SqlString.felt_to_sql_string h))%nat.
Proof.
  unfold SqlString.felt_to_sql_string, SqlString.format_hex. rewrite append_length, SqlString.digits_string_length. unfold pad_digits.
  rewrite length_app, length_replicate. cbn [String.length]. lia.
Qed.
Lemma stored_zero h : 0 ≤ h < 16 ^ 61 → ∃ s, SqlString.felt_to_sql_string h = "0x0" +:+ s ∧ (String.length s = 61)%nat.
Proof.
  intros Hh. unfold SqlString.felt_to_sql_string, SqlString.format_hex, pad_digits. pose proof (Controllers.hex_digits_length 64 60 h Hh) as Hl.
  fold (digits_of h) in Hl. replace (64 - 2 - length (digits_of h))%nat with (Datatypes.S (61 - length (digits_of h))) by lia. cbn [replicate app].
  eexists. split; [reflexivity|]. rewrite SqlString.digits_string_length, length_app, length_replicate. lia.
Qed.
(** The text of a small hash loses its leading zeros when it is read as a field: it is then
    the text of no stored felt, and the calls of such a transaction are not found. *)
Lemma trimmed_hash h : 0 ≤ h < 16 ^ 61 → ∃ t, remove_hex_leading_zeros (VString (SqlString.felt_to_sql_string h)) = VString t ∧
  ∀ h', t ≠ SqlString.felt_to_sql_string h'.
Proof.
  intros (s & -> & Hs)%stored_zero. eexists. split; [reflexivity|]. intros h' Heq. apply (f_equal String.length) in Heq.
  pose proof (stored_length h') as Hl. rewrite <- Heq in Hl. rewrite append_length in Hl.
  pose proof (trimmed_length s) as Ht. change (SqlString.trim_0x ("0x0" +:+ s)) with (SqlString.trim_0x (String "0" s)) in Hl.
  destruct (String.eqb _ _); cbn [String.length] in Hl; lia.
Qed.
Theorem calls_not_found h values : 0 ≤ h < 16 ^ 61 →
  im_get "transactionHash" values = Some (remove_hex_leading_zeros (VString (SqlString.felt_to_sql_string h))) →
  (∀ t, (∀ h', t ≠ SqlString.felt_to_sql_string h') → fetch_all "SELECT * FROM transaction_calls WHERE transaction_hash = ?" [t] = inr []) →
  calls_field (FVValue (VObject values)) = Ok (VList []).
Proof.
  intros Hh Hget Hdb. destruct (trimmed_hash h Hh) as (t & Ht & Hno). rewrite Ht in Hget. unfold calls_field. cbn.
  unfold extract_string, extract_value. rewrite Hget. cbn. by rewrite (Hdb t Hno).
Qed.

(** *** What does not work *)
(** A tuple in an array is given no entity: an object nested in it cannot be asked for. *)
Lemma im_get_None {V} k (m : list (string * V)) : k ∉ m.*1 → im_get k m = None.
Proof.
  induction m as [|[x v] m IH]; [done|]. cbn. intros [Hx Hk]%not_elem_of_cons. rewrite (proj2 (String.eqb_neq x k)) by done. by apply IH.
Qed.
Lemma populated_tuple {E} id r types inner v : populate_value (E := E) id (TDNested r types) (VList inner) = Ok v →
  ∃ obj, v = VObject obj ∧ ∀ k w, (k, w) ∈ obj → ∃ i, k = tuple_name i.
Proof.
  cbn [populate_value]. match goal with |- outcome_bind (?g 0%nat inner) _ = _ → _ =>
    assert (∀ i items, g i inner = Ok items → ∀ k w, (k, w) ∈ items → ∃ i, k = tuple_name i) as Hgo; [|destruct (g 0%nat inner) as [items|?|] eqn:Hi; [|done..]] end.
  - induction inner as [|x inner IH]; intros i items Hi k w Hin; [injection Hi as <-; by apply elem_of_nil in Hin|].
    match type of Hi with outcome_bind ?o _ = _ => destruct o as [y|?|] end; [|done..]. cbn [outcome_bind] in Hi.
    match type of Hi with outcome_bind ?o _ = _ => destruct o as [rest|?|] eqn:Hr end; [|done..]. injection Hi as <-.
    apply elem_of_cons in Hin as [[= -> _]|Hin]; [by eexists|by eapply IH].
  - cbn. intros [= <-]. eexists. split; [done|]. intros k w Hin%collect_map_elem. by eapply Hgo.
Qed.
Lemma tuple_without_entity id r types inner v path field nested fields : populate_value (E := QError) id (TDNested r types) (VList inner) = Ok v →
  model_field path field (TDNested nested fields) (FVValue v) = Err (GExtract (NotFound INTERNAL_ENTITY_ID_KEY)).
Proof.
  intros (obj & -> & Hobj)%populated_tuple. unfold model_field, extract_string, extract_value. rewrite im_get_None; [done|].
  intros ([k w] & Hkey & Hin)%list_elem_of_fmap. destruct (Hobj _ _ Hin) as [i Hk]. cbn in Hkey. by rewrite Hk in Hkey.
Qed.
(** The entity of a model that was asked for among the models of an entity cannot be asked for. *)
Lemma union_model_without_entity table values : parent_entity table (FVMapping values) = Err (GMessage "internal: not a Value").
Proof. done. Qed.
(** A link that is not text makes the query of metadata panic. *)
Lemma social_panics name content socials s : content_object content name = Some socials → (s, None) ∈ socials → extract_socials_mapping name content = Panic.
Proof.
  intros Hc Hin. unfold extract_socials_mapping. rewrite Hc. rewrite (mapM_panics_at _ _ (s, None)); [done|done|done|].
  apply Forall_forall. intros [s' [u|]] _ e; done.
Qed.
End answers.

(** ** Witness: a row of a model with nested members *)
#[local] Existing Instances demo_number demo_env demo_types demo_types_spec demo_rows_sqlx demo_times demo_schema_env.
#[local] Instance demo_content : ContentJson := {| Content := unit; content_from_str _ := tt; content_text _ _ := None; content_object _ _ := None |}.
#[local] Instance demo_row_text : UncheckedText := {| row_unchecked := row_string |}.
#[local] Instance no_database : Pool := {| fetch_all _ _ := inl tt |}.
Definition demo_model_types : TypeMapping :=
  match build_type_mapping (E := unit) "ns" (TyStruct "M" demo_members) with Ok types => types | _ => [] end.
Definition demo_model : ModelDataObject := model_data_new "nsM" "ns_M" demo_model_types (TyStruct "M" demo_members).
Definition demo_model_row : demo_row := ("internal_event_id", "e1") :: demo_columns.
Definition demo_page : outcome QError ValueMapping :=
  connection_output (H1 := demo_rows_sqlx) [demo_model_row] (md_type_mapping demo_model) None "internal_event_id" 1 false false no_page.
Definition demo_conn : ValueMapping := match demo_page with Ok conn => conn | _ => [] end.
Lemma demo_page_ok : demo_page = Ok demo_conn.
Proof. vm_compute. reflexivity. Qed.
Lemma demo_model_proper : proper (TDNested (named (md_type_name demo_model)) (md_type_mapping demo_model)).
Proof. cbn. repeat split; first [exact I|apply (bool_decide_eq_true_1 (NoDup _)); reflexivity|apply (bool_decide_eq_true_1 (_ ∉ _)); reflexivity]. Qed.
End Objects.
