(* ===== verification/GraphqlUpdates.v ===== *)
(** * Subscriptions and messages of GraphQL ([crates/graphql/src/object])

    What a subscriber is sent for an update of an entity, an event message, an event, a model
    or a transaction, and the mutation that publishes a signed message. An update comes
    from the broker; what is sent is read from the tables again, except for events.

    A subscription gives [None] for an update it does not send. The format of times is a
    parameter. *)

From S2P Require Import Prelude Proto SqlString SqlText Executor ModelTable Wire Messages Aggregator Matching Subscriptions SubscriptionKinds Messaging Grpc.
From S2P Require Import TypedData Query StorageWrites Rows GraphqlQuery GraphqlTypes GraphqlTokens GraphqlSchema GraphqlObjects.
From Stdlib Require Import Ascii.
Local Open Scope Z_scope.
Local Open Scope torii_scope.

(** [t.format(DATETIME_FORMAT).to_string()] *)
Class DateFormat : Type := { format_datetime : DateTime → string }.

Module Updates.
Import Msg Query TypedData Gql GqlTypes GqlTokens Schema Objects.

Section updates.
Context `{JsonNumber} {GE : GraphqlEnv} {MT : ModelTypes} {SE : SchemaEnv} {DF : DateFormat} `{SqlString.FeltFromStr} `{SerdeJson} `{Sqlx} `{Chrono} {PL : Pool}.

(** [torii_sqlite::types::Entity], the columns *)
Record EntityRow : Type := mkEntityRow {
  enr_id : string; enr_entity_id : string; enr_world_address : string; enr_keys : string; enr_event_id : string;
  enr_executed_at : DateTime; enr_created_at : DateTime; enr_updated_at : DateTime
}.
Definition entity_from_row (row : SqliteRow) : outcome QError EntityRow :=
  let? id := db (row_string row "id") in
  let? entity_id := db (row_string row "entity_id") in
  let? world_address := db (row_string row "world_address") in
  let? keys := db (row_string row "keys") in
  let? event_id := db (row_string row "event_id") in
  let? executed_at := db (row_time row "executed_at") in
  let? created_at := db (row_time row "created_at") in
  let? updated_at := db (row_time row "updated_at") in
  Ok (mkEntityRow id entity_id world_address keys event_id executed_at created_at updated_at).

(** [ctx.args.get(name)], read with [string()?] *)
Definition text_argument (args : ValueMapping) (name : string) : outcome GError (option string) :=
  match im_get name args with
  | Some v => let? s := ok_or (GMessage "internal: not a string") (as_string v) in Ok (Some s)
  | None => Ok None
  end.
(** A row that cannot be read is not sent. *)
Definition read_one {A} (from_row : SqliteRow → outcome QError A) (statement id : string) (value : A → ValueMapping) : outcome unit (option GValue) :=
  match (let? row := fetch_row statement [id] in from_row row) with
  | Ok a => Ok (Some (VObject (value a)))
  | Err _ => Ok None
  | Panic => Panic
  end.

(** ** Entities and event messages ([object/entity.rs], [object/event_message.rs]) *)
(** [keys.split('/').filter(|&k| !k.is_empty())] *)
Definition key_parts (keys : string) : list string := filter (λ k, k ≠ EmptyString) (SqlString.split "/"%char keys).
Definition entity_value (e : EntityRow) : ValueMapping :=
  [("id", VString (enr_id e)); ("keys", VList (VString <$> key_parts (enr_keys e))); ("eventId", VString (enr_event_id e));
   ("createdAt", VString (format_datetime (enr_created_at e))); ("updatedAt", VString (format_datetime (enr_updated_at e)));
   ("executedAt", VString (format_datetime (enr_executed_at e)))].
Definition asked_for (id : option string) (plain scoped : string) : bool :=
  match id with None => true | Some id => String.eqb id plain || String.eqb id scoped end.
Definition entity_updated (id : option string) (update : EntityWithMetadata) : outcome unit (option GValue) :=
  let entity := ewm_entity update in
  let scoped := SqlString.format_world_scoped_id (entity_world_address entity) (hashed_keys entity) in
  if asked_for id (SqlString.felt_to_sql_string (hashed_keys entity)) scoped then
    read_one entity_from_row "SELECT * FROM entities WHERE id = ?" scoped entity_value
  else Ok None.
(** [Felt::from_str(id.string()?).unwrap()] *)
Definition felt_argument (args : ValueMapping) (name : string) : outcome GError (option Felt) :=
  let? s := text_argument args name in
  match s with Some s => let? f := unwrap (SqlString.felt_from_str s) in Ok (Some f) | None => Ok None end.
Definition event_message_statement : string := "SELECT * FROM event_messages WHERE id = ?".
Definition event_message_updated (id : option Felt) (update : EntityWithMetadata) : outcome unit (option GValue) :=
  let entity := ewm_entity update in
  if match id with None => true | Some id => id =? hashed_keys entity end then
    read_one entity_from_row event_message_statement (SqlString.felt_to_sql_string (hashed_keys entity)) entity_value
  else Ok None.

(** ** Models ([object/model.rs]) *)
Definition model_row_value (m : ModelRow) : ValueMapping :=
  [("id", VString (mr_id m)); ("name", VString (mr_name m)); ("namespace", VString (mr_namespace m)); ("classHash", VString (mr_class_hash m));
   ("contractAddress", VString (mr_contract_address m)); ("createdAt", VString (format_datetime (mr_created_at m)));
   ("executedAt", VString (format_datetime (mr_executed_at m)))].
Definition model_registered (id : option string) (update : Msg.Model) : outcome unit (option GValue) :=
  let scoped := SqlString.format_world_scoped_id (Msg.model_world_address update) (Msg.model_selector update) in
  if asked_for id (SqlString.felt_to_sql_string (Msg.model_selector update)) scoped then
    read_one model_from_row "SELECT * FROM models WHERE id = ?" scoped model_row_value
  else Ok None.

(** ** Transactions ([object/transaction.rs]) *)
Definition transaction_value (t : Rows.TransactionRow) : ValueMapping :=
  [("id", VString (Rows.txr_id t)); ("transactionHash", VString (Rows.txr_transaction_hash t)); ("senderAddress", VString (Rows.txr_sender_address t));
   ("calldata", VList (VString <$> SqlString.split "/"%char (Rows.txr_calldata t))); ("maxFee", VString (Rows.txr_max_fee t));
   ("signature", VString (Rows.txr_signature t)); ("nonce", VString (Rows.txr_nonce t)); ("executedAt", VString (to_rfc3339 (Rows.txr_executed_at t)));
   ("createdAt", VString (to_rfc3339 (Rows.txr_created_at t))); ("transactionType", VString (Rows.txr_transaction_type t));
   ("blockNumber", number (Rows.txr_block_number t))].
(** [calls.iter().any(..)]: the address is parsed for every call *)
Fixpoint any_caller (caller : string) (calls : list TransactionCall) : outcome unit bool :=
  match calls with
  | [] => Ok false
  | call :: calls =>
      let? address := unwrap (SqlString.felt_from_str caller) in
      if call_caller_address call =? address then Ok true else any_caller caller calls
  end.
Definition transaction_updated (hash caller : option string) (update : Transaction) : outcome unit (option GValue) :=
  let transaction_hash := SqlString.felt_to_sql_string (tx_transaction_hash update) in
  if match hash with None => true | Some h => String.eqb h transaction_hash end then
    let? called := match caller with None => Ok true | Some c => any_caller c (tx_calls update) end in
    if called then
      read_one (λ row, map_err (λ _, QRowNotFound) (Rows.transaction_from_row row)) "SELECT * FROM transactions WHERE transaction_hash = ?"
        transaction_hash transaction_value
    else Ok None
  else Ok None.

(** ** Events ([object/event.rs]) *)
Definition felt_texts (felts : list Felt) : GValue := VList (VString ∘ SqlString.felt_to_sql_string <$> felts).
Definition event_value (e : Msg.EventWithMetadata) : ValueMapping :=
  [("id", VString (Msg.ewm_id e)); ("keys", felt_texts (Msg.event_keys (Msg.ewm_event e))); ("data", felt_texts (Msg.event_data (Msg.ewm_event e)));
   ("transactionHash", VString (SqlString.felt_to_sql_string (Msg.event_transaction_hash (Msg.ewm_event e))));
   ("executedAt", VString (format_datetime (Msg.ewm_executed_at e))); ("createdAt", VString (format_datetime (Msg.ewm_created_at e)))].
Fixpoint match_zip (input_keys : list string) (keys : list Felt) : outcome unit bool :=
  match input_keys, keys with
  | k :: input_keys, key :: keys =>
      if String.eqb k "*" then match_zip input_keys keys
      else let? f := unwrap (SqlString.felt_from_str k) in if f =? key then match_zip input_keys keys else Ok false
  | _, _ => Ok true
  end.
Definition match_keys (input_keys : list string) (e : Msg.EventWithMetadata) : outcome unit bool :=
  let keys := Msg.event_keys (Msg.ewm_event e) in
  if (length keys <? length input_keys)%nat then Ok false else match_zip input_keys keys.
Definition match_and_map_event (input_keys : option (list string)) (e : Msg.EventWithMetadata) : outcome unit (option GValue) :=
  match input_keys with
  | Some keys => let? m := match_keys keys e in Ok (if m then Some (VObject (event_value e)) else None)
  | None => Ok (Some (VObject (event_value e)))
  end.
End updates.

(** ** The mutation ([object/publish_message.rs]) *)
Section publish.
Context `{JsonNumber} {GE : GraphqlEnv} `{HashOrder, Chrono, SqlString.FeltFromStr, SerdeJson} {DM : DojoMessage} {DV : DojoValues} {ME : MessageEnv}
  {SV : ServerEnv} `{Sqlx} {S SE : Type} {MS : MessageStorage S SE} (messaging_config : Messaging.MessagingConfig).
Definition publish_message (clock : Z * Z) (args : ValueMapping) : st S GError GValue :=
  let! signature_strings := st_lift (map_err GExtract (extract_strings args "signature")) in
  let! message := st_lift (map_err GExtract (extract_string args "message")) in
  let! world_address := st_lift (map_err GExtract (extract_string args "worldAddress")) in
  let! world_address := st_lift (ok_or (GMessage "not a felt") (SqlString.felt_from_str world_address)) in
  let! signature := st_lift (outcome_mapM (λ s, ok_or (GMessage "Invalid signature") (SqlString.felt_from_str s)) signature_strings) in
  let! typed_data := st_lift (ok_or (GMessage "Invalid message JSON") (typed_data_from_json message)) in
  let! entity_id := st_map_err (λ e, GMessage ("Failed to publish message: " +:+ messaging_error_text e))
    (Messaging.validate_and_set_entity messaging_config clock.1 clock.2 world_address typed_data signature) in
  st_ret (VObject [("id", VString entity_id)]).
End publish.

(** ** Theorems *)
Section theorems.
Context `{JsonNumber} {GE : GraphqlEnv} {MT : ModelTypes} {SE : SchemaEnv} {DF : DateFormat} `{SqlString.FeltFromStr} `{SerdeJson} `{Sqlx} `{Chrono} {PL : Pool}.

(** The keys a client asks for: a felt, or any. *)
Definition key_pattern (raw : list string) : option (list (option Felt)) :=
  mapM (λ k, if String.eqb k "*" then Some None else Some <$> SqlString.felt_from_str k) raw.
Fixpoint key_prefix (pattern : list (option Felt)) (keys : list Felt) : bool :=
  match pattern, keys with
  | [], _ => true
  | _ :: _, [] => false
  | p :: pattern, k :: keys => match p with None => true | Some f => f =? k end && key_prefix pattern keys
  end.
Lemma key_prefix_long pattern keys : (length keys < length pattern)%nat → key_prefix pattern keys = false.
Proof.
  revert keys. induction pattern as [|p pattern IH]; intros keys Hl; cbn in Hl; [lia|]. destruct keys as [|k keys]; [done|]. cbn in *. rewrite IH by lia. by rewrite andb_false_r.
Qed.
Lemma felt_text_not_star f : SqlString.felt_to_sql_string f ≠ "*".
Proof. done. Qed.
Context (from_str_ok : ∀ s f, SqlString.felt_from_str s = Some f → SqlString.felt_ok f).
Lemma parsed_keys raw : ∀ pattern, key_pattern raw = Some pattern → ∃ ks, outcome_mapM parse_key raw = Ok ks ∧ length ks = length pattern ∧
  ∀ keys, (length pattern ≤ length keys)%nat → match_zip ks keys = Ok (key_prefix pattern keys).
Proof.
  induction raw as [|k raw IH]; intros pattern Hp; [injection Hp as <-; by exists []|]. unfold key_pattern in Hp. cbn in Hp.
  apply bind_Some in Hp as (p & Hk & (ps & Hps & [= <-])%bind_Some). destruct (IH ps Hps) as (ks & Hks & Hl & Hm). cbn [outcome_mapM].
  unfold parse_key at 1. destruct (String.eqb k "*") eqn:Hstar.
  - injection Hk as <-. cbn. rewrite Hks. cbn. eexists. split; [done|]. split; [cbn; by rewrite Hl|]. intros [|key keys] Hlen; cbn in Hlen; [lia|].
    cbn. apply Hm. lia.
  - apply fmap_Some in Hk as (f & Hf & ->). rewrite Hf. cbn. rewrite Hks. cbn. eexists. split; [done|]. split; [cbn; by rewrite Hl|].
    intros [|key keys] Hlen; cbn in Hlen; [lia|]. cbn [match_zip]. rewrite (proj2 (String.eqb_neq _ _) (felt_text_not_star f)).
    unfold SqlString.felt_to_sql_string. rewrite (SqlString.felt_from_format 64 f (from_str_ok _ _ Hf)). cbn. destruct (f =? key); [apply Hm; lia|done].
Qed.

(** A subscriber to events with keys is sent exactly the events whose keys begin with those it
    asked for, where a star stands for any key, with every field of the event; the keys are
    compared as felts, however they were written. One without keys is sent every event. *)
Theorem event_emitted_exact (args : ValueMapping) (e : Msg.EventWithMetadata) :
  (extract_strings args "keys" = Err (NotFound "keys") →
     (let? keys := map_err (λ _, tt) (parse_keys_argument args) in match_and_map_event keys e) = Ok (Some (VObject (event_value e)))) ∧
  (∀ raw pattern, extract_strings args "keys" = Ok raw → forallb is_hex_or_star raw = true → key_pattern raw = Some pattern →
     (let? keys := map_err (λ _, tt) (parse_keys_argument args) in match_and_map_event keys e) =
       Ok (if key_prefix pattern (Msg.event_keys (Msg.ewm_event e)) then Some (VObject (event_value e)) else None)).
Proof.
  unfold parse_keys_argument. split; [by intros ->|]. intros raw pattern -> Hhex Hp. rewrite Hhex. destruct (parsed_keys raw pattern Hp) as (ks & -> & Hl & Hm).
  cbn [outcome_bind map_err match_and_map_event]. unfold match_keys. rewrite Hl. destruct (Nat.ltb_spec (length (Msg.event_keys (Msg.ewm_event e))) (length pattern)).
  - by rewrite key_prefix_long.
  - by rewrite Hm.
Qed.

(** What is sent has every field of its type; only a model lacks the hash of its transaction,
    and asking for it makes the subscription panic. *)
Theorem updates_have_fields (e : EntityRow) (ev : Msg.EventWithMetadata) (t : Rows.TransactionRow) (m : ModelRow) :
  has_fields ENTITY_TYPE_MAPPING (VObject (entity_value e)) ∧ has_fields EVENT_TYPE_MAPPING (VObject (event_value ev)) ∧
  has_fields TRANSACTION_MAPPING (VObject (transaction_value t)) ∧
  (∀ x u, (x, u) ∈ MODEL_TYPE_MAPPING → basic_field x (FVValue (VObject (model_row_value m))) = Panic ↔ x = "transactionHash").
Proof.
  assert (∀ (types : TypeMapping) (values : ValueMapping), forallb (λ f, bool_decide (is_Some (im_get f.1 values))) types = true → has_fields types (VObject values)) as Hall.
  { intros types values Hb x u Hin. rewrite forallb_forall in Hb. apply list_elem_of_In, Hb, bool_decide_eq_true in Hin as [v Hv]. exists v. cbn in *. by rewrite Hv. }
  split_and!; [by apply Hall..|]. intros x u Hin. unfold MODEL_TYPE_MAPPING in Hin. rewrite !elem_of_cons, elem_of_nil in Hin.
  repeat destruct Hin as [[= -> ->]|Hin]; [..|done]; split; done.
Qed.

(** Event messages are stored under the identifiers of their world, but looked up without it:
    their subscription never sends anything. *)
Theorem event_messages_never_sent (id : option Felt) (update : EntityWithMetadata) :
  (∀ key rows row, fetch_all event_message_statement [key] = inr rows → row ∈ rows → row_string row "id" = inr key) →
  (∀ key rows row, fetch_all event_message_statement [key] = inr rows → row ∈ rows →
     ∃ w k, SqlString.felt_ok w ∧ SqlString.felt_ok k ∧ row_string row "id" = inr (SqlString.format_world_scoped_id w k)) →
  SqlString.felt_ok (hashed_keys (ewm_entity update)) →
  event_message_updated id update = Ok None.
Proof.
  intros Hkey Hscoped Hf. unfold event_message_updated, read_one, fetch_row. case_match; [|done].
  destruct (fetch_all _ _) as [e|[|row rows]] eqn:Hrows; [done..|]. exfalso.
  pose proof (Hkey _ _ _ Hrows (list_elem_of_here _ _)) as H1'. destruct (Hscoped _ _ _ Hrows (list_elem_of_here _ _)) as (w & k & Hw & Hk & H2').
  rewrite H1' in H2'. pose proof (inj inr _ _ H2') as Heq. apply (f_equal (SqlString.split ":"%char)) in Heq.
  unfold SqlString.felt_to_sql_string, SqlString.format_world_scoped_id in Heq.
  rewrite SqlString.split_sep in Heq by (apply SqlString.format_hex_free; [by left|by apply SqlString.felt_ok_bound]).
  rewrite !SqlString.split_free in Heq by (apply SqlString.format_hex_free; [by left|by apply SqlString.felt_ok_bound]). done.
Qed.
End theorems.

Section publish_theorem.
Context `{JsonNumber} {GE : GraphqlEnv} `{HashOrder, Chrono, SqlString.FeltFromStr, SerdeJson} {DM : DojoMessage} {DV : DojoValues} {ME : MessageEnv}
  {SV : ServerEnv} {SQ : SqlDecode} `{Sqlx} {S SE : Type} {RS : ReadOnlyStorage S SE} {MS : MessageStorage S SE} (messaging_config : Messaging.MessagingConfig).
(** A message published with GraphQL writes what the same message writes when the gRPC server
    handles it, and is accepted exactly when it is accepted there. *)
Theorem graphql_publishes_as_grpc clock args signature_strings signature message address world_address (w : Server.DojoWorld) :
  extract_strings args "signature" = Ok signature_strings → mapM SqlString.felt_from_str signature_strings = Some signature →
  extract_string args "message" = Ok message → extract_string args "worldAddress" = Ok address → SqlString.felt_from_str address = Some world_address →
  let '(r, s) := publish_message messaging_config clock args (Server.storage w) in
  let '(r', w') := Server.handle_message messaging_config clock signature message world_address w in
  s = Server.storage w' ∧
  (∀ id, r = Ok (VObject [("id", VString id)]) ↔ r' = Ok id).
Proof.
  intros Hs Hsig Hm Ha Hw.
  assert (outcome_mapM (λ s, ok_or (GMessage "Invalid signature") (SqlString.felt_from_str s)) signature_strings = Ok (E := @GError _) signature) as Hsigs.
  { revert signature Hsig. clear. induction signature_strings as [|t ts IH]; intros signature Hsig; cbn in Hsig; [by injection Hsig as <-|].
    apply bind_Some in Hsig as (f & Hf & (fs & Hfs & [= <-])%bind_Some). cbn. rewrite Hf. cbn. by rewrite (IH _ Hfs). }
  unfold publish_message, Server.handle_message, st_bind, st_lift, st_ret, st_map_err, Server.on_storage, st_zoom.
  rewrite Hs, Hm, Ha. cbn [map_err]. rewrite Hw, Hsigs. cbn [ok_or].
  destruct (typed_data_from_json message) as [typed|]; cbn [ok_or]; [|by split_and!].
  destruct (Messaging.validate_and_set_entity _ _ _ _ _ _ _) as [[id|e|] s]; cbn [map_err];
    (split; [done|]); intros id'; split; intros Hx; try discriminate Hx; by injection Hx as ->.
Qed.
End publish_theorem.
End Updates.
