(* ===== verification/Engine.v ===== *)
(** * The indexing engine ([crates/indexer/engine/src]: engine.rs, lib.rs, error.rs)

    The engine fetches a batch, sorts its events into tasks, runs the tasks,
    applies the balance differences, writes the cursors, and commits; when
    processing fails it rolls back, resets the cache to what is committed, drops
    the tasks, keeps the fetched batch and tries again after a delay.

    The engine talks to the storage through [IndexerStorage]; the cache is the
    in-memory one. Processors are functions on the shared [World]. The handlers
    of a level run concurrently: in [tasks_world] each takes effect when it
    finishes, in any order the task network allows. A handler that panics leaves
    the others of its level running in the background: runs with such a panic
    are not described by [process]. Controller synchronisation runs in the
    background: it is an arbitrary relation that may take steps between the turns
    of the loop, around the processing of a batch and between the handlers.
    Polling and the delays are not timed; the delays are kept. *)

From S2P Require Import Prelude Math Proto PetGraph AcyclicDigraphMap TaskNetwork.
From S2P Require Import EventProcessor TaskManager Cache SqlString Database Executor World Fetcher Storage.
Import Cache.
Local Open Scope Z_scope.
Local Open Scope torii_scope.

Module Engine.

Record EngineConfig : Type := mkEngineConfig {
  fetcher_config : Fetcher.FetcherConfig;
  max_concurrent_tasks : nat;
  raw_events : bool;
  event_processor_config : EventProcessorConfig
}.

Section data.
Context `{StarknetTypes} `{!IndexMap} `{DojoTypes} {DM : DashMap}.
Context `{!LinkedHashMap EventKey} `{!DiGraphOps Tm.TaskData}.
Context (S PE : Type).

Inductive ProcessError : Type :=
| ProcessorsError (e : PE)
| TasksError (e : Tm.tm_error PE)
| ProcessStorage (e : StorageError).

Inductive EngineError : Type :=
| FetcherError (e : Fetcher.Error)
| CacheError (e : Cache.Error)
| EngineStorage (e : StorageError).

(** [calls] counts the calls of the node. *)
Record Engine : Type := mkEngine {
  world : World S;
  task_manager : Tm.TaskManager (World S) PE TransactionContent;
  cached_fetch : option (Fetcher.FetchResult * gmap Felt ContractType);
  calls : nat
}.
End data.
Arguments ProcessorsError {PE}.
Arguments TasksError {PE}.
Arguments ProcessStorage {PE}.
Arguments mkEngine {_ _ _ _ _ _ S PE}.
Arguments world {_ _ _ _ _ _ S PE}.
Arguments task_manager {_ _ _ _ _ _ S PE}.
Arguments cached_fetch {_ _ _ _ _ _ S PE}.
Arguments calls {_ _ _ _ _ _ S PE}.

Section operations.
Context `{StarknetTypes} `{!IndexMap} `{!Node} `{DojoTypes} {DM : DashMap} {U : U256Ops}.
Context `{!LinkedHashMap EventKey} `{!DiGraphOps Tm.TaskData} {HO : HashOrder}.
Context {S PE : Type} `{!IndexerStorage S}.
#[local] Abbreviation world_t := (World S).
#[local] Abbreviation engine := (Engine S PE).
Context (config : EngineConfig) (processors : Processors (World S) PE TransactionContent).
(** [selector!(..)] of the five names in [DOJO_RELATED_EVENTS] *)
Context (dojo_related_events : gset Felt).
#[local] Abbreviation run A := (st engine (ProcessError PE) A).

Definition set_world (w : world_t) (e : engine) : engine :=
  mkEngine w (task_manager e) (cached_fetch e) (calls e).
Definition set_task_manager m (e : engine) : engine := mkEngine (world e) m (cached_fetch e) (calls e).
Definition set_cached_fetch c (e : engine) : engine := mkEngine (world e) (task_manager e) c (calls e).
Definition set_calls n (e : engine) : engine := mkEngine (world e) (task_manager e) (cached_fetch e) n.

Definition new (w : world_t) : engine :=
  mkEngine w (Tm.new processors (max_concurrent_tasks config) (event_processor_config config)) None 0.

(** Calls on the world and on its storage. *)
Definition on_world {E E' A} (f : E → E') (m : st world_t E A) : st engine E' A :=
  st_map_err f (st_zoom world set_world m).
Definition on_storage {E A} (f : StorageError → E) (m : st S StorageError A) : st engine E A :=
  st_map_err f (st_zoom (λ e, storage (world e))
    (λ s e, set_world (set_storage s (world e)) e) m).
Definition on_cache {E E' A} (f : E → E') (m : st Cache.InMemoryCache E A) : st engine E' A :=
  st_map_err f (st_zoom (λ e, cache (world e))
    (λ c e, set_world (set_cache c (world e)) e) m).

(** ** Events *)
Definition process_event (block_number block_timestamp : Z) (event_id : string) (event : Event)
    (transaction_hash : Felt) (contract_type : ContractType) (is_at_head : bool) : run unit :=
  (if raw_events config then
     on_storage ProcessStorage (store_event event_id event transaction_hash block_timestamp)
   else st_ret tt) ;;;
  let! event_key := st_lift (unwrap (keys event !! 0%nat)) in
  let! procs := st_lift (unwrap (get_event_processors processors contract_type)) in
  match procs !! event_key with
  | None =>
      let ctx := mkCtx (from_address event) block_number block_timestamp event_id event
                   (event_processor_config config) is_at_head in
      if validate (catch_all_event processors) event
      then on_world ProcessorsError (EventProcessor.process (catch_all_event processors) ctx)
      else st_ret tt
  | Some procs =>
      let! processor := st_lift (unwrap (find (λ p, validate p event) procs)) in
      let! task_identifier := st_lift (unwrap (task_identifier processor event)) in
      let! dependencies := st_lift (unwrap (task_dependencies processor event)) in
      let! indexing_mode := st_lift (unwrap (indexing_mode processor event (event_processor_config config))) in
      st_modify (λ e, set_task_manager
        (Tm.add_parallelized_event_with_dependencies task_identifier dependencies
           (Tm.mkPE indexing_mode contract_type (from_address event) block_number block_timestamp
              event_id event is_at_head) (task_manager e)) e)
  end.

(** ** Transactions and blocks *)

(** The loop over the events of a transaction, from an index on, collecting the
    contracts and models it touches. *)
Fixpoint process_events (block_number block_timestamp : Z) (transaction_hash : Felt)
    (contracts : gmap Felt ContractType) (is_at_head : bool) (event_idx : nat) (events : list Event)
    (unique_contracts unique_models : gset Felt) : run (gset Felt * gset Felt) :=
  match events with
  | [] => st_ret (unique_contracts, unique_models)
  | event :: events =>
      let event_id := SqlString.format_event_id block_number transaction_hash (from_address event)
                        (Z.of_nat event_idx) in
      match contracts !! from_address event with
      | None =>
          process_events block_number block_timestamp transaction_hash contracts is_at_head
            (Datatypes.S event_idx) events unique_contracts unique_models
      | Some contract_type =>
          let unique_contracts := {[from_address event]} ∪ unique_contracts in
          let! event_key := st_lift (unwrap (keys event !! 0%nat)) in
          let! unique_models :=
            (if bool_decide (contract_type = WORLD) && bool_decide (event_key ∈ dojo_related_events) then
               let! model := st_lift (unwrap (keys event !! 1%nat)) in
               st_ret ({[model]} ∪ unique_models)
             else st_ret unique_models) in
          process_event block_number block_timestamp event_id event transaction_hash contract_type is_at_head ;;;
          process_events block_number block_timestamp transaction_hash contracts is_at_head
            (Datatypes.S event_idx) events unique_contracts unique_models
      end
  end.

Definition process_transaction (block_number block_timestamp : Z) (transaction_hash : Felt)
    (contract_addresses : gset Felt) (transaction : TransactionContent) (unique_models : gset Felt)
  : run unit :=
  let ctx := mkTxCtx block_number block_timestamp transaction_hash transaction contract_addresses
               unique_models in
  for_each (λ p, on_world ProcessorsError (p ctx)) (proc_transaction processors).

Definition process_transaction_with_events (transaction_hash : Felt) (block_number block_timestamp : Z)
    (contracts : gmap Felt ContractType) (is_at_head : bool) (tx : Fetcher.FetchTransaction) : run unit :=
  let! (unique_contracts, unique_models) :=
    process_events block_number block_timestamp transaction_hash contracts is_at_head 0
      (Fetcher.ft_events tx) ∅ ∅ in
  match Fetcher.ft_transaction tx with
  | Some transaction =>
      process_transaction block_number block_timestamp transaction_hash unique_contracts transaction
        unique_models
  | None => st_ret tt
  end ;;;
  match Fetcher.ft_receipt tx with
  | Some receipt => on_storage ProcessStorage (store_transaction_receipt receipt block_timestamp)
  | None => st_ret tt
  end.

Definition process_block (block_number block_timestamp : Z) : run unit :=
  for_each (λ p, on_world ProcessorsError (block_process p block_number block_timestamp))
    (proc_block processors).

(** The transactions of a block, those without events skipped. *)
Definition process_transactions (block_number block_timestamp : Z) (contracts : gmap Felt ContractType)
    (is_at_head : bool) (txs : im Fetcher.FetchTransaction) : run unit :=
  for_each (λ '(transaction_hash, tx),
    if bool_decide (Fetcher.ft_events tx = []) then st_ret tt
    else process_transaction_with_events transaction_hash block_number block_timestamp contracts is_at_head tx)
    (im_iter txs).

(** Every block is visited once, so it is always processed. *)
Definition process_range (range : Fetcher.FetchRangeResult) (contracts : gmap Felt ContractType)
    (is_at_head : bool) : run unit :=
  for_each (λ '(block_number, block),
    process_transactions block_number (Fetcher.timestamp block) contracts is_at_head
      (Fetcher.transactions block) ;;;
    process_block block_number (Fetcher.timestamp block)) (Fetcher.bmap_iter (Fetcher.blocks range)).

Definition process_pending (data : Fetcher.FetchPreconfirmedBlockResult)
    (contracts : gmap Felt ContractType) (is_at_head : bool) : run unit :=
  process_transactions (Fetcher.fp_block_number data) (Fetcher.fp_timestamp data) contracts is_at_head
    (Fetcher.fp_transactions data).

(** ** A batch *)
Definition is_at_head (fr : Fetcher.FetchResult) : bool :=
  match Fetcher.preconfirmed_block fr with
  | Some _ => true
  | None =>
      let heads := omap head (hm_values (Fetcher.cursors (Fetcher.fetched_cursors fr))) in
      match heads with
      | [] => false
      | h :: hs => let max_head := foldr Z.max h hs in forallb (λ x, x =? max_head) heads
      end
  end.

(** Up to the tasks. *)
Definition sort_events (fr : Fetcher.FetchResult) (contracts : gmap Felt ContractType) : run unit :=
  process_range (Fetcher.range fr) contracts (is_at_head fr) ;;;
  match Fetcher.preconfirmed_block fr with
  | Some block => process_pending block contracts true
  | None => st_ret tt
  end.

(** After the tasks. *)
Definition finish (fr : Fetcher.FetchResult) : run unit :=
  let cs := Fetcher.fetched_cursors fr in
  let! e := st_get in
  on_storage ProcessStorage (apply_balances_diff (Cache.balances_diff_map (cache (world e)))
    (Cache.total_supply_diff_map (cache (world e))) (Fetcher.cursors cs)) ;;;
  st_modify (λ e, set_world (set_cache (Cache.clear_balances_diff (cache (world e))) (world e)) e) ;;;
  on_storage ProcessStorage (update_cursors (Fetcher.cursors cs) (Fetcher.cursor_transactions cs)).

(** What a step of the background synchronisation of controllers may do. *)
Context (controllers : relation world_t).
Definition with_controllers (e e' : engine) : Prop :=
  ∃ w, rtc controllers (world e) w ∧ e' = set_world w e.

(** The effect on the world of the handlers of a log. *)
Inductive tasks_world (m : Tm.TaskManager world_t PE TransactionContent)
  : list (Tn.event (K := TaskId) (E := PE)) → world_t → world_t → Prop :=
| tw_nil w : tasks_world m [] w w
| tw_started k l w w' : tasks_world m l w w' → tasks_world m (Tn.Started k :: l) w w'
| tw_controllers l w w1 w' : controllers w w1 → tasks_world m l w1 w' → tasks_world m l w w'
| tw_finished k d r l w w1 w' :
    Adm.get k (Tn.tasks (Tm.task_network m)) = Some d →
    Tm.run_task (Tm.processors m) (Tm.event_processor_config m) d w = (r, w1) → r ≠ Panic →
    tasks_world m l w1 w' → tasks_world m (Tn.Finished k r :: l) w w'.

(** [process] can return [r] and leave [e']. *)
Inductive process (fr : Fetcher.FetchResult) (contracts : gmap Felt ContractType)
  : engine → outcome (ProcessError PE) unit → engine → Prop :=
| process_sort_Err e x e' : sort_events fr contracts e = (Err x, e') → process fr contracts e (Err x) e'
| process_sort_Panic e e' : sort_events fr contracts e = (Panic, e') → process fr contracts e Panic e'
| process_tasks_Err e e1 x l m' w' :
    sort_events fr contracts e = (Ok tt, e1) →
    Tm.process_tasks (task_manager e1) (Err x) l m' → tasks_world (task_manager e1) l (world e1) w' →
    process fr contracts e (Err (TasksError x)) (set_world w' (set_task_manager m' e1))
| process_tasks_Ok e e1 l m' w' r e' :
    sort_events fr contracts e = (Ok tt, e1) →
    Tm.process_tasks (task_manager e1) (Ok tt) l m' → tasks_world (task_manager e1) l (world e1) w' →
    finish fr (set_world w' (set_task_manager m' e1)) = (r, e') →
    process fr contracts e r e'.

(** ** The loop *)

(** [get_contracts] and the fetch, when no batch is kept. *)
Definition fetch_batch (fuel : nat) (e : engine)
  : outcome EngineError (option (Fetcher.FetchResult * gmap Felt ContractType)) * engine :=
  match contracts (storage (world e)) with
  | Err x => (Err (EngineStorage x), e)
  | Panic => (Panic, e)
  | Ok infos =>
      let by_address : gmap Felt ContractInfo := list_to_map ((λ i, (info_address i, i)) <$> infos) in
      let '(r, n) := Fetcher.fetch (fetcher_config config) fuel (info_cursor <$> by_address) (calls e) in
      (match r with
       | Ok (Some fr) => Ok (Some (fr, info_type <$> by_address))
       | Ok None => Ok None
       | Err x => Err (FetcherError x)
       | Panic => Panic
       end, set_calls n e)
  end.

(** After a failure: roll back, reset the cache, drop the tasks. *)
Definition recover : st engine EngineError unit :=
  on_storage EngineStorage rollback ;;;
  let! e := st_get in
  on_cache CacheError (Cache.reset_to_committed_storage (token_ids (storage (world e)))) ;;;
  st_modify (λ e, set_task_manager (Tm.clear_tasks (task_manager e)) e).

Definition max_backoff_delay : Z := 60.
Definition next_delay (delay : Z) : Z := if delay <? max_backoff_delay then delay * 2 else delay.

Inductive status : Type := Running | Returned (r : outcome EngineError unit).

Record Loop : Type := mkLoop {
  engine_of : engine;
  fetching_backoff_delay : Z;
  processing_backoff_delay : Z;
  fetching_erroring_out : bool;
  processing_erroring_out : bool;
  status_of : status
}.

Definition start_loop (e : engine) : Loop := mkLoop e 1 1 false false Running.

(** The batch to process: the one kept, or a new one, which is kept. *)
Inductive batch : engine → Fetcher.FetchResult * gmap Felt ContractType → engine → Prop :=
| batch_kept e b : cached_fetch e = Some b → batch e b e
| batch_fetched e fuel b e' :
    cached_fetch e = None → fetch_batch fuel e = (Ok (Some b), e') → batch e b (set_cached_fetch (Some b) e').

(** Delays and flags after a batch was obtained. *)
Definition fetch_ok (l : Loop) (kept : bool) : Z * bool :=
  if fetching_erroring_out l && negb kept then (1, false)
  else (fetching_backoff_delay l, fetching_erroring_out l).

Definition set_engine (e : engine) (l : Loop) : Loop :=
  mkLoop e (fetching_backoff_delay l) (processing_backoff_delay l) (fetching_erroring_out l)
    (processing_erroring_out l) (status_of l).

(** One turn of the loop. *)
Inductive turn : Loop → Loop → Prop :=
| turn_background l e : with_controllers (engine_of l) e → turn l (set_engine e l)
| turn_shutdown l :
    status_of l = Running →
    turn l (mkLoop (engine_of l) (fetching_backoff_delay l) (processing_backoff_delay l)
             (fetching_erroring_out l) (processing_erroring_out l) (Returned (Ok tt)))
| turn_fetch_error l fuel x e :
    status_of l = Running → cached_fetch (engine_of l) = None →
    fetch_batch fuel (engine_of l) = (Err x, e) →
    turn l (mkLoop (set_cached_fetch None e) (next_delay (fetching_backoff_delay l))
             (processing_backoff_delay l) true (processing_erroring_out l) Running)
| turn_processed l b e1 e2 e3 e4 r e5 :
    status_of l = Running → batch (engine_of l) b e1 → with_controllers e1 e2 →
    process b.1 b.2 e2 (Ok tt) e3 → with_controllers (set_cached_fetch None e3) e4 →
    on_storage EngineStorage execute e4 = (r, e5) →
    let f := fetch_ok l (bool_decide (is_Some (cached_fetch (engine_of l)))) in
    turn l (mkLoop e5 f.1 (if processing_erroring_out l then 1 else processing_backoff_delay l) f.2 false
             (match r with Ok _ => Running | _ => Returned r end))
| turn_failed l b e1 e2 x e3 r e4 :
    status_of l = Running → batch (engine_of l) b e1 → with_controllers e1 e2 →
    process b.1 b.2 e2 (Err x) e3 → recover e3 = (r, e4) →
    let f := fetch_ok l (bool_decide (is_Some (cached_fetch (engine_of l)))) in
    turn l (match r with
            | Ok _ => mkLoop e4 f.1 (next_delay (processing_backoff_delay l)) f.2 true Running
            | _ => mkLoop e4 f.1 (processing_backoff_delay l) f.2 true (Returned r)
            end)
| turn_panicked l b e1 e2 e3 :
    status_of l = Running → batch (engine_of l) b e1 → with_controllers e1 e2 →
    process b.1 b.2 e2 Panic e3 →
    let f := fetch_ok l (bool_decide (is_Some (cached_fetch (engine_of l)))) in
    turn l (mkLoop e3 f.1 (processing_backoff_delay l) f.2 (processing_erroring_out l) (Returned Panic)).
End operations.

(** ** What processing may do *)
Section framing.
Context `{StarknetTypes} `{!IndexMap} `{!Node} `{DojoTypes} {DM : DashMap} {U : U256Ops}.
Context `{!LinkedHashMap EventKey} `{!DiGraphOps Tm.TaskData} {HO : HashOrder}.
Context {S PE : Type} `{!IndexerStorage S, !IndexerStorageSpec S}.
#[local] Abbreviation world_t := (World S).
#[local] Abbreviation engine := (Engine S PE).
Context (config : EngineConfig) (processors : Processors (World S) PE TransactionContent).
Context (dojo_related_events : gset Felt) (controllers : relation (World S)).

(** Committed storage stays. *)
Definition world_writes (w w' : world_t) : Prop := committed (storage w') = committed (storage w).
#[global] Instance world_writes_preorder : PreOrder world_writes.
Proof. split; unfold world_writes; [by intros w|intros w1 w2 w3; congruence]. Qed.

(** Controller synchronisation writes to the open transaction only. *)
Definition controllers_write : Prop :=
  ∀ w w', controllers w w' → world_writes w w' ∧ cache w' = cache w.

(** Processors write to the storage and the cache; none of them commits. *)
Record processors_write : Prop := {
  event_writes ct m k l p ctx : event_processors processors !! ct = Some m → m !! k = Some l → p ∈ l →
    keeps world_writes (EventProcessor.process p ctx);
  catch_all_writes ctx : keeps world_writes (EventProcessor.process (catch_all_event processors) ctx);
  transaction_writes p ctx : p ∈ proc_transaction processors → keeps world_writes (p ctx);
  block_writes p n t : p ∈ proc_block processors → keeps world_writes (block_process p n t)
}.
Context (Hprocs : processors_write) (Hctrl : controllers_write).

(** Committed storage, the kept batch and the processors stay. *)
Definition engine_writes (e e' : engine) : Prop :=
  world_writes (world e) (world e') ∧ cached_fetch e' = cached_fetch e ∧
  Tm.processors (task_manager e') = Tm.processors (task_manager e).
#[global] Instance engine_writes_preorder : PreOrder engine_writes.
Proof.
  split; unfold engine_writes, world_writes; [by intros e|].
  intros e1 e2 e3 (? & ? & ?) (? & ? & ?). split_and!; congruence.
Qed.

Lemma keeps_on_world {E E' A} (f : E → E') (m : st world_t E A) :
  keeps world_writes m → keeps engine_writes (on_world f m).
Proof.
  intros Hm e. unfold on_world, st_map_err, st_zoom. specialize (Hm (world e)).
  by destruct (m (world e)) as [r w].
Qed.
Lemma keeps_on_storage {E A} (f : StorageError → E) (m : st S StorageError A) :
  keeps same_committed m → keeps engine_writes (on_storage f m).
Proof.
  intros Hm e. unfold on_storage, st_map_err, st_zoom. specialize (Hm (storage (world e))).
  by destruct (m (storage (world e))) as [r s].
Qed.
Lemma keeps_on_cache {E E' A} (f : E → E') (m : st Cache.InMemoryCache E A) :
  keeps engine_writes (on_cache f m).
Proof. intros e. unfold on_cache, st_map_err, st_zoom. by destruct (m (cache (world e))) as [r c]. Qed.
Lemma keeps_add_event {E} id deps pe :
  keeps engine_writes (st_modify (E := E) (λ e, set_task_manager
    (Tm.add_parallelized_event_with_dependencies id deps pe (task_manager e)) e)).
Proof.
  intros e. split_and!; [done..|]. simpl. unfold Tm.add_parallelized_event_with_dependencies.
  by destruct (Tn.get_mut _ _ _).
Qed.
#[local] Hint Resolve keeps_on_world keeps_on_storage keeps_add_event store_event_spec store_receipt_spec
  apply_balances_spec update_cursors_spec catch_all_writes : torii.

Lemma keeps_process_event bn bt id ev h ct head :
  keeps engine_writes (process_event config processors bn bt id ev h ct head).
Proof. unfold process_event. keeps_solve. Qed.
#[local] Hint Resolve keeps_process_event : torii.

Lemma keeps_process_events bn bt h cs head i evs uc um :
  keeps engine_writes (process_events config processors dojo_related_events bn bt h cs head i evs uc um).
Proof.
  revert i uc um. induction evs as [|ev evs IH]; intros i uc um; simpl; [keeps_solve|].
  destruct (cs !! from_address ev); keeps_solve; auto with torii.
Qed.
#[local] Hint Resolve keeps_process_events : torii.

Lemma keeps_process_transaction_with_events h bn bt cs head tx :
  keeps engine_writes (process_transaction_with_events config processors dojo_related_events h bn bt cs head tx).
Proof.
  assert (∀ bn bt h ca t um, keeps engine_writes (process_transaction processors bn bt h ca t um)) as Htx.
  { intros. apply keeps_for_each_in; [apply _|]. intros p Hp. apply keeps_on_world.
    by apply (transaction_writes Hprocs). }
  unfold process_transaction_with_events. keeps_solve.
Qed.
#[local] Hint Resolve keeps_process_transaction_with_events : torii.

Lemma keeps_sort_events fr cs :
  keeps engine_writes (sort_events config processors dojo_related_events fr cs).
Proof.
  assert (∀ bn bt, keeps engine_writes (process_block processors bn bt)) as Hblock.
  { intros. apply keeps_for_each_in; [apply _|]. intros p Hp. apply keeps_on_world.
    by apply (block_writes Hprocs). }
  unfold sort_events, process_range, process_pending, process_transactions. keeps_solve.
Qed.

Lemma keeps_finish fr : keeps engine_writes (finish (PE := PE) fr).
Proof.
  unfold finish. keeps_solve. intros e. by split_and!.
Qed.

(** Handlers. *)
Lemma keeps_run_task cfg d : keeps world_writes (Tm.run_task processors cfg d).
Proof.
  unfold Tm.run_task. apply keeps_for_each; [apply _|]. intros pe w.
  unfold Tm.handle_event, st_bind, st_lift, get_event_processors, unwrap.
  destruct (event_processors processors !! _) as [m|] eqn:Hm; [|reflexivity].
  destruct (keys (Tm.pe_event pe) !! 0%nat) as [k|]; [|reflexivity].
  destruct (m !! k) as [l|] eqn:Hk; [|reflexivity].
  destruct (find _ l) as [p|] eqn:Hp; [|reflexivity]. destruct (negb _); [reflexivity|].
  apply find_some in Hp as [Hp _]. apply list_elem_of_In in Hp. by eapply (event_writes Hprocs).
Qed.

Lemma tasks_world_writes m l w w' :
  Tm.processors m = processors → tasks_world controllers m l w w' → world_writes w w'.
Proof.
  intros Hm. induction 1 as [w|k l w w' _ IH|l w w1 w' Hc _ IH|k d r l w w1 w' _ Hr _ _ IH]; [done|done| |].
  { etrans; [by apply Hctrl|done]. }
  unfold world_writes in *. rewrite IH. pose proof (keeps_run_task (Tm.event_processor_config m) d w) as Hk.
  rewrite Hm in Hr. rewrite Hr in Hk. exact Hk.
Qed.

Lemma process_tasks_processors (m m' : Tm.TaskManager world_t PE TransactionContent) r l :
  Tm.process_tasks m r l m' → Tm.processors m' = Tm.processors m.
Proof.
  unfold Tm.process_tasks. destruct (Tn.is_empty _); [by intros (_ & _ & ->)|].
  by intros (r0 & n' & _ & _ & ->).
Qed.

Lemma process_writes fr cs e r e' :
  Tm.processors (task_manager e) = processors →
  process config processors dojo_related_events controllers fr cs e r e' → engine_writes e e'.
Proof.
  intros Hm Hp.
  assert (∀ o e1, sort_events config processors dojo_related_events fr cs e = (o, e1) → engine_writes e e1) as Hsort.
  { intros o e1 He. pose proof (keeps_sort_events fr cs e) as Hk. by rewrite He in Hk. }
  assert (∀ e1 r0 l m' w', engine_writes e e1 → Tm.process_tasks (task_manager e1) r0 l m' →
    tasks_world controllers (task_manager e1) l (world e1) w' →
    engine_writes e (set_world w' (set_task_manager m' e1))) as Htasks.
  { intros e1 r0 l m' w' (Hw & Hc & Hp1) Ht Htw. apply process_tasks_processors in Ht.
    apply tasks_world_writes in Htw; [|congruence]. unfold engine_writes, world_writes in *. simpl.
    split_and!; congruence. }
  destruct Hp; eauto.
  assert (engine_writes e (set_world w' (set_task_manager m' e1))) as Hmid by eauto.
  etrans; [exact Hmid|]. match goal with Hf : finish _ _ = _ |- _ => rename Hf into Hfin end.
  pose proof (keeps_finish fr (set_world w' (set_task_manager m' e1))) as Hk. by rewrite Hfin in Hk.
Qed.

(** Whatever its outcome, recovery leaves committed storage. *)
Lemma recover_writes : keeps engine_writes (recover (S := S) (PE := PE)).
Proof.
  unfold recover. apply keeps_bind; [apply _|apply keeps_on_storage, rollback_spec|]. intros _.
  intros e. revert e. apply keeps_bind; [apply _|apply keeps_get; apply _|]. intros e0.
  apply keeps_bind; [apply _|apply keeps_on_cache|]. intros _ e. by split_and!.
Qed.
End framing.

(** ** Clean states *)
Section clean.
Context `{StarknetTypes} `{!IndexMap} `{!Node} `{DojoTypes} {DM : DashMap} {U : U256Ops}.
Context `{!LinkedHashMap EventKey} `{!DiGraphOps Tm.TaskData, !DiGraphSpec Tm.TaskData} {HO : HashOrder}.
Context {S PE : Type} `{!IndexerStorage S, !IndexerStorageSpec S}.
#[local] Abbreviation world_t := (World S).
#[local] Abbreviation engine := (Engine S PE).
Context (config : EngineConfig) (processors : Processors (World S) PE TransactionContent).
Context (dojo_related_events : gset Felt) (controllers : relation (World S)).

Definition no_diffs (c : Cache.InMemoryCache) : Prop :=
  Cache.balances_diff_map c = ∅ ∧ Cache.total_supply_diff_map c = ∅.
Definition no_tasks (e : engine) : Prop := Tn.is_empty (Tm.task_network (task_manager e)) = true.

(** Nothing of a batch is left: the open transaction holds what is committed, no
    balance difference is pending and there are no tasks. *)
Definition clean (e : engine) : Prop :=
  working (storage (world e)) = committed (storage (world e)) ∧ no_diffs (cache (world e)) ∧ no_tasks e.

Lemma clear_no_diffs c : no_diffs (Cache.clear_balances_diff c).
Proof.
  unfold no_diffs, Cache.balances_diff_map, Cache.total_supply_diff_map. simpl.
  split; apply map_eq; intros k; rewrite Cache.dm_iter_map, lookup_empty; apply dm_get_clear.
Qed.
Lemma reset_no_diffs answer c : no_diffs (Cache.reset_to_committed_storage answer c).2.
Proof.
  unfold Cache.reset_to_committed_storage, Cache.reset_token_registry, st_bind, st_modify, st_zoom. simpl.
  unfold Cache.erc_reset_token_registry. pose proof (clear_no_diffs c) as [Hb Hs].
  by destruct (Cache.load_token_registry answer).
Qed.
Lemma clear_no_tasks (m : Tm.TaskManager world_t PE TransactionContent) :
  Tn.is_empty (Tm.task_network (Tm.clear_tasks m)) = true.
Proof.
  unfold Tn.is_empty, Adm.is_empty. simpl. apply Nat.eqb_eq.
  pose proof (dg_nodes_compact (V := Tm.TaskData) dg_new) as Hn. rewrite dg_new_nodes in Hn.
  by destruct (dg_node_count _).
Qed.

Lemma process_tasks_empty (m m' : Tm.TaskManager world_t PE TransactionContent) l :
  Tm.process_tasks m (Ok tt) l m' → Tn.is_empty (Tm.task_network m') = true.
Proof.
  unfold Tm.process_tasks. destruct (Tn.is_empty (Tm.task_network m)) eqn:He; [by intros (_ & _ & ->)|].
  intros (r0 & n' & Hp & Hr & ->). inversion Hp; subst; simpl; [congruence| |done].
  apply (clear_no_tasks m).
Qed.

Lemma on_storage_keeps {E A} (f : StorageError → E) (m : st S StorageError A) (e : engine) :
  cache (world (on_storage f m e).2) = cache (world e) ∧
  task_manager (on_storage f m e).2 = task_manager e ∧
  storage (world (on_storage f m e).2) = (m (storage (world e))).2 ∧
  (on_storage f m e).1 = map_err f (m (storage (world e))).1 ∧
  cached_fetch (on_storage f m e).2 = cached_fetch e.
Proof. unfold on_storage, st_map_err, st_zoom. by destruct (m (storage (world e))). Qed.

(** A batch that was processed leaves no difference and no task behind. *)
Lemma process_clean fr cs e e' :
  process config processors dojo_related_events controllers fr cs e (Ok tt) e' →
  no_diffs (cache (world e')) ∧ no_tasks e'.
Proof.
  inversion 1 as [| | |? e1 l m' w' ? ? Hs Ht Htw Hf]; subst.
  apply process_tasks_empty in Ht. unfold finish, st_bind, st_get, st_modify in Hf.
  set (e2 := set_world w' (set_task_manager m' e1)) in *.
  pose proof (on_storage_keeps (ProcessStorage (PE := PE)) (apply_balances_diff
    (Cache.balances_diff_map (cache (world e2))) (Cache.total_supply_diff_map (cache (world e2)))
    (Fetcher.cursors (Fetcher.fetched_cursors fr))) e2) as (Hc & Hm & _).
  destruct (on_storage ProcessStorage _ e2) as [[[]|?|] e3]; simpl in *; try done.
  match type of Hf with on_storage ?f ?m ?e = _ => pose proof (on_storage_keeps f m e) as (Hc4 & Hm4 & _) end.
  rewrite Hf in Hc4, Hm4. simpl in *. unfold no_tasks. rewrite Hc4, Hm4, Hm. split; [apply clear_no_diffs|done].
Qed.

(** After a failure the engine is clean again. *)
Lemma recover_clean (e e' : engine) :
  recover e = (Ok tt, e') →
  clean e' ∧ committed (storage (world e')) = committed (storage (world e)) ∧
  cached_fetch e' = cached_fetch e ∧ Tm.processors (task_manager e') = Tm.processors (task_manager e).
Proof.
  unfold recover. intros ([] & e1 & Hr & Hk)%st_bind_Ok.
  pose proof (on_storage_keeps EngineStorage rollback e) as (Hc & Hm & Hs & Ho & Hcf). rewrite Hr in *. simpl in *.
  destruct (rollback (storage (world e))) as [[[]|?|] s1] eqn:Hrb; simpl in *; try done.
  destruct (rollback_Ok _ _ Hrb) as [Hcom Hwork].
  apply st_bind_Ok in Hk as (e2 & e2' & [= <- <-] & Hk). apply st_bind_Ok in Hk as ([] & e3 & Hreset & Hk).
  injection Hk as <-. unfold on_cache, st_map_err, st_zoom in Hreset.
  pose proof (reset_no_diffs (token_ids (storage (world e1))) (cache (world e1))) as Hnd.
  destruct (Cache.reset_to_committed_storage _ _) as [o c]. simpl in *. injection Hreset as _ <-.
  unfold clean. simpl. rewrite Hs, Hwork, Hcom, Hm. split_and!; try done; [apply Hnd..|apply clear_no_tasks].
Qed.

(** A commit makes the open transaction the committed one. *)
Lemma execute_clean (e e' : engine) :
  on_storage EngineStorage execute e = (Ok tt, e') → no_diffs (cache (world e)) → no_tasks e → clean e'.
Proof.
  intros Hx Hd Ht. pose proof (on_storage_keeps EngineStorage execute e) as (Hc & Hm & Hs & Ho & _).
  rewrite Hx in *. simpl in *. destruct (execute (storage (world e))) as [[[]|?|] s1] eqn:He; simpl in *; try done.
  destruct (execute_Ok _ _ He) as [Hcom Hwork]. unfold clean, no_tasks. rewrite Hc, Hm, Hs.
  split; [congruence|]. by split.
Qed.
End clean.

(** ** Sorting events into tasks *)
Section sorting.
Context `{StarknetTypes} `{!IndexMap} `{!Node} `{DojoTypes} {DM : DashMap} {U : U256Ops}.
Context `{!LinkedHashMap EventKey} `{!DiGraphOps Tm.TaskData} {HO : HashOrder}.
Context {S PE : Type} `{!IndexerStorage S}.
#[local] Abbreviation engine := (Engine S PE).
#[local] Abbreviation run A := (st engine (ProcessError PE) A).
Context (config : EngineConfig) (processors : Processors (World S) PE TransactionContent).
Context (dojo_related_events : gset Felt).

(** The task an event goes to: that of the first processor of its key that
    accepts it. *)
Definition event_arrival (bn bt : Z) (h : Felt) (at_head : bool) (contracts : gmap Felt ContractType)
    (idx : nat) (ev : Event) : option Tm.arrival :=
  ct ← contracts !! from_address ev;
  k ← keys ev !! 0%nat;
  procs ← get_event_processors processors ct;
  l ← procs !! k;
  p ← find (λ p, validate p ev) l;
  id ← task_identifier p ev;
  deps ← task_dependencies p ev;
  mode ← indexing_mode p ev (event_processor_config config);
  Some (id, deps, Tm.mkPE mode ct (from_address ev) bn bt
    (SqlString.format_event_id bn h (from_address ev) (Z.of_nat idx)) ev at_head).

Fixpoint events_arrivals (bn bt : Z) (h : Felt) (at_head : bool) (contracts : gmap Felt ContractType)
    (idx : nat) (evs : list Event) : list Tm.arrival :=
  match evs with
  | [] => []
  | ev :: evs =>
      option_list (event_arrival bn bt h at_head contracts idx ev) ++
      events_arrivals bn bt h at_head contracts (Datatypes.S idx) evs
  end.
Definition txs_arrivals (bn bt : Z) (at_head : bool) (contracts : gmap Felt ContractType)
    (txs : im Fetcher.FetchTransaction) : list Tm.arrival :=
  im_iter txs ≫= λ '(h, tx), events_arrivals bn bt h at_head contracts 0 (Fetcher.ft_events tx).

(** All of a batch: the blocks in order, then the block being built. *)
Definition batch_arrivals (fr : Fetcher.FetchResult) (contracts : gmap Felt ContractType) : list Tm.arrival :=
  (Fetcher.bmap_iter (Fetcher.blocks (Fetcher.range fr)) ≫= λ '(n, b),
     txs_arrivals n (Fetcher.timestamp b) (is_at_head fr) contracts (Fetcher.transactions b)) ++
  match Fetcher.preconfirmed_block fr with
  | Some p => txs_arrivals (Fetcher.fp_block_number p) (Fetcher.fp_timestamp p) true contracts
                (Fetcher.fp_transactions p)
  | None => []
  end.

(** When it succeeds, [m] sends exactly the arrivals [l] to the task manager. *)
Definition sends {A} (m : run A) (l : list Tm.arrival) : Prop :=
  ∀ e a e', m e = (Ok a, e') → task_manager e' = foldl Tm.arrive (task_manager e) l.

Lemma sends_bind {A B} (m : run A) (k : A → run B) l1 l2 :
  sends m l1 → (∀ a, sends (k a) l2) → sends (st_bind m k) (l1 ++ l2).
Proof.
  intros Hm Hk e b e' (a & e1 & Hm1 & Hk2)%st_bind_Ok. rewrite foldl_app, <- (Hm _ _ _ Hm1). by eapply Hk.
Qed.
Lemma sends_bind_nil {A B} (m : run A) (k : A → run B) l :
  sends m [] → (∀ a, sends (k a) l) → sends (st_bind m k) l.
Proof. apply (sends_bind m k [] l). Qed.
Lemma sends_ret {A} (a : A) : sends (st_ret a) [].
Proof. by intros e b e' [= _ <-]. Qed.
Lemma sends_lift {A} (o : outcome (ProcessError PE) A) : sends (st_lift o) [].
Proof. by intros e b e' [= _ <-]. Qed.
Lemma sends_on_world {E A} (f : E → ProcessError PE) (m : st (World S) E A) : sends (on_world f m) [].
Proof. intros e a e' Hm. unfold on_world, st_map_err, st_zoom in Hm. by destruct (m _); simplify_eq/=. Qed.
Lemma sends_on_storage {A} (m : st S StorageError A) : sends (on_storage ProcessStorage m) [].
Proof. intros e a e' Hm. unfold on_storage, st_map_err, st_zoom in Hm. by destruct (m _); simplify_eq/=. Qed.
Lemma sends_for_each {A} (f : A → run unit) (g : A → list Tm.arrival) l :
  (∀ x, sends (f x) (g x)) → sends (for_each f l) (l ≫= g).
Proof. intros Hf. induction l as [|x l IH]; [apply sends_ret|]. simpl. by apply sends_bind. Qed.

Lemma sends_for_each_nil {A} (f : A → run unit) l : (∀ x, sends (f x) []) → sends (for_each f l) [].
Proof.
  intros Hf. induction l as [|x l IH]; [apply sends_ret|]. simpl. by apply sends_bind_nil.
Qed.
#[local] Hint Resolve sends_ret sends_lift sends_on_world sends_on_storage : torii.

Lemma sends_process_event bn bt h at_head contracts idx ev ct :
  contracts !! from_address ev = Some ct →
  sends (process_event config processors bn bt
      (SqlString.format_event_id bn h (from_address ev) (Z.of_nat idx)) ev h ct at_head)
    (option_list (event_arrival bn bt h at_head contracts idx ev)).
Proof.
  intros Hct. unfold process_event, event_arrival. rewrite Hct. simpl.
  apply sends_bind_nil; [destruct (raw_events config); auto with torii|]. intros _ e a e' He.
  apply st_bind_Ok in He as (k & e1 & Hk & He). unfold st_lift, unwrap in Hk.
  destruct (keys ev !! 0%nat) as [k'|]; simplify_eq/=.
  apply st_bind_Ok in He as (procs & e2 & Hp & He). unfold st_lift, unwrap in Hp.
  destruct (get_event_processors processors ct) as [procs'|]; simplify_eq/=.
  destruct (procs !! k) as [l|]; simpl.
  2: { destruct (validate _ _); [by eapply sends_on_world|by eapply (sends_ret tt)]. }
  apply st_bind_Ok in He as (p & e3 & Hf & He). unfold st_lift, unwrap in Hf.
  destruct (find _ l) as [p'|]; simplify_eq/=.
  apply st_bind_Ok in He as (id & e4 & Hid & He). unfold st_lift, unwrap in Hid.
  destruct (task_identifier p ev) as [id'|]; simplify_eq/=.
  apply st_bind_Ok in He as (deps & e5 & Hd & He). unfold st_lift, unwrap in Hd.
  destruct (task_dependencies p ev) as [deps'|]; simplify_eq/=.
  apply st_bind_Ok in He as (mode & e6 & Hm & He). unfold st_lift, unwrap in Hm.
  destruct (indexing_mode p ev _) as [mode'|]; simplify_eq/=. injection He as _ <-. reflexivity.
Qed.

Lemma sends_process_events bn bt h contracts at_head idx evs uc um :
  sends (process_events config processors dojo_related_events bn bt h contracts at_head idx evs uc um)
    (events_arrivals bn bt h at_head contracts idx evs).
Proof.
  revert idx uc um. induction evs as [|ev evs IH]; intros idx uc um; [apply sends_ret|]. simpl.
  destruct (contracts !! from_address ev) as [ct|] eqn:Hct.
  - apply sends_bind_nil; [apply sends_lift|]. intros k. apply sends_bind_nil.
    { case_match; [apply sends_bind_nil; [apply sends_lift|]; intros; apply sends_ret|apply sends_ret]. }
    intros um'. apply sends_bind; [by apply sends_process_event|]. intros _. apply IH.
  - unfold event_arrival. rewrite Hct. simpl. apply IH.
Qed.

Lemma sends_transactions bn bt contracts at_head txs :
  sends (process_transactions config processors dojo_related_events bn bt contracts at_head txs)
    (txs_arrivals bn bt at_head contracts txs).
Proof.
  apply sends_for_each. intros [h tx]. case_bool_decide as Hnil; [rewrite Hnil; apply sends_ret|].
  unfold process_transaction_with_events. rewrite <- (app_nil_r (events_arrivals _ _ _ _ _ _ _)).
  apply sends_bind; [apply sends_process_events|]. intros [uc um]. apply sends_bind_nil.
  - destruct (Fetcher.ft_transaction tx); [|apply sends_ret]. unfold process_transaction.
    apply sends_for_each_nil. auto with torii.
  - intros _. destruct (Fetcher.ft_receipt tx); auto with torii.
Qed.

Lemma sends_sort_events fr contracts :
  sends (sort_events config processors dojo_related_events fr contracts) (batch_arrivals fr contracts).
Proof.
  unfold sort_events, batch_arrivals. apply sends_bind.
  - unfold process_range. apply sends_for_each. intros [n b].
    rewrite <- (app_nil_r (txs_arrivals _ _ _ _ _)). apply sends_bind; [apply sends_transactions|].
    intros _. unfold process_block. apply sends_for_each_nil. auto with torii.
  - intros _. destruct (Fetcher.preconfirmed_block fr); [apply sends_transactions|apply sends_ret].
Qed.
End sorting.

(** ** Properties *)
Section properties.
Context `{StarknetTypes} `{!IndexMap} `{!Node} `{DojoTypes} {DM : DashMap} {U : U256Ops}.
Context `{!LinkedHashMap EventKey} `{!DiGraphOps Tm.TaskData, !DiGraphSpec Tm.TaskData} {HO : HashOrder}.
Context {S PE : Type} `{!IndexerStorage S, !IndexerStorageSpec S}.
#[local] Abbreviation world_t := (World S).
#[local] Abbreviation engine := (Engine S PE).
Context (config : EngineConfig) (processors : Processors (World S) PE TransactionContent).
Context (dojo_related_events : gset Felt) (controllers : relation (World S)).

(** Nothing of a batch is left, but controllers may have been written. *)
Definition settled (e : engine) : Prop := ∃ e0, clean e0 ∧ with_controllers controllers e0 e.

(** One batch processed as a whole: from a settled engine with [d] committed to a
    transaction that holds [d']. *)
Definition whole_batch (d d' : content) : Prop :=
  ∃ (b : Fetcher.FetchResult * gmap Felt ContractType) (e e' : engine) (w : world_t),
    settled e ∧ committed (storage (world e)) = d ∧
    process config processors dojo_related_events controllers b.1 b.2 e (Ok tt) e' ∧
    rtc controllers (world e') w ∧ working (storage w) = d'.

Definition loop_inv (l : Loop (S := S) (PE := PE)) : Prop :=
  (status_of l = Running → settled (engine_of l)) ∧
  Tm.processors (task_manager (engine_of l)) = processors.

Lemma rtc_controllers w w' :
  controllers_write controllers → rtc controllers w w' → world_writes w w' ∧ cache w' = cache w.
Proof.
  intros Hc. induction 1 as [w|w1 w2 w3 Hs _ [IH1 IH2]]; [done|].
  destruct (Hc _ _ Hs). unfold world_writes in *. split; congruence.
Qed.
Lemma with_controllers_writes (e e' : engine) :
  controllers_write controllers → with_controllers controllers e e' → engine_writes e e'.
Proof. intros Hc (w & Hw & ->). destruct (rtc_controllers _ _ Hc Hw). by split_and!. Qed.

Lemma clean_settled (e : engine) : clean e → settled e.
Proof. intros Hc. exists e. split; [done|]. exists (world e). split; [done|]. by destruct e. Qed.
Lemma settled_controllers (e e' : engine) : settled e → with_controllers controllers e e' → settled e'.
Proof.
  intros (e0 & Hc & w & Hw & ->) (w' & Hw' & ->). exists e0. split; [done|]. exists w'.
  split; [by etrans|done].
Qed.
Lemma settled_ext (e e' : engine) :
  world e' = world e → task_manager e' = task_manager e → settled e → settled e'.
Proof.
  intros Hw Hm (e0 & (Hc & Hd & Ht) & w & Hr & ->). exists (set_world (world e0) e'). split.
  - split_and!; try done. unfold no_tasks in *. simpl in *. by rewrite Hm.
  - exists w. split; [done|]. destruct e'. simpl in *. by subst.
Qed.

Lemma fetch_batch_keeps fuel (e : engine) :
  world (fetch_batch config fuel e).2 = world e ∧ task_manager (fetch_batch config fuel e).2 = task_manager e.
Proof.
  unfold fetch_batch. destruct (contracts _); [|done..]. by destruct (Fetcher.fetch _ _ _ _).
Qed.
Lemma batch_keeps (e : engine) b e1 : batch config e b e1 →
  world e1 = world e ∧ task_manager e1 = task_manager e ∧ cached_fetch e1 = Some b.
Proof.
  intros [e2 b2 Hc|e2 fuel b2 e' _ Hf]; [done|]. pose proof (fetch_batch_keeps fuel e2) as [Hw Hm].
  by rewrite Hf in Hw, Hm.
Qed.

(** The engine a batch is processed from is settled. *)
Lemma batch_settled (e : engine) b e1 e2 :
  controllers_write controllers → batch config e b e1 → with_controllers controllers e1 e2 →
  (settled e → settled e2) ∧ committed (storage (world e2)) = committed (storage (world e)) ∧
  cached_fetch e2 = Some b ∧ Tm.processors (task_manager e2) = Tm.processors (task_manager e).
Proof.
  intros Hc Hb Hw. destruct (batch_keeps _ _ _ Hb) as (Hbw & Hbm & Hbc).
  destruct (with_controllers_writes _ _ Hc Hw) as (Hww & Hwc & Hwp). unfold world_writes in Hww. split_and!.
  - intros Hs. eapply settled_controllers; [|done]. by apply (settled_ext e).
  - by rewrite Hww, Hbw.
  - congruence.
  - congruence.
Qed.

(** The state after a batch was processed: committed as a whole, or not. *)
Lemma processed_inv (e2 e3 e4 : engine) b r e5 :
  processors_write processors → controllers_write controllers →
  settled e2 → Tm.processors (task_manager e2) = processors →
  process config processors dojo_related_events controllers b.1 b.2 e2 (Ok tt) e3 →
  with_controllers controllers (set_cached_fetch None e3) e4 →
  on_storage EngineStorage execute e4 = (r, e5) →
  (r = Ok tt → clean e5) ∧ Tm.processors (task_manager e5) = processors ∧
  (committed (storage (world e5)) = committed (storage (world e2)) ∨
   whole_batch (committed (storage (world e2))) (committed (storage (world e5)))).
Proof.
  intros Hp Hc Hs Hm Hproc (w & Hw & ->) Hx. simpl in Hw.
  destruct (rtc_controllers _ _ Hc Hw) as [Hww Hcache].
  pose proof (process_clean _ _ _ _ _ _ _ _ Hproc) as [Hnd Hnt].
  pose proof (process_writes _ _ _ _ Hp Hc _ _ _ _ _ Hm Hproc) as (Hpw & _ & Hpp).
  pose proof (on_storage_keeps EngineStorage execute (set_world w (set_cached_fetch None e3)))
    as (Hxc & Hxm & Hxs & _ & _). rewrite Hx in *. simpl in *. unfold world_writes in *. split_and!.
  - intros ->. apply (execute_clean _ _ Hx); simpl; [by rewrite Hcache|exact Hnt].
  - congruence.
  - rewrite Hxs. destruct (execute_spec (storage w)) as [Hsame|Hcom]; [left; congruence|right].
    rewrite Hcom. by exists b, e2, e3, w.
Qed.

Lemma turn_inv l l' :
  processors_write processors → controllers_write controllers → loop_inv l →
  turn config processors dojo_related_events controllers l l' →
  loop_inv l' ∧ (committed (storage (world (engine_of l'))) = committed (storage (world (engine_of l))) ∨
    whole_batch (committed (storage (world (engine_of l)))) (committed (storage (world (engine_of l'))))).
Proof.
  intros Hp Hc [Hset Hm] Ht.
  destruct Ht as [l e Hw|l Hr|l fuel x e Hr Hnone Hf|l b e1 e2 e3 e4 r e5 Hr Hb Hw1 Hproc Hw2 Hx|
    l b e1 e2 x e3 r e4 Hr Hb Hw1 Hproc Hrec|l b e1 e2 e3 Hr Hb Hw1 Hproc].
  - destruct (with_controllers_writes _ _ Hc Hw) as (Hcom & _ & Hpp). split; [|by left].
    split; [|simpl; congruence]. intros Hrun. eapply settled_controllers; [|done]. by apply Hset.
  - split; [|by left]. by split.
  - destruct (fetch_batch_keeps fuel (engine_of l)) as [Hw Htm]. rewrite Hf in Hw, Htm. simpl in *.
    split; [|left; by rewrite Hw]. split; [|by rewrite <- Hm, <- Htm].
    intros _. by apply (settled_ext (engine_of l)), Hset.
  - destruct (batch_settled _ _ _ _ Hc Hb Hw1) as (Hs2 & Hcom2 & _ & Hp2).
    destruct (processed_inv e2 e3 e4 b r e5) as (Hcl & Hpr & Hor); try done; [by apply Hs2, Hset|congruence|].
    rewrite Hcom2 in Hor. split; [|exact Hor]. split; [|done]. simpl. intros Hrun.
    destruct r as [[]|?|]; try done. by apply clean_settled, Hcl.
  - destruct (batch_settled _ _ _ _ Hc Hb Hw1) as (_ & Hcom2 & _ & Hp2).
    apply process_writes in Hproc as (Hpw & _ & Hpp); [|done|done|congruence].
    pose proof (recover_writes e3) as (Hrw & _ & Hrp). rewrite Hrec in *. unfold world_writes in *. simpl in *.
    split; [|left; destruct r; simpl; congruence]. split; [|destruct r; simpl; congruence].
    destruct r as [[]|?|]; try done. intros _. by apply clean_settled, (recover_clean e3).
  - destruct (batch_settled _ _ _ _ Hc Hb Hw1) as (_ & Hcom2 & _ & Hp2).
    apply process_writes in Hproc as (Hpw & _ & Hpp); [|done|done|congruence].
    unfold world_writes in *. simpl in *. split; [|left; congruence]. by split; [|simpl; congruence].
Qed.

Lemma turns_inv l l' :
  processors_write processors → controllers_write controllers → loop_inv l →
  rtc (turn config processors dojo_related_events controllers) l l' →
  loop_inv l' ∧
  rtc whole_batch (committed (storage (world (engine_of l)))) (committed (storage (world (engine_of l')))).
Proof.
  intros Hp Hc Hinv Ht. induction Ht as [l|l1 l2 l3 Hstep _ IH]; [done|].
  destruct (turn_inv _ _ Hp Hc Hinv Hstep) as [Hinv2 Hor]. destruct (IH Hinv2) as [Hinv3 Hrtc].
  split; [done|]. destruct Hor as [<-|Hwb]; [done|]. by eapply rtc_l.
Qed.

(** Only whole batches are ever committed. In any run of the loop from a clean
    start, through fetch errors, processing errors, failed commits, failed
    rollbacks, restarts of a kept batch and background writes of controllers,
    what is committed comes from what was committed at the start by a sequence of
    batches, each processed to its end from a settled engine; and while the loop
    runs, nothing of an unfinished batch is in the open transaction, the cached
    differences or the tasks. *)
Theorem committed_whole_batches (e0 : engine) l :
  processors_write processors → controllers_write controllers →
  clean e0 → Tm.processors (task_manager e0) = processors →
  rtc (turn config processors dojo_related_events controllers) (start_loop e0) l →
  rtc whole_batch (committed (storage (world e0))) (committed (storage (world (engine_of l)))) ∧
  (status_of l = Running → settled (engine_of l)).
Proof.
  intros Hp Hc Hclean Hm Ht.
  destruct (turns_inv (start_loop e0) l Hp Hc) as [[Hset _] Hrtc]; [|done|by split].
  split; [|done]. intros _. by apply clean_settled.
Qed.


(** Delays of the loop. *)
Definition delay_ok (d : Z) : Prop := ∃ k, 0 ≤ k ≤ 6 ∧ d = 2 ^ k.

Lemma next_delay_pow k : 0 ≤ k ≤ 6 → next_delay (2 ^ k) = 2 ^ Z.min (k + 1) 6.
Proof.
  intros Hk. unfold next_delay, max_backoff_delay.
  assert (k = 0 ∨ k = 1 ∨ k = 2 ∨ k = 3 ∨ k = 4 ∨ k = 5 ∨ k = 6) as Hcases by lia.
  by repeat destruct Hcases as [->|Hcases]; [..|subst k].
Qed.
Lemma next_delay_ok d : delay_ok d → delay_ok (next_delay d).
Proof. intros (k & Hk & ->). rewrite next_delay_pow by done. exists (Z.min (k + 1) 6). split; [lia|done]. Qed.
Lemma delay_ok_1 : delay_ok 1.
Proof. by exists 0. Qed.

Lemma turn_delays l l' :
  turn config processors dojo_related_events controllers l l' →
  delay_ok (fetching_backoff_delay l) → delay_ok (processing_backoff_delay l) →
  delay_ok (fetching_backoff_delay l') ∧ delay_ok (processing_backoff_delay l').
Proof.
  intros Ht Hf Hp.
  assert (∀ kept, delay_ok (fetch_ok l kept).1) as Hok.
  { intros kept. unfold fetch_ok. destruct (_ && _); [apply delay_ok_1|done]. }
  pose proof (next_delay_ok _ Hf). pose proof (next_delay_ok _ Hp). pose proof delay_ok_1.
  destruct Ht; simpl; repeat case_match; simpl; split; auto; apply Hok.
Qed.

(** The delays of the two back-offs are powers of two from 1 to 64 seconds in
    every run: they double on every error, from 1 up to 64, the first power of two
    that is not below the maximum of 60, stay there, and never overflow. *)
Theorem backoff_bounded (e0 : engine) l :
  rtc (turn config processors dojo_related_events controllers) (start_loop e0) l →
  delay_ok (fetching_backoff_delay l) ∧ delay_ok (processing_backoff_delay l) ∧
  ∀ n : nat, Nat.iter n next_delay 1 = 2 ^ Z.min (Z.of_nat n) 6.
Proof.
  intros Ht. rewrite (assoc (∧)). split.
  - apply (rtc_ind_r (λ l, delay_ok (fetching_backoff_delay l) ∧ delay_ok (processing_backoff_delay l))
      (start_loop e0)) in Ht; [done|split; apply delay_ok_1|].
    intros l1 l2 _ Hstep [Hf Hp]. by eapply turn_delays.
  - induction n as [|n IH]; [done|]. simpl Nat.iter. rewrite IH, next_delay_pow by lia. f_equal. lia.
Qed.

(** Sorting sends each event of the batch to its task exactly once and in
    order. When it succeeds, the task manager has received, one by one, the
    events of the known contracts that have a processor: blocks in increasing
    order, transactions and events in the order they were fetched, those of the
    block being built last; each with the identifier, the dependencies and the
    mode its processor declares. *)
Theorem sorted_events (e e' : engine) fr cs :
  sort_events config processors dojo_related_events fr cs e = (Ok tt, e') →
  task_manager e' = foldl Tm.arrive (task_manager e) (batch_arrivals config processors fr cs).
Proof. apply sends_sort_events. Qed.
End properties.

(** ** Witnesses

    The engine over the executor: one ERC20 contract with an event that has a
    processor, in block 2, one that has none, in block 3, and one in the block
    being built. *)
Section witnesses.
#[local] Existing Instances Fetcher.list_index_map canonical_order gmap_dashmap Math.u256_checked
  Fetcher.demo_types Fetcher.demo_node Ex.ok_env.
#[local] Instance lhm_engine : LinkedHashMap EventKey := list_lhm EventKey.
#[local] Instance demo_text : Storage.ReceiptText :=
  {| Storage.fee_amount _ := ""; Storage.fee_unit _ := ""; Storage.finality_status _ := "";
     Storage.revert_reason _ := None; Storage.execution_resources_json _ := Some "";
     Storage.felt_short_hex _ := ""; Storage.utc_dt_string_from_timestamp _ := "" |}.

#[local] Abbreviation demo_world := (World Storage.Sql).

Definition demo_write (sql : string) (w : demo_world) : demo_world :=
  set_storage (Storage.send (Ex.other_message sql []) (storage w)).2 w.
Definition demo_transfer : EventProcessor demo_world unit :=
  mkProcessor "Transfer" (λ _, true) default_should_process (λ e, Some (from_address e))
    default_task_dependencies default_indexing_mode (λ _ w, (Ok tt, demo_write "transfer" w)).
(** What the processor of last resort answers is a parameter. *)
Definition demo_raw (o : outcome unit unit) : EventProcessor demo_world unit :=
  mkProcessor "" (λ _, true) default_should_process (λ _, Some 0)
    default_task_dependencies default_indexing_mode (λ _ w, (o, demo_write "raw" w)).
Definition demo_processors (o : outcome unit unit) : Processors demo_world unit TransactionContent :=
  mkProcessors [] [] (demo_raw o) {[ ERC20 := {[ 1 := [demo_transfer] ]} ]}.
Definition demo_controllers : relation demo_world := λ w w', ∃ sql, w' = demo_write sql w.

Definition demo_engine_config : EngineConfig :=
  mkEngineConfig Fetcher.demo_config 2 true default_config.
Definition demo_start (o : outcome unit unit) : Engine Storage.Sql unit :=
  new demo_engine_config (demo_processors o)
    (mkWorld (Storage.mkSql Ex.demo_state true)
      (Cache.mkCache (Cache.mkModelCache ∅) (Cache.mkErc dm_new dm_new dm_new 0)) ∅ []).

Lemma demo_write_writes sql w : world_writes w (demo_write sql w).
Proof. apply (Storage.send_keeps (Ex.other_message sql []) ltac:(done) (storage w)). Qed.
Lemma demo_controllers_write : controllers_write demo_controllers.
Proof. intros w w' [sql ->]. split; [apply demo_write_writes|done]. Qed.
Lemma demo_processors_write o : processors_write (demo_processors o).
Proof.
  split.
  - intros ct m k l p ctx Hct Hk Hp. cbn in Hct. apply lookup_singleton_Some in Hct as [_ <-].
    apply (lookup_singleton_Some (M := gmap Felt)) in Hk as [_ <-]. apply list_elem_of_singleton in Hp as ->.
    intros w. apply demo_write_writes.
  - intros ctx w. apply demo_write_writes.
  - intros p ctx Hp. by apply elem_of_nil in Hp.
  - intros p n t Hp. by apply elem_of_nil in Hp.
Qed.
Lemma demo_clean o : clean (demo_start o).
Proof. split_and!; [done| |done]. split; apply map_eq; intros k; vm_compute; reflexivity. Qed.

Definition demo_fetched (o : outcome unit unit) := fetch_batch demo_engine_config 1 (demo_start o).
Definition demo_batch (o : outcome unit unit) : Fetcher.FetchResult * gmap Felt ContractType :=
  match (demo_fetched o).1 with
  | Ok (Some b) => b
  | _ => (Fetcher.mkFetchResult (Fetcher.mkRange ∅) None (Fetcher.mkCursors ∅ ∅), ∅)
  end.
Definition demo_kept (o : outcome unit unit) : Engine Storage.Sql unit :=
  set_cached_fetch (Some (demo_batch o)) (demo_fetched o).2.
Definition demo_sorted (o : outcome unit unit) :=
  sort_events demo_engine_config (demo_processors o) ∅ (demo_batch o).1 (demo_batch o).2 (demo_kept o).

Lemma demo_fetch_ok o : batch demo_engine_config (demo_start o) (demo_batch o) (demo_kept o).
Proof.
  apply (batch_fetched _ _ 1); [done|]. apply outcome_of. vm_compute. reflexivity.
Qed.
Lemma with_controllers_refl (e : Engine Storage.Sql unit) : with_controllers demo_controllers e e.
Proof. exists (world e). split; [done|]. by destruct e. Qed.

(** The run that succeeds: sorting, the one task, the cursors, the commit. *)
Definition demo_tm : Tm.TaskManager demo_world unit TransactionContent :=
  task_manager (demo_sorted (Ok tt)).2.
Definition demo_data : Tm.TaskData :=
  default Tm.default_task_data (Adm.get 9 (Tn.tasks (Tm.task_network demo_tm))).
Definition demo_handled : outcome unit unit * demo_world :=
  Tm.run_task (Tm.processors demo_tm) (Tm.event_processor_config demo_tm) demo_data
    (world (demo_sorted (Ok tt)).2).
Definition demo_log : list (Tn.event (K := TaskId) (E := unit)) := [Tn.Started 9; Tn.Finished 9 (Ok tt)].
Definition demo_finish :=
  finish (PE := unit) (demo_batch (Ok tt)).1
    (set_world demo_handled.2 (set_task_manager (Tm.clear_tasks demo_tm) (demo_sorted (Ok tt)).2)).
Definition demo_commit :=
  on_storage EngineStorage execute (set_cached_fetch None demo_finish.2).

Lemma demo_tasks : Tm.process_tasks demo_tm (Ok tt) demo_log (Tm.clear_tasks demo_tm).
Proof.
  unfold Tm.process_tasks. replace (Tn.is_empty (Tm.task_network demo_tm)) with false by (vm_compute; reflexivity).
  exists (Ok tt), (Tn.clear (Tm.task_network demo_tm)). split_and!; [|done..].
  apply (Tn.process_ok _ [[(9, demo_data)]]); [vm_compute; reflexivity..|].
  change (Tn.semaphore (Tm.task_network demo_tm)) with 2%nat. unfold Tn.initial.
  eapply rtc_l; [apply Tn.step_next_level; [by intros [? ?%not_elem_of_nil]|done]|].
  eapply rtc_l; [apply (Tn.step_start _ _ _ [] []); simpl; lia|].
  eapply rtc_l; [apply (Tn.step_finish _ _ _ _ [] []) with (r := Ok tt)|]. simpl.
  eapply rtc_l; [apply Tn.step_done; [|done]; intros [? [=]%list_elem_of_singleton]|]. apply rtc_refl.
Qed.

Lemma demo_processed :
  process demo_engine_config (demo_processors (Ok tt)) ∅ demo_controllers (demo_batch (Ok tt)).1
    (demo_batch (Ok tt)).2 (demo_kept (Ok tt)) (Ok tt) demo_finish.2.
Proof.
  eapply (process_tasks_Ok _ _ _ _ _ _ _ (demo_sorted (Ok tt)).2 demo_log (Tm.clear_tasks demo_tm)
    demo_handled.2).
  - apply outcome_of. vm_compute. reflexivity.
  - apply demo_tasks.
  - apply tw_started. eapply (tw_finished _ _ 9 demo_data (Ok tt)); [vm_compute; reflexivity| |done|apply tw_nil].
    apply outcome_of. vm_compute. reflexivity.
  - apply outcome_of. vm_compute. reflexivity.
Qed.

Definition demo_after : Loop := mkLoop demo_commit.2 1 1 false false Running.
Lemma demo_turn :
  turn demo_engine_config (demo_processors (Ok tt)) ∅ demo_controllers (start_loop (demo_start (Ok tt))) demo_after.
Proof.
  eapply (turn_processed _ _ _ _ (start_loop (demo_start (Ok tt))) _ _ _ demo_finish.2
    (set_cached_fetch None demo_finish.2) (Ok tt) demo_commit.2); [done|apply demo_fetch_ok|apply with_controllers_refl| | |].
  - apply demo_processed.
  - apply with_controllers_refl.
  - apply outcome_of. vm_compute. reflexivity.
Qed.

Lemma committed_whole_batches_witness :
  rtc (turn demo_engine_config (demo_processors (Ok tt)) ∅ demo_controllers)
    (start_loop (demo_start (Ok tt))) demo_after ∧
  rtc (whole_batch demo_engine_config (demo_processors (Ok tt)) ∅ demo_controllers)
    (committed (storage (world (demo_start (Ok tt)))))
    (committed (storage (world (engine_of demo_after)))) ∧
  contract_head <$> Database.contracts (Storage.sql_committed (storage (world (engine_of demo_after)))) !! 9 =
    Some (Some 3).
Proof.
  assert (rtc (turn demo_engine_config (demo_processors (Ok tt)) ∅ demo_controllers)
    (start_loop (demo_start (Ok tt))) demo_after) as Hrun by apply rtc_once, demo_turn.
  split_and!; [exact Hrun| |vm_compute; reflexivity].
  apply (committed_whole_batches _ _ _ _ (demo_start (Ok tt)) demo_after); [apply demo_processors_write|
    apply demo_controllers_write|apply demo_clean|done|exact Hrun].
Defined.

(** The run in which the event of block 3 fails: the batch stays. *)
Definition demo_recovered := recover (demo_sorted (Err tt)).2.

Lemma demo_failed :
  process demo_engine_config (demo_processors (Err tt)) ∅ demo_controllers (demo_batch (Err tt)).1
    (demo_batch (Err tt)).2 (demo_kept (Err tt)) (Err (ProcessorsError tt)) (demo_sorted (Err tt)).2.
Proof. apply process_sort_Err, outcome_of. vm_compute. reflexivity. Qed.
Lemma demo_recover_ok : recover (demo_sorted (Err tt)).2 = (Ok tt, demo_recovered.2).
Proof. apply outcome_of. vm_compute. reflexivity. Qed.


Definition demo_retry : Loop := mkLoop demo_recovered.2 1 2 false true Running.
Lemma demo_turn_failed :
  turn demo_engine_config (demo_processors (Err tt)) ∅ demo_controllers (start_loop (demo_start (Err tt)))
    demo_retry.
Proof.
  eapply (turn_failed _ _ _ _ (start_loop (demo_start (Err tt))) _ _ _ _ _ (Ok tt) demo_recovered.2);
    [done|apply demo_fetch_ok|apply with_controllers_refl|apply demo_failed|apply demo_recover_ok].
Qed.

Lemma backoff_bounded_witness :
  delay_ok (processing_backoff_delay demo_retry) ∧ Nat.iter 9 next_delay 1 = 64.
Proof.
  assert (rtc (turn demo_engine_config (demo_processors (Err tt)) ∅ demo_controllers)
    (start_loop (demo_start (Err tt))) demo_retry) as Hrun by apply rtc_once, demo_turn_failed.
  destruct (backoff_bounded demo_engine_config (demo_processors (Err tt)) ∅ demo_controllers
    (demo_start (Err tt)) demo_retry Hrun) as (_ & Hp & Hiter).
  split; [exact Hp|]. rewrite Hiter. reflexivity.
Defined.

Lemma sorted_events_witness :
  Tm.pe_block_number <$> Tm.task_events demo_data = [2] ∧
  demo_tm = foldl Tm.arrive (task_manager (demo_kept (Ok tt)))
    (batch_arrivals demo_engine_config (demo_processors (Ok tt)) (demo_batch (Ok tt)).1 (demo_batch (Ok tt)).2).
Proof.
  split; [vm_compute; reflexivity|].
  apply (sorted_events demo_engine_config (demo_processors (Ok tt)) ∅ (demo_kept (Ok tt))
    (demo_sorted (Ok tt)).2 (demo_batch (Ok tt)).1 (demo_batch (Ok tt)).2).
  apply outcome_of. vm_compute. reflexivity.
Defined.
End witnesses.

End Engine.
