(* ===== verification/Registry.v ===== *)
(** * The processors of the indexer, together ([crates/processors/src/processors/mod.rs])

    The registry that says which processor handles which event of which type of
    contract, and what the processors as a whole promise to the engine: every one
    of them writes to the open transaction of the storage only. With that the
    engine's guarantee holds of the program as it is put together. *)

From S2P Require Import Prelude Math Proto EventProcessor TaskManager Cache Database SqlString World Controllers Erc ErcProcessors.
From S2P Require Import WorldProcessors StoreTransaction Executor ModelTable Fetcher Storage StorageWrites Engine.
From S2P Require Import PetGraph AcyclicDigraphMap TaskNetwork.
Import ErcProc WorldProc.
Local Open Scope Z_scope.
Local Open Scope torii_scope.

Module Registry.

Section operations.
Context `{DojoTypes} `{CairoSerde} `{MetadataEnv} {DS : DojoSchema} {WE : WorldEnv}.
Context {DM : DashMap} {U : U256Ops} {HO : HashOrder} `{Hasher} {SC : Schedule}.
Context {Tx : Type} {TV : TxView Tx} {CSD : CallSerde} {CE : ClassEnv}.
Context {S : Type} `{!ProcessorStorage S}.
#[local] Abbreviation processor := (EventProcessor (World S) ProcessorError).
#[local] Abbreviation processor_map := (gmap Felt (list (EventProcessor (World S) ProcessorError))).

Definition processors_of (ct : ContractType) : list processor :=
  match ct with
  | WORLD =>
      [RegisterModelProcessor; RegisterEventProcessor; RegisterExternalContractProcessor; UpgradeModelProcessor;
       UpgradeEventProcessor; StoreSetRecordProcessor; StoreDelRecordProcessor; StoreUpdateRecordProcessor;
       StoreUpdateMemberProcessor; MetadataUpdateProcessor; EventMessageProcessor]
  | ERC20 => [Erc20TransferProcessor; Erc20LegacyTransferProcessor; Erc7572ContractUriUpdatedProcessor]
  | ERC721 =>
      [Erc721TransferProcessor; Erc721LegacyTransferProcessor; Erc4906MetadataUpdateProcessor;
       Erc4906BatchMetadataUpdateProcessor; Erc7572ContractUriUpdatedProcessor]
  | ERC1155 =>
      [Erc1155TransferBatchProcessor; Erc1155TransferSingleProcessor; Erc1155LegacyTransferBatchProcessor;
       Erc1155LegacyTransferSingleProcessor; Erc4906MetadataUpdateProcessor; Erc4906BatchMetadataUpdateProcessor;
       Erc7572ContractUriUpdatedProcessor]
  | UDC => [ControllerProcessor]
  | OTHER => []
  end.
Definition contract_types : list ContractType := [WORLD; ERC20; ERC721; ERC1155; UDC; OTHER].

(** [entry(key).or_default().push(processor)]; [None] is the panic of a name
    without a selector *)
Definition push_processor (m : processor_map) (p : processor) : option processor_map :=
  key ← get_selector_from_name (event_key p);
  Some (<[key := default [] (m !! key) ++ [p]]> m).
Fixpoint push_all (ps : list processor) (m : processor_map) : option processor_map :=
  match ps with
  | [] => Some m
  | p :: ps => m ← push_processor m p; push_all ps m
  end.
Fixpoint fill (cts : list ContractType) (ms : gmap ContractType processor_map)
  : option (gmap ContractType processor_map) :=
  match cts with
  | [] => Some ms
  | ct :: cts =>
      m ← push_all (processors_of ct) (default ∅ (ms !! ct));
      fill cts (<[ct := m]> ms)
  end.
Definition initialize_event_processors : option (gmap ContractType processor_map) := fill contract_types ∅.

(** [Processors::default()] *)
Definition default_processors : option (Processors (World S) ProcessorError Tx) :=
  m ← initialize_event_processors;
  Some (mkProcessors [] [StoreTx.StoreTransactionProcessor] RawEventProcessor m).
End operations.

(** ** What the registry holds *)
Section registry.
Context `{DojoTypes} `{CairoSerde} `{MetadataEnv} {DS : DojoSchema} {WE : WorldEnv}.
Context {DM : DashMap} {U : U256Ops} {HO : HashOrder} `{Hasher} {SC : Schedule}.
Context {S : Type} `{!ProcessorStorage S}.
#[local] Abbreviation processor := (EventProcessor (World S) ProcessorError).
#[local] Abbreviation processor_map := (gmap Felt (list (EventProcessor (World S) ProcessorError))).

(** Names have selectors. *)
Definition names_ok (ps : list processor) : Prop := Forall (λ p, is_Some (get_selector_from_name (event_key p))) ps.
(** The processors of a list with the selector [key], in order. *)
Definition with_key (key : Felt) (ps : list processor) : list processor :=
  filter (λ p, get_selector_from_name (event_key p) = Some key) ps.

Lemma push_all_spec ps (m : processor_map) : names_ok ps →
  ∃ m', push_all ps m = Some m' ∧
    ∀ key, default [] (m' !! key) = default [] (m !! key) ++ with_key key ps ∧
      (is_Some (m' !! key) ↔ is_Some (m !! key) ∨ with_key key ps ≠ []).
Proof.
  revert m. induction ps as [|p ps IH]; intros m Hok.
  { exists m. split; [done|]. intros key. rewrite app_nil_r. split; [done|]. cbn. naive_solver. }
  apply Forall_cons in Hok as [[key0 Hk] Hok]. cbn [push_all]. unfold push_processor. rewrite Hk. simpl.
  destruct (IH (<[key0 := default [] (m !! key0) ++ [p]]> m) Hok) as (m' & -> & Hm'). exists m'. split; [done|].
  intros key. destruct (Hm' key) as [Hd Hs]. unfold with_key. rewrite filter_cons. case_decide as Hp.
  - assert (key0 = key) as -> by congruence. rewrite lookup_insert_eq in Hd, Hs. split.
    + rewrite Hd. cbn [default from_option id]. by rewrite <- app_assoc.
    + rewrite Hs. split; intros _; [by right|left; eauto].
  - rewrite lookup_insert_ne in Hd, Hs by congruence. done.
Qed.

Lemma initialize_spec : (∀ ct, names_ok (processors_of ct)) →
  ∃ m, initialize_event_processors = Some m ∧
    ∀ ct, ∃ pm, m !! ct = Some pm ∧
      ∀ key, pm !! key = if decide (with_key key (processors_of ct) = []) then None
                         else Some (with_key key (processors_of ct)).
Proof.
  intros Hok. unfold initialize_event_processors.
  enough (∀ cts ms, NoDup cts → (∀ ct, ct ∈ cts → ms !! ct = None) →
    ∃ m, fill (S := S) cts ms = Some m ∧ (∀ ct, ct ∉ cts → m !! ct = ms !! ct) ∧
      ∀ ct, ct ∈ cts → ∃ pm, m !! ct = Some pm ∧
        ∀ key, pm !! key = if decide (with_key key (processors_of ct) = []) then None
                           else Some (with_key key (processors_of ct))) as Hfill.
  { destruct (Hfill contract_types ∅) as (m & Hm & _ & Hin).
    - by apply (bool_decide_unpack _).
    - intros. apply lookup_empty.
    - exists m. split; [done|]. intros ct. apply Hin. destruct ct; by apply (bool_decide_unpack _). }
  induction cts as [|ct cts IH]; intros ms Hnd Hms; [exists ms; split; [done|]; split; [done|]; by intros ct ?%elem_of_nil|].
  apply NoDup_cons in Hnd as [Hni Hnd]. cbn [fill]. rewrite (Hms ct) by left. cbn [default from_option].
  destruct (push_all_spec (processors_of ct) ∅ (Hok ct)) as (pm & -> & Hpm). simpl.
  destruct (IH (<[ct := pm]> ms) Hnd) as (m & -> & Hout & Hin).
  { intros ct' Hct'. rewrite lookup_insert_ne by (intros ->; done). apply Hms. by right. }
  exists m. split; [done|]. split.
  - intros ct' Hct'. rewrite Hout by set_solver. apply lookup_insert_ne. set_solver.
  - intros ct' [->|Hct']%elem_of_cons; [|by apply Hin]. exists pm. rewrite Hout, lookup_insert_eq by done.
    split; [done|]. intros key. destruct (Hpm key) as [Hd Hs]. rewrite lookup_empty in Hd, Hs. cbn in Hd.
    destruct (pm !! key) as [l|] eqn:Hl; cbn in Hd.
    + rewrite decide_False, Hd; [done|]. destruct Hs as [Hs _]. destruct (Hs ltac:(eauto)) as [[? ?]|?]; [done|].
      done.
    + rewrite decide_True; [done|]. by rewrite <- Hd.
Qed.
End registry.

(** ** Processors write to the open transaction only *)
Section writes.
Context `{DojoTypes} `{CairoSerde} `{MetadataEnv} {DS : DojoSchema} {WE : WorldEnv}.
Context {DM : DashMap} {U : U256Ops} {HO : HashOrder} `{Hasher} {SC : Schedule}.
Context {Tx : Type} {TV : TxView Tx} {CSD : CallSerde} {CE : ClassEnv}.
Context {S : Type} `{!ProcessorStorage S} (R : relation S) `{!PreOrder R} `{!ProcessorStorageSpec S R}.

(** The storage moves along [R]. *)
Definition on_store (w w' : World S) : Prop := R (storage w) (storage w').
#[local] Instance on_store_preorder : PreOrder on_store.
Proof. split; unfold on_store; [by intros w|intros w1 w2 w3 ? ?; by etrans]. Qed.

Lemma keeps_with_storage {A} (m : st S StorageError A) : keeps R m → keeps on_store (with_storage m).
Proof.
  intros Hm w. unfold with_storage, st_map_err, st_zoom. specialize (Hm (storage w)). by destruct (m (storage w)).
Qed.
Lemma keeps_with_requests {E A} (f : E → ProcessorError) (m : st (list request) E A) :
  keeps on_store (with_requests (S := S) f m).
Proof.
  intros w. unfold with_requests, st_map_err, st_zoom. destruct (m (requests w)). unfold on_store. simpl. reflexivity.
Qed.
Lemma keeps_with_cache f : keeps on_store (with_cache (S := S) f).
Proof. intros w. unfold on_store. simpl. reflexivity. Qed.
Lemma keeps_update_balance t a b v : keeps on_store (cache_update_balance_diff (S := S) t a b v).
Proof.
  intros w. unfold cache_update_balance_diff, on_store. destruct (Cache.update_balance_diff _ _ _ _ _); simpl; reflexivity.
Qed.
Lemma keeps_cache_lock t : keeps on_store (cache_lock (S := S) t).
Proof. intros w. unfold cache_lock, on_store. destruct (Cache.get_token_registration_lock _ _). simpl. reflexivity. Qed.
Lemma keeps_resolve ctx sel : keeps on_store (resolve_model_or_skip (S := S) ctx sel).
Proof.
  intros w. unfold resolve_model_or_skip, storage_model, on_store.
  destruct (Cache.model _ _ _); [reflexivity|..]; destruct (model_row _ _ _) as [[]| |]; reflexivity.
Qed.
Lemma keeps_caught {E E' A} (m : st (World S) E A) : keeps on_store m → keeps on_store (Erc.catch (E' := E') m).
Proof. intros Hm w. unfold Erc.catch. specialize (Hm w). by destruct (m w) as [[]]. Qed.
Lemma keeps_background {A} (m : st (World S) ProcessorError A) : keeps on_store m → keeps on_store (in_background m).
Proof. intros Hm w. apply Hm. Qed.

Lemma keeps_run_tasks ts w : Forall (λ t : nat * st (World S) ProcessorError unit, keeps on_store t.2) ts →
  on_store w (run_tasks ts w).2.
Proof.
  intros Hts. revert w. induction Hts as [|[i t] ts Ht _ IH]; intros w; simpl; [reflexivity|].
  specialize (Ht w). simpl in Ht. destruct (t w) as [r w1]. specialize (IH w1).
  destruct (run_tasks ts w1) as [rs w2]. simpl in *. by etrans.
Qed.
Lemma keeps_spawn_all ts : Forall (keeps on_store) ts → keeps on_store (spawn_all ts).
Proof.
  intros Hts w. unfold spawn_all. pose proof (keeps_run_tasks (schedule (requests w) (imap pair ts)) w) as Hr.
  destruct (run_tasks _ w) as [rs w']. simpl in *. apply Hr. rewrite schedule_perm.
  apply Forall_lookup. intros i x. rewrite list_lookup_imap. destruct (ts !! i) as [t|] eqn:Ht; [|done].
  intros [= <-]. simpl. by eapply Forall_lookup_1.
Qed.

#[local] Hint Resolve keeps_with_storage keeps_with_requests keeps_with_cache keeps_update_balance keeps_cache_lock
  keeps_resolve keeps_caught keeps_background : torii.
#[local] Hint Resolve register_model_spec register_contract_spec set_entity_spec set_event_message_spec
  delete_entity_spec set_metadata_spec update_metadata_spec add_controller_spec register_token_contract_spec
  register_nft_token_spec update_token_metadata_spec store_token_transfer_spec store_transaction_spec : torii.

Lemma keeps_register_nft id a t : keeps on_store (Erc.try_register_nft_token_metadata (S := S) id a t).
Proof. unfold Erc.try_register_nft_token_metadata, Erc.ask_metadata. keeps_solve. Qed.
Lemma keeps_register_contract a b : keeps on_store (Erc.try_register_token_contract (S := S) a b).
Proof. unfold Erc.try_register_token_contract, Erc.ask_metadata. keeps_solve. Qed.
Lemma keeps_update_contract a : keeps on_store (Erc.update_contract_metadata (S := S) a).
Proof. unfold Erc.update_contract_metadata, Erc.ask_metadata. keeps_solve. Qed.
#[local] Hint Resolve keeps_register_nft keeps_register_contract keeps_update_contract : torii.

Lemma keeps_move_token a t f to v ctx : keeps on_store (move_token (S := S) a t f to v ctx).
Proof. unfold move_token. keeps_solve. Qed.
Lemma keeps_refresh_token a t : keeps on_store (refresh_token (S := S) a t).
Proof. unfold refresh_token, Erc.ask_metadata. keeps_solve. Qed.
#[local] Hint Resolve keeps_move_token keeps_refresh_token : torii.

Lemma keeps_read_ids n d i : keeps on_store (read_ids (S := S) n d i).
Proof.
  revert i. induction n as [|n IH]; intros i; simpl; [keeps_step|]. unfold u256_at.
  repeat first [apply IH|keeps_step].
Qed.
Lemma keeps_batch_rest a f to d ids i ctx : keeps on_store (batch_rest (S := S) a f to d ids i ctx).
Proof.
  unfold batch_rest, felt_at. keeps_step; [keeps_step|]. keeps_step; [auto with torii|].
  apply keeps_spawn_all. unfold batch_tasks. apply Forall_fmap, Forall_true. intros [t j]. simpl. unfold u256_at.
  keeps_solve.
Qed.
Lemma keeps_refresh_all a ids : keeps on_store (spawn_all (refresh_token (S := S) a <$> ids)).
Proof. apply keeps_spawn_all, Forall_fmap, Forall_true. intros t. simpl. auto with torii. Qed.
#[local] Hint Resolve keeps_read_ids keeps_batch_rest keeps_refresh_all : torii.

(** The token processors. *)
Lemma keeps_erc_processors p ctx :
  p ∈ processors_of ERC20 ++ processors_of ERC721 ++ processors_of ERC1155 → keeps on_store (process p ctx).
Proof.
  intros Hp. apply list_elem_of_In in Hp. cbn [processors_of app In] in Hp.
  repeat (destruct Hp as [<-|Hp]); [..|done].
  all: cbn [process Erc20TransferProcessor Erc20LegacyTransferProcessor Erc7572ContractUriUpdatedProcessor
    Erc721TransferProcessor Erc721LegacyTransferProcessor Erc4906MetadataUpdateProcessor
    Erc4906BatchMetadataUpdateProcessor Erc1155TransferBatchProcessor Erc1155TransferSingleProcessor
    Erc1155LegacyTransferBatchProcessor Erc1155LegacyTransferSingleProcessor].
  all: unfold erc20_process, erc721_process, erc1155_single_process, felt_at, u256_at, read_token_ids, with_capacity.
  all: cbv zeta.
  all: keeps_solve.
Qed.

(** Those of the world and of the deployer. *)
Lemma keeps_read_model {A} what (f : list request → ModelRef → outcome ModelReadError A) r :
  keeps on_store (read_model (S := S) what f r).
Proof. intros w. unfold read_model, ask_model, st_map_err, on_store. simpl. reflexivity. Qed.
Lemma keeps_use_legacy r : keeps on_store (use_legacy (S := S) r).
Proof.
  intros w. unfold use_legacy, ask_model, on_store.
  destruct (read_use_legacy_storage (requests w) r) as [|[]|]; simpl; reflexivity.
Qed.
Lemma keeps_decode {A} (f : WorldEvent → option A) e : keeps on_store (decode (S := S) f e).
Proof. unfold decode. keeps_step. Qed.
Lemma keeps_text b : keeps on_store (text (S := S) b).
Proof. unfold text. keeps_step. Qed.
Lemma keeps_deserialize l b t : keeps on_store (deserialize (S := S) l b t).
Proof. unfold deserialize. keeps_step. Qed.
#[local] Hint Resolve keeps_read_model keeps_use_legacy keeps_decode keeps_text keeps_deserialize : torii.
Lemma keeps_namespaced_schema r : keeps on_store (namespaced_schema (S := S) r).
Proof. unfold namespaced_schema. keeps_solve. Qed.
Lemma keeps_store_model ctx sel r t l p u d d' b : keeps on_store (store_model (S := S) ctx sel r t l p u d d' b).
Proof. unfold store_model. keeps_solve. Qed.
Lemma keeps_try_retrieve a u : keeps on_store (try_retrieve (S := S) a u).
Proof. unfold try_retrieve. keeps_solve. Qed.
#[local] Hint Resolve keeps_namespaced_schema keeps_store_model keeps_try_retrieve : torii.

Lemma keeps_world_processors p ctx :
  p ∈ processors_of WORLD ++ processors_of UDC ++ processors_of OTHER → keeps on_store (process p ctx).
Proof.
  intros Hp. apply list_elem_of_In in Hp. cbn [processors_of app In] in Hp.
  repeat (destruct Hp as [<-|Hp]); [..|done].
  all: cbn [process RegisterModelProcessor RegisterEventProcessor RegisterExternalContractProcessor
    UpgradeModelProcessor UpgradeEventProcessor StoreSetRecordProcessor StoreDelRecordProcessor
    StoreUpdateRecordProcessor StoreUpdateMemberProcessor MetadataUpdateProcessor EventMessageProcessor
    ControllerProcessor].
  all: unfold register_model_process, register_event_process, external_contract_process, upgrade_model_process,
    upgrade_event_process, set_record_process, del_record_process, update_record_process, update_member_process,
    metadata_update_process, event_message_process, controller_process, system_label.
  all: keeps_solve.
Qed.
Lemma keeps_processors ct p ctx : p ∈ processors_of ct → keeps on_store (process p ctx).
Proof.
  intros Hp. destruct ct; first [apply keeps_world_processors; set_solver | apply keeps_erc_processors; set_solver].
Qed.

(** The transactions. *)
Lemma keeps_class_get a b : keeps on_store (StoreTx.class_get (S := S) a b).
Proof. intros w. unfold StoreTx.class_get, on_store. destruct (Cache.get _ _ _ _ _ _). simpl. reflexivity. Qed.
Lemma keeps_entrypoint_name c s : keeps on_store (StoreTx.entrypoint_name (S := S) c s).
Proof. unfold StoreTx.entrypoint_name. keeps_solve. Qed.
Lemma keeps_slice l a n : keeps on_store (StoreTx.slice (S := S) l a n).
Proof. unfold StoreTx.slice. keeps_solve. Qed.
#[local] Hint Resolve keeps_class_get keeps_entrypoint_name keeps_slice : torii.
Lemma keeps_outside_call cd o c : keeps on_store (StoreTx.parse_outside_call (S := S) cd o c).
Proof. unfold StoreTx.parse_outside_call, StoreTx.cd_at, StoreTx.to_usize. keeps_solve. Qed.
#[local] Hint Resolve keeps_outside_call : torii.
Lemma keeps_outside_loop n cd o c : keeps on_store (StoreTx.outside_loop (S := S) n cd o c).
Proof. revert o. induction n as [|n IH]; intros o; simpl; keeps_solve. Qed.
#[local] Hint Resolve keeps_outside_loop : torii.
Lemma keeps_process_outside c : keeps on_store (StoreTx.process_outside_calls (S := S) c).
Proof.
  unfold StoreTx.process_outside_calls, StoreTx.outside_calls, StoreTx.cd_at, StoreTx.to_usize. keeps_solve.
Qed.
#[local] Hint Resolve keeps_process_outside : torii.
Lemma keeps_parse_execute x a n : keeps on_store (StoreTx.parse_execute (S := S) x a n).
Proof.
  unfold StoreTx.parse_execute, StoreTx.parse_calls, StoreTx.parse_execute_call, StoreTx.parse_legacy_execute_call.
  keeps_solve.
Qed.
#[local] Hint Resolve keeps_parse_execute : torii.
Lemma keeps_transaction_processor ctx : keeps on_store (StoreTx.StoreTransactionProcessor (Tx := Tx) (S := S) ctx).
Proof.
  unfold StoreTx.StoreTransactionProcessor, StoreTx.transaction_calls_of. keeps_solve.
Qed.
End writes.

(** ** Dispatch *)
Section dispatch.
Context `{StarknetTypes} `{!IndexMap} `{!Node} `{DojoTypes} {DM : DashMap} {U : U256Ops}.
Context `{!LinkedHashMap EventKey} `{!DiGraphOps Tm.TaskData} {HO : HashOrder}.
Context `{CairoSerde} `{MetadataEnv} {DS : DojoSchema} {WE : WorldEnv} `{Hasher} {SC : Schedule}.
Context {TV : TxView TransactionContent} {CSD : CallSerde} {CE : ClassEnv}.
Context {S : Type} `{!ProcessorStorage S, !IndexerStorage S}.
#[local] Abbreviation engine := (Engine.Engine S ProcessorError).

(** Every name has a selector, and names of events of a type of contract that
    differ have different ones. *)
Definition selectors_ok : Prop :=
  (∀ ct, names_ok (S := S) (processors_of ct)) ∧
  ∀ ct (p p' : EventProcessor (World S) ProcessorError), p ∈ processors_of ct → p' ∈ processors_of ct →
    get_selector_from_name (event_key p) = get_selector_from_name (event_key p') → event_key p = event_key p'.

(** At most one processor of an event accepts it. *)
Lemma one_accepts ct (p p' : EventProcessor (World S) ProcessorError) e :
  p ∈ processors_of ct → p' ∈ processors_of ct → event_key p = event_key p' →
  validate p e = true → validate p' e = true → p = p'.
Proof.
  intros Hp Hp' Hk Hv Hv'. apply list_elem_of_In in Hp, Hp'.
  destruct ct; cbn [processors_of In] in Hp, Hp';
    repeat (destruct Hp as [<-|Hp]); try done; repeat (destruct Hp' as [<-|Hp']); try done;
    exfalso; cbn in Hv, Hv'; apply andb_prop in Hv as [Hv _], Hv' as [Hv' _];
    unfold keys_len in *; apply Nat.eqb_eq in Hv, Hv'; lia.
Qed.

(** The event is stored first, when raw events are wanted. *)
Definition after_raw (config : Engine.EngineConfig) (id : string) (ev : Event) (h : Felt) (bt : Z)
    (m : st engine (Engine.ProcessError ProcessorError) unit) : st engine (Engine.ProcessError ProcessorError) unit :=
  (if Engine.raw_events config then Engine.on_storage Engine.ProcessStorage (store_event id ev h bt)
   else st_ret tt) ;;; m.

(** The task of an event, by the processor that accepts it. *)
Definition add_to_task (config : Engine.EngineConfig) (p : EventProcessor (World S) ProcessorError) (ct : ContractType)
    (bn bt : Z) (id : string) (ev : Event) (at_head : bool) : st engine (Engine.ProcessError ProcessorError) unit := λ s,
  match task_identifier p ev, task_dependencies p ev, indexing_mode p ev (Engine.event_processor_config config) with
  | Some i, Some deps, Some mode =>
      (Ok tt, Engine.set_task_manager (Tm.add_parallelized_event_with_dependencies i deps
         (Tm.mkPE mode ct (from_address ev) bn bt id ev at_head) (Engine.task_manager s)) s)
  | _, _, _ => (Panic, s)
  end.

Lemma default_processors_map procs : selectors_ok → default_processors (S := S) = Some procs →
  catch_all_event procs = RawEventProcessor ∧ proc_block procs = [] ∧
  proc_transaction procs = [StoreTx.StoreTransactionProcessor] ∧
  ∀ ct, ∃ pm, event_processors procs !! ct = Some pm ∧
    ∀ key, pm !! key = if decide (with_key key (processors_of ct) = []) then None
                       else Some (with_key key (processors_of ct)).
Proof.
  intros [Hok _]. destruct (initialize_spec Hok) as (m & Hm & Hpm). unfold default_processors. rewrite Hm.
  by intros [= <-].
Qed.

(** What is done with an event, by the processors of its name. *)
Lemma process_event_by_key config procs ct ev k bn bt id h at_head (s : engine) :
  selectors_ok → default_processors = Some procs → keys ev !! 0%nat = Some k →
  Engine.process_event config procs bn bt id ev h ct at_head s =
    after_raw config id ev h bt
      (match with_key k (processors_of ct) with
       | [] => st_ret tt
       | l => match find (λ p, validate p ev) l with
              | Some p => add_to_task config p ct bn bt id ev at_head
              | None => st_lift Panic
              end
       end) s.
Proof.
  intros Hok Hd Hk. destruct (default_processors_map procs Hok Hd) as (Hraw & _ & _ & Hm).
  destruct (Hm ct) as (pm & Hct & Hpm). unfold Engine.process_event, after_raw, st_bind.
  match goal with |- match ?m s with _ => _ end = _ => destruct (m s) as [[[]|x|] s1]; [|done..] end.
  rewrite Hk. cbn [st_lift unwrap]. unfold get_event_processors. rewrite Hct. cbn [st_lift unwrap].
  rewrite Hpm, Hraw. destruct (with_key k (processors_of ct)) as [|q l].
  { rewrite decide_True by done. by destruct s1. }
  rewrite decide_False by done. destruct (find _ (q :: l)) as [p|]; [|done].
  cbn [st_lift unwrap]. unfold add_to_task.
  destruct (task_identifier p ev); [|done]. cbn [st_lift unwrap]. destruct (task_dependencies p ev); [|done].
  cbn [st_lift unwrap]. by destruct (indexing_mode p ev _).
Qed.

(** C13: an event goes to the processor that accepts it. Whatever the type of its
    contract, the registry of the program finds the processor with the name of
    the event that accepts its shape, there is no other one, and the event is
    added to the task that processor declares, once, after the raw event has been
    stored. An event whose name no processor has is stored and changes nothing
    else. *)
Theorem event_dispatched config procs ct ev k bn bt id h at_head (s : engine) :
  selectors_ok → default_processors = Some procs → keys ev !! 0%nat = Some k →
  (∀ p : EventProcessor (World S) ProcessorError,
     p ∈ processors_of ct → get_selector_from_name (event_key p) = Some k → validate p ev = true →
     (∀ p', p' ∈ processors_of ct → get_selector_from_name (event_key p') = Some k → validate p' ev = true → p' = p) ∧
     Engine.process_event config procs bn bt id ev h ct at_head s =
       after_raw config id ev h bt (add_to_task config p ct bn bt id ev at_head) s) ∧
  ((∀ p : EventProcessor (World S) ProcessorError,
      p ∈ processors_of ct → get_selector_from_name (event_key p) ≠ Some k) →
     Engine.process_event config procs bn bt id ev h ct at_head s = after_raw config id ev h bt (st_ret tt) s).
Proof.
  intros Hok Hd Hk. rewrite (process_event_by_key config procs ct ev k bn bt id h at_head s Hok Hd Hk). split.
  - intros p Hp Hkey Hv.
    assert (∀ p', p' ∈ processors_of ct → get_selector_from_name (event_key p') = Some k → validate p' ev = true →
      p' = p) as Huniq.
    { intros p' Hp' Hkey' Hv'. apply (one_accepts ct p' p ev); try done. apply (proj2 Hok ct); congruence. }
    split; [done|]. assert (p ∈ with_key k (processors_of ct)) as Hin by (by apply list_elem_of_filter).
    assert (find (λ p, validate p ev) (with_key k (processors_of ct)) = Some p) as Hfind.
    { destruct (find _ _) as [p'|] eqn:Hf.
      - apply find_some in Hf as [Hf Hv']. apply list_elem_of_In, list_elem_of_filter in Hf as [Hkey' Hp'].
        f_equal. by apply Huniq.
      - apply list_elem_of_In in Hin. apply (find_none _ _ Hf) in Hin. congruence. }
    destruct (with_key k (processors_of ct)); [by apply elem_of_nil in Hin|]. by rewrite Hfind.
  - intros Hnone. destruct (with_key k (processors_of ct)) as [|p l] eqn:Hl; [done|].
    assert (p ∈ with_key k (processors_of ct)) as [Hkey Hp]%list_elem_of_filter by (rewrite Hl; left).
    by destruct (Hnone p Hp).
Qed.

(** An event of a known name with an unexpected shape stops the indexer. If a
    contract of a type with processors for the name emits an event that none of
    them accepts, processing it panics, after the raw event has been stored: a
    contract registered as ERC20 that emits a [Transfer] with neither three keys
    and two data felts nor one key and four data felts is enough. *)
Theorem malformed_event_panics config procs ct ev k bn bt id h at_head (s : engine) :
  selectors_ok → default_processors = Some procs → keys ev !! 0%nat = Some k →
  (∃ p : EventProcessor (World S) ProcessorError,
     p ∈ processors_of ct ∧ get_selector_from_name (event_key p) = Some k) →
  (∀ p : EventProcessor (World S) ProcessorError, p ∈ processors_of ct →
     get_selector_from_name (event_key p) = Some k → validate p ev = false) →
  Engine.process_event config procs bn bt id ev h ct at_head s = after_raw config id ev h bt (st_lift Panic) s.
Proof.
  intros Hok Hd Hk (p & Hp & Hkey) Hno. rewrite (process_event_by_key config procs ct ev k bn bt id h at_head s Hok Hd Hk).
  assert (p ∈ with_key k (processors_of ct)) as Hin by (by apply list_elem_of_filter).
  assert (find (λ p, validate p ev) (with_key k (processors_of ct)) = None) as Hfind.
  { destruct (find _ _) as [p'|] eqn:Hf; [|done]. apply find_some in Hf as [Hf Hv].
    apply list_elem_of_In, list_elem_of_filter in Hf as [Hkey' Hp']. by rewrite Hno in Hv. }
  destruct (with_key k (processors_of ct)); [by apply elem_of_nil in Hin|]. by rewrite Hfind.
Qed.
End dispatch.

(** ** The program as it is put together *)
Section program.
Context `{ExecutorEnv} `{Primitives} {TT : TyText} {WV : WriteEnv} `{!StarknetTypes} `{!Storage.ReceiptText}.
Context `{!IndexMap} `{!Node} {DM : DashMap} {U : U256Ops} {HO : HashOrder}.
Context `{!LinkedHashMap EventKey} `{!DiGraphOps Tm.TaskData, !DiGraphSpec Tm.TaskData}.
Context `{CairoSerde} `{MetadataEnv} {DS : DojoSchema} {WE : WorldEnv} `{Hasher} {SC : Schedule}.
Context {TV : TxView TransactionContent} {CSD : CallSerde} {CE : ClassEnv}.
Context (write_config : WriteConfig) (config : Engine.EngineConfig) (dojo_related_events : gset Felt).
#[local] Instance program_storage : ProcessorStorage Storage.Sql := Writes.sql_processor_storage write_config.
#[local] Abbreviation world := (World Storage.Sql).

(** A controller written in the background. *)
Definition controllers_step (w w' : world) : Prop :=
  ∃ s, Controllers.adds (storage w) s ∧ w' = set_storage s w.

Lemma controllers_step_writes : Engine.controllers_write controllers_step.
Proof.
  intros w w' (s & (u & a & t & ->) & ->). split; [|done]. exact (add_controller_spec (R := Writes.same_pool) u a t _).
Qed.

Lemma default_processors_write procs : selectors_ok → default_processors = Some procs →
  Engine.processors_write procs.
Proof.
  intros Hok Hd. destruct (default_processors_map procs Hok Hd) as (Hraw & Hb & Ht & Hm). split.
  - intros ct m k l p ctx Hct Hk Hp. destruct (Hm ct) as (pm & Hpm & Hkey). rewrite Hct in Hpm. injection Hpm as ->.
    rewrite Hkey in Hk. case_decide; [done|]. injection Hk as <-. apply list_elem_of_filter in Hp as [_ Hp].
    exact (keeps_processors Writes.same_pool ct p ctx Hp).
  - intros ctx. rewrite Hraw. intros w. simpl. reflexivity.
  - intros p ctx. rewrite Ht. intros ->%list_elem_of_singleton.
    exact (keeps_transaction_processor Writes.same_pool ctx).
  - intros p n t. rewrite Hb. by intros ?%elem_of_nil.
Qed.

End program.

(** ** Witnesses

    One ERC20 contract at address 9, known to the storage, with a transfer of five
    from 1 to 2 in block 2 and an event no processor has in block 3. *)
Section witnesses.
(** Values as strings of bits, for structures. *)
Fixpoint bits_of (p : positive) : string :=
  match p with
  | xH => EmptyString
  | xO p => String (Ascii.ascii_of_nat 48) (bits_of p)
  | xI p => String (Ascii.ascii_of_nat 49) (bits_of p)
  end.
Fixpoint of_bits (s : string) : positive :=
  match s with
  | EmptyString => xH
  | String c s => if Ascii.eqb c (Ascii.ascii_of_nat 48) then xO (of_bits s) else xI (of_bits s)
  end.
Lemma of_bits_of p : of_bits (bits_of p) = p.
Proof. induction p; simpl; congruence. Qed.
#[local] Existing Instances Ex.ok_env.
#[local] Abbreviation packed := (string * list (string * string * bool))%type.
Definition demo_pack (n : string) (ms : list Member) : string :=
  bits_of (encode ((n, (λ m, (member_name m, member_ty m : string, member_key m)) <$> ms) : packed)).
Definition demo_member (x : string * string * bool) : Member := mkMember x.1.1 (x.1.2 : @Ty (@env_dojo Ex.ok_env)) x.2.
Definition demo_unpack (s : string) : option (string * list Member) :=
  match countable.decode (of_bits s) : option packed with
  | Some (n, ms) => Some (n, demo_member <$> ms)
  | None => None
  end.
Lemma demo_unpack_pack n ms : demo_unpack (demo_pack n ms) = Some (n, ms).
Proof.
  unfold demo_unpack, demo_pack. rewrite of_bits_of, decode_encode. do 2 f_equal.
  rewrite <- list_fmap_compose. induction ms as [|[] ms IH]; [done|]. simpl. by f_equal.
Qed.
Definition demo_selector (name : string) : option Felt := Some (Zpos (encode name)).
#[local] Instance demo_schema : @DojoSchema (@env_dojo Ex.ok_env) Erc.words_serde := {|
  world_event _ := None;
  Struct := demo_pack;
  as_struct := demo_unpack;
  as_struct_Struct := demo_unpack_pack;
  WorldProcessors.ty_name _ := "";
  ty_deserialize _ _ t := Some t;
  ty_diff _ _ := None;
  get_selector_from_name := demo_selector;
  compute_selector_from_names _ _ := 77;
  poseidon_hash_many _ := 0;
  Uri := string;
  Ipfs s := s;
  uri_cid _ := None;
  icon_uri _ := None;
  cover_uri _ := None;
  metadata_from_json _ := Panic;
  base64_encode _ := "";
  datetime_from_timestamp n := Some n
|}.
#[local] Instance demo_reader : @WorldEnv (@env_dojo Ex.ok_env) := {|
  read_schema _ _ := Err OtherModelError;
  read_use_legacy_storage _ _ := Err ReaderEntrypointNotFound;
  read_layout _ _ := Err OtherModelError;
  read_unpacked_size _ _ := Ok 1;
  read_packed_size _ _ := Ok 1;
  lookup_post _ _ := None
|}.
#[local] Existing Instances Erc.words_serde Erc.silent_env in_order zero_hasher StoreTx.demo_serde StoreTx.demo_env
  ModelTable.demo_prims ModelTable.demo_text Writes.demo_write_env Fetcher.demo_types Writes.demo_text
  Fetcher.list_index_map gmap_dashmap Math.u256_checked canonical_order.
#[local] Instance demo_lhm : LinkedHashMap EventKey := list_lhm EventKey.
#[local] Instance demo_view : TxView Fetcher.TransactionContent := {| tx_view t := InvokeV3 1 [t] [] 0 |}.
#[local] Instance demo_storage : ProcessorStorage Storage.Sql := Writes.sql_processor_storage Writes.demo_config.
Definition demo_procs : option (Processors (World Storage.Sql) ProcessorError TransactionContent) := default_processors.
Lemma demo_selectors : selectors_ok (S := Storage.Sql).
Proof.
  split.
  - intros ct. apply Forall_true. intros p. eexists. reflexivity.
  - intros ct p p' _ _ [= Heq]. by apply (inj encode) in Heq.
Qed.

Definition demo_event : Event := mkEvent 9 [Zpos (encode "Transfer"); 1; 2] [5; 0].
Definition demo_chain (a : Felt) : list EmittedEvent :=
  if decide (a = 9) then [mkEmitted 9 (keys demo_event) (data demo_event) (Some 2) 5; mkEmitted 9 [2] [] (Some 3) 6]
  else [].
Definition demo_answer (r : ProviderRequestData) : ProviderResponseData :=
  match r with
  | GetEvents f =>
      REvents (mkPage (filter (λ e, from_block f ≤ Fetcher.block_of e ≤ 3) (demo_chain (filter_address f))) None)
  | _ => Fetcher.demo_answer r
  end.
#[local] Instance demo_node : Node :=
  {| block_hash_and_number _ := Some (77, 3); get_preconfirmed_block _ := Some None;
     batch_requests _ _ _ reqs := Some (demo_answer <$> reqs) |}.
#[local] Abbreviation demo_engine := (Engine.Engine Storage.Sql ProcessorError).
Definition demo_config : Engine.EngineConfig := Engine.mkEngineConfig Fetcher.demo_config 2 true default_config.
Definition no_processors : Processors (World Storage.Sql) ProcessorError TransactionContent :=
  mkProcessors [] [] RawEventProcessor ∅.
Definition procs : Processors (World Storage.Sql) ProcessorError TransactionContent :=
  default no_processors default_processors.
Definition demo_start : demo_engine :=
  Engine.new demo_config procs
    (mkWorld (Storage.mkSql Ex.demo_state true) (Cache.mkCache (Cache.mkModelCache ∅) Cache.empty_erc) ∅ []).
Definition demo_fetched := Engine.fetch_batch demo_config 1 demo_start.
Definition demo_batch : Fetcher.FetchResult * gmap Felt ContractType :=
  match demo_fetched.1 with
  | Ok (Some b) => b
  | _ => (Fetcher.mkFetchResult (Fetcher.mkRange ∅) None (Fetcher.mkCursors ∅ ∅), ∅)
  end.
Definition demo_kept : demo_engine := Engine.set_cached_fetch (Some demo_batch) demo_fetched.2.
Definition demo_sorted := Engine.sort_events demo_config procs ∅ demo_batch.1 demo_batch.2 demo_kept.
Definition demo_tm := Engine.task_manager demo_sorted.2.
Definition demo_data : Tm.TaskData :=
  default Tm.default_task_data (Adm.get 0 (Tn.tasks (Tm.task_network demo_tm))).
Definition demo_handled :=
  Tm.run_task (Tm.processors demo_tm) (Tm.event_processor_config demo_tm) demo_data (Engine.world demo_sorted.2).
Definition demo_finish :=
  Engine.finish (PE := ProcessorError) demo_batch.1
    (Engine.set_world demo_handled.2 (Engine.set_task_manager (Tm.clear_tasks demo_tm) demo_sorted.2)).
Definition demo_commit := Engine.on_storage Engine.EngineStorage execute (Engine.set_cached_fetch None demo_finish.2).

Lemma demo_default : default_processors = Some procs.
Proof.
  destruct (initialize_spec (S := Storage.Sql) (proj1 demo_selectors)) as (m & Hm & _).
  unfold procs, default_processors. by rewrite Hm.
Qed.
Lemma run_clean : Engine.clean demo_start.
Proof. split_and!; [done| |done]. split; apply map_eq; intros k; vm_compute; reflexivity. Qed.
Lemma run_one_task :
  Tm.process_tasks demo_tm (Ok tt) [Tn.Started 0; Tn.Finished 0 (Ok tt)] (Tm.clear_tasks demo_tm).
Proof.
  unfold Tm.process_tasks. replace (Tn.is_empty (Tm.task_network demo_tm)) with false by (vm_compute; reflexivity).
  exists (Ok tt), (Tn.clear (Tm.task_network demo_tm)). split_and!; [|done..].
  apply (Tn.process_ok _ [[(0, demo_data)]]); [vm_compute; reflexivity..|].
  change (Tn.semaphore (Tm.task_network demo_tm)) with 2%nat. unfold Tn.initial.
  eapply rtc_l; [apply Tn.step_next_level; [by intros [? ?%not_elem_of_nil]|done]|].
  eapply rtc_l; [apply (Tn.step_start _ _ _ [] []); simpl; lia|].
  eapply rtc_l; [apply (Tn.step_finish _ _ _ _ [] []) with (r := Ok tt)|]. simpl.
  eapply rtc_l; [apply Tn.step_done; [|done]; intros [? [=]%list_elem_of_singleton]|]. apply rtc_refl.
Qed.
Lemma demo_no_controllers (e : demo_engine) :
  Engine.with_controllers (controllers_step Writes.demo_config) e e.
Proof. exists (Engine.world e). split; [done|]. by destruct e. Qed.

Definition demo_after : Engine.Loop := Engine.mkLoop demo_commit.2 1 1 false false Engine.Running.
Lemma run_turn :
  Engine.turn demo_config procs ∅ (controllers_step Writes.demo_config) (Engine.start_loop demo_start) demo_after.
Proof.
  eapply (Engine.turn_processed _ _ _ _ (Engine.start_loop demo_start) demo_batch demo_kept demo_kept demo_finish.2
    (Engine.set_cached_fetch None demo_finish.2) (Ok tt) demo_commit.2); [done| |apply demo_no_controllers| | |].
  - apply (Engine.batch_fetched _ _ 1); [done|]. apply outcome_of. vm_compute. reflexivity.
  - eapply (Engine.process_tasks_Ok _ _ _ _ _ _ _ demo_sorted.2 [Tn.Started 0; Tn.Finished 0 (Ok tt)]
      (Tm.clear_tasks demo_tm) demo_handled.2).
    + apply outcome_of. vm_compute. reflexivity.
    + apply run_one_task.
    + apply Engine.tw_started. eapply (Engine.tw_finished _ _ 0 demo_data (Ok tt)); [vm_compute; reflexivity| |done|apply Engine.tw_nil].
      apply outcome_of. vm_compute. reflexivity.
    + apply outcome_of. vm_compute. reflexivity.
  - apply demo_no_controllers.
  - apply outcome_of. vm_compute. reflexivity.
Qed.


Lemma event_dispatched_witness :
  Engine.process_event demo_config procs 2 102 "id" demo_event 5 ERC20 true demo_kept =
  after_raw demo_config "id" demo_event 5 102
    (add_to_task demo_config Erc20TransferProcessor ERC20 2 102 "id" demo_event true) demo_kept.
Proof.
  refine (proj2 (proj1 (event_dispatched demo_config procs ERC20 demo_event (Zpos (encode "Transfer")) 2 102 "id" 5 true
    demo_kept demo_selectors demo_default eq_refl) Erc20TransferProcessor _ _ _)).
  - left.
  - reflexivity.
  - reflexivity.
Defined.

(** A transfer with one data felt too many. *)
Definition demo_malformed : Event := mkEvent 9 [Zpos (encode "Transfer"); 1; 2] [5; 0; 0].
Lemma malformed_event_panics_witness :
  Engine.process_event demo_config procs 2 102 "id" demo_malformed 5 ERC20 true demo_kept =
  after_raw demo_config "id" demo_malformed 5 102 (st_lift Panic) demo_kept.
Proof.
  apply (malformed_event_panics demo_config procs ERC20 demo_malformed (Zpos (encode "Transfer")) 2 102 "id" 5 true
    demo_kept demo_selectors demo_default eq_refl).
  - exists Erc20TransferProcessor. split; [left|reflexivity].
  - intros p Hp Hkey. apply list_elem_of_In in Hp. cbn in Hp.
    repeat destruct Hp as [<-|Hp]; [reflexivity..|done|done].
Defined.
End witnesses.

End Registry.
